(* ===== verification/_CoqProject ===== *)
-Q . S2P
Prelude.v
Cursor.v
DynamicArray.v
StdMap.v
Crc32.v
Key.v
Val.v
DeletedSet.v
KVStore.v
RocksdbWrapper.v
RocksdbProps.v
Recover.v
MergeSort.v
Snapshot.v
Packet.v
PacketCodec.v
PacketCache.v
PacketScan.v
Outband.v
PacketServer.v
PacketSwitch.v
Server.v
ServerSpec.v
ServerProps.v
ServerThreads.v
Fragment.v
Reassembly.v
PktRingBuffer.v
MessageQueue.v
RecvLarge.v
RecvSpec.v
RecvProps.v
Delivery.v
RecvClient.v
MultiSrc.v
RemoteClient.v
RemoteClientProps.v
EndToEnd.v
SwitchOS.v
SwitchMeta.v
SwitchSnapshot.v
SwitchLoad.v
SwitchRollback.v
SwitchPop.v
SwitchEvict.v
SwitchSystem.v
SwitchHandshake.v
Controller.v
ControllerProps.v
SwitchRecover.v
ControlPath.v
ServerRecover.v
Reflector.v
SnapshotPath.v
ConcurrentMap.v
ConcurrentMapTree.v
ConcurrentMapNodes.v
ConcurrentMapHeap.v
ConcurrentMapSplit.v
ConcurrentMapInsert.v
ConcurrentMapProps.v
ConcurrentMapSpecial.v
SpecialRace.v
