(* ===== verification/Prelude.v ===== *)
(** * FarReach: an in-switch write-back cache and its storage servers

    FarReach keeps the hot records of a key-value store in a programmable
    switch, writes included.  Clients send requests through the switch; a
    request for a record that is not cached reaches the storage server that
    owns the key.  Servers keep records in RocksDB behind a wrapper, ask the
    controller to cache hot records, take evicted records back, make two-phase
    snapshots together with the switch, and replay the backup of the switch
    after a crash.  The switch OS, which runs on the CPU of the switch, installs
    and evicts records, collects what changes during a snapshot and reports the
    records of the switch; the controller relays populations and evictions and
    leads everybody through a snapshot.  This library models servers, switch OS,
    controller, the transport of large packets, the request loop of the clients
    and the formats all parts speak, from src/common and src/farreach, and proves
    them correct.

    ** Files

    The files are listed in the order of their dependencies.

    - [Prelude]: errors and the [res] monad (a failed INVARIANT, exit(), a null
      dereference and an access out of bounds are results), machine integers,
      little- and big-endian bytes, htons/htonl.
    - [Cursor]: readers and writers over a byte buffer, as the memcpy/offset code
      of the serializers; [codec] relates a writer and the reader of its bytes.
    - [DynamicArray]: common/dynamic_array.c, arrays that grow by doubling up to
      a capacity, with [int] arithmetic.
    - [StdMap]: std::map with the operations the sources use, as sorted lists over
      the [CppLess] interface.
    - [Crc32], [Key], [Val]: common/crc32.c, key.c, val.c, snapshot_record.c.
    - [DeletedSet]: common/deleted_set_impl.h, the two maps of recent deletions.
    - [KVStore]: the interface of RocksDB: get, put, delete, iterators and
      snapshots as a class of operations ([KVStore]) with its documented laws
      ([KVStoreLaws]) and the absence of I/O errors ([KVStoreAvailable]), and an
      instance in memory.
    - [RocksdbWrapper]: common/rocksdb_wrapper.c and io_helper.c as state-passing
      functions on a [Wrapper] record, one definition per operation; files are a
      map from paths to contents.
    - [RocksdbProps]: a store against last-writer-wins versions.
    - [Recover]: run_server_recover of farreach/server_impl.h.  [ServerRecover]:
      recover of farreach/server.c, which builds the maps it replays from the backups
      of the clients and the snapshot of the controller.
    - [MergeSort], [Snapshot]: range queries and snapshots.
    - [Packet], [PacketCodec], [PacketCache], [PacketScan], [PacketServer],
      [PacketSwitch]: common/packet_format_impl.h: the header, requests and
      responses, packets about cached records, range queries, what the server
      parses and sends, and the packets between switch OS and data plane.
    - [Outband]: farreach/outband_packet_format.c, messages between switch OS,
      controller and server.
    - [Server]: the threads of farreach/server_impl.h: worker, evict server,
      snapshot server, snapshot data server; a step takes the bytes of one
      received message to the shared state, the buffers and the bytes sent.
    - [ServerSpec], [ServerProps], [ServerThreads]: what the threads promise and
      that they keep it.
    - [Fragment]: udpsendlarge of common/socket_helper.c, which cuts a packet into
      fragments, and the tables by packet type it needs from packet_format_impl.h.
    - [Reassembly]: bodies written at their offsets, in any order.
    - [PktRingBuffer]: common/pkt_ring_buffer.c, the packets of other clients that
      arrive while a worker collects a large one; [Entry] lists are the queue a
      ring stands for.
    - [RecvLarge]: udprecvlarge; a socket is the list of datagrams and timeouts
      still to come.  [RecvSpec], [RecvProps]: what it promises on lists of packets,
      and the refinement.  [Delivery]: all requests of a socket, and large PUTs.
      [RecvClient]: the receivers without a ring.
    - [MultiSrc]: udprecvlarge_multisrc, for range query responses.
    - [RemoteClient], [RemoteClientProps]: the request loop of run_client_worker in
      farreach/remote_client.c, over a state with buffers, socket and counters.
    - [EndToEnd]: client, switch header, receiver and worker together.
    - [MessageQueue]: farreach/message_queue_impl.h, the queue between two threads
      of the switch OS; writer and reader interleave at every access to memory.
    - [SwitchOS]: popserver, popworker and specialcaseserver of farreach/switchos.c
      over the shared state [Os] (queue, map and arrays of cached keys, backups,
      flags) and the sockets and buffers [Io].  [SpecialMap] is the interface of
      the concurrent map that holds the special cases.
    - [SwitchSnapshot]: the snapshotserver; [snap_pc] says in which of its waiting
      loops it stands.  [SwitchMeta]: the invariant of the metadata.  [SwitchLoad],
      [SwitchRollback]: loading the records, rollback, and the data the controller
      gets.  [SwitchPop], [SwitchEvict]: one population and one eviction with
      everything that can arrive.  [SwitchSystem]: the four threads together, as
      a step relation on turns.  [SwitchHandshake]: the same threads interrupted in
      the middle of their turns; [pw_step] and [sp_step] are the pieces of a turn, and
      [popworker_turn] and [special_turn] put them together again.
    - [Controller], [ControllerProps]: the threads of farreach/controller.c;
      [snapshot_round] is a turn of the snapshotclient.
    - [SwitchRecover]: recover of farreach/switchos.c.
    - [ControlPath]: populations and evictions from server to switch and back.
    - [Reflector]: the two threads of farreach/reflector_impl.h, which pass packets
      between switch OS and data plane.
    - [SnapshotPath]: a snapshot from the switch through the controller to the range
      queries of a server.
    - [ConcurrentMap]: farreach/concurrent_map_impl.h and concurrent_val.h, the
      B+-tree of special cases: a heap [nodes] of locked, versioned nodes, one
      definition per method.  [ConcurrentMapTree] has the invariant [tree_ok]: levels
      of nodes whose entries are the nodes of the level below.  [ConcurrentMapNodes]:
      searching, copying and splitting the arrays of a node.  [ConcurrentMapHeap]:
      weakest preconditions over the parts of the heap.  [ConcurrentMapSplit]: the
      loop that climbs after a split.  [ConcurrentMapInsert]: insertion into a tree.
      [ConcurrentMapProps]: scans, and the refinement.  [ConcurrentMapSpecial]: the
      interface [SpecialMap] discharged.
    - [SpecialRace]: process_specialcase of farreach/switchos.c in two steps on the
      tree, called by threads that interleave.

    ** What the theorems show

    - The store ([RocksdbProps]): [put] and [remove] are last-writer-wins updates
      of the version (value or deletion, sequence number) of a key, [get] reads
      it, every run keeps the invariant, and evicted records may reach the server
      before or after a newer write.  [Recover]: replaying a backup brings keys forward only, and can be
      repeated.  [ServerRecover]: from the files clients and controller have left,
      every key of the server gets the newer of its stored and its backed-up version.
    - Snapshots ([Snapshot], [ServerThreads]): a range query returns the merge of
      the store, the deletions and the records of the switch at the moment
      SNAPSHOT_START was handled, whatever the worker does between the two phases,
      for the keys that are not behind the last record read of a source ([reached]).
    - The threads ([ServerProps], [ServerThreads]): on every admissible packet the
      worker refines a small specification on bytes; consequences over runs; the
      evict server; range queries over the wire.
    - Transport ([PktRingBuffer], [RecvProps], [Delivery], [RecvClient]): the ring is
      a bounded queue, the receiver refines a specification on packets, and every
      interleaving of the fragments of different clients is delivered whole, in
      the order of first arrival.
    - The client ([RemoteClientProps]): a request ends with its first matching
      answer, after any number of rounds that time out.  [EndToEnd]: the value of a
      large PUT reaches the store.
    - The switch OS ([SwitchSystem]): in every interleaving of the turns of its
      threads the metadata stays consistent.  [SwitchHandshake]: the assertions of the
      source on snapshots hold also when a snapshot begins or ends in the middle of a
      population or an eviction, because the snapshotserver waits for the others.
      [SwitchRollback]: what it sends is, per entry, the oldest reported record or
      the loaded one, for reports that do not overlap.  [SwitchLoad], [SwitchEvict]: its exchanges with the data plane
      end with the right result whatever is lost, repeated or reordered.
      [MessageQueue]: its queue is first in, first out.
    - The controller ([ControllerProps]): a round leads everybody through the
      commands in order, every server gets its own records, and the snapshot is
      stored; [SwitchRecover]: recovery puts a stored snapshot back.
    - Between the components ([ControlPath]): a population of a worker ends in an
      entry of the switch, an evicted record in the store of its server.
      [SnapshotPath]: a range query sees, per key it reaches, the newest of the store at
      the time of the snapshot and of the record that came from the switch.  [Reflector]: in every interleaving of the
      reflector's threads, requests and answers reach the right side.
    - The concurrent map ([ConcurrentMapProps]): the tree is a sorted map for every
      sequence of operations of one thread, with no assertion failing;
      [ConcurrentMapSpecial]: it has what the threads of the switch OS rely on.
      [SpecialRace]: reports of special cases that overlap never fail an assertion, and
      keep the record closest to the snapshot unless two of one entry overlap.
    - Formats ([Key], [Val], [DeletedSet], [Packet*], [Outband]): what is written
      is read back, buffers are large enough, encodings keep the order of keys.
    - Theorems of kind error prove where the code does not do what it means to
      (they are listed as findings): statuses lost in SNAPSHOT_SENDDATA, fragment
      numbers read as 0, a byte sent from behind the array, reports of special cases
      that overwrite each other, queries that abort or skip keys, deletions stored
      with the wrong snapshot, range query responses that abort the client, large GETs
      that are repeated for ever, entries that are evicted because they were sampled
      twice, lost acknowledgements that end a server or stop a snapshot.

    ** Bounds and fuel

    [grow] doubles a capacity with fuel 32; [DynamicArray] shows that this is
    enough for every request within a maximal capacity of 2^30, and all callers
    pass MAX_LARGE_BUFSIZE = 8388608.  [merge_loop] runs on the two lists
    structurally and [MergeSort] shows that it always finishes.  [send_fragments]
    has one round per fragment, of which a 16-bit counter allows 65535.  The
    receive loops are structural in the list of what arrives.  The loops of the
    client have one round more than there are datagrams, which suffices because
    each round takes at least one; a receive from a socket that gets nothing more
    is the result [Blocked].  The loops of the switch OS and of the controller that
    wait for answers have one round per datagram or timeout for the same reason.
    The loops of the concurrent map have [loop_fuel] rounds, two more than nodes were
    allocated, which is more than the tree is high and more than it has leaves;
    [scan_fuel] allows 15 pairs per node.  Its 60-bit versions of values bound the
    number of operations.
    All other recursion is structural.  Hypotheses on sizes are those of the C types
    ([is_u16], [is_u32], [is_s32]) and of the buffers (MAX_BUFSIZE = 40960).

    ** What is not modelled

    - Locks and atomics: an operation of the wrapper, and a step of a thread on
      one message, is atomic.  The threads of the switch OS interleave at the turns
      of their loops and, for the snapshotserver, at the loops in which it waits
      for the others; [SwitchHandshake] cuts the turns of popworker and
      specialcaseserver where they wait (a test of flags and the assignment that
      depends on it stay one step), [SpecialRace] splits a report of a special case
      in two steps, and [MessageQueue] goes down to single accesses.  The
      subthreads of the controller run one after the other: each has a socket and
      a buffer of its own.  Timeouts of the server's own sockets.
    - RocksDB: the interface [KVStore]; the P4 programs of the switch, of which
      [EndToEnd] takes the header it writes as an argument; the generation of
      requests, the dynamic workload mode, loaders and test drivers; reading of ini
      files; DPDK; socket set-up, TCP and raw sockets.
    - udprecvlarge_multisrc_dist and the multi-switch methods.
    - The other methods of the repository (nocache, netcache, distcache,
      distreach), which share src/common.
    - Two threads at once in the concurrent map: its operations run one after the
      other, and reads that are repeated because a writer came between them are not
      reached.  malloc succeeds.
    - The ptf scripts and the data plane: what arrives from them is arbitrary, or
      assumed where a theorem says so.
    - Start-up of the processes, and the statistics the controller prints. *)

From Stdlib Require Import ZArith Lia List.
From stdpp Require Import base tactics list numbers option.

Open Scope Z_scope.

Declare Scope cpp_scope.
Delimit Scope cpp_scope with cpp.

(** ** Outcomes of C++ code

    [Ok a] is a normal return.  [Err e] is the end of the process, with the
    reason the code has for it. *)

Inductive fault :=
  | InvariantFailed   (* INVARIANT(cond) with cond false: abort() *)
  | ExitCalled        (* exit(-1) after an error message *)
  | OutOfBounds       (* a memory access outside the object: undefined in C++ *)
  | DivByZero         (* integer division by zero: undefined in C++ *)
  | NullDeref         (* dereference of a null pointer or end() iterator *)
  | IntOverflow       (* signed int arithmetic out of range: undefined in C++ *)
  | BadAlloc          (* new[] with a negative length: std::bad_array_new_length *)
  | Blocked           (* recvfrom() on a socket that gets nothing more, or a
                         spin lock that nobody releases: no return *)
  | OutOfFuel         (* the bound on loop iterations of the model is reached *).

Inductive res (A : Type) :=
  | Ok (a : A)
  | Err (e : fault).
Arguments Ok {A} _.
Arguments Err {A} _.

#[global] Instance fault_eq_dec : EqDecision fault.
Proof. solve_decision. Defined.

#[global] Instance res_ret : MRet res := fun _ a => Ok a.
#[global] Instance res_bind : MBind res := fun _ _ f m =>
  match m with Ok a => f a | Err e => Err e end.
#[global] Instance res_fmap : FMap res := fun _ _ f m =>
  match m with Ok a => Ok (f a) | Err e => Err e end.

(** [INVARIANT(cond)] of common/helper.h (DEBUG_ASSERT is defined). *)
Definition INVARIANT (cond : bool) : res unit :=
  if cond then Ok tt else Err InvariantFailed.

Definition is_ok {A} (r : res A) : bool :=
  match r with Ok _ => true | Err _ => false end.

Lemma bind_Ok {A B} (m : res A) (f : A -> res B) b :
  (m ≫= f) = Ok b <-> exists a, m = Ok a /\ f a = Ok b.
Proof.
  destruct m as [a|e]; cbn; split.
  - eauto.
  - intros (a' & [= ->] & H); exact H.
  - discriminate.
  - intros (a' & H & _); discriminate.
Qed.

Lemma INVARIANT_Ok c u : INVARIANT c = Ok u <-> c = true.
Proof. unfold INVARIANT; destruct u, c; split; congruence. Qed.

Lemma INVARIANT_true c : c = true -> INVARIANT c = Ok tt.
Proof. intros ->; reflexivity. Qed.

(** ** Machine integers

    A w-bit unsigned integer is the [Z] of its value; arithmetic wraps
    explicitly. *)

Definition u8 (x : Z) : Z := x mod 2 ^ 8.
Definition u16 (x : Z) : Z := x mod 2 ^ 16.
Definition u32 (x : Z) : Z := x mod 2 ^ 32.
Definition u64 (x : Z) : Z := x mod 2 ^ 64.
(** Conversion to a signed 32-bit [int] (two's complement, as gcc does). *)
Definition s32 (x : Z) : Z := (x + 2 ^ 31) mod 2 ^ 32 - 2 ^ 31.

Definition is_u8 (x : Z) : Prop := 0 <= x < 2 ^ 8.
Definition is_u16 (x : Z) : Prop := 0 <= x < 2 ^ 16.
Definition is_u32 (x : Z) : Prop := 0 <= x < 2 ^ 32.
Definition is_s32 (x : Z) : Prop := - 2 ^ 31 <= x < 2 ^ 31.

Definition sizeof_u16 : Z := 2.
Definition sizeof_u32 : Z := 4.
Definition sizeof_bool : Z := 1.

Ltac unfold_widths :=
  unfold u8, u16, u32, u64, s32, is_u8, is_u16, is_u32, is_s32,
    sizeof_u16, sizeof_u32, sizeof_bool in *.

(** Linear arithmetic with the width constants, division and remainder. *)
Ltac zlia :=
  unfold_widths; cbn [Z.pow Z.pow_pos Pos.iter Z.mul Pos.mul Pos.add] in *;
  Z.to_euclidean_division_equations; lia.

(** Signed [int] addition and multiplication, undefined when out of range. *)
Definition int_ck (x : Z) : res Z :=
  if (- 2 ^ 31 <=? x) && (x <? 2 ^ 31) then Ok x else Err IntOverflow.

Lemma int_ck_Ok x : is_s32 x -> int_ck x = Ok x.
Proof.
  unfold is_s32, int_ck. intros [H1 H2].
  now rewrite (proj2 (Z.leb_le _ _) H1), (proj2 (Z.ltb_lt _ _) H2).
Qed.

Lemma u16_id x : is_u16 x -> u16 x = x.
Proof. intros H. unfold u16, is_u16 in *. apply Z.mod_small. lia. Qed.

Lemma u32_id x : is_u32 x -> u32 x = x.
Proof. intros H. unfold u32, is_u32 in *. apply Z.mod_small. lia. Qed.

Lemma u32_range x : is_u32 (u32 x).
Proof. unfold is_u32, u32. apply Z.mod_pos_bound. lia. Qed.

Lemma u16_range x : is_u16 (u16 x).
Proof. unfold is_u16, u16. apply Z.mod_pos_bound. lia. Qed.

Lemma s32_id x : is_s32 x -> s32 x = x.
Proof. intros H. unfold s32, is_s32 in *. rewrite Z.mod_small; lia. Qed.

Lemma s32_u32 x : is_s32 x -> s32 (u32 x) = x.
Proof.
  intros H. unfold s32, u32.
  rewrite Zplus_mod_idemp_l. now apply s32_id.
Qed.

(** ** Bytes in memory

    The hosts are little-endian x86-64 machines: [memcpy(buf, &x, n)] writes
    [le_bytes n x] and [memcpy(&x, buf, n)] reads [le_val]. *)

Definition is_byte (b : Z) : Prop := 0 <= b < 256.
Abbreviation bytes_ok := (Forall is_byte).

Fixpoint le_bytes (n : nat) (x : Z) : list Z :=
  match n with
  | O => []
  | S n' => x mod 256 :: le_bytes n' (x / 256)
  end.

Fixpoint le_val (bs : list Z) : Z :=
  match bs with
  | [] => 0
  | b :: bs' => b + 256 * le_val bs'
  end.

(** Byte swaps of <arpa/inet.h> on a little-endian host. *)
Definition htons (x : Z) : Z := le_val (rev (le_bytes 2 x)).
Definition htonl (x : Z) : Z := le_val (rev (le_bytes 4 x)).
Definition ntohs := htons.
Definition ntohl := htonl.

Definition bool_byte (b : bool) : Z := if b then 1 else 0.
(** [memcpy(&b, p, sizeof(bool))], then a test of [b]. *)
Definition byte_bool (x : Z) : bool := negb (x =? 0).

Lemma length_le_bytes n x : length (le_bytes n x) = n.
Proof. revert x; induction n; intros x; cbn; auto. Qed.

Lemma le_bytes_ok n x : bytes_ok (le_bytes n x).
Proof.
  revert x; induction n as [|n IH]; intros x; cbn; constructor; auto.
  unfold is_byte. apply Z.mod_pos_bound; lia.
Qed.

Lemma le_val_bytes n x : le_val (le_bytes n x) = x mod 256 ^ Z.of_nat n.
Proof.
  revert x; induction n as [|n IH]; intros x; cbn [le_bytes le_val].
  - now rewrite Z.mod_1_r.
  - rewrite IH, Nat2Z.inj_succ, Z.pow_succ_r by lia.
    rewrite (Z.rem_mul_r x 256) by lia. lia.
Qed.

Lemma le_val_range bs : bytes_ok bs -> 0 <= le_val bs < 256 ^ Z.of_nat (length bs).
Proof.
  induction 1 as [|b bs Hb _ IH]; cbn [le_val length]; [lia|].
  unfold is_byte in Hb. rewrite Nat2Z.inj_succ, Z.pow_succ_r by lia. lia.
Qed.

Lemma le_bytes_val bs : bytes_ok bs -> le_bytes (length bs) (le_val bs) = bs.
Proof.
  induction 1 as [|b bs Hb _ IH]; cbn [le_val length le_bytes]; [reflexivity|].
  unfold is_byte in Hb. f_equal.
  - rewrite Z.add_mod, (Z.mul_comm 256), Z.mod_mul, Z.add_0_r, Z.mod_mod by lia.
    now apply Z.mod_small.
  - rewrite (Z.mul_comm 256), Z.div_add by lia.
    rewrite Z.div_small by lia. exact IH.
Qed.

Lemma le_bytes_u32 x : le_bytes 4 (u32 x) = le_bytes 4 x.
Proof.
  rewrite <- (le_bytes_val (le_bytes 4 x)) by apply le_bytes_ok.
  rewrite length_le_bytes, le_val_bytes. reflexivity.
Qed.

Lemma le_bytes_htonl x : le_bytes 4 (htonl x) = rev (le_bytes 4 x).
Proof.
  unfold htonl.
  rewrite <- (le_bytes_val (rev (le_bytes 4 x))) at 2
    by (apply Forall_rev, le_bytes_ok).
  reflexivity.
Qed.

Lemma le_bytes_htons x : le_bytes 2 (htons x) = rev (le_bytes 2 x).
Proof.
  unfold htons.
  rewrite <- (le_bytes_val (rev (le_bytes 2 x))) at 2
    by (apply Forall_rev, le_bytes_ok).
  reflexivity.
Qed.

Lemma ntohl_htonl x : ntohl (htonl x) = u32 x.
Proof.
  unfold ntohl at 1. unfold htonl at 1.
  rewrite le_bytes_htonl, rev_involutive, le_val_bytes. reflexivity.
Qed.

Lemma ntohs_htons x : ntohs (htons x) = u16 x.
Proof.
  unfold ntohs at 1. unfold htons at 1.
  rewrite le_bytes_htons, rev_involutive, le_val_bytes. reflexivity.
Qed.

Lemma htonl_range x : is_u32 (htonl x).
Proof.
  unfold htonl, is_u32.
  pose proof (le_val_range (rev (le_bytes 4 x)) (Forall_rev (le_bytes_ok 4 x))) as H.
  rewrite length_rev, length_le_bytes in H. exact H.
Qed.

Lemma htons_range x : is_u16 (htons x).
Proof.
  unfold htons, is_u16.
  pose proof (le_val_range (rev (le_bytes 2 x)) (Forall_rev (le_bytes_ok 2 x))) as H.
  rewrite length_rev, length_le_bytes in H. exact H.
Qed.

Lemma byte_bool_byte b : byte_bool (bool_byte b) = b.
Proof. now destruct b. Qed.

(** ** Big-endian fields *)

Definition be (n : nat) (x : Z) : list Z := rev (le_bytes n x).
Definition be_val (bs : list Z) : Z := le_val (rev bs).

Lemma length_be n x : length (be n x) = n.
Proof. unfold be. now rewrite length_rev, length_le_bytes. Qed.

Lemma be_ok n x : bytes_ok (be n x).
Proof. apply Forall_rev, le_bytes_ok. Qed.

Lemma be_val_be n x : be_val (be n x) = x mod 256 ^ Z.of_nat n.
Proof. unfold be_val, be. now rewrite rev_involutive, le_val_bytes. Qed.

Lemma be_be_val bs : bytes_ok bs -> be (length bs) (be_val bs) = bs.
Proof.
  intros H. unfold be, be_val. rewrite <- length_rev.
  rewrite le_bytes_val by now apply Forall_rev. apply rev_involutive.
Qed.

Lemma ntohl_be x : ntohl (le_val (be 4 x)) = u32 x.
Proof.
  unfold be. rewrite <- le_bytes_htonl, le_val_bytes.
  rewrite Z.mod_small by apply htonl_range. apply ntohl_htonl.
Qed.

Lemma ntohs_be x : ntohs (le_val (be 2 x)) = u16 x.
Proof.
  unfold be. rewrite <- le_bytes_htons, le_val_bytes.
  rewrite Z.mod_small by apply htons_range. apply ntohs_htons.
Qed.

Lemma le_val_app a b : le_val (a ++ b) = le_val a + 256 ^ Z.of_nat (length a) * le_val b.
Proof.
  induction a as [|x a IH]; cbn [app le_val length].
  - change (256 ^ Z.of_nat 0) with 1. lia.
  - rewrite IH, Nat2Z.inj_succ, Z.pow_succ_r by lia. lia.
Qed.

Lemma be_val_app a b : be_val (a ++ b) = be_val a * 256 ^ Z.of_nat (length b) + be_val b.
Proof. unfold be_val. rewrite rev_app_distr, le_val_app, length_rev. lia. Qed.

Lemma be_val_range bs : bytes_ok bs -> 0 <= be_val bs < 256 ^ Z.of_nat (length bs).
Proof.
  intros H. unfold be_val. rewrite <- length_rev. apply le_val_range. now apply Forall_rev.
Qed.

(** [memcmp] order on byte strings: the first difference decides, a proper
    prefix is smaller. *)
Fixpoint bytes_less (a b : list Z) : bool :=
  match a, b with
  | _, [] => false
  | [], _ :: _ => true
  | x :: a', y :: b' => (x <? y) || ((x =? y) && bytes_less a' b')
  end.

Lemma bytes_less_be_val a b :
  bytes_ok a -> bytes_ok b -> length a = length b ->
  bytes_less a b = (be_val a <? be_val b).
Proof.
  intros Ha. revert b. induction Ha as [|x a Hx Ha IH]; intros b Hb Hl.
  - destruct b; [reflexivity|discriminate].
  - destruct Hb as [|y b Hy Hb]; [discriminate|]. injection Hl as Hl.
    cbn [bytes_less]. rewrite (IH b Hb Hl).
    change (x :: a) with ([x] ++ a). change (y :: b) with ([y] ++ b).
    rewrite !be_val_app, <- Hl.
    change (be_val [x]) with (x + 256 * 0). change (be_val [y]) with (y + 256 * 0).
    pose proof (be_val_range a Ha) as Ra. pose proof (be_val_range b Hb) as Rb.
    rewrite <- Hl in Rb. set (p := 256 ^ Z.of_nat (length a)) in *.
    destruct (Z.ltb_spec x y), (Z.eqb_spec x y), (Z.ltb_spec (be_val a) (be_val b)),
      (Z.ltb_spec ((x + 256 * 0) * p + be_val a) ((y + 256 * 0) * p + be_val b));
      cbn; try reflexivity; try lia; nia.
Qed.

(** ** Masks and shifts of the source as arithmetic *)

Lemma land_ff x : Z.land x 0xFF = x mod 256.
Proof. change 0xFF with (Z.ones 8). now rewrite Z.land_ones by lia. Qed.

Lemma land_ffff x : Z.land x 0xFFFF = x mod 65536.
Proof. change 0xFFFF with (Z.ones 16). now rewrite Z.land_ones by lia. Qed.

Lemma shiftr_div x n : 0 <= n -> Z.shiftr x n = x / 2 ^ n.
Proof. apply Z.shiftr_div_pow2. Qed.

(** [hi << n | lo] with [lo] below [2^n]. *)
Lemma lor_shiftl hi lo n :
  0 <= n -> 0 <= lo < 2 ^ n -> Z.lor (Z.shiftl hi n) lo = hi * 2 ^ n + lo.
Proof.
  intros Hn Hlo. rewrite <- Z.shiftl_mul_pow2 by exact Hn.
  rewrite <- Z.add_lor_land.
  enough (Z.land (Z.shiftl hi n) lo = 0) as -> by lia.
  apply Z.bits_inj'. intros i Hi. rewrite Z.land_spec, Z.bits_0.
  destruct (Z.lt_ge_cases i n).
  - now rewrite Z.shiftl_spec_low.
  - rewrite <- (Z.mod_small lo (2 ^ n)) by exact Hlo.
    rewrite Z.mod_pow2_bits_high by lia. apply andb_false_r.
Qed.

(** Automation for the common side conditions: a size is what the lemma says. *)
Create HintDb farreach.
#[export] Hint Resolve le_bytes_ok be_ok u16_range u32_range htonl_range htons_range : farreach.
Create Rewrite HintDb farreach_len.
#[export] Hint Rewrite length_le_bytes length_be length_app : farreach_len.

(** ** Shared constants *)

(** Method ids (common/helper.h). *)
Definition INVALID_ID : Z := 0.
Definition FARREACH_ID : Z := 1.
Definition NOCACHE_ID : Z := 2.
Definition NETCACHE_ID : Z := 3.
Definition DISTFARREACH_ID : Z := 4.
Definition DISTNOCACHE_ID : Z := 5.
Definition DISTCACHE_ID : Z := 6.

(** ** Rings of [c] slots

    Slot number [i] of a ring that starts at slot [t]. *)

Definition slot (c t : Z) (i : nat) : Z := (t + Z.of_nat i) mod c.

Lemma slot_range c t i : 0 < c -> 0 <= slot c t i < c.
Proof. intros H. now apply Z.mod_pos_bound. Qed.

Lemma slot_0 c t : 0 <= t < c -> slot c t 0 = t.
Proof. intros H. unfold slot. rewrite Z.add_0_r. now apply Z.mod_small. Qed.

Lemma slot_inj c t i j : Z.of_nat i < c -> Z.of_nat j < c -> slot c t i = slot c t j -> i = j.
Proof.
  unfold slot. intros Hi Hj E.
  pose proof (Z.div_mod (t + Z.of_nat i) c ltac:(lia)) as D1.
  pose proof (Z.div_mod (t + Z.of_nat j) c ltac:(lia)) as D2.
  rewrite E in D1. set (q1 := (t + Z.of_nat i) / c) in *.
  set (q2 := (t + Z.of_nat j) / c) in *. assert (q1 = q2) by nia. nia.
Qed.

Lemma slot_next c t i : (slot c t i + 1) mod c = slot c t (S i).
Proof. unfold slot. rewrite Zplus_mod_idemp_l. f_equal. lia. Qed.

Lemma slot_shift c t i : slot c (slot c t 1) i = slot c t (S i).
Proof. unfold slot. rewrite Zplus_mod_idemp_l. f_equal. lia. Qed.

Lemma slot_full c t : 0 < c -> slot c t (Z.to_nat c) = slot c t 0.
Proof.
  intros H. unfold slot. rewrite Z2Nat.id, Z.add_0_r by lia.
  replace (t + c) with (t + 1 * c) by lia. apply Z_mod_plus_full.
Qed.
