(* ===== verification/Cursor.v ===== *)
(** * Cursor: reading and writing packet buffers

    The packet code of common/ and farreach/ writes a buffer [char *data] of
    [max_size] bytes through a pointer [begin] that only moves forward, and
    reads received bytes the same way.  [writer] and [reader] are the two
    state monads of that style: the state is the buffer split at [begin].
    A write or a read past the end of the object is [Err OutOfBounds].
    [begin += n] without a write leaves the old bytes of the buffer in place,
    as in the source. *)

From Stdlib Require Import ZArith Lia List.
From stdpp Require Import base tactics list numbers option.
From S2P Require Import Prelude.

Open Scope Z_scope.

(** ** Writing *)

Record wbuf := WBuf {
  w_done : list Z;   (* data[0 .. begin - data) *)
  w_rest : list Z    (* data[begin - data .. end of the array) *)
}.

Definition writer (A : Type) : Type := wbuf -> res (A * wbuf).

#[global] Instance writer_ret : MRet writer := fun _ a s => Ok (a, s).
#[global] Instance writer_bind : MBind writer := fun _ _ f m s =>
  match m s with Ok (a, s') => f a s' | Err e => Err e end.

Definition w_check (c : bool) : writer unit :=
  fun s => if c then Ok (tt, s) else Err InvariantFailed.

(** [memcpy(begin, bs, n); begin += n]. *)
Definition w_put (bs : list Z) : writer unit := fun s =>
  if (length bs <=? length (w_rest s))%nat
  then Ok (tt, WBuf (w_done s ++ bs) (drop (length bs) (w_rest s)))
  else Err OutOfBounds.

(** [begin += n]. *)
Definition w_skip (n : Z) : writer unit := fun s =>
  if (Z.to_nat n <=? length (w_rest s))%nat
  then Ok (tt, WBuf (w_done s ++ take (Z.to_nat n) (w_rest s)) (drop (Z.to_nat n) (w_rest s)))
  else Err OutOfBounds.

(** [memset(begin, v, n); begin += n]. *)
Definition w_memset (v : Z) (n : Z) : writer unit := w_put (replicate (Z.to_nat n) v).

(** [uint32_t(begin - data)]. *)
Definition w_off : writer Z := fun s => Ok (u32 (Z.of_nat (length (w_done s))), s).

(** A whole serialization into the array [data]: the return value and the
    array afterwards. *)
Definition run_writer {A} (w : writer A) (data : list Z) : res (A * list Z) :=
  match w (WBuf [] data) with
  | Ok (a, s) => Ok (a, w_done s ++ w_rest s)
  | Err e => Err e
  end.

(** ** Reading *)

Record rbuf := RBuf {
  r_pos : Z;          (* begin - data *)
  r_rest : list Z     (* the array from begin on *)
}.

Definition reader (A : Type) : Type := rbuf -> res (A * rbuf).

#[global] Instance reader_ret : MRet reader := fun _ a s => Ok (a, s).
#[global] Instance reader_bind : MBind reader := fun _ _ f m s =>
  match m s with Ok (a, s') => f a s' | Err e => Err e end.

Definition r_check (c : bool) : reader unit :=
  fun s => if c then Ok (tt, s) else Err InvariantFailed.

(** [memcpy(dst, begin, n); begin += n]. *)
Definition r_get (n : Z) : reader (list Z) := fun s =>
  if (Z.to_nat n <=? length (r_rest s))%nat
  then Ok (take (Z.to_nat n) (r_rest s),
           RBuf (r_pos s + Z.of_nat (Z.to_nat n)) (drop (Z.to_nat n) (r_rest s)))
  else Err OutOfBounds.

(** [begin += n]: the pointer may leave the array when nothing is read. *)
Definition r_skip (n : Z) : reader unit := fun s =>
  Ok (tt, RBuf (r_pos s + n) (drop (Z.to_nat n) (r_rest s))).

Definition r_off : reader Z := fun s => Ok (u32 (r_pos s), s).

Definition run_reader {A} (r : reader A) (data : list Z) : res A :=
  match r (RBuf 0 data) with
  | Ok (a, _) => Ok a
  | Err e => Err e
  end.

(** A computation that may abort inside a serializer. *)
Definition w_lift {A} (r : res A) : writer A := fun s =>
  match r with Ok a => Ok (a, s) | Err e => Err e end.
Definition r_lift {A} (r : res A) : reader A := fun s =>
  match r with Ok a => Ok (a, s) | Err e => Err e end.

(** [max_size - uint32_t(begin - data)], the room left. *)
Definition w_rem (max_size : Z) : writer Z := off ← w_off; mret (u32 (max_size - off)).
Definition r_rem (recv_size : Z) : reader Z := off ← r_off; mret (u32 (recv_size - off)).

(** ** Typed accesses used by every packet class *)

Definition w_u32be (x : Z) : writer unit := w_put (le_bytes 4 (htonl x)).
Definition w_u16be (x : Z) : writer unit := w_put (le_bytes 2 (htons x)).
Definition w_u32 (x : Z) : writer unit := w_put (le_bytes 4 x).
Definition w_u16 (x : Z) : writer unit := w_put (le_bytes 2 x).
Definition w_bool (b : bool) : writer unit := w_put [bool_byte b].

Definition r_u32be : reader Z := bs ← r_get 4; mret (ntohl (le_val bs)).
Definition r_u16be : reader Z := bs ← r_get 2; mret (ntohs (le_val bs)).
Definition r_u32 : reader Z := bs ← r_get 4; mret (le_val bs).
Definition r_u16 : reader Z := bs ← r_get 2; mret (le_val bs).
Definition r_bool : reader bool := bs ← r_get 1; mret (byte_bool (le_val bs)).

(** ** Specifications

    [writes w a out]: started anywhere with enough room, [w] returns [a] and
    writes the bytes [out old] over the bytes [old] in front of it ([out]
    depends on [old] only where the code skips bytes).  [n] is their number. *)

Definition writes {A} (w : writer A) (pos : Z) (n : nat) (a : A)
    (out : list Z -> list Z) : Prop :=
  forall done old rest,
    Z.of_nat (length done) = pos -> length old = n ->
    w (WBuf done (old ++ rest)) = Ok (a, WBuf (done ++ out old) rest) /\
    length (out old) = n.

(** [reads r pos bs a]: at offset [pos], on any memory that starts with [bs],
    [r] returns [a] and consumes exactly [bs]. *)
Definition reads {A} (r : reader A) (pos : Z) (bs : list Z) (a : A) : Prop :=
  forall rest,
    r (RBuf pos (bs ++ rest)) = Ok (a, RBuf (pos + Z.of_nat (length bs)) rest).

Lemma writes_ret {A} pos (a : A) : writes (mret a) pos 0 a (fun _ => []).
Proof.
  intros done old rest _ Hold. destruct old; [|discriminate].
  cbn. now rewrite app_nil_r.
Qed.

Lemma writes_bind {A B} (w : writer A) (k : A -> writer B) pos n m a b f g :
  writes w pos n a f ->
  writes (k a) (pos + Z.of_nat n) m b g ->
  writes (w ≫= k) pos (n + m) b (fun old => f (take n old) ++ g (drop n old)).
Proof.
  intros Hw Hk done old rest Hd Hold.
  assert (Hlen : length (take n old) = n) by (rewrite length_take; lia).
  destruct (Hw done (take n old) (drop n old ++ rest) Hd Hlen) as [Ew Lw].
  rewrite app_assoc, take_drop in Ew.
  unfold mbind, writer_bind. rewrite Ew.
  destruct (Hk (done ++ f (take n old)) (drop n old) rest) as [Ek Lk].
  - rewrite length_app. lia.
  - rewrite length_drop. lia.
  - rewrite Ek, <- app_assoc, length_app. split; [reflexivity | lia].
Qed.

Lemma writes_check c pos : c = true -> writes (w_check c) pos 0 tt (fun _ => []).
Proof. intros ->. apply (writes_ret pos tt). Qed.

Lemma writes_put bs pos : writes (w_put bs) pos (length bs) tt (fun _ => bs).
Proof.
  intros done old rest _ Hold. unfold w_put; cbn [w_rest w_done].
  rewrite length_app, Hold, (proj2 (Nat.leb_le _ _)) by lia.
  rewrite <- Hold, drop_app_length. auto.
Qed.

Lemma writes_true_bind {A} (k : unit -> writer A) pos n a out :
  writes (k tt) pos n a out -> writes (w_check true ≫= k) pos n a out.
Proof. intros H. exact H. Qed.

Lemma writes_put_bind {A} bs m (k : unit -> writer A) pos n a out :
  length bs = m -> writes (k tt) (pos + Z.of_nat m) n a (fun _ => out) ->
  writes (w_put bs ≫= k) pos (m + n) a (fun _ => bs ++ out).
Proof. intros <-. exact (writes_bind (w_put bs) k pos _ n tt a _ _ (writes_put bs pos)). Qed.

Lemma writes_skip n pos : writes (w_skip n) pos (Z.to_nat n) tt (fun old => old).
Proof.
  intros done old rest _ Hold. unfold w_skip; cbn [w_rest w_done].
  rewrite length_app, (proj2 (Nat.leb_le _ _)) by lia.
  rewrite <- Hold, take_app_length, drop_app_length. auto.
Qed.

Lemma writes_off pos :
  0 <= pos < 2 ^ 32 -> writes w_off pos 0 pos (fun _ => []).
Proof.
  intros Hp done old rest Hd Hold. destruct old; [|discriminate].
  unfold w_off; cbn [w_done]. rewrite Hd, u32_id by exact Hp.
  cbn. now rewrite app_nil_r.
Qed.

Lemma reads_ret {A} pos (a : A) : reads (mret a) pos [] a.
Proof. intros rest. cbn. now rewrite Z.add_0_r. Qed.

Lemma reads_ret_eq {A} pos (a b : A) : a = b -> reads (mret a) pos [] b.
Proof. intros <-. apply reads_ret. Qed.

Lemma reads_bind {A B} (r : reader A) (k : A -> reader B) pos bs cs a b :
  reads r pos bs a ->
  reads (k a) (pos + Z.of_nat (length bs)) cs b ->
  reads (r ≫= k) pos (bs ++ cs) b.
Proof.
  intros Hr Hk rest. unfold mbind, reader_bind.
  rewrite <- app_assoc, Hr, Hk, length_app. do 3 f_equal. lia.
Qed.

Lemma reads_check c pos : c = true -> reads (r_check c) pos [] tt.
Proof. intros ->. apply (reads_ret pos tt). Qed.

Lemma reads_get n pos bs : length bs = Z.to_nat n -> reads (r_get n) pos bs bs.
Proof.
  intros Hl rest. unfold r_get; cbn [r_rest r_pos].
  rewrite length_app, (proj2 (Nat.leb_le _ _)) by lia.
  now rewrite <- Hl, take_app_length, drop_app_length.
Qed.

Lemma reads_skip n pos bs :
  0 <= n -> length bs = Z.to_nat n -> reads (r_skip n) pos bs tt.
Proof.
  intros Hn Hl rest. unfold r_skip; cbn [r_rest r_pos].
  rewrite <- Hl, drop_app_length, Hl. do 3 f_equal. lia.
Qed.

Lemma reads_off pos : 0 <= pos < 2 ^ 32 -> reads r_off pos [] pos.
Proof.
  intros Hp rest. unfold r_off; cbn [r_pos]. rewrite u32_id by exact Hp.
  cbn. now rewrite Z.add_0_r.
Qed.

(** ** Writer and reader in lockstep

    [codec w r pos n a v]: wherever the writer [w] starts at offset [pos] with
    [n] bytes of room, it returns [a], fills exactly those [n] bytes, and the
    reader [r] at the same offset reads exactly them and returns [v]. *)

Definition codec {A B} (w : writer A) (r : reader B) (pos : Z) (n : nat) (a : A) (v : B) : Prop :=
  forall done old rest,
    Z.of_nat (length done) = pos -> length old = n ->
    exists bs, w (WBuf done (old ++ rest)) = Ok (a, WBuf (done ++ bs) rest) /\
      length bs = n /\ reads r pos bs v.

Lemma writes_reads_codec {A B} (w : writer A) (r : reader B) pos n a v bs :
  writes w pos n a (fun _ => bs) -> reads r pos bs v -> codec w r pos n a v.
Proof.
  intros Hw Hr done old rest Hd Ho. destruct (Hw done old rest Hd Ho) as [E L].
  exists bs. auto.
Qed.

Section Codec.
Context {A B C D : Type}.

Lemma codec_ret pos (a : A) (v : B) : codec (mret a) (mret v) pos 0 a v.
Proof.
  intros done old rest _ Ho. destruct old; [|discriminate].
  exists []. rewrite app_nil_r. auto using reads_ret.
Qed.

Lemma codec_bind (w : writer A) (r : reader B) (kw : A -> writer C) (kr : B -> reader D)
    pos n m a v b u :
  codec w r pos n a v ->
  codec (kw a) (kr v) (pos + Z.of_nat n) m b u ->
  codec (w ≫= kw) (r ≫= kr) pos (n + m) b u.
Proof.
  intros H1 H2 done old rest Hd Ho.
  destruct (H1 done (take n old) (drop n old ++ rest) Hd) as (bs & E1 & L1 & R1).
  { rewrite length_take. lia. }
  destruct (H2 (done ++ bs) (drop n old) rest) as (cs & E2 & L2 & R2).
  { rewrite length_app. lia. }
  { rewrite length_drop. lia. }
  exists (bs ++ cs). rewrite app_assoc, take_drop in E1.
  unfold mbind, writer_bind. rewrite E1, E2, <- app_assoc, length_app.
  repeat split; [lia|]. eapply reads_bind; [exact R1|]. now rewrite L1.
Qed.

(** Steps that only one side has. *)
Lemma codec_wcheck c (kw : unit -> writer C) (r : reader D) pos n b u :
  c = true -> codec (kw tt) r pos n b u -> codec (w_check c ≫= kw) r pos n b u.
Proof. intros -> H. exact H. Qed.

Lemma codec_rcheck c (w : writer C) (kr : unit -> reader D) pos n b u :
  c = true -> codec w (kr tt) pos n b u -> codec w (r_check c ≫= kr) pos n b u.
Proof. intros -> H. exact H. Qed.

Lemma codec_woff (kw : Z -> writer C) (r : reader D) pos n b u :
  0 <= pos < 2 ^ 32 -> codec (kw pos) r pos n b u -> codec (w_off ≫= kw) r pos n b u.
Proof.
  intros Hp H done old rest Hd Ho. unfold mbind, writer_bind, w_off; cbn [w_done].
  rewrite Hd, u32_id by exact Hp. now apply H.
Qed.

Lemma codec_roff (w : writer C) (kr : Z -> reader D) pos n b u :
  0 <= pos < 2 ^ 32 -> codec w (kr pos) pos n b u -> codec w (r_off ≫= kr) pos n b u.
Proof.
  intros Hp H done old rest Hd Ho. destruct (H done old rest Hd Ho) as (bs & E & L & R).
  exists bs. repeat split; auto. intros tl. unfold mbind, reader_bind, r_off; cbn [r_pos].
  rewrite u32_id by exact Hp. apply R.
Qed.

Lemma codec_weaken (w : writer C) (r : reader D) pos n n' b b' u u' :
  codec w r pos n b u -> n = n' -> b = b' -> u = u' -> codec w r pos n' b' u'.
Proof. intros H -> -> ->. exact H. Qed.
End Codec.

Lemma codec_put_get bs pos : codec (w_put bs) (r_get (Z.of_nat (length bs))) pos (length bs) tt bs.
Proof.
  intros done old rest Hd Ho. destruct (writes_put bs pos done old rest Hd Ho) as [E L].
  exists bs. repeat split; auto. apply reads_get. lia.
Qed.

Lemma codec_put_skip bs n pos :
  n = Z.of_nat (length bs) -> codec (w_put bs) (r_skip n) pos (length bs) tt tt.
Proof.
  intros -> done old rest Hd Ho. destruct (writes_put bs pos done old rest Hd Ho) as [E L].
  exists bs. repeat split; auto. apply reads_skip; lia.
Qed.

Lemma codec_skip n pos : 0 <= n -> codec (w_skip n) (r_skip n) pos (Z.to_nat n) tt tt.
Proof.
  intros Hn done old rest Hd Ho. destruct (writes_skip n pos done old rest Hd Ho) as [E L].
  exists old. repeat split; auto. apply reads_skip; lia.
Qed.

Lemma reads_fmap {A B} (r : reader A) (f : A -> B) pos bs a :
  reads r pos bs a -> reads (x ← r; mret (f x)) pos bs (f a).
Proof.
  intros H. rewrite <- (app_nil_r bs). eapply reads_bind; [exact H|]. apply reads_ret.
Qed.

Lemma codec_put_val {B} bs n (f : list Z -> B) pos v :
  n = Z.of_nat (length bs) -> f bs = v ->
  codec (w_put bs) (x ← r_get n; mret (f x)) pos (length bs) tt v.
Proof.
  intros -> <- done old rest Hd Ho. destruct (writes_put bs pos done old rest Hd Ho) as [E L].
  exists bs. repeat split; auto. apply reads_fmap, reads_get. lia.
Qed.

Lemma codec_u32be x pos : is_u32 x -> codec (w_u32be x) r_u32be pos 4 tt x.
Proof.
  intros Hx. unfold w_u32be, r_u32be. rewrite le_bytes_htonl. fold (be 4 x).
  rewrite <- (length_be 4 x) at 2. apply codec_put_val; [now rewrite length_be|].
  now rewrite ntohl_be, u32_id.
Qed.

Lemma codec_u16be x pos : is_u16 x -> codec (w_u16be x) r_u16be pos 2 tt x.
Proof.
  intros Hx. unfold w_u16be, r_u16be. rewrite le_bytes_htons. fold (be 2 x).
  rewrite <- (length_be 2 x) at 2. apply codec_put_val; [now rewrite length_be|].
  now rewrite ntohs_be, u16_id.
Qed.

Lemma codec_u32 x pos : is_u32 x -> codec (w_u32 x) r_u32 pos 4 tt x.
Proof.
  intros Hx. unfold w_u32, r_u32.
  apply (codec_put_val (le_bytes 4 x)); [reflexivity|].
  rewrite le_val_bytes. now apply Z.mod_small.
Qed.

Lemma codec_u16 x pos : is_u16 x -> codec (w_u16 x) r_u16 pos 2 tt x.
Proof.
  intros Hx. unfold w_u16, r_u16.
  apply (codec_put_val (le_bytes 2 x)); [reflexivity|].
  rewrite le_val_bytes. now apply Z.mod_small.
Qed.

Lemma r_u32_reads x pos : is_u32 x -> reads r_u32 pos (le_bytes 4 x) x.
Proof.
  intros Hx. rewrite <- (app_nil_r (le_bytes 4 x)).
  eapply reads_bind; [now apply reads_get; rewrite length_le_bytes|].
  apply reads_ret_eq. rewrite le_val_bytes. now apply Z.mod_small.
Qed.

Lemma codec_bool b pos : codec (w_bool b) r_bool pos 1 tt b.
Proof. apply (codec_put_val [bool_byte b]); [reflexivity|]. now destruct b. Qed.

Lemma codec_skip_u16be x pos : codec (w_u16be x) (r_skip 2) pos 2 tt tt.
Proof.
  unfold w_u16be. apply (codec_put_skip (le_bytes 2 (htons x))). reflexivity.
Qed.

(** Whole packets: what [serialize] leaves in the array, [deserialize] reads;
    the size returned is the number of bytes written and the bytes after them
    keep their values. *)
Lemma codec_run {A} (w : writer Z) (r : reader A) n v data :
  codec w r 0 n (Z.of_nat n) v -> (n <= length data)%nat ->
  exists data', run_writer w data = Ok (Z.of_nat n, data') /\
    length data' = length data /\ drop n data' = drop n data /\
    forall tl, run_reader r (take n data' ++ tl) = Ok v.
Proof.
  intros H Hn. destruct (H [] (take n data) (drop n data) eq_refl) as (bs & E & L & R).
  { rewrite length_take. lia. }
  rewrite take_drop in E. unfold run_writer. rewrite E. cbn [w_done w_rest app].
  eexists; split; [reflexivity|]. split; [rewrite length_app, length_drop; lia|].
  rewrite drop_app_ge, L, Nat.sub_diag, drop_0 by lia. split; [reflexivity|].
  intros tl. unfold run_reader. rewrite take_app_le, take_ge by lia. now rewrite R.
Qed.

(** Lockstep proofs: one tactic call per step of the two programs. *)
Create HintDb codec.
#[export] Hint Resolve codec_u32be codec_u16be codec_u32 codec_u16 codec_bool codec_skip
  codec_skip_u16be codec_ret : codec.

(** [codec_with tac] closes one field step with [tac] or the hint database. *)
Ltac codec_steps :=
  repeat first
    [ eapply codec_wcheck; [|]
    | eapply codec_rcheck; [|]
    | eapply codec_woff; [|]
    | eapply codec_roff; [|]
    | eapply codec_bind; [solve [eauto with codec]|]
    | eapply codec_ret ].

(** A last writer step that only returns. *)
Lemma codec_wret {A B C} (w : writer A) (r : reader B) (kw : A -> writer C) pos n a b v :
  codec w r pos n a v -> kw a = mret b -> codec (w ≫= kw) r pos n b v.
Proof.
  intros H Hk done old rest Hd Ho. destruct (H done old rest Hd Ho) as (bs & E & L & R).
  exists bs. unfold mbind, writer_bind. rewrite E, Hk. auto.
Qed.

(** A last writer step that only looks at the offset. *)
Lemma codec_wend {A B C} (w : writer A) (r : reader B) (kw : A -> writer C) pos n a b v :
  codec w r pos n a v ->
  (forall s, Z.of_nat (length (w_done s)) = pos + Z.of_nat n -> kw a s = Ok (b, s)) ->
  codec (w ≫= kw) r pos n b v.
Proof.
  intros H Hk done old rest Hd Ho. destruct (H done old rest Hd Ho) as (bs & E & L & R).
  exists bs. unfold mbind, writer_bind. rewrite E, Hk; [auto|].
  cbn [w_done]. rewrite length_app. lia.
Qed.

Lemma codec_wrem {C D} max_size (kw : Z -> writer C) (r : reader D) pos n b u :
  0 <= pos <= max_size -> max_size < 2 ^ 32 ->
  codec (kw (max_size - pos)) r pos n b u -> codec (w_rem max_size ≫= kw) r pos n b u.
Proof.
  intros Hp Hm H done old rest Hd Ho. unfold w_rem, mbind, writer_bind, w_off, mret, writer_ret.
  cbn [w_done]. rewrite Hd, !u32_id by (unfold is_u32; rewrite ?u32_id by (unfold is_u32; lia); lia).
  now apply H.
Qed.

Lemma codec_rrem {C D} recv_size (w : writer C) (kr : Z -> reader D) pos n b u :
  0 <= pos <= recv_size -> recv_size < 2 ^ 32 ->
  codec w (kr (recv_size - pos)) pos n b u -> codec w (r_rem recv_size ≫= kr) pos n b u.
Proof.
  intros Hp Hm H done old rest Hd Ho. destruct (H done old rest Hd Ho) as (bs & E & L & R).
  exists bs. repeat split; auto. intros tl.
  unfold r_rem, mbind, reader_bind, r_off, mret, reader_ret. cbn [r_pos].
  rewrite !u32_id by (unfold is_u32; rewrite ?u32_id by (unfold is_u32; lia); lia). apply R.
Qed.

Lemma codec_wlift {A C D} (m : res A) a (kw : A -> writer C) (r : reader D) pos n b u :
  m = Ok a -> codec (kw a) r pos n b u -> codec (w_lift m ≫= kw) r pos n b u.
Proof. intros -> H. exact H. Qed.

Lemma codec_rlift {A C D} (m : res A) a (w : writer C) (kr : A -> reader D) pos n b u :
  m = Ok a -> codec w (kr a) pos n b u -> codec w (r_lift m ≫= kr) pos n b u.
Proof. intros -> H. exact H. Qed.

(** ** Readers on known bytes *)

Lemma reads_check_bind {A} c (k : unit -> reader A) pos bs a :
  c = true -> reads (k tt) pos bs a -> reads (r_check c ≫= k) pos bs a.
Proof. intros -> H. exact H. Qed.

Lemma reads_lift_bind {A B} (m : res A) x (k : A -> reader B) pos bs a :
  m = Ok x -> reads (k x) pos bs a -> reads (r_lift m ≫= k) pos bs a.
Proof. intros -> H. exact H. Qed.

Lemma reads_rem_bind {A} recv_size (k : Z -> reader A) pos bs a :
  0 <= pos <= recv_size -> recv_size < 2 ^ 32 ->
  reads (k (recv_size - pos)) pos bs a -> reads (r_rem recv_size ≫= k) pos bs a.
Proof.
  intros Hp Hm H tl. unfold r_rem, mbind, reader_bind, r_off, mret, reader_ret. cbn [r_pos].
  rewrite !u32_id by (unfold is_u32; rewrite ?u32_id by (unfold is_u32; lia); lia). apply H.
Qed.

Lemma reads_u16be x pos : is_u16 x -> reads r_u16be pos (be 2 x) x.
Proof.
  intros Hx. rewrite <- (u16_id x Hx) at 2. rewrite <- ntohs_be.
  apply (reads_fmap _ (fun bs => ntohs (le_val bs))), reads_get. now rewrite length_be.
Qed.

Lemma reads_u32be x pos : is_u32 x -> reads r_u32be pos (be 4 x) x.
Proof.
  intros Hx. rewrite <- (u32_id x Hx) at 2. rewrite <- ntohl_be.
  apply (reads_fmap _ (fun bs => ntohl (le_val bs))), reads_get. now rewrite length_be.
Qed.

Lemma reads_bool b pos : reads r_bool pos [bool_byte b] b.
Proof. intros tl. destruct b; reflexivity. Qed.

Lemma reads_u16 x pos : is_u16 x -> reads r_u16 pos (le_bytes 2 x) x.
Proof.
  intros Hx tl. unfold r_u16, mbind, reader_bind.
  rewrite (reads_get 2 pos (le_bytes 2 x)) by (now rewrite length_le_bytes).
  unfold mret, reader_ret. rewrite le_val_bytes, Z.mod_small by exact Hx. reflexivity.
Qed.
