(* ===== verification/DynamicArray.v ===== *)
(** * DynamicArray (common/dynamic_array.h, common/dynamic_array.c)

    A byte buffer that doubles its capability up to a maximum.  The state is
    the class's fields; [_array] is [None] when the pointer is NULL. *)

From Stdlib Require Import ZArith Lia List.
From stdpp Require Import base tactics list numbers option.
From S2P Require Import Prelude.

Open Scope Z_scope.

Record DynamicArray := mkDynamicArray {
  _cursize : Z;
  _curcapability : Z;
  _array : option (list Z);
  _mincapability : Z;
  _maxcapability : Z
}.

(** [DynamicArray::DynamicArray()]. *)
Definition DynamicArray_default : DynamicArray := mkDynamicArray 0 0 None 0 0.

(** [DynamicArray::init]. *)
Definition init (d : DynamicArray) (mincapability maxcapability : Z) : res DynamicArray :=
  if maxcapability <=? mincapability then Err ExitCalled
  else if mincapability <? 0 then Err BadAlloc
  else Ok (mkDynamicArray (_cursize d) mincapability
             (Some (replicate (Z.to_nat mincapability) 0))
             mincapability maxcapability).

(** [DynamicArray::DynamicArray(int, int)]. *)
Definition DynamicArray_new (mincapability maxcapability : Z) : res DynamicArray :=
  init DynamicArray_default mincapability maxcapability.

(** [DynamicArray::operator[]], read access. *)
Definition da_index (d : DynamicArray) (idx : Z) : res Z :=
  if negb ((0 <=? idx) && (idx <? _cursize d)) then Err ExitCalled
  else match _array d with
       | None => Err NullDeref
       | Some a => match a !! Z.to_nat idx with Some b => Ok b | None => Err OutOfBounds end
       end.

(** [while (newcapability < off + len) newcapability = 2*newcapability]. *)
Fixpoint grow (fuel : nat) (newcapability need : Z) : res Z :=
  if newcapability <? need then
    match fuel with
    | O => Err OutOfFuel
    | S fuel' => c ← int_ck (2 * newcapability); grow fuel' c need
    end
  else Ok newcapability.

(** [DynamicArray::dynamic_reserve]; 32 doublings take any positive int past
    every int, so the fuel is never the reason to stop. *)
Definition dynamic_reserve (d : DynamicArray) (off len : Z) : res DynamicArray :=
  need ← int_ck (off + len);
  if _maxcapability d <? need then Err ExitCalled
  else if _curcapability d <? need then
    if _maxcapability d <=? _curcapability d then Err ExitCalled
    else
      _ ← INVARIANT ((0 <? _curcapability d) && (0 <? _maxcapability d));
      c0 ← int_ck (2 * _curcapability d);
      c1 ← grow 32 c0 need;
      let newcapability := if _maxcapability d <? c1 then _maxcapability d else c1 in
      match _array d with
      | None => Err NullDeref
      | Some a =>
          if (Z.to_nat (_curcapability d) <=? length a)%nat
          then Ok (mkDynamicArray (_cursize d) newcapability
                     (Some (take (Z.to_nat (_curcapability d)) a ++
                            replicate (Z.to_nat (newcapability - _curcapability d)) 0))
                     (_mincapability d) (_maxcapability d))
          else Err OutOfBounds
      end
  else Ok d.

(** [memcpy(_array + off, src, len)] inside the object. *)
Definition store_at (a : list Z) (off : Z) (src : list Z) : res (list Z) :=
  if (0 <=? off) && (off + Z.of_nat (length src) <=? Z.of_nat (length a))
  then Ok (take (Z.to_nat off) a ++ src ++ drop (Z.to_nat off + length src) a)
  else Err OutOfBounds.

(** [DynamicArray::dynamic_memcpy]. *)
Definition dynamic_memcpy (d : DynamicArray) (off : Z) (srcarray : list Z) : res DynamicArray :=
  let len := Z.of_nat (length srcarray) in
  d' ← dynamic_reserve d off len;
  match _array d' with
  | None => Err NullDeref
  | Some a =>
      a' ← store_at a off srcarray;
      let size' := if _cursize d' <? off + len then off + len else _cursize d' in
      Ok (mkDynamicArray size' (_curcapability d') (Some a')
            (_mincapability d') (_maxcapability d'))
  end.

(** [DynamicArray::dynamic_memset]; a negative [len] is a huge [size_t]. *)
Definition dynamic_memset (d : DynamicArray) (off value len : Z) : res DynamicArray :=
  if len <? 0 then _ ← dynamic_reserve d off len; Err OutOfBounds
  else dynamic_memcpy d off (replicate (Z.to_nat len) (u8 value)).

(** [DynamicArray::clear]. *)
Definition clear (d : DynamicArray) : res DynamicArray :=
  let zeroed := replicate (Z.to_nat (_mincapability d)) 0 in
  if negb (_curcapability d =? _mincapability d) then
    match _array d with
    | None => Err ExitCalled
    | Some _ => Ok (mkDynamicArray 0 (_mincapability d) (Some zeroed)
                      (_mincapability d) (_maxcapability d))
    end
  else
    match _array d with
    | None => if _mincapability d =? 0
              then Ok (mkDynamicArray 0 (_curcapability d) None (_mincapability d) (_maxcapability d))
              else Err NullDeref
    | Some a => Ok (mkDynamicArray 0 (_curcapability d)
                      (Some (zeroed ++ drop (Z.to_nat (_mincapability d)) a))
                      (_mincapability d) (_maxcapability d))
    end.

(** [DynamicArray::size] and the bytes [array()[0 .. size())]. *)
Definition da_size (d : DynamicArray) : Z := _cursize d.
Definition da_mem (d : DynamicArray) : list Z := default [] (_array d).
Definition contents (d : DynamicArray) : list Z := take (Z.to_nat (_cursize d)) (da_mem d).
(** Byte [i] of the object, 0 past its end. *)
Definition da_byte (d : DynamicArray) (i : Z) : Z := nth (Z.to_nat i) (da_mem d) 0.

(** ** Invariant *)

Definition da_wf (d : DynamicArray) : Prop :=
  (exists a, _array d = Some a /\ Z.of_nat (length a) = _curcapability d) /\
  0 <= _cursize d <= _curcapability d /\
  0 < _mincapability d <= _curcapability d /\
  _curcapability d <= _maxcapability d /\
  _maxcapability d <= 2 ^ 30.

Lemma da_wf_len d : da_wf d -> Z.of_nat (length (da_mem d)) = _curcapability d.
Proof. intros ((a & Ea & La) & _). unfold da_mem. now rewrite Ea. Qed.

Lemma da_wf_array d : da_wf d -> _array d = Some (da_mem d).
Proof. intros ((a & Ea & La) & _). unfold da_mem. now rewrite Ea. Qed.

(** [grow] stops: with [n] doublings left the request is within [2^n] times
    the capability. *)
Lemma grow_spec n : forall c need,
  0 < c -> need <= 2 ^ Z.of_nat n * c -> need <= 2 ^ 30 -> c <= 2 ^ 31 - 1 ->
  exists c', grow n c need = Ok c' /\ need <= c' /\ c <= c' <= 2 ^ 31 - 1 /\
             (c' = c \/ c' < 2 * need).
Proof.
  induction n as [|n IH]; intros c need Hc Hn Hm Hi; cbn [grow].
  - change (2 ^ Z.of_nat 0) with 1 in Hn.
    destruct (Z.ltb_spec c need); [lia|].
    exists c; repeat split; auto; lia.
  - destruct (Z.ltb_spec c need) as [Hlt|Hge].
    + assert (Hd : 2 ^ 30 * 2 = 2 ^ 31) by reflexivity.
      rewrite int_ck_Ok by (unfold is_s32; lia). cbn [mbind res_bind].
      rewrite Nat2Z.inj_succ, Z.pow_succ_r in Hn by lia.
      destruct (IH (2 * c) need) as (c' & E & H1 & H2 & H3); [lia|lia|lia|lia|].
      exists c'; repeat split; auto; lia.
    + exists c; repeat split; auto; lia.
Qed.

(** What [dynamic_reserve] does on a well-formed array within bounds. *)
Lemma dynamic_reserve_ok d off len :
  da_wf d -> 0 <= off -> 0 <= len -> off + len <= _maxcapability d ->
  exists d', dynamic_reserve d off len = Ok d' /\ da_wf d' /\
    off + len <= _curcapability d' /\
    _cursize d' = _cursize d /\ _mincapability d' = _mincapability d /\
    _maxcapability d' = _maxcapability d /\
    exists z, da_mem d' = da_mem d ++ replicate z 0.
Proof.
  intros Hwf Ho Hl Hm. pose proof (da_wf_len d Hwf) as HL.
  pose proof (da_wf_array d Hwf) as HA.
  destruct Hwf as (Hex & Hs & Hmin & Hcap & Hmax).
  assert (Hd : 2 ^ 31 = 2 * 2 ^ 30) by reflexivity.
  unfold dynamic_reserve.
  rewrite (int_ck_Ok (off + len)) by (unfold is_s32; lia). cbn [mbind res_bind].
  rewrite (proj2 (Z.ltb_ge (_maxcapability d) (off + len))) by lia.
  destruct (Z.ltb_spec (_curcapability d) (off + len)) as [Hlt|Hge].
  - rewrite (proj2 (Z.leb_gt _ _)) by lia.
    rewrite INVARIANT_true by (apply andb_true_intro; split; apply Z.ltb_lt; lia).
    cbn [mbind res_bind].
    rewrite (int_ck_Ok (2 * _curcapability d)) by (unfold is_s32; lia). cbn [mbind res_bind].
    destruct (grow_spec 32 (2 * _curcapability d) (off + len))
      as (c' & E & H1 & H2 & H3); [lia|lia|lia|lia|].
    rewrite E. cbn [mbind res_bind].
    rewrite HA, (proj2 (Nat.leb_le _ _)) by lia.
    set (nc := if _maxcapability d <? c' then _maxcapability d else c').
    assert (Hnc : _curcapability d < nc /\ off + len <= nc <= _maxcapability d)
      by (unfold nc; destruct (Z.ltb_spec (_maxcapability d) c'); lia).
    rewrite take_ge by lia.
    eexists; split; [reflexivity|]. cbn.
    split; [|repeat split; try lia; eexists; reflexivity].
    repeat split; cbn; try lia. eexists; split; [reflexivity|].
    rewrite length_app, length_replicate. lia.
  - exists d; repeat split; auto; try lia. exists 0%nat. now rewrite app_nil_r.
Qed.

Lemma store_at_ok a off src :
  0 <= off -> off + Z.of_nat (length src) <= Z.of_nat (length a) ->
  store_at a off src = Ok (take (Z.to_nat off) a ++ src ++ drop (Z.to_nat off + length src) a).
Proof.
  intros H1 H2. unfold store_at.
  now rewrite (proj2 (Z.leb_le _ _) H1), (proj2 (Z.leb_le _ _) H2).
Qed.

Lemma length_store a o (src : list Z) :
  (o + length src <= length a)%nat ->
  length (take o a ++ src ++ drop (o + length src) a) = length a.
Proof. intros. rewrite !length_app, length_take, length_drop. lia. Qed.

Lemma nth_store (a : list Z) o src i :
  (o + length src <= length a)%nat ->
  nth i (take o a ++ src ++ drop (o + length src) a) 0 =
  if ((o <=? i) && (i <? o + length src))%nat then nth (i - o) src 0 else nth i a 0.
Proof.
  intros H. destruct (Nat.leb_spec o i), (Nat.ltb_spec i (o + length src)); cbn [andb].
  - rewrite app_nth2; rewrite length_take, Nat.min_l by lia; [|lia].
    rewrite app_nth1 by lia. reflexivity.
  - rewrite app_nth2; rewrite length_take, Nat.min_l by lia; [|lia].
    rewrite app_nth2 by lia.
    rewrite <- (take_drop (o + length src) a) at 2.
    rewrite app_nth2; rewrite length_take, Nat.min_l by lia; [|lia].
    f_equal. lia.
  - rewrite app_nth1 by (rewrite length_take; lia).
    rewrite <- (take_drop o a) at 2.
    rewrite app_nth1 by (rewrite length_take; lia). reflexivity.
  - lia.
Qed.

Lemma nth_replicate_0 n i : nth i (replicate n 0) 0 = 0.
Proof. revert i; induction n; intros [|i]; cbn; auto. Qed.

(** The memory after a copy of [src] to [off]. *)
Lemma dynamic_memcpy_mem d off src :
  da_wf d -> 0 <= off -> off + Z.of_nat (length src) <= _maxcapability d ->
  exists d' z, dynamic_memcpy d off src = Ok d' /\ da_wf d' /\
    _cursize d' = Z.max (_cursize d) (off + Z.of_nat (length src)) /\
    _mincapability d' = _mincapability d /\ _maxcapability d' = _maxcapability d /\
    let m := da_mem d ++ replicate z 0 in
    (Z.to_nat off + length src <= length m)%nat /\
    da_mem d' = take (Z.to_nat off) m ++ src ++ drop (Z.to_nat off + length src) m.
Proof.
  intros Hwf Ho Hm. unfold dynamic_memcpy.
  destruct (dynamic_reserve_ok d off (Z.of_nat (length src)) Hwf Ho)
    as (d1 & E & Hwf1 & Hc & Hs & Hmi & Hma & z & Ez); [lia|lia|].
  rewrite E. cbn [mbind res_bind].
  pose proof (da_wf_len d1 Hwf1) as HL. rewrite (da_wf_array d1 Hwf1).
  rewrite store_at_ok by lia. cbn [mbind res_bind].
  eexists; exists z; split; [reflexivity|].
  destruct Hwf1 as (_ & W2 & W3 & W4 & W5). rewrite Ez in *.
  destruct (Z.ltb_spec (_cursize d1) (off + Z.of_nat (length src)));
  (split; [repeat split; cbn; try lia; eexists; split; [reflexivity|];
           rewrite length_store by lia; exact HL|]);
  cbn; repeat (split; [lia|]); reflexivity.
Qed.

(** Writes are exact: on a well-formed array a copy of [len] bytes to [off]
    keeps the invariant, makes the size cover the copy, puts the bytes there
    and changes nothing else. *)
Lemma dynamic_memcpy_ok d off src :
  da_wf d -> 0 <= off -> off + Z.of_nat (length src) <= _maxcapability d ->
  exists d', dynamic_memcpy d off src = Ok d' /\ da_wf d' /\
    _cursize d' = Z.max (_cursize d) (off + Z.of_nat (length src)) /\
    _mincapability d' = _mincapability d /\ _maxcapability d' = _maxcapability d /\
    forall i, 0 <= i ->
      da_byte d' i =
      if (off <=? i) && (i <? off + Z.of_nat (length src))
      then nth (Z.to_nat (i - off)) src 0 else da_byte d i.
Proof.
  intros Hwf Ho Hm.
  destruct (dynamic_memcpy_mem d off src Hwf Ho Hm)
    as (d' & z & E & Hwf' & Hs & Hmi & Hma & Hl & Em).
  exists d'; repeat (split; [assumption|]); intros i Hi.
  unfold da_byte; rewrite Em, nth_store by exact Hl.
  assert (Hn : nth (Z.to_nat i) (da_mem d ++ replicate z 0) 0 = nth (Z.to_nat i) (da_mem d) 0)
    by (destruct (Nat.lt_ge_cases (Z.to_nat i) (length (da_mem d)));
        [now rewrite app_nth1
        |rewrite app_nth2, nth_replicate_0, nth_overflow by lia; reflexivity]).
  rewrite Hn.
  destruct (Z.leb_spec off i), (Z.ltb_spec i (off + Z.of_nat (length src))); cbn [andb];
  destruct (Nat.leb_spec (Z.to_nat off) (Z.to_nat i)),
    (Nat.ltb_spec (Z.to_nat i) (Z.to_nat off + length src)); cbn [andb];
    try lia; try reflexivity.
  f_equal; lia.
Qed.

(** The same on the bytes [0 .. size()), when the copy starts inside them or
    right after them. *)
Lemma dynamic_memcpy_contents d off src :
  da_wf d -> 0 <= off <= _cursize d -> off + Z.of_nat (length src) <= _maxcapability d ->
  exists d', dynamic_memcpy d off src = Ok d' /\ da_wf d' /\
    _mincapability d' = _mincapability d /\ _maxcapability d' = _maxcapability d /\
    contents d' = take (Z.to_nat off) (contents d) ++ src
                  ++ drop (Z.to_nat off + length src) (contents d).
Proof.
  intros Hwf Ho Hm.
  destruct (dynamic_memcpy_mem d off src Hwf (proj1 Ho) Hm)
    as (d' & z & E & Hwf' & Hs & Hmi & Hma & Hl & Em).
  exists d'; repeat (split; [assumption|]).
  pose proof (da_wf_len d Hwf) as HL.
  assert (HS : 0 <= _cursize d <= _curcapability d) by apply Hwf.
  unfold contents. rewrite Em, Hs.
  rewrite take_take, Nat.min_l by lia.
  rewrite (take_app_le (da_mem d)) by lia.
  assert (Hlt : length (take (Z.to_nat off) (da_mem d)) = Z.to_nat off)
    by (rewrite length_take; lia).
  rewrite take_app_ge by (rewrite Hlt; lia). rewrite Hlt. f_equal.
  rewrite take_app_ge by lia. f_equal.
  destruct (Z.max_spec (_cursize d) (off + Z.of_nat (length src))) as [[H1 ->]|[H1 ->]].
  - rewrite (drop_ge (take _ _)) by (rewrite length_take; lia).
    replace (Z.to_nat (off + Z.of_nat (length src)) - Z.to_nat off - length src)%nat with 0%nat by lia.
    reflexivity.
  - rewrite take_drop_commute.
    replace (Z.to_nat off + length src + (Z.to_nat (_cursize d) - Z.to_nat off - length src))%nat
      with (Z.to_nat (_cursize d)) by lia.
    now rewrite take_app_le by lia.
Qed.

Lemma length_contents d : da_wf d -> Z.of_nat (length (contents d)) = _cursize d.
Proof.
  intros Hwf. pose proof (da_wf_len d Hwf) as HL.
  assert (HS : 0 <= _cursize d <= _curcapability d) by apply Hwf.
  unfold contents. rewrite length_take. lia.
Qed.

(** Appending at [size()]. *)
Lemma dynamic_memcpy_append d src :
  da_wf d -> _cursize d + Z.of_nat (length src) <= _maxcapability d ->
  exists d', dynamic_memcpy d (_cursize d) src = Ok d' /\ da_wf d' /\
    _maxcapability d' = _maxcapability d /\
    contents d' = contents d ++ src.
Proof.
  intros Hwf Hm. pose proof (length_contents d Hwf) as HL.
  assert (HS : 0 <= _cursize d) by apply Hwf.
  destruct (dynamic_memcpy_contents d (_cursize d) src Hwf) as (d' & E & Hwf' & _ & Hma & Ec);
    [lia|lia|].
  exists d'; repeat (split; [assumption|]).
  rewrite Ec, take_ge, drop_ge, app_nil_r by lia. reflexivity.
Qed.

Lemma DynamicArray_new_wf mincap maxcap :
  0 < mincap < maxcap -> maxcap <= 2 ^ 30 ->
  exists d, DynamicArray_new mincap maxcap = Ok d /\ da_wf d /\ contents d = [] /\
            _maxcapability d = maxcap.
Proof.
  intros H1 H2. unfold DynamicArray_new, init.
  rewrite (proj2 (Z.leb_gt _ _)), (proj2 (Z.ltb_ge _ _)) by lia.
  eexists; split; [reflexivity|]. unfold contents; cbn.
  repeat split; cbn; try lia. eexists; split; [reflexivity|].
  rewrite length_replicate. lia.
Qed.

Lemma clear_wf d :
  da_wf d -> exists d', clear d = Ok d' /\ da_wf d' /\ contents d' = [] /\
    _maxcapability d' = _maxcapability d /\ _mincapability d' = _mincapability d /\
    forall i, da_byte d' i = 0.
Proof.
  intros Hwf. pose proof (da_wf_len d Hwf) as HL. pose proof (da_wf_array d Hwf) as HA.
  destruct Hwf as (_ & Hs & Hmin & Hcap & Hmax). unfold clear. rewrite HA.
  destruct (Z.eqb_spec (_curcapability d) (_mincapability d)) as [He|He]; cbn [negb];
    (eexists; split; [reflexivity|]); unfold contents; cbn.
  - rewrite drop_ge, app_nil_r by lia.
    repeat split; cbn; try lia; [|intros; apply nth_replicate_0].
    eexists; split; [reflexivity|]. rewrite length_replicate. lia.
  - repeat split; cbn; try lia; [|intros; apply nth_replicate_0].
    eexists; split; [reflexivity|]. rewrite length_replicate. lia.
Qed.

(** A request past the maximum ends the process before anything is written. *)
Lemma dynamic_memcpy_exceeds d off src :
  _maxcapability d < off + Z.of_nat (length src) < 2 ^ 31 ->
  - 2 ^ 31 <= off + Z.of_nat (length src) ->
  dynamic_memcpy d off src = Err ExitCalled.
Proof.
  intros H1 H2. unfold dynamic_memcpy, dynamic_reserve.
  rewrite (int_ck_Ok (off + Z.of_nat (length src))) by (unfold is_s32; lia).
  cbn [mbind res_bind].
  now rewrite (proj2 (Z.ltb_lt _ _)) by lia.
Qed.

(** Appending at an offset known to be [size()], with the new size. *)
Lemma dynamic_memcpy_at_end d off src :
  da_wf d -> off = _cursize d -> off + Z.of_nat (length src) <= _maxcapability d ->
  exists d', dynamic_memcpy d off src = Ok d' /\ da_wf d' /\
    _cursize d' = off + Z.of_nat (length src) /\
    _maxcapability d' = _maxcapability d /\ contents d' = contents d ++ src.
Proof.
  intros Hwf -> Hm. destruct (dynamic_memcpy_append d src Hwf Hm) as (d' & E & W & M & C).
  exists d'; repeat (split; [assumption|]). split; [|auto].
  rewrite <- (length_contents d' W), C, length_app, Nat2Z.inj_add.
  now rewrite (length_contents d Hwf).
Qed.

(** [appends f bs]: [f], called with the offset [size()], appends exactly [bs]
    and returns their number. *)
Definition appends (f : DynamicArray -> Z -> res (Z * DynamicArray)) (bs : list Z) : Prop :=
  forall d, da_wf d -> _cursize d + Z.of_nat (length bs) <= _maxcapability d ->
  exists d', f d (_cursize d) = Ok (Z.of_nat (length bs), d') /\ da_wf d' /\
    _maxcapability d' = _maxcapability d /\ contents d' = contents d ++ bs.

(** One more [dynamic_memcpy] at the end of the array in a chain of them. *)
Ltac da_append :=
  match goal with
  | W : da_wf ?d |- context [dynamic_memcpy ?d ?off ?bs] =>
      let d' := fresh "d" in let E := fresh "E" in let W' := fresh "W" in
      let S := fresh "S" in let M := fresh "M" in let C := fresh "C" in
      destruct (dynamic_memcpy_at_end d off bs W) as (d' & E & W' & S & M & C);
      [try lia | rewrite ?length_be, ?length_le_bytes; try lia
       | rewrite E; cbn [mbind res_bind]; clear E];
      try rewrite ?length_be, ?length_le_bytes in S
  end.

(** ** Arrays that hold known bytes *)

(** [d] holds exactly [bs], with room up to [max]. *)
Record holds (d : DynamicArray) (max : Z) (bs : list Z) : Prop := {
  ho_wf : da_wf d;
  ho_max : _maxcapability d = max;
  ho_bytes : contents d = bs
}.

Lemma holds_size d max bs : holds d max bs -> _cursize d = Z.of_nat (length bs).
Proof. intros [W _ <-]. symmetry. now apply length_contents. Qed.

Lemma holds_memcpy d max bs off src :
  holds d max bs -> off = Z.of_nat (length bs) -> off + Z.of_nat (length src) <= max ->
  exists d', dynamic_memcpy d off src = Ok d' /\ holds d' max (bs ++ src).
Proof.
  intros H -> Hle. pose proof (holds_size _ _ _ H) as Hs. destruct H as [W M C].
  destruct (dynamic_memcpy_at_end d (Z.of_nat (length bs)) src W) as (d' & E & W' & _ & M' & C').
  - lia.
  - lia.
  - exists d'. split; [exact E|]. constructor; congruence.
Qed.

Lemma holds_appends f src d max bs off :
  appends f src -> holds d max bs -> off = Z.of_nat (length bs) -> off + Z.of_nat (length src) <= max ->
  exists d', f d off = Ok (Z.of_nat (length src), d') /\ holds d' max (bs ++ src).
Proof.
  intros Hf H -> Hle. pose proof (holds_size _ _ _ H) as Hs. destruct H as [W M C].
  destruct (Hf d W) as (d' & E & W' & M' & C'); [lia|]. rewrite Hs in E.
  exists d'. split; [exact E|]. constructor; congruence.
Qed.

(** Writing behind the end leaves a gap of arbitrary bytes. *)
Lemma holds_gap d max bs off src :
  holds d max bs -> Z.of_nat (length bs) <= off -> off + Z.of_nat (length src) <= max ->
  exists d' gap, dynamic_memcpy d off src = Ok d' /\ holds d' max (bs ++ gap ++ src) /\
    Z.of_nat (length gap) = off - Z.of_nat (length bs).
Proof.
  intros H Ho Hle. pose proof (holds_size _ _ _ H) as Hs. destruct H as [W M C].
  destruct (dynamic_memcpy_mem d off src W) as (d' & z & E & W' & Hs' & _ & M' & Hl & Em); [lia|lia|].
  set (m := da_mem d ++ replicate z 0) in *.
  assert (Hp : take (length bs) m = bs).
  { unfold contents in C. unfold m. rewrite <- C at 1. rewrite Hs, Nat2Z.id in *.
    pose proof (da_wf_len d W). destruct W as (_ & ? & _).
    rewrite take_app_le by (rewrite length_take; lia). rewrite length_take, Nat.min_l by lia. exact C. }
  exists d', (drop (length bs) (take (Z.to_nat off) m)). split; [exact E|]. split.
  - constructor; [exact W'|congruence|]. unfold contents. rewrite Em, Hs', Hs.
    rewrite Z.max_r by lia.
    replace (Z.to_nat (off + Z.of_nat (length src))) with (length (take (Z.to_nat off) m ++ src))%nat
      by (rewrite length_app, length_take; lia).
    rewrite app_assoc, take_app_length, app_assoc. f_equal.
    rewrite <- (take_drop (length bs) (take (Z.to_nat off) m)) at 1.
    f_equal. rewrite take_take, Nat.min_l by lia. exact Hp.
  - rewrite length_drop, length_take. lia.
Qed.

(** Going back to write a field that was skipped. *)
Lemma holds_overwrite d max pre old post src off :
  holds d max (pre ++ old ++ post) -> off = Z.of_nat (length pre) -> length old = length src ->
  exists d', dynamic_memcpy d off src = Ok d' /\ holds d' max (pre ++ src ++ post).
Proof.
  intros H -> Hl. pose proof (holds_size _ _ _ H) as Hs. rewrite !length_app in Hs. destruct H as [W M C].
  assert (_cursize d <= _maxcapability d) by (destruct W as (_ & ? & _ & ? & _); lia).
  destruct (dynamic_memcpy_contents d (Z.of_nat (length pre)) src W) as (d' & E & W' & _ & M' & C');
    [lia|lia|].
  exists d'. split; [exact E|]. constructor; [exact W'|congruence|].
  rewrite C', C, Nat2Z.id, take_app_length, <- Hl. f_equal. f_equal.
  rewrite <- drop_drop, drop_app_length, drop_app_length. reflexivity.
Qed.

Lemma holds_nil d : da_wf d -> _cursize d = 0 -> holds d (_maxcapability d) [].
Proof.
  intros W E. constructor; auto. pose proof (length_contents d W) as L. rewrite E in L.
  destruct (contents d); [reflexivity|discriminate].
Qed.

(** ** Arrays filled out of order *)

(** [src] written at [off] of a buffer that is zero behind its end. *)
Definition put_at (bs : list Z) (off : nat) (src : list Z) : list Z :=
  take off (bs ++ replicate (off - length bs) 0) ++ src ++ drop (off + length src) bs.

Lemma length_put_at bs off src : length (put_at bs off src) = Nat.max (length bs) (off + length src).
Proof.
  unfold put_at. rewrite !length_app, length_take, length_app, length_replicate, length_drop. lia.
Qed.

Lemma nth_put_at bs off src i :
  nth i (put_at bs off src) 0 =
  if ((off <=? i) && (i <? off + length src))%nat then nth (i - off) src 0 else nth i bs 0.
Proof.
  unfold put_at.
  assert (Hn : forall j, nth j (bs ++ replicate (off - length bs) 0) 0 = nth j bs 0).
  { intros j. destruct (Nat.lt_ge_cases j (length bs)); [now rewrite app_nth1|].
    rewrite app_nth2, nth_replicate_0, nth_overflow by lia. reflexivity. }
  assert (Ht : length (take off (bs ++ replicate (off - length bs) 0)) = off)
    by (rewrite length_take, length_app, length_replicate; lia).
  destruct (Nat.leb_spec off i), (Nat.ltb_spec i (off + length src)); cbn [andb].
  - rewrite app_nth2, Ht, app_nth1 by lia. reflexivity.
  - rewrite app_nth2, Ht, app_nth2 by lia. rewrite nth_skipn. f_equal. lia.
  - rewrite app_nth1 by lia. rewrite <- (Hn i).
    rewrite <- (take_drop off (bs ++ replicate (off - length bs) 0)) at 2. now rewrite app_nth1 by lia.
  - lia.
Qed.

(** [d] holds [bs] and is zero behind them. *)
Record plain (d : DynamicArray) (max : Z) (bs : list Z) : Prop := {
  pl_holds : holds d max bs;
  pl_zero : forall i, _cursize d <= i -> da_byte d i = 0
}.

Lemma nth_contents d i : nth i (contents d) 0 = if (i <? Z.to_nat (_cursize d))%nat then da_byte d (Z.of_nat i) else 0.
Proof.
  unfold contents, da_byte. rewrite Nat2Z.id. destruct (Nat.ltb_spec i (Z.to_nat (_cursize d))).
  - rewrite <- (take_drop (Z.to_nat (_cursize d)) (da_mem d)) at 2.
    destruct (Nat.lt_ge_cases i (length (take (Z.to_nat (_cursize d)) (da_mem d)))) as [Hi|Hi].
    + now rewrite app_nth1 by exact Hi.
    + rewrite (nth_overflow (take _ _)) by exact Hi. rewrite length_take in Hi.
      rewrite take_ge, drop_ge, app_nil_r, nth_overflow by lia. reflexivity.
  - apply nth_overflow. rewrite length_take. lia.
Qed.

Lemma plain_byte d max bs i : plain d max bs -> da_byte d (Z.of_nat i) = nth i bs 0.
Proof.
  intros [[W _ <-] Hz]. rewrite nth_contents.
  destruct (Nat.ltb_spec i (Z.to_nat (_cursize d))); [reflexivity|]. apply Hz. lia.
Qed.

Lemma plain_memcpy d max bs off src :
  plain d max bs -> 0 <= off -> off + Z.of_nat (length src) <= max ->
  exists d', dynamic_memcpy d off src = Ok d' /\ plain d' max (put_at bs (Z.to_nat off) src) /\
    _mincapability d' = _mincapability d.
Proof.
  intros P Ho Hm. pose proof P as [[W M C] Hz].
  pose proof (holds_size _ _ _ (pl_holds _ _ _ P)) as Hs.
  destruct (dynamic_memcpy_ok d off src W Ho) as (d' & E & W' & S' & Mi & M' & B'); [lia|].
  exists d'. split; [exact E|]. split; [|exact Mi]. constructor; [constructor; [exact W'|congruence|]|].
  - apply (nth_ext _ _ 0 0).
    + apply Nat2Z.inj. rewrite length_contents, length_put_at by exact W'. lia.
    + intros i Hi. apply Nat2Z.inj_lt in Hi. rewrite length_contents in Hi by exact W'.
      rewrite nth_contents, nth_put_at, (proj2 (Nat.ltb_lt _ _)) by lia. rewrite B' by lia.
      rewrite <- (plain_byte d max bs i P).
      destruct (Z.leb_spec off (Z.of_nat i)), (Z.ltb_spec (Z.of_nat i) (off + Z.of_nat (length src)));
      destruct (Nat.leb_spec (Z.to_nat off) i), (Nat.ltb_spec i (Z.to_nat off + length src));
      try lia; cbn [andb]; try reflexivity. f_equal. lia.
  - intros i Hi. rewrite B' by (destruct W' as (_ & ? & _); lia).
    destruct (Z.leb_spec off i), (Z.ltb_spec i (off + Z.of_nat (length src))); cbn [andb];
      try lia; apply Hz; lia.
Qed.

Lemma plain_clear d : da_wf d ->
  exists d', clear d = Ok d' /\ plain d' (_maxcapability d) [] /\ _mincapability d' = _mincapability d.
Proof.
  intros W. destruct (clear_wf d W) as (d' & E & W' & C & M & Mi & B).
  exists d'. split; [exact E|]. split; [|exact Mi]. constructor; [now constructor|]. intros i _. apply B.
Qed.

Lemma put_at_0 src : put_at [] 0 src = src.
Proof. unfold put_at. cbn. now rewrite drop_nil, app_nil_r. Qed.

Lemma DynamicArray_new_plain mincap maxcap :
  0 < mincap < maxcap -> maxcap <= 2 ^ 30 ->
  exists d, DynamicArray_new mincap maxcap = Ok d /\ plain d maxcap [] /\ _mincapability d = mincap.
Proof.
  intros H1 H2. unfold DynamicArray_new, init.
  rewrite (proj2 (Z.leb_gt _ _)), (proj2 (Z.ltb_ge _ _)) by lia.
  eexists; split; [reflexivity|]. split; [|reflexivity]. constructor; [constructor|].
  - repeat split; cbn; try lia. eexists; split; [reflexivity|]. rewrite length_replicate. lia.
  - reflexivity.
  - reflexivity.
  - intros i _. apply nth_replicate_0.
Qed.
