(* ===== verification/StdMap.v ===== *)
(** * std::map

    The servers keep [std::map]s ordered by [operator<] of the key and iterate
    over them in that order.  A map is the list of its pairs in iteration
    order; the operations are those the source calls ([find], [insert],
    assignment through an iterator, [erase], [begin], [lower_bound], [size]).
    [CppLess] is the interface a key type offers ([operator<]), with the laws
    of a strict total order as [CppLessLaws]. *)

From Stdlib Require Import ZArith Lia List Sorted.
From stdpp Require Import base tactics list numbers option.
From S2P Require Import Prelude.

Open Scope Z_scope.

Class CppLess (K : Type) := less : K -> K -> bool.

Class CppLessLaws (K : Type) `{CppLess K} : Prop := {
  less_irrefl : forall a, less a a = false;
  less_trans : forall a b c, less a b = true -> less b c = true -> less a c = true;
  less_total : forall a b, less a b = false -> less b a = false -> a = b
}.

#[global] Instance Z_less : CppLess Z := Z.ltb.
#[global] Instance Z_less_laws : CppLessLaws Z.
Proof. constructor; unfold less, Z_less; intros; lia. Qed.

Section StdMap.
Context {K V : Type} `{CppLess K}.

Definition stdmap : Type := list (K * V).

Fixpoint m_find (k : K) (m : list (K * V)) : option V :=
  match m with
  | [] => None
  | (k', v) :: m' =>
      if less k' k then m_find k m'
      else if less k k' then None
      else Some v
  end.

(** [m.insert(pair(k, v))]: keeps an existing pair. *)
Fixpoint m_insert (k : K) (v : V) (m : list (K * V)) : list (K * V) :=
  match m with
  | [] => [(k, v)]
  | (k', v') :: m' =>
      if less k' k then (k', v') :: m_insert k v m'
      else if less k k' then (k, v) :: (k', v') :: m'
      else (k', v') :: m'
  end.

(** [iter->second = v] for the iterator [iter] of [k]. *)
Fixpoint m_assign (k : K) (v : V) (m : list (K * V)) : list (K * V) :=
  match m with
  | [] => []
  | (k', v') :: m' =>
      if less k' k then (k', v') :: m_assign k v m'
      else if less k k' then (k', v') :: m'
      else (k', v) :: m'
  end.

Fixpoint m_erase (k : K) (m : list (K * V)) : list (K * V) :=
  match m with
  | [] => []
  | (k', v') :: m' =>
      if less k' k then (k', v') :: m_erase k m'
      else if less k k' then (k', v') :: m'
      else m'
  end.

(** The pairs from [m.lower_bound(k)] to [m.end()]. *)
Fixpoint m_lower_bound (k : K) (m : list (K * V)) : list (K * V) :=
  match m with
  | [] => []
  | (k', v') :: m' => if less k' k then m_lower_bound k m' else m
  end.

Definition m_size (m : list (K * V)) : Z := Z.of_nat (length m).

Definition key_below (k : K) (p : K * V) : Prop := less k p.1 = true.

(** Iteration order is strictly ascending. *)
Inductive m_sorted : list (K * V) -> Prop :=
  | sorted_nil : m_sorted []
  | sorted_cons k v m : Forall (key_below k) m -> m_sorted m -> m_sorted ((k, v) :: m).

Context `{!CppLessLaws K}.

Lemma less_asym a b : less a b = true -> less b a = false.
Proof.
  intros Hab. destruct (less b a) eqn:Hba; [|reflexivity].
  rewrite <- (less_irrefl a). symmetry. eauto using less_trans.
Qed.

(** The three outcomes of comparing two keys. *)
Inductive less_view (a b : K) : bool -> bool -> Prop :=
  | view_lt : less a b = true -> less b a = false -> a <> b -> less_view a b true false
  | view_gt : less a b = false -> less b a = true -> a <> b -> less_view a b false true
  | view_eq : a = b -> less a b = false -> less b a = false -> less_view a b false false.

Lemma lessP a b : less_view a b (less a b) (less b a).
Proof.
  destruct (less a b) eqn:Hab.
  - rewrite (less_asym a b Hab).
    apply view_lt; [exact Hab|exact (less_asym a b Hab)|].
    intros ->. now rewrite less_irrefl in Hab.
  - destruct (less b a) eqn:Hba.
    + apply view_gt; [exact Hab|exact Hba|]. intros ->. now rewrite less_irrefl in Hba.
    + apply view_eq; [exact (less_total a b Hab Hba)|exact Hab|exact Hba].
Qed.

Lemma key_below_trans k k' (m : list (K * V)) :
  less k k' = true -> Forall (key_below k') m -> Forall (key_below k) m.
Proof.
  intros Hk. apply Forall_impl. intros p Hp. unfold key_below in *. eauto using less_trans.
Qed.

Lemma m_find_below k m : Forall (key_below k) m -> m_find k m = None.
Proof.
  destruct m as [|[k' v'] m]; [reflexivity|]. intros Hf. inversion_clear Hf as [|? ? Hk _].
  unfold key_below in Hk; cbn in *. now rewrite Hk, (less_asym _ _ Hk).
Qed.

Lemma m_find_cons_eq k v m : m_find k ((k, v) :: m) = Some v.
Proof. cbn. now rewrite less_irrefl. Qed.

(** A key below the head of a sorted map is not in it. *)
Lemma m_find_lt k k1 v1 m : less k k1 = true -> m_find k ((k1, v1) :: m) = None.
Proof. intros Hl. cbn. now rewrite (less_asym _ _ Hl), Hl. Qed.

Lemma m_find_insert_eq k v m :
  m_find k (m_insert k v m) = Some (default v (m_find k m)).
Proof.
  induction m as [|[k1 v1] m IH]; cbn [m_insert m_find].
  - now rewrite less_irrefl.
  - destruct (lessP k1 k); cbn [m_find].
    + now destruct (lessP k1 k).
    + now rewrite less_irrefl.
    + now destruct (lessP k1 k).
Qed.

Lemma m_find_insert_ne k v k' m :
  k <> k' -> m_find k' (m_insert k v m) = m_find k' m.
Proof.
  intros Hne. induction m as [|[k1 v1] m IH]; cbn [m_insert m_find].
  - now destruct (lessP k k').
  - destruct (lessP k1 k) as [H1 H2 _|H1 H2 _| -> H1 H2]; cbn [m_find].
    + now rewrite IH.
    + destruct (lessP k k') as [H3 H4 _|H3 H4 _|]; [reflexivity| |congruence].
      now rewrite (less_asym k' k1), (less_trans k' k k1) by eauto using less_trans.
    + reflexivity.
Qed.

Lemma m_find_assign_eq k v m :
  m_find k (m_assign k v m) = (fun _ => v) <$> m_find k m.
Proof.
  induction m as [|[k1 v1] m IH]; cbn [m_assign m_find]; [reflexivity|].
  destruct (lessP k1 k) as [H1 H2 _|H1 H2 _| -> H1 H2]; cbn [m_find].
  - now rewrite H1.
  - now rewrite H1, H2.
  - now rewrite H1.
Qed.

Lemma m_find_assign_ne k v k' m :
  k <> k' -> m_find k' (m_assign k v m) = m_find k' m.
Proof.
  intros Hne. induction m as [|[k1 v1] m IH]; cbn [m_assign m_find]; [reflexivity|].
  destruct (lessP k1 k) as [H1 H2 _|H1 H2 _| -> H1 H2]; cbn [m_find]; [now rewrite IH|reflexivity|].
  now destruct (lessP k k').
Qed.

Lemma m_find_erase_eq k m : m_sorted m -> m_find k (m_erase k m) = None.
Proof.
  induction 1 as [|k1 v1 m Hb Hs IH]; cbn [m_erase m_find]; [reflexivity|].
  destruct (lessP k1 k) as [H1 H2 _|H1 H2 _| -> H1 H2]; cbn [m_find].
  - now rewrite H1.
  - now rewrite H1, H2.
  - now apply m_find_below.
Qed.

Lemma m_find_erase_ne k k' m :
  m_sorted m -> k <> k' -> m_find k' (m_erase k m) = m_find k' m.
Proof.
  intros Hs Hne. induction Hs as [|k1 v1 m Hb Hs IH]; cbn [m_erase m_find]; [reflexivity|].
  destruct (lessP k1 k) as [H1 H2 _|H1 H2 _| -> H1 H2]; cbn [m_find]; [now rewrite IH|reflexivity|].
  destruct (lessP k k') as [H3 H4 _|H3 H4 _|]; [reflexivity| |congruence].
  apply m_find_below. eauto using key_below_trans.
Qed.

Lemma m_insert_below k k1 v1 m :
  less k k1 = true -> Forall (key_below k) m -> Forall (key_below k) (m_insert k1 v1 m).
Proof.
  intros Hk. induction 1 as [|[k2 v2] m H2 Hm IH]; cbn [m_insert].
  - now repeat constructor.
  - repeat case_match; repeat constructor; auto.
Qed.

Lemma m_insert_sorted k v m : m_sorted m -> m_sorted (m_insert k v m).
Proof.
  induction 1 as [|k1 v1 m Hb Hs IH]; cbn [m_insert]; [now repeat constructor|].
  destruct (lessP k1 k) as [H1 H2 _|H1 H2 _| -> H1 H2].
  - constructor; auto using m_insert_below.
  - constructor; [|now constructor]. constructor; [exact H2|]. eauto using key_below_trans.
  - now constructor.
Qed.

Lemma m_assign_sorted k v m : m_sorted m -> m_sorted (m_assign k v m).
Proof.
  induction 1 as [|k1 v1 m Hb Hs IH]; cbn [m_assign]; [constructor|].
  destruct (lessP k1 k) as [H1 H2 _|H1 H2 _| -> H1 H2]; constructor; auto.
  clear Hs IH. induction Hb as [|[k2 v2] m Hk2 Hb IHb]; cbn [m_assign]; [constructor|].
  repeat case_match; repeat constructor; auto.
Qed.

Lemma m_erase_Forall (P : K * V -> Prop) k m : Forall P m -> Forall P (m_erase k m).
Proof.
  induction 1 as [|[k2 v2] m Hk2 Hb IHb]; cbn [m_erase]; [constructor|].
  repeat case_match; auto.
Qed.

Lemma m_erase_sorted k m : m_sorted m -> m_sorted (m_erase k m).
Proof.
  induction 1 as [|k1 v1 m Hb Hs IH]; cbn [m_erase]; [constructor|].
  repeat case_match; try constructor; auto using m_erase_Forall.
Qed.

Lemma m_find_In k v m : m_sorted m -> m_find k m = Some v <-> In (k, v) m.
Proof.
  induction 1 as [|k1 v1 m Hb Hs IH]; cbn [m_find In]; [split; [discriminate|tauto]|].
  rewrite Forall_forall in Hb.
  destruct (lessP k1 k) as [H1 H2 Hn|H1 H2 Hn| -> H1 H2].
  - rewrite IH. split; [auto|]. intros [[= ? ?]|Hi]; [congruence|exact Hi].
  - split; [discriminate|]. intros [[= ? ?]|Hi]; [congruence|].
    specialize (Hb _ Hi). unfold key_below in Hb; cbn in Hb.
    now rewrite (less_asym k k1) in Hb.
  - split; [intros [= ->]; auto|]. intros [[= ?]|Hi]; [congruence|].
    specialize (Hb _ Hi). unfold key_below in Hb; cbn in Hb.
    now rewrite less_irrefl in Hb.
Qed.

(** Two maps with the same lookups are the same map. *)
Lemma m_ext m1 m2 :
  m_sorted m1 -> m_sorted m2 -> (forall k, m_find k m1 = m_find k m2) -> m1 = m2.
Proof.
  intros Hs1. revert m2. induction Hs1 as [|k1 v1 m1 Hb1 Hs1 IH]; intros m2 Hs2 Hf.
  - destruct m2 as [|[k v] m2]; [reflexivity|].
    specialize (Hf k). now rewrite m_find_cons_eq in Hf.
  - destruct Hs2 as [|k2 v2 m2 Hb2 Hs2].
    + specialize (Hf k1). now rewrite m_find_cons_eq in Hf.
    + destruct (lessP k1 k2) as [H1 H2 Hn|H1 H2 Hn| -> H1 H2].
      * specialize (Hf k1). now rewrite m_find_cons_eq, m_find_lt in Hf.
      * specialize (Hf k2). now rewrite m_find_cons_eq, m_find_lt in Hf.
      * pose proof (Hf k2) as Hf2. rewrite !m_find_cons_eq in Hf2. injection Hf2 as ->.
        f_equal. apply IH; [exact Hs2|]. intros k. specialize (Hf k). cbn [m_find] in Hf.
        destruct (lessP k2 k) as [? ? _|? Hk _|Ek ? ?]; [exact Hf| |].
        -- rewrite (m_find_below k m1), (m_find_below k m2);
             [reflexivity|apply (key_below_trans k k2)..]; assumption.
        -- subst k. now rewrite !m_find_below.
Qed.

Lemma m_insert_length k v m :
  length (m_insert k v m) =
  match m_find k m with Some _ => length m | None => S (length m) end.
Proof.
  induction m as [|[k1 v1] m IH]; cbn [m_insert m_find length]; [reflexivity|].
  destruct (lessP k1 k) as [H1 H2 _|H1 H2 _| -> H1 H2]; cbn [length]; [|reflexivity..].
  rewrite IH. now destruct (m_find k m).
Qed.

Lemma m_erase_length k m :
  length (m_erase k m) =
  match m_find k m with Some _ => pred (length m) | None => length m end.
Proof.
  induction m as [|[k1 v1] m IH]; cbn [m_erase m_find length]; [reflexivity|].
  destruct (lessP k1 k) as [H1 H2 _|H1 H2 _| -> H1 H2]; cbn [length]; [|reflexivity..].
  rewrite IH. destruct (m_find k m) eqn:E; [|reflexivity].
  destruct m; [discriminate|reflexivity].
Qed.

Lemma m_assign_length k v m : length (m_assign k v m) = length m.
Proof.
  induction m as [|[k1 v1] m IH]; cbn [m_assign length]; [reflexivity|].
  repeat case_match; cbn [length]; auto.
Qed.

Lemma m_lower_bound_find k k' m :
  m_sorted m ->
  m_find k' (m_lower_bound k m) = if less k' k then None else m_find k' m.
Proof.
  induction 1 as [|k1 v1 m Hb Hs IH]; cbn [m_lower_bound]; [now destruct (less k' k)|].
  destruct (lessP k1 k) as [H1 H2 _|H1 H2 _| -> H1 H2].
  - rewrite IH. cbn [m_find].
    destruct (lessP k' k) as [H3 H4 _|H3 H4 _| -> H3 H4]; [reflexivity| |].
    + now rewrite (less_trans k1 k k').
    + now rewrite H1.
  - destruct (less k' k) eqn:E; [|reflexivity].
    apply m_find_lt. eauto using less_trans.
  - destruct (less k' k) eqn:E; [|reflexivity]. now apply m_find_lt.
Qed.

Lemma m_lower_bound_sorted k m : m_sorted m -> m_sorted (m_lower_bound k m).
Proof.
  induction 1 as [|k1 v1 m Hb Hs IH]; cbn [m_lower_bound]; [constructor|].
  case_match; [exact IH|now constructor].
Qed.
Lemma m_take_sorted n m : m_sorted m -> m_sorted (take n m).
Proof.
  intros Hs. revert n. induction Hs as [|k v m Hb Hs IH]; intros [|n]; cbn; try constructor; auto.
  now apply Forall_take.
Qed.

(** A pair is among the first [n], or [n] pairs come before it. *)
Lemma m_take_or_below n k v m :
  m_sorted m -> In (k, v) m ->
  In (k, v) (take n m) \/
  ((n <= length m)%nat /\ Forall (fun p => less p.1 k = true) (take n m)).
Proof.
  intros Hs. revert n. induction Hs as [|k1 v1 m Hb Hs IH]; intros n Hi; [easy|].
  destruct n as [|n]; cbn; [right; split; [lia|constructor]|].
  destruct Hi as [Hi|Hi]; [auto|]. destruct (IH n Hi) as [Hin|[Hl Hf]]; [auto|].
  right. split; [lia|]. constructor; [|exact Hf].
  rewrite Forall_forall in Hb. exact (Hb _ Hi).
Qed.

(** Inserting the pairs of a map one by one. *)
Lemma fold_insert_find rs : forall (m : list (K * V)) k,
  m_sorted rs -> (forall k s, In (k, s) rs -> m_find k m = None) ->
  m_find k (fold_left (fun m r => m_insert r.1 r.2 m) rs m) =
  match m_find k rs with Some s => Some s | None => m_find k m end.
Proof.
  induction rs as [|[k1 s1] rs IH]; intros m k Hs Hd; [reflexivity|]. cbn [fold_left fst snd].
  inversion_clear Hs as [|? ? ? Hb Hs'].
  pose proof (Hd k1 s1 (or_introl eq_refl)) as H1.
  rewrite IH; [|exact Hs'|].
  - cbn [m_find]. destruct (lessP k1 k) as [Hl Hr Hne|Hl Hr Hne| <- _ _].
    + now rewrite m_find_insert_ne.
    + rewrite m_find_insert_ne by assumption.
      rewrite m_find_below; [reflexivity|]. eapply key_below_trans; eassumption.
    + now rewrite m_find_below, m_find_insert_eq, H1 by assumption.
  - intros k' s' Hi. rewrite Forall_forall in Hb. pose proof (Hb _ Hi) as Hk.
    unfold key_below in Hk; cbn in Hk. rewrite m_find_insert_ne; [now apply (Hd k' s'); right|].
    intros ->. now rewrite less_irrefl in Hk.
Qed.

Lemma fold_insert_sorted rs : forall (m : list (K * V)),
  m_sorted m -> m_sorted (fold_left (fun m r => m_insert r.1 r.2 m) rs m).
Proof. induction rs as [|r rs IH]; intros m Hm; [exact Hm|]. cbn. auto using m_insert_sorted. Qed.

Lemma m_inserts_id rs :
  m_sorted rs -> fold_left (fun m r => m_insert r.1 r.2 m) rs [] = rs.
Proof.
  intros Hs. apply m_ext; [apply fold_insert_sorted, sorted_nil|exact Hs|].
  intros k. rewrite fold_insert_find by easy. cbn. now destruct (m_find k rs).
Qed.
End StdMap.

Lemma m_map_sorted {K V W} `{CppLess K} (f : K * V -> K * W) m :
  (forall p, (f p).1 = p.1) -> m_sorted m -> m_sorted (map f m).
Proof.
  intros Hf. induction 1 as [|k v m Hb Hs IH]; cbn [map]; [constructor|].
  pose proof (Hf (k, v)) as E. destruct (f (k, v)) as [k' w]; cbn in E; subst k'.
  constructor; [|exact IH]. apply Forall_map. revert Hb. apply Forall_impl.
  intros p. unfold key_below. now rewrite Hf.
Qed.

Lemma m_map_take_sorted {K V W} `{CppLess K} (f : V -> W) n (m : list (K * V)) :
  m_sorted m -> m_sorted (map (fun r => (r.1, f r.2)) (take n m)).
Proof. intros Hs. apply m_map_sorted; [reflexivity|]. now apply m_take_sorted. Qed.

Lemma in_take_In {A} n (x : A) l : In x (take n l) -> In x l.
Proof. intros Hi. rewrite <- (take_drop n l). apply in_or_app. auto. Qed.

#[global] Arguments stdmap : clear implicits.

Create HintDb stdmap.
#[export] Hint Resolve m_erase_sorted m_lower_bound_sorted sorted_nil : stdmap.
#[export] Hint Extern 1 (m_sorted (m_insert _ _ _)) => apply m_insert_sorted : stdmap.
#[export] Hint Extern 1 (m_sorted (m_assign _ _ _)) => apply m_assign_sorted : stdmap.
