(* ===== verification/Crc32.v ===== *)
(** * CRC-32 (common/crc32.c, [crc32]) *)

From Stdlib Require Import ZArith Lia List.
From stdpp Require Import base tactics list numbers option.
From S2P Require Import Prelude.

Open Scope Z_scope.

(** One turn of the inner loop: [mask = -(crc & 1);
    crc = (crc >> 1) ^ (0xEDB88320 & mask)]. *)
Definition crc_bit (crc : Z) : Z :=
  let mask := u32 (- Z.land crc 1) in
  Z.lxor (Z.shiftr crc 1) (Z.land 0xEDB88320 mask).

(** One message byte: [crc = crc ^ byte], then eight turns. *)
Definition crc_byte (crc byte : Z) : Z := Nat.iter 8 crc_bit (Z.lxor crc byte).

(** [while (true) { ...; i = i + 1; if (i == int(size)) break; }]: the test is
    after the body, so a size of 0 runs off the message. *)
Fixpoint crc_loop (message : list Z) (i size crc : Z) : res Z :=
  match message with
  | [] => Err OutOfBounds
  | byte :: message' =>
      let crc' := crc_byte crc byte in
      if i + 1 =? s32 size then Ok (u32 (Z.lnot crc')) else crc_loop message' (i + 1) size crc'
  end.

Definition crc32 (message : list Z) (size : Z) : res Z :=
  crc_loop message 0 size 0xFFFFFFFF.

Lemma lxor_u32 a b : is_u32 a -> is_u32 b -> is_u32 (Z.lxor a b).
Proof.
  unfold is_u32. intros Ha Hb.
  assert (H0 : 0 <= Z.lxor a b) by (apply Z.lxor_nonneg; lia).
  split; [exact H0|].
  destruct (Z.eq_dec (Z.lxor a b) 0) as [->|Hn]; [lia|].
  apply Z.log2_lt_pow2; [lia|].
  eapply Z.le_lt_trans; [apply Z.log2_lxor; lia|].
  destruct (Z.eq_dec a 0) as [->|], (Z.eq_dec b 0) as [->|];
    try (apply Z.max_lub_lt; (reflexivity || (apply Z.log2_lt_pow2; lia))).
Qed.

Lemma crc_bit_u32 crc : is_u32 crc -> is_u32 (crc_bit crc).
Proof.
  intros Hc. apply lxor_u32.
  - unfold is_u32 in *. rewrite Z.shiftr_div_pow2 by lia.
    split; [apply Z.div_pos; lia|]. apply Z.div_lt_upper_bound; lia.
  - change 1 with (Z.ones 1). rewrite Z.land_ones by lia.
    destruct (Z.mod_pos_bound crc (2 ^ 1)) as [H1 H2]; [lia|].
    assert (crc mod 2 ^ 1 = 0 \/ crc mod 2 ^ 1 = 1) as [-> | ->] by lia;
      vm_compute; split; congruence.
Qed.

Lemma crc_byte_u32 crc b : is_u32 crc -> is_byte b -> is_u32 (crc_byte crc b).
Proof.
  intros Hc Hb. unfold crc_byte.
  assert (H0 : is_u32 (Z.lxor crc b))
    by (apply lxor_u32; [exact Hc|unfold is_byte, is_u32 in *; lia]).
  cbn. repeat apply crc_bit_u32. exact H0.
Qed.

(** With [0 < size <= length] the loop ends inside the message, with a 32-bit
    result that is a function of the first [size] bytes. *)
Lemma crc32_total message size :
  0 < size < 2 ^ 31 -> size <= Z.of_nat (length message) ->
  exists h, crc32 message size = Ok h /\ is_u32 h /\
            crc32 (take (Z.to_nat size) message) size = Ok h.
Proof.
  unfold crc32. generalize 0xFFFFFFFF as crc.
  assert (G : forall message i crc, 0 <= i < size -> size < 2 ^ 31 ->
            size - i <= Z.of_nat (length message) ->
            exists h, crc_loop message i size crc = Ok h /\ is_u32 h /\
              crc_loop (take (Z.to_nat (size - i)) message) i size crc = Ok h).
  { clear message. induction message as [|b message IH]; intros i crc Hi Hs Hl;
      cbn [length] in Hl; [lia|].
    replace (Z.to_nat (size - i)) with (S (Z.to_nat (size - (i + 1)))) by lia.
    cbn [crc_loop firstn take]. rewrite s32_id by (unfold is_s32; lia).
    destruct (Z.eqb_spec (i + 1) size); [|apply IH; lia].
    eexists; split; [reflexivity|]. split; [apply u32_range|reflexivity]. }
  intros crc Hs Hl. destruct (G message 0 crc) as (h & E & R & T); [lia..|].
  exists h. now rewrite Z.sub_0_r in T.
Qed.

Lemma crc32_size0 message : crc32 message 0 = Err OutOfBounds.
Proof.
  unfold crc32. assert (G : forall i crc, 0 <= i -> crc_loop message i 0 crc = Err OutOfBounds).
  { induction message as [|b m IH]; intros i crc Hi; cbn [crc_loop]; [reflexivity|].
    change (s32 0) with 0. destruct (Z.eqb_spec (i + 1) 0); [lia|]. apply IH; lia. }
  apply G; lia.
Qed.

(** The check value of CRC-32 ("123456789"). *)
Example crc32_check_value :
  crc32 [0x31;0x32;0x33;0x34;0x35;0x36;0x37;0x38;0x39] 9 = Ok 0xCBF43926.
Proof. vm_compute. reflexivity. Qed.
