(* ===== verification/Key.v ===== *)
(** * Keys (common/key.h, common/key.c, with LARGE_KEY defined)

    A key is four 32-bit words.  This file has the comparison operators, the
    byte string RocksDB stores, the wire format and the partition functions.
    The main facts: RocksDB's byte order is [operator<], and both encodings
    are invertible. *)

From Stdlib Require Import ZArith Lia List.
From stdpp Require Import base tactics list numbers option.
From S2P Require Import Prelude Cursor DynamicArray StdMap Crc32.

Open Scope Z_scope.

Record Key := mkKey {
  keylolo : Z;
  keylohi : Z;
  keyhilo : Z;
  keyhihi : Z
}.

#[global] Instance Key_eq_dec : EqDecision Key.
Proof. solve_decision. Defined.

Definition key_wf (k : Key) : Prop :=
  is_u32 (keylolo k) /\ is_u32 (keylohi k) /\ is_u32 (keyhilo k) /\ is_u32 (keyhihi k).

Definition Key_max : Key := mkKey (2 ^ 32 - 1) (2 ^ 32 - 1) (2 ^ 32 - 1) (2 ^ 32 - 1).
Definition Key_min : Key := mkKey 0 0 0 0.
Definition Key_default : Key := mkKey 0 0 0 0.

(** [Key::get_scanrecordcnt]: the unsigned difference, read as an [int]. *)
Definition get_scanrecordcnt (startkey endkey : Key) : res Z :=
  let scanrecordcnt := s32 (u32 (keylolo endkey - keylolo startkey)) in
  _ ← INVARIANT (0 <? scanrecordcnt);
  _ ← INVARIANT (scanrecordcnt <=? 1000);
  Ok scanrecordcnt.

(** ** Comparison operators *)

Definition key_lt (l r : Key) : bool :=
  (keyhihi l <? keyhihi r) || ((keyhihi l =? keyhihi r) && (keyhilo l <? keyhilo r)) ||
  ((keyhihi l =? keyhihi r) && (keyhilo l =? keyhilo r) && (keylohi l <? keylohi r)) ||
  ((keyhihi l =? keyhihi r) && (keyhilo l =? keyhilo r) && (keylohi l =? keylohi r) &&
   (keylolo l <? keylolo r)).

Definition key_gt (l r : Key) : bool :=
  (keyhihi l >? keyhihi r) || ((keyhihi l =? keyhihi r) && (keyhilo l >? keyhilo r)) ||
  ((keyhihi l =? keyhihi r) && (keyhilo l =? keyhilo r) && (keylohi l >? keylohi r)) ||
  ((keyhihi l =? keyhihi r) && (keyhilo l =? keyhilo r) && (keylohi l =? keylohi r) &&
   (keylolo l >? keylolo r)).

Definition key_ge (l r : Key) : bool :=
  (keyhihi l >? keyhihi r) || ((keyhihi l =? keyhihi r) && (keyhilo l >? keyhilo r)) ||
  ((keyhihi l =? keyhihi r) && (keyhilo l =? keyhilo r) && (keylohi l >? keylohi r)) ||
  ((keyhihi l =? keyhihi r) && (keyhilo l =? keyhilo r) && (keylohi l =? keylohi r) &&
   (keylolo l >=? keylolo r)).

Definition key_le (l r : Key) : bool :=
  (keyhihi l <? keyhihi r) || ((keyhihi l =? keyhihi r) && (keyhilo l <? keyhilo r)) ||
  ((keyhihi l =? keyhihi r) && (keyhilo l =? keyhilo r) && (keylohi l <? keylohi r)) ||
  ((keyhihi l =? keyhihi r) && (keyhilo l =? keyhilo r) && (keylohi l =? keylohi r) &&
   (keylolo l <=? keylolo r)).

Definition key_eq (l r : Key) : bool :=
  (keyhihi l =? keyhihi r) && (keyhilo l =? keyhilo r) && (keylohi l =? keylohi r) &&
  (keylolo l =? keylolo r).

Definition key_ne (l r : Key) : bool :=
  negb (keyhihi l =? keyhihi r) || negb (keyhilo l =? keyhilo r) ||
  negb (keylohi l =? keylohi r) || negb (keylolo l =? keylolo r).

(** ** Encodings *)

(** [Key::to_string_for_rocksdb]: most significant byte first. *)
Definition to_string_for_rocksdb (k : Key) : list Z :=
  let keyhihilo := u16 (Z.land (keyhihi k) 0xFFFF) in
  let keyhihihi := u16 (Z.land (Z.shiftr (keyhihi k) 16) 0xFFFF) in
  [ u8 (Z.land (Z.shiftr keyhihihi 8) 0xFF); u8 (Z.land keyhihihi 0xFF);
    u8 (Z.land (Z.shiftr keyhihilo 8) 0xFF); u8 (Z.land keyhihilo 0xFF);
    u8 (Z.land (Z.shiftr (keyhilo k) 24) 0xFF); u8 (Z.land (Z.shiftr (keyhilo k) 16) 0xFF);
    u8 (Z.land (Z.shiftr (keyhilo k) 8) 0xFF); u8 (Z.land (keyhilo k) 0xFF);
    u8 (Z.land (Z.shiftr (keylohi k) 24) 0xFF); u8 (Z.land (Z.shiftr (keylohi k) 16) 0xFF);
    u8 (Z.land (Z.shiftr (keylohi k) 8) 0xFF); u8 (Z.land (keylohi k) 0xFF);
    u8 (Z.land (Z.shiftr (keylolo k) 24) 0xFF); u8 (Z.land (Z.shiftr (keylolo k) 16) 0xFF);
    u8 (Z.land (Z.shiftr (keylolo k) 8) 0xFF); u8 (Z.land (keylolo k) 0xFF) ].

(** [keystr[i]]; past the terminating NUL it is undefined. *)
Definition str_at (keystr : list Z) (i : nat) : res Z :=
  match keystr !! i with
  | Some b => Ok b
  | None => if (i =? length keystr)%nat then Ok 0 else Err OutOfBounds
  end.

(** [uint32_t(a) << 24 | uint32_t(b) << 16 | uint32_t(c) << 8 | uint32_t(d)]. *)
Definition u32_of_bytes (a b c d : Z) : Z :=
  Z.lor (Z.lor (Z.lor (u32 (Z.shiftl a 24)) (Z.shiftl b 16)) (Z.shiftl c 8)) d.

(** [Key::from_string_for_rocksdb]. *)
Definition from_string_for_rocksdb (keystr : list Z) : res Key :=
  c0 ← str_at keystr 0; c1 ← str_at keystr 1; c2 ← str_at keystr 2; c3 ← str_at keystr 3;
  let keyhihihi := Z.lor (Z.shiftl c0 8) c1 in
  let keyhihilo := Z.lor (Z.shiftl c2 8) c3 in
  let hihi := Z.lor (u32 (Z.shiftl keyhihihi 16)) keyhihilo in
  c4 ← str_at keystr 4; c5 ← str_at keystr 5; c6 ← str_at keystr 6; c7 ← str_at keystr 7;
  let hilo := u32_of_bytes c4 c5 c6 c7 in
  c8 ← str_at keystr 8; c9 ← str_at keystr 9; c10 ← str_at keystr 10; c11 ← str_at keystr 11;
  let lohi := u32_of_bytes c8 c9 c10 c11 in
  c12 ← str_at keystr 12; c13 ← str_at keystr 13; c14 ← str_at keystr 14; c15 ← str_at keystr 15;
  let lolo := u32_of_bytes c12 c13 c14 c15 in
  Ok (mkKey lolo lohi hilo hihi).

(** [Key::serialize] (the three overloads are the same code). *)
Definition Key_serialize (k : Key) (buflen : Z) : writer Z :=
  _ ← w_check (16 <=? buflen);
  let bigendian_keylolo := htonl (keylolo k) in
  let bigendian_keylohi := htonl (keylohi k) in
  let bigendian_keyhilo := htonl (keyhilo k) in
  let keyhihilo := u16 (Z.land (keyhihi k) 0xFFFF) in
  let keyhihihi := u16 (Z.land (Z.shiftr (keyhihi k) 16) 0xFFFF) in
  let bigendian_keyhihilo := htons keyhihilo in
  let bigendian_keyhihihi := htons keyhihihi in
  _ ← w_put (le_bytes 4 bigendian_keylolo);
  _ ← w_put (le_bytes 4 bigendian_keylohi);
  _ ← w_put (le_bytes 4 bigendian_keyhilo);
  _ ← w_put (le_bytes 2 bigendian_keyhihilo);
  _ ← w_put (le_bytes 2 bigendian_keyhihihi);
  mret 16.

(** [Key::deserialize]. *)
Definition Key_deserialize (buflen : Z) : reader Key :=
  _ ← r_check (16 <=? buflen);
  b0 ← r_get 4;
  b1 ← r_get 4;
  b2 ← r_get 4;
  b3 ← r_get 2;
  b4 ← r_get 2;
  let keylolo := ntohl (le_val b0) in
  let keylohi := ntohl (le_val b1) in
  let keyhilo := ntohl (le_val b2) in
  let keyhihilo := ntohs (le_val b3) in
  let keyhihihi := ntohs (le_val b4) in
  let keyhihi := Z.lor (u32 (Z.shiftl keyhihihi 16)) keyhihilo in
  mret (mkKey keylolo keylohi keyhilo keyhihi).

(** [Key::dynamic_serialize]. *)
Definition Key_dynamic_serialize (k : Key) (buf : DynamicArray) (offset : Z)
    : res (Z * DynamicArray) :=
  _ ← INVARIANT (0 <=? offset);
  let keyhihilo := u16 (Z.land (keyhihi k) 0xFFFF) in
  let keyhihihi := u16 (Z.land (Z.shiftr (keyhihi k) 16) 0xFFFF) in
  buf ← dynamic_memcpy buf offset (le_bytes 4 (htonl (keylolo k)));
  buf ← dynamic_memcpy buf (offset + 4) (le_bytes 4 (htonl (keylohi k)));
  buf ← dynamic_memcpy buf (offset + 8) (le_bytes 4 (htonl (keyhilo k)));
  buf ← dynamic_memcpy buf (offset + 12) (le_bytes 2 (htons keyhihilo));
  buf ← dynamic_memcpy buf (offset + 14) (le_bytes 2 (htons keyhihihi));
  Ok (16, buf).

(** ** Hash and range partition *)

(** [Key::hash_bycrc32]. *)
Definition hash_bycrc32 (k : Key) : res Z :=
  '(tmp_keysize, buf) ← run_writer (Key_serialize k 16) (replicate 16 0);
  crc32 buf tmp_keysize.

(** Unsigned division and remainder of C. *)
Definition udiv (a b : Z) : res Z := if b =? 0 then Err DivByZero else Ok (a / b).
Definition umod (a b : Z) : res Z := if b =? 0 then Err DivByZero else Ok (a mod b).

(** [Key::get_hashpartition_idx]. *)
Definition get_hashpartition_idx (k : Key) (partitionnum servernum : Z) : res Z :=
  h ← hash_bycrc32 k;
  hashresult ← umod h partitionnum;
  perserver ← udiv partitionnum servernum;
  targetidx ← udiv hashresult perserver;
  let targetidx := if targetidx =? servernum then u32 (targetidx - 1) else targetidx in
  _ ← INVARIANT ((0 <=? targetidx) && (targetidx <? servernum));
  Ok targetidx.

(** [Key::get_rangepartition_idx]. *)
Definition get_rangepartition_idx (k : Key) (servernum : Z) : res Z :=
  let keyhihihi := Z.land (Z.shiftr (keyhihi k) 16) 0xFFFF in
  perserver ← udiv (64 * 1024) servernum;
  targetidx ← udiv keyhihihi perserver;
  _ ← INVARIANT ((0 <=? targetidx) && (targetidx <? servernum));
  Ok targetidx.

(** [Key::get_leafswitch_idx] with USE_HASH. *)
Definition get_leafswitch_idx (k : Key) (partitionnum servernum leafswitchnum spineswitchnum : Z)
    : res Z :=
  partitionidx ← get_hashpartition_idx k partitionnum servernum;
  perleaf ← udiv servernum leafswitchnum;
  targetidx ← udiv partitionidx perleaf;
  let targetidx := u32 (targetidx + spineswitchnum) in
  _ ← INVARIANT ((spineswitchnum <=? targetidx) && (targetidx <? u32 (leafswitchnum + spineswitchnum)));
  Ok targetidx.

(** ** Order *)

#[global] Instance Key_less : CppLess Key := key_lt.

#[global] Instance Key_less_laws : CppLessLaws Key.
Proof.
  constructor; unfold less, Key_less, key_lt.
  - intros a. lia.
  - intros a b c. lia.
  - intros [a1 a2 a3 a4] [b1 b2 b3 b4]; cbn. intros H1 H2. f_equal; lia.
Qed.

Lemma key_eq_spec l r : key_eq l r = true <-> l = r.
Proof.
  unfold key_eq. destruct l as [a b c d], r as [a' b' c' d']; cbn. split.
  - intros H. f_equal; lia.
  - intros [= -> -> -> ->]. lia.
Qed.

(** The value of a key as one 128-bit number. *)
Definition key_num (k : Key) : Z :=
  ((keyhihi k * 2 ^ 32 + keyhilo k) * 2 ^ 32 + keylohi k) * 2 ^ 32 + keylolo k.

Lemma key_lt_num l r : key_wf l -> key_wf r -> key_lt l r = (key_num l <? key_num r).
Proof. unfold key_wf, is_u32, key_lt, key_num. intros; lia. Qed.

(** The other operators are the ones [operator<] induces. *)
Lemma key_operators l r :
  key_gt l r = key_lt r l /\ key_le l r = negb (key_lt r l) /\
  key_ge l r = negb (key_lt l r) /\ key_ne l r = negb (key_eq l r).
Proof. unfold key_gt, key_lt, key_le, key_ge, key_ne, key_eq. lia. Qed.

(** ** The RocksDB string *)

Lemma be4_bytes x :
  is_u32 x ->
  be 4 x = [u8 (Z.land (Z.shiftr x 24) 0xFF); u8 (Z.land (Z.shiftr x 16) 0xFF);
            u8 (Z.land (Z.shiftr x 8) 0xFF); u8 (Z.land x 0xFF)].
Proof.
  intros Hx. rewrite !land_ff, !shiftr_div by lia. unfold u8, be; cbn [le_bytes rev app].
  change (2 ^ 8) with 256. rewrite !Z.mod_mod, !Z.div_div by lia. reflexivity.
Qed.

Lemma to_string_be k :
  key_wf k ->
  to_string_for_rocksdb k =
  be 4 (keyhihi k) ++ be 4 (keyhilo k) ++ be 4 (keylohi k) ++ be 4 (keylolo k).
Proof.
  intros (H1 & H2 & H3 & H4). rewrite (be4_bytes (keyhilo k)), (be4_bytes (keylohi k)),
    (be4_bytes (keylolo k)) by assumption.
  unfold to_string_for_rocksdb. cbn [app].
  unfold be; cbn [le_bytes rev app].
  unfold u16, u8. rewrite !land_ff, !land_ffff, !shiftr_div by lia.
  unfold is_u32 in H4. set (x := keyhihi k) in *.
  clearbody x; clear - H4.
  repeat match goal with |- _ :: _ = _ :: _ => f_equal end; zlia.
Qed.

Lemma to_string_ok k : key_wf k -> bytes_ok (to_string_for_rocksdb k).
Proof. intros H. rewrite to_string_be by exact H. rewrite !Forall_app. auto using be_ok. Qed.

Lemma length_to_string k : length (to_string_for_rocksdb k) = 16%nat.
Proof. reflexivity. Qed.

Lemma to_string_num k : key_wf k -> be_val (to_string_for_rocksdb k) = key_num k.
Proof.
  intros H. rewrite to_string_be by exact H. destruct H as (H1 & H2 & H3 & H4).
  rewrite !be_val_app, !length_app, !length_be, !be_val_be.
  rewrite !Z.mod_small by (unfold is_u32 in *; assumption).
  unfold key_num. cbn [Nat.add]. lia.
Qed.

Lemma to_string_less (l r : Key) :
  key_wf l -> key_wf r ->
  bytes_less (to_string_for_rocksdb l) (to_string_for_rocksdb r) = key_lt l r.
Proof.
  intros Hl Hr. rewrite bytes_less_be_val by auto using to_string_ok.
  now rewrite !to_string_num, key_lt_num.
Qed.

Lemma u32_of_bytes_be_val a b c d :
  is_byte a -> is_byte b -> is_byte c -> is_byte d ->
  u32_of_bytes a b c d = be_val [a; b; c; d].
Proof.
  unfold is_byte, u32_of_bytes, be_val; cbn [rev app le_val]. intros.
  rewrite u32_id by (unfold is_u32; rewrite Z.shiftl_mul_pow2 by lia; lia).
  rewrite (Z.shiftl_mul_pow2 b 16), (Z.shiftl_mul_pow2 c 8) by lia.
  rewrite lor_shiftl by lia.
  replace (a * 2 ^ 24 + b * 2 ^ 16) with ((a * 256 + b) * 2 ^ 16) by lia.
  rewrite <- (Z.shiftl_mul_pow2 _ 16) by lia. rewrite lor_shiftl by lia.
  replace ((a * 256 + b) * 2 ^ 16 + c * 2 ^ 8) with ((a * 65536 + b * 256 + c) * 2 ^ 8) by lia.
  rewrite <- (Z.shiftl_mul_pow2 _ 8) by lia. rewrite lor_shiftl by lia. lia.
Qed.

Lemma hihi_of_bytes a b c d :
  is_byte a -> is_byte b -> is_byte c -> is_byte d ->
  Z.lor (u32 (Z.shiftl (Z.lor (Z.shiftl a 8) b) 16)) (Z.lor (Z.shiftl c 8) d) = be_val [a; b; c; d].
Proof.
  unfold is_byte, be_val; cbn [rev app le_val]. intros.
  rewrite !(lor_shiftl _ _ 8) by lia.
  rewrite u32_id by (unfold is_u32; rewrite Z.shiftl_mul_pow2 by lia; lia).
  rewrite lor_shiftl by lia. lia.
Qed.

Lemma from_to_string (k : Key) :
  key_wf k -> from_string_for_rocksdb (to_string_for_rocksdb k) = Ok k.
Proof.
  intros H. pose proof (to_string_ok k H) as Hb. rewrite to_string_be in * by exact H.
  destruct H as (H1 & H2 & H3 & H4).
  destruct (be 4 (keyhihi k)) as [|a0 [|a1 [|a2 [|a3 [|]]]]] eqn:E0;
    try (apply (f_equal length) in E0; rewrite length_be in E0; discriminate).
  destruct (be 4 (keyhilo k)) as [|b0 [|b1 [|b2 [|b3 [|]]]]] eqn:E1;
    try (apply (f_equal length) in E1; rewrite length_be in E1; discriminate).
  destruct (be 4 (keylohi k)) as [|c0 [|c1 [|c2 [|c3 [|]]]]] eqn:E2;
    try (apply (f_equal length) in E2; rewrite length_be in E2; discriminate).
  destruct (be 4 (keylolo k)) as [|d0 [|d1 [|d2 [|d3 [|]]]]] eqn:E3;
    try (apply (f_equal length) in E3; rewrite length_be in E3; discriminate).
  cbn [app] in *. rewrite !Forall_cons_iff in Hb. destruct_and! Hb.
  cbn -[Z.lor Z.shiftl u32 u32_of_bytes].
  rewrite !u32_of_bytes_be_val, hihi_of_bytes by assumption.
  rewrite <- E0, <- E1, <- E2, <- E3, !be_val_be, !Z.mod_small by (unfold is_u32 in *; assumption).
  now destruct k.
Qed.

(** The RocksDB encoding of keys is faithful: the stored string is read back
    as the key, and RocksDB's byte order on the strings is [Key::operator<], so
    an iterator visits keys in the order of the program's own comparisons. *)
Theorem rocksdb_key_encoding (l r : Key) :
  key_wf l -> key_wf r ->
  from_string_for_rocksdb (to_string_for_rocksdb l) = Ok l /\
  bytes_less (to_string_for_rocksdb l) (to_string_for_rocksdb r) = key_lt l r /\
  (to_string_for_rocksdb l = to_string_for_rocksdb r <-> key_eq l r = true).
Proof.
  intros Hl Hr. split; [now apply from_to_string|]. split; [now apply to_string_less|].
  rewrite key_eq_spec. split; [|congruence]. intros E.
  pose proof (from_to_string l Hl) as H1. rewrite E, from_to_string in H1 by assumption. congruence.
Qed.

Lemma rocksdb_key_encoding_witness :
  from_string_for_rocksdb (to_string_for_rocksdb (mkKey 1 2 3 (2 ^ 31))) =
    Ok (mkKey 1 2 3 (2 ^ 31)) /\
  bytes_less (to_string_for_rocksdb (mkKey 1 2 3 (2 ^ 31)))
             (to_string_for_rocksdb (mkKey 9 0 0 (2 ^ 31 + 1))) = true.
Proof.
  destruct (rocksdb_key_encoding (mkKey 1 2 3 (2 ^ 31)) (mkKey 9 0 0 (2 ^ 31 + 1)))
    as (H1 & H2 & _); [unfold key_wf, is_u32; cbn; lia..|].
  split; [exact H1|]. rewrite H2. reflexivity.
Defined.

(** ** Wire format *)

(** The 16 bytes of a key on the wire: big-endian words, the two halves of the
    highest word swapped so that its top 16 bits come last. *)
Definition key_wire (k : Key) : list Z :=
  be 4 (keylolo k) ++ be 4 (keylohi k) ++ be 4 (keyhilo k) ++
  be 2 (keyhihi k mod 65536) ++ be 2 (keyhihi k / 65536).

Lemma length_key_wire k : length (key_wire k) = 16%nat.
Proof. reflexivity. Qed.

Lemma hihi_halves x :
  is_u32 x ->
  u16 (Z.land x 0xFFFF) = x mod 65536 /\ u16 (Z.land (Z.shiftr x 16) 0xFFFF) = x / 65536 /\
  Z.lor (u32 (Z.shiftl (x / 65536) 16)) (x mod 65536) = x.
Proof.
  unfold is_u32. intros H. rewrite !land_ffff, shiftr_div by lia.
  assert (H1 : 0 <= x mod 65536 < 65536) by (apply Z.mod_pos_bound; lia).
  assert (H2 : 0 <= x / 65536 < 65536) by zlia.
  unfold u16, u32. change (2 ^ 16) with 65536.
  rewrite !(Z.mod_small (x / 65536)), !(Z.mod_small (x mod 65536)) by lia.
  repeat split; auto.
  rewrite (Z.mod_small (Z.shiftl _ _)) by (rewrite Z.shiftl_mul_pow2 by lia; lia).
  rewrite lor_shiftl by lia. zlia.
Qed.

Lemma Key_serialize_writes k wlen pos :
  key_wf k -> 16 <= wlen ->
  writes (Key_serialize k wlen) pos 16 16 (fun _ => key_wire k).
Proof.
  intros (H1 & H2 & H3 & H4) Hw. unfold Key_serialize; cbv zeta.
  destruct (hihi_halves (keyhihi k) H4) as (E1 & E2 & E3). rewrite E1, E2.
  rewrite (proj2 (Z.leb_le _ _) Hw).
  rewrite !le_bytes_htonl, !le_bytes_htons.
  fold (be 4 (keylolo k)) (be 4 (keylohi k)) (be 4 (keyhilo k))
       (be 2 (keyhihi k mod 65536)) (be 2 (keyhihi k / 65536)).
  assert (Ew : key_wire k = be 4 (keylolo k) ++ be 4 (keylohi k) ++ be 4 (keyhilo k) ++
    be 2 (keyhihi k mod 65536) ++ be 2 (keyhihi k / 65536) ++ [])
    by (unfold key_wire; now rewrite app_nil_r).
  rewrite Ew. apply writes_true_bind.
  change 16%nat with (4 + (4 + (4 + (2 + (2 + 0)))))%nat.
  do 5 (apply writes_put_bind; [apply length_be|]). apply writes_ret.
Qed.

Lemma Key_deserialize_reads k rlen pos :
  key_wf k -> 16 <= rlen -> reads (Key_deserialize rlen) pos (key_wire k) k.
Proof.
  intros (H1 & H2 & H3 & H4) Hr. unfold Key_deserialize.
  destruct (hihi_halves (keyhihi k) H4) as (_ & _ & E3).
  rewrite (proj2 (Z.leb_le _ _) Hr). unfold key_wire.
  change (reads (b0 ← r_get 4; b1 ← r_get 4; b2 ← r_get 4; b3 ← r_get 2; b4 ← r_get 2;
    mret (mkKey (ntohl (le_val b0)) (ntohl (le_val b1)) (ntohl (le_val b2))
      (Z.lor (u32 (Z.shiftl (ntohs (le_val b4)) 16)) (ntohs (le_val b3))))) pos
    (be 4 (keylolo k) ++ be 4 (keylohi k) ++ be 4 (keyhilo k) ++
     be 2 (keyhihi k mod 65536) ++ be 2 (keyhihi k / 65536)) k).
  do 4 (eapply reads_bind; [now apply reads_get; rewrite length_be|]).
  rewrite <- (app_nil_r (be 2 (keyhihi k / 65536))).
  eapply reads_bind; [now apply reads_get; rewrite length_be|].
  apply reads_ret_eq.
  rewrite !ntohl_be, !ntohs_be, !u32_id by assumption.
  unfold is_u32 in H4. rewrite !u16_id by (unfold is_u16; zlia).
  rewrite E3. now destruct k.
Qed.

Lemma codec_Key k wlen rlen pos :
  key_wf k -> 16 <= wlen -> 16 <= rlen ->
  codec (Key_serialize k wlen) (Key_deserialize rlen) pos 16 16 k.
Proof. eauto using writes_reads_codec, Key_serialize_writes, Key_deserialize_reads. Qed.
#[export] Hint Resolve codec_Key : codec.

(** The dynamic-array version appends the same bytes. *)
Lemma Key_dynamic_serialize_appends k :
  key_wf k -> appends (Key_dynamic_serialize k) (key_wire k).
Proof.
  intros (H1 & H2 & H3 & H4) d Hd Hm. rewrite length_key_wire in *.
  unfold Key_dynamic_serialize.
  assert (Hs : 0 <= _cursize d) by apply Hd.
  rewrite INVARIANT_true by lia. cbn [mbind res_bind].
  destruct (hihi_halves (keyhihi k) H4) as (E1 & E2 & _). rewrite E1, E2.
  rewrite !le_bytes_htonl, !le_bytes_htons.
  fold (be 4 (keylolo k)) (be 4 (keylohi k)) (be 4 (keyhilo k))
       (be 2 (keyhihi k mod 65536)) (be 2 (keyhihi k / 65536)).
  do 5 da_append.
  eexists; split; [reflexivity|]. split; [assumption|]. split; [congruence|].
  rewrite C3, C2, C1, C0, C, <- !app_assoc. reflexivity.
Qed.

(** ** Partition functions *)

Lemma Key_serialize_run k :
  key_wf k -> exists buf, run_writer (Key_serialize k 16) (replicate 16 0) = Ok (16, buf) /\
    length buf = 16%nat.
Proof.
  intros Hk. destruct (codec_run (Key_serialize k 16) (Key_deserialize 16) 16 k (replicate 16 0))
    as (buf & E & L & _ & _); [apply codec_Key; auto; lia|rewrite length_replicate; lia|].
  exists buf. now rewrite length_replicate in L.
Qed.

Lemma hash_bycrc32_total k : key_wf k -> exists h, hash_bycrc32 k = Ok h /\ is_u32 h.
Proof.
  intros Hk. destruct (Key_serialize_run k Hk) as (buf & E & L).
  unfold hash_bycrc32. rewrite E. cbn [mbind res_bind].
  destruct (crc32_total buf 16) as (h & Eh & Rh & _); [lia|lia|]. eauto.
Qed.

(** C32: hash partitioning never aborts and its result is in range for every
    server count whose last share is at most one share too long. *)
Theorem get_hashpartition_idx_total (k : Key) (partitionnum servernum : Z) :
  key_wf k -> 0 < servernum <= partitionnum -> partitionnum < 2 ^ 32 ->
  (partitionnum - 1) / (partitionnum / servernum) <= servernum ->
  exists idx, get_hashpartition_idx k partitionnum servernum = Ok idx /\ 0 <= idx < servernum.
Proof.
  intros Hk Hs Hp Hshare. destruct (hash_bycrc32_total k Hk) as (h & E & Rh).
  unfold get_hashpartition_idx. rewrite E. cbn [mbind res_bind].
  unfold umod, udiv. rewrite (proj2 (Z.eqb_neq partitionnum 0)) by lia.
  cbn [mbind res_bind]. rewrite (proj2 (Z.eqb_neq servernum 0)) by lia. cbn [mbind res_bind].
  assert (Hq : 0 < partitionnum / servernum) by (apply Z.div_str_pos; lia).
  rewrite (proj2 (Z.eqb_neq (partitionnum / servernum) 0)) by lia. cbn [mbind res_bind].
  set (q := partitionnum / servernum) in *.
  assert (Hm : 0 <= h mod partitionnum <= partitionnum - 1)
    by (pose proof (Z.mod_pos_bound h partitionnum); lia).
  assert (Ht : 0 <= h mod partitionnum / q <= servernum).
  { split; [apply Z.div_pos; lia|]. etransitivity; [|exact Hshare].
    apply Z.div_le_mono; lia. }
  set (t := h mod partitionnum / q) in *.
  assert (Hi : 0 <= (if t =? servernum then u32 (t - 1) else t) < servernum).
  { destruct (Z.eqb_spec t servernum); [|lia]. rewrite u32_id by (unfold is_u32; lia). lia. }
  rewrite INVARIANT_true by lia. cbn [mbind res_bind]. eauto.
Qed.

(** Range partitioning aborts for the keys of the last, incomplete share
    when the server count does not divide 2^16, and is total when it does. *)
Theorem get_rangepartition_idx_spec (k : Key) (servernum : Z) :
  key_wf k -> 0 < servernum <= 65536 ->
  get_rangepartition_idx k servernum =
  let idx := keyhihi k / 65536 / (65536 / servernum) in
  if idx <? servernum then Ok idx else Err InvariantFailed.
Proof.
  intros (_ & _ & _ & H4) Hs. unfold get_rangepartition_idx.
  rewrite land_ffff, shiftr_div by lia. unfold is_u32 in H4.
  change (2 ^ 16) with 65536. change (64 * 1024) with 65536.
  assert (H2 : 0 <= keyhihi k / 65536 < 65536) by zlia.
  rewrite (Z.mod_small (keyhihi k / 65536)) by lia.
  unfold udiv. rewrite (proj2 (Z.eqb_neq servernum 0)) by lia. cbn [mbind res_bind].
  assert (Hq : 0 < 65536 / servernum) by (apply Z.div_str_pos; lia).
  rewrite (proj2 (Z.eqb_neq (65536 / servernum) 0)) by lia. cbn [mbind res_bind].
  assert (Ht : 0 <= keyhihi k / 65536 / (65536 / servernum)) by (apply Z.div_pos; lia).
  unfold INVARIANT. rewrite (proj2 (Z.leb_le _ _) Ht). cbn [andb].
  now destruct (_ <? _).
Qed.

(** The 16-bit partition space used by the switches, sixteen servers. *)
Lemma get_hashpartition_idx_total_witness :
  exists idx, get_hashpartition_idx (mkKey 5 6 7 8) 32768 16 = Ok idx /\ 0 <= idx < 16.
Proof.
  apply get_hashpartition_idx_total; [unfold key_wf, is_u32; cbn; lia|lia|lia|].
  vm_compute. discriminate.
Defined.

Lemma get_rangepartition_idx_spec_witness :
  get_rangepartition_idx Key_max 3 = Err InvariantFailed /\
  get_rangepartition_idx Key_max 4 = Ok 3.
Proof.
  split.
  - rewrite (get_rangepartition_idx_spec Key_max 3); [reflexivity|unfold key_wf, is_u32; cbn; lia|lia].
  - rewrite (get_rangepartition_idx_spec Key_max 4); [reflexivity|unfold key_wf, is_u32; cbn; lia|lia].
Defined.
