(* ===== verification/Val.v ===== *)
(** * Values (common/val.h, common/val.c) and snapshot records

    A value is a length and a heap array; [val_data] is [None] when the
    pointer is null, [Some bytes] when it points to an array. *)

From Stdlib Require Import ZArith Lia List.
From stdpp Require Import base tactics list numbers option.
From S2P Require Import Prelude Cursor DynamicArray.

Open Scope Z_scope.

Record Val := mkVal {
  val_length : Z;
  val_data : option (list Z)
}.

#[global] Instance Val_eq_dec : EqDecision Val.
Proof. solve_decision. Defined.

Definition SWITCH_MAX_VALLEN : Z := 128.

(** [Val::Val()]. *)
Definition Val_default : Val := mkVal 0 None.

(** [Val::get_padding_size]. *)
Definition get_padding_size (vallen : Z) : Z :=
  if vallen <=? SWITCH_MAX_VALLEN then
    if negb (vallen mod 8 =? 0) then 8 - vallen mod 8 else 0
  else 0.

(** [Val::Val(const char*, uint32_t)]: the array is allocated even for length 0. *)
Definition Val_of_buf (buf : list Z) (len : Z) : res Val :=
  if Z.of_nat (length buf) <? len then Err OutOfBounds
  else Ok (mkVal len (Some (take (Z.to_nat len) buf))).

(** The copy constructors and the assignment operators: a deep copy, and an
    empty source gives the null value. *)
Definition Val_copy (other : Val) : Val :=
  match val_data other with
  | Some bs => if negb (val_length other =? 0)
               then mkVal (val_length other) (Some (take (Z.to_nat (val_length other)) bs))
               else Val_default
  | None => Val_default
  end.

(** [Val::operator==]. *)
Definition Val_eqb (a b : Val) : bool :=
  match val_data a, val_data b with
  | None, None => (val_length a =? 0) && (val_length b =? 0)
  | Some x, Some y =>
      (val_length a =? val_length b) &&
      bool_decide (take (Z.to_nat (val_length a)) x = take (Z.to_nat (val_length a)) y)
  | _, _ => false
  end.

(** The bytes [val_data[0 .. val_length)]; reading through null is undefined. *)
Definition val_bytes (v : Val) : res (list Z) :=
  if val_length v =? 0 then Ok []
  else match val_data v with
       | None => Err InvariantFailed
       | Some bs => if Z.of_nat (length bs) <? val_length v then Err OutOfBounds
                    else Ok (take (Z.to_nat (val_length v)) bs)
       end.

(** [Val::to_string_for_rocksdb]: the bytes, then the sequence number. *)
Definition Val_to_string (v : Val) (seq : Z) : res (list Z) :=
  bs ← val_bytes v;
  Ok (bs ++ le_bytes 4 seq).

(** [Val::from_string_for_rocksdb]: the new value and the sequence number.
    [valstr.size() - 4] wraps when the string is too short. *)
Definition Val_from_string (valstr : list Z) : res (Val * Z) :=
  let len := u32 (Z.of_nat (length valstr) - 4) in
  if Z.of_nat (length valstr) <? len + 4 then Err OutOfBounds
  else
    let v := if 0 <? len then mkVal len (Some (take (Z.to_nat len) valstr)) else mkVal 0 None in
    Ok (v, le_val (take 4 (drop (Z.to_nat len) valstr))).

(** [Val::to_string_for_rocksdb_noseq]. *)
Definition Val_to_string_noseq (v : Val) : res (list Z) := val_bytes v.

(** [Val::from_string_for_rocksdb_noseq]. *)
Definition Val_from_string_noseq (valstr : list Z) : Val :=
  let len := Z.of_nat (length valstr) in
  if 0 <? len then mkVal len (Some valstr) else mkVal 0 None.

(** The consistency test at the head of the serializers. *)
Definition val_consistent (v : Val) : bool :=
  match val_data v with
  | Some _ => negb (val_length v =? 0)
  | None => val_length v =? 0
  end.

(** [Val::serialize]: a 16-bit length in front of the bytes and the padding. *)
Definition Val_serialize (v : Val) (buflen : Z) : writer Z :=
  _ ← w_check (val_consistent v);
  let padding_size := get_padding_size (val_length v) in
  let serialize_size := u32 (2 + val_length v + padding_size) in
  _ ← w_check ((0 <=? serialize_size) && (serialize_size <=? buflen));
  _ ← w_put (le_bytes 2 (htons (u16 (val_length v))));
  _ ← (if 0 <? val_length v then
         _ ← w_put (take (Z.to_nat (val_length v)) (default [] (val_data v)));
         if 0 <? padding_size then w_memset 0 padding_size else mret tt
       else mret tt);
  mret serialize_size.

(** [Val::deserialize_val] after the length has been read. *)
Definition Val_deserialize_val (vallen buflen : Z) : reader (Val * Z) :=
  if 0 <? vallen then
    let padding_size := get_padding_size vallen in
    let deserialize_size := u32 (vallen + padding_size) in
    _ ← r_check ((0 <=? deserialize_size) && (deserialize_size <=? buflen));
    bs ← r_get vallen;
    mret (mkVal vallen (Some bs), deserialize_size)
  else mret (mkVal vallen None, 0).

(** [Val::deserialize]; the caller moves past the padding. *)
Definition Val_deserialize (buflen : Z) : reader Val :=
  _ ← r_check (2 <=? buflen);
  vallen ← r_u16be;
  '(v, n) ← Val_deserialize_val vallen (u32 (buflen - 2));
  _ ← r_skip (n - vallen);
  mret v.

(** [Val::serialize_large] and [Val::deserialize_large]: a 32-bit length. *)
Definition Val_serialize_large (v : Val) (buflen : Z) : writer Z :=
  _ ← w_check (val_consistent v);
  let padding_size := get_padding_size (val_length v) in
  let serialize_size := u32 (4 + val_length v + padding_size) in
  _ ← w_check ((0 <=? serialize_size) && (serialize_size <=? buflen));
  _ ← w_put (le_bytes 4 (htonl (val_length v)));
  _ ← (if 0 <? val_length v then
         _ ← w_put (take (Z.to_nat (val_length v)) (default [] (val_data v)));
         if 0 <? padding_size then w_memset 0 padding_size else mret tt
       else mret tt);
  mret serialize_size.

Definition Val_deserialize_large (buflen : Z) : reader Val :=
  _ ← r_check (4 <=? buflen);
  vallen ← r_u32be;
  '(v, n) ← Val_deserialize_val vallen (u32 (buflen - 4));
  _ ← r_skip (n - vallen);
  mret v.

(** [Val::dynamic_serialize] and [Val::dynamic_serialize_large]. *)
Definition Val_dynamic_serialize_with (hdr : list Z) (v : Val) (buf : DynamicArray) (offset : Z)
    : res (Z * DynamicArray) :=
  _ ← INVARIANT (val_consistent v);
  let hdrlen := Z.of_nat (length hdr) in
  let padding_size := get_padding_size (val_length v) in
  let serialize_size := u32 (hdrlen + val_length v + padding_size) in
  buf ← dynamic_memcpy buf offset hdr;
  buf ← (if 0 <? val_length v then
           buf ← dynamic_memcpy buf (offset + hdrlen)
                   (take (Z.to_nat (val_length v)) (default [] (val_data v)));
           if 0 <? padding_size
           then dynamic_memset buf (offset + hdrlen + val_length v) 0 padding_size
           else Ok buf
         else Ok buf);
  Ok (serialize_size, buf).

Definition Val_dynamic_serialize (v : Val) (buf : DynamicArray) (offset : Z)
    : res (Z * DynamicArray) :=
  Val_dynamic_serialize_with (le_bytes 2 (htons (u16 (val_length v)))) v buf offset.

Definition Val_dynamic_serialize_large (v : Val) (buf : DynamicArray) (offset : Z)
    : res (Z * DynamicArray) :=
  Val_dynamic_serialize_with (le_bytes 4 (htonl (val_length v))) v buf offset.

(** ** Snapshot records (common/snapshot_record.h) *)

Record SnapshotRecord := mkSnapshotRecord {
  sr_val : Val;
  sr_seq : Z;
  sr_stat : bool
}.

Definition SnapshotRecord_default : SnapshotRecord := mkSnapshotRecord Val_default 0 false.

(** ** Well-formed values *)

Definition val_wf (v : Val) : Prop :=
  (v = Val_default) \/
  (exists bs, v = mkVal (Z.of_nat (length bs)) (Some bs) /\ bs <> [] /\ bytes_ok bs /\
              Z.of_nat (length bs) < 2 ^ 32 - 16).

Definition record_wf (r : SnapshotRecord) : Prop := val_wf (sr_val r) /\ is_u32 (sr_seq r).

Lemma val_wf_length v : val_wf v -> 0 <= val_length v < 2 ^ 32 - 16.
Proof. intros [->|(bs & -> & Hn & _ & Hl)]; cbn; lia. Qed.

Lemma val_wf_consistent v : val_wf v -> val_consistent v = true.
Proof.
  intros [->|(bs & -> & Hn & _)]; [reflexivity|].
  unfold val_consistent; cbn [val_data val_length]. apply negb_true_iff, Z.eqb_neq.
  destruct bs; [congruence|]. cbn [length]. lia.
Qed.

Lemma val_data_length v : val_wf v -> Z.of_nat (length (default [] (val_data v))) = val_length v.
Proof. intros [->|(bs & -> & _)]; reflexivity. Qed.

Lemma val_bytes_wf v : val_wf v -> val_bytes v = Ok (default [] (val_data v)).
Proof.
  intros [->|(bs & -> & Hn & _)]; [reflexivity|]. unfold val_bytes; cbn [val_data val_length].
  destruct (Z.eqb_spec (Z.of_nat (length bs)) 0) as [E|_]; [destruct bs; [congruence|cbn in E; lia]|].
  rewrite Z.ltb_irrefl, take_ge by lia. reflexivity.
Qed.

Lemma Val_copy_wf v : val_wf v -> Val_copy v = v.
Proof.
  intros [->|(bs & -> & Hn & _)]; [reflexivity|]. unfold Val_copy; cbn.
  destruct (Z.eqb_spec (Z.of_nat (length bs)) 0) as [E|]; [destruct bs; [congruence|cbn in E; lia]|].
  cbn. now rewrite take_ge by lia.
Qed.

Lemma get_padding_size_range n : 0 <= n -> 0 <= get_padding_size n < 8.
Proof.
  intros H. unfold get_padding_size. pose proof (Z.mod_pos_bound n 8 eq_refl).
  destruct (n <=? SWITCH_MAX_VALLEN), (Z.eqb_spec (n mod 8) 0); cbn [negb]; lia.
Qed.

(** Padding makes every value the switch can hold a multiple of 8 bytes long. *)
Lemma get_padding_size_aligned n :
  0 <= n <= SWITCH_MAX_VALLEN -> (n + get_padding_size n) mod 8 = 0.
Proof.
  intros H. unfold get_padding_size. rewrite (proj2 (Z.leb_le _ _)) by lia.
  destruct (Z.eqb_spec (n mod 8) 0) as [E|E]; cbn [negb]; [now rewrite Z.add_0_r|].
  clear H. zlia.
Qed.

(** The payload of a value: its bytes and the zero padding. *)
Definition val_body (v : Val) : list Z :=
  default [] (val_data v) ++ replicate (Z.to_nat (get_padding_size (val_length v))) 0.

Lemma length_val_body v :
  val_wf v -> Z.of_nat (length (val_body v)) = val_length v + get_padding_size (val_length v).
Proof.
  intros Hv. pose proof (get_padding_size_range (val_length v) (proj1 (val_wf_length v Hv))) as Hp.
  unfold val_body. rewrite length_app, length_replicate.
  enough (Z.of_nat (length (default [] (val_data v))) = val_length v) by lia.
  destruct Hv as [->|(bs & -> & _)]; reflexivity.
Qed.

Section ValCodec.
Context (v : Val) (Hv : val_wf v).

(** What both serializers write after the length. *)
Definition val_put_body : writer unit :=
  if 0 <? val_length v then
    _ ← w_put (take (Z.to_nat (val_length v)) (default [] (val_data v)));
    if 0 <? get_padding_size (val_length v)
    then w_memset 0 (get_padding_size (val_length v)) else mret tt
  else mret tt.

Lemma val_body_Some bs :
  v = mkVal (Z.of_nat (length bs)) (Some bs) ->
  val_body v = bs ++ replicate (Z.to_nat (get_padding_size (val_length v))) 0.
Proof using. intros E. unfold val_body. rewrite E. reflexivity. Qed.

Lemma val_put_body_writes pos :
  writes val_put_body pos (length (val_body v)) tt (fun _ => val_body v).
Proof using Hv.
  pose proof (val_wf_length v Hv) as Hl.
  pose proof (get_padding_size_range (val_length v) (proj1 Hl)) as Hp.
  unfold val_put_body. destruct Hv as [E|(bs & E & Hn & _)].
  - rewrite E. apply (writes_ret pos tt).
  - rewrite (val_body_Some bs E), length_app.
    assert (Hpos : 0 < val_length v) by (rewrite E; destruct bs; [congruence|cbn; lia]).
    rewrite (proj2 (Z.ltb_lt _ _) Hpos).
    replace (take (Z.to_nat (val_length v)) (default [] (val_data v))) with bs
      by (rewrite E; cbn; symmetry; apply take_ge; lia).
    apply (writes_bind (w_put bs) _ pos _ _ tt tt (fun _ => bs)
             (fun _ => replicate (Z.to_nat (get_padding_size (val_length v))) 0));
      [apply writes_put|].
    destruct (Z.ltb_spec 0 (get_padding_size (val_length v))); [apply writes_put|].
    replace (get_padding_size (val_length v)) with 0 by lia. apply writes_ret.
Qed.

Lemma val_body_reads rlen pos :
  val_length v + get_padding_size (val_length v) <= rlen ->
  reads ('(v', n) ← Val_deserialize_val (val_length v) rlen;
         _ ← r_skip (n - val_length v); mret v') pos (val_body v) v.
Proof using Hv.
  intros Hr. pose proof (val_wf_length v Hv) as Hl.
  pose proof (get_padding_size_range (val_length v) (proj1 Hl)) as Hp.
  unfold Val_deserialize_val. destruct Hv as [E|(bs & E & Hn & _)].
  - rewrite E. intros rest'. cbn. do 3 f_equal; lia.
  - assert (Hpos : 0 < val_length v) by (rewrite E; destruct bs; [congruence|cbn; lia]).
    rewrite (proj2 (Z.ltb_lt _ _) Hpos), u32_id by (unfold is_u32; lia).
    rewrite (val_body_Some bs E).
    assert (Lb : length bs = Z.to_nat (val_length v)) by (rewrite E; cbn; lia).
    intros rest'. unfold mbind, reader_bind, r_check.
    rewrite (proj2 (Z.leb_le 0 _)), (proj2 (Z.leb_le _ rlen)) by lia. cbn [andb].
    unfold r_get; cbn [r_rest r_pos]. rewrite <- app_assoc.
    rewrite length_app, (proj2 (Nat.leb_le _ _)) by lia.
    rewrite <- Lb, take_app_length, drop_app_length.
    unfold r_skip; cbn [r_rest r_pos mret reader_ret].
    rewrite (drop_app_length' (replicate _ _)) by (rewrite length_replicate; lia).
    rewrite length_app, length_replicate. unfold mret, reader_ret.
    match goal with
    | |- Ok (?a, RBuf ?x _) = Ok (?b, RBuf ?y _) =>
        replace x with y by lia; replace a with b; [reflexivity|]
    end.
    clear - E. now rewrite E.
Qed.

Lemma codec_val_body rlen pos :
  val_length v + get_padding_size (val_length v) <= rlen ->
  codec val_put_body
    ('(v', n) ← Val_deserialize_val (val_length v) rlen;
     _ ← r_skip (n - val_length v); mret v')
    pos (length (val_body v)) tt v.
Proof using Hv. eauto using writes_reads_codec, val_put_body_writes, val_body_reads. Qed.
End ValCodec.

(** Size of a value on the wire with a 16-bit length. *)
Definition val_wire_size (v : Val) : nat := 2 + length (val_body v).

Lemma val_wire_size_eq v :
  val_wf v -> Z.of_nat (val_wire_size v) = 2 + val_length v + get_padding_size (val_length v).
Proof. intros Hv. pose proof (length_val_body v Hv). unfold val_wire_size. lia. Qed.

Lemma codec_Val v wlen rlen pos :
  val_wf v -> val_length v < 2 ^ 16 ->
  Z.of_nat (val_wire_size v) <= wlen -> Z.of_nat (val_wire_size v) <= rlen < 2 ^ 32 ->
  codec (Val_serialize v wlen) (Val_deserialize rlen) pos
        (val_wire_size v) (Z.of_nat (val_wire_size v)) v.
Proof.
  intros Hv Hl Hw Hr. pose proof (val_wf_length v Hv) as Hl'.
  pose proof (val_wire_size_eq v Hv) as HS.
  pose proof (get_padding_size_range (val_length v) (proj1 Hl')) as Hp.
  unfold Val_serialize, Val_deserialize.
  apply codec_wcheck; [now apply val_wf_consistent|].
  rewrite (u32_id (2 + _ + _)) by (unfold is_u32; lia).
  apply codec_wcheck; [lia|]. apply codec_rcheck; [lia|].
  rewrite (u16_id (val_length v)) by (unfold is_u16; lia).
  rewrite (u32_id (rlen - 2)) by (unfold is_u32; lia).
  eapply codec_bind; [apply (codec_u16be (val_length v)); unfold is_u16; lia|].
  eapply codec_wret; [apply (codec_val_body v Hv); lia|]. now rewrite HS.
Qed.

Definition val_wire_size_large (v : Val) : nat := 4 + length (val_body v).

Lemma val_wire_size_large_eq v :
  val_wf v -> Z.of_nat (val_wire_size_large v) = 4 + val_length v + get_padding_size (val_length v).
Proof. intros Hv. pose proof (length_val_body v Hv). unfold val_wire_size_large. lia. Qed.

Lemma codec_Val_large v wlen rlen pos :
  val_wf v ->
  Z.of_nat (val_wire_size_large v) <= wlen -> Z.of_nat (val_wire_size_large v) <= rlen < 2 ^ 32 ->
  codec (Val_serialize_large v wlen) (Val_deserialize_large rlen) pos
        (val_wire_size_large v) (Z.of_nat (val_wire_size_large v)) v.
Proof.
  intros Hv Hw Hr. pose proof (val_wf_length v Hv) as Hl'.
  pose proof (val_wire_size_large_eq v Hv) as HS.
  pose proof (get_padding_size_range (val_length v) (proj1 Hl')) as Hp.
  unfold Val_serialize_large, Val_deserialize_large.
  apply codec_wcheck; [now apply val_wf_consistent|].
  rewrite (u32_id (4 + _ + _)) by (unfold is_u32; lia).
  apply codec_wcheck; [lia|]. apply codec_rcheck; [lia|].
  rewrite (u32_id (rlen - 4)) by (unfold is_u32; lia).
  eapply codec_bind; [apply (codec_u32be (val_length v)); unfold is_u32; lia|].
  eapply codec_wret; [apply (codec_val_body v Hv); lia|]. now rewrite HS.
Qed.

(** The bytes of a value with a 32-bit length, and the reader on them. *)
Definition val_wire_large (v : Val) : list Z := be 4 (val_length v) ++ val_body v.

Lemma length_val_wire_large v : length (val_wire_large v) = val_wire_size_large v.
Proof. unfold val_wire_large, val_wire_size_large. now rewrite length_app, length_be. Qed.

Lemma Val_deserialize_large_reads v rlen pos :
  val_wf v -> Z.of_nat (val_wire_size_large v) <= rlen < 2 ^ 32 ->
  reads (Val_deserialize_large rlen) pos (val_wire_large v) v.
Proof.
  intros Hv Hr. pose proof (val_wf_length v Hv) as Hl. pose proof (val_wire_size_large_eq v Hv) as HS.
  unfold Val_deserialize_large, val_wire_large.
  pose proof (get_padding_size_range (val_length v) (proj1 Hl)) as Hp.
  apply reads_check_bind; [lia|].
  eapply reads_bind; [apply reads_u32be; unfold is_u32; lia|].
  rewrite (u32_id (rlen - 4)) by (unfold is_u32; lia). apply val_body_reads; [exact Hv|lia].
Qed.

(** The bytes of a value with a 16-bit length. *)
Definition val_wire (v : Val) : list Z := be 2 (val_length v) ++ val_body v.

Lemma length_val_wire v : length (val_wire v) = val_wire_size v.
Proof. unfold val_wire, val_wire_size. now rewrite length_app, length_be. Qed.

Lemma Val_deserialize_reads v rlen pos :
  val_wf v -> val_length v < 2 ^ 16 -> Z.of_nat (val_wire_size v) <= rlen < 2 ^ 32 ->
  reads (Val_deserialize rlen) pos (val_wire v) v.
Proof.
  intros Hv H16 Hr. pose proof (val_wf_length v Hv) as Hl. pose proof (val_wire_size_eq v Hv) as HS.
  unfold Val_deserialize, val_wire.
  pose proof (get_padding_size_range (val_length v) (proj1 Hl)) as Hp.
  apply reads_check_bind; [lia|].
  eapply reads_bind; [apply reads_u16be; unfold is_u16; lia|].
  rewrite (u32_id (rlen - 2)) by (unfold is_u32; lia). apply val_body_reads; [exact Hv|lia].
Qed.

(** The dynamic-array serializers append the same bytes. *)
Lemma Val_dynamic_serialize_appends hdr v :
  val_wf v -> Z.of_nat (length hdr) <= 4 ->
  appends (Val_dynamic_serialize_with hdr v) (hdr ++ val_body v).
Proof.
  intros Hv Hh d Hd Hm. pose proof (length_val_body v Hv) as HL.
  pose proof (val_wf_length v Hv) as Hl.
  pose proof (get_padding_size_range (val_length v) (proj1 Hl)) as Hp.
  rewrite length_app in *. unfold Val_dynamic_serialize_with.
  rewrite INVARIANT_true by now apply val_wf_consistent. cbn [mbind res_bind].
  rewrite u32_id by (unfold is_u32; lia).
  da_append. unfold val_body in *. destruct Hv as [E|(bs & E & Hn & _)].
  - rewrite E in *. cbn in *. eexists; split; [f_equal; f_equal; lia|].
    rewrite app_nil_r. auto.
  - assert (Hpos : 0 < val_length v) by (rewrite E; destruct bs; [congruence|cbn; lia]).
    rewrite (proj2 (Z.ltb_lt _ _) Hpos).
    assert (Eb : default [] (val_data v) = bs) by (now rewrite E).
    rewrite Eb in *. rewrite (take_ge bs) by (rewrite E; cbn; lia).
    rewrite length_app, length_replicate in *. da_append.
    destruct (Z.ltb_spec 0 (get_padding_size (val_length v))).
    + unfold dynamic_memset. rewrite (proj2 (Z.ltb_ge _ _)) by lia.
      change (u8 0) with 0. da_append; [rewrite length_replicate; lia|].
      eexists; split; [f_equal; f_equal; lia|]. split; [assumption|]. split; [congruence|].
      now rewrite C1, C0, C, <- !app_assoc.
    + eexists; split; [cbn [mbind res_bind]; f_equal; f_equal; lia|].
      split; [assumption|]. split; [congruence|].
      replace (get_padding_size (val_length v)) with 0 by lia.
      now rewrite C0, C, app_nil_r, <- !app_assoc.
Qed.

Lemma Val_dynamic_serialize_large_appends v :
  val_wf v -> appends (Val_dynamic_serialize_large v) (val_wire_large v).
Proof.
  intros Hv. unfold Val_dynamic_serialize_large. rewrite le_bytes_htonl.
  apply Val_dynamic_serialize_appends; [exact Hv|]. rewrite length_rev, length_le_bytes. lia.
Qed.

Lemma Val_dynamic_serialize_small_appends v :
  val_wf v -> val_length v < 2 ^ 16 -> appends (Val_dynamic_serialize v) (val_wire v).
Proof.
  intros Hv Hl. pose proof (val_wf_length v Hv).
  unfold Val_dynamic_serialize. rewrite u16_id, le_bytes_htons by (unfold is_u16; lia).
  apply Val_dynamic_serialize_appends; [exact Hv|]. rewrite length_rev, length_le_bytes. lia.
Qed.

(** ** The RocksDB string *)

Lemma Val_to_string_wf v seq :
  val_wf v -> Val_to_string v seq = Ok (default [] (val_data v) ++ le_bytes 4 seq).
Proof. intros Hv. unfold Val_to_string. now rewrite val_bytes_wf. Qed.

Lemma Val_from_to_string v seq :
  val_wf v -> is_u32 seq ->
  Val_from_string (default [] (val_data v) ++ le_bytes 4 seq) = Ok (v, seq).
Proof.
  intros Hv Hs. pose proof (val_wf_length v Hv) as Hl. pose proof (val_data_length v Hv) as Hlen.
  unfold Val_from_string. rewrite length_app, length_le_bytes.
  replace (Z.of_nat (length (default [] (val_data v)) + 4) - 4) with (val_length v) by lia.
  rewrite u32_id by (unfold is_u32; lia). rewrite (proj2 (Z.ltb_ge _ _)) by lia.
  rewrite <- Hlen, Nat2Z.id, take_app_length, drop_app_length.
  rewrite take_ge by (rewrite length_le_bytes; lia).
  rewrite le_val_bytes, Z.mod_small by exact Hs.
  do 2 f_equal. destruct Hv as [->|(b & -> & Hn & _)]; cbn in *; subst; [reflexivity|].
  destruct b; [congruence|reflexivity].
Qed.

(** A value stored in RocksDB ([Val::to_string_for_rocksdb]) is read back
    ([Val::from_string_for_rocksdb]) with its bytes and its sequence number. *)
Theorem val_string_roundtrip (v : Val) (seq : Z) :
  val_wf v -> is_u32 seq ->
  exists s, Val_to_string v seq = Ok s /\ Val_from_string s = Ok (v, seq).
Proof. eauto using Val_to_string_wf, Val_from_to_string. Qed.

Lemma val_string_roundtrip_witness :
  exists s, Val_to_string (mkVal 3 (Some [7; 8; 9])) 70000 = Ok s /\
            Val_from_string s = Ok (mkVal 3 (Some [7; 8; 9]), 70000).
Proof.
  apply val_string_roundtrip; [|unfold is_u32; lia].
  right. exists [7; 8; 9]. split; [reflexivity|]. split; [discriminate|].
  split; [repeat constructor; lia|]. cbn. lia.
Defined.
