(* ===== verification/DeletedSet.v ===== *)
(** * Recently deleted keys (common/deleted_set.h, common/deleted_set_impl.h)

    A server remembers the sequence number of every recent deletion, so that a
    late, reordered write of an older version does not resurrect the key.  Two
    [std::map]s hold the same records, one by key and one by sequence number;
    the second finds the oldest record when the capacity is exceeded. *)

From Stdlib Require Import ZArith Lia List.
From stdpp Require Import base tactics list numbers option.
From S2P Require Import Prelude Cursor StdMap DynamicArray Crc32 Key Val.

Open Scope Z_scope.

Definition MAX_BUFSIZE : Z := 40960.
Definition CAPACITY_FACTOR : Z := 10.

Record DeletedSet := mkDeletedSet {
  records_sorted_bykey : list (Key * Z);
  records_sorted_byseq : list (Z * Key);
  max_size : Z
}.

(** [DeletedSet::DeletedSet(c, rtt)]. *)
Definition DeletedSet_new (c rtt : Z) : DeletedSet :=
  mkDeletedSet [] [] (u32 (CAPACITY_FACTOR * c * rtt)).

(** The default arguments of the constructor. *)
Definition DeletedSet_default : DeletedSet := DeletedSet_new 10 100.

(** [DeletedSet::operator=]: the capacity stays. *)
Definition ds_assign (this other : DeletedSet) : DeletedSet :=
  mkDeletedSet (records_sorted_bykey other) (records_sorted_byseq other) (max_size this).

(** [DeletedSet::size]. *)
Definition ds_size (ds : DeletedSet) : Z := m_size (records_sorted_bykey ds).

(** [DeletedSet::add]; dereferencing [begin()] of an empty map is undefined. *)
Definition ds_add (ds : DeletedSet) (key : Key) (seq : Z) : res DeletedSet :=
  match m_find key (records_sorted_bykey ds) with
  | None =>
      let bykey := m_insert key seq (records_sorted_bykey ds) in
      let byseq := m_insert seq key (records_sorted_byseq ds) in
      if max_size ds <? m_size bykey then
        match byseq with
        | [] => Err NullDeref
        | (minseq, minseq_key) :: rest =>
            Ok (mkDeletedSet (m_erase minseq_key bykey) rest (max_size ds))
        end
      else Ok (mkDeletedSet bykey byseq (max_size ds))
  | Some oldseq =>
      if oldseq <? seq then
        Ok (mkDeletedSet (m_assign key seq (records_sorted_bykey ds))
              (m_insert seq key (m_erase oldseq (records_sorted_byseq ds))) (max_size ds))
      else Ok ds
  end.

(** [DeletedSet::check_and_remove]: whether a version [seq] of [key] is older
    than its deletion, the new set and what is written to [deleted_seq_ptr]. *)
Definition ds_check_and_remove (ds : DeletedSet) (key : Key) (seq : Z)
    : bool * option Z * DeletedSet :=
  match m_find key (records_sorted_bykey ds) with
  | None => (false, None, ds)
  | Some oldseq =>
      if oldseq <=? seq then
        (false, Some oldseq,
         mkDeletedSet (m_erase key (records_sorted_bykey ds))
           (m_erase oldseq (records_sorted_byseq ds)) (max_size ds))
      else (true, Some oldseq, ds)
  end.

(** The loop of [DeletedSet::range_scan] from the iterator position. *)
Fixpoint ds_scan_loop (iter : list (Key * Z)) (n : nat) : list (Key * SnapshotRecord) :=
  match n, iter with
  | S n', (k, s) :: iter' => (k, mkSnapshotRecord Val_default s false) :: ds_scan_loop iter' n'
  | _, _ => []
  end.

(** [DeletedSet::range_scan]. *)
Definition ds_range_scan (ds : DeletedSet) (startkey endkey : Key)
    : res (list (Key * SnapshotRecord)) :=
  scanrecordcnt ← get_scanrecordcnt startkey endkey;
  Ok (ds_scan_loop (m_lower_bound startkey (records_sorted_bykey ds)) (Z.to_nat scanrecordcnt)).

(** [DeletedSet::clear]. *)
Definition ds_clear (ds : DeletedSet) : DeletedSet := mkDeletedSet [] [] (max_size ds).

(** One iteration of the loop of [DeletedSet::store]: the bytes written. *)
Definition ds_store_record (r : Key * Z) : res (list Z) :=
  '(n, buf) ← run_writer
    (tmp_keysize ← Key_serialize r.1 MAX_BUFSIZE; _ ← w_u32 r.2; mret (tmp_keysize + 4))
    (replicate (Z.to_nat MAX_BUFSIZE) 0);
  Ok (take (Z.to_nat n) buf).

Fixpoint ds_store_loop (rs : list (Key * Z)) : res (list Z) :=
  match rs with
  | [] => Ok []
  | r :: rs' => bs ← ds_store_record r; bss ← ds_store_loop rs'; Ok (bs ++ bss)
  end.

(** [DeletedSet::store]: the contents of the file. *)
Definition ds_store (ds : DeletedSet) : res (list Z) :=
  bss ← ds_store_loop (records_sorted_bykey ds);
  Ok (le_bytes 4 (u32 (ds_size ds)) ++ bss).

(** The loop of [DeletedSet::load]. *)
Fixpoint ds_load_loop (n : nat) (filesize remainsize : Z) (ds : DeletedSet) : reader DeletedSet :=
  match n with
  | O => mret ds
  | S n' =>
      tmpkey ← Key_deserialize remainsize;
      let remainsize := u32 (remainsize - 16) in
      tmpseq ← r_u32;
      let remainsize := u32 (remainsize - 4) in
      _ ← r_check ((0 <=? remainsize) && (remainsize <=? filesize));
      ds_load_loop n' filesize remainsize
        (mkDeletedSet (m_insert tmpkey tmpseq (records_sorted_bykey ds))
           (m_insert tmpseq tmpkey (records_sorted_byseq ds)) (max_size ds))
  end.

(** [DeletedSet::load] of a file with the given contents. *)
Definition ds_load (ds : DeletedSet) (content : list Z) : res DeletedSet :=
  let filesize := u32 (Z.of_nat (length content)) in
  run_reader
    (_ ← r_check (0 <? filesize);
     recordcnt ← r_u32;
     ds_load_loop (Z.to_nat recordcnt) filesize (u32 (filesize - 4)) (ds_clear ds)) content.

(** ** Invariant *)

(** The deletion recorded for a key. *)
Definition tomb (ds : DeletedSet) (k : Key) : option Z := m_find k (records_sorted_bykey ds).

(** The two maps hold the same records. *)
Record ds_agree (bykey : list (Key * Z)) (byseq : list (Z * Key)) : Prop := {
  da_key : m_sorted bykey;
  da_seq : m_sorted byseq;
  da_same : forall k s, m_find k bykey = Some s <-> m_find s byseq = Some k
}.

(** The invariant of the class: equal maps, within the capacity. *)
Definition ds_wf (ds : DeletedSet) : Prop :=
  ds_agree (records_sorted_bykey ds) (records_sorted_byseq ds) /\ ds_size ds <= max_size ds.

(** [seq] does not belong to the deletion of another key. *)
Definition seq_fresh (ds : DeletedSet) (key : Key) (seq : Z) : Prop :=
  forall k, tomb ds k = Some seq -> k = key.

Lemma ds_agree_nil : ds_agree [] [].
Proof. constructor; [apply sorted_nil..|now split]. Qed.

Lemma DeletedSet_new_wf c rtt : ds_wf (DeletedSet_new c rtt).
Proof. split; [apply ds_agree_nil|]. apply u32_range. Qed.

Lemma ds_clear_wf ds : 0 <= max_size ds -> ds_wf (ds_clear ds).
Proof. intros Hm. split; [apply ds_agree_nil|exact Hm]. Qed.

Lemma ds_assign_wf ds ds' :
  ds_wf ds' -> max_size ds' <= max_size ds -> ds_wf (ds_assign ds ds').
Proof. intros [H1 H2] Hm. split; [exact H1|]. unfold ds_size in *; cbn. lia. Qed.

(** Removing a record from both maps keeps them equal. *)
Lemma ds_agree_erase bykey byseq key seq :
  ds_agree bykey byseq -> m_find key bykey = Some seq ->
  ds_agree (m_erase key bykey) (m_erase seq byseq).
Proof.
  intros [H1 H2 H3] Hf. pose proof (proj1 (H3 _ _) Hf) as Hg. constructor; auto with stdmap.
  intros k s. destruct (decide (key = k)) as [<-|Hk], (decide (seq = s)) as [<-|Hs];
    rewrite ?m_find_erase_eq, ?m_find_erase_ne by assumption; [easy|..|apply H3].
  - rewrite <- H3. split; [easy|]. congruence.
  - rewrite H3. split; [|easy]. congruence.
Qed.

(** Adding a record with a new key and a new sequence number to both maps. *)
Lemma ds_agree_insert bykey byseq key seq :
  ds_agree bykey byseq -> m_find key bykey = None -> m_find seq byseq = None ->
  ds_agree (m_insert key seq bykey) (m_insert seq key byseq).
Proof.
  intros [H1 H2 H3] Hk0 Hs0. constructor; auto with stdmap. intros k s.
  destruct (decide (key = k)) as [<-|Hk], (decide (seq = s)) as [<-|Hs];
    rewrite ?m_find_insert_eq, ?m_find_insert_ne by assumption;
    rewrite ?Hk0, ?Hs0; cbn [default from_option id]; [easy|..|apply H3].
  - rewrite <- H3, Hk0. split; [congruence|discriminate].
  - rewrite H3, Hs0. split; [discriminate|congruence].
Qed.

Lemma ds_remove_wf ds key seq :
  ds_wf ds -> tomb ds key = Some seq ->
  ds_wf (mkDeletedSet (m_erase key (records_sorted_bykey ds))
           (m_erase seq (records_sorted_byseq ds)) (max_size ds)).
Proof.
  unfold tomb. intros [Ha Hc] Hf. split; [now apply ds_agree_erase|].
  unfold ds_size, m_size in *; cbn. rewrite m_erase_length, Hf. lia.
Qed.

(** Overwriting a found pair is erasing and inserting it. *)
Lemma m_assign_erase_insert key (seq old : Z) (m : list (Key * Z)) :
  m_sorted m -> m_find key m = Some old -> m_assign key seq m = m_insert key seq (m_erase key m).
Proof.
  intros Hs Hf. apply m_ext; auto with stdmap. intros k.
  destruct (decide (key = k)) as [<-|Hk].
  - rewrite m_find_assign_eq, Hf, m_find_insert_eq, m_find_erase_eq by assumption. reflexivity.
  - now rewrite m_find_assign_ne, m_find_insert_ne, m_find_erase_ne by assumption.
Qed.

(** ** Specification of the operations *)

(** What [add] does to the recorded deletions while there is room. *)
Definition tomb_upd (ds : DeletedSet) (key : Key) (seq : Z) (k : Key) : option Z :=
  if decide (k = key)
  then Some (match tomb ds key with Some old => Z.max old seq | None => seq end)
  else tomb ds k.

Lemma ds_add_known ds key seq old :
  ds_wf ds -> seq_fresh ds key seq -> tomb ds key = Some old ->
  exists ds', ds_add ds key seq = Ok ds' /\ ds_wf ds' /\ max_size ds' = max_size ds /\
    forall k, tomb ds' k = tomb_upd ds key seq k.
Proof.
  unfold tomb_upd, tomb, seq_fresh. intros [Ha Hc] Hfr Hf. unfold ds_add. rewrite Hf.
  pose proof (da_key _ _ Ha) as Hsk. pose proof (da_seq _ _ Ha) as Hss.
  destruct (Z.ltb_spec old seq) as [Hlt|Hge].
  - eexists; split; [reflexivity|]. split; [|split; [reflexivity|]].
    + split; cbn [records_sorted_bykey records_sorted_byseq max_size].
      * rewrite (m_assign_erase_insert _ _ old) by assumption.
        apply ds_agree_insert; [now apply ds_agree_erase|now apply m_find_erase_eq|].
        rewrite m_find_erase_ne by (assumption || lia).
        destruct (m_find seq (records_sorted_byseq ds)) as [k|] eqn:E; [|reflexivity].
        apply (da_same _ _ Ha) in E. pose proof (Hfr k E) as ->. rewrite Hf in E. injection E as ->. lia.
      * unfold ds_size, m_size in *; cbn. now rewrite m_assign_length.
    + intros k; cbn [records_sorted_bykey]. case_decide as E; subst.
      * rewrite m_find_assign_eq, Hf. cbn. f_equal. lia.
      * now rewrite m_find_assign_ne by congruence.
  - eexists; split; [reflexivity|]. split; [now split|]. split; [reflexivity|].
    intros k. case_decide as E; subst; [|reflexivity]. rewrite Hf. f_equal. lia.
Qed.

Section AddNew.
Context (ds : DeletedSet) (key : Key) (seq : Z).
Context (Hds : ds_wf ds) (Hfr : seq_fresh ds key seq) (Hnew : tomb ds key = None).

Lemma ds_add_new_agree :
  ds_agree (m_insert key seq (records_sorted_bykey ds))
           (m_insert seq key (records_sorted_byseq ds)).
Proof using Hds Hfr Hnew.
  destruct Hds as [Ha _]. apply ds_agree_insert; auto.
  destruct (m_find seq (records_sorted_byseq ds)) as [k|] eqn:E; [|reflexivity].
  apply (da_same _ _ Ha) in E. pose proof (Hfr k E) as ->. unfold tomb in Hnew. congruence.
Qed.

Lemma tomb_insert_new k :
  m_find k (m_insert key seq (records_sorted_bykey ds)) = tomb_upd ds key seq k.
Proof using Hnew.
  unfold tomb_upd, tomb in *. case_decide as E; subst.
  - now rewrite m_find_insert_eq, Hnew.
  - now rewrite m_find_insert_ne by congruence.
Qed.

Lemma ds_add_new_size :
  m_size (m_insert key seq (records_sorted_bykey ds)) = ds_size ds + 1.
Proof using Hnew.
  unfold ds_size, m_size, tomb in *. rewrite m_insert_length, Hnew. lia.
Qed.

Lemma ds_add_room :
  ds_size ds < max_size ds ->
  exists ds', ds_add ds key seq = Ok ds' /\ ds_wf ds' /\ max_size ds' = max_size ds /\
    forall k, tomb ds' k = tomb_upd ds key seq k.
Proof using Hds Hfr Hnew.
  intros Hr. unfold ds_add. unfold tomb in Hnew. rewrite Hnew, ds_add_new_size.
  rewrite (proj2 (Z.ltb_ge _ _)) by lia.
  eexists; split; [reflexivity|]. split; [|split; [reflexivity|apply tomb_insert_new]].
  split; [exact ds_add_new_agree|]. unfold ds_size at 1; cbn. rewrite ds_add_new_size. lia.
Qed.

(** At capacity the record with the smallest sequence number goes. *)
Lemma ds_add_full :
  ds_size ds = max_size ds ->
  exists ds' k0 s0, ds_add ds key seq = Ok ds' /\ ds_wf ds' /\ max_size ds' = max_size ds /\
    tomb_upd ds key seq k0 = Some s0 /\
    (forall k, tomb ds' k = if decide (k = k0) then None else tomb_upd ds key seq k) /\
    (forall k s, tomb ds' k = Some s -> s0 < s).
Proof using Hds Hfr Hnew.
  intros Hr. unfold ds_add. unfold tomb in Hnew. rewrite Hnew, ds_add_new_size.
  rewrite (proj2 (Z.ltb_lt _ _)) by lia.
  pose proof ds_add_new_agree as Hag. pose proof ds_add_new_size as Hsz.
  destruct (m_insert seq key (records_sorted_byseq ds)) as [|[s0 k0] rest] eqn:Eb.
  { exfalso. pose proof (m_find_insert_eq seq key (records_sorted_byseq ds)) as Hc.
    now rewrite Eb in Hc. }
  assert (H0 : m_find k0 (m_insert key seq (records_sorted_bykey ds)) = Some s0)
    by (apply (da_same _ _ Hag), m_find_cons_eq).
  pose proof (ds_agree_erase _ _ _ _ Hag H0) as Her.
  assert (Erest : m_erase s0 ((s0, k0) :: rest) = rest) by (cbn [m_erase]; now rewrite less_irrefl).
  rewrite Erest in Her.
  exists (mkDeletedSet (m_erase k0 (m_insert key seq (records_sorted_bykey ds))) rest (max_size ds)), k0, s0.
  split; [reflexivity|]. split; [|split; [reflexivity|split; [now rewrite <- tomb_insert_new|split]]].
  - split; [exact Her|]. unfold ds_size, m_size in *; cbn. rewrite m_erase_length, H0. lia.
  - intros k. unfold tomb at 1; cbn [records_sorted_bykey]. case_decide as E; subst.
    + apply m_find_erase_eq, (da_key _ _ Hag).
    + rewrite m_find_erase_ne by (apply (da_key _ _ Hag) || congruence). apply tomb_insert_new.
  - unfold tomb; cbn [records_sorted_bykey]. intros k s Hk. apply (da_same _ _ Her) in Hk.
    pose proof (da_seq _ _ Hag) as Hsort. inversion_clear Hsort as [|? ? ? Hb Hs].
    apply (m_find_In _ _ _ Hs) in Hk. rewrite Forall_forall in Hb.
    specialize (Hb _ Hk). unfold key_below, less, Z_less in Hb; cbn in Hb. lia.
Qed.
End AddNew.

(** [DeletedSet::add] keeps the two maps equal and within the capacity; the
    key records the newer of its two deletions, no other record changes unless
    the set was full, and then exactly the record with the smallest sequence
    number is dropped. *)
Theorem ds_add_spec (ds : DeletedSet) (key : Key) (seq : Z) :
  ds_wf ds -> seq_fresh ds key seq ->
  exists ds', ds_add ds key seq = Ok ds' /\ ds_wf ds' /\ max_size ds' = max_size ds /\
    if (ds_size ds <? max_size ds) || negb (bool_decide (tomb ds key = None))
    then forall k, tomb ds' k = tomb_upd ds key seq k
    else exists k0 s0, tomb_upd ds key seq k0 = Some s0 /\
      (forall k, tomb ds' k = if decide (k = k0) then None else tomb_upd ds key seq k) /\
      (forall k s, tomb ds' k = Some s -> s0 < s).
Proof.
  intros Hds Hfr. destruct (tomb ds key) as [old|] eqn:Ht.
  - destruct (ds_add_known ds key seq old Hds Hfr Ht) as (ds' & H).
    exists ds'. now rewrite orb_true_r.
  - rewrite bool_decide_true by reflexivity. rewrite orb_false_r.
    destruct (Z.ltb_spec (ds_size ds) (max_size ds)) as [Hr|Hr].
    + now apply ds_add_room.
    + destruct (ds_add_full ds key seq Hds Hfr Ht) as (ds' & k0 & s0 & H1 & H2 & H3 & H4).
      { destruct Hds. lia. }
      exists ds'. repeat split; eauto; apply H2.
Qed.

Lemma ds_check_and_remove_wf ds key seq :
  ds_wf ds -> ds_wf (ds_check_and_remove ds key seq).2.
Proof.
  intros Hds. unfold ds_check_and_remove.
  destruct (m_find key (records_sorted_bykey ds)) as [old|] eqn:E; [|exact Hds].
  destruct (old <=? seq); [|exact Hds]. now apply ds_remove_wf.
Qed.

(** The verdict of [check_and_remove] and the deletions left afterwards. *)
Lemma ds_check_and_remove_res ds key seq :
  m_sorted (records_sorted_bykey ds) ->
  exists isdeleted ds', ds_check_and_remove ds key seq = (isdeleted, tomb ds key, ds') /\
    max_size ds' = max_size ds /\
    (isdeleted = true <-> exists old, tomb ds key = Some old /\ seq < old) /\
    (forall k, tomb ds' k = if decide (k = key) then (if isdeleted then tomb ds key else None)
                            else tomb ds k).
Proof.
  unfold ds_check_and_remove, tomb. intros Hs.
  destruct (m_find key (records_sorted_bykey ds)) as [old|] eqn:E.
  2:{ do 2 eexists; split; [reflexivity|]. split; [reflexivity|]. split; [naive_solver|].
      intros k. case_decide; congruence. }
  destruct (Z.leb_spec old seq).
  - do 2 eexists; split; [reflexivity|]. split; [reflexivity|]. split.
    + split; [discriminate|]. intros (o & [= <-] & ?). lia.
    + intros k; cbn [records_sorted_bykey]. case_decide; subst.
      * now apply m_find_erase_eq.
      * now rewrite m_find_erase_ne by (assumption || congruence).
  - do 2 eexists; split; [reflexivity|]. split; [reflexivity|]. split; [naive_solver|].
    intros k. case_decide; congruence.
Qed.

(** [DeletedSet::check_and_remove] reports a version as deleted exactly when
    a deletion with a larger sequence number is recorded, leaves the set alone
    then, and otherwise forgets the deletion of that key only; the invariant is
    kept. *)
Theorem ds_check_and_remove_spec (ds : DeletedSet) (key : Key) (seq : Z) :
  ds_wf ds ->
  exists isdeleted ds', ds_check_and_remove ds key seq = (isdeleted, tomb ds key, ds') /\
    ds_wf ds' /\
    (isdeleted = true <-> exists old, tomb ds key = Some old /\ seq < old) /\
    (forall k, tomb ds' k = if decide (k = key) then (if isdeleted then tomb ds key else None)
                            else tomb ds k).
Proof.
  intros Hds. pose proof (ds_check_and_remove_wf ds key seq Hds) as Hw.
  destruct (ds_check_and_remove_res ds key seq (da_key _ _ (proj1 Hds)))
    as (b & ds' & E & _ & H1 & H2).
  rewrite E in Hw. eauto 6.
Qed.

(** ** Range scan *)

Lemma ds_scan_loop_take iter n :
  ds_scan_loop iter n =
  map (fun r => (r.1, mkSnapshotRecord Val_default r.2 false)) (take n iter).
Proof.
  revert n. induction iter as [|[k s] iter IH]; intros [|n]; cbn; [reflexivity..|].
  now rewrite IH.
Qed.

(** [DeletedSet::range_scan] returns, in ascending key order, the records of
    the first [scanrecordcnt] keys not below [startkey], each as a deletion with
    its sequence number; it misses one only after it has [scanrecordcnt]. *)
Theorem ds_range_scan_spec (ds : DeletedSet) (startkey endkey : Key) (cnt : Z) :
  ds_wf ds -> get_scanrecordcnt startkey endkey = Ok cnt ->
  exists rs, ds_range_scan ds startkey endkey = Ok rs /\ m_sorted rs /\
    (forall k r, In (k, r) rs -> key_lt k startkey = false /\ sr_stat r = false /\
                                 tomb ds k = Some (sr_seq r)) /\
    Z.of_nat (length rs) <= cnt /\
    (forall k s, tomb ds k = Some s -> key_lt k startkey = false ->
       In (k, mkSnapshotRecord Val_default s false) rs \/
       (Z.of_nat (length rs) = cnt /\ Forall (fun p => key_lt p.1 k = true) rs)).
Proof.
  intros [[Hsk _ _] _] Hc. unfold ds_range_scan. rewrite Hc. cbn [mbind res_bind].
  eexists; split; [reflexivity|]. rewrite ds_scan_loop_take.
  set (lb := m_lower_bound startkey (records_sorted_bykey ds)).
  assert (Hlb : m_sorted lb) by (unfold lb; auto with stdmap).
  assert (Hpos : 0 < cnt).
  { unfold get_scanrecordcnt in Hc. apply bind_Ok in Hc as ([] & Hc & Hc').
    apply INVARIANT_Ok in Hc. apply bind_Ok in Hc' as ([] & _ & [= <-]). lia. }
  split; [|split; [|split]].
  - now apply (m_map_take_sorted (fun s => mkSnapshotRecord Val_default s false)).
  - intros k r ([k' s] & [= <- <-] & Hi)%in_map_iff. apply (in_take_In _ _ _) in Hi.
    apply (m_find_In _ _ _ Hlb) in Hi. unfold lb in Hi. rewrite m_lower_bound_find in Hi by assumption.
    change (less k' startkey) with (key_lt k' startkey) in Hi. cbn [fst].
    destruct (key_lt k' startkey); [discriminate|]. auto.
  - rewrite length_map, length_take. lia.
  - intros k s Ht Hk. rewrite length_map, length_take.
    assert (Hi : In (k, s) lb).
    { apply (m_find_In _ _ _ Hlb). unfold lb. rewrite m_lower_bound_find by assumption.
      change (less k startkey) with (key_lt k startkey). now rewrite Hk. }
    destruct (m_take_or_below (Z.to_nat cnt) k s lb Hlb Hi) as [Hin|[Hl Hb]].
    + left. apply in_map_iff. now exists (k, s).
    + right. split; [lia|]. apply Forall_map. exact Hb.
Qed.

(** ** Store and load *)

(** The bytes of one record in the file. *)
Definition record_bytes (r : Key * Z) : list Z := key_wire r.1 ++ le_bytes 4 r.2.

Definition rec_wf (r : Key * Z) : Prop := key_wf r.1 /\ is_u32 r.2.

Lemma length_record_bytes r : length (record_bytes r) = 20%nat.
Proof. reflexivity. Qed.

Lemma ds_store_record_ok r : key_wf r.1 -> ds_store_record r = Ok (record_bytes r).
Proof.
  intros Hk. unfold ds_store_record.
  set (buf := replicate (Z.to_nat MAX_BUFSIZE) 0).
  assert (Hbuf : (20 <= length buf)%nat)
    by (unfold buf, MAX_BUFSIZE; rewrite length_replicate; lia).
  clearbody buf. rewrite <- (take_drop 20 buf).
  assert (L : length (take 20 buf) = 20%nat) by (rewrite length_take; lia).
  assert (W : writes (tmp_keysize ← Key_serialize r.1 MAX_BUFSIZE; _ ← w_u32 r.2;
                      mret (tmp_keysize + 4)) 0 20 20 (fun _ => record_bytes r ++ [])).
  { unfold record_bytes. rewrite <- app_assoc.
    apply (writes_bind _ _ 0 16 4 16 20 (fun _ => key_wire r.1) (fun _ => le_bytes 4 r.2 ++ [])).
    - apply Key_serialize_writes; [exact Hk|unfold MAX_BUFSIZE; lia].
    - apply (writes_put_bind (le_bytes 4 r.2) 4); [apply length_le_bytes|]. apply writes_ret. }
  destruct (W [] (take 20 buf) (drop 20 buf) eq_refl L) as [E _].
  unfold run_writer. rewrite E. cbn [mbind res_bind w_done w_rest app]. rewrite app_nil_r.
  now rewrite take_app_le, take_ge by (rewrite length_record_bytes; lia).
Qed.

Lemma ds_store_loop_ok rs :
  Forall rec_wf rs -> ds_store_loop rs = Ok (concat (map record_bytes rs)).
Proof.
  induction 1 as [|r rs [Hk _] Hrs IH]; cbn [ds_store_loop map concat]; [reflexivity|].
  now rewrite ds_store_record_ok, IH.
Qed.

Lemma length_concat_records rs : length (concat (map record_bytes rs)) = (20 * length rs)%nat.
Proof.
  induction rs as [|r rs IH]; cbn [map concat]; [reflexivity|].
  rewrite length_app, length_record_bytes, IH. cbn [length]. lia.
Qed.

(** The maps after inserting a list of records one by one. *)
Definition ds_inserts (rs : list (Key * Z)) (ds : DeletedSet) : DeletedSet :=
  fold_left (fun ds r => mkDeletedSet (m_insert r.1 r.2 (records_sorted_bykey ds))
                           (m_insert r.2 r.1 (records_sorted_byseq ds)) (max_size ds)) rs ds.

Lemma ds_load_loop_reads rs : forall ds filesize remainsize pos,
  Forall rec_wf rs -> 20 * Z.of_nat (length rs) <= remainsize <= filesize -> filesize < 2 ^ 32 ->
  reads (ds_load_loop (length rs) filesize remainsize ds) pos
        (concat (map record_bytes rs)) (ds_inserts rs ds).
Proof.
  induction rs as [|[k s] rs IH]; intros ds filesize remainsize pos Hf Hr Hfs;
    cbn [ds_load_loop length map concat]; [apply reads_ret|].
  cbn [length] in Hr. apply Forall_cons_iff in Hf as [[Hk Hs] Hf]. cbn [fst snd] in *.
  unfold record_bytes at 1. cbn [fst snd]. rewrite <- app_assoc.
  eapply reads_bind; [apply Key_deserialize_reads; [exact Hk|lia]|].
  eapply reads_bind; [apply r_u32_reads; exact Hs|].
  rewrite (u32_id (remainsize - 16)) by (unfold is_u32; lia).
  rewrite (u32_id (remainsize - 16 - 4)) by (unfold is_u32; lia).
  rewrite (proj2 (Z.leb_le _ _)), (proj2 (Z.leb_le (_ - 4) _)) by lia.
  apply (IH (mkDeletedSet (m_insert k s (records_sorted_bykey ds))
           (m_insert s k (records_sorted_byseq ds)) (max_size ds))); [exact Hf|lia..].
Qed.

(** Inserting all pairs of a map gives the map back. *)
Lemma ds_inserts_keys rs : forall ds, records_sorted_bykey (ds_inserts rs ds) =
  fold_left (fun m r => m_insert r.1 r.2 m) rs (records_sorted_bykey ds).
Proof. induction rs as [|r rs IH]; intros ds; [reflexivity|]. cbn. now rewrite IH. Qed.

Lemma ds_inserts_max rs : forall ds, max_size (ds_inserts rs ds) = max_size ds.
Proof. induction rs as [|r rs IH]; intros ds; [reflexivity|]. cbn. now rewrite IH. Qed.

Lemma ds_inserts_agree rs : forall ds,
  m_sorted rs -> NoDup (map snd rs) ->
  ds_agree (records_sorted_bykey ds) (records_sorted_byseq ds) ->
  (forall k s, In (k, s) rs -> m_find k (records_sorted_bykey ds) = None /\
                               m_find s (records_sorted_byseq ds) = None) ->
  ds_agree (records_sorted_bykey (ds_inserts rs ds)) (records_sorted_byseq (ds_inserts rs ds)).
Proof.
  induction rs as [|[k s] rs IH]; intros ds Hs Hn Ha Hd; [exact Ha|]. cbn [map snd] in Hn.
  inversion_clear Hs as [|? ? ? Hb Hs']. inversion_clear Hn as [|? ? Hni Hn'].
  destruct (Hd k s (or_introl eq_refl)) as [Hk0 Hs0].
  apply IH; auto; cbn [records_sorted_bykey records_sorted_byseq fst snd].
  - now apply ds_agree_insert.
  - intros k' s' Hi. rewrite Forall_forall in Hb. specialize (Hb _ Hi).
    unfold key_below in Hb; cbn [fst] in Hb.
    rewrite !m_find_insert_ne; [now apply Hd; right|..].
    + intros ->. apply Hni, list_elem_of_In, in_map_iff. now exists (k', s').
    + intros ->. now rewrite less_irrefl in Hb.
Qed.

(** Distinct sequence numbers: what the second map stands for. *)
Lemma ds_agree_nodup bykey byseq :
  ds_agree bykey byseq -> NoDup (map snd bykey).
Proof.
  intros [Hsk _ Hsame].
  assert (Hinj : forall k k' s, In (k, s) bykey -> In (k', s) bykey -> k = k').
  { intros k k' s H1 H2. apply (m_find_In _ _ _ Hsk), Hsame in H1.
    apply (m_find_In _ _ _ Hsk), Hsame in H2. congruence. }
  clear Hsame. induction Hsk as [|k s m Hb Hs IH]; cbn [map]; constructor.
  - rewrite list_elem_of_In, in_map_iff. intros ([k' s'] & Es & Hi). cbn in Es; subst s'.
    pose proof (Hinj k k' s (or_introl eq_refl) (or_intror Hi)) as <-.
    rewrite Forall_forall in Hb. specialize (Hb _ Hi). unfold key_below in Hb; cbn in Hb.
    now rewrite less_irrefl in Hb.
  - apply IH. intros; eapply Hinj; right; eassumption.
Qed.

(** Two consistent pairs of maps with equal first maps are equal. *)
Lemma ds_agree_unique bykey s1 s2 : ds_agree bykey s1 -> ds_agree bykey s2 -> s1 = s2.
Proof.
  intros [_ Hs1 H1] [_ Hs2 H2]. apply m_ext; auto. intros s.
  destruct (m_find s s1) as [k|] eqn:E.
  - apply H1, H2 in E. congruence.
  - destruct (m_find s s2) as [k|] eqn:E2; [|reflexivity]. apply H2, H1 in E2. congruence.
Qed.

Lemma ds_inserts_clear ds ds0 :
  ds_agree (records_sorted_bykey ds) (records_sorted_byseq ds) ->
  ds_inserts (records_sorted_bykey ds) (ds_clear ds0) =
  mkDeletedSet (records_sorted_bykey ds) (records_sorted_byseq ds) (max_size ds0).
Proof.
  intros Ha. pose proof (da_key _ _ Ha) as Hs.
  set (d := ds_inserts (records_sorted_bykey ds) (ds_clear ds0)).
  assert (Ek : records_sorted_bykey d = records_sorted_bykey ds).
  { unfold d. rewrite ds_inserts_keys. now apply m_inserts_id. }
  assert (Hd : ds_agree (records_sorted_bykey d) (records_sorted_byseq d)).
  { apply ds_inserts_agree; [exact Hs|now apply ds_agree_nodup in Ha|apply ds_agree_nil|easy]. }
  rewrite Ek in Hd. pose proof (ds_agree_unique _ _ _ Hd Ha) as Es.
  pose proof (ds_inserts_max (records_sorted_bykey ds) (ds_clear ds0)) as Em. fold d in Em.
  destruct d; cbn in *. now subst.
Qed.

(** A deleted set written to disk by [DeletedSet::store] and read by
    [DeletedSet::load] into any other object holds the same records in both
    maps; only the capacity of the reading object stays. *)
Theorem ds_store_load (ds ds0 : DeletedSet) :
  ds_wf ds -> Forall rec_wf (records_sorted_bykey ds) -> ds_size ds < 2 ^ 27 ->
  exists content, ds_store ds = Ok content /\
    ds_load ds0 content =
      Ok (mkDeletedSet (records_sorted_bykey ds) (records_sorted_byseq ds) (max_size ds0)).
Proof.
  intros [Ha Hc] Hf Hsz. unfold ds_store. rewrite ds_store_loop_ok by assumption.
  cbn [mbind res_bind]. eexists; split; [reflexivity|].
  unfold ds_size, m_size in *. set (rs := records_sorted_bykey ds) in *.
  unfold ds_load. rewrite length_app, length_le_bytes, length_concat_records.
  rewrite !u32_id by (unfold is_u32; lia).
  set (fs := Z.of_nat (4 + 20 * length rs)).
  assert (R : reads (_ ← r_check (0 <? fs); recordcnt ← r_u32;
      ds_load_loop (Z.to_nat recordcnt) fs (fs - 4) (ds_clear ds0)) 0
      (le_bytes 4 (Z.of_nat (length rs)) ++ concat (map record_bytes rs)) (ds_inserts rs (ds_clear ds0))).
  { rewrite (proj2 (Z.ltb_lt _ _)) by (unfold fs; lia).
    apply (reads_bind r_u32 _ 0 _ _ (Z.of_nat (length rs))); [apply r_u32_reads; unfold is_u32; lia|].
    rewrite Nat2Z.id. apply ds_load_loop_reads; [exact Hf|unfold fs; lia..]. }
  specialize (R []). rewrite app_nil_r in R. unfold run_reader.
  rewrite R.
  f_equal. now apply ds_inserts_clear.
Qed.

(** ** Concrete runs *)

Definition key_of (n : Z) : Key := mkKey n 0 0 0.

(** A set of capacity two holding the deletions of keys 1 and 2. *)
Definition ds_two : DeletedSet :=
  mkDeletedSet [(key_of 1, 5); (key_of 2, 9)] [(5, key_of 1); (9, key_of 2)] 2.

Lemma ds_two_wf : ds_wf ds_two.
Proof.
  split; [|unfold ds_size, m_size; cbn; lia].
  change (records_sorted_bykey ds_two) with (m_insert (key_of 2) 9 (m_insert (key_of 1) 5 [])).
  change (records_sorted_byseq ds_two) with (m_insert 9 (key_of 2) (m_insert 5 (key_of 1) [])).
  do 2 (apply ds_agree_insert; [|reflexivity..]). apply ds_agree_nil.
Qed.

Lemma ds_two_fresh : seq_fresh ds_two (key_of 3) 7.
Proof.
  intros k Hk. apply (m_find_In _ _ _ (da_key _ _ (proj1 ds_two_wf))) in Hk.
  cbn in Hk. destruct Hk as [[= _ Hk]|[[= _ Hk]|[]]]; lia.
Qed.

Lemma ds_add_spec_witness :
  exists ds', ds_add ds_two (key_of 3) 7 = Ok ds' /\ tomb ds' (key_of 1) = None /\
    tomb ds' (key_of 3) = Some 7.
Proof.
  destruct (ds_add_spec ds_two (key_of 3) 7 ds_two_wf ds_two_fresh) as (ds' & E & _).
  exists ds'. split; [exact E|]. revert E. vm_compute. intros [= <-]. split; reflexivity.
Defined.

Lemma ds_check_and_remove_spec_witness :
  exists ds', ds_check_and_remove ds_two (key_of 2) 8 = (true, Some 9, ds') /\ ds_wf ds'.
Proof.
  destruct (ds_check_and_remove_spec ds_two (key_of 2) 8 ds_two_wf) as (b & ds' & E & W & _).
  exists ds'. split; [|exact W]. revert E. vm_compute. intros [= <- <-]. reflexivity.
Defined.

Lemma ds_range_scan_spec_witness :
  exists rs, ds_range_scan ds_two (key_of 2) (key_of 7) = Ok rs /\
    (length rs = 1)%nat /\ m_sorted rs.
Proof.
  destruct (ds_range_scan_spec ds_two (key_of 2) (key_of 7) 5 ds_two_wf eq_refl)
    as (rs & E & S & _).
  exists rs. split; [exact E|]. split; [|exact S]. revert E. vm_compute. intros [= <-]. reflexivity.
Defined.

Lemma ds_store_load_witness :
  exists content, ds_store ds_two = Ok content /\ length content = 44%nat /\
    ds_load DeletedSet_default content =
      Ok (mkDeletedSet (records_sorted_bykey ds_two) (records_sorted_byseq ds_two) 10000).
Proof.
  destruct (ds_store_load ds_two DeletedSet_default ds_two_wf) as (c & E & L).
  - repeat constructor; cbn; unfold is_u32; lia.
  - unfold ds_size, m_size; cbn; lia.
  - exists c. split; [exact E|]. split; [|exact L].
    revert E. vm_compute. intros [= <-]. reflexivity.
Defined.

(** Two deletions with one sequence number share one entry of the second
    map, so a full set later drops the newer deletion (key 3) and keeps an
    older one (key 2) for ever: [add] relies on sequence numbers being unique
    over all keys. *)
Theorem ds_add_shared_seq :
  exists d1 d2 d3 d4, ds_add (mkDeletedSet [] [] 2) (key_of 1) 5 = Ok d1 /\
    ds_add d1 (key_of 2) 5 = Ok d2 /\ ds_add d2 (key_of 3) 6 = Ok d3 /\
    ds_add d3 (key_of 4) 7 = Ok d4 /\
    tomb d4 (key_of 2) = Some 5 /\ tomb d4 (key_of 3) = None.
Proof. do 4 eexists. repeat split. Qed.
