(* ===== verification/KVStore.v ===== *)
(** * RocksDB, as the servers use it

    RocksDB is a library the program links; the wrapper calls [Get], [Put],
    [Delete], an iterator positioned by [Seek], [GetSnapshot],
    [ReleaseSnapshot] and [Checkpoint::CreateCheckpoint].  [KVStore] is that
    interface, [KVStoreLaws] the documented behaviour the wrapper relies on:
    reads see the latest write, iterators visit the stored pairs in byte order,
    a snapshot keeps showing the state it was taken in until it is released, a
    checkpoint is a copy of the current state.  [MemDB] is a concrete store
    that has these laws. *)

From Stdlib Require Import ZArith Lia List.
From stdpp Require Import base tactics list numbers option gmap infinite.
From S2P Require Import Prelude StdMap.

Open Scope Z_scope.

Abbreviation bytes := (list Z).

(** [rocksdb::Status], as far as the wrapper looks at it. *)
Inductive status := StOk | StNotFound | StError.

Definition st_ok (s : status) : bool := match s with StOk => true | _ => false end.

Class KVStore (DB Snap : Type) := {
  db_Get : DB -> bytes -> status * bytes;         (* NotFound leaves the value empty *)
  db_Put : DB -> bytes -> bytes -> status * DB;
  db_Delete : DB -> bytes -> status * DB;
  db_Iter : DB -> bytes -> list (bytes * bytes);  (* the pairs from Seek(k) until !Valid() *)
  db_GetSnapshot : DB -> Snap * DB;
  db_ReleaseSnapshot : DB -> Snap -> DB;
  db_IterAt : DB -> Snap -> bytes -> option (list (bytes * bytes));  (* None: released *)
  db_GetSequenceNumber : Snap -> Z;
  db_Checkpoint : DB -> DB                        (* CreateCheckpoint, then DB::Open *)
}.

#[global] Instance bytes_less_inst : CppLess bytes := bytes_less.

Class KVStoreLaws (DB Snap : Type) `{KVStore DB Snap} : Prop := {
  (** A write that succeeds is seen by later reads. *)
  get_put_eq : forall db k v, (db_Put db k v).1 = StOk -> db_Get (db_Put db k v).2 k = (StOk, v);
  get_put_ne : forall db k v k', k <> k' -> db_Get (db_Put db k v).2 k' = db_Get db k';
  get_delete_eq : forall db k, (db_Delete db k).1 = StOk -> db_Get (db_Delete db k).2 k = (StNotFound, []);
  get_delete_ne : forall db k k', k <> k' -> db_Get (db_Delete db k).2 k' = db_Get db k';
  (** An iterator visits the stored pairs from [k] on, in ascending byte order. *)
  iter_sorted : forall db k, m_sorted (db_Iter db k);
  iter_In : forall db k k' v,
    In (k', v) (db_Iter db k) <-> bytes_less k' k = false /\ db_Get db k' = (StOk, v);
  (** A snapshot shows the database as it was, until it is released. *)
  snap_new : forall db k, db_IterAt (db_GetSnapshot db).2 (db_GetSnapshot db).1 k = Some (db_Iter db k);
  snap_fresh : forall db k, db_IterAt db (db_GetSnapshot db).1 k = None;
  snap_keeps : forall db s k l, db_IterAt db s k = Some l -> db_IterAt (db_GetSnapshot db).2 s k = Some l;
  snap_put : forall db s k k' v, db_IterAt (db_Put db k' v).2 s k = db_IterAt db s k;
  snap_delete : forall db s k k', db_IterAt (db_Delete db k').2 s k = db_IterAt db s k;
  snap_release : forall db s s' k, s <> s' -> db_IterAt (db_ReleaseSnapshot db s') s k = db_IterAt db s k;
  get_snapshot_get : forall db k, db_Get (db_GetSnapshot db).2 k = db_Get db k;
  get_release : forall db s k, db_Get (db_ReleaseSnapshot db s) k = db_Get db k;
  (** A checkpoint is a copy of the current state. *)
  checkpoint_get : forall db k, db_Get (db_Checkpoint db) k = db_Get db k
}.

(** No I/O error occurs: every write succeeds, and a read finds the key or
    says [NotFound] and leaves the value empty. *)
Class KVStoreAvailable (DB Snap : Type) `{KVStore DB Snap} : Prop := {
  put_ok : forall db k v, (db_Put db k v).1 = StOk;
  delete_ok : forall db k, (db_Delete db k).1 = StOk;
  get_status : forall db k, (db_Get db k).1 = StOk \/ db_Get db k = (StNotFound, [])
}.

(** ** Byte order *)

#[global] Instance bytes_less_laws : CppLessLaws bytes.
Proof.
  unfold CppLess, bytes_less_inst. constructor; unfold less, bytes_less_inst.
  - induction a as [|x a IH]; cbn [bytes_less]; [reflexivity|]. rewrite IH.
    destruct (Z.ltb_spec x x), (x =? x); cbn; lia || reflexivity.
  - induction a as [|x a IH]; intros [|y b] [|z c]; cbn [bytes_less]; try easy.
    rewrite !orb_true_iff, !andb_true_iff. intros [H1|[H1 H2]] [H3|[H3 H4]]; [left; lia..|].
    right. split; [lia|]. eauto.
  - induction a as [|x a IH]; intros [|y b]; cbn [bytes_less]; try easy.
    rewrite !orb_false_iff, !andb_false_iff. intros [H1 H2] [H3 H4].
    assert (x = y) as -> by lia. f_equal. apply IH; destruct H2, H4; lia || assumption.
Qed.

(** ** A concrete store *)

Module MemDB.
Record t := mk {
  data : gmap bytes bytes;
  snaps : gmap Z (gmap bytes bytes)   (* the live snapshots *)
}.

Definition empty : t := mk ∅ ∅.

(** The pairs in byte order. *)
Definition ordered (m : gmap bytes bytes) : list (bytes * bytes) := map_fold m_insert [] m.

Lemma ordered_spec m : m_sorted (ordered m) /\ forall k, m_find k (ordered m) = m !! k.
Proof.
  unfold ordered. apply (map_fold_weak_ind (fun l m => m_sorted l /\ forall k, m_find k l = m !! k)).
  - split; [apply sorted_nil|]. intros k. now rewrite lookup_empty.
  - intros k v m' l Hk [Hs Hf]. split; [auto with stdmap|]. intros k'.
    destruct (decide (k = k')) as [<-|Hne].
    + now rewrite m_find_insert_eq, Hf, Hk, lookup_insert_eq.
    + now rewrite m_find_insert_ne, Hf, lookup_insert_ne by assumption.
Qed.
End MemDB.

#[global] Instance memdb : KVStore MemDB.t Z := {
  db_Get db k := match MemDB.data db !! k with
                 | Some v => (StOk, v) | None => (StNotFound, []) end;
  db_Put db k v := (StOk, MemDB.mk (<[k := v]> (MemDB.data db)) (MemDB.snaps db));
  db_Delete db k := (StOk, MemDB.mk (delete k (MemDB.data db)) (MemDB.snaps db));
  db_Iter db k := m_lower_bound k (MemDB.ordered (MemDB.data db));
  db_GetSnapshot db :=
    let s := fresh (dom (MemDB.snaps db)) in
    (s, MemDB.mk (MemDB.data db) (<[s := MemDB.data db]> (MemDB.snaps db)));
  db_ReleaseSnapshot db s := MemDB.mk (MemDB.data db) (delete s (MemDB.snaps db));
  db_IterAt db s k := (fun m => m_lower_bound k (MemDB.ordered m)) <$> MemDB.snaps db !! s;
  db_GetSequenceNumber s := s;
  db_Checkpoint db := MemDB.mk (MemDB.data db) ∅
}.

Lemma memdb_fresh db : MemDB.snaps db !! fresh (dom (MemDB.snaps db)) = None.
Proof. apply not_elem_of_dom, is_fresh. Qed.

#[global] Instance memdb_laws : KVStoreLaws MemDB.t Z.
Proof.
  constructor; cbn [db_Get db_Put db_Delete db_Iter db_GetSnapshot db_ReleaseSnapshot db_IterAt
    db_Checkpoint memdb MemDB.data MemDB.snaps fst snd]; intros.
  - now rewrite lookup_insert_eq.
  - now rewrite lookup_insert_ne.
  - now rewrite lookup_delete_eq.
  - now rewrite lookup_delete_ne.
  - apply m_lower_bound_sorted, MemDB.ordered_spec.
  - destruct (MemDB.ordered_spec (MemDB.data db)) as [Hs Hf].
    rewrite <- m_find_In by (now apply m_lower_bound_sorted).
    rewrite m_lower_bound_find, Hf by assumption. unfold less, bytes_less_inst.
    destruct (bytes_less k' k); [split; [discriminate|intros [? ?]; discriminate]|].
    destruct (MemDB.data db !! k'); naive_solver.
  - now rewrite lookup_insert_eq.
  - now rewrite memdb_fresh.
  - destruct (decide (s = fresh (dom (MemDB.snaps db)))) as [->|Hne].
    + rewrite memdb_fresh in H. discriminate.
    + now rewrite lookup_insert_ne.
  - reflexivity.
  - reflexivity.
  - now rewrite lookup_delete_ne.
  - reflexivity.
  - reflexivity.
  - reflexivity.
Qed.

#[global] Instance memdb_available : KVStoreAvailable MemDB.t Z.
Proof.
  constructor; cbn [db_Get db_Put db_Delete memdb]; intros; [reflexivity..|].
  destruct (MemDB.data db !! k); auto.
Qed.
