(* ===== verification/RocksdbWrapper.v ===== *)
(** * The server-side key-value store (common/rocksdb_wrapper.h, .c)

    One [RocksdbWrapper] per server: the RocksDB database, the set of recent
    deletions, the largest sequence number seen, the snapshot that range
    queries read and the newer one being made.  The code compiled is the
    RocksDB variant ([USE_TOMMYDS_KVS] is not defined) with [USE_SCANRECORDCNT].

    Each method runs under the read-write lock that protects the fields it
    touches, so it is one step on the state: [rw A] is a state and error monad
    over [Wrapper].  The files under /tmp are part of the state ([disk]).  The
    database is any [KVStore]. *)

From Stdlib Require Import ZArith Lia List.
From stdpp Require Import base tactics list numbers option.
From S2P Require Import Prelude Cursor StdMap DynamicArray Crc32 Key Val DeletedSet KVStore.

Open Scope Z_scope.

Definition MAX_LARGE_BUFSIZE : Z := 8388608.

(** The files of one server (common/io_helper.c); a negative snapshot id is
    converted to [uint32_t] in the name. *)
Inductive fpath :=
  | deletedset_path (workerid : Z)
  | snapshotid_path (workerid : Z)
  | latestmaxseq_path (workerid : Z)
  | snapshotdbseq_path (workerid snapshotid : Z)
  | snapshotdeletedset_path (workerid snapshotid : Z)
  | snapshotmaxseq_path (workerid snapshotid : Z)
  | inswitchsnapshot_path (workerid snapshotid : Z).

#[global] Instance fpath_eq_dec : EqDecision fpath.
Proof. solve_decision. Defined.

Definition Disk : Type := fpath -> option bytes.
Definition disk_write (p : fpath) (c : bytes) (d : Disk) : Disk :=
  fun q => if decide (q = p) then Some c else d q.
Definition rmfiles (p : fpath) (d : Disk) : Disk :=
  fun q => if decide (q = p) then None else d q.
Definition isexist (p : fpath) (d : Disk) : bool := bool_decide (d p <> None).

Section RocksdbWrapper.
Context {DB Snap : Type} `{KVStore DB Snap}.

Record Wrapper := mkWrapper {
  methodid : Z;
  workerid : Z;
  maxseq : Z;
  db_ptr : option DB;
  deleted_set : DeletedSet;
  snapshotid : Z;
  sp_ptr : option Snap;
  snapshotdb_ptr : option DB;
  snapshot_deleted_set : DeletedSet;
  inswitch_snapshot : list (Key * SnapshotRecord);
  is_snapshot : bool;
  latest_sp_ptr : option Snap;
  latest_snapshot_deleted_set : DeletedSet;
  disk : Disk
}.

Definition rw (A : Type) : Type := Wrapper -> res (A * Wrapper).

#[global] Instance rw_ret : MRet rw := fun _ a w => Ok (a, w).
#[global] Instance rw_bind : MBind rw := fun _ _ f m w =>
  match m w with Ok (a, w') => f a w' | Err e => Err e end.

Definition gets {A} (f : Wrapper -> A) : rw A := fun w => Ok (f w, w).
Definition modify (f : Wrapper -> Wrapper) : rw unit := fun w => Ok (tt, f w).
Definition lift {A} (r : res A) : rw A := fun w =>
  match r with Ok a => Ok (a, w) | Err e => Err e end.
Definition inv (c : bool) : rw unit := lift (INVARIANT c).

(** Assignments to the fields. *)
Definition set_workerid x w := mkWrapper (methodid w) x (maxseq w) (db_ptr w) (deleted_set w)
  (snapshotid w) (sp_ptr w) (snapshotdb_ptr w) (snapshot_deleted_set w) (inswitch_snapshot w)
  (is_snapshot w) (latest_sp_ptr w) (latest_snapshot_deleted_set w) (disk w).
Definition set_maxseq x w := mkWrapper (methodid w) (workerid w) x (db_ptr w) (deleted_set w)
  (snapshotid w) (sp_ptr w) (snapshotdb_ptr w) (snapshot_deleted_set w) (inswitch_snapshot w)
  (is_snapshot w) (latest_sp_ptr w) (latest_snapshot_deleted_set w) (disk w).
Definition set_db x w := mkWrapper (methodid w) (workerid w) (maxseq w) (Some x) (deleted_set w)
  (snapshotid w) (sp_ptr w) (snapshotdb_ptr w) (snapshot_deleted_set w) (inswitch_snapshot w)
  (is_snapshot w) (latest_sp_ptr w) (latest_snapshot_deleted_set w) (disk w).
Definition set_deleted_set x w := mkWrapper (methodid w) (workerid w) (maxseq w) (db_ptr w) x
  (snapshotid w) (sp_ptr w) (snapshotdb_ptr w) (snapshot_deleted_set w) (inswitch_snapshot w)
  (is_snapshot w) (latest_sp_ptr w) (latest_snapshot_deleted_set w) (disk w).
Definition set_snapshotid x w := mkWrapper (methodid w) (workerid w) (maxseq w) (db_ptr w)
  (deleted_set w) x (sp_ptr w) (snapshotdb_ptr w) (snapshot_deleted_set w) (inswitch_snapshot w)
  (is_snapshot w) (latest_sp_ptr w) (latest_snapshot_deleted_set w) (disk w).
Definition set_sp_ptr x w := mkWrapper (methodid w) (workerid w) (maxseq w) (db_ptr w)
  (deleted_set w) (snapshotid w) x (snapshotdb_ptr w) (snapshot_deleted_set w) (inswitch_snapshot w)
  (is_snapshot w) (latest_sp_ptr w) (latest_snapshot_deleted_set w) (disk w).
Definition set_snapshotdb x w := mkWrapper (methodid w) (workerid w) (maxseq w) (db_ptr w)
  (deleted_set w) (snapshotid w) (sp_ptr w) x (snapshot_deleted_set w) (inswitch_snapshot w)
  (is_snapshot w) (latest_sp_ptr w) (latest_snapshot_deleted_set w) (disk w).
Definition set_snapshot_deleted_set x w := mkWrapper (methodid w) (workerid w) (maxseq w)
  (db_ptr w) (deleted_set w) (snapshotid w) (sp_ptr w) (snapshotdb_ptr w) x (inswitch_snapshot w)
  (is_snapshot w) (latest_sp_ptr w) (latest_snapshot_deleted_set w) (disk w).
Definition set_inswitch_snapshot x w := mkWrapper (methodid w) (workerid w) (maxseq w)
  (db_ptr w) (deleted_set w) (snapshotid w) (sp_ptr w) (snapshotdb_ptr w) (snapshot_deleted_set w) x
  (is_snapshot w) (latest_sp_ptr w) (latest_snapshot_deleted_set w) (disk w).
Definition set_is_snapshot x w := mkWrapper (methodid w) (workerid w) (maxseq w)
  (db_ptr w) (deleted_set w) (snapshotid w) (sp_ptr w) (snapshotdb_ptr w) (snapshot_deleted_set w)
  (inswitch_snapshot w) x (latest_sp_ptr w) (latest_snapshot_deleted_set w) (disk w).
Definition set_latest_sp_ptr x w := mkWrapper (methodid w) (workerid w) (maxseq w)
  (db_ptr w) (deleted_set w) (snapshotid w) (sp_ptr w) (snapshotdb_ptr w) (snapshot_deleted_set w)
  (inswitch_snapshot w) (is_snapshot w) x (latest_snapshot_deleted_set w) (disk w).
Definition set_latest_snapshot_deleted_set x w := mkWrapper (methodid w) (workerid w) (maxseq w)
  (db_ptr w) (deleted_set w) (snapshotid w) (sp_ptr w) (snapshotdb_ptr w) (snapshot_deleted_set w)
  (inswitch_snapshot w) (is_snapshot w) (latest_sp_ptr w) x (disk w).
Definition set_disk x w := mkWrapper (methodid w) (workerid w) (maxseq w)
  (db_ptr w) (deleted_set w) (snapshotid w) (sp_ptr w) (snapshotdb_ptr w) (snapshot_deleted_set w)
  (inswitch_snapshot w) (is_snapshot w) (latest_sp_ptr w) (latest_snapshot_deleted_set w) x.

(** [db_ptr->...]. *)
Definition the_db : rw DB := fun w =>
  match db_ptr w with Some db => Ok (db, w) | None => Err NullDeref end.

(** ** Construction *)

(** [RocksdbWrapper::RocksdbWrapper()]; [maxseq] and [workerid] are not
    initialised, [junk_seq] and [junk_id] stand for what memory held. *)
Definition Wrapper_new (junk_id junk_seq : Z) (d : Disk) : Wrapper :=
  mkWrapper INVALID_ID junk_id junk_seq None DeletedSet_default (-1) None None
    DeletedSet_default [] false None DeletedSet_default d.

(** [RocksdbWrapper::init]. *)
Definition init (curmethodid : Z) : rw unit := fun w =>
  _ ← INVARIANT (negb (curmethodid =? INVALID_ID));
  Ok (tt, mkWrapper curmethodid (workerid w) (maxseq w) None (deleted_set w) (-1) None None
        (snapshot_deleted_set w) (inswitch_snapshot w) (is_snapshot w) None
        (latest_snapshot_deleted_set w) (disk w)).

(** [RocksdbWrapper::method_needseq] and [method_needsnapshot]. *)
Definition method_needseq : rw bool :=
  m ← gets methodid;
  _ ← inv (negb (m =? INVALID_ID));
  mret ((m =? NETCACHE_ID) || (m =? DISTCACHE_ID) || (m =? FARREACH_ID) || (m =? DISTFARREACH_ID) ||
        (m =? NOCACHE_ID) || (m =? DISTNOCACHE_ID)).

Definition method_needsnapshot : rw bool :=
  m ← gets methodid;
  _ ← inv (negb (m =? INVALID_ID));
  mret ((m =? FARREACH_ID) || (m =? DISTFARREACH_ID)).

Definition is_nil {A} (l : list A) : bool := match l with [] => true | _ => false end.

(** ** Loading phase *)

(** [RocksdbWrapper::force_put]. *)
Definition force_put (key : Key) (val : Val) : rw bool :=
  valstr ← lift (Val_to_string val 0);
  db ← the_db;
  let keystr := to_string_for_rocksdb key in
  let '(s, db') := db_Put db keystr valstr in
  _ ← modify (set_db db');
  _ ← inv (st_ok s);
  mret true.

(** The loop of [RocksdbWrapper::force_multiput]: only the last status is
    kept. *)
Fixpoint force_multiput_loop (kvs : list (Key * Val)) (s : status) : rw status :=
  match kvs with
  | [] => mret s
  | (key, val) :: kvs' =>
      valstr ← lift (Val_to_string val 0);
      db ← the_db;
      let '(s, db') := db_Put db (to_string_for_rocksdb key) valstr in
      _ ← modify (set_db db');
      force_multiput_loop kvs' s
  end.

(** [RocksdbWrapper::force_multiput]; a default [rocksdb::Status] is OK. *)
Definition force_multiput (kvs : list (Key * Val)) : rw bool :=
  s ← force_multiput_loop kvs StOk;
  _ ← inv (st_ok s);
  mret true.

(** ** Transaction phase *)

(** [RocksdbWrapper::get]: the result, the new contents of [val] and of
    [*seqptr]. *)
Definition get (key : Key) (val : Val) (seq0 : Z) : rw (bool * Val * Z) :=
  db ← the_db;
  let '(s, valstr) := db_Get db (to_string_for_rocksdb key) in
  needseq ← method_needseq;
  if (needseq : bool) then
    if negb (is_nil valstr) then
      '(val', tmpseq) ← lift (Val_from_string valstr);
      _ ← inv (st_ok s);
      mret (true, val', tmpseq)
    else
      ds ← gets deleted_set;
      let '(_, deleted, ds') := ds_check_and_remove ds key 0 in
      _ ← modify (set_deleted_set ds');
      let deleted_seq := default 0 deleted in
      mret (false, val, if 0 <? deleted_seq then deleted_seq else 0)
  else
    if negb (is_nil valstr) then
      _ ← inv (st_ok s);
      mret (true, Val_from_string_noseq valstr, seq0)
    else mret (false, val, seq0).

(** [if (seq > maxseq) maxseq = seq]. *)
Definition bump_maxseq (seq : Z) : rw unit :=
  m ← gets maxseq;
  if m <? seq then modify (set_maxseq seq) else mret tt.

(** The test of the deleted set at the head of [put] and [remove]: whether
    the request is older than a deletion. *)
Definition check_deleted (key : Key) (seq : Z) : rw bool :=
  needsnapshot ← method_needsnapshot;
  if (needsnapshot : bool) then
    ds ← gets deleted_set;
    let '(is_deleted, deleted, ds') := ds_check_and_remove ds key seq in
    _ ← modify (set_deleted_set ds');
    mret (is_deleted && (seq <? default 0 deleted))
  else mret false.

(** The test of the stored version: whether it is newer than [seq]. *)
Definition check_stored (keystr : bytes) (seq : Z) (checkseq : bool) : rw bool :=
  needseq ← method_needseq;
  if needseq && checkseq then
    db ← the_db;
    let '(s, tmp_valstr) := db_Get db keystr in
    tmp_seq ← (if negb (is_nil tmp_valstr) then
                 '(_, x) ← lift (Val_from_string tmp_valstr); mret x
               else mret 0);
    if seq <? tmp_seq then _ ← inv (st_ok s); mret true else mret false
  else mret false.

(** [RocksdbWrapper::put]. *)
Definition put (key : Key) (val : Val) (seq : Z) (checkseq : bool) : rw bool :=
  _ ← bump_maxseq seq;
  deleted ← check_deleted key seq;
  if (deleted : bool) then mret false
  else
    needseq ← method_needseq;
    valstr ← lift (if (needseq : bool) then Val_to_string val seq else Val_to_string_noseq val);
    let keystr := to_string_for_rocksdb key in
    newer ← check_stored keystr seq checkseq;
    if (newer : bool) then mret true
    else
      db ← the_db;
      let '(s, db') := db_Put db keystr valstr in
      _ ← modify (set_db db');
      _ ← inv (st_ok s);
      mret true.

(** [RocksdbWrapper::remove]. *)
Definition remove (key : Key) (seq : Z) (checkseq : bool) : rw bool :=
  _ ← bump_maxseq seq;
  deleted ← check_deleted key seq;
  if (deleted : bool) then mret false
  else
    let keystr := to_string_for_rocksdb key in
    newer ← check_stored keystr seq checkseq;
    if (newer : bool) then mret true
    else
      db ← the_db;
      let '(s, db') := db_Delete db keystr in
      _ ← modify (set_db db');
      _ ← inv (st_ok s);
      needsnapshot ← method_needsnapshot;
      _ ← (if (needsnapshot : bool) then
             ds ← gets deleted_set;
             ds' ← lift (ds_add ds key seq);
             modify (set_deleted_set ds')
           else mret tt);
      mret true.

(** ** Range queries *)

(** The copy loops of [merge_sort]: with [need_exist] only existing records. *)
Definition ms_keep (need_exist : bool) (p : Key * SnapshotRecord) : bool :=
  negb need_exist || sr_stat p.2.

(** The main loop of [RocksdbWrapper::merge_sort] and the copy of what
    remains, from the two index positions on. *)
Fixpoint merge_loop (need_exist : bool) (veca : list (Key * SnapshotRecord))
    : list (Key * SnapshotRecord) -> res (list (Key * SnapshotRecord)) :=
  fix merge_b (vecb : list (Key * SnapshotRecord)) :=
    match veca, vecb with
    | [], _ => Ok (List.filter (ms_keep need_exist) vecb)
    | _, [] => Ok (List.filter (ms_keep need_exist) veca)
    | a :: veca', b :: vecb' =>
        if key_lt a.1 b.1 then
          rs ← merge_loop need_exist veca' vecb;
          Ok (if ms_keep need_exist a then a :: rs else rs)
        else if key_gt a.1 b.1 then
          rs ← merge_b vecb';
          Ok (if ms_keep need_exist b then b :: rs else rs)
        else
          _ ← INVARIANT need_exist;
          let c := if sr_seq b.2 <=? sr_seq a.2 then a else b in
          rs ← merge_loop need_exist veca' vecb';
          Ok (if ms_keep need_exist c then c :: rs else rs)
    end.

(** [RocksdbWrapper::merge_sort], called with an empty [results]. *)
Definition merge_sort (veca vecb : list (Key * SnapshotRecord)) (need_exist : bool)
    : rw (list (Key * SnapshotRecord)) :=
  needsnapshot ← method_needsnapshot;
  _ ← inv needsnapshot;
  lift (match veca, vecb with
        | [], _ => if negb need_exist then Ok vecb else Ok (List.filter (fun p => sr_stat p.2) vecb)
        | _, [] => if negb need_exist then Ok veca else Ok (List.filter (fun p => sr_stat p.2) veca)
        | _, _ => merge_loop need_exist veca vecb
        end).

(** The loop over the database iterator in [range_scan]. *)
Fixpoint scan_db_loop (iter : list (bytes * bytes)) (scanrecordidx scanrecordcnt : Z)
    : res (list (Key * SnapshotRecord)) :=
  match iter with
  | [] => Ok []
  | (tmpkeystr, tmpvalstr) :: iter' =>
      tmpkey ← from_string_for_rocksdb tmpkeystr;
      if scanrecordcnt <=? scanrecordidx then Ok []
      else
        _ ← INVARIANT (negb (is_nil tmpvalstr));
        '(tmpval, tmpseq) ← Val_from_string tmpvalstr;
        rs ← scan_db_loop iter' (scanrecordidx + 1) scanrecordcnt;
        Ok ((tmpkey, mkSnapshotRecord tmpval tmpseq true) :: rs)
  end.

(** The choice of the iterator in [range_scan]. *)
Definition scan_iter (needsnapshot : bool) (startkeystr : bytes) : rw (list (bytes * bytes)) :=
  if needsnapshot then
    sp ← gets sp_ptr;
    sdb ← gets snapshotdb_ptr;
    match (sp : option Snap), (sdb : option DB) with
    | Some sp, _ =>
        db ← the_db;
        lift (match db_IterAt db sp startkeystr with Some l => Ok l | None => Err NullDeref end)
    | None, Some sdb => mret (db_Iter sdb startkeystr)
    | None, None => lift (Err InvariantFailed)
    end
  else db ← the_db; mret (db_Iter db startkeystr).

(** [RocksdbWrapper::range_scan]. *)
Definition range_scan (startkey endkey : Key) : rw (list (Key * SnapshotRecord)) :=
  needsnapshot ← method_needsnapshot;
  iter ← scan_iter needsnapshot (to_string_for_rocksdb startkey);
  scanrecordcnt ← lift (get_scanrecordcnt startkey endkey);
  db_results ← lift (scan_db_loop iter 0 scanrecordcnt);
  results ← (if (needsnapshot : bool) then
      sds ← gets snapshot_deleted_set;
      deleted_results ← lift (ds_range_scan sds startkey endkey);
      inswitch ← gets inswitch_snapshot;
      let inswitch_results := take (Z.to_nat scanrecordcnt) (m_lower_bound startkey inswitch) in
      serverside_results ← merge_sort db_results deleted_results false;
      merge_sort serverside_results inswitch_results true
    else mret db_results);
  mret (if scanrecordcnt <? Z.of_nat (length results)
        then take (Z.to_nat scanrecordcnt) results else results).

(** ** Files *)

Definition write_file (p : fpath) (c : bytes) : rw unit :=
  modify (fun w => set_disk (disk_write p c (disk w)) w).
Definition remove_file (p : fpath) : rw unit :=
  modify (fun w => set_disk (rmfiles p (disk w)) w).

(** [fopen] of a missing file gives a null pointer to [fread]. *)
Definition read_file (p : fpath) : rw bytes := fun w =>
  match disk w p with Some c => Ok (c, w) | None => Err NullDeref end.

(** The first [n] bytes of a file as an unsigned number. *)
Definition read_uint (n : nat) (p : fpath) : rw Z :=
  c ← read_file p;
  if (length c <? n)%nat then lift (Err OutOfBounds) else mret (le_val (take n c)).

Definition store_snapshotid (x : Z) (p : fpath) : rw unit := write_file p (le_bytes 4 x).
Definition load_snapshotid (p : fpath) : rw Z := x ← read_uint 4 p; mret (s32 x).
Definition store_snapshotdbseq (x : Z) (p : fpath) : rw unit := write_file p (le_bytes 8 x).
Definition load_snapshotdbseq (p : fpath) : rw Z := read_uint 8 p.
Definition store_maxseq (x : Z) (p : fpath) : rw unit := write_file p (le_bytes 4 x).
Definition load_maxseq (p : fpath) : rw Z := read_uint 4 p.

(** [deleted_set.store(path)] and [deleted_set.load(path)]. *)
Definition store_deletedset (ds : DeletedSet) (p : fpath) : rw unit :=
  c ← lift (ds_store ds); write_file p c.
Definition load_deletedset (ds : DeletedSet) (p : fpath) : rw DeletedSet :=
  c ← read_file p; lift (ds_load ds c).

(** The record loop of [store_inswitch_snapshot]. *)
Fixpoint store_inswitch_loop (rs : list (Key * SnapshotRecord)) : writer unit :=
  match rs with
  | [] => mret tt
  | (k, r) :: rs' =>
      tmpbuflen ← w_off;
      _ ← Key_serialize k (u32 (MAX_LARGE_BUFSIZE - tmpbuflen));
      tmpbuflen ← w_off;
      _ ← Val_serialize (sr_val r) (u32 (MAX_LARGE_BUFSIZE - tmpbuflen));
      _ ← w_u32 (sr_seq r);
      _ ← w_bool (sr_stat r);
      store_inswitch_loop rs'
  end.

Definition store_inswitch_writer (rs : list (Key * SnapshotRecord)) : writer Z :=
  _ ← w_put (le_bytes 4 (m_size rs));
  _ ← store_inswitch_loop rs;
  w_off.

(** [RocksdbWrapper::store_inswitch_snapshot]. *)
Definition store_inswitch_snapshot (tmpsnapshotid : Z) : rw unit :=
  needsnapshot ← method_needsnapshot;
  _ ← inv needsnapshot;
  rs ← gets inswitch_snapshot;
  '(tmpbuflen, tmpbuf) ← lift (run_writer (store_inswitch_writer rs)
                                 (replicate (Z.to_nat MAX_LARGE_BUFSIZE) 0));
  wid ← gets workerid;
  write_file (inswitchsnapshot_path wid (u32 tmpsnapshotid)) (take (Z.to_nat tmpbuflen) tmpbuf).

(** The record loop of [load_inswitch_snapshot]. *)
Fixpoint load_inswitch_loop (n : nat) (tmpfilesize : Z) (m : list (Key * SnapshotRecord))
    : reader (list (Key * SnapshotRecord)) :=
  match n with
  | O => mret m
  | S n' =>
      tmpbuflen ← r_off;
      tmpkey ← Key_deserialize (u32 (tmpfilesize - tmpbuflen));
      tmpbuflen ← r_off;
      tmpval ← Val_deserialize (u32 (tmpfilesize - tmpbuflen));
      tmpseq ← r_u32;
      tmpstat ← r_bool;
      load_inswitch_loop n' tmpfilesize
        (m_insert tmpkey (mkSnapshotRecord tmpval tmpseq tmpstat) m)
  end.

Definition load_inswitch_reader (tmpfilesize : Z) : reader (list (Key * SnapshotRecord)) :=
  tmprecordcnt ← r_u32;
  load_inswitch_loop (Z.to_nat (s32 tmprecordcnt)) tmpfilesize [].

(** [RocksdbWrapper::load_inswitch_snapshot]. *)
Definition load_inswitch_snapshot (tmpsnapshotid : Z) : rw unit :=
  needsnapshot ← method_needsnapshot;
  _ ← inv needsnapshot;
  wid ← gets workerid;
  d ← gets disk;
  match (d : Disk) (inswitchsnapshot_path wid (u32 tmpsnapshotid)) with
  | None => mret tt
  | Some c =>
      m ← lift (run_reader (load_inswitch_reader (u32 (Z.of_nat (length c)))) c);
      modify (set_inswitch_snapshot m)
  end.

(** [RocksdbWrapper::create_snapshotdb_checkpoint]: the copy is of the
    current database; the sequence number only receives a value. *)
Definition create_snapshotdb_checkpoint (snapshotdbseq : Z) : rw unit :=
  needsnapshot ← method_needsnapshot;
  _ ← inv needsnapshot;
  db ← the_db;
  modify (set_snapshotdb (Some (db_Checkpoint db))).

(** [db_ptr->ReleaseSnapshot(sp)] when [sp] is not null. *)
Definition release (sp : option Snap) : rw unit :=
  match sp with
  | None => mret tt
  | Some s => db ← the_db; modify (set_db (db_ReleaseSnapshot db s))
  end.

(** [RocksdbWrapper::load_serverside_snapshot_files]. *)
Definition load_serverside_snapshot_files (tmpsnapshotid : Z) : rw unit :=
  needsnapshot ← method_needsnapshot;
  _ ← inv needsnapshot;
  wid ← gets workerid;
  d ← gets disk;
  let id := u32 tmpsnapshotid in
  _ ← inv (isexist (snapshotdbseq_path wid id) d);
  snapshotdbseq ← load_snapshotdbseq (snapshotdbseq_path wid id);
  _ ← create_snapshotdb_checkpoint snapshotdbseq;
  sp ← gets sp_ptr;
  _ ← release sp;
  _ ← modify (set_sp_ptr None);
  _ ← inv (isexist (snapshotdeletedset_path wid id) d);
  sds ← gets snapshot_deleted_set;
  sds' ← load_deletedset sds (snapshotdeletedset_path wid id);
  _ ← modify (set_snapshot_deleted_set sds');
  m ← load_maxseq (snapshotmaxseq_path wid id);
  modify (set_maxseq m).

(** [RocksdbWrapper::load_snapshot_files]. *)
Definition load_snapshot_files (tmpsnapshotid : Z) : rw unit :=
  needsnapshot ← method_needsnapshot;
  _ ← inv needsnapshot;
  _ ← load_serverside_snapshot_files tmpsnapshotid;
  load_inswitch_snapshot tmpsnapshotid.

(** [RocksdbWrapper::remove_snapshot_files]. *)
Definition remove_snapshot_files (tmpsnapshotid : Z) : rw unit :=
  needsnapshot ← method_needsnapshot;
  _ ← inv needsnapshot;
  wid ← gets workerid;
  let id := u32 tmpsnapshotid in
  _ ← remove_file (snapshotdbseq_path wid id);
  _ ← remove_file (snapshotdeletedset_path wid id);
  _ ← remove_file (snapshotmaxseq_path wid id);
  remove_file (inswitchsnapshot_path wid id).

(** [RocksdbWrapper::flush_latestmaxseq]. *)
Definition flush_latestmaxseq : rw unit :=
  wid ← gets workerid;
  m ← gets maxseq;
  store_maxseq m (latestmaxseq_path wid).

(** ** Opening and closing *)

(** [RocksdbWrapper::open]: [is_runtime_existing] is whether the database
    directory exists, [opened] what [DB::Open] returns. *)
Definition open (tmpworkerid : Z) (is_runtime_existing : bool) (opened : option DB) : rw bool :=
  _ ← modify (set_workerid tmpworkerid);
  _ ← match opened with
      | None => lift (Err ExitCalled)
      | Some db => modify (set_db db)
      end;
  needsnapshot ← method_needsnapshot;
  d ← gets disk;
  _ ← (if (needsnapshot : bool) then
      ds ← gets deleted_set;
      ds' ← (if is_runtime_existing && isexist (deletedset_path tmpworkerid) d
             then load_deletedset ds (deletedset_path tmpworkerid)
             else mret (ds_clear ds));
      _ ← modify (set_deleted_set ds');
      let is_snapshot_existing := isexist (snapshotid_path tmpworkerid) d in
      id ← (if is_snapshot_existing then
              id ← load_snapshotid (snapshotid_path tmpworkerid);
              _ ← inv (0 <=? id); mret id
            else mret (-1));
      _ ← modify (set_snapshotid id);
      if is_snapshot_existing then
        _ ← load_snapshot_files id;
        modify (set_latest_sp_ptr None)
      else
        modify (fun w => set_latest_snapshot_deleted_set (ds_clear (latest_snapshot_deleted_set w))
          (set_latest_sp_ptr None (set_sp_ptr None (set_inswitch_snapshot []
            (set_snapshot_deleted_set (ds_clear (snapshot_deleted_set w)) (set_snapshotdb None w))))))
    else mret tt);
  _ ← (if isexist (latestmaxseq_path tmpworkerid) d then
         tmpmaxseq ← load_maxseq (latestmaxseq_path tmpworkerid);
         bump_maxseq tmpmaxseq
       else mret tt);
  mret is_runtime_existing.

(** [RocksdbWrapper::~RocksdbWrapper]. *)
Definition Wrapper_destroy : rw unit :=
  _ ← flush_latestmaxseq;
  needsnapshot ← method_needsnapshot;
  db ← gets db_ptr;
  _ ← match (db : option DB) with
      | None => mret tt
      | Some _ =>
          _ ← (if (needsnapshot : bool) then
                 sp ← gets sp_ptr; _ ← release sp; _ ← modify (set_sp_ptr None);
                 lsp ← gets latest_sp_ptr; _ ← release lsp; modify (set_latest_sp_ptr None)
               else mret tt);
          modify (fun w => mkWrapper (methodid w) (workerid w) (maxseq w) None (deleted_set w)
            (snapshotid w) (sp_ptr w) (snapshotdb_ptr w) (snapshot_deleted_set w)
            (inswitch_snapshot w) (is_snapshot w) (latest_sp_ptr w)
            (latest_snapshot_deleted_set w) (disk w))
      end;
  if (needsnapshot : bool) then
    wid ← gets workerid;
    ds ← gets deleted_set;
    _ ← remove_file (deletedset_path wid);
    _ ← store_deletedset ds (deletedset_path wid);
    modify (set_snapshotdb None)
  else mret tt.

(** ** Snapshots *)

(** [RocksdbWrapper::get_snapshotid]. *)
Definition get_snapshotid : rw Z :=
  needsnapshot ← method_needsnapshot;
  _ ← inv needsnapshot;
  gets snapshotid.

(** [RocksdbWrapper::init_snapshot]. *)
Definition init_snapshot : rw unit :=
  needsnapshot ← method_needsnapshot;
  _ ← inv needsnapshot;
  id ← gets snapshotid;
  if negb (id =? -1) then mret tt
  else
    busy ← gets is_snapshot;
    if (busy : bool) then mret tt
    else
      _ ← modify (set_is_snapshot true);
      sp ← gets sp_ptr;
      _ ← release sp;
      db ← the_db;
      let '(s, db') := db_GetSnapshot db in
      _ ← modify (set_db db');
      _ ← modify (set_sp_ptr (Some s));
      sdb ← gets snapshotdb_ptr;
      _ ← inv (match (sdb : option DB) with None => true | Some _ => false end);
      sds ← gets snapshot_deleted_set;
      _ ← inv (ds_size sds =? 0);
      ins ← gets inswitch_snapshot;
      _ ← inv (m_size ins =? 0);
      lsp ← gets latest_sp_ptr;
      _ ← inv (match (lsp : option Snap) with None => true | Some _ => false end);
      lds ← gets latest_snapshot_deleted_set;
      _ ← inv (ds_size lds =? 0);
      _ ← modify (set_snapshotid (id + 1));
      _ ← inv (id + 1 =? 0);
      wid ← gets workerid;
      let uid := u32 (id + 1) in
      _ ← store_snapshotdbseq (db_GetSequenceNumber s) (snapshotdbseq_path wid uid);
      _ ← store_deletedset sds (snapshotdeletedset_path wid uid);
      m ← gets maxseq;
      _ ← store_maxseq m (snapshotmaxseq_path wid uid);
      _ ← store_inswitch_snapshot (id + 1);
      modify (set_is_snapshot false).

(** [RocksdbWrapper::clean_snapshot]. *)
Definition clean_snapshot (tmpsnapshotid : Z) : rw unit :=
  needsnapshot ← method_needsnapshot;
  _ ← inv needsnapshot;
  id0 ← gets snapshotid;
  _ ← (if id0 =? -1 then init_snapshot else mret tt);
  id ← gets snapshotid;
  _ ← inv ((tmpsnapshotid =? id) || (tmpsnapshotid =? id + 1));
  _ ← remove_snapshot_files tmpsnapshotid;
  lsp ← gets latest_sp_ptr;
  _ ← release lsp;
  _ ← modify (set_latest_sp_ptr None);
  _ ← modify (fun w => set_latest_snapshot_deleted_set (ds_clear (latest_snapshot_deleted_set w)) w);
  if tmpsnapshotid =? id then
    sp ← gets sp_ptr;
    _ ← release sp;
    _ ← modify (set_sp_ptr None);
    _ ← modify (fun w => set_inswitch_snapshot []
                  (set_snapshot_deleted_set (ds_clear (snapshot_deleted_set w)) w));
    _ ← load_snapshot_files (id - 1);
    modify (set_snapshotid (id - 1))
  else mret tt.

(** [RocksdbWrapper::make_snapshot]; the flag stays set until
    [stop_snapshot]. *)
Definition make_snapshot (tmpsnapshotid : Z) : rw bool :=
  needsnapshot ← method_needsnapshot;
  _ ← inv needsnapshot;
  _ ← inv (0 <=? tmpsnapshotid);
  id ← gets snapshotid;
  if id =? -1 then mret false
  else
    busy ← gets is_snapshot;
    if (busy : bool) then mret false
    else
      _ ← modify (set_is_snapshot true);
      lsp ← gets latest_sp_ptr;
      _ ← release lsp;
      db ← the_db;
      let '(s, db') := db_GetSnapshot db in
      _ ← modify (set_db db');
      _ ← modify (set_latest_sp_ptr (Some s));
      _ ← modify (fun w => set_latest_snapshot_deleted_set
                    (ds_assign (latest_snapshot_deleted_set w) (deleted_set w)) w);
      snapshotmaxseq ← gets maxseq;
      wid ← gets workerid;
      let uid := u32 (id + 1) in
      _ ← store_snapshotdbseq (db_GetSequenceNumber s) (snapshotdbseq_path wid uid);
      sds ← gets snapshot_deleted_set;
      _ ← store_deletedset sds (snapshotdeletedset_path wid uid);
      _ ← store_maxseq snapshotmaxseq (snapshotmaxseq_path wid uid);
      mret true.

(** [RocksdbWrapper::update_snapshot]. *)
Definition update_snapshot (tmp_inswitch_snapshot : list (Key * SnapshotRecord))
    (tmpsnapshotid : Z) : rw unit :=
  needsnapshot ← method_needsnapshot;
  _ ← inv needsnapshot;
  id ← gets snapshotid;
  _ ← inv (tmpsnapshotid =? id + 1);
  sp ← gets sp_ptr;
  _ ← release sp;
  _ ← modify (set_sp_ptr None);
  _ ← modify (fun w => set_inswitch_snapshot []
                (set_snapshot_deleted_set (ds_clear (snapshot_deleted_set w)) w));
  lsp ← gets latest_sp_ptr;
  _ ← match (lsp : option Snap) with
      | Some _ => modify (fun w => set_snapshot_deleted_set
                    (ds_assign (snapshot_deleted_set w) (latest_snapshot_deleted_set w))
                    (set_sp_ptr lsp w))
      | None => load_serverside_snapshot_files (id + 1)
      end;
  _ ← modify (set_latest_sp_ptr None);
  _ ← modify (fun w => set_latest_snapshot_deleted_set (ds_clear (latest_snapshot_deleted_set w)) w);
  _ ← modify (set_inswitch_snapshot tmp_inswitch_snapshot);
  _ ← modify (set_snapshotid (id + 1));
  _ ← store_inswitch_snapshot (id + 1);
  wid ← gets workerid;
  _ ← store_snapshotid (id + 1) (snapshotid_path wid);
  if 2 <=? id + 1 then remove_snapshot_files (id + 1 - 2) else mret tt.

(** [RocksdbWrapper::stop_snapshot]. *)
Definition stop_snapshot : rw unit :=
  needsnapshot ← method_needsnapshot;
  _ ← inv needsnapshot;
  modify (set_is_snapshot false).
End RocksdbWrapper.

Arguments Wrapper : clear implicits.
Arguments rw : clear implicits.
