(* ===== verification/RocksdbProps.v ===== *)
(** * What the server-side store promises

    The abstract state of a server is a version per key: a value or nothing,
    and the sequence number of the last accepted write or deletion.  [wrapper_ok]
    is the invariant of [Wrapper]; the theorems show that [get], [put] and
    [remove] implement reads and last-writer-wins updates of that state, and what runs
    of them do ([client_step], [store_writes]). *)

From Stdlib Require Import ZArith Lia List Permutation.
From stdpp Require Import base tactics list numbers option relations.
From S2P Require Import Prelude Cursor StdMap DynamicArray Crc32 Key Val DeletedSet KVStore RocksdbWrapper.

Open Scope Z_scope.

Ltac rw_simpl :=
  cbv beta iota delta [mbind rw_bind mret rw_ret gets modify lift inv];
  cbn [methodid workerid maxseq db_ptr deleted_set snapshotid sp_ptr snapshotdb_ptr
       snapshot_deleted_set inswitch_snapshot is_snapshot latest_sp_ptr
       latest_snapshot_deleted_set disk set_workerid set_maxseq set_db set_deleted_set
       set_snapshotid set_sp_ptr set_snapshotdb set_snapshot_deleted_set set_inswitch_snapshot
       set_is_snapshot set_latest_sp_ptr set_latest_snapshot_deleted_set set_disk fst snd].

Section Props.
Context {DB Snap : Type} `{Hkv : KVStore DB Snap}.
Context {Hlaws : KVStoreLaws DB Snap} {Havail : KVStoreAvailable DB Snap}.
Implicit Types (w : Wrapper DB Snap) (db : DB) (k : Key).

Abbreviation ks := to_string_for_rocksdb.

(** The bytes stored for a value and its sequence number. *)
Definition enc (v : Val) (s : Z) : bytes := default [] (val_data v) ++ le_bytes 4 s.

Lemma enc_not_nil v s : is_nil (enc v s) = false.
Proof.
  unfold enc. destruct (default [] (val_data v)); [|reflexivity].
  cbn [app]. pose proof (length_le_bytes 4 s) as Hl. now destruct (le_bytes 4 s).
Qed.

(** The version a server holds for a key: database first, then deletions. *)
Definition version_of (db : DB) (ds : DeletedSet) (k : Key) : option Val * Z :=
  match db_Get db (ks k) with
  | (StOk, str) => match Val_from_string str with
                   | Ok (v, s) => (Some v, s)
                   | Err _ => (None, 0)
                   end
  | _ => (None, default 0 (tomb ds k))
  end.

Definition version (w : Wrapper DB Snap) (k : Key) : option Val * Z :=
  match db_ptr w with
  | Some db => version_of db (deleted_set w) k
  | None => (None, 0)
  end.

(** The invariant: the database holds encoded values under encoded keys, no key is both stored
    and recorded as deleted, the deleted set is consistent, [maxseq] bounds
    every sequence number. *)
Record store_ok (db : DB) (ds : DeletedSet) (bound : Z) : Prop := {
  so_enc : forall k str, key_wf k -> db_Get db (ks k) = (StOk, str) ->
    exists v s, val_wf v /\ is_u32 s /\ s <= bound /\ str = enc v s /\ tomb ds k = None;
  so_keys : forall str v, db_Get db str = (StOk, v) -> exists k, key_wf k /\ str = ks k;
  so_ds : ds_wf ds;
  so_tomb : forall k s, tomb ds k = Some s -> is_u32 s /\ s <= bound
}.

Record wrapper_ok (w : Wrapper DB Snap) : Prop := {
  wo_method : methodid w = FARREACH_ID \/ methodid w = DISTFARREACH_ID;
  wo_store : exists db, db_ptr w = Some db /\ store_ok db (deleted_set w) (maxseq w)
}.

(** Last-writer-wins: an update with an older sequence number is dropped. *)
Definition lww (old : option Val * Z) (new : option Val) (seq : Z) : option Val * Z :=
  if seq <? old.2 then old else (new, seq).

Lemma needseq_ok w : wrapper_ok w -> method_needseq w = Ok (true, w).
Proof. intros [[E|E] _]; unfold method_needseq; rw_simpl; rewrite E; reflexivity. Qed.

Lemma needsnapshot_ok w : wrapper_ok w -> method_needsnapshot w = Ok (true, w).
Proof. intros [[E|E] _]; unfold method_needsnapshot; rw_simpl; rewrite E; reflexivity. Qed.

Lemma ks_inj k k' : key_wf k -> key_wf k' -> ks k = ks k' -> k = k'.
Proof.
  intros Hk Hk' E. pose proof (from_to_string k Hk) as H1. rewrite E, from_to_string in H1 by assumption.
  congruence.
Qed.

Lemma ks_ne k k' : key_wf k -> key_wf k' -> k' <> k -> ks k <> ks k'.
Proof. intros Hk Hk' Hne E. apply ks_inj in E; congruence. Qed.

(** Reading the database: absent, or an encoded value. *)
Lemma db_Get_cases db ds b k :
  store_ok db ds b -> key_wf k ->
  (db_Get db (ks k) = (StNotFound, []) /\ version_of db ds k = (None, default 0 (tomb ds k))) \/
  (exists v s, val_wf v /\ is_u32 s /\ s <= b /\ db_Get db (ks k) = (StOk, enc v s) /\
     tomb ds k = None /\ version_of db ds k = (Some v, s)).
Proof.
  intros Hs Hk. unfold version_of. destruct (get_status db (ks k)) as [E|E].
  - right. destruct (db_Get db (ks k)) as [st str] eqn:G; cbn in E; subst st.
    destruct (so_enc _ _ _ Hs k str Hk G) as (v & s & Hv & Hu & Hb & -> & Ht).
    exists v, s. unfold enc. rewrite Val_from_to_string by assumption. auto 6.
  - left. rewrite E. auto.
Qed.

(** ** Reads *)

Lemma get_run w k val seq0 :
  wrapper_ok w -> key_wf k ->
  exists w', get k val seq0 w =
    Ok (match version w k with
        | (Some v, s) => (true, v, s) | (None, s) => (false, val, s) end, w') /\
    w' = set_deleted_set (deleted_set w') w /\ ds_wf (deleted_set w') /\
    (forall k', tomb (deleted_set w') k' = tomb (deleted_set w) k' \/
                (tomb (deleted_set w) k' = Some 0 /\ tomb (deleted_set w') k' = None)).
Proof.
  intros Hw Hk. destruct (wo_store w Hw) as (db & Edb & Hs).
  unfold get, the_db, version. rw_simpl. rewrite Edb.
  destruct (db_Get_cases db _ _ k Hs Hk) as [[-> ->]|(v & s & Hv & Hu & Hb & -> & Ht & ->)].
  - rewrite needseq_ok by assumption. cbn [is_nil negb].
    destruct (ds_check_and_remove_res (deleted_set w) k 0 (da_key _ _ (proj1 (so_ds _ _ _ Hs))))
      as (b & ds' & E & _ & Hb & Ht).
    pose proof (ds_check_and_remove_wf (deleted_set w) k 0 (so_ds _ _ _ Hs)) as Hwf.
    rewrite E in *. rw_simpl.
    assert (Ed : (if 0 <? default 0 (tomb (deleted_set w) k) then default 0 (tomb (deleted_set w) k)
                  else 0) = default 0 (tomb (deleted_set w) k)).
    { destruct (tomb (deleted_set w) k) as [s|] eqn:Es; [|reflexivity]. cbn.
      pose proof (so_tomb _ _ _ Hs k s Es) as [Hu _]. unfold is_u32 in Hu.
      destruct (Z.ltb_spec 0 s); [reflexivity|lia]. }
    rewrite Ed. eexists; split; [reflexivity|]. rw_simpl. split; [reflexivity|]. split; [exact Hwf|].
    intros k'. rewrite Ht. case_decide as Ek; [subst k'|auto].
    destruct b; [auto|]. destruct (tomb (deleted_set w) k) as [s|] eqn:Es; [|auto].
    right. split; [|reflexivity]. f_equal.
    pose proof (so_tomb _ _ _ Hs k s Es) as [Hu _]. unfold is_u32 in Hu.
    destruct (Z.ltb_spec 0 s); [|lia]. exfalso.
    destruct Hb as [_ Hb]. discriminate Hb. eauto.
  - rewrite needseq_ok by assumption. rewrite enc_not_nil. cbn [negb].
    unfold enc. rewrite Val_from_to_string by assumption. cbn [st_ok INVARIANT].
    eexists; split; [reflexivity|]. split; [now destruct w|]. split; [apply Hs|auto].
Qed.

(** ** Writes *)

Lemma bump_run w seq : bump_maxseq seq w = Ok (tt, set_maxseq (Z.max (maxseq w) seq) w).
Proof.
  unfold bump_maxseq. rw_simpl. destruct (Z.ltb_spec (maxseq w) seq).
  - rw_simpl. now rewrite Z.max_r by lia.
  - rw_simpl. rewrite Z.max_l by lia. now destruct w.
Qed.

(** The set after a write of [k] that was not refused. *)
Definition forgets (ds : DeletedSet) (k : Key) (ds' : DeletedSet) : Prop :=
  ds_wf ds' /\ max_size ds' = max_size ds /\ ds_size ds' <= ds_size ds /\
  forall k', tomb ds' k' = if decide (k' = k) then None else tomb ds k'.

Lemma ds_check_size ds k s : ds_size (ds_check_and_remove ds k s).2 <= ds_size ds.
Proof.
  unfold ds_check_and_remove. repeat case_match; cbn [snd]; try lia.
  unfold ds_size, m_size; cbn [records_sorted_bykey]. rewrite m_erase_length. case_match; lia.
Qed.

Lemma check_deleted_run w k seq :
  (methodid w = FARREACH_ID \/ methodid w = DISTFARREACH_ID) -> ds_wf (deleted_set w) ->
  (exists old, tomb (deleted_set w) k = Some old /\ seq < old /\
     check_deleted k seq w = Ok (true, w)) \/
  ((forall old, tomb (deleted_set w) k = Some old -> old <= seq) /\
   exists ds', forgets (deleted_set w) k ds' /\
     check_deleted k seq w = Ok (false, set_deleted_set ds' w)).
Proof.
  intros Hm Hds. unfold check_deleted, method_needsnapshot. rw_simpl.
  assert (E1 : negb (methodid w =? INVALID_ID) = true) by (destruct Hm as [-> | ->]; reflexivity).
  assert (E2 : (methodid w =? FARREACH_ID) || (methodid w =? DISTFARREACH_ID) = true)
    by (destruct Hm as [-> | ->]; reflexivity).
  rewrite E1, E2. cbn [INVARIANT].
  pose proof (ds_check_and_remove_wf (deleted_set w) k seq Hds) as Hwf.
  pose proof (ds_check_size (deleted_set w) k seq) as Hsz.
  destruct (ds_check_and_remove_res (deleted_set w) k seq (da_key _ _ (proj1 Hds)))
    as (b & ds' & E & Hmx & Hb & Ht).
  unfold ds_check_and_remove, tomb in *.
  destruct (m_find k (records_sorted_bykey (deleted_set w))) as [old|] eqn:Ef.
  - destruct (Z.leb_spec old seq).
    + right. split; [intros o [= <-]; lia|]. rw_simpl. injection E as <- <-.
      eexists; split; [|reflexivity]. unfold forgets, tomb. auto.
    + left. exists old. rw_simpl. injection E as <- <-. cbn [default andb from_option id].
      rewrite (proj2 (Z.ltb_lt _ _)) by assumption. repeat split; auto. now destruct w.
  - right. split; [easy|]. injection E as <- <-. exists (deleted_set w). rw_simpl.
    split; [|now destruct w]. unfold forgets, tomb. split; [exact Hds|]. repeat split; try lia.
    intros k'. case_decide; congruence.
Qed.

Lemma store_ok_put db ds b k v seq ds' b' :
  store_ok db ds b -> key_wf k -> val_wf v -> is_u32 seq -> b <= b' -> seq <= b' ->
  forgets ds k ds' ->
  store_ok (db_Put db (ks k) (enc v seq)).2 ds' b' /\
  (forall k', key_wf k' -> version_of (db_Put db (ks k) (enc v seq)).2 ds' k' =
     if decide (k' = k) then (Some v, seq) else version_of db ds k').
Proof.
  intros Hs Hk Hv Hu Hb Hseq (Hwf & _ & _ & Ht). split; [constructor; [| |exact Hwf|]|].
  - intros k' str Hk' Hg. destruct (decide (k' = k)) as [-> |Hne].
    + rewrite get_put_eq in Hg by apply put_ok. injection Hg as <-.
      exists v, seq. rewrite Ht, decide_True by reflexivity. auto 6.
    + rewrite get_put_ne in Hg by now apply ks_ne.
      destruct (so_enc _ _ _ Hs k' str Hk' Hg) as (v' & s' & H1 & H2 & H3 & H4 & H5).
      exists v', s'. rewrite Ht, decide_False by assumption. assert (s' <= b') by lia. auto 6.
  - intros str v' Hg. destruct (decide (ks k = str)) as [<-|Hne]; [eauto|].
    rewrite get_put_ne in Hg by assumption. eapply so_keys; eassumption.
  - intros k' s'. rewrite Ht. case_decide; [easy|]. intros E.
    destruct (so_tomb _ _ _ Hs k' s' E). split; [assumption|lia].
  - intros k' Hk'. unfold version_of. case_decide as E; [subst k'|].
    + rewrite get_put_eq by apply put_ok. unfold enc. now rewrite Val_from_to_string.
    + rewrite get_put_ne by now apply ks_ne. rewrite Ht, decide_False by assumption.
      reflexivity.
Qed.

Lemma store_ok_mono db ds b ds' b' k :
  store_ok db ds b -> b <= b' -> forgets ds k ds' -> tomb ds k = None ->
  store_ok db ds' b' /\ (forall k', version_of db ds' k' = version_of db ds k').
Proof.
  intros Hs Hb (Hwf & _ & _ & Ht) Hn.
  assert (Ht' : forall k', tomb ds' k' = tomb ds k').
  { intros k'. rewrite Ht. case_decide; congruence. }
  split; [constructor; [|exact (so_keys _ _ _ Hs)|exact Hwf|]|].
  - intros k' str Hk' Hg. destruct (so_enc _ _ _ Hs k' str Hk' Hg) as (v' & s' & H1 & H2 & H3 & H4 & H5).
    exists v', s'. rewrite Ht'. assert (s' <= b') by lia. auto 6.
  - intros k' s' E. rewrite Ht' in E. destruct (so_tomb _ _ _ Hs k' s' E). split; [assumption|lia].
  - intros k'. unfold version_of. now rewrite Ht'.
Qed.

(** [check_stored] compares with the stored version. *)
Lemma check_stored_run w db k seq checkseq :
  (methodid w = FARREACH_ID \/ methodid w = DISTFARREACH_ID) -> db_ptr w = Some db ->
  (db_Get db (ks k) = (StNotFound, []) \/
   exists v s, val_wf v /\ is_u32 s /\ db_Get db (ks k) = (StOk, enc v s)) -> 0 <= seq ->
  check_stored (ks k) seq checkseq w =
  Ok (checkseq && (seq <? match db_Get db (ks k) with
                          | (StOk, str) => match Val_from_string str with
                                           | Ok (_, s) => s | _ => 0 end
                          | _ => 0 end), w).
Proof.
  intros Hm Edb Hg Hseq. unfold check_stored, method_needseq, the_db. rw_simpl.
  assert (E1 : negb (methodid w =? INVALID_ID) = true) by (destruct Hm as [-> | ->]; reflexivity).
  rewrite E1. cbn [INVARIANT].
  assert (E2 : (methodid w =? NETCACHE_ID) || (methodid w =? DISTCACHE_ID) || (methodid w =? FARREACH_ID) ||
    (methodid w =? DISTFARREACH_ID) || (methodid w =? NOCACHE_ID) || (methodid w =? DISTNOCACHE_ID) = true)
    by (destruct Hm as [-> | ->]; reflexivity).
  rewrite E2. destruct checkseq; [|reflexivity]. cbn [andb]. rewrite Edb.
  destruct Hg as [-> |(v & s & Hv & Hu & ->)].
  - cbn [is_nil negb]. rewrite (proj2 (Z.ltb_ge _ _) Hseq). reflexivity.
  - rewrite enc_not_nil. cbn [negb]. unfold enc. rewrite Val_from_to_string by assumption.
    cbn [st_ok INVARIANT]. now destruct (seq <? s).
Qed.

(** Everything a read or a write of a key leaves alone: the snapshots, the
    files, and what open database snapshots show. *)
Definition frame (w w' : Wrapper DB Snap) : Prop :=
  methodid w' = methodid w /\ workerid w' = workerid w /\ snapshotid w' = snapshotid w /\
  sp_ptr w' = sp_ptr w /\ snapshotdb_ptr w' = snapshotdb_ptr w /\
  snapshot_deleted_set w' = snapshot_deleted_set w /\
  inswitch_snapshot w' = inswitch_snapshot w /\ is_snapshot w' = is_snapshot w /\
  latest_sp_ptr w' = latest_sp_ptr w /\
  latest_snapshot_deleted_set w' = latest_snapshot_deleted_set w /\ disk w' = disk w /\
  (forall db db', db_ptr w = Some db -> db_ptr w' = Some db' ->
     forall sp key, db_IterAt db' sp key = db_IterAt db sp key).

Lemma frame_refl w : frame w w.
Proof. unfold frame. repeat split. intros. congruence. Qed.

Lemma frame_trans w1 w2 w3 : db_ptr w2 <> None -> frame w1 w2 -> frame w2 w3 -> frame w1 w3.
Proof.
  intros Hn H1 H2. unfold frame in *. destruct_and! H1. destruct_and! H2.
  repeat split; try congruence. intros db db' E1 E3 sp key.
  destruct (db_ptr w2) as [db2|] eqn:E2; [|congruence].
  transitivity (db_IterAt db2 sp key); eauto.
Qed.

Lemma wrapper_ok_db w : wrapper_ok w -> db_ptr w <> None.
Proof. intros Hw. destruct (wo_store w Hw) as (db & -> & _). discriminate. Qed.

(** The version after an accepted or refused update: a deletion newer than
    the request always wins, a newer stored value only when asked to check. *)
Definition upd_version (checkseq : bool) (old : option Val * Z) (new : option Val) (seq : Z)
    : option Val * Z :=
  if (seq <? old.2) && (checkseq || bool_decide (old.1 = None)) then old else (new, seq).

Lemma upd_version_check old new seq : upd_version true old new seq = lww old new seq.
Proof. unfold upd_version, lww. now rewrite andb_true_r. Qed.

(** What a write of one key does to the abstract state. *)
Definition updates (w w' : Wrapper DB Snap) (k : Key) (ver : option Val * Z) : Prop :=
  forall k', key_wf k' -> version w' k' = if decide (k' = k) then ver else version w k'.

(** The head of [put] and [remove]: [maxseq] and the deleted set. *)
Lemma store_ok_bound db ds b b' : store_ok db ds b -> b <= b' -> store_ok db ds b'.
Proof.
  intros [H1 H0 H2 H3] Hb. constructor; [|exact H0|exact H2|].
  - intros k' str Hk' Hg. destruct (H1 k' str Hk' Hg) as (v' & s' & ? & ? & ? & ? & ?).
    exists v', s'. assert (s' <= b') by lia. auto 6.
  - intros k' s' Et. destruct (H3 k' s' Et). split; [assumption|lia].
Qed.

Inductive head_outcome (w : Wrapper DB Snap) (db : DB) (k : Key) (seq : Z) : Prop :=
  | head_refused old :
      db_Get db (ks k) = (StNotFound, []) ->
      version w k = (None, old) -> seq < old ->
      (_ ← bump_maxseq seq; check_deleted k seq) w =
        Ok (true, set_maxseq (Z.max (maxseq w) seq) w) ->
      head_outcome w db k seq
  | head_absent ds' :
      forgets (deleted_set w) k ds' ->
      db_Get db (ks k) = (StNotFound, []) ->
      (version w k).1 = None -> (version w k).2 <= Z.max 0 seq ->
      (_ ← bump_maxseq seq; check_deleted k seq) w =
        Ok (false, set_deleted_set ds' (set_maxseq (Z.max (maxseq w) seq) w)) ->
      head_outcome w db k seq
  | head_stored ds' v s :
      forgets (deleted_set w) k ds' -> tomb (deleted_set w) k = None ->
      val_wf v -> is_u32 s -> db_Get db (ks k) = (StOk, enc v s) ->
      version w k = (Some v, s) ->
      (_ ← bump_maxseq seq; check_deleted k seq) w =
        Ok (false, set_deleted_set ds' (set_maxseq (Z.max (maxseq w) seq) w)) ->
      head_outcome w db k seq.

Lemma head_cases w db k seq :
  wrapper_ok w -> db_ptr w = Some db -> key_wf k -> head_outcome w db k seq.
Proof.
  intros Hw Edb Hk. destruct (wo_store w Hw) as (db' & Edb' & Hs).
  assert (db' = db) as -> by congruence. pose proof (wo_method w Hw) as Hm.
  set (w1 := set_maxseq (Z.max (maxseq w) seq) w).
  assert (Eh : (_ ← bump_maxseq seq; check_deleted k seq) w = check_deleted k seq w1)
    by (unfold mbind, rw_bind; now rewrite bump_run).
  destruct (check_deleted_run w1 k seq Hm (so_ds _ _ _ Hs))
    as [(old & Ht & Hlt & Ec)|(Hle & ds' & Hf & Ec)];
    change (deleted_set w1) with (deleted_set w) in *;
    destruct (db_Get_cases db _ _ k Hs Hk) as [[Eg Ev]|(v' & s' & Hv & Hu & _ & Eg & Hn & Ev)].
  - apply (head_refused _ _ _ _ old); auto; [|rewrite Eh; exact Ec].
    unfold version. now rewrite Edb, Ev, Ht.
  - congruence.
  - apply (head_absent _ _ _ _ ds'); auto; [..|rewrite Eh; exact Ec]; unfold version; rewrite Edb, Ev; cbn [fst snd].
    + reflexivity.
    + destruct (tomb (deleted_set w) k) as [o|]; cbn; [specialize (Hle o eq_refl)|]; lia.
  - apply (head_stored _ _ _ _ ds' v' s'); auto; [|rewrite Eh; exact Ec]. unfold version. now rewrite Edb.
Qed.

(** What the caller learns about the state after a write. *)
Record write_post (w w' : Wrapper DB Snap) (k : Key) (seq : Z) (ver : option Val * Z) : Prop := {
  wp_ok : wrapper_ok w';
  wp_frame : frame w w';
  wp_maxseq : maxseq w' = Z.max (maxseq w) seq;
  wp_max : max_size (deleted_set w') = max_size (deleted_set w);
  wp_updates : updates w w' k ver
}.

Lemma refused_post w db k seq old checkseq new :
  wrapper_ok w -> db_ptr w = Some db -> version w k = (None, old) -> seq < old ->
  write_post w (set_maxseq (Z.max (maxseq w) seq) w) k seq (upd_version checkseq (version w k) new seq).
Proof.
  intros Hw Edb Ev Hlt. destruct (wo_store w Hw) as (db' & Edb' & Hs).
  assert (db' = db) as -> by congruence. constructor; rw_simpl; auto.
  - constructor; [apply Hw|]. exists db. split; [exact Edb|].
    apply (store_ok_bound _ _ (maxseq w)); [exact Hs|]. rw_simpl. lia.
  - unfold frame; rw_simpl. repeat split. intros d d' H1 H2. congruence.
  - intros k' Hk'. unfold upd_version. rewrite Ev. cbn [fst snd].
    rewrite bool_decide_true, orb_true_r, (proj2 (Z.ltb_lt _ _) Hlt) by reflexivity. cbn [andb].
    case_decide as E; [subst k'; exact Ev|reflexivity].
Qed.

(** A write refused by a newer stored value. *)
Lemma stale_post w db k seq ds' v s :
  wrapper_ok w -> db_ptr w = Some db -> forgets (deleted_set w) k ds' ->
  tomb (deleted_set w) k = None -> version w k = (Some v, s) ->
  write_post w (set_deleted_set ds' (set_maxseq (Z.max (maxseq w) seq) w)) k seq (version w k).
Proof.
  intros Hw Edb Hf Hn Ev. destruct (wo_store w Hw) as (db' & Edb' & Hs).
  assert (db' = db) as -> by congruence.
  destruct (store_ok_mono db _ _ ds' (Z.max (maxseq w) seq) k Hs ltac:(lia) Hf Hn) as [Hs' Hv'].
  constructor; rw_simpl; auto.
  - constructor; [apply Hw|]. exists db. auto.
  - unfold frame; rw_simpl. repeat split. intros d d' H1 H2. congruence.
  - apply Hf.
  - intros k' Hk'. case_decide as E; [subst k'|]; unfold version; rw_simpl; now rewrite Edb, Hv'.
Qed.

Lemma written_post w db k v seq ds' :
  wrapper_ok w -> db_ptr w = Some db -> key_wf k -> val_wf v -> is_u32 seq ->
  forgets (deleted_set w) k ds' ->
  write_post w (set_db (db_Put db (ks k) (enc v seq)).2
                  (set_deleted_set ds' (set_maxseq (Z.max (maxseq w) seq) w))) k seq (Some v, seq).
Proof.
  intros Hw Edb Hk Hv Hu Hf. destruct (wo_store w Hw) as (db' & Edb' & Hs).
  assert (db' = db) as -> by congruence.
  destruct (store_ok_put db _ _ k v seq ds' (Z.max (maxseq w) seq) Hs Hk Hv Hu) as [Hs' Hv']; [lia..|exact Hf|].
  constructor; rw_simpl; auto.
  - constructor; [apply Hw|]. eexists. rw_simpl. auto.
  - unfold frame; rw_simpl. repeat split. intros d d' H1 H2 sp key. simplify_eq. apply snap_put.
  - apply Hf.
  - intros k' Hk'. unfold version; rw_simpl. rewrite Edb. now apply Hv'.
Qed.

(** The common head of [put] and [remove] runs first. *)
Lemma head_bind {A} (k : Key) (seq : Z) (f : bool -> rw DB Snap A) w :
  (_ ← bump_maxseq seq; deleted ← check_deleted k seq; f deleted) w =
  (deleted ← (_ ← bump_maxseq seq; check_deleted k seq); f deleted) w.
Proof. unfold mbind, rw_bind. now rewrite bump_run. Qed.

Definition put_tail (k : Key) (v : Val) (seq : Z) (checkseq : bool) : rw DB Snap bool :=
  needseq ← method_needseq;
  valstr ← lift (if (needseq : bool) then Val_to_string v seq else Val_to_string_noseq v);
  newer ← check_stored (ks k) seq checkseq;
  if (newer : bool) then mret true
  else
    db ← the_db;
    let '(s, db') := db_Put db (ks k) valstr in
    _ ← modify (set_db db');
    _ ← inv (st_ok s);
    mret true.

Lemma put_tail_run w db k v seq checkseq :
  (methodid w = FARREACH_ID \/ methodid w = DISTFARREACH_ID) -> db_ptr w = Some db ->
  (db_Get db (ks k) = (StNotFound, []) \/
   exists v s, val_wf v /\ is_u32 s /\ db_Get db (ks k) = (StOk, enc v s)) ->
  val_wf v -> 0 <= seq ->
  put_tail k v seq checkseq w =
  Ok (true, if checkseq && (seq <? match db_Get db (ks k) with
                          | (StOk, str) => match Val_from_string str with
                                           | Ok (_, s) => s | _ => 0 end
                          | _ => 0 end)
            then w else set_db (db_Put db (ks k) (enc v seq)).2 w).
Proof.
  intros Hm Edb Hg Hv Hseq. unfold put_tail. unfold mbind, rw_bind.
  assert (En : method_needseq w = Ok (true, w))
    by (unfold method_needseq; rw_simpl; destruct Hm as [-> | ->]; reflexivity).
  rewrite En, Val_to_string_wf by assumption. fold (enc v seq). cbn [lift].
  rewrite (check_stored_run w db k seq checkseq Hm Edb Hg Hseq).
  destruct (checkseq && _); [reflexivity|]. unfold the_db. rewrite Edb.
  pose proof (put_ok db (ks k) (enc v seq)) as Ho.
  destruct (db_Put db (ks k) (enc v seq)) as [st db']; cbn in Ho; subst st. reflexivity.
Qed.

Lemma put_run w k v seq checkseq :
  wrapper_ok w -> key_wf k -> val_wf v -> is_u32 seq ->
  exists w', put k v seq checkseq w =
      Ok (negb ((seq <? (version w k).2) && bool_decide ((version w k).1 = None)), w') /\
    (forall k' s, tomb (deleted_set w') k' = Some s -> tomb (deleted_set w) k' = Some s) /\
    ds_size (deleted_set w') <= ds_size (deleted_set w) /\
    write_post w w' k seq (upd_version checkseq (version w k) (Some v) seq).
Proof.
  intros Hw Hk Hv Hu. destruct (wo_store w Hw) as (db & Edb & _).
  pose proof (wo_method w Hw) as Hm. pose proof Hu as [Hu0 _].
  change (put k v seq checkseq w) with ((_ ← bump_maxseq seq; deleted ← check_deleted k seq;
    if (deleted : bool) then mret false else put_tail k v seq checkseq) w).
  rewrite head_bind. unfold mbind at 1, rw_bind at 1.
  destruct (head_cases w db k seq Hw Edb Hk)
    as [old Eg Ev Hlt -> |ds' Hf Eg Ev1 Ev2 -> |ds' v' s Hf Hn Hv' Hu' Eg Ev ->].
  - exists (set_maxseq (Z.max (maxseq w) seq) w). split; [|split; [auto|split; [rw_simpl; lia|]]].
    + rewrite Ev. cbn [fst snd]. now rewrite bool_decide_true, (proj2 (Z.ltb_lt _ _) Hlt).
    + eapply refused_post; eassumption.
  - rewrite (put_tail_run _ db) by (auto; right; eauto). rewrite Eg.
    rewrite (proj2 (Z.ltb_ge seq 0)), andb_false_r by lia.
    eexists. rewrite (proj2 (Z.ltb_ge seq (version w k).2)) by lia.
    unfold upd_version. rewrite (proj2 (Z.ltb_ge seq (version w k).2)) by lia. cbn [andb negb].
    split; [reflexivity|]. split; [|split; [apply Hf|now apply written_post]].
    intros k' s'. rw_simpl. destruct Hf as (_ & _ & _ & Ht). rewrite Ht. now case_decide.
  - rewrite (put_tail_run _ db) by (auto; right; eauto). rewrite Eg.
    unfold enc at 1. rewrite Val_from_to_string by assumption.
    unfold upd_version. rewrite Ev. cbn [fst snd].
    rewrite bool_decide_false, andb_false_r, orb_false_r by discriminate. cbn [negb].
    eexists; split; [reflexivity|].
    rewrite (andb_comm checkseq).
    assert (Ht : forall k' s', tomb ds' k' = Some s' -> tomb (deleted_set w) k' = Some s').
    { intros k' s'. destruct Hf as (_ & _ & _ & Ht). rewrite Ht. now case_decide. }
    destruct ((seq <? s) && checkseq).
    + split; [exact Ht|]. split; [apply Hf|]. rewrite <- Ev. eapply stale_post; eassumption.
    + split; [exact Ht|]. split; [apply Hf|]. now apply written_post.
Qed.

(** ** Deletions *)

Definition remove_tail (k : Key) (seq : Z) (checkseq : bool) : rw DB Snap bool :=
  newer ← check_stored (ks k) seq checkseq;
  if (newer : bool) then mret true
  else
    db ← the_db;
    let '(s, db') := db_Delete db (ks k) in
    _ ← modify (set_db db');
    _ ← inv (st_ok s);
    needsnapshot ← method_needsnapshot;
    _ ← (if (needsnapshot : bool) then
           ds ← gets deleted_set;
           ds' ← lift (ds_add ds k seq);
           modify (set_deleted_set ds')
         else mret tt);
    mret true.

Lemma remove_tail_run w db k seq checkseq ds' :
  (methodid w = FARREACH_ID \/ methodid w = DISTFARREACH_ID) -> db_ptr w = Some db ->
  (db_Get db (ks k) = (StNotFound, []) \/
   exists v s, val_wf v /\ is_u32 s /\ db_Get db (ks k) = (StOk, enc v s)) ->
  0 <= seq -> ds_add (deleted_set w) k seq = Ok ds' ->
  remove_tail k seq checkseq w =
  Ok (true, if checkseq && (seq <? match db_Get db (ks k) with
                          | (StOk, str) => match Val_from_string str with
                                           | Ok (_, s) => s | _ => 0 end
                          | _ => 0 end)
            then w else set_deleted_set ds' (set_db (db_Delete db (ks k)).2 w)).
Proof.
  intros Hm Edb Hg Hseq Hadd. unfold remove_tail. unfold mbind, rw_bind.
  rewrite (check_stored_run w db k seq checkseq Hm Edb Hg Hseq).
  destruct (checkseq && _); [reflexivity|]. unfold the_db. rewrite Edb.
  pose proof (delete_ok db (ks k)) as Ho.
  destruct (db_Delete db (ks k)) as [st db']; cbn in Ho; subst st. cbn [snd st_ok].
  assert (En : method_needsnapshot (set_db db' w) = Ok (true, set_db db' w))
    by (unfold method_needsnapshot; rw_simpl; destruct Hm as [-> | ->]; reflexivity).
  unfold inv, modify, lift, INVARIANT. rewrite En. rw_simpl. now rewrite Hadd.
Qed.

(** The state after a deletion that was carried out. *)
Lemma deleted_post w db k seq ds1 ds2 :
  wrapper_ok w -> db_ptr w = Some db -> key_wf k -> is_u32 seq ->
  forgets (deleted_set w) k ds1 -> ds_wf ds2 -> max_size ds2 = max_size ds1 ->
  (forall k', tomb ds2 k' = tomb_upd ds1 k seq k') ->
  write_post w (set_deleted_set ds2 (set_db (db_Delete db (ks k)).2
                  (set_deleted_set ds1 (set_maxseq (Z.max (maxseq w) seq) w)))) k seq (None, seq).
Proof.
  intros Hw Edb Hk Hu (Hwf1 & Hmx & _ & Ht1) Hwf2 Hmax Ht2. destruct (wo_store w Hw) as (db' & Edb' & Hs).
  assert (db' = db) as -> by congruence.
  assert (Ht : forall k', tomb ds2 k' = if decide (k' = k) then Some seq else tomb (deleted_set w) k').
  { intros k'. rewrite Ht2. unfold tomb_upd. rewrite !Ht1. rewrite (decide_True (P := k = k)) by reflexivity.
    now case_decide. }
  assert (Hs2 : store_ok (db_Delete db (ks k)).2 ds2 (Z.max (maxseq w) seq)).
  { constructor; [| |exact Hwf2|].
    - intros k' str Hk' Hg. destruct (decide (k' = k)) as [-> |Hne].
      + rewrite get_delete_eq in Hg by apply delete_ok. discriminate.
      + rewrite get_delete_ne in Hg by now apply ks_ne.
        destruct (so_enc _ _ _ Hs k' str Hk' Hg) as (v' & s' & H1 & H2 & H3 & H4 & H5).
        exists v', s'. rewrite Ht, decide_False by assumption.
        assert (s' <= Z.max (maxseq w) seq) by lia. auto 6.
    - intros str v' Hg. destruct (decide (ks k = str)) as [<-|Hne]; [eauto|].
      rewrite get_delete_ne in Hg by assumption. eapply so_keys; eassumption.
    - intros k' s'. rewrite Ht. case_decide; [intros [= <-]; split; [assumption|lia]|].
      intros E. destruct (so_tomb _ _ _ Hs k' s' E). split; [assumption|lia]. }
  constructor; rw_simpl; auto.
  - constructor; [apply Hw|]. eexists. rw_simpl. auto.
  - unfold frame; rw_simpl. repeat split. intros d d' H1 H2 sp key. simplify_eq. apply snap_delete.
  - congruence.
  - intros k' Hk'. unfold version, version_of; rw_simpl. rewrite Edb, Ht. case_decide as E; [subst k'|].
    + rewrite get_delete_eq by apply delete_ok. reflexivity.
    + now rewrite get_delete_ne by now apply ks_ne.
Qed.

Lemma forgets_fresh ds k ds' seq : forgets ds k ds' -> seq_fresh ds k seq -> seq_fresh ds' k seq.
Proof. intros (_ & _ & _ & Ht) Hf k'. rewrite Ht. case_decide; [easy|apply Hf]. Qed.

Lemma remove_run w k seq checkseq :
  wrapper_ok w -> key_wf k -> is_u32 seq -> seq_fresh (deleted_set w) k seq ->
  ds_size (deleted_set w) < max_size (deleted_set w) ->
  exists w', remove k seq checkseq w =
      Ok (negb ((seq <? (version w k).2) && bool_decide ((version w k).1 = None)), w') /\
    (forall k' s, tomb (deleted_set w') k' = Some s -> tomb (deleted_set w) k' = Some s \/ (k' = k /\ s = seq)) /\
    ds_size (deleted_set w') <= ds_size (deleted_set w) + 1 /\
    write_post w w' k seq (upd_version checkseq (version w k) None seq).
Proof.
  intros Hw Hk Hu Hfr Hroom. destruct (wo_store w Hw) as (db & Edb & _).
  pose proof (wo_method w Hw) as Hm. pose proof Hu as [Hu0 _].
  change (remove k seq checkseq w) with ((_ ← bump_maxseq seq; deleted ← check_deleted k seq;
    if (deleted : bool) then mret false else remove_tail k seq checkseq) w).
  rewrite head_bind. unfold mbind at 1, rw_bind at 1.
  assert (Hadd : forall ds', forgets (deleted_set w) k ds' ->
    exists ds2, ds_add ds' k seq = Ok ds2 /\ ds_wf ds2 /\ max_size ds2 = max_size ds' /\
      ds_size ds2 <= ds_size (deleted_set w) + 1 /\
      (forall k', tomb ds2 k' = tomb_upd ds' k seq k') /\
      (forall k' s, tomb ds2 k' = Some s -> tomb (deleted_set w) k' = Some s \/ (k' = k /\ s = seq))).
  { intros ds' Hf. pose proof (forgets_fresh _ _ _ _ Hf Hfr) as Hfr'.
    destruct Hf as (Hwf & Hmx & Hsz & Ht).
    assert (Hnone : tomb ds' k = None) by (rewrite Ht, decide_True by reflexivity; reflexivity).
    destruct (ds_add_room ds' k seq Hwf Hfr' Hnone) as (ds2 & E & W & M & T); [lia|].
    exists ds2. repeat split; auto; try apply W.
    - pose proof E as E2. unfold ds_add in E2. unfold tomb in Hnone. rewrite Hnone in E2.
      rewrite ds_add_new_size in E2 by exact Hnone.
      rewrite (proj2 (Z.ltb_ge _ _)) in E2 by lia. injection E2 as <-.
      unfold ds_size at 1; cbn [records_sorted_bykey]. rewrite ds_add_new_size by exact Hnone. lia.
    - intros k' s'. rewrite T. unfold tomb_upd. rewrite Hnone, Ht. case_decide; [|auto].
      intros [= <-]. auto. }
  destruct (head_cases w db k seq Hw Edb Hk)
    as [old Eg Ev Hlt -> |ds' Hf Eg Ev1 Ev2 -> |ds' v' s Hf Hn Hv' Hu' Eg Ev ->].
  - exists (set_maxseq (Z.max (maxseq w) seq) w). split; [|split; [auto|split; [rw_simpl; lia|]]].
    + rewrite Ev. cbn [fst snd]. now rewrite bool_decide_true, (proj2 (Z.ltb_lt _ _) Hlt).
    + eapply refused_post; eassumption.
  - destruct (Hadd ds' Hf) as (ds2 & Ea & W2 & M2 & S2 & T2 & T3).
    rewrite (remove_tail_run _ db _ _ _ ds2) by auto. rewrite Eg.
    rewrite (proj2 (Z.ltb_ge seq 0)), andb_false_r by lia.
    eexists. rewrite (proj2 (Z.ltb_ge seq (version w k).2)) by lia.
    unfold upd_version. rewrite (proj2 (Z.ltb_ge seq (version w k).2)) by lia. cbn [andb negb].
    split; [reflexivity|]. split; [exact T3|]. split; [exact S2|]. now apply deleted_post.
  - destruct (Hadd ds' Hf) as (ds2 & Ea & W2 & M2 & S2 & T2 & T3).
    rewrite (remove_tail_run _ db _ _ _ ds2) by (auto; right; eauto). rewrite Eg.
    unfold enc at 1. rewrite Val_from_to_string by assumption.
    unfold upd_version. rewrite Ev. cbn [fst snd].
    rewrite bool_decide_false, andb_false_r, orb_false_r by discriminate. cbn [negb].
    eexists; split; [reflexivity|]. rewrite (andb_comm checkseq).
    destruct ((seq <? s) && checkseq).
    + split; [|split; [destruct Hf as (_ & _ & ? & _); rw_simpl; lia|]].
      * intros k' s'. rw_simpl. destruct Hf as (_ & _ & _ & Ht). rewrite Ht. case_decide; [easy|auto].
      * rewrite <- Ev. eapply stale_post; eassumption.
    + split; [exact T3|]. split; [exact S2|]. now apply deleted_post.
Qed.
End Props.

#[global] Arguments wp_ok {DB Snap Hkv w w' k seq ver}.
#[global] Arguments wp_frame {DB Snap Hkv w w' k seq ver}.
#[global] Arguments wp_maxseq {DB Snap Hkv w w' k seq ver}.
#[global] Arguments wp_max {DB Snap Hkv w w' k seq ver}.
#[global] Arguments wp_updates {DB Snap Hkv w w' k seq ver}.

Section Contracts.
Context {DB Snap : Type} `{Hkv : KVStore DB Snap}.
Context {Hlaws : KVStoreLaws DB Snap} {Havail : KVStoreAvailable DB Snap}.

Lemma get_post (w : Wrapper DB Snap) (k : Key) (val : Val) (seq0 : Z) :
  wrapper_ok w -> key_wf k ->
  exists w', get k val seq0 w =
      Ok (match version w k with
          | (Some v, s) => (true, v, s) | (None, s) => (false, val, s) end, w') /\
    wrapper_ok w' /\ frame w w' /\ maxseq w' = maxseq w /\
    (forall k', version w' k' = version w k').
Proof using Havail.
  intros Hw Hk. destruct (get_run w k val seq0 Hw Hk) as (w' & E & Ew & Hwf & Ht).
  exists w'. split; [exact E|]. destruct (wo_store w Hw) as (db & Edb & Hs).
  assert (Hf : frame w w' /\ maxseq w' = maxseq w /\ db_ptr w' = db_ptr w).
  { rewrite Ew. unfold frame. rw_simpl. repeat split. intros. congruence. }
  destruct Hf as (Hf & Ex & Ed).
  assert (Hv : forall k', version w' k' = version w k').
  { intros k'. unfold version. rewrite Ed, Edb. unfold version_of.
    destruct (Ht k') as [-> |[-> ->]]; reflexivity. }
  split; [|auto]. constructor; [destruct Hf as (-> & _); apply Hw|]. exists db. split; [congruence|].
  rewrite Ex. constructor; [|exact (so_keys _ _ _ Hs)|exact Hwf|].
  - intros k' str Hk' Hg. destruct (so_enc _ _ _ Hs k' str Hk' Hg) as (v & s & H1 & H2 & H3 & H4 & H5).
    exists v, s. destruct (Ht k') as [-> |[H6 _]]; [auto 6|congruence].
  - intros k' s Hts. apply (so_tomb _ _ _ Hs k' s). destruct (Ht k') as [<- |[_ H6]]; congruence.
Qed.

(** [RocksdbWrapper::get] returns the current version of the key (value and
    sequence number, or not found with the sequence number of its deletion),
    does not change the version of any key, and keeps the invariant. *)
Theorem get_reads_version (w : Wrapper DB Snap) (k : Key) (val : Val) (seq0 : Z) :
  wrapper_ok w -> key_wf k ->
  exists w', get k val seq0 w =
      Ok (match version w k with
          | (Some v, s) => (true, v, s) | (None, s) => (false, val, s) end, w') /\
    wrapper_ok w' /\ (forall k', version w' k' = version w k').
Proof using Havail.
  intros Hw Hk. destruct (get_post w k val seq0 Hw Hk) as (w' & E & W & _ & _ & V). eauto.
Qed.

(** C17: [RocksdbWrapper::put] with [checkseq] is a last-writer-wins update of
    one key: the stored version changes exactly when no newer write or deletion
    is known, [maxseq] grows to the request's number, every other key and all
    snapshot state stay; it reports [false] exactly when a newer deletion wins.
    Without [checkseq] only a newer deletion can refuse the write. *)
Theorem put_last_writer_wins (w : Wrapper DB Snap) (k : Key) (v : Val) (seq : Z) (checkseq : bool) :
  wrapper_ok w -> key_wf k -> val_wf v -> is_u32 seq ->
  exists w', put k v seq checkseq w =
      Ok (negb ((seq <? (version w k).2) && bool_decide ((version w k).1 = None)), w') /\
    wrapper_ok w' /\ frame w w' /\ maxseq w' = Z.max (maxseq w) seq /\
    (forall k', key_wf k' -> version w' k' =
       if decide (k' = k)
       then if checkseq then lww (version w k) (Some v) seq
            else upd_version false (version w k) (Some v) seq
       else version w k').
Proof.
  intros Hw Hk Hv Hu. destruct (put_run w k v seq checkseq Hw Hk Hv Hu) as (w' & E & _ & _ & Hp).
  exists w'. split; [exact E|]. split; [apply Hp|]. split; [apply Hp|]. split; [apply Hp|].
  intros k' Hk'. rewrite (wp_updates Hp k' Hk'). destruct checkseq; [|reflexivity].
  now rewrite upd_version_check.
Qed.

(** C38: [RocksdbWrapper::remove] with [checkseq] is a last-writer-wins update of one key
    with a deletion as the new version, while the deleted set has room and the sequence
    number is not that of another key's recorded deletion: the version changes exactly
    when no newer write or deletion is known, [maxseq] grows to the request's number,
    every other key and all snapshot state stay; it reports [false] exactly when a newer
    deletion wins.  Without [checkseq] only a newer deletion can refuse it. *)
Theorem remove_last_writer_wins (w : Wrapper DB Snap) (k : Key) (seq : Z) (checkseq : bool) :
  wrapper_ok w -> key_wf k -> is_u32 seq -> seq_fresh (deleted_set w) k seq ->
  ds_size (deleted_set w) < max_size (deleted_set w) ->
  exists w', remove k seq checkseq w =
      Ok (negb ((seq <? (version w k).2) && bool_decide ((version w k).1 = None)), w') /\
    wrapper_ok w' /\ frame w w' /\ maxseq w' = Z.max (maxseq w) seq /\
    (forall k', key_wf k' -> version w' k' =
       if decide (k' = k)
       then if checkseq then lww (version w k) None seq
            else upd_version false (version w k) None seq
       else version w k').
Proof.
  intros Hw Hk Hu Hf Hr. destruct (remove_run w k seq checkseq Hw Hk Hu Hf Hr) as (w' & E & _ & _ & Hp).
  exists w'. split; [exact E|]. split; [apply Hp|]. split; [apply Hp|]. split; [apply Hp|].
  intros k' Hk'. rewrite (wp_updates Hp k' Hk'). destruct checkseq; [|reflexivity].
  now rewrite upd_version_check.
Qed.

(** ** Runs of client operations *)

(** One operation of the worker or the eviction thread on the store. *)
Inductive client_step (w w' : Wrapper DB Snap) : Prop :=
  | step_get k val seq0 r :
      key_wf k -> get k val seq0 w = Ok (r, w') -> client_step w w'
  | step_put k v seq checkseq b :
      key_wf k -> val_wf v -> is_u32 seq ->
      put k v seq checkseq w = Ok (b, w') -> client_step w w'
  | step_remove k seq checkseq b :
      key_wf k -> is_u32 seq -> seq_fresh (deleted_set w) k seq ->
      ds_size (deleted_set w) < max_size (deleted_set w) ->
      remove k seq checkseq w = Ok (b, w') -> client_step w w'.

Lemma client_step_post w w' :
  client_step w w' -> wrapper_ok w -> wrapper_ok w' /\ frame w w' /\ maxseq w <= maxseq w'.
Proof using Hlaws Havail.
  intros Hstep Hw. destruct Hstep as [k val seq0 r Hk E|k v seq c b Hk Hv Hu E|k seq c b Hk Hu Hf Hr E].
  - destruct (get_post w k val seq0 Hw Hk) as (w1 & E1 & W & F & X & _).
    rewrite E1 in E. injection E as _ <-. split; [exact W|]. split; [exact F|lia].
  - destruct (put_run w k v seq c Hw Hk Hv Hu) as (w1 & E1 & _ & _ & P).
    rewrite E1 in E. injection E as _ <-. split; [apply P|]. split; [apply P|].
    rewrite (wp_maxseq P). lia.
  - destruct (remove_run w k seq c Hw Hk Hu Hf Hr) as (w1 & E1 & _ & _ & P).
    rewrite E1 in E. injection E as _ <-. split; [apply P|]. split; [apply P|].
    rewrite (wp_maxseq P). lia.
Qed.

Lemma client_steps_post w w' :
  rtc client_step w w' -> wrapper_ok w -> wrapper_ok w' /\ frame w w' /\ maxseq w <= maxseq w'.
Proof using Hlaws Havail.
  induction 1 as [w|w1 w2 w3 Hstep _ IH]; intros Hw.
  - split; [exact Hw|]. split; [apply frame_refl|lia].
  - destruct (client_step_post _ _ Hstep Hw) as (W & F & X).
    destruct (IH W) as (W' & F' & X'). split; [exact W'|]. split; [|lia].
    eapply frame_trans; [apply wrapper_ok_db, W|exact F|exact F'].
Qed.

(** C19: the store invariant (no key both stored and recorded as deleted, the two
    maps of deletions equal, values decodable, [maxseq] an upper bound) holds in
    every state reachable by reads, writes and deletions, as long as every deletion
    finds room in the deleted set and carries a sequence number that no other key's
    recorded deletion has; [maxseq] never decreases, and none of them touches
    snapshot state or files. *)
Theorem client_runs_keep_invariant (w w' : Wrapper DB Snap) :
  rtc client_step w w' -> wrapper_ok w ->
  wrapper_ok w' /\ maxseq w <= maxseq w' /\ snapshotid w' = snapshotid w /\ disk w' = disk w.
Proof using Hlaws Havail.
  intros Hr Hw. destruct (client_steps_post w w' Hr Hw) as (W & F & X).
  unfold frame in F. destruct_and! F. auto.
Qed.

(** ** Writes in any order *)

(** A put, or a deletion when there is no value. *)
Record Write := mkWrite { wr_key : Key; wr_new : option Val; wr_seq : Z }.

Definition store_write (checkseq : bool) (x : Write) : rw DB Snap bool :=
  match wr_new x with
  | Some v => put (wr_key x) v (wr_seq x) checkseq
  | None => remove (wr_key x) (wr_seq x) checkseq
  end.

Fixpoint store_writes (l : list (bool * Write)) : rw DB Snap unit :=
  match l with
  | [] => mret tt
  | (checkseq, x) :: l' => _ ← store_write checkseq x; store_writes l'
  end.

(** Well-formed writes whose deletions have numbers of their own and find room in
    the deleted set. *)
Record writes_ok (ds : DeletedSet) (l : list (bool * Write)) : Prop := {
  ws_wf : Forall (fun y => key_wf (wr_key y.2) /\ is_u32 (wr_seq y.2) /\ forall v, wr_new y.2 = Some v -> val_wf v) l;
  ws_unique : forall x y, In x l -> In y l -> wr_new x.2 = None -> wr_new y.2 = None -> wr_seq x.2 = wr_seq y.2 -> wr_key x.2 = wr_key y.2;
  ws_fresh : forall x, In x l -> wr_new x.2 = None -> seq_fresh ds (wr_key x.2) (wr_seq x.2);
  ws_room : ds_size ds + Z.of_nat (length (List.filter (fun y : bool * Write => bool_decide (wr_new y.2 = None)) l)) <= max_size ds
}.

(** The version of [k] after the writes. *)
Definition written (k : Key) (l : list (bool * Write)) (old : option Val * Z) : option Val * Z :=
  fold_left (fun old y => if decide (k = wr_key y.2) then upd_version y.1 old (wr_new y.2) (wr_seq y.2) else old) l old.

Lemma store_write_run w c x : wrapper_ok w -> key_wf (wr_key x) -> is_u32 (wr_seq x) -> (forall v, wr_new x = Some v -> val_wf v) ->
  (wr_new x = None -> seq_fresh (deleted_set w) (wr_key x) (wr_seq x) /\ ds_size (deleted_set w) < max_size (deleted_set w)) ->
  exists b w', store_write c x w = Ok (b, w') /\
    (forall k s, tomb (deleted_set w') k = Some s -> tomb (deleted_set w) k = Some s \/ (wr_new x = None /\ k = wr_key x /\ s = wr_seq x)) /\
    ds_size (deleted_set w') <= ds_size (deleted_set w) + (if decide (wr_new x = None) then 1 else 0) /\
    write_post w w' (wr_key x) (wr_seq x) (upd_version c (version w (wr_key x)) (wr_new x) (wr_seq x)).
Proof using Hlaws Havail.
  intros Hw Hk Hu Hv Hd. unfold store_write. destruct (wr_new x) as [v|].
  - destruct (put_run w _ v _ c Hw Hk (Hv v eq_refl) Hu) as (w' & E & T & S & P). eexists _, w'. rewrite decide_False by discriminate.
    split; [exact E|]. split; [auto|]. split; [lia|exact P].
  - destruct (Hd eq_refl) as [Hf Hr]. destruct (remove_run w _ _ c Hw Hk Hu Hf Hr) as (w' & E & T & S & P). eexists _, w'. rewrite decide_True by reflexivity.
    split; [exact E|]. split; [|split; [lia|exact P]]. intros k s H. destruct (T k s H); tauto.
Qed.

Lemma writes_ok_tail ds ds' y l : writes_ok ds (y :: l) ->
  (forall k s, tomb ds' k = Some s -> tomb ds k = Some s \/ (wr_new y.2 = None /\ k = wr_key y.2 /\ s = wr_seq y.2)) ->
  ds_size ds' <= ds_size ds + (if decide (wr_new y.2 = None) then 1 else 0) -> max_size ds' = max_size ds -> writes_ok ds' l.
Proof.
  intros [H1 H2 H3 H4] Ht Hs Hm. constructor.
  - now apply Forall_cons_iff in H1.
  - intros a b Ha Hb. apply (H2 a b); now right.
  - intros x Hx Hn k Hk. destruct (Ht k _ Hk) as [Ho|(Hy & -> & Es)]; [exact (H3 x (or_intror Hx) Hn k Ho)|].
    symmetry. exact (H2 x y (or_intror Hx) (or_introl eq_refl) Hn Hy Es).
  - rewrite Hm. cbn [List.filter] in H4. case_decide as E; [rewrite bool_decide_true in H4 by exact E; cbn [length] in H4; lia|].
    rewrite bool_decide_false in H4 by exact E. lia.
Qed.

Lemma store_writes_run l : forall w, wrapper_ok w -> writes_ok (deleted_set w) l ->
  exists w', store_writes l w = Ok (tt, w') /\ wrapper_ok w' /\ forall k, key_wf k -> version w' k = written k l (version w k).
Proof using Hlaws Havail.
  induction l as [|[c x] l IH]; intros w Hw Hl; [now exists w|]. pose proof Hl as [H1 _ H3 H4]. apply Forall_cons_iff in H1 as [(Hk & Hu & Hv) _].
  cbn [fst snd] in *. destruct (store_write_run w c x Hw Hk Hu Hv) as (b & w1 & E & T & S & P).
  { intros En. split; [exact (H3 _ (or_introl eq_refl) En)|]. cbn [List.filter] in H4. rewrite bool_decide_true in H4 by exact En. cbn [length] in H4. lia. }
  destruct (IH w1 (wp_ok P) (writes_ok_tail _ _ (c, x) l Hl T S (wp_max P))) as (w2 & E2 & W2 & V2).
  exists w2. cbn [store_writes]. unfold mbind, rw_bind. rewrite E, E2. split; [reflexivity|]. split; [exact W2|].
  intros k Hkk. rewrite (V2 k Hkk), (wp_updates P k Hkk). unfold written. cbn [fold_left fst snd]. destruct (decide (k = wr_key x)) as [->|]; reflexivity.
Qed.

Definition checked (l : list Write) : list (bool * Write) := map (pair true) l.

Lemma written_app k l1 l2 old : written k (l1 ++ l2) old = written k l2 (written k l1 old).
Proof. apply fold_left_app. Qed.

(** Checked writes with older numbers neither exceed [s] nor change a version [s]. *)
Lemma written_older k l s : Forall (fun x => wr_key x = k -> wr_seq x < s) l ->
  forall old, (old.2 <= s -> (written k (checked l) old).2 <= s) /\ (old.2 = s -> written k (checked l) old = old).
Proof.
  induction 1 as [|x l Hx _ IH]; intros old; [auto|]. unfold written in *. cbn [checked map fold_left fst snd]. case_decide as E; [|apply IH].
  specialize (Hx (eq_sym E)). rewrite upd_version_check. unfold lww. destruct (Z.ltb_spec (wr_seq x) old.2) as [Hlt|Hge]; [apply IH|].
  split; intros H; [apply IH; cbn; lia|lia].
Qed.

End Contracts.

(** ** Concrete runs *)

(** A FarReach server just opened on an empty database. *)
Definition w_init : Wrapper MemDB.t Z :=
  mkWrapper FARREACH_ID 0 0 (Some MemDB.empty) DeletedSet_default 0 None (Some MemDB.empty)
    DeletedSet_default [] false None DeletedSet_default (fun _ => None).

Lemma w_init_ok : wrapper_ok w_init.
Proof.
  constructor; [now left|]. exists MemDB.empty. split; [reflexivity|]. constructor.
  - intros k str _ E. discriminate E.
  - intros str v E. discriminate E.
  - apply DeletedSet_new_wf.
  - intros k s E. discriminate E.
Qed.

Definition state_of {A} (r : res (A * Wrapper MemDB.t Z)) : Wrapper MemDB.t Z :=
  match r with Ok (_, w) => w | Err _ => w_init end.

Definition val_of (b : Z) : Val := mkVal 1 (Some [b]).

Lemma val_of_wf b : is_byte b -> val_wf (val_of b).
Proof. intros Hb. right. exists [b]. repeat split; try discriminate; auto. Qed.

Lemma key_of_wf n : is_u32 n -> key_wf (key_of n).
Proof. intros Hn. unfold key_wf, key_of, is_u32 in *; cbn. lia. Qed.

#[local] Hint Extern 1 (key_wf (key_of _)) => apply key_of_wf; unfold is_u32; lia : farreach.
#[local] Hint Extern 1 (val_wf (val_of _)) => apply val_of_wf; unfold is_byte; lia : farreach.
#[local] Hint Extern 1 (is_u32 _) => unfold is_u32; lia : farreach.

(** Key 1 written with sequence number 5, key 2 deleted with 9. *)
Definition w_demo1 : Wrapper MemDB.t Z := state_of (put (key_of 1) (val_of 7) 5 false w_init).
Definition w_demo : Wrapper MemDB.t Z := state_of (remove (key_of 2) 9 false w_demo1).

Lemma w_demo_steps : rtc client_step w_init w_demo.
Proof.
  apply (rtc_l _ _ w_demo1).
  - apply (step_put _ _ (key_of 1) (val_of 7) 5 false true); auto with farreach.
  - apply rtc_once. apply (step_remove _ _ (key_of 2) 9 false true); auto with farreach.
    { intros k E. discriminate E. }
    vm_compute. reflexivity.
Qed.

Lemma w_demo_ok : wrapper_ok w_demo.
Proof. apply (client_steps_post _ _ w_demo_steps w_init_ok). Qed.

Lemma client_runs_keep_invariant_witness : wrapper_ok w_demo /\ maxseq w_init <= maxseq w_demo.
Proof.
  destruct (client_runs_keep_invariant w_init w_demo w_demo_steps w_init_ok) as (W & X & _). auto.
Defined.

Lemma get_reads_version_witness :
  exists w', get (key_of 1) Val_default 0 w_demo = Ok ((true, val_of 7, 5), w') /\ wrapper_ok w'.
Proof.
  destruct (get_reads_version w_demo (key_of 1) Val_default 0 w_demo_ok) as (w' & E & W & _);
    [auto with farreach|].
  exists w'. split; [|exact W]. rewrite E. f_equal.
Defined.

Lemma put_last_writer_wins_witness :
  exists w', put (key_of 2) (val_of 3) 8 true w_demo = Ok (false, w') /\
    version w' (key_of 2) = (None, 9).
Proof.
  destruct (put_last_writer_wins w_demo (key_of 2) (val_of 3) 8 true w_demo_ok)
    as (w' & E & _ & _ & _ & V); auto with farreach.
  exists w'. split; [rewrite E; f_equal|]. rewrite V by auto with farreach. reflexivity.
Defined.

Lemma tomb_single ds k0 s0 k s :
  records_sorted_bykey ds = [(k0, s0)] -> tomb ds k = Some s -> s = s0.
Proof. unfold tomb. intros ->. cbn. repeat case_match; congruence. Qed.

Lemma remove_last_writer_wins_witness :
  exists w', remove (key_of 1) 6 true w_demo = Ok (true, w') /\
    version w' (key_of 1) = (None, 6).
Proof.
  destruct (remove_last_writer_wins w_demo (key_of 1) 6 true w_demo_ok)
    as (w' & E & _ & _ & _ & V); auto with farreach.
  - intros k Ht. apply (tomb_single _ (key_of 2) 9) in Ht; [discriminate|reflexivity].
  - vm_compute. reflexivity.
  - exists w'. split; [rewrite E; f_equal|]. rewrite V by auto with farreach. reflexivity.
Defined.

