(* ===== verification/Recover.v ===== *)
(** * Replay of the in-switch backup (farreach/server_impl.h, run_server_recover)

    After a failure each server replays the records aggregated from the
    switch's snapshot and the clients' upstream backups.  The replay uses
    [put] and [remove] with the sequence check, so that it can only bring the
    server forward. *)

From Stdlib Require Import ZArith Lia List.
From stdpp Require Import base tactics list numbers option.
From S2P Require Import Prelude Cursor StdMap DynamicArray Crc32 Key Val DeletedSet KVStore RocksdbWrapper RocksdbProps.

Open Scope Z_scope.

Section Recover.
Context {DB Snap : Type} `{Hkv : KVStore DB Snap}.

(** One iteration of the loop of [run_server_recover]. *)
Definition recover_record (iter : Key * SnapshotRecord) : rw DB Snap unit :=
  let '(tmpkey, tmprecord) := iter in
  if sr_stat tmprecord then
    _ ← put tmpkey (sr_val tmprecord) (sr_seq tmprecord) true; mret tt
  else
    _ ← remove tmpkey (sr_seq tmprecord) true; mret tt.

Fixpoint recover_loop (backupmap : list (Key * SnapshotRecord)) : rw DB Snap unit :=
  match backupmap with
  | [] => mret tt
  | iter :: rest => _ ← recover_record iter; recover_loop rest
  end.

(** [run_server_recover]. *)
Definition run_server_recover (backupmap : list (Key * SnapshotRecord)) : rw DB Snap unit :=
  _ ← recover_loop backupmap;
  flush_latestmaxseq.

Context {Hlaws : KVStoreLaws DB Snap} {Havail : KVStoreAvailable DB Snap}.

(** The new version a record asks for. *)
Definition record_value (r : SnapshotRecord) : option Val :=
  if sr_stat r then Some (sr_val r) else None.

(** The version after replaying the records of [k] found in the backup. *)
Definition merged (backupmap : list (Key * SnapshotRecord)) (k : Key) (old : option Val * Z)
    : option Val * Z :=
  match m_find k backupmap with
  | Some r => lww old (record_value r) (sr_seq r)
  | None => old
  end.

(** The backup can be replayed: distinct keys, well-formed records, no two
    deletions with one sequence number, room for the new deletions. *)
Record backup_ok (ds : DeletedSet) (m : list (Key * SnapshotRecord)) : Prop := {
  bo_sorted : m_sorted m;
  bo_wf : Forall (fun p => key_wf p.1 /\ record_wf p.2) m;
  bo_unique : forall k r k' r', In (k, r) m -> In (k', r') m ->
    sr_stat r = false -> sr_stat r' = false -> sr_seq r = sr_seq r' -> k = k';
  bo_fresh : forall k k' r, In (k', r) m -> sr_stat r = false ->
    tomb ds k = Some (sr_seq r) -> k = k';
  bo_room : ds_size ds + Z.of_nat (length m) <= max_size ds
}.

(** The deletions after a replay: old ones and those of the backup. *)
Definition tombs_from (ds : DeletedSet) (m : list (Key * SnapshotRecord)) (ds' : DeletedSet) : Prop :=
  forall k s, tomb ds' k = Some s ->
    tomb ds k = Some s \/ exists r, In (k, r) m /\ sr_stat r = false /\ sr_seq r = s.

Lemma recover_record_run w k r :
  wrapper_ok w -> key_wf k -> record_wf r ->
  (sr_stat r = false -> seq_fresh (deleted_set w) k (sr_seq r)) ->
  ds_size (deleted_set w) < max_size (deleted_set w) ->
  exists w', recover_record (k, r) w = Ok (tt, w') /\
    tombs_from (deleted_set w) [(k, r)] (deleted_set w') /\
    ds_size (deleted_set w') <= ds_size (deleted_set w) + 1 /\
    write_post w w' k (sr_seq r) (lww (version w k) (record_value r) (sr_seq r)).
Proof using Hlaws Havail.
  intros Hw Hk [Hv Hu] Hf Hr. unfold recover_record, record_value, tombs_from.
  destruct (sr_stat r) eqn:Es.
  - destruct (put_run w k (sr_val r) (sr_seq r) true Hw Hk Hv Hu) as (w' & E & Ht & Hs & Hp).
    exists w'. unfold mbind, rw_bind. rewrite E. rewrite upd_version_check in Hp.
    split; [reflexivity|]. split; [auto|]. split; [lia|exact Hp].
  - destruct (remove_run w k (sr_seq r) true Hw Hk Hu (Hf eq_refl) Hr) as (w' & E & Ht & Hs & Hp).
    exists w'. unfold mbind, rw_bind. rewrite E. rewrite upd_version_check in Hp.
    split; [reflexivity|]. split; [|split; [lia|exact Hp]].
    intros k' s H1. destruct (Ht k' s H1) as [|[-> ->]]; [auto|]. right. exists r. cbn. auto.
Qed.

Lemma backup_ok_tail ds ds' k r m :
  backup_ok ds ((k, r) :: m) -> tombs_from ds [(k, r)] ds' ->
  ds_size ds' <= ds_size ds + 1 -> max_size ds' = max_size ds -> backup_ok ds' m.
Proof.
  intros [H1 H2 H3 H4 H5] Ht Hs Hm. constructor.
  - now inversion H1.
  - now apply Forall_cons_iff in H2.
  - intros ka ra kb rb Ha Hb. apply (H3 ka ra kb rb); now right.
  - intros k1 k2 r2 Hin Hst Htb. destruct (Ht _ _ Htb) as [Hold|(r1 & [[= <- <-]|[]] & Es & Eq)].
    + eapply H4; [right; exact Hin|..]; eassumption.
    + eapply H3; [left; reflexivity|right; exact Hin|..]; assumption.
  - cbn [length] in H5. lia.
Qed.

Definition max_seq (m : list (Key * SnapshotRecord)) (s : Z) : Z :=
  fold_left (fun a p => Z.max a (sr_seq p.2)) m s.

Lemma merged_cons k r m k' old :
  m_sorted ((k, r) :: m) ->
  merged ((k, r) :: m) k' old =
  merged m k' (if decide (k' = k) then lww old (record_value r) (sr_seq r) else old).
Proof.
  intros Hs. inversion_clear Hs as [|? ? ? Hb Hs']. unfold merged. case_decide as E.
  - subst k'. now rewrite m_find_cons_eq, (m_find_below k m).
  - cbn [m_find]. destruct (lessP k k') as [? ? _|? Hk _|]; [reflexivity| |congruence].
    rewrite (m_find_below k' m); [reflexivity|]. eapply key_below_trans; eassumption.
Qed.

Lemma recover_loop_run m : forall w,
  wrapper_ok w -> backup_ok (deleted_set w) m ->
  exists w', recover_loop m w = Ok (tt, w') /\ wrapper_ok w' /\ frame w w' /\
    maxseq w' = max_seq m (maxseq w) /\
    ds_size (deleted_set w') <= ds_size (deleted_set w) + Z.of_nat (length m) /\
    max_size (deleted_set w') = max_size (deleted_set w) /\
    tombs_from (deleted_set w) m (deleted_set w') /\
    (forall k, key_wf k -> version w' k = merged m k (version w k)).
Proof using Hlaws Havail.
  induction m as [|[k r] m IH]; intros w Hw Hb.
  - exists w. split; [reflexivity|]. split; [exact Hw|]. split; [apply frame_refl|].
    split; [reflexivity|]. split; [cbn; lia|]. split; [reflexivity|].
    split; [intros ? ?; auto|reflexivity].
  - pose proof Hb as [Hs Hf Hu Hfr Hroom]. apply Forall_cons_iff in Hf as [[Hk Hr] Hf].
    cbn [length fst snd] in *.
    destruct (recover_record_run w k r Hw Hk Hr) as (w1 & E1 & T1 & S1 & P1); [|lia|].
    { intros Es k' Ht. eapply Hfr; [left; reflexivity|..]; assumption. }
    pose proof (wp_max P1) as M1.
    destruct (IH w1 (wp_ok P1) (backup_ok_tail _ _ _ _ _ Hb T1 S1 M1))
      as (w2 & E2 & W2 & F2 & X2 & S2 & M2 & T2 & V2).
    exists w2. cbn [recover_loop]. unfold mbind, rw_bind. rewrite E1, E2.
    split; [reflexivity|]. split; [exact W2|].
    split; [eapply frame_trans; [apply wrapper_ok_db, P1|apply P1|exact F2]|].
    split; [rewrite X2, (wp_maxseq P1); reflexivity|]. split; [lia|]. split; [congruence|]. split.
    + intros k' s H1. destruct (T2 k' s H1) as [H2|(r2 & ? & ? & ?)].
      * destruct (T1 k' s H2) as [|(r1 & [[= <- <-]|[]] & ? & ?)]; [auto|].
        right. exists r. cbn. auto.
      * right. exists r2. cbn. auto.
    + intros k' Hk'. rewrite V2, (wp_updates P1 k' Hk'), merged_cons by assumption.
      case_decide as Ek; [now subst k'|reflexivity].
Qed.

(** Replaying the backup brings every key of the backup to the newer of its
    stored version and the backup's, leaves every other key and the snapshots
    alone, and leaves on disk the largest sequence number seen; no assertion
    fails. *)
Lemma recover_brings_forward (w : Wrapper DB Snap) (m : list (Key * SnapshotRecord)) :
  wrapper_ok w -> backup_ok (deleted_set w) m ->
  exists w', run_server_recover m w = Ok (tt, w') /\ wrapper_ok w' /\
    (forall k, key_wf k -> version w' k = merged m k (version w k)) /\
    maxseq w' = max_seq m (maxseq w) /\
    disk w' (latestmaxseq_path (workerid w)) = Some (le_bytes 4 (maxseq w')).
Proof using Hlaws Havail.
  intros Hw Hb. destruct (recover_loop_run m w Hw Hb) as (w' & E & W & F & X & _ & _ & _ & V).
  eexists. unfold run_server_recover, flush_latestmaxseq, store_maxseq, write_file.
  unfold mbind, rw_bind at 1. rewrite E. split; [rw_simpl; reflexivity|].
  split; [constructor; [apply W|apply (wo_store w' W)]|]. split; [exact V|]. split; [exact X|].
  rw_simpl. unfold disk_write. rewrite decide_True; [reflexivity|].
  f_equal. symmetry. apply F.
Qed.

Lemma lww_idem old new seq : lww (lww old new seq) new seq = lww old new seq.
Proof.
  unfold lww. destruct (Z.ltb_spec seq old.2); cbn [snd].
  - now rewrite (proj2 (Z.ltb_lt _ _)).
  - now rewrite Z.ltb_irrefl.
Qed.

Lemma merged_idem m k old : merged m k (merged m k old) = merged m k old.
Proof. unfold merged. destruct (m_find k m); [apply lww_idem|reflexivity]. Qed.

(** Recovery can be run again: replaying the backup a second time changes no
    version. *)
Theorem recover_idempotent (w : Wrapper DB Snap) (m : list (Key * SnapshotRecord)) :
  wrapper_ok w -> backup_ok (deleted_set w) m ->
  ds_size (deleted_set w) + 2 * Z.of_nat (length m) <= max_size (deleted_set w) ->
  exists w' w'', run_server_recover m w = Ok (tt, w') /\ run_server_recover m w' = Ok (tt, w'') /\
    forall k, key_wf k -> version w'' k = version w' k.
Proof using Hlaws Havail.
  intros Hw Hb Hroom. destruct (recover_loop_run m w Hw Hb) as (w1 & E & W & _ & _ & S1 & M1 & T1 & V).
  set (w' := set_disk (disk_write (latestmaxseq_path (workerid w1)) (le_bytes 4 (maxseq w1)) (disk w1)) w1).
  assert (W' : wrapper_ok w') by (constructor; [apply W|apply (wo_store w1 W)]).
  assert (Hb' : backup_ok (deleted_set w') m).
  { destruct Hb as [H1 H2 H3 H4 H5]. constructor; auto; unfold w'; rw_simpl; [|lia].
    intros k k' r Hin Hst Ht. destruct (T1 _ _ Ht) as [|(r1 & Hin1 & Hst1 & Heq)]; [eauto|].
    eapply H3; [exact Hin1|exact Hin|..]; congruence. }
  destruct (recover_loop_run m w' W' Hb') as (w2 & E2 & _ & _ & _ & _ & _ & _ & V2).
  exists w'. eexists. unfold run_server_recover, flush_latestmaxseq, store_maxseq, write_file.
  unfold mbind, rw_bind at 1. rewrite E. split; [reflexivity|].
  unfold rw_bind at 1. rewrite E2. split; [rw_simpl; reflexivity|].
  intros k Hk. change (version w2 k = version w1 k).
  rewrite V2 by assumption. change (version w' k) with (version w1 k).
  rewrite V by assumption. apply merged_idem.
Qed.
End Recover.

(** ** Concrete runs *)

(** A backup that rewrites key 1 and deletes key 3. *)
Definition backup_demo : list (Key * SnapshotRecord) :=
  [(key_of 1, mkSnapshotRecord (val_of 8) 6 true); (key_of 3, mkSnapshotRecord Val_default 12 false)].

Lemma backup_demo_ok : backup_ok (deleted_set w_demo) backup_demo.
Proof.
  constructor.
  - repeat constructor.
  - constructor; [|constructor; [|constructor]]; (split; [apply key_of_wf; unfold is_u32; lia|]).
    + split; [apply val_of_wf; unfold is_byte; lia|unfold is_u32; cbn; lia].
    + split; [now left|unfold is_u32; cbn; lia].
  - intros k r k' r' [[= <- <-]|[[= <- <-]|[]]] [[= <- <-]|[[= <- <-]|[]]]; discriminate || reflexivity.
  - intros k k' r [[= <- <-]|[[= <- <-]|[]]] Hst Ht; [discriminate|].
    apply (tomb_single _ (key_of 2) 9) in Ht; [discriminate|reflexivity].
  - vm_compute. discriminate.
Qed.

Lemma recover_idempotent_witness :
  exists w' w'', run_server_recover backup_demo w_demo = Ok (tt, w') /\
    run_server_recover backup_demo w' = Ok (tt, w'') /\
    version w'' (key_of 1) = version w' (key_of 1).
Proof.
  destruct (recover_idempotent w_demo backup_demo w_demo_ok backup_demo_ok)
    as (w' & w'' & E & E' & V); [vm_compute; discriminate|].
  exists w', w''. split; [exact E|]. split; [exact E'|]. apply V, key_of_wf. unfold is_u32. lia.
Defined.
