(* ===== verification/MergeSort.v ===== *)
(** * Merging sorted results (RocksdbWrapper::merge_sort)

    A range query merges the database, the deletions and the in-switch
    snapshot.  The merge of two ascending lists is ascending and holds, for each
    key, the record with the larger sequence number. *)

From Stdlib Require Import ZArith Lia List.
From stdpp Require Import base tactics list numbers option.
From S2P Require Import Prelude Cursor StdMap DynamicArray Crc32 Key Val DeletedSet KVStore RocksdbWrapper RocksdbProps.

Open Scope Z_scope.

Abbreviation records := (list (Key * SnapshotRecord)).

(** The newer of two records of a key; the first on a tie. *)
Definition newer (x y : option SnapshotRecord) : option SnapshotRecord :=
  match x, y with
  | Some a, Some b => Some (if sr_seq b <=? sr_seq a then a else b)
  | Some a, None => Some a
  | None, _ => y
  end.

(** With [need_exist] deletions are dropped. *)
Definition visible (need_exist : bool) (x : option SnapshotRecord) : option SnapshotRecord :=
  match x with
  | Some r => if negb need_exist || sr_stat r then Some r else None
  | None => None
  end.

Lemma m_find_filter need (m : records) k :
  m_sorted m -> m_find k (List.filter (ms_keep need) m) = visible need (m_find k m).
Proof.
  induction 1 as [|k1 r1 m Hb Hs IH]; [reflexivity|]. cbn [List.filter].
  assert (Hf : forall k', less k1 k' = false -> m_find k' (List.filter (ms_keep need) m) = None).
  { intros k' Hk'. apply m_find_below. apply Forall_forall. intros p Hp.
    apply List.filter_In in Hp as [Hp _]. rewrite Forall_forall in Hb.
    specialize (Hb p Hp). unfold key_below in *.
    destruct (lessP k1 k') as [? ? _|? Hl _|]; [congruence| |now subst].
    exact (less_trans _ _ _ Hl Hb). }
  cbn [m_find]. unfold ms_keep at 1; cbn [snd].
  destruct (lessP k1 k) as [H1 H2 Hn|H1 H2 Hn|E H1 H2].
  - destruct (_ || _); cbn [m_find]; now rewrite ?H1.
  - destruct (_ || _); cbn [m_find]; rewrite ?H1, ?H2; [reflexivity|]. now rewrite Hf.
  - subst k1. cbn [visible]. destruct (_ || _) eqn:E; cbn [m_find]; rewrite ?H1; [reflexivity|].
    now rewrite Hf.
Qed.

Lemma m_filter_sorted need (m : records) : m_sorted m -> m_sorted (List.filter (ms_keep need) m).
Proof.
  induction 1 as [|k1 r1 m Hb Hs IH]; cbn [List.filter]; [constructor|].
  destruct (ms_keep need (k1, r1)); [|exact IH]. constructor; [|exact IH].
  rewrite Forall_forall in *. intros p [Hp _]%List.filter_In. auto.
Qed.

Lemma key_gt_less a b : key_gt a b = less b a.
Proof. apply key_operators. Qed.

Lemma merge_loop_nil_l need b : merge_loop need [] b = Ok (List.filter (ms_keep need) b).
Proof. now destruct b. Qed.

Lemma merge_loop_nil_r need a : merge_loop need a [] = Ok (List.filter (ms_keep need) a).
Proof. now destruct a. Qed.

Lemma merge_loop_cons need a la b lb :
  merge_loop need (a :: la) (b :: lb) =
  if key_lt a.1 b.1 then
    rs ← merge_loop need la (b :: lb); Ok (if ms_keep need a then a :: rs else rs)
  else if key_gt a.1 b.1 then
    rs ← merge_loop need (a :: la) lb; Ok (if ms_keep need b then b :: rs else rs)
  else
    _ ← INVARIANT need;
    rs ← merge_loop need la lb;
    Ok (if ms_keep need (if sr_seq b.2 <=? sr_seq a.2 then a else b)
        then (if sr_seq b.2 <=? sr_seq a.2 then a else b) :: rs else rs).
Proof. reflexivity. Qed.

Lemma merge_loop_Forall need (P : Key * SnapshotRecord -> Prop) a : forall b rs,
  merge_loop need a b = Ok rs -> Forall P a -> Forall P b -> Forall P rs.
Proof.
  assert (Hflt : forall l, Forall P l -> Forall P (List.filter (ms_keep need) l)).
  { intros l Hl. rewrite Forall_forall in *. intros p [Hp _]%List.filter_In. auto. }
  induction a as [|pa a IHa]; intros b.
  { intros rs E _ Hb. rewrite merge_loop_nil_l in E. inversion_clear E. now apply Hflt. }
  induction b as [|pb b IHb]; intros rs E Ha Hb.
  { rewrite merge_loop_nil_r in E. inversion_clear E. exact (Hflt (pa :: a) Ha). }
  apply Forall_cons_iff in Ha as [Hpa Ha]. apply Forall_cons_iff in Hb as [Hpb Hb].
  rewrite merge_loop_cons in E.
  destruct (key_lt pa.1 pb.1); [|destruct (key_gt pa.1 pb.1)].
  - apply bind_Ok in E as (rs' & E & [= <-]).
    pose proof (IHa _ _ E Ha (Forall_cons _ _ _ Hpb Hb)). destruct (ms_keep need pa); auto.
  - apply bind_Ok in E as (rs' & E & [= <-]).
    pose proof (IHb _ E (Forall_cons _ _ _ Hpa Ha) Hb). destruct (ms_keep need pb); auto.
  - apply bind_Ok in E as (u & _ & E). apply bind_Ok in E as (rs' & E & [= <-]).
    pose proof (IHa _ _ E Ha Hb). destruct (_ <=? _); destruct (ms_keep _ _); auto.
Qed.

(** Adding a record in front of a result whose keys are larger. *)
Lemma m_find_keep need k1 r1 (rs : records) k :
  Forall (key_below k1) rs ->
  m_find k (if ms_keep need (k1, r1) then (k1, r1) :: rs else rs) =
  if decide (k = k1) then visible need (Some r1) else m_find k rs.
Proof.
  intros Hb. unfold ms_keep; cbn [snd visible].
  destruct (decide (k = k1)) as [-> |Hne].
  - destruct (_ || _); [apply m_find_cons_eq|now apply m_find_below].
  - destruct (_ || _); [|reflexivity]. cbn [m_find].
    destruct (lessP k1 k) as [? ? _|? Hk _|]; [reflexivity| |congruence].
    symmetry. apply m_find_below. eapply key_below_trans; eassumption.
Qed.

Lemma m_sorted_keep need k1 r1 (rs : records) :
  Forall (key_below k1) rs -> m_sorted rs ->
  m_sorted (if ms_keep need (k1, r1) then (k1, r1) :: rs else rs).
Proof. intros Hb Hs. destruct (ms_keep need (k1, r1)); [now constructor|exact Hs]. Qed.

(** The keys of the two lists that must not meet when deletions are kept. *)
Definition disjoint (a b : records) : Prop := forall k, m_find k a = None \/ m_find k b = None.

Lemma m_find_cons_ne (k k1 : Key) (r : SnapshotRecord) m :
  m_sorted ((k1, r) :: m) -> k <> k1 -> m_find k ((k1, r) :: m) = m_find k m.
Proof.
  intros Hs Hne. inversion_clear Hs as [|? ? ? Hb Hs']. cbn [m_find].
  destruct (lessP k1 k) as [? ? _|? Hk _|]; [reflexivity| |congruence].
  symmetry. apply m_find_below. eapply key_below_trans; eassumption.
Qed.

Lemma merge_loop_spec need a : forall b,
  m_sorted a -> m_sorted b -> need = true \/ disjoint a b ->
  exists rs, merge_loop need a b = Ok rs /\ m_sorted rs /\
    forall k, m_find k rs = visible need (newer (m_find k a) (m_find k b)).
Proof.
  induction a as [|[ka ra] a IHa]; intros b.
  { intros _ Hb _. exists (List.filter (ms_keep need) b). split; [destruct b; reflexivity|].
    split; [now apply m_filter_sorted|]. intros k. now rewrite m_find_filter. }
  induction b as [|[kb rb] b IHb]; intros Ha Hb Hd.
  { eexists; split; [reflexivity|]. split; [now apply m_filter_sorted|].
    intros k. rewrite m_find_filter by assumption. now destruct (m_find k _). }
  pose proof Ha as Ha0. pose proof Hb as Hb0.
  inversion_clear Ha0 as [|? ? ? Hba Hsa]. inversion_clear Hb0 as [|? ? ? Hbb Hsb].
  rewrite merge_loop_cons. cbn [fst]. rewrite key_gt_less. change (key_lt ka kb) with (less ka kb).
  destruct (lessP ka kb) as [H1 H2 Hne|H1 H2 Hne|E H1 H2].
  - destruct (IHa ((kb, rb) :: b)) as (rs & E & S & F); [assumption..| |].
    { destruct Hd as [|Hd]; [auto|]. right. intros k. destruct (decide (k = ka)) as [-> |Hk].
      - left. now apply m_find_below.
      - rewrite <- (m_find_cons_ne k ka ra a) by assumption. apply Hd. }
    assert (B : Forall (key_below ka) rs).
    { eapply merge_loop_Forall; [exact E|exact Hba|]. constructor; [exact H1|].
      eapply key_below_trans; eassumption. }
    rewrite E. cbn [mbind res_bind]. eexists; split; [reflexivity|].
    split; [now apply m_sorted_keep|]. intros k. rewrite m_find_keep by assumption. case_decide as Ek.
    + subst k. now rewrite m_find_cons_eq, m_find_lt.
    + now rewrite F, (m_find_cons_ne k ka) by assumption.
  - destruct IHb as (rs & E & S & F); [assumption..| |].
    { destruct Hd as [|Hd]; [auto|]. right. intros k. destruct (decide (k = kb)) as [-> |Hk].
      - right. now apply m_find_below.
      - rewrite <- (m_find_cons_ne k kb rb b) by assumption. apply Hd. }
    assert (B : Forall (key_below kb) rs).
    { eapply merge_loop_Forall; [exact E| |exact Hbb]. constructor; [exact H2|].
      eapply key_below_trans; eassumption. }
    rewrite E. cbn [mbind res_bind]. eexists; split; [reflexivity|].
    split; [now apply m_sorted_keep|]. intros k. rewrite m_find_keep by assumption. case_decide as Ek.
    + subst k. now rewrite m_find_cons_eq, m_find_lt.
    + now rewrite F, (m_find_cons_ne k kb) by assumption.
  - subst kb. destruct Hd as [-> |Hd].
    2:{ destruct (Hd ka) as [Hd'|Hd']; now rewrite m_find_cons_eq in Hd'. }
    destruct (IHa b) as (rs & E & S & F); [auto..|].
    assert (B : Forall (key_below ka) rs) by (eapply merge_loop_Forall; eassumption).
    rewrite E. cbn [mbind res_bind INVARIANT snd]. eexists; split; [reflexivity|].
    assert (Ec : (if sr_seq rb <=? sr_seq ra then (ka, ra) else (ka, rb)) =
                 (ka, if sr_seq rb <=? sr_seq ra then ra else rb)) by (now destruct (_ <=? _)).
    rewrite Ec. split; [now apply m_sorted_keep|]. intros k. rewrite m_find_keep by assumption.
    case_decide as Ek.
    + subst k. now rewrite !m_find_cons_eq.
    + now rewrite F, !(m_find_cons_ne k ka) by assumption.
Qed.
