(* ===== verification/Snapshot.v ===== *)
(** * Range queries and snapshots

    [range_scan] reads three ordered sources: the database snapshot, the
    deletions recorded with it and the in-switch snapshot.  The theorems show
    what a query returns, that it does not see later writes, and that
    [make_snapshot] followed by [update_snapshot] publishes exactly the state of
    the server at [make_snapshot] together with the in-switch records.  Each source
    is cut to the requested number of records before the merge: [reached] are the keys
    for which this makes no difference, and [range_scan_skips_key] shows what happens
    to others. *)

From Stdlib Require Import ZArith Lia List.
From stdpp Require Import base tactics list numbers option relations.
From S2P Require Import Prelude Cursor StdMap DynamicArray Crc32 Key Val DeletedSet KVStore RocksdbWrapper RocksdbProps MergeSort.

Open Scope Z_scope.

Abbreviation ks := to_string_for_rocksdb.

(** ** The database iterator *)

Definition encode (p : Key * (Val * Z)) : bytes * bytes := (ks p.1, enc p.2.1 p.2.2).
Definition as_record (p : Key * (Val * Z)) : Key * SnapshotRecord :=
  (p.1, mkSnapshotRecord p.2.1 p.2.2 true).
Definition entry_wf (p : Key * (Val * Z)) : Prop :=
  key_wf p.1 /\ val_wf p.2.1 /\ is_u32 p.2.2.

Lemma Forall_map_inv {A B} (f : A -> B) (Q : A -> Prop) (l : list B) :
  Forall (fun b => exists a, Q a /\ b = f a) l -> exists la, Forall Q la /\ l = map f la.
Proof.
  induction 1 as [|b l (a & Ha & ->) _ (la & Hla & ->)]; [exists []; auto|].
  exists (a :: la). auto.
Qed.

(** The loop decodes the first [scanrecordcnt] entries. *)
Lemma scan_db_loop_run D : forall idx cnt,
  Forall entry_wf D -> 0 <= idx <= cnt ->
  scan_db_loop (map encode D) idx cnt = Ok (map as_record (take (Z.to_nat (cnt - idx)) D)).
Proof.
  induction D as [|[k [v s]] D IH]; intros idx cnt Hf Hi.
  - cbn. now rewrite take_nil.
  - apply Forall_cons_iff in Hf as [(Hk & Hv & Hs) Hf]. cbn [fst snd] in *.
    cbn [scan_db_loop map encode fst snd]. rewrite from_to_string by assumption. cbn [mbind res_bind].
    destruct (Z.leb_spec cnt idx).
    + replace (cnt - idx) with 0 by lia. reflexivity.
    + rewrite enc_not_nil. cbn [negb INVARIANT mbind res_bind]. unfold enc.
      rewrite Val_from_to_string by assumption. cbn [mbind res_bind].
      rewrite IH by (assumption || lia). cbn [mbind res_bind].
      replace (Z.to_nat (cnt - idx)) with (S (Z.to_nat (cnt - (idx + 1)))) by lia. reflexivity.
Qed.

Lemma encode_sorted D : Forall entry_wf D -> m_sorted (map encode D) -> m_sorted D.
Proof.
  induction 1 as [|[k [v s]] D (Hk & _) Hf IH]; intros Hs; [constructor|].
  cbn [map encode fst snd] in Hs. inversion_clear Hs as [|? ? ? Hb Hs'].
  constructor; [|auto]. rewrite List.Forall_forall in *. intros p Hp.
  specialize (Hb (encode p) (in_map encode _ _ Hp)). destruct (Hf p Hp) as (Hk' & _).
  unfold key_below in *. cbn [encode fst] in Hb. unfold less, bytes_less_inst in Hb.
  rewrite to_string_less in Hb by assumption. exact Hb.
Qed.

(** ** The in-switch snapshot file *)

Definition inswitch_wf (p : Key * SnapshotRecord) : Prop :=
  key_wf p.1 /\ record_wf p.2 /\ val_length (sr_val p.2) < 2 ^ 16.

(** Bytes of one record, and of all of them. *)
Definition inswitch_record_size (p : Key * SnapshotRecord) : nat :=
  (16 + (val_wire_size (sr_val p.2) + (4 + 1)))%nat.

Fixpoint inswitch_size (rs : records) : nat :=
  match rs with [] => O | p :: rs' => (inswitch_record_size p + inswitch_size rs')%nat end.

Definition inserts (rs : records) (m : records) : records :=
  fold_left (fun m p => m_insert p.1 p.2 m) rs m.

Lemma codec_inswitch_loop rs : forall m fs pos,
  Forall inswitch_wf rs -> 0 <= pos ->
  pos + Z.of_nat (inswitch_size rs) <= MAX_LARGE_BUFSIZE ->
  pos + Z.of_nat (inswitch_size rs) <= fs < 2 ^ 32 ->
  codec (store_inswitch_loop rs) (load_inswitch_loop (length rs) fs m) pos
        (inswitch_size rs) tt (inserts rs m).
Proof.
  unfold MAX_LARGE_BUFSIZE.
  induction rs as [|[k r] rs IH]; intros m fs pos Hf Hpos Hw Hr;
    cbn [store_inswitch_loop load_inswitch_loop length inserts fold_left]; [apply codec_ret|].
  apply Forall_cons_iff in Hf as [(Hk & [Hv Hs] & Hl) Hf]. cbn [fst snd] in *.
  cbn [inswitch_size] in *. unfold inswitch_record_size in *. cbn [snd] in *.
  apply codec_woff; [lia|]. apply codec_roff; [lia|].
  eapply codec_weaken.
  - eapply codec_bind.
    { unfold MAX_LARGE_BUFSIZE. apply codec_Key; [exact Hk|rewrite u32_id by (unfold is_u32; lia); lia..]. }
    apply codec_woff; [lia|]. apply codec_roff; [lia|].
    eapply codec_bind.
    { unfold MAX_LARGE_BUFSIZE. apply codec_Val; [exact Hv|exact Hl|rewrite u32_id by (unfold is_u32; lia); lia..]. }
    eapply codec_bind; [apply codec_u32; exact Hs|].
    eapply codec_bind; [apply codec_bool|].
    replace (mkSnapshotRecord (sr_val r) (sr_seq r) (sr_stat r)) with r by (now destruct r).
    apply IH; [exact Hf|lia..].
  - lia.
  - reflexivity.
  - reflexivity.
Qed.

(** The file read back: the first four bytes are the number of records. *)
Definition inswitch_file (rs : records) (c : bytes) : Prop :=
  run_writer (store_inswitch_writer rs) (replicate (Z.to_nat MAX_LARGE_BUFSIZE) 0) =
    Ok (Z.of_nat (4 + inswitch_size rs), c) /\
  run_reader (load_inswitch_reader (Z.of_nat (4 + inswitch_size rs)))
    (take (4 + inswitch_size rs) c) = Ok (inserts rs []) /\
  length (take (4 + inswitch_size rs) c) = (4 + inswitch_size rs)%nat.

Lemma length_inswitch rs : (length rs <= inswitch_size rs)%nat.
Proof. induction rs; cbn; unfold inswitch_record_size; lia. Qed.

Lemma inswitch_file_ok rs :
  Forall inswitch_wf rs -> 4 + Z.of_nat (inswitch_size rs) <= MAX_LARGE_BUFSIZE ->
  exists c, inswitch_file rs c.
Proof.
  intros Hf Hsz. pose proof (length_inswitch rs) as Hlen.
  assert (C : codec (store_inswitch_writer rs)
    (load_inswitch_reader (Z.of_nat (4 + inswitch_size rs))) 0 (4 + inswitch_size rs)
    (Z.of_nat (4 + inswitch_size rs)) (inserts rs [])).
  { unfold store_inswitch_writer, load_inswitch_reader, MAX_LARGE_BUFSIZE in *.
    apply (codec_bind (w_put (le_bytes 4 (m_size rs))) r_u32 _ _ 0 4 _ tt (m_size rs)).
    - apply (codec_u32 (m_size rs)). unfold is_u32, m_size. lia.
    - unfold m_size. rewrite s32_id by (unfold is_s32; lia). rewrite Nat2Z.id.
      eapply codec_wend.
      + apply codec_inswitch_loop; [exact Hf|lia|unfold MAX_LARGE_BUFSIZE; lia|lia].
      + intros st Hd. unfold w_off. rewrite Hd, u32_id by (unfold is_u32; lia).
        do 2 f_equal. lia. }
  destruct (codec_run _ _ _ _ (replicate (Z.to_nat MAX_LARGE_BUFSIZE) 0) C) as (c & E & L & _ & R).
  { rewrite length_replicate. lia. }
  exists c. split; [exact E|]. rewrite length_replicate in L. split.
  - rewrite <- (app_nil_r (take _ _)). apply R.
  - rewrite length_take. lia.
Qed.

Section Scan.
Context {DB Snap : Type} `{Hkv : KVStore DB Snap}.
Context {Hlaws : KVStoreLaws DB Snap} {Havail : KVStoreAvailable DB Snap}.

(** The entries of a database from a key on. *)
Lemma iter_entries db ds b start :
  store_ok db ds b -> key_wf start ->
  exists D, db_Iter db (ks start) = map encode D /\ Forall entry_wf D /\ m_sorted D /\
    forall k v s, key_wf k -> val_wf v -> is_u32 s ->
      In (k, (v, s)) D <-> less k start = false /\ db_Get db (ks k) = (StOk, enc v s).
Proof using Hlaws.
  intros Hs Hst.
  assert (Hall : Forall (fun p => exists e, entry_wf e /\ p = encode e) (db_Iter db (ks start))).
  { apply List.Forall_forall. intros [str str'] Hi. apply iter_In in Hi as [_ Hg].
    destruct (so_keys _ _ _ Hs str str' Hg) as (k & Hk & ->).
    destruct (so_enc _ _ _ Hs k str' Hk Hg) as (v & s & Hv & Hu & _ & -> & _).
    exists (k, (v, s)). split; [|reflexivity]. repeat split; auto; apply Hk || apply Hu. }
  apply Forall_map_inv in Hall as (D & HD & E). exists D. split; [exact E|]. split; [exact HD|].
  pose proof (iter_sorted db (ks start)) as Hsort. rewrite E in Hsort.
  split; [now apply encode_sorted|]. intros k v s Hk Hv Hu.
  change (less k start) with (key_lt k start). rewrite <- (to_string_less k start) by assumption.
  rewrite <- (iter_In db (ks start) (ks k) (enc v s)), E, in_map_iff. split.
  - intros Hi. exists (k, (v, s)). auto.
  - intros ([k' [v' s']] & Eq & Hi). rewrite List.Forall_forall in HD.
    destruct (HD _ Hi) as (Hk' & Hv' & Hu'). cbn [fst snd] in *. pose proof (f_equal fst Eq) as E1. pose proof (f_equal snd Eq) as E2. cbn [encode fst snd] in E1, E2.
    apply ks_inj in E1; auto. subst k'.
    pose proof (Val_from_to_string v s Hv Hu) as R1. fold (enc v s) in R1. rewrite <- E2 in R1.
    unfold enc in R1. rewrite Val_from_to_string in R1 by assumption. congruence.
Qed.

(** What a server-side snapshot holds for a key. *)
Definition snap_record (db : DB) (ds : DeletedSet) (k : Key) : option SnapshotRecord :=
  match version_of db ds k with
  | (Some v, s) => Some (mkSnapshotRecord v s true)
  | (None, _) => (fun s => mkSnapshotRecord Val_default s false) <$> tomb ds k
  end.

(** What a range query shows for a key: the newest record of the server-side
    and the in-switch snapshot, unless it is a deletion. *)
Definition scan_view (db : DB) (ds : DeletedSet) (ins : records) (k : Key) : option SnapshotRecord :=
  visible true (newer (snap_record db ds k) (m_find k ins)).

Lemma m_find_map_record (f : Z -> SnapshotRecord) (m : list (Key * Z)) k :
  m_find k (map (fun r => (r.1, f r.2)) m) = f <$> m_find k m.
Proof. induction m as [|[k1 s1] m IH]; cbn; [reflexivity|]. repeat case_match; auto. Qed.

Lemma find_db_results db ds b start D k :
  store_ok db ds b -> key_wf k -> m_sorted D -> Forall entry_wf D ->
  (forall k v s, key_wf k -> val_wf v -> is_u32 s ->
      In (k, (v, s)) D <-> less k start = false /\ db_Get db (ks k) = (StOk, enc v s)) ->
  m_find k (map as_record D) =
  if less k start then None
  else match version_of db ds k with
       | (Some v, s) => Some (mkSnapshotRecord v s true) | (None, _) => None end.
Proof using Havail.
  intros Hs Hk HsD HD Hin.
  assert (Hsort : m_sorted (map as_record D)) by (apply m_map_sorted; [reflexivity|exact HsD]).
  assert (Hfind : forall r, m_find k (map as_record D) = Some r <->
    exists v s, In (k, (v, s)) D /\ r = mkSnapshotRecord v s true).
  { intros r. rewrite m_find_In, in_map_iff by assumption. split.
    - intros ([k' [v s]] & [= -> <-] & Hi). eauto.
    - intros (v & s & Hi & ->). exists (k, (v, s)). auto. }
  rewrite List.Forall_forall in HD.
  destruct (less k start) eqn:El.
  - destruct (m_find k (map as_record D)) as [r|] eqn:E; [|reflexivity].
    destruct (proj1 (Hfind r) eq_refl) as (v & s & Hi & ->). destruct (HD _ Hi) as (_ & Hv & Hu).
    apply Hin in Hi; [|assumption..]. destruct Hi; congruence.
  - destruct (db_Get_cases db ds b k Hs Hk) as [[Eg ->]|(v & s & Hv & Hu & _ & Eg & _ & ->)].
    + destruct (m_find k (map as_record D)) as [r|] eqn:E; [|reflexivity].
      destruct (proj1 (Hfind r) eq_refl) as (v & s & Hi & ->). destruct (HD _ Hi) as (_ & Hv & Hu).
      apply Hin in Hi; [|assumption..]. destruct Hi; congruence.
    + apply Hfind. exists v, s. split; [|reflexivity]. apply Hin; auto.
Qed.

Lemma merge_sort_run (w : Wrapper DB Snap) a b need :
  (methodid w = FARREACH_ID \/ methodid w = DISTFARREACH_ID) ->
  m_sorted a -> m_sorted b -> need = true \/ disjoint a b ->
  exists rs, merge_sort a b need w = Ok (rs, w) /\ m_sorted rs /\
    forall k, m_find k rs = visible need (newer (m_find k a) (m_find k b)).
Proof.
  intros Hm Ha Hb Hd. destruct (merge_loop_spec need a b Ha Hb Hd) as (rs & E & S & F).
  exists rs. split; [|auto]. unfold merge_sort, method_needsnapshot. rw_simpl.
  assert (E2 : (match a, b with
        | [], _ => if negb need then Ok b else Ok (List.filter (fun p => sr_stat p.2) b)
        | _, [] => if negb need then Ok a else Ok (List.filter (fun p => sr_stat p.2) a)
        | _, _ => merge_loop need a b
        end) = Ok rs).
  { assert (Hall : forall l : records, List.filter (ms_keep false) l = l).
    { intros l. induction l as [|p l IH]; cbn; [reflexivity|]. now rewrite IH. }
    destruct a as [|pa a]; [|destruct b as [|pb b]; [|exact E]].
    - rewrite <- E, merge_loop_nil_l. destruct need; [reflexivity|]. now rewrite Hall.
    - rewrite <- E, merge_loop_nil_r. destruct need; [reflexivity|]. now rewrite Hall. }
  rewrite E2. destruct Hm as [-> | ->]; reflexivity.
Qed.

Lemma scanrecordcnt_pos start end_ cnt : get_scanrecordcnt start end_ = Ok cnt -> 0 < cnt.
Proof.
  unfold get_scanrecordcnt. intros ([] & Hc & Hc')%bind_Ok.
  apply INVARIANT_Ok in Hc. apply bind_Ok in Hc' as ([] & _ & [= <-]). lia.
Qed.

Lemma m_lower_bound_below start (m : records) k :
  m_sorted m -> less k start = true -> m_find k (m_lower_bound start m) = None.
Proof. intros Hs Hl. rewrite m_lower_bound_find by assumption. now rewrite Hl. Qed.

(** ** Sources that are cut

    A range query reads at most [n] records of every source.  A key that is not
    behind the [n]-th of them is found as in the whole source. *)
Definition upto {V} (k : Key) (n : nat) (m : list (Key * V)) : Prop :=
  forall e, m !! (n - 1)%nat = Some e -> less e.1 k = false.

Lemma m_find_take {V} (k : Key) (m : list (Key * V)) : forall n, (0 < n)%nat -> upto k n m -> m_find k (take n m) = m_find k m.
Proof.
  induction m as [|[k1 v1] m IH]; intros [|n] Hn Hu; try (lia || reflexivity). cbn [take m_find]. destruct (less k1 k) eqn:E; [|reflexivity].
  destruct n as [|n]; [specialize (Hu _ eq_refl); cbn in Hu; congruence|]. apply IH; [lia|]. intros e He. apply Hu. cbn in *. now rewrite Nat.sub_0_r in He.
Qed.

Lemma m_find_take_Some {V} (k : Key) (m : list (Key * V)) r : forall n, m_find k (take n m) = Some r -> m_find k m = Some r.
Proof.
  induction m as [|[k1 v1] m IH]; intros [|n]; try (discriminate || auto). cbn [take m_find]. destruct (less k1 k); [apply IH|auto].
Qed.

Lemma upto_map {V W} (f : Key * V -> Key * W) k n m : (forall e, (f e).1 = e.1) -> upto k n m -> upto k n (map f m).
Proof. intros Hf Hu e He. rewrite list_lookup_fmap in He. apply fmap_Some in He as (e' & He & ->). rewrite Hf. now apply Hu. Qed.

(** [k] is not behind the [cnt]-th record from [start] on, of the store, of the
    deletions and of the records of the switch. *)
Record reached (db : DB) (ds : DeletedSet) (ins : records) (start : Key) (cnt : Z) (k : Key) : Prop := {
  rc_store : forall k' v, key_wf k' -> db_Iter db (ks start) !! (Z.to_nat cnt - 1)%nat = Some (ks k', v) -> less k' k = false;
  rc_deleted : upto k (Z.to_nat cnt) (m_lower_bound start (records_sorted_bykey ds));
  rc_switch : upto k (Z.to_nat cnt) (m_lower_bound start ins)
}.

(** Sources that are read to their end reach every key. *)
Lemma reached_short db ds (ins : records) start cnt k : Z.of_nat (length (db_Iter db (ks start))) < cnt ->
  Z.of_nat (length (m_lower_bound start (records_sorted_bykey ds))) < cnt -> Z.of_nat (length (m_lower_bound start ins)) < cnt ->
  reached db ds ins start cnt k.
Proof.
  intros H1 H2 H3. constructor; [intros k' v _ He|intros e He|intros e He]; apply lookup_lt_Some in He; lia.
Qed.

Definition tombs (start : Key) (ds : DeletedSet) : records :=
  map (fun r => (r.1, mkSnapshotRecord Val_default r.2 false)) (m_lower_bound start (records_sorted_bykey ds)).

(** The merged server-side records, of at most [n] records of each source. *)
Lemma serverside_run (w : Wrapper DB Snap) db ds b start D n :
  (methodid w = FARREACH_ID \/ methodid w = DISTFARREACH_ID) ->
  store_ok db ds b -> m_sorted D -> Forall entry_wf D ->
  (forall k v s, key_wf k -> val_wf v -> is_u32 s ->
      In (k, (v, s)) D <-> less k start = false /\ db_Get db (ks k) = (StOk, enc v s)) ->
  exists S, merge_sort (map as_record (take n D)) (take n (tombs start ds)) false w = Ok (S, w) /\ m_sorted S /\
    forall k, m_find k S = newer (m_find k (map as_record (take n D))) (m_find k (take n (tombs start ds))).
Proof using Havail.
  intros Hm Hs HsD HD Hin. pose proof (da_key _ _ (proj1 (so_ds _ _ _ Hs))) as Hsk.
  assert (HsT : m_sorted (take n (tombs start ds))) by (apply m_take_sorted, m_map_sorted; [reflexivity|auto with stdmap]).
  assert (HsR : m_sorted (map as_record D)) by (apply m_map_sorted; [reflexivity|exact HsD]).
  destruct (merge_sort_run w (map as_record (take n D)) (take n (tombs start ds)) false Hm) as (S & E & SS & F).
  - apply m_map_sorted; [reflexivity|now apply m_take_sorted].
  - exact HsT.
  - right. intros k. destruct (m_find k (map as_record (take n D))) as [r|] eqn:Er; [|auto]. right.
    assert (Er' : m_find k (map as_record D) = Some r) by (apply (m_find_take_Some k (map as_record D) r n); now rewrite firstn_map).
    apply (m_find_In _ _ _ HsR), in_map_iff in Er' as ([k' [v s]] & [= -> <-] & Hi).
    rewrite List.Forall_forall in HD. destruct (HD _ Hi) as (Hk & Hv & Hu). cbn [fst snd] in *.
    apply Hin in Hi as [Hl Hg]; [|assumption..]. destruct (m_find k (take n (tombs start ds))) as [r'|] eqn:Et; [|reflexivity].
    apply m_find_take_Some in Et. unfold tombs in Et. rewrite (m_find_map_record (fun s => mkSnapshotRecord Val_default s false)) in Et.
    rewrite m_lower_bound_find, Hl in Et by assumption. destruct (so_enc _ _ _ Hs k _ Hk Hg) as (? & ? & _ & _ & _ & _ & Ht).
    unfold tomb in Ht. rewrite Ht in Et. discriminate.
  - exists S. split; [exact E|]. split; [exact SS|]. intros k. rewrite F. now destruct (newer _ _).
Qed.

(** Of a key that is reached, the cut sources have what the store has. *)
Lemma serverside_find db ds b start D k n : store_ok db ds b -> key_wf k -> m_sorted D -> Forall entry_wf D ->
  (forall k v s, key_wf k -> val_wf v -> is_u32 s ->
      In (k, (v, s)) D <-> less k start = false /\ db_Get db (ks k) = (StOk, enc v s)) ->
  (0 < n)%nat -> upto k n D -> upto k n (m_lower_bound start (records_sorted_bykey ds)) ->
  newer (m_find k (map as_record (take n D))) (m_find k (take n (tombs start ds))) = if less k start then None else snap_record db ds k.
Proof using Havail.
  intros Hs Hk HsD HD Hin Hn HuD HuT. pose proof (da_key _ _ (proj1 (so_ds _ _ _ Hs))) as Hsk.
  rewrite <- firstn_map, !m_find_take by (assumption || (apply upto_map; [reflexivity|assumption])).
  rewrite (find_db_results db ds b start) by assumption. unfold tombs. rewrite (m_find_map_record (fun s => mkSnapshotRecord Val_default s false)), m_lower_bound_find by assumption.
  unfold snap_record. fold (tomb ds k). destruct (less k start); [reflexivity|].
  destruct (db_Get_cases db ds b k Hs Hk) as [[_ ->]|(v & s & _ & _ & _ & _ & Ht & ->)]; [cbn [newer]; now destruct (tomb ds k)|now rewrite Ht].
Qed.

(** A range query merges at most [cnt] records of each source and returns at most
    [cnt] records of the result. *)
Lemma range_scan_cut (w : Wrapper DB Snap) db b start end_ cnt :
  (methodid w = FARREACH_ID \/ methodid w = DISTFARREACH_ID) ->
  scan_iter true (ks start) w = Ok (db_Iter db (ks start), w) ->
  store_ok db (snapshot_deleted_set w) b -> m_sorted (inswitch_snapshot w) -> key_wf start ->
  get_scanrecordcnt start end_ = Ok cnt ->
  exists D full, db_Iter db (ks start) = map encode D /\ Forall entry_wf D /\ m_sorted D /\
    (forall k v s, key_wf k -> val_wf v -> is_u32 s ->
      In (k, (v, s)) D <-> less k start = false /\ db_Get db (ks k) = (StOk, enc v s)) /\
    range_scan start end_ w = Ok (take (Z.to_nat cnt) full, w) /\ m_sorted full /\
    forall k, m_find k full = visible true (newer (newer (m_find k (map as_record (take (Z.to_nat cnt) D)))
      (m_find k (take (Z.to_nat cnt) (tombs start (snapshot_deleted_set w))))) (m_find k (take (Z.to_nat cnt) (m_lower_bound start (inswitch_snapshot w))))).
Proof using Hlaws Havail.
  intros Hm Hit Hs Hins Hst Hcnt. pose proof (scanrecordcnt_pos _ _ _ Hcnt) as Hpos.
  destruct (iter_entries db _ b start Hs Hst) as (D & ED & HD & HsD & Hin).
  destruct (serverside_run w db _ b start D (Z.to_nat cnt) Hm Hs HsD HD Hin) as (S & E1 & SS & FS).
  pose proof (m_take_sorted (Z.to_nat cnt) _ (m_lower_bound_sorted start _ Hins)) as Hlb.
  destruct (merge_sort_run w S _ true Hm SS Hlb) as (full & E2 & SF & FF); [auto|].
  exists D, full. split; [exact ED|]. split; [exact HD|]. split; [exact HsD|]. split; [exact Hin|]. split; [|split; [exact SF|]].
  - assert (En : method_needsnapshot w = Ok (true, w))
      by (unfold method_needsnapshot; rw_simpl; destruct Hm as [-> | ->]; reflexivity).
    unfold range_scan. unfold mbind, rw_bind. rewrite En, Hit, Hcnt. cbn [lift].
    rewrite ED, scan_db_loop_run by (assumption || lia). rewrite Z.sub_0_r. unfold gets.
    unfold ds_range_scan. rewrite Hcnt. cbn [mbind res_bind lift]. rewrite ds_scan_loop_take.
    unfold tombs in E1. rewrite firstn_map in E1. rewrite E1, E2.
    unfold mret, rw_ret. destruct (Z.ltb_spec cnt (Z.of_nat (length full))); [reflexivity|]. now rewrite take_ge by lia.
  - intros k. now rewrite FF, FS.
Qed.

Lemma range_scan_run (w : Wrapper DB Snap) db b start end_ cnt :
  (methodid w = FARREACH_ID \/ methodid w = DISTFARREACH_ID) ->
  scan_iter true (ks start) w = Ok (db_Iter db (ks start), w) ->
  store_ok db (snapshot_deleted_set w) b -> m_sorted (inswitch_snapshot w) -> key_wf start ->
  get_scanrecordcnt start end_ = Ok cnt ->
  exists full, range_scan start end_ w = Ok (take (Z.to_nat cnt) full, w) /\ m_sorted full /\
    forall k, key_wf k -> reached db (snapshot_deleted_set w) (inswitch_snapshot w) start cnt k -> m_find k full =
      if less k start then None
      else scan_view db (snapshot_deleted_set w) (inswitch_snapshot w) k.
Proof using Hlaws Havail.
  intros Hm Hit Hs Hins Hst Hcnt. pose proof (scanrecordcnt_pos _ _ _ Hcnt) as Hpos.
  destruct (range_scan_cut w db b start end_ cnt Hm Hit Hs Hins Hst Hcnt) as (D & full & ED & HD & HsD & Hin & E & SF & FF).
  exists full. split; [exact E|]. split; [exact SF|]. intros k Hk [R1 R2 R3]. rewrite FF.
  assert (HuD : upto k (Z.to_nat cnt) D).
  { intros [k' [v s]] He. pose proof (proj1 (List.Forall_forall _ _) HD _ (proj1 (list_elem_of_In _ _) (list_elem_of_lookup_2 _ _ _ He))) as (Hk' & _ & _).
    apply (R1 k' (enc v s) Hk'). rewrite ED, list_lookup_fmap, He. reflexivity. }
  rewrite (serverside_find db _ b start D k _ Hs Hk HsD HD Hin) by (assumption || lia).
  rewrite m_find_take by (assumption || lia). rewrite m_lower_bound_find by assumption. unfold scan_view. now destruct (less k start).
Qed.

(** ** A key that is left out *)

Lemma m_find_cut {V} (k : Key) (m : list (Key * V)) e : forall n, m_sorted m -> m !! n = Some e -> less e.1 k = true ->
  m_find k (take (S n) m) = None.
Proof.
  induction m as [|[k1 v1] m IH]; intros n Hs He Hl; [discriminate|]. inversion Hs as [|? ? ? Hb Hs']; subst. rewrite firstn_cons. cbn [m_find].
  destruct n as [|n]; [injection He as <-; cbn in Hl; now rewrite Hl|]. cbn in He.
  pose proof (proj1 (List.Forall_forall _ _) Hb e (proj1 (list_elem_of_In _ _) (list_elem_of_lookup_2 _ _ _ He))) as Hk. unfold key_below in Hk.
  rewrite (less_trans _ _ _ Hk Hl). now apply IH.
Qed.

Lemma m_find_key {V} k (m : list (Key * V)) : m_sorted m -> m_find k m <> None <-> In k (map fst m).
Proof.
  intros Hs. rewrite in_map_iff. split.
  - destruct (m_find k m) as [r|] eqn:E; [|congruence]. intros _. apply m_find_In in E; [|assumption]. now exists (k, r).
  - intros ([k2 r] & E & Hi). cbn in E. subst k2. apply m_find_In in Hi; [|assumption]. now rewrite Hi.
Qed.

Lemma m_keys_NoDup {V} (P : Key * V -> bool) (m : list (Key * V)) : m_sorted m -> List.NoDup (map fst (List.filter P m)).
Proof.
  induction 1 as [|k v m Hb _ IH]; cbn; [constructor|]. destruct (P (k, v)); [|exact IH]. cbn. constructor; [|exact IH].
  intros ([k' v'] & E & Hi)%in_map_iff. cbn in E. subst k'. apply filter_In in Hi as [Hi _].
  rewrite List.Forall_forall in Hb. specialize (Hb _ Hi). unfold key_below in Hb. cbn in Hb. now rewrite less_irrefl in Hb.
Qed.

(** The records of [full] below [k], when their keys are keys of [m] and a key of
    [m] is none of them, are fewer than the records of [m]. *)
Lemma keys_fewer (full m : records) k kd : m_sorted full -> m_sorted m -> m_find kd full = None -> m_find kd m <> None ->
  (forall k', less k' k = true -> m_find k' full <> None -> m_find k' m <> None) ->
  (length (List.filter (fun r : Key * SnapshotRecord => less r.1 k) full) < length m)%nat.
Proof.
  intros Hs Hsm Hd Hm Hk. set (lo := List.filter _ full). rewrite <- (length_map fst lo), <- (length_map fst m).
  assert (Hin : forall k', In k' (map fst lo) -> less k' k = true /\ m_find k' full <> None).
  { intros k' ([k2 r] & E & [Hi Hl]%filter_In)%in_map_iff. cbn in E, Hl. subst k2. split; [exact Hl|]. apply m_find_key; [exact Hs|]. now apply (in_map fst _ (k', r)). }
  apply (NoDup_incl_length (l := kd :: map fst lo)).
  - constructor; [|now apply m_keys_NoDup]. intros Hi. now apply Hin in Hi as [_ Hi].
  - intros k' [<-|Hi]; apply m_find_key; try assumption. apply Hin in Hi as [Hl Hf]. now apply Hk.
Qed.

(** Deletions stay deletions under the merge. *)
Definition dead (x : option SnapshotRecord) : Prop := forall r, x = Some r -> sr_stat r = false.

Lemma dead_newer x y : dead x -> dead y -> dead (newer x y).
Proof. intros Hx Hy r. destruct x as [a|], y as [b|]; cbn; intros [= <-]; try case_match; auto. Qed.

Lemma dead_hidden x : dead x -> visible true x = None.
Proof. intros Hx. destruct x as [r|]; [|reflexivity]. cbn. now rewrite (Hx r). Qed.

Lemma tombs_dead start ds n k : dead (m_find k (take n (tombs start ds))).
Proof.
  intros r Hr. apply m_find_take_Some in Hr. unfold tombs in Hr. rewrite (m_find_map_record (fun s => mkSnapshotRecord Val_default s false)) in Hr.
  now apply fmap_Some in Hr as (s & _ & ->).
Qed.

(** A live key of the store, not behind the last record read of it. *)
Lemma live_found db ds b start D k r n : store_ok db ds b -> key_wf k -> m_sorted D -> Forall entry_wf D ->
  (forall k v s, key_wf k -> val_wf v -> is_u32 s ->
      In (k, (v, s)) D <-> less k start = false /\ db_Get db (ks k) = (StOk, enc v s)) ->
  (0 < n)%nat -> upto k n D -> less k start = false -> snap_record db ds k = Some r -> sr_stat r = true ->
  m_find k (map as_record (take n D)) = Some r /\ m_find k (take n (tombs start ds)) = None.
Proof using Havail.
  intros Hs Hk HsD HD Hin Hn Hu Hl Er Sr. pose proof (da_key _ _ (proj1 (so_ds _ _ _ Hs))) as Hsk. unfold snap_record in Er.
  rewrite <- firstn_map, m_find_take by (assumption || (apply upto_map; [reflexivity|assumption])).
  rewrite (find_db_results db ds b start) by assumption. rewrite Hl.
  destruct (db_Get_cases db ds b k Hs Hk) as [[_ Ev]|(v & s & _ & _ & _ & _ & Ht & Ev)]; rewrite Ev in *.
  - apply fmap_Some in Er as (s & _ & ->). discriminate.
  - split; [exact Er|]. destruct (m_find k (take n (tombs start ds))) as [t|] eqn:Et; [|reflexivity]. apply m_find_take_Some in Et. unfold tombs in Et.
    rewrite (m_find_map_record (fun s => mkSnapshotRecord Val_default s false)), m_lower_bound_find, Hl in Et by assumption.
    unfold tomb in Ht. now rewrite Ht in Et.
Qed.

Lemma filter_take_length {A} (P : A -> bool) n (l : list A) : (length (List.filter P (take n l)) <= length (List.filter P l))%nat.
Proof. rewrite <- (take_drop n l) at 2. rewrite List.filter_app, length_app. lia. Qed.

(** ** Isolation *)

(** [m] only reads the state, and reads the same in [w] and [w']. *)
Definition reads_same {A} (m : rw DB Snap A) (w w' : Wrapper DB Snap) : Prop :=
  (exists a, m w = Ok (a, w) /\ m w' = Ok (a, w')) \/ (exists e, m w = Err e /\ m w' = Err e).

Lemma reads_same_bind {A B} (m : rw DB Snap A) (f : A -> rw DB Snap B) w w' :
  reads_same m w w' -> (forall a, reads_same (f a) w w') -> reads_same (m ≫= f) w w'.
Proof.
  intros [(a & E & E')|(e & E & E')] Hf; unfold reads_same, mbind, rw_bind; rewrite E, E'.
  - apply Hf.
  - right. eauto.
Qed.

Lemma reads_same_known {A B} (m : rw DB Snap A) (f : A -> rw DB Snap B) w w' a :
  m w = Ok (a, w) -> m w' = Ok (a, w') -> reads_same (f a) w w' -> reads_same (m ≫= f) w w'.
Proof. intros E E' H. unfold reads_same, mbind, rw_bind. now rewrite E, E'. Qed.

Lemma reads_same_ret {A} (a : A) w w' : reads_same (mret a) w w'.
Proof. left. eauto. Qed.

Lemma reads_same_lift {A} (r : res A) w w' : reads_same (lift r) w w'.
Proof. destruct r; [left|right]; unfold lift; eauto. Qed.

Lemma reads_same_gets {A} (f : Wrapper DB Snap -> A) w w' :
  f w' = f w -> reads_same (gets f) w w'.
Proof. intros E. left. unfold gets. rewrite E. eauto. Qed.

Lemma reads_same_needsnapshot w w' :
  methodid w' = methodid w -> reads_same method_needsnapshot w w'.
Proof.
  intros E. apply reads_same_bind; [now apply reads_same_gets|]. intros m.
  apply reads_same_bind; [apply reads_same_lift|]. intros _. apply reads_same_ret.
Qed.

Lemma reads_same_merge a b need w w' :
  methodid w' = methodid w -> reads_same (merge_sort a b need) w w'.
Proof.
  intros E. apply reads_same_bind; [now apply reads_same_needsnapshot|]. intros c.
  apply reads_same_bind; [apply reads_same_lift|]. intros _. apply reads_same_lift.
Qed.

(** What a range query depends on. *)
Definition scan_frame (w w' : Wrapper DB Snap) : Prop :=
  methodid w' = methodid w /\ sp_ptr w' = sp_ptr w /\ snapshotdb_ptr w' = snapshotdb_ptr w /\
  snapshot_deleted_set w' = snapshot_deleted_set w /\ inswitch_snapshot w' = inswitch_snapshot w /\
  (forall db db', db_ptr w = Some db -> db_ptr w' = Some db' ->
     forall sp key, db_IterAt db' sp key = db_IterAt db sp key).

Lemma frame_scan w w' : frame w w' -> scan_frame w w'.
Proof. unfold frame, scan_frame. tauto. Qed.

Lemma reads_same_scan_iter key w w' :
  scan_frame w w' -> db_ptr w <> None -> db_ptr w' <> None -> reads_same (scan_iter true key) w w'.
Proof.
  intros (_ & E1 & E2 & _ & _ & Hit) H1 H2. unfold scan_iter.
  apply reads_same_bind; [now apply reads_same_gets|]. intros sp.
  apply reads_same_bind; [now apply reads_same_gets|]. intros sdb.
  destruct sp as [sp|]; [|destruct sdb; [apply reads_same_ret|apply reads_same_lift]].
  destruct (db_ptr w) as [db|] eqn:D1; [|congruence].
  destruct (db_ptr w') as [db'|] eqn:D2; [|congruence].
  unfold reads_same, mbind, rw_bind, the_db. rewrite D1, D2, (Hit db db' eq_refl eq_refl sp key).
  apply reads_same_lift.
Qed.

Lemma range_scan_frame (w w' : Wrapper DB Snap) start end_ :
  (methodid w = FARREACH_ID \/ methodid w = DISTFARREACH_ID) ->
  scan_frame w w' -> db_ptr w <> None -> db_ptr w' <> None ->
  reads_same (range_scan start end_) w w'.
Proof.
  intros Hm Hf H1 H2. pose proof Hf as (Em & _ & _ & Es & Ei & _).
  assert (En : forall w0 : Wrapper DB Snap, methodid w0 = methodid w ->
            method_needsnapshot w0 = Ok (true, w0)).
  { intros w0 E0. unfold method_needsnapshot. rw_simpl. rewrite E0.
    destruct Hm as [-> | ->]; reflexivity. }
  apply (reads_same_known _ _ _ _ true); [now apply En..|]. 
  apply reads_same_bind; [now apply reads_same_scan_iter|]. intros iter.
  apply reads_same_bind; [apply reads_same_lift|]. intros cnt.
  apply reads_same_bind; [apply reads_same_lift|]. intros dbr.
  apply reads_same_bind; [|intros; apply reads_same_ret].
  apply reads_same_bind; [now apply reads_same_gets|]. intros sds.
  apply reads_same_bind; [apply reads_same_lift|]. intros delr.
  apply reads_same_bind; [now apply reads_same_gets|]. intros ins.
  apply reads_same_bind; [now apply reads_same_merge|]. intros ssr.
  now apply reads_same_merge.
Qed.

(** ** Making and publishing a snapshot *)

Lemma iter_ext db db' key :
  (forall k, db_Get db' k = db_Get db k) -> db_Iter db' key = db_Iter db key.
Proof using Hlaws.
  intros Hg. apply m_ext; [apply iter_sorted..|]. intros k.
  assert (Hi : forall v, m_find k (db_Iter db' key) = Some v <-> m_find k (db_Iter db key) = Some v).
  { intros v. rewrite !m_find_In by apply iter_sorted. now rewrite !iter_In, Hg. }
  destruct (m_find k (db_Iter db key)) as [v|] eqn:E; [now apply Hi|].
  destruct (m_find k (db_Iter db' key)) as [v|] eqn:E'; [|reflexivity].
  discriminate (proj1 (Hi v) eq_refl).
Qed.

(** Freed handles of the wrapper: what [release] does to the database. *)
Definition release_db (db : DB) (sp : option Snap) : DB :=
  match sp with Some s => db_ReleaseSnapshot db s | None => db end.

Lemma release_run (w : Wrapper DB Snap) db sp :
  db_ptr w = Some db -> release sp w = Ok (tt, set_db (release_db db sp) w).
Proof.
  intros E. unfold release, release_db, the_db, modify, mret, rw_ret, mbind, rw_bind.
  destruct sp; rewrite ?E; [reflexivity|]. destruct w; cbn in *. now subst.
Qed.

Lemma release_db_get db sp k : db_Get (release_db db sp) k = db_Get db k.
Proof using Hlaws. destruct sp; [apply get_release|reflexivity]. Qed.

Lemma release_db_iter db sp s key :
  sp <> Some s -> db_IterAt (release_db db sp) s key = db_IterAt db s key.
Proof using Hlaws. intros Hne. destruct sp; [|reflexivity]. apply snap_release. congruence. Qed.

Lemma store_ok_get db db' ds ds' b :
  store_ok db ds b -> (forall k, db_Get db' k = db_Get db k) ->
  ds_wf ds' -> (forall k, tomb ds' k = tomb ds k) -> store_ok db' ds' b.
Proof.
  intros [H1 H2 H3 H4] Hg Hw Ht. constructor; [| |exact Hw|].
  - intros k str Hk. rewrite Hg, Ht. now apply H1.
  - intros str v. rewrite Hg. apply H2.
  - intros k s. rewrite Ht. apply H4.
Qed.

(** A server that can make a snapshot: initialised, no snapshot in progress,
    the two handles distinct and the published one live. *)
Record snapshot_ready (w : Wrapper DB Snap) : Prop := {
  sr_id : 0 <= snapshotid w;
  sr_free : is_snapshot w = false;
  sr_handles : forall s, sp_ptr w = Some s -> latest_sp_ptr w <> Some s;
  sr_live : forall s db key, sp_ptr w = Some s -> db_ptr w = Some db -> db_IterAt db s key <> None;
  sr_stored : Forall rec_wf (records_sorted_bykey (snapshot_deleted_set w));
  sr_cap : max_size (deleted_set w) <= max_size (snapshot_deleted_set w)
}.

Lemma make_snapshot_run (w : Wrapper DB Snap) db tid :
  wrapper_ok w -> snapshot_ready w -> db_ptr w = Some db -> 0 <= tid ->
  exists w' db' s, make_snapshot tid w = Ok (true, w') /\
    wrapper_ok w' /\ deleted_set w' = deleted_set w /\ (forall k, version w' k = version w k) /\
    db_ptr w' = Some db' /\ latest_sp_ptr w' = Some s /\ is_snapshot w' = true /\
    (forall key, db_IterAt db' s key = Some (db_Iter db key)) /\
    sp_ptr w' = sp_ptr w /\ sp_ptr w <> Some s /\ snapshotid w' = snapshotid w /\
    methodid w' = methodid w /\ snapshot_deleted_set w' = snapshot_deleted_set w /\
    records_sorted_bykey (latest_snapshot_deleted_set w') = records_sorted_bykey (deleted_set w) /\
    records_sorted_byseq (latest_snapshot_deleted_set w') = records_sorted_byseq (deleted_set w) /\
    exists c, ds_store (snapshot_deleted_set w) = Ok c /\
      disk w' (snapshotdeletedset_path (workerid w) (u32 (snapshotid w + 1))) = Some c.
Proof using Hlaws.
  intros Hw [Hid Hfree Hne Hlive Hst Hcap] Edb Htid.
  destruct (wo_store w Hw) as (db0 & Edb0 & Hs). assert (db0 = db) as -> by congruence.
  unfold make_snapshot. unfold mbind, rw_bind. rewrite needsnapshot_ok by assumption.
  unfold inv, lift at 1 2. cbn [INVARIANT]. rewrite (proj2 (Z.leb_le 0 tid)) by lia. cbn [INVARIANT].
  unfold gets at 1. rewrite (proj2 (Z.eqb_neq (snapshotid w) (-1))) by lia.
  unfold gets at 1. rewrite Hfree. unfold modify at 1, gets at 1.
  set (wa := set_is_snapshot true w).
  rewrite (release_run wa db) by exact Edb. unfold the_db. cbn [db_ptr set_db].
  set (db1 := release_db db (latest_sp_ptr wa)).
  destruct (db_GetSnapshot db1) as [s db'] eqn:Eg.
  unfold store_snapshotdbseq, store_maxseq, store_deletedset, write_file, ds_store.
  rw_simpl. unfold wa. rw_simpl. rewrite ds_store_loop_ok by assumption. cbn [mbind res_bind].
  eexists _, db', s. split; [reflexivity|]. rw_simpl.
  assert (Hget : forall k, db_Get db' k = db_Get db k).
  { intros k. change db' with (s, db').2. rewrite <- Eg, get_snapshot_get. apply release_db_get. }
  assert (Hv : forall k, version_of db' (deleted_set w) k = version_of db (deleted_set w) k)
    by (intros k; unfold version_of; now rewrite Hget).
  split.
  { constructor; [apply Hw|]. eexists; split; [reflexivity|]. rw_simpl.
    apply (store_ok_get db _ (deleted_set w)); auto. apply Hs. }
  split; [reflexivity|]. split; [intros k; unfold version; rw_simpl; rewrite Edb; apply Hv|].
  split; [reflexivity|]. split; [reflexivity|]. split; [reflexivity|]. split.
  { intros key. pose proof (snap_new db1 key) as Hn. rewrite Eg in Hn. cbn [fst snd] in Hn.
    rewrite Hn. f_equal. apply iter_ext. intros k. apply release_db_get. }
  split; [reflexivity|]. split; [|repeat (split; [reflexivity|]); eexists; split; [reflexivity|];
    unfold disk_write; rewrite decide_False by discriminate; now rewrite decide_True].
  intros Esp. apply (Hlive s db [] Esp Edb). rewrite <- (release_db_iter db (latest_sp_ptr w)) by auto.
  pose proof (snap_fresh db1 []) as Hf. rewrite Eg in Hf. exact Hf.
Qed.

Lemma remove_snapshot_files_run (w : Wrapper DB Snap) id :
  (methodid w = FARREACH_ID \/ methodid w = DISTFARREACH_ID) ->
  exists d, remove_snapshot_files id w = Ok (tt, set_disk d w).
Proof.
  intros Hm. unfold remove_snapshot_files, remove_file, method_needsnapshot. rw_simpl.
  destruct Hm as [-> | ->]; eexists; reflexivity.
Qed.

Lemma store_inswitch_run (w : Wrapper DB Snap) id :
  (methodid w = FARREACH_ID \/ methodid w = DISTFARREACH_ID) ->
  Forall inswitch_wf (inswitch_snapshot w) ->
  4 + Z.of_nat (inswitch_size (inswitch_snapshot w)) <= MAX_LARGE_BUFSIZE ->
  exists c, inswitch_file (inswitch_snapshot w) c /\
    store_inswitch_snapshot id w =
    Ok (tt, set_disk (disk_write (inswitchsnapshot_path (workerid w) (u32 id))
              (take (4 + inswitch_size (inswitch_snapshot w)) c) (disk w)) w).
Proof.
  intros Hm Hf Hsz. destruct (inswitch_file_ok _ Hf Hsz) as (c & Hc). exists c. split; [exact Hc|].
  destruct Hc as (E & _ & _). unfold store_inswitch_snapshot, mbind, rw_bind.
  assert (En : method_needsnapshot w = Ok (true, w))
    by (unfold method_needsnapshot; rw_simpl; destruct Hm as [-> | ->]; reflexivity).
  rewrite En. unfold inv, gets. cbn [INVARIANT lift]. rewrite E. cbn [lift].
  unfold write_file, modify. now rewrite Nat2Z.id.
Qed.

(** The state [update_snapshot] publishes when [make_snapshot] ran before. *)
Lemma update_snapshot_run (w : Wrapper DB Snap) db s m :
  (methodid w = FARREACH_ID \/ methodid w = DISTFARREACH_ID) ->
  db_ptr w = Some db -> latest_sp_ptr w = Some s -> sp_ptr w <> Some s ->
  Forall inswitch_wf m -> 4 + Z.of_nat (inswitch_size m) <= MAX_LARGE_BUFSIZE ->
  exists w', update_snapshot m (snapshotid w + 1) w = Ok (tt, w') /\
    methodid w' = methodid w /\ db_ptr w' = Some (release_db db (sp_ptr w)) /\
    sp_ptr w' = Some s /\ latest_sp_ptr w' = None /\ snapshotid w' = snapshotid w + 1 /\
    inswitch_snapshot w' = m /\ deleted_set w' = deleted_set w /\ maxseq w' = maxseq w /\
    snapshot_deleted_set w' = ds_assign (snapshot_deleted_set w) (latest_snapshot_deleted_set w).
Proof.
  intros Hm Edb Elsp Hne Hf Hsz.
  assert (En : method_needsnapshot w = Ok (true, w))
    by (unfold method_needsnapshot; rw_simpl; destruct Hm as [-> | ->]; reflexivity).
  unfold update_snapshot, mbind, rw_bind. rewrite En. unfold inv at 1. cbn [INVARIANT lift].
  unfold gets at 1. unfold inv at 1. rewrite Z.eqb_refl. cbn [INVARIANT lift].
  unfold gets at 1. rewrite (release_run w db) by assumption. unfold modify, gets.
  rw_simpl. rewrite Elsp. rw_simpl.
  match goal with |- context [store_inswitch_snapshot ?i ?w0] =>
    destruct (store_inswitch_run w0 i Hm Hf Hsz) as (c & _ & ->) end.
  unfold store_snapshotid, write_file. rw_simpl.
  destruct (Z.leb_spec 2 (snapshotid w + 1)).
  - match goal with |- context [remove_snapshot_files ?i ?w0] =>
      destruct (remove_snapshot_files_run w0 i Hm) as (d & ->) end.
    eexists; split; [reflexivity|]. rw_simpl. auto 10.
  - eexists; split; [reflexivity|]. rw_simpl. auto 10.
Qed.

(** An update leaves the store as it is. *)
Lemma updated_ok (w w' : Wrapper DB Snap) db :
  wrapper_ok w -> db_ptr w = Some db -> methodid w' = methodid w ->
  db_ptr w' = Some (release_db db (sp_ptr w)) -> deleted_set w' = deleted_set w -> maxseq w' = maxseq w ->
  wrapper_ok w' /\ forall k, version w' k = version w k.
Proof using Hlaws.
  intros Hw D M D' S Q. destruct (wo_store w Hw) as (db0 & Edb0 & Hs). assert (db0 = db) as -> by congruence. split.
  - constructor; [rewrite M; apply Hw|]. eexists. split; [exact D'|]. rewrite S, Q.
    apply (store_ok_get db _ (deleted_set w)); auto; [intros k; apply release_db_get|apply Hs].
  - intros k. unfold version, version_of. now rewrite D, D', S, release_db_get.
Qed.

Lemma point_in_time (w w1 w2 : Wrapper DB Snap) (db : DB) (tid : Z) (m : records) :
  wrapper_ok w -> snapshot_ready w -> db_ptr w = Some db -> 0 <= tid ->
  make_snapshot tid w = Ok (true, w1) -> wrapper_ok w2 -> frame w1 w2 ->
  m_sorted m -> Forall inswitch_wf m -> 4 + Z.of_nat (inswitch_size m) <= MAX_LARGE_BUFSIZE ->
  exists w3, update_snapshot m (snapshotid w + 1) w2 = Ok (tt, w3) /\
    snapshotid w3 = snapshotid w + 1 /\ wrapper_ok w3 /\
    (forall k, version w3 k = version w2 k) /\
    forall start end_ cnt, key_wf start -> get_scanrecordcnt start end_ = Ok cnt ->
      exists full, range_scan start end_ w3 = Ok (take (Z.to_nat cnt) full, w3) /\ m_sorted full /\
        forall k, key_wf k -> reached db (deleted_set w) m start cnt k -> m_find k full =
          if key_lt k start then None else scan_view db (deleted_set w) m k.
Proof using Hlaws Havail.
  intros Hw Hr Edb Htid Emk W2 Hfr Hsm Hfm Hsz.
  destruct (wo_store w Hw) as (db0 & Edb0 & Hs). assert (db0 = db) as -> by congruence.
  destruct (make_snapshot_run w db tid Hw Hr Edb Htid)
    as (w1' & db1 & s & E & W1 & _ & _ & D1 & L1 & _ & It1 & Sp1 & Ne1 & Id1 & Me1 & Sd1 & Lk1 & Ls1 & _).
  rewrite Emk in E. injection E as <-.
  pose proof (wrapper_ok_db w2 W2) as Hdb2. destruct Hfr as (Me2 & _ & Id2 & Sp2 & _ & Sd2 & _ & _ & L2 & Ld2 & _ & It2).
  destruct (db_ptr w2) as [db2|] eqn:D2; [|congruence].
  assert (Hm2 : methodid w2 = FARREACH_ID \/ methodid w2 = DISTFARREACH_ID)
    by (rewrite Me2, Me1; apply Hw).
  assert (Hne2 : sp_ptr w2 <> Some s) by (rewrite Sp2, Sp1; exact Ne1).
  destruct (update_snapshot_run w2 db2 s m Hm2 D2 ltac:(congruence) Hne2 Hfm Hsz)
    as (w3 & E3 & Me3 & D3 & Sp3 & _ & Id3 & In3 & Ds3 & Mq3 & Sd3).
  rewrite Id2, Id1 in *. exists w3. split; [exact E3|]. split; [exact Id3|].
  destruct (updated_ok w2 w3 db2 W2 D2 Me3 D3 Ds3 Mq3) as [W3 V3]. split; [exact W3|]. split; [exact V3|].
  intros start end_ cnt Hst Hc.
  set (ds' := snapshot_deleted_set w3).
  assert (Hrec : records_sorted_bykey ds' = records_sorted_bykey (deleted_set w) /\
                 records_sorted_byseq ds' = records_sorted_byseq (deleted_set w)).
  { unfold ds'. rewrite Sd3, Ld2. split; [exact Lk1|exact Ls1]. }
  destruct Hrec as [Hk Hq].
  assert (Hwf : ds_wf ds').
  { pose proof (so_ds _ _ _ Hs) as [Ha Hc']. split; [now rewrite Hk, Hq|].
    unfold ds_size in *. rewrite Hk. unfold ds'. rewrite Sd3. cbn [max_size ds_assign].
    rewrite Sd2, Sd1. pose proof (sr_cap w Hr). lia. }
  assert (Hs' : store_ok db ds' (maxseq w)).
  { apply (store_ok_get db db (deleted_set w)); auto. intros k. unfold tomb. now rewrite Hk. }
  destruct (range_scan_run w3 db (maxseq w) start end_ cnt) as (full & Er & Sf & Ff); auto.
  - rewrite Me3. exact Hm2.
  - unfold scan_iter, mbind, rw_bind, gets, the_db. rewrite Sp3, D3.
    rewrite release_db_iter by assumption.
    rewrite (It2 db1 db2 D1 eq_refl), It1. reflexivity.
  - now rewrite In3.
  - exists full. split; [exact Er|]. split; [exact Sf|]. intros k Hk' [R1 R2 R3].
    rewrite Ff by (first [assumption|constructor; rewrite ?In3; fold ds'; rewrite ?Hk; assumption]).
    change (less k start) with (key_lt k start). fold ds'. rewrite In3. destruct (key_lt k start); [reflexivity|].
    unfold scan_view, snap_record, version_of, tomb. now rewrite Hk.
Qed.

(** A snapshot is a point in time.  Whatever reads and writes run between
    [make_snapshot] and [update_snapshot], the range queries after
    [update_snapshot] show, in key order and up to the requested number, the
    versions the server held when [make_snapshot] ran merged with the in-switch
    records by sequence number, deleted keys left out (for keys that are not
    behind the last record read of some source). *)
Theorem snapshot_point_in_time (w w1 w2 : Wrapper DB Snap) (db : DB) (tid : Z) (m : records) :
  wrapper_ok w -> snapshot_ready w -> db_ptr w = Some db -> 0 <= tid ->
  make_snapshot tid w = Ok (true, w1) -> rtc client_step w1 w2 ->
  m_sorted m -> Forall inswitch_wf m -> 4 + Z.of_nat (inswitch_size m) <= MAX_LARGE_BUFSIZE ->
  exists w3, update_snapshot m (snapshotid w + 1) w2 = Ok (tt, w3) /\
    snapshotid w3 = snapshotid w + 1 /\
    forall start end_ cnt, key_wf start -> get_scanrecordcnt start end_ = Ok cnt ->
      exists full, range_scan start end_ w3 = Ok (take (Z.to_nat cnt) full, w3) /\ m_sorted full /\
        forall k, key_wf k -> reached db (deleted_set w) m start cnt k -> m_find k full =
          if key_lt k start then None else scan_view db (deleted_set w) m k.
Proof using Hlaws Havail.
  intros Hw Hr Edb Htid Emk Hsteps Hsm Hfm Hsz.
  destruct (make_snapshot_run w db tid Hw Hr Edb Htid) as (w1' & db1 & s & E & W1 & _).
  rewrite Emk in E. injection E as <-. destruct (client_steps_post _ _ Hsteps W1) as (W2 & Hfr & _).
  destruct (point_in_time w w1 w2 db tid m Hw Hr Edb Htid Emk W2 Hfr Hsm Hfm Hsz) as (w3 & E3 & Id3 & _ & _ & H).
  eauto.
Qed.
(** C29: [RocksdbWrapper::merge_sort] of two ascending result lists never fails
    for the in-switch merge ([need_exist]), and for the server-side merge when no
    key is in both; the result is ascending, holds for each key the record with
    the larger sequence number (the first list on a tie), and with [need_exist]
    leaves deletions out. *)
Theorem merge_sort_newest (w : Wrapper DB Snap) (a b : records) (need_exist : bool) :
  (methodid w = FARREACH_ID \/ methodid w = DISTFARREACH_ID) ->
  m_sorted a -> m_sorted b -> need_exist = true \/ disjoint a b ->
  exists rs, merge_sort a b need_exist w = Ok (rs, w) /\ m_sorted rs /\
    forall k, m_find k rs = visible need_exist (newer (m_find k a) (m_find k b)).
Proof. apply merge_sort_run. Qed.

(** A range query sees neither later nor concurrent writes: its result is the
    same in every state reached from [w] by reads, writes and deletions. *)
Theorem range_scan_isolated (w w' : Wrapper DB Snap) (start end_ : Key) :
  wrapper_ok w -> rtc client_step w w' -> reads_same (range_scan start end_) w w'.
Proof using Hlaws Havail.
  intros Hw Hsteps. destruct (client_steps_post _ _ Hsteps Hw) as (W & F & _).
  apply range_scan_frame; [apply Hw|now apply frame_scan|now apply wrapper_ok_db..].
Qed.

(** C30: the in-switch snapshot survives a restart: what
    [store_inswitch_snapshot] writes, [load_inswitch_snapshot] of a server with
    the same files reads back as the same map. *)
Theorem inswitch_snapshot_roundtrip (w w0 : Wrapper DB Snap) (id : Z) :
  wrapper_ok w -> m_sorted (inswitch_snapshot w) -> Forall inswitch_wf (inswitch_snapshot w) ->
  4 + Z.of_nat (inswitch_size (inswitch_snapshot w)) <= MAX_LARGE_BUFSIZE ->
  wrapper_ok w0 -> workerid w0 = workerid w ->
  exists w1, store_inswitch_snapshot id w = Ok (tt, w1) /\
    load_inswitch_snapshot id (set_disk (disk w1) w0) =
      Ok (tt, set_inswitch_snapshot (inswitch_snapshot w) (set_disk (disk w1) w0)).
Proof.
  intros Hw Hs Hf Hsz Hw0 Hwid. destruct (store_inswitch_run w id (wo_method w Hw) Hf Hsz) as (c & Hc & E).
  eexists; split; [exact E|]. rw_simpl. destruct Hc as (_ & R & L).
  unfold load_inswitch_snapshot, mbind, rw_bind.
  assert (En : forall d, method_needsnapshot (set_disk d w0) = Ok (true, set_disk d w0))
    by (intros d; unfold method_needsnapshot; rw_simpl; destruct (wo_method w0 Hw0) as [-> | ->]; reflexivity).
  rewrite En. unfold inv, gets. cbn [INVARIANT lift workerid disk set_disk]. rewrite Hwid.
  unfold disk_write at 1. rewrite decide_True by reflexivity.
  unfold MAX_LARGE_BUFSIZE in Hsz.
  rewrite L, u32_id by (unfold is_u32; lia). rewrite R. cbn [lift].
  unfold modify, inserts. now rewrite m_inserts_id.
Qed.

(** C35: the deletions a snapshot is to be recovered with are not those of the
    snapshot: [make_snapshot] writes the deleted set of the previous snapshot
    ([snapshot_deleted_set]) to the new snapshot's file, while the sequence
    number and the snapshot in memory are those of the current state. *)
Theorem make_snapshot_stores_previous_deletions (w w' : Wrapper DB Snap) (db : DB) (tid : Z) :
  wrapper_ok w -> snapshot_ready w -> db_ptr w = Some db -> 0 <= tid ->
  make_snapshot tid w = Ok (true, w') ->
  records_sorted_bykey (latest_snapshot_deleted_set w') = records_sorted_bykey (deleted_set w) /\
  exists c, ds_store (snapshot_deleted_set w) = Ok c /\
    disk w' (snapshotdeletedset_path (workerid w) (u32 (snapshotid w + 1))) = Some c.
Proof using Hlaws.
  intros Hw Hr Edb Htid E.
  destruct (make_snapshot_run w db tid Hw Hr Edb Htid)
    as (w1 & db1 & s & E1 & _ & _ & _ & _ & _ & _ & _ & _ & _ & _ & _ & _ & Lk & _ & Hfile).
  rewrite E in E1. injection E1 as <-. auto.
Qed.
(** C36: a range query for [cnt] records cuts every source to [cnt] records before
    it merges them, and so leaves out keys that are there.  Let [kc] be the
    [cnt]-th record of the store from [start] on, and [k] a live key of the store
    behind it of which the switch has no record.  Then [k] is not in the answer;
    and if the switch deleted one of the first [cnt] keys of the store ([kd]), has
    no live record below [k], and has at most [cnt] records from [start] on, the
    answer holds fewer than [cnt] records below [k], so that [k] belongs in it. *)
Theorem range_scan_skips_key (w : Wrapper DB Snap) db b start end_ cnt kc vc k r kd rd t :
  (methodid w = FARREACH_ID \/ methodid w = DISTFARREACH_ID) ->
  scan_iter true (ks start) w = Ok (db_Iter db (ks start), w) ->
  store_ok db (snapshot_deleted_set w) b -> m_sorted (inswitch_snapshot w) -> key_wf start ->
  get_scanrecordcnt start end_ = Ok cnt ->
  key_wf kc -> db_Iter db (ks start) !! (Z.to_nat cnt - 1)%nat = Some (ks kc, vc) ->
  key_wf k -> key_lt kc k = true -> snap_record db (snapshot_deleted_set w) k = Some r -> sr_stat r = true -> m_find k (inswitch_snapshot w) = None ->
  key_wf kd -> key_lt kd start = false -> key_lt kc kd = false ->
  snap_record db (snapshot_deleted_set w) kd = Some rd -> sr_stat rd = true ->
  m_find kd (inswitch_snapshot w) = Some t -> sr_stat t = false -> sr_seq rd < sr_seq t ->
  (forall k' r', m_find k' (inswitch_snapshot w) = Some r' -> key_lt k' k = true -> sr_stat r' = false) ->
  Z.of_nat (length (m_lower_bound start (inswitch_snapshot w))) <= cnt ->
  scan_view db (snapshot_deleted_set w) (inswitch_snapshot w) k = Some r /\
  exists rs, range_scan start end_ w = Ok (rs, w) /\ m_find k rs = None /\
    Z.of_nat (length (List.filter (fun x : Key * SnapshotRecord => key_lt x.1 k) rs)) < cnt.
Proof using Hlaws Havail.
  intros Hm Hit Hs Hins Hst Hcnt Hkc Ec Hk Hck Er Sr Nk Hkd Lds Lcd Erd Srd Et St Hnew Hdel Hlen.
  pose proof (scanrecordcnt_pos _ _ _ Hcnt) as Hpos. split; [unfold scan_view; rewrite Er, Nk; cbn; now rewrite Sr|].
  destruct (range_scan_cut w db b start end_ cnt Hm Hit Hs Hins Hst Hcnt) as (D & full & ED & HD & HsD & Hin & E & SF & FF).
  eexists. split; [exact E|]. set (n := Z.to_nat cnt) in *.
  rewrite (take_ge (m_lower_bound start _)) in FF by lia.
  assert (Hlb : forall k', m_find k' (m_lower_bound start (inswitch_snapshot w)) = if less k' start then None else m_find k' (inswitch_snapshot w))
    by (intros; now apply m_lower_bound_find).
  rewrite ED, list_lookup_fmap in Ec. apply fmap_Some in Ec as ([kc' [v0 s0]] & Ec & Eq). pose proof (f_equal fst Eq) as E1. cbn in E1.
  pose proof (proj1 (List.Forall_forall _ _) HD _ (proj1 (list_elem_of_In _ _) (list_elem_of_lookup_2 _ _ _ Ec))) as (Hc' & _ & _).
  apply ks_inj in E1; [|assumption..]. subst kc'. clear Eq.
  assert (Hfull : m_find k full = None).
  { rewrite FF, Hlb, Nk, <- firstn_map. replace n with (S (n - 1)) at 1 by lia.
    rewrite (m_find_cut k (map as_record D) (as_record (kc, (v0, s0)))); [|apply m_map_sorted; [reflexivity|exact HsD]|now rewrite list_lookup_fmap, Ec|exact Hck].
    apply dead_hidden. destruct (less k start); (apply dead_newer; [apply tombs_dead|discriminate]). }
  split; [destruct (m_find k (take n full)) as [x|] eqn:Ex; [|reflexivity]; apply m_find_take_Some in Ex; congruence|].
  destruct (live_found db _ b start D kd rd n Hs Hkd HsD HD Hin ltac:(lia)) as [Fd Td]; try assumption.
  { intros e He. rewrite Ec in He. now injection He as <-. }
  assert (HsR : m_sorted (map as_record (take n D))) by (apply m_map_sorted; [reflexivity|now apply m_take_sorted]).
  pose proof (keys_fewer full (map as_record (take n D)) k kd SF HsR) as Hlt.
  pose proof (filter_take_length (fun x : Key * SnapshotRecord => key_lt x.1 k) n full) as Hle. change key_lt with (@less Key _) in *.
  rewrite length_map, length_take in Hlt. enough (length (List.filter (fun r : Key * SnapshotRecord => less r.1 k) full) < n `min` length D)%nat by lia.
  apply Hlt; [|now rewrite Fd|].
  - rewrite FF, Hlb, Lds, Fd, Td, Et. cbn. destruct (Z.leb_spec (sr_seq t) (sr_seq rd)); [lia|]. now rewrite St.
  - intros k' Hl' Hne Hno. apply Hne. rewrite FF, Hno. apply dead_hidden, dead_newer; [apply tombs_dead|]. rewrite Hlb.
    destruct (less k' start); [discriminate|]. intros r' Hr'. exact (Hdel k' r' Hr' Hl').
Qed.

End Scan.

(** ** Concrete runs *)

Lemma w_demo_ready : snapshot_ready w_demo.
Proof.
  constructor.
  - vm_compute. discriminate.
  - vm_compute. reflexivity.
  - intros s E. vm_compute in E. discriminate E.
  - intros s db key E. vm_compute in E. discriminate E.
  - assert (E : records_sorted_bykey (snapshot_deleted_set w_demo) = []) by (vm_compute; reflexivity).
    rewrite E. constructor.
  - vm_compute. discriminate.
Qed.

Definition ins_demo : records := [(key_of 4, mkSnapshotRecord (val_of 2) 30 true)].

Lemma ins_demo_ok :
  m_sorted ins_demo /\ Forall inswitch_wf ins_demo /\
  4 + Z.of_nat (inswitch_size ins_demo) <= MAX_LARGE_BUFSIZE.
Proof.
  split; [repeat constructor|]. split; [|vm_compute; discriminate].
  constructor; [|constructor]. split; [apply key_of_wf; unfold is_u32; lia|].
  split; [|reflexivity]. split; [apply val_of_wf; unfold is_byte; lia|unfold is_u32; cbn; lia].
Qed.

Definition db_demo : MemDB.t := default MemDB.empty (db_ptr w_demo).

Lemma db_demo_eq : db_ptr w_demo = Some db_demo.
Proof. vm_compute. reflexivity. Qed.

Definition w_demo_made : Wrapper MemDB.t Z := state_of (make_snapshot 1 w_demo).

Lemma w_demo_made_eq : make_snapshot 1 w_demo = Ok (true, w_demo_made).
Proof. vm_compute. reflexivity. Qed.

(** Key 1 is overwritten after the snapshot was made. *)
Definition w_demo_later : Wrapper MemDB.t Z := state_of (put (key_of 1) (val_of 6) 40 false w_demo_made).

Lemma w_demo_later_steps : rtc client_step w_demo_made w_demo_later.
Proof.
  apply rtc_once. apply (step_put _ _ (key_of 1) (val_of 6) 40 false true).
  - apply key_of_wf. unfold is_u32. lia.
  - apply val_of_wf. unfold is_byte. lia.
  - unfold is_u32. lia.
  - vm_compute. reflexivity.
Qed.

(** The query shows the value of key 1 before the overwrite, and key 4 of the
    switch; key 2 is deleted. *)
Lemma snapshot_point_in_time_witness :
  exists w3, update_snapshot ins_demo 1 w_demo_later = Ok (tt, w3) /\
    exists full, range_scan (key_of 0) (key_of 9) w3 = Ok (take 9 full, w3) /\
      m_find (key_of 1) full = Some (mkSnapshotRecord (val_of 7) 5 true) /\
      m_find (key_of 2) full = None /\
      m_find (key_of 4) full = Some (mkSnapshotRecord (val_of 2) 30 true).
Proof.
  destruct ins_demo_ok as (S1 & F1 & Z1).
  destruct (snapshot_point_in_time w_demo w_demo_made w_demo_later db_demo 1 ins_demo)
    as (w3 & E3 & _ & H);
    [exact w_demo_ok|exact w_demo_ready|exact db_demo_eq|lia|exact w_demo_made_eq|exact w_demo_later_steps
    |exact S1|exact F1|exact Z1|].
  - exists w3. split; [exact E3|].
    destruct (H (key_of 0) (key_of 9) 9) as (full & E & _ & V).
    + apply key_of_wf. unfold is_u32. lia.
    + reflexivity.
    + exists full. split; [exact E|]. assert (R : forall k, reached db_demo (deleted_set w_demo) ins_demo (key_of 0) 9 k)
        by (intros k; apply reached_short; vm_compute; reflexivity).
      rewrite !V by (exact (R _) || (apply key_of_wf; unfold is_u32; lia)).
      vm_compute. repeat split.
Defined.

Lemma merge_sort_newest_witness :
  exists rs, merge_sort [(key_of 1, mkSnapshotRecord (val_of 7) 5 true)]
      [(key_of 1, mkSnapshotRecord Val_default 6 false)] true w_demo = Ok (rs, w_demo) /\ rs = [].
Proof.
  destruct (merge_sort_newest w_demo [(key_of 1, mkSnapshotRecord (val_of 7) 5 true)]
      [(key_of 1, mkSnapshotRecord Val_default 6 false)] true) as (rs & E & _);
    [now left|repeat constructor|repeat constructor|now left|].
  exists rs. split; [exact E|]. revert E. vm_compute. intros [= <-]. reflexivity.
Defined.

Lemma range_scan_isolated_witness :
  reads_same (range_scan (key_of 0) (key_of 9)) w_init w_demo.
Proof. apply range_scan_isolated; [exact w_init_ok|exact w_demo_steps]. Defined.

Lemma inswitch_snapshot_roundtrip_witness :
  exists w1, store_inswitch_snapshot 3 (set_inswitch_snapshot ins_demo w_demo) = Ok (tt, w1) /\
    load_inswitch_snapshot 3 (set_disk (disk w1) w_init) =
      Ok (tt, set_inswitch_snapshot ins_demo (set_disk (disk w1) w_init)).
Proof.
  destruct ins_demo_ok as (S1 & F1 & Z1).
  assert (W : wrapper_ok (set_inswitch_snapshot ins_demo w_demo))
    by (destruct w_demo_ok as [H1 H2]; constructor; [exact H1|exact H2]).
  exact (inswitch_snapshot_roundtrip (set_inswitch_snapshot ins_demo w_demo) w_init 3 W S1 F1 Z1
           w_init_ok eq_refl).
Defined.

(** The deletion of key 2 is in the snapshot in memory, and not in its file. *)
Lemma make_snapshot_stores_previous_deletions_witness :
  records_sorted_bykey (latest_snapshot_deleted_set w_demo_made) = [(key_of 2, 9)] /\
  disk w_demo_made (snapshotdeletedset_path 0 1) = Some [0; 0; 0; 0].
Proof.
  destruct (make_snapshot_stores_previous_deletions w_demo w_demo_made db_demo 1)
    as (H1 & c & E & H2);
    [exact w_demo_ok|exact w_demo_ready|exact db_demo_eq|lia|exact w_demo_made_eq|].
  split; [rewrite H1; reflexivity|]. revert E H2. vm_compute. intros [= <-] H2. exact H2.
Defined.

(** A server whose store holds keys 1, 2 and 3, while the switch deleted key 1 and
    holds key 10. *)
Definition w_three1 : Wrapper MemDB.t Z := state_of (put (key_of 1) (val_of 1) 5 false w_init).
Definition w_three2 : Wrapper MemDB.t Z := state_of (put (key_of 2) (val_of 2) 6 false w_three1).
Definition w_three : Wrapper MemDB.t Z := state_of (put (key_of 3) (val_of 3) 7 false w_three2).
Definition ins_trunc : records :=
  [(key_of 1, mkSnapshotRecord Val_default 50 false); (key_of 10, mkSnapshotRecord (val_of 10) 50 true)].
Definition w_trunc : Wrapper MemDB.t Z := set_inswitch_snapshot ins_trunc (set_snapshotdb (db_ptr w_three) w_three).
Definition db_trunc : MemDB.t := default MemDB.empty (db_ptr w_three).

Lemma w_three_ok : wrapper_ok w_three.
Proof.
  assert (Hs : rtc client_step w_init w_three).
  { apply (rtc_l _ _ w_three1); [|apply (rtc_l _ _ w_three2); [|apply rtc_once]].
    - apply (step_put _ _ (key_of 1) (val_of 1) 5 false true); [apply key_of_wf; unfold is_u32; lia|apply val_of_wf; unfold is_byte; lia|unfold is_u32; lia|vm_compute; reflexivity].
    - apply (step_put _ _ (key_of 2) (val_of 2) 6 false true); [apply key_of_wf; unfold is_u32; lia|apply val_of_wf; unfold is_byte; lia|unfold is_u32; lia|vm_compute; reflexivity].
    - apply (step_put _ _ (key_of 3) (val_of 3) 7 false true); [apply key_of_wf; unfold is_u32; lia|apply val_of_wf; unfold is_byte; lia|unfold is_u32; lia|vm_compute; reflexivity]. }
  apply (client_steps_post _ _ Hs w_init_ok).
Qed.

Lemma db_trunc_ok : store_ok db_trunc (snapshot_deleted_set w_trunc) (maxseq w_three).
Proof.
  destruct (wo_store w_three w_three_ok) as (db & E & H). assert (db = db_trunc) as -> by (unfold db_trunc; now rewrite E).
  assert (Ed : snapshot_deleted_set w_trunc = deleted_set w_three) by (vm_compute; reflexivity). now rewrite Ed.
Qed.

Lemma ins_trunc_deletions k r : m_find k ins_trunc = Some r -> key_lt k (key_of 3) = true -> sr_stat r = false.
Proof.
  intros Hr Hl. apply m_find_In in Hr; [|repeat constructor]. destruct Hr as [[= <- <-]|[[= <- <-]|[]]]; [reflexivity|]. vm_compute in Hl. discriminate.
Qed.

(** A query for two records from key 1 on does not return key 3. *)
Lemma range_scan_skips_key_witness :
  exists rs, range_scan (key_of 1) (key_of 3) w_trunc = Ok (rs, w_trunc) /\ m_find (key_of 3) rs = None /\
    map fst rs = [key_of 2; key_of 10].
Proof.
  destruct (range_scan_skips_key w_trunc db_trunc (maxseq w_three) (key_of 1) (key_of 3) 2 (key_of 2) (enc (val_of 2) 6)
    (key_of 3) (mkSnapshotRecord (val_of 3) 7 true) (key_of 1) (mkSnapshotRecord (val_of 1) 5 true) (mkSnapshotRecord Val_default 50 false))
    as (_ & rs & E & N & _);
    [now left|vm_compute; reflexivity|exact db_trunc_ok|repeat constructor|apply key_of_wf; unfold is_u32; lia|vm_compute; reflexivity
    |apply key_of_wf; unfold is_u32; lia|vm_compute; reflexivity|apply key_of_wf; unfold is_u32; lia|vm_compute; reflexivity|vm_compute; reflexivity
    |reflexivity|vm_compute; reflexivity|apply key_of_wf; unfold is_u32; lia|vm_compute; reflexivity|vm_compute; reflexivity|vm_compute; reflexivity|reflexivity
    |vm_compute; reflexivity|reflexivity|reflexivity|exact ins_trunc_deletions|vm_compute; discriminate|].
  exists rs. split; [exact E|]. split; [exact N|]. revert E. vm_compute. intros [= <-]. reflexivity.
Defined.
