(* ===== verification/Packet.v ===== *)
(** * Packets between clients, switches and servers (common/packet_format.h,
    common/packet_format_impl.h)

    Every packet class has a header (operation type, switch indexes for the
    multi-switch methods, key) and the fields of its class; [serialize] writes
    them to a buffer and the constructor from a buffer reads them.  One record
    per class, its base class as a field; [serialize] as a [writer],
    [deserialize] as a [reader].  [begin += n] over padding leaves the bytes of
    the buffer as they were. *)

From Stdlib Require Import ZArith Lia List.
From stdpp Require Import base tactics list numbers option.
From S2P Require Import Prelude Cursor DynamicArray StdMap Crc32 Key Val.

Open Scope Z_scope.

(** ** Packet types *)

Definition GETREQ : Z := 0x0030.
Definition PUTREQ : Z := 0x0001.
Definition DELREQ : Z := 0x0040.
Definition SCANREQ : Z := 0x0010.
Definition SCANREQ_SPLIT : Z := 0x0020.
Definition WARMUPREQ : Z := 0x0000.
Definition WARMUPACK : Z := 0x00d0.
Definition GETREQ_POP : Z := 0x0050.
Definition GETREQ_NLATEST : Z := 0x0060.
Definition GETRES : Z := 0x0009.
Definition GETRES_SERVER : Z := 0x0019.
Definition GETRES_SEQ : Z := 0x006b.
Definition GETRES_SERVER_SEQ : Z := 0x009b.
Definition PUTRES : Z := 0x0008.
Definition PUTRES_SERVER : Z := 0x0028.
Definition PUTRES_SEQ : Z := 0x000a.
Definition PUTRES_SERVER_SEQ : Z := 0x002a.
Definition DELRES : Z := 0x0018.
Definition DELRES_SERVER : Z := 0x0038.
Definition DELRES_SEQ : Z := 0x001a.
Definition DELRES_SERVER_SEQ : Z := 0x003a.
Definition SCANRES_SPLIT : Z := 0x0080.
Definition SCANRES_SPLIT_SERVER : Z := 0x0210.
Definition PUTREQ_SEQ : Z := 0x0003.
Definition PUTREQ_POP_SEQ : Z := 0x0013.
Definition PUTREQ_SEQ_CASE3 : Z := 0x0023.
Definition PUTREQ_POP_SEQ_CASE3 : Z := 0x0033.
Definition DELREQ_SEQ : Z := 0x0002.
Definition DELREQ_SEQ_CASE3 : Z := 0x0012.
Definition GETRES_LATEST_SEQ : Z := 0x000b.
Definition GETRES_LATEST_SEQ_SERVER : Z := 0x004b.
Definition GETRES_DELETED_SEQ : Z := 0x001b.
Definition GETRES_DELETED_SEQ_SERVER : Z := 0x005b.
Definition GETRES_LATEST_SEQ_INSWITCH_CASE1 : Z := 0x002f.
Definition GETRES_DELETED_SEQ_INSWITCH_CASE1 : Z := 0x003f.
Definition PUTREQ_SEQ_INSWITCH_CASE1 : Z := 0x004f.
Definition DELREQ_SEQ_INSWITCH_CASE1 : Z := 0x005f.
Definition CACHE_POP : Z := 0x0090.
Definition CACHE_POP_INSWITCH : Z := 0x007f.
Definition CACHE_EVICT : Z := 0x00a0.
Definition CACHE_EVICT_CASE2 : Z := 0x00c0.
Definition CACHE_EVICT_ACK : Z := 0x00b0.
Definition BACKUP : Z := 0x009f.
Definition GETRES_LATEST_SEQ_SERVER_INSWITCH : Z := 0x009f.

(** ** Header sizes per method *)

Definition sizeof_key : Z := 16.

(** [Packet::get_ophdrsize]. *)
Definition get_ophdrsize (methodid : Z) : res Z :=
  if methodid =? FARREACH_ID then Ok (2 + sizeof_key)
  else if methodid =? NOCACHE_ID then Ok (2 + sizeof_key)
  else if methodid =? NETCACHE_ID then Ok (2 + sizeof_key)
  else if methodid =? DISTFARREACH_ID then Ok (2 + 2 + sizeof_key)
  else if methodid =? DISTNOCACHE_ID then Ok (2 + 2 + sizeof_key)
  else if methodid =? DISTCACHE_ID then Ok (2 + 2 + 2 + sizeof_key)
  else Err ExitCalled.

(** [Packet::is_singleswitch]. *)
Definition is_singleswitch (methodid : Z) : bool :=
  (methodid =? FARREACH_ID) || (methodid =? NOCACHE_ID) || (methodid =? NETCACHE_ID).

(** A [switch] over the six methods. *)
Definition by_method (methodid farreach nocache netcache distfarreach distnocache distcache : Z) : res Z :=
  if methodid =? FARREACH_ID then Ok farreach
  else if methodid =? NOCACHE_ID then Ok nocache
  else if methodid =? NETCACHE_ID then Ok netcache
  else if methodid =? DISTFARREACH_ID then Ok distfarreach
  else if methodid =? DISTNOCACHE_ID then Ok distnocache
  else if methodid =? DISTCACHE_ID then Ok distcache
  else Err ExitCalled.

(** [Packet::get_inswitch_prev_bytes], [get_clone_bytes],
    [get_split_prev_bytes], [get_stat_padding_bytes]. *)
Definition get_inswitch_prev_bytes (methodid : Z) : res Z := by_method methodid 18 14 26 14 14 26.
Definition get_clone_bytes (methodid : Z) : res Z := by_method methodid 8 4 8 18 14 18.
Definition get_split_prev_bytes (methodid : Z) : res Z := by_method methodid 3 3 3 4 4 4.
Definition get_stat_padding_bytes (methodid : Z) : res Z := by_method methodid 1 1 1 1 1 1.

(** ** The operation header *)

Record Packet := mkPacket {
  p_methodid : Z;
  p_type : Z;
  p_key : Key;
  p_globalswitchidx : Z;
  p_spineswitchidx : Z;
  p_leafswitchidx : Z
}.

(** [Packet::Packet()] and [Packet::Packet(methodid, type, key)]. *)
Definition Packet_default : Packet := mkPacket INVALID_ID 0 Key_min 0 0 0.
Definition Packet_new (methodid type : Z) (key : Key) : Packet := mkPacket methodid type key 0 0 0.

(** [Packet::Packet(methodid, type, globalswitchidx, key)]. *)
Definition Packet_new_global (methodid type globalswitchidx : Z) (key : Key) : Packet :=
  mkPacket methodid type key globalswitchidx 0 0.

(** [Packet::Packet(methodid, type, spineswitchidx, leafswitchidx, key)] leaves
    [_globalswitchidx] with whatever the memory holds ([uninit]). *)
Definition Packet_new_spineleaf (uninit methodid type spineswitchidx leafswitchidx : Z) (key : Key)
    : Packet :=
  mkPacket methodid type key uninit spineswitchidx leafswitchidx.

Definition set_type (t : Z) (p : Packet) : Packet :=
  mkPacket (p_methodid p) t (p_key p) (p_globalswitchidx p) (p_spineswitchidx p) (p_leafswitchidx p).

(** [serialize_packet_type], [serialize_switchidx] and their inverses. *)
Definition serialize_packet_type (type maxsize : Z) : writer Z :=
  _ ← w_check (2 <=? maxsize);
  _ ← w_u16be type;
  mret 2.
Definition serialize_switchidx (switchidx maxsize : Z) : writer Z :=
  _ ← w_check (2 <=? maxsize);
  _ ← w_u16be switchidx;
  mret 2.
Definition deserialize_packet_type (recvsize : Z) : reader Z :=
  _ ← r_check (2 <=? recvsize);
  r_u16be.
Definition deserialize_switchidx (recvsize : Z) : reader Z :=
  _ ← r_check (2 <=? recvsize);
  r_u16be.

(** [get_packet_type]: the first field of a received packet. *)
Definition get_packet_type (recv_size : Z) : reader Z :=
  _ ← r_check (2 <=? recv_size);
  r_u16be.

(** [get_packet_key]. *)
Definition get_packet_key (methodid recvsize : Z) : reader Key :=
  ophdrsize ← r_lift (get_ophdrsize methodid);
  let tmp_keyoff := ophdrsize - sizeof_key in
  _ ← r_skip tmp_keyoff;
  Key_deserialize (u32 (recvsize - tmp_keyoff)).

(** [Packet::serialize_ophdr]. *)
Definition serialize_ophdr (p : Packet) (max_size : Z) : writer unit :=
  _ ← w_check (negb (p_methodid p =? INVALID_ID));
  ophdr_size ← w_lift (get_ophdrsize (p_methodid p));
  _ ← w_check (ophdr_size <=? max_size);
  _ ← serialize_packet_type (p_type p) max_size;
  _ ← (if negb (is_singleswitch (p_methodid p)) then
         if p_methodid p =? DISTCACHE_ID then
           rem ← w_rem max_size;
           _ ← serialize_switchidx (p_spineswitchidx p) rem;
           rem ← w_rem max_size;
           _ ← serialize_switchidx (p_leafswitchidx p) rem;
           mret tt
         else
           rem ← w_rem max_size;
           _ ← serialize_switchidx (p_globalswitchidx p) rem;
           mret tt
       else mret tt);
  rem ← w_rem max_size;
  _ ← Key_serialize (p_key p) rem;
  mret tt.

(** [Packet::deserialize_ophdr] on an object made by the default constructor
    whose [_methodid] has been set: the fields that are not on the wire stay 0. *)
Definition deserialize_ophdr (methodid recv_size : Z) : reader Packet :=
  _ ← r_check (negb (methodid =? INVALID_ID));
  ophdr_size ← r_lift (get_ophdrsize methodid);
  _ ← r_check (ophdr_size <=? recv_size);
  type ← deserialize_packet_type recv_size;
  '(g, s, l) ← (if negb (is_singleswitch methodid) then
         if methodid =? DISTCACHE_ID then
           rem ← r_rem recv_size;
           s ← deserialize_switchidx rem;
           rem ← r_rem recv_size;
           l ← deserialize_switchidx rem;
           mret (0, s, l)
         else
           rem ← r_rem recv_size;
           g ← deserialize_switchidx rem;
           mret (g, 0, 0)
       else mret (0, 0, 0));
  rem ← r_rem recv_size;
  key ← Key_deserialize rem;
  mret (mkPacket methodid type key g s l).

(** [Packet::dynamic_serialize_ophdr]: the bytes appended, for the classes that
    serialize into a [DynamicArray]. *)
Definition dynamic_serialize_ophdr (p : Packet) (dynamic_data : DynamicArray)
    : res (Z * DynamicArray) :=
  _ ← INVARIANT (negb (p_methodid p =? INVALID_ID));
  d ← dynamic_memcpy dynamic_data 0 (le_bytes 2 (htons (p_type p)));
  let tmpoff := 2 in
  '(tmpoff, d) ← (if negb (is_singleswitch (p_methodid p)) then
         if p_methodid p =? DISTCACHE_ID then
           d ← dynamic_memcpy d tmpoff (le_bytes 2 (htons (p_spineswitchidx p)));
           d ← dynamic_memcpy d (tmpoff + 2) (le_bytes 2 (htons (p_leafswitchidx p)));
           Ok (tmpoff + 4, d)
         else
           d ← dynamic_memcpy d tmpoff (le_bytes 2 (htons (p_globalswitchidx p)));
           Ok (tmpoff + 2, d)
       else Ok (tmpoff, d));
  '(n, d) ← Key_dynamic_serialize (p_key p) d tmpoff;
  Ok (tmpoff + n, d).

(** ** Requests *)

(** [GetRequest]: the header, and for DistCache the switch loads. *)
Record GetRequest := mkGetRequest {
  gr_base : Packet;
  gr_spineload : Z;
  gr_leafload : Z
}.

Definition GetRequest_size (methodid : Z) : res Z :=
  size ← get_ophdrsize methodid;
  Ok (if methodid =? DISTCACHE_ID then size + (2 + 4 + 4) else size).

Definition GetRequest_serialize (p : GetRequest) (max_size : Z) : writer Z :=
  let b := gr_base p in
  my_size ← w_lift (GetRequest_size (p_methodid b));
  _ ← w_check (my_size <=? max_size);
  _ ← serialize_ophdr b max_size;
  _ ← (if p_methodid b =? DISTCACHE_ID then
         rem ← w_rem max_size;
         _ ← serialize_packet_type (p_type b) rem;
         _ ← w_u32be (gr_spineload p);
         w_u32be (gr_leafload p)
       else mret tt);
  w_off.

Definition GetRequest_deserialize (methodid recv_size : Z) : reader GetRequest :=
  my_size ← r_lift (GetRequest_size methodid);
  _ ← r_check (my_size <=? recv_size);
  b ← deserialize_ophdr methodid recv_size;
  if methodid =? DISTCACHE_ID then
    _ ← r_skip 2;
    spineload ← r_u32be;
    leafload ← r_u32be;
    mret (mkGetRequest b spineload leafload)
  else mret (mkGetRequest b 0 0).

(** [PutRequest] (values of at most 128 bytes). *)
Record PutRequest := mkPutRequest {
  pr_base : Packet;
  pr_val : Val
}.

(** [PutRequest::PutRequest(methodid, key, val)]. *)
Definition PutRequest_new (methodid : Z) (key : Key) (val : Val) : res PutRequest :=
  _ ← INVARIANT (val_length val <=? SWITCH_MAX_VALLEN);
  Ok (mkPutRequest (Packet_new methodid PUTREQ key) (Val_copy val)).

Definition PutRequest_serialize (p : PutRequest) (max_size : Z) : writer Z :=
  _ ← serialize_ophdr (pr_base p) max_size;
  rem ← w_rem max_size;
  _ ← Val_serialize (pr_val p) rem;
  rem ← w_rem max_size;
  _ ← serialize_packet_type (p_type (pr_base p)) rem;
  w_off.

Definition PutRequest_deserialize (methodid recv_size : Z) : reader PutRequest :=
  b ← deserialize_ophdr methodid recv_size;
  rem ← r_rem recv_size;
  v ← Val_deserialize rem;
  _ ← r_skip 2;
  mret (mkPutRequest b v).

(** The constructor from a received buffer checks type and length. *)
Definition PutRequest_parse (methodid recv_size : Z) : reader PutRequest :=
  p ← PutRequest_deserialize methodid recv_size;
  _ ← r_check (p_type (pr_base p) =? PUTREQ);
  _ ← r_check (val_length (pr_val p) <=? SWITCH_MAX_VALLEN);
  mret p.

(** [DelRequest]: only the header, of exactly the received size. *)
Definition DelRequest_serialize (p : Packet) (max_size : Z) : writer Z :=
  my_size ← w_lift (get_ophdrsize (p_methodid p));
  _ ← w_check (my_size <=? max_size);
  _ ← serialize_ophdr p max_size;
  w_off.

Definition DelRequest_deserialize (methodid recv_size : Z) : reader Packet :=
  my_size ← r_lift (get_ophdrsize methodid);
  _ ← r_check (my_size =? recv_size);
  deserialize_ophdr methodid recv_size.

(** [WarmupRequest]: only the header. *)
Definition WarmupRequest_serialize (p : Packet) (max_size : Z) : writer Z :=
  my_size ← w_lift (get_ophdrsize (p_methodid p));
  _ ← w_check (my_size <=? max_size);
  _ ← serialize_ophdr p max_size;
  w_off.

Definition WarmupRequest_deserialize (methodid recv_size : Z) : reader Packet :=
  my_size ← r_lift (get_ophdrsize methodid);
  _ ← r_check (my_size <=? recv_size);
  deserialize_ophdr methodid recv_size.

(** [ScanRequest]. *)
Record ScanRequest := mkScanRequest {
  sq_base : Packet;
  sq_endkey : Key
}.

Definition ScanRequest_size (methodid : Z) : res Z :=
  size ← get_ophdrsize methodid; Ok (size + sizeof_key).

Definition ScanRequest_serialize (p : ScanRequest) (max_size : Z) : writer Z :=
  my_size ← w_lift (ScanRequest_size (p_methodid (sq_base p)));
  _ ← w_check (my_size <=? max_size);
  _ ← serialize_ophdr (sq_base p) max_size;
  rem ← w_rem max_size;
  _ ← Key_serialize (sq_endkey p) rem;
  w_off.

Definition ScanRequest_deserialize (methodid recv_size : Z) : reader ScanRequest :=
  my_size ← r_lift (ScanRequest_size methodid);
  _ ← r_check (my_size =? recv_size);
  b ← deserialize_ophdr methodid recv_size;
  rem ← r_rem recv_size;
  endkey ← Key_deserialize rem;
  mret (mkScanRequest b endkey).

(** ** Responses *)

(** [GetResponse] (values of at most 128 bytes). *)
Record GetResponse := mkGetResponse {
  gp_base : Packet;
  gp_val : Val;
  gp_stat : bool;
  gp_nodeidx_foreval : Z;
  gp_spineload : Z;
  gp_leafload : Z
}.

(** [GetResponse::GetResponse(methodid, key, val, stat, nodeidx_foreval)]. *)
Definition GetResponse_new (methodid : Z) (key : Key) (val : Val) (stat : bool) (nodeidx : Z)
    : res GetResponse :=
  _ ← INVARIANT (val_length val <=? SWITCH_MAX_VALLEN);
  Ok (mkGetResponse (Packet_new methodid GETRES key) (Val_copy val) stat nodeidx 0 0).

(** The end of the responses: [stat], [nodeidx_foreval], padding not written. *)
Definition put_stat_hdr (methodid : Z) (stat : bool) (nodeidx : Z) : writer unit :=
  _ ← w_bool stat;
  _ ← w_u16be nodeidx;
  pad ← w_lift (get_stat_padding_bytes methodid);
  w_skip pad.

Definition get_stat_hdr (methodid : Z) : reader (bool * Z) :=
  stat ← r_bool;
  nodeidx ← r_u16be;
  pad ← r_lift (get_stat_padding_bytes methodid);
  _ ← r_skip pad;
  mret (stat, nodeidx).

Definition GetResponse_serialize (p : GetResponse) (max_size : Z) : writer Z :=
  let b := gp_base p in
  _ ← serialize_ophdr b max_size;
  rem ← w_rem max_size;
  _ ← Val_serialize (gp_val p) rem;
  rem ← w_rem max_size;
  _ ← serialize_packet_type (p_type b) rem;
  _ ← put_stat_hdr (p_methodid b) (gp_stat p) (gp_nodeidx_foreval p);
  _ ← (if p_methodid b =? DISTCACHE_ID then
         _ ← w_u32be (gp_spineload p);
         w_u32be (gp_leafload p)
       else mret tt);
  w_off.

Definition GetResponse_deserialize (methodid recv_size : Z) : reader GetResponse :=
  b ← deserialize_ophdr methodid recv_size;
  rem ← r_rem recv_size;
  v ← Val_deserialize rem;
  _ ← r_skip 2;
  '(stat, nodeidx) ← get_stat_hdr methodid;
  if methodid =? DISTCACHE_ID then
    spineload ← r_u32be;
    leafload ← r_u32be;
    mret (mkGetResponse b v stat nodeidx spineload leafload)
  else mret (mkGetResponse b v stat nodeidx 0 0).

(** [GetResponseSeq]: also the sequence number; FarReach has a snapshot token
    behind it, sent as zero. *)
Record GetResponseSeq := mkGetResponseSeq {
  gs_resp : GetResponse;
  gs_seq : Z
}.

(** [seq_hdr] with a zero token, and its inverse that skips the token. *)
Definition put_seq_hdr0 (methodid seq : Z) : writer unit :=
  _ ← w_u32be seq;
  if methodid =? FARREACH_ID then w_memset 0 4 else mret tt.

Definition get_seq_hdr0 (methodid : Z) : reader Z :=
  seq ← r_u32be;
  _ ← (if methodid =? FARREACH_ID then r_skip 4 else mret tt);
  mret seq.

Definition GetResponseSeq_serialize (p : GetResponseSeq) (max_size : Z) : writer Z :=
  let b := gp_base (gs_resp p) in
  _ ← serialize_ophdr b max_size;
  rem ← w_rem max_size;
  _ ← Val_serialize (gp_val (gs_resp p)) rem;
  rem ← w_rem max_size;
  _ ← serialize_packet_type (p_type b) rem;
  _ ← put_seq_hdr0 (p_methodid b) (gs_seq p);
  _ ← put_stat_hdr (p_methodid b) (gp_stat (gs_resp p)) (gp_nodeidx_foreval (gs_resp p));
  w_off.

Definition GetResponseSeq_deserialize (methodid recv_size : Z) : reader GetResponseSeq :=
  b ← deserialize_ophdr methodid recv_size;
  rem ← r_rem recv_size;
  v ← Val_deserialize rem;
  _ ← r_skip 2;
  seq ← get_seq_hdr0 methodid;
  '(stat, nodeidx) ← get_stat_hdr methodid;
  mret (mkGetResponseSeq (mkGetResponse b v stat nodeidx 0 0) seq).

(** [PutResponse] and [DelResponse] (the same code with another type). *)
Record PutResponse := mkPutResponse {
  pp_base : Packet;
  pp_stat : bool;
  pp_nodeidx_foreval : Z
}.

Definition PutResponse_size (methodid : Z) : res Z :=
  size ← get_ophdrsize methodid;
  pad ← get_stat_padding_bytes methodid;
  Ok (size + 2 + 1 + 2 + pad).

Definition PutResponse_serialize (p : PutResponse) (max_size : Z) : writer Z :=
  let b := pp_base p in
  my_size ← w_lift (PutResponse_size (p_methodid b));
  _ ← w_check (my_size <=? max_size);
  _ ← serialize_ophdr b max_size;
  rem ← w_rem max_size;
  _ ← serialize_packet_type (p_type b) rem;
  _ ← put_stat_hdr (p_methodid b) (pp_stat p) (pp_nodeidx_foreval p);
  w_off.

Definition PutResponse_deserialize (methodid recv_size : Z) : reader PutResponse :=
  my_size ← r_lift (PutResponse_size methodid);
  _ ← r_check (my_size <=? recv_size);
  b ← deserialize_ophdr methodid recv_size;
  _ ← r_skip 2;
  '(stat, nodeidx) ← get_stat_hdr methodid;
  mret (mkPutResponse b stat nodeidx).

(** [PutResponseSeq] (and [DelResponseSeq]). *)
Record PutResponseSeq := mkPutResponseSeq {
  ps_resp : PutResponse;
  ps_seq : Z
}.

Definition PutResponseSeq_size (methodid : Z) : res Z :=
  size ← get_ophdrsize methodid;
  pad ← get_stat_padding_bytes methodid;
  let size := size + 2 + 4 + 1 + 2 + pad in
  Ok (if methodid =? FARREACH_ID then size + 4 else size).

Definition PutResponseSeq_serialize (p : PutResponseSeq) (max_size : Z) : writer Z :=
  let b := pp_base (ps_resp p) in
  my_size ← w_lift (PutResponseSeq_size (p_methodid b));
  _ ← w_check (my_size <=? max_size);
  _ ← serialize_ophdr b max_size;
  rem ← w_rem max_size;
  _ ← serialize_packet_type (p_type b) rem;
  _ ← put_seq_hdr0 (p_methodid b) (ps_seq p);
  _ ← put_stat_hdr (p_methodid b) (pp_stat (ps_resp p)) (pp_nodeidx_foreval (ps_resp p));
  w_off.

Definition PutResponseSeq_deserialize (methodid recv_size : Z) : reader PutResponseSeq :=
  my_size ← r_lift (PutResponseSeq_size methodid);
  _ ← r_check (my_size <=? recv_size);
  b ← deserialize_ophdr methodid recv_size;
  _ ← r_skip 2;
  seq ← get_seq_hdr0 methodid;
  '(stat, nodeidx) ← get_stat_hdr methodid;
  mret (mkPutResponseSeq (mkPutResponse b stat nodeidx) seq).
