(* ===== verification/PacketCodec.v ===== *)
(** * Packet headers and the packets of clients: what is sent is what is read

    The interface [WirePacket] that every packet class with both directions
    implements, its round-trip law, and the instances for the classes of
    Packet.v. *)

From Stdlib Require Import ZArith Lia List.
From stdpp Require Import base tactics list numbers option.
From S2P Require Import Prelude Cursor DynamicArray StdMap Crc32 Key Val Packet.

Open Scope Z_scope.

(** ** Well-formed headers *)

Definition valid_method (m : Z) : Prop := FARREACH_ID <= m <= DISTCACHE_ID.

Record packet_wf (p : Packet) : Prop := {
  pw_method : valid_method (p_methodid p);
  pw_type : is_u16 (p_type p);
  pw_key : key_wf (p_key p);
  pw_global : is_u16 (p_globalswitchidx p);
  pw_spine : is_u16 (p_spineswitchidx p);
  pw_leaf : is_u16 (p_leafswitchidx p)
}.

(** The header that a receiver sees: the switch indexes its method does not
    send are zero. *)
Definition wire_hdr (p : Packet) : Packet :=
  if is_singleswitch (p_methodid p) then mkPacket (p_methodid p) (p_type p) (p_key p) 0 0 0
  else if p_methodid p =? DISTCACHE_ID then
    mkPacket (p_methodid p) (p_type p) (p_key p) 0 (p_spineswitchidx p) (p_leafswitchidx p)
  else mkPacket (p_methodid p) (p_type p) (p_key p) (p_globalswitchidx p) 0 0.

Definition hdr_size (m : Z) : nat :=
  if is_singleswitch m then 18 else if m =? DISTCACHE_ID then 22 else 20.

Definition split_prev (m : Z) : nat := if is_singleswitch m then 3 else 4.
Definition inswitch_prev (m : Z) : nat :=
  if m =? FARREACH_ID then 18 else if (m =? NETCACHE_ID) || (m =? DISTCACHE_ID) then 26 else 14.
Definition clone_bytes (m : Z) : nat :=
  if (m =? FARREACH_ID) || (m =? NETCACHE_ID) then 8
  else if m =? NOCACHE_ID then 4 else if m =? DISTNOCACHE_ID then 14 else 18.

(** The six methods one by one. *)
Ltac methods H :=
  unfold valid_method, FARREACH_ID, DISTCACHE_ID in H;
  match type of H with
  | ?a <= ?m <= ?b =>
      assert (m = 1 \/ m = 2 \/ m = 3 \/ m = 4 \/ m = 5 \/ m = 6) as HM by lia; clear H;
      destruct HM as [H|[H|[H|[H|[H|H]]]]]; rewrite ?H
  end.

Section Sizes.
Context {m : Z} (Hm : valid_method m).

Lemma ophdrsize_ok : get_ophdrsize m = Ok (Z.of_nat (hdr_size m)).
Proof using Hm. methods Hm; reflexivity. Qed.

Lemma hdr_size_le : (18 <= hdr_size m <= 22)%nat.
Proof using. unfold hdr_size. repeat case_match; lia. Qed.

Lemma stat_padding_ok : get_stat_padding_bytes m = Ok 1.
Proof using Hm. methods Hm; reflexivity. Qed.

Lemma split_prev_ok : get_split_prev_bytes m = Ok (Z.of_nat (split_prev m)).
Proof using Hm. methods Hm; reflexivity. Qed.

Lemma inswitch_prev_ok : get_inswitch_prev_bytes m = Ok (Z.of_nat (inswitch_prev m)).
Proof using Hm. methods Hm; reflexivity. Qed.

Lemma clone_bytes_ok : get_clone_bytes m = Ok (Z.of_nat (clone_bytes m)).
Proof using Hm. methods Hm; reflexivity. Qed.

Lemma valid_not_invalid : negb (m =? INVALID_ID) = true.
Proof using Hm. methods Hm; reflexivity. Qed.
End Sizes.

Lemma wire_hdr_method p : p_methodid (wire_hdr p) = p_methodid p.
Proof. unfold wire_hdr. repeat case_match; reflexivity. Qed.

Lemma wire_hdr_idem p : wire_hdr (wire_hdr p) = wire_hdr p.
Proof.
  unfold wire_hdr at 1. rewrite !wire_hdr_method. unfold wire_hdr.
  destruct (is_singleswitch (p_methodid p)); [reflexivity|].
  destruct (p_methodid p =? DISTCACHE_ID); reflexivity.
Qed.

(** ** More steps for writer and reader in lockstep *)

Lemma codec_off_ret {B} pos (v : B) :
  0 <= pos < 2 ^ 32 -> codec w_off (mret v) pos 0 pos v.
Proof.
  intros Hp done old rest Hd Ho. destruct old; [|discriminate].
  exists []. unfold w_off; cbn [w_done]. rewrite Hd, u32_id by exact Hp.
  rewrite app_nil_r. auto using reads_ret.
Qed.

(** A last field whose reader ends there. *)
Lemma codec_last {A B} (w : writer A) (r : reader B) (kw : A -> writer Z) pos n a v :
  codec w r pos n a v -> kw a = w_off -> 0 <= pos + Z.of_nat n < 2 ^ 32 ->
  codec (w ≫= kw) r pos n (pos + Z.of_nat n) v.
Proof.
  intros H E Hp. eapply codec_wend; [exact H|]. intros s Hs. rewrite E.
  unfold w_off. now rewrite Hs, u32_id by exact Hp.
Qed.

(** A last writer step whose value the reader still returns. *)
Lemma codec_rlast {A B C} (w : writer A) (r : reader B) (kr : B -> reader C) pos n a v u :
  codec w r pos n a v -> kr v = mret u -> codec w (r ≫= kr) pos n a u.
Proof.
  intros H E done old rest Hd Ho. destruct (H done old rest Hd Ho) as (bs & Ew & L & R).
  exists bs. repeat split; auto. intros tl. unfold mbind, reader_bind. now rewrite R, E.
Qed.

Lemma codec_wret_bind {A C D} (a : A) (kw : A -> writer C) (r : reader D) pos n b u :
  codec (kw a) r pos n b u -> codec (mret a ≫= kw) r pos n b u.
Proof. intros H. exact H. Qed.

Lemma codec_rret_bind {A C D} (a : A) (w : writer C) (kr : A -> reader D) pos n b u :
  codec w (kr a) pos n b u -> codec w (mret a ≫= kr) pos n b u.
Proof. intros H. exact H. Qed.

Lemma codec_assoc_w {A B C D} (w : writer A) (k : A -> writer B) (k' : B -> writer C)
    (r : reader D) pos n b u :
  codec (w ≫= fun x => k x ≫= k') r pos n b u -> codec ((w ≫= k) ≫= k') r pos n b u.
Proof.
  intros H done old rest Hd Ho. destruct (H done old rest Hd Ho) as (bs & E & L & R).
  exists bs. split; [|auto]. rewrite <- E. unfold mbind, writer_bind.
  destruct (w _) as [[x s]|e]; reflexivity.
Qed.

Lemma codec_assoc_r {A B C D} (r : reader A) (k : A -> reader B) (k' : B -> reader C)
    (w : writer D) pos n b u :
  codec w (r ≫= fun x => k x ≫= k') pos n b u -> codec w ((r ≫= k) ≫= k') pos n b u.
Proof.
  intros H done old rest Hd Ho. destruct (H done old rest Hd Ho) as (bs & E & L & R).
  exists bs. repeat split; auto. intros tl. rewrite <- (R tl). unfold mbind, reader_bind.
  destruct (r _) as [[x s]|e]; reflexivity.
Qed.

Lemma codec_memset_skip v n pos :
  0 <= n -> codec (w_memset v n) (r_skip n) pos (Z.to_nat n) tt tt.
Proof.
  intros Hn. unfold w_memset.
  rewrite <- (length_replicate (Z.to_nat n) v) at 2. apply codec_put_skip.
  rewrite length_replicate. lia.
Qed.

Lemma codec_ptype t wlen rlen pos :
  is_u16 t -> 2 <= wlen -> 2 <= rlen ->
  codec (serialize_packet_type t wlen) (deserialize_packet_type rlen) pos 2 2 t.
Proof.
  intros Ht Hw Hr. unfold serialize_packet_type, deserialize_packet_type.
  apply codec_wcheck; [lia|]. apply codec_rcheck; [lia|].
  eapply codec_wret; [now apply codec_u16be|reflexivity].
Qed.

Lemma codec_sidx t wlen rlen pos :
  is_u16 t -> 2 <= wlen -> 2 <= rlen ->
  codec (serialize_switchidx t wlen) (deserialize_switchidx rlen) pos 2 2 t.
Proof. exact (codec_ptype t wlen rlen pos). Qed.

(** The shadow type is written and skipped. *)
Lemma codec_shadow t wlen pos :
  2 <= wlen -> codec (serialize_packet_type t wlen) (r_skip 2) pos 2 2 tt.
Proof.
  intros Hw. unfold serialize_packet_type. apply codec_wcheck; [lia|].
  eapply codec_wret; [apply codec_skip_u16be|reflexivity].
Qed.

(** One step of a packet proof; the field steps come from the hint database
    [codec], their side conditions are arithmetic. *)
#[export] Hint Resolve codec_ptype codec_sidx codec_shadow codec_memset_skip codec_Val
  codec_Val_large : codec.
#[export] Hint Extern 5 (_ <= _) => lia : codec.
#[export] Hint Extern 5 (_ < _) => lia : codec.
#[export] Hint Extern 5 (_ /\ _) => lia : codec.

Ltac pk_cond :=
  first [ reflexivity | apply Z.leb_le; lia | apply Z.eqb_eq; cbn; lia
        | apply Z.leb_le; cbn; lia | apply Z.ltb_lt; cbn; lia | lia ].

Ltac pk_step :=
  lazymatch goal with
  | |- codec (mbind _ (mbind _ _)) _ _ _ _ _ => apply codec_assoc_w
  | |- codec _ (mbind _ (mbind _ _)) _ _ _ _ => apply codec_assoc_r
  | |- codec (mbind _ (mret _)) _ _ _ _ _ => apply codec_wret_bind
  | |- codec _ (mbind _ (mret _)) _ _ _ _ => apply codec_rret_bind
  | |- codec (mbind _ (w_lift _)) _ _ _ _ _ =>
      eapply codec_wlift; [first [eassumption|reflexivity]|]
  | |- codec _ (mbind _ (r_lift _)) _ _ _ _ =>
      eapply codec_rlift; [first [eassumption|reflexivity]|]
  | |- codec (mbind _ (w_check _)) _ _ _ _ _ => apply codec_wcheck; [pk_cond|]
  | |- codec _ (mbind _ (r_check _)) _ _ _ _ => apply codec_rcheck; [pk_cond|]
  | |- codec (mbind _ (w_rem _)) _ _ _ _ _ => apply codec_wrem; [lia|lia|]
  | |- codec _ (mbind _ (r_rem _)) _ _ _ _ => apply codec_rrem; [lia|lia|]
  | |- codec (mbind _ _) (mbind _ _) _ _ _ _ => eapply codec_bind; [solve [eauto 4 with codec]|]
  | |- codec (mbind _ _) _ _ _ _ _ =>
      first [ eapply codec_last; [solve [eauto 4 with codec]|reflexivity|lia]
            | eapply codec_wret; [solve [eauto 4 with codec]|reflexivity] ]
  | |- codec _ (mbind _ _) _ _ _ _ => eapply codec_rlast; [solve [eauto 4 with codec]|reflexivity]
  | |- codec w_off _ _ _ _ _ => apply codec_off_ret; lia
  | |- codec _ _ _ _ _ _ => solve [eauto 4 with codec]
  end.
Ltac pk := repeat pk_step.

(** A packet proof up to the equations on sizes. *)
Ltac pk_run := eapply codec_weaken; [pk|try lia..].

(** ** The operation header *)

Lemma codec_ophdr p wlen rlen :
  packet_wf p -> Z.of_nat (hdr_size (p_methodid p)) <= wlen < 2 ^ 32 ->
  Z.of_nat (hdr_size (p_methodid p)) <= rlen < 2 ^ 32 ->
  codec (serialize_ophdr p wlen) (deserialize_ophdr (p_methodid p) rlen) 0
        (hdr_size (p_methodid p)) tt (wire_hdr p).
Proof.
  intros [Hm Ht Hk Hg Hs Hl] Hw Hr. unfold serialize_ophdr, deserialize_ophdr.
  rewrite (ophdrsize_ok Hm), !(valid_not_invalid Hm). unfold wire_hdr, hdr_size in *.
  destruct (is_singleswitch (p_methodid p)); cbn [negb]; [pk_run; reflexivity|].
  destruct (p_methodid p =? DISTCACHE_ID); pk_run; reflexivity.
Qed.

(** ** Packet classes

    What the transport needs of a packet class: [serialize] into a buffer of
    [max_size] bytes and the constructor from the received bytes.  [pc_wire]
    is the packet as the receiver sees it. *)

Record PacketClass (P : Type) := mkPacketClass {
  pc_method : P -> Z;
  pc_wf : P -> Prop;
  pc_size : P -> nat;
  pc_wire : P -> P;
  pc_serialize : P -> Z -> writer Z;
  pc_deserialize : Z -> Z -> reader P
}.
Arguments pc_method {P}.
Arguments pc_wf {P}.
Arguments pc_size {P}.
Arguments pc_wire {P}.
Arguments pc_serialize {P}.
Arguments pc_deserialize {P}.

(** The promise of a class: the reader consumes exactly what the writer wrote. *)
Definition class_ok {P} (c : PacketClass P) : Prop :=
  forall p max_size, pc_wf c p -> Z.of_nat (pc_size c p) <= max_size < 2 ^ 32 ->
  codec (pc_serialize c p max_size) (pc_deserialize c (pc_method c p) (Z.of_nat (pc_size c p)))
    0 (pc_size c p) (Z.of_nat (pc_size c p)) (pc_wire c p).
Ltac class_cbn c := unfold c in *; cbn [pc_method pc_wf pc_size pc_wire pc_serialize pc_deserialize] in *.

(** [travels c p]: serialized into any buffer large enough, [p] takes
    [pc_size c p] bytes, leaves the rest of the buffer alone, and a receiver of
    these bytes constructs [pc_wire c p]. *)
Definition travels {P} (c : PacketClass P) (p : P) : Prop :=
  forall data, (pc_size c p <= length data)%nat -> Z.of_nat (length data) < 2 ^ 32 ->
  exists data',
    run_writer (pc_serialize c p (Z.of_nat (length data))) data
      = Ok (Z.of_nat (pc_size c p), data') /\
    length data' = length data /\
    drop (pc_size c p) data' = drop (pc_size c p) data /\
    run_reader (pc_deserialize c (pc_method c p) (Z.of_nat (pc_size c p)))
      (take (pc_size c p) data') = Ok (pc_wire c p).

Lemma class_travels {P} (c : PacketClass P) p : class_ok c -> pc_wf c p -> travels c p.
Proof.
  intros Hc Hp data Hl Hd.
  destruct (codec_run _ _ _ _ data (Hc p (Z.of_nat (length data)) Hp ltac:(lia)) Hl)
    as (data' & E & L & D & R).
  exists data'. repeat split; auto. rewrite <- (app_nil_r (take _ _)). apply R.
Qed.

(** The header lemma as a hint: its method and sizes are found by unification. *)
#[export] Hint Resolve codec_ophdr : codec.
#[export] Hint Extern 5 (codec (serialize_ophdr _ _) (deserialize_ophdr _ _) _ _ _ _) =>
  eapply codec_ophdr; [eassumption|lia|lia] : codec.

(** ** The classes of clients *)

Definition GetRequest_class : PacketClass GetRequest := {|
  pc_method p := p_methodid (gr_base p);
  pc_wf p := packet_wf (gr_base p) /\ is_u32 (gr_spineload p) /\ is_u32 (gr_leafload p);
  pc_size p := (hdr_size (p_methodid (gr_base p)) +
    (if Z.eqb (p_methodid (gr_base p)) DISTCACHE_ID then 10 else 0))%nat;
  pc_wire p :=
    if p_methodid (gr_base p) =? DISTCACHE_ID
    then mkGetRequest (wire_hdr (gr_base p)) (gr_spineload p) (gr_leafload p)
    else mkGetRequest (wire_hdr (gr_base p)) 0 0;
  pc_serialize := GetRequest_serialize;
  pc_deserialize := GetRequest_deserialize
|}.

Definition PutRequest_class : PacketClass PutRequest := {|
  pc_method p := p_methodid (pr_base p);
  pc_wf p := packet_wf (pr_base p) /\ p_type (pr_base p) = PUTREQ /\
    val_wf (pr_val p) /\ val_length (pr_val p) <= SWITCH_MAX_VALLEN;
  pc_size p := (hdr_size (p_methodid (pr_base p)) + (val_wire_size (pr_val p) + 2))%nat;
  pc_wire p := mkPutRequest (wire_hdr (pr_base p)) (pr_val p);
  pc_serialize := PutRequest_serialize;
  pc_deserialize := PutRequest_parse
|}.

Definition DelRequest_class : PacketClass Packet := {|
  pc_method := p_methodid;
  pc_wf := packet_wf;
  pc_size p := hdr_size (p_methodid p);
  pc_wire := wire_hdr;
  pc_serialize := DelRequest_serialize;
  pc_deserialize := DelRequest_deserialize
|}.

Definition WarmupRequest_class : PacketClass Packet := {|
  pc_method := p_methodid;
  pc_wf := packet_wf;
  pc_size p := hdr_size (p_methodid p);
  pc_wire := wire_hdr;
  pc_serialize := WarmupRequest_serialize;
  pc_deserialize := WarmupRequest_deserialize
|}.

Definition ScanRequest_class : PacketClass ScanRequest := {|
  pc_method p := p_methodid (sq_base p);
  pc_wf p := packet_wf (sq_base p) /\ key_wf (sq_endkey p);
  pc_size p := (hdr_size (p_methodid (sq_base p)) + 16)%nat;
  pc_wire p := mkScanRequest (wire_hdr (sq_base p)) (sq_endkey p);
  pc_serialize := ScanRequest_serialize;
  pc_deserialize := ScanRequest_deserialize
|}.

(** Opens a [class_ok] goal on a packet [p] with header [b]. *)
Ltac class_start b Hwf :=
  pose proof (pw_method _ Hwf) as Hm;
  pose proof (ophdrsize_ok Hm) as Hophdr;
  pose proof (stat_padding_ok Hm) as Hpad;
  pose proof (@hdr_size_le (p_methodid b)) as Hh.

Lemma GetRequest_ok : class_ok GetRequest_class.
Proof.
  intros [b sl ll] max_size (Hwf & Hs & Hl) Hmax. class_cbn GetRequest_class. cbn [gr_base gr_spineload gr_leafload] in *. class_start b Hwf.
  unfold GetRequest_serialize, GetRequest_deserialize, GetRequest_size; cbn [gr_base gr_spineload gr_leafload].
  rewrite Hophdr. cbn [mbind res_bind].
  destruct (p_methodid b =? DISTCACHE_ID) eqn:Ed.
  - pk_run; reflexivity.
  - pk_run; reflexivity.
Qed.

Lemma wire_hdr_type p : p_type (wire_hdr p) = p_type p.
Proof. unfold wire_hdr. repeat case_match; reflexivity. Qed.

Lemma PutRequest_ok : class_ok PutRequest_class.
Proof.
  intros [b v] max_size (Hwf & Ht & Hv & Hl) Hmax. class_cbn PutRequest_class.
  cbn [pr_base pr_val] in *. class_start b Hwf.
  unfold PutRequest_serialize, PutRequest_parse, PutRequest_deserialize; cbn [pr_base pr_val].
  unfold SWITCH_MAX_VALLEN in *. pose proof (wire_hdr_type b) as Htw. rewrite Ht in Htw.
  pk_run; reflexivity.
Qed.

Lemma DelRequest_ok : class_ok DelRequest_class.
Proof.
  intros b max_size Hwf Hmax. class_cbn DelRequest_class. class_start b Hwf.
  unfold DelRequest_serialize, DelRequest_deserialize.
  pk_run; reflexivity.
Qed.

Lemma WarmupRequest_ok : class_ok WarmupRequest_class.
Proof.
  intros b max_size Hwf Hmax. class_cbn WarmupRequest_class. class_start b Hwf.
  unfold WarmupRequest_serialize, WarmupRequest_deserialize.
  pk_run; reflexivity.
Qed.

Lemma ScanRequest_ok : class_ok ScanRequest_class.
Proof.
  intros [b e] max_size (Hwf & He) Hmax. class_cbn ScanRequest_class.
  cbn [sq_base sq_endkey] in *. class_start b Hwf.
  unfold ScanRequest_serialize, ScanRequest_deserialize, ScanRequest_size, sizeof_key;
    cbn [sq_base sq_endkey].
  rewrite Hophdr. cbn [mbind res_bind].
  pk_run; reflexivity.
Qed.

(** ** The classes of responses *)

Lemma codec_stat_hdr m stat nodeidx pos :
  valid_method m -> is_u16 nodeidx ->
  codec (put_stat_hdr m stat nodeidx) (get_stat_hdr m) pos 4 tt (stat, nodeidx).
Proof.
  intros Hm Hn. pose proof (stat_padding_ok Hm) as Hpad.
  unfold put_stat_hdr, get_stat_hdr.
  pk_run; reflexivity.
Qed.

Definition seq_size (m : Z) : nat := if Z.eqb m FARREACH_ID then 8 else 4.

Lemma codec_seq_hdr0 m seq pos :
  is_u32 seq -> codec (put_seq_hdr0 m seq) (get_seq_hdr0 m) pos (seq_size m) tt seq.
Proof.
  intros Hs. unfold put_seq_hdr0, get_seq_hdr0, seq_size.
  destruct (m =? FARREACH_ID); pk_run; reflexivity.
Qed.
#[export] Hint Resolve codec_stat_hdr codec_seq_hdr0 : codec.

Definition small_val (v : Val) : Prop := val_wf v /\ val_length v <= SWITCH_MAX_VALLEN.

Definition GetResponse_class : PacketClass GetResponse := {|
  pc_method p := p_methodid (gp_base p);
  pc_wf p := packet_wf (gp_base p) /\ small_val (gp_val p) /\ is_u16 (gp_nodeidx_foreval p) /\
    is_u32 (gp_spineload p) /\ is_u32 (gp_leafload p);
  pc_size p := (hdr_size (p_methodid (gp_base p)) + (val_wire_size (gp_val p) + (2 + (4 +
    if Z.eqb (p_methodid (gp_base p)) DISTCACHE_ID then 8 else 0))))%nat;
  pc_wire p :=
    if p_methodid (gp_base p) =? DISTCACHE_ID
    then mkGetResponse (wire_hdr (gp_base p)) (gp_val p) (gp_stat p) (gp_nodeidx_foreval p)
           (gp_spineload p) (gp_leafload p)
    else mkGetResponse (wire_hdr (gp_base p)) (gp_val p) (gp_stat p) (gp_nodeidx_foreval p) 0 0;
  pc_serialize := GetResponse_serialize;
  pc_deserialize := GetResponse_deserialize
|}.

Definition GetResponseSeq_class : PacketClass GetResponseSeq := {|
  pc_method p := p_methodid (gp_base (gs_resp p));
  pc_wf p := packet_wf (gp_base (gs_resp p)) /\ small_val (gp_val (gs_resp p)) /\
    is_u16 (gp_nodeidx_foreval (gs_resp p)) /\ is_u32 (gs_seq p);
  pc_size p := (hdr_size (p_methodid (gp_base (gs_resp p))) + (val_wire_size (gp_val (gs_resp p)) +
    (2 + (seq_size (p_methodid (gp_base (gs_resp p))) + 4))))%nat;
  pc_wire p := mkGetResponseSeq
    (mkGetResponse (wire_hdr (gp_base (gs_resp p))) (gp_val (gs_resp p)) (gp_stat (gs_resp p))
       (gp_nodeidx_foreval (gs_resp p)) 0 0) (gs_seq p);
  pc_serialize := GetResponseSeq_serialize;
  pc_deserialize := GetResponseSeq_deserialize
|}.

Definition PutResponse_class : PacketClass PutResponse := {|
  pc_method p := p_methodid (pp_base p);
  pc_wf p := packet_wf (pp_base p) /\ is_u16 (pp_nodeidx_foreval p);
  pc_size p := (hdr_size (p_methodid (pp_base p)) + (2 + 4))%nat;
  pc_wire p := mkPutResponse (wire_hdr (pp_base p)) (pp_stat p) (pp_nodeidx_foreval p);
  pc_serialize := PutResponse_serialize;
  pc_deserialize := PutResponse_deserialize
|}.

Definition PutResponseSeq_class : PacketClass PutResponseSeq := {|
  pc_method p := p_methodid (pp_base (ps_resp p));
  pc_wf p := packet_wf (pp_base (ps_resp p)) /\ is_u16 (pp_nodeidx_foreval (ps_resp p)) /\
    is_u32 (ps_seq p);
  pc_size p := (hdr_size (p_methodid (pp_base (ps_resp p))) +
    (2 + (seq_size (p_methodid (pp_base (ps_resp p))) + 4)))%nat;
  pc_wire p := mkPutResponseSeq (mkPutResponse (wire_hdr (pp_base (ps_resp p)))
    (pp_stat (ps_resp p)) (pp_nodeidx_foreval (ps_resp p))) (ps_seq p);
  pc_serialize := PutResponseSeq_serialize;
  pc_deserialize := PutResponseSeq_deserialize
|}.

Lemma GetResponse_ok : class_ok GetResponse_class.
Proof.
  intros [b v st nd sl ll] max_size (Hwf & (Hv & Hl) & Hn & Hs & Hll) Hmax.
  class_cbn GetResponse_class.
  cbn [gp_base gp_val gp_stat gp_nodeidx_foreval gp_spineload gp_leafload] in *. class_start b Hwf.
  unfold GetResponse_serialize, GetResponse_deserialize, SWITCH_MAX_VALLEN in *.
  cbn [gp_base gp_val gp_stat gp_nodeidx_foreval gp_spineload gp_leafload].
  destruct (p_methodid b =? DISTCACHE_ID); pk_run; reflexivity.
Qed.

Lemma GetResponseSeq_ok : class_ok GetResponseSeq_class.
Proof.
  intros [[b v st nd sl ll] seq] max_size (Hwf & (Hv & Hl) & Hn & Hs) Hmax.
  class_cbn GetResponseSeq_class.
  cbn [gs_resp gs_seq gp_base gp_val gp_stat gp_nodeidx_foreval] in *. class_start b Hwf.
  unfold GetResponseSeq_serialize, GetResponseSeq_deserialize, SWITCH_MAX_VALLEN in *.
  cbn [gs_resp gs_seq gp_base gp_val gp_stat gp_nodeidx_foreval].
  pk_run; reflexivity.
Qed.

Lemma PutResponse_ok : class_ok PutResponse_class.
Proof.
  intros [b st nd] max_size (Hwf & Hn) Hmax. class_cbn PutResponse_class.
  cbn [pp_base pp_stat pp_nodeidx_foreval] in *. class_start b Hwf.
  unfold PutResponse_serialize, PutResponse_deserialize, PutResponse_size.
  cbn [pp_base pp_stat pp_nodeidx_foreval]. rewrite Hophdr, Hpad. cbn [mbind res_bind].
  pk_run; reflexivity.
Qed.

Lemma PutResponseSeq_size_ok m :
  valid_method m -> PutResponseSeq_size m = Ok (Z.of_nat (hdr_size m + (2 + (seq_size m + 4)))).
Proof.
  intros Hm. unfold PutResponseSeq_size, seq_size. rewrite (ophdrsize_ok Hm), (stat_padding_ok Hm).
  cbn [mbind res_bind]. destruct (m =? FARREACH_ID); f_equal; lia.
Qed.

Lemma PutResponseSeq_ok : class_ok PutResponseSeq_class.
Proof.
  intros [[b st nd] seq] max_size (Hwf & Hn & Hs) Hmax. class_cbn PutResponseSeq_class.
  cbn [ps_resp ps_seq pp_base pp_stat pp_nodeidx_foreval] in *. class_start b Hwf.
  unfold PutResponseSeq_serialize, PutResponseSeq_deserialize.
  cbn [ps_resp ps_seq pp_base pp_stat pp_nodeidx_foreval].
  rewrite (PutResponseSeq_size_ok _ Hm). pk_run; reflexivity.
Qed.

(** ** Dispatch on a received header *)

Lemma r_skip_add a b s :
  0 <= a -> 0 <= b -> r_skip (a + b) s = (_ ← r_skip a; r_skip b) s.
Proof.
  intros Ha Hb. destruct s as [pos rest]. unfold r_skip, mbind, reader_bind; cbn [r_pos r_rest].
  rewrite drop_drop. do 3 f_equal; [lia|]. f_equal. lia.
Qed.

Lemma codec_skip_add {C D} a b c (w : writer C) (kr : unit -> reader D) pos n x u :
  0 <= a -> 0 <= b -> c = a + b ->
  codec w (r_skip a ≫= fun _ => r_skip b ≫= kr) pos n x u ->
  codec w (r_skip c ≫= kr) pos n x u.
Proof.
  intros Ha Hb -> H done old rest Hd Ho. destruct (H done old rest Hd Ho) as (bs & E & L & R).
  exists bs. repeat split; auto. intros tl. rewrite <- (R tl).
  unfold mbind, reader_bind. rewrite (r_skip_add a b) by assumption.
  unfold mbind, reader_bind. destruct (r_skip a _) as [[? ?]|?]; reflexivity.
Qed.

Lemma codec_sidx_skip t wlen pos :
  2 <= wlen -> codec (serialize_switchidx t wlen) (r_skip 2) pos 2 2 tt.
Proof. exact (codec_shadow t wlen pos). Qed.
#[export] Hint Resolve codec_sidx_skip : codec.

(** The header as the two dispatch functions see it. *)
Lemma codec_ophdr_key p wlen rlen :
  packet_wf p -> Z.of_nat (hdr_size (p_methodid p)) <= wlen < 2 ^ 32 ->
  Z.of_nat (hdr_size (p_methodid p)) <= rlen < 2 ^ 32 ->
  codec (serialize_ophdr p wlen) (get_packet_key (p_methodid p) rlen) 0
        (hdr_size (p_methodid p)) tt (p_key p).
Proof.
  intros [Hm Ht Hk Hg Hs Hl] Hw Hr. unfold serialize_ophdr, get_packet_key, sizeof_key.
  rewrite (ophdrsize_ok Hm), !(valid_not_invalid Hm). unfold hdr_size in *.
  assert (Hu : forall x, 0 <= x <= rlen -> u32 (rlen - x) = rlen - x)
    by (intros x Hx; apply u32_id; unfold is_u32; lia).
  destruct (is_singleswitch (p_methodid p)); cbn [negb];
    [|destruct (p_methodid p =? DISTCACHE_ID)].
  - apply (codec_weaken _ _ _ (2 + 16) _ tt _ (p_key p)); [|reflexivity..].
    eapply codec_rlift; [reflexivity|]. rewrite Hu by lia. change (Z.of_nat 18 - 16) with 2. pk.
  - apply (codec_weaken _ _ _ (2 + (2 + (2 + 16))) _ tt _ (p_key p)); [|reflexivity..].
    eapply codec_rlift; [reflexivity|]. rewrite Hu by lia.
    eapply (codec_skip_add 2 4); [lia..|]. do 4 pk_step.
    eapply (codec_skip_add 2 2); [lia..|]. pk.
  - apply (codec_weaken _ _ _ (2 + (2 + 16)) _ tt _ (p_key p)); [|reflexivity..].
    eapply codec_rlift; [reflexivity|]. rewrite Hu by lia.
    eapply (codec_skip_add 2 2); [lia..|]. pk.
Qed.

(** A field can always be skipped instead of read. *)
Lemma codec_any_skip {A B} (w : writer A) (r : reader B) pos n a v :
  codec w r pos n a v -> codec w (r_skip (Z.of_nat n)) pos n a tt.
Proof.
  intros H done old rest Hd Ho. destruct (H done old rest Hd Ho) as (bs & E & L & _).
  exists bs. repeat split; auto. apply reads_skip; lia.
Qed.

Lemma codec_Key_skip k wlen pos :
  key_wf k -> 16 <= wlen -> codec (Key_serialize k wlen) (r_skip 16) pos 16 16 tt.
Proof. intros Hk Hw. apply (codec_any_skip _ (Key_deserialize 16) _ 16 _ k). now apply codec_Key. Qed.
#[export] Hint Resolve codec_Key_skip : codec.

Lemma codec_ophdr_type p wlen rlen :
  packet_wf p -> Z.of_nat (hdr_size (p_methodid p)) <= wlen < 2 ^ 32 -> 2 <= rlen ->
  codec (serialize_ophdr p wlen)
        (t ← get_packet_type rlen; _ ← r_skip (Z.of_nat (hdr_size (p_methodid p)) - 2); mret t) 0
        (hdr_size (p_methodid p)) tt (p_type p).
Proof.
  intros [Hm Ht Hk Hg Hs Hl] Hw Hr. unfold serialize_ophdr, get_packet_type.
  rewrite (ophdrsize_ok Hm), !(valid_not_invalid Hm). unfold hdr_size in *.
  fold (deserialize_packet_type rlen).
  destruct (is_singleswitch (p_methodid p)); cbn [negb];
    [|destruct (p_methodid p =? DISTCACHE_ID)].
  - apply (codec_weaken _ _ _ (2 + (16 + 0)) _ tt _ (p_type p)); [|reflexivity..].
    change (Z.of_nat 18 - 2) with 16. pk.
  - apply (codec_weaken _ _ _ (2 + (2 + (2 + (16 + 0)))) _ tt _ (p_type p)); [|reflexivity..].
    do 4 pk_step. eapply (codec_skip_add 2 18); [lia..|]. do 4 pk_step.
    eapply (codec_skip_add 2 16); [lia..|]. pk.
  - apply (codec_weaken _ _ _ (2 + (2 + (16 + 0))) _ tt _ (p_type p)); [|reflexivity..].
    do 4 pk_step. eapply (codec_skip_add 2 16); [lia..|]. pk.
Qed.

(** ** All requests and all responses *)

Inductive ClientRequest :=
  | ReqGet (p : GetRequest)
  | ReqPut (p : PutRequest)
  | ReqDel (p : Packet)
  | ReqScan (p : ScanRequest)
  | ReqWarmup (p : Packet).

Definition request_wf (r : ClientRequest) : Prop :=
  match r with
  | ReqGet p => pc_wf GetRequest_class p
  | ReqPut p => pc_wf PutRequest_class p
  | ReqDel p => pc_wf DelRequest_class p
  | ReqScan p => pc_wf ScanRequest_class p
  | ReqWarmup p => pc_wf WarmupRequest_class p
  end.

Definition request_travels (r : ClientRequest) : Prop :=
  match r with
  | ReqGet p => travels GetRequest_class p
  | ReqPut p => travels PutRequest_class p
  | ReqDel p => travels DelRequest_class p
  | ReqScan p => travels ScanRequest_class p
  | ReqWarmup p => travels WarmupRequest_class p
  end.

Inductive ServerResponse :=
  | ResGet (p : GetResponse)
  | ResGetSeq (p : GetResponseSeq)
  | ResPut (p : PutResponse)
  | ResPutSeq (p : PutResponseSeq).

Definition response_wf (r : ServerResponse) : Prop :=
  match r with
  | ResGet p => pc_wf GetResponse_class p
  | ResGetSeq p => pc_wf GetResponseSeq_class p
  | ResPut p => pc_wf PutResponse_class p
  | ResPutSeq p => pc_wf PutResponseSeq_class p
  end.

Definition response_travels (r : ServerResponse) : Prop :=
  match r with
  | ResGet p => travels GetResponse_class p
  | ResGetSeq p => travels GetResponseSeq_class p
  | ResPut p => travels PutResponse_class p
  | ResPutSeq p => travels PutResponseSeq_class p
  end.

(** C31: a GET, PUT, DEL, SCAN or WARMUP request of a client, of any of the six
    methods, that is serialized into a buffer with enough room is read back by the
    receiver: the same key, value, range and loads, the switch indexes its method
    sends, and nothing behind the returned size is touched.  (LOADREQ and the PUT of a
    large value have a format of their own.) *)
Theorem client_requests_travel (r : ClientRequest) : request_wf r -> request_travels r.
Proof.
  destruct r; intros H; apply class_travels; auto using GetRequest_ok, PutRequest_ok,
    DelRequest_ok, ScanRequest_ok, WarmupRequest_ok.
Qed.

(** Every response to a get, put or delete, with and without a sequence
    number, is read back by the client as it was sent: value, status, server
    index, sequence number. *)
Theorem server_responses_travel (r : ServerResponse) : response_wf r -> response_travels r.
Proof.
  destruct r; intros H; apply class_travels; auto using GetResponse_ok, GetResponseSeq_ok,
    PutResponse_ok, PutResponseSeq_ok.
Qed.

(** A received packet is dispatched on what was sent: behind any header
    written by [serialize_ophdr], whatever follows it, [get_packet_type] reads
    the type and [get_packet_key] the key. *)
Theorem header_dispatch (p : Packet) (data : list Z) :
  packet_wf p -> (hdr_size (p_methodid p) <= length data)%nat -> Z.of_nat (length data) < 2 ^ 32 ->
  exists data',
    run_writer (serialize_ophdr p (Z.of_nat (length data))) data = Ok (tt, data') /\
    length data' = length data /\
    run_reader (get_packet_type (Z.of_nat (length data))) data' = Ok (p_type p) /\
    run_reader (get_packet_key (p_methodid p) (Z.of_nat (length data))) data' = Ok (p_key p).
Proof.
  intros Hp Hl Hd. pose proof (@hdr_size_le (p_methodid p)) as Hh.
  set (n := hdr_size (p_methodid p)) in *.
  destruct (codec_ophdr_type p (Z.of_nat (length data)) (Z.of_nat (length data)) Hp ltac:(lia) ltac:(lia)
    [] (take n data) (drop n data) eq_refl) as (bs & E & L & R).
  { rewrite length_take. lia. }
  destruct (codec_ophdr_key p (Z.of_nat (length data)) (Z.of_nat (length data)) Hp ltac:(lia) ltac:(lia)
    [] (take n data) (drop n data) eq_refl) as (bs' & E' & L' & R').
  { rewrite length_take. lia. }
  assert (bs' = bs) as -> by (cbn in E, E'; congruence).
  rewrite take_drop in E. exists (bs ++ drop n data). unfold run_writer, run_reader. rewrite E.
  split; [reflexivity|]. split; [rewrite length_app, length_drop; lia|]. rewrite R'. split; [|reflexivity].
  specialize (R (drop n data)). unfold mbind, reader_bind in R.
  destruct (get_packet_type _ _) as [[t s]|e]; [|discriminate].
  destruct (r_skip _ s) as [[u s']|e]; [|discriminate]. now inversion R.
Qed.

(** ** Concrete packets *)

Definition demo_hdr (m t : Z) : Packet := mkPacket m t (mkKey 1 2 3 4) 5 6 7.

Lemma demo_hdr_wf m t : valid_method m -> is_u16 t -> packet_wf (demo_hdr m t).
Proof. intros Hm Ht. constructor; cbn; auto; unfold is_u16, key_wf; cbn; unfold is_u32; lia. Qed.

Definition demo_val : Val := mkVal 3 (Some [10; 20; 30]).

Lemma demo_val_small : small_val demo_val.
Proof.
  split; [|unfold SWITCH_MAX_VALLEN; cbn; lia].
  right. exists [10; 20; 30]. repeat split; try discriminate.
  repeat constructor; unfold is_byte; lia.
Qed.

Lemma client_requests_travel_witness :
  request_travels (ReqPut (mkPutRequest (demo_hdr FARREACH_ID PUTREQ) demo_val)).
Proof.
  apply client_requests_travel. cbn [request_wf]. unfold PutRequest_class; cbn [pc_wf pr_base pr_val].
  split; [apply demo_hdr_wf; unfold valid_method, is_u16, FARREACH_ID, DISTCACHE_ID, PUTREQ; lia|].
  split; [reflexivity|]. exact demo_val_small.
Defined.

Lemma server_responses_travel_witness :
  response_travels (ResGetSeq (mkGetResponseSeq
    (mkGetResponse (demo_hdr DISTCACHE_ID GETRES_SEQ) demo_val true 9 0 0) 77)).
Proof.
  apply server_responses_travel. cbn [response_wf]. unfold GetResponseSeq_class.
  cbn [pc_wf gs_resp gs_seq gp_base gp_val gp_nodeidx_foreval].
  split; [apply demo_hdr_wf; unfold valid_method, is_u16, FARREACH_ID, DISTCACHE_ID, GETRES_SEQ; lia|].
  split; [exact demo_val_small|]. unfold is_u16, is_u32; lia.
Defined.

Lemma header_dispatch_witness :
  exists data',
    run_writer (serialize_ophdr (demo_hdr DISTFARREACH_ID GETREQ) 20) (replicate 20 0)
      = Ok (tt, data') /\
    length data' = 20%nat /\
    run_reader (get_packet_type 20) data' = Ok GETREQ /\
    run_reader (get_packet_key DISTFARREACH_ID 20) data' = Ok (mkKey 1 2 3 4).
Proof.
  apply (header_dispatch (demo_hdr DISTFARREACH_ID GETREQ) (replicate 20 0)).
  - apply demo_hdr_wf; unfold valid_method, is_u16, FARREACH_ID, DISTCACHE_ID, DISTFARREACH_ID, GETREQ; lia.
  - reflexivity.
  - reflexivity.
Defined.
