(* ===== verification/PacketCache.v ===== *)
(** * Packets with sequence numbers and packets of cache management
      (common/packet_format_impl.h)

    The requests the switch has stamped with a sequence number, the responses
    of a server that carry a record for the switch, and the packets that
    populate and evict cache entries. *)

From Stdlib Require Import ZArith Lia List.
From stdpp Require Import base tactics list numbers option.
From S2P Require Import Prelude Cursor DynamicArray StdMap Crc32 Key Val DeletedSet Packet PacketCodec.

Open Scope Z_scope.

(** ** Requests with a sequence number *)

(** [PutRequestSeq]; [PutRequestPopSeq], [PutRequestSeqCase3] and
    [PutRequestPopSeqCase3] differ in the type their constructor accepts. *)
Record PutRequestSeq := mkPutRequestSeq {
  qs_base : Packet;
  qs_val : Val;
  qs_seq : Z;
  qs_snapshot_token : Z
}.

(** [PutRequestSeq::PutRequestSeq(methodid, key, val, seq)]. *)
Definition PutRequestSeq_new (uninit methodid : Z) (key : Key) (val : Val) (seq : Z) : PutRequestSeq :=
  mkPutRequestSeq (Packet_new_spineleaf uninit methodid PUTREQ_SEQ 0 0 key) (Val_copy val) seq 0.

(** [this->_type = t] in the constructor of a derived class. *)
Definition set_qs_type (t : Z) (p : PutRequestSeq) : PutRequestSeq :=
  mkPutRequestSeq (set_type t (qs_base p)) (qs_val p) (qs_seq p) (qs_snapshot_token p).

Definition PutRequestSeq_serialize (p : PutRequestSeq) (max_size : Z) : writer Z :=
  let b := qs_base p in
  _ ← serialize_ophdr b max_size;
  rem ← w_rem max_size;
  _ ← Val_serialize (qs_val p) rem;
  rem ← w_rem max_size;
  _ ← serialize_packet_type (p_type b) rem;
  _ ← w_u32be (qs_seq p);
  _ ← (if p_methodid b =? FARREACH_ID then w_u32be (qs_snapshot_token p) else mret tt);
  w_off.

Definition PutRequestSeq_deserialize (methodid recv_size : Z) : reader PutRequestSeq :=
  b ← deserialize_ophdr methodid recv_size;
  rem ← r_rem recv_size;
  v ← Val_deserialize rem;
  _ ← r_skip 2;
  seq ← r_u32be;
  token ← (if methodid =? FARREACH_ID then r_u32be else mret 0);
  mret (mkPutRequestSeq b v seq token).

(** The constructor from a received buffer, for the type of its class. *)
Definition PutRequestSeq_parse (type methodid recv_size : Z) : reader PutRequestSeq :=
  p ← PutRequestSeq_deserialize methodid recv_size;
  _ ← r_check (p_type (qs_base p) =? type);
  _ ← r_check (val_length (qs_val p) <=? SWITCH_MAX_VALLEN);
  _ ← r_check (0 <=? qs_seq p);
  mret p.

(** [DelRequestSeq] and [DelRequestSeqCase3]: sent by the switch only. *)
Record DelRequestSeq := mkDelRequestSeq {
  ds_base : Packet;
  ds_seq : Z;
  ds_snapshot_token : Z
}.

Definition DelRequestSeq_size (methodid : Z) : res Z :=
  size ← get_ophdrsize methodid;
  let size := size + 2 + 4 in
  Ok (if methodid =? FARREACH_ID then size + 4 else size).

Definition DelRequestSeq_deserialize (methodid recv_size : Z) : reader DelRequestSeq :=
  my_size ← r_lift (DelRequestSeq_size methodid);
  _ ← r_check (my_size <=? recv_size);
  b ← deserialize_ophdr methodid recv_size;
  _ ← r_skip 2;
  seq ← r_u32be;
  token ← (if methodid =? FARREACH_ID then r_u32be else mret 0);
  mret (mkDelRequestSeq b seq token).

(** ** Responses that carry a record for the switch *)

(** [GetResponseLatestSeq] ([_stat] true) and [GetResponseDeletedSeq] ([_stat]
    false, no value). *)
Record GetResponseLatestSeq := mkGetResponseLatestSeq {
  gl_put : PutRequestSeq;
  gl_stat : bool;
  gl_nodeidx_foreval : Z
}.

Definition GetResponseLatestSeq_new (uninit methodid : Z) (key : Key) (val : Val) (seq nodeidx : Z)
    : res GetResponseLatestSeq :=
  _ ← INVARIANT (val_length val <=? SWITCH_MAX_VALLEN);
  _ ← INVARIANT (0 <=? seq);
  Ok (mkGetResponseLatestSeq
        (set_qs_type GETRES_LATEST_SEQ (PutRequestSeq_new uninit methodid key val seq))
        true nodeidx).

(** [GetResponseLatestSeqServer(methodid, switchidx, key, val, seq, nodeidx)]. *)
Definition GetResponseLatestSeqServer_new (uninit methodid switchidx : Z) (key : Key) (val : Val)
    (seq nodeidx : Z) : res GetResponseLatestSeq :=
  p ← GetResponseLatestSeq_new uninit methodid key val seq nodeidx;
  _ ← INVARIANT (methodid =? DISTFARREACH_ID);
  let b := qs_base (gl_put p) in
  Ok (mkGetResponseLatestSeq
        (mkPutRequestSeq
           (mkPacket (p_methodid b) GETRES_LATEST_SEQ_SERVER (p_key b) (p_globalswitchidx b)
              (p_spineswitchidx b) switchidx)
           (qs_val (gl_put p)) (qs_seq (gl_put p)) (qs_snapshot_token (gl_put p)))
        (gl_stat p) (gl_nodeidx_foreval p)).

Definition GetResponseDeletedSeq_new (uninit methodid : Z) (key : Key) (val : Val) (seq nodeidx : Z)
    : res GetResponseLatestSeq :=
  p ← GetResponseLatestSeq_new uninit methodid key val seq nodeidx;
  _ ← INVARIANT ((methodid =? FARREACH_ID) || (methodid =? DISTFARREACH_ID));
  _ ← INVARIANT (val_length val =? 0);
  _ ← INVARIANT (0 <=? seq);
  Ok (mkGetResponseLatestSeq
        (set_qs_type GETRES_DELETED_SEQ (gl_put p)) false (gl_nodeidx_foreval p)).

Definition GetResponseLatestSeq_serialize (p : GetResponseLatestSeq) (max_size : Z) : writer Z :=
  let b := qs_base (gl_put p) in
  _ ← serialize_ophdr b max_size;
  rem ← w_rem max_size;
  _ ← Val_serialize (qs_val (gl_put p)) rem;
  rem ← w_rem max_size;
  _ ← serialize_packet_type (p_type b) rem;
  _ ← put_seq_hdr0 (p_methodid b) (qs_seq (gl_put p));
  _ ← put_stat_hdr (p_methodid b) (gl_stat p) (gl_nodeidx_foreval p);
  w_off.

(** [GetResponseLatestSeqInswitchCase1] and the three classes that inherit its
    code ([GetResponseDeletedSeqInswitchCase1], [PutRequestSeqInswitchCase1],
    [DelRequestSeqInswitchCase1]). *)
Record InswitchCase1 := mkInswitchCase1 {
  ic_put : PutRequestSeq;
  ic_idx : Z;
  ic_stat : bool
}.

Definition InswitchCase1_new (uninit type methodid : Z) (key : Key) (val : Val) (seq idx : Z) (stat : bool)
    : res InswitchCase1 :=
  _ ← INVARIANT (val_length val <=? SWITCH_MAX_VALLEN);
  _ ← INVARIANT (0 <=? seq);
  _ ← INVARIANT ((methodid =? FARREACH_ID) || (methodid =? DISTFARREACH_ID));
  _ ← INVARIANT (0 <=? idx);
  Ok (mkInswitchCase1 (set_qs_type type (PutRequestSeq_new uninit methodid key val seq)) idx stat).

Definition InswitchCase1_bwcost (p : InswitchCase1) : res Z :=
  let m := p_methodid (qs_base (ic_put p)) in
  ophdr ← get_ophdrsize m;
  prev ← get_inswitch_prev_bytes m;
  pad ← get_stat_padding_bytes m;
  clone ← get_clone_bytes m;
  let size := ophdr + 2 + val_length (qs_val (ic_put p)) + 2 + 4 + prev + 2 + 1 + 2 + pad + clone in
  Ok (if m =? FARREACH_ID then size + 4 else size).

Definition InswitchCase1_serialize (p : InswitchCase1) (max_size : Z) : writer Z :=
  let b := qs_base (ic_put p) in
  let m := p_methodid b in
  _ ← serialize_ophdr b max_size;
  rem ← w_rem max_size;
  _ ← Val_serialize (qs_val (ic_put p)) rem;
  rem ← w_rem max_size;
  _ ← serialize_packet_type (p_type b) rem;
  _ ← put_seq_hdr0 m (qs_seq (ic_put p));
  prev ← w_lift (get_inswitch_prev_bytes m);
  _ ← w_memset 0 prev;
  _ ← w_u16be (ic_idx p);
  _ ← w_bool (ic_stat p);
  _ ← w_memset 0 2;
  pad ← w_lift (get_stat_padding_bytes m);
  _ ← w_skip pad;
  clone ← w_lift (get_clone_bytes m);
  _ ← w_memset 0 clone;
  w_off.

Definition InswitchCase1_deserialize (methodid recv_size : Z) : reader InswitchCase1 :=
  b ← deserialize_ophdr methodid recv_size;
  rem ← r_rem recv_size;
  v ← Val_deserialize rem;
  _ ← r_skip 2;
  seq ← get_seq_hdr0 methodid;
  prev ← r_lift (get_inswitch_prev_bytes methodid);
  _ ← r_skip prev;
  idx ← r_u16be;
  stat ← r_bool;
  mret (mkInswitchCase1 (mkPutRequestSeq b v seq 0) idx stat).

Definition InswitchCase1_parse (type methodid recv_size : Z) : reader InswitchCase1 :=
  _ ← r_check ((methodid =? FARREACH_ID) || (methodid =? DISTFARREACH_ID));
  p ← InswitchCase1_deserialize methodid recv_size;
  _ ← r_check (p_type (qs_base (ic_put p)) =? type);
  _ ← r_check (val_length (qs_val (ic_put p)) <=? SWITCH_MAX_VALLEN);
  _ ← r_check (0 <=? qs_seq (ic_put p));
  _ ← r_check (0 <=? ic_idx p);
  mret p.

(** ** Cache population and eviction *)

(** [CachePop] and [CacheEvict]: end hosts only, so no shadow type and no
    switch headers.  [CachePop] checks the length of the value it receives,
    [CacheEvict] does not. *)
Record CachePop := mkCachePop {
  cp_put : PutRequestSeq;
  cp_stat : bool;
  cp_serveridx : Z
}.

Definition CachePop_new (uninit methodid : Z) (key : Key) (val : Val) (seq : Z) (stat : bool) (serveridx : Z)
    : res CachePop :=
  _ ← INVARIANT (val_length val <=? SWITCH_MAX_VALLEN);
  _ ← INVARIANT (0 <=? seq);
  _ ← INVARIANT (0 <=? serveridx);
  Ok (mkCachePop (set_qs_type CACHE_POP (PutRequestSeq_new uninit methodid key val seq))
        stat serveridx).

Definition CacheEvict_new (uninit methodid : Z) (key : Key) (val : Val) (seq : Z) (stat : bool) (serveridx : Z)
    : res CachePop :=
  _ ← INVARIANT (val_length val <=? SWITCH_MAX_VALLEN);
  _ ← INVARIANT (0 <=? seq);
  _ ← INVARIANT (0 <=? serveridx);
  Ok (mkCachePop (set_qs_type CACHE_EVICT (PutRequestSeq_new uninit methodid key val seq))
        stat serveridx).

Definition CachePop_bwcost (p : CachePop) : res Z :=
  ophdr ← get_ophdrsize (p_methodid (qs_base (cp_put p)));
  Ok (ophdr + 2 + val_length (qs_val (cp_put p)) + 4 + 1 + 2).

Definition CachePop_serialize (p : CachePop) (max_size : Z) : writer Z :=
  _ ← serialize_ophdr (qs_base (cp_put p)) max_size;
  rem ← w_rem max_size;
  _ ← Val_serialize (qs_val (cp_put p)) rem;
  _ ← w_u32be (qs_seq (cp_put p));
  _ ← w_bool (cp_stat p);
  _ ← w_u16be (cp_serveridx p);
  w_off.

Definition CachePop_deserialize (methodid recv_size : Z) : reader CachePop :=
  b ← deserialize_ophdr methodid recv_size;
  rem ← r_rem recv_size;
  v ← Val_deserialize rem;
  seq ← r_u32be;
  stat ← r_bool;
  serveridx ← r_u16be;
  mret (mkCachePop (mkPutRequestSeq b v seq 0) stat serveridx).

Definition CachePop_parse (methodid recv_size : Z) : reader CachePop :=
  p ← CachePop_deserialize methodid recv_size;
  _ ← r_check (p_type (qs_base (cp_put p)) =? CACHE_POP);
  _ ← r_check (val_length (qs_val (cp_put p)) <=? SWITCH_MAX_VALLEN);
  _ ← r_check (0 <=? qs_seq (cp_put p));
  _ ← r_check (0 <=? cp_serveridx p);
  mret p.

Definition CacheEvict_serialize (p : CachePop) (max_size : Z) : writer Z :=
  _ ← serialize_ophdr (qs_base (cp_put p)) max_size;
  rem ← w_rem max_size;
  _ ← Val_serialize (qs_val (cp_put p)) rem;
  _ ← w_u32be (qs_seq (cp_put p));
  _ ← w_bool (cp_stat p);
  _ ← w_u16be (cp_serveridx p);
  w_off.

Definition CacheEvict_deserialize (methodid recv_size : Z) : reader CachePop :=
  b ← deserialize_ophdr methodid recv_size;
  rem ← r_rem recv_size;
  v ← Val_deserialize rem;
  seq ← r_u32be;
  stat ← r_bool;
  serveridx ← r_u16be;
  mret (mkCachePop (mkPutRequestSeq b v seq 0) stat serveridx).

Definition CacheEvict_parse (methodid recv_size : Z) : reader CachePop :=
  p ← CacheEvict_deserialize methodid recv_size;
  _ ← r_check (p_type (qs_base (cp_put p)) =? CACHE_EVICT);
  _ ← r_check (0 <=? qs_seq (cp_put p));
  _ ← r_check (0 <=? cp_serveridx p);
  mret p.

(** [CachePopInswitch]: sent to the switch only. *)
Record CachePopInswitch := mkCachePopInswitch {
  ci_put : PutRequestSeq;
  ci_freeidx : Z;
  ci_stat : bool
}.

Definition CachePopInswitch_serialize (p : CachePopInswitch) (max_size : Z) : writer Z :=
  let b := qs_base (ci_put p) in
  let m := p_methodid b in
  _ ← serialize_ophdr b max_size;
  rem ← w_rem max_size;
  _ ← Val_serialize (qs_val (ci_put p)) rem;
  rem ← w_rem max_size;
  _ ← serialize_packet_type (p_type b) rem;
  _ ← w_u32be (qs_seq (ci_put p));
  _ ← (if m =? FARREACH_ID then w_u32be 0 else mret tt);
  prev ← w_lift (get_inswitch_prev_bytes m);
  _ ← w_memset 0 prev;
  _ ← w_u16be (ci_freeidx p);
  _ ← w_bool (ci_stat p);
  _ ← w_memset 0 2;
  pad ← w_lift (get_stat_padding_bytes m);
  _ ← w_skip pad;
  w_off.

(** [RecoverPkt]: [CachePopInswitch] with type BACKUP and a backup header. *)
Record RecoverPkt := mkRecoverPkt {
  rp_pop : CachePopInswitch;
  rp_cache_frequency : Z;
  rp_largevalueseq : Z;
  rp_vallen : Z;
  rp_reg_meta : Z
}.

Definition RecoverPkt_serialize (p : RecoverPkt) (max_size : Z) : writer Z :=
  let b := qs_base (ci_put (rp_pop p)) in
  let m := p_methodid b in
  _ ← serialize_ophdr b max_size;
  rem ← w_rem max_size;
  _ ← Val_serialize (qs_val (ci_put (rp_pop p))) rem;
  rem ← w_rem max_size;
  _ ← serialize_packet_type (p_type b) rem;
  _ ← w_u32be (qs_seq (ci_put (rp_pop p)));
  _ ← (if m =? FARREACH_ID then w_u32be 0 else mret tt);
  prev ← w_lift (get_inswitch_prev_bytes m);
  _ ← w_memset 0 prev;
  _ ← w_u16be (ci_freeidx (rp_pop p));
  _ ← w_bool (ci_stat (rp_pop p));
  _ ← w_memset 0 2;
  pad ← w_lift (get_stat_padding_bytes m);
  _ ← w_skip pad;
  _ ← w_memset 0 4;
  _ ← w_memset 0 4;
  _ ← w_memset 0 4;
  w_off.

(** [RecoverPkt::deserialize]: the converted numbers all go to [_seq], the
    fields keep the bytes as they are; [_stat] is not read. *)
Definition RecoverPkt_deserialize (uninit_stat : bool) (methodid recv_size : Z) : reader RecoverPkt :=
  b ← deserialize_ophdr methodid recv_size;
  rem ← r_rem recv_size;
  v ← Val_deserialize rem;
  _ ← r_skip 2;
  _ ← r_skip 4;
  _ ← r_skip 4;
  prev ← r_lift (get_inswitch_prev_bytes methodid);
  _ ← r_skip prev;
  freeidx ← r_u16;
  _ ← r_skip 4;
  cache_frequency ← r_u32;
  largevalueseq ← r_u32;
  vallen ← r_u16;
  reg_meta ← r_u16;
  let seq := ntohl reg_meta in
  mret (mkRecoverPkt (mkCachePopInswitch (mkPutRequestSeq b v seq 0) freeidx uninit_stat)
          cache_frequency largevalueseq vallen reg_meta).

(** ** Packet classes *)

Definition qs_wf (p : PutRequestSeq) : Prop :=
  packet_wf (qs_base p) /\ small_val (qs_val p) /\ is_u32 (qs_seq p) /\ is_u32 (qs_snapshot_token p).

(** Bytes up to the value. *)
Definition qs_prefix (p : PutRequestSeq) : nat :=
  hdr_size (p_methodid (qs_base p)) + val_wire_size (qs_val p).

Definition qs_wire (p : PutRequestSeq) (token : Z) : PutRequestSeq :=
  mkPutRequestSeq (wire_hdr (qs_base p)) (qs_val p) (qs_seq p) token.

Definition PutRequestSeq_class (type : Z) : PacketClass PutRequestSeq := {|
  pc_method p := p_methodid (qs_base p);
  pc_wf p := qs_wf p /\ p_type (qs_base p) = type;
  pc_size p := (qs_prefix p + (2 + seq_size (p_methodid (qs_base p))))%nat;
  pc_wire p := qs_wire p (if p_methodid (qs_base p) =? FARREACH_ID then qs_snapshot_token p else 0);
  pc_serialize := PutRequestSeq_serialize;
  pc_deserialize := PutRequestSeq_parse type
|}.

Definition InswitchCase1_class (type : Z) : PacketClass InswitchCase1 := {|
  pc_method p := p_methodid (qs_base (ic_put p));
  pc_wf p := qs_wf (ic_put p) /\ p_type (qs_base (ic_put p)) = type /\ is_u16 (ic_idx p) /\
    (p_methodid (qs_base (ic_put p)) = FARREACH_ID \/
     p_methodid (qs_base (ic_put p)) = DISTFARREACH_ID);
  pc_size p := let m := p_methodid (qs_base (ic_put p)) in
    (qs_prefix (ic_put p) + (2 + (seq_size m + (inswitch_prev m + (2 + (1 + (2 + (1 +
      clone_bytes m))))))))%nat;
  pc_wire p := mkInswitchCase1 (qs_wire (ic_put p) 0) (ic_idx p) (ic_stat p);
  pc_serialize := InswitchCase1_serialize;
  pc_deserialize := InswitchCase1_parse type
|}.

Definition CachePop_class : PacketClass CachePop := {|
  pc_method p := p_methodid (qs_base (cp_put p));
  pc_wf p := qs_wf (cp_put p) /\ p_type (qs_base (cp_put p)) = CACHE_POP /\ is_u16 (cp_serveridx p);
  pc_size p := (qs_prefix (cp_put p) + (4 + (1 + 2)))%nat;
  pc_wire p := mkCachePop (qs_wire (cp_put p) 0) (cp_stat p) (cp_serveridx p);
  pc_serialize := CachePop_serialize;
  pc_deserialize := CachePop_parse
|}.

Definition CacheEvict_class : PacketClass CachePop := {|
  pc_method p := p_methodid (qs_base (cp_put p));
  pc_wf p := qs_wf (cp_put p) /\ p_type (qs_base (cp_put p)) = CACHE_EVICT /\
    is_u16 (cp_serveridx p);
  pc_size p := (qs_prefix (cp_put p) + (4 + (1 + 2)))%nat;
  pc_wire p := mkCachePop (qs_wire (cp_put p) 0) (cp_stat p) (cp_serveridx p);
  pc_serialize := CacheEvict_serialize;
  pc_deserialize := CacheEvict_parse
|}.

Ltac qs_cbn :=
  cbn [qs_base qs_val qs_seq qs_snapshot_token cp_put cp_stat cp_serveridx ic_put ic_idx ic_stat
       gl_put gl_stat gl_nodeidx_foreval] in *.

(** The side conditions shared by the proofs below. *)
Ltac qs_start b Hwf :=
  qs_cbn; class_start b Hwf; unfold qs_prefix, qs_wire, SWITCH_MAX_VALLEN, is_u32 in *; qs_cbn;
  pose proof (wire_hdr_type b) as Htw.

Lemma PutRequestSeq_ok type : class_ok (PutRequestSeq_class type).
Proof.
  intros [b v seq tok] max_size ((Hwf & (Hv & Hl) & Hs & Ht) & Hty) Hmax.
  class_cbn PutRequestSeq_class. qs_start b Hwf. rewrite Hty in Htw.
  unfold PutRequestSeq_serialize, PutRequestSeq_parse, PutRequestSeq_deserialize, SWITCH_MAX_VALLEN.
  unfold seq_size in *. qs_cbn.
  destruct (p_methodid b =? FARREACH_ID); pk_run; reflexivity.
Qed.

Lemma CachePop_ok : class_ok CachePop_class.
Proof.
  intros [[b v seq tok] st si] max_size ((Hwf & (Hv & Hl) & Hs & Ht) & Hty & Hsi) Hmax.
  class_cbn CachePop_class. qs_start b Hwf. rewrite Hty in Htw.
  unfold CachePop_serialize, CachePop_parse, CachePop_deserialize, SWITCH_MAX_VALLEN. qs_cbn.
  assert (Hsi' := Hsi). unfold is_u16 in Hsi'. pk_run; reflexivity.
Qed.

Lemma CacheEvict_ok : class_ok CacheEvict_class.
Proof.
  intros [[b v seq tok] st si] max_size ((Hwf & (Hv & Hl) & Hs & Ht) & Hty & Hsi) Hmax.
  class_cbn CacheEvict_class. qs_start b Hwf. rewrite Hty in Htw.
  unfold CacheEvict_serialize, CacheEvict_parse, CacheEvict_deserialize. qs_cbn.
  assert (Hsi' := Hsi). unfold is_u16 in Hsi'. pk_run; reflexivity.
Qed.

(** A reader that stops before the end of the packet. *)
Lemma travels_unread {P} (c : PacketClass P) p k :
  (forall max_size, Z.of_nat (pc_size c p) <= max_size < 2 ^ 32 ->
   codec (pc_serialize c p max_size)
     (x ← pc_deserialize c (pc_method c p) (Z.of_nat (pc_size c p)); _ ← r_skip k; mret x)
     0 (pc_size c p) (Z.of_nat (pc_size c p)) (pc_wire c p)) ->
  travels c p.
Proof.
  intros H data Hl Hd.
  destruct (codec_run _ _ _ _ data (H (Z.of_nat (length data)) ltac:(lia)) Hl)
    as (data' & E & L & D & R).
  exists data'. repeat split; auto. specialize (R []). rewrite app_nil_r in R.
  unfold run_reader, mbind, reader_bind in *.
  destruct (pc_deserialize _ _ _ _) as [[x s]|e]; [|discriminate]. cbn in R. congruence.
Qed.

Definition inswitch_unread (m : Z) : Z := 2 + 1 + Z.of_nat (clone_bytes m).

Lemma InswitchCase1_travels type p :
  pc_wf (InswitchCase1_class type) p -> travels (InswitchCase1_class type) p.
Proof.
  destruct p as [[b v seq tok] idx st]. intros ((Hwf & (Hv & Hl) & Hs & Ht) & Hty & Hi & Hmm).
  apply (travels_unread _ _ (inswitch_unread (p_methodid b))). intros max_size Hmax.
  class_cbn InswitchCase1_class. qs_start b Hwf. rewrite Hty in Htw.
  pose proof (inswitch_prev_ok Hm) as Hprev. pose proof (clone_bytes_ok Hm) as Hclone.
  unfold InswitchCase1_serialize, InswitchCase1_parse, InswitchCase1_deserialize, SWITCH_MAX_VALLEN.
  qs_cbn. assert (Hi' := Hi). unfold is_u16 in Hi'. unfold inswitch_unread.
  replace ((p_methodid b =? FARREACH_ID) || (p_methodid b =? DISTFARREACH_ID)) with true
    by (destruct Hmm as [->| ->]; reflexivity).
  set (n1 := inswitch_prev (p_methodid b)) in *. set (n2 := clone_bytes (p_methodid b)) in *.
  set (n3 := seq_size (p_methodid b)) in *. set (n4 := hdr_size (p_methodid b)) in *.
  eapply codec_weaken.
  - pk. eapply (codec_skip_add 2 (1 + Z.of_nat n2)); [lia..|]. pk_step.
    eapply (codec_skip_add 1 (Z.of_nat n2)); [lia..|]. pk.
  - lia.
  - lia.
  - reflexivity.
Qed.

(** ** Messages of cache management *)

Inductive CacheMessage :=
  | MsgPutSeq (type : Z) (p : PutRequestSeq)
  | MsgInswitch (type : Z) (p : InswitchCase1)
  | MsgPop (p : CachePop)
  | MsgEvict (p : CachePop).

Definition message_wf (x : CacheMessage) : Prop :=
  match x with
  | MsgPutSeq t p => pc_wf (PutRequestSeq_class t) p
  | MsgInswitch t p => pc_wf (InswitchCase1_class t) p
  | MsgPop p => pc_wf CachePop_class p
  | MsgEvict p => pc_wf CacheEvict_class p
  end.

Definition message_size (x : CacheMessage) : nat :=
  match x with
  | MsgPutSeq t p => pc_size (PutRequestSeq_class t) p
  | MsgInswitch t p => pc_size (InswitchCase1_class t) p
  | MsgPop p => pc_size CachePop_class p
  | MsgEvict p => pc_size CacheEvict_class p
  end.

Definition message_travels (x : CacheMessage) : Prop :=
  match x with
  | MsgPutSeq t p => travels (PutRequestSeq_class t) p
  | MsgInswitch t p => travels (InswitchCase1_class t) p
  | MsgPop p => travels CachePop_class p
  | MsgEvict p => travels CacheEvict_class p
  end.

Lemma qs_prefix_le p : qs_wf p -> (qs_prefix p <= 160)%nat.
Proof.
  intros (Hp & (Hv & Hl) & _). unfold qs_prefix, SWITCH_MAX_VALLEN in *.
  pose proof (val_wire_size_eq _ Hv) as E. pose proof (val_wf_length _ Hv) as L.
  pose proof (get_padding_size_range (val_length (qs_val p)) (proj1 L)) as R.
  pose proof (@hdr_size_le (p_methodid (qs_base p))) as Hh. lia.
Qed.

Lemma switch_headers_le m :
  (seq_size m <= 8)%nat /\ (inswitch_prev m <= 26)%nat /\ (clone_bytes m <= 18)%nat.
Proof. unfold seq_size, inswitch_prev, clone_bytes. repeat case_match; lia. Qed.

(** The packets between switch, controller and server about cached records
    fit the [MAX_BUFSIZE] buffers of their senders and are read back with the
    same key, value, sequence number, status and index. *)
Theorem cache_messages_travel (x : CacheMessage) :
  message_wf x -> Z.of_nat (message_size x) <= MAX_BUFSIZE /\ message_travels x.
Proof.
  intros H. split.
  - unfold MAX_BUFSIZE. destruct x as [t p|t p|p|p]; destruct H as [H _];
      apply qs_prefix_le in H; cbn [message_size]; class_cbn PutRequestSeq_class;
      class_cbn InswitchCase1_class; class_cbn CachePop_class; class_cbn CacheEvict_class;
      [pose proof (switch_headers_le (p_methodid (qs_base p)))
      |pose proof (switch_headers_le (p_methodid (qs_base (ic_put p))))| |]; lia.
  - destruct x as [t p|t p|p|p]; cbn [message_travels].
    + now apply class_travels; [apply PutRequestSeq_ok|].
    + now apply InswitchCase1_travels.
    + now apply class_travels; [apply CachePop_ok|].
    + now apply class_travels; [apply CacheEvict_ok|].
Qed.

(** ** Responses of the server as the client reads them *)

Lemma codec_latest_seq p max_size :
  qs_wf (gl_put p) -> is_u16 (gl_nodeidx_foreval p) ->
  let m := p_methodid (qs_base (gl_put p)) in
  let n := (qs_prefix (gl_put p) + (2 + (seq_size m + 4)))%nat in
  Z.of_nat n <= max_size < 2 ^ 32 ->
  codec (GetResponseLatestSeq_serialize p max_size)
    (GetResponseSeq_deserialize m (Z.of_nat n)) 0 n (Z.of_nat n)
    (mkGetResponseSeq
       (mkGetResponse (wire_hdr (qs_base (gl_put p))) (qs_val (gl_put p)) (gl_stat p)
          (gl_nodeidx_foreval p) 0 0) (qs_seq (gl_put p))).
Proof.
  destruct p as [[b v seq tok] st nd]. intros (Hwf & (Hv & Hl) & Hs & Ht) Hn m n Hmax.
  subst m n. qs_start b Hwf. unfold GetResponseLatestSeq_serialize, GetResponseSeq_deserialize.
  qs_cbn. pk_run; reflexivity.
Qed.

Lemma new_qs_wf u m t k v s :
  valid_method m -> is_u16 u -> is_u16 t -> key_wf k -> small_val v -> is_u32 s ->
  qs_wf (set_qs_type t (PutRequestSeq_new u m k v s)).
Proof.
  intros Hm Hu Ht Hk Hv Hs. unfold PutRequestSeq_new. rewrite Val_copy_wf by apply Hv.
  split; [|split; [exact Hv|split; [exact Hs|unfold is_u32; cbn; lia]]].
  constructor; cbn; auto; unfold is_u16; lia.
Qed.

Lemma GetResponseLatestSeq_new_inv u m k v s nd p :
  GetResponseLatestSeq_new u m k v s nd = Ok p ->
  p = mkGetResponseLatestSeq (set_qs_type GETRES_LATEST_SEQ (PutRequestSeq_new u m k v s)) true nd.
Proof.
  unfold GetResponseLatestSeq_new. intros H.
  apply bind_Ok in H as ([] & _ & H). apply bind_Ok in H as ([] & _ & H). now inversion H.
Qed.

Lemma GetResponseDeletedSeq_new_inv u m k v s nd p :
  GetResponseDeletedSeq_new u m k v s nd = Ok p ->
  p = mkGetResponseLatestSeq (set_qs_type GETRES_DELETED_SEQ (PutRequestSeq_new u m k v s)) false nd.
Proof.
  unfold GetResponseDeletedSeq_new. intros H.
  apply bind_Ok in H as (q & Hq & H). apply GetResponseLatestSeq_new_inv in Hq as ->.
  apply bind_Ok in H as ([] & _ & H). apply bind_Ok in H as ([] & _ & H).
  apply bind_Ok in H as ([] & _ & H). now inversion H.
Qed.

(** A record that a server sends with [GetResponseLatestSeq] (or, for a
    deleted key, [GetResponseDeletedSeq]) and that the switch forwards is what
    the client's [GetResponseSeq] reads: value, sequence number, status and
    server index; for [GetResponseDeletedSeq_new] the status is false. *)
Theorem latest_seq_read_by_client (uninit methodid nodeidx seq : Z) (deleted : bool) (key : Key)
    (val : Val) (p : GetResponseLatestSeq) (data : list Z) :
  (methodid = FARREACH_ID \/ methodid = DISTFARREACH_ID) ->
  is_u16 uninit -> is_u16 nodeidx -> is_u32 seq -> key_wf key -> small_val val ->
  (if deleted then GetResponseDeletedSeq_new uninit methodid key val seq nodeidx
   else GetResponseLatestSeq_new uninit methodid key val seq nodeidx) = Ok p ->
  length data = Z.to_nat MAX_BUFSIZE ->
  exists n data' b,
    run_writer (GetResponseLatestSeq_serialize p MAX_BUFSIZE) data = Ok (n, data') /\
    run_reader (GetResponseSeq_deserialize methodid n) (take (Z.to_nat n) data') =
      Ok (mkGetResponseSeq (mkGetResponse b val (negb deleted) nodeidx 0 0) seq) /\
    p_key b = key /\ p_type b = (if deleted then GETRES_DELETED_SEQ else GETRES_LATEST_SEQ).
Proof.
  intros Hm Hu Hn Hs Hk Hv Hp Hd.
  assert (Hp' : p = mkGetResponseLatestSeq
    (set_qs_type (if deleted then GETRES_DELETED_SEQ else GETRES_LATEST_SEQ)
       (PutRequestSeq_new uninit methodid key val seq)) (negb deleted) nodeidx).
  { destruct deleted; [now apply GetResponseDeletedSeq_new_inv|now apply GetResponseLatestSeq_new_inv]. }
  assert (Hq : qs_wf (gl_put p)).
  { subst p. apply new_qs_wf; auto; unfold valid_method, is_u16, FARREACH_ID, DISTCACHE_ID,
      DISTFARREACH_ID in *;
      [|destruct deleted; unfold GETRES_DELETED_SEQ, GETRES_LATEST_SEQ]; lia. }
  assert (Hc : Val_copy val = val) by (apply Val_copy_wf, Hv).
  clear Hp. rename p into q. subst q. set (q := mkGetResponseLatestSeq _ _ _) in *.
  pose proof (qs_prefix_le _ Hq) as Hle. pose proof (switch_headers_le methodid) as (H8 & _).
  set (n := (qs_prefix (gl_put q) + (2 + (seq_size methodid + 4)))%nat).
  assert (Hb : Z.of_nat n <= MAX_BUFSIZE < 2 ^ 32) by (unfold MAX_BUFSIZE, n; lia).
  destruct (codec_run _ _ _ _ data (codec_latest_seq q MAX_BUFSIZE Hq Hn Hb)) as (data' & E & L & _ & R).
  { change (n <= length data)%nat. lia. }
  cbn [q gl_put gl_stat gl_nodeidx_foreval set_qs_type PutRequestSeq_new qs_val qs_seq] in R.
  rewrite Hc in R. eexists _, data', _. split; [exact E|]. rewrite Nat2Z.id, <- (app_nil_r (take _ _)).
  split; [apply R|]. rewrite wire_hdr_type. split; [|reflexivity].
  unfold wire_hdr. repeat case_match; reflexivity.
Qed.

(** The response of a DistFarReach server with the latest record names its
    leaf switch in [_leafswitchidx], but the header of that method carries
    [_globalswitchidx], which no constructor on the way sets: the receiver
    reads the contents of uninitialised memory, whatever switch was given. *)
Theorem latest_seq_server_sends_uninitialised (uninit switchidx nodeidx seq : Z) (key : Key) (val : Val)
    (p : GetResponseLatestSeq) :
  is_u16 uninit -> is_u16 switchidx -> is_u16 nodeidx -> is_u32 seq -> key_wf key -> small_val val ->
  GetResponseLatestSeqServer_new uninit DISTFARREACH_ID switchidx key val seq nodeidx = Ok p ->
  exists n, forall data, length data = Z.to_nat MAX_BUFSIZE ->
  exists data' b,
    run_writer (GetResponseLatestSeq_serialize p MAX_BUFSIZE) data = Ok (n, data') /\
    run_reader (GetResponseSeq_deserialize DISTFARREACH_ID n) (take (Z.to_nat n) data') =
      Ok (mkGetResponseSeq (mkGetResponse b val true nodeidx 0 0) seq) /\
    p_globalswitchidx b = uninit /\ p_leafswitchidx b = 0.
Proof.
  intros Hu Hsw Hn Hs Hk Hv Hp. unfold GetResponseLatestSeqServer_new in Hp.
  apply bind_Ok in Hp as (q & Hq & Hp). apply GetResponseLatestSeq_new_inv in Hq as ->.
  apply bind_Ok in Hp as ([] & _ & Hp). inversion Hp as [Hp']. clear Hp.
  assert (Hc : Val_copy val = val) by (apply Val_copy_wf, Hv).
  cbn [gl_put gl_stat gl_nodeidx_foreval set_qs_type set_type PutRequestSeq_new qs_base qs_val qs_seq
    qs_snapshot_token Packet_new_spineleaf p_methodid p_key p_globalswitchidx p_spineswitchidx] in *.
  rewrite Hc in Hp' |- *. rewrite Hp'.
  assert (Hq : qs_wf (gl_put p)).
  { subst p. cbn [gl_put]. split; [|split; [exact Hv|split; [exact Hs|unfold is_u32; cbn; lia]]].
    constructor; cbn; auto; unfold valid_method, is_u16, FARREACH_ID, DISTCACHE_ID,
      DISTFARREACH_ID, GETRES_LATEST_SEQ_SERVER; lia. }
  pose proof (qs_prefix_le _ Hq) as Hle. pose proof (switch_headers_le DISTFARREACH_ID) as (H8 & _).
  assert (Hnd : is_u16 (gl_nodeidx_foreval p)) by now subst p.
  assert (Hm : p_methodid (qs_base (gl_put p)) = DISTFARREACH_ID) by now subst p.
  pose proof (codec_latest_seq p MAX_BUFSIZE Hq Hnd) as HC. cbn zeta in HC. rewrite Hm in HC.
  set (n := (qs_prefix (gl_put p) + (2 + (seq_size DISTFARREACH_ID + 4)))%nat) in *.
  specialize (HC ltac:(unfold MAX_BUFSIZE, n; lia)).
  exists (Z.of_nat n). intros data Hd.
  destruct (codec_run _ _ _ _ data HC) as (data' & E & L & _ & R).
  { unfold MAX_BUFSIZE in *. lia. }
  exists data'. eexists. rewrite Nat2Z.id, <- (app_nil_r (take _ _)).
  split; [exact E|]. split; [rewrite R; subst p; reflexivity|]. subst p. split; reflexivity.
Qed.

(** ** Concrete messages *)

Lemma demo_qs_wf m t :
  valid_method m -> is_u16 t -> qs_wf (mkPutRequestSeq (demo_hdr m t) demo_val 8 0).
Proof.
  intros Hm Ht. split; [now apply demo_hdr_wf|]. split; [exact demo_val_small|].
  unfold is_u32; cbn; lia.
Qed.

Lemma cache_messages_travel_witness :
  let x := MsgEvict (mkCachePop (mkPutRequestSeq (demo_hdr FARREACH_ID CACHE_EVICT) demo_val 8 0) true 1) in
  Z.of_nat (message_size x) <= MAX_BUFSIZE /\ message_travels x.
Proof.
  apply cache_messages_travel. cbn [message_wf]. class_cbn CacheEvict_class. qs_cbn.
  split; [apply demo_qs_wf|split; [reflexivity|]];
    unfold valid_method, is_u16, FARREACH_ID, DISTCACHE_ID, CACHE_EVICT; lia.
Defined.

Lemma latest_seq_read_by_client_witness :
  exists p, GetResponseDeletedSeq_new 3 FARREACH_ID (key_of 1) Val_default 8 1 = Ok p /\
  exists n data' b,
    run_writer (GetResponseLatestSeq_serialize p MAX_BUFSIZE) (replicate (Z.to_nat MAX_BUFSIZE) 0)
      = Ok (n, data') /\
    run_reader (GetResponseSeq_deserialize FARREACH_ID n) (take (Z.to_nat n) data') =
      Ok (mkGetResponseSeq (mkGetResponse b Val_default false 1 0 0) 8) /\
    p_key b = key_of 1 /\ p_type b = GETRES_DELETED_SEQ.
Proof.
  eexists. split; [reflexivity|].
  apply (latest_seq_read_by_client 3 FARREACH_ID 1 8 true (key_of 1) Val_default).
  - now left.
  - unfold is_u16; lia.
  - unfold is_u16; lia.
  - unfold is_u32; lia.
  - unfold key_wf, key_of, is_u32; cbn; lia.
  - split; [now left|]. unfold SWITCH_MAX_VALLEN; cbn; lia.
  - reflexivity.
  - apply length_replicate.
Defined.

Lemma latest_seq_server_sends_uninitialised_witness :
  exists p, GetResponseLatestSeqServer_new 999 DISTFARREACH_ID 2 (key_of 1) demo_val 8 1 = Ok p /\
  exists n, forall data, length data = Z.to_nat MAX_BUFSIZE ->
  exists data' b,
    run_writer (GetResponseLatestSeq_serialize p MAX_BUFSIZE) data = Ok (n, data') /\
    run_reader (GetResponseSeq_deserialize DISTFARREACH_ID n) (take (Z.to_nat n) data') =
      Ok (mkGetResponseSeq (mkGetResponse b demo_val true 1 0 0) 8) /\
    p_globalswitchidx b = 999 /\ p_leafswitchidx b = 0.
Proof.
  eexists. split; [reflexivity|].
  apply (latest_seq_server_sends_uninitialised 999 2 1 8 (key_of 1) demo_val);
    try (unfold is_u16, is_u32; lia).
  - unfold key_wf, key_of, is_u32; cbn; lia.
  - exact demo_val_small.
  - reflexivity.
Defined.
