(* ===== verification/PacketScan.v ===== *)
(** * Range queries on the wire (common/packet_format_impl.h)

    A range query is split by the switch into one [ScanRequestSplit] per
    server; each server answers with a [ScanResponseSplit] that is too large for
    one datagram, so it is serialized into a [DynamicArray] and sent in
    fragments.  The receiver finds the indexes that identify the fragments at
    the offsets [get_srcid_off], [get_srcnum_off], ... of the header. *)

From Stdlib Require Import ZArith Lia List.
From stdpp Require Import base tactics list numbers option.
From S2P Require Import Prelude Cursor DynamicArray StdMap Crc32 Key Val DeletedSet Packet PacketCodec.

Open Scope Z_scope.

(** ** [ScanRequestSplit] *)

Record ScanRequestSplit := mkScanRequestSplit {
  ss_scan : ScanRequest;
  ss_cur_scanidx : Z;
  ss_max_scannum : Z;
  ss_cur_scanswitchidx : Z;
  ss_max_scanswitchnum : Z
}.

(** The two constructors, for single-switch and for multi-switch methods. *)
Definition ScanRequestSplit_new (methodid : Z) (key endkey : Key) (cur_scanidx max_scannum : Z)
    : res ScanRequestSplit :=
  _ ← INVARIANT (is_singleswitch methodid);
  Ok (mkScanRequestSplit (mkScanRequest (Packet_new methodid SCANREQ_SPLIT key) endkey)
        cur_scanidx max_scannum 0 0).

Definition ScanRequestSplit_new_multi (methodid : Z) (key endkey : Key)
    (cur_scanidx max_scannum cur_scanswitchidx max_scanswitchnum : Z) : res ScanRequestSplit :=
  _ ← INVARIANT (negb (is_singleswitch methodid));
  Ok (mkScanRequestSplit (mkScanRequest (Packet_new methodid SCANREQ_SPLIT key) endkey)
        cur_scanidx max_scannum cur_scanswitchidx max_scanswitchnum).

Definition ScanRequestSplit_size (methodid : Z) : res Z :=
  ophdr ← get_ophdrsize methodid;
  prev ← get_split_prev_bytes methodid;
  let size := ophdr + sizeof_key + prev + 2 + 2 in
  Ok (if negb (is_singleswitch methodid) then size + (2 + 2) else size).

Definition ScanRequestSplit_deserialize (methodid recv_size : Z) : reader ScanRequestSplit :=
  my_size ← r_lift (ScanRequestSplit_size methodid);
  _ ← r_check (my_size =? recv_size);
  b ← deserialize_ophdr methodid recv_size;
  rem ← r_rem recv_size;
  endkey ← Key_deserialize rem;
  prev ← r_lift (get_split_prev_bytes methodid);
  _ ← r_skip prev;
  cur ← r_u16be;
  max ← r_u16be;
  if negb (is_singleswitch methodid) then
    curs ← r_u16be;
    maxs ← r_u16be;
    mret (mkScanRequestSplit (mkScanRequest b endkey) cur max curs maxs)
  else mret (mkScanRequestSplit (mkScanRequest b endkey) cur max 0 0).

(** ** [ScanResponseSplit] *)

Record ScanResponseSplit := mkScanResponseSplit {
  sp_split : ScanRequestSplit;
  sp_nodeidx_foreval : Z;
  sp_snapshotid : Z;
  sp_pairnum : Z;
  sp_pairs : list (Key * SnapshotRecord)
}.

Definition set_split_type (t : Z) (s : ScanRequestSplit) : ScanRequestSplit :=
  mkScanRequestSplit (mkScanRequest (set_type t (sq_base (ss_scan s))) (sq_endkey (ss_scan s)))
    (ss_cur_scanidx s) (ss_max_scannum s) (ss_cur_scanswitchidx s) (ss_max_scanswitchnum s).

Definition ScanResponseSplit_new (methodid : Z) (key endkey : Key) (cur_scanidx max_scannum nodeidx
    snapshotid pairnum : Z) (pairs : list (Key * SnapshotRecord)) : res ScanResponseSplit :=
  s ← ScanRequestSplit_new methodid key endkey cur_scanidx max_scannum;
  _ ← INVARIANT (0 <=? snapshotid);
  _ ← INVARIANT (pairnum =? s32 (Z.of_nat (length pairs)));
  Ok (mkScanResponseSplit (set_split_type SCANRES_SPLIT s) nodeidx snapshotid pairnum pairs).

Definition ScanResponseSplit_size (methodid : Z) : res Z :=
  ophdr ← get_ophdrsize methodid;
  prev ← get_split_prev_bytes methodid;
  let size := ophdr + sizeof_key + prev + 2 + 2 + 2 + 4 + 4 in
  Ok (if negb (is_singleswitch methodid) then size + (2 + 2) else size).

(** The loop over [_pairs] of [serialize]. *)
Fixpoint serialize_pairs (pairs : list (Key * SnapshotRecord)) (max_size : Z) : writer unit :=
  match pairs with
  | [] => mret tt
  | (k, r) :: pairs' =>
      rem ← w_rem max_size;
      _ ← Key_serialize k rem;
      rem ← w_rem max_size;
      _ ← Val_serialize_large (sr_val r) rem;
      serialize_pairs pairs' max_size
  end.

Definition ScanResponseSplit_serialize (p : ScanResponseSplit) (max_size : Z) : writer Z :=
  let s := sp_split p in
  let b := sq_base (ss_scan s) in
  let m := p_methodid b in
  my_size ← w_lift (ScanResponseSplit_size m);
  _ ← w_check (my_size <=? max_size);
  _ ← serialize_ophdr b max_size;
  rem ← w_rem max_size;
  _ ← Key_serialize (sq_endkey (ss_scan s)) rem;
  prev ← w_lift (get_split_prev_bytes m);
  _ ← w_memset 0 prev;
  _ ← w_u16be (ss_cur_scanidx s);
  _ ← w_u16be (ss_max_scannum s);
  _ ← (if negb (is_singleswitch m) then
         _ ← w_u16be (ss_cur_scanswitchidx s);
         w_u16be (ss_max_scanswitchnum s)
       else mret tt);
  _ ← w_u16be (sp_nodeidx_foreval p);
  _ ← w_u32 (u32 (sp_snapshotid p));
  _ ← w_u32be (u32 (sp_pairnum p));
  _ ← serialize_pairs (sp_pairs p) max_size;
  w_off.

(** The loop over [_pairs] of [dynamic_serialize]. *)
Fixpoint dynamic_serialize_pairs (pairs : list (Key * SnapshotRecord)) (d : DynamicArray) (tmpoff : Z)
    : res (Z * DynamicArray) :=
  match pairs with
  | [] => Ok (tmpoff, d)
  | (k, r) :: pairs' =>
      '(keysize, d) ← Key_dynamic_serialize k d tmpoff;
      '(valsize, d) ← Val_dynamic_serialize_large (sr_val r) d (tmpoff + keysize);
      dynamic_serialize_pairs pairs' d (tmpoff + keysize + valsize)
  end.

Definition ScanResponseSplit_dynamic_serialize (p : ScanResponseSplit) (d : DynamicArray)
    : res (Z * DynamicArray) :=
  let s := sp_split p in
  let b := sq_base (ss_scan s) in
  let m := p_methodid b in
  '(tmpoff, d) ← dynamic_serialize_ophdr b d;
  '(n, d) ← Key_dynamic_serialize (sq_endkey (ss_scan s)) d tmpoff;
  let tmpoff := tmpoff + n in
  prev ← get_split_prev_bytes m;
  d ← dynamic_memset d tmpoff 0 prev;
  let tmpoff := tmpoff + prev in
  d ← dynamic_memcpy d tmpoff (le_bytes 2 (htons (ss_cur_scanidx s)));
  let tmpoff := tmpoff + 2 in
  d ← dynamic_memcpy d tmpoff (le_bytes 2 (htons (ss_max_scannum s)));
  let tmpoff := tmpoff + 2 in
  '(tmpoff, d) ← (if negb (is_singleswitch m) then
      d ← dynamic_memcpy d tmpoff (le_bytes 2 (htons (ss_cur_scanswitchidx s)));
      d ← dynamic_memcpy d (tmpoff + 2) (le_bytes 2 (htons (ss_max_scanswitchnum s)));
      Ok (tmpoff + 4, d)
    else Ok (tmpoff, d));
  d ← dynamic_memcpy d tmpoff (le_bytes 2 (htons (sp_nodeidx_foreval p)));
  let tmpoff := tmpoff + 2 in
  d ← dynamic_memcpy d tmpoff (le_bytes 4 (sp_snapshotid p));
  let tmpoff := tmpoff + 4 in
  d ← dynamic_memcpy d tmpoff (le_bytes 4 (htonl (u32 (sp_pairnum p))));
  dynamic_serialize_pairs (sp_pairs p) d (tmpoff + 4).

(** The loop over [_pairs] of [deserialize]: a record read from the wire has
    the sequence number and status of [SnapshotRecord()]. *)
Fixpoint deserialize_pairs (n : nat) (recv_size : Z) : reader (list (Key * SnapshotRecord)) :=
  match n with
  | O => mret []
  | S n' =>
      rem ← r_rem recv_size;
      k ← Key_deserialize rem;
      rem ← r_rem recv_size;
      v ← Val_deserialize_large rem;
      pairs ← deserialize_pairs n' recv_size;
      mret ((k, mkSnapshotRecord v (sr_seq SnapshotRecord_default) (sr_stat SnapshotRecord_default))
              :: pairs)
  end.

(** [_pairs.resize(_pairnum)] throws for a negative [_pairnum]. *)
Definition ScanResponseSplit_deserialize (methodid recv_size : Z) : reader ScanResponseSplit :=
  my_size ← r_lift (ScanResponseSplit_size methodid);
  _ ← r_check (my_size <=? recv_size);
  b ← deserialize_ophdr methodid recv_size;
  rem ← r_rem recv_size;
  endkey ← Key_deserialize rem;
  prev ← r_lift (get_split_prev_bytes methodid);
  _ ← r_skip prev;
  cur ← r_u16be;
  max ← r_u16be;
  '(curs, maxs) ← (if negb (is_singleswitch methodid) then
      curs ← r_u16be; maxs ← r_u16be; mret (curs, maxs)
    else mret (0, 0));
  nodeidx ← r_u16be;
  snapshotid ← r_u32;
  pairnum ← r_u32be;
  let pairnum := s32 pairnum in
  _ ← r_lift (if pairnum <? 0 then Err BadAlloc else Ok tt);
  pairs ← deserialize_pairs (Z.to_nat pairnum) recv_size;
  mret (mkScanResponseSplit (mkScanRequestSplit (mkScanRequest b endkey) cur max curs maxs)
          nodeidx (s32 snapshotid) pairnum pairs).

Definition ScanResponseSplit_parse (methodid recv_size : Z) : reader ScanResponseSplit :=
  p ← ScanResponseSplit_deserialize methodid recv_size;
  _ ← r_check (p_type (sq_base (ss_scan (sp_split p))) =? SCANRES_SPLIT);
  _ ← r_check (0 <=? sp_snapshotid p);
  mret p.

(** ** Offsets into the fragment header *)

Definition get_frag_hdrsize (methodid : Z) : res Z :=
  ophdr ← get_ophdrsize methodid;
  prev ← get_split_prev_bytes methodid;
  let result := ophdr + sizeof_key + prev + 2 + 2 in
  Ok (if negb (is_singleswitch methodid) then result + (2 + 2) else result).

Definition get_srcnum_off (methodid : Z) : res Z :=
  ophdr ← get_ophdrsize methodid;
  prev ← get_split_prev_bytes methodid;
  Ok (ophdr + sizeof_key + prev + 2).

Definition get_srcid_off (methodid : Z) : res Z :=
  ophdr ← get_ophdrsize methodid;
  prev ← get_split_prev_bytes methodid;
  Ok (ophdr + sizeof_key + prev).

Definition get_srcswitchnum_off (methodid : Z) : res Z :=
  _ ← INVARIANT (negb (is_singleswitch methodid));
  ophdr ← get_ophdrsize methodid;
  prev ← get_split_prev_bytes methodid;
  Ok (ophdr + sizeof_key + prev + 2 + 2 + 2).

(** The header size is added a second time in the place of the bytes in front
    of the split header. *)
Definition get_srcswitchid_off (methodid : Z) : res Z :=
  _ ← INVARIANT (negb (is_singleswitch methodid));
  ophdr ← get_ophdrsize methodid;
  ophdr' ← get_ophdrsize methodid;
  Ok (ophdr + sizeof_key + ophdr' + 2 + 2).

(** ** The bytes of a response *)

Definition switch_wire (p : Packet) : list Z :=
  if is_singleswitch (p_methodid p) then []
  else if p_methodid p =? DISTCACHE_ID then be 2 (p_spineswitchidx p) ++ be 2 (p_leafswitchidx p)
  else be 2 (p_globalswitchidx p).

Definition hdr_wire (p : Packet) : list Z := be 2 (p_type p) ++ switch_wire p ++ key_wire (p_key p).

Definition pair_wire (x : Key * SnapshotRecord) : list Z :=
  key_wire x.1 ++ val_wire_large (sr_val x.2).

Definition scanswitch_wire (s : ScanRequestSplit) : list Z :=
  if is_singleswitch (p_methodid (sq_base (ss_scan s))) then []
  else be 2 (ss_cur_scanswitchidx s) ++ be 2 (ss_max_scanswitchnum s).

Definition frag_hdr_wire (s : ScanRequestSplit) : list Z :=
  hdr_wire (sq_base (ss_scan s)) ++ key_wire (sq_endkey (ss_scan s)) ++
  replicate (split_prev (p_methodid (sq_base (ss_scan s)))) 0 ++
  be 2 (ss_cur_scanidx s) ++ be 2 (ss_max_scannum s) ++ scanswitch_wire s.

Definition scan_wire (p : ScanResponseSplit) : list Z :=
  frag_hdr_wire (sp_split p) ++ be 2 (sp_nodeidx_foreval p) ++ le_bytes 4 (sp_snapshotid p) ++
  be 4 (sp_pairnum p) ++ flat_map pair_wire (sp_pairs p).

Definition pair_wf (x : Key * SnapshotRecord) : Prop := key_wf x.1 /\ val_wf (sr_val x.2).

Record scan_wf (p : ScanResponseSplit) : Prop := {
  sw_hdr : packet_wf (sq_base (ss_scan (sp_split p)));
  sw_type : p_type (sq_base (ss_scan (sp_split p))) = SCANRES_SPLIT;
  sw_endkey : key_wf (sq_endkey (ss_scan (sp_split p)));
  sw_cur : is_u16 (ss_cur_scanidx (sp_split p));
  sw_max : is_u16 (ss_max_scannum (sp_split p));
  sw_curs : is_u16 (ss_cur_scanswitchidx (sp_split p));
  sw_maxs : is_u16 (ss_max_scanswitchnum (sp_split p));
  sw_nodeidx : is_u16 (sp_nodeidx_foreval p);
  sw_snapshotid : 0 <= sp_snapshotid p < 2 ^ 31;
  sw_pairnum : sp_pairnum p = Z.of_nat (length (sp_pairs p));
  sw_pairs : Forall pair_wf (sp_pairs p)
}.

(** What the client sees: records without sequence number and status. *)
Definition wire_pair (x : Key * SnapshotRecord) : Key * SnapshotRecord :=
  (x.1, mkSnapshotRecord (sr_val x.2) 0 false).

Definition wire_split (s : ScanRequestSplit) : ScanRequestSplit :=
  let single := is_singleswitch (p_methodid (sq_base (ss_scan s))) in
  mkScanRequestSplit (mkScanRequest (wire_hdr (sq_base (ss_scan s))) (sq_endkey (ss_scan s)))
    (ss_cur_scanidx s) (ss_max_scannum s)
    (if single then 0 else ss_cur_scanswitchidx s) (if single then 0 else ss_max_scanswitchnum s).

Definition wire_scan (p : ScanResponseSplit) : ScanResponseSplit :=
  mkScanResponseSplit (wire_split (sp_split p)) (sp_nodeidx_foreval p) (sp_snapshotid p)
    (sp_pairnum p) (map wire_pair (sp_pairs p)).

(** ** Reading *)

Lemma length_hdr_wire p : length (hdr_wire p) = hdr_size (p_methodid p).
Proof.
  unfold hdr_wire, switch_wire, hdr_size. rewrite !length_app, length_be, length_key_wire.
  repeat case_match; rewrite ?length_app, ?length_be; reflexivity.
Qed.

Lemma length_frag_hdr s :
  length (frag_hdr_wire s) =
  (let m := p_methodid (sq_base (ss_scan s)) in
   hdr_size m + 16 + split_prev m + 4 + if is_singleswitch m then 0 else 4)%nat.
Proof.
  unfold frag_hdr_wire, scanswitch_wire. rewrite !length_app, length_hdr_wire, length_key_wire,
    length_replicate, !length_be. case_match; rewrite ?length_app, ?length_be; cbn; lia.
Qed.

Lemma reads_assoc {A B C} (r : reader A) (k : A -> reader B) (k' : B -> reader C) pos bs v :
  reads (r ≫= fun x => k x ≫= k') pos bs v -> reads ((r ≫= k) ≫= k') pos bs v.
Proof.
  intros H tl. rewrite <- (H tl). unfold mbind, reader_bind.
  destruct (r _) as [[x s]|e]; reflexivity.
Qed.

Lemma reads_mret_bind {A B} (a : A) (k : A -> reader B) pos bs v :
  reads (k a) pos bs v -> reads (mret a ≫= k) pos bs v.
Proof. intros H. exact H. Qed.

Lemma reads_skip_zeros n k pos :
  k = Z.of_nat n -> reads (r_skip k) pos (replicate n 0) tt.
Proof. intros ->. apply reads_skip; rewrite ?length_replicate; lia. Qed.

Lemma reads_u32_le x pos : 0 <= x < 2 ^ 31 -> reads r_u32 pos (le_bytes 4 x) x.
Proof. intros Hx. apply r_u32_reads. unfold is_u32. lia. Qed.

(** One reader step on known bytes; the lengths of the bytes read are
    normalised before the next. *)
Ltac rd_len :=
  rewrite ?length_be, ?length_key_wire, ?length_le_bytes, ?length_replicate, ?length_hdr_wire,
    ?length_val_wire_large, ?length_val_wire.

Ltac rd_step :=
  lazymatch goal with
  | |- reads (mbind _ (mbind _ _)) _ _ _ => apply reads_assoc
  | |- reads (mbind _ (mret _)) _ _ _ => apply reads_mret_bind
  | |- reads (r_check _ ≫= _) _ _ _ => apply reads_check_bind; [pk_cond|]
  | |- reads (r_rem _ ≫= _) _ _ _ => apply reads_rem_bind; [lia|lia|]
  | |- reads (r_lift _ ≫= _) _ _ _ => eapply reads_lift_bind; [first [eassumption|reflexivity]|]
  | |- reads (mret _) _ _ _ => apply reads_ret
  | |- reads (r_u16be ≫= _) _ _ _ => eapply reads_bind; [now apply reads_u16be|]
  | |- reads (r_u32be ≫= _) _ _ _ => eapply reads_bind; [now apply reads_u32be|]
  | |- reads (r_u32 ≫= _) _ _ _ => eapply reads_bind; [apply reads_u32_le; lia|]
  | |- reads (r_skip _ ≫= _) _ _ _ => eapply reads_bind; [apply reads_skip_zeros; lia|]
  | |- reads (Key_deserialize _ ≫= _) _ _ _ =>
      eapply reads_bind; [apply Key_deserialize_reads; [assumption|lia]|]
  | |- reads (Val_deserialize_large _ ≫= _) _ _ _ =>
      eapply reads_bind; [apply Val_deserialize_large_reads; [assumption|lia]|]
  | |- reads (Val_deserialize _ ≫= _) _ _ _ =>
      eapply reads_bind; [apply Val_deserialize_reads; [assumption|lia|lia]|]
  end.
Ltac rd := repeat (rd_step; rd_len).

Lemma hdr_reads p rlen :
  packet_wf p -> Z.of_nat (hdr_size (p_methodid p)) <= rlen < 2 ^ 32 ->
  reads (deserialize_ophdr (p_methodid p) rlen) 0 (hdr_wire p) (wire_hdr p).
Proof.
  intros [Hm Ht Hk Hg Hs Hl] Hr. unfold deserialize_ophdr, hdr_wire, switch_wire, wire_hdr.
  rewrite (ophdrsize_ok Hm), !(valid_not_invalid Hm). unfold hdr_size in *.
  rewrite <- (app_nil_r (key_wire (p_key p))).
  apply reads_check_bind; [reflexivity|]. eapply reads_lift_bind; [reflexivity|].
  apply reads_check_bind; [pk_cond|]. unfold deserialize_packet_type, deserialize_switchidx.
  destruct (is_singleswitch (p_methodid p)); cbn [negb app];
    [|destruct (p_methodid p =? DISTCACHE_ID); rewrite <- ?app_assoc]; rd.
Qed.

Fixpoint pairs_size (ps : list (Key * SnapshotRecord)) : nat :=
  match ps with [] => O | x :: ps' => (16 + val_wire_size_large (sr_val x.2) + pairs_size ps')%nat end.

Lemma length_pairs ps : length (flat_map pair_wire ps) = pairs_size ps.
Proof.
  induction ps as [|x ps IH]; [reflexivity|]. cbn [flat_map pairs_size].
  rewrite length_app, IH. unfold pair_wire. now rewrite length_app, length_key_wire, length_val_wire_large.
Qed.

Lemma pairs_size_ge ps : (20 * length ps <= pairs_size ps)%nat.
Proof.
  induction ps as [|x ps IH]; cbn [length pairs_size]; [lia|]. unfold val_wire_size_large. lia.
Qed.

Lemma pairs_reads ps : forall rlen pos,
  Forall pair_wf ps -> 0 <= pos -> pos + Z.of_nat (pairs_size ps) <= rlen < 2 ^ 32 ->
  reads (deserialize_pairs (length ps) rlen) pos (flat_map pair_wire ps) (map wire_pair ps).
Proof.
  induction ps as [|[k r] ps IH]; intros rlen pos Hf Hp Hr; [apply reads_ret|].
  apply Forall_cons_iff in Hf as [[Hk Hv] Hf]. cbn [fst snd] in *.
  cbn [deserialize_pairs length flat_map map pairs_size] in *. unfold pair_wire; cbn [fst snd] in *.
  rewrite <- app_assoc. rewrite <- (app_nil_r (flat_map _ _)). rd.
  eapply reads_bind; [apply IH; [exact Hf|lia..]|]. apply reads_ret.
Qed.

Lemma scan_reads p rlen :
  scan_wf p -> Z.of_nat (length (scan_wire p)) <= rlen < 2 ^ 32 ->
  reads (ScanResponseSplit_parse (p_methodid (sq_base (ss_scan (sp_split p)))) rlen) 0
    (scan_wire p) (wire_scan p).
Proof.
  destruct p as [[[b e] cur max curs maxs] nd snap pn ps].
  intros [Hb Ht He Hc Hmx Hcs Hms Hn Hs Hpn Hps] Hr.
  cbn [sp_split ss_scan sq_base sq_endkey ss_cur_scanidx ss_max_scannum ss_cur_scanswitchidx
    ss_max_scanswitchnum sp_nodeidx_foreval sp_snapshotid sp_pairnum sp_pairs] in *.
  pose proof (pw_method _ Hb) as Hm. pose proof (split_prev_ok Hm) as Hprev.
  pose proof (ophdrsize_ok Hm) as Hoph. pose proof (@hdr_size_le (p_methodid b)) as Hh.
  pose proof (wire_hdr_type b) as Htw. rewrite Ht in Htw.
  unfold scan_wire, frag_hdr_wire, scanswitch_wire, wire_scan, wire_split in *.
  cbn [sp_split ss_scan sq_base sq_endkey ss_cur_scanidx ss_max_scannum ss_cur_scanswitchidx
    ss_max_scanswitchnum sp_nodeidx_foreval sp_snapshotid sp_pairnum sp_pairs] in *.
  unfold ScanResponseSplit_parse, ScanResponseSplit_deserialize, ScanResponseSplit_size, sizeof_key.
  rewrite Hoph, Hprev. cbn [mbind res_bind].
  rewrite !length_app, length_hdr_wire, length_key_wire, length_replicate, !length_be,
    length_le_bytes, length_pairs in Hr.
  pose proof (pairs_size_ge ps) as Hge.
  assert (Hpn32 : is_u32 pn) by (unfold is_u32; lia).
  assert (Hpns : s32 pn = pn) by (apply s32_id; unfold is_s32; lia).
  assert (Hsns : s32 snap = snap) by (apply s32_id; unfold is_s32; lia).
  assert (Hneg : (if pn <? 0 then Err BadAlloc else Ok tt) = Ok tt)
    by (rewrite (proj2 (Z.ltb_ge pn 0)) by lia; reflexivity).
  rewrite <- !app_assoc. rewrite <- (app_nil_r (flat_map pair_wire ps)).
  destruct (is_singleswitch (p_methodid b)) eqn:Es; cbn [negb app length] in *;
    rewrite <- ?app_assoc; rewrite ?length_app, ?length_be in Hr; rd;
    (eapply reads_bind; [apply hdr_reads; [exact Hb|lia]|]); rd_len; rd;
    rewrite Hpns, Hsns; rd; (replace (Z.to_nat pn) with (length ps) by lia);
    (eapply reads_bind; [apply pairs_reads; [exact Hps|lia..]|]); rd.
Qed.

(** ** Writing into a dynamic array *)

Ltac ho_len :=
  rewrite ?length_app, ?length_be, ?length_rev, ?length_le_bytes, ?length_key_wire, ?length_replicate,
    ?length_hdr_wire, ?length_val_wire_large, ?length_val_wire, ?length_pairs; cbn [length].

(** One [dynamic_memcpy] of a chain; the array afterwards is named again. *)
Ltac ho_memcpy :=
  match goal with
  | H : holds ?d ?max ?bs |- context [dynamic_memcpy ?d ?off ?src] =>
      let d' := fresh "d" in let E := fresh "E" in let H' := fresh "H" in
      destruct (holds_memcpy d max bs off src H) as (d' & E & H'); [ho_len; lia|ho_len; lia|];
      rewrite E; cbn [mbind res_bind]; clear E H; rename H' into H
  end.

(** A field serializer that appends [src], called at the end of the array. *)
Ltac ho_field Ha :=
  match goal with
  | H : holds ?d ?max ?bs |- context [?f ?d ?off] =>
      let d' := fresh "d" in let E := fresh "E" in let H' := fresh "H" in
      destruct (holds_appends f _ d max bs off Ha H) as (d' & E & H'); [ho_len; lia|ho_len; lia|];
      rewrite E; cbn [mbind res_bind]; clear E H; rename H' into H; ho_len
  end.

Lemma dynamic_pairs ps : forall d max bs off,
  Forall pair_wf ps -> holds d max bs -> off = Z.of_nat (length bs) ->
  off + Z.of_nat (pairs_size ps) <= max ->
  exists d', dynamic_serialize_pairs ps d off = Ok (off + Z.of_nat (pairs_size ps), d') /\
    holds d' max (bs ++ flat_map pair_wire ps).
Proof.
  induction ps as [|[k r] ps IH]; intros d max bs off Hf Hd Ho Hle;
    cbn [dynamic_serialize_pairs flat_map pairs_size] in *.
  - exists d. rewrite app_nil_r. split; [f_equal; f_equal; lia|exact Hd].
  - apply Forall_cons_iff in Hf as [[Hk Hv] Hf]. cbn [fst snd] in *.
    ho_field (Key_dynamic_serialize_appends k Hk).
    ho_field (Val_dynamic_serialize_large_appends _ Hv).
    destruct (IH _ max _ (off + Z.of_nat 16 + Z.of_nat (val_wire_size_large (sr_val r))) Hf Hd)
      as (d3 & E3 & H3); [ho_len; lia..|].
    exists d3. rewrite E3. split; [f_equal; f_equal; lia|].
    unfold pair_wire; cbn [fst snd]. now rewrite <- !app_assoc in *.
Qed.

Lemma dynamic_ophdr p d max :
  packet_wf p -> holds d max [] -> Z.of_nat (hdr_size (p_methodid p)) <= max ->
  exists d', dynamic_serialize_ophdr p d = Ok (Z.of_nat (hdr_size (p_methodid p)), d') /\
    holds d' max (hdr_wire p).
Proof.
  intros [Hm Ht Hk Hg Hs Hl] Hd Hle. unfold dynamic_serialize_ophdr, hdr_wire, switch_wire.
  rewrite (valid_not_invalid Hm). rewrite !le_bytes_htons.
  fold (be 2 (p_type p)) (be 2 (p_spineswitchidx p)) (be 2 (p_leafswitchidx p)) (be 2 (p_globalswitchidx p)).
  unfold hdr_size in *. cbn [INVARIANT mbind res_bind].
  destruct (is_singleswitch (p_methodid p)); cbn [negb];
    [|destruct (p_methodid p =? DISTCACHE_ID)];
    repeat ho_memcpy; cbn [mbind res_bind];
    ho_field (Key_dynamic_serialize_appends (p_key p) Hk);
    (eexists; split; [reflexivity|]); now rewrite <- ?app_assoc in *.
Qed.

Lemma dynamic_scan p d max :
  scan_wf p -> holds d max [] -> Z.of_nat (length (scan_wire p)) <= max ->
  exists d', ScanResponseSplit_dynamic_serialize p d = Ok (Z.of_nat (length (scan_wire p)), d') /\
    holds d' max (scan_wire p).
Proof.
  destruct p as [[[b e] cur mx curs maxs] nd snap pn ps].
  intros [Hb Ht He Hc Hmx Hcs Hms Hn Hs Hpn Hps] Hd Hle.
  cbn [sp_split ss_scan sq_base sq_endkey ss_cur_scanidx ss_max_scannum ss_cur_scanswitchidx
    ss_max_scanswitchnum sp_nodeidx_foreval sp_snapshotid sp_pairnum sp_pairs] in *.
  pose proof (pw_method _ Hb) as Hm. pose proof (split_prev_ok Hm) as Hprev.
  unfold ScanResponseSplit_dynamic_serialize.
  unfold scan_wire, frag_hdr_wire, scanswitch_wire in *.
  cbn [sp_split ss_scan sq_base sq_endkey ss_cur_scanidx ss_max_scannum ss_cur_scanswitchidx
    ss_max_scanswitchnum sp_nodeidx_foreval sp_snapshotid sp_pairnum sp_pairs] in *.
  rewrite !length_app, length_hdr_wire, length_key_wire, length_replicate, !length_be,
    length_le_bytes, length_pairs in Hle.
  assert (Hmax : max <= 2 ^ 30) by (destruct Hd as [(_ & _ & _ & _ & W) <- _]; exact W).
  pose proof (pairs_size_ge ps) as Hge.
  rewrite (u32_id pn) by (unfold is_u32; lia). rewrite !le_bytes_htons, !le_bytes_htonl.
  fold (be 2 cur) (be 2 mx) (be 2 curs) (be 2 maxs) (be 2 nd) (be 4 pn).
  destruct (dynamic_ophdr b d max Hb Hd ltac:(lia)) as (d1 & E1 & H1). rewrite E1.
  clear Hd. cbn [mbind res_bind]. ho_field (Key_dynamic_serialize_appends e He).
  rewrite Hprev. cbn [mbind res_bind]. unfold dynamic_memset. rewrite (proj2 (Z.ltb_ge _ _)) by lia.
  change (u8 0) with 0. rewrite Nat2Z.id.
  destruct (is_singleswitch (p_methodid b)); cbn [negb] in *; rewrite ?length_app, ?length_be in Hle;
    repeat ho_memcpy; cbn [mbind res_bind length] in *;
    match goal with
    | H : holds ?d ?max ?bs |- context [dynamic_serialize_pairs _ ?d ?off] =>
        destruct (dynamic_pairs ps d max bs off Hps H) as (d' & E' & H'); [ho_len; lia..|];
        rewrite E'; exists d'; split; [do 2 f_equal; ho_len; lia|]
    end; now rewrite <- ?app_assoc in *.
Qed.

(** ** Writing into a buffer *)

Lemma writes_check_bind {A} c (k : unit -> writer A) pos n a out :
  c = true -> writes (k tt) pos n a out -> writes (w_check c ≫= k) pos n a out.
Proof. intros -> H. exact H. Qed.

Lemma writes_lift_bind {A B} (m : res A) x (k : A -> writer B) pos n a out :
  m = Ok x -> writes (k x) pos n a out -> writes (w_lift m ≫= k) pos n a out.
Proof. intros -> H. exact H. Qed.

Lemma writes_rem_bind {A} max_size (k : Z -> writer A) pos n a out :
  0 <= pos <= max_size -> max_size < 2 ^ 32 ->
  writes (k (max_size - pos)) pos n a out -> writes (w_rem max_size ≫= k) pos n a out.
Proof.
  intros Hp Hm H done old rest Hd Ho. unfold w_rem, mbind, writer_bind, w_off, mret, writer_ret.
  cbn [w_done]. rewrite Hd, !u32_id by (unfold is_u32; rewrite ?u32_id by (unfold is_u32; lia); lia).
  now apply H.
Qed.

Lemma writes_assoc {A B C} (w : writer A) (k : A -> writer B) (k' : B -> writer C) pos n a out :
  writes (w ≫= fun x => k x ≫= k') pos n a out -> writes ((w ≫= k) ≫= k') pos n a out.
Proof.
  intros H done old rest Hd Ho. destruct (H done old rest Hd Ho) as [E L]. split; [|exact L].
  rewrite <- E. unfold mbind, writer_bind. destruct (w _) as [[x s]|e]; reflexivity.
Qed.

Lemma writes_mret_bind {A B} (x : A) (k : A -> writer B) pos n a out :
  writes (k x) pos n a out -> writes (mret x ≫= k) pos n a out.
Proof. intros H. exact H. Qed.

(** A field of known bytes, then the rest. *)
Definition emits {A} (w : writer A) (pos : Z) (bs : list Z) (a : A) : Prop :=
  writes w pos (length bs) a (fun _ => bs).

Lemma emits_bind {A B} (w : writer A) (k : A -> writer B) pos bs cs a b :
  emits w pos bs a -> emits (k a) (pos + Z.of_nat (length bs)) cs b ->
  emits (w ≫= k) pos (bs ++ cs) b.
Proof.
  unfold emits. intros H1 H2. rewrite length_app.
  exact (writes_bind w k pos _ _ a b _ _ H1 H2).
Qed.

Lemma emits_u16be x pos : emits (w_u16be x) pos (be 2 x) tt.
Proof. unfold w_u16be, emits. rewrite le_bytes_htons. apply writes_put. Qed.

Lemma emits_u32be x pos : emits (w_u32be x) pos (be 4 x) tt.
Proof. unfold w_u32be, emits. rewrite le_bytes_htonl. apply writes_put. Qed.

Lemma emits_u32 x pos : emits (w_u32 x) pos (le_bytes 4 x) tt.
Proof. apply (writes_put (le_bytes 4 x)). Qed.

Lemma emits_zeros n k pos : k = Z.of_nat n -> emits (w_memset 0 k) pos (replicate n 0) tt.
Proof. intros ->. unfold w_memset. rewrite Nat2Z.id. apply writes_put. Qed.

Lemma emits_Key k wlen pos : key_wf k -> 16 <= wlen -> emits (Key_serialize k wlen) pos (key_wire k) 16.
Proof. exact (Key_serialize_writes k wlen pos). Qed.

Lemma emits_Val_large v wlen pos :
  val_wf v -> Z.of_nat (val_wire_size_large v) <= wlen < 2 ^ 32 ->
  emits (Val_serialize_large v wlen) pos (val_wire_large v) (Z.of_nat (val_wire_size_large v)).
Proof.
  intros Hv Hw. pose proof (val_wf_length v Hv) as Hl. pose proof (val_wire_size_large_eq v Hv) as HS.
  pose proof (get_padding_size_range (val_length v) (proj1 Hl)) as Hp.
  unfold Val_serialize_large, val_wire_large. rewrite (u32_id (4 + _ + _)) by (unfold is_u32; lia).
  apply writes_check_bind; [now apply val_wf_consistent|]. apply writes_check_bind; [lia|].
  eapply emits_bind; [apply emits_u32be|]. rewrite <- (app_nil_r (val_body v)).
  eapply emits_bind; [apply (val_put_body_writes v Hv)|]. rewrite HS. apply writes_ret.
Qed.

Lemma emits_off pos : 0 <= pos < 2 ^ 32 -> emits w_off pos [] pos.
Proof. exact (writes_off pos). Qed.

Ltac em_step :=
  lazymatch goal with
  | |- emits (mbind _ (mbind _ _)) _ _ _ => apply writes_assoc; fold_emits
  | |- emits (mbind _ (mret _)) _ _ _ => apply writes_mret_bind; fold_emits
  | |- emits (w_check _ ≫= _) _ _ _ => apply writes_check_bind; [pk_cond|]; fold_emits
  | |- emits (w_rem _ ≫= _) _ _ _ => apply writes_rem_bind; [lia|lia|]; fold_emits
  | |- emits (w_lift _ ≫= _) _ _ _ =>
      eapply writes_lift_bind; [first [eassumption|reflexivity]|]; fold_emits
  | |- emits (mret _) _ _ _ => apply writes_ret
  | |- emits w_off _ _ _ => apply emits_off; lia
  | |- emits (w_u16be _ ≫= _) _ _ _ => eapply emits_bind; [apply emits_u16be|]
  | |- emits (w_u32be _ ≫= _) _ _ _ => eapply emits_bind; [apply emits_u32be|]
  | |- emits (w_u32 _ ≫= _) _ _ _ => eapply emits_bind; [apply emits_u32|]
  | |- emits (w_memset 0 _ ≫= _) _ _ _ => eapply emits_bind; [apply emits_zeros; reflexivity|]
  | |- emits (Key_serialize _ _ ≫= _) _ _ _ => eapply emits_bind; [apply emits_Key; [assumption|lia]|]
  | |- emits (Val_serialize_large _ _ ≫= _) _ _ _ =>
      eapply emits_bind; [apply emits_Val_large; [assumption|lia]|]
  end
with fold_emits :=
  lazymatch goal with |- writes ?w ?pos (length ?bs) ?a (fun _ => ?bs) => change (emits w pos bs a) end.
Ltac em := repeat (em_step; rd_len).

Lemma emits_ophdr p wlen :
  packet_wf p -> Z.of_nat (hdr_size (p_methodid p)) <= wlen < 2 ^ 32 ->
  emits (serialize_ophdr p wlen) 0 (hdr_wire p) tt.
Proof.
  intros [Hm Ht Hk Hg Hs Hl] Hr. unfold serialize_ophdr, hdr_wire, switch_wire.
  rewrite (ophdrsize_ok Hm), !(valid_not_invalid Hm). unfold hdr_size in *.
  rewrite <- (app_nil_r (key_wire (p_key p))). unfold serialize_packet_type, serialize_switchidx.
  destruct (is_singleswitch (p_methodid p)); cbn [negb app];
    [|destruct (p_methodid p =? DISTCACHE_ID); rewrite <- ?app_assoc]; em.
Qed.

Lemma emits_pairs ps : forall max_size pos,
  Forall pair_wf ps -> 0 <= pos -> pos + Z.of_nat (pairs_size ps) <= max_size < 2 ^ 32 ->
  emits (serialize_pairs ps max_size) pos (flat_map pair_wire ps) tt.
Proof.
  induction ps as [|[k r] ps IH]; intros max_size pos Hf Hp Hr; [apply writes_ret|].
  apply Forall_cons_iff in Hf as [[Hk Hv] Hf]. cbn [fst snd] in *.
  cbn [serialize_pairs flat_map pairs_size] in *. unfold pair_wire; cbn [fst snd] in *.
  rewrite <- app_assoc. em. apply IH; [exact Hf|lia..].
Qed.

Ltac scan_cbn :=
  cbn [sp_split ss_scan sq_base sq_endkey ss_cur_scanidx ss_max_scannum ss_cur_scanswitchidx
    ss_max_scanswitchnum sp_nodeidx_foreval sp_snapshotid sp_pairnum sp_pairs] in *.

Lemma emits_scan p max_size :
  scan_wf p -> Z.of_nat (length (scan_wire p)) <= max_size < 2 ^ 32 ->
  emits (ScanResponseSplit_serialize p max_size) 0 (scan_wire p) (Z.of_nat (length (scan_wire p))).
Proof.
  destruct p as [[[b e] cur mx curs maxs] nd snap pn ps].
  intros [Hb Ht He Hc Hmx Hcs Hms Hn Hs Hpn Hps] Hle. scan_cbn.
  pose proof (pw_method _ Hb) as Hm. pose proof (split_prev_ok Hm) as Hprev.
  pose proof (ophdrsize_ok Hm) as Hoph. pose proof (pairs_size_ge ps) as Hge.
  unfold ScanResponseSplit_serialize, ScanResponseSplit_size, sizeof_key.
  unfold scan_wire, frag_hdr_wire, scanswitch_wire in *. scan_cbn.
  rewrite Hoph, Hprev. cbn [mbind res_bind].
  rewrite !length_app, length_hdr_wire, length_key_wire, length_replicate, !length_be,
    length_le_bytes, length_pairs in *.
  rewrite (u32_id pn) by (unfold is_u32; lia).
  rewrite <- (le_bytes_u32 snap). rewrite <- !app_assoc.
  rewrite <- (app_nil_r (flat_map pair_wire ps)).
  destruct (is_singleswitch (p_methodid b)); cbn [negb app length] in *;
    rewrite <- ?app_assoc; rewrite ?length_app, ?length_be in *; em;
    (eapply emits_bind; [apply emits_ophdr; [exact Hb|lia]|]); rd_len; em;
    (eapply emits_bind; [apply emits_pairs; [exact Hps|lia..]|]); rewrite length_pairs;
    match goal with
    | |- emits w_off ?x _ ?y => replace y with x by lia; apply emits_off; lia
    end.
Qed.

(** ** The response as sent and as received *)

(** The server's path of a range response: [dynamic_serialize] into a cleared
    array with enough capacity appends exactly the bytes that [serialize] would
    write, and the client's constructor reads from them the range, the split
    indexes, the snapshot id and every pair, in order. *)
Theorem scan_response_roundtrip (p : ScanResponseSplit) (d : DynamicArray) (data : list Z) :
  scan_wf p -> da_wf d -> _cursize d = 0 ->
  Z.of_nat (length (scan_wire p)) <= _maxcapability d ->
  (length (scan_wire p) <= length data)%nat -> Z.of_nat (length data) < 2 ^ 32 ->
  let n := Z.of_nat (length (scan_wire p)) in
  exists d' data',
    ScanResponseSplit_dynamic_serialize p d = Ok (n, d') /\ da_wf d' /\
    run_writer (ScanResponseSplit_serialize p (Z.of_nat (length data))) data = Ok (n, data') /\
    contents d' = take (length (scan_wire p)) data' /\
    run_reader (ScanResponseSplit_parse (p_methodid (sq_base (ss_scan (sp_split p)))) n)
      (contents d') = Ok (wire_scan p).
Proof.
  intros Hp Hd Hc Hcap Hl Hdl n. pose proof (holds_nil d Hd Hc) as Hh.
  destruct (dynamic_scan p d _ Hp Hh Hcap) as (d' & E & [W _ C]).
  destruct (emits_scan p (Z.of_nat (length data)) Hp ltac:(lia) [] (take (length (scan_wire p)) data)
    (drop (length (scan_wire p)) data) eq_refl) as [Ew _]; [rewrite length_take; lia|].
  rewrite take_drop in Ew. cbn [app] in Ew.
  exists d', (scan_wire p ++ drop (length (scan_wire p)) data).
  split; [exact E|]. split; [exact W|]. unfold run_writer. rewrite Ew.
  split; [reflexivity|]. rewrite take_app_length, C. split; [reflexivity|].
  unfold run_reader. rewrite <- (app_nil_r (scan_wire p)).
  assert (Hn : n < 2 ^ 32) by lia. now rewrite (scan_reads p n Hp ltac:(lia)).
Qed.

(** ** The indexes of a fragment *)

(** What the receiver of a fragment reads at an offset ([udprecvlarge]: a
    16-bit index, converted from network order). *)
Definition index_at (off : Z) (bs : list Z) : res Z := run_reader (_ ← r_skip off; r_u16be) bs.

Lemma index_at_app pre x post :
  is_u16 x -> index_at (Z.of_nat (length pre)) (pre ++ be 2 x ++ post) = Ok x.
Proof.
  intros Hx. unfold index_at, run_reader, mbind, reader_bind, r_skip; cbn [r_pos r_rest].
  rewrite Nat2Z.id, drop_app_length, (reads_u16be x _ Hx post). reflexivity.
Qed.

(** The header of a fragment split in front of the indexes. *)
Lemma scan_wire_indexes p :
  exists pre post,
    scan_wire p = pre ++ be 2 (ss_cur_scanidx (sp_split p)) ++ be 2 (ss_max_scannum (sp_split p)) ++
      scanswitch_wire (sp_split p) ++ post /\
    length pre = (hdr_size (p_methodid (sq_base (ss_scan (sp_split p)))) + 16 +
      split_prev (p_methodid (sq_base (ss_scan (sp_split p)))))%nat.
Proof.
  unfold scan_wire, frag_hdr_wire.
  exists (hdr_wire (sq_base (ss_scan (sp_split p))) ++ key_wire (sq_endkey (ss_scan (sp_split p))) ++
    replicate (split_prev (p_methodid (sq_base (ss_scan (sp_split p))))) 0).
  eexists. split; [rewrite <- !app_assoc; reflexivity|].
  rewrite !length_app, length_hdr_wire, length_key_wire, length_replicate. lia.
Qed.

(** In the bytes of a range response the fragment header has the size
    [get_frag_hdrsize], and the receiver finds the server index and the number
    of servers of the split at [get_srcid_off] and [get_srcnum_off], and for
    the multi-switch methods the number of switches at [get_srcswitchnum_off]. *)
Theorem fragment_header_offsets (p : ScanResponseSplit) :
  scan_wf p ->
  let m := p_methodid (sq_base (ss_scan (sp_split p))) in
  exists h o_id o_num,
    get_frag_hdrsize m = Ok h /\ h = Z.of_nat (length (frag_hdr_wire (sp_split p))) /\
    get_srcid_off m = Ok o_id /\ index_at o_id (scan_wire p) = Ok (ss_cur_scanidx (sp_split p)) /\
    get_srcnum_off m = Ok o_num /\ index_at o_num (scan_wire p) = Ok (ss_max_scannum (sp_split p)) /\
    (is_singleswitch m = false ->
     exists o_sw, get_srcswitchnum_off m = Ok o_sw /\
       index_at o_sw (scan_wire p) = Ok (ss_max_scanswitchnum (sp_split p))).
Proof.
  intros Hp m. pose proof (pw_method _ (sw_hdr _ Hp)) as Hm. fold m in Hm.
  destruct (scan_wire_indexes p) as (pre & post & E & L). fold m in L.
  unfold get_frag_hdrsize, get_srcid_off, get_srcnum_off, get_srcswitchnum_off, sizeof_key.
  rewrite (ophdrsize_ok Hm), (split_prev_ok Hm). cbn [mbind res_bind].
  eexists _, _, _. split; [reflexivity|]. split.
  { rewrite length_frag_hdr. cbn zeta. fold m. destruct (is_singleswitch m); cbn [negb]; lia. }
  split; [reflexivity|]. split.
  { rewrite E. replace (_ + 16 + _) with (Z.of_nat (length pre)) by lia.
    apply index_at_app, (sw_cur _ Hp). }
  split; [reflexivity|]. split.
  { rewrite E, app_assoc. replace (_ + 16 + _ + 2) with
      (Z.of_nat (length (pre ++ be 2 (ss_cur_scanidx (sp_split p))))) by (rewrite length_app, length_be; lia).
    apply index_at_app, (sw_max _ Hp). }
  intros Hs. rewrite Hs. eexists. split; [reflexivity|].
  rewrite E. unfold scanswitch_wire. fold m. rewrite Hs, !app_assoc, <- (app_assoc _ (be 2 (ss_max_scanswitchnum _))).
  match goal with
  | |- index_at ?x (?a ++ _ ++ _) = _ =>
      replace x with (Z.of_nat (length a)) by (rewrite !length_app, !length_be; lia)
  end.
  apply index_at_app, (sw_maxs _ Hp).
Qed.

(** The offset [get_srcswitchid_off] of the fourth index is wrong for every
    multi-switch method: it lies behind the fragment header and the response
    header, inside the first key of the result, while the index is in the last
    four bytes of the fragment header. *)
Theorem srcswitchid_off_misplaced (p : ScanResponseSplit) :
  scan_wf p -> is_singleswitch (p_methodid (sq_base (ss_scan (sp_split p)))) = false ->
  let m := p_methodid (sq_base (ss_scan (sp_split p))) in
  exists h o,
    get_frag_hdrsize m = Ok h /\ get_srcswitchid_off m = Ok o /\
    index_at (h - 4) (scan_wire p) = Ok (ss_cur_scanswitchidx (sp_split p)) /\
    h + 2 + 4 + 4 < o < h + 2 + 4 + 4 + sizeof_key.
Proof.
  intros Hp Hs m. pose proof (pw_method _ (sw_hdr _ Hp)) as Hm. fold m in Hm, Hs.
  destruct (scan_wire_indexes p) as (pre & post & E & L). fold m in L.
  unfold get_frag_hdrsize, get_srcswitchid_off, sizeof_key.
  rewrite (ophdrsize_ok Hm), (split_prev_ok Hm), Hs. cbn [mbind res_bind negb INVARIANT].
  eexists _, _. split; [reflexivity|]. split; [reflexivity|]. split.
  - rewrite E. unfold scanswitch_wire. fold m. rewrite Hs, <- app_assoc, !app_assoc, <- !(app_assoc _ _ post).
    match goal with
    | |- index_at ?x ?bs = _ => replace bs with
        ((pre ++ be 2 (ss_cur_scanidx (sp_split p)) ++ be 2 (ss_max_scannum (sp_split p))) ++
         be 2 (ss_cur_scanswitchidx (sp_split p)) ++ be 2 (ss_max_scanswitchnum (sp_split p)) ++ post)
        by (now rewrite <- !app_assoc);
        replace x with (Z.of_nat (length (pre ++ be 2 (ss_cur_scanidx (sp_split p)) ++
          be 2 (ss_max_scannum (sp_split p))))) by (rewrite !length_app, !length_be; lia)
    end.
    apply index_at_app, (sw_curs _ Hp).
  - unfold hdr_size, split_prev. rewrite Hs. destruct (m =? DISTCACHE_ID); lia.
Qed.

(** ** A concrete response *)

Definition demo_scan (m : Z) : ScanResponseSplit :=
  mkScanResponseSplit
    (mkScanRequestSplit (mkScanRequest (demo_hdr m SCANRES_SPLIT) (key_of 9)) 1 2 3 4)
    0 5 2 [(key_of 1, mkSnapshotRecord demo_val 7 true); (key_of 2, mkSnapshotRecord demo_val 8 true)].

Lemma demo_scan_wf m : valid_method m -> scan_wf (demo_scan m).
Proof.
  intros Hm. pose proof demo_val_small as [Hv _].
  constructor; unfold demo_scan; scan_cbn; try (unfold is_u16; lia).
  - apply demo_hdr_wf; [exact Hm|unfold is_u16, SCANRES_SPLIT; lia].
  - reflexivity.
  - unfold key_wf, key_of, is_u32; cbn; lia.
  - reflexivity.
  - assert (Hk : forall n, is_u32 n -> key_wf (key_of n))
      by (intros n Hn; unfold key_wf, key_of, is_u32 in *; cbn; lia).
    apply List.Forall_forall. intros x [<-|[<-|[]]]; (split; [apply Hk; unfold is_u32; lia|exact Hv]).
Qed.

Definition demo_array : DynamicArray := mkDynamicArray 0 8 (Some (replicate 8 0)) 8 1000.

Lemma demo_array_wf : da_wf demo_array.
Proof.
  unfold da_wf, demo_array; cbn [_array _cursize _curcapability _mincapability _maxcapability].
  split; [exists (replicate 8 0); split; reflexivity|lia].
Qed.

Lemma scan_response_roundtrip_witness :
  let p := demo_scan DISTFARREACH_ID in
  let n := Z.of_nat (length (scan_wire p)) in
  exists d' data',
    ScanResponseSplit_dynamic_serialize p demo_array = Ok (n, d') /\ da_wf d' /\
    run_writer (ScanResponseSplit_serialize p 200) (replicate 200 0) = Ok (n, data') /\
    contents d' = take (length (scan_wire p)) data' /\
    run_reader (ScanResponseSplit_parse DISTFARREACH_ID n) (contents d') = Ok (wire_scan p).
Proof.
  apply (scan_response_roundtrip (demo_scan DISTFARREACH_ID) demo_array (replicate 200 0)).
  - apply demo_scan_wf. unfold valid_method, FARREACH_ID, DISTFARREACH_ID, DISTCACHE_ID; lia.
  - exact demo_array_wf.
  - reflexivity.
  - vm_compute. discriminate.
  - vm_compute. repeat constructor.
  - reflexivity.
Defined.

Lemma fragment_header_offsets_witness :
  let p := demo_scan DISTCACHE_ID in
  exists h o_id o_num,
    get_frag_hdrsize DISTCACHE_ID = Ok h /\ h = Z.of_nat (length (frag_hdr_wire (sp_split p))) /\
    get_srcid_off DISTCACHE_ID = Ok o_id /\ index_at o_id (scan_wire p) = Ok 1 /\
    get_srcnum_off DISTCACHE_ID = Ok o_num /\ index_at o_num (scan_wire p) = Ok 2 /\
    (is_singleswitch DISTCACHE_ID = false ->
     exists o_sw, get_srcswitchnum_off DISTCACHE_ID = Ok o_sw /\
       index_at o_sw (scan_wire p) = Ok 4).
Proof.
  apply (fragment_header_offsets (demo_scan DISTCACHE_ID)).
  apply demo_scan_wf. unfold valid_method, FARREACH_ID, DISTCACHE_ID; lia.
Defined.

Lemma srcswitchid_off_misplaced_witness :
  exists h o,
    get_frag_hdrsize DISTFARREACH_ID = Ok h /\ get_srcswitchid_off DISTFARREACH_ID = Ok o /\
    index_at (h - 4) (scan_wire (demo_scan DISTFARREACH_ID)) = Ok 3 /\
    h + 2 + 4 + 4 < o < h + 2 + 4 + 4 + sizeof_key.
Proof.
  apply (srcswitchid_off_misplaced (demo_scan DISTFARREACH_ID)); [|reflexivity].
  apply demo_scan_wf. unfold valid_method, FARREACH_ID, DISTFARREACH_ID, DISTCACHE_ID; lia.
Defined.
