(* ===== verification/Outband.v ===== *)
(** * Snapshot control messages (farreach/outband_packet_format.h, .c)

    The messages of the snapshot protocol that do not go through the switch's
    data plane: the control signals, the in-switch records the switch OS sends
    to the controller (SNAPSHOT_GETDATA_ACK) and the records the controller
    sends on to each server (SNAPSHOT_SENDDATA).  The control types are globals
    read from control_type.ini, so they are arguments here. *)

From Stdlib Require Import ZArith Lia List.
From stdpp Require Import base tactics list numbers option.
From S2P Require Import Prelude Cursor DynamicArray StdMap Crc32 Key Val DeletedSet KVStore RocksdbWrapper Packet PacketCodec PacketScan.

Open Scope Z_scope.

(** ** Control signals *)

Record SnapshotSignal := mkSnapshotSignal {
  sig_control_type : Z;
  sig_snapshotid : Z
}.

(** [max_size >= 2*sizeof(int)] compares an int with a size_t. *)
Definition SnapshotSignal_serialize (s : SnapshotSignal) (max_size : Z) : writer Z :=
  _ ← w_check (8 <=? u64 max_size);
  _ ← w_u32 (sig_control_type s);
  _ ← w_u32 (sig_snapshotid s);
  mret 8.

Definition SnapshotSignal_deserialize (recv_size : Z) : reader SnapshotSignal :=
  _ ← r_check (8 <=? u64 recv_size);
  control_type ← r_u32;
  snapshotid ← r_u32;
  mret (mkSnapshotSignal (s32 control_type) (s32 snapshotid)).

(** ** SNAPSHOT_SENDDATA: the records of one server *)

(** The record loop of [dynamic_serialize_snapshot_senddata].  The byte written
    for the status is [bool tmpstat = tmpserver_seqarray[i]]. *)
Fixpoint senddata_records (keyarray : list Key) (valarray : list Val) (seqarray : list Z)
    (d : DynamicArray) (offset : Z) : res (Z * DynamicArray) :=
  match keyarray with
  | [] => Ok (offset, d)
  | key :: keyarray' =>
      '(tmpkeysize, d) ← Key_dynamic_serialize key d offset;
      let offset := offset + tmpkeysize in
      match valarray, seqarray with
      | val :: valarray', seq :: seqarray' =>
          '(tmpvalsize, d) ← Val_dynamic_serialize val d offset;
          let offset := offset + tmpvalsize in
          d ← dynamic_memcpy d offset (le_bytes 4 seq);
          let tmpstat := negb (seq =? 0) in
          d ← dynamic_memcpy d (offset + 4) [bool_byte tmpstat];
          senddata_records keyarray' valarray' seqarray' d (offset + 4 + 1)
      | _, _ => Err OutOfBounds
      end
  end.

(** [dynamic_serialize_snapshot_senddata]; [tmpserver_statarray] is an argument
    the code does not use. *)
Definition dynamic_serialize_snapshot_senddata (d : DynamicArray)
    (control_type snapshotid serveridx recordcnt : Z) (keyarray : list Key) (valarray : list Val)
    (seqarray : list Z) (statarray : list bool) : res (Z * DynamicArray) :=
  d ← dynamic_memcpy d 0 (le_bytes 4 control_type);
  d ← dynamic_memcpy d 4 (le_bytes 4 snapshotid);
  d ← dynamic_memcpy d 12 (le_bytes 2 serveridx);
  d ← dynamic_memcpy d 14 (le_bytes 4 recordcnt);
  '(offset, d) ← senddata_records keyarray valarray seqarray d 18;
  d ← dynamic_memcpy d 8 (le_bytes 4 offset);
  Ok (offset, d).

(** The out-parameters of [deserialize_snapshot_senddata], the four arrays as
    one list of records. *)
Record Senddata := mkSenddata {
  sd_snapshotid : Z;
  sd_bytes : Z;
  sd_serveridx : Z;
  sd_recordcnt : Z;
  sd_records : list (Key * SnapshotRecord)
}.

(** [memcpy] of key, value, sequence number and status, as in both readers. *)
Fixpoint read_records (n : nat) (size : Z) : reader (list (Key * SnapshotRecord)) :=
  match n with
  | O => mret []
  | S n' =>
      rem ← r_rem size;
      key ← Key_deserialize rem;
      rem ← r_rem size;
      val ← Val_deserialize rem;
      seq ← r_u32;
      stat ← r_bool;
      rest ← read_records n' size;
      mret ((key, mkSnapshotRecord val seq stat) :: rest)
  end.

(** [deserialize_snapshot_senddata] on an array of [size] bytes. *)
Definition deserialize_snapshot_senddata (control_type size : Z) : reader Senddata :=
  tmp_control_type ← r_u32;
  _ ← r_check (s32 tmp_control_type =? control_type);
  snapshotid ← r_u32;
  bytes ← r_u32;
  serveridx ← r_u16;
  recordcnt ← r_u32;
  records ← read_records (Z.to_nat (s32 recordcnt)) size;
  mret (mkSenddata (s32 snapshotid) (s32 bytes) serveridx (s32 recordcnt) records).

(** ** SNAPSHOT_GETDATA_ACK: the records of all servers *)

(** An entry of the per-pipeline arrays. *)
Record InswitchRecord := mkInswitchRecord {
  ir_serveridx : Z;
  ir_key : Key;
  ir_record : SnapshotRecord
}.

(** The data of a server while the records are distributed. *)
Record SendBuf := mkSendBuf {
  sb_sendbuf : DynamicArray;
  sb_send_bytes : Z;
  sb_record_cnt : Z
}.

(** The body of the distribution loop. *)
Definition getdata_record (r : InswitchRecord) (b : SendBuf) : res SendBuf :=
  '(tmp_keysize, d) ← Key_dynamic_serialize (ir_key r) (sb_sendbuf b) (sb_send_bytes b);
  let bytes := sb_send_bytes b + tmp_keysize in
  '(tmp_valsize, d) ← Val_dynamic_serialize (sr_val (ir_record r)) d bytes;
  let bytes := bytes + tmp_valsize in
  d ← dynamic_memcpy d bytes (le_bytes 4 (sr_seq (ir_record r)));
  d ← dynamic_memcpy d (bytes + 4) [bool_byte (sr_stat (ir_record r))];
  Ok (mkSendBuf d (bytes + 4 + 1) (sb_record_cnt b + 1)).

Fixpoint getdata_distribute (rs : list InswitchRecord) (bufs : list SendBuf) : res (list SendBuf) :=
  match rs with
  | [] => Ok bufs
  | r :: rs' =>
      match bufs !! Z.to_nat (ir_serveridx r) with
      | None => Err OutOfBounds
      | Some b =>
          b' ← getdata_record r b;
          getdata_distribute rs' (<[Z.to_nat (ir_serveridx r) := b']> bufs)
      end
  end.

(** The loop that writes header and records of every server. *)
Fixpoint getdata_servers (bufs : list SendBuf) (bwcosts : list Z) (tmp_serveridx : Z)
    (d : DynamicArray) (total_bytes : Z) : res (Z * DynamicArray) :=
  match bufs with
  | [] => Ok (total_bytes, d)
  | b :: bufs' =>
      match bwcosts with
      | [] => Err OutOfBounds
      | bwcost :: bwcosts' =>
          d ← dynamic_memcpy d total_bytes (le_bytes 4 (sb_send_bytes b + 4 + 2 + 4 + 8));
          d ← dynamic_memcpy d (total_bytes + 4) (le_bytes 2 tmp_serveridx);
          d ← dynamic_memcpy d (total_bytes + 6) (le_bytes 4 (sb_record_cnt b));
          d ← dynamic_memcpy d (total_bytes + 10) (le_bytes 8 bwcost);
          d ← dynamic_memcpy d (total_bytes + 18)
                (take (Z.to_nat (sb_send_bytes b)) (da_mem (sb_sendbuf b)));
          getdata_servers bufs' bwcosts' (tmp_serveridx + 1) d (total_bytes + 18 + sb_send_bytes b)
      end
  end.

(** [dynamic_serialize_snapshot_getdata_ack]: the pipelines one after the other. *)
Definition dynamic_serialize_snapshot_getdata_ack (d : DynamicArray) (control_type : Z)
    (max_logicalservernum : nat) (pipelines : list (list InswitchRecord)) (bwcosts : list Z)
    : res (Z * DynamicArray) :=
  d0 ← DynamicArray_new MAX_BUFSIZE MAX_LARGE_BUFSIZE;
  d0 ← clear d0;
  bufs ← getdata_distribute (concat pipelines) (replicate max_logicalservernum (mkSendBuf d0 0 0));
  '(total_bytes, d) ← getdata_servers bufs bwcosts 0 d 8;
  d ← dynamic_memcpy d 0 (le_bytes 4 control_type);
  d ← dynamic_memcpy d 4 (le_bytes 4 total_bytes);
  _ ← INVARIANT (total_bytes <=? MAX_LARGE_BUFSIZE);
  Ok (total_bytes, d).

(** One entry of the per-server vectors of [deserialize_snapshot_getdata_ack]. *)
Record ServerData := mkServerData {
  sv_bytes : Z;
  sv_serveridx : Z;
  sv_recordcnt : Z;
  sv_bwcost : Z;
  sv_records : list (Key * SnapshotRecord)
}.

Definition r_u64 : reader Z := bs ← r_get 8; mret (le_val bs).

Definition read_server (maxsize : Z) : reader ServerData :=
  bytes ← r_u32;
  serveridx ← r_u16;
  recordcnt ← r_u32;
  bwcost ← r_u64;
  records ← read_records (Z.to_nat (s32 recordcnt)) maxsize;
  mret (mkServerData (s32 bytes) serveridx (s32 recordcnt) bwcost records).

(** [while (offset < total_bytes)]. *)
Fixpoint read_servers (fuel : nat) (maxsize total_bytes : Z) : reader (list ServerData) :=
  offset ← r_off;
  if offset <? total_bytes then
    match fuel with
    | O => r_lift (Err OutOfFuel)
    | S fuel' =>
        s ← read_server maxsize;
        rest ← read_servers fuel' maxsize total_bytes;
        mret (s :: rest)
    end
  else mret [].

(** [deserialize_snapshot_getdata_ack]; every turn reads at least 18 bytes, so
    [maxsize] turns are enough. *)
Definition deserialize_snapshot_getdata_ack (control_type maxsize : Z) : reader (list ServerData) :=
  tmp_control_type ← r_u32;
  _ ← r_check (s32 tmp_control_type =? control_type);
  total_bytes ← r_u32;
  _ ← r_check (maxsize =? s32 total_bytes);
  read_servers (Z.to_nat maxsize) maxsize (s32 total_bytes).

(** ** The bytes of the messages *)

Definition record_wire (x : Key * SnapshotRecord) : list Z :=
  key_wire x.1 ++ val_wire (sr_val x.2) ++ le_bytes 4 (sr_seq x.2) ++ [bool_byte (sr_stat x.2)].

(** Records as the switch stores them: values of at most 128 bytes. *)
Definition wire_record_wf (x : Key * SnapshotRecord) : Prop :=
  key_wf x.1 /\ small_val (sr_val x.2) /\ is_u32 (sr_seq x.2).

Lemma length_record_wire x :
  length (record_wire x) = (16 + (val_wire_size (sr_val x.2) + (4 + 1)))%nat.
Proof.
  unfold record_wire. now rewrite !length_app, length_key_wire, length_val_wire, length_le_bytes.
Qed.

Lemma reads_u64 x pos : 0 <= x < 2 ^ 64 -> reads r_u64 pos (le_bytes 8 x) x.
Proof.
  intros Hx tl. unfold r_u64, mbind, reader_bind.
  rewrite (reads_get 8 pos (le_bytes 8 x)) by (now rewrite length_le_bytes).
  unfold mret, reader_ret. rewrite le_val_bytes, Z.mod_small by exact Hx. reflexivity.
Qed.

(** Reading an [int] back. *)
Lemma reads_int {A} x (k : Z -> reader A) pos bs v :
  reads (k (u32 x)) (pos + 4) bs v -> reads (r_u32 ≫= k) pos (le_bytes 4 x ++ bs) v.
Proof.
  intros H. rewrite <- le_bytes_u32.
  eapply reads_bind; [apply r_u32_reads, u32_range|]. rewrite length_le_bytes. exact H.
Qed.

Lemma read_records_reads rs : forall size pos,
  Forall wire_record_wf rs -> 0 <= pos -> pos + Z.of_nat (length (flat_map record_wire rs)) <= size < 2 ^ 32 ->
  reads (read_records (length rs) size) pos (flat_map record_wire rs) rs.
Proof.
  induction rs as [|[k [v q st]] rs IH]; intros size pos Hf Hp Hs; [apply reads_ret|].
  apply Forall_cons_iff in Hf as [(Hk & (Hv & Hl) & Hq) Hf].
  cbn [read_records length flat_map fst snd sr_val sr_seq sr_stat] in *.
  unfold SWITCH_MAX_VALLEN in *. rewrite length_app, length_record_wire in Hs.
  unfold record_wire; cbn [fst snd sr_val sr_seq sr_stat] in *.
  rewrite <- !app_assoc. rewrite <- (app_nil_r (flat_map _ _)). rd.
  eapply reads_bind; [now apply r_u32_reads|]. rd_len.
  eapply reads_bind; [apply reads_bool|]. cbn [length].
  eapply reads_bind; [apply IH; [exact Hf|lia..]|]. apply reads_ret.
Qed.

(** ** SENDDATA *)

(** The record as the server receives it: its status is whether its sequence
    number is not zero. *)
Definition sent_record (x : Key * SnapshotRecord) : Key * SnapshotRecord :=
  (x.1, mkSnapshotRecord (sr_val x.2) (sr_seq x.2) (negb (sr_seq x.2 =? 0))).

Lemma sent_record_wf x : wire_record_wf x -> wire_record_wf (sent_record x).
Proof. intros H. exact H. Qed.

Lemma senddata_records_ok rs : forall d max bs off,
  Forall wire_record_wf rs -> holds d max bs -> off = Z.of_nat (length bs) ->
  off + Z.of_nat (length (flat_map record_wire rs)) <= max ->
  exists d',
    senddata_records (map fst rs) (map (fun x => sr_val x.2) rs) (map (fun x => sr_seq x.2) rs) d off
      = Ok (off + Z.of_nat (length (flat_map record_wire rs)), d') /\
    holds d' max (bs ++ flat_map record_wire (map sent_record rs)).
Proof.
  induction rs as [|[k [v q st]] rs IH]; intros d max bs off Hf H Ho Hm.
  - exists d. cbn. rewrite app_nil_r, Z.add_0_r. auto.
  - apply Forall_cons_iff in Hf as [(Hk & (Hv & Hl) & Hq) Hf].
    cbn [map senddata_records flat_map fst snd sr_val sr_seq sr_stat] in *.
    unfold SWITCH_MAX_VALLEN in *. rewrite length_app, length_record_wire in *. cbn [fst snd sr_val] in *.
    ho_field (Key_dynamic_serialize_appends k Hk).
    ho_field (Val_dynamic_serialize_small_appends v Hv ltac:(lia)).
    ho_memcpy. ho_memcpy.
    match type of H with holds ?d ?m ?b =>
      match goal with |- context [senddata_records _ _ _ _ ?o] =>
        destruct (IH d m b o Hf H) as (d' & E & H'); [ho_len; lia..|] end end.
    exists d'. rewrite E. split; [f_equal; f_equal; lia|].
    unfold sent_record at 1, record_wire at 1; cbn [fst snd sr_val sr_seq sr_stat].
    rewrite <- !app_assoc in *. exact H'.
Qed.

(** The message of the controller for one server. *)
Definition senddata_wire (control_type snapshotid serveridx : Z) (rs : list (Key * SnapshotRecord))
    : list Z :=
  le_bytes 4 control_type ++ le_bytes 4 snapshotid ++
  le_bytes 4 (18 + Z.of_nat (length (flat_map record_wire rs))) ++ le_bytes 2 serveridx ++
  le_bytes 4 (Z.of_nat (length rs)) ++ flat_map record_wire (map sent_record rs).

Lemma length_records_sent rs :
  length (flat_map record_wire (map sent_record rs)) = length (flat_map record_wire rs).
Proof.
  induction rs as [|x rs IH]; [reflexivity|]. cbn [map flat_map].
  now rewrite !length_app, !length_record_wire, IH.
Qed.

Lemma length_records_ge rs : (length rs <= length (flat_map record_wire rs))%nat.
Proof.
  induction rs as [|x rs IH]; [reflexivity|]. cbn [flat_map length].
  rewrite length_app, length_record_wire. lia.
Qed.

Lemma length_senddata_wire ct id idx rs :
  length (senddata_wire ct id idx rs) = (18 + length (flat_map record_wire rs))%nat.
Proof. unfold senddata_wire. rewrite !length_app, !length_le_bytes, length_records_sent. lia. Qed.

Lemma senddata_dynamic d max ct id idx rs stats :
  Forall wire_record_wf rs -> holds d max [] ->
  18 + Z.of_nat (length (flat_map record_wire rs)) <= max ->
  exists d',
    dynamic_serialize_snapshot_senddata d ct id idx (Z.of_nat (length rs)) (map fst rs)
      (map (fun x => sr_val x.2) rs) (map (fun x => sr_seq x.2) rs) stats
      = Ok (18 + Z.of_nat (length (flat_map record_wire rs)), d') /\
    holds d' max (senddata_wire ct id idx rs).
Proof.
  intros Hf H Hm. unfold dynamic_serialize_snapshot_senddata. do 2 ho_memcpy.
  destruct (holds_gap _ _ _ 12 (le_bytes 2 idx) H) as (d2 & gap & E & H2 & Hg); [ho_len; lia..|].
  rewrite E; cbn [mbind res_bind]; clear E H. rename H2 into H. rewrite !length_app, !length_le_bytes in Hg. cbn [length] in Hg.
  ho_memcpy.
  match type of H with holds ?d ?m ?b =>
    destruct (senddata_records_ok rs d m b 18 Hf H) as (d' & E & H'); [ho_len; lia|ho_len; lia|] end.
  rewrite E. cbn [mbind res_bind]. cbn [app] in H'. rewrite <- !app_assoc in H'.
  rewrite (app_assoc (le_bytes 4 ct)) in H'.
  destruct (holds_overwrite _ _ _ _ _ (le_bytes 4 (18 + Z.of_nat (length (flat_map record_wire rs)))) 8 H')
    as (d4 & E4 & H4); [ho_len; lia|rewrite length_le_bytes; lia|].
  rewrite E4. exists d4. split; [reflexivity|]. unfold senddata_wire. rewrite <- !app_assoc in H4. exact H4.
Qed.

Lemma senddata_reads ct id idx rs size :
  Forall wire_record_wf rs -> is_s32 ct -> is_s32 id -> is_u16 idx ->
  size = Z.of_nat (length (senddata_wire ct id idx rs)) -> size < 2 ^ 31 ->
  reads (deserialize_snapshot_senddata ct size) 0 (senddata_wire ct id idx rs)
    (mkSenddata id size idx (Z.of_nat (length rs)) (map sent_record rs)).
Proof.
  intros Hf Hct Hid Hidx -> Hs. rewrite length_senddata_wire in *.
  pose proof (length_records_ge rs) as Hge.
  unfold deserialize_snapshot_senddata, senddata_wire.
  apply reads_int. rewrite (s32_u32 ct Hct). apply reads_check_bind; [apply Z.eqb_refl|].
  apply reads_int. apply reads_int. eapply reads_bind; [now apply reads_u16|]. rewrite length_le_bytes.
  apply reads_int. rewrite !s32_u32 by (first [assumption|unfold is_s32; lia]).
  rewrite <- (app_nil_r (flat_map record_wire (map _ _))).
  rewrite Nat2Z.id, <- (length_map sent_record rs) at 1.
  eapply reads_bind; [apply read_records_reads|].
  - apply Forall_map. exact Hf.
  - lia.
  - rewrite length_records_sent. lia.
  - apply reads_ret_eq. f_equal; lia.
Qed.

(** The in-switch records the controller sends to a server with
    SNAPSHOT_SENDDATA, serialized into a cleared array, are the ones the server
    reads: snapshot id, message size, server index, number of records and, in
    order, every key, value and sequence number.  The status the server reads
    is not the status of the record: it is whether the sequence number is not
    zero. *)
Theorem senddata_received (d : DynamicArray) (ct id idx : Z) (rs : list (Key * SnapshotRecord))
    (stats : list bool) :
  da_wf d -> _cursize d = 0 -> Forall wire_record_wf rs -> is_s32 ct -> is_s32 id -> is_u16 idx ->
  18 + Z.of_nat (length (flat_map record_wire rs)) <= _maxcapability d ->
  exists n d',
    dynamic_serialize_snapshot_senddata d ct id idx (Z.of_nat (length rs)) (map fst rs)
      (map (fun x => sr_val x.2) rs) (map (fun x => sr_seq x.2) rs) stats = Ok (n, d') /\
    da_size d' = n /\
    run_reader (deserialize_snapshot_senddata ct n) (contents d')
      = Ok (mkSenddata id n idx (Z.of_nat (length rs)) (map sent_record rs)).
Proof.
  intros Hd Hc Hf Hct Hid Hidx Hm.
  destruct (senddata_dynamic d _ ct id idx rs stats Hf (holds_nil d Hd Hc) Hm) as (d' & E & H').
  exists (18 + Z.of_nat (length (flat_map record_wire rs))), d'. split; [exact E|].
  assert (Hmax : _maxcapability d <= 2 ^ 30) by (destruct Hd as (_ & _ & _ & _ & ?); lia).
  pose proof (length_senddata_wire ct id idx rs) as L.
  split; [unfold da_size; rewrite (holds_size _ _ _ H'), L; lia|].
  destruct H' as [_ _ ->]. unfold run_reader. rewrite <- (app_nil_r (senddata_wire _ _ _ _)).
  rewrite (senddata_reads ct id idx rs _ Hf Hct Hid Hidx); [reflexivity|rewrite L; lia|lia].
Qed.

(** A deletion in the switch does not reach the server's snapshot: a record
    that the controller sends with status false and a sequence number is read
    by the server with status true, so the deleted key is part of the snapshot. *)
Theorem senddata_revives_deleted (d : DynamicArray) (ct id idx : Z) (k : Key) (v : Val) (seq : Z) :
  da_wf d -> _cursize d = 0 -> 200 <= _maxcapability d ->
  is_s32 ct -> is_s32 id -> is_u16 idx -> key_wf k -> small_val v -> is_u32 seq -> seq <> 0 ->
  exists n d',
    dynamic_serialize_snapshot_senddata d ct id idx 1 [k] [v] [seq] [false] = Ok (n, d') /\
    run_reader (deserialize_snapshot_senddata ct n) (contents d')
      = Ok (mkSenddata id n idx 1 [(k, mkSnapshotRecord v seq true)]).
Proof.
  intros Hd Hc Hm Hct Hid Hidx Hk Hv Hq Hnz. set (r := (k, mkSnapshotRecord v seq false)).
  assert (Hf : Forall wire_record_wf [r]) by (constructor; [exact (conj Hk (conj Hv Hq))|constructor]).
  destruct (senddata_dynamic d _ ct id idx [r] [false] Hf (holds_nil d Hd Hc)) as (d' & E & H').
  { cbn [flat_map app length]. rewrite app_nil_r, length_record_wire. destruct Hv as [Hv Hl].
    pose proof (val_wf_length v Hv). pose proof (get_padding_size_range (val_length v) ltac:(lia)).
    pose proof (val_wire_size_eq v Hv). unfold SWITCH_MAX_VALLEN in *. cbn [r fst snd sr_val]. lia. }
  assert (Hmax : _maxcapability d <= 2 ^ 30) by (destruct Hd as (_ & _ & _ & _ & ?); lia).
  pose proof (holds_size _ _ _ H') as Hsz. destruct H' as [W' M' C'].
  assert (_cursize d' <= _maxcapability d') by (destruct W' as (_ & ? & _ & ? & _); lia).
  eexists _, d'. split; [exact E|]. rewrite C'.
  assert (Hs1 : sent_record r = (k, mkSnapshotRecord v seq true)).
  { unfold sent_record, r; cbn [fst snd sr_val sr_seq]. now rewrite (proj2 (Z.eqb_neq seq 0) Hnz). }
  unfold run_reader. rewrite <- (app_nil_r (senddata_wire _ _ _ _)).
  rewrite (senddata_reads ct id idx [r] _ Hf Hct Hid Hidx); [now cbn [map]; rewrite Hs1| |].
  - rewrite length_senddata_wire. lia.
  - rewrite length_senddata_wire in Hsz. lia.
Qed.

(** ** GETDATA_ACK *)

(** The records of server [i], in the order of the pipelines. *)
Definition of_server (i : nat) (rs : list InswitchRecord) : list (Key * SnapshotRecord) :=
  map (fun r => (ir_key r, ir_record r))
    (List.filter (fun r => Nat.eqb (Z.to_nat (ir_serveridx r)) i) rs).

Record buf_holds (b : SendBuf) (rs : list (Key * SnapshotRecord)) : Prop := {
  bh_holds : holds (sb_sendbuf b) MAX_LARGE_BUFSIZE (flat_map record_wire rs);
  bh_bytes : sb_send_bytes b = Z.of_nat (length (flat_map record_wire rs));
  bh_cnt : sb_record_cnt b = Z.of_nat (length rs)
}.

Lemma getdata_record_ok r b rs :
  wire_record_wf (ir_key r, ir_record r) -> buf_holds b rs ->
  Z.of_nat (length (flat_map record_wire (rs ++ [(ir_key r, ir_record r)]))) <= MAX_LARGE_BUFSIZE ->
  exists b', getdata_record r b = Ok b' /\ buf_holds b' (rs ++ [(ir_key r, ir_record r)]).
Proof.
  intros (Hk & (Hv & Hl) & Hq) [H Hb Hc] Hm. cbn [fst snd] in *.
  rewrite flat_map_app in Hm. cbn [flat_map] in Hm. rewrite app_nil_r, length_app, length_record_wire in Hm.
  cbn [fst snd] in Hm. unfold getdata_record, SWITCH_MAX_VALLEN in *. destruct b as [d n c].
  cbn [sb_sendbuf sb_send_bytes sb_record_cnt] in *.
  ho_field (Key_dynamic_serialize_appends (ir_key r) Hk).
  ho_field (Val_dynamic_serialize_small_appends (sr_val (ir_record r)) Hv ltac:(lia)).
  do 2 ho_memcpy.
  eexists. split; [reflexivity|]. constructor; cbn [sb_sendbuf sb_send_bytes sb_record_cnt].
  - rewrite flat_map_app. cbn [flat_map]. rewrite app_nil_r. unfold record_wire; cbn [fst snd].
    rewrite <- !app_assoc in *. exact H.
  - rewrite flat_map_app. cbn [flat_map]. rewrite app_nil_r, length_app, length_record_wire.
    cbn [fst snd]. lia.
  - rewrite length_app. cbn [length]. lia.
Qed.

Lemma getdata_distribute_ok rs : forall (f : nat -> list (Key * SnapshotRecord)) bufs,
  Forall (fun r => wire_record_wf (ir_key r, ir_record r) /\
                   0 <= ir_serveridx r < Z.of_nat (length bufs)) rs ->
  (forall i b, bufs !! i = Some b -> buf_holds b (f i)) ->
  (forall i, (i < length bufs)%nat ->
     Z.of_nat (length (flat_map record_wire (f i ++ of_server i rs))) <= MAX_LARGE_BUFSIZE) ->
  exists bufs', getdata_distribute rs bufs = Ok bufs' /\ length bufs' = length bufs /\
    forall i b, bufs' !! i = Some b -> buf_holds b (f i ++ of_server i rs).
Proof.
  induction rs as [|r rs IH]; intros f bufs Hf Hb Hm.
  - exists bufs. split; [reflexivity|]. split; [reflexivity|].
    intros i b E. cbn. rewrite app_nil_r. now apply Hb.
  - apply Forall_cons_iff in Hf as [[Hr Hi] Hf]. cbn [getdata_distribute].
    set (j := Z.to_nat (ir_serveridx r)) in *.
    destruct (lookup_lt_is_Some_2 bufs j) as [b Eb]; [unfold j; lia|]. rewrite Eb.
    assert (Hof : forall i, of_server i (r :: rs) =
      if decide (i = j) then (ir_key r, ir_record r) :: of_server i rs else of_server i rs).
    { intros i. unfold of_server. cbn [List.filter]. fold j. case_decide as E.
      - subst i. now rewrite Nat.eqb_refl.
      - now rewrite (proj2 (Nat.eqb_neq j i)) by congruence. }
    destruct (getdata_record_ok r b (f j) Hr (Hb _ _ Eb)) as (b' & E & Hb').
    { specialize (Hm j ltac:(unfold j; lia)). rewrite Hof, decide_True in Hm by reflexivity.
      rewrite cons_middle, app_assoc, flat_map_app, length_app in Hm. lia. }
    rewrite E. cbn [mbind res_bind].
    destruct (IH (fun i => if decide (i = j) then f i ++ [(ir_key r, ir_record r)] else f i) (<[j:=b']> bufs))
      as (bufs' & E' & L' & H').
    + rewrite length_insert. exact Hf.
    + intros i b0 E0. case_decide as Ei.
      * subst i. rewrite list_lookup_insert_eq in E0 by (apply lookup_lt_is_Some_1; eauto).
        inversion E0; subst. exact Hb'.
      * rewrite list_lookup_insert_ne in E0 by congruence. now apply Hb.
    + intros i Hl. rewrite length_insert in Hl. specialize (Hm i Hl). rewrite Hof in Hm.
      case_decide; [|exact Hm]. now rewrite <- app_assoc.
    + exists bufs'. split; [exact E'|]. split; [now rewrite L', length_insert|].
      intros i b0 E0. specialize (H' i b0 E0). rewrite Hof. case_decide; [|exact H'].
      now rewrite <- app_assoc in H'.
Qed.

Definition server_wire (i : nat) (bwcost : Z) (rs : list (Key * SnapshotRecord)) : list Z :=
  le_bytes 4 (18 + Z.of_nat (length (flat_map record_wire rs))) ++ le_bytes 2 (Z.of_nat i) ++
  le_bytes 4 (Z.of_nat (length rs)) ++ le_bytes 8 bwcost ++ flat_map record_wire rs.

Fixpoint servers_wire (f : nat -> list (Key * SnapshotRecord)) (i : nat) (bwcosts : list Z) : list Z :=
  match bwcosts with
  | [] => []
  | bwcost :: bwcosts' => server_wire i bwcost (f i) ++ servers_wire f (S i) bwcosts'
  end.

Lemma length_server_wire i w rs :
  length (server_wire i w rs) = (18 + length (flat_map record_wire rs))%nat.
Proof. unfold server_wire. rewrite !length_app, !length_le_bytes. lia. Qed.

(** A server after its first field. *)
Lemma getdata_server_rest i w b rs d max pre off :
  buf_holds b rs -> holds d max (pre ++ le_bytes 4 (18 + Z.of_nat (length (flat_map record_wire rs)))) ->
  off = Z.of_nat (length pre) -> off + Z.of_nat (length (server_wire i w rs)) <= max ->
  exists d',
    (d ← dynamic_memcpy d (off + 4) (le_bytes 2 (Z.of_nat i));
     d ← dynamic_memcpy d (off + 6) (le_bytes 4 (sb_record_cnt b));
     d ← dynamic_memcpy d (off + 10) (le_bytes 8 w);
     dynamic_memcpy d (off + 18) (take (Z.to_nat (sb_send_bytes b)) (da_mem (sb_sendbuf b)))) = Ok d' /\
    holds d' max (pre ++ server_wire i w rs).
Proof.
  intros [Hb Eb Ec] H Ho Hm. rewrite length_server_wire in Hm.
  assert (Hc : take (Z.to_nat (sb_send_bytes b)) (da_mem (sb_sendbuf b)) = flat_map record_wire rs).
  { rewrite Eb, <- (holds_size _ _ _ Hb). exact (ho_bytes _ _ _ Hb). }
  clear Hb. rewrite Hc, Ec. do 3 ho_memcpy.
  destruct (holds_memcpy _ _ _ (off + 18) (flat_map record_wire rs) H) as (d' & E & H'); [ho_len; lia..|].
  exists d'. split; [exact E|]. unfold server_wire. rewrite <- !app_assoc in H'. exact H'.
Qed.

Lemma getdata_servers_cons b bufs w bws i d off :
  getdata_servers (b :: bufs) (w :: bws) (Z.of_nat i) d off =
  (d ← dynamic_memcpy d off (le_bytes 4 (sb_send_bytes b + 4 + 2 + 4 + 8));
   d ← (d ← dynamic_memcpy d (off + 4) (le_bytes 2 (Z.of_nat i));
        d ← dynamic_memcpy d (off + 6) (le_bytes 4 (sb_record_cnt b));
        d ← dynamic_memcpy d (off + 10) (le_bytes 8 w);
        dynamic_memcpy d (off + 18) (take (Z.to_nat (sb_send_bytes b)) (da_mem (sb_sendbuf b))));
   getdata_servers bufs bws (Z.of_nat (S i)) d (off + 18 + sb_send_bytes b)).
Proof.
  cbn [getdata_servers]. rewrite Nat2Z.inj_succ. unfold Z.succ.
  destruct (dynamic_memcpy d off _) as [d1|e]; [|reflexivity]. cbn [mbind res_bind].
  repeat (destruct (dynamic_memcpy _ _ _) as [?|?]; [|reflexivity]; cbn [mbind res_bind]).
  reflexivity.
Qed.

Section Servers.
Context (f : nat -> list (Key * SnapshotRecord)) (max : Z).

Lemma getdata_servers_ok bws : forall bufs i d bs off,
  length bufs = length bws -> (forall j b, bufs !! j = Some b -> buf_holds b (f (i + j)%nat)) ->
  holds d max bs -> off = Z.of_nat (length bs) ->
  off + Z.of_nat (length (servers_wire f i bws)) <= max ->
  exists d', getdata_servers bufs bws (Z.of_nat i) d off
      = Ok (off + Z.of_nat (length (servers_wire f i bws)), d') /\
    holds d' max (bs ++ servers_wire f i bws).
Proof using.
  induction bws as [|w bws IH]; intros [|b bufs] i d bs off L Hb H Ho Hm; try discriminate.
  - exists d. cbn. rewrite app_nil_r, Z.add_0_r. auto.
  - rewrite getdata_servers_cons. cbn [servers_wire] in *. rewrite length_app in *.
    pose proof (Hb 0%nat b eq_refl) as Hb0. rewrite Nat.add_0_r in Hb0.
    pose proof (bh_bytes _ _ Hb0) as En. rewrite length_server_wire in *.
    replace (sb_send_bytes b + 4 + 2 + 4 + 8) with (18 + Z.of_nat (length (flat_map record_wire (f i)))) by lia.
    ho_memcpy.
    destruct (getdata_server_rest i w b (f i) _ _ _ off Hb0 H Ho) as (d' & E & H');
      [rewrite length_server_wire; lia|].
    rewrite E. cbn [mbind res_bind].
    assert (Hb' : forall j b', bufs !! j = Some b' -> buf_holds b' (f (S i + j)%nat))
      by (intros j b' E'; rewrite Nat.add_succ_comm; exact (Hb (S j) b' E')).
    edestruct (IH bufs (S i) d' (bs ++ server_wire i w (f i)) (off + 18 + sb_send_bytes b)
      ltac:(now inversion L) Hb' H') as (d2 & E2 & H2).
    + rewrite length_app, length_server_wire. lia.
    + lia.
    + exists d2. rewrite E2, <- app_assoc in *. split; [f_equal; f_equal; lia|exact H2].
Qed.

(** The first server is written behind the gap for the message header. *)
Lemma getdata_servers_gap w bws bufs d :
  length bufs = S (length bws) -> (forall j b, bufs !! j = Some b -> buf_holds b (f j)) ->
  holds d max [] -> 8 + Z.of_nat (length (servers_wire f 0 (w :: bws))) <= max ->
  exists d' gap, getdata_servers bufs (w :: bws) 0 d 8
      = Ok (8 + Z.of_nat (length (servers_wire f 0 (w :: bws))), d') /\ length gap = 8%nat /\
    holds d' max (gap ++ servers_wire f 0 (w :: bws)).
Proof using.
  intros L Hb H Hm. destruct bufs as [|b bufs]; [discriminate|].
  change 0 with (Z.of_nat 0) at 1. rewrite getdata_servers_cons. cbn [servers_wire] in *.
  rewrite length_app in *. pose proof (Hb 0%nat b eq_refl) as Hb0.
  pose proof (bh_bytes _ _ Hb0) as En. rewrite length_server_wire in *.
  replace (sb_send_bytes b + 4 + 2 + 4 + 8) with (18 + Z.of_nat (length (flat_map record_wire (f 0%nat)))) by lia.
  destruct (holds_gap _ _ _ 8 (le_bytes 4 (18 + Z.of_nat (length (flat_map record_wire (f 0%nat))))) H)
    as (d1 & gap & E1 & H1 & Hg); [cbn; lia|ho_len; lia|].
  rewrite E1. cbn [mbind res_bind app length] in *.
  destruct (getdata_server_rest 0 w b (f 0%nat) _ _ _ 8 Hb0 H1) as (d2 & E2 & H2);
    [lia|rewrite length_server_wire; lia|].
  rewrite E2. cbn [mbind res_bind].
  edestruct (getdata_servers_ok bws bufs 1 d2 (gap ++ server_wire 0 w (f 0%nat)) (8 + 18 + sb_send_bytes b)
    ltac:(now inversion L) (fun j b' E' => Hb (S j) b' E') H2) as (d3 & E3 & H3).
  - rewrite length_app, length_server_wire. lia.
  - lia.
  - exists d3, gap. rewrite E3. split; [f_equal; f_equal; lia|]. split; [lia|].
    now rewrite <- app_assoc in H3.
Qed.

Definition server_data (i : nat) (bwcost : Z) : ServerData :=
  mkServerData (18 + Z.of_nat (length (flat_map record_wire (f i)))) (Z.of_nat i)
    (Z.of_nat (length (f i))) bwcost (f i).

Fixpoint servers_data (i : nat) (bwcosts : list Z) : list ServerData :=
  match bwcosts with
  | [] => []
  | bwcost :: bwcosts' => server_data i bwcost :: servers_data (S i) bwcosts'
  end.

Context (Hf : forall i, Forall wire_record_wf (f i)).

Lemma read_server_reads i w size pos :
  is_u16 (Z.of_nat i) -> 0 <= w < 2 ^ 64 -> 0 <= pos ->
  pos + Z.of_nat (length (server_wire i w (f i))) <= size < 2 ^ 31 ->
  reads (read_server size) pos (server_wire i w (f i)) (server_data i w).
Proof using Hf.
  intros Hi Hw Hp Hs. rewrite length_server_wire in Hs. pose proof (length_records_ge (f i)) as Hge.
  unfold read_server, server_wire, server_data. apply reads_int.
  eapply reads_bind; [now apply reads_u16|]. rd_len. apply reads_int.
  eapply reads_bind; [now apply reads_u64|]. rd_len.
  rewrite !s32_u32 by (unfold is_s32; lia). rewrite Nat2Z.id.
  rewrite <- (app_nil_r (flat_map record_wire (f i))) at 1.
  eapply reads_bind; [apply read_records_reads; [apply Hf|lia|lia]|]. apply reads_ret.
Qed.

Lemma read_servers_reads bws : forall fuel i size total pos,
  Forall (fun w => 0 <= w < 2 ^ 64) bws -> (length bws <= fuel)%nat ->
  Z.of_nat i + Z.of_nat (length bws) <= 2 ^ 16 -> 0 <= pos ->
  total = pos + Z.of_nat (length (servers_wire f i bws)) -> total <= size < 2 ^ 31 ->
  reads (read_servers fuel size total) pos (servers_wire f i bws) (servers_data i bws).
Proof using Hf.
  induction bws as [|w bws IH]; intros fuel i size total pos Hw Hl Hi Hp Ht Hs.
  - cbn [servers_wire servers_data length] in *. rewrite <- (app_nil_r []).
    destruct fuel; cbn [read_servers]; (eapply reads_bind; [apply reads_off; lia|]);
      (rewrite (proj2 (Z.ltb_ge _ _)) by lia); apply reads_ret.
  - apply Forall_cons_iff in Hw as [Hw0 Hw]. cbn [servers_wire servers_data length] in *.
    rewrite length_app in Ht. pose proof (length_server_wire i w (f i)) as Hsw.
    destruct fuel as [|fuel]; [lia|]. cbn [read_servers].
    rewrite <- (app_nil_l (server_wire i w (f i) ++ _)).
    eapply reads_bind; [apply reads_off; lia|]. cbn [length]. rewrite (proj2 (Z.ltb_lt _ _)) by lia.
    eapply reads_bind; [apply read_server_reads; [unfold is_u16; lia|exact Hw0|lia|lia]|].
    rewrite <- (app_nil_r (servers_wire f (S i) bws)).
    eapply reads_bind; [apply IH; [exact Hw|lia..]|]. apply reads_ret.
Qed.
End Servers.

Lemma servers_wire_ge f bws : forall i k,
  (k < length bws)%nat -> (18 + length (flat_map record_wire (f (i + k)%nat)) <= length (servers_wire f i bws))%nat.
Proof.
  induction bws as [|w bws IH]; intros i k Hk; cbn [length servers_wire] in *; [lia|].
  rewrite length_app, length_server_wire. destruct k as [|k]; [rewrite Nat.add_0_r; lia|].
  specialize (IH (S i) k ltac:(lia)). rewrite (Nat.add_succ_comm i k) in IH. lia.
Qed.

Lemma length_servers_wire_ge f bws : forall i, (length bws <= length (servers_wire f i bws))%nat.
Proof.
  induction bws as [|w bws IH]; intros i; cbn [length servers_wire]; [lia|].
  rewrite length_app, length_server_wire. specialize (IH (S i)). lia.
Qed.

Lemma of_server_wf rs i :
  Forall (fun r => wire_record_wf (ir_key r, ir_record r)) rs -> Forall wire_record_wf (of_server i rs).
Proof.
  intros H. unfold of_server. apply Forall_map. induction H as [|r rs Hr _ IH]; cbn [List.filter]; [constructor|].
  destruct (Nat.eqb _ _); [constructor; assumption|assumption].
Qed.

Lemma getdata_ack_reads f ct bws :
  (forall i, Forall wire_record_wf (f i)) -> is_s32 ct -> Forall (fun w => 0 <= w < 2 ^ 64) bws ->
  Z.of_nat (length bws) < 2 ^ 16 -> 8 + Z.of_nat (length (servers_wire f 0 bws)) < 2 ^ 31 ->
  let total := 8 + Z.of_nat (length (servers_wire f 0 bws)) in
  reads (deserialize_snapshot_getdata_ack ct total) 0
    (le_bytes 4 ct ++ le_bytes 4 total ++ servers_wire f 0 bws) (servers_data f 0 bws).
Proof.
  intros Hf Hct Hw Hn Hm total. unfold deserialize_snapshot_getdata_ack. apply reads_int.
  rewrite (s32_u32 ct Hct). apply reads_check_bind; [apply Z.eqb_refl|]. apply reads_int.
  rewrite !s32_u32 by (unfold is_s32, total; lia). apply reads_check_bind; [apply Z.eqb_refl|].
  pose proof (length_servers_wire_ge f bws 0) as Hge. unfold total.
  apply read_servers_reads; [exact Hf|exact Hw|lia..].
Qed.

Lemma getdata_ack_run f ct bws :
  (forall i, Forall wire_record_wf (f i)) -> is_s32 ct -> Forall (fun w => 0 <= w < 2 ^ 64) bws ->
  Z.of_nat (length bws) < 2 ^ 16 -> 8 + Z.of_nat (length (servers_wire f 0 bws)) < 2 ^ 31 ->
  let total := 8 + Z.of_nat (length (servers_wire f 0 bws)) in
  run_reader (deserialize_snapshot_getdata_ack ct total)
    (le_bytes 4 ct ++ le_bytes 4 total ++ servers_wire f 0 bws) = Ok (servers_data f 0 bws).
Proof.
  intros Hf Hct Hw Hn Hm total. unfold run_reader, total.
  now rewrite <- (app_nil_r (le_bytes 4 ct ++ _)), (getdata_ack_reads f ct bws).
Qed.

(** The arrays the records are distributed to. *)
Lemma getdata_fresh : exists d1,
  (forall A (k : DynamicArray -> res A),
     (d0 ← DynamicArray_new MAX_BUFSIZE MAX_LARGE_BUFSIZE; d0 ← clear d0; k d0) = k d1) /\
  holds d1 MAX_LARGE_BUFSIZE [].
Proof.
  destruct (DynamicArray_new_wf MAX_BUFSIZE MAX_LARGE_BUFSIZE) as (d0 & E0 & W0 & _ & M0);
    [unfold MAX_BUFSIZE, MAX_LARGE_BUFSIZE; lia..|].
  destruct (clear_wf d0 W0) as (d1 & E1 & W1 & C1 & M1 & _). exists d1. split.
  - intros A k. rewrite E0. cbn [mbind res_bind]. rewrite E1. reflexivity.
  - constructor; [exact W1|congruence|exact C1].
Qed.

(** The header is written last, in front of the servers. *)
Lemma getdata_header d max ct gap W :
  holds d max (gap ++ W) -> length gap = 8%nat ->
  exists d',
    (forall A (k : DynamicArray -> res A),
       (d ← dynamic_memcpy d 0 (le_bytes 4 ct);
        d ← dynamic_memcpy d 4 (le_bytes 4 (8 + Z.of_nat (length W))); k d) = k d') /\
    holds d' max (le_bytes 4 ct ++ le_bytes 4 (8 + Z.of_nat (length W)) ++ W).
Proof.
  intros H Hg. destruct gap as [|g0 [|g1 [|g2 [|g3 gap']]]]; try discriminate. cbn [length] in Hg.
  destruct (holds_overwrite d max [] [g0; g1; g2; g3] (gap' ++ W) (le_bytes 4 ct) 0)
    as (d3 & E3 & H3); [exact H|reflexivity|reflexivity|].
  destruct (holds_overwrite d3 max (le_bytes 4 ct) gap' W (le_bytes 4 (8 + Z.of_nat (length W))) 4)
    as (d4 & E4 & H4); [exact H3|reflexivity|rewrite length_le_bytes; lia|].
  exists d4. split; [|exact H4]. intros A k. rewrite E3. cbn [mbind res_bind]. now rewrite E4.
Qed.

(** The in-switch records the switch OS reports with SNAPSHOT_GETDATA_ACK reach
    the controller sorted by server: whatever pipelines the records were found
    in, the controller reads for every server, in order of the server indexes,
    exactly its records in the order of the pipelines, with keys, values,
    sequence numbers and statuses, their number and size, and its bandwidth cost. *)
Lemma getdata_ack_ok (d : DynamicArray) (ct : Z) (n : nat) (pipelines : list (list InswitchRecord))
    (bwcosts : list Z) :
  let rs := concat pipelines in
  let f := fun i => of_server i rs in
  da_wf d -> _cursize d = 0 -> is_s32 ct -> (0 < n)%nat -> Z.of_nat n < 2 ^ 16 ->
  length bwcosts = n -> Forall (fun w => 0 <= w < 2 ^ 64) bwcosts ->
  Forall (fun r => wire_record_wf (ir_key r, ir_record r) /\ 0 <= ir_serveridx r < Z.of_nat n) rs ->
  8 + Z.of_nat (length (servers_wire f 0 bwcosts)) <= MAX_LARGE_BUFSIZE <= _maxcapability d ->
  exists total d',
    dynamic_serialize_snapshot_getdata_ack d ct n pipelines bwcosts = Ok (total, d') /\
    Z.of_nat (length (contents d')) = total /\ total <= MAX_LARGE_BUFSIZE /\
    run_reader (deserialize_snapshot_getdata_ack ct total) (contents d') = Ok (servers_data f 0 bwcosts).
Proof.
  intros rs f Hd Hc Hct Hn Hn16 Hl Hw Hrs Hm.
  destruct getdata_fresh as (d1 & E1 & H1). unfold dynamic_serialize_snapshot_getdata_ack.
  rewrite E1. clear E1. fold rs.
  destruct (getdata_distribute_ok rs (fun _ => []) (replicate n (mkSendBuf d1 0 0))) as (bufs & E & L & Hb).
  - rewrite length_replicate. exact Hrs.
  - intros i b Hi. apply lookup_replicate in Hi as [-> _]. now constructor.
  - intros i Hi. rewrite length_replicate in Hi. cbn [app].
    pose proof (servers_wire_ge f bwcosts 0 i ltac:(lia)) as Hge. cbn [Nat.add] in Hge. unfold f in Hge at 1. lia.
  - rewrite length_replicate in L. rewrite E. cbn [mbind res_bind app] in *.
    destruct bwcosts as [|w bws]; [cbn in Hl; lia|]. cbn [length] in Hl.
    destruct (getdata_servers_gap f (_maxcapability d) w bws bufs d) as (d2 & gap & E2 & Hg & H2);
      [lia|exact Hb|apply holds_nil; assumption|lia|].
    rewrite E2. cbn [mbind res_bind]. set (W := servers_wire f 0 (w :: bws)) in *.
    destruct (getdata_header d2 _ ct gap W H2 Hg) as (d4 & E4 & H4).
    exists (8 + Z.of_nat (length W)), d4. split.
    + rewrite E4. now rewrite INVARIANT_true by lia.
    + rewrite (ho_bytes _ _ _ H4), !length_app, !length_le_bytes.
      split; [lia|]. split; [lia|]. apply getdata_ack_run; unfold MAX_LARGE_BUFSIZE in *;
        [|assumption..|cbn [length]; lia|fold W; lia].
      intros i. apply of_server_wf. eapply Forall_impl; [|exact Hrs]. now intros r [? _].
Qed.

(** ** Signals *)

(** A control signal is read back with its type and its snapshot id, also when
    these are the negative values of an unconfigured control type or of no
    snapshot. *)
Lemma codec_SnapshotSignal s max_size recv_size pos :
  is_s32 (sig_control_type s) -> is_s32 (sig_snapshotid s) ->
  8 <= max_size < 2 ^ 64 -> 8 <= recv_size < 2 ^ 64 ->
  codec (SnapshotSignal_serialize s max_size) (SnapshotSignal_deserialize recv_size) pos 8 8 s.
Proof.
  intros Hc Hi Hm Hr. unfold SnapshotSignal_serialize, SnapshotSignal_deserialize, u64.
  rewrite !Z.mod_small by lia. apply codec_wcheck; [pk_cond|]. apply codec_rcheck; [pk_cond|].
  unfold w_u32. rewrite <- (le_bytes_u32 (sig_control_type s)), <- (le_bytes_u32 (sig_snapshotid s)).
  apply (codec_weaken _ _ _ (4 + 4) _ 8 _ s); [|reflexivity..].
  eapply codec_bind; [apply codec_u32, u32_range|].
  eapply codec_wret; [eapply codec_rlast; [apply codec_u32, u32_range|]|reflexivity].
  rewrite !s32_u32 by assumption. now destruct s.
Qed.

(** ** Concrete messages *)

Definition demo_record (seq : Z) (stat : bool) : SnapshotRecord := mkSnapshotRecord demo_val seq stat.

Lemma demo_record_wf n seq stat :
  is_u32 n -> is_u32 seq -> wire_record_wf (key_of n, demo_record seq stat).
Proof.
  intros Hn Hs. split; [|split; [exact demo_val_small|exact Hs]].
  unfold key_wf, key_of, is_u32 in *; cbn; lia.
Qed.

Definition demo_records : list (Key * SnapshotRecord) :=
  [(key_of 1, demo_record 7 true); (key_of 2, demo_record 8 false)].

Lemma demo_records_wf : Forall wire_record_wf demo_records.
Proof.
  apply List.Forall_forall. intros x [<-|[<-|[]]]; apply demo_record_wf; unfold is_u32; lia.
Qed.

Lemma senddata_received_witness :
  exists n d',
    dynamic_serialize_snapshot_senddata demo_array 11 3 5 2 [key_of 1; key_of 2] [demo_val; demo_val]
      [7; 8] [true; false] = Ok (n, d') /\
    da_size d' = n /\
    run_reader (deserialize_snapshot_senddata 11 n) (contents d')
      = Ok (mkSenddata 3 n 5 2 [(key_of 1, demo_record 7 true); (key_of 2, demo_record 8 true)]).
Proof.
  apply (senddata_received demo_array 11 3 5 demo_records [true; false]).
  - exact demo_array_wf.
  - reflexivity.
  - exact demo_records_wf.
  - unfold is_s32; lia.
  - unfold is_s32; lia.
  - unfold is_u16; lia.
  - vm_compute. discriminate.
Defined.

Lemma senddata_revives_deleted_witness :
  exists n d',
    dynamic_serialize_snapshot_senddata demo_array 11 3 5 1 [key_of 2] [demo_val] [8] [false] = Ok (n, d') /\
    run_reader (deserialize_snapshot_senddata 11 n) (contents d')
      = Ok (mkSenddata 3 n 5 1 [(key_of 2, mkSnapshotRecord demo_val 8 true)]).
Proof.
  apply (senddata_revives_deleted demo_array 11 3 5 (key_of 2) demo_val 8).
  - exact demo_array_wf.
  - reflexivity.
  - vm_compute. discriminate.
  - unfold is_s32; lia.
  - unfold is_s32; lia.
  - unfold is_u16; lia.
  - unfold key_wf, key_of, is_u32; cbn; lia.
  - exact demo_val_small.
  - unfold is_u32; lia.
  - discriminate.
Defined.

Definition demo_large_array : DynamicArray := mkDynamicArray 0 8 (Some (replicate 8 0)) 8 MAX_LARGE_BUFSIZE.

Lemma demo_large_array_wf : da_wf demo_large_array.
Proof.
  unfold da_wf, demo_large_array, MAX_LARGE_BUFSIZE.
  cbn [_array _cursize _curcapability _mincapability _maxcapability].
  split; [exists (replicate 8 0); split; reflexivity|lia].
Qed.
