(* ===== verification/PacketServer.v ===== *)
(** * The other packets of a server (common/packet_format_impl.h)

    The constructors by which a server reads its requests and makes its
    responses, and the packets for values of more than 128 bytes. *)

From Stdlib Require Import ZArith Lia List.
From stdpp Require Import base tactics list numbers option.
From S2P Require Import Prelude Cursor DynamicArray StdMap Crc32 Key Val DeletedSet Packet PacketCodec PacketCache PacketScan.

Open Scope Z_scope.

(** ** More packet types *)

Definition LOADREQ : Z := 0x0310.
Definition LOADACK : Z := 0x00e0.
Definition PUTREQ_LARGEVALUE : Z := 0x02d0.
Definition PUTREQ_LARGEVALUE_SEQ : Z := 0x0032.
Definition PUTREQ_LARGEVALUE_SEQ_CASE3 : Z := 0x0052.
Definition PUTREQ_SEQ_BEINGEVICTED : Z := 0x0053.
Definition PUTREQ_SEQ_CASE3_BEINGEVICTED : Z := 0x0063.
Definition DELREQ_SEQ_BEINGEVICTED : Z := 0x0062.
Definition DELREQ_SEQ_CASE3_BEINGEVICTED : Z := 0x0072.
Definition PUTREQ_LARGEVALUE_SEQ_BEINGEVICTED : Z := 0x0082.
Definition PUTREQ_LARGEVALUE_SEQ_CASE3_BEINGEVICTED : Z := 0x0092.
Definition GETREQ_BEINGEVICTED_RECORD : Z := 0x007b.
Definition GETREQ_LARGEVALUEBLOCK_RECORD : Z := 0x008b.
Definition GETRES_LARGEVALUE : Z := 0x0300.
Definition GETRES_LARGEVALUE_SEQ : Z := 0x0350.

(** [methodid == FARREACH_ID || methodid == DISTFARREACH_ID]. *)
Definition is_farreach (methodid : Z) : bool := (methodid =? FARREACH_ID) || (methodid =? DISTFARREACH_ID).

(** ** Constructors from a received buffer *)

(** [GetRequest(methodid, data, recv_size)]. *)
Definition GetRequest_parse (methodid recv_size : Z) : reader GetRequest :=
  p ← GetRequest_deserialize methodid recv_size;
  _ ← r_check (p_type (gr_base p) =? GETREQ);
  mret p.

(** [GetRequestPOP] and [GetRequestNLatest]. *)
Definition GetRequestPOP_parse (methodid recv_size : Z) : reader GetRequest :=
  _ ← r_check (is_farreach methodid);
  p ← GetRequest_deserialize methodid recv_size;
  _ ← r_check (p_type (gr_base p) =? GETREQ_POP);
  mret p.

Definition GetRequestNLatest_parse (methodid recv_size : Z) : reader GetRequest :=
  _ ← r_check (is_farreach methodid);
  p ← GetRequest_deserialize methodid recv_size;
  _ ← r_check (p_type (gr_base p) =? GETREQ_NLATEST);
  mret p.

(** [PutRequestPopSeq], [PutRequestSeqCase3], [PutRequestPopSeqCase3],
    [PutRequestSeqBeingevicted] and [PutRequestSeqCase3Beingevicted], by type. *)
Definition PutRequestSeq_sub_parse (type methodid recv_size : Z) : reader PutRequestSeq :=
  _ ← r_check (is_farreach methodid);
  PutRequestSeq_parse type methodid recv_size.

(** [DelRequestSeq]. *)
Definition DelRequestSeq_parse (methodid recv_size : Z) : reader DelRequestSeq :=
  p ← DelRequestSeq_deserialize methodid recv_size;
  _ ← r_check (p_type (ds_base p) =? DELREQ_SEQ);
  mret p.

(** [DelRequestSeqCase3], [DelRequestSeqBeingevicted] and
    [DelRequestSeqCase3Beingevicted], by type. *)
Definition DelRequestSeq_sub_parse (type methodid recv_size : Z) : reader DelRequestSeq :=
  _ ← r_check (is_farreach methodid);
  p ← DelRequestSeq_deserialize methodid recv_size;
  _ ← r_check (p_type (ds_base p) =? type);
  _ ← r_check (0 <=? ds_seq p);
  mret p.

(** [ScanRequestSplit(methodid, data, recv_size)]. *)
Definition ScanRequestSplit_parse (methodid recv_size : Z) : reader ScanRequestSplit :=
  p ← ScanRequestSplit_deserialize methodid recv_size;
  _ ← r_check (p_type (sq_base (ss_scan p)) =? SCANREQ_SPLIT);
  mret p.

(** [WarmupRequest(methodid, data, recv_size)]. *)
Definition WarmupRequest_parse (methodid recv_size : Z) : reader Packet :=
  p ← WarmupRequest_deserialize methodid recv_size;
  _ ← r_check (p_type p =? WARMUPREQ);
  mret p.

(** [GetResponseSeq(methodid, data, recv_size)] of the client, and the two
    requests that have its format, [GetRequestBeingevictedRecord] and
    [GetRequestLargevalueblockRecord]. *)
Definition GetResponseSeq_parse (type methodid recv_size : Z) : reader GetResponseSeq :=
  _ ← r_check (is_farreach methodid);
  p ← GetResponseSeq_deserialize methodid recv_size;
  _ ← r_check (p_type (gp_base (gs_resp p)) =? type);
  _ ← r_check (val_length (gp_val (gs_resp p)) <=? SWITCH_MAX_VALLEN);
  mret p.

(** [PutResponseSeq] and [DelResponseSeq] of the client. *)
Definition PutResponseSeq_parse (type methodid recv_size : Z) : reader PutResponseSeq :=
  _ ← r_check (is_farreach methodid);
  p ← PutResponseSeq_deserialize methodid recv_size;
  _ ← r_check (p_type (pp_base (ps_resp p)) =? type);
  mret p.

(** [CacheEvictCase2(methodid, data, recv_size)]. *)
Definition CacheEvictCase2_parse (methodid recv_size : Z) : reader CachePop :=
  _ ← r_check (is_farreach methodid);
  p ← CacheEvict_deserialize methodid recv_size;
  _ ← r_check (p_type (qs_base (cp_put p)) =? CACHE_EVICT_CASE2);
  _ ← r_check (0 <=? qs_seq (cp_put p));
  _ ← r_check (0 <=? cp_serveridx p);
  mret p.

(** ** Constructors of responses *)

(** [GetResponseSeq(methodid, key, val, seq, stat, nodeidx_foreval)]. *)
Definition GetResponseSeq_new (methodid : Z) (key : Key) (val : Val) (seq : Z) (stat : bool) (nodeidx : Z)
    : res GetResponseSeq :=
  p ← GetResponse_new methodid key val stat nodeidx;
  _ ← INVARIANT (is_farreach methodid);
  _ ← INVARIANT (val_length (gp_val p) <=? SWITCH_MAX_VALLEN);
  _ ← INVARIANT (0 <=? seq);
  Ok (mkGetResponseSeq (mkGetResponse (set_type GETRES_SEQ (gp_base p)) (gp_val p) (gp_stat p)
        (gp_nodeidx_foreval p) (gp_spineload p) (gp_leafload p)) seq).

(** [PutResponseSeq(methodid, key, seq, stat, nodeidx_foreval)]. *)
Definition PutResponseSeq_new (methodid : Z) (key : Key) (seq : Z) (stat : bool) (nodeidx : Z)
    : res PutResponseSeq :=
  _ ← INVARIANT (is_farreach methodid);
  _ ← INVARIANT (0 <=? seq);
  Ok (mkPutResponseSeq (mkPutResponse (set_type PUTRES_SEQ (Packet_new methodid PUTRES key)) stat nodeidx) seq).

(** [DelResponseSeq], derived from [PutResponseSeq]. *)
Definition DelResponseSeq_new (methodid : Z) (key : Key) (seq : Z) (stat : bool) (nodeidx : Z)
    : res PutResponseSeq :=
  p ← PutResponseSeq_new methodid key seq stat nodeidx;
  _ ← INVARIANT (0 <=? seq);
  Ok (mkPutResponseSeq (mkPutResponse (set_type DELRES_SEQ (pp_base (ps_resp p))) (pp_stat (ps_resp p))
        (pp_nodeidx_foreval (ps_resp p))) (ps_seq p)).

(** [WarmupAck], [LoadAck] and [CacheEvictAck]: a [WarmupRequest] of another type. *)
Definition WarmupRequest_new (methodid : Z) (key : Key) : Packet := Packet_new methodid WARMUPREQ key.
Definition WarmupAck_new (methodid : Z) (key : Key) : Packet :=
  set_type WARMUPACK (WarmupRequest_new methodid key).
Definition LoadAck_new (methodid : Z) (key : Key) : Packet :=
  set_type LOADACK (WarmupRequest_new methodid key).
Definition CacheEvictAck_new (methodid : Z) (key : Key) : Packet :=
  set_type CACHE_EVICT_ACK (WarmupRequest_new methodid key).

(** ** Large values *)

(** [LoadRequest] and [PutRequestLargevalue]: the index of the client and the
    number of the request tell the fragments of large packets apart. *)
Record LargeRequest := mkLargeRequest {
  lr_base : Packet;
  lr_val : Val;
  lr_client_logical_idx : Z;
  lr_fragseq : Z
}.

Definition LoadRequest_new (methodid : Z) (key : Key) (val : Val) (client_logical_idx fragseq : Z)
    : LargeRequest :=
  mkLargeRequest (Packet_new methodid LOADREQ key) (Val_copy val) client_logical_idx fragseq.

Definition PutRequestLargevalue_new (uninit methodid : Z) (key : Key) (val : Val)
    (client_logical_idx fragseq : Z) : res LargeRequest :=
  _ ← INVARIANT (SWITCH_MAX_VALLEN <? val_length val);
  Ok (mkLargeRequest (Packet_new_spineleaf uninit methodid PUTREQ_LARGEVALUE 0 0 key) (Val_copy val)
        client_logical_idx fragseq).

(** [this->_fragseq = ntohs(this->_fragseq)] on a 32-bit field: the argument is
    cut to 16 bits. *)
Definition r_fragseq : reader Z := bs ← r_get 4; mret (ntohs (u16 (le_val bs))).

Definition LoadRequest_serialize (p : LargeRequest) (max_size : Z) : writer Z :=
  _ ← serialize_ophdr (lr_base p) max_size;
  _ ← w_u16be (lr_client_logical_idx p);
  _ ← w_u32be (lr_fragseq p);
  rem ← w_rem max_size;
  _ ← Val_serialize_large (lr_val p) rem;
  w_off.

Definition LoadRequest_deserialize (methodid recv_size : Z) : reader LargeRequest :=
  b ← deserialize_ophdr methodid recv_size;
  client_logical_idx ← r_u16be;
  fragseq ← r_fragseq;
  rem ← r_rem recv_size;
  v ← Val_deserialize_large rem;
  mret (mkLargeRequest b v client_logical_idx fragseq).

Definition LoadRequest_parse (methodid recv_size : Z) : reader LargeRequest :=
  p ← LoadRequest_deserialize methodid recv_size;
  _ ← r_check (p_type (lr_base p) =? LOADREQ);
  mret p.

(** [PutRequestLargevalue::size]. *)
Definition PutRequestLargevalue_size (methodid : Z) : res Z :=
  size ← get_ophdrsize methodid; Ok (size + 2 + 4 + 4 + SWITCH_MAX_VALLEN).

Definition PutRequestLargevalue_serialize (p : LargeRequest) (max_size : Z) : writer Z :=
  my_size ← w_lift (PutRequestLargevalue_size (p_methodid (lr_base p)));
  _ ← w_check (my_size <=? max_size);
  LoadRequest_serialize p max_size.

Definition PutRequestLargevalue_parse (methodid recv_size : Z) : reader LargeRequest :=
  my_size ← r_lift (PutRequestLargevalue_size methodid);
  _ ← r_check (my_size <=? recv_size);
  p ← LoadRequest_deserialize methodid recv_size;
  _ ← r_check (p_type (lr_base p) =? PUTREQ_LARGEVALUE);
  _ ← r_check (SWITCH_MAX_VALLEN <? val_length (lr_val p));
  mret p.

(** [PutRequestLargevalueSeq] and the classes derived from it. *)
Record PutRequestLargevalueSeq := mkPutRequestLargevalueSeq {
  lq_req : LargeRequest;
  lq_seq : Z;
  lq_snapshot_token : Z
}.

Definition PutRequestLargevalueSeq_size (methodid : Z) : res Z :=
  size ← get_ophdrsize methodid;
  let size := size + 2 + 4 + 2 + 4 + 4 + SWITCH_MAX_VALLEN in
  Ok (if methodid =? FARREACH_ID then size + 4 else size).

Definition PutRequestLargevalueSeq_serialize (p : PutRequestLargevalueSeq) (max_size : Z) : writer Z :=
  let b := lr_base (lq_req p) in
  my_size ← w_lift (PutRequestLargevalueSeq_size (p_methodid b));
  _ ← w_check (my_size <=? max_size);
  _ ← serialize_ophdr b max_size;
  rem ← w_rem max_size;
  _ ← serialize_packet_type (p_type b) rem;
  _ ← w_u32be (lq_seq p);
  _ ← (if p_methodid b =? FARREACH_ID then w_u32be (lq_snapshot_token p) else mret tt);
  _ ← w_u16be (lr_client_logical_idx (lq_req p));
  _ ← w_u32be (lr_fragseq (lq_req p));
  rem ← w_rem max_size;
  _ ← Val_serialize_large (lr_val (lq_req p)) rem;
  w_off.

Definition PutRequestLargevalueSeq_deserialize (methodid recv_size : Z) : reader PutRequestLargevalueSeq :=
  my_size ← r_lift (PutRequestLargevalueSeq_size methodid);
  _ ← r_check (my_size <=? recv_size);
  b ← deserialize_ophdr methodid recv_size;
  _ ← r_skip 2;
  seq ← r_u32be;
  token ← (if methodid =? FARREACH_ID then r_u32be else mret 0);
  client_logical_idx ← r_u16be;
  fragseq ← r_fragseq;
  rem ← r_rem recv_size;
  v ← Val_deserialize_large rem;
  mret (mkPutRequestLargevalueSeq (mkLargeRequest b v client_logical_idx fragseq) seq token).

(** The constructor from a received buffer, by the type of its class; the
    derived classes also test the method. *)
Definition PutRequestLargevalueSeq_parse (type methodid recv_size : Z) : reader PutRequestLargevalueSeq :=
  p ← PutRequestLargevalueSeq_deserialize methodid recv_size;
  _ ← r_check (p_type (lr_base (lq_req p)) =? type);
  _ ← r_check (SWITCH_MAX_VALLEN <? val_length (lr_val (lq_req p)));
  mret p.

Definition PutRequestLargevalueSeq_sub_parse (type methodid recv_size : Z) : reader PutRequestLargevalueSeq :=
  _ ← r_check (is_farreach methodid);
  PutRequestLargevalueSeq_parse type methodid recv_size.

(** [GetResponseLargevalueSeq]. *)
Definition GetResponseLargevalueSeq_new (uninit methodid : Z) (key : Key) (val : Val) (seq : Z) (stat : bool)
    (nodeidx : Z) : res GetResponseSeq :=
  _ ← INVARIANT (SWITCH_MAX_VALLEN <? val_length val);
  _ ← INVARIANT (is_farreach methodid);
  Ok (mkGetResponseSeq
        (mkGetResponse (set_type GETRES_LARGEVALUE_SEQ
                          (Packet_new_spineleaf uninit methodid GETRES_LARGEVALUE 0 0 key))
           (Val_copy val) stat nodeidx 0 0) seq).

(** [GetResponseLargevalueSeq::dynamic_serialize]; the padding is counted in the
    returned size but not written. *)
Definition GetResponseLargevalueSeq_dynamic_serialize (p : GetResponseSeq) (d : DynamicArray)
    : res (Z * DynamicArray) :=
  let b := gp_base (gs_resp p) in
  '(tmpoff, d) ← dynamic_serialize_ophdr b d;
  '(n, d) ← Val_dynamic_serialize_large (gp_val (gs_resp p)) d tmpoff;
  let tmpoff := tmpoff + n in
  d ← dynamic_memcpy d tmpoff (le_bytes 4 (htonl (gs_seq p)));
  d ← dynamic_memcpy d (tmpoff + 4) [bool_byte (gp_stat (gs_resp p))];
  d ← dynamic_memcpy d (tmpoff + 4 + 1) (le_bytes 2 (htons (gp_nodeidx_foreval (gs_resp p))));
  pad ← get_stat_padding_bytes (p_methodid b);
  Ok (tmpoff + 4 + 1 + 2 + pad, d).

Definition GetResponseLargevalueSeq_size (methodid : Z) : res Z :=
  size ← get_ophdrsize methodid;
  pad ← get_stat_padding_bytes methodid;
  Ok (size + 4 + SWITCH_MAX_VALLEN + 4 + 1 + 2 + pad).

Definition GetResponseLargevalueSeq_deserialize (methodid recv_size : Z) : reader GetResponseSeq :=
  my_size ← r_lift (GetResponseLargevalueSeq_size methodid);
  _ ← r_check (my_size <=? recv_size);
  b ← deserialize_ophdr methodid recv_size;
  rem ← r_rem recv_size;
  v ← Val_deserialize_large rem;
  seq ← r_u32be;
  '(stat, nodeidx) ← get_stat_hdr methodid;
  if methodid =? DISTCACHE_ID then
    spineload ← r_u32be;
    leafload ← r_u32be;
    mret (mkGetResponseSeq (mkGetResponse b v stat nodeidx spineload leafload) seq)
  else mret (mkGetResponseSeq (mkGetResponse b v stat nodeidx 0 0) seq).

Definition GetResponseLargevalueSeq_parse (methodid recv_size : Z) : reader GetResponseSeq :=
  _ ← r_check (is_farreach methodid);
  p ← GetResponseLargevalueSeq_deserialize methodid recv_size;
  _ ← r_check (p_type (gp_base (gs_resp p)) =? GETRES_LARGEVALUE_SEQ);
  _ ← r_check (SWITCH_MAX_VALLEN <? val_length (gp_val (gs_resp p)));
  mret p.

(** ** What a server sends and reads *)

(** Tests at the end of a constructor that all succeed. *)
Lemma codec_checked {A B C} (w : writer A) (r : reader B) (kr : B -> reader C) pos n a v u :
  codec w r pos n a v -> (forall s, kr v s = Ok (u, s)) -> codec w (r ≫= kr) pos n a u.
Proof.
  intros H E done old rest Hd Ho. destruct (H done old rest Hd Ho) as (bs & Ew & L & R).
  exists bs. repeat split; auto. intros tl. unfold mbind, reader_bind. now rewrite R, E.
Qed.

Lemma farreach_id_valid : valid_method FARREACH_ID.
Proof. unfold valid_method, FARREACH_ID, DISTCACHE_ID. lia. Qed.

Lemma new_packet_wf type k : is_u16 type -> key_wf k -> packet_wf (Packet_new FARREACH_ID type k).
Proof. intros Ht Hk. constructor; cbn; auto using farreach_id_valid; unfold is_u16; lia. Qed.

Lemma farreach_valid m : is_farreach m = true -> valid_method m.
Proof.
  unfold is_farreach, valid_method, FARREACH_ID, DISTFARREACH_ID, DISTCACHE_ID. intros H. lia.
Qed.

(** The responses as the client's constructors read them. *)
Definition GetRes_class (type : Z) : PacketClass GetResponseSeq := {|
  pc_method p := p_methodid (gp_base (gs_resp p));
  pc_wf p := pc_wf GetResponseSeq_class p /\ is_farreach (p_methodid (gp_base (gs_resp p))) = true /\
    p_type (gp_base (gs_resp p)) = type;
  pc_size := pc_size GetResponseSeq_class;
  pc_wire := pc_wire GetResponseSeq_class;
  pc_serialize := GetResponseSeq_serialize;
  pc_deserialize := GetResponseSeq_parse type
|}.

Lemma GetRes_ok type : class_ok (GetRes_class type).
Proof.
  intros p max_size (Hwf & Hm & Ht) Hmax. pose proof (GetResponseSeq_ok p max_size Hwf Hmax) as H.
  class_cbn GetRes_class. unfold GetResponseSeq_parse. apply codec_rcheck; [exact Hm|].
  eapply codec_checked; [exact H|]. intros s. unfold GetResponseSeq_class; cbn [pc_wire gs_resp gp_base gp_val].
  unfold mbind, reader_bind, r_check. rewrite wire_hdr_type, Ht, Z.eqb_refl.
  destruct Hwf as (_ & (_ & Hl) & _). now rewrite (proj2 (Z.leb_le _ _) Hl).
Qed.

Definition PutRes_class (type : Z) : PacketClass PutResponseSeq := {|
  pc_method p := p_methodid (pp_base (ps_resp p));
  pc_wf p := pc_wf PutResponseSeq_class p /\ is_farreach (p_methodid (pp_base (ps_resp p))) = true /\
    p_type (pp_base (ps_resp p)) = type;
  pc_size := pc_size PutResponseSeq_class;
  pc_wire := pc_wire PutResponseSeq_class;
  pc_serialize := PutResponseSeq_serialize;
  pc_deserialize := PutResponseSeq_parse type
|}.

Lemma PutRes_ok type : class_ok (PutRes_class type).
Proof.
  intros p max_size (Hwf & Hm & Ht) Hmax. pose proof (PutResponseSeq_ok p max_size Hwf Hmax) as H.
  class_cbn PutRes_class. unfold PutResponseSeq_parse. apply codec_rcheck; [exact Hm|].
  eapply codec_checked; [exact H|]. intros s. unfold PutResponseSeq_class; cbn [pc_wire ps_resp pp_base].
  unfold mbind, reader_bind, r_check. now rewrite wire_hdr_type, Ht, Z.eqb_refl.
Qed.

(** ** Large requests *)

(** Only the upper half of the request number is read. *)
Lemma codec_fragseq x pos : is_u32 x -> codec (w_u32be x) r_fragseq pos 4 tt (x / 65536).
Proof.
  intros Hx. unfold r_fragseq, w_u32be. apply codec_put_val; [now rewrite length_le_bytes|].
  rewrite le_bytes_htonl. cbn [le_bytes rev app le_val]. unfold u16, ntohs, htons.
  cbn [le_bytes rev app le_val]. unfold is_u32 in Hx. Z.div_mod_to_equations. lia.
Qed.
#[export] Hint Resolve codec_fragseq : codec.

Definition lr_wf (p : LargeRequest) : Prop :=
  packet_wf (lr_base p) /\ val_wf (lr_val p) /\ is_u16 (lr_client_logical_idx p) /\ is_u32 (lr_fragseq p) /\
  Z.of_nat (val_wire_size_large (lr_val p)) < 2 ^ 31.

(** The request as it is read: the number of the request is cut. *)
Definition lr_wire (p : LargeRequest) : LargeRequest :=
  mkLargeRequest (wire_hdr (lr_base p)) (lr_val p) (lr_client_logical_idx p) (lr_fragseq p / 65536).

Definition LoadRequest_class : PacketClass LargeRequest := {|
  pc_method p := p_methodid (lr_base p);
  pc_wf p := lr_wf p /\ p_type (lr_base p) = LOADREQ;
  pc_size p := (hdr_size (p_methodid (lr_base p)) + (2 + (4 + val_wire_size_large (lr_val p))))%nat;
  pc_wire := lr_wire;
  pc_serialize := LoadRequest_serialize;
  pc_deserialize := LoadRequest_parse
|}.

Definition PutLarge_class : PacketClass LargeRequest := {|
  pc_method p := p_methodid (lr_base p);
  pc_wf p := lr_wf p /\ p_type (lr_base p) = PUTREQ_LARGEVALUE /\ SWITCH_MAX_VALLEN < val_length (lr_val p);
  pc_size p := (hdr_size (p_methodid (lr_base p)) + (2 + (4 + val_wire_size_large (lr_val p))))%nat;
  pc_wire := lr_wire;
  pc_serialize := PutRequestLargevalue_serialize;
  pc_deserialize := PutRequestLargevalue_parse
|}.

Definition PutLargeSeq_class (type : Z) : PacketClass PutRequestLargevalueSeq := {|
  pc_method p := p_methodid (lr_base (lq_req p));
  pc_wf p := lr_wf (lq_req p) /\ p_type (lr_base (lq_req p)) = type /\
    SWITCH_MAX_VALLEN < val_length (lr_val (lq_req p)) /\ is_u32 (lq_seq p) /\ is_u32 (lq_snapshot_token p);
  pc_size p := (hdr_size (p_methodid (lr_base (lq_req p))) + (2 + (seq_size (p_methodid (lr_base (lq_req p))) +
    (2 + (4 + val_wire_size_large (lr_val (lq_req p)))))))%nat;
  pc_wire p := mkPutRequestLargevalueSeq (lr_wire (lq_req p)) (lq_seq p)
    (if p_methodid (lr_base (lq_req p)) =? FARREACH_ID then lq_snapshot_token p else 0);
  pc_serialize := PutRequestLargevalueSeq_serialize;
  pc_deserialize := PutRequestLargevalueSeq_parse type
|}.

Ltac lr_cbn := cbn [lr_base lr_val lr_client_logical_idx lr_fragseq lq_req lq_seq lq_snapshot_token] in *.

Lemma codec_LoadRequest p wlen rlen :
  lr_wf p -> let n := pc_size LoadRequest_class p in
  Z.of_nat n <= wlen < 2 ^ 32 -> Z.of_nat n <= rlen < 2 ^ 32 ->
  codec (LoadRequest_serialize p wlen) (LoadRequest_deserialize (p_methodid (lr_base p)) rlen)
    0 n (Z.of_nat n) (lr_wire p).
Proof.
  destruct p as [b v ci fs]. intros (Hwf & Hv & Hc & Hf & Hsz) n Hw Hr. unfold n in *; clear n.
  class_cbn LoadRequest_class. lr_cbn. class_start b Hwf.
  unfold LoadRequest_serialize, LoadRequest_deserialize, lr_wire. lr_cbn. pk_run; reflexivity.
Qed.

Lemma LoadRequest_ok : class_ok LoadRequest_class.
Proof.
  intros p max_size (Hwf & Ht) Hmax. pose proof Hwf as (Hb & _ & _ & _ & Hsz). class_start (lr_base p) Hb.
  assert (Hn : Z.of_nat (pc_size LoadRequest_class p) < 2 ^ 32) by (class_cbn LoadRequest_class; lia).
  pose proof (codec_LoadRequest p max_size (Z.of_nat (pc_size LoadRequest_class p)) Hwf Hmax ltac:(lia)) as H.
  unfold LoadRequest_class at 1 2 3 6; cbn [pc_serialize pc_deserialize pc_method pc_wire].
  unfold LoadRequest_parse. eapply codec_checked; [exact H|]. intros s. unfold lr_wire; lr_cbn.
  unfold mbind, reader_bind, r_check. now rewrite wire_hdr_type, Ht, Z.eqb_refl.
Qed.

Lemma large_size_ge v : val_wf v -> SWITCH_MAX_VALLEN < val_length v ->
  4 + SWITCH_MAX_VALLEN <= Z.of_nat (val_wire_size_large v).
Proof.
  intros Hv Hl. pose proof (val_wf_length v Hv). pose proof (val_wire_size_large_eq v Hv).
  pose proof (get_padding_size_range (val_length v) ltac:(lia)). lia.
Qed.

Lemma PutLarge_ok : class_ok PutLarge_class.
Proof.
  intros p max_size (Hwf & Ht & Hl) Hmax. pose proof Hwf as (Hb & Hv & _ & _ & Hsz). class_start (lr_base p) Hb.
  pose proof (large_size_ge _ Hv Hl) as Hge. class_cbn PutLarge_class.
  pose proof (codec_LoadRequest p max_size
    (Z.of_nat (hdr_size (p_methodid (lr_base p)) + (2 + (4 + val_wire_size_large (lr_val p))))) Hwf
    ltac:(class_cbn LoadRequest_class; lia) ltac:(class_cbn LoadRequest_class; lia)) as H.
  class_cbn LoadRequest_class.
  unfold PutRequestLargevalue_serialize, PutRequestLargevalue_parse, PutRequestLargevalue_size.
  rewrite Hophdr. cbn [mbind res_bind]. eapply codec_wlift; [reflexivity|].
  apply codec_wcheck; [pk_cond|]. eapply codec_rlift; [reflexivity|]. apply codec_rcheck; [pk_cond|].
  eapply codec_checked; [exact H|]. intros s. unfold lr_wire; lr_cbn.
  unfold mbind, reader_bind, r_check. rewrite wire_hdr_type, Ht, Z.eqb_refl.
  now rewrite (proj2 (Z.ltb_lt _ _) Hl).
Qed.

Lemma PutLargeSeq_ok type : class_ok (PutLargeSeq_class type).
Proof.
  intros [[b v ci fs] seq tok] max_size ((Hwf & Hv & Hc & Hf & Hsz) & Ht & Hl & Hs & Htok) Hmax.
  class_cbn PutLargeSeq_class. lr_cbn. class_start b Hwf. pose proof (large_size_ge _ Hv Hl) as Hge.
  pose proof (wire_hdr_type b) as Htw. rewrite Ht in Htw.
  unfold PutRequestLargevalueSeq_serialize, PutRequestLargevalueSeq_parse,
    PutRequestLargevalueSeq_deserialize, PutRequestLargevalueSeq_size, lr_wire, seq_size, SWITCH_MAX_VALLEN in *.
  lr_cbn. rewrite Hophdr. cbn [mbind res_bind].
  destruct (p_methodid b =? FARREACH_ID).
  - pk_run; reflexivity.
  - pk_run; reflexivity.
Qed.

Inductive LargeMessage :=
  | MsgLoad (p : LargeRequest)
  | MsgPutLarge (p : LargeRequest)
  | MsgPutLargeSeq (type : Z) (p : PutRequestLargevalueSeq).

Definition large_wf (x : LargeMessage) : Prop :=
  match x with
  | MsgLoad p => pc_wf LoadRequest_class p
  | MsgPutLarge p => pc_wf PutLarge_class p
  | MsgPutLargeSeq type p => pc_wf (PutLargeSeq_class type) p
  end.

Definition large_travels (x : LargeMessage) : Prop :=
  match x with
  | MsgLoad p => travels LoadRequest_class p
  | MsgPutLarge p => travels PutLarge_class p
  | MsgPutLargeSeq type p => travels (PutLargeSeq_class type) p
  end.

(** The requests with values of any size, LOADREQ, PUTREQ_LARGEVALUE and the
    PUTREQ_LARGEVALUE_SEQ types, are read with the key, the value, the client
    index, the sequence number and the snapshot token they were sent with; of
    the request number only the upper 16 bits arrive. *)
Theorem large_requests_travel (x : LargeMessage) : large_wf x -> large_travels x.
Proof.
  destruct x; intros H; apply class_travels; auto using LoadRequest_ok, PutLarge_ok, PutLargeSeq_ok.
Qed.

(** The number of a large request is lost on the way: the constructor applies
    the 16-bit conversion to the 32-bit field, so that all the first 65536
    requests of a client are read with the number 0. *)
Theorem fragseq_lost (p : LargeRequest) (data : list Z) :
  pc_wf LoadRequest_class p -> lr_fragseq p < 65536 ->
  (pc_size LoadRequest_class p <= length data)%nat -> Z.of_nat (length data) < 2 ^ 32 ->
  exists n data' q,
    run_writer (LoadRequest_serialize p (Z.of_nat (length data))) data = Ok (Z.of_nat n, data') /\
    run_reader (LoadRequest_parse (p_methodid (lr_base p)) (Z.of_nat n)) (take n data') = Ok q /\
    lr_fragseq q = 0.
Proof.
  intros Hp Hf Hl Hd. destruct (class_travels _ _ LoadRequest_ok Hp data Hl Hd) as (data' & E & _ & _ & R).
  exists (pc_size LoadRequest_class p), data'. eexists. split; [exact E|]. split; [exact R|].
  destruct Hp as [(_ & _ & _ & [H0 _] & _) _]. cbn. now apply Z.div_small.
Qed.

(** ** Large responses *)

(** The bytes a server appends for a large response. *)
Definition large_wire (p : GetResponseSeq) : list Z :=
  hdr_wire (gp_base (gs_resp p)) ++ val_wire_large (gp_val (gs_resp p)) ++ be 4 (gs_seq p) ++
  [bool_byte (gp_stat (gs_resp p))] ++ be 2 (gp_nodeidx_foreval (gs_resp p)).

Record large_res_wf (p : GetResponseSeq) : Prop := {
  lw_base : packet_wf (gp_base (gs_resp p));
  lw_method : is_farreach (p_methodid (gp_base (gs_resp p))) = true;
  lw_type : p_type (gp_base (gs_resp p)) = GETRES_LARGEVALUE_SEQ;
  lw_val : val_wf (gp_val (gs_resp p));
  lw_large : SWITCH_MAX_VALLEN < val_length (gp_val (gs_resp p));
  lw_node : is_u16 (gp_nodeidx_foreval (gs_resp p));
  lw_seq : is_u32 (gs_seq p)
}.

Lemma length_large_wire p :
  length (large_wire p) = (hdr_size (p_methodid (gp_base (gs_resp p))) +
    (val_wire_size_large (gp_val (gs_resp p)) + 7))%nat.
Proof.
  unfold large_wire. rewrite !length_app, length_hdr_wire, length_val_wire_large, !length_be.
  cbn [length]. lia.
Qed.

Lemma large_dynamic p d max :
  large_res_wf p -> holds d max [] -> Z.of_nat (length (large_wire p)) <= max ->
  exists d', GetResponseLargevalueSeq_dynamic_serialize p d
      = Ok (Z.of_nat (length (large_wire p)) + 1, d') /\ holds d' max (large_wire p).
Proof.
  intros Hp H Hm. destruct p as [[b v st nd sl ll] seq]. destruct Hp as [Hb Hfr Ht Hv Hl Hn Hs].
  rewrite length_large_wire in *.
  cbn [gs_resp gs_seq gp_base gp_val gp_stat gp_nodeidx_foreval] in *.
  pose proof (stat_padding_ok (pw_method _ Hb)) as Hpad.
  unfold GetResponseLargevalueSeq_dynamic_serialize, large_wire.
  cbn [gs_resp gs_seq gp_base gp_val gp_stat gp_nodeidx_foreval].
  destruct (dynamic_ophdr b d max Hb H ltac:(lia)) as (d1 & E1 & H1). rewrite E1.
  cbn [mbind res_bind]. clear H E1. rename H1 into H.
  ho_field (Val_dynamic_serialize_large_appends v Hv).
  rewrite le_bytes_htonl, le_bytes_htons. fold (be 4 seq) (be 2 nd).
  do 3 ho_memcpy. rewrite Hpad. cbn [mbind res_bind].
  eexists. split; [f_equal; f_equal; lia|]. cbn [app] in *. rewrite <- !app_assoc in *. exact H.
Qed.

Definition large_res_wire (p : GetResponseSeq) : GetResponseSeq :=
  mkGetResponseSeq (mkGetResponse (wire_hdr (gp_base (gs_resp p))) (gp_val (gs_resp p)) (gp_stat (gs_resp p))
    (gp_nodeidx_foreval (gs_resp p)) 0 0) (gs_seq p).

(** The client reads the response whatever the padding byte is. *)
Lemma large_reads p pad rlen :
  large_res_wf p -> Z.of_nat (length (large_wire p)) + 1 <= rlen < 2 ^ 32 ->
  reads (GetResponseLargevalueSeq_parse (p_methodid (gp_base (gs_resp p))) rlen) 0
    (large_wire p ++ [pad]) (large_res_wire p).
Proof.
  intros Hp Hr. rewrite length_large_wire in Hr. destruct p as [[b v st nd sl ll] seq].
  destruct Hp as [Hb Hfr Ht Hv Hl Hn Hs].
  cbn [gs_resp gs_seq gp_base gp_val gp_stat gp_nodeidx_foreval] in *. class_start b Hb.
  pose proof (large_size_ge v Hv Hl) as Hge. pose proof (wire_hdr_type b) as Htw. rewrite Ht in Htw.
  unfold GetResponseLargevalueSeq_parse, GetResponseLargevalueSeq_deserialize, large_wire,
    GetResponseLargevalueSeq_size, large_res_wire, SWITCH_MAX_VALLEN in *.
  cbn [gs_resp gs_seq gp_base gp_val gp_stat gp_nodeidx_foreval].
  rewrite Hophdr, Hpad. cbn [mbind res_bind].
  assert (Hnd : (p_methodid b =? DISTCACHE_ID) = false).
  { unfold is_farreach, FARREACH_ID, DISTFARREACH_ID, DISTCACHE_ID in *. lia. }
  rewrite <- !app_assoc, Hnd. apply reads_check_bind; [exact Hfr|]. rd.
  eapply reads_bind; [apply hdr_reads; [exact Hb|lia]|]. rd_len. rd.
  unfold get_stat_hdr. rewrite Hpad. apply reads_assoc.
  eapply reads_bind; [apply reads_bool|]. cbn [length]. rd.
  rewrite <- (app_nil_r [pad]).
  eapply reads_bind; [apply (reads_skip 1 _ [pad]); [lia|reflexivity]|]. rd.
Qed.

(** ** Concrete requests *)

Definition demo_large_val : Val := mkVal 200 (Some (replicate 200 5)).

Lemma demo_large_val_wf : val_wf demo_large_val.
Proof.
  right. exists (replicate 200 5). split; [reflexivity|]. split; [discriminate|].
  split; [apply Forall_replicate; unfold is_byte; lia|]. vm_compute. reflexivity.
Qed.

Definition demo_large (type fragseq : Z) : LargeRequest :=
  mkLargeRequest (demo_hdr FARREACH_ID type) demo_large_val 3 fragseq.

Lemma demo_large_wf type fragseq : is_u16 type -> is_u32 fragseq -> lr_wf (demo_large type fragseq).
Proof.
  intros Ht Hf. split; [|split; [exact demo_large_val_wf|split; [|split; [exact Hf|]]]].
  - apply demo_hdr_wf; [unfold valid_method, FARREACH_ID, DISTCACHE_ID; lia|exact Ht].
  - unfold is_u16; cbn; lia.
  - vm_compute. reflexivity.
Qed.

Lemma large_requests_travel_witness :
  large_travels (MsgPutLargeSeq PUTREQ_LARGEVALUE_SEQ_CASE3
    (mkPutRequestLargevalueSeq (demo_large PUTREQ_LARGEVALUE_SEQ_CASE3 70000) 9 4)).
Proof.
  apply large_requests_travel. cbn [large_wf]. unfold PutLargeSeq_class; cbn [pc_wf lq_req lq_seq lq_snapshot_token].
  split; [apply demo_large_wf; [unfold is_u16, PUTREQ_LARGEVALUE_SEQ_CASE3; lia|unfold is_u32; lia]|].
  split; [reflexivity|]. split; [reflexivity|]. unfold is_u32; lia.
Defined.

Lemma fragseq_lost_witness :
  exists n data' q,
    run_writer (LoadRequest_serialize (demo_large LOADREQ 77) 300) (replicate 300 0) = Ok (Z.of_nat n, data') /\
    run_reader (LoadRequest_parse FARREACH_ID (Z.of_nat n)) (take n data') = Ok q /\
    lr_fragseq q = 0.
Proof.
  apply (fragseq_lost (demo_large LOADREQ 77) (replicate 300 0)).
  - split; [apply demo_large_wf; unfold is_u16, is_u32, LOADREQ; lia|reflexivity].
  - reflexivity.
  - vm_compute. repeat constructor.
  - reflexivity.
Defined.
