(* ===== verification/PacketSwitch.v ===== *)
(** * Packets between the switch OS and the switch

    The classes of common/packet_format_impl.h that switchos.c sends to the data
    plane through the reflector (populate an entry, set its validity, load a
    frequency, a record or a snapshot record) and the acknowledgements it reads. *)

From Stdlib Require Import ZArith Lia List.
From stdpp Require Import base tactics list numbers option.
From S2P Require Import Prelude Cursor DynamicArray StdMap Crc32 Key Val DeletedSet Packet PacketCodec PacketCache PacketScan Outband PacketServer.

Open Scope Z_scope.

Definition CACHE_EVICT_LOADDATA_INSWITCH_ACK : Z := 0x002b.
Definition CACHE_EVICT_LOADFREQ_INSWITCH : Z := 0x0024.
Definition CACHE_EVICT_LOADDATA_INSWITCH : Z := 0x0034.
Definition LOADSNAPSHOTDATA_INSWITCH : Z := 0x0044.
Definition SETVALID_INSWITCH : Z := 0x0054.
Definition LOADSNAPSHOTDATA_INSWITCH_ACK : Z := 0x006f.
Definition CACHE_POP_INSWITCH_ACK : Z := 0x0070.
Definition CACHE_POP_ACK : Z := 0x00f0.
Definition CACHE_EVICT_LOADFREQ_INSWITCH_ACK : Z := 0x0100.
Definition SETVALID_INSWITCH_ACK : Z := 0x0110.

(** ** Commands *)

(** [CachePopInswitch(methodid, key, val, seq, freeidx, stat)]. *)
Definition CachePopInswitch_new (uninit methodid : Z) (key : Key) (val : Val) (seq freeidx : Z) (stat : bool)
    : res CachePopInswitch :=
  let p := set_qs_type CACHE_POP_INSWITCH (PutRequestSeq_new uninit methodid key val seq) in
  _ ← INVARIANT (val_length (qs_val p) <=? SWITCH_MAX_VALLEN);
  _ ← INVARIANT (0 <=? seq);
  _ ← INVARIANT (0 <=? freeidx);
  Ok (mkCachePopInswitch p freeidx stat).

(** [CacheEvictLoadfreqInswitch] and the two classes that inherit its code,
    [CacheEvictLoaddataInswitch] and [LoadsnapshotdataInswitch]. *)
Record LoadInswitch := mkLoadInswitch { li_base : Packet; li_evictidx : Z }.

Definition LoadInswitch_new (type methodid : Z) (key : Key) (evictidx : Z) : res LoadInswitch :=
  _ ← INVARIANT (is_singleswitch methodid);
  _ ← INVARIANT (0 <=? evictidx);
  Ok (mkLoadInswitch (set_type type (Packet_new methodid CACHE_EVICT_LOADFREQ_INSWITCH key)) evictidx).

Definition LoadInswitch_size (methodid : Z) : res Z :=
  oph ← get_ophdrsize methodid; prev ← get_inswitch_prev_bytes methodid; Ok (oph + 2 + prev + 2).

Definition LoadInswitch_serialize (p : LoadInswitch) (max_size : Z) : writer Z :=
  let b := li_base p in
  my_size ← w_lift (LoadInswitch_size (p_methodid b));
  _ ← w_check (my_size <=? max_size);
  _ ← serialize_ophdr b max_size;
  rem ← w_rem max_size;
  _ ← serialize_packet_type (p_type b) rem;
  prev ← w_lift (get_inswitch_prev_bytes (p_methodid b));
  _ ← w_memset 0 prev;
  _ ← w_u16be (li_evictidx p);
  w_off.

(** [SetvalidInswitch]. *)
Record SetvalidInswitch := mkSetvalidInswitch { si_base : Packet; si_idx : Z; si_validvalue : Z }.

Definition SetvalidInswitch_new (methodid : Z) (key : Key) (idx validvalue : Z) : res SetvalidInswitch :=
  _ ← INVARIANT (is_singleswitch methodid);
  _ ← INVARIANT (0 <=? idx);
  _ ← INVARIANT ((validvalue =? 0) || (validvalue =? 1) || (validvalue =? 3));
  Ok (mkSetvalidInswitch (Packet_new methodid SETVALID_INSWITCH key) idx validvalue).

Definition SetvalidInswitch_size (methodid : Z) : res Z :=
  oph ← get_ophdrsize methodid; prev ← get_inswitch_prev_bytes methodid; Ok (oph + 2 + prev + 2 + 1).

Definition SetvalidInswitch_serialize (p : SetvalidInswitch) (max_size : Z) : writer Z :=
  let b := si_base p in
  my_size ← w_lift (SetvalidInswitch_size (p_methodid b));
  _ ← w_check (my_size <=? max_size);
  _ ← serialize_ophdr b max_size;
  rem ← w_rem max_size;
  _ ← serialize_packet_type (p_type b) rem;
  prev ← w_lift (get_inswitch_prev_bytes (p_methodid b));
  _ ← w_memset 0 prev;
  _ ← w_u16be (si_idx p);
  _ ← w_put [si_validvalue p];
  w_off.

(** [CachePopAck(methodid, key)]. *)
Definition CachePopAck_new (methodid : Z) (key : Key) : Packet :=
  set_type CACHE_POP_ACK (WarmupRequest_new methodid key).

(** [CacheEvictCase2(methodid, key, val, seq, stat, serveridx)]. *)
Definition CacheEvictCase2_new (uninit methodid : Z) (key : Key) (val : Val) (seq : Z) (stat : bool) (serveridx : Z)
    : res CachePop :=
  p ← CacheEvict_new uninit methodid key val seq stat serveridx;
  _ ← INVARIANT ((methodid =? FARREACH_ID) || (methodid =? DISTFARREACH_ID));
  Ok (mkCachePop (set_qs_type CACHE_EVICT_CASE2 (cp_put p)) (cp_stat p) (cp_serveridx p)).

(** ** Acknowledgements *)

(** [CachePopInswitchAck] and [SetvalidInswitchAck]: another type only clears
    [is_valid_]. *)
Definition InswitchAck_parse (type methodid recv_size : Z) : reader (Packet * bool) :=
  p ← WarmupRequest_deserialize methodid recv_size;
  mret (p, p_type p =? type).

(** [CachePopAck] and [CacheEvictAck]: another type ends the process. *)
Definition HostAck_parse (type methodid recv_size : Z) : reader Packet :=
  p ← WarmupRequest_deserialize methodid recv_size;
  _ ← r_check (p_type p =? type);
  mret p.

(** [CacheEvictLoadfreqInswitchAck]: the packet and its frequency. *)
Definition LoadfreqInswitchAck_parse (methodid recv_size : Z) : reader (Packet * Z) :=
  my_size ← r_lift (oph ← get_ophdrsize methodid; Ok (oph + 4));
  _ ← r_check (my_size <=? recv_size);
  b ← deserialize_ophdr methodid recv_size;
  frequency ← r_u32be;
  _ ← r_check (p_type b =? CACHE_EVICT_LOADFREQ_INSWITCH_ACK);
  mret (b, frequency).

(** [CacheEvictLoaddataInswitchAck]. *)
Definition LoaddataInswitchAck_parse (methodid recv_size : Z) : reader (Packet * SnapshotRecord) :=
  b ← deserialize_ophdr methodid recv_size;
  rem ← r_rem recv_size;
  v ← Val_deserialize rem;
  _ ← r_skip 2;
  seq ← get_seq_hdr0 methodid;
  stat ← r_bool;
  _ ← r_check (p_type b =? CACHE_EVICT_LOADDATA_INSWITCH_ACK);
  _ ← r_check (val_length v <=? SWITCH_MAX_VALLEN);
  _ ← r_check (0 <=? seq);
  mret (b, mkSnapshotRecord v seq stat).

(** [LoadsnapshotdataInswitchAck], derived from [GetResponseLatestSeqInswitchCase1]. *)
Definition LoadsnapshotdataInswitchAck_parse (methodid recv_size : Z) : reader InswitchCase1 :=
  p ← InswitchCase1_deserialize methodid recv_size;
  _ ← r_check (p_type (qs_base (ic_put p)) =? LOADSNAPSHOTDATA_INSWITCH_ACK);
  _ ← r_check (val_length (qs_val (ic_put p)) <=? SWITCH_MAX_VALLEN);
  _ ← r_check (0 <=? qs_seq (ic_put p));
  mret p.

(** ** Bytes of FarReach *)

Definition fr_hdr (t : Z) (k : Key) : list Z := be 2 t ++ key_wire k.

Definition load_wire (t : Z) (k : Key) (idx : Z) : list Z := fr_hdr t k ++ be 2 t ++ replicate 18 0 ++ be 2 idx.
Definition setvalid_wire (k : Key) (idx v : Z) : list Z :=
  fr_hdr SETVALID_INSWITCH k ++ be 2 SETVALID_INSWITCH ++ replicate 18 0 ++ be 2 idx ++ [v].

(** All of a population but its last byte, which is not written. *)
Definition pop_wire (k : Key) (r : SnapshotRecord) (idx : Z) : list Z :=
  fr_hdr CACHE_POP_INSWITCH k ++ val_wire (sr_val r) ++ be 2 CACHE_POP_INSWITCH ++ be 4 (sr_seq r) ++ be 4 0 ++
  replicate 18 0 ++ be 2 idx ++ [bool_byte (sr_stat r)] ++ replicate 2 0.

Lemma fr_hdr_wire t k : hdr_wire (Packet_new FARREACH_ID t k) = fr_hdr t k.
Proof. reflexivity. Qed.

Lemma length_fr_hdr t k : length (fr_hdr t k) = 18%nat.
Proof. unfold fr_hdr. now rewrite length_app, length_be, length_key_wire. Qed.

Lemma fr_hdr_reads t k n : is_u16 t -> key_wf k -> 18 <= n < 2 ^ 32 ->
  reads (deserialize_ophdr FARREACH_ID n) 0 (fr_hdr t k) (Packet_new FARREACH_ID t k).
Proof. intros Ht Hk Hn. exact (hdr_reads (Packet_new FARREACH_ID t k) n (new_packet_wf t k Ht Hk) Hn). Qed.

Lemma warmup_reads t k n : is_u16 t -> key_wf k -> 18 <= n < 2 ^ 32 ->
  reads (WarmupRequest_deserialize FARREACH_ID n) 0 (fr_hdr t k) (Packet_new FARREACH_ID t k).
Proof.
  intros Ht Hk Hn. unfold WarmupRequest_deserialize. change (get_ophdrsize FARREACH_ID) with (Ok 18).
  eapply reads_lift_bind; [reflexivity|]. apply reads_check_bind; [now apply Z.leb_le|]. now apply fr_hdr_reads.
Qed.

(** What the acknowledgements say, whatever follows. *)
Lemma inswitch_ack_reads type t k n : is_u16 t -> key_wf k -> 18 <= n < 2 ^ 32 ->
  reads (InswitchAck_parse type FARREACH_ID n) 0 (fr_hdr t k) (Packet_new FARREACH_ID t k, t =? type).
Proof.
  intros Ht Hk Hn. unfold InswitchAck_parse. rewrite <- (app_nil_r (fr_hdr t k)).
  eapply reads_bind; [now apply warmup_reads|]. apply reads_ret.
Qed.

Lemma host_ack_reads t k n : is_u16 t -> key_wf k -> 18 <= n < 2 ^ 32 ->
  reads (HostAck_parse t FARREACH_ID n) 0 (fr_hdr t k) (Packet_new FARREACH_ID t k).
Proof.
  intros Ht Hk Hn. unfold HostAck_parse. rewrite <- (app_nil_r (fr_hdr t k)).
  eapply reads_bind; [now apply warmup_reads|]. apply reads_check_bind; [apply Z.eqb_refl|]. apply reads_ret.
Qed.

Definition freq_ack (k : Key) (f : Z) : list Z := fr_hdr CACHE_EVICT_LOADFREQ_INSWITCH_ACK k ++ be 4 f.

Lemma freq_ack_reads k f n : key_wf k -> is_u32 f -> 22 <= n < 2 ^ 32 ->
  reads (LoadfreqInswitchAck_parse FARREACH_ID n) 0 (freq_ack k f)
    (Packet_new FARREACH_ID CACHE_EVICT_LOADFREQ_INSWITCH_ACK k, f).
Proof.
  intros Hk Hf Hn. unfold LoadfreqInswitchAck_parse, freq_ack. change (get_ophdrsize FARREACH_ID) with (Ok 18).
  eapply reads_lift_bind; [reflexivity|]. apply reads_check_bind; [apply Z.leb_le; lia|].
  eapply reads_bind; [apply fr_hdr_reads; [unfold is_u16, CACHE_EVICT_LOADFREQ_INSWITCH_ACK; lia|exact Hk|lia]|].
  rewrite <- (app_nil_r (be 4 f)). rd.
Qed.

(** A loaded record; [tok] is the snapshot token. *)
Definition data_ack (k : Key) (r : SnapshotRecord) (sh tok : Z) : list Z :=
  fr_hdr CACHE_EVICT_LOADDATA_INSWITCH_ACK k ++ val_wire (sr_val r) ++ be 2 sh ++ be 4 (sr_seq r) ++ be 4 tok ++
  [bool_byte (sr_stat r)].

(** A record of the switch after the header. *)
Lemma skip_be_reads {A} (x : Z) m z (k : unit -> reader A) pos bs v : z = Z.of_nat m ->
  reads (k tt) (pos + z) bs v -> reads (r_skip z ≫= k) pos (be m x ++ bs) v.
Proof.
  intros -> H. eapply reads_bind; [apply reads_skip; [lia|now rewrite length_be, Nat2Z.id]|].
  now rewrite length_be.
Qed.

Lemma seq_hdr_reads {A} s tok (k : Z -> reader A) pos bs v : is_u32 s ->
  reads (k s) (pos + 8) bs v -> reads (get_seq_hdr0 FARREACH_ID ≫= k) pos (be 4 s ++ be 4 tok ++ bs) v.
Proof.
  intros Hs H. unfold get_seq_hdr0. change (FARREACH_ID =? FARREACH_ID) with true. cbv iota.
  apply reads_assoc. eapply reads_bind; [now apply reads_u32be|]. rewrite length_be. apply reads_assoc.
  apply skip_be_reads; [reflexivity|]. apply reads_mret_bind. now replace (pos + Z.of_nat 4 + 4) with (pos + 8) by lia.
Qed.

Lemma data_ack_reads k r sh tok n : wire_record_wf (k, r) ->
  Z.of_nat (length (data_ack k r sh tok)) <= n < 2 ^ 32 ->
  reads (LoaddataInswitchAck_parse FARREACH_ID n) 0 (data_ack k r sh tok)
    (Packet_new FARREACH_ID CACHE_EVICT_LOADDATA_INSWITCH_ACK k, r).
Proof.
  destruct r as [v s st]. intros (Hk & [Hv Hl] & Hs) Hn. unfold LoaddataInswitchAck_parse, data_ack in *.
  cbn [fst snd sr_val sr_seq sr_stat] in *.
  rewrite !length_app, length_fr_hdr, length_val_wire, !length_be in Hn. cbn [length] in Hn.
  unfold SWITCH_MAX_VALLEN in *.
  eapply reads_bind; [apply fr_hdr_reads; [unfold is_u16, CACHE_EVICT_LOADDATA_INSWITCH_ACK; lia|exact Hk|lia]|].
  rewrite length_fr_hdr. apply reads_rem_bind; [lia|lia|].
  eapply reads_bind; [apply Val_deserialize_reads; [exact Hv|lia|lia]|].
  apply skip_be_reads; [reflexivity|]. apply seq_hdr_reads; [exact Hs|].
  rewrite <- (app_nil_r [bool_byte st]). eapply reads_bind; [apply reads_bool|]. unfold is_u32 in Hs. rd.
Qed.

(** A record loaded for a snapshot; [z] stands for 18 bytes. *)
Definition snap_ack (k : Key) (r : SnapshotRecord) (idx sh tok z : Z) : list Z :=
  fr_hdr LOADSNAPSHOTDATA_INSWITCH_ACK k ++ val_wire (sr_val r) ++ be 2 sh ++ be 4 (sr_seq r) ++ be 4 tok ++
  be 18 z ++ be 2 idx ++ [bool_byte (sr_stat r)].

Definition case1_of (t : Z) (k : Key) (r : SnapshotRecord) (idx : Z) : InswitchCase1 :=
  mkInswitchCase1 (mkPutRequestSeq (Packet_new FARREACH_ID t k) (sr_val r) (sr_seq r) 0) idx (sr_stat r).

Lemma case1_reads t k r idx sh tok z n : is_u16 t -> wire_record_wf (k, r) -> is_u16 idx ->
  let bs := fr_hdr t k ++ val_wire (sr_val r) ++ be 2 sh ++ be 4 (sr_seq r) ++ be 4 tok ++ be 18 z ++ be 2 idx ++
            [bool_byte (sr_stat r)] in
  Z.of_nat (length bs) <= n < 2 ^ 32 ->
  reads (InswitchCase1_deserialize FARREACH_ID n) 0 bs (case1_of t k r idx).
Proof.
  destruct r as [v s st]. intros Ht (Hk & [Hv Hl] & Hs) Hi bs Hn. unfold InswitchCase1_deserialize, case1_of, bs in *. clear bs.
  cbn [fst snd sr_val sr_seq sr_stat] in *.
  rewrite !length_app, length_fr_hdr, length_val_wire, !length_be in Hn. cbn [length] in Hn.
  unfold SWITCH_MAX_VALLEN in *.
  eapply reads_bind; [apply fr_hdr_reads; [exact Ht|exact Hk|lia]|].
  rewrite length_fr_hdr. apply reads_rem_bind; [lia|lia|].
  eapply reads_bind; [apply Val_deserialize_reads; [exact Hv|lia|lia]|].
  apply skip_be_reads; [reflexivity|]. apply seq_hdr_reads; [exact Hs|].
  eapply reads_lift_bind; [reflexivity|]. apply skip_be_reads; [reflexivity|].
  eapply reads_bind; [now apply reads_u16be|].
  rewrite <- (app_nil_r [bool_byte st]). eapply reads_bind; [apply reads_bool|]. apply reads_ret.
Qed.

Lemma snap_ack_reads k r idx sh tok z n : wire_record_wf (k, r) -> is_u16 idx ->
  Z.of_nat (length (snap_ack k r idx sh tok z)) <= n < 2 ^ 32 ->
  reads (LoadsnapshotdataInswitchAck_parse FARREACH_ID n) 0 (snap_ack k r idx sh tok z)
    (case1_of LOADSNAPSHOTDATA_INSWITCH_ACK k r idx).
Proof.
  intros Hr Hi Hn. unfold LoadsnapshotdataInswitchAck_parse. rewrite <- (app_nil_r (snap_ack k r idx sh tok z)).
  eapply reads_bind.
  - apply case1_reads; auto. unfold is_u16, LOADSNAPSHOTDATA_INSWITCH_ACK; lia.
  - destruct r as [v s st], Hr as (Hk & [Hv Hl] & Hs). cbn [fst snd sr_val sr_seq] in *. unfold is_u32 in Hs.
    unfold case1_of. cbn [ic_put qs_base qs_val qs_seq sr_val sr_seq p_type Packet_new]. rd.
Qed.

(** ** What is sent *)

Lemma emits_type t max pos : 2 <= max -> emits (serialize_packet_type t max) pos (be 2 t) 2.
Proof.
  intros H. unfold serialize_packet_type. apply writes_check_bind; [now apply Z.leb_le|].
  rewrite <- (app_nil_r (be 2 t)). eapply emits_bind; [apply emits_u16be|]. apply writes_ret.
Qed.

(** The header, the type once more, and 18 zero bytes. *)
Definition inswitch_prefix (t : Z) (k : Key) : list Z := fr_hdr t k ++ be 2 t ++ replicate 18 0.

Lemma load_emits t k idx max : is_u16 t -> key_wf k -> 40 <= max < 2 ^ 32 ->
  emits (LoadInswitch_serialize (mkLoadInswitch (Packet_new FARREACH_ID t k) idx) max) 0 (load_wire t k idx) 40.
Proof.
  intros Ht Hk Hm. unfold LoadInswitch_serialize, load_wire. cbn [li_base li_evictidx Packet_new p_methodid p_type].
  change (LoadInswitch_size FARREACH_ID) with (Ok 40). change (get_inswitch_prev_bytes FARREACH_ID) with (Ok 18).
  em. eapply emits_bind; [exact (emits_ophdr (Packet_new FARREACH_ID t k) max (new_packet_wf t k Ht Hk) ltac:(cbn; lia))|].
  rewrite length_fr_hdr. em. eapply emits_bind; [apply emits_type; lia|]. rd_len. em.
  rewrite <- (app_nil_r (be 2 idx)). eapply emits_bind; [apply emits_u16be|]. rd_len. em.
Qed.

Lemma setvalid_emits k idx v max : key_wf k -> 41 <= max < 2 ^ 32 ->
  emits (SetvalidInswitch_serialize (mkSetvalidInswitch (Packet_new FARREACH_ID SETVALID_INSWITCH k) idx v) max) 0
    (setvalid_wire k idx v) 41.
Proof.
  intros Hk Hm. assert (Ht : is_u16 SETVALID_INSWITCH) by (unfold is_u16, SETVALID_INSWITCH; lia).
  unfold SetvalidInswitch_serialize, setvalid_wire. cbn [si_base si_idx si_validvalue Packet_new p_methodid p_type].
  change (SetvalidInswitch_size FARREACH_ID) with (Ok 41). change (get_inswitch_prev_bytes FARREACH_ID) with (Ok 18).
  em. eapply emits_bind; [exact (emits_ophdr (Packet_new FARREACH_ID SETVALID_INSWITCH k) max (new_packet_wf _ k Ht Hk) ltac:(cbn; lia))|].
  rewrite length_fr_hdr. em. eapply emits_bind; [apply emits_type; lia|]. rd_len. em.
  rewrite <- (app_nil_r [v]). eapply emits_bind; [apply writes_put|]. rd_len. em.
Qed.

Lemma emits_Val v wlen pos : small_val v -> Z.of_nat (val_wire_size v) <= wlen < 2 ^ 32 ->
  emits (Val_serialize v wlen) pos (val_wire v) (Z.of_nat (val_wire_size v)).
Proof.
  intros [Hv Hs] Hw. pose proof (val_wf_length v Hv) as Hl. pose proof (val_wire_size_eq v Hv) as HS.
  pose proof (get_padding_size_range (val_length v) (proj1 Hl)) as Hp. unfold SWITCH_MAX_VALLEN in Hs.
  unfold Val_serialize, val_wire. rewrite (u32_id (2 + _ + _)) by (unfold is_u32; lia).
  rewrite (u16_id (val_length v)) by (unfold is_u16; lia).
  apply writes_check_bind; [now apply val_wf_consistent|]. apply writes_check_bind; [lia|].
  eapply emits_bind; [apply emits_u16be|]. rewrite <- (app_nil_r (val_body v)).
  eapply emits_bind; [apply (val_put_body_writes v Hv)|]. rewrite HS. apply writes_ret.
Qed.

(** [pads w pos bs a]: [w] writes [bs] and leaves one byte behind it as it was. *)
Definition pads {A} (w : writer A) (pos : Z) (bs : list Z) (a : A) : Prop :=
  writes w pos (length bs + 1) a (fun old => bs ++ drop (length bs) old).

Lemma pads_bind {A B} (w : writer A) (k : A -> writer B) pos bs cs a b :
  emits w pos bs a -> pads (k a) (pos + Z.of_nat (length bs)) cs b -> pads (w ≫= k) pos (bs ++ cs) b.
Proof.
  intros H1 H2 done old rest Hd Ho. rewrite length_app in Ho.
  destruct (writes_bind w k pos _ _ a b _ _ H1 H2 done old rest Hd ltac:(lia)) as [E L].
  rewrite length_app, <- drop_drop, <- app_assoc. split; [exact E|]. rewrite L. lia.
Qed.

Lemma pads_end pos : 0 <= pos < 2 ^ 32 - 1 -> pads (w_skip 1 ≫= fun _ => w_off) pos [] (pos + 1).
Proof.
  intros Hp done old rest Hd Ho. cbn [length] in Ho.
  destruct (writes_bind (w_skip 1) (fun _ => w_off) pos _ 0 tt (pos + 1) _ (fun _ => []) (writes_skip 1 pos)
    (writes_off (pos + 1) ltac:(lia)) done old rest Hd ltac:(cbn; lia)) as [E L].
  rewrite take_ge, app_nil_r in * by (cbn; lia). split; [exact E|exact L].
Qed.

Ltac pad_step :=
  lazymatch goal with
  | |- pads (w_rem _ ≫= _) _ _ _ => apply writes_rem_bind; [lia|lia|]
  | |- pads (w_lift _ ≫= _) _ _ _ => eapply writes_lift_bind; [reflexivity|]
  | |- pads (w_u16be _ ≫= _) _ _ _ => eapply pads_bind; [apply emits_u16be|]
  | |- pads (w_u32be _ ≫= _) _ _ _ => eapply pads_bind; [apply emits_u32be|]
  | |- pads (w_memset 0 _ ≫= _) _ _ _ => eapply pads_bind; [apply emits_zeros; reflexivity|]
  | |- pads (serialize_packet_type _ _ ≫= _) _ _ _ => eapply pads_bind; [apply emits_type; lia|]
  | |- pads (w_bool _ ≫= _) _ _ _ => eapply pads_bind; [apply writes_put|]
  | |- writes ?w ?pos (length ?bs + 1) ?a (fun old => ?bs ++ drop (length ?bs) old) => change (pads w pos bs a)
  end.

(** The header of the packets derived from [PutRequestSeq]: one switch index is
    not initialised, and not sent. *)
Definition fr_base (uninit t : Z) (k : Key) : Packet := set_type t (Packet_new_spineleaf uninit FARREACH_ID PUTREQ_SEQ 0 0 k).

Lemma fr_base_emits uninit t k max : is_u16 uninit -> is_u16 t -> key_wf k -> 18 <= max < 2 ^ 32 ->
  emits (serialize_ophdr (fr_base uninit t k) max) 0 (fr_hdr t k) tt.
Proof.
  intros Hu Ht Hk Hm. change (fr_hdr t k) with (hdr_wire (fr_base uninit t k)). apply emits_ophdr; [|exact Hm].
  constructor; cbn; auto using farreach_id_valid; unfold is_u16; lia.
Qed.

Lemma pop_pads uninit k r idx max : is_u16 uninit -> wire_record_wf (k, r) ->
  Z.of_nat (length (pop_wire k r idx)) + 1 <= max < 2 ^ 32 ->
  pads (CachePopInswitch_serialize
          (mkCachePopInswitch (mkPutRequestSeq (fr_base uninit CACHE_POP_INSWITCH k) (sr_val r) (sr_seq r) 0)
             idx (sr_stat r)) max) 0 (pop_wire k r idx) (Z.of_nat (length (pop_wire k r idx)) + 1).
Proof.
  intros Hu (Hk & Hv & Hs) Hm. cbn [fst snd] in *.
  assert (HL : Z.of_nat (length (pop_wire k r idx)) = 51 + Z.of_nat (val_wire_size (sr_val r))).
  { unfold pop_wire. rewrite !length_app, length_fr_hdr, length_val_wire, !length_be, !length_replicate. cbn [length]. lia. }
  rewrite HL in *. assert (Ht : is_u16 CACHE_POP_INSWITCH) by (unfold is_u16, CACHE_POP_INSWITCH; lia).
  unfold CachePopInswitch_serialize. cbn [ci_put ci_freeidx ci_stat qs_base qs_val qs_seq].
  change (p_methodid (fr_base uninit CACHE_POP_INSWITCH k)) with FARREACH_ID.
  change (p_type (fr_base uninit CACHE_POP_INSWITCH k)) with CACHE_POP_INSWITCH.
  change (FARREACH_ID =? FARREACH_ID) with true. cbv iota. unfold pop_wire.
  rewrite <- (app_nil_r (replicate 2 0)).
  eapply pads_bind; [apply fr_base_emits; auto; lia|].
  rewrite length_fr_hdr. pad_step. pad_step.
  eapply pads_bind; [apply emits_Val; [exact Hv|lia]|]. rewrite length_val_wire.
  repeat (pad_step; rewrite ?length_be, ?length_replicate; cbn [length]).
  match goal with |- writes _ ?p _ ?q _ => replace q with (p + 1) by lia end. apply pads_end. lia.
Qed.

(** An eviction on its way to the server. *)
Definition evict_wire (t : Z) (k : Key) (r : SnapshotRecord) (serveridx : Z) : list Z :=
  fr_hdr t k ++ val_wire (sr_val r) ++ be 4 (sr_seq r) ++ [bool_byte (sr_stat r)] ++ be 2 serveridx.

Lemma evict_emits uninit t k r idx max : is_u16 uninit -> is_u16 t -> wire_record_wf (k, r) ->
  Z.of_nat (length (evict_wire t k r idx)) <= max < 2 ^ 32 ->
  emits (CacheEvict_serialize
           (mkCachePop (mkPutRequestSeq (fr_base uninit t k) (sr_val r) (sr_seq r) 0) (sr_stat r) idx) max) 0
    (evict_wire t k r idx) (Z.of_nat (length (evict_wire t k r idx))).
Proof.
  intros Hu Ht (Hk & Hv & Hs) Hm. cbn [fst snd] in *.
  assert (HL : Z.of_nat (length (evict_wire t k r idx)) = 25 + Z.of_nat (val_wire_size (sr_val r))).
  { unfold evict_wire. rewrite !length_app, length_fr_hdr, length_val_wire, !length_be. cbn [length]. lia. }
  rewrite HL in *. unfold CacheEvict_serialize, evict_wire. cbn [cp_put cp_stat cp_serveridx qs_base qs_val qs_seq].
  eapply emits_bind; [apply fr_base_emits; auto; lia|]. rewrite length_fr_hdr. em.
  eapply emits_bind; [apply emits_Val; [exact Hv|lia]|]. rd_len. em.
  eapply emits_bind; [apply writes_put|]. rd_len. rewrite <- (app_nil_r (be 2 idx)).
  eapply emits_bind; [apply emits_u16be|]. rd_len.
  cbn [length]. match goal with |- emits _ ?p _ ?q => replace q with p by lia end. em.
Qed.

(** The server reads the eviction back. *)
Lemma evict_reads t k r idx n : is_u16 t -> wire_record_wf (k, r) -> is_u16 idx ->
  Z.of_nat (length (evict_wire t k r idx)) <= n < 2 ^ 32 ->
  reads (CacheEvict_deserialize FARREACH_ID n) 0 (evict_wire t k r idx)
    (mkCachePop (mkPutRequestSeq (Packet_new FARREACH_ID t k) (sr_val r) (sr_seq r) 0) (sr_stat r) idx).
Proof.
  destruct r as [v s st]. intros Ht (Hk & [Hv Hl] & Hs) Hi Hn. unfold CacheEvict_deserialize, evict_wire in *.
  cbn [fst snd sr_val sr_seq sr_stat] in *.
  rewrite !length_app, length_fr_hdr, length_val_wire, !length_be in Hn. cbn [length] in Hn. unfold SWITCH_MAX_VALLEN in *.
  eapply reads_bind; [apply fr_hdr_reads; [exact Ht|exact Hk|lia]|].
  rewrite length_fr_hdr. apply reads_rem_bind; [lia|lia|].
  eapply reads_bind; [apply Val_deserialize_reads; [exact Hv|lia|lia]|].
  eapply reads_bind; [now apply reads_u32be|]. eapply reads_bind; [apply reads_bool|].
  rewrite <- (app_nil_r (be 2 idx)). eapply reads_bind; [now apply reads_u16be|]. apply reads_ret.
Qed.
