(* ===== verification/Server.v ===== *)
(** * The threads of a storage server (farreach/server_impl.h)

    A server has four threads: the worker answers the requests that come
    through the switch, the evict server takes back evicted records, the
    snapshot server makes and cleans snapshots and the snapshot data server
    receives the in-switch records.  They share the RocksDB wrapper, the set of
    keys known to be cached, the snapshot flag and the snapshot token.

    A step of a thread handles one received message; it is a function on the
    shared state and on the buffers of the thread, and collects the bytes it
    sends.  Receiving (reassembly of fragments, timeouts) is the environment's:
    a step starts with the buffer the receive function has filled. *)

From Stdlib Require Import ZArith Lia List.
From stdpp Require Import base tactics list numbers option.
From S2P Require Import Prelude Cursor DynamicArray StdMap Crc32 Key Val DeletedSet KVStore RocksdbWrapper Packet PacketCodec PacketCache PacketScan PacketServer Outband.

Open Scope Z_scope.

(** The method this server is compiled for. *)
Definition CURMETHOD_ID : Z := FARREACH_ID.

(** Who a datagram is sent to. *)
Inductive Dest := ToClient | ToPopserver | ToEvictclient | ToSnapshotclient.

(** The globals a server reads: its index, the share of 16-bit key prefixes of a
    server, whether the workload is dynamic, the contents of uninitialised
    memory, and the control types of control_type.ini. *)
Record ServerConfig := mkServerConfig {
  global_server_logical_idx : Z;
  perserver_keyrange : Z;
  workload_mode : Z;
  uninit : Z;
  SNAPSHOT_CLEANUP : Z;
  SNAPSHOT_CLEANUP_ACK : Z;
  SNAPSHOT_START : Z;
  SNAPSHOT_START_ACK : Z;
  SNAPSHOT_SENDDATA : Z;
  SNAPSHOT_SENDDATA_ACK : Z
}.

Section Server.
Context {DB Snap : Type} `{Hkv : KVStore DB Snap} (cfg : ServerConfig).

(** ** State *)

(** What the threads of a server share: [db_wrappers[i]],
    [server_cached_keyset_list[i]], [server_issnapshot_list[i]] and
    [server_snapshottoken_list[i]]. *)
Record Server := mkServer {
  db_wrapper : Wrapper DB Snap;
  cached_keyset : list (Key * unit);
  issnapshot : bool;
  snapshottoken : Z
}.

(** A thread with its buffers: [t_buf] the array it serializes to,
    [t_dynamicbuf] the array a large message is received in, [t_sent] what it
    has sent, latest last. *)
Record Thread := mkThread {
  t_server : Server;
  t_buf : list Z;
  t_dynamicbuf : DynamicArray;
  t_sent : list (Dest * list Z)
}.

Definition sv (A : Type) : Type := Thread -> res (A * Thread).

#[global] Instance sv_ret : MRet sv := fun _ a t => Ok (a, t).
#[global] Instance sv_bind : MBind sv := fun _ _ f m t =>
  match m t with Ok (a, t') => f a t' | Err e => Err e end.

Definition sv_lift {A} (r : res A) : sv A := fun t =>
  match r with Ok a => Ok (a, t) | Err e => Err e end.
Definition sv_check (c : bool) : sv unit := sv_lift (INVARIANT c).

(** Access to the shared state. *)
Definition get_server {A} (f : Server -> A) : sv A := fun t => Ok (f (t_server t), t).
Definition modify_server (f : Server -> Server) : sv unit := fun t =>
  Ok (tt, mkThread (f (t_server t)) (t_buf t) (t_dynamicbuf t) (t_sent t)).
Definition set_keyset (x : list (Key * unit)) (s : Server) : Server :=
  mkServer (db_wrapper s) x (issnapshot s) (snapshottoken s).
Definition set_issnapshot (x : bool) (s : Server) : Server :=
  mkServer (db_wrapper s) (cached_keyset s) x (snapshottoken s).
Definition set_snapshottoken (x : Z) (s : Server) : Server :=
  mkServer (db_wrapper s) (cached_keyset s) (issnapshot s) x.

(** [db_wrappers[i].f(...)]. *)
Definition on_db {A} (m : rw DB Snap A) : sv A := fun t =>
  match m (db_wrapper (t_server t)) with
  | Ok (a, w) => Ok (a, mkThread (mkServer w (cached_keyset (t_server t)) (issnapshot (t_server t))
                                    (snapshottoken (t_server t))) (t_buf t) (t_dynamicbuf t) (t_sent t))
  | Err e => Err e
  end.

(** [ConcurrentSet::is_exist], [insert] and [erase]. *)
Definition keyset_is_exist (key : Key) : sv bool :=
  s ← get_server cached_keyset;
  mret (match m_find key s with Some _ => true | None => false end).
Definition keyset_insert (key : Key) : sv unit :=
  modify_server (fun s => set_keyset (m_insert key tt (cached_keyset s)) s).
Definition keyset_erase (key : Key) : sv unit :=
  modify_server (fun s => set_keyset (m_erase key (cached_keyset s)) s).

(** ** Messages *)

(** The constructor of a request from [dynamicbuf.array()] and its size. *)
Definition recv_large {A} (parse : Z -> Z -> reader A) : sv A := fun t =>
  let d := t_dynamicbuf t in
  match run_reader (parse CURMETHOD_ID (da_size d)) (da_mem d) with
  | Ok a => Ok (a, t)
  | Err e => Err e
  end.

(** [rsp_size = rsp.serialize(buf, MAX_BUFSIZE); udpsendto(..., buf, rsp_size, ...)]. *)
Definition send_buf (dst : Dest) (serialize : Z -> writer Z) : sv unit := fun t =>
  match run_writer (serialize MAX_BUFSIZE) (t_buf t) with
  | Ok (rsp_size, buf) =>
      Ok (tt, mkThread (t_server t) buf (t_dynamicbuf t)
                (t_sent t ++ [(dst, take (Z.to_nat rsp_size) buf)]))
  | Err e => Err e
  end.

(** [dynamicbuf.clear(); rsp_size = rsp.dynamic_serialize(dynamicbuf);
    udpsendlarge_ipfrag(..., dynamicbuf.array(), rsp_size, ...)]: the bytes of
    all fragments; the size may exceed what was written, so it is compared with
    the memory of the array. *)
Definition send_large (dst : Dest) (dynamic_serialize : DynamicArray -> res (Z * DynamicArray))
    : sv unit := fun t =>
  match (d ← clear (t_dynamicbuf t); dynamic_serialize d) with
  | Ok (rsp_size, d) =>
      if rsp_size <=? Z.of_nat (length (da_mem d))
      then Ok (tt, mkThread (t_server t) (t_buf t) d
                     (t_sent t ++ [(dst, take (Z.to_nat rsp_size) (da_mem d))]))
      else Err OutOfBounds
  | Err e => Err e
  end.

(** ** The worker *)

(** The bounds of the server's key range, computed before the loop. *)
Definition worker_keyrange : res (Key * Key) :=
  let min_startkeyhihihi := u64 (global_server_logical_idx cfg * perserver_keyrange cfg) in
  let max_endkeyhihihi := u64 (min_startkeyhihihi - 1 + perserver_keyrange cfg) in
  _ ← INVARIANT ((0 <=? min_startkeyhihihi) && (min_startkeyhihihi <=? 65535));
  _ ← INVARIANT ((0 <=? max_endkeyhihihi) && (max_endkeyhihihi <=? 65535));
  _ ← INVARIANT (min_startkeyhihihi <=? max_endkeyhihihi);
  let min_startkeyhihi := u32 (Z.shiftl min_startkeyhihihi 16) in
  let max_endkeyhihi := u32 (Z.lor (Z.shiftl max_endkeyhihihi 16) 0xFFFF) in
  Ok (mkKey 0 0 0 min_startkeyhihi,
      mkKey (2 ^ 32 - 1) (2 ^ 32 - 1) (2 ^ 32 - 1) max_endkeyhihi).

(** A read response: small and large values have their own packet. *)
Definition send_getres (key : Key) (val : Val) (seq : Z) (stat : bool) : sv unit :=
  if val_length val <=? SWITCH_MAX_VALLEN then
    rsp ← sv_lift (GetResponseSeq_new CURMETHOD_ID key val seq stat (global_server_logical_idx cfg));
    send_buf ToClient (GetResponseSeq_serialize rsp)
  else
    rsp ← sv_lift (GetResponseLargevalueSeq_new (uninit cfg) CURMETHOD_ID key val seq stat
                     (global_server_logical_idx cfg));
    send_large ToClient (GetResponseLargevalueSeq_dynamic_serialize rsp).

Definition send_putres (key : Key) (seq : Z) : sv unit :=
  rsp ← sv_lift (PutResponseSeq_new CURMETHOD_ID key seq true (global_server_logical_idx cfg));
  send_buf ToClient (PutResponseSeq_serialize rsp).

Definition send_delres (key : Key) (seq : Z) : sv unit :=
  rsp ← sv_lift (DelResponseSeq_new CURMETHOD_ID key seq true (global_server_logical_idx cfg));
  send_buf ToClient (PutResponseSeq_serialize rsp).

(** The cache population of a key that is not cached yet; without
    WAIT_CACHE_POP_ACK [send_cachepop] sends once. *)
Definition trigger_cachepop (key : Key) (val : Val) (seq : Z) (stat : bool) : sv unit :=
  is_cached_before ← keyset_is_exist key;
  if (is_cached_before : bool) then mret tt
  else
    _ ← keyset_insert key;
    cache_pop_req ← sv_lift (CachePop_new (uninit cfg) CURMETHOD_ID key val seq stat
                               (global_server_logical_idx cfg));
    send_buf ToPopserver (CachePop_serialize cache_pop_req).

(** The server-side snapshot in front of a CASE3 write: [tmp_snapshottoken] is
    unsigned, the token of the server an [int]. *)
Definition case3_snapshot (tmp_snapshottoken : Z) : sv unit :=
  issnap ← get_server issnapshot;
  if negb issnap then
    token ← get_server snapshottoken;
    if u32 token <? tmp_snapshottoken then
      tmpres ← on_db (make_snapshot (s32 tmp_snapshottoken));
      if (tmpres : bool) then modify_server (set_snapshottoken (s32 tmp_snapshottoken)) else mret tt
    else mret tt
  else mret tt.

Definition handle_getreq : sv unit :=
  req ← recv_large GetRequest_parse;
  let key := p_key (gr_base req) in
  '(tmp_stat, tmp_val, tmp_seq) ← on_db (get key Val_default 0);
  send_getres key tmp_val tmp_seq tmp_stat.

Definition handle_getreq_nlatest : sv unit :=
  req ← recv_large GetRequestNLatest_parse;
  let key := p_key (gr_base req) in
  '(tmp_stat, tmp_val, tmp_seq) ← on_db (get key Val_default 0);
  if val_length tmp_val <=? SWITCH_MAX_VALLEN then
    rsp ← sv_lift (if (tmp_stat : bool)
                   then GetResponseLatestSeq_new (uninit cfg) CURMETHOD_ID key tmp_val tmp_seq
                          (global_server_logical_idx cfg)
                   else GetResponseDeletedSeq_new (uninit cfg) CURMETHOD_ID key tmp_val tmp_seq
                          (global_server_logical_idx cfg));
    send_buf ToClient (GetResponseLatestSeq_serialize rsp)
  else
    rsp ← sv_lift (GetResponseLargevalueSeq_new (uninit cfg) CURMETHOD_ID key tmp_val tmp_seq tmp_stat
                     (global_server_logical_idx cfg));
    send_large ToClient (GetResponseLargevalueSeq_dynamic_serialize rsp).

Definition handle_putreq_seq : sv unit :=
  req ← recv_large (PutRequestSeq_parse PUTREQ_SEQ);
  let key := p_key (qs_base req) in
  _ ← on_db (put key (qs_val req) (qs_seq req) false);
  send_putres key (qs_seq req).

Definition handle_putreq_largevalue_seq : sv unit :=
  req ← recv_large (PutRequestLargevalueSeq_parse PUTREQ_LARGEVALUE_SEQ);
  let key := p_key (lr_base (lq_req req)) in
  _ ← on_db (put key (lr_val (lq_req req)) (lq_seq req) false);
  send_putres key (lq_seq req).

Definition handle_delreq_seq : sv unit :=
  req ← recv_large DelRequestSeq_parse;
  let key := p_key (ds_base req) in
  _ ← on_db (remove key (ds_seq req) false);
  send_delres key (ds_seq req).

Definition handle_scanreq_split (min_startkey max_endkey : Key) : sv unit :=
  req ← recv_large ScanRequestSplit_parse;
  let key := p_key (sq_base (ss_scan req)) in
  let endkey := sq_endkey (ss_scan req) in
  _ ← sv_check (key_le key max_endkey);
  _ ← sv_check (key_ge endkey min_startkey);
  let cur_startkey := if key_lt key min_startkey then min_startkey else key in
  let cur_endkey := if key_gt endkey max_endkey then max_endkey else endkey in
  results ← on_db (range_scan cur_startkey cur_endkey);
  snapshotid ← on_db get_snapshotid;
  rsp ← sv_lift (ScanResponseSplit_new CURMETHOD_ID key endkey (ss_cur_scanidx req) (ss_max_scannum req)
                   (global_server_logical_idx cfg) snapshotid (Z.of_nat (length results)) results);
  send_large ToClient (ScanResponseSplit_dynamic_serialize rsp).

Definition handle_getreq_pop : sv unit :=
  req ← recv_large GetRequestPOP_parse;
  let key := p_key (gr_base req) in
  '(tmp_stat, tmp_val, tmp_seq) ← on_db (get key Val_default 0);
  _ ← send_getres key tmp_val tmp_seq tmp_stat;
  if (val_length tmp_val <=? SWITCH_MAX_VALLEN) && negb (workload_mode cfg =? 0)
  then trigger_cachepop key tmp_val tmp_seq tmp_stat
  else mret tt.

Definition handle_putreq_pop_seq : sv unit :=
  req ← recv_large (PutRequestSeq_sub_parse PUTREQ_POP_SEQ);
  let key := p_key (qs_base req) in
  tmp_stat ← on_db (put key (qs_val req) (qs_seq req) false);
  _ ← send_putres key (qs_seq req);
  if negb (workload_mode cfg =? 0) then trigger_cachepop key (qs_val req) (qs_seq req) tmp_stat else mret tt.

Definition handle_putreq_seq_case3 : sv unit :=
  req ← recv_large (PutRequestSeq_sub_parse PUTREQ_SEQ_CASE3);
  let key := p_key (qs_base req) in
  _ ← case3_snapshot (qs_snapshot_token req);
  _ ← on_db (put key (qs_val req) (qs_seq req) false);
  send_putres key (qs_seq req).

Definition handle_putreq_largevalue_seq_case3 : sv unit :=
  req ← recv_large (PutRequestLargevalueSeq_sub_parse PUTREQ_LARGEVALUE_SEQ_CASE3);
  let key := p_key (lr_base (lq_req req)) in
  _ ← case3_snapshot (lq_snapshot_token req);
  _ ← on_db (put key (lr_val (lq_req req)) (lq_seq req) false);
  send_putres key (lq_seq req).

Definition handle_putreq_pop_seq_case3 : sv unit :=
  req ← recv_large (PutRequestSeq_sub_parse PUTREQ_POP_SEQ_CASE3);
  let key := p_key (qs_base req) in
  _ ← case3_snapshot (qs_snapshot_token req);
  tmp_stat ← on_db (put key (qs_val req) (qs_seq req) false);
  _ ← send_putres key (qs_seq req);
  if negb (workload_mode cfg =? 0) then trigger_cachepop key (qs_val req) (qs_seq req) tmp_stat else mret tt.

Definition handle_delreq_seq_case3 : sv unit :=
  req ← recv_large (DelRequestSeq_sub_parse DELREQ_SEQ_CASE3);
  let key := p_key (ds_base req) in
  _ ← case3_snapshot (ds_snapshot_token req);
  _ ← on_db (remove key (ds_seq req) false);
  send_delres key (ds_seq req).

Definition handle_warmupreq : sv unit :=
  req ← recv_large WarmupRequest_parse;
  let key := p_key req in
  '(tmp_stat, tmp_val, tmp_seq) ← on_db (get key Val_default 0);
  _ ← send_buf ToClient (WarmupRequest_serialize (WarmupAck_new CURMETHOD_ID key));
  let tmp_val := if SWITCH_MAX_VALLEN <? val_length tmp_val then Val_default else tmp_val in
  trigger_cachepop key tmp_val tmp_seq tmp_stat.

Definition handle_loadreq : sv unit :=
  req ← recv_large LoadRequest_parse;
  let key := p_key (lr_base req) in
  _ ← on_db (force_put key (lr_val req));
  send_buf ToClient (WarmupRequest_serialize (LoadAck_new CURMETHOD_ID key)).

(** The fields of the six write requests for a key that is being evicted:
    key, value, sequence number, snapshot token of a CASE3 request, whether it
    deletes. *)
Definition recv_beingevicted (pkt_type : Z) : sv (Key * Val * Z * option Z * bool) :=
  if pkt_type =? PUTREQ_SEQ_BEINGEVICTED then
    req ← recv_large (PutRequestSeq_sub_parse PUTREQ_SEQ_BEINGEVICTED);
    mret (p_key (qs_base req), qs_val req, qs_seq req, None, false)
  else if pkt_type =? PUTREQ_SEQ_CASE3_BEINGEVICTED then
    req ← recv_large (PutRequestSeq_sub_parse PUTREQ_SEQ_CASE3_BEINGEVICTED);
    mret (p_key (qs_base req), qs_val req, qs_seq req, Some (qs_snapshot_token req), false)
  else if pkt_type =? DELREQ_SEQ_BEINGEVICTED then
    req ← recv_large (DelRequestSeq_sub_parse DELREQ_SEQ_BEINGEVICTED);
    mret (p_key (ds_base req), Val_default, ds_seq req, None, true)
  else if pkt_type =? DELREQ_SEQ_CASE3_BEINGEVICTED then
    req ← recv_large (DelRequestSeq_sub_parse DELREQ_SEQ_CASE3_BEINGEVICTED);
    mret (p_key (ds_base req), Val_default, ds_seq req, Some (ds_snapshot_token req), true)
  else if pkt_type =? PUTREQ_LARGEVALUE_SEQ_BEINGEVICTED then
    req ← recv_large (PutRequestLargevalueSeq_sub_parse PUTREQ_LARGEVALUE_SEQ_BEINGEVICTED);
    mret (p_key (lr_base (lq_req req)), lr_val (lq_req req), lq_seq req, None, false)
  else
    req ← recv_large (PutRequestLargevalueSeq_sub_parse PUTREQ_LARGEVALUE_SEQ_CASE3_BEINGEVICTED);
    mret (p_key (lr_base (lq_req req)), lr_val (lq_req req), lq_seq req, Some (lq_snapshot_token req), false).

Definition handle_beingevicted (pkt_type : Z) : sv unit :=
  '(tmp_key, tmp_val, tmp_seq, tmp_snapshottoken, tmp_isdelete) ← recv_beingevicted pkt_type;
  _ ← match (tmp_snapshottoken : option Z) with
      | Some token => case3_snapshot token
      | None => mret tt
      end;
  if negb tmp_isdelete then
    _ ← on_db (put tmp_key tmp_val tmp_seq false);
    send_putres tmp_key tmp_seq
  else
    _ ← on_db (remove tmp_key tmp_seq false);
    send_delres tmp_key tmp_seq.

(** A read that carries the record of the switch: the newer of the two is the
    answer. *)
Definition handle_getreq_record (pkt_type : Z) : sv unit :=
  req ← recv_large (GetResponseSeq_parse pkt_type);
  let tmp_key := p_key (gp_base (gs_resp req)) in
  '(tmp_serverstat, tmp_serverval, tmp_serverseq) ← on_db (get tmp_key Val_default 0);
  if tmp_serverseq <? gs_seq req
  then send_getres tmp_key (gp_val (gs_resp req)) (gs_seq req) (gp_stat (gs_resp req))
  else send_getres tmp_key tmp_serverval tmp_serverseq tmp_serverstat.

(** The switch on the packet type in [run_server_worker]. *)
Definition handle_packet (min_startkey max_endkey : Key) (pkt_type : Z) : sv unit :=
  if pkt_type =? GETREQ then handle_getreq
  else if pkt_type =? GETREQ_NLATEST then handle_getreq_nlatest
  else if pkt_type =? PUTREQ_SEQ then handle_putreq_seq
  else if pkt_type =? PUTREQ_LARGEVALUE_SEQ then handle_putreq_largevalue_seq
  else if pkt_type =? DELREQ_SEQ then handle_delreq_seq
  else if pkt_type =? SCANREQ_SPLIT then handle_scanreq_split min_startkey max_endkey
  else if pkt_type =? GETREQ_POP then handle_getreq_pop
  else if pkt_type =? PUTREQ_POP_SEQ then handle_putreq_pop_seq
  else if pkt_type =? PUTREQ_SEQ_CASE3 then handle_putreq_seq_case3
  else if pkt_type =? PUTREQ_LARGEVALUE_SEQ_CASE3 then handle_putreq_largevalue_seq_case3
  else if pkt_type =? PUTREQ_POP_SEQ_CASE3 then handle_putreq_pop_seq_case3
  else if pkt_type =? DELREQ_SEQ_CASE3 then handle_delreq_seq_case3
  else if pkt_type =? WARMUPREQ then handle_warmupreq
  else if pkt_type =? LOADREQ then handle_loadreq
  else if (pkt_type =? PUTREQ_SEQ_BEINGEVICTED) || (pkt_type =? PUTREQ_SEQ_CASE3_BEINGEVICTED) ||
          (pkt_type =? DELREQ_SEQ_BEINGEVICTED) || (pkt_type =? DELREQ_SEQ_CASE3_BEINGEVICTED) ||
          (pkt_type =? PUTREQ_LARGEVALUE_SEQ_BEINGEVICTED) ||
          (pkt_type =? PUTREQ_LARGEVALUE_SEQ_CASE3_BEINGEVICTED) then handle_beingevicted pkt_type
  else if (pkt_type =? GETREQ_BEINGEVICTED_RECORD) || (pkt_type =? GETREQ_LARGEVALUEBLOCK_RECORD)
       then handle_getreq_record pkt_type
  else mret tt.

(** The body of the loop of [run_server_worker] for a received packet. *)
Definition worker_step : sv unit :=
  '(min_startkey, max_endkey) ← sv_lift worker_keyrange;
  pkt_type ← recv_large (fun _ => get_packet_type);
  handle_packet min_startkey max_endkey pkt_type.

(** ** The evict server *)

(** The body of the loop of [run_server_evictserver] on the [recvsize] bytes it
    received in [recvbuf]. *)
Definition evictserver_step (recvbuf : list Z) (recvsize : Z) : sv unit :=
  optype ← sv_lift (run_reader (get_packet_type recvsize) recvbuf);
  evict ← (if optype =? CACHE_EVICT then sv_lift (run_reader (CacheEvict_parse CURMETHOD_ID recvsize) recvbuf)
           else if optype =? CACHE_EVICT_CASE2
                then sv_lift (run_reader (CacheEvictCase2_parse CURMETHOD_ID recvsize) recvbuf)
           else sv_lift (Err ExitCalled));
  let key := p_key (qs_base (cp_put evict)) in
  _ ← sv_check (cp_serveridx evict =? global_server_logical_idx cfg);
  cached ← keyset_is_exist key;
  _ ← (if (cached : bool) then mret tt else sv_lift (Err ExitCalled));
  _ ← (if optype =? CACHE_EVICT_CASE2 then
         issnap ← get_server issnapshot;
         if negb issnap then _ ← on_db (make_snapshot 0); mret tt else mret tt
       else mret tt);
  _ ← keyset_erase key;
  _ ← (if cp_stat evict
       then on_db (put key (qs_val (cp_put evict)) (qs_seq (cp_put evict)) true)
       else on_db (remove key (qs_seq (cp_put evict)) true));
  send_buf ToEvictclient (WarmupRequest_serialize (CacheEvictAck_new CURMETHOD_ID key)).

(** ** The snapshot servers *)

(** The body of the loop of [run_server_snapshotserver]; [control_type] and
    [snapshotid] are the variables of the thread, returned updated. *)
Definition snapshotserver_step (control_type snapshotid : Z) (recvbuf : list Z) (recvsize : Z)
    : sv (Z * Z) :=
  cur_signal ← sv_lift (run_reader (SnapshotSignal_deserialize recvsize) recvbuf);
  if negb (control_type =? SNAPSHOT_CLEANUP cfg) && (control_type =? sig_control_type cur_signal) &&
     (snapshotid =? sig_snapshotid cur_signal)
  then mret (control_type, snapshotid)
  else
    let control_type := sig_control_type cur_signal in
    let snapshotid := sig_snapshotid cur_signal in
    if control_type =? SNAPSHOT_CLEANUP cfg then
      _ ← on_db (clean_snapshot snapshotid);
      _ ← modify_server (set_issnapshot false);
      _ ← on_db stop_snapshot;
      _ ← send_buf ToSnapshotclient
            (SnapshotSignal_serialize (mkSnapshotSignal (SNAPSHOT_CLEANUP_ACK cfg) snapshotid));
      mret (control_type, snapshotid)
    else if control_type =? SNAPSHOT_START cfg then
      issnap ← get_server issnapshot;
      _ ← sv_check (negb issnap);
      token ← get_server snapshottoken;
      _ ← (if token <? snapshotid then
             tmpres ← on_db (make_snapshot snapshotid);
             if (tmpres : bool) then modify_server (set_snapshottoken snapshotid) else mret tt
           else mret tt);
      _ ← send_buf ToSnapshotclient
            (SnapshotSignal_serialize (mkSnapshotSignal (SNAPSHOT_START_ACK cfg) snapshotid));
      mret (control_type, snapshotid)
    else sv_lift (Err ExitCalled).

(** The records of a SNAPSHOT_SENDDATA message as a map: [insert] keeps the
    first record of a key. *)
Definition inswitch_map (records : list (Key * SnapshotRecord)) : list (Key * SnapshotRecord) :=
  fold_left (fun m p => m_insert p.1 p.2 m) records [].

(** The body of the loop of [run_server_snapshotdataserver]. *)
Definition snapshotdataserver_step (control_type snapshotid : Z) : sv (Z * Z) :=
  '(cur_type, cur_id) ← recv_large (fun _ _ => a ← r_u32; b ← r_u32; mret (s32 a, s32 b));
  if (control_type =? cur_type) && (snapshotid =? cur_id) then mret (control_type, snapshotid)
  else
    let control_type := cur_type in
    let snapshotid := cur_id in
    if control_type =? SNAPSHOT_SENDDATA cfg then
      _ ← send_buf ToSnapshotclient
            (SnapshotSignal_serialize (mkSnapshotSignal (SNAPSHOT_SENDDATA_ACK cfg) snapshotid));
      _ ← modify_server (set_issnapshot true);
      data ← recv_large (fun _ => deserialize_snapshot_senddata (SNAPSHOT_SENDDATA cfg));
      size ← (fun t => Ok (da_size (t_dynamicbuf t), t)) : sv Z;
      _ ← sv_check (size =? sd_bytes data);
      _ ← sv_check (sd_serveridx data =? global_server_logical_idx cfg);
      _ ← on_db (update_snapshot (inswitch_map (sd_records data)) snapshotid);
      _ ← on_db stop_snapshot;
      _ ← modify_server (set_issnapshot false);
      mret (control_type, snapshotid)
    else sv_lift (Err ExitCalled).
End Server.
