(* ===== verification/ServerSpec.v ===== *)
(** * The specification of a server's worker

    What the worker promises, packet by packet: the replies the receivers read
    and the versions the server holds afterwards, as functions of the request
    and of the versions before; and the facts about the capacity of the array a
    large reply is serialized to.  [ServerProps] shows that [worker_step] refines
    it on bytes. *)

From Stdlib Require Import ZArith Lia List.
From stdpp Require Import base tactics list numbers option relations.
From S2P Require Import Prelude Cursor DynamicArray StdMap Crc32 Key Val DeletedSet KVStore RocksdbWrapper RocksdbProps Snapshot Packet PacketCodec PacketCache PacketScan PacketServer Outband Server.

Open Scope Z_scope.

(** ** Requests and replies *)

(** What a request asks for; [pop] is set by the switch for a hot key that is
    not cached, [token] is the snapshot token of a CASE3 write. *)
Inductive Request :=
  | QGet (pop : bool) (k : Key)
  | QGetLatest (k : Key)
  | QWrite (token : option Z) (pop : bool) (k : Key) (new : option Val) (seq : Z)
  | QWarmup (k : Key)
  | QLoad (k : Key) (v : Val)
  | QGetRecord (k : Key) (v : Val) (seq : Z) (stat : bool).

(** [carries d r]: the packet in the array [d] is the request [r]. *)
Definition typed (d : DynamicArray) (type : Z) : Prop :=
  run_reader (get_packet_type (da_size d)) (da_mem d) = Ok type.
Definition parsed {A} (d : DynamicArray) (parse : Z -> Z -> reader A) (req : A) : Prop :=
  run_reader (parse CURMETHOD_ID (da_size d)) (da_mem d) = Ok req.

Definition of_put (token : option Z) (pop : bool) (p : PutRequestSeq) : Request :=
  QWrite token pop (p_key (qs_base p)) (Some (qs_val p)) (qs_seq p).
Definition of_large (token : option Z) (p : PutRequestLargevalueSeq) : Request :=
  QWrite token false (p_key (lr_base (lq_req p))) (Some (lr_val (lq_req p))) (lq_seq p).
Definition of_del (token : option Z) (p : DelRequestSeq) : Request :=
  QWrite token false (p_key (ds_base p)) None (ds_seq p).
Definition of_record (p : GetResponseSeq) : Request :=
  QGetRecord (p_key (gp_base (gs_resp p))) (gp_val (gs_resp p)) (gs_seq p) (gp_stat (gs_resp p)).

Inductive carries (d : DynamicArray) : Request -> Prop :=
  | carries_get req : typed d GETREQ -> parsed d GetRequest_parse req ->
      carries d (QGet false (p_key (gr_base req)))
  | carries_get_pop req : typed d GETREQ_POP -> parsed d GetRequestPOP_parse req ->
      carries d (QGet true (p_key (gr_base req)))
  | carries_nlatest req : typed d GETREQ_NLATEST -> parsed d GetRequestNLatest_parse req ->
      carries d (QGetLatest (p_key (gr_base req)))
  | carries_put req : typed d PUTREQ_SEQ -> parsed d (PutRequestSeq_parse PUTREQ_SEQ) req ->
      carries d (of_put None false req)
  | carries_put_pop req : typed d PUTREQ_POP_SEQ -> parsed d (PutRequestSeq_sub_parse PUTREQ_POP_SEQ) req ->
      carries d (of_put None true req)
  | carries_put_case3 req : typed d PUTREQ_SEQ_CASE3 ->
      parsed d (PutRequestSeq_sub_parse PUTREQ_SEQ_CASE3) req ->
      carries d (of_put (Some (qs_snapshot_token req)) false req)
  | carries_put_pop_case3 req : typed d PUTREQ_POP_SEQ_CASE3 ->
      parsed d (PutRequestSeq_sub_parse PUTREQ_POP_SEQ_CASE3) req ->
      carries d (of_put (Some (qs_snapshot_token req)) true req)
  | carries_put_evicted req : typed d PUTREQ_SEQ_BEINGEVICTED ->
      parsed d (PutRequestSeq_sub_parse PUTREQ_SEQ_BEINGEVICTED) req -> carries d (of_put None false req)
  | carries_put_case3_evicted req : typed d PUTREQ_SEQ_CASE3_BEINGEVICTED ->
      parsed d (PutRequestSeq_sub_parse PUTREQ_SEQ_CASE3_BEINGEVICTED) req ->
      carries d (of_put (Some (qs_snapshot_token req)) false req)
  | carries_large req : typed d PUTREQ_LARGEVALUE_SEQ ->
      parsed d (PutRequestLargevalueSeq_parse PUTREQ_LARGEVALUE_SEQ) req -> carries d (of_large None req)
  | carries_large_case3 req : typed d PUTREQ_LARGEVALUE_SEQ_CASE3 ->
      parsed d (PutRequestLargevalueSeq_sub_parse PUTREQ_LARGEVALUE_SEQ_CASE3) req ->
      carries d (of_large (Some (lq_snapshot_token req)) req)
  | carries_large_evicted req : typed d PUTREQ_LARGEVALUE_SEQ_BEINGEVICTED ->
      parsed d (PutRequestLargevalueSeq_sub_parse PUTREQ_LARGEVALUE_SEQ_BEINGEVICTED) req ->
      carries d (of_large None req)
  | carries_large_case3_evicted req : typed d PUTREQ_LARGEVALUE_SEQ_CASE3_BEINGEVICTED ->
      parsed d (PutRequestLargevalueSeq_sub_parse PUTREQ_LARGEVALUE_SEQ_CASE3_BEINGEVICTED) req ->
      carries d (of_large (Some (lq_snapshot_token req)) req)
  | carries_del req : typed d DELREQ_SEQ -> parsed d DelRequestSeq_parse req -> carries d (of_del None req)
  | carries_del_case3 req : typed d DELREQ_SEQ_CASE3 ->
      parsed d (DelRequestSeq_sub_parse DELREQ_SEQ_CASE3) req ->
      carries d (of_del (Some (ds_snapshot_token req)) req)
  | carries_del_evicted req : typed d DELREQ_SEQ_BEINGEVICTED ->
      parsed d (DelRequestSeq_sub_parse DELREQ_SEQ_BEINGEVICTED) req -> carries d (of_del None req)
  | carries_del_case3_evicted req : typed d DELREQ_SEQ_CASE3_BEINGEVICTED ->
      parsed d (DelRequestSeq_sub_parse DELREQ_SEQ_CASE3_BEINGEVICTED) req ->
      carries d (of_del (Some (ds_snapshot_token req)) req)
  | carries_warmup req : typed d WARMUPREQ -> parsed d WarmupRequest_parse req -> carries d (QWarmup (p_key req))
  | carries_load req : typed d LOADREQ -> parsed d LoadRequest_parse req ->
      carries d (QLoad (p_key (lr_base req)) (lr_val req))
  | carries_evicted_record req : typed d GETREQ_BEINGEVICTED_RECORD ->
      parsed d (GetResponseSeq_parse GETREQ_BEINGEVICTED_RECORD) req -> carries d (of_record req)
  | carries_block_record req : typed d GETREQ_LARGEVALUEBLOCK_RECORD ->
      parsed d (GetResponseSeq_parse GETREQ_LARGEVALUEBLOCK_RECORD) req -> carries d (of_record req).

Inductive Reply :=
  | RGet (k : Key) (v : Val) (seq : Z) (stat : bool)
  | RLatest (k : Key) (v : Val) (seq : Z) (stat : bool)
  | RPut (k : Key) (seq : Z)
  | RDel (k : Key) (seq : Z)
  | RAck (dst : Dest) (type : Z) (k : Key)
  | RPop (k : Key) (v : Val) (seq : Z) (stat : bool)
  | RSignal (control_type snapshotid : Z).

Definition is_small (v : Val) : bool := val_length v <=? SWITCH_MAX_VALLEN.

(** What the receiver of the message [m] reads. *)
Definition delivers (idx : Z) (m : Dest * list Z) (r : Reply) : Prop :=
  let n := Z.of_nat (length m.2) in
  match r with
  | RGet k v seq stat => m.1 = ToClient /\ exists b,
      run_reader (if is_small v then GetResponseSeq_parse GETRES_SEQ CURMETHOD_ID n
                  else GetResponseLargevalueSeq_parse CURMETHOD_ID n) m.2
        = Ok (mkGetResponseSeq (mkGetResponse b v stat idx 0 0) seq) /\ p_key b = k
  | RLatest k v seq stat => m.1 = ToClient /\ exists b,
      run_reader (GetResponseSeq_deserialize CURMETHOD_ID n) m.2
        = Ok (mkGetResponseSeq (mkGetResponse b v stat idx 0 0) seq) /\ p_key b = k /\
      p_type b = if stat then GETRES_LATEST_SEQ else GETRES_DELETED_SEQ
  | RPut k seq => m.1 = ToClient /\ exists b,
      run_reader (PutResponseSeq_parse PUTRES_SEQ CURMETHOD_ID n) m.2
        = Ok (mkPutResponseSeq (mkPutResponse b true idx) seq) /\ p_key b = k
  | RDel k seq => m.1 = ToClient /\ exists b,
      run_reader (PutResponseSeq_parse DELRES_SEQ CURMETHOD_ID n) m.2
        = Ok (mkPutResponseSeq (mkPutResponse b true idx) seq) /\ p_key b = k
  | RAck dst type k => m.1 = dst /\ exists b,
      run_reader (WarmupRequest_deserialize CURMETHOD_ID n) m.2 = Ok b /\ p_type b = type /\ p_key b = k
  | RPop k v seq stat => m.1 = ToPopserver /\ exists p,
      run_reader (CachePop_parse CURMETHOD_ID n) m.2 = Ok p /\ p_key (qs_base (cp_put p)) = k /\
      qs_val (cp_put p) = v /\ qs_seq (cp_put p) = seq /\ cp_stat p = stat /\ cp_serveridx p = idx
  | RSignal control_type snapshotid => m.1 = ToSnapshotclient /\
      run_reader (SnapshotSignal_deserialize n) m.2 = Ok (mkSnapshotSignal control_type snapshotid)
  end.

(** ** The specification *)

(** The status, value and sequence number a read finds. *)
Definition reading (ver : option Val * Z) : bool * Val * Z :=
  match ver with (Some v, s) => (true, v, s) | (None, s) => (false, Val_default, s) end.

(** Whether an unchecked write is refused because of a newer deletion. *)
Definition refused (ver : option Val * Z) (seq : Z) : bool := (seq <? ver.2) && bool_decide (ver.1 = None).

Section Spec.
Context (wl : Z) (ver : Key -> option Val * Z) (cached : Key -> bool).

(** The record a request asks to be cached. *)
Definition spec_pop (r : Request) : list (Key * Val * Z * bool) :=
  let pop '(k, v, s, st) := if cached k then [] else [(k, v, s, st)] in
  match r with
  | QGet true k =>
      let '(st, v, s) := reading (ver k) in
      if is_small v && negb (wl =? 0) then pop (k, v, s, st) else []
  | QWrite _ true k (Some v) seq =>
      if negb (wl =? 0) then pop (k, v, seq, negb (refused (ver k) seq)) else []
  | QWarmup k =>
      let '(st, v, s) := reading (ver k) in pop (k, if is_small v then v else Val_default, s, st)
  | _ => []
  end.

Definition spec_answer (r : Request) : Reply :=
  match r with
  | QGet _ k => let '(st, v, s) := reading (ver k) in RGet k v s st
  | QGetLatest k =>
      let '(st, v, s) := reading (ver k) in if is_small v then RLatest k v s st else RGet k v s st
  | QWrite _ _ k new seq => match new with Some _ => RPut k seq | None => RDel k seq end
  | QWarmup k => RAck ToClient WARMUPACK k
  | QLoad k _ => RAck ToClient LOADACK k
  | QGetRecord k v seq stat =>
      let '(st, v', s) := reading (ver k) in if s <? seq then RGet k v seq stat else RGet k v' s st
  end.

Definition spec_replies (r : Request) : list Reply :=
  spec_answer r :: map (fun '(k, v, s, st) => RPop k v s st) (spec_pop r).

Definition spec_version (r : Request) (k' : Key) : option Val * Z :=
  match r with
  | QWrite _ _ k new seq => if decide (k' = k) then upd_version false (ver k) new seq else ver k'
  | QLoad k v => if decide (k' = k) then (Some v, 0) else ver k'
  | _ => ver k'
  end.

Definition spec_cached (r : Request) (k' : Key) : bool :=
  cached k' || bool_decide (k' ∈ map (fun x => x.1.1.1) (spec_pop r)).
End Spec.

(** ** Sending *)

Record config_ok (cfg : ServerConfig) : Prop := {
  co_idx : is_u16 (global_server_logical_idx cfg);
  co_uninit : is_u16 (uninit cfg);
  co_range : exists rng, worker_keyrange cfg = Ok rng
}.

(** Capacities that are even, so that an odd number of bytes never fills the
    array. *)
Definition even_cap (d : DynamicArray) : Prop :=
  Z.even (_curcapability d) = true /\ Z.even (_maxcapability d) = true /\ Z.even (_mincapability d) = true.

Lemma grow_even fuel : forall c need c', grow fuel c need = Ok c' -> Z.even c = true -> Z.even c' = true.
Proof.
  induction fuel as [|fuel IH]; intros c need c'; cbn [grow]; destruct (c <? need); try discriminate;
    try (intros [= <-]; auto).
  intros H Hc. apply bind_Ok in H as (c2 & E & H). apply (IH _ _ _ H).
  unfold int_ck in E. destruct (_ && _); [|discriminate]. injection E as <-. now rewrite Z.even_mul.
Qed.

Lemma reserve_keeps d off len d' :
  dynamic_reserve d off len = Ok d' -> _cursize d' = _cursize d /\ _mincapability d' = _mincapability d.
Proof.
  intros E. unfold dynamic_reserve in E. apply bind_Ok in E as (need & _ & E).
  destruct (_ <? need); [discriminate|]. destruct (_ <? need); [|injection E as <-; split; reflexivity].
  destruct (_ <=? _); [discriminate|].
  apply bind_Ok in E as ([] & _ & E). apply bind_Ok in E as (c0 & _ & E). apply bind_Ok in E as (c1 & _ & E).
  destruct (_array d); [|discriminate]. destruct (_ <=? _)%nat; [|discriminate]. now injection E as <-.
Qed.

Lemma reserve_even d off len d' : dynamic_reserve d off len = Ok d' -> even_cap d -> even_cap d'.
Proof.
  intros H (Hc & Hm & Hn). unfold dynamic_reserve in H. apply bind_Ok in H as (need & _ & H).
  destruct (_ <? need); [discriminate|]. destruct (_ <? need); [|injection H as <-; repeat split; assumption].
  destruct (_ <=? _); [discriminate|]. apply bind_Ok in H as ([] & _ & H).
  apply bind_Ok in H as (c0 & E0 & H). apply bind_Ok in H as (c1 & E1 & H).
  assert (H1 : Z.even c1 = true).
  { apply (grow_even _ _ _ _ E1). unfold int_ck in E0. destruct (_ && _); [|discriminate].
    injection E0 as <-. now rewrite Z.even_mul. }
  destruct (_array d) as [a|]; [|discriminate]. destruct (_ <=? _)%nat; [|discriminate].
  injection H as <-. split; cbn; [|now split]. destruct (_ <? c1); assumption.
Qed.

Lemma memcpy_even d off src d' : dynamic_memcpy d off src = Ok d' -> even_cap d -> even_cap d'.
Proof.
  intros H He. unfold dynamic_memcpy in H. apply bind_Ok in H as (d1 & E & H).
  pose proof (reserve_even _ _ _ _ E He) as H1. destruct (_array d1); [|discriminate].
  apply bind_Ok in H as (a' & _ & H). injection H as <-. exact H1.
Qed.

Lemma memcpy_min d off src d' :
  dynamic_memcpy d off src = Ok d' -> _mincapability d = MAX_BUFSIZE -> _mincapability d' = MAX_BUFSIZE.
Proof.
  intros H <-. unfold dynamic_memcpy in H. apply bind_Ok in H as (d1 & E & H).
  destruct (reserve_keeps _ _ _ _ E) as [_ <-].
  destruct (_array d1); [|discriminate]. apply bind_Ok in H as (a' & _ & H). now injection H as <-.
Qed.

(** What every write to the array keeps, a large read response keeps. *)
Section Kept.
Context (J : DynamicArray -> Prop).
Context (J_memcpy : forall d off src d', dynamic_memcpy d off src = Ok d' -> J d -> J d').

(** One [bind] of a serializer in a hypothesis. *)
Ltac kept_step H :=
  lazymatch type of H with
  | (if ?c then _ else _) = Ok _ => destruct c
  | Ok _ = Ok _ => injection H as <- <-
  | Err _ = Ok _ => discriminate H
  | mbind _ (INVARIANT _) = Ok _ => apply bind_Ok in H as ([] & _ & H)
  | mbind _ (dynamic_memcpy _ _ _) = Ok _ =>
      let d := fresh "d" in let E := fresh "E" in
      apply bind_Ok in H as (d & E & H); eapply J_memcpy in E; [|eassumption]
  end.

Lemma key_kept k d off n d' : Key_dynamic_serialize k d off = Ok (n, d') -> J d -> J d'.
Proof using J_memcpy. intros H He. unfold Key_dynamic_serialize in H. cbv zeta in H. repeat kept_step H; assumption. Qed.

Lemma val_large_kept v d off n d' :
  Val_dynamic_serialize_large v d off = Ok (n, d') -> J d -> J d'.
Proof using J_memcpy.
  intros H He. unfold Val_dynamic_serialize_large, Val_dynamic_serialize_with in H. cbv zeta in H.
  do 2 kept_step H. apply bind_Ok in H as (d2 & E2 & H). injection H as <- <-.
  destruct (0 <? val_length v); [|injection E2 as <-; assumption]. kept_step E2.
  destruct (0 <? get_padding_size _); [|injection E2 as <-; assumption].
  unfold dynamic_memset in E2. destruct (_ <? 0); [apply bind_Ok in E2 as (? & _ & E2); discriminate|].
  eapply J_memcpy; eassumption.
Qed.

Lemma ophdr_kept p d n d' : dynamic_serialize_ophdr p d = Ok (n, d') -> J d -> J d'.
Proof using J_memcpy.
  intros H He. unfold dynamic_serialize_ophdr in H. do 2 kept_step H.
  apply bind_Ok in H as ([off d2] & E2 & H). apply bind_Ok in H as ([n2 d3] & E3 & H).
  injection H as <- <-. eapply key_kept; [exact E3|].
  repeat kept_step E2; assumption.
Qed.

Lemma large_kept p d n d' :
  GetResponseLargevalueSeq_dynamic_serialize p d = Ok (n, d') -> J d -> J d'.
Proof using J_memcpy.
  intros H He. unfold GetResponseLargevalueSeq_dynamic_serialize in H.
  apply bind_Ok in H as ([o1 d1] & E1 & H). eapply ophdr_kept in E1; [|exact He].
  apply bind_Ok in H as ([o2 d2] & E2 & H). eapply val_large_kept in E2; [|exact E1].
  do 3 kept_step H. apply bind_Ok in H as (pad & _ & H). injection H as <- <-. assumption.
Qed.
Lemma memset_kept d off v len d' : dynamic_memset d off v len = Ok d' -> J d -> J d'.
Proof using J_memcpy.
  intros H Hd. unfold dynamic_memset in H. destruct (_ <? 0); [apply bind_Ok in H as (? & _ & H); discriminate|].
  eapply J_memcpy; eassumption.
Qed.

Lemma pairs_kept ps : forall d off n d', dynamic_serialize_pairs ps d off = Ok (n, d') -> J d -> J d'.
Proof using J_memcpy.
  induction ps as [|[k r] ps IH]; intros d off n d' H Hd; cbn [dynamic_serialize_pairs] in H; [now injection H as <- <-|].
  apply bind_Ok in H as ([o1 d1] & E1 & H). eapply key_kept in E1; [|exact Hd].
  apply bind_Ok in H as ([o2 d2] & E2 & H). eapply val_large_kept in E2; [|exact E1]. eapply IH; eassumption.
Qed.

Lemma scan_kept p d n d' : ScanResponseSplit_dynamic_serialize p d = Ok (n, d') -> J d -> J d'.
Proof using J_memcpy.
  intros H Hd. unfold ScanResponseSplit_dynamic_serialize in H.
  apply bind_Ok in H as ([o1 d1] & E1 & H). eapply ophdr_kept in E1; [|exact Hd].
  apply bind_Ok in H as ([o2 d2] & E2 & H). eapply key_kept in E2; [|exact E1].
  apply bind_Ok in H as (prev & _ & H). apply bind_Ok in H as (d3 & E3 & H). eapply memset_kept in E3; [|exact E2].
  do 2 kept_step H. apply bind_Ok in H as ([o3 d6] & E6 & H).
  assert (J d6) by (repeat kept_step E6; assumption).
  do 3 kept_step H. eapply pairs_kept; eassumption.
Qed.
End Kept.

Lemma clear_even d d' :
  clear d = Ok d' -> Z.even (_mincapability d) = true -> Z.even (_maxcapability d) = true -> even_cap d'.
Proof.
  intros H Hm Hx. unfold clear in H. destruct (_curcapability d =? _mincapability d) eqn:E; cbn [negb] in H.
  - apply Z.eqb_eq in E. destruct (_array d) as [a|].
    + injection H as <-. repeat split; cbn; auto. now rewrite E.
    + destruct (_mincapability d =? 0); [|discriminate]. injection H as <-. repeat split; cbn; auto. now rewrite E.
  - destruct (_array d); [|discriminate]. injection H as <-. now repeat split.
Qed.

(** No growth as long as the bytes fit. *)
Definition snug (c : Z) (d : DynamicArray) : Prop := _curcapability d = c \/ c < _cursize d.

Lemma memcpy_snug c d off src d' : dynamic_memcpy d off src = Ok d' -> snug c d -> snug c d'.
Proof.
  intros H [Hc|Hc]; unfold snug, dynamic_memcpy in *.
  - apply bind_Ok in H as (d1 & E & H). unfold dynamic_reserve in E. apply bind_Ok in E as (need & En & E).
    assert (need = off + Z.of_nat (length src)) as ->.
    { unfold int_ck in En. destruct (_ && _); congruence. }
    destruct (_maxcapability d <? _); [discriminate|].
    destruct (Z.ltb_spec (_curcapability d) (off + Z.of_nat (length src))) as [Hlt|Hge].
    + right. destruct (_array d1); [|discriminate]. apply bind_Ok in H as (a' & _ & H). injection H as <-.
      cbn. destruct (Z.ltb_spec (_cursize d1) (off + Z.of_nat (length src))); lia.
    + left. injection E as <-. destruct (_array d); [|discriminate].
      apply bind_Ok in H as (a' & _ & H). injection H as <-. exact Hc.
  - right. apply bind_Ok in H as (d1 & E & H). destruct (_array d1); [|discriminate].
    apply bind_Ok in H as (a' & _ & H). injection H as <-. cbn.
    destruct (reserve_keeps _ _ _ _ E) as [Es _].
    destruct (Z.ltb_spec (_cursize d1) (off + Z.of_nat (length src))); lia.
Qed.
