(* ===== verification/ServerProps.v ===== *)
(** * The worker of a server refines its specification

    [worker_step] takes the bytes of a request and sends bytes.  The judgement
    [runs] says that a step returns, which replies the receivers of its messages
    read and which states it ends in; the lemmas of each kind of reply and of
    each use of the store compose to the refinement theorem. *)

From Stdlib Require Import ZArith Lia List.
From stdpp Require Import base tactics list numbers option relations.
From S2P Require Import Prelude Cursor DynamicArray StdMap Crc32 Key Val DeletedSet KVStore RocksdbWrapper RocksdbProps Snapshot Packet PacketCodec PacketCache PacketScan PacketServer Outband Server ServerSpec.

Open Scope Z_scope.

Section Refinement.
Context {DB Snap : Type} `{Hkv : KVStore DB Snap}.
Context {Hlaws : KVStoreLaws DB Snap} {Havail : KVStoreAvailable DB Snap}.
Context (cfg : ServerConfig) (Hcfg : config_ok cfg).
Abbreviation idx := (global_server_logical_idx cfg).
Abbreviation Thread := (@Thread DB Snap).
Abbreviation Server := (@Server DB Snap).
Abbreviation sv := (@sv DB Snap).

(** The versions and the cached keys of a server. *)
Definition ver (s : Server) : Key -> option Val * Z := version (db_wrapper s).
Definition cached (s : Server) (k : Key) : bool :=
  match m_find k (cached_keyset s) with Some _ => true | None => false end.

(** What the worker keeps: the invariant of the store, sorted keys, its buffers. *)
Record buffers_ok (t : Thread) : Prop := {
  bo_buf : Z.of_nat (length (t_buf t)) = MAX_BUFSIZE;
  bo_dyn : da_wf (t_dynamicbuf t);
  bo_max : _maxcapability (t_dynamicbuf t) = MAX_LARGE_BUFSIZE;
  bo_min : _mincapability (t_dynamicbuf t) = MAX_BUFSIZE
}.
Record server_ok (s : Server) : Prop := {
  sk_db : wrapper_ok (db_wrapper s);
  sk_keys : m_sorted (cached_keyset s)
}.

(** [runs m t S rs]: [m] returns, keeps the buffers in shape, sends messages that
    are read as [rs] and leaves a server state in [S]. *)
Definition runs (m : sv unit) (t : Thread) (S : Server -> Prop) (rs : list Reply) : Prop :=
  exists t' out, m t = Ok (tt, t') /\ buffers_ok t' /\ S (t_server t') /\
    t_sent t' = t_sent t ++ out /\ Forall2 (delivers idx) out rs.
Definition sends (m : sv unit) (t : Thread) (rs : list Reply) : Prop :=
  runs m t (fun s => s = t_server t) rs.

Lemma sends_codec {A} (ser : Z -> writer Z) (de : Z -> Z -> reader A) n v dst r t :
  codec (ser MAX_BUFSIZE) (de CURMETHOD_ID (Z.of_nat n)) 0 n (Z.of_nat n) v ->
  Z.of_nat n <= MAX_BUFSIZE -> buffers_ok t ->
  (forall bs, run_reader (de CURMETHOD_ID (Z.of_nat (length bs))) bs = Ok v -> delivers idx (dst, bs) r) ->
  sends (send_buf dst ser) t [r].
Proof using.
  intros Hc Hn [Hb Hd Hx He] Hr. unfold sends, runs, send_buf.
  destruct (codec_run _ _ _ _ (t_buf t) Hc) as (data' & E & L & _ & R); [lia|].
  rewrite E. eexists _, _. split; [reflexivity|]. cbn [t_server t_sent t_buf t_dynamicbuf].
  split; [constructor; cbn; auto; now rewrite L|]. split; [reflexivity|]. split; [reflexivity|].
  constructor; [|constructor]. rewrite Nat2Z.id. apply Hr. rewrite length_take, Nat.min_l by lia.
  specialize (R []). now rewrite app_nil_r in R.
Qed.

Lemma sends_buf {P} (c : PacketClass P) p dst r t :
  class_ok c -> pc_wf c p -> pc_method c p = CURMETHOD_ID -> Z.of_nat (pc_size c p) <= MAX_BUFSIZE ->
  buffers_ok t ->
  (forall bs, run_reader (pc_deserialize c CURMETHOD_ID (Z.of_nat (length bs))) bs = Ok (pc_wire c p) ->
     delivers idx (dst, bs) r) ->
  sends (send_buf dst (pc_serialize c p)) t [r].
Proof using.
  intros Hc Hp Hm Hs Hb Hr. eapply sends_codec; eauto. rewrite <- Hm. apply Hc; [exact Hp|].
  unfold MAX_BUFSIZE in *. lia.
Qed.

Lemma small_size v : small_val v -> (val_wire_size v <= 138)%nat.
Proof using.
  intros [Hv Hl]. pose proof (val_wire_size_eq v Hv). pose proof (val_wf_length v Hv).
  pose proof (get_padding_size_range (val_length v) ltac:(lia)). unfold SWITCH_MAX_VALLEN in *. lia.
Qed.

Lemma is_small_val v : val_wf v -> is_small v = true -> small_val v.
Proof using. intros Hv H. split; [exact Hv|]. now apply Z.leb_le. Qed.

(** ** The kinds of reply *)

Lemma send_putres_sends t k seq :
  buffers_ok t -> key_wf k -> is_u32 seq -> sends (send_putres cfg k seq) t [RPut k seq].
Proof using Hcfg.
  intros Ht Hk Hs. unfold send_putres, PutResponseSeq_new.
  rewrite (proj2 (Z.leb_le 0 seq)) by apply Hs.
  apply (sends_buf (PutRes_class PUTRES_SEQ)
    (mkPutResponseSeq (mkPutResponse (Packet_new FARREACH_ID PUTRES_SEQ k) true idx) seq));
    [apply PutRes_ok| |reflexivity|cbn; unfold MAX_BUFSIZE; lia|exact Ht|].
  - split; [|split; reflexivity]. split; [apply new_packet_wf; [unfold is_u16, PUTRES_SEQ; lia|exact Hk]|].
    split; [apply Hcfg|exact Hs].
  - intros bs R. split; [reflexivity|]. eexists. split; [exact R|reflexivity].
Qed.

Lemma send_delres_sends t k seq :
  buffers_ok t -> key_wf k -> is_u32 seq -> sends (send_delres cfg k seq) t [RDel k seq].
Proof using Hcfg.
  intros Ht Hk Hs. unfold send_delres, DelResponseSeq_new, PutResponseSeq_new.
  rewrite (proj2 (Z.leb_le 0 seq)) by apply Hs.
  apply (sends_buf (PutRes_class DELRES_SEQ)
    (mkPutResponseSeq (mkPutResponse (Packet_new FARREACH_ID DELRES_SEQ k) true idx) seq));
    [apply PutRes_ok| |reflexivity|cbn; unfold MAX_BUFSIZE; lia|exact Ht|].
  - split; [|split; reflexivity]. split; [apply new_packet_wf; [unfold is_u16, DELRES_SEQ; lia|exact Hk]|].
    split; [apply Hcfg|exact Hs].
  - intros bs R. split; [reflexivity|]. eexists. split; [exact R|reflexivity].
Qed.

Lemma send_ack_sends t dst type k :
  buffers_ok t -> key_wf k -> is_u16 type ->
  sends (send_buf dst (WarmupRequest_serialize (Packet_new FARREACH_ID type k))) t [RAck dst type k].
Proof using.
  intros Ht Hk Hty.
  apply (sends_buf WarmupRequest_class (Packet_new FARREACH_ID type k));
    [apply WarmupRequest_ok|now apply new_packet_wf|reflexivity|cbn; unfold MAX_BUFSIZE; lia|exact Ht|].
  intros bs R. split; [reflexivity|]. eexists. split; [exact R|split; reflexivity].
Qed.

Lemma GetResponseSeq_new_run k v seq st nd :
  small_val v -> 0 <= seq ->
  GetResponseSeq_new CURMETHOD_ID k v seq st nd =
  Ok (mkGetResponseSeq (mkGetResponse (Packet_new FARREACH_ID GETRES_SEQ k) v st nd 0 0) seq).
Proof using.
  intros [Hv Hl] Hs. unfold GetResponseSeq_new, GetResponse_new. rewrite Val_copy_wf by exact Hv.
  cbn [gp_val]. rewrite INVARIANT_true by now apply Z.leb_le. cbn [mbind res_bind gp_val].
  rewrite INVARIANT_true by reflexivity. cbn [mbind res_bind].
  rewrite INVARIANT_true by now apply Z.leb_le. cbn [mbind res_bind].
  rewrite INVARIANT_true by now apply Z.leb_le. reflexivity.
Qed.

Lemma send_getres_small t k v seq stat :
  buffers_ok t -> key_wf k -> val_wf v -> is_small v = true -> is_u32 seq ->
  sends (send_getres cfg k v seq stat) t [RGet k v seq stat].
Proof using Hcfg.
  intros Ht Hk Hv Hsm Hs. pose proof (is_small_val v Hv Hsm) as Hsv. pose proof (small_size v Hsv).
  unfold send_getres. fold (is_small v). rewrite Hsm, GetResponseSeq_new_run by (auto; apply Hs).
  apply (sends_buf (GetRes_class GETRES_SEQ)
    (mkGetResponseSeq (mkGetResponse (Packet_new FARREACH_ID GETRES_SEQ k) v stat idx 0 0) seq));
    [apply GetRes_ok| |reflexivity|cbn -[val_wire_size]; unfold MAX_BUFSIZE; lia|exact Ht|].
  - split; [|split; reflexivity]. split; [apply new_packet_wf; [unfold is_u16, GETRES_SEQ; lia|exact Hk]|].
    split; [exact Hsv|]. split; [apply Hcfg|exact Hs].
  - intros bs R. split; [reflexivity|]. rewrite Hsm. eexists. split; [exact R|reflexivity].
Qed.

(** A large read response: the array is cleared, and the byte after the response
    belongs to it when the response does not end at the capacity. *)
Definition reply_fits (v : Val) : Prop :=
  val_length v + 30 <= MAX_LARGE_BUFSIZE /\
  (val_length v + 30 <= MAX_BUFSIZE \/ Z.even (val_length v) = true).

Definition large_res (k : Key) (v : Val) (seq : Z) (stat : bool) : GetResponseSeq :=
  mkGetResponseSeq (mkGetResponse (set_type GETRES_LARGEVALUE_SEQ
     (Packet_new_spineleaf (uninit cfg) FARREACH_ID GETRES_LARGEVALUE 0 0 k)) v stat idx 0 0) seq.

Lemma large_res_ok k v seq stat :
  key_wf k -> val_wf v -> is_small v = false -> is_u32 seq ->
  large_res_wf (large_res k v seq stat) /\
  Z.of_nat (length (large_wire (large_res k v seq stat))) = val_length v + 29.
Proof using Hcfg.
  intros Hk Hv Hl Hs. apply Z.leb_gt in Hl. split.
  - constructor; cbn; auto; [|apply Hcfg].
    constructor; cbn; auto using farreach_id_valid; try (unfold is_u16; lia); try apply Hcfg.
    unfold is_u16, GETRES_LARGEVALUE_SEQ. lia.
  - rewrite length_large_wire, !Nat2Z.inj_add. cbn [gs_resp large_res gp_val gp_base].
    rewrite val_wire_size_large_eq by exact Hv. unfold get_padding_size.
    rewrite (proj2 (Z.leb_gt _ _) Hl). cbn. lia.
Qed.

Lemma clear_holds t :
  buffers_ok t -> exists d, clear (t_dynamicbuf t) = Ok d /\ holds d MAX_LARGE_BUFSIZE [] /\ even_cap d /\
    _mincapability d = MAX_BUFSIZE /\ _curcapability d = MAX_BUFSIZE.
Proof using.
  intros [Hb Hd Hx Hn]. destruct (clear_wf _ Hd) as (d & E & W & C & M & N & _).
  exists d. split; [exact E|]. split; [constructor; congruence|].
  split; [apply (clear_even _ _ E); [now rewrite Hn|now rewrite Hx]|]. split; [congruence|].
  unfold clear in E. destruct (Z.eqb_spec (_curcapability (t_dynamicbuf t)) (_mincapability (t_dynamicbuf t))) as [Ec|Ec];
    cbn [negb] in E; rewrite (da_wf_array _ Hd) in E; injection E as <-; cbn; congruence.
Qed.

Lemma large_val_reply k v seq stat :
  val_wf v -> is_small v = false ->
  GetResponseLargevalueSeq_new (uninit cfg) CURMETHOD_ID k v seq stat idx = Ok (large_res k v seq stat).
Proof using.
  intros Hv Hl. unfold GetResponseLargevalueSeq_new. rewrite Val_copy_wf by exact Hv.
  apply Z.leb_gt in Hl. rewrite (INVARIANT_true (SWITCH_MAX_VALLEN <? val_length v)) by now apply Z.ltb_lt. reflexivity.
Qed.

Lemma take_succ_contents d n :
  da_wf d -> _cursize d = Z.of_nat n -> Z.of_nat n < _curcapability d ->
  exists pad, take (S n) (da_mem d) = contents d ++ [pad].
Proof using.
  intros W E L. pose proof (da_wf_len d W). unfold contents. rewrite E, Nat2Z.id.
  destruct (lookup_lt_is_Some_2 (da_mem d) n) as [x Hx]; [lia|].
  exists x. now apply take_S_r.
Qed.

Lemma send_large_sends t k v seq stat :
  buffers_ok t -> key_wf k -> val_wf v -> is_small v = false -> is_u32 seq -> reply_fits v ->
  sends (send_large ToClient (GetResponseLargevalueSeq_dynamic_serialize (large_res k v seq stat))) t
    [RGet k v seq stat].
Proof using Hcfg.
  intros Ht Hk Hv Hl Hs [Hf1 Hf2]. destruct (large_res_ok k v seq stat Hk Hv Hl Hs) as [Hw HL].
  destruct (clear_holds t Ht) as (d0 & E0 & H0 & Ev0 & N0 & C0).
  destruct (large_dynamic _ d0 _ Hw H0) as (d & E & H); [lia|].
  unfold sends, runs, send_large. rewrite E0. cbn [mbind res_bind]. rewrite E.
  pose proof (large_kept even_cap memcpy_even _ _ _ _ E Ev0) as (Ec & _ & _).
  pose proof (large_kept (fun d => _mincapability d = MAX_BUFSIZE) memcpy_min _ _ _ _ E N0) as Nm. cbn beta in Nm.
  pose proof (holds_size _ _ _ H) as Hsz. destruct H as [W Mx Hc].
  assert (Hroom : Z.of_nat (length (large_wire (large_res k v seq stat))) < _curcapability d).
  { destruct W as (_ & W1 & W2 & _). rewrite HL in *. destruct Hf2 as [Hf2|Hf2]; [lia|].
    assert (_curcapability d <> val_length v + 29); [|lia].
    intros X. rewrite X, Z.even_add, Hf2 in Ec. discriminate. }
  destruct (take_succ_contents _ _ W Hsz Hroom) as [pad Hp]. pose proof (da_wf_len d W) as Hlen.
  rewrite (proj2 (Z.leb_le _ _)) by lia. eexists _, _. split; [reflexivity|].
  cbn [t_server t_sent t_buf t_dynamicbuf]. destruct Ht as [Hb _ _ _].
  split; [constructor; cbn; auto|]. split; [reflexivity|]. split; [reflexivity|].
  constructor; [|constructor].
  rewrite Z2Nat.inj_add, Nat2Z.id, Nat.add_1_r, Hp, Hc by lia.
  split; [reflexivity|]. rewrite Hl.
  exists (wire_hdr (gp_base (gs_resp (large_res k v seq stat)))). split; [|reflexivity].
  cbn [snd]. rewrite length_app. cbn [length].
  pose proof (large_reads _ pad (Z.of_nat (length (large_wire (large_res k v seq stat)) + 1)) Hw) as R.
  unfold run_reader. rewrite <- (app_nil_r (large_wire _ ++ [pad])), R; [reflexivity|].
  unfold MAX_LARGE_BUFSIZE in *. lia.
Qed.

Lemma send_getres_sends t k v seq stat :
  buffers_ok t -> key_wf k -> val_wf v -> is_u32 seq -> reply_fits v ->
  sends (send_getres cfg k v seq stat) t [RGet k v seq stat].
Proof using Hcfg.
  intros Ht Hk Hv Hs Hf. destruct (is_small v) eqn:E; [now apply send_getres_small|].
  unfold send_getres. fold (is_small v). rewrite E, large_val_reply by auto. now apply send_large_sends.
Qed.

Lemma latest_new k v seq (stat : bool) :
  small_val v -> is_u32 seq -> (stat = false -> val_length v = 0) ->
  (if stat then GetResponseLatestSeq_new (uninit cfg) CURMETHOD_ID k v seq idx
   else GetResponseDeletedSeq_new (uninit cfg) CURMETHOD_ID k v seq idx) =
  Ok (mkGetResponseLatestSeq (set_qs_type (if stat then GETRES_LATEST_SEQ else GETRES_DELETED_SEQ)
        (PutRequestSeq_new (uninit cfg) FARREACH_ID k v seq)) stat idx).
Proof using Hcfg.
  intros [Hv Hl] Hs H0. destruct (co_idx cfg Hcfg) as [Hi _]. apply Z.leb_le in Hl, Hi.
  destruct Hs as [Hs _]. apply Z.leb_le in Hs.
  unfold GetResponseDeletedSeq_new, GetResponseLatestSeq_new.
  destruct stat; rewrite ?H0, ?Hl, ?Hs, ?Hi by reflexivity; reflexivity.
Qed.

Lemma send_latest_sends t k v seq (stat : bool) :
  buffers_ok t -> key_wf k -> small_val v -> is_u32 seq -> (stat = false -> val_length v = 0) ->
  sends (rsp ← sv_lift (if stat
                   then GetResponseLatestSeq_new (uninit cfg) CURMETHOD_ID k v seq idx
                   else GetResponseDeletedSeq_new (uninit cfg) CURMETHOD_ID k v seq idx);
         send_buf ToClient (GetResponseLatestSeq_serialize rsp)) t [RLatest k v seq stat].
Proof using Hcfg.
  intros Ht Hk Hv Hs H0. rewrite latest_new by auto. pose proof (small_size v Hv) as Hz.
  set (ty := if stat then GETRES_LATEST_SEQ else GETRES_DELETED_SEQ).
  assert (Hq : qs_wf (set_qs_type ty (PutRequestSeq_new (uninit cfg) FARREACH_ID k v seq))).
  { apply new_qs_wf; auto using farreach_id_valid; [apply Hcfg|].
    subst ty. unfold is_u16, GETRES_LATEST_SEQ, GETRES_DELETED_SEQ. destruct stat; lia. }
  set (p := mkGetResponseLatestSeq (set_qs_type ty (PutRequestSeq_new (uninit cfg) FARREACH_ID k v seq)) stat idx).
  assert (Hval : qs_val (gl_put p) = v) by (cbn; apply Val_copy_wf, Hv).
  assert (Hn : Z.of_nat (qs_prefix (gl_put p) + (2 + (seq_size FARREACH_ID + 4))) <= MAX_BUFSIZE).
  { unfold qs_prefix. rewrite Hval. cbn -[val_wire_size]. unfold MAX_BUFSIZE. lia. }
  apply (sends_codec (GetResponseLatestSeq_serialize p) GetResponseSeq_deserialize
           (qs_prefix (gl_put p) + (2 + (seq_size FARREACH_ID + 4)))
           (mkGetResponseSeq (mkGetResponse (wire_hdr (qs_base (gl_put p))) (qs_val (gl_put p)) stat idx 0 0)
              (qs_seq (gl_put p)))); auto.
  - apply (codec_latest_seq p MAX_BUFSIZE); [exact Hq|apply Hcfg|]. unfold MAX_BUFSIZE in *. cbn in *. lia.
  - intros bs R. rewrite Hval in R. split; [reflexivity|]. eexists. split; [exact R|]. split; reflexivity.
Qed.

(** ** Steps *)

Lemma runs_weaken m t (S S' : Server -> Prop) rs : runs m t S rs -> (forall s, S s -> S' s) -> runs m t S' rs.
Proof using. intros (t' & out & E & B & HS & H) HI. exists t', out. eauto. Qed.

Lemma runs_bind m (k : sv unit) t (S1 S : Server -> Prop) rs1 rs2 :
  runs m t S1 rs1 ->
  (forall t1, buffers_ok t1 -> S1 (t_server t1) -> runs k t1 S rs2) ->
  runs (_ ← m; k) t S (rs1 ++ rs2).
Proof using.
  intros (t1 & o1 & E1 & B1 & HS1 & T1 & F1) Hk. destruct (Hk t1 B1 HS1) as (t2 & o2 & E2 & B2 & HS2 & T2 & F2).
  exists t2, (o1 ++ o2). unfold mbind, sv_bind. rewrite E1. split; [exact E2|]. split; [exact B2|].
  split; [exact HS2|]. split; [rewrite T2, T1; now rewrite app_assoc|now apply Forall2_app].
Qed.

Lemma runs_ret t (S : Server -> Prop) : buffers_ok t -> S (t_server t) -> runs (mret tt) t S [].
Proof using.
  intros B HS. exists t, []. split; [reflexivity|]. split; [exact B|]. split; [exact HS|].
  split; [symmetry; apply app_nil_r|constructor].
Qed.

(** A thread with another shared state. *)
Definition with_server (s : Server) (t : Thread) : Thread := mkThread s (t_buf t) (t_dynamicbuf t) (t_sent t).
Definition with_db (w : Wrapper DB Snap) (s : Server) : Server :=
  mkServer w (cached_keyset s) (issnapshot s) (snapshottoken s).

Lemma with_server_ok s t : buffers_ok t -> buffers_ok (with_server s t).
Proof using. intros [? ? ? ?]. constructor; assumption. Qed.

Lemma runs_on_db {A} (m : rw DB Snap A) (k : A -> sv unit) a w t S rs :
  m (db_wrapper (t_server t)) = Ok (a, w) ->
  runs (k a) (with_server (with_db w (t_server t)) t) S rs -> runs (x ← on_db m; k x) t S rs.
Proof using. intros E H. unfold runs, mbind, sv_bind, on_db. rewrite E. exact H. Qed.

Lemma runs_recv {A} (parse : Z -> Z -> reader A) (k : A -> sv unit) req t S rs :
  parsed (t_dynamicbuf t) parse req -> runs (k req) t S rs -> runs (x ← recv_large parse; k x) t S rs.
Proof using. intros E H. unfold runs, mbind, sv_bind, recv_large. rewrite E. exact H. Qed.

(** ** Cache population *)

Definition caches (k : Key) (s s' : Server) : Prop :=
  db_wrapper s' = db_wrapper s /\ issnapshot s' = issnapshot s /\ snapshottoken s' = snapshottoken s /\
  m_sorted (cached_keyset s') /\ forall k', cached s' k' = cached s k' || bool_decide (k' = k).

Lemma send_cachepop_sends t k v seq stat :
  buffers_ok t -> key_wf k -> small_val v -> is_u32 seq ->
  sends (cache_pop_req ← sv_lift (CachePop_new (uninit cfg) CURMETHOD_ID k v seq stat idx);
         send_buf ToPopserver (CachePop_serialize cache_pop_req)) t [RPop k v seq stat].
Proof using Hcfg.
  intros Ht Hk Hv Hs. pose proof (small_size v Hv) as Hz. pose proof (co_idx cfg Hcfg) as Hi.
  unfold CachePop_new. rewrite (proj2 (Z.leb_le (val_length v) _)) by apply Hv.
  rewrite (proj2 (Z.leb_le 0 seq)) by apply Hs. rewrite (proj2 (Z.leb_le 0 idx)) by apply Hi.
  assert (Hval : qs_val (PutRequestSeq_new (uninit cfg) FARREACH_ID k v seq) = v) by apply Val_copy_wf, Hv.
  apply (sends_buf CachePop_class
    (mkCachePop (set_qs_type CACHE_POP (PutRequestSeq_new (uninit cfg) FARREACH_ID k v seq)) stat idx));
    [apply CachePop_ok| |reflexivity| |exact Ht|].
  - split; [|split; [reflexivity|exact Hi]]. apply new_qs_wf; auto using farreach_id_valid; [apply Hcfg|].
    unfold is_u16, CACHE_POP. lia.
  - cbn [pc_size CachePop_class cp_put]. unfold qs_prefix. cbn [qs_val set_qs_type]. rewrite Hval.
    cbn -[val_wire_size]. unfold MAX_BUFSIZE. lia.
  - intros bs R. split; [reflexivity|]. eexists. split; [exact R|]. repeat split. exact Hval.
Qed.

Lemma trigger_runs t k v seq stat :
  buffers_ok t -> m_sorted (cached_keyset (t_server t)) -> key_wf k -> small_val v -> is_u32 seq ->
  runs (trigger_cachepop cfg k v seq stat) t (caches k (t_server t))
    (if cached (t_server t) k then [] else [RPop k v seq stat]).
Proof using Hcfg.
  intros Ht Hm Hk Hv Hs. unfold trigger_cachepop.
  assert (Ec : (keyset_is_exist k : sv bool) t = Ok (cached (t_server t) k, t)) by reflexivity.
  unfold runs, mbind at 1, sv_bind at 1. rewrite Ec. clear Ec. destruct (cached (t_server t) k) eqn:E.
  - apply runs_ret; [exact Ht|]. repeat split; auto. intros k'. destruct (bool_decide_reflect (k' = k)) as [->|];
      [now rewrite E|now rewrite orb_false_r].
  - set (t1 := with_server (set_keyset (m_insert k tt (cached_keyset (t_server t))) (t_server t)) t).
    destruct (send_cachepop_sends t1 k v seq stat (with_server_ok _ t Ht) Hk Hv Hs)
      as (t2 & out & E2 & B & HS & T & F).
    exists t2, out. split; [exact E2|]. split; [exact B|]. split; [|auto]. rewrite HS.
    split; [reflexivity|]. split; [reflexivity|]. split; [reflexivity|]. split; [now apply m_insert_sorted|].
    intros k'. cbn. unfold cached at 1. cbn [cached_keyset set_keyset]. unfold cached in E.
    destruct (m_find k (cached_keyset (t_server t))) eqn:Ef; [discriminate|].
    unfold cached. destruct (bool_decide_reflect (k' = k)) as [->|Hne].
    + now rewrite m_find_insert_eq, orb_true_r.
    + now rewrite m_find_insert_ne, orb_false_r by auto.
Qed.

(** ** The store behind the worker *)

Definition reading_wf (x : bool * Val * Z) : Prop :=
  val_wf x.1.2 /\ is_u32 x.2 /\ (x.1.1 = false -> val_length x.1.2 = 0).

Lemma val_default_wf : val_wf Val_default.
Proof using. left. reflexivity. Qed.

Lemma reading_ok s k : server_ok s -> key_wf k -> reading_wf (reading (ver s k)).
Proof using Hlaws Havail.
  intros [Hw _] Hk. destruct (wo_store _ Hw) as (db & E & Hs). unfold ver, version. rewrite E.
  destruct (db_Get_cases db _ _ k Hs Hk) as [[_ ->]|(v & q & Hv & Hq & _ & _ & _ & ->)].
  - split; [apply val_default_wf|]. split; [|reflexivity]. cbn.
    destruct (tomb (deleted_set (db_wrapper s)) k) as [x|] eqn:Ex; cbn; [apply (so_tomb _ _ _ Hs k x Ex)|].
    unfold is_u32; lia.
  - split; [exact Hv|]. split; [exact Hq|]. discriminate.
Qed.

(** The steps the store takes under a worker: client operations, loads, and the
    snapshot in front of a CASE3 write. *)
Inductive db_step (w w' : Wrapper DB Snap) : Prop :=
  | db_client : client_step w w' -> db_step w w'
  | db_load k v b : key_wf k -> val_wf v -> tomb (deleted_set w) k = None -> 0 <= maxseq w ->
      force_put k v w = Ok (b, w') -> db_step w w'
  | db_snapshot tid b : 0 <= tid -> make_snapshot tid w = Ok (b, w') -> db_step w w'.

(** A server that [s0] has become by steps of the store, with the versions [V]
    and the cached keys [C]. *)
Definition state_is (s0 : Server) (V : Key -> option Val * Z) (C : Key -> bool) (s : Server) : Prop :=
  server_ok s /\ (rtc db_step (db_wrapper s0) (db_wrapper s) /\ issnapshot s = issnapshot s0) /\
  (forall k, key_wf k -> ver s k = V k) /\ (forall k, cached s k = C k).

Lemma state_is_db w s V :
  server_ok s -> wrapper_ok w -> db_step (db_wrapper s) w -> (forall k, key_wf k -> version w k = V k) ->
  state_is s V (cached s) (with_db w s).
Proof using.
  intros [Hw Hm] Hok Hst HV. split; [constructor; assumption|]. split; [split; [now apply rtc_once|reflexivity]|].
  split; [exact HV|reflexivity].
Qed.

(** The continuation of a read sees the reading and an equivalent server. *)
Lemma runs_get k (f : bool * Val * Z -> sv unit) t S rs :
  buffers_ok t -> server_ok (t_server t) -> key_wf k ->
  (forall t1, buffers_ok t1 -> t_sent t1 = t_sent t -> state_is (t_server t) (ver (t_server t)) (cached (t_server t)) (t_server t1) ->
     runs (f (reading (ver (t_server t) k))) t1 S rs) ->
  runs (x ← on_db (get k Val_default 0); f x) t S rs.
Proof using Hlaws Havail.
  intros Ht Hs Hk Hf. destruct (get_post (db_wrapper (t_server t)) k Val_default 0 (sk_db _ Hs) Hk)
    as (w & E & Hw & _ & _ & HV).
  apply (runs_on_db (get k Val_default 0) f _ w t S rs E).
  apply Hf; [now apply with_server_ok|reflexivity|]. apply state_is_db; eauto using db_step, client_step.
Qed.

(** ** Writes *)

Definition write_ok (s : Server) (k : Key) (new : option Val) (seq : Z) : Prop :=
  key_wf k /\ is_u32 seq /\
  match new with
  | Some v => val_wf v
  | None => seq_fresh (deleted_set (db_wrapper s)) k seq /\
            ds_size (deleted_set (db_wrapper s)) < max_size (deleted_set (db_wrapper s))
  end.

Definition write_db (k : Key) (new : option Val) (seq : Z) (checkseq : bool) : rw DB Snap bool :=
  match new with Some v => put k v seq checkseq | None => remove k seq checkseq end.

Lemma write_db_run s k new seq checkseq :
  wrapper_ok (db_wrapper s) -> write_ok s k new seq ->
  exists w, write_db k new seq checkseq (db_wrapper s) = Ok (negb (refused (ver s k) seq), w) /\
    client_step (db_wrapper s) w /\
    write_post (db_wrapper s) w k seq (upd_version checkseq (ver s k) new seq).
Proof using Hlaws Havail.
  intros Hw (Hk & Hq & Hn). destruct new as [v|]; cbn [write_db].
  - destruct (put_run (db_wrapper s) k v seq checkseq Hw Hk Hn Hq) as (w & E & _ & _ & P). eauto 6 using client_step.
  - destruct Hn as [Hf Hz]. destruct (remove_run (db_wrapper s) k seq checkseq Hw Hk Hq Hf Hz) as (w & E & _ & _ & P).
    eauto 6 using client_step.
Qed.

Definition written (V : Key -> option Val * Z) (k : Key) (x : option Val * Z) (k' : Key) : option Val * Z :=
  if decide (k' = k) then x else V k'.

(** The continuation of a write sees whether it was refused and the new version. *)
Lemma runs_write k new seq checkseq (f : bool -> sv unit) t S rs :
  buffers_ok t -> server_ok (t_server t) -> write_ok (t_server t) k new seq ->
  (forall t1, buffers_ok t1 -> t_sent t1 = t_sent t ->
     state_is (t_server t) (written (ver (t_server t)) k (upd_version checkseq (ver (t_server t) k) new seq))
       (cached (t_server t)) (t_server t1) ->
     runs (f (negb (refused (ver (t_server t) k) seq))) t1 S rs) ->
  runs (x ← on_db (write_db k new seq checkseq); f x) t S rs.
Proof using Hlaws Havail.
  intros Ht Hs Hk Hf. destruct (write_db_run _ k new seq checkseq (sk_db _ Hs) Hk) as (w & E & Hcs & [P1 _ _ _ P5]).
  apply (runs_on_db _ f _ w t S rs E). apply Hf; [now apply with_server_ok|reflexivity|].
  apply state_is_db; [exact Hs|exact P1|now constructor|exact P5].
Qed.

(** ** CASE3 snapshots *)

Definition case3_ready (s : Server) (token : Z) : Prop :=
  issnapshot s = true \/ token <= u32 (snapshottoken s) \/
  (0 <= s32 token /\ (snapshotid (db_wrapper s) = -1 \/ is_snapshot (db_wrapper s) = true \/
                      snapshot_ready (db_wrapper s))).

Lemma make_snapshot_declined (w : Wrapper DB Snap) tid :
  wrapper_ok w -> 0 <= tid -> snapshotid w = -1 \/ is_snapshot w = true ->
  make_snapshot tid w = Ok (false, w).
Proof using.
  intros Hw Ht Hc. unfold make_snapshot, mbind, rw_bind. rewrite needsnapshot_ok by assumption.
  unfold inv, lift. cbn [INVARIANT]. rewrite (proj2 (Z.leb_le 0 tid)) by lia. cbn [INVARIANT].
  unfold gets. destruct (Z.eqb_spec (snapshotid w) (-1)); [reflexivity|].
  destruct Hc as [Hc|Hc]; [congruence|]. now rewrite Hc.
Qed.

Lemma case3_run t token :
  server_ok (t_server t) -> case3_ready (t_server t) token ->
  exists s, case3_snapshot token t = Ok (tt, with_server s t) /\ server_ok s /\
    rtc db_step (db_wrapper (t_server t)) (db_wrapper s) /\ issnapshot s = issnapshot (t_server t) /\
    deleted_set (db_wrapper s) = deleted_set (db_wrapper (t_server t)) /\
    cached_keyset s = cached_keyset (t_server t) /\ (forall k, ver s k = ver (t_server t) k).
Proof using Hlaws.
  intros Hs Hc. destruct Hs as [Hw Hm]. destruct t as [[w ks0 iss tok] buf d sent]. 
  cbn [t_server db_wrapper cached_keyset] in *. unfold case3_ready in Hc. cbn [issnapshot snapshottoken db_wrapper] in Hc.
  unfold case3_snapshot, mbind, sv_bind, get_server. cbn [t_server issnapshot snapshottoken].
  destruct iss; [eexists; split; [reflexivity|]; split; [constructor; assumption|]; auto using rtc_refl|]. cbn [negb t_server snapshottoken].
  destruct (Z.ltb_spec (u32 tok) token) as [Hlt|Hge]; [|eexists; split; [reflexivity|]; split; [constructor; assumption|]; auto using rtc_refl].
  destruct Hc as [Hc|[Hc|[Ht Hc]]]; [discriminate|lia|]. unfold on_db. cbn [db_wrapper].
  assert (Hcase : (snapshotid w = -1 \/ is_snapshot w = true) \/ snapshot_ready w) by tauto. destruct Hcase as [Hn|Hr].
  - cbn [t_server db_wrapper]. rewrite make_snapshot_declined by assumption. eexists; split; [reflexivity|]; split; [constructor; assumption|]; auto using rtc_refl.
  - destruct (wo_store w Hw) as (db & Edb & _).
    destruct (make_snapshot_run w db (s32 token) Hw Hr Edb Ht) as (w' & db' & sn & E & W & D & V & _).
    cbn [t_server db_wrapper]. rewrite E. eexists; split; [reflexivity|]; split; [constructor; assumption|]; split; [apply rtc_once; eapply db_snapshot; eassumption|]; auto.
Qed.

(** ** Requests *)

(** What the worker relies on: fields in the range of their types, replies that
    fit the array, and the preconditions of the store for deletions, loads and
    CASE3 snapshots. *)
Definition admissible (s : Server) (r : Request) : Prop :=
  match r with
  | QGet _ k | QGetLatest k => key_wf k /\ reply_fits (reading (ver s k)).1.2
  | QWrite token pop k new seq =>
      write_ok s k new seq /\ (forall tok, token = Some tok -> case3_ready s tok) /\
      (forall v, pop = true -> new = Some v -> val_length v <= SWITCH_MAX_VALLEN)
  | QWarmup k => key_wf k
  | QLoad k v => key_wf k /\ val_wf v /\ tomb (deleted_set (db_wrapper s)) k = None /\ 0 <= maxseq (db_wrapper s)
  | QGetRecord k v seq stat =>
      key_wf k /\ val_wf v /\ is_u32 seq /\ reply_fits v /\ reply_fits (reading (ver s k)).1.2
  end.

Abbreviation wl := (workload_mode cfg).
Definition refines (s : Server) (r : Request) : Server -> Prop :=
  state_is s (spec_version (ver s) r) (spec_cached wl (ver s) (cached s) r).
Definition replies (s : Server) (r : Request) : list Reply := spec_replies wl (ver s) (cached s) r.

Lemma state_is_ext s0 V C V' C' s :
  state_is s0 V C s -> (forall k, key_wf k -> V k = V' k) -> (forall k, C k = C' k) -> state_is s0 V' C' s.
Proof using.
  intros (H & Hst & HV & HC) EV EC. split; [exact H|]. split; [exact Hst|]. split; [|intros k; now rewrite HC].
  intros k Hk. now rewrite HV, EV.
Qed.

Lemma cached_nil (C : Key -> bool) k : C k = C k || bool_decide (k ∈ @nil Key).
Proof using. rewrite bool_decide_eq_false_2 by apply not_elem_of_nil. now rewrite orb_false_r. Qed.

(** What a trigger caches and sends, as [spec_pop] lists it. *)
Lemma pop_runs t s0 V C k v seq stat (R : list (Key * Val * Z * bool)) :
  buffers_ok t -> state_is s0 V C (t_server t) -> key_wf k -> small_val v -> is_u32 seq ->
  R = (if C k then [] else [(k, v, seq, stat)]) ->
  runs (trigger_cachepop cfg k v seq stat) t
    (state_is s0 V (fun k' => C k' || bool_decide (k' ∈ map (fun x => x.1.1.1) R)))
    (map (fun '(k, v, s, st) => RPop k v s st) R).
Proof using Hcfg.
  intros Ht (Hs & Hst & HV & HC) Hk Hv Hq ->.
  pose proof (trigger_runs t k v seq stat Ht (sk_keys _ Hs) Hk Hv Hq) as H.
  rewrite HC in H. assert (Er : map (fun '(k, v, s, st) => RPop k v s st) (if C k then [] else [(k, v, seq, stat)])
    = if C k then [] else [RPop k v seq stat]) by (destruct (C k); reflexivity). rewrite Er.
  apply (runs_weaken _ _ _ _ _ H). intros s' (Ew & Ei & _ & Hm & Hc). split.
  - constructor; [|exact Hm]. rewrite Ew. apply Hs.
  - split; [now rewrite Ew, Ei|]. split; [intros k' Hk'; unfold ver; rewrite Ew; now apply HV|]. intros k'. rewrite Hc, HC.
    destruct (C k) eqn:E; cbn.
    + rewrite <- cached_nil. destruct (bool_decide_reflect (k' = k)) as [->|]; [now rewrite E|now rewrite orb_false_r].
    + f_equal. apply bool_decide_ext. rewrite list_elem_of_singleton. reflexivity.
Qed.

Lemma no_pop s0 V C s R : R = [] -> state_is s0 V C s ->
  state_is s0 V (fun k' => C k' || bool_decide (k' ∈ map (fun x : Key * Val * Z * bool => x.1.1.1) R)) s.
Proof using. intros -> H. apply (state_is_ext _ _ _ _ _ _ H); [reflexivity|]. intros k. apply cached_nil. Qed.

Lemma handle_getreq_runs t req (r := QGet false (p_key (gr_base req))) :
  buffers_ok t -> server_ok (t_server t) -> parsed (t_dynamicbuf t) GetRequest_parse req ->
  admissible (t_server t) r -> runs (handle_getreq cfg) t (refines (t_server t) r) (replies (t_server t) r).
Proof using Hcfg Hlaws Havail.
  subst r. intros Ht Hs Hp [Hk Hf]. apply (runs_recv _ _ _ _ _ _ Hp).
  pose proof (reading_ok _ _ Hs Hk) as (Hv & Hq & _). apply runs_get; auto. intros t1 Ht1 _ Hst.
  unfold replies, spec_replies, spec_answer. cbn [spec_pop map].
  destruct (reading (ver (t_server t) (p_key (gr_base req)))) as [[st v] sq]. cbn in Hv, Hq, Hf.
  eapply runs_weaken; [apply send_getres_sends; auto|]. intros s' ->. now apply no_pop.
Qed.

Lemma handle_getreq_nlatest_runs t req (r := QGetLatest (p_key (gr_base req))) :
  buffers_ok t -> server_ok (t_server t) -> parsed (t_dynamicbuf t) GetRequestNLatest_parse req ->
  admissible (t_server t) r -> runs (handle_getreq_nlatest cfg) t (refines (t_server t) r) (replies (t_server t) r).
Proof using Hcfg Hlaws Havail.
  subst r. intros Ht Hs Hp [Hk Hf]. apply (runs_recv _ _ _ _ _ _ Hp).
  pose proof (reading_ok _ _ Hs Hk) as (Hv & Hq & Hn). apply runs_get; auto. intros t1 Ht1 _ Hst.
  unfold replies, spec_replies, spec_answer. cbn [spec_pop map].
  destruct (reading (ver (t_server t) (p_key (gr_base req)))) as [[st v] sq]. cbn in Hv, Hq, Hf, Hn.
  fold (is_small v). destruct (is_small v) eqn:Es.
  - eapply runs_weaken; [apply send_latest_sends; auto using is_small_val|]. intros s' ->. now apply no_pop.
  - rewrite large_val_reply by auto.
    eapply runs_weaken; [apply send_large_sends; auto|]. intros s' ->. now apply no_pop.
Qed.

Lemma handle_getreq_pop_runs t req (r := QGet true (p_key (gr_base req))) :
  buffers_ok t -> server_ok (t_server t) -> parsed (t_dynamicbuf t) GetRequestPOP_parse req ->
  admissible (t_server t) r -> runs (handle_getreq_pop cfg) t (refines (t_server t) r) (replies (t_server t) r).
Proof using Hcfg Hlaws Havail.
  subst r. intros Ht Hs Hp [Hk Hf]. apply (runs_recv _ _ _ _ _ _ Hp).
  pose proof (reading_ok _ _ Hs Hk) as (Hv & Hq & _). apply runs_get; auto. intros t1 Ht1 _ Hst.
  unfold refines, spec_cached, replies, spec_replies, spec_answer, spec_pop.
  destruct (reading (ver (t_server t) (p_key (gr_base req)))) as [[st v] sq]. cbn in Hv, Hq, Hf.
  eapply (runs_bind _ _ _ _ _ [_]); [apply send_getres_sends; auto|]. intros t2 Ht2 E2. cbn beta in E2.
  rewrite <- E2 in Hst. fold (is_small v).
  destruct (is_small v) eqn:Es; [|apply runs_ret; [exact Ht2|now apply no_pop]].
  destruct (wl =? 0); cbn [negb andb]; [apply runs_ret; [exact Ht2|now apply no_pop]|].
  now apply pop_runs; auto using is_small_val.
Qed.

(** ** Writes *)

Lemma put_answer t k seq s0 V C :
  buffers_ok t -> state_is s0 V C (t_server t) -> key_wf k -> is_u32 seq ->
  runs (send_putres cfg k seq) t (state_is s0 V C) [RPut k seq].
Proof using Hcfg. intros Ht Hst Hk Hq. eapply runs_weaken; [now apply send_putres_sends|]. now intros s' ->. Qed.

Lemma del_answer t k seq s0 V C :
  buffers_ok t -> state_is s0 V C (t_server t) -> key_wf k -> is_u32 seq ->
  runs (send_delres cfg k seq) t (state_is s0 V C) [RDel k seq].
Proof using Hcfg. intros Ht Hst Hk Hq. eapply runs_weaken; [now apply send_delres_sends|]. now intros s' ->. Qed.

Lemma spec_written token pop k new seq V (k' : Key) :
  written V k (upd_version false (V k) new seq) k' = spec_version V (QWrite token pop k new seq) k'.
Proof using. reflexivity. Qed.

(** A write without cache population. *)
Lemma write_runs t token k new seq (r := QWrite token false k new seq) :
  buffers_ok t -> server_ok (t_server t) -> write_ok (t_server t) k new seq ->
  runs (_ ← on_db (write_db k new seq false);
        match new with Some _ => send_putres cfg k seq | None => send_delres cfg k seq end) t
    (refines (t_server t) r) (replies (t_server t) r).
Proof using Hcfg Hlaws Havail.
  subst r. intros Ht Hs Hw. apply runs_write; auto. intros t1 Ht1 _ Hst. destruct Hw as (Hk & Hq & _).
  apply (no_pop _ _ _ _ [] eq_refl) in Hst. unfold refines, spec_cached, replies, spec_replies, spec_answer, spec_pop.
  destruct new; [apply put_answer|apply del_answer]; auto.
Qed.

(** A write that may populate the cache. *)
Lemma write_pop_runs t token k v seq (r := QWrite token true k (Some v) seq) :
  buffers_ok t -> server_ok (t_server t) -> write_ok (t_server t) k (Some v) seq ->
  val_length v <= SWITCH_MAX_VALLEN ->
  runs (tmp_stat ← on_db (put k v seq false);
        _ ← send_putres cfg k seq;
        if negb (wl =? 0) then trigger_cachepop cfg k v seq tmp_stat else mret tt) t
    (refines (t_server t) r) (replies (t_server t) r).
Proof using Hcfg Hlaws Havail.
  subst r. intros Ht Hs Hw Hl. apply (runs_write k (Some v) seq false); auto. intros t1 Ht1 _ Hst.
  destruct Hw as (Hk & Hq & Hv).
  unfold refines, spec_cached, replies, spec_replies, spec_answer, spec_pop.
  eapply (runs_bind _ _ _ _ _ [_]); [now apply (put_answer _ _ _ _ _ _ Ht1 Hst)|]. intros t2 Ht2 Hst2.
  destruct (wl =? 0); cbn [negb]; [apply runs_ret; [exact Ht2|now apply no_pop]|].
  now apply pop_runs; auto.
Qed.

(** The snapshot in front of a CASE3 write changes no version. *)
Lemma runs_case3 t tok token pop k new seq (m : sv unit) (r := QWrite token pop k new seq) :
  server_ok (t_server t) -> case3_ready (t_server t) tok ->
  write_ok (t_server t) k new seq ->
  (forall s, server_ok s -> write_ok s k new seq ->
     runs m (with_server s t) (refines s r) (replies s r)) ->
  runs (_ ← case3_snapshot tok; m) t (refines (t_server t) r) (replies (t_server t) r).
Proof using Hlaws.
  subst r. intros Hs Hc Hw Hm. destruct (case3_run t tok Hs Hc) as (s & E & Hs' & Hst & Hi & Hd & Hck & HV).
  assert (Hw' : write_ok s k new seq) by (unfold write_ok in *; now rewrite Hd).
  specialize (Hm s Hs' Hw'). unfold runs in *. unfold mbind, sv_bind. rewrite E.
  destruct Hm as (t' & out & E' & B & HS & T & F). exists t', out. split; [exact E'|]. split; [exact B|].
  assert (EC : forall k', cached s k' = cached (t_server t) k') by (intros k'; unfold cached; now rewrite Hck).
  assert (EP : spec_pop wl (ver s) (cached s) (QWrite token pop k new seq) =
               spec_pop wl (ver (t_server t)) (cached (t_server t)) (QWrite token pop k new seq)).
  { cbn [spec_pop]. destruct pop, new; try reflexivity. now rewrite HV, EC. }
  split; [|split; [exact T|]].
  - destruct HS as (HS1 & [HS2 HS3] & HS4). assert (HS : state_is (t_server t) (spec_version (ver s) (QWrite token pop k new seq))
      (spec_cached wl (ver s) (cached s) (QWrite token pop k new seq)) (t_server t')).
    { split; [exact HS1|]. split; [split; [now rewrite Hst|congruence]|exact HS4]. }
    eapply state_is_ext; [exact HS| |].
    + intros k' _. cbn [spec_version]. now rewrite !HV.
    + intros k'. unfold spec_cached. now rewrite EP, EC.
  - unfold replies, spec_replies in *. now rewrite <- EP.
Qed.

Lemma case3_write_runs t tok k new seq (r := QWrite (Some tok) false k new seq) :
  buffers_ok t -> server_ok (t_server t) -> admissible (t_server t) r ->
  runs (_ ← case3_snapshot tok;
        _ ← on_db (write_db k new seq false);
        match new with Some _ => send_putres cfg k seq | None => send_delres cfg k seq end) t
    (refines (t_server t) r) (replies (t_server t) r).
Proof using Hcfg Hlaws Havail.
  subst r. intros Ht Hs (Hw & Hc & _). apply runs_case3; auto. intros s Hs' Hw'.
  apply (write_runs (with_server s t)); auto using with_server_ok.
Qed.

Lemma case3_write_pop_runs t tok k v seq (r := QWrite (Some tok) true k (Some v) seq) :
  buffers_ok t -> server_ok (t_server t) -> admissible (t_server t) r ->
  runs (_ ← case3_snapshot tok;
        tmp_stat ← on_db (put k v seq false);
        _ ← send_putres cfg k seq;
        if negb (wl =? 0) then trigger_cachepop cfg k v seq tmp_stat else mret tt) t
    (refines (t_server t) r) (replies (t_server t) r).
Proof using Hcfg Hlaws Havail.
  subst r. intros Ht Hs (Hw & Hc & Hl). apply runs_case3; auto. intros s Hs' Hw'.
  apply (write_pop_runs (with_server s t)); auto using with_server_ok.
Qed.

(** ** Warm-up, load and reads with the record of the switch *)

Lemma handle_warmupreq_runs t req (r := QWarmup (p_key req)) :
  buffers_ok t -> server_ok (t_server t) -> parsed (t_dynamicbuf t) WarmupRequest_parse req ->
  admissible (t_server t) r -> runs (handle_warmupreq cfg) t (refines (t_server t) r) (replies (t_server t) r).
Proof using Hcfg Hlaws Havail.
  subst r. intros Ht Hs Hp Hk. cbn in Hk. apply (runs_recv _ _ _ _ _ _ Hp).
  pose proof (reading_ok _ _ Hs Hk) as (Hv & Hq & _). apply runs_get; auto. intros t1 Ht1 _ Hst.
  unfold refines, spec_cached, replies, spec_replies, spec_answer, spec_pop.
  destruct (reading (ver (t_server t) (p_key req))) as [[st v] sq]. cbn in Hv, Hq.
  eapply (runs_bind _ _ _ _ _ [_]); [apply (send_ack_sends t1 ToClient WARMUPACK (p_key req)); auto|].
  { unfold is_u16, WARMUPACK. lia. }
  intros t2 Ht2 E2. cbn beta in E2. rewrite <- E2 in Hst.
  assert (E : (if SWITCH_MAX_VALLEN <? val_length v then Val_default else v) =
              (if is_small v then v else Val_default)).
  { unfold is_small. rewrite Z.leb_antisym. now destruct (SWITCH_MAX_VALLEN <? val_length v). }
  rewrite E. apply pop_runs; auto. destruct (is_small v) eqn:Es; [now apply is_small_val|].
  split; [apply val_default_wf|cbn; unfold SWITCH_MAX_VALLEN; lia].
Qed.

Lemma force_put_run (w : Wrapper DB Snap) k v :
  wrapper_ok w -> key_wf k -> val_wf v -> tomb (deleted_set w) k = None -> 0 <= maxseq w ->
  exists w', force_put k v w = Ok (true, w') /\ wrapper_ok w' /\ frame w w' /\
    (forall k', key_wf k' -> version w' k' = if decide (k' = k) then (Some v, 0) else version w k').
Proof using Hlaws Havail.
  intros Hw Hk Hv Ht Hm. destruct (wo_store w Hw) as (db & Edb & Hs).
  assert (Hfo : forgets (deleted_set w) k (deleted_set w)).
  { split; [apply Hs|]. split; [reflexivity|]. split; [lia|]. intros k'. destruct (decide (k' = k)) as [->|]; auto. }
  destruct (store_ok_put db _ (maxseq w) k v 0 _ (maxseq w) Hs Hk Hv ltac:(unfold is_u32; lia) ltac:(lia) Hm Hfo) as [Hs' HV].
  exists (set_db (db_Put db (ks k) (enc v 0)).2 w). split; [|split; [|split]].
  - unfold force_put, mbind, rw_bind. rewrite Val_to_string_wf by assumption. fold (enc v 0). cbn [lift].
    unfold the_db. rewrite Edb. pose proof (put_ok db (ks k) (enc v 0)) as Ho.
    destruct (db_Put db (ks k) (enc v 0)) as [st db']. cbn in Ho. subst st. reflexivity.
  - constructor; [apply Hw|]. eexists. split; [reflexivity|exact Hs'].
  - unfold frame. repeat split. intros d d' H1 H2 sp key. cbn in H2. simplify_eq. apply snap_put.
  - intros k' Hk'. unfold version. rewrite Edb. cbn [db_ptr set_db deleted_set]. now apply HV.
Qed.

Lemma handle_loadreq_runs t req (r := QLoad (p_key (lr_base req)) (lr_val req)) :
  buffers_ok t -> server_ok (t_server t) -> parsed (t_dynamicbuf t) LoadRequest_parse req ->
  admissible (t_server t) r -> runs handle_loadreq t (refines (t_server t) r) (replies (t_server t) r).
Proof using Hlaws Havail.
  subst r. intros Ht Hs Hp (Hk & Hv & Htb & Hm). apply (runs_recv _ _ _ _ _ _ Hp).
  destruct (force_put_run _ _ _ (sk_db _ Hs) Hk Hv Htb Hm) as (w & E & Hw & _ & HV).
  apply (runs_on_db (force_put _ _) _ true w); [exact E|].
  eapply runs_weaken; [apply (send_ack_sends _ ToClient LOADACK); auto using with_server_ok; unfold is_u16, LOADACK; lia|].
  intros s' ->. apply no_pop; [reflexivity|]. cbn [t_server with_server]. apply state_is_db; eauto using db_step.
Qed.

Lemma handle_record_runs t type req (r := of_record req) :
  buffers_ok t -> server_ok (t_server t) -> parsed (t_dynamicbuf t) (GetResponseSeq_parse type) req ->
  admissible (t_server t) r -> runs (handle_getreq_record cfg type) t (refines (t_server t) r) (replies (t_server t) r).
Proof using Hcfg Hlaws Havail.
  subst r. intros Ht Hs Hp (Hk & Hv & Hq & Hf & Hf'). apply (runs_recv _ _ _ _ _ _ Hp).
  pose proof (reading_ok _ _ Hs Hk) as (Hv' & Hq' & _). apply runs_get; auto. intros t1 Ht1 _ Hst.
  unfold replies, spec_replies, spec_answer, of_record. cbn [spec_pop map].
  destruct (reading (ver (t_server t) (p_key (gp_base (gs_resp req))))) as [[st v] sq]. cbn in Hv', Hq', Hf'.
  destruct (sq <? gs_seq req); (eapply runs_weaken; [apply send_getres_sends; auto|]); intros s' ->; now apply no_pop.
Qed.

(** ** Dispatch *)

Lemma runs_step t type S rs :
  typed (t_dynamicbuf t) type -> (forall a b, runs (handle_packet cfg a b type) t S rs) ->
  runs (worker_step cfg) t S rs.
Proof using Hcfg.
  intros Hty H. destruct (co_range cfg Hcfg) as [[a b] Er]. specialize (H a b). revert H.
  unfold runs, worker_step, mbind, sv_bind, sv_lift, recv_large. rewrite Er. unfold typed in Hty. now rewrite Hty.
Qed.

Lemma runs_evicted {A} (parse : Z -> Z -> reader A) (g : A -> Key * Val * Z * option Z * bool) type req t S rs :
  (recv_beingevicted type : sv _) = (x ← recv_large parse; mret (g x)) -> parsed (t_dynamicbuf t) parse req ->
  runs ('(tmp_key, tmp_val, tmp_seq, tmp_snapshottoken, tmp_isdelete) ← (mret (g req) : sv (Key * Val * Z * option Z * bool));
        _ ← match (tmp_snapshottoken : option Z) with Some token => case3_snapshot token | None => mret tt end;
        if negb tmp_isdelete then
          _ ← on_db (put tmp_key tmp_val tmp_seq false); send_putres cfg tmp_key tmp_seq
        else _ ← on_db (remove tmp_key tmp_seq false); send_delres cfg tmp_key tmp_seq) t S rs ->
  runs (handle_beingevicted cfg type) t S rs.
Proof using.
  intros E Hp H. unfold handle_beingevicted. rewrite E. revert H.
  unfold runs, mbind, sv_bind, recv_large. unfold parsed in Hp. rewrite Hp. auto.
Qed.

(** Opens the dispatch of a packet with a known type. *)
Ltac dispatch Hty := apply (runs_step _ _ _ _ Hty); intros a b.
Ltac evicted Hp type := eapply (runs_evicted _ _ type); [reflexivity|exact Hp|].

Lemma worker_runs t r :
  buffers_ok t -> server_ok (t_server t) -> carries (t_dynamicbuf t) r -> admissible (t_server t) r ->
  runs (worker_step cfg) t (refines (t_server t) r) (replies (t_server t) r).
Proof using Hcfg Hlaws Havail.
  intros Ht Hs Hc Ha. destruct Hc as [req Hty Hp|req Hty Hp|req Hty Hp|req Hty Hp|req Hty Hp|req Hty Hp|req Hty Hp
    |req Hty Hp|req Hty Hp|req Hty Hp|req Hty Hp|req Hty Hp|req Hty Hp|req Hty Hp|req Hty Hp|req Hty Hp|req Hty Hp
    |req Hty Hp|req Hty Hp|req Hty Hp|req Hty Hp]; dispatch Hty.
  - now apply handle_getreq_runs.
  - now apply handle_getreq_pop_runs.
  - now apply handle_getreq_nlatest_runs.
  - apply (runs_recv _ _ _ _ _ _ Hp). now apply (write_runs t _ _ (Some _)); auto; apply Ha.
  - apply (runs_recv _ _ _ _ _ _ Hp). destruct Ha as (Hw & _ & Hl). apply write_pop_runs; auto.
  - apply (runs_recv _ _ _ _ _ _ Hp). now apply (case3_write_runs t _ _ (Some _)).
  - apply (runs_recv _ _ _ _ _ _ Hp). now apply case3_write_pop_runs.
  - evicted Hp PUTREQ_SEQ_BEINGEVICTED. now apply (write_runs t _ _ (Some _)); auto; apply Ha.
  - evicted Hp PUTREQ_SEQ_CASE3_BEINGEVICTED. now apply (case3_write_runs t _ _ (Some _)).
  - apply (runs_recv _ _ _ _ _ _ Hp). now apply (write_runs t _ _ (Some _)); auto; apply Ha.
  - apply (runs_recv _ _ _ _ _ _ Hp). now apply (case3_write_runs t _ _ (Some _)).
  - evicted Hp PUTREQ_LARGEVALUE_SEQ_BEINGEVICTED. now apply (write_runs t _ _ (Some _)); auto; apply Ha.
  - evicted Hp PUTREQ_LARGEVALUE_SEQ_CASE3_BEINGEVICTED. now apply (case3_write_runs t _ _ (Some _)).
  - apply (runs_recv _ _ _ _ _ _ Hp). now apply (write_runs t _ _ None); auto; apply Ha.
  - apply (runs_recv _ _ _ _ _ _ Hp). now apply (case3_write_runs t _ _ None).
  - evicted Hp DELREQ_SEQ_BEINGEVICTED. now apply (write_runs t _ _ None); auto; apply Ha.
  - evicted Hp DELREQ_SEQ_CASE3_BEINGEVICTED. now apply (case3_write_runs t _ _ None).
  - now apply handle_warmupreq_runs.
  - now apply handle_loadreq_runs.
  - now apply handle_record_runs.
  - now apply handle_record_runs.
Qed.

(** C2: the worker refines its specification on bytes.  Whatever admissible
    request the received packet carries, the worker answers without aborting,
    the receivers of the messages it sends read exactly the specified replies
    (and cache populations), every version and the set of cached keys change as
    specified, and the buffers and the store stay in shape for the next packet. *)
Theorem worker_refines (t : Thread) (r : Request) :
  buffers_ok t -> server_ok (t_server t) -> carries (t_dynamicbuf t) r -> admissible (t_server t) r ->
  exists t' out, worker_step cfg t = Ok (tt, t') /\ buffers_ok t' /\ server_ok (t_server t') /\
    t_sent t' = t_sent t ++ out /\
    Forall2 (delivers idx) out (spec_replies wl (ver (t_server t)) (cached (t_server t)) r) /\
    (forall k, key_wf k -> ver (t_server t') k = spec_version (ver (t_server t)) r k) /\
    (forall k, cached (t_server t') k = spec_cached wl (ver (t_server t)) (cached (t_server t)) r k).
Proof using Hcfg Hlaws Havail.
  intros Ht Hs Hc Ha. destruct (worker_runs t r Ht Hs Hc Ha) as (t' & out & E & B & (S1 & _ & S2 & S3) & T & F).
  exists t', out. auto 10.
Qed.

(** A large read response claims one byte more than it writes, so a value whose
    response ends exactly at the capacity of the array (40931 bytes in the initial
    array) makes the worker send a byte behind the array. *)
Theorem large_response_overreads (t : Thread) (req : GetRequest) (v : Val) (seq : Z) :
  buffers_ok t -> server_ok (t_server t) -> typed (t_dynamicbuf t) GETREQ ->
  parsed (t_dynamicbuf t) GetRequest_parse req -> key_wf (p_key (gr_base req)) ->
  ver (t_server t) (p_key (gr_base req)) = (Some v, seq) -> val_length v + 29 = MAX_BUFSIZE ->
  worker_step cfg t = Err OutOfBounds.
Proof using Hcfg Hlaws Havail.
  intros Ht Hs Hty Hp Hk Hver Hlen. pose proof (reading_ok _ _ Hs Hk) as (Hv & Hq & _). rewrite Hver in Hv, Hq.
  cbn in Hv, Hq. destruct (co_range cfg Hcfg) as [[a b] Er].
  unfold worker_step, mbind, sv_bind, sv_lift at 1. rewrite Er. unfold recv_large at 1. rewrite Hty.
  change (handle_packet cfg a b GETREQ t) with (handle_getreq cfg t). unfold handle_getreq, mbind, sv_bind, recv_large.
  rewrite Hp. destruct (get_post _ _ Val_default 0 (sk_db _ Hs) Hk) as (w & E & Hw & _).
  unfold on_db. rewrite E. unfold ver in Hver. rewrite Hver. set (t1 := mkThread _ _ _ _).
  assert (Ht1 : buffers_ok t1) by (destruct Ht; constructor; assumption).
  assert (Hl : is_small v = false) by (apply Z.leb_gt; unfold MAX_BUFSIZE, SWITCH_MAX_VALLEN in *; lia).
  unfold send_getres. fold (is_small v). rewrite Hl, large_val_reply by assumption.
  change (send_large ToClient (GetResponseLargevalueSeq_dynamic_serialize (large_res (p_key (gr_base req)) v seq true)) t1
    = Err OutOfBounds).
  destruct (large_res_ok (p_key (gr_base req)) v seq true Hk Hv Hl Hq) as [Hwf HL].
  destruct (clear_holds t1 Ht1) as (d0 & E0 & H0 & _ & _ & C0).
  destruct (large_dynamic _ d0 _ Hwf H0) as (d & Ed & Hd); [unfold MAX_BUFSIZE, MAX_LARGE_BUFSIZE in *; lia|].
  pose proof (large_kept (snug MAX_BUFSIZE) (memcpy_snug MAX_BUFSIZE) _ _ _ _ Ed (or_introl C0)) as Hsn.
  pose proof (holds_size _ _ _ Hd) as Hsz. pose proof (da_wf_len d (ho_wf _ _ _ Hd)) as Hlm.
  unfold send_large. rewrite E0. cbn [mbind res_bind]. rewrite Ed, (proj2 (Z.leb_gt _ _)); [reflexivity|].
  destruct Hsn as [Hsn|Hsn]; lia.
Qed.

(** ** Runs of the worker *)

(** The next packet arrives in the dynamic array. *)
Definition receive (d : DynamicArray) (t : Thread) : Thread :=
  mkThread (t_server t) (t_buf t) d (t_sent t).
Definition received_ok (d : DynamicArray) : Prop :=
  da_wf d /\ _maxcapability d = MAX_LARGE_BUFSIZE /\ _mincapability d = MAX_BUFSIZE.

Inductive worker_run : Thread -> list Request -> Thread -> Prop :=
  | run_nil t : worker_run t [] t
  | run_cons t d r t1 rs t2 :
      received_ok d -> carries d r -> admissible (t_server t) r ->
      worker_step cfg (receive d t) = Ok (tt, t1) -> worker_run t1 rs t2 -> worker_run t (r :: rs) t2.

(** The specification along a run. *)
Fixpoint spec_run (V : Key -> option Val * Z) (C : Key -> bool) (rs : list Request) : list Reply :=
  match rs with
  | [] => []
  | r :: rs => spec_replies wl V C r ++ spec_run (spec_version V r) (spec_cached wl V C r) rs
  end.
Fixpoint spec_final (V : Key -> option Val * Z) (rs : list Request) : Key -> option Val * Z :=
  match rs with [] => V | r :: rs => spec_final (spec_version V r) rs end.

Definition req_key (r : Request) : Key :=
  match r with
  | QGet _ k | QGetLatest k | QWrite _ _ k _ _ | QWarmup k | QLoad k _ | QGetRecord k _ _ _ => k
  end.

Lemma admissible_key s r : admissible s r -> key_wf (req_key r).
Proof using. destruct r; cbn; unfold write_ok; tauto. Qed.

(** The specification looks at the version and the cached flag of its key only. *)
Lemma spec_pop_ext V V' C C' r :
  V (req_key r) = V' (req_key r) -> C (req_key r) = C' (req_key r) -> spec_pop wl V C r = spec_pop wl V' C' r.
Proof using. destruct r; cbn; intros HV HC; rewrite ?HV, ?HC; reflexivity. Qed.

Lemma spec_replies_ext V V' C C' r :
  V (req_key r) = V' (req_key r) -> C (req_key r) = C' (req_key r) ->
  spec_replies wl V C r = spec_replies wl V' C' r.
Proof using.
  intros HV HC. unfold spec_replies. rewrite (spec_pop_ext V V' C C' r HV HC). f_equal.
  destruct r; cbn in *; now rewrite ?HV.
Qed.

Lemma spec_version_ext V V' r k :
  V (req_key r) = V' (req_key r) -> V k = V' k -> spec_version V r k = spec_version V' r k.
Proof using. destruct r; cbn; intros H H'; rewrite ?H, ?H'; reflexivity. Qed.

Lemma worker_run_spec t rs t' :
  worker_run t rs t' -> forall s0 V C, buffers_ok t -> state_is s0 V C (t_server t) ->
  exists out, t_sent t' = t_sent t ++ out /\ Forall2 (delivers idx) out (spec_run V C rs) /\
    server_ok (t_server t') /\ (forall k, key_wf k -> ver (t_server t') k = spec_final V rs k) /\
    rtc db_step (db_wrapper s0) (db_wrapper (t_server t')) /\ issnapshot (t_server t') = issnapshot s0.
Proof using Hcfg Hlaws Havail.
  induction 1 as [t|t d r t1 rs t2 (Hd & Hx & Hn) Hc Ha E Hr IH]; intros s0 V C Ht (Hs & Hst & HV & HC).
  - exists []. split; [symmetry; apply app_nil_r|]. split; [constructor|]. split; [exact Hs|]. split; [exact HV|exact Hst].
  - assert (Ht1 : buffers_ok (receive d t)) by (destruct Ht; constructor; assumption).
    destruct (worker_runs (receive d t) r Ht1 Hs Hc Ha) as (t1' & out & E' & B & HS & T & F).
    rewrite E in E'. injection E' as <-. change (t_server (receive d t)) with (t_server t) in *.
    change (t_sent (receive d t)) with (t_sent t) in T. pose proof (HV _ (admissible_key _ _ Ha)) as HVk. pose proof (HC (req_key r)) as HCk.
    destruct (IH s0 (spec_version V r) (spec_cached wl V C r) B) as (out' & T' & F' & S').
    { destruct HS as (HS1 & [HS2 HS3] & HS4).
      eapply (state_is_ext s0); [split; [exact HS1|split; [|exact HS4]]| |].
      - destruct Hst as [Hst1 Hst2]. split; [now rewrite Hst1|congruence].
      - intros k Hk. apply spec_version_ext; [exact HVk|now apply HV].
      - intros k. unfold spec_cached. rewrite (spec_pop_ext _ V _ C r HVk HCk). f_equal. apply HC. }
    exists (out ++ out'). split; [rewrite T', T; now rewrite <- app_assoc|]. split; [|exact S'].
    cbn [spec_run]. apply Forall2_app; [|exact F']. rewrite <- (spec_replies_ext _ V _ C r HVk HCk). exact F.
Qed.

Lemma run_from_start t rs t' :
  buffers_ok t -> server_ok (t_server t) -> worker_run t rs t' ->
  exists out, t_sent t' = t_sent t ++ out /\
    Forall2 (delivers idx) out (spec_run (ver (t_server t)) (cached (t_server t)) rs) /\
    server_ok (t_server t') /\ (forall k, key_wf k -> ver (t_server t') k = spec_final (ver (t_server t)) rs k) /\
    rtc db_step (db_wrapper (t_server t)) (db_wrapper (t_server t')) /\
    issnapshot (t_server t') = issnapshot (t_server t).
Proof using Hcfg Hlaws Havail.
  intros Ht Hs Hr. apply (worker_run_spec _ _ _ Hr); [exact Ht|]. split; [exact Hs|].
  split; [split; [apply rtc_refl|reflexivity]|split; reflexivity].
Qed.

(** A run of the worker over any sequence of admissible requests answers as
    the specification run does: the bytes it sends are read as the specified
    replies in order, and the versions at the end are the specified ones. *)
Theorem worker_run_refines (t t' : Thread) (rs : list Request) :
  buffers_ok t -> server_ok (t_server t) -> worker_run t rs t' ->
  exists out, t_sent t' = t_sent t ++ out /\
    Forall2 (delivers idx) out (spec_run (ver (t_server t)) (cached (t_server t)) rs) /\
    server_ok (t_server t') /\
    (forall k, key_wf k -> ver (t_server t') k = spec_final (ver (t_server t)) rs k).
Proof using Hcfg Hlaws Havail. 
  intros Ht Hs Hr. destruct (run_from_start _ _ _ Ht Hs Hr) as (out & T & F & S1 & S2 & _). eauto.
Qed.

(** How often a sequence of replies asks to cache [k]. *)
Definition pop_key (r : Reply) : option Key := match r with RPop k _ _ _ => Some k | _ => None end.
Definition pops (k : Key) (rs : list Reply) : nat :=
  length (List.filter (fun r => bool_decide (pop_key r = Some k)) rs).

Lemma pops_app k rs1 rs2 : pops k (rs1 ++ rs2) = (pops k rs1 + pops k rs2)%nat.
Proof using. unfold pops. rewrite List.filter_app. apply length_app. Qed.

Lemma spec_answer_no_pop V r : pop_key (spec_answer V r) = None.
Proof using.
  destruct r as [p k|k|tok p k new seq|k|k v|k v seq st]; cbn; try reflexivity;
    try (destruct (V k) as [[v'|] s]; cbn; try destruct (is_small _); try destruct (_ <? _); reflexivity).
  now destruct new.
Qed.

(** At most one record, and only of a key that is not cached. *)
Lemma spec_pop_shape V C r :
  spec_pop wl V C r = [] \/ exists k v s st, spec_pop wl V C r = [(k, v, s, st)] /\ C k = false.
Proof using.
  assert (H : forall (k : Key) (v : Val) (s : Z) (st : bool), (if C k then [] else [(k, v, s, st)]) = [] \/
    exists k' v' s' st', (if C k then [] else [(k, v, s, st)]) = [(k', v', s', st')] /\ C k' = false).
  { intros k v s st. destruct (C k) eqn:E; [now left|right; eauto 10]. }
  destruct r as [[] k|k|tok [] k [v|] seq|k|k v|k v seq st]; cbn; auto.
  - destruct (reading (V k)) as [[st v] s]. destruct (_ && _); auto.
  - destruct (negb _); auto.
  - destruct (reading (V k)) as [[st v] s]. auto.
Qed.

Lemma pops_spec_run k rs : forall V C, (pops k (spec_run V C rs) <= if C k then 0 else 1)%nat.
Proof using.
  induction rs as [|r rs IH]; intros V C; cbn [spec_run]; [cbn; destruct (C k); lia|].
  rewrite pops_app. specialize (IH (spec_version V r) (spec_cached wl V C r)). revert IH.
  unfold spec_replies, spec_cached. unfold pops at 2. cbn [List.filter]. rewrite spec_answer_no_pop.
  rewrite (bool_decide_eq_false_2 (None = Some k)) by discriminate.
  destruct (spec_pop_shape V C r) as [->|(k0 & v & s & st & -> & H0)]; cbn [map List.filter pop_key].
  - rewrite <- cached_nil. cbn. lia.
  - cbn [fst]. destruct (bool_decide_reflect (Some k0 = Some k)) as [[= ->]|Hne].
    + rewrite H0, (bool_decide_eq_true_2 (k ∈ [k])) by (apply list_elem_of_singleton; reflexivity). cbn. lia.
    + rewrite (bool_decide_eq_false_2 (k ∈ [k0])); [rewrite orb_false_r; cbn; lia|].
      rewrite list_elem_of_singleton. congruence.
Qed.

(** Whether the bytes [m] are a CACHE_POP for [k] to the controller, as the controller
    reads them. *)
Definition asks_for (k : Key) (m : Dest * list Z) : bool :=
  match m.1 with
  | ToPopserver =>
      match run_reader (CachePop_parse CURMETHOD_ID (Z.of_nat (length m.2))) m.2 with
      | Ok p => bool_decide (p_key (qs_base (cp_put p)) = k)
      | Err _ => false
      end
  | _ => false
  end.

(** The replies of the worker go to clients, but for the populations. *)
Definition worker_reply (r : Reply) : Prop :=
  match r with RAck dst _ _ => dst = ToClient | RSignal _ _ => False | _ => True end.

Lemma spec_run_worker rs : forall V C, Forall worker_reply (spec_run V C rs).
Proof using.
  induction rs as [|r rs IH]; intros V C; cbn [spec_run]; [constructor|]. apply Forall_app. split; [|apply IH]. unfold spec_replies. constructor.
  - destruct r as [p k|k|tok p k [|] seq|k|k v|k v seq st]; cbn; try reflexivity;
      destruct (V k) as [[v'|] s]; cbn; try destruct (is_small _); try destruct (_ <? _); exact I.
  - apply Forall_fmap, Forall_true. intros [[[k v] s] st]. exact I.
Qed.

(** What a message asks for can be told from its bytes. *)
Lemma delivers_asks m r : delivers idx m r -> worker_reply r ->
  (m.1 = ToPopserver <-> pop_key r <> None) /\ forall k, asks_for k m = bool_decide (pop_key r = Some k).
Proof using.
  destruct m as [dst bs]. unfold asks_for. intros Hd Hr. destruct r; cbn [delivers worker_reply pop_key fst snd] in *; try contradiction;
    try (destruct Hd as [-> _]; subst; split; [split; congruence|intros k'; now rewrite bool_decide_false by discriminate]).
  destruct Hd as (-> & p & -> & <- & _). split; [split; congruence|]. intros k'. apply bool_decide_ext. split; congruence.
Qed.

Lemma asks_count out replies : Forall2 (delivers idx) out replies -> Forall worker_reply replies ->
  Forall (fun m => m.1 = ToPopserver -> exists k, asks_for k m = true) out /\
  forall k, length (List.filter (asks_for k) out) = pops k replies.
Proof using.
  induction 1 as [|m r out rs Hd _ IH]; intros Hr; [split; [constructor|reflexivity]|]. apply Forall_cons_iff in Hr as [H1 H2].
  destruct (IH H2) as [IH1 IH2]. destruct (delivers_asks m r Hd H1) as [D1 D2]. split.
  - constructor; [|exact IH1]. intros Hm. apply D1 in Hm. destruct (pop_key r) as [k|] eqn:E; [|congruence]. exists k. rewrite D2. now apply bool_decide_true.
  - intros k. unfold pops in *. cbn [List.filter]. rewrite D2. destruct (bool_decide _); cbn [length]; now rewrite IH2.
Qed.

(** C22: over any run of the worker (admissible requests, no eviction between them)
    every message to the controller is a CACHE_POP the controller can read, and among
    the bytes sent at most one such message is for a given key, none when the key
    was cached already at the start. *)
Theorem cache_pop_sent_once (t t' : Thread) (rs : list Request) (k : Key) :
  buffers_ok t -> server_ok (t_server t) -> worker_run t rs t' ->
  exists out, t_sent t' = t_sent t ++ out /\
    Forall (fun m => m.1 = ToPopserver -> exists k', asks_for k' m = true) out /\
    (length (List.filter (asks_for k) out) <= if cached (t_server t) k then 0 else 1)%nat.
Proof using Hcfg Hlaws Havail.
  intros Ht Hs Hr. destruct (run_from_start _ _ _ Ht Hs Hr) as (out & T & F & _).
  destruct (asks_count out _ F (spec_run_worker _ _ _)) as [Ha Hc]. exists out. split; [exact T|]. split; [exact Ha|]. rewrite Hc. apply pops_spec_run.
Qed.

(** A client reads what it wrote: when a write that is not refused by a newer
    deletion is followed by a read of its key, with any reads in between, the
    read is answered with the value and the sequence number written. *)
Theorem read_your_write (t t' : Thread) (pop pop' : bool) (k : Key) (v : Val) (seq : Z) (qs : list Request) :
  buffers_ok t -> server_ok (t_server t) -> refused (ver (t_server t) k) seq = false ->
  Forall (fun r => match r with QGet _ _ | QGetLatest _ | QWarmup _ | QGetRecord _ _ _ _ => True | _ => False end) qs ->
  worker_run t ([QWrite None pop k (Some v) seq] ++ qs ++ [QGet pop' k]) t' ->
  exists out replies1 replies2, t_sent t' = t_sent t ++ out /\
    Forall2 (delivers idx) out (replies1 ++ RGet k v seq true :: replies2).
Proof using Hcfg Hlaws Havail.
  intros Ht Hs Hn Hq Hr.
  destruct (run_from_start _ _ _ Ht Hs Hr)
    as (out & T & F & _). clear Hr. set (V := ver (t_server t)) in *.
  assert (Hrun : forall qs V C, V k = (Some v, seq) ->
    Forall (fun r => match r with QGet _ _ | QGetLatest _ | QWarmup _ | QGetRecord _ _ _ _ => True | _ => False end) qs ->
    exists r1 r2, spec_run V C (qs ++ [QGet pop' k]) = r1 ++ RGet k v seq true :: r2).
  { clear. induction qs as [|q qs IH]; intros V C HV Hq.
    - cbn [app spec_run]. unfold spec_replies, spec_answer. rewrite HV. cbn. now eexists [], _.
    - inversion_clear Hq as [|? ? H1 H2]. cbn [app spec_run].
      destruct (IH (spec_version V q) (spec_cached wl V C q)) as (r1 & r2 & ->); [|exact H2|].
      + destruct q; try contradiction; exact HV.
      + eexists (_ ++ r1), r2. now rewrite <- app_assoc. }
  cbn [app spec_run] in F. edestruct Hrun as (r1 & r2 & E); [|exact Hq|rewrite E in F].
  - cbn. rewrite decide_True by reflexivity. unfold upd_version. cbn [orb]. unfold refused in Hn. now rewrite Hn.
  - rewrite app_assoc in F. eauto.
Qed.
End Refinement.

(** ** A concrete run *)

Definition demo_cfg : ServerConfig := mkServerConfig 0 65536 1 7 1 2 3 4 5 6.

Lemma demo_cfg_ok : config_ok demo_cfg.
Proof. constructor; cbn; [unfold is_u16; lia|unfold is_u16; lia|]. eexists. vm_compute. reflexivity. Qed.

Definition bytes_of (w : Z -> writer Z) : list Z :=
  match run_writer (w 200) (replicate 200 0) with Ok (n, bs) => take (Z.to_nat n) bs | Err _ => [] end.
Definition demo_array (bs : list Z) : DynamicArray :=
  mkDynamicArray (Z.of_nat (length bs)) MAX_BUFSIZE (Some (bs ++ replicate (Z.to_nat (MAX_BUFSIZE - Z.of_nat (length bs))) 0))
    MAX_BUFSIZE MAX_LARGE_BUFSIZE.

(** Writes 8 with sequence number 20 to key 1, and reads key 1. *)
Definition demo_put : PutRequestSeq :=
  set_qs_type PUTREQ_POP_SEQ (PutRequestSeq_new 7 FARREACH_ID (key_of 1) (val_of 8) 20).
Definition put_packet : list Z := Eval vm_compute in bytes_of (PutRequestSeq_serialize demo_put).
Definition get_packet : list Z :=
  Eval vm_compute in bytes_of (GetRequest_serialize (mkGetRequest (Packet_new FARREACH_ID GETREQ (key_of 1)) 0 0)).
Definition demo_thread (bs : list Z) : @Thread MemDB.t Z :=
  mkThread (mkServer w_demo [] false 0) (replicate (Z.to_nat MAX_BUFSIZE) 0) (demo_array bs) [].

Lemma demo_array_ok bs : Z.of_nat (length bs) <= MAX_BUFSIZE -> received_ok (demo_array bs).
Proof.
  unfold received_ok, demo_array, MAX_BUFSIZE, MAX_LARGE_BUFSIZE. intros H. cbn [_maxcapability _mincapability].
  repeat split; cbn [_array _cursize _curcapability _mincapability _maxcapability]; try lia.
  eexists. split; [reflexivity|]. rewrite length_app, length_replicate. lia.
Qed.

Lemma demo_thread_ok bs : Z.of_nat (length bs) <= MAX_BUFSIZE -> buffers_ok (demo_thread bs).
Proof.
  intros H. destruct (demo_array_ok bs H) as (H1 & H2 & H3).
  constructor; [|exact H1|exact H2|exact H3]. cbn [t_buf demo_thread]. rewrite length_replicate. reflexivity.
Qed.

Lemma demo_server_ok bs : server_ok (t_server (demo_thread bs)).
Proof. constructor; [exact w_demo_ok|constructor]. Qed.

Lemma put_packet_carries : carries (demo_array put_packet) (QWrite None true (key_of 1) (Some (val_of 8)) 20).
Proof.
  apply (carries_put_pop _ (mkPutRequestSeq (Packet_new FARREACH_ID PUTREQ_POP_SEQ (key_of 1)) (val_of 8) 20 0)).
  - vm_compute. reflexivity.
  - vm_compute. reflexivity.
Qed.

Lemma get_packet_carries : carries (demo_array get_packet) (QGet false (key_of 1)).
Proof.
  apply (carries_get _ (mkGetRequest (Packet_new FARREACH_ID GETREQ (key_of 1)) 0 0));
    vm_compute; reflexivity.
Qed.

Lemma demo_key_wf : key_wf (key_of 1).
Proof. apply key_of_wf. unfold is_u32. lia. Qed.
Lemma demo_val_of_wf : val_wf (val_of 8).
Proof. apply val_of_wf. unfold is_byte. lia. Qed.

Lemma put_admissible bs :
  admissible (t_server (demo_thread bs)) (QWrite None true (key_of 1) (Some (val_of 8)) 20).
Proof.
  split; [|split; [discriminate|]].
  - split; [exact demo_key_wf|]. split; [unfold is_u32; lia|exact demo_val_of_wf].
  - intros v _ [= <-]. cbn. unfold SWITCH_MAX_VALLEN. lia.
Qed.

(** The write of key 1 followed by a read of it. *)
Lemma demo_run : exists t', worker_run demo_cfg (demo_thread get_packet)
  ([QWrite None true (key_of 1) (Some (val_of 8)) 20] ++ [] ++ [QGet false (key_of 1)]) t'.
Proof.
  destruct (worker_runs demo_cfg demo_cfg_ok (receive (demo_array put_packet) (demo_thread get_packet)) _
    (demo_thread_ok put_packet ltac:(vm_compute; discriminate)) (demo_server_ok put_packet)
    put_packet_carries (put_admissible put_packet))
    as (t1 & _ & E1 & B1 & (S1 & _ & V1 & _) & _).
  assert (Ha : admissible (t_server t1) (QGet false (key_of 1))).
  { split; [exact demo_key_wf|]. rewrite V1 by exact demo_key_wf.
    assert (E : reading (spec_version (ver (t_server (demo_thread get_packet)))
      (QWrite None true (key_of 1) (Some (val_of 8)) 20) (key_of 1)) = (true, val_of 8, 20)) by (vm_compute; reflexivity).
    cbn [receive t_server]. rewrite E. unfold reply_fits, MAX_BUFSIZE, MAX_LARGE_BUFSIZE. cbn. lia. }
  destruct (worker_runs demo_cfg demo_cfg_ok (receive (demo_array get_packet) t1) (QGet false (key_of 1)))
    as (t2 & _ & E2 & _).
  - destruct (demo_array_ok get_packet) as (H1 & H2 & H3); [vm_compute; discriminate|].
    destruct B1. constructor; assumption.
  - exact S1.
  - exact get_packet_carries.
  - exact Ha.
  - exists t2. eapply (run_cons _ _ (demo_array put_packet)); [apply demo_array_ok; vm_compute; discriminate|exact put_packet_carries|
      apply put_admissible|exact E1|].
    eapply (run_cons _ _ (demo_array get_packet)); [apply demo_array_ok; vm_compute; discriminate|exact get_packet_carries|exact Ha|exact E2|].
    apply run_nil.
Qed.

Lemma worker_refines_witness :
  exists t' out, worker_step demo_cfg (demo_thread put_packet) = Ok (tt, t') /\
    ver (t_server t') (key_of 1) = (Some (val_of 8), 20) /\ length out = 2%nat /\ t_sent t' = out.
Proof.
  destruct (worker_refines demo_cfg demo_cfg_ok (demo_thread put_packet) _
    (demo_thread_ok put_packet ltac:(vm_compute; discriminate)) (demo_server_ok put_packet)
    put_packet_carries (put_admissible put_packet))
    as (t' & out & E & _ & _ & T & F & V & _).
  exists t', out. split; [exact E|]. split; [rewrite V by exact demo_key_wf; vm_compute; reflexivity|].
  split; [|exact T]. rewrite (Forall2_length _ _ _ F). vm_compute. reflexivity.
Defined.

Lemma worker_run_refines_witness : exists t',
  worker_run demo_cfg (demo_thread get_packet)
    ([QWrite None true (key_of 1) (Some (val_of 8)) 20] ++ [] ++ [QGet false (key_of 1)]) t' /\
  length (t_sent t') = 3%nat.
Proof.
  destruct demo_run as [t' H]. exists t'. split; [exact H|].
  destruct (worker_run_refines demo_cfg demo_cfg_ok (demo_thread get_packet) t' _
    (demo_thread_ok get_packet ltac:(vm_compute; discriminate)) (demo_server_ok get_packet) H) as (out & T & F & _).
  rewrite T. cbn [t_sent demo_thread app]. rewrite (Forall2_length _ _ _ F). vm_compute. reflexivity.
Defined.

Lemma cache_pop_sent_once_witness : exists t',
  worker_run demo_cfg (demo_thread get_packet)
    ([QWrite None true (key_of 1) (Some (val_of 8)) 20] ++ [] ++ [QGet false (key_of 1)]) t' /\
  (length (List.filter (asks_for (key_of 1)) (t_sent t')) <= 1)%nat.
Proof.
  destruct demo_run as [t' H]. exists t'. split; [exact H|].
  destruct (cache_pop_sent_once demo_cfg demo_cfg_ok (demo_thread get_packet) t' _ (key_of 1)
    (demo_thread_ok get_packet ltac:(vm_compute; discriminate)) (demo_server_ok get_packet) H)
    as (out & T & _ & P).
  rewrite T. exact P.
Defined.

Lemma read_your_write_witness : exists t' out r1 r2,
  t_sent t' = out /\ Forall2 (delivers 0) out (r1 ++ RGet (key_of 1) (val_of 8) 20 true :: r2) /\
  worker_run demo_cfg (demo_thread get_packet)
    ([QWrite None true (key_of 1) (Some (val_of 8)) 20] ++ [] ++ [QGet false (key_of 1)]) t'.
Proof.
  destruct demo_run as [t' H].
  destruct (read_your_write demo_cfg demo_cfg_ok (demo_thread get_packet) t' true false (key_of 1) (val_of 8) 20 []
    (demo_thread_ok get_packet ltac:(vm_compute; discriminate)) (demo_server_ok get_packet)
    ltac:(vm_compute; reflexivity) (List.Forall_nil _) H) as (out & r1 & r2 & T & F).
  exists t', out, r1, r2. auto.
Defined.

(** A value that fills the array. *)
Definition big_val : Val := mkVal 40931 (Some (replicate (Z.to_nat 40931) 5)).

Lemma big_val_wf : val_wf big_val.
Proof.
  right. exists (replicate (Z.to_nat 40931) 5). split; [|split].
  - unfold big_val. now rewrite length_replicate.
  - intros H. apply (f_equal (@length Z)) in H. rewrite length_replicate in H. discriminate H.
  - rewrite length_replicate. split; [|lia]. apply Forall_replicate. unfold is_byte. lia.
Qed.

Lemma large_response_overreads_witness : exists w : Wrapper MemDB.t Z,
  put (key_of 1) big_val 5 false w_init = Ok (true, w) /\
  worker_step demo_cfg (mkThread (mkServer w [] false 0) (replicate (Z.to_nat MAX_BUFSIZE) 0) (demo_array get_packet) [])
    = Err OutOfBounds.
Proof.
  destruct (put_run w_init (key_of 1) big_val 5 false w_init_ok demo_key_wf big_val_wf ltac:(unfold is_u32; lia))
    as (w & E & _ & _ & P).
  exists w. split; [exact E|].
  apply (large_response_overreads demo_cfg demo_cfg_ok _ (mkGetRequest (Packet_new FARREACH_ID GETREQ (key_of 1)) 0 0) big_val 5).
  - destruct (demo_thread_ok get_packet) as [H1 H2 H3 H4]; [vm_compute; discriminate|].
    constructor; [exact H1|exact H2|exact H3|exact H4].
  - constructor; [exact (wp_ok P)|constructor].
  - vm_compute. reflexivity.
  - vm_compute. reflexivity.
  - exact demo_key_wf.
  - cbn [t_server p_key gr_base Packet_new]. unfold ver. cbn [db_wrapper].
    rewrite (wp_updates P) by exact demo_key_wf. rewrite decide_True by reflexivity.
    assert (E0 : version w_init (key_of 1) = (None, 0)) by (vm_compute; reflexivity). rewrite E0. reflexivity.
  - reflexivity.
Defined.
