(* ===== verification/ServerThreads.v ===== *)
(** * The other threads of a server, and the snapshot protocol

    The evict server takes records back from the switch, the snapshot server and
    the snapshot data server run the two phases of a snapshot around the requests
    of the worker.  The theorems are about one message of each thread, and about
    the protocol as a whole: what a range query returns after a snapshot that
    three threads have made over the wire. *)

From Stdlib Require Import ZArith Lia List.
From stdpp Require Import base tactics list numbers option relations.
From S2P Require Import Prelude Cursor DynamicArray StdMap Crc32 Key Val DeletedSet KVStore RocksdbWrapper RocksdbProps Snapshot Packet PacketCodec PacketCache PacketScan PacketServer Outband Server ServerSpec ServerProps.

Open Scope Z_scope.

Section Threads.
Context {DB Snap : Type} `{Hkv : KVStore DB Snap}.
Context {Hlaws : KVStoreLaws DB Snap} {Havail : KVStoreAvailable DB Snap}.
Context (cfg : ServerConfig) (Hcfg : config_ok cfg).
Abbreviation idx := (global_server_logical_idx cfg).
Abbreviation Thread := (@Thread DB Snap).
Abbreviation Server := (@Server DB Snap).
Abbreviation sv := (@sv DB Snap).

(** ** The evict server *)

(** The bytes are an eviction of [evict], of a record the snapshot has not seen
    when [case2]. *)
Inductive evicts (buf : list Z) (n : Z) : bool -> CachePop -> Prop :=
  | evicts_case1 evict : run_reader (get_packet_type n) buf = Ok CACHE_EVICT ->
      run_reader (CacheEvict_parse CURMETHOD_ID n) buf = Ok evict -> evicts buf n false evict
  | evicts_case2 evict : run_reader (get_packet_type n) buf = Ok CACHE_EVICT_CASE2 ->
      run_reader (CacheEvictCase2_parse CURMETHOD_ID n) buf = Ok evict -> evicts buf n true evict.

Definition evicted_version (e : CachePop) : option Val := if cp_stat e then Some (qs_val (cp_put e)) else None.
Definition evicted_key (e : CachePop) : Key := p_key (qs_base (cp_put e)).

(** A store that can make a snapshot, or declines to. *)
Definition snapshot_safe (w : Wrapper DB Snap) : Prop :=
  snapshotid w = -1 \/ is_snapshot w = true \/ snapshot_ready w.

Lemma make_snapshot_safe (w : Wrapper DB Snap) tid :
  wrapper_ok w -> snapshot_safe w -> 0 <= tid ->
  exists b w', make_snapshot tid w = Ok (b, w') /\ wrapper_ok w' /\ deleted_set w' = deleted_set w /\
    (forall k, version w' k = version w k).
Proof using Hlaws.
  intros Hw Hc Ht. assert (H : (snapshotid w = -1 \/ is_snapshot w = true) \/ snapshot_ready w)
    by (unfold snapshot_safe in Hc; tauto). destruct H as [H|H].
  - exists false, w. split; [now apply make_snapshot_declined|]. auto.
  - destruct (wo_store w Hw) as (db & Edb & _).
    destruct (make_snapshot_run w db tid Hw H Edb Ht) as (w' & db' & sn & E & W & D & V & _). eauto 10.
Qed.

Lemma case2_run t (case2 : bool) :
  server_ok (t_server t) -> (case2 = true -> issnapshot (t_server t) = true \/ snapshot_safe (db_wrapper (t_server t))) ->
  exists w, (if case2 then
               issnap ← get_server issnapshot;
               if negb issnap then _ ← on_db (make_snapshot 0); mret tt else mret tt
             else mret tt : sv unit) t = Ok (tt, with_server (with_db w (t_server t)) t) /\
    wrapper_ok w /\ deleted_set w = deleted_set (db_wrapper (t_server t)) /\
    (forall k, version w k = version (db_wrapper (t_server t)) k).
Proof using Hlaws.
  intros [Hw Hm] Hc. destruct t as [[w ks0 iss tok] buf d sent]. cbn [t_server db_wrapper issnapshot] in *.
  destruct case2; [|exists w; auto]. unfold mbind, sv_bind, get_server. cbn [t_server issnapshot].
  destruct iss; [exists w; auto|]. destruct (Hc eq_refl) as [|Hsafe]; [discriminate|].
  destruct (make_snapshot_safe w 0 Hw Hsafe ltac:(lia)) as (b & w' & E & W & D & V).
  exists w'. cbn [negb]. unfold on_db. cbn [t_server db_wrapper]. rewrite E. auto.
Qed.

Lemma evictserver_step_eq t buf n (case2 : bool) e (k := evicted_key e) :
  evicts buf n case2 e -> cp_serveridx e = idx -> cached (t_server t) k = true ->
  evictserver_step cfg buf n t =
  ((_ ← (if case2 then
           issnap ← get_server issnapshot;
           if negb issnap then _ ← on_db (make_snapshot 0); mret tt else mret tt
         else mret tt);
    _ ← keyset_erase k;
    _ ← on_db (write_db k (evicted_version e) (qs_seq (cp_put e)) true);
    send_buf ToEvictclient (WarmupRequest_serialize (CacheEvictAck_new CURMETHOD_ID k))) : sv unit) t.
Proof using.
  subst k. intros He Hi Hc. unfold evictserver_step, evicted_version, write_db, sv_check.
  assert (Hk : (keyset_is_exist (evicted_key e) : sv bool) t = Ok (true, t)).
  { unfold keyset_is_exist, mbind, sv_bind, get_server. unfold cached in Hc.
    destruct (m_find (evicted_key e) (cached_keyset (t_server t))); [reflexivity|discriminate]. }
  unfold evicted_key in *. unfold mbind, sv_bind, sv_lift.
  destruct He as [e Hty Hp|e Hty Hp]; rewrite Hty; change (CACHE_EVICT_CASE2 =? CACHE_EVICT) with false;
    rewrite ?Z.eqb_refl, Hp, Hi, Z.eqb_refl; cbn [INVARIANT]; rewrite Hk; now destruct (cp_stat e).
Qed.

(** The evict server takes a record back: the snapshot a CASE2 eviction asks for
    comes first, then the key is forgotten and the store brought to the newer of
    the stored and the evicted version. *)
Lemma evictserver_run (t : Thread) (buf : list Z) (n : Z) (case2 : bool) (e : CachePop)
    (k := evicted_key e) :
  buffers_ok t -> server_ok (t_server t) -> evicts buf n case2 e -> cp_serveridx e = idx ->
  cached (t_server t) k = true -> write_ok (t_server t) k (evicted_version e) (qs_seq (cp_put e)) ->
  (case2 = true -> issnapshot (t_server t) = true \/ snapshot_safe (db_wrapper (t_server t))) ->
  exists t' out, evictserver_step cfg buf n t = Ok (tt, t') /\ buffers_ok t' /\ server_ok (t_server t') /\
    t_sent t' = t_sent t ++ out /\ Forall2 (delivers idx) out [RAck ToEvictclient CACHE_EVICT_ACK k] /\
    (forall k', key_wf k' -> ver (t_server t') k' =
       if decide (k' = k) then lww (ver (t_server t) k) (evicted_version e) (qs_seq (cp_put e))
       else ver (t_server t) k') /\
    (forall k', cached (t_server t') k' = cached (t_server t) k' && negb (bool_decide (k' = k))).
Proof using Hcfg Hlaws Havail.
  intros Ht Hs He Hi Hc Hw Hsn.
  destruct (case2_run t case2 Hs Hsn) as (w & E2 & Hw2 & Hd2 & HV2).
  set (s2 := set_keyset (m_erase k (cached_keyset (t_server t))) (with_db w (t_server t))).
  assert (Hs2 : server_ok s2).
  { constructor; [exact Hw2|]. apply m_erase_sorted, Hs. }
  assert (Hw' : write_ok s2 k (evicted_version e) (qs_seq (cp_put e))) by (unfold write_ok in *; cbn; now rewrite Hd2).
  assert (H : runs cfg (_ ← on_db (write_db k (evicted_version e) (qs_seq (cp_put e)) true);
                    send_buf ToEvictclient (WarmupRequest_serialize (CacheEvictAck_new CURMETHOD_ID k)))
                (with_server s2 t)
                (state_is s2 (written (ver s2) k (upd_version true (ver s2 k) (evicted_version e) (qs_seq (cp_put e)))) (cached s2))
                [RAck ToEvictclient CACHE_EVICT_ACK k]).
  { apply runs_write; auto using with_server_ok. intros t1 Ht1 _ Hst.
    eapply runs_weaken; [apply (send_ack_sends cfg t1 ToEvictclient CACHE_EVICT_ACK k Ht1 (proj1 Hw)); unfold is_u16, CACHE_EVICT_ACK; lia|].
    intros s' ->. exact Hst. }
  destruct H as (t' & out & E & B & (S1 & _ & S2 & S3) & T & F). exists t', out.
  split; [|split; [exact B|split; [exact S1|split; [exact T|split; [exact F|split]]]]].
  - rewrite (evictserver_step_eq t buf n case2 e He Hi Hc). unfold mbind at 1, sv_bind at 1. rewrite E2. exact E.
  - intros k' Hk'. rewrite S2 by assumption. unfold written. rewrite upd_version_check. unfold ver. cbn.
    now rewrite !HV2.
  - intros k'. rewrite S3. unfold cached. cbn [s2 set_keyset cached_keyset with_db].
    destruct (bool_decide_reflect (k' = k)) as [->|Hne].
    + rewrite m_find_erase_eq by apply Hs. now rewrite andb_false_r.
    + rewrite m_find_erase_ne by (auto; apply Hs). now rewrite andb_true_r.
Qed.

(** ** The snapshot servers *)

Lemma send_buf_dynamicbuf dst ser (t t' : Thread) :
  send_buf dst ser t = Ok (tt, t') -> t_dynamicbuf t' = t_dynamicbuf t.
Proof using. unfold send_buf. destruct (run_writer _ _) as [[n b]|]; [|discriminate]. now intros [= <-]. Qed.

Lemma send_signal_sends (t : Thread) ct id :
  buffers_ok t -> is_s32 ct -> is_s32 id ->
  sends cfg (send_buf ToSnapshotclient (SnapshotSignal_serialize (mkSnapshotSignal ct id))) t [RSignal ct id].
Proof using.
  intros Ht Hc Hi. apply (sends_codec cfg _ (fun _ => SnapshotSignal_deserialize) 8 (mkSnapshotSignal ct id)); auto.
  - apply codec_SnapshotSignal; auto; unfold MAX_BUFSIZE; lia.
  - unfold MAX_BUFSIZE. lia.
  - intros bs R. split; [reflexivity|exact R].
Qed.

Record control_ok : Prop := {
  cc_range : is_s32 (SNAPSHOT_CLEANUP_ACK cfg) /\ is_s32 (SNAPSHOT_START_ACK cfg) /\ is_s32 (SNAPSHOT_SENDDATA_ACK cfg);
  cc_distinct : SNAPSHOT_START cfg <> SNAPSHOT_CLEANUP cfg
}.
Context (Hctl : control_ok).

(** The first phase: SNAPSHOT_START with a new id makes the snapshot. *)
Lemma start_run (t : Thread) ct sid buf n id :
  buffers_ok t -> server_ok (t_server t) ->
  run_reader (SnapshotSignal_deserialize n) buf = Ok (mkSnapshotSignal (SNAPSHOT_START cfg) id) ->
  (ct, sid) <> (SNAPSHOT_START cfg, id) -> is_s32 id -> 0 <= id -> issnapshot (t_server t) = false ->
  snapshottoken (t_server t) < id -> snapshot_ready (db_wrapper (t_server t)) ->
  exists t' out w, snapshotserver_step cfg ct sid buf n t = Ok ((SNAPSHOT_START cfg, id), t') /\ buffers_ok t' /\
    make_snapshot id (db_wrapper (t_server t)) = Ok (true, w) /\
    t_server t' = set_snapshottoken id (with_db w (t_server t)) /\
    t_sent t' = t_sent t ++ out /\ Forall2 (delivers idx) out [RSignal (SNAPSHOT_START_ACK cfg) id].
Proof using Hlaws Hctl.
  intros Ht [Hw Hm] Hsig Hnew Hid Hid0 Hiss Htok Hr. destruct (wo_store _ Hw) as (db & Edb & _).
  destruct (make_snapshot_run _ db id Hw Hr Edb Hid0) as (w & db' & sn & E & _).
  set (t1 := with_server (set_snapshottoken id (with_db w (t_server t))) t).
  destruct (send_signal_sends t1 (SNAPSHOT_START_ACK cfg) id) as (t' & out & E' & B & HS & T & F);
    [now apply with_server_ok|apply Hctl|exact Hid|].
  exists t', out, w. split; [|auto 10].
  unfold snapshotserver_step. unfold mbind, sv_bind, sv_lift at 1. rewrite Hsig.
  cbn [sig_control_type sig_snapshotid].
  assert (Hdup : negb (ct =? SNAPSHOT_CLEANUP cfg) && (ct =? SNAPSHOT_START cfg) && (sid =? id) = false).
  { destruct (Z.eqb_spec ct (SNAPSHOT_START cfg)), (Z.eqb_spec sid id); try now rewrite ?andb_false_r.
    subst. now destruct Hnew. }
  rewrite Hdup, (proj2 (Z.eqb_neq _ _) (cc_distinct Hctl)), Z.eqb_refl.
  unfold get_server, sv_check, sv_lift. rewrite Hiss. cbn [negb INVARIANT].
  rewrite (proj2 (Z.ltb_lt _ _) Htok). unfold on_db. rewrite E. unfold modify_server.
  cbn [t_server t_buf t_dynamicbuf t_sent]. unfold t1, with_server, with_db in E'. now rewrite E'.
Qed.

(** The second phase: SNAPSHOT_SENDDATA installs the records of the switch. *)
Lemma senddata_run (t : Thread) ct sid id data :
  let d := t_dynamicbuf t in
  buffers_ok t ->
  run_reader (a ← r_u32; b ← r_u32; mret (s32 a, s32 b)) (da_mem d) = Ok (SNAPSHOT_SENDDATA cfg, id) ->
  (ct, sid) <> (SNAPSHOT_SENDDATA cfg, id) -> is_s32 id ->
  run_reader (deserialize_snapshot_senddata (SNAPSHOT_SENDDATA cfg) (da_size d)) (da_mem d) = Ok data ->
  sd_bytes data = da_size d -> sd_serveridx data = idx ->
  forall w, update_snapshot (inswitch_map (sd_records data)) id (db_wrapper (t_server t)) = Ok (tt, w) ->
  methodid w = FARREACH_ID \/ methodid w = DISTFARREACH_ID ->
  exists t' out, snapshotdataserver_step cfg ct sid t = Ok ((SNAPSHOT_SENDDATA cfg, id), t') /\
    buffers_ok t' /\ t_server t' = set_issnapshot false (with_db (set_is_snapshot false w) (t_server t)) /\
    t_sent t' = t_sent t ++ out /\ Forall2 (delivers idx) out [RSignal (SNAPSHOT_SENDDATA_ACK cfg) id].
Proof using Hctl.
  intros d Ht Hhd Hnew Hid Hdata Hsz Hix w Eu Hm.
  destruct (send_signal_sends t (SNAPSHOT_SENDDATA_ACK cfg) id Ht) as (t1 & out & E1 & B1 & S1 & T1 & F1);
    [apply Hctl|exact Hid|]. cbn beta in S1.
  pose proof (send_buf_dynamicbuf _ _ _ _ E1) as D1. fold d in D1.
  exists (with_server (set_issnapshot false (with_db (set_is_snapshot false w) (t_server t))) t1), out.
  split; [|split; [now apply with_server_ok|auto]].
  unfold snapshotdataserver_step, mbind at 1, sv_bind at 1, recv_large at 1. fold d. rewrite Hhd.
  assert (Hdup : (ct =? SNAPSHOT_SENDDATA cfg) && (sid =? id) = false).
  { destruct (Z.eqb_spec ct (SNAPSHOT_SENDDATA cfg)), (Z.eqb_spec sid id); try reflexivity. subst. now destruct Hnew. }
  rewrite Hdup, Z.eqb_refl. unfold mbind, sv_bind. rewrite E1. unfold modify_server at 1.
  unfold recv_large. cbn [t_dynamicbuf]. rewrite D1, Hdata. cbn [t_dynamicbuf].
  unfold sv_check, sv_lift. rewrite Hsz, Hix, !Z.eqb_refl. cbn [INVARIANT].
  unfold on_db at 1. cbn [t_server db_wrapper set_issnapshot]. rewrite S1, Eu.
  assert (Es : stop_snapshot w = Ok (tt, set_is_snapshot false w)).
  { unfold stop_snapshot, method_needsnapshot. rw_simpl. destruct Hm as [-> | ->]; reflexivity. }
  unfold on_db. cbn [t_server db_wrapper]. rewrite Es. unfold with_server. rewrite D1. reflexivity.
Qed.

(** ** The protocol *)

(** While a snapshot is being made the worker's steps leave it alone. *)
Lemma busy_steps (w w' : Wrapper DB Snap) :
  rtc db_step w w' -> wrapper_ok w -> is_snapshot w = true -> wrapper_ok w' /\ frame w w'.
Proof using Hlaws Havail.
  induction 1 as [w|w w1 w2 H1 H2 IH]; intros Hw Hb; [split; [exact Hw|apply frame_refl]|].
  assert (Hstep : wrapper_ok w1 /\ frame w w1).
  { destruct H1 as [Hc|k v b Hk Hv Htb Hm E|tid b Ht E].
    - destruct (client_step_post _ _ Hc Hw) as (? & ? & _). auto.
    - destruct (force_put_run w k v Hw Hk Hv Htb Hm) as (w1' & E' & W & F & _). rewrite E in E'. injection E' as _ ->. auto.
    - rewrite make_snapshot_declined in E by auto. injection E as _ <-. split; [exact Hw|apply frame_refl]. }
  destruct Hstep as [W1 F1]. destruct (IH W1) as [W2 F2]; [destruct F1 as (_ & _ & _ & _ & _ & _ & _ & -> & _); exact Hb|].
  split; [exact W2|]. now apply (frame_trans w w1 w2 (wrapper_ok_db _ W1)).
Qed.

Lemma inswitch_map_ok rs m :
  m_sorted m -> Forall Snapshot.inswitch_wf m -> Forall Snapshot.inswitch_wf rs ->
  m_sorted (fold_left (fun m p => m_insert p.1 p.2 m) rs m) /\
  Forall Snapshot.inswitch_wf (fold_left (fun m p => m_insert p.1 p.2 m) rs m).
Proof using.
  revert m. induction rs as [|[k r] rs IH]; intros m Hm Hf Hr; [auto|]. inversion_clear Hr as [|? ? H1 H2].
  cbn [fold_left fst snd]. apply IH; [now apply m_insert_sorted| |exact H2].
  clear -Hf H1. induction Hf as [|[k1 r1] m H Hf IH]; cbn [m_insert];
    [constructor; [exact H1|constructor]|].
  destruct (less k1 k); [constructor; assumption|]. destruct (less k k1); repeat (constructor; [assumption|]); assumption.
Qed.

(** The snapshot protocol gives a point in time.  The snapshot server receives
    SNAPSHOT_START and acknowledges; the worker then serves any admissible
    requests, CASE3 writes and loads included; the snapshot data server receives
    the records of the switch and acknowledges.  A range query afterwards returns
    the merge of those records with the store as it was when SNAPSHOT_START was
    handled, and nothing written since, for every key that is not behind the last
    record read of some source; the versions clients read are not touched. *)
Lemma snapshot_protocol (ts : Thread) (ct sid id n : Z) (buf : list Z) (db : DB) :
  buffers_ok ts -> server_ok (t_server ts) -> db_ptr (db_wrapper (t_server ts)) = Some db ->
  run_reader (SnapshotSignal_deserialize n) buf = Ok (mkSnapshotSignal (SNAPSHOT_START cfg) id) ->
  (ct, sid) <> (SNAPSHOT_START cfg, id) -> is_s32 id -> id = snapshotid (db_wrapper (t_server ts)) + 1 ->
  issnapshot (t_server ts) = false -> snapshottoken (t_server ts) < id ->
  snapshot_ready (db_wrapper (t_server ts)) ->
  exists ts' out, snapshotserver_step cfg ct sid buf n ts = Ok ((SNAPSHOT_START cfg, id), ts') /\
    t_sent ts' = t_sent ts ++ out /\ Forall2 (delivers idx) out [RSignal (SNAPSHOT_START_ACK cfg) id] /\
    forall (tw tw' : Thread) (rs : list Request) (td : Thread) (ct' sid' : Z) (data : Senddata),
      t_server tw = t_server ts' -> buffers_ok tw -> worker_run cfg tw rs tw' ->
      t_server td = t_server tw' -> buffers_ok td ->
      run_reader (a ← r_u32; b ← r_u32; mret (s32 a, s32 b)) (da_mem (t_dynamicbuf td)) = Ok (SNAPSHOT_SENDDATA cfg, id) ->
      (ct', sid') <> (SNAPSHOT_SENDDATA cfg, id) ->
      run_reader (deserialize_snapshot_senddata (SNAPSHOT_SENDDATA cfg) (da_size (t_dynamicbuf td)))
        (da_mem (t_dynamicbuf td)) = Ok data ->
      sd_bytes data = da_size (t_dynamicbuf td) -> sd_serveridx data = idx ->
      Forall Snapshot.inswitch_wf (sd_records data) ->
      4 + Z.of_nat (inswitch_size (inswitch_map (sd_records data))) <= MAX_LARGE_BUFSIZE ->
      exists td' out', snapshotdataserver_step cfg ct' sid' td = Ok ((SNAPSHOT_SENDDATA cfg, id), td') /\
        t_sent td' = t_sent td ++ out' /\ Forall2 (delivers idx) out' [RSignal (SNAPSHOT_SENDDATA_ACK cfg) id] /\
        issnapshot (t_server td') = false /\ snapshotid (db_wrapper (t_server td')) = id /\
        (forall k, ver (t_server td') k = ver (t_server tw') k) /\
        forall start end_ cnt, key_wf start -> get_scanrecordcnt start end_ = Ok cnt ->
          exists full, range_scan start end_ (db_wrapper (t_server td'))
              = Ok (take (Z.to_nat cnt) full, db_wrapper (t_server td')) /\ m_sorted full /\
            forall k, key_wf k -> reached db (deleted_set (db_wrapper (t_server ts))) (inswitch_map (sd_records data)) start cnt k ->
              m_find k full = if key_lt k start then None
              else scan_view db (deleted_set (db_wrapper (t_server ts))) (inswitch_map (sd_records data)) k.
Proof using Hcfg Hctl Hlaws Havail.
  intros Ht Hs Edb Hsig Hnew Hid Hidv Hiss Htok Hr. pose proof (sk_db _ Hs) as Hw0.
  destruct (start_run ts ct sid buf n id Ht Hs Hsig Hnew Hid ltac:(pose proof (sr_id _ Hr); lia) Hiss Htok Hr)
    as (ts' & out & w1 & E1 & _ & Em & S1 & T1 & F1).
  exists ts', out. split; [exact E1|]. split; [exact T1|]. split; [exact F1|].
  intros tw tw' rs td ct' sid' data Etw Bw Hrun Etd Bd Hhd Hnew' Hdata Hsz Hix Hwf Hsize.
  destruct (make_snapshot_run _ db id Hw0 Hr Edb ltac:(pose proof (sr_id _ Hr); lia))
    as (w1' & db1 & sn & Em' & W1 & _ & _ & _ & _ & Bu & _ & _ & _ & Id1 & _).
  rewrite Em in Em'. injection Em' as <-.
  assert (Hs1 : server_ok (t_server tw)) by (rewrite Etw, S1; constructor; [exact W1|apply Hs]).
  destruct (run_from_start cfg Hcfg tw rs tw' Bw Hs1 Hrun) as (_ & _ & _ & Hs2 & _ & Hst & _).
  assert (Ew : db_wrapper (t_server tw) = w1) by now rewrite Etw, S1. rewrite Ew in Hst.
  destruct (busy_steps _ _ Hst W1 Bu) as [W2 F2].
  destruct (inswitch_map_ok (sd_records data) [] ltac:(constructor) ltac:(constructor) Hwf) as [Hms Hmw].
  fold (inswitch_map (sd_records data)) in Hms, Hmw.
  destruct (point_in_time _ _ _ db id (inswitch_map (sd_records data)) Hw0 Hr Edb
    ltac:(pose proof (sr_id _ Hr); lia) Em W2 F2 Hms Hmw Hsize) as (w3 & E3 & Id3 & W3 & V3 & Hscan).
  rewrite <- Hidv in E3, Id3.
  destruct (senddata_run td ct' sid' id data Bd Hhd Hnew' Hid Hdata Hsz Hix w3) as (td' & out' & E' & _ & S' & T' & F').
  { now rewrite Etd. } { apply W3. }
  exists td', out'. split; [exact E'|]. split; [exact T'|]. split; [exact F'|]. rewrite S'.
  split; [reflexivity|]. split; [exact Id3|]. split; [intros k; unfold ver; cbn; apply V3|].
  intros start end_ cnt Hst' Hc. destruct (Hscan start end_ cnt Hst' Hc) as (full & Er & Hf).
  exists full. split; [|exact Hf]. cbn [db_wrapper set_issnapshot with_db].
  pose proof (wrapper_ok_db _ W3) as Hdb.
  destruct (range_scan_frame w3 (set_is_snapshot false w3) start end_ (wo_method _ W3)) as [(a & Ea & Ea')|(e & Ee & _)];
    [|exact Hdb|exact Hdb|congruence|congruence].
  repeat split. intros. cbn in *. congruence.
Qed.

(** ** Range queries *)

Definition clip (lo hi start end_ : Key) : Key * Key :=
  (if key_lt start lo then lo else start, if key_gt end_ hi then hi else end_).

(** The response to [req] with [results]. *)
Definition scan_rsp (t : Thread) (req : ScanRequestSplit) (results : list (Key * SnapshotRecord)) : ScanResponseSplit :=
  mkScanResponseSplit (mkScanRequestSplit (mkScanRequest (Packet_new FARREACH_ID SCANRES_SPLIT
      (p_key (sq_base (ss_scan req)))) (sq_endkey (ss_scan req))) (ss_cur_scanidx req) (ss_max_scannum req) 0 0)
    idx (snapshotid (db_wrapper (t_server t))) (Z.of_nat (length results)) results.

Lemma scan_step_eq t lo hi :
  worker_keyrange cfg = Ok (lo, hi) -> typed (t_dynamicbuf t) SCANREQ_SPLIT ->
  worker_step cfg t = handle_scanreq_split cfg lo hi t.
Proof using.
  intros Er Hty. unfold worker_step, mbind, sv_bind, sv_lift at 1. rewrite Er. unfold recv_large at 1. now rewrite Hty.
Qed.

Lemma scan_handler_eq (t : Thread) req lo hi start end_ results :
  server_ok (t_server t) -> parsed (t_dynamicbuf t) ScanRequestSplit_parse req ->
  key_le (p_key (sq_base (ss_scan req))) hi = true -> key_ge (sq_endkey (ss_scan req)) lo = true ->
  clip lo hi (p_key (sq_base (ss_scan req))) (sq_endkey (ss_scan req)) = (start, end_) ->
  range_scan start end_ (db_wrapper (t_server t)) = Ok (results, db_wrapper (t_server t)) ->
  0 <= snapshotid (db_wrapper (t_server t)) -> Z.of_nat (length results) < 2 ^ 31 ->
  handle_scanreq_split cfg lo hi t =
  send_large ToClient (ScanResponseSplit_dynamic_serialize (scan_rsp t req results)) t.
Proof using.
  intros Hs Hp Hkh Hel Hclip Escan Hid Hn. unfold handle_scanreq_split, mbind, sv_bind, recv_large. rewrite Hp.
  unfold sv_check, sv_lift. rewrite Hkh, Hel. cbn [INVARIANT]. injection Hclip as -> ->.
  unfold on_db at 1. rewrite Escan. unfold on_db.
  assert (Eid : get_snapshotid (db_wrapper (t_server t)) = Ok (snapshotid (db_wrapper (t_server t)), db_wrapper (t_server t))).
  { unfold get_snapshotid, mbind, rw_bind. rewrite needsnapshot_ok by apply Hs. reflexivity. }
  cbn [t_server db_wrapper]. rewrite Eid.
  unfold ScanResponseSplit_new, ScanRequestSplit_new. rewrite (proj2 (Z.leb_le 0 _)) by exact Hid.
  rewrite s32_id, Z.eqb_refl by (unfold is_s32; lia). unfold scan_rsp. now destruct t as [[w c i tok] b d o].
Qed.

(** C23: a range query over the wire returns what [range_scan] finds on the clipped
    range: the client's constructor reads the requested range, the indexes, the
    id of the snapshot and exactly the keys and values of the results, in order. *)
Theorem scanreq_answered (t : Thread) (req : ScanRequestSplit) (lo hi start end_ : Key)
    (results : list (Key * SnapshotRecord)) :
  buffers_ok t -> server_ok (t_server t) -> worker_keyrange cfg = Ok (lo, hi) -> typed (t_dynamicbuf t) SCANREQ_SPLIT ->
  parsed (t_dynamicbuf t) ScanRequestSplit_parse req ->
  let k := p_key (sq_base (ss_scan req)) in
  let e := sq_endkey (ss_scan req) in
  key_wf k -> key_wf e -> is_u16 (ss_cur_scanidx req) -> is_u16 (ss_max_scannum req) ->
  key_le k hi = true -> key_ge e lo = true -> clip lo hi k e = (start, end_) ->
  range_scan start end_ (db_wrapper (t_server t)) = Ok (results, db_wrapper (t_server t)) ->
  0 <= snapshotid (db_wrapper (t_server t)) < 2 ^ 31 -> Forall pair_wf results ->
  Z.of_nat (length (flat_map pair_wire results)) + 100 <= MAX_LARGE_BUFSIZE ->
  exists t' bs rsp, worker_step cfg t = Ok (tt, t') /\ buffers_ok t' /\ t_server t' = t_server t /\
    t_sent t' = t_sent t ++ [(ToClient, bs)] /\
    run_reader (ScanResponseSplit_parse CURMETHOD_ID (Z.of_nat (length bs))) bs = Ok rsp /\
    p_key (sq_base (ss_scan (sp_split rsp))) = k /\ sq_endkey (ss_scan (sp_split rsp)) = e /\
    ss_cur_scanidx (sp_split rsp) = ss_cur_scanidx req /\ ss_max_scannum (sp_split rsp) = ss_max_scannum req /\
    sp_snapshotid rsp = snapshotid (db_wrapper (t_server t)) /\
    map (fun x => (x.1, sr_val x.2)) (sp_pairs rsp) = map (fun x => (x.1, sr_val x.2)) results.
Proof using Hcfg.
  intros Ht Hs Er Hty Hp k e Hk He Hci Hmi Hkh Hel Hclip Escan Hid Hwf Hsz. set (rsp := scan_rsp t req results).
  assert (Hr : scan_wf rsp).
  { constructor; cbn; auto; try (unfold is_u16; lia); [|apply Hcfg].
    apply new_packet_wf; [unfold is_u16, SCANRES_SPLIT; lia|exact Hk]. }
  assert (HL : Z.of_nat (length (scan_wire rsp)) <= MAX_LARGE_BUFSIZE).
  { unfold scan_wire, frag_hdr_wire. rewrite !length_app, length_hdr_wire, length_key_wire, length_replicate,
      !length_be, length_le_bytes. cbn -[flat_map pair_wire]. lia. }
  destruct (clear_holds t Ht) as (d0 & E0 & H0 & _ & N0 & _).
  destruct (dynamic_scan rsp d0 _ Hr H0 HL) as (d & Ed & [W Mx Hc]).
  pose proof (holds_size _ _ _ (Build_holds _ _ _ W Mx Hc)) as Hcs.
  pose proof (scan_kept (fun d => _mincapability d = MAX_BUFSIZE) memcpy_min _ _ _ _ Ed N0) as Nm.
  exists (mkThread (t_server t) (t_buf t) d (t_sent t ++ [(ToClient, scan_wire rsp)])), (scan_wire rsp), (wire_scan rsp).
  split; [|split; [|split; [reflexivity|split; [reflexivity|]]]].
  - rewrite (scan_step_eq t lo hi Er Hty), (scan_handler_eq t req lo hi start end_ results Hs Hp Hkh Hel Hclip Escan (proj1 Hid)).
    + fold rsp. unfold send_large. rewrite E0. cbn [mbind res_bind]. rewrite Ed.
      pose proof (da_wf_len d W) as Hlm. pose proof (proj1 (proj2 W)) as Hcur. rewrite (proj2 (Z.leb_le _ _)) by lia.
      rewrite <- Hcs. change (take (Z.to_nat (_cursize d)) (da_mem d)) with (contents d). now rewrite Hc.
    + rewrite length_pairs in Hsz. pose proof (pairs_size_ge results). unfold MAX_LARGE_BUFSIZE in *. lia.
  - destruct Ht. constructor; assumption.
  - split; [|repeat split; try reflexivity].
    + unfold run_reader. rewrite <- (app_nil_r (scan_wire rsp)) at 2.
      change CURMETHOD_ID with (p_methodid (sq_base (ss_scan (sp_split rsp)))).
      rewrite (scan_reads rsp _ Hr); [reflexivity|]. unfold MAX_LARGE_BUFSIZE in HL. lia.
    + cbn [sp_pairs wire_scan]. rewrite map_map. apply map_ext. reflexivity.
Qed.

(** C37: a range query that runs past the last key of the server is never answered
    unless it starts in the last 1001 values of the lowest key word: the end of the
    range is replaced by the largest key of the server, and the number of records
    is computed from the lowest words of the two keys. *)
Theorem scan_clipping_aborts (t : Thread) (req : ScanRequestSplit) (lo hi : Key) :
  worker_keyrange cfg = Ok (lo, hi) -> typed (t_dynamicbuf t) SCANREQ_SPLIT ->
  parsed (t_dynamicbuf t) ScanRequestSplit_parse req ->
  key_wf (p_key (sq_base (ss_scan req))) ->
  key_lt (p_key (sq_base (ss_scan req))) lo = false -> key_gt (sq_endkey (ss_scan req)) hi = true ->
  keylolo (p_key (sq_base (ss_scan req))) < 2 ^ 32 - 1001 ->
  exists err, worker_step cfg t = Err err.
Proof using.
  intros Er Hty Hp Hk Hlo Hhi Hlow. rewrite (scan_step_eq t lo hi Er Hty).
  assert (Ehi : keylolo hi = 2 ^ 32 - 1).
  { revert Er. unfold worker_keyrange. intros H. do 3 (apply bind_Ok in H as ([] & _ & H)). now injection H as <- <-. }
  unfold handle_scanreq_split, mbind, sv_bind, recv_large. rewrite Hp.
  unfold sv_check, sv_lift. destruct (key_le _ hi); [|eexists; reflexivity]. cbn [INVARIANT].
  destruct (key_ge _ lo); [|eexists; reflexivity]. cbn [INVARIANT]. rewrite Hlo, Hhi.
  set (start := p_key (sq_base (ss_scan req))) in *.
  assert (Ec : exists err, get_scanrecordcnt start hi = Err err).
  { unfold get_scanrecordcnt. rewrite Ehi. assert (Hr : 0 <= keylolo start < 2 ^ 32) by apply Hk.
    rewrite (u32_id (2 ^ 32 - 1 - keylolo start)) by (unfold is_u32; lia).
    set (x := 2 ^ 32 - 1 - keylolo start). assert (Hx : 1000 < x < 2 ^ 32) by lia.
    assert (Hs : s32 x <= 0 \/ 1000 < s32 x).
    { unfold s32. destruct (Z_lt_le_dec x (2 ^ 31)) as [Hlt|Hge].
      - rewrite Z.mod_small by lia. lia.
      - replace (x + 2 ^ 31) with ((x - 2 ^ 31) + 1 * 2 ^ 32) by lia. rewrite Z.mod_add, Z.mod_small by lia. lia. }
    destruct (Z.ltb_spec 0 (s32 x)); [|eexists; reflexivity]. destruct (Z.leb_spec (s32 x) 1000); [lia|].
    eexists. reflexivity. }
  destruct Ec as [err Ec]. unfold on_db at 1, range_scan, mbind, rw_bind.
  destruct (method_needsnapshot (db_wrapper (t_server t))) as [[b w]|]; [|eexists; reflexivity].
  destruct (scan_iter b (to_string_for_rocksdb start) w) as [[it w']|]; [|eexists; reflexivity].
  unfold lift. rewrite Ec. eexists. reflexivity.
Qed.
End Threads.

(** ** Concrete runs *)

Lemma demo_control_ok : control_ok demo_cfg.
Proof. constructor; cbn; [unfold is_s32; lia|lia]. Qed.

(** A server with key 1 cached. *)
Definition evict_thread : @Thread MemDB.t Z :=
  mkThread (mkServer w_demo [(key_of 1, tt)] false 0) (replicate (Z.to_nat MAX_BUFSIZE) 0) (demo_array []) [].

Lemma evict_thread_ok : buffers_ok evict_thread /\ server_ok (t_server evict_thread).
Proof.
  split; [destruct (demo_thread_ok [] ltac:(discriminate)); constructor; assumption|].
  constructor; [exact w_demo_ok|repeat constructor].
Qed.

Definition start_packet : list Z := Eval vm_compute in bytes_of (SnapshotSignal_serialize (mkSnapshotSignal 3 1)).
Definition data_packet : list Z := Eval vm_compute in senddata_wire 5 1 0 ins_demo.
Definition demo_data : Senddata :=
  mkSenddata 1 (Z.of_nat (length data_packet)) 0 1 [(key_of 4, mkSnapshotRecord (val_of 2) 30 true)].

(** A query of the keys 0 to 9 of server 0, and of server 0 of two past its end. *)
Definition scan_packet (start end_ : Key) : list Z :=
  bytes_of (fun n => ScanRequest_serialize (mkScanRequest (Packet_new FARREACH_ID SCANREQ_SPLIT start) end_) n)
  ++ replicate (split_prev FARREACH_ID) 0 ++ be 2 0 ++ be 2 1.
Definition scan_packet_small : list Z := Eval vm_compute in scan_packet (key_of 0) (key_of 9).
Definition scan_packet_past : list Z := Eval vm_compute in scan_packet (key_of 0) (mkKey 9 0 0 (2 ^ 31)).
Definition demo_scanreq (start end_ : Key) : ScanRequestSplit :=
  mkScanRequestSplit (mkScanRequest (Packet_new FARREACH_ID SCANREQ_SPLIT start) end_) 0 1 0 0.
Definition two_servers : ServerConfig := mkServerConfig 0 32768 1 7 1 2 3 4 5 6.

Definition w_scan : Wrapper MemDB.t Z := set_inswitch_snapshot ins_demo (set_snapshotdb (db_ptr w_demo) w_demo).
Definition scan_thread (bs : list Z) : @Thread MemDB.t Z :=
  mkThread (mkServer w_scan [] false 0) (replicate (Z.to_nat MAX_BUFSIZE) 0) (ServerProps.demo_array bs) [].

Lemma scan_thread_ok bs :
  Z.of_nat (length bs) <= MAX_BUFSIZE -> buffers_ok (scan_thread bs) /\ server_ok (t_server (scan_thread bs)).
Proof.
  intros H. destruct (demo_thread_ok bs H) as [H1 H2 H3 H4]. split; [constructor; [exact H1|exact H2|exact H3|exact H4]|].
  constructor; [|constructor]. destruct w_demo_ok as [W1 W2]. constructor; [exact W1|exact W2].
Qed.

Lemma scanreq_answered_witness : exists t' bs rsp,
  worker_step demo_cfg (scan_thread scan_packet_small) = Ok (tt, t') /\ t_sent t' = [(ToClient, bs)] /\
  run_reader (ScanResponseSplit_parse CURMETHOD_ID (Z.of_nat (length bs))) bs = Ok rsp /\
  map (fun x => (x.1, sr_val x.2)) (sp_pairs rsp) = [(key_of 1, val_of 7); (key_of 4, val_of 2)].
Proof.
  destruct (scan_thread_ok scan_packet_small) as [H1 H2]; [vm_compute; discriminate|].
  destruct (scanreq_answered demo_cfg demo_cfg_ok (scan_thread scan_packet_small) (demo_scanreq (key_of 0) (key_of 9))
    (mkKey 0 0 0 0) (mkKey (2 ^ 32 - 1) (2 ^ 32 - 1) (2 ^ 32 - 1) (2 ^ 32 - 1)) (key_of 0) (key_of 9)
    [(key_of 1, mkSnapshotRecord (val_of 7) 5 true); (key_of 4, mkSnapshotRecord (val_of 2) 30 true)])
    as (t' & bs & rsp & E & _ & _ & T & R & _ & _ & _ & _ & _ & P);
    [exact H1|exact H2|vm_compute; reflexivity|vm_compute; reflexivity|vm_compute; reflexivity
    |apply key_of_wf; unfold is_u32; lia|apply key_of_wf; unfold is_u32; lia|unfold is_u16; cbn; lia|unfold is_u16; cbn; lia
    |reflexivity|reflexivity|reflexivity|vm_compute; reflexivity|vm_compute; split; [discriminate|reflexivity]
    | |vm_compute; discriminate|].
  - repeat (constructor; [split; [apply key_of_wf; unfold is_u32; lia|apply val_of_wf; unfold is_byte; lia]|]). constructor.
  - exists t', bs, rsp. auto.
Defined.

Lemma scan_clipping_aborts_witness : exists err,
  worker_step two_servers (scan_thread scan_packet_past) = Err err.
Proof.
  apply (scan_clipping_aborts two_servers (scan_thread scan_packet_past) (demo_scanreq (key_of 0) (mkKey 9 0 0 (2 ^ 31)))
    (mkKey 0 0 0 0) (mkKey (2 ^ 32 - 1) (2 ^ 32 - 1) (2 ^ 32 - 1) (2 ^ 31 - 1))); try (vm_compute; reflexivity).
  apply key_of_wf. unfold is_u32. lia.
Defined.
