(* ===== verification/Fragment.v ===== *)
(** * Fragments of large packets (common/socket_helper.c, common/packet_format_impl.h)

    A packet with a value of more than 128 bytes, a range query response and a
    snapshot are sent as several datagrams.  Each starts with the same header
    bytes of the packet, then the index of the fragment and the number of
    fragments (16 bits each, in network order), then its part of the body.
    [udpsendlarge] is the sender; the sizes a receiver derives from the type of
    a packet are here too. *)

From Stdlib Require Import ZArith Lia List.
From stdpp Require Import base tactics list numbers option.
From S2P Require Import Prelude Cursor DynamicArray StdMap Crc32 Key Val Packet PacketCodec PacketCache PacketScan PacketServer.

Open Scope Z_scope.

(** ** Sizes and types *)

Definition UDP_FRAGMENT_MAXSIZE : Z := 65507.
Definition IP_FRAGMENT_MAXSIZE : Z := 1412.
Definition IP_FRAGMENT_RESERVESIZE : Z := 64.

Definition PUTREQ_LARGEVALUE_SEQ_CACHED : Z := 0x0042.
Definition GETRES_LARGEVALUE_SERVER_SEQ : Z := 0x0360.

(** [optype_for_udprecvlarge_ipfrag_list] and [optype_with_clientlogicalidx_list]. *)
Definition optype_with_clientlogicalidx_list : list Z :=
  [PUTREQ_LARGEVALUE; PUTREQ_LARGEVALUE_SEQ; PUTREQ_LARGEVALUE_SEQ_CACHED; PUTREQ_LARGEVALUE_SEQ_CASE3;
   PUTREQ_LARGEVALUE_SEQ_BEINGEVICTED; PUTREQ_LARGEVALUE_SEQ_CASE3_BEINGEVICTED; LOADREQ].

Definition optype_for_udprecvlarge_ipfrag_list : list Z :=
  [PUTREQ_LARGEVALUE; PUTREQ_LARGEVALUE_SEQ; PUTREQ_LARGEVALUE_SEQ_CACHED; PUTREQ_LARGEVALUE_SEQ_CASE3;
   PUTREQ_LARGEVALUE_SEQ_BEINGEVICTED; PUTREQ_LARGEVALUE_SEQ_CASE3_BEINGEVICTED; LOADREQ;
   GETRES_LARGEVALUE; GETRES_LARGEVALUE_SEQ; GETRES_LARGEVALUE_SERVER_SEQ].

Definition is_packet_with_largevalue (type : Z) : bool :=
  existsb (Z.eqb type) optype_for_udprecvlarge_ipfrag_list.
Definition is_packet_with_clientlogicalidx (type : Z) : bool :=
  existsb (Z.eqb type) optype_with_clientlogicalidx_list.

(** The five types a switch turns PUTREQ_LARGEVALUE into. *)
Definition is_largevalue_seq (type : Z) : bool :=
  (type =? PUTREQ_LARGEVALUE_SEQ) || (type =? PUTREQ_LARGEVALUE_SEQ_CACHED) ||
  (type =? PUTREQ_LARGEVALUE_SEQ_CASE3) || (type =? PUTREQ_LARGEVALUE_SEQ_BEINGEVICTED) ||
  (type =? PUTREQ_LARGEVALUE_SEQ_CASE3_BEINGEVICTED).

Definition is_same_optype (type1 type2 : Z) : bool :=
  if is_largevalue_seq type1 && is_largevalue_seq type2 then true else type1 =? type2.

(** [get_frag_hdrsize] of the classes. *)
Definition PutRequestLargevalue_get_frag_hdrsize (methodid : Z) : res Z :=
  oph ← get_ophdrsize methodid; Ok (oph + 2 + 4).
Definition PutRequestLargevalueSeq_get_frag_hdrsize (methodid : Z) : res Z :=
  oph ← get_ophdrsize methodid;
  let size := oph + 2 + 4 + 2 + 4 in
  Ok (if methodid =? FARREACH_ID then size + 4 else size).
Definition GetResponseLargevalue_get_frag_hdrsize (methodid : Z) : res Z := get_ophdrsize methodid.

Definition get_frag_hdrsize (methodid type : Z) : res Z :=
  if type =? PUTREQ_LARGEVALUE then PutRequestLargevalue_get_frag_hdrsize methodid
  else if is_largevalue_seq type then PutRequestLargevalueSeq_get_frag_hdrsize methodid
  else if (type =? GETRES_LARGEVALUE) || (type =? GETRES_LARGEVALUE_SEQ) ||
          (type =? GETRES_LARGEVALUE_SERVER_SEQ) then GetResponseLargevalue_get_frag_hdrsize methodid
  else if type =? LOADREQ then PutRequestLargevalue_get_frag_hdrsize methodid
  else Ok 0.

(** The largest datagram of a packet the receiver sees as [type]: the switch
    may have added fields to the header. *)
Definition get_frag_totalsize (methodid type frag_maxsize : Z) : res Z :=
  if is_largevalue_seq type then
    sent ← get_frag_hdrsize methodid PUTREQ_LARGEVALUE;
    received ← get_frag_hdrsize methodid PUTREQ_LARGEVALUE_SEQ;
    result ← int_ck (s32 frag_maxsize + (s32 received - s32 sent));
    _ ← INVARIANT (0 <=? result);
    Ok result
  else Ok frag_maxsize.

(** [get_packet_clientlogicalidx] and [get_packet_fragseq]. *)
Definition clientlogicalidx_off (methodid type : Z) : res Z :=
  oph ← get_ophdrsize methodid;
  if type =? PUTREQ_LARGEVALUE then Ok oph
  else if is_largevalue_seq type then
    Ok (if methodid =? FARREACH_ID then oph + 2 + 4 + 4 else oph + 2 + 4)
  else if type =? LOADREQ then Ok oph
  else Err ExitCalled.

Definition get_packet_clientlogicalidx (methodid recvsize : Z) (data : list Z) : res Z :=
  type ← run_reader (get_packet_type recvsize) data;
  prevbytes ← clientlogicalidx_off methodid type;
  _ ← INVARIANT (prevbytes + 2 <=? recvsize);
  run_reader (_ ← r_skip prevbytes; r_u16be) data.

Definition get_packet_fragseq (methodid recvsize : Z) (data : list Z) : res Z :=
  type ← run_reader (get_packet_type recvsize) data;
  off ← clientlogicalidx_off methodid type;
  let prevbytes := off + 2 in
  _ ← INVARIANT (prevbytes + 4 <=? recvsize);
  run_reader (_ ← r_skip prevbytes; r_u32be) data.

(** ** Sending *)

(** [memcpy] of [n] bytes from [off] of an object. *)
Definition load_at (a : list Z) (off n : Z) : res (list Z) :=
  if (0 <=? off) && (0 <=? n) && (off + n <=? Z.of_nat (length a))
  then Ok (take (Z.to_nat n) (drop (Z.to_nat off) a))
  else Err OutOfBounds.

(** One round of the loop of [udpsendlarge]: the datagram, and the offset and
    the buffer after it. *)
Definition send_fragment (buf fragbuf : list Z)
    (frag_hdrsize frag_maxsize final_frag_hdrsize frag_bodysize total_bodysize cur_fragidx max_fragnum
     buf_sentsize : Z) : res (list Z * Z * list Z) :=
  fragbuf ← store_at fragbuf frag_hdrsize (replicate (Z.to_nat (frag_maxsize - frag_hdrsize)) 0);
  fragbuf ← store_at fragbuf frag_hdrsize (le_bytes 2 (htons cur_fragidx));
  fragbuf ← store_at fragbuf (frag_hdrsize + 2) (le_bytes 2 (htons max_fragnum));
  let cur_frag_bodysize :=
    if cur_fragidx =? max_fragnum - 1
    then s32 (u64 (total_bodysize - u64 (frag_bodysize * cur_fragidx)))
    else s32 frag_bodysize in
  body ← load_at buf buf_sentsize cur_frag_bodysize;
  fragbuf ← store_at fragbuf final_frag_hdrsize body;
  dgram ← load_at fragbuf 0 (final_frag_hdrsize + cur_frag_bodysize);
  Ok (dgram, buf_sentsize + cur_frag_bodysize, fragbuf).

Fixpoint send_fragments (rounds : nat) (buf fragbuf : list Z)
    (frag_hdrsize frag_maxsize final_frag_hdrsize frag_bodysize total_bodysize cur_fragidx max_fragnum
     buf_sentsize : Z) : res (list (list Z)) :=
  match rounds with
  | O => Ok []
  | S rounds' =>
      '(dgram, sent, fragbuf) ← send_fragment buf fragbuf frag_hdrsize frag_maxsize final_frag_hdrsize
          frag_bodysize total_bodysize cur_fragidx max_fragnum buf_sentsize;
      rest ← send_fragments rounds' buf fragbuf frag_hdrsize frag_maxsize final_frag_hdrsize
          frag_bodysize total_bodysize (cur_fragidx + 1) max_fragnum sent;
      Ok (dgram :: rest)
  end.

(** [udpsendlarge] on the object [buf], of which [len] bytes are sent: the
    datagrams in the order of [udpsendto].  The loop runs [max_fragnum] times,
    a 16-bit number. *)
Definition udpsendlarge (buf : list Z) (len frag_hdrsize frag_maxsize : Z) : res (list (list Z)) :=
  _ ← INVARIANT (frag_hdrsize <=? len);
  let final_frag_hdrsize := frag_hdrsize + 2 + 2 in
  let frag_bodysize := u64 (frag_maxsize - final_frag_hdrsize) in
  let total_bodysize := len - frag_hdrsize in
  fragnum ← (if 0 <? total_bodysize then
               if frag_bodysize =? 0 then Err DivByZero
               else Ok (u64 (total_bodysize + frag_bodysize - 1) / frag_bodysize)
             else Ok 1);
  _ ← INVARIANT (0 <? fragnum);
  hdr ← load_at buf 0 frag_hdrsize;
  fragbuf ← store_at (replicate (Z.to_nat frag_maxsize) 0) 0 hdr;
  let max_fragnum := u16 fragnum in
  send_fragments (Z.to_nat max_fragnum) buf fragbuf frag_hdrsize frag_maxsize final_frag_hdrsize
    frag_bodysize total_bodysize 0 max_fragnum frag_hdrsize.

Definition udpsendlarge_udpfrag (buf : list Z) (len : Z) : res (list (list Z)) :=
  udpsendlarge buf len 0 UDP_FRAGMENT_MAXSIZE.
Definition udpsendlarge_ipfrag (buf : list Z) (len frag_hdrsize : Z) : res (list (list Z)) :=
  udpsendlarge buf len frag_hdrsize IP_FRAGMENT_MAXSIZE.

(** ** What is sent *)

Lemma store_at_app (pre old post src : list Z) off :
  off = Z.of_nat (length pre) -> length old = length src ->
  store_at (pre ++ old ++ post) off src = Ok (pre ++ src ++ post).
Proof.
  intros -> Hl. rewrite store_at_ok by (rewrite ?length_app; lia). rewrite Nat2Z.id.
  rewrite take_app_length, <- Hl, <- drop_drop, drop_app_length, drop_app_length. reflexivity.
Qed.

Lemma load_at_app (pre xs post : list Z) off n :
  off = Z.of_nat (length pre) -> n = Z.of_nat (length xs) -> load_at (pre ++ xs ++ post) off n = Ok xs.
Proof.
  intros -> ->. unfold load_at. rewrite !length_app.
  rewrite !(proj2 (Z.leb_le _ _)) by lia. cbn [andb].
  now rewrite !Nat2Z.id, drop_app_length, take_app_length.
Qed.

(** Part [i] of a body cut into parts of [b] bytes, the number of parts, and
    the datagram of a part. *)
Definition chunk (b i : nat) (body : list Z) : list Z := take b (drop (i * b) body).
Definition fragnum (b : nat) (body : list Z) : nat := Nat.max 1 ((length body + b - 1) / b).
Definition fragment (hdr : list Z) (i n : nat) (part : list Z) : list Z :=
  hdr ++ be 2 (Z.of_nat i) ++ be 2 (Z.of_nat n) ++ part.
Definition fragments (b : nat) (hdr body : list Z) : list (list Z) :=
  map (fun i => fragment hdr i (fragnum b body) (chunk b i body)) (seq 0 (fragnum b body)).

Lemma length_fragments b hdr body : length (fragments b hdr body) = fragnum b body.
Proof. unfold fragments. now rewrite length_map, length_seq. Qed.

Lemma nth_fragments b hdr body i : (i < fragnum b body)%nat ->
  nth i (fragments b hdr body) [] = fragment hdr i (fragnum b body) (chunk b i body).
Proof.
  intros Hi. unfold fragments.
  rewrite (nth_indep _ [] (fragment hdr 0 (fragnum b body) (chunk b 0 body))) by (rewrite length_map, length_seq; lia).
  rewrite (map_nth (fun i => fragment hdr i (fragnum b body) (chunk b i body))), seq_nth by lia. reflexivity.
Qed.

Lemma fragnum_bounds b body : (0 < b)%nat ->
  (1 <= fragnum b body)%nat /\ (length body <= fragnum b body * b)%nat /\
  ((fragnum b body - 1) * b <= length body)%nat /\
  (1 < fragnum b body -> (fragnum b body - 1) * b < length body)%nat.
Proof.
  intros Hb. unfold fragnum.
  pose proof (Nat.div_mod_eq (length body + b - 1) b) as E.
  pose proof (Nat.mod_upper_bound (length body + b - 1) b ltac:(lia)) as M.
  set (q := ((length body + b - 1) / b)%nat) in *.
  destruct (Nat.max_spec 1 q) as [[? ->]|[? ->]]; repeat split; nia.
Qed.

Lemma length_chunk b i body : (0 < b)%nat -> (i < fragnum b body)%nat ->
  length (chunk b i body) = if (S i =? fragnum b body)%nat then (length body - i * b)%nat else b.
Proof.
  intros Hb Hi. destruct (fragnum_bounds b body Hb) as (H1 & H2 & H3 & H4).
  unfold chunk. rewrite length_take, length_drop.
  destruct (Nat.eqb_spec (S i) (fragnum b body)) as [E|E]; nia.
Qed.

(** The parts in order are the body. *)
Lemma chunks_concat b body n : (0 < b)%nat ->
  concat (map (fun i => chunk b i body) (seq 0 n)) = take (n * b) body.
Proof.
  intros Hb. induction n as [|n IH]; [reflexivity|].
  rewrite seq_S, map_app, concat_app, IH. cbn. rewrite app_nil_r. unfold chunk.
  now rewrite (Nat.add_comm b), take_take_drop.
Qed.

Section Send.

Context (hdr body tail : list Z) (b : nat).
Hypothesis Hb : (0 < b)%nat.
Hypothesis Hmax : Z.of_nat (length hdr + 4 + b) < 2 ^ 31.
Hypothesis Hlen : Z.of_nat (length body) < 2 ^ 31.
Hypothesis Hn : Z.of_nat (fragnum b body) < 2 ^ 16.

Abbreviation buf := (hdr ++ body ++ tail).
Abbreviation h := (Z.of_nat (length hdr)).
Abbreviation fn := (fragnum b body).

(** The size computed for part [i], as an [int]. *)
Lemma cur_bodysize i : (i < fn)%nat ->
  (if Z.of_nat i =? Z.of_nat fn - 1
   then s32 (u64 (Z.of_nat (length body) - u64 (Z.of_nat b * Z.of_nat i)))
   else s32 (Z.of_nat b)) = Z.of_nat (length (chunk b i body)).
Proof using Hb Hmax Hlen Hn.
  intros Hi. rewrite length_chunk by assumption.
  destruct (fragnum_bounds b body Hb) as (H1 & H2 & H3 & H4).
  assert (2 ^ 31 < 2 ^ 64) by reflexivity. change (2 ^ 31)%Z with 2147483648 in *.
  assert (Z.of_nat b * Z.of_nat i <= Z.of_nat (length body)) by nia.
  destruct (Z.eqb_spec (Z.of_nat i) (Z.of_nat fn - 1)), (Nat.eqb_spec (S i) fn); try lia.
  - unfold u64. rewrite (Z.mod_small (_ * _)) by lia. rewrite Z.mod_small by lia.
    rewrite s32_id by (unfold is_s32; lia). nia.
  - apply s32_id. unfold is_s32. lia.
Qed.

Lemma send_fragment_ok i fragbuf :
  (i < fn)%nat -> (exists rest, fragbuf = hdr ++ rest /\ length rest = (4 + b)%nat) ->
  exists fragbuf', send_fragment buf fragbuf h (h + 4 + Z.of_nat b) (h + 2 + 2) (Z.of_nat b)
      (Z.of_nat (length body)) (Z.of_nat i) (Z.of_nat fn) (h + Z.of_nat (i * b))
    = Ok (fragment hdr i fn (chunk b i body),
          h + Z.of_nat (i * b) + Z.of_nat (length (chunk b i body)), fragbuf') /\
    exists rest, fragbuf' = hdr ++ rest /\ length rest = (4 + b)%nat.
Proof using Hb Hmax Hlen Hn.
  intros Hi (rest & -> & Hr). unfold send_fragment. rewrite (cur_bodysize i Hi).
  set (c := chunk b i body).
  assert (Hc : (length c <= b)%nat) by (unfold c, chunk; rewrite length_take; lia).
  replace (Z.to_nat (h + 4 + Z.of_nat b - h)) with (2 + (2 + (length c + (b - length c))))%nat by lia.
  rewrite !replicate_add, !le_bytes_htons. fold (be 2 (Z.of_nat i)) (be 2 (Z.of_nat fn)).
  rewrite <- (app_nil_r rest), store_at_app by (rewrite ?length_app, ?length_replicate; lia).
  cbn [mbind res_bind]. rewrite app_nil_r.
  rewrite store_at_app by (rewrite ?length_replicate, ?length_be; lia). cbn [mbind res_bind].
  rewrite (app_assoc hdr (be 2 (Z.of_nat i))), store_at_app by (rewrite ?length_app, ?length_replicate, ?length_be; lia).
  cbn [mbind res_bind].
  assert (El : load_at buf (h + Z.of_nat (i * b)) (Z.of_nat (length c)) = Ok c).
  { destruct (fragnum_bounds b body Hb) as (_ & _ & H3 & _).
    assert (Hbody : body = take (i * b) body ++ c ++ drop b (drop (i * b) body))
      by (unfold c, chunk; now rewrite !take_drop).
    rewrite Hbody at 1. rewrite <- !(app_assoc (take _ _)), <- (app_assoc c), (app_assoc hdr).
    apply load_at_app; [|reflexivity]. rewrite length_app, length_take. nia. }
  rewrite El. cbn [mbind res_bind].
  rewrite (app_assoc (hdr ++ be 2 (Z.of_nat i))), store_at_app by (rewrite ?length_app, ?length_replicate, ?length_be; lia).
  cbn [mbind res_bind].
  set (z := replicate (b - length c) 0). unfold fragment.
  replace ((((hdr ++ be 2 (Z.of_nat i)) ++ be 2 (Z.of_nat fn)) ++ c ++ z))
    with ([] ++ (hdr ++ be 2 (Z.of_nat i) ++ be 2 (Z.of_nat fn) ++ c) ++ z)
    by (cbn [app]; now rewrite <- !app_assoc).
  rewrite load_at_app by (rewrite ?length_app, ?length_be; cbn [length]; lia).
  eexists. split; [reflexivity|]. eexists. cbn [app]. rewrite <- app_assoc. split; [reflexivity|].
  rewrite !length_app, !length_be. unfold z. rewrite length_replicate. lia.
Qed.

Lemma send_fragments_ok k : forall i fragbuf,
  (i + k = fn)%nat -> (exists rest, fragbuf = hdr ++ rest /\ length rest = (4 + b)%nat) ->
  send_fragments k buf fragbuf h (h + 4 + Z.of_nat b) (h + 2 + 2) (Z.of_nat b)
      (Z.of_nat (length body)) (Z.of_nat i) (Z.of_nat fn) (h + Z.of_nat (i * b))
  = Ok (map (fun i => fragment hdr i fn (chunk b i body)) (seq i k)).
Proof using Hb Hmax Hlen Hn.
  induction k as [|k IH]; intros i fragbuf Hk Hf; [reflexivity|]. cbn [send_fragments seq map].
  destruct (send_fragment_ok i fragbuf) as (fragbuf' & E & Hf'); [lia|exact Hf|].
  rewrite E. cbn [mbind res_bind].
  destruct (Nat.eq_dec k 0%nat) as [->|Hk0]; [reflexivity|].
  rewrite length_chunk by (assumption || lia).
  rewrite (proj2 (Nat.eqb_neq _ _)) by lia.
  replace (Z.of_nat i + 1) with (Z.of_nat (S i)) by lia.
  replace (h + Z.of_nat (i * b) + Z.of_nat b) with (h + Z.of_nat (S i * b)) by lia.
  rewrite IH by (lia || exact Hf'). reflexivity.
Qed.

(** [udpsendlarge] on a buffer that holds a header and a body sends the
    fragments of that body, in order. *)
Lemma udpsendlarge_fragments len :
  len = Z.of_nat (length (hdr ++ body)) ->
  udpsendlarge buf len h (h + 4 + Z.of_nat b) = Ok (fragments b hdr body).
Proof using Hb Hmax Hlen Hn.
  intros ->. rewrite length_app. unfold udpsendlarge.
  rewrite INVARIANT_true by (apply Z.leb_le; lia). cbn [mbind res_bind].
  assert (2 ^ 31 < 2 ^ 64) by reflexivity. change (2 ^ 31)%Z with 2147483648 in *.
  replace (u64 (h + 4 + Z.of_nat b - (h + 2 + 2))) with (Z.of_nat b)
    by (unfold u64; rewrite Z.mod_small; lia).
  replace (Z.of_nat (length hdr + length body) - h) with (Z.of_nat (length body)) by lia.
  rewrite (proj2 (Z.eqb_neq (Z.of_nat b) 0)) by lia.
  assert (Efn : (if 0 <? Z.of_nat (length body)
                 then Ok (u64 (Z.of_nat (length body) + Z.of_nat b - 1) / Z.of_nat b) else Ok 1)
                = Ok (Z.of_nat fn)).
  { unfold fragnum. destruct (Z.ltb_spec 0 (Z.of_nat (length body))) as [Hp|Hp]; f_equal.
    - unfold u64. rewrite Z.mod_small by lia.
      replace (Z.of_nat (length body) + Z.of_nat b - 1) with (Z.of_nat (length body + b - 1)) by lia.
      rewrite <- Nat2Z.inj_div. pose proof (Nat.div_le_lower_bound (length body + b - 1) b 1). lia.
    - replace (length body) with 0%nat by lia. rewrite Nat.div_small by lia. reflexivity. }
  rewrite Efn. cbn [mbind res_bind].
  destruct (fragnum_bounds b body Hb) as (H1 & _).
  rewrite INVARIANT_true by (apply Z.ltb_lt; lia). cbn [mbind res_bind].
  rewrite (load_at_app [] hdr (body ++ tail) 0 h eq_refl eq_refl : load_at buf 0 h = Ok hdr).
  cbn [mbind res_bind].
  replace (Z.to_nat (h + 4 + Z.of_nat b)) with (length hdr + (4 + b))%nat by lia.
  rewrite replicate_add.
  rewrite (store_at_app [] (replicate (length hdr) 0) (replicate (4 + b) 0) hdr 0 eq_refl
             (length_replicate _ _) : store_at (replicate (length hdr) 0 ++ replicate (4 + b) 0) 0 hdr
             = Ok (hdr ++ replicate (4 + b) 0)).
  cbn [mbind res_bind].
  rewrite u16_id by (unfold is_u16; lia). rewrite Nat2Z.id.
  transitivity (send_fragments fn buf (hdr ++ replicate (4 + b) 0) h (h + 4 + Z.of_nat b) (h + 2 + 2)
    (Z.of_nat b) (Z.of_nat (length body)) (Z.of_nat 0) (Z.of_nat fn) (h + Z.of_nat (0 * b))).
  { f_equal. cbn. lia. }
  apply (send_fragments_ok fn 0%nat); [lia|]. eexists. split; [reflexivity|]. now rewrite length_replicate.
Qed.

End Send.
