(* ===== verification/Reassembly.v ===== *)
(** * Putting fragments together

    The bytes of a packet of which some fragments have arrived, in any order:
    every part is in its place behind the header, and when all are there the
    bytes are the packet. *)

From Stdlib Require Import ZArith Lia List.
From stdpp Require Import base tactics list numbers option.
From S2P Require Import Prelude Cursor DynamicArray Fragment.

Open Scope Z_scope.

Section Cover.

Context (b : nat) (hdr body : list Z).
Hypothesis Hb : (0 < b)%nat.
Abbreviation n := (fragnum b body).
Abbreviation h := (length hdr).

(** The fragments [S] of the packet [hdr ++ body] are in [bytes]. *)
Record covers (S : list nat) (bytes : list Z) : Prop := {
  cv_len : (h <= length bytes <= h + length body)%nat;
  cv_part : forall i x, i ∈ S -> (x < length (chunk b i body))%nat ->
    (h + i * b + x < length bytes)%nat /\
    nth (h + i * b + x) bytes 0 = nth x (chunk b i body) 0;
  cv_hdr : 0%nat ∈ S -> forall x, (x < h)%nat -> nth x bytes 0 = nth x hdr 0
}.

Lemma part_in_body i : (i < n)%nat -> (i * b + length (chunk b i body) <= length body)%nat.
Proof using Hb.
  intros Hi. pose proof (length_chunk b i body Hb Hi) as Hc.
  destruct (fragnum_bounds b body Hb) as (_ & _ & H3 & H4).
  destruct (Nat.eqb_spec (S i) n); nia.
Qed.

(** When all fragments are there the bytes are the request. *)
Lemma covers_full S bytes : covers S bytes -> (forall i, (i < n)%nat -> i ∈ S) -> bytes = hdr ++ body.
Proof using Hb.
  intros H Hall. destruct (fragnum_bounds b body Hb) as (_ & H2 & _).
  assert (Hpart : forall y, (y < length body)%nat ->
    (h + y < length bytes)%nat /\ nth (h + y) bytes 0 = nth y body 0).
  { intros y Hy. pose proof (Nat.div_mod_eq y b) as E. pose proof (Nat.mod_upper_bound y b ltac:(lia)) as Hm.
    set (i := (y / b)%nat) in *. set (x := (y mod b)%nat) in *. assert (Hi : (i < n)%nat) by nia.
    assert (Hx : (x < length (chunk b i body))%nat).
    { unfold chunk. rewrite length_take, length_drop. nia. }
    destruct (cv_part _ _ H i x (Hall i Hi) Hx) as [P1 P2].
    replace (h + y)%nat with (h + i * b + x)%nat by nia. split; [exact P1|]. rewrite P2. unfold chunk.
    rewrite nth_firstn, nth_skipn. rewrite (proj2 (Nat.ltb_lt _ _)) by lia. f_equal. nia. }
  pose proof (cv_len _ _ H) as Hlen.
  assert (Hsz : length bytes = (h + length body)%nat).
  { destruct (Nat.eq_dec (length body) 0%nat) as [E0|Hne]; [lia|].
    destruct (Hpart (length body - 1)%nat ltac:(lia)) as [Hp _]. lia. }
  apply (nth_ext _ _ 0 0); [rewrite length_app; lia|]. intros y Hy.
  destruct (Nat.lt_ge_cases y h) as [Hlt|Hge].
  - rewrite app_nth1 by exact Hlt. apply (cv_hdr _ _ H); [apply Hall; unfold fragnum; lia|exact Hlt].
  - rewrite app_nth2 by exact Hge. destruct (Hpart (y - h)%nat ltac:(lia)) as [_ <-]. f_equal. lia.
Qed.

(** One more fragment. *)
Lemma covers_add S bytes i : covers S bytes -> (i < n)%nat -> i ∉ S ->
  covers (i :: S)
    (let bytes' := put_at bytes (h + i * b) (chunk b i body) in
     if (i =? 0)%nat then put_at bytes' 0 hdr else bytes').
Proof using Hb.
  intros [Hlen Hpart Hhdr] Hi Hni. pose proof (part_in_body i Hi) as Hin.
  set (bytes' := put_at _ _ _). cbn zeta.
  assert (H1 : length bytes' = Nat.max (length bytes) (h + i * b + length (chunk b i body)))
    by apply length_put_at.
  assert (H2 : forall y, nth y bytes' 0 = if ((h + i * b <=? y) && (y <? h + i * b + length (chunk b i body)))%nat
    then nth (y - (h + i * b)) (chunk b i body) 0 else nth y bytes 0) by (intros; apply nth_put_at).
  assert (H3 : forall j x, j ∈ i :: S -> (x < length (chunk b j body))%nat ->
    (h + j * b + x < length bytes')%nat /\ nth (h + j * b + x) bytes' 0 = nth x (chunk b j body) 0).
  { intros j x Hj Hx. rewrite H1, H2. apply elem_of_cons in Hj as [->|Hj].
    - rewrite (proj2 (Nat.leb_le _ _)), (proj2 (Nat.ltb_lt _ _)) by lia. split; [lia|]. cbn [andb]. f_equal. lia.
    - destruct (Hpart j x Hj Hx) as [P1 P2]. split; [lia|]. rewrite <- P2.
      assert (Hji : j <> i) by (intros ->; auto).
      assert (Hxb : (x < b)%nat) by (unfold chunk in Hx; rewrite length_take in Hx; lia).
      assert (Hcb : (length (chunk b i body) <= b)%nat) by (unfold chunk; rewrite length_take; lia).
      destruct (Nat.leb_spec (h + i * b) (h + j * b + x)), (Nat.ltb_spec (h + j * b + x) (h + i * b + length (chunk b i body)));
        cbn [andb]; try reflexivity. exfalso. destruct (Nat.lt_ge_cases i j); nia. }
  assert (H4 : forall x, (x < h)%nat -> nth x bytes' 0 = nth x bytes 0).
  { intros x Hx. rewrite H2. rewrite (proj2 (Nat.leb_gt _ _)) by lia. reflexivity. }
  destruct (Nat.eqb_spec i 0) as [->|Hi0].
  - assert (H5 : length (put_at bytes' 0 hdr) = length bytes') by (rewrite length_put_at; lia).
    constructor.
    + lia.
    + intros j x Hj Hx. rewrite H5, nth_put_at, (proj2 (Nat.ltb_ge _ _)), andb_false_r by lia. auto.
    + intros _ x Hx. rewrite nth_put_at, (proj2 (Nat.leb_le _ _)), (proj2 (Nat.ltb_lt _ _)) by lia.
      cbn [andb]. f_equal. lia.
  - constructor; [lia|exact H3|]. intros H0 x Hx. rewrite H4 by exact Hx.
    apply elem_of_cons in H0 as [H0|H0]; [congruence|auto].
Qed.

End Cover.
