(* ===== verification/PktRingBuffer.v ===== *)
(** * The ring buffer of packets (common/pkt_ring_buffer.h, common/pkt_ring_buffer.c)

    While a server collects the fragments of one large request it keeps what
    other clients send in a ring of [capacity] slots: small requests, and large
    requests with the fragments seen so far, found again by the index of the
    client.  The ring is ten parallel vectors with [head], where the next packet
    goes, and [tail], the oldest one.  [ring_is] relates it to the queue of its
    packets, and the lemmas show each operation to be the operation of the
    queue. *)

From Stdlib Require Import ZArith Lia List.
From stdpp Require Import base tactics list numbers option.
From S2P Require Import Prelude Cursor DynamicArray StdMap Crc32 Key Val DeletedSet KVStore RocksdbWrapper Packet PacketCodec PacketCache PacketScan PacketServer Outband Fragment.

Open Scope Z_scope.

(** ** Vectors *)

(** [v[i]] and [v[i] = x] of a std::vector: undefined outside of it. *)
Definition vec_get {A} (v : list A) (i : Z) : res A :=
  match v !! Z.to_nat i with Some x => Ok x | None => Err OutOfBounds end.
Definition vec_set {A} (v : list A) (i : Z) (x : A) : res (list A) :=
  if (Z.to_nat i <? length v)%nat then Ok (<[Z.to_nat i := x]> v) else Err OutOfBounds.

(** [a % b] on uint32_t. *)
Definition u32_mod (a b : Z) : res Z := if b =? 0 then Err DivByZero else Ok (u32 a mod b).

(** ** State *)

Record sockaddr_in := mkAddr { sin_family : Z; sin_port : Z; sin_addr : Z }.
Definition sockaddr_zero : sockaddr_in := mkAddr 0 0 0.
Definition sizeof_sockaddr_in : Z := 16.

Record PktRingBuffer := mkRing {
  valid_list : list bool;
  optype_list : list Z;
  key_list : list Key;
  dynamicbuf_list : list DynamicArray;
  curfragnum_list : list Z;
  maxfragnum_list : list Z;
  clientaddr_list : list sockaddr_in;
  clientaddrlen_list : list Z;
  clientlogicalidx_list : list Z;
  fragseq_list : list Z;
  clientlogicalidx_bufidx_map : stdmap Z Z;
  head : Z;
  tail : Z;
  capacity : Z
}.

(** [PktRingBuffer(tmpcapacity)], that is [init] on empty vectors. *)
Definition ring_init (tmpcapacity : Z) : res PktRingBuffer :=
  d ← DynamicArray_new MAX_BUFSIZE MAX_LARGE_BUFSIZE;
  let n := Z.to_nat tmpcapacity in
  Ok (mkRing (replicate n false) (replicate n 0) (replicate n Key_min) (replicate n d)
        (replicate n 0) (replicate n 0) (replicate n sockaddr_zero) (replicate n sizeof_sockaddr_in)
        (replicate n 0) (replicate n 0) [] 0 0 tmpcapacity).

(** ** Operations *)

(** [push]: [buf] is the [bufsize] bytes of the packet. *)
Definition push (r : PktRingBuffer) (optype : Z) (key : Key) (buf : list Z) (clientaddr : sockaddr_in)
    (clientaddrlen : Z) : res (bool * PktRingBuffer) :=
  next ← u32_mod (head r + 1) (capacity r);
  if next =? tail r then Ok (false, r) else
  let h := head r in
  valid ← vec_set (valid_list r) h true;
  optypes ← vec_set (optype_list r) h optype;
  keys ← vec_set (key_list r) h key;
  d ← vec_get (dynamicbuf_list r) h;
  d ← clear d;
  d ← dynamic_memcpy d 0 buf;
  bufs ← vec_set (dynamicbuf_list r) h d;
  curs ← vec_set (curfragnum_list r) h 0;
  maxs ← vec_set (maxfragnum_list r) h 0;
  addrs ← vec_set (clientaddr_list r) h clientaddr;
  addrlens ← vec_set (clientaddrlen_list r) h clientaddrlen;
  idxs ← vec_set (clientlogicalidx_list r) h 0;
  seqs ← vec_set (fragseq_list r) h 0;
  Ok (true, mkRing valid optypes keys bufs curs maxs addrs addrlens idxs seqs
              (clientlogicalidx_bufidx_map r) next (tail r) (capacity r)).

(** [is_clientlogicalidx_exist]. *)
Definition is_clientlogicalidx_exist (r : PktRingBuffer) (clientlogicalidx : Z) : res bool :=
  match m_find clientlogicalidx (clientlogicalidx_bufidx_map r) with
  | None => Ok false
  | Some bufidx =>
      valid ← vec_get (valid_list r) bufidx;
      _ ← INVARIANT valid;
      maxfragnum ← vec_get (maxfragnum_list r) bufidx;
      _ ← INVARIANT (0 <? maxfragnum);
      Ok true
  end.

(** [push_large] with the bytes of the header and of one part. *)
Definition push_large (r : PktRingBuffer) (optype : Z) (key : Key) (fraghdr : list Z) (fragbody_off : Z)
    (fragbody : list Z) (curfragnum maxfragnum : Z) (clientaddr : sockaddr_in)
    (clientaddrlen clientlogicalidx fragseq : Z) : res (bool * PktRingBuffer) :=
  _ ← INVARIANT (0 <? maxfragnum);
  next ← u32_mod (head r + 1) (capacity r);
  if next =? tail r then Ok (false, r) else
  let h := head r in
  valid ← vec_set (valid_list r) h true;
  optypes ← vec_set (optype_list r) h optype;
  keys ← vec_set (key_list r) h key;
  d ← vec_get (dynamicbuf_list r) h;
  d ← clear d;
  d ← dynamic_memcpy d 0 fraghdr;
  d ← dynamic_memcpy d fragbody_off fragbody;
  bufs ← vec_set (dynamicbuf_list r) h d;
  curs ← vec_set (curfragnum_list r) h curfragnum;
  maxs ← vec_set (maxfragnum_list r) h maxfragnum;
  addrs ← vec_set (clientaddr_list r) h clientaddr;
  addrlens ← vec_set (clientaddrlen_list r) h clientaddrlen;
  idxs ← vec_set (clientlogicalidx_list r) h clientlogicalidx;
  seqs ← vec_set (fragseq_list r) h fragseq;
  _ ← INVARIANT (match m_find clientlogicalidx (clientlogicalidx_bufidx_map r) with
                 | None => true | Some _ => false end);
  Ok (true, mkRing valid optypes keys bufs curs maxs addrs addrlens idxs seqs
              (m_insert clientlogicalidx h (clientlogicalidx_bufidx_map r)) next (tail r) (capacity r)).

(** [update_large]. *)
Definition update_large (r : PktRingBuffer) (optype : Z) (key : Key) (fraghdr : list Z) (fragbody_off : Z)
    (fragbody : list Z) (clientaddrlen clientlogicalidx fragseq : Z) (is_frag0 : bool)
    : res PktRingBuffer :=
  match m_find clientlogicalidx (clientlogicalidx_bufidx_map r) with
  | None => Err InvariantFailed
  | Some b =>
      valid ← vec_get (valid_list r) b;
      _ ← INVARIANT valid;
      optype0 ← vec_get (optype_list r) b;
      _ ← INVARIANT (is_same_optype optype0 optype);
      key0 ← vec_get (key_list r) b;
      _ ← INVARIANT (bool_decide (key0 = key));
      d ← vec_get (dynamicbuf_list r) b;
      d ← dynamic_memcpy d fragbody_off fragbody;
      cur0 ← vec_get (curfragnum_list r) b;
      let cur := u16 (cur0 + 1) in
      maxfragnum ← vec_get (maxfragnum_list r) b;
      _ ← INVARIANT (0 <? maxfragnum);
      addrlen0 ← vec_get (clientaddrlen_list r) b;
      _ ← INVARIANT (addrlen0 =? clientaddrlen);
      idx0 ← vec_get (clientlogicalidx_list r) b;
      _ ← INVARIANT (idx0 =? clientlogicalidx);
      fragseq0 ← vec_get (fragseq_list r) b;
      _ ← INVARIANT (fragseq0 <=? fragseq);
      let newer := fragseq0 <? fragseq in
      seqs ← (if newer then vec_set (fragseq_list r) b fragseq else Ok (fragseq_list r));
      let cur := if newer then 1 else cur in
      curs ← vec_set (curfragnum_list r) b cur;
      d ← (if (cur =? 1) || is_frag0 then dynamic_memcpy d 0 fraghdr else Ok d);
      bufs ← vec_set (dynamicbuf_list r) b d;
      Ok (mkRing (valid_list r) (optype_list r) (key_list r) bufs curs (maxfragnum_list r)
            (clientaddr_list r) (clientaddrlen_list r) (clientlogicalidx_list r) seqs
            (clientlogicalidx_bufidx_map r) (head r) (tail r) (capacity r))
  end.

(** What [pop] returns through its reference parameters, the array aside. *)
Record Popped := mkPopped {
  pp_optype : Z;
  pp_key : Key;
  pp_curfragnum : Z;
  pp_maxfragnum : Z;
  pp_clientaddr : sockaddr_in;
  pp_clientaddrlen : Z;
  pp_clientlogicalidx : Z;
  pp_fragseq : Z
}.

Definition pop (r : PktRingBuffer) (dynamicbuf : DynamicArray)
    : res (option Popped * DynamicArray * PktRingBuffer) :=
  if tail r =? head r then Ok (None, dynamicbuf, r) else
  let t := tail r in
  valid0 ← vec_get (valid_list r) t;
  _ ← INVARIANT valid0;
  valid ← vec_set (valid_list r) t false;
  optype ← vec_get (optype_list r) t;
  optypes ← vec_set (optype_list r) t 0;
  key ← vec_get (key_list r) t;
  keys ← vec_set (key_list r) t Key_min;
  dynamicbuf ← clear dynamicbuf;
  d ← vec_get (dynamicbuf_list r) t;
  bytes ← load_at (da_mem d) 0 (da_size d);
  dynamicbuf ← dynamic_memcpy dynamicbuf 0 bytes;
  d ← clear d;
  bufs ← vec_set (dynamicbuf_list r) t d;
  curfragnum ← vec_get (curfragnum_list r) t;
  curs ← vec_set (curfragnum_list r) t 0;
  maxfragnum ← vec_get (maxfragnum_list r) t;
  maxs ← vec_set (maxfragnum_list r) t 0;
  addr ← vec_get (clientaddr_list r) t;
  addrlen ← vec_get (clientaddrlen_list r) t;
  addrlens ← vec_set (clientaddrlen_list r) t 0;
  idx ← vec_get (clientlogicalidx_list r) t;
  idxs ← vec_set (clientlogicalidx_list r) t 0;
  fragseq ← vec_get (fragseq_list r) t;
  seqs ← vec_set (fragseq_list r) t 0;
  let map := if 0 <? maxfragnum then m_erase idx (clientlogicalidx_bufidx_map r)
             else clientlogicalidx_bufidx_map r in
  next ← u32_mod (t + 1) (capacity r);
  Ok (Some (mkPopped optype key curfragnum maxfragnum addr addrlen idx fragseq), dynamicbuf,
      mkRing valid optypes keys bufs curs maxs (clientaddr_list r) addrlens idxs seqs map
        (head r) next (capacity r)).

(** ** The queue of packets *)

Record Entry := mkEntry {
  e_optype : Z;
  e_key : Key;
  e_bytes : list Z;
  e_cur : Z;
  e_max : Z;
  e_addr : sockaddr_in;
  e_addrlen : Z;
  e_idx : Z;
  e_fragseq : Z
}.

Definition is_large (e : Entry) : bool := 0 <? e_max e.

(** An array of the ring that holds [bs]. *)
Definition ring_buf (d : DynamicArray) (bs : list Z) : Prop :=
  plain d MAX_LARGE_BUFSIZE bs /\ _mincapability d = MAX_BUFSIZE.

(** Slot [b] of the vectors holds [e]. *)
Record slot_is (r : PktRingBuffer) (b : nat) (e : Entry) : Prop := {
  sl_valid : valid_list r !! b = Some true;
  sl_optype : optype_list r !! b = Some (e_optype e);
  sl_key : key_list r !! b = Some (e_key e);
  sl_buf : exists d, dynamicbuf_list r !! b = Some d /\ ring_buf d (e_bytes e);
  sl_cur : curfragnum_list r !! b = Some (e_cur e);
  sl_max : maxfragnum_list r !! b = Some (e_max e);
  sl_addr : clientaddr_list r !! b = Some (e_addr e);
  sl_addrlen : clientaddrlen_list r !! b = Some (e_addrlen e);
  sl_idx : clientlogicalidx_list r !! b = Some (e_idx e);
  sl_fragseq : fragseq_list r !! b = Some (e_fragseq e)
}.

(** All vectors have [capacity] slots, and the arrays are arrays of the ring. *)
Record ring_shape (r : PktRingBuffer) : Prop := {
  rs_cap : 0 < capacity r < 2 ^ 32;
  rs_lens : Forall (eq (Z.to_nat (capacity r)))
    [length (valid_list r); length (optype_list r); length (key_list r); length (dynamicbuf_list r);
     length (curfragnum_list r); length (maxfragnum_list r); length (clientaddr_list r);
     length (clientaddrlen_list r); length (clientlogicalidx_list r); length (fragseq_list r)];
  rs_bufs : Forall (fun d => exists bs, ring_buf d bs) (dynamicbuf_list r)
}.

(** The slot of the [i]-th packet from the tail. *)
Definition slot_no (r : PktRingBuffer) (i : nat) : Z := slot (capacity r) (tail r) i.

(** The map leads from a client to the slot of its large packet. *)
Definition map_is (f : nat -> Z) (m : stdmap Z Z) (q : list Entry) : Prop :=
  m_sorted m /\ forall c b, m_find c m = Some b <->
    exists i e, q !! i = Some e /\ is_large e = true /\ e_idx e = c /\ b = f i.

(** The ring holds the queue [q], oldest packet first. *)
Record ring_is (r : PktRingBuffer) (q : list Entry) : Prop := {
  ri_shape : ring_shape r;
  ri_tail : 0 <= tail r < capacity r;
  ri_head : head r = slot_no r (length q);
  ri_fits : Z.of_nat (length q) < capacity r;
  ri_slots : forall i e, q !! i = Some e -> slot_is r (Z.to_nat (slot_no r i)) e;
  ri_map : map_is (slot_no r) (clientlogicalidx_bufidx_map r) q
}.

(** All vectors written at slot [b]. *)
Definition write_slot (r : PktRingBuffer) (b : nat) (valid : bool) (e : Entry) (d : DynamicArray)
    (m : stdmap Z Z) (h t : Z) : PktRingBuffer :=
  mkRing (<[b := valid]> (valid_list r)) (<[b := e_optype e]> (optype_list r)) (<[b := e_key e]> (key_list r))
    (<[b := d]> (dynamicbuf_list r)) (<[b := e_cur e]> (curfragnum_list r))
    (<[b := e_max e]> (maxfragnum_list r)) (<[b := e_addr e]> (clientaddr_list r))
    (<[b := e_addrlen e]> (clientaddrlen_list r)) (<[b := e_idx e]> (clientlogicalidx_list r))
    (<[b := e_fragseq e]> (fragseq_list r)) m h t (capacity r).

Lemma vec_get_Ok {A} (v : list A) b i x : Z.to_nat i = b -> v !! b = Some x -> vec_get v i = Ok x.
Proof. intros <- E. unfold vec_get. now rewrite E. Qed.

Lemma vec_set_Ok {A} (v : list A) b i x : Z.to_nat i = b -> (b < length v)%nat -> vec_set v i x = Ok (<[b := x]> v).
Proof. intros <- E. unfold vec_set. now rewrite (proj2 (Nat.ltb_lt _ _) E). Qed.

(** The lengths of the vectors, as hypotheses. *)
Ltac ring_lens H :=
  let L := fresh "L" in
  pose proof (rs_lens _ H) as L; repeat (let E := fresh "E" in
    apply Forall_cons_1 in L as [E L]; cbn [length] in E); clear L.

Lemma write_shape r b valid e d m h t bs :
  ring_shape r -> ring_buf d bs -> ring_shape (write_slot r b valid e d m h t).
Proof.
  intros H Hd. constructor; cbn; [exact (rs_cap _ H)| |].
  - rewrite !length_insert. exact (rs_lens _ H).
  - apply Forall_insert; [exact (rs_bufs _ H)|]. now exists bs.
Qed.

Lemma write_slot_at r b e d m h t :
  ring_shape r -> (b < Z.to_nat (capacity r))%nat -> ring_buf d (e_bytes e) ->
  slot_is (write_slot r b true e d m h t) b e.
Proof.
  intros H Hb Hd. ring_lens H.
  constructor; cbn; try (apply list_lookup_insert_eq; lia).
  exists d. split; [apply list_lookup_insert_eq; lia|exact Hd].
Qed.

Lemma write_slot_other r b b' valid e d m h t e' :
  slot_is r b' e' -> b <> b' -> slot_is (write_slot r b valid e d m h t) b' e'.
Proof.
  intros H Hb. destruct H.
  constructor; cbn; rewrite ?list_lookup_insert_ne by exact Hb; assumption.
Qed.

(** *** Slots *)

Lemma slot_no_range r i : ring_shape r -> 0 <= slot_no r i < capacity r.
Proof. intros H. apply slot_range, (rs_cap _ H). Qed.

Lemma slot_no_0 r q : ring_is r q -> slot_no r 0 = tail r.
Proof. intros H. apply slot_0, (ri_tail _ _ H). Qed.

Lemma slot_no_inj r i j : ring_shape r ->
  Z.of_nat i < capacity r -> Z.of_nat j < capacity r -> slot_no r i = slot_no r j -> i = j.
Proof. intros _. apply slot_inj. Qed.

Lemma slot_no_nat_inj r i j : ring_shape r ->
  Z.of_nat i < capacity r -> Z.of_nat j < capacity r ->
  Z.to_nat (slot_no r i) = Z.to_nat (slot_no r j) -> i = j.
Proof.
  intros H Hi Hj E. apply (slot_no_inj r); auto.
  pose proof (slot_no_range r i H). pose proof (slot_no_range r j H). lia.
Qed.

Lemma slot_no_next r i : ring_shape r -> (slot_no r i + 1) mod capacity r = slot_no r (S i).
Proof. intros _. apply slot_next. Qed.

Lemma u32_mod_next r i : ring_shape r -> u32_mod (slot_no r i + 1) (capacity r) = Ok (slot_no r (S i)).
Proof.
  intros H. pose proof (slot_no_range r i H) as Hr. pose proof (rs_cap _ H) as Hc. unfold u32_mod.
  rewrite (proj2 (Z.eqb_neq _ _)) by lia.
  rewrite u32_id by (unfold is_u32; lia). now rewrite slot_no_next.
Qed.

(** The test of [push] says that one slot is left. *)
Lemma full_test r q : ring_is r q ->
  (slot_no r (S (length q)) =? tail r) = (Z.of_nat (S (length q)) =? capacity r).
Proof.
  intros H. rewrite <- (slot_no_0 r q H). pose proof (ri_fits _ _ H) as Hf.
  pose proof (rs_cap _ (ri_shape _ _ H)) as Hc.
  destruct (Z.eqb_spec (Z.of_nat (S (length q))) (capacity r)) as [E|E].
  - apply Z.eqb_eq. unfold slot_no. rewrite <- slot_full by lia. f_equal. lia.
  - apply Z.eqb_neq. intros C. apply (slot_no_inj r) in C; [lia|apply H|lia|lia].
Qed.

Lemma empty_test r q : ring_is r q -> (tail r =? head r) = match q with [] => true | _ => false end.
Proof.
  intros H. rewrite (ri_head _ _ H), <- (slot_no_0 r q H). pose proof (ri_fits _ _ H) as Hf.
  destruct q; [apply Z.eqb_refl|]. apply Z.eqb_neq. intros C.
  apply (slot_no_inj r) in C; cbn [length] in *; try lia. apply H.
Qed.

Lemma large_found r q i e : ring_is r q -> q !! i = Some e -> is_large e = true ->
  m_find (e_idx e) (clientlogicalidx_bufidx_map r) = Some (slot_no r i).
Proof. intros H Hi He. apply (proj2 (ri_map _ _ H)). eauto 8. Qed.

Lemma large_absent r q c : ring_is r q ->
  m_find c (clientlogicalidx_bufidx_map r) = None <->
  (forall e, e ∈ q -> is_large e = true -> e_idx e <> c).
Proof.
  intros H. split.
  - intros E e He Hl <-. apply list_elem_of_lookup in He as (i & Hi).
    rewrite (large_found r q i e H Hi Hl) in E. discriminate.
  - intros Hno. destruct (m_find c (clientlogicalidx_bufidx_map r)) as [b|] eqn:E; [|reflexivity].
    apply (proj2 (ri_map _ _ H)) in E as (i & e & Hi & Hl & Hc & _).
    exfalso. apply (Hno e); eauto using list_elem_of_lookup_2.
Qed.

(** *** The map *)

Lemma exists_snoc {A} (q : list A) (e : A) (P : nat -> A -> Prop) :
  (exists i x, (q ++ [e]) !! i = Some x /\ P i x) <->
  (exists i x, q !! i = Some x /\ P i x) \/ P (length q) e.
Proof.
  split.
  - intros (i & x & Hi & Hp). apply lookup_snoc_Some in Hi as [[_ Hi]|[-> ->]]; eauto.
  - intros [(i & x & Hi & Hp)|Hp].
    + exists i, x. rewrite lookup_app_l by eauto using lookup_lt_Some. auto.
    + exists (length q), e. rewrite lookup_snoc_Some. auto.
Qed.

Lemma map_snoc f m q e : map_is f m q -> (is_large e = true -> m_find (e_idx e) m = None) ->
  map_is f (if is_large e then m_insert (e_idx e) (f (length q)) m else m) (q ++ [e]).
Proof.
  intros [Hs Hm] Hnew. split; [destruct (is_large e); [apply m_insert_sorted|]; exact Hs|].
  intros c b. rewrite exists_snoc, <- Hm. destruct (is_large e); [|intuition congruence].
  destruct (Z.eq_dec (e_idx e) c) as [<-|Hne].
  - rewrite m_find_insert_eq, Hnew by reflexivity. cbn. intuition congruence.
  - rewrite m_find_insert_ne by exact Hne. intuition congruence.
Qed.

Lemma map_tail f m q e : map_is f m (e :: q) -> (forall i, (i < length q)%nat -> f (S i) <> f O) ->
  map_is (fun i => f (S i)) (if is_large e then m_erase (e_idx e) m else m) q.
Proof.
  intros [Hs Hm] Hf. split; [destruct (is_large e); [apply m_erase_sorted|]; exact Hs|].
  assert (Hq : forall c b, (exists i e0, q !! i = Some e0 /\ is_large e0 = true /\ e_idx e0 = c /\ b = f (S i)) ->
    m_find c m = Some b /\ b <> f O).
  { intros c b (i & e0 & Hi & Hl & Hc & ->). pose proof (lookup_lt_Some _ _ _ Hi).
    split; [apply Hm; exists (S i), e0; auto|auto]. }
  assert (Ho : is_large e = true -> m_find (e_idx e) m = Some (f O))
    by (intros El; apply Hm; exists O, e; auto).
  intros c b. split.
  - intros E. assert (E' : m_find c m = Some b /\ (is_large e = true -> e_idx e <> c)).
    { destruct (is_large e); [|intuition congruence]. destruct (Z.eq_dec (e_idx e) c) as [<-|Hne].
      - now rewrite m_find_erase_eq in E.
      - rewrite m_find_erase_ne in E by auto. auto. }
    destruct E' as [E1 E2]. apply Hm in E1 as ([|i] & e0 & Hi & Hl & Hc & ->).
    + cbn in Hi. inversion Hi; subst e0. destruct (E2 Hl Hc).
    + exists i, e0. auto.
  - intros Hx. destruct (Hq c b Hx) as [E Hne]. destruct (is_large e); [|exact E].
    rewrite m_find_erase_ne; auto. intros <-. rewrite Ho in E by reflexivity. congruence.
Qed.

Lemma map_update f m q i e e' : map_is f m q -> q !! i = Some e ->
  is_large e' = is_large e -> e_idx e' = e_idx e -> map_is f m (<[i := e']> q).
Proof.
  intros [Hs Hm] Hi Hl Hc. split; [exact Hs|]. intros c b. rewrite Hm. pose proof (lookup_lt_Some _ _ _ Hi).
  split; intros (j & x & Hj & Hlx & Hcx & ->).
  - destruct (Nat.eq_dec i j) as [->|Hne].
    + exists j, e'. rewrite list_lookup_insert_eq by assumption. intuition congruence.
    + exists j, x. rewrite list_lookup_insert_ne by assumption. auto.
  - destruct (Nat.eq_dec i j) as [->|Hne].
    + rewrite list_lookup_insert_eq in Hj by assumption. inversion Hj; subst x.
      exists j, e. intuition congruence.
    + rewrite list_lookup_insert_ne in Hj by assumption. eauto 8.
Qed.

(** *** The three changes of the ring *)

Lemma ring_enqueue r q e d :
  ring_is r q -> Z.of_nat (S (length q)) < capacity r -> ring_buf d (e_bytes e) ->
  (is_large e = true -> m_find (e_idx e) (clientlogicalidx_bufidx_map r) = None) ->
  ring_is (write_slot r (Z.to_nat (head r)) true e d
             (if is_large e then m_insert (e_idx e) (head r) (clientlogicalidx_bufidx_map r)
              else clientlogicalidx_bufidx_map r)
             (slot_no r (S (length q))) (tail r)) (q ++ [e]).
Proof.
  intros H Hc Hd Hnew. pose proof (ri_head _ _ H) as Hh. pose proof (ri_shape _ _ H) as Hs.
  pose proof (slot_no_range r (length q) Hs) as Hr.
  constructor; cbn [capacity tail head write_slot clientlogicalidx_bufidx_map].
  - exact (write_shape _ _ _ _ _ _ _ _ _ Hs Hd).
  - apply (ri_tail _ _ H).
  - unfold slot_no. cbn. rewrite length_app. cbn. f_equal. lia.
  - rewrite length_app. cbn. lia.
  - intros i e' Hi. change (slot_no (write_slot _ _ _ _ _ _ _ _) i) with (slot_no r i).
    apply lookup_snoc_Some in Hi as [[Hi Hq]|[-> ->]].
    + apply write_slot_other; [now apply (ri_slots _ _ H)|]. rewrite Hh. intros E.
      apply slot_no_nat_inj in E; auto; lia.
    + rewrite Hh. apply write_slot_at; auto. lia.
  - rewrite Hh. apply (map_snoc (slot_no r)); [apply (ri_map _ _ H)|exact Hnew].
Qed.

Lemma ring_dequeue r q e e0 d :
  ring_is r (e :: q) -> ring_buf d [] ->
  ring_is (write_slot r (Z.to_nat (tail r)) false e0 d
             (if is_large e then m_erase (e_idx e) (clientlogicalidx_bufidx_map r)
              else clientlogicalidx_bufidx_map r)
             (head r) (slot_no r 1)) q.
Proof.
  intros H Hd. pose proof (ri_shape _ _ H) as Hs. pose proof (ri_fits _ _ H) as Hf. cbn [length] in Hf.
  set (r' := write_slot _ _ _ _ _ _ _ _).
  assert (Hn : forall i, slot_no r' i = slot_no r (S i)).
  { intros i. unfold slot_no, r'. cbn. apply slot_shift. }
  constructor.
  - exact (write_shape _ _ _ _ _ _ _ _ _ Hs Hd).
  - exact (slot_no_range r 1%nat Hs).
  - rewrite Hn. apply (ri_head _ _ H).
  - cbn. lia.
  - intros i e' Hi. rewrite Hn. apply write_slot_other.
    + now apply (ri_slots _ _ H).
    + rewrite <- (slot_no_0 r _ H). intros E. pose proof (lookup_lt_Some _ _ _ Hi).
      apply slot_no_nat_inj in E; auto; lia.
  - pose proof (map_tail _ _ _ _ (ri_map _ _ H)) as Ht.
    destruct Ht as [Hsd Hm].
    + intros i Hi E. apply (slot_no_inj r) in E; auto; lia.
    + split; [exact Hsd|]. intros c b. etransitivity; [apply (Hm c b)|]. now setoid_rewrite Hn.
Qed.

Lemma ring_replace r q i e e' d :
  ring_is r q -> q !! i = Some e -> is_large e' = is_large e -> e_idx e' = e_idx e -> ring_buf d (e_bytes e') ->
  ring_is (write_slot r (Z.to_nat (slot_no r i)) true e' d (clientlogicalidx_bufidx_map r) (head r) (tail r))
    (<[i := e']> q).
Proof.
  intros H Hi Hl Hc Hd. pose proof (ri_shape _ _ H) as Hs. pose proof (ri_fits _ _ H) as Hf.
  pose proof (lookup_lt_Some _ _ _ Hi) as Hlt. pose proof (slot_no_range r i Hs) as Hr.
  constructor; cbn [capacity tail head write_slot clientlogicalidx_bufidx_map].
  - exact (write_shape _ _ _ _ _ _ _ _ _ Hs Hd).
  - apply (ri_tail _ _ H).
  - rewrite length_insert. apply (ri_head _ _ H).
  - now rewrite length_insert.
  - intros j x Hj. change (slot_no (write_slot _ _ _ _ _ _ _ _) j) with (slot_no r j).
    destruct (Nat.eq_dec i j) as [->|Hne].
    + rewrite list_lookup_insert_eq in Hj by assumption. inversion Hj; subst x. apply write_slot_at; auto; lia.
    + rewrite list_lookup_insert_ne in Hj by assumption. apply write_slot_other; [now apply (ri_slots _ _ H)|].
      intros E. apply slot_no_nat_inj in E; auto; pose proof (lookup_lt_Some _ _ _ Hj); lia.
  - apply (map_update (slot_no r) _ q i e e'); auto. apply (ri_map _ _ H).
Qed.

(** *** The operations *)

Lemma ring_buf_at r b : ring_shape r -> (b < Z.to_nat (capacity r))%nat ->
  exists d bs, dynamicbuf_list r !! b = Some d /\ ring_buf d bs.
Proof.
  intros H Hb. ring_lens H. destruct (lookup_lt_is_Some_2 (dynamicbuf_list r) b) as [d Ed]; [lia|].
  destruct (proj1 (Forall_lookup _ _) (rs_bufs _ H) b d Ed) as [bs Hd]. eauto.
Qed.

Lemma ring_buf_clear d bs : ring_buf d bs -> exists d', clear d = Ok d' /\ ring_buf d' [].
Proof.
  intros [[[W M _] _] Mi]. destruct (plain_clear d W) as (d' & E & P & Mi'). exists d'.
  split; [exact E|]. split; [now rewrite M in P|congruence].
Qed.

Lemma ring_buf_memcpy d bs off src : ring_buf d bs -> 0 <= off ->
  off + Z.of_nat (length src) <= MAX_LARGE_BUFSIZE ->
  exists d', dynamic_memcpy d off src = Ok d' /\ ring_buf d' (put_at bs (Z.to_nat off) src).
Proof.
  intros [P Mi] Ho Hl. destruct (plain_memcpy d _ bs off src P Ho Hl) as (d' & E & P' & Mi').
  exists d'. split; [exact E|]. split; [exact P'|congruence].
Qed.

(** One access to a vector inside the ring. *)
Ltac vec_step :=
  match goal with
  | |- context [vec_set ?v ?i ?x] => rewrite (vec_set_Ok v _ i x eq_refl) by lia
  | E : ?v !! ?b = Some ?x |- context [vec_get ?v ?i] => rewrite (vec_get_Ok v b i x eq_refl E)
  end; cbn [mbind res_bind].

Definition small_entry (optype : Z) (key : Key) (buf : list Z) (addr : sockaddr_in) (addrlen : Z) : Entry :=
  mkEntry optype key buf 0 0 addr addrlen 0 0.

Lemma push_is r q optype key buf addr addrlen :
  ring_is r q -> Z.of_nat (length buf) <= MAX_LARGE_BUFSIZE ->
  if Z.of_nat (S (length q)) =? capacity r
  then push r optype key buf addr addrlen = Ok (false, r)
  else exists r', push r optype key buf addr addrlen = Ok (true, r') /\ capacity r' = capacity r /\
       ring_is r' (q ++ [small_entry optype key buf addr addrlen]).
Proof.
  intros H Hl. pose proof (ri_shape _ _ H) as Hs. pose proof (ri_head _ _ H) as Hh.
  pose proof (ri_fits _ _ H) as Hf. pose proof (slot_no_range r (length q) Hs) as Hr. unfold push.
  rewrite Hh, (u32_mod_next r _ Hs). cbn [mbind res_bind]. rewrite (full_test r q H).
  destruct (Z.eqb_spec (Z.of_nat (S (length q))) (capacity r)) as [E|E]; [reflexivity|].
  destruct (ring_buf_at r (Z.to_nat (head r)) Hs) as (d & bs & Ed & Hd); [lia|]. rewrite Hh in Ed.
  destruct (ring_buf_clear d bs Hd) as (d1 & E1 & Hd1).
  destruct (ring_buf_memcpy d1 [] 0 buf Hd1) as (d2 & E2 & Hd2); [lia|lia|].
  change (Z.to_nat 0) with 0%nat in Hd2. rewrite put_at_0 in Hd2.
  ring_lens Hs. repeat vec_step. rewrite E1. cbn [mbind res_bind]. rewrite E2. cbn [mbind res_bind].
  repeat vec_step. eexists. split; [reflexivity|]. split; [reflexivity|].
  pose proof (ring_enqueue r q (small_entry optype key buf addr addrlen) d2 H) as Hq.
  rewrite Hh in Hq. apply Hq; auto; [lia|discriminate].
Qed.

Lemma push_large_is r q e hdr off body :
  ring_is r q -> is_large e = true -> (forall x, x ∈ q -> is_large x = true -> e_idx x <> e_idx e) ->
  0 <= off -> off + Z.of_nat (length body) <= MAX_LARGE_BUFSIZE -> Z.of_nat (length hdr) <= MAX_LARGE_BUFSIZE ->
  e_bytes e = put_at hdr (Z.to_nat off) body ->
  if Z.of_nat (S (length q)) =? capacity r
  then push_large r (e_optype e) (e_key e) hdr off body (e_cur e) (e_max e) (e_addr e) (e_addrlen e)
         (e_idx e) (e_fragseq e) = Ok (false, r)
  else exists r', push_large r (e_optype e) (e_key e) hdr off body (e_cur e) (e_max e) (e_addr e) (e_addrlen e)
         (e_idx e) (e_fragseq e) = Ok (true, r') /\ capacity r' = capacity r /\ ring_is r' (q ++ [e]).
Proof.
  intros H Hlg Hnew Ho Hl1 Hl2 Hb. pose proof (ri_shape _ _ H) as Hs. pose proof (ri_head _ _ H) as Hh.
  pose proof (ri_fits _ _ H) as Hf. pose proof (slot_no_range r (length q) Hs) as Hr. unfold push_large.
  rewrite (INVARIANT_true (0 <? e_max e) Hlg). cbn [mbind res_bind].
  rewrite Hh, (u32_mod_next r _ Hs). cbn [mbind res_bind]. rewrite (full_test r q H).
  destruct (Z.eqb_spec (Z.of_nat (S (length q))) (capacity r)) as [E|E]; [reflexivity|].
  apply (large_absent r q (e_idx e) H) in Hnew.
  destruct (ring_buf_at r (Z.to_nat (head r)) Hs) as (d & bs & Ed & Hd); [lia|]. rewrite Hh in Ed.
  destruct (ring_buf_clear d bs Hd) as (d1 & E1 & Hd1).
  destruct (ring_buf_memcpy d1 [] 0 hdr Hd1) as (d2 & E2 & Hd2); [lia|lia|].
  change (Z.to_nat 0) with 0%nat in Hd2. rewrite put_at_0 in Hd2.
  destruct (ring_buf_memcpy d2 hdr off body Hd2) as (d3 & E3 & Hd3); [lia|lia|].
  ring_lens Hs. repeat vec_step. rewrite E1. cbn [mbind res_bind]. rewrite E2. cbn [mbind res_bind].
  rewrite E3. cbn [mbind res_bind]. repeat vec_step. rewrite Hnew. cbn [INVARIANT mbind res_bind].
  eexists. split; [reflexivity|]. split; [reflexivity|].
  pose proof (ring_enqueue r q e d3 H) as Hq. rewrite Hh, Hlg, Hb in Hq. apply Hq; auto. lia.
Qed.

(** The map tells whether a client has a large packet in the queue. *)
Definition has_large (q : list Entry) (c : Z) : bool :=
  existsb (fun e => is_large e && (e_idx e =? c)) q.

Lemma has_large_lookup q c : has_large q c = true ->
  exists i e, q !! i = Some e /\ is_large e = true /\ e_idx e = c.
Proof.
  unfold has_large. intros H. apply existsb_exists in H as (e & He & Hc).
  apply andb_true_iff in Hc as [Hl Hi]. apply Z.eqb_eq in Hi.
  apply list_elem_of_In, list_elem_of_lookup in He as [i Hi']. eauto.
Qed.

Lemma has_large_false q c : has_large q c = false <->
  forall e, e ∈ q -> is_large e = true -> e_idx e <> c.
Proof.
  unfold has_large. split.
  - intros H e He Hl Hc. assert (Ht : existsb (fun e => is_large e && (e_idx e =? c)) q = true).
    { apply existsb_exists. exists e. split; [now apply list_elem_of_In|]. rewrite Hl, Hc. apply Z.eqb_refl. }
    congruence.
  - intros H. destruct (existsb _ q) eqn:E; [|reflexivity]. apply existsb_exists in E as (e & He & Hc).
    apply andb_true_iff in Hc as [Hl Hi]. apply Z.eqb_eq in Hi.
    apply list_elem_of_In in He. destruct (H e He Hl Hi).
Qed.

Lemma exist_is r q c : ring_is r q -> is_clientlogicalidx_exist r c = Ok (has_large q c).
Proof.
  intros H. unfold is_clientlogicalidx_exist. destruct (has_large q c) eqn:E.
  - apply has_large_lookup in E as (i & e & Hi & Hl & <-).
    rewrite (large_found r q i e H Hi Hl). destruct (ri_slots _ _ H i e Hi).
    repeat (vec_step || rewrite INVARIANT_true by assumption; cbn [mbind res_bind]). reflexivity.
  - rewrite (proj2 (large_absent r q c H)); [reflexivity|]. now apply has_large_false.
Qed.

(** What a further fragment makes of a packet; [None] when the checks of
    [update_large] end the process. *)
Definition update_entry (e : Entry) (optype : Z) (key : Key) (hdr : list Z) (off : nat) (body : list Z)
    (addrlen fragseq : Z) (is_frag0 : bool) : option Entry :=
  if is_same_optype (e_optype e) optype && bool_decide (e_key e = key) && (e_addrlen e =? addrlen)
     && (e_fragseq e <=? fragseq)
  then
    let newer := e_fragseq e <? fragseq in
    let cur := if newer then 1 else u16 (e_cur e + 1) in
    let bytes := put_at (e_bytes e) off body in
    Some (mkEntry (e_optype e) (e_key e)
            (if (cur =? 1) || is_frag0 then put_at bytes 0 hdr else bytes)
            cur (e_max e) (e_addr e) (e_addrlen e) (e_idx e)
            (if newer then fragseq else e_fragseq e))
  else None.

Lemma update_large_is r q i e optype key hdr off body addrlen fragseq is_frag0 :
  ring_is r q -> q !! i = Some e -> is_large e = true ->
  0 <= off -> off + Z.of_nat (length body) <= MAX_LARGE_BUFSIZE -> Z.of_nat (length hdr) <= MAX_LARGE_BUFSIZE ->
  match update_entry e optype key hdr (Z.to_nat off) body addrlen fragseq is_frag0 with
  | None => update_large r optype key hdr off body addrlen (e_idx e) fragseq is_frag0 = Err InvariantFailed
  | Some e' => exists r', update_large r optype key hdr off body addrlen (e_idx e) fragseq is_frag0 = Ok r' /\
      capacity r' = capacity r /\ ring_is r' (<[i := e']> q)
  end.
Proof.
  intros H Hi Hlg Ho Hl1 Hl2. pose proof (ri_shape _ _ H) as Hs. pose proof (slot_no_range r i Hs) as Hr.
  unfold update_large. rewrite (large_found r q i e H Hi Hlg).
  destruct (ri_slots _ _ H i e Hi) as [S1 S2 S3 (d & S4 & Hd) S5 S6 S7 S8 S9 S10].
  destruct (ring_buf_memcpy d (e_bytes e) off body Hd) as (d1 & X1 & Hd1); [lia|lia|].
  ring_lens Hs. unfold update_entry. repeat vec_step. cbn [INVARIANT mbind res_bind].
  destruct (is_same_optype (e_optype e) optype); [|reflexivity]. cbn [INVARIANT mbind res_bind andb].
  destruct (bool_decide (e_key e = key)); [|reflexivity]. cbn [INVARIANT mbind res_bind andb].
  repeat vec_step. rewrite X1. cbn [mbind res_bind]. repeat vec_step.
  rewrite (INVARIANT_true (0 <? e_max e) Hlg). cbn [mbind res_bind].
  destruct (e_addrlen e =? addrlen); [|reflexivity]. cbn [INVARIANT mbind res_bind andb].
  rewrite Z.eqb_refl. cbn [INVARIANT mbind res_bind].
  destruct (e_fragseq e <=? fragseq); [|reflexivity]. cbn [INVARIANT mbind res_bind].
  set (cur := if e_fragseq e <? fragseq then 1 else u16 (e_cur e + 1)).
  set (bytes := if (cur =? 1) || is_frag0 then put_at (put_at (e_bytes e) (Z.to_nat off) body) 0 hdr
                else put_at (e_bytes e) (Z.to_nat off) body).
  assert (Hd2 : exists d2, (if (cur =? 1) || is_frag0 then dynamic_memcpy d1 0 hdr else Ok d1) = Ok d2 /\
                  ring_buf d2 bytes).
  { unfold bytes. destruct ((cur =? 1) || is_frag0); [|eauto]. apply (ring_buf_memcpy d1 _ 0 hdr Hd1); lia. }
  destruct Hd2 as (d2 & X2 & Hd2).
  assert (X3 : (if e_fragseq e <? fragseq then Ok (<[Z.to_nat (slot_no r i) := fragseq]> (fragseq_list r))
                else Ok (fragseq_list r))
     = Ok (<[Z.to_nat (slot_no r i) := if e_fragseq e <? fragseq then fragseq else e_fragseq e]> (fragseq_list r))).
  { destruct (e_fragseq e <? fragseq); [|now rewrite (list_insert_id _ _ _ S10)].
    reflexivity. }
  rewrite X3. cbn [mbind res_bind]. repeat vec_step. rewrite X2. cbn [mbind res_bind]. repeat vec_step.
  eexists. split; [reflexivity|]. split; [reflexivity|].
  set (e' := mkEntry _ _ _ _ _ _ _ _ _).
  pose proof (ring_replace r q i e e' d2 H Hi eq_refl eq_refl Hd2) as Hq. unfold write_slot in Hq. cbn in Hq.
  rewrite (list_insert_id (valid_list r) _ _ S1), (list_insert_id (optype_list r) _ _ S2),
    (list_insert_id (key_list r) _ _ S3), (list_insert_id (maxfragnum_list r) _ _ S6),
    (list_insert_id (clientaddr_list r) _ _ S7), (list_insert_id (clientaddrlen_list r) _ _ S8),
    (list_insert_id (clientlogicalidx_list r) _ _ S9) in Hq. exact Hq.
Qed.

Definition popped (e : Entry) : Popped :=
  mkPopped (e_optype e) (e_key e) (e_cur e) (e_max e) (e_addr e) (e_addrlen e) (e_idx e) (e_fragseq e).

(** [pop] into an array with the limit of the ring's own. *)
Lemma pop_is r q dbuf :
  ring_is r q -> da_wf dbuf -> _maxcapability dbuf = MAX_LARGE_BUFSIZE ->
  match q with
  | [] => pop r dbuf = Ok (None, dbuf, r)
  | e :: q' => exists dbuf' r', pop r dbuf = Ok (Some (popped e), dbuf', r') /\
      plain dbuf' MAX_LARGE_BUFSIZE (e_bytes e) /\ _mincapability dbuf' = _mincapability dbuf /\
      capacity r' = capacity r /\ ring_is r' q'
  end.
Proof.
  intros H W M. unfold pop. rewrite (empty_test r q H). destruct q as [|e q]; [reflexivity|].
  pose proof (ri_shape _ _ H) as Hs. pose proof (ri_tail _ _ H) as Ht.
  pose proof (ri_slots _ _ H 0%nat e eq_refl) as Hsl. rewrite (slot_no_0 r _ H) in Hsl.
  destruct Hsl as [S1 S2 S3 (d & S4 & Hd) S5 S6 S7 S8 S9 S10]. ring_lens Hs.
  repeat vec_step. cbn [INVARIANT mbind res_bind]. repeat vec_step.
  destruct (plain_clear dbuf W) as (b1 & Eb & P1 & Mi1). rewrite M in P1. rewrite Eb. cbn [mbind res_bind].
  repeat vec_step. pose proof Hd as [[[Wd Md Cd] Zd] Mid].
  assert (El : load_at (da_mem d) 0 (da_size d) = Ok (e_bytes e)).
  { unfold load_at, da_size. pose proof (da_wf_len d Wd). destruct Wd as (_ & ? & _).
    rewrite !(proj2 (Z.leb_le _ _)) by lia. cbn [andb Z.to_nat drop]. f_equal. exact Cd. }
  rewrite El. cbn [mbind res_bind].
  destruct (plain_memcpy b1 _ [] 0 (e_bytes e) P1) as (b2 & Eb2 & P2 & Mi2); [lia| |].
  { rewrite <- Cd, length_contents by exact Wd. destruct Wd as (_ & ? & _ & ? & _). lia. }
  change (Z.to_nat 0) with 0%nat in P2. rewrite put_at_0 in P2. rewrite Eb2. cbn [mbind res_bind].
  destruct (ring_buf_clear d (e_bytes e) Hd) as (d1 & Ed1 & Hd1).
  rewrite Ed1. cbn [mbind res_bind]. repeat vec_step.
  pose proof (u32_mod_next r 0%nat Hs) as Et. rewrite (slot_no_0 r _ H) in Et. rewrite Et. cbn [mbind res_bind].
  eexists b2, _. split; [reflexivity|]. split; [exact P2|]. split; [congruence|]. split; [reflexivity|].
  pose proof (ring_dequeue r q e (mkEntry 0 Key_min [] 0 0 (e_addr e) 0 0 0) d1 H Hd1) as Hq.
  unfold write_slot in Hq. cbn in Hq. rewrite (list_insert_id (clientaddr_list r) _ _ S7) in Hq. exact Hq.
Qed.

Lemma ring_init_is c : 0 < c < 2 ^ 32 -> exists r, ring_init c = Ok r /\ ring_is r [] /\ capacity r = c.
Proof.
  intros Hc. unfold ring_init.
  destruct (DynamicArray_new_plain MAX_BUFSIZE MAX_LARGE_BUFSIZE) as (d & E & P & Mi);
    [unfold MAX_BUFSIZE, MAX_LARGE_BUFSIZE; lia|unfold MAX_LARGE_BUFSIZE; lia|].
  assert (Hd : ring_buf d []) by (split; assumption).
  rewrite E. cbn [mbind res_bind]. eexists. split; [reflexivity|]. split; [|reflexivity].
  constructor; cbn [tail head capacity length].
  - constructor; cbn [capacity valid_list optype_list key_list dynamicbuf_list curfragnum_list maxfragnum_list
      clientaddr_list clientaddrlen_list clientlogicalidx_list fragseq_list]; [lia| |].
    + rewrite !length_replicate. repeat constructor.
    + apply Forall_replicate. eauto.
  - lia.
  - unfold slot_no. cbn [tail capacity]. now rewrite slot_0 by lia.
  - lia.
  - intros i e Hi. rewrite lookup_nil in Hi. discriminate.
  - split; [constructor|]. intros k b. cbn. split; [discriminate|]. intros (i & e & Hi & _). now rewrite lookup_nil in Hi.
Qed.

(** ** The ring as a bounded queue *)

(** The calls on a ring, and what they return; [pop] returns the bytes it
    leaves in the caller's array. *)
Inductive ring_op :=
  | OpPush (optype : Z) (key : Key) (buf : list Z) (addr : sockaddr_in) (addrlen : Z)
  | OpExist (idx : Z)
  | OpPushLarge (optype : Z) (key : Key) (hdr : list Z) (off : Z) (body : list Z) (cur max : Z)
      (addr : sockaddr_in) (addrlen idx fragseq : Z)
  | OpUpdateLarge (optype : Z) (key : Key) (hdr : list Z) (off : Z) (body : list Z)
      (addrlen idx fragseq : Z) (is_frag0 : bool)
  | OpPop.

Inductive ring_ret :=
  | RetBool (b : bool)
  | RetUnit
  | RetPopped (p : option (Popped * list Z)).

Definition ring_exec (s : PktRingBuffer * DynamicArray) (op : ring_op)
    : res (ring_ret * (PktRingBuffer * DynamicArray)) :=
  let '(r, d) := s in
  match op with
  | OpPush optype key buf addr addrlen =>
      '(b, r) ← push r optype key buf addr addrlen; Ok (RetBool b, (r, d))
  | OpExist idx => b ← is_clientlogicalidx_exist r idx; Ok (RetBool b, (r, d))
  | OpPushLarge optype key hdr off body cur max addr addrlen idx fragseq =>
      '(b, r) ← push_large r optype key hdr off body cur max addr addrlen idx fragseq;
      Ok (RetBool b, (r, d))
  | OpUpdateLarge optype key hdr off body addrlen idx fragseq is_frag0 =>
      r ← update_large r optype key hdr off body addrlen idx fragseq is_frag0; Ok (RetUnit, (r, d))
  | OpPop =>
      '(p, d, r) ← pop r d;
      Ok (RetPopped (option_map (fun p => (p, contents d)) p), (r, d))
  end.

(** A queue of at most [c - 1] packets. *)
Definition queue_add (c : Z) (q : list Entry) (e : Entry) : ring_ret * list Entry :=
  if Z.of_nat (S (length q)) =? c then (RetBool false, q) else (RetBool true, q ++ [e]).

Definition find_large (q : list Entry) (c : Z) : option (nat * Entry) :=
  list_find (fun e => is_large e = true /\ e_idx e = c) q.

Definition queue_exec (c : Z) (q : list Entry) (op : ring_op) : res (ring_ret * list Entry) :=
  match op with
  | OpPush optype key buf addr addrlen => Ok (queue_add c q (small_entry optype key buf addr addrlen))
  | OpExist idx => Ok (RetBool (has_large q idx), q)
  | OpPushLarge optype key hdr off body cur max addr addrlen idx fragseq =>
      let e := mkEntry optype key (put_at hdr (Z.to_nat off) body) cur max addr addrlen idx fragseq in
      if negb (is_large e) then Err InvariantFailed
      else if negb (Z.of_nat (S (length q)) =? c) && has_large q idx then Err InvariantFailed
      else Ok (queue_add c q e)
  | OpUpdateLarge optype key hdr off body addrlen idx fragseq is_frag0 =>
      match find_large q idx with
      | None => Err InvariantFailed
      | Some (i, e) =>
          match update_entry e optype key hdr (Z.to_nat off) body addrlen fragseq is_frag0 with
          | None => Err InvariantFailed
          | Some e' => Ok (RetUnit, <[i := e']> q)
          end
      end
  | OpPop => Ok (match q with
                 | [] => (RetPopped None, [])
                 | e :: q' => (RetPopped (Some (popped e, e_bytes e)), q')
                 end)
  end.

(** The bytes fit the arrays of the ring. *)
Definition op_fits (op : ring_op) : Prop :=
  match op with
  | OpPush _ _ buf _ _ => Z.of_nat (length buf) <= MAX_LARGE_BUFSIZE
  | OpPushLarge _ _ hdr off body _ _ _ _ _ _ | OpUpdateLarge _ _ hdr off body _ _ _ _ =>
      Z.of_nat (length hdr) <= MAX_LARGE_BUFSIZE /\ 0 <= off /\
      off + Z.of_nat (length body) <= MAX_LARGE_BUFSIZE
  | _ => True
  end.

Lemma push_large_dup r q optype key hdr off body cur max addr addrlen idx fragseq :
  ring_is r q -> 0 < max -> has_large q idx = true -> Z.of_nat (S (length q)) <> capacity r ->
  0 <= off -> off + Z.of_nat (length body) <= MAX_LARGE_BUFSIZE -> Z.of_nat (length hdr) <= MAX_LARGE_BUFSIZE ->
  push_large r optype key hdr off body cur max addr addrlen idx fragseq = Err InvariantFailed.
Proof.
  intros H Hm Hdup Hfull Ho Hl1 Hl2. pose proof (ri_shape _ _ H) as Hs. pose proof (ri_head _ _ H) as Hh.
  pose proof (slot_no_range r (length q) Hs) as Hr. unfold push_large.
  rewrite (INVARIANT_true (0 <? max)) by (apply Z.ltb_lt; lia). cbn [mbind res_bind].
  rewrite Hh, (u32_mod_next r _ Hs). cbn [mbind res_bind].
  rewrite (full_test r q H), (proj2 (Z.eqb_neq _ _) Hfull).
  destruct (ring_buf_at r (Z.to_nat (head r)) Hs) as (d & bs & Ed & Hd); [lia|]. rewrite Hh in Ed.
  destruct (ring_buf_clear d bs Hd) as (d1 & E1 & Hd1).
  destruct (ring_buf_memcpy d1 [] 0 hdr Hd1) as (d2 & E2 & Hd2); [lia|lia|].
  destruct (ring_buf_memcpy d2 _ off body Hd2) as (d3 & E3 & Hd3); [lia|lia|].
  apply has_large_lookup in Hdup as (i & e & Hi & Hlg & <-).
  ring_lens Hs. repeat vec_step. rewrite E1. cbn [mbind res_bind]. rewrite E2. cbn [mbind res_bind].
  rewrite E3. cbn [mbind res_bind]. repeat vec_step. now rewrite (large_found r q i e H Hi Hlg).
Qed.

Lemma update_large_none r q optype key hdr off body addrlen idx fragseq is_frag0 :
  ring_is r q -> find_large q idx = None ->
  update_large r optype key hdr off body addrlen idx fragseq is_frag0 = Err InvariantFailed.
Proof.
  intros H E. unfold update_large. rewrite (proj2 (large_absent r q idx H)); [reflexivity|].
  intros e He Hl Hc. apply list_find_None in E. rewrite Forall_forall in E. apply list_elem_of_In in He. destruct (E e He); auto.
Qed.

(** The ring and the caller's array stand for the queue. *)
Definition ring_state (c : Z) (s : PktRingBuffer * DynamicArray) (q : list Entry) : Prop :=
  ring_is s.1 q /\ capacity s.1 = c /\ da_wf s.2 /\ _maxcapability s.2 = MAX_LARGE_BUFSIZE.

(** One call: the ring does what the queue does, and ends the process exactly
    when the queue's operation is not allowed. *)
Lemma ring_exec_refines c s q op :
  ring_state c s q -> op_fits op ->
  match queue_exec c q op with
  | Ok (ret, q') => exists s', ring_exec s op = Ok (ret, s') /\ ring_state c s' q'
  | Err e => ring_exec s op = Err e
  end.
Proof.
  destruct s as [r d]. intros (H & <- & W & M) Hf. cbn [fst snd] in *.
  destruct op as [ot k buf a al|idx|ot k hdr off body cur mx a al idx fs|ot k hdr off body al idx fs f0|];
    cbn [queue_exec ring_exec op_fits] in *.
  - pose proof (push_is r q ot k buf a al H Hf) as Hp. unfold queue_add.
    destruct (Z.of_nat (S (length q)) =? capacity r).
    + rewrite Hp. now exists (r, d).
    + destruct Hp as (r' & E & Hc & H'). rewrite E. now exists (r', d).
  - rewrite (exist_is r q idx H). now exists (r, d).
  - destruct Hf as (Hl & Ho & Hb). set (e := mkEntry ot k _ cur mx a al idx fs).
    destruct (is_large e) eqn:El; cbn [negb].
    2:{ unfold push_large, is_large in *. cbn in El. now rewrite El. }
    pose proof (push_large_is r q e hdr off body H El) as Hp.
    unfold queue_add. destruct (Z.eqb_spec (Z.of_nat (S (length q))) (capacity r)) as [Hc|Hc]; cbn [negb andb].
    + assert (Hfull : push_large r ot k hdr off body cur mx a al idx fs = Ok (false, r)).
      { unfold push_large. rewrite (INVARIANT_true (0 <? mx) El). cbn [mbind res_bind].
        rewrite (ri_head _ _ H), (u32_mod_next r _ (ri_shape _ _ H)). cbn [mbind res_bind].
        rewrite (full_test r q H). now rewrite (proj2 (Z.eqb_eq _ _) Hc). }
      rewrite Hfull. now exists (r, d).
    + destruct (has_large q idx) eqn:Hdup.
      * rewrite (push_large_dup r q) by (auto; now apply Z.ltb_lt). reflexivity.
      * destruct Hp as (r' & E & Hc' & H'); auto. { now apply has_large_false. }
        cbn [e_optype e_key e_cur e_max e_addr e_addrlen e_idx e_fragseq e] in E. rewrite E. now exists (r', d).
  - destruct Hf as (Hl & Ho & Hb). destruct (find_large q idx) as [[i e]|] eqn:Ef.
    + apply list_find_Some in Ef as (Hi & [Hlg <-] & _).
      pose proof (update_large_is r q i e ot k hdr off body al fs f0 H Hi Hlg Ho Hb Hl) as Hu.
      destruct (update_entry _ _ _ _ _ _ _ _ _) as [e'|].
      * destruct Hu as (r' & E & Hc & H'). rewrite E. now exists (r', d).
      * now rewrite Hu.
    + now rewrite (update_large_none r q) by auto.
  - pose proof (pop_is r q d H W M) as Hp. destruct q as [|e q].
    + rewrite Hp. now exists (r, d).
    + destruct Hp as (d' & r' & E & [[W' M' C'] _] & _ & Hc & H'). rewrite E. cbn. rewrite C'. now exists (r', d').
Qed.

(** Sequences of calls, with what they return. *)
Section Run.
Context {S : Type} (exec : S -> ring_op -> res (ring_ret * S)).

Fixpoint run_ops (s : S) (ops : list ring_op) : res (list ring_ret * S) :=
  match ops with
  | [] => Ok ([], s)
  | op :: ops' => '(ret, s) ← exec s op; '(rets, s) ← run_ops s ops'; Ok (ret :: rets, s)
  end.
End Run.

Lemma run_ops_refines c ops : forall s q, ring_state c s q -> Forall op_fits ops ->
  match run_ops (queue_exec c) q ops with
  | Ok (rets, q') => exists s', run_ops ring_exec s ops = Ok (rets, s') /\ ring_state c s' q'
  | Err e => run_ops ring_exec s ops = Err e
  end.
Proof.
  induction ops as [|op ops IH]; intros s q H Hf; cbn [run_ops]; [now exists s|].
  apply Forall_cons_1 in Hf as [Hop Hf]. pose proof (ring_exec_refines c s q op H Hop) as Hx.
  destruct (queue_exec c q op) as [[ret q']|e]; cbn [mbind res_bind].
  - destruct Hx as (s' & E & H'). rewrite E. cbn [mbind res_bind].
    pose proof (IH s' q' H' Hf) as Hr.
    destruct (run_ops (queue_exec c) q' ops) as [[rets q'']|e]; cbn [mbind res_bind].
    + destruct Hr as (s'' & E' & H''). rewrite E'. now exists s''.
    + now rewrite Hr.
  - now rewrite Hx.
Qed.

(** C28: the ring of a worker, from its construction on, is a FIFO queue of at most
    [capacity - 1] packets with one large packet per client: any sequence of
    calls returns what the queue returns, and aborts exactly where the queue's
    operation is not allowed. *)
Theorem ring_refines_queue (c : Z) (d : DynamicArray) (ops : list ring_op) :
  0 < c < 2 ^ 32 -> da_wf d -> _maxcapability d = MAX_LARGE_BUFSIZE -> Forall op_fits ops ->
  exists r, ring_init c = Ok r /\
  match run_ops (queue_exec c) [] ops with
  | Ok (rets, q) => exists r' d', run_ops ring_exec (r, d) ops = Ok (rets, (r', d')) /\ ring_is r' q
  | Err e => run_ops ring_exec (r, d) ops = Err e
  end.
Proof.
  intros Hc W M Hf. destruct (ring_init_is c Hc) as (r & E & H & Hcap). exists r. split; [exact E|].
  pose proof (run_ops_refines c ops (r, d) [] (conj H (conj Hcap (conj W M))) Hf) as Hr.
  destruct (run_ops (queue_exec c) [] ops) as [[rets q]|e]; [|exact Hr].
  destruct Hr as ([r' d'] & E' & H' & _). eauto.
Qed.

(** A ring of three slots: two small packets fit, the third is refused. *)
Definition demo_ops : list ring_op :=
  [OpPush GETREQ (mkKey 1 2 3 4) [0; 48; 7] sockaddr_zero 16;
   OpPushLarge PUTREQ_LARGEVALUE_SEQ (mkKey 1 2 3 4) [0; 50; 9] 5 [4; 4] 1 2 sockaddr_zero 16 3 8;
   OpPush GETREQ (mkKey 1 2 3 4) [1] sockaddr_zero 16;
   OpUpdateLarge PUTREQ_LARGEVALUE_SEQ_CASE3 (mkKey 1 2 3 4) [0; 82; 9] 3 [5; 5] 16 3 8 true;
   OpPop; OpPop; OpPop].

Definition demo_array : DynamicArray := mkDynamicArray 0 8 (Some (replicate 8 0)) 8 MAX_LARGE_BUFSIZE.

Lemma ring_array_wf : da_wf demo_array.
Proof.
  unfold da_wf, demo_array. cbn. split; [eexists; split; reflexivity|]. unfold MAX_LARGE_BUFSIZE. lia.
Qed.

Lemma ring_refines_queue_witness :
  exists r, ring_init 3 = Ok r /\
  exists r' d', run_ops ring_exec (r, demo_array) demo_ops =
    Ok ([RetBool true; RetBool true; RetBool false; RetUnit;
         RetPopped (Some (mkPopped GETREQ (mkKey 1 2 3 4) 0 0 sockaddr_zero 16 0 0, [0; 48; 7]));
         RetPopped (Some (mkPopped PUTREQ_LARGEVALUE_SEQ (mkKey 1 2 3 4) 2 2 sockaddr_zero 16 3 8,
                          [0; 82; 9; 5; 5; 4; 4]));
         RetPopped None], (r', d')) /\ ring_is r' [].
Proof.
  apply (ring_refines_queue 3 demo_array demo_ops); [lia|exact ring_array_wf|reflexivity|].
  repeat constructor; cbn; unfold MAX_LARGE_BUFSIZE; lia.
Defined.
