(* ===== verification/MessageQueue.v ===== *)
(** * The queue between two threads

    [MessagePtrQueue] of farreach/message_queue_impl.h: a ring of pointers that
    one thread writes and another reads, without locks.  [write] and [read] are
    the two operations as one thread runs them alone; [w_step] and [r_step] run
    the same statements one access to shared memory at a time, for any
    interleaving of the two threads. *)

From Stdlib Require Import ZArith Lia List.
From stdpp Require Import base tactics list numbers option relations.
From S2P Require Import Prelude PktRingBuffer.

Open Scope Z_scope.

Section Queue.
Context {obj : Type}.

(** ** The operations *)

Record MessagePtrQueue := mkMQ {
  _size : Z;
  _obj_ptrs : list (option obj);
  _head : Z;
  _tail : Z
}.

Definition mq_init (size : Z) : MessagePtrQueue := mkMQ size (replicate (Z.to_nat size) None) 0 0.

Definition is_null (p : option obj) : bool := match p with None => true | Some _ => false end.

(** The two stores of [write]: the pointer, then the head. *)
Definition put_ptr (p : option obj) (q : MessagePtrQueue) : res MessagePtrQueue :=
  ptrs ← vec_set (_obj_ptrs q) (_head q) p;
  Ok (mkMQ (_size q) ptrs (_head q) (_tail q)).
Definition next_head (q : MessagePtrQueue) : res MessagePtrQueue :=
  h ← u32_mod (_head q + 1) (_size q);
  Ok (mkMQ (_size q) (_obj_ptrs q) h (_tail q)).

Definition write (newobj : option obj) (q : MessagePtrQueue) : res (bool * MessagePtrQueue) :=
  _ ← INVARIANT (negb (is_null newobj));
  next ← u32_mod (_head q + 1) (_size q);
  if negb (next =? _tail q) then
    p ← vec_get (_obj_ptrs q) (_head q);
    _ ← INVARIANT (is_null p);
    q ← put_ptr newobj q;
    q ← next_head q;
    Ok (true, q)
  else Ok (false, q).

(** The two stores of [read]: the pointer, then the tail. *)
Definition clear_ptr (q : MessagePtrQueue) : res MessagePtrQueue :=
  ptrs ← vec_set (_obj_ptrs q) (_tail q) None;
  Ok (mkMQ (_size q) ptrs (_head q) (_tail q)).
Definition next_tail (q : MessagePtrQueue) : res MessagePtrQueue :=
  t ← u32_mod (_tail q + 1) (_size q);
  Ok (mkMQ (_size q) (_obj_ptrs q) (_head q) t).

Definition read (q : MessagePtrQueue) : res (option obj * MessagePtrQueue) :=
  if negb (_tail q =? _head q) then
    p ← vec_get (_obj_ptrs q) (_tail q);
    _ ← INVARIANT (negb (is_null p));
    result ← vec_get (_obj_ptrs q) (_tail q);
    q ← clear_ptr q;
    q ← next_tail q;
    _ ← INVARIANT (negb (is_null result));
    Ok (result, q)
  else Ok (None, q).

(** ** Two threads

    Where a thread is inside its call.  The writer has the objects still to be
    written; both threads record what their calls returned. *)

Inductive writer_pc :=
  | WIdle
  | WNext (x : obj) (next : Z)   (* has read _head *)
  | WRoom (x : obj)              (* has seen that the queue is not full *)
  | WEmpty (x : obj)             (* has seen that the slot is empty *)
  | WStored (x : obj)            (* has stored the pointer *).

Inductive reader_pc :=
  | RIdle
  | RTail (t : Z)                (* has read _tail *)
  | RSome                        (* has seen that the queue is not empty *)
  | RChecked                     (* has seen that the slot is not empty *)
  | RLoaded (p : option obj)     (* has loaded the pointer *)
  | RCleared (p : option obj)    (* has cleared the slot *).

Record Sys := mkSys {
  s_mq : MessagePtrQueue;
  s_w : writer_pc;
  s_r : reader_pc;
  s_todo : list obj;
  s_written : list (obj * bool);
  s_read : list (option obj)
}.

Definition set_w (q : MessagePtrQueue) (w : writer_pc) (s : Sys) : Sys :=
  mkSys q w (s_r s) (s_todo s) (s_written s) (s_read s).
Definition set_r (q : MessagePtrQueue) (r : reader_pc) (s : Sys) : Sys :=
  mkSys q (s_w s) r (s_todo s) (s_written s) (s_read s).
Definition w_return (q : MessagePtrQueue) (x : obj) (b : bool) (s : Sys) : Sys :=
  mkSys q WIdle (s_r s) (s_todo s) (s_written s ++ [(x, b)]) (s_read s).
Definition r_return (q : MessagePtrQueue) (p : option obj) (s : Sys) : Sys :=
  mkSys q (s_w s) RIdle (s_todo s) (s_written s) (s_read s ++ [p]).

(** One access of the writer; without objects it does nothing. *)
Definition w_step (s : Sys) : res Sys :=
  let q := s_mq s in
  match s_w s with
  | WIdle =>
      match s_todo s with
      | [] => Ok s
      | x :: todo =>
          next ← u32_mod (_head q + 1) (_size q);
          Ok (mkSys q (WNext x next) (s_r s) todo (s_written s) (s_read s))
      end
  | WNext x next => Ok (if negb (next =? _tail q) then set_w q (WRoom x) s else w_return q x false s)
  | WRoom x =>
      p ← vec_get (_obj_ptrs q) (_head q);
      _ ← INVARIANT (is_null p);
      Ok (set_w q (WEmpty x) s)
  | WEmpty x => q ← put_ptr (Some x) q; Ok (set_w q (WStored x) s)
  | WStored x => q ← next_head q; Ok (w_return q x true s)
  end.

(** One access of the reader. *)
Definition r_step (s : Sys) : res Sys :=
  let q := s_mq s in
  match s_r s with
  | RIdle => Ok (set_r q (RTail (_tail q)) s)
  | RTail t => Ok (if negb (t =? _head q) then set_r q RSome s else r_return q None s)
  | RSome =>
      p ← vec_get (_obj_ptrs q) (_tail q);
      _ ← INVARIANT (negb (is_null p));
      Ok (set_r q RChecked s)
  | RChecked => p ← vec_get (_obj_ptrs q) (_tail q); Ok (set_r q (RLoaded p) s)
  | RLoaded p => q ← clear_ptr q; Ok (set_r q (RCleared p) s)
  | RCleared p =>
      q ← next_tail q;
      _ ← INVARIANT (negb (is_null p));
      Ok (r_return q p s)
  end.

Inductive step (s s' : Sys) : Prop :=
  | writer_step : w_step s = Ok s' -> step s s'
  | reader_step : r_step s = Ok s' -> step s s'.

Definition start (size : Z) (todo : list obj) : Sys := mkSys (mq_init size) WIdle RIdle todo [] [].

(** What went in and what came out. *)
Definition accepted (s : Sys) : list obj := map fst (List.filter snd (s_written s)).
Definition delivered (s : Sys) : list obj := omap id (s_read s).

End Queue.
Arguments MessagePtrQueue : clear implicits.
Arguments Sys : clear implicits.

#[local] Arguments slot : simpl never.

Section Proofs.
Context {obj : Type}.
Implicit Types (m : MessagePtrQueue obj) (s : Sys obj) (q : list obj).

(** ** The invariant *)

(** What slot [i] of the ring holds while [q] is in the queue: a writer may have
    stored the next object, a reader may have cleared the first one. *)
Definition slot_val (w : @writer_pc obj) (r : @reader_pc obj) (q : list obj) (i : nat) : option obj :=
  match i, r with
  | O, RCleared _ => None
  | _, _ => match q !! i with
            | Some x => Some x
            | None => match w with WStored x => if decide (i = length q) then Some x else None | _ => None end
            end
  end.

Definition writer_at (w : @writer_pc obj) (c t : Z) (q : list obj) : Prop :=
  match w with
  | WIdle => True
  | WNext _ next => next = slot c t (S (length q))
  | WRoom _ | WEmpty _ | WStored _ => Z.of_nat (S (length q)) < c
  end.

Definition reader_at (r : @reader_pc obj) (t : Z) (q : list obj) : Prop :=
  match r with
  | RIdle => True
  | RTail t' => t' = t
  | RSome | RChecked => q <> []
  | RLoaded p | RCleared p => q <> [] /\ p = List.hd_error q
  end.

Definition in_flight (w : @writer_pc obj) : list obj :=
  match w with WIdle => [] | WNext x _ | WRoom x | WEmpty x | WStored x => [x] end.

Record sys_inv (size : Z) (todo : list obj) s q : Prop := {
  iv_size : _size (s_mq s) = size;
  iv_len : length (_obj_ptrs (s_mq s)) = Z.to_nat size;
  iv_tail : 0 <= _tail (s_mq s) < size;
  iv_head : _head (s_mq s) = slot size (_tail (s_mq s)) (length q);
  iv_fits : Z.of_nat (length q) < size;
  iv_slots : forall i, Z.of_nat i < size ->
    _obj_ptrs (s_mq s) !! Z.to_nat (slot size (_tail (s_mq s)) i) = Some (slot_val (s_w s) (s_r s) q i);
  iv_writer : writer_at (s_w s) size (_tail (s_mq s)) q;
  iv_reader : reader_at (s_r s) (_tail (s_mq s)) q;
  iv_fifo : accepted s = delivered s ++ q;
  iv_todo : map fst (s_written s) ++ in_flight (s_w s) ++ s_todo s = todo
}.

Section Inv.
Context (size : Z) (todo : list obj) (Hsize : 0 < size < 2 ^ 32).

Lemma start_inv : sys_inv size todo (start size todo) [].
Proof using Hsize.
  constructor; cbn; auto; try lia.
  - apply length_replicate.
  - intros i Hi. pose proof (slot_range size 0 i ltac:(lia)). rewrite lookup_replicate_2 by lia. now destruct i.
Qed.

Lemma next_is t i : u32_mod (slot size t i + 1) size = Ok (slot size t (S i)).
Proof using Hsize.
  pose proof (slot_range size t i ltac:(lia)). unfold u32_mod. rewrite (proj2 (Z.eqb_neq _ _)) by lia.
  now rewrite u32_id, slot_next by (unfold is_u32; lia).
Qed.

(** The test of the writer: one slot stays free. *)
Lemma full_iff t q : 0 <= t < size -> Z.of_nat (length q) < size ->
  (slot size t (S (length q)) =? t) = (Z.of_nat (S (length q)) =? size).
Proof using Hsize.
  intros Ht Hq. destruct (Z.eqb_spec (Z.of_nat (S (length q))) size) as [E|E].
  - apply Z.eqb_eq. replace (S (length q)) with (Z.to_nat size) by lia. rewrite slot_full by lia. now apply slot_0.
  - apply Z.eqb_neq. intros C. rewrite <- (slot_0 size t) in C at 2 by lia. apply slot_inj in C; lia.
Qed.

(** The test of the reader. *)
Lemma empty_iff t q : 0 <= t < size -> Z.of_nat (length q) < size ->
  (t =? slot size t (length q)) = match q with [] => true | _ => false end.
Proof using Hsize.
  intros Ht Hq. destruct q as [|x q]; cbn [length] in *.
  - rewrite slot_0 by lia. apply Z.eqb_refl.
  - apply Z.eqb_neq. intros C. rewrite <- (slot_0 size t) in C at 1 by lia. apply slot_inj in C; lia.
Qed.

(** Writing slot [j] of the array. *)
Lemma slots_update m (f g : nat -> option obj) (j : nat) (p : option obj) ptrs :
  Z.of_nat j < size ->
  (forall i, Z.of_nat i < size -> _obj_ptrs m !! Z.to_nat (slot size (_tail m) i) = Some (f i)) ->
  vec_set (_obj_ptrs m) (slot size (_tail m) j) p = Ok ptrs -> g j = p -> (forall i, i <> j -> g i = f i) ->
  length ptrs = length (_obj_ptrs m) /\
  forall i, Z.of_nat i < size -> ptrs !! Z.to_nat (slot size (_tail m) i) = Some (g i).
Proof using Hsize.
  intros Hj Hf E Hp Hg. unfold vec_set in E. destruct (_ <? _)%nat eqn:L; [|discriminate]. injection E as <-.
  apply Nat.ltb_lt in L. split; [apply length_insert|]. intros i Hi. destruct (decide (i = j)) as [->|Hne].
  - rewrite list_lookup_insert_eq by exact L. now rewrite Hp.
  - rewrite Hg by exact Hne. rewrite list_lookup_insert_ne; [auto|].
    intros C. apply Hne. symmetry. apply (slot_inj size (_tail m)); auto.
    pose proof (slot_range size (_tail m) i ltac:(lia)). pose proof (slot_range size (_tail m) j ltac:(lia)). lia.
Qed.

Lemma slot_in_range m j p : length (_obj_ptrs m) = Z.to_nat size ->
  exists ptrs, vec_set (_obj_ptrs m) (slot size (_tail m) j) p = Ok ptrs.
Proof using Hsize.
  intros Hl. pose proof (slot_range size (_tail m) j ltac:(lia)). unfold vec_set.
  rewrite (proj2 (Nat.ltb_lt _ _)) by lia. eauto.
Qed.

(** ** The slots *)

Lemma slot_val_end w r t q : reader_at r t q ->
  slot_val w r q (length q) = match w with WStored x => Some x | _ => None end.
Proof using.
  intros H. unfold slot_val. rewrite lookup_ge_None_2 by auto.
  destruct w; rewrite ?decide_True by reflexivity; destruct q; cbn [length]; destruct r; try reflexivity.
  destruct H as [H _]. now destruct H.
Qed.

Lemma slot_val_stored r q x y i : i <> length q -> slot_val (WStored x) r q i = slot_val (WEmpty y) r q i.
Proof using. intros H. unfold slot_val. now rewrite decide_False. Qed.

Lemma slot_val_push r q x i : slot_val WIdle r (q ++ [x]) i = slot_val (WStored x) r q i.
Proof using.
  unfold slot_val. destruct (decide (i = length q)) as [->|Hne] eqn:Ed; rewrite ?Ed.
  - rewrite lookup_app_r, Nat.sub_diag, (lookup_ge_None_2 q) by lia. reflexivity.
  - destruct (decide (i < length q)%nat) as [Hl|Hl].
    + rewrite lookup_app_l by exact Hl. now destruct (q !! i).
    + rewrite !lookup_ge_None_2 by (rewrite ?length_app; cbn; lia). reflexivity.
Qed.

Lemma slot_val_pop w p q x i : slot_val w (RCleared p) (x :: q) (S i) = slot_val w RIdle q i.
Proof using.
  unfold slot_val. change ((x :: q) !! S i) with (q !! i). cbn [length].
  assert (Hd : forall y : obj, (if decide (S i = S (length q)) then Some y else None) = (if decide (i = length q) then Some y else None)).
  { intros y. destruct (decide (S i = S (length q))), (decide (i = length q)); congruence || lia. }
  destruct w; rewrite ?Hd; now destruct i.
Qed.

Lemma slot_val_far w r t q i : writer_at w (Z.of_nat i) t q -> (length q < i)%nat -> slot_val w r q i = None.
Proof using.
  intros Hw Hi. unfold slot_val. rewrite lookup_ge_None_2 by lia.
  destruct w; rewrite ?decide_False by lia; destruct i, r; reflexivity.
Qed.

Lemma accepted_snoc (wr : list (obj * bool)) x b :
  map fst (List.filter snd (wr ++ [(x, b)])) = map fst (List.filter snd wr) ++ (if b then [x] else []).
Proof using. rewrite List.filter_app, map_app. now destruct b. Qed.

Lemma todo_snoc (wr : list (obj * bool)) x b td : map fst (wr ++ [(x, b)]) ++ td = map fst wr ++ [x] ++ td.
Proof using. rewrite map_app. cbn. now rewrite <- app_assoc. Qed.

(** ** The steps *)

Lemma w_step_inv s q : sys_inv size todo s q ->
  exists s', w_step s = Ok s' /\ exists q', sys_inv size todo s' q'.
Proof using Hsize.
  intros [Es El Et Eh Ef Ei Ew Er Ea Ed]. destruct s as [m w r td wr rd]. cbn [s_mq s_w s_r s_todo s_written s_read] in *.
  unfold w_step. cbn [s_mq s_w s_r s_todo s_written s_read]. destruct w as [|x next|x|x|x]; cbn [writer_at in_flight] in Ew, Ed.
  - destruct td as [|x td]; [eexists; split; [reflexivity|]; exists q; now constructor|].
    rewrite Es, Eh, next_is. cbn [mbind res_bind]. eexists. split; [reflexivity|]. exists q. now constructor.
  - eexists. split; [reflexivity|]. exists q. subst next. rewrite (full_iff _ q Et Ef).
    destruct (Z.eqb_spec (Z.of_nat (S (length q))) size) as [E|E]; cbn [negb]; constructor; cbn; auto; [| |lia].
    + unfold accepted. cbn. rewrite accepted_snoc, app_nil_r. exact Ea.
    + rewrite todo_snoc. exact Ed.
  - pose proof (Ei (length q) ltac:(lia)) as Hp. rewrite (slot_val_end _ _ _ _ Er), <- Eh in Hp.
    rewrite (vec_get_Ok _ _ _ _ eq_refl Hp). eexists. split; [reflexivity|]. exists q. now constructor.
  - destruct (slot_in_range m (length q) (Some x) El) as (ptrs & E). unfold put_ptr. rewrite Eh, E. cbn [mbind res_bind].
    destruct (slots_update m _ (slot_val (WStored x) r q) _ _ _ Ef Ei E) as [Hl Hs].
    { apply (slot_val_end (WStored x) _ _ _ Er). }
    { intros i Hi. now apply slot_val_stored. }
    eexists. split; [reflexivity|]. exists q. constructor; cbn; auto. lia.
  - unfold next_head. rewrite Es, Eh, next_is. cbn [mbind res_bind]. eexists. split; [reflexivity|]. exists (q ++ [x]).
    constructor; cbn; rewrite ?length_app, ?Nat.add_1_r; auto.
    + intros i Hi. rewrite slot_val_push. now apply Ei.
    + destruct r, q; cbn in *; intuition congruence.
    + unfold accepted. cbn. rewrite accepted_snoc. unfold accepted in Ea. cbn in Ea. now rewrite Ea, <- app_assoc.
    + rewrite todo_snoc. exact Ed.
Qed.

Lemma delivered_snoc (rd : list (option obj)) p : omap id (rd ++ [p]) = omap id rd ++ omap id [p].
Proof using. apply omap_app. Qed.

Lemma r_step_inv s q : sys_inv size todo s q ->
  exists s', r_step s = Ok s' /\ exists q', sys_inv size todo s' q'.
Proof using Hsize.
  intros [Es El Et Eh Ef Ei Ew Er Ea Ed]. destruct s as [m w r td wr rd]. cbn [s_mq s_w s_r s_todo s_written s_read] in *.
  unfold r_step. cbn [s_mq s_w s_r s_todo s_written s_read].
  assert (H0 : _obj_ptrs m !! Z.to_nat (_tail m) = Some (slot_val w r q 0)).
  { rewrite <- (slot_0 size (_tail m) Et) at 1. apply Ei. lia. }
  destruct r as [|t| | |p|p]; cbn [reader_at] in Er.
  - eexists. split; [reflexivity|]. exists q. now constructor.
  - subst t. eexists. split; [reflexivity|]. exists q. rewrite Eh, (empty_iff _ q Et Ef).
    destruct q as [|x q]; cbn [negb]; constructor; cbn; auto.
    unfold accepted, delivered in *. cbn in *. rewrite delivered_snoc. cbn. now rewrite app_nil_r.
  - destruct q as [|x q]; [congruence|]. rewrite (vec_get_Ok _ _ _ _ eq_refl H0).
    eexists. split; [reflexivity|]. exists (x :: q). now constructor.
  - destruct q as [|x q]; [congruence|]. rewrite (vec_get_Ok _ _ _ _ eq_refl H0). cbn [mbind res_bind].
    eexists. split; [reflexivity|]. exists (x :: q). now constructor.
  - destruct Er as [Hq ->]. destruct q as [|x q]; [congruence|].
    destruct (slot_in_range m 0 None El) as (ptrs & E). unfold clear_ptr. rewrite slot_0 in E by exact Et.
    rewrite E. cbn [mbind res_bind]. rewrite <- (slot_0 size (_tail m)) in E by exact Et.
    destruct (slots_update m _ (slot_val w (RCleared (Some x)) (x :: q)) 0%nat _ _ ltac:(lia) Ei E eq_refl) as [Hl Hs].
    { intros [|i] Hi; [congruence|reflexivity]. }
    eexists. split; [reflexivity|]. exists (x :: q). constructor; cbn; auto. lia.
  - destruct Er as [Hq ->]. destruct q as [|x q]; [congruence|]. cbn [length] in *.
    assert (Hn : u32_mod (_tail m + 1) size = Ok (slot size (_tail m) 1)).
    { rewrite <- (slot_0 size (_tail m) Et) at 1. apply next_is. }
    unfold next_tail. rewrite Es, Hn. cbn [mbind res_bind]. eexists. split; [reflexivity|]. exists q.
    constructor; cbn; rewrite ?slot_shift; auto; [now apply slot_range|lia| | |].
    + intros i Hi. rewrite slot_shift, <- slot_val_pop with (x := x) (p := Some x). destruct (Z.eq_dec (Z.of_nat (S i)) size) as [E|E].
      * replace (S i) with (Z.to_nat size) by lia. rewrite slot_full by lia. rewrite (Ei 0%nat) by lia. f_equal.
        symmetry. apply (slot_val_far w _ (_tail m)); [|cbn; lia]. now rewrite Z2Nat.id by lia.
      * apply Ei. lia.
    + destruct w; cbn in *; rewrite ?slot_shift; auto; lia.
    + unfold accepted, delivered in *. cbn in *. rewrite delivered_snoc, <- app_assoc. exact Ea.
Qed.

Lemma reachable_inv s : rtc step (start size todo) s -> exists q, sys_inv size todo s q.
Proof using Hsize.
  apply (rtc_ind_r (R := step) (fun s => exists q, sys_inv size todo s q) (start size todo)).
  - exists []. apply start_inv.
  - intros y z _ Hstep [q Hq]. destruct Hstep as [Hw|Hr].
    + destruct (w_step_inv _ _ Hq) as (s' & E' & q' & Hq'). rewrite Hw in E'. injection E' as <-. eauto.
    + destruct (r_step_inv _ _ Hq) as (s' & E' & q' & Hq'). rewrite Hr in E'. injection E' as <-. eauto.
Qed.

(** ** The operations of one thread alone *)

Lemma write_alone s q x : sys_inv size todo s q -> s_w s = WIdle -> s_r s = RIdle ->
  exists m', write (Some x) (s_mq s) = Ok (Z.of_nat (length q) + 1 <? size, m').
Proof using Hsize.
  intros [Es El Et Eh Ef Ei _ _ _ _] Ew Er. rewrite Ew, Er in Ei. unfold write. cbn [is_null negb INVARIANT mbind res_bind].
  rewrite Es, Eh, next_is. cbn [mbind res_bind]. rewrite (full_iff _ q Et Ef).
  destruct (Z.eqb_spec (Z.of_nat (S (length q))) size) as [E|E]; cbn [negb].
  - rewrite (proj2 (Z.ltb_ge _ _)) by lia. eauto.
  - rewrite (proj2 (Z.ltb_lt _ _)) by lia.
    rewrite (vec_get_Ok _ _ _ _ eq_refl (Ei (length q) Ef)). rewrite (slot_val_end _ _ 0) by exact I.
    cbn [is_null negb INVARIANT mbind res_bind].
    destruct (slot_in_range (s_mq s) (length q) (Some x) El) as (ptrs & Ep).
    unfold put_ptr. rewrite Eh, Ep. cbn [mbind res_bind]. unfold next_head. cbn [_head _size]. rewrite Es, next_is.
    cbn [mbind res_bind]. eauto.
Qed.

Lemma read_alone s q : sys_inv size todo s q -> s_w s = WIdle -> s_r s = RIdle ->
  exists m', read (s_mq s) = Ok (List.hd_error q, m').
Proof using Hsize.
  intros [Es El Et Eh Ef Ei _ _ _ _] Ew Er. rewrite Ew, Er in Ei. unfold read. rewrite Eh, (empty_iff _ q Et Ef).
  destruct q as [|x q]; cbn [negb]; [eauto|].
  pose proof (Ei 0%nat ltac:(lia)) as H0. rewrite slot_0 in H0 by exact Et.
  rewrite (vec_get_Ok _ _ _ _ eq_refl H0). cbn [slot_val is_null negb INVARIANT mbind res_bind lookup list_lookup].
  destruct (slot_in_range (s_mq s) 0 None El) as (ptrs & Ep). rewrite slot_0 in Ep by exact Et.
  unfold clear_ptr. rewrite Ep. cbn [mbind res_bind]. unfold next_tail. cbn [_tail _size].
  rewrite Es, <- (slot_0 size (_tail (s_mq s)) Et), next_is. cbn [mbind res_bind]. eauto.
Qed.
End Inv.

(** [write] is what the writer does when it is not interrupted. *)
Lemma write_steps m m' x b r td wr rd : write (Some x) m = Ok (b, m') ->
  rtc step (mkSys m WIdle r (x :: td) wr rd) (mkSys m' WIdle r td (wr ++ [(x, b)]) rd).
Proof using.
  unfold write. cbn [is_null negb INVARIANT mbind res_bind]. intros H. apply bind_Ok in H as (next & En & H).
  eapply rtc_l; [apply writer_step; cbn; rewrite En; reflexivity|].
  destruct (next =? _tail m) eqn:E; cbn [negb] in H.
  - injection H as <- <-. apply rtc_once, writer_step. cbn. now rewrite E.
  - eapply rtc_l; [apply writer_step; cbn; rewrite E; reflexivity|].
    apply bind_Ok in H as (p & Ep & H). apply bind_Ok in H as ([] & Ei & H). apply bind_Ok in H as (m1 & E1 & H).
    apply bind_Ok in H as (m2 & E2 & H). injection H as <- <-.
    eapply rtc_l; [apply writer_step; cbn; rewrite Ep; cbn; rewrite Ei; reflexivity|].
    eapply rtc_l; [apply writer_step; cbn; rewrite E1; reflexivity|].
    apply rtc_once, writer_step. cbn. now rewrite E2.
Qed.

(** [read] is what the reader does when it is not interrupted. *)
Lemma read_steps m m' p w td wr rd : read m = Ok (p, m') ->
  rtc step (mkSys m w RIdle td wr rd) (mkSys m' w RIdle td wr (rd ++ [p])).
Proof using.
  unfold read. intros H. eapply rtc_l; [apply reader_step; reflexivity|].
  destruct (_tail m =? _head m) eqn:E; cbn [negb] in H.
  - injection H as <- <-. apply rtc_once, reader_step. cbn. now rewrite E.
  - eapply rtc_l; [apply reader_step; cbn; rewrite E; reflexivity|].
    apply bind_Ok in H as (p1 & Ep & H). rewrite Ep in H. apply bind_Ok in H as ([] & Ei & H).
    cbn [mbind res_bind] in H. apply bind_Ok in H as (m1 & E1 & H).
    apply bind_Ok in H as (m2 & E2 & H). apply bind_Ok in H as ([] & _ & H). injection H as <- <-.
    eapply rtc_l; [apply reader_step; cbn; rewrite Ep; cbn; rewrite Ei; reflexivity|].
    eapply rtc_l; [apply reader_step; cbn; rewrite Ep; reflexivity|].
    eapply rtc_l; [apply reader_step; cbn; rewrite E1; reflexivity|].
    apply rtc_once, reader_step. cbn. rewrite E2. cbn. now rewrite Ei.
Qed.
End Proofs.

(** C16: the queue is first in, first out for one writer and one reader, whatever
    the interleaving of their accesses to memory.  From an empty queue, no
    assertion of [write] or [read] ever fails, the objects read are those
    accepted so far, in order, without loss or repetition, up to fewer than
    [size] that are still in the queue; and between two calls [read] gives the
    oldest of these and [write] is refused exactly when [size] - 1 are there. *)
Theorem queue_fifo {obj : Type} (size : Z) (todo : list obj) (s : Sys obj) :
  0 < size < 2 ^ 32 -> rtc step (start size todo) s ->
  (exists s', w_step s = Ok s') /\ (exists s', r_step s = Ok s') /\
  exists pending,
    accepted s = delivered s ++ pending /\ Z.of_nat (length pending) < size /\
    map fst (s_written s) ++ in_flight (s_w s) ++ s_todo s = todo /\
    (s_w s = WIdle -> s_r s = RIdle ->
       (exists m, read (s_mq s) = Ok (List.hd_error pending, m)) /\
       forall x, exists m, write (Some x) (s_mq s) = Ok (Z.of_nat (length pending) + 1 <? size, m)).
Proof.
  intros Hs Hr. destruct (reachable_inv size todo Hs s Hr) as [q Hq].
  destruct (w_step_inv size todo Hs s q Hq) as (sw & Ew & _). destruct (r_step_inv size todo Hs s q Hq) as (sr & Er & _).
  split; [eauto|]. split; [eauto|]. exists q. split; [apply Hq|]. split; [apply Hq|]. split; [apply Hq|].
  intros HW HR. split; [now apply (read_alone size todo Hs s q)|]. intros x. now apply (write_alone size todo Hs s q x).
Qed.

(** Two objects written to a queue of three slots; the reader takes the first one
    while the second one is being written. *)
Fixpoint run_schedule {obj} (l : list bool) (s : Sys obj) : res (Sys obj) :=
  match l with
  | [] => Ok s
  | b :: l' => s' ← (if (b : bool) then w_step s else r_step s); run_schedule l' s'
  end.

Lemma run_schedule_steps {obj} l : forall s s' : Sys obj, run_schedule l s = Ok s' -> rtc step s s'.
Proof.
  induction l as [|b l IH]; intros s s'; cbn [run_schedule]; [intros [= <-]; apply rtc_refl|].
  intros H. apply bind_Ok in H as (s1 & E & H). apply rtc_l with s1; [|now apply IH].
  destruct b; [now apply writer_step|now apply reader_step].
Qed.

Definition demo_schedule : list bool :=
  [true; true; true; true; true; true; false; true; false; true; false; true; false; false; true; false].

Definition demo_sys : Sys Z :=
  mkSys (mkMQ 3 [None; Some 6; None] 2 1) WIdle RIdle [] [(5, true); (6, true)] [Some 5].

Lemma queue_fifo_witness :
  run_schedule demo_schedule (start 3 [5; 6]) = Ok demo_sys /\
  (exists m, read (s_mq demo_sys) = Ok (Some 6, m)) /\ exists m, write (Some 7) (s_mq demo_sys) = Ok (true, m).
Proof.
  assert (E : run_schedule demo_schedule (start 3 [5; 6]) = Ok demo_sys) by reflexivity. split; [exact E|].
  destruct (queue_fifo 3 [5; 6] demo_sys ltac:(lia) (run_schedule_steps _ _ _ E)) as (_ & _ & pending & Ea & _ & _ & H).
  change (accepted demo_sys) with [5; 6] in Ea. change (delivered demo_sys) with [5] in Ea.
  injection Ea as <-. destruct (H eq_refl eq_refl) as [Hr Hw]. split; [exact Hr|exact (Hw 7)].
Defined.
