(* ===== verification/RecvLarge.v ===== *)
(** * Receiving large packets (common/socket_helper.c)

    [udprecvlarge] collects the fragments of one packet into a dynamic array.
    The socket is the list of what [recvfrom] returns next: datagrams and
    timeouts.  A worker passes its ring buffer: while it waits for the rest of a
    large request it stores what other clients send, and its next call takes the
    oldest stored packet first. *)

From Stdlib Require Import ZArith Lia List.
From stdpp Require Import base tactics list numbers option.
From S2P Require Import Prelude Cursor DynamicArray StdMap Crc32 Key Val DeletedSet KVStore RocksdbWrapper Packet PacketCodec PacketCache PacketScan PacketServer Outband Fragment PktRingBuffer.

Open Scope Z_scope.

Definition IP_FRAGTYPE : Z := 1.
Definition UDP_FRAGTYPE : Z := 2.

(** ** The socket *)

Inductive event :=
  | Dgram (bytes : list Z) (addr : sockaddr_in)
  | Timeout.

(** [recvfrom] of a datagram into [fragbuf]: the bytes that fit, and how many. *)
Definition recv_size (fragbuf bytes : list Z) : Z := Z.of_nat (Nat.min (length bytes) (length fragbuf)).
Definition recv_into (fragbuf bytes : list Z) : list Z :=
  let n := Nat.min (length bytes) (length fragbuf) in take n bytes ++ drop n fragbuf.

(** ** State of one call *)

(** The variables of [udprecvlarge]. *)
Record Recv := mkRecv {
  rv_buf : DynamicArray;
  rv_ring : option PktRingBuffer;
  rv_fragbuf : list Z;
  rv_src : option sockaddr_in;
  frag_hdrsize : Z;
  frag_totalsize : Z;
  frag_bodysize : Z;
  max_fragnum : Z;
  cur_fragnum : Z;
  largepkt_optype : Z;
  largepkt_key : Key;
  largepkt_clientlogicalidx : Z;
  largepkt_fragseq : Z;
  largepkt_clientaddr : sockaddr_in;
  largepkt_clientaddrlen : Z
}.

Definition final_frag_hdrsize (s : Recv) : Z := frag_hdrsize s + 2 + 2.

Definition set_buf (b : DynamicArray) (s : Recv) : Recv :=
  mkRecv b (rv_ring s) (rv_fragbuf s) (rv_src s) (frag_hdrsize s) (frag_totalsize s) (frag_bodysize s)
    (max_fragnum s) (cur_fragnum s) (largepkt_optype s) (largepkt_key s) (largepkt_clientlogicalidx s)
    (largepkt_fragseq s) (largepkt_clientaddr s) (largepkt_clientaddrlen s).
Definition set_ring (r : PktRingBuffer) (s : Recv) : Recv :=
  mkRecv (rv_buf s) (Some r) (rv_fragbuf s) (rv_src s) (frag_hdrsize s) (frag_totalsize s) (frag_bodysize s)
    (max_fragnum s) (cur_fragnum s) (largepkt_optype s) (largepkt_key s) (largepkt_clientlogicalidx s)
    (largepkt_fragseq s) (largepkt_clientaddr s) (largepkt_clientaddrlen s).
Definition set_fragbuf (f : list Z) (s : Recv) : Recv :=
  mkRecv (rv_buf s) (rv_ring s) f (rv_src s) (frag_hdrsize s) (frag_totalsize s) (frag_bodysize s)
    (max_fragnum s) (cur_fragnum s) (largepkt_optype s) (largepkt_key s) (largepkt_clientlogicalidx s)
    (largepkt_fragseq s) (largepkt_clientaddr s) (largepkt_clientaddrlen s).
Definition set_src (a : sockaddr_in) (s : Recv) : Recv :=
  mkRecv (rv_buf s) (rv_ring s) (rv_fragbuf s) (Some a) (frag_hdrsize s) (frag_totalsize s) (frag_bodysize s)
    (max_fragnum s) (cur_fragnum s) (largepkt_optype s) (largepkt_key s) (largepkt_clientlogicalidx s)
    (largepkt_fragseq s) (largepkt_clientaddr s) (largepkt_clientaddrlen s).
Definition set_sizes (hdrsize totalsize bodysize : Z) (s : Recv) : Recv :=
  mkRecv (rv_buf s) (rv_ring s) (rv_fragbuf s) (rv_src s) hdrsize totalsize bodysize
    (max_fragnum s) (cur_fragnum s) (largepkt_optype s) (largepkt_key s) (largepkt_clientlogicalidx s)
    (largepkt_fragseq s) (largepkt_clientaddr s) (largepkt_clientaddrlen s).
Definition set_nums (cur max : Z) (s : Recv) : Recv :=
  mkRecv (rv_buf s) (rv_ring s) (rv_fragbuf s) (rv_src s) (frag_hdrsize s) (frag_totalsize s) (frag_bodysize s)
    max cur (largepkt_optype s) (largepkt_key s) (largepkt_clientlogicalidx s)
    (largepkt_fragseq s) (largepkt_clientaddr s) (largepkt_clientaddrlen s).
Definition set_largepkt (optype : Z) (key : Key) (idx fragseq : Z) (addr : sockaddr_in) (addrlen : Z)
    (s : Recv) : Recv :=
  mkRecv (rv_buf s) (rv_ring s) (rv_fragbuf s) (rv_src s) (frag_hdrsize s) (frag_totalsize s) (frag_bodysize s)
    (max_fragnum s) (cur_fragnum s) optype key idx fragseq addr addrlen.

(** [memcpy(&x, fragbuf + off, 2); x = ntohs(x)]. *)
Definition get_u16be (fragbuf : list Z) (off : Z) : res Z :=
  bs ← load_at fragbuf off 2; Ok (ntohs (le_val bs)).

Section Udprecvlarge.

Context (methodid frag_maxsize fragtype : Z).

(** ** The first packet *)

(** What [is_largepkt] and [frag_hdrsize] become. *)
Definition judge_first (fragbuf : list Z) (n : Z) : res (bool * Z) :=
  if fragtype =? IP_FRAGTYPE then
    tmp_optype ← run_reader (get_packet_type n) fragbuf;
    if is_packet_with_largevalue tmp_optype
    then h ← get_frag_hdrsize methodid tmp_optype; Ok (true, h)
    else Ok (false, 0)
  else if fragtype =? UDP_FRAGTYPE then Ok (true, 0)
  else Err ExitCalled.

(** Type, key and, for a server, client and request of the large packet. *)
Definition save_largepkt (s : Recv) (n hdrsize : Z) (addr : sockaddr_in) : res Recv :=
  if fragtype =? IP_FRAGTYPE then
    key ← run_reader (get_packet_key methodid n) (rv_fragbuf s);
    optype ← run_reader (get_packet_type n) (rv_fragbuf s);
    match rv_ring s with
    | Some _ =>
        totalsize ← get_frag_totalsize methodid optype frag_maxsize;
        idx ← get_packet_clientlogicalidx methodid n (rv_fragbuf s);
        fragseq ← get_packet_fragseq methodid n (rv_fragbuf s);
        Ok (set_largepkt optype key idx fragseq addr sizeof_sockaddr_in (set_sizes hdrsize totalsize 0 s))
    | None => Ok (set_largepkt optype key (largepkt_clientlogicalidx s) (largepkt_fragseq s)
                    (largepkt_clientaddr s) (largepkt_clientaddrlen s)
                    (set_sizes hdrsize (frag_totalsize s) 0 s))
    end
  else Ok (set_sizes hdrsize (frag_totalsize s) 0 s).

(** The branch [is_first] up to its end; [false]: a small packet, the call
    returns. *)
Definition first_packet (s : Recv) (n : Z) (addr : sockaddr_in) : res (bool * Recv) :=
  let s := set_src addr s in
  '(is_largepkt, hdrsize) ← judge_first (rv_fragbuf s) n;
  if negb is_largepkt then
    bytes ← load_at (rv_fragbuf s) 0 n;
    b ← dynamic_memcpy (rv_buf s) 0 bytes;
    Ok (false, set_buf b s)
  else
    s ← save_largepkt s n hdrsize addr;
    let bodysize := u64 (frag_totalsize s - final_frag_hdrsize s) in
    let s := set_sizes (frag_hdrsize s) (frag_totalsize s) bodysize s in
    _ ← INVARIANT (negb (final_frag_hdrsize s =? 0) && negb (bodysize =? 0));
    _ ← INVARIANT ((final_frag_hdrsize s <=? n) && (n <=? frag_totalsize s));
    hdr ← load_at (rv_fragbuf s) 0 (frag_hdrsize s);
    b ← dynamic_memcpy (rv_buf s) 0 hdr;
    max ← get_u16be (rv_fragbuf s) (frag_hdrsize s + 2);
    Ok (true, set_nums (cur_fragnum s) max (set_buf b s)).

(** ** Further packets *)

(** A packet of another client goes to the ring. *)
Definition store_small (r : PktRingBuffer) (optype : Z) (key : Key) (fragbuf : list Z) (n : Z)
    (addr : sockaddr_in) : res PktRingBuffer :=
  bytes ← load_at fragbuf 0 n;
  '(stat, r) ← push r optype key bytes addr sizeof_sockaddr_in;
  if (stat : bool) then Ok r else Err ExitCalled.

Definition store_large (r : PktRingBuffer) (optype : Z) (key : Key) (idx fragseq : Z) (fragbuf : list Z) (n : Z)
    (addr : sockaddr_in) : res PktRingBuffer :=
  totalsize ← get_frag_totalsize methodid optype frag_maxsize;
  hdrsize ← get_frag_hdrsize methodid optype;
  let final := u32 (hdrsize + 2 + 2) in
  let bodysize := u32 (totalsize - final) in
  _ ← INVARIANT (negb (final =? 0) && negb (bodysize =? 0));
  _ ← INVARIANT ((final <=? n) && (n <=? u32 totalsize));
  max ← get_u16be fragbuf (hdrsize + 2);
  cur_fragidx ← get_u16be fragbuf hdrsize;
  let off := u32 (hdrsize + cur_fragidx * bodysize) in
  hdr ← load_at fragbuf 0 hdrsize;
  body ← load_at fragbuf final (n - final);
  exist ← is_clientlogicalidx_exist r idx;
  if (exist : bool) then
    update_large r optype key hdr off body sizeof_sockaddr_in idx fragseq (cur_fragidx =? 0)
  else
    '(stat, r) ← push_large r optype key hdr off body 1 max addr sizeof_sockaddr_in idx fragseq;
    if (stat : bool) then Ok r else Err ExitCalled.

(** The filter on a packet that is not the first: [Some s] is a fragment of the
    packet being collected, [None] goes with [continue]. *)
Definition later_packet (s : Recv) (n : Z) (addr : sockaddr_in) : res (bool * Recv) :=
  let fragbuf := rv_fragbuf s in
  if fragtype =? IP_FRAGTYPE then
    key ← run_reader (get_packet_key methodid n) fragbuf;
    optype ← run_reader (get_packet_type n) fragbuf;
    match rv_ring s with
    | None =>
        Ok (bool_decide (key = largepkt_key s) && (optype =? largepkt_optype s), s)
    | Some r =>
        if negb (is_packet_with_largevalue optype) then
          r ← store_small r optype key fragbuf n addr;
          Ok (false, set_ring r s)
        else if is_packet_with_clientlogicalidx optype then
          idx ← get_packet_clientlogicalidx methodid n fragbuf;
          fragseq ← get_packet_fragseq methodid n fragbuf;
          if negb (idx =? largepkt_clientlogicalidx s) then
            r ← store_large r optype key idx fragseq fragbuf n addr;
            Ok (false, set_ring r s)
          else if bool_decide (key <> largepkt_key s) || negb (is_same_optype optype (largepkt_optype s))
                  || (fragseq <? largepkt_fragseq s) then Ok (false, s)
          else if largepkt_fragseq s <? fragseq then
            Ok (true, set_nums 0 (max_fragnum s)
                        (set_largepkt (largepkt_optype s) (largepkt_key s) (largepkt_clientlogicalidx s) fragseq
                           (largepkt_clientaddr s) (largepkt_clientaddrlen s) s))
          else Ok (true, s)
        else Err ExitCalled
    end
  else Ok (true, s).

(** ** A fragment of the packet being collected *)

Definition take_fragment (s : Recv) (n : Z) : res Recv :=
  cur_fragidx ← get_u16be (rv_fragbuf s) (frag_hdrsize s);
  _ ← INVARIANT (cur_fragidx <? max_fragnum s);
  body ← load_at (rv_fragbuf s) (final_frag_hdrsize s) (n - final_frag_hdrsize s);
  b ← dynamic_memcpy (rv_buf s) (s32 (u64 (frag_hdrsize s + cur_fragidx * frag_bodysize s))) body;
  b ← (if (fragtype =? IP_FRAGTYPE) && (cur_fragidx =? 0) then
         hdr ← load_at (rv_fragbuf s) 0 (frag_hdrsize s);
         dynamic_memcpy b 0 hdr
       else Ok b);
  Ok (set_nums (u16 (cur_fragnum s + 1)) (max_fragnum s) (set_buf b s)).

(** [while (true)]: [is_timeout], [is_first] and the variables at the [break],
    and what is left in the socket. *)
Fixpoint recv_loop (evs : list event) (is_first : bool) (s : Recv)
    : res (bool * bool * Recv * list event) :=
  match evs with
  | [] => Err Blocked
  | Timeout :: evs' => Ok (true, is_first, s, evs')
  | Dgram bytes addr :: evs' =>
      let n := recv_size (rv_fragbuf s) bytes in
      let s := set_fragbuf (recv_into (rv_fragbuf s) bytes) s in
      '(go, s) ← (if is_first then first_packet s n addr
                  else
                    '(matched, s) ← later_packet s n addr;
                    _ ← INVARIANT (negb matched || (final_frag_hdrsize s <=? n));
                    Ok (matched, s));
      if (go : bool) then
        s ← take_fragment s n;
        if max_fragnum s <=? cur_fragnum s then Ok (false, false, s, evs')
        else recv_loop evs' false s
      else if is_first then Ok (false, true, s, evs')
      else recv_loop evs' false s
  end.

(** What follows the loop. *)
Definition after_loop (is_timeout is_first : bool) (s : Recv) : res Recv :=
  if is_timeout then
    s ← (match rv_ring s with
         | Some r =>
             if (fragtype =? IP_FRAGTYPE) && negb is_first then
               exist ← is_clientlogicalidx_exist r (largepkt_clientlogicalidx s);
               _ ← INVARIANT (negb exist);
               _ ← INVARIANT (1 <=? cur_fragnum s);
               let b := rv_buf s in
               hdr ← load_at (da_mem b) 0 (frag_hdrsize s);
               body ← load_at (da_mem b) (frag_hdrsize s) (da_size b - frag_hdrsize s);
               '(stat, r) ← push_large r (largepkt_optype s) (largepkt_key s) hdr (frag_hdrsize s) body
                   (cur_fragnum s) (max_fragnum s) (largepkt_clientaddr s) (largepkt_clientaddrlen s)
                   (largepkt_clientlogicalidx s) (largepkt_fragseq s);
               if (stat : bool) then Ok (set_ring r s) else Err ExitCalled
             else Ok s
         | None => Ok s
         end);
    b ← clear (rv_buf s);
    Ok (set_buf b s)
  else Ok s.

(** ** The whole call *)

(** What the caller gets: [is_timeout], its array, the source address, the ring
    and the socket. *)
Record Received := mkReceived {
  rc_timeout : bool;
  rc_buf : DynamicArray;
  rc_src : option sockaddr_in;
  rc_ring : option PktRingBuffer;
  rc_rest : list event
}.

(** The variables before the loop; [stale] is what the stack array [fragbuf]
    holds, the other uninitialised variables are not read before they are set. *)
Definition recv_start (stale : list Z) (ring : option PktRingBuffer) (buf : DynamicArray) : Recv :=
  let maxsize := if fragtype =? IP_FRAGTYPE then frag_maxsize + IP_FRAGMENT_RESERVESIZE else frag_maxsize in
  mkRecv buf ring (take (Z.to_nat maxsize) (stale ++ replicate (Z.to_nat maxsize) 0)) None
    0 frag_maxsize 0 0 0 0 Key_min 0 0 sockaddr_zero 0.

(** The packet taken from the ring: [true] when it is complete. *)
Definition resume (p : Popped) (s : Recv) : res (bool * Recv) :=
  let s := set_src (pp_clientaddr p) (set_nums (pp_curfragnum p) (pp_maxfragnum p) s) in
  let s := set_largepkt (pp_optype p) (pp_key p) (pp_clientlogicalidx p) (pp_fragseq p)
             (pp_clientaddr p) (pp_clientaddrlen p) s in
  if pp_maxfragnum p =? 0 then Ok (true, s)
  else if pp_maxfragnum p <=? pp_curfragnum p then Ok (true, s)
  else
    _ ← INVARIANT (is_packet_with_largevalue (pp_optype p));
    totalsize ← get_frag_totalsize methodid (pp_optype p) frag_maxsize;
    hdrsize ← get_frag_hdrsize methodid (pp_optype p);
    Ok (false, set_sizes hdrsize totalsize (u64 (totalsize - (hdrsize + 2 + 2))) s).

Definition udprecvlarge (stale : list Z) (ring : option PktRingBuffer) (buf : DynamicArray)
    (evs : list event) : res Received :=
  let s := recv_start stale ring buf in
  let loop is_first s :=
    '(is_timeout, is_first, s, rest) ← recv_loop evs is_first s;
    s ← after_loop is_timeout is_first s;
    Ok (mkReceived is_timeout (rv_buf s) (rv_src s) (rv_ring s) rest) in
  match ring with
  | Some r =>
      if fragtype =? IP_FRAGTYPE then
        '(p, b, r) ← pop r (rv_buf s);
        let s := set_ring r (set_buf b s) in
        match p with
        | Some p =>
            '(complete, s) ← resume p s;
            if (complete : bool)
            then Ok (mkReceived false (rv_buf s) (rv_src s) (rv_ring s) evs)
            else loop false s
        | None => loop true s
        end
      else loop true s
  | None => loop true s
  end.

End Udprecvlarge.

Definition udprecvlarge_udpfrag (methodid : Z) (stale : list Z) (buf : DynamicArray) (evs : list event)
    : res Received :=
  udprecvlarge methodid UDP_FRAGMENT_MAXSIZE UDP_FRAGTYPE stale None buf evs.
Definition udprecvlarge_ipfrag (methodid : Z) (stale : list Z) (ring : option PktRingBuffer)
    (buf : DynamicArray) (evs : list event) : res Received :=
  udprecvlarge methodid IP_FRAGMENT_MAXSIZE IP_FRAGTYPE stale ring buf evs.
