(* ===== verification/RecvSpec.v ===== *)
(** * What a worker receives, as a queue

    The datagrams of a worker as packets ([Pkt]): small ones and fragments of
    large ones.  [spec_recv] is [udprecvlarge_ipfrag] of a worker on the queue of
    packets it has begun to receive, with the packet being collected at the head
    of the queue. *)

From Stdlib Require Import ZArith Lia List.
From stdpp Require Import base tactics list numbers option.
From S2P Require Import Prelude Cursor DynamicArray StdMap Crc32 Key Val DeletedSet KVStore RocksdbWrapper Packet PacketCodec PacketCache PacketScan PacketServer Outband Fragment PktRingBuffer RecvLarge.

Open Scope Z_scope.

(** ** Packets *)

(** A fragment: the fields of its header that [udprecvlarge] reads, the header
    itself, its number, the number of fragments and its part of the body. *)
Record Frag := mkFrag {
  f_type : Z;
  f_key : Key;
  f_idx : Z;
  f_seq : Z;
  f_hdr : list Z;
  f_no : nat;
  f_max : nat;
  f_body : list Z
}.

Inductive Pkt :=
  | PSmall (type : Z) (key : Key) (bytes : list Z) (addr : sockaddr_in)
  | PFrag (f : Frag) (addr : sockaddr_in)
  | PTimeout.

Definition pkt_event (p : Pkt) : event :=
  match p with
  | PSmall _ _ bytes addr => Dgram bytes addr
  | PFrag f addr => Dgram (fragment (f_hdr f) (f_no f) (f_max f) (f_body f)) addr
  | PTimeout => Timeout
  end.

(** The operation header: type, switch indexes, key. *)
Record ophdr_is (m t : Z) (k : Key) (bs : list Z) : Prop := {
  oh_type : is_u16 t;
  oh_key : key_wf k;
  oh_bytes : exists mid, bs = be 2 t ++ mid ++ key_wire k /\ get_ophdrsize m = Ok (Z.of_nat (length bs))
}.

(** The sizes a receiver derives for [type]: [h] bytes of header and at most
    [b] of the body per datagram. *)
Definition frag_sizes (m type : Z) (h b : nat) : Prop :=
  get_frag_hdrsize m type = Ok (Z.of_nat h) /\
  get_frag_totalsize m type IP_FRAGMENT_MAXSIZE = Ok (Z.of_nat (h + 4 + b)) /\ (0 < b)%nat /\
  (h + 4 + b <= Z.to_nat (IP_FRAGMENT_MAXSIZE + IP_FRAGMENT_RESERVESIZE))%nat.

Definition small_ok (m type : Z) (key : Key) (bytes : list Z) : Prop :=
  is_packet_with_largevalue type = false /\
  (length bytes <= Z.to_nat (IP_FRAGMENT_MAXSIZE + IP_FRAGMENT_RESERVESIZE))%nat /\
  exists oph rest, bytes = oph ++ rest /\ ophdr_is m type key oph.

Record frag_ok (m : Z) (b : nat) (f : Frag) : Prop := {
  fo_type : is_packet_with_clientlogicalidx (f_type f) = true;
  fo_hdr : exists oph extra, f_hdr f = oph ++ extra ++ be 2 (f_idx f) ++ be 4 (f_seq f) /\
    ophdr_is m (f_type f) (f_key f) oph /\
    clientlogicalidx_off m (f_type f) = Ok (Z.of_nat (length (oph ++ extra)));
  fo_idx : is_u16 (f_idx f);
  fo_seq : is_u32 (f_seq f);
  fo_sizes : frag_sizes m (f_type f) (length (f_hdr f)) b;
  fo_body : (length (f_body f) <= b)%nat;
  fo_no : is_u16 (Z.of_nat (f_no f));
  fo_max : 0 < Z.of_nat (f_max f) < 2 ^ 16;
  fo_fits : Z.of_nat (length (f_hdr f) + f_no f * b + length (f_body f)) <= MAX_LARGE_BUFSIZE
}.

Definition pkt_ok (m : Z) (b : nat) (p : Pkt) : Prop :=
  match p with
  | PSmall t k bytes _ => small_ok m t k bytes
  | PFrag f _ => frag_ok m b f
  | PTimeout => True
  end.

(** ** The queue *)

Definition frag_off (b : nat) (f : Frag) : nat := (length (f_hdr f) + f_no f * b)%nat.

(** The first fragment of a packet to arrive. *)
Definition new_entry (b : nat) (f : Frag) (addr : sockaddr_in) : Entry :=
  mkEntry (f_type f) (f_key f) (put_at (f_hdr f) (frag_off b f) (f_body f)) 1 (Z.of_nat (f_max f))
    addr sizeof_sockaddr_in (f_idx f) (f_seq f).

Definition complete (e : Entry) : bool := e_max e <=? e_cur e.

(** A packet that is not for the entry at the head. *)
Definition enqueue (c : Z) (q : list Entry) (e : Entry) : res (list Entry) :=
  if Z.of_nat (S (length q)) =? c then Err ExitCalled else Ok (q ++ [e]).

Definition store_frag (c : Z) (b : nat) (q : list Entry) (f : Frag) (addr : sockaddr_in) : res (list Entry) :=
  match find_large q (f_idx f) with
  | None => enqueue c q (new_entry b f addr)
  | Some (i, e) =>
      match update_entry e (f_type f) (f_key f) (f_hdr f) (frag_off b f) (f_body f) sizeof_sockaddr_in
              (f_seq f) (f_no f =? 0)%nat with
      | None => Err InvariantFailed
      | Some e' => Ok (<[i := e']> q)
      end
  end.

(** A fragment of the client at the head: skipped when it is not of the packet
    or older than what is there. *)
Definition matches (e : Entry) (f : Frag) : bool :=
  bool_decide (f_key f = e_key e) && is_same_optype (f_type f) (e_optype e) && (e_fragseq e <=? f_seq f).

(** A larger number of the request starts the count again. *)
Definition restart (e : Entry) (fragseq : Z) : Entry :=
  if e_fragseq e <? fragseq
  then mkEntry (e_optype e) (e_key e) (e_bytes e) 0 (e_max e) (e_addr e) (e_addrlen e) (e_idx e) fragseq
  else e.

Definition add_part (b : nat) (e : Entry) (f : Frag) : Entry :=
  let bytes := put_at (e_bytes e) (frag_off b f) (f_body f) in
  mkEntry (e_optype e) (e_key e) (if (f_no f =? 0)%nat then put_at bytes 0 (f_hdr f) else bytes)
    (u16 (e_cur e + 1)) (e_max e) (e_addr e) (e_addrlen e) (e_idx e) (e_fragseq e).

Definition head_frag (b : nat) (e : Entry) (f : Frag) : Entry := add_part b (restart e (f_seq f)) f.

(** Collecting the rest of [e]: whether it timed out, [e], the packets behind
    it and the socket. *)
Fixpoint spec_loop (c : Z) (b : nat) (pkts : list Pkt) (e : Entry) (q : list Entry)
    : res (bool * Entry * list Entry * list Pkt) :=
  match pkts with
  | [] => Err Blocked
  | PTimeout :: pkts' => Ok (true, e, q, pkts')
  | PSmall t k bytes addr :: pkts' =>
      q ← enqueue c q (small_entry t k bytes addr sizeof_sockaddr_in);
      spec_loop c b pkts' e q
  | PFrag f addr :: pkts' =>
      if negb (f_idx f =? e_idx e) then
        q ← store_frag c b q f addr;
        spec_loop c b pkts' e q
      else if negb (matches e f) then spec_loop c b pkts' e q
      else if negb (Z.of_nat (f_no f) <? e_max e) then Err InvariantFailed
      else
        let e := head_frag b e f in
        if complete e then Ok (false, e, q, pkts') else spec_loop c b pkts' e q
  end.

(** What a call gives: a packet (its bytes and where it came from) or a
    timeout, the queue and the socket. *)
Definition spec_result : Type := option (list Z * sockaddr_in) * list Entry * list Pkt.

Definition spec_finish (c : Z) (r : bool * Entry * list Entry * list Pkt) : res spec_result :=
  let '(is_timeout, e, q, pkts) := r in
  if (is_timeout : bool) then
    if has_large q (e_idx e) then Err InvariantFailed
    else if negb (1 <=? e_cur e) then Err InvariantFailed
    else q ← enqueue c q e; Ok (None, q, pkts)
  else Ok (Some (e_bytes e, e_addr e), q, pkts).

Definition spec_recv (c : Z) (b : nat) (q : list Entry) (pkts : list Pkt) : res spec_result :=
  match q with
  | e :: q =>
      if negb (is_large e) || complete e then Ok (Some (e_bytes e, e_addr e), q, pkts)
      else r ← spec_loop c b pkts e q; spec_finish c r
  | [] =>
      match pkts with
      | [] => Err Blocked
      | PTimeout :: pkts => Ok (None, [], pkts)
      | PSmall t k bytes addr :: pkts => Ok (Some (bytes, addr), [], pkts)
      | PFrag f addr :: pkts =>
          if negb (Z.of_nat (f_no f) <? Z.of_nat (f_max f)) then Err InvariantFailed
          else
            let e := new_entry b f addr in
            r ← (if complete e then Ok (false, e, [], pkts) else spec_loop c b pkts e []);
            spec_finish c r
      end
  end.
