(* ===== verification/RecvProps.v ===== *)
(** * A worker's receiver refines the queue

    [udprecvlarge_ipfrag] with a ring buffer does on bytes what [spec_recv] does
    on packets. *)

From Stdlib Require Import ZArith Lia List.
From stdpp Require Import base tactics list numbers option.
From S2P Require Import Prelude Cursor DynamicArray StdMap Crc32 Key Val DeletedSet KVStore RocksdbWrapper Packet PacketCodec PacketCache PacketScan PacketServer Outband Fragment PktRingBuffer RecvLarge RecvSpec.

Open Scope Z_scope.

(** ** Reading a datagram *)

Lemma reads_run {A} (r : reader A) bs a rest : reads r 0 bs a -> run_reader r (bs ++ rest) = Ok a.
Proof. intros H. unfold run_reader. now rewrite H. Qed.

Lemma run_skip {A} (r : reader A) n pre bs a rest :
  n = Z.of_nat (length pre) -> (forall pos, reads r pos bs a) ->
  run_reader (_ ← r_skip n; r) (pre ++ bs ++ rest) = Ok a.
Proof.
  intros -> H. rewrite app_assoc. apply reads_run.
  eapply (reads_bind (r_skip _)); [apply reads_skip; [lia|now rewrite Nat2Z.id]|apply H].
Qed.

Section Header.

Context (m t : Z) (k : Key) (oph : list Z).
Hypothesis Hoph : ophdr_is m t k oph.

Lemma length_ophdr : (18 <= length oph)%nat.
Proof using Hoph.
  destruct Hoph as [_ _ (mid & -> & _)]. rewrite !length_app, length_be, length_key_wire. lia.
Qed.

Lemma ophdr_type n rest : 2 <= n -> run_reader (get_packet_type n) (oph ++ rest) = Ok t.
Proof using Hoph.
  intros Hn. destruct Hoph as [Ht _ (mid & -> & _)]. rewrite <- app_assoc. unfold get_packet_type.
  rewrite (proj2 (Z.leb_le 2 n) Hn). apply (reads_run r_u16be). now apply reads_u16be.
Qed.

Lemma ophdr_key n rest : Z.of_nat (length oph) <= n < 2 ^ 32 ->
  run_reader (get_packet_key m n) (oph ++ rest) = Ok k.
Proof using Hoph.
  intros Hn. destruct Hoph as [_ Hk (mid & E & Es)]. unfold get_packet_key.
  assert (Hl : length oph = (2 + length mid + 16)%nat)
    by (rewrite E, !length_app, length_be, length_key_wire; lia).
  rewrite Es. unfold sizeof_key.
  pose proof (run_skip (Key_deserialize (u32 (n - (Z.of_nat (length oph) - 16)))) (Z.of_nat (length oph) - 16)
    (be 2 t ++ mid) (key_wire k) k rest) as R.
  rewrite E at 2. rewrite (app_assoc (be 2 t)), <- (app_assoc (be 2 t ++ mid)). apply R.
  - rewrite length_app, length_be. lia.
  - intros pos. apply Key_deserialize_reads; [exact Hk|]. rewrite u32_id by (unfold is_u32; lia). lia.
Qed.

End Header.

Definition frag_bytes (f : Frag) : list Z := fragment (f_hdr f) (f_no f) (f_max f) (f_body f).

Lemma length_fragment hdr i n body : length (fragment hdr i n body) = (length hdr + 4 + length body)%nat.
Proof. unfold fragment. rewrite !length_app, !length_be. lia. Qed.

Lemma get_u16be_app pre x post off :
  off = Z.of_nat (length pre) -> is_u16 x -> get_u16be (pre ++ be 2 x ++ post) off = Ok x.
Proof.
  intros Ho Hx. unfold get_u16be. rewrite load_at_app by (rewrite ?length_be; auto). cbn [mbind res_bind].
  now rewrite ntohs_be, u16_id.
Qed.

(** The parts of a fragment, for any header. *)
Section Parts.

Context (hdr body : list Z) (i n : nat) (rest : list Z).
Hypothesis Hi : is_u16 (Z.of_nat i).
Hypothesis Hn : is_u16 (Z.of_nat n).
Abbreviation fb := (fragment hdr i n body ++ rest).
Abbreviation h := (Z.of_nat (length hdr)).

Lemma part_hdr : load_at fb 0 h = Ok hdr.
Proof using.
  unfold fragment. rewrite <- app_assoc. now apply (load_at_app [] hdr).
Qed.

Lemma part_no : get_u16be fb h = Ok (Z.of_nat i).
Proof using Hi. unfold fragment. rewrite <- !app_assoc. now apply get_u16be_app. Qed.

Lemma part_max : get_u16be fb (h + 2) = Ok (Z.of_nat n).
Proof using Hn.
  unfold fragment. rewrite <- !app_assoc, (app_assoc hdr). apply get_u16be_app; [|exact Hn].
  rewrite length_app, length_be. lia.
Qed.

Lemma part_body k : k = Z.of_nat (length (fragment hdr i n body)) - (h + 2 + 2) ->
  load_at fb (h + 2 + 2) k = Ok body.
Proof using.
  intros ->. rewrite length_fragment. unfold fragment.
  rewrite (app_assoc (be 2 _)), (app_assoc hdr), <- (app_assoc _ body).
  apply load_at_app; rewrite ?length_app, ?length_be; lia.
Qed.

Lemma part_all : load_at fb 0 (Z.of_nat (length (fragment hdr i n body))) = Ok (fragment hdr i n body).
Proof using. now apply (load_at_app [] (fragment hdr i n body)). Qed.

End Parts.

Section FragHeader.

Context (m : Z) (b : nat) (f : Frag) (rest : list Z).
Hypothesis Hf : frag_ok m b f.
Abbreviation fb := (frag_bytes f ++ rest).
Abbreviation n := (Z.of_nat (length (frag_bytes f))).

Lemma frag_size : (0 < b)%nat /\ length (frag_bytes f) = (length (f_hdr f) + 4 + length (f_body f))%nat /\
  (length (frag_bytes f) <= length (f_hdr f) + 4 + b)%nat /\
  (length (f_hdr f) + 4 + b <= 1476)%nat.
Proof using Hf.
  destruct (fo_sizes _ _ _ Hf) as (_ & _ & Hb & Hl). pose proof (fo_body _ _ _ Hf).
  unfold frag_bytes. rewrite length_fragment. change (Z.to_nat _) with 1476%nat in Hl. lia.
Qed.

Lemma frag_prefix : exists oph, ophdr_is m (f_type f) (f_key f) oph /\
  exists tl, fb = oph ++ tl /\ (length oph <= length (frag_bytes f))%nat.
Proof using Hf.
  destruct (fo_hdr _ _ _ Hf) as (oph & extra & E & Ho & _). exists oph. split; [exact Ho|].
  unfold frag_bytes, fragment. rewrite E, <- !app_assoc. eexists. split; [reflexivity|].
  rewrite !length_app. lia.
Qed.

Lemma frag_type_read : run_reader (get_packet_type n) fb = Ok (f_type f).
Proof using Hf.
  destruct frag_prefix as (oph & Ho & tl & -> & Hl). apply (ophdr_type m _ (f_key f)); [exact Ho|].
  pose proof (length_ophdr _ _ _ _ Ho). lia.
Qed.

Lemma frag_key_read : run_reader (get_packet_key m n) fb = Ok (f_key f).
Proof using Hf.
  destruct frag_prefix as (oph & Ho & tl & -> & Hl). apply (ophdr_key m (f_type f)); [exact Ho|].
  destruct frag_size as (_ & ? & ? & ?). lia.
Qed.

Lemma frag_idx_read : get_packet_clientlogicalidx m n fb = Ok (f_idx f).
Proof using Hf.
  unfold get_packet_clientlogicalidx. rewrite frag_type_read. cbn [mbind res_bind].
  destruct (fo_hdr _ _ _ Hf) as (oph & extra & E & _ & Ec). rewrite Ec. cbn [mbind res_bind].
  destruct frag_size as (_ & Hl & _). rewrite E, !length_app, length_be in Hl.
  rewrite INVARIANT_true by (apply Z.leb_le; rewrite length_app; lia). cbn [mbind res_bind].
  unfold frag_bytes, fragment. rewrite E, <- !app_assoc, (app_assoc oph).
  apply run_skip; [reflexivity|]. intros pos. apply reads_u16be, (fo_idx _ _ _ Hf).
Qed.

Lemma frag_seq_read : get_packet_fragseq m n fb = Ok (f_seq f).
Proof using Hf.
  unfold get_packet_fragseq. rewrite frag_type_read. cbn [mbind res_bind].
  destruct (fo_hdr _ _ _ Hf) as (oph & extra & E & _ & Ec). rewrite Ec. cbn [mbind res_bind].
  destruct frag_size as (_ & Hl & _). rewrite E, !length_app, !length_be in Hl.
  rewrite INVARIANT_true by (apply Z.leb_le; rewrite length_app; lia). cbn [mbind res_bind].
  unfold frag_bytes, fragment. rewrite E, <- !app_assoc, (app_assoc oph), (app_assoc (oph ++ extra)).
  apply run_skip; [rewrite !length_app, length_be; lia|]. intros pos. apply reads_u32be, (fo_seq _ _ _ Hf).
Qed.

Lemma frag_large : is_packet_with_largevalue (f_type f) = true.
Proof using Hf.
  pose proof (fo_type _ _ _ Hf) as Ht. unfold is_packet_with_clientlogicalidx, is_packet_with_largevalue in *.
  apply existsb_exists in Ht as (t & Hin & Et). apply existsb_exists. exists t. split; [|exact Et].
  unfold optype_with_clientlogicalidx_list, optype_for_udprecvlarge_ipfrag_list in *. cbn in *. tauto.
Qed.

End FragHeader.

(** Receiving into a large enough buffer. *)
Lemma recv_fits fragbuf bytes : (length bytes <= length fragbuf)%nat ->
  recv_size fragbuf bytes = Z.of_nat (length bytes) /\
  recv_into fragbuf bytes = bytes ++ drop (length bytes) fragbuf.
Proof.
  intros H. unfold recv_size, recv_into. rewrite Nat.min_l by exact H. rewrite firstn_all. auto.
Qed.

Lemma length_recv_into fragbuf bytes : length (recv_into fragbuf bytes) = length fragbuf.
Proof. unfold recv_into. rewrite length_app, length_take, length_drop. lia. Qed.

(** ** The sizes *)

Lemma seq_hdrsize m t : is_largevalue_seq t = true ->
  get_frag_hdrsize m t = PutRequestLargevalueSeq_get_frag_hdrsize m.
Proof.
  intros H. unfold get_frag_hdrsize. rewrite H.
  destruct (Z.eqb_spec t PUTREQ_LARGEVALUE) as [->|]; [discriminate|reflexivity].
Qed.

(** Fragments of one packet have headers of one size, even when the switch
    gave them different types of one class. *)
Lemma sizes_same m t t' h h' b :
  is_same_optype t t' = true -> frag_sizes m t h b -> frag_sizes m t' h' b -> h = h'.
Proof.
  intros Hs (H1 & _) (H2 & _). unfold is_same_optype in Hs.
  destruct (is_largevalue_seq t) eqn:E1, (is_largevalue_seq t') eqn:E2; cbn [andb] in Hs.
  1: { rewrite seq_hdrsize in H1, H2 by assumption. rewrite H1 in H2. inversion H2. lia. }
  all: apply Z.eqb_eq in Hs; subst t'; rewrite H1 in H2; inversion H2; lia.
Qed.

Lemma is_same_optype_sym t t' : is_same_optype t t' = is_same_optype t' t.
Proof.
  unfold is_same_optype. rewrite andb_comm. destruct (_ && _); [reflexivity|apply Z.eqb_sym].
Qed.

(** Packets in the queue can be continued. *)
Record entry_ok (m : Z) (b : nat) (e : Entry) : Prop := {
  eo_type : is_packet_with_clientlogicalidx (e_optype e) = true;
  eo_sizes : exists h, frag_sizes m (e_optype e) h b /\ (h <= length (e_bytes e))%nat;
  eo_large : is_large e = true
}.

Lemma entry_max e : is_large e = true -> 0 <= e_max e.
Proof. unfold is_large. intros H. apply Z.ltb_lt in H. lia. Qed.

Definition queue_ok (m : Z) (b : nat) (q : list Entry) : Prop :=
  forall e, e ∈ q -> 0 <= e_max e /\ (is_large e = true -> entry_ok m b e).

Lemma queue_ok_snoc m b q e : queue_ok m b q -> 0 <= e_max e -> (is_large e = true -> entry_ok m b e) -> queue_ok m b (q ++ [e]).
Proof.
  intros Hq Hm He x Hx. apply elem_of_app in Hx as [Hx|Hx]; [auto|].
  apply list_elem_of_singleton in Hx as ->. auto.
Qed.

Lemma queue_ok_tail m b q e : queue_ok m b (e :: q) -> queue_ok m b q.
Proof. intros Hq x Hx. apply Hq. now apply list_elem_of_further. Qed.

Lemma new_entry_ok m b f addr : frag_ok m b f -> entry_ok m b (new_entry b f addr).
Proof.
  intros Hf. constructor; cbn.
  - apply (fo_type _ _ _ Hf).
  - exists (length (f_hdr f)). split; [apply (fo_sizes _ _ _ Hf)|]. rewrite length_put_at. lia.
  - pose proof (fo_max _ _ _ Hf). unfold is_large. cbn. apply Z.ltb_lt. lia.
Qed.

(** ** Storing the packets of others *)

Lemma find_large_has q c : has_large q c = match find_large q c with Some _ => true | None => false end.
Proof.
  destruct (find_large q c) as [[i e]|] eqn:E.
  - apply list_find_Some in E as (Hi & [Hl Hc] & _). destruct (has_large q c) eqn:Hh; [reflexivity|].
    apply (proj1 (has_large_false q c) Hh e) in Hc; [destruct Hc|eauto using list_elem_of_lookup_2|exact Hl].
  - apply has_large_false. intros e He Hl Hc. apply list_find_None in E. rewrite Forall_forall in E.
    apply list_elem_of_In in He. destruct (E e He); auto.
Qed.

Lemma update_entry_ok m b e t k hdr off body al seq f0 e' :
  update_entry e t k hdr off body al seq f0 = Some e' -> entry_ok m b e -> entry_ok m b e'.
Proof.
  unfold update_entry. destruct (_ && _); [|discriminate]. intros E [H1 (h & H2 & H3) H4].
  inversion E; subst e'; clear E. constructor; cbn; [exact H1| |exact H4].
  exists h. split; [exact H2|]. destruct (_ || _); rewrite ?length_put_at; lia.
Qed.

Lemma queue_ok_insert m b q i e : queue_ok m b q -> entry_ok m b e -> queue_ok m b (<[i := e]> q).
Proof.
  intros Hq He x Hx. apply list_elem_of_lookup in Hx as [j Hj].
  apply list_lookup_insert_Some in Hj as [(_ & <- & _)|[_ Hj]].
  { split; [|auto]. pose proof (eo_large _ _ _ He) as Hl. apply Z.ltb_lt in Hl. lia. }
  apply Hq; eauto using list_elem_of_lookup_2.
Qed.

Section Store.

Context (m c : Z) (b : nat) (r : PktRingBuffer) (q : list Entry).
Hypothesis Hr : ring_is r q.
Hypothesis Hc : capacity r = c.
Hypothesis Hq : queue_ok m b q.

Lemma store_small_is t k bytes addr rest : small_ok m t k bytes ->
  match enqueue c q (small_entry t k bytes addr sizeof_sockaddr_in) with
  | Ok q' => exists r', store_small r t k (bytes ++ rest) (Z.of_nat (length bytes)) addr = Ok r' /\
      ring_is r' q' /\ capacity r' = c /\ queue_ok m b q'
  | Err e => store_small r t k (bytes ++ rest) (Z.of_nat (length bytes)) addr = Err e
  end.
Proof using Hr Hc Hq.
  intros (_ & Hl & _). unfold store_small, enqueue. rewrite (load_at_app [] bytes rest 0) by reflexivity.
  cbn [mbind res_bind].
  pose proof (push_is r q t k bytes addr sizeof_sockaddr_in Hr) as Hp. rewrite Hc in Hp.
  destruct (Z.of_nat (S (length q)) =? c).
  - rewrite Hp; [reflexivity|]. change (Z.to_nat _) with 1476%nat in Hl. unfold MAX_LARGE_BUFSIZE. lia.
  - destruct Hp as (r' & E & Hc' & Hr'). { change (Z.to_nat _) with 1476%nat in Hl. unfold MAX_LARGE_BUFSIZE. lia. }
    rewrite E. exists r'. split; [reflexivity|]. split; [exact Hr'|]. split; [congruence|].
    apply queue_ok_snoc; [exact Hq|reflexivity|discriminate].
Qed.

Lemma store_large_is f addr rest : frag_ok m b f ->
  let run := store_large m IP_FRAGMENT_MAXSIZE r (f_type f) (f_key f) (f_idx f) (f_seq f)
               (frag_bytes f ++ rest) (Z.of_nat (length (frag_bytes f))) addr in
  match store_frag c b q f addr with
  | Ok q' => exists r', run = Ok r' /\ ring_is r' q' /\ capacity r' = c /\ queue_ok m b q'
  | Err e => run = Err e
  end.
Proof using Hr Hc Hq.
  intros Hf run. pose proof (fo_sizes _ _ _ Hf) as (Eh & Et & Hb & _). pose proof (fo_fits _ _ _ Hf) as Hfit.
  destruct (frag_size _ _ _ Hf) as (_ & Hn & Hn' & Hmax).
  pose proof (fo_no _ _ _ Hf) as Hno. pose proof (fo_max _ _ _ Hf) as Hmx.
  set (h := length (f_hdr f)) in *. assert (MAX_LARGE_BUFSIZE < 2 ^ 32) by reflexivity.
  assert (Hoff : Z.of_nat (frag_off b f) + Z.of_nat (length (f_body f)) <= MAX_LARGE_BUFSIZE)
    by (unfold frag_off; fold h; lia).
  assert (Hrun : run =
    if has_large q (f_idx f) then
      update_large r (f_type f) (f_key f) (f_hdr f) (Z.of_nat (frag_off b f)) (f_body f) sizeof_sockaddr_in
        (f_idx f) (f_seq f) (f_no f =? 0)%nat
    else '(stat, r) ← push_large r (f_type f) (f_key f) (f_hdr f) (Z.of_nat (frag_off b f)) (f_body f) 1
             (Z.of_nat (f_max f)) addr sizeof_sockaddr_in (f_idx f) (f_seq f);
         if (stat : bool) then Ok r else Err ExitCalled).
  { unfold run, store_large. rewrite Et, Eh. cbn [mbind res_bind].
    rewrite (u32_id (Z.of_nat h + 2 + 2)), (u32_id (Z.of_nat (h + 4 + b))) by (unfold is_u32; lia).
    replace (u32 (Z.of_nat (h + 4 + b) - (Z.of_nat h + 2 + 2))) with (Z.of_nat b)
      by (rewrite u32_id; unfold is_u32; lia).
    assert (Ht : forall x y, x = true -> y = true -> INVARIANT (x && y) = Ok tt) by now intros ? ? -> ->.
    rewrite !Ht by (first [apply Z.leb_le; lia|apply negb_true_iff, Z.eqb_neq; lia]). cbn [mbind res_bind].
    unfold frag_bytes. rewrite part_max by (unfold is_u16; lia). cbn [mbind res_bind].
    rewrite part_no by exact Hno. cbn [mbind res_bind]. rewrite part_hdr. cbn [mbind res_bind].
    rewrite part_body by reflexivity. cbn [mbind res_bind]. rewrite (exist_is r q _ Hr). cbn [mbind res_bind].
    rewrite u32_id by (unfold is_u32; nia).
    replace (Z.of_nat h + Z.of_nat (f_no f) * Z.of_nat b) with (Z.of_nat (frag_off b f))
      by (unfold frag_off; fold h; nia).
    replace (Z.of_nat (f_no f) =? 0) with (f_no f =? 0)%nat
      by (destruct (Nat.eqb_spec (f_no f) 0), (Z.eqb_spec (Z.of_nat (f_no f)) 0); lia || reflexivity).
    reflexivity. }
  rewrite Hrun, find_large_has. unfold store_frag. destruct (find_large q (f_idx f)) as [[i e]|] eqn:Ef.
  - pose proof Ef as Hi. apply list_find_Some in Hi as (Hi & [Hlg Hx] & _).
    pose proof (update_large_is r q i e (f_type f) (f_key f) (f_hdr f) (Z.of_nat (frag_off b f)) (f_body f)
      sizeof_sockaddr_in (f_seq f) (f_no f =? 0)%nat Hr Hi Hlg) as Hu. rewrite Nat2Z.id, Hx in Hu.
    destruct (update_entry _ _ _ _ _ _ _ _ _) as [e'|] eqn:Eu.
    + destruct Hu as (r' & E & Hc' & Hr'); [lia..|].
      exists r'. split; [exact E|]. split; [exact Hr'|]. split; [congruence|].
      apply queue_ok_insert; [exact Hq|]. eapply update_entry_ok; [exact Eu|].
      apply Hq; eauto using list_elem_of_lookup_2.
    + apply Hu; lia.
  - pose proof (push_large_is r q (new_entry b f addr) (f_hdr f) (Z.of_nat (frag_off b f)) (f_body f) Hr) as Hp.
    pose proof (new_entry_ok m b f addr Hf) as He. unfold enqueue. rewrite Hc in Hp.
    cbn [e_optype e_key e_cur e_max e_addr e_addrlen e_idx e_fragseq e_bytes new_entry] in Hp.
    rewrite Nat2Z.id in Hp. assert (Hnew : has_large q (f_idx f) = false) by now rewrite find_large_has, Ef.
    rewrite has_large_false in Hnew.
    destruct (Z.of_nat (S (length q)) =? c).
    + rewrite Hp; try reflexivity; try lia; [apply He|exact Hnew].
    + destruct Hp as (r' & E & Hc' & Hr'); try reflexivity; try lia;
        [apply He|exact Hnew|].
      rewrite E. exists r'. split; [reflexivity|]. split; [exact Hr'|]. split; [congruence|].
      apply queue_ok_snoc; auto. apply entry_max, He.
Qed.

End Store.

(** ** Collecting the rest of a packet *)

Section Collect.

Context (m c : Z) (b : nat).

(** The variables of the call while it collects [e], with [q] in the ring. *)
Record collects (s : Recv) (e : Entry) (q : list Entry) : Prop := {
  co_ring : exists r, rv_ring s = Some r /\ ring_is r q /\ capacity r = c;
  co_queue : queue_ok m b q;
  co_buf : plain (rv_buf s) MAX_LARGE_BUFSIZE (e_bytes e);
  co_fragbuf : length (rv_fragbuf s) = 1476%nat;
  co_src : rv_src s = Some (e_addr e);
  co_sizes : exists h, frag_hdrsize s = Z.of_nat h /\ frag_bodysize s = Z.of_nat b /\
    frag_sizes m (e_optype e) h b /\ (h <= length (e_bytes e))%nat;
  co_type : is_packet_with_clientlogicalidx (e_optype e) = true;
  co_large : is_large e = true;
  co_nums : max_fragnum s = e_max e /\ cur_fragnum s = e_cur e;
  co_pkt : largepkt_optype s = e_optype e /\ largepkt_key s = e_key e /\
    largepkt_clientlogicalidx s = e_idx e /\ largepkt_fragseq s = e_fragseq e /\
    largepkt_clientaddr s = e_addr e /\ largepkt_clientaddrlen s = e_addrlen e
}.

Lemma collects_entry s e q : collects s e q -> entry_ok m b e.
Proof using.
  intros H. constructor; [apply (co_type _ _ _ H)| |apply (co_large _ _ _ H)].
  destruct (co_sizes _ _ _ H) as (h & _ & _ & Hs & Hl). eauto.
Qed.

(** A datagram replaces what the buffer held. *)
Lemma collects_recv s e q bytes : collects s e q ->
  collects (set_fragbuf (recv_into (rv_fragbuf s) bytes) s) e q.
Proof using.
  intros []. constructor; try assumption. cbn. now rewrite length_recv_into.
Qed.

Lemma collects_ring s e q q' r : collects s e q -> ring_is r q' -> capacity r = c -> queue_ok m b q' ->
  collects (set_ring r s) e q'.
Proof using.
  intros [] Hr Hc Hq. constructor; try assumption. exists r. auto.
Qed.

Lemma collects_restart s e q seq : collects s e q -> e_fragseq e < seq ->
  collects (set_nums 0 (max_fragnum s)
              (set_largepkt (largepkt_optype s) (largepkt_key s) (largepkt_clientlogicalidx s) seq
                 (largepkt_clientaddr s) (largepkt_clientaddrlen s) s)) (restart e seq) q.
Proof using.
  intros [H1 H2 H3 H4 H5 H6 H7 H8 [H9 H10] (H11 & H12 & H13 & H14 & H15 & H16)] Hlt.
  unfold restart. rewrite (proj2 (Z.ltb_lt _ _) Hlt).
  constructor; cbn; try assumption; [split; [assumption|reflexivity]|].
  split; [|split; [|split; [|split; [|split]]]]; auto.
Qed.

(** A fragment of the packet. *)
Lemma take_fragment_is s e q f rest :
  collects s e q -> frag_ok m b f -> is_same_optype (f_type f) (e_optype e) = true ->
  rv_fragbuf s = frag_bytes f ++ rest ->
  if Z.of_nat (f_no f) <? e_max e
  then exists s', take_fragment IP_FRAGTYPE s (Z.of_nat (length (frag_bytes f))) = Ok s' /\
       collects s' (add_part b e f) q
  else take_fragment IP_FRAGTYPE s (Z.of_nat (length (frag_bytes f))) = Err InvariantFailed.
Proof using.
  intros H Hf Ht Hfb. destruct (co_sizes _ _ _ H) as (h & Eh & Eb & Hs & Hl).
  assert (h = length (f_hdr f)) as -> by (symmetry; eapply sizes_same; eauto using fo_sizes).
  destruct (co_nums _ _ _ H) as [Em Ec]. pose proof (fo_fits _ _ _ Hf) as Hfit.
  unfold take_fragment, final_frag_hdrsize. rewrite Hfb, Eh, Eb, Em, Ec. unfold frag_bytes.
  rewrite part_no by apply (fo_no _ _ _ Hf). cbn [mbind res_bind].
  destruct (Z.of_nat (f_no f) <? e_max e); [|reflexivity]. cbn [INVARIANT mbind res_bind].
  rewrite part_body by reflexivity. cbn [mbind res_bind].
  assert (Eo : s32 (u64 (Z.of_nat (length (f_hdr f)) + Z.of_nat (f_no f) * Z.of_nat b)) = Z.of_nat (frag_off b f)).
  { unfold frag_off. assert (MAX_LARGE_BUFSIZE < 2 ^ 31) by reflexivity. assert (2 ^ 31 < 2 ^ 64) by reflexivity.
    rewrite <- Nat2Z.inj_mul, <- Nat2Z.inj_add. unfold u64. rewrite Z.mod_small by lia.
    apply s32_id. unfold is_s32. lia. }
  rewrite Eo.
  destruct (plain_memcpy (rv_buf s) _ (e_bytes e) (Z.of_nat (frag_off b f)) (f_body f) (co_buf _ _ _ H))
    as (d1 & E1 & P1 & _); [lia|unfold frag_off; lia|]. rewrite E1. cbn [mbind res_bind].
  rewrite Nat2Z.id in P1. rewrite part_hdr. cbn [mbind res_bind Z.eqb IP_FRAGTYPE Pos.eqb andb].
  assert (Hd : exists d2, (if Z.of_nat (f_no f) =? 0 then dynamic_memcpy d1 0 (f_hdr f) else Ok d1) = Ok d2 /\
    plain d2 MAX_LARGE_BUFSIZE (e_bytes (add_part b e f))).
  { unfold add_part. cbn [e_bytes].
    destruct (Z.eqb_spec (Z.of_nat (f_no f)) 0), (Nat.eqb_spec (f_no f) 0); try lia; [|eauto].
    destruct (plain_memcpy d1 _ _ 0 (f_hdr f) P1) as (d2 & E2 & P2 & _); [lia|lia|]. eauto. }
  destruct Hd as (d2 & E2 & P2). rewrite E2. cbn [mbind res_bind].
  eexists. split; [reflexivity|]. destruct H. constructor; try assumption.
  - exists (length (f_hdr f)). split; [exact Eh|]. split; [exact Eb|]. split; [exact Hs|].
    unfold add_part. cbn [e_bytes]. destruct (f_no f =? 0)%nat; rewrite ?length_put_at; lia.
  - now split.
Qed.

Lemma later_small s e q t k bytes addr rest :
  collects s e q -> small_ok m t k bytes -> rv_fragbuf s = bytes ++ rest ->
  let run := later_packet m IP_FRAGMENT_MAXSIZE IP_FRAGTYPE s (Z.of_nat (length bytes)) addr in
  match enqueue c q (small_entry t k bytes addr sizeof_sockaddr_in) with
  | Ok q' => exists s', run = Ok (false, s') /\ collects s' e q'
  | Err x => run = Err x
  end.
Proof using.
  intros H Hok Hfb run. destruct (co_ring _ _ _ H) as (r & Er & Hr & Hc).
  pose proof Hok as (Hl & Hlen & oph & tl & E & Ho). pose proof (length_ophdr _ _ _ _ Ho) as Hol.
  change (Z.to_nat _) with 1476%nat in Hlen. assert (length oph <= length bytes)%nat by (rewrite E, length_app; lia).
  assert (Hb : bytes ++ rest = oph ++ tl ++ rest) by (rewrite E; now rewrite <- app_assoc).
  assert (Rk : run_reader (get_packet_key m (Z.of_nat (length bytes))) (bytes ++ rest) = Ok k)
    by (rewrite Hb; apply (ophdr_key m t k); [exact Ho|lia]).
  assert (Rt : run_reader (get_packet_type (Z.of_nat (length bytes))) (bytes ++ rest) = Ok t)
    by (rewrite Hb; apply (ophdr_type m t k); [exact Ho|lia]).
  assert (Hrun : run = r ← store_small r t k (bytes ++ rest) (Z.of_nat (length bytes)) addr;
                       Ok (false, set_ring r s)).
  { unfold run, later_packet. rewrite Er, Hfb. cbn [Z.eqb IP_FRAGTYPE Pos.eqb].
    rewrite Rk. cbn [mbind res_bind]. rewrite Rt. cbn [mbind res_bind]. now rewrite Hl. }
  rewrite Hrun. pose proof (store_small_is m c b r q Hr Hc (co_queue _ _ _ H) t k bytes addr rest Hok) as Hst.
  destruct (enqueue _ _ _) as [q'|x].
  - destruct Hst as (r' & E' & Hr' & Hc' & Hq'). rewrite E'. eexists. split; [reflexivity|].
    now apply (collects_ring s e q).
  - now rewrite Hst.
Qed.

Lemma later_frag s e q f addr rest :
  collects s e q -> frag_ok m b f -> rv_fragbuf s = frag_bytes f ++ rest ->
  let run := later_packet m IP_FRAGMENT_MAXSIZE IP_FRAGTYPE s (Z.of_nat (length (frag_bytes f))) addr in
  if negb (f_idx f =? e_idx e) then
    match store_frag c b q f addr with
    | Ok q' => exists s', run = Ok (false, s') /\ collects s' e q'
    | Err x => run = Err x
    end
  else if negb (matches e f) then run = Ok (false, s)
  else exists s', run = Ok (true, s') /\ collects s' (restart e (f_seq f)) q /\ rv_fragbuf s' = rv_fragbuf s.
Proof using.
  intros H Hf Hfb run. destruct (co_ring _ _ _ H) as (r & Er & Hr & Hc).
  destruct (co_pkt _ _ _ H) as (P1 & P2 & P3 & P4 & _).
  unfold run, later_packet. rewrite Er, Hfb. cbn [Z.eqb IP_FRAGTYPE Pos.eqb].
  rewrite (frag_key_read m b) by exact Hf. cbn [mbind res_bind].
  rewrite (frag_type_read m b) by exact Hf. cbn [mbind res_bind].
  rewrite (frag_large m b f Hf), (fo_type _ _ _ Hf). cbn [negb].
  rewrite (frag_idx_read m b) by exact Hf. cbn [mbind res_bind].
  rewrite (frag_seq_read m b) by exact Hf. cbn [mbind res_bind]. rewrite P1, P2, P3, P4.
  destruct (f_idx f =? e_idx e); cbn [negb].
  - unfold matches. rewrite bool_decide_not.
    destruct (bool_decide (f_key f = e_key e)); [|reflexivity]. cbn [negb orb andb].
    destruct (is_same_optype (f_type f) (e_optype e)); [|reflexivity]. cbn [negb orb andb].
    destruct (Z.ltb_spec (f_seq f) (e_fragseq e)) as [Hlt|Hge].
    + now rewrite (proj2 (Z.leb_gt _ _) Hlt).
    + rewrite (proj2 (Z.leb_le _ _) Hge). cbn [negb].
      destruct (Z.ltb_spec (e_fragseq e) (f_seq f)) as [Hlt|Hge'].
      * eexists. split; [reflexivity|]. split; [|exact Hfb].
        rewrite <- P1, <- P2, <- P3. now apply collects_restart.
      * exists s. split; [reflexivity|]. split; [|exact Hfb].
        unfold restart. now rewrite (proj2 (Z.ltb_ge _ _) Hge').
  - pose proof (store_large_is m c b r q Hr Hc (co_queue _ _ _ H) f addr rest Hf) as Hst. cbn in Hst.
    destruct (store_frag _ _ _ _ _) as [q'|x].
    + destruct Hst as (r' & E' & Hr' & Hc' & Hq'). rewrite E'. eexists. split; [reflexivity|].
      now apply (collects_ring s e q).
    + now rewrite Hst.
Qed.

(** The loop, once a packet is being collected. *)
Lemma recv_loop_is pkts : forall s e q,
  collects s e q -> Forall (pkt_ok m b) pkts ->
  let run := recv_loop m IP_FRAGMENT_MAXSIZE IP_FRAGTYPE (map pkt_event pkts) false s in
  match spec_loop c b pkts e q with
  | Ok (is_timeout, e', q', pkts') => exists s', run = Ok (is_timeout, false, s', map pkt_event pkts') /\
      collects s' e' q'
  | Err x => run = Err x
  end.
Proof using.
  induction pkts as [|p pkts IH]; intros s e q H Hp; [reflexivity|].
  apply Forall_cons_1 in Hp as [Hp Hps]. destruct p as [t k bytes addr|f addr|]; cbn [map pkt_event recv_loop spec_loop].
  - pose proof Hp as (_ & Hlen & _). change (Z.to_nat _) with 1476%nat in Hlen.
    destruct (recv_fits (rv_fragbuf s) bytes) as [En Ei]; [now rewrite (co_fragbuf _ _ _ H)|].
    pose proof (collects_recv s e q bytes H) as H'. rewrite En.
    pose proof (later_small _ e q t k bytes addr _ H' Hp Ei) as Hl. cbn zeta in Hl.
    destruct (enqueue _ _ _) as [q'|x]; cbn [mbind res_bind].
    + destruct Hl as (s' & E & H''). rewrite E. cbn [mbind res_bind negb orb INVARIANT]. now apply IH.
    + now rewrite Hl.
  - destruct (frag_size _ _ _ Hp) as (_ & _ & Hlen & Hmax). fold (frag_bytes f).
    destruct (recv_fits (rv_fragbuf s) (frag_bytes f)) as [En Ei]; [rewrite (co_fragbuf _ _ _ H); lia|].
    pose proof (collects_recv s e q (frag_bytes f) H) as H'. rewrite En.
    pose proof (later_frag _ e q f addr _ H' Hp Ei) as Hl. cbn zeta in Hl.
    destruct (f_idx f =? e_idx e); cbn [negb] in *.
    + destruct (matches e f) eqn:Em; cbn [negb] in *.
      2:{ rewrite Hl. cbn [mbind res_bind negb orb INVARIANT]. now apply IH. }
      destruct Hl as (s' & E & H'' & Efb). rewrite E. cbn [mbind res_bind negb orb].
      assert (Et : is_same_optype (f_type f) (e_optype (restart e (f_seq f))) = true).
      { unfold restart. unfold matches in Em. destruct (e_fragseq e <? f_seq f); cbn; now destruct (is_same_optype _ _), (bool_decide _). }
      assert (Emx : e_max (restart e (f_seq f)) = e_max e) by (unfold restart; now destruct (_ <? _)).
      destruct (co_sizes _ _ _ H'') as (h & Eh & _ & Hs & _).
      assert (h = length (f_hdr f)) as -> by (symmetry; eapply sizes_same; eauto using fo_sizes).
      rewrite INVARIANT_true.
      2:{ apply Z.leb_le. unfold final_frag_hdrsize. rewrite Eh. unfold frag_bytes. rewrite length_fragment. lia. }
      cbn [mbind res_bind]. pose proof (eq_trans Efb Ei) as Ei'.
      pose proof (take_fragment_is s' (restart e (f_seq f)) q f _ H'' Hp Et Ei') as Htk. rewrite Emx in Htk.
      destruct (Z.of_nat (f_no f) <? e_max e); cbn [negb]; [|now rewrite Htk].
      destruct Htk as (s2 & E2 & H2). rewrite E2. cbn [mbind res_bind]. fold (head_frag b e f) in H2.
      destruct (co_nums _ _ _ H2) as [-> ->]. fold (complete (head_frag b e f)).
      destruct (complete (head_frag b e f)); [eauto|now apply IH].
    + destruct (store_frag _ _ _ _ _) as [q'|x]; cbn [mbind res_bind].
      * destruct Hl as (s' & E & H''). rewrite E. cbn [mbind res_bind negb orb INVARIANT]. now apply IH.
      * now rewrite Hl.
  - eauto.
Qed.

End Collect.

(** ** The whole call *)

(** What a call returns stands for the result on queues: the array holds the
    bytes of the packet, or is empty after a timeout. *)
Definition result_is (m c : Z) (b : nat) (pkt : option (list Z * sockaddr_in)) (q : list Entry)
    (pkts : list Pkt) (x : Received) : Prop :=
  rc_rest x = map pkt_event pkts /\
  (exists r, rc_ring x = Some r /\ ring_is r q /\ capacity r = c) /\ queue_ok m b q /\
  match pkt with
  | Some (bytes, addr) => rc_timeout x = false /\ rc_src x = Some addr /\
      plain (rc_buf x) MAX_LARGE_BUFSIZE bytes
  | None => rc_timeout x = true /\ plain (rc_buf x) MAX_LARGE_BUFSIZE []
  end.

Lemma plain_load d max bs off n : plain d max bs -> (off + n <= length bs)%nat ->
  load_at (da_mem d) (Z.of_nat off) (Z.of_nat n) = Ok (take n (drop off bs)).
Proof.
  intros P Hl. pose proof (holds_size _ _ _ (pl_holds _ _ _ P)) as Hs. destruct P as [[W _ C] _].
  pose proof (da_wf_len d W) as Hm. assert (Hc : _cursize d <= _curcapability d) by apply W.
  unfold load_at. rewrite !(proj2 (Z.leb_le _ _)) by lia. cbn [andb]. f_equal.
  rewrite !Nat2Z.id, <- C. unfold contents. rewrite Hs, Nat2Z.id.
  rewrite !take_drop_commute, take_take. now rewrite Nat.min_l by lia.
Qed.

Lemma put_at_split bs h : (h <= length bs)%nat -> put_at (take h bs) h (drop h bs) = bs.
Proof.
  intros Hh. unfold put_at. rewrite length_take, Nat.min_l, Nat.sub_diag, app_nil_r by lia.
  rewrite take_take, Nat.min_id, (drop_ge (take _ _)) by (rewrite length_take; lia).
  now rewrite app_nil_r, take_drop.
Qed.

Section Call.

Context (m c : Z) (b : nat).

(** [after_loop] and the return of the call. *)
Lemma finish_is is_timeout s e q pkts :
  collects m c b s e q ->
  let run := s' ← after_loop IP_FRAGTYPE is_timeout false s;
             Ok (mkReceived is_timeout (rv_buf s') (rv_src s') (rv_ring s') (map pkt_event pkts)) in
  match spec_finish c (is_timeout, e, q, pkts) with
  | Ok (pkt, q', pkts') => exists x, run = Ok x /\ result_is m c b pkt q' pkts' x
  | Err x => run = Err x
  end.
Proof using.
  intros H run. destruct (co_ring _ _ _ _ _ _ H) as (r & Er & Hr & Hc).
  unfold run, after_loop, spec_finish. destruct is_timeout; cbn [mbind res_bind].
  2:{ eexists. split; [reflexivity|]. split; [reflexivity|]. split; [exists r; auto|].
      split; [apply (co_queue _ _ _ _ _ _ H)|]. cbn. destruct H. auto. }
  rewrite Er. cbn [Z.eqb IP_FRAGTYPE Pos.eqb negb andb].
  destruct (co_nums _ _ _ _ _ _ H) as [Em Ec]. destruct (co_pkt _ _ _ _ _ _ H) as (-> & -> & -> & -> & -> & ->).
  rewrite Em, Ec, (exist_is r q _ Hr). cbn [mbind res_bind].
  destruct (has_large q (e_idx e)) eqn:Hnew; [reflexivity|]. cbn [negb INVARIANT mbind res_bind].
  destruct (1 <=? e_cur e); [|reflexivity]. cbn [negb INVARIANT mbind res_bind].
  destruct (co_sizes _ _ _ _ _ _ H) as (h & Eh & _ & Hs & Hl). rewrite Eh.
  pose proof (co_buf _ _ _ _ _ _ H) as P. pose proof (holds_size _ _ _ (pl_holds _ _ _ P)) as Hsz.
  assert (Hcap : Z.of_nat (length (e_bytes e)) <= MAX_LARGE_BUFSIZE).
  { destruct P as [[(_ & ? & _ & ? & _) ? _] _]. lia. }
  pose proof (plain_load _ _ _ 0 h P ltac:(lia)) as El. rewrite drop_0 in El. change (Z.of_nat 0) with 0 in El.
  rewrite El. cbn [mbind res_bind].
  unfold da_size. rewrite Hsz, <- Nat2Z.inj_sub, (plain_load _ _ _ h _ P) by lia. cbn [mbind res_bind].
  rewrite (take_ge (drop h _)) by (rewrite length_drop; lia).
  pose proof (push_large_is r q e (take h (e_bytes e)) (Z.of_nat h) (drop h (e_bytes e)) Hr (co_large _ _ _ _ _ _ H)) as Hp.
  rewrite Nat2Z.id, put_at_split, Hc in Hp by exact Hl. rewrite has_large_false in Hnew. unfold enqueue.
  destruct (Z.of_nat (S (length q)) =? c); cbn [mbind res_bind].
  - rewrite Hp; [reflexivity|exact Hnew|lia|rewrite length_drop; lia|rewrite length_take; lia|reflexivity].
  - destruct Hp as (r' & E & Hc' & Hr'); [exact Hnew|lia|rewrite length_drop; lia|rewrite length_take; lia|reflexivity|].
    rewrite E. cbn [mbind res_bind].
    destruct (plain_clear (rv_buf s)) as (d & Ed & Pd & _). { apply P. }
    cbn [rv_buf set_ring]. rewrite Ed. cbn [mbind res_bind]. eexists. split; [reflexivity|].
    split; [reflexivity|]. split; [exists r'; split; [reflexivity|]; split; [exact Hr'|congruence]|].
    split; [apply queue_ok_snoc; [apply (co_queue _ _ _ _ _ _ H)|apply entry_max, (co_large _ _ _ _ _ _ H)|eauto using collects_entry]|].
    split; [reflexivity|]. destruct P as [[_ M _] _]. now rewrite M in Pd.
Qed.

(** A fragment is added to its own header. *)
Lemma put_at_header hdr off body : (length hdr <= off)%nat ->
  put_at (put_at hdr off body) 0 hdr = put_at hdr off body.
Proof using.
  intros Ho. apply (nth_ext _ _ 0 0); [rewrite !length_put_at; lia|]. intros i _.
  rewrite !nth_put_at. destruct (Nat.leb_spec 0 i), (Nat.ltb_spec i (0 + length hdr)); cbn [andb]; try lia.
  destruct (Nat.leb_spec off i); [lia|]. cbn [andb]. f_equal. lia.
Qed.

(** The first packet of an empty queue. *)
Section First.

Context (s : Recv) (f : Frag) (addr : sockaddr_in) (rest : list Z).
Hypothesis Hf : frag_ok m b f.
Hypothesis Hfb : rv_fragbuf s = frag_bytes f ++ rest.
Hypothesis Hlen : length (rv_fragbuf s) = 1476%nat.
Hypothesis P : plain (rv_buf s) MAX_LARGE_BUFSIZE [].
Hypothesis Hcur : cur_fragnum s = 0.
Hypothesis Htot : frag_totalsize s = IP_FRAGMENT_MAXSIZE.
Hypothesis Hring : exists r, rv_ring s = Some r /\ ring_is r [] /\ capacity r = c.

Abbreviation n := (Z.of_nat (length (frag_bytes f))).
(** The entry between [first_packet] and [take_fragment]. *)
Definition header_entry : Entry :=
  mkEntry (f_type f) (f_key f) (f_hdr f) 0 (Z.of_nat (f_max f)) addr sizeof_sockaddr_in (f_idx f) (f_seq f).

Lemma first_packet_is : exists s1,
  first_packet m IP_FRAGMENT_MAXSIZE IP_FRAGTYPE s n addr = Ok (true, s1) /\
  collects m c b s1 header_entry [] /\ rv_fragbuf s1 = rv_fragbuf s.
Proof using Hf Hfb Hlen P Hcur Htot Hring.
  destruct Hring as (r & Er & Hr & Hc).
  destruct (fo_sizes _ _ _ Hf) as (Eh & Et & Hb & Hl). destruct (frag_size _ _ _ Hf) as (_ & Hn & Hn' & Hmax).
  pose proof (fo_fits _ _ _ Hf) as Hfit. set (h := length (f_hdr f)) in *.
  destruct (plain_memcpy (rv_buf s) _ [] 0 (f_hdr f) P) as (d & Ed & Pd & _); [lia|fold h; lia|].
  change (Z.to_nat 0) with 0%nat in Pd. rewrite put_at_0 in Pd.
  unfold first_packet, judge_first, save_largepkt. cbn [rv_fragbuf rv_ring rv_buf set_src frag_totalsize]. rewrite Hfb, Er.
  cbn [Z.eqb IP_FRAGTYPE Pos.eqb]. rewrite (frag_type_read m b) by exact Hf. cbn [mbind res_bind].
  rewrite (frag_large m b f Hf), Eh. cbn [mbind res_bind negb].
  rewrite (frag_key_read m b) by exact Hf. cbn [mbind res_bind]. rewrite Et. cbn [mbind res_bind].
  rewrite (frag_idx_read m b) by exact Hf. cbn [mbind res_bind].
  rewrite (frag_seq_read m b) by exact Hf. cbn [mbind res_bind].
  unfold final_frag_hdrsize. cbn [frag_hdrsize frag_totalsize rv_fragbuf rv_buf cur_fragnum set_sizes set_largepkt set_src].
  replace (u64 (Z.of_nat (h + 4 + b) - (Z.of_nat h + 2 + 2))) with (Z.of_nat b)
    by (unfold u64; rewrite Z.mod_small; lia).
  assert (Ht : forall x y, x = true -> y = true -> INVARIANT (x && y) = Ok tt) by now intros ? ? -> ->.
  rewrite !Ht by (first [apply Z.leb_le; lia|apply negb_true_iff, Z.eqb_neq; lia]). cbn [mbind res_bind].
  rewrite Hfb. unfold frag_bytes. rewrite part_hdr. cbn [mbind res_bind]. rewrite Ed. cbn [mbind res_bind].
  rewrite part_max by (pose proof (fo_max _ _ _ Hf); unfold is_u16; lia). cbn [mbind res_bind].
  eexists. split; [reflexivity|]. split; [|exact Hfb]. constructor; cbn; auto 10.
  - intros x Hx. now apply not_elem_of_nil in Hx.
  - exists h. split; [reflexivity|]. split; [reflexivity|]. split; [apply (fo_sizes _ _ _ Hf)|]. reflexivity.
  - apply (fo_type _ _ _ Hf).
  - pose proof (fo_max _ _ _ Hf). unfold is_large. apply Z.ltb_lt. cbn. lia.
Qed.

Lemma first_frag_is : exists s1,
  first_packet m IP_FRAGMENT_MAXSIZE IP_FRAGTYPE s n addr = Ok (true, s1) /\
  if Z.of_nat (f_no f) <? Z.of_nat (f_max f)
  then exists s', take_fragment IP_FRAGTYPE s1 n = Ok s' /\ collects m c b s' (new_entry b f addr) []
  else take_fragment IP_FRAGTYPE s1 n = Err InvariantFailed.
Proof using Hf Hfb Hlen P Hcur Htot Hring.
  destruct first_packet_is as (s1 & E1 & H1 & Efb). exists s1. split; [exact E1|].
  assert (Hsame : is_same_optype (f_type f) (e_optype header_entry) = true).
  { unfold is_same_optype. cbn. destruct (is_largevalue_seq (f_type f)); [reflexivity|apply Z.eqb_refl]. }
  pose proof (take_fragment_is m c b s1 header_entry [] f rest H1 Hf Hsame (eq_trans Efb Hfb)) as Htk.
  cbn [e_max header_entry] in Htk.
  destruct (Z.of_nat (f_no f) <? Z.of_nat (f_max f)); [|exact Htk].
  destruct Htk as (s2 & E2 & H2). exists s2. split; [exact E2|].
  replace (new_entry b f addr) with (add_part b header_entry f); [exact H2|].
  unfold add_part, new_entry. cbn. f_equal. destruct (f_no f =? 0)%nat; [|reflexivity].
  apply put_at_header. unfold frag_off. lia.
Qed.

End First.

Lemma first_small_is s t k bytes addr rest :
  small_ok m t k bytes -> rv_fragbuf s = bytes ++ rest -> plain (rv_buf s) MAX_LARGE_BUFSIZE [] ->
  exists s', first_packet m IP_FRAGMENT_MAXSIZE IP_FRAGTYPE s (Z.of_nat (length bytes)) addr = Ok (false, s') /\
    rv_ring s' = rv_ring s /\ rv_src s' = Some addr /\ plain (rv_buf s') MAX_LARGE_BUFSIZE bytes.
Proof using.
  intros Hok Hfb P. pose proof Hok as (Hl & Hlen & oph & tl & E & Ho). pose proof (length_ophdr _ _ _ _ Ho) as Hol.
  change (Z.to_nat _) with 1476%nat in Hlen. assert (length oph <= length bytes)%nat by (rewrite E, length_app; lia).
  unfold first_packet, judge_first. cbn [rv_fragbuf rv_buf set_src Z.eqb IP_FRAGTYPE Pos.eqb]. rewrite Hfb.
  assert (Rt : run_reader (get_packet_type (Z.of_nat (length bytes))) (bytes ++ rest) = Ok t)
    by (rewrite E at 2; rewrite <- app_assoc; apply (ophdr_type m t k); [exact Ho|lia]).
  rewrite Rt. cbn [mbind res_bind]. rewrite Hl. cbn [mbind res_bind negb].
  rewrite (load_at_app [] bytes rest 0) by reflexivity. cbn [mbind res_bind].
  destruct (plain_memcpy (rv_buf s) _ [] 0 bytes P) as (d & Ed & Pd & _); [lia|unfold MAX_LARGE_BUFSIZE; lia|].
  change (Z.to_nat 0) with 0%nat in Pd. rewrite put_at_0 in Pd. rewrite Ed.
  eexists. split; [reflexivity|]. auto.
Qed.

(** Collecting the rest of a packet and returning. *)
Lemma collect_is pkts s e q :
  collects m c b s e q -> Forall (pkt_ok m b) pkts ->
  let run := '(is_timeout, is_first, s, rest) ← recv_loop m IP_FRAGMENT_MAXSIZE IP_FRAGTYPE (map pkt_event pkts) false s;
             s ← after_loop IP_FRAGTYPE is_timeout is_first s;
             Ok (mkReceived is_timeout (rv_buf s) (rv_src s) (rv_ring s) rest) in
  match (r ← spec_loop c b pkts e q; spec_finish c r) with
  | Ok (pkt, q', pkts') => exists x, run = Ok x /\ result_is m c b pkt q' pkts' x
  | Err e => run = Err e
  end.
Proof using.
  intros H Hps run. unfold run. pose proof (recv_loop_is m c b pkts s e q H Hps) as Hlp. cbn zeta in Hlp.
  destruct (spec_loop _ _ _ _ _) as [[[[ito e'] q'] pkts']|x]; cbn [mbind res_bind].
  - destruct Hlp as (s' & E & H'). rewrite E. cbn [mbind res_bind]. apply (finish_is ito s' e' q' pkts' H').
  - now rewrite Hlp.
Qed.

(** The call when the ring is empty. *)
Lemma recv_empty_is stale r buf pkts :
  ring_is r [] -> capacity r = c -> plain buf MAX_LARGE_BUFSIZE [] -> Forall (pkt_ok m b) pkts ->
  let s := set_ring r (set_buf buf (recv_start IP_FRAGMENT_MAXSIZE IP_FRAGTYPE stale (Some r) buf)) in
  let run := '(is_timeout, is_first, s, rest) ← recv_loop m IP_FRAGMENT_MAXSIZE IP_FRAGTYPE (map pkt_event pkts) true s;
             s ← after_loop IP_FRAGTYPE is_timeout is_first s;
             Ok (mkReceived is_timeout (rv_buf s) (rv_src s) (rv_ring s) rest) in
  match spec_recv c b [] pkts with
  | Ok (pkt, q', pkts') => exists x, run = Ok x /\ result_is m c b pkt q' pkts' x
  | Err e => run = Err e
  end.
Proof using.
  intros Hr Hc P Hp s run.
  assert (Hnil : queue_ok m b []) by (intros x Hx; now apply not_elem_of_nil in Hx).
  assert (Hlen : length (rv_fragbuf s) = 1476%nat).
  { unfold s, recv_start. cbn [rv_fragbuf set_ring set_buf Z.eqb IP_FRAGTYPE Pos.eqb].
    change (Z.to_nat (IP_FRAGMENT_MAXSIZE + IP_FRAGMENT_RESERVESIZE)) with 1476%nat.
    rewrite length_take, length_app, length_replicate. lia. }
  unfold run. destruct pkts as [|[t k bytes addr|f addr|] pkts]; cbn [map pkt_event recv_loop spec_recv].
  - reflexivity.
  - apply Forall_cons_1 in Hp as [Hp _]. pose proof Hp as (_ & Hl & _). change (Z.to_nat _) with 1476%nat in Hl.
    destruct (recv_fits (rv_fragbuf s) bytes) as [En Ei]; [now rewrite Hlen|]. rewrite En, Ei.
    destruct (first_small_is (set_fragbuf (bytes ++ drop (length bytes) (rv_fragbuf s)) s) t k bytes addr
      _ Hp eq_refl P) as (s' & E & Er & Es & Pb).
    rewrite E. cbn [mbind res_bind after_loop]. eexists. split; [reflexivity|]. split; [reflexivity|].
    split; [exists r; rewrite <- Hc; auto|]. auto.
  - apply Forall_cons_1 in Hp as [Hp Hps]. destruct (frag_size _ _ _ Hp) as (_ & _ & Hl & Hmax).
    fold (frag_bytes f). destruct (recv_fits (rv_fragbuf s) (frag_bytes f)) as [En Ei]; [lia|].
    pose proof (length_recv_into (rv_fragbuf s) (frag_bytes f)) as Hlen'. rewrite En. rewrite Ei in *.
    set (s0 := set_fragbuf _ s).
    destruct (first_frag_is s0 f addr _ Hp eq_refl (eq_trans Hlen' Hlen) P eq_refl eq_refl) as (s1 & E1 & Hfst).
    { exists r; auto. }
    rewrite E1. cbn [mbind res_bind].
    destruct (Z.of_nat (f_no f) <? Z.of_nat (f_max f)); cbn [negb].
    + destruct Hfst as (s2 & E2 & H2). rewrite E2. cbn [mbind res_bind].
      destruct (co_nums _ _ _ _ _ _ H2) as [-> ->].
      change (e_max (new_entry b f addr) <=? e_cur (new_entry b f addr)) with (complete (new_entry b f addr)).
      destruct (complete (new_entry b f addr)); cbn [mbind res_bind].
      * apply (finish_is false s2 _ [] pkts H2).
      * apply (collect_is pkts s2 _ [] H2 Hps).
    + now rewrite Hfst.
  - cbn [mbind res_bind after_loop]. change (rv_ring s) with (Some r). cbn [andb negb Z.eqb IP_FRAGTYPE Pos.eqb mbind res_bind].
    destruct (plain_clear buf) as (d & Ed & Pd & _). { apply P. }
    change (rv_buf s) with buf. rewrite Ed. eexists. split; [reflexivity|]. split; [reflexivity|].
    split; [exists r; auto|]. split; [exact Hnil|]. split; [reflexivity|].
    destruct P as [[_ M _] _]. now rewrite M in Pd.
Qed.

(** The call that takes the oldest packet of the ring. *)
Lemma recv_stored_is stale r e q buf pkts :
  ring_is r q -> capacity r = c -> queue_ok m b (e :: q) -> plain buf MAX_LARGE_BUFSIZE (e_bytes e) ->
  Forall (pkt_ok m b) pkts ->
  let s := set_ring r (set_buf buf (recv_start IP_FRAGMENT_MAXSIZE IP_FRAGTYPE stale (Some r) buf)) in
  let run := '(complete, s) ← resume m IP_FRAGMENT_MAXSIZE (popped e) s;
             if (complete : bool)
             then Ok (mkReceived false (rv_buf s) (rv_src s) (rv_ring s) (map pkt_event pkts))
             else '(is_timeout, is_first, s, rest) ←
                    recv_loop m IP_FRAGMENT_MAXSIZE IP_FRAGTYPE (map pkt_event pkts) false s;
                  s ← after_loop IP_FRAGTYPE is_timeout is_first s;
                  Ok (mkReceived is_timeout (rv_buf s) (rv_src s) (rv_ring s) rest) in
  match spec_recv c b (e :: q) pkts with
  | Ok (pkt, q', pkts') => exists x, run = Ok x /\ result_is m c b pkt q' pkts' x
  | Err x => run = Err x
  end.
Proof using.
  intros Hr Hc Hq P Hp s run. unfold run, resume, spec_recv. cbn [popped pp_maxfragnum pp_curfragnum pp_optype pp_key
    pp_clientaddr pp_clientaddrlen pp_clientlogicalidx pp_fragseq].
  destruct (Hq e) as [Hmx He]; [now apply list_elem_of_here|]. unfold is_large at 1.
  assert (Hret : forall s', rv_ring s' = Some r -> rv_src s' = Some (e_addr e) -> rv_buf s' = buf ->
    exists x, Ok (mkReceived false (rv_buf s') (rv_src s') (rv_ring s') (map pkt_event pkts)) = Ok x /\
      result_is m c b (Some (e_bytes e, e_addr e)) q pkts x).
  { intros s' E1 E2 E3. eexists. split; [reflexivity|]. rewrite E1, E2, E3. split; [reflexivity|].
    split; [exists r; auto|]. split; [exact (queue_ok_tail _ _ _ _ Hq)|]. auto. }
  destruct (Z.eqb_spec (e_max e) 0) as [E0|E0].
  { rewrite (proj2 (Z.ltb_ge 0 (e_max e))) by lia. cbn [negb orb]. apply Hret; reflexivity. }
  rewrite (proj2 (Z.ltb_lt 0 (e_max e))) by lia. cbn [negb orb]. unfold complete.
  destruct (e_max e <=? e_cur e); [apply Hret; reflexivity|].
  assert (Hl : is_large e = true) by (apply Z.ltb_lt; lia). destruct (He Hl) as [Ht (h & Hs & Hlen) _].
  rewrite INVARIANT_true.
  2:{ pose proof Ht as Hin. unfold is_packet_with_clientlogicalidx, is_packet_with_largevalue in *.
      apply existsb_exists in Hin as (t & Hin & Et). apply existsb_exists. exists t. split; [|exact Et].
      unfold optype_with_clientlogicalidx_list, optype_for_udprecvlarge_ipfrag_list in *. cbn in *. tauto. }
  cbn [mbind res_bind]. pose proof Hs as (E1 & E2 & Hb & Hle). rewrite E2, E1. cbn [mbind res_bind].
  change (Z.to_nat (IP_FRAGMENT_MAXSIZE + IP_FRAGMENT_RESERVESIZE)) with 1476%nat in Hle.
  replace (u64 (Z.of_nat (h + 4 + b) - (Z.of_nat h + 2 + 2))) with (Z.of_nat b)
    by (unfold u64; rewrite Z.mod_small; lia).
  apply (collect_is pkts _ e q); [|exact Hp]. constructor; cbn; auto 10.
  - exists r. auto.
  - exact (queue_ok_tail _ _ _ _ Hq).
  - change (Z.to_nat (IP_FRAGMENT_MAXSIZE + IP_FRAGMENT_RESERVESIZE)) with 1476%nat.
    rewrite length_take, length_app, length_replicate. lia.
  - exists h. auto.
Qed.

End Call.

(** [udprecvlarge_ipfrag] against [spec_recv]. *)
Lemma udprecvlarge_is (m c : Z) (b : nat) (stale : list Z) (r : PktRingBuffer) (q : list Entry)
    (buf : DynamicArray) (pkts : list Pkt) :
  ring_is r q -> capacity r = c -> queue_ok m b q -> plain buf MAX_LARGE_BUFSIZE [] ->
  Forall (pkt_ok m b) pkts ->
  match spec_recv c b q pkts with
  | Ok (pkt, q', pkts') => exists x,
      udprecvlarge_ipfrag m stale (Some r) buf (map pkt_event pkts) = Ok x /\ result_is m c b pkt q' pkts' x
  | Err e => udprecvlarge_ipfrag m stale (Some r) buf (map pkt_event pkts) = Err e
  end.
Proof.
  intros Hr Hc Hq P Hp. unfold udprecvlarge_ipfrag, udprecvlarge. cbn [Z.eqb IP_FRAGTYPE Pos.eqb].
  change (rv_buf (recv_start _ _ _ _ _)) with buf.
  pose proof (pop_is r q buf Hr) as Hpop. destruct P as [[W M C] Hz] eqn:EP.
  specialize (Hpop W M). destruct q as [|e q].
  - rewrite Hpop. cbn [mbind res_bind]. apply recv_empty_is; auto.
  - destruct Hpop as (buf' & r' & E & Pb & _ & Hc' & Hr'). rewrite E. cbn [mbind res_bind].
    apply (recv_stored_is m c b stale r' e q buf'); auto. congruence.
Qed.

(** C27: a worker's receiver is the queue of packets: for every ring that holds a
    queue and every sequence of datagrams and timeouts, [udprecvlarge_ipfrag]
    returns the packet [spec_recv] returns, or times out when it does, and leaves
    the ring with the queue it leaves; it ends the process or blocks exactly when
    [spec_recv] does. *)
Theorem udprecvlarge_refines (m c : Z) (b : nat) (stale : list Z) (r : PktRingBuffer) (q : list Entry)
    (buf : DynamicArray) (pkts : list Pkt) :
  ring_is r q -> capacity r = c -> queue_ok m b q -> plain buf MAX_LARGE_BUFSIZE [] ->
  Forall (pkt_ok m b) pkts ->
  match spec_recv c b q pkts with
  | Ok (pkt, q', pkts') => exists x,
      udprecvlarge_ipfrag m stale (Some r) buf (map pkt_event pkts) = Ok x /\ result_is m c b pkt q' pkts' x
  | Err e => udprecvlarge_ipfrag m stale (Some r) buf (map pkt_event pkts) = Err e
  end.
Proof. apply udprecvlarge_is. Qed.
