(* ===== verification/Delivery.v ===== *)
(** * Delivery of requests to a worker

    Clients cut large requests into fragments, the switch rewrites headers, and
    the fragments of several clients arrive interleaved and out of order.  As
    long as every fragment arrives once and a client has one large request at a
    time, successive calls of [udprecvlarge_ipfrag] return every request whole,
    once, in the order in which their first datagrams arrived. *)

From Stdlib Require Import ZArith Lia List.
From stdpp Require Import base tactics list numbers option.
From S2P Require Import Prelude Cursor DynamicArray StdMap Crc32 Key Val DeletedSet KVStore RocksdbWrapper Packet PacketCodec PacketCache PacketScan PacketServer Outband Fragment Reassembly PktRingBuffer RecvLarge RecvSpec RecvProps.

Open Scope Z_scope.

#[local] Arguments put_at : simpl never.

(** ** Requests *)

(** A large request as it arrives: the switch may have given its fragments
    different headers (and types of one class), the rest is the sender's. *)
Record LargeMsg := mkLargeMsg {
  lm_key : Key;
  lm_idx : Z;
  lm_seq : Z;
  lm_type : nat -> Z;
  lm_hdr : nat -> list Z;
  lm_body : list Z;
  lm_addr : sockaddr_in
}.

Inductive Msg :=
  | MSmall (type : Z) (key : Key) (bytes : list Z) (addr : sockaddr_in)
  | MLarge (l : LargeMsg).

Section Msg.

Context (m : Z) (b : nat).

Definition lm_frag (l : LargeMsg) (i : nat) : Frag :=
  mkFrag (lm_type l i) (lm_key l) (lm_idx l) (lm_seq l) (lm_hdr l i) i (fragnum b (lm_body l))
    (chunk b i (lm_body l)).

(** The number of datagrams, the datagrams, and what the worker should get. *)
Definition msg_frags (x : Msg) : nat :=
  match x with MSmall _ _ _ _ => 1 | MLarge l => fragnum b (lm_body l) end.
Definition msg_pkt (x : Msg) (i : nat) : Pkt :=
  match x with
  | MSmall t k bytes addr => PSmall t k bytes addr
  | MLarge l => PFrag (lm_frag l i) (lm_addr l)
  end.
Definition msg_whole (x : Msg) : list Z * sockaddr_in :=
  match x with
  | MSmall _ _ bytes addr => (bytes, addr)
  | MLarge l => (lm_hdr l 0 ++ lm_body l, lm_addr l)
  end.

Record large_ok (l : LargeMsg) : Prop := {
  lo_frag : forall i, (i < fragnum b (lm_body l))%nat -> frag_ok m b (lm_frag l i);
  lo_type : forall i j, (i < fragnum b (lm_body l))%nat -> (j < fragnum b (lm_body l))%nat ->
    is_same_optype (lm_type l i) (lm_type l j) = true
}.

Definition msg_ok (x : Msg) : Prop :=
  match x with MSmall t k bytes _ => small_ok m t k bytes | MLarge l => large_ok l end.

(** ** A request of which some fragments have arrived *)

Record partial (l : LargeMsg) (S : list nat) (e : Entry) : Prop := {
  pa_type : exists i, (i < fragnum b (lm_body l))%nat /\ e_optype e = lm_type l i;
  pa_key : e_key e = lm_key l;
  pa_idx : e_idx e = lm_idx l;
  pa_seq : e_fragseq e = lm_seq l;
  pa_addr : e_addr e = lm_addr l;
  pa_addrlen : e_addrlen e = sizeof_sockaddr_in;
  pa_max : e_max e = Z.of_nat (fragnum b (lm_body l));
  pa_cur : e_cur e = Z.of_nat (length S);
  pa_bytes : covers b (lm_hdr l 0) (lm_body l) S (e_bytes e)
}.

Section Large.

Context (l : LargeMsg).
Hypothesis Hl : large_ok l.
Abbreviation n := (fragnum b (lm_body l)).
Abbreviation h := (length (lm_hdr l 0)).

Lemma large_b : (0 < b)%nat /\ (1 <= n)%nat.
Proof using Hl.
  unfold fragnum. split; [|lia].
  destruct (fo_sizes _ _ _ (lo_frag _ Hl 0%nat ltac:(unfold fragnum; lia))) as (_ & _ & Hb & _). exact Hb.
Qed.

Lemma hdr_lengths i : (i < n)%nat -> length (lm_hdr l i) = h.
Proof using Hl.
  intros Hi. destruct large_b as [_ Hn].
  pose proof (fo_sizes _ _ _ (lo_frag _ Hl i Hi)) as S1. pose proof (fo_sizes _ _ _ (lo_frag _ Hl 0%nat Hn)) as S0.
  cbn [lm_frag f_type f_hdr] in *. eapply sizes_same; eauto. now apply (lo_type _ Hl).
Qed.

(** The three ways in which a fragment arrives. *)
Lemma partial_new i : (i < n)%nat -> partial l [i] (new_entry b (lm_frag l i) (lm_addr l)).
Proof using Hl.
  intros Hi. constructor; cbn; try reflexivity; [eauto|].
  assert (Hc : covers b (lm_hdr l 0) (lm_body l) [] (lm_hdr l i)).
  { pose proof (hdr_lengths i Hi). constructor.
    - lia.
    - intros j x Hj. now apply not_elem_of_nil in Hj.
    - intros Hj. now apply not_elem_of_nil in Hj. }
  destruct large_b as [Hb _]. pose proof (covers_add b _ _ Hb [] _ i Hc Hi (not_elem_of_nil i)) as Ha. cbn zeta in Ha.
  unfold frag_off. cbn [lm_frag f_hdr f_no f_body]. rewrite hdr_lengths by exact Hi.
  destruct (Nat.eqb_spec i 0) as [->|]; [|exact Ha]. rewrite put_at_header in Ha by lia. exact Ha.
Qed.

Lemma partial_same S e i : partial l S e -> (i < n)%nat -> is_same_optype (lm_type l i) (e_optype e) = true.
Proof using Hl.
  intros H Hi. destruct (pa_type _ _ _ H) as (j & Hj & ->). now apply (lo_type _ Hl).
Qed.

Lemma partial_head S e i : partial l S e -> (i < n)%nat -> i ∉ S -> Z.of_nat (length S) < 65535 ->
  matches e (lm_frag l i) = true /\ (Z.of_nat i <? e_max e) = true /\
  partial l (i :: S) (head_frag b e (lm_frag l i)).
Proof using Hl.
  intros H Hi Hni Hlt. split; [|split].
  - unfold matches. cbn [lm_frag f_key f_type f_seq]. rewrite (pa_key _ _ _ H), (pa_seq _ _ _ H).
    rewrite bool_decide_eq_true_2, (partial_same S e i H Hi), Z.leb_refl by reflexivity. reflexivity.
  - rewrite (pa_max _ _ _ H). apply Z.ltb_lt. lia.
  - unfold head_frag, restart. cbn [lm_frag f_seq]. rewrite (pa_seq _ _ _ H), Z.ltb_irrefl.
    destruct large_b as [Hb _]. pose proof (covers_add b _ _ Hb S _ i (pa_bytes _ _ _ H) Hi Hni) as Hc. cbn zeta in Hc.
    destruct H. constructor; cbn; try assumption.
    + rewrite pa_cur0. rewrite u16_id by (unfold is_u16; lia). lia.
    + unfold frag_off. cbn [lm_frag f_hdr f_no f_body]. rewrite hdr_lengths by exact Hi.
      destruct (Nat.eqb_spec i 0) as [->|]; exact Hc.
Qed.

Lemma partial_update S e i : partial l S e -> (i < n)%nat -> i ∉ S -> (0 < length S)%nat -> Z.of_nat (length S) < 65535 ->
  let f := lm_frag l i in
  exists e', update_entry e (f_type f) (f_key f) (f_hdr f) (frag_off b f) (f_body f) sizeof_sockaddr_in (f_seq f)
    (f_no f =? 0)%nat = Some e' /\ partial l (i :: S) e'.
Proof using Hl.
  intros H Hi Hni Hpos Hlt f. unfold update_entry, f. cbn [lm_frag f_key f_type f_seq f_no f_hdr f_body].
  rewrite is_same_optype_sym, (partial_same S e i H Hi), (pa_key _ _ _ H), (pa_addrlen _ _ _ H), (pa_seq _ _ _ H).
  rewrite bool_decide_eq_true_2, !Z.eqb_refl, Z.leb_refl, Z.ltb_irrefl by reflexivity. cbn [andb].
  rewrite (pa_cur _ _ _ H), u16_id by (unfold is_u16; lia).
  rewrite (proj2 (Z.eqb_neq (Z.of_nat (length S) + 1) 1)) by lia. cbn [orb].
  eexists. split; [reflexivity|].
  destruct large_b as [Hb _]. pose proof (covers_add b _ _ Hb S _ i (pa_bytes _ _ _ H) Hi Hni) as Hc. cbn zeta in Hc.
  destruct H. constructor; cbn; try assumption; try congruence; [lia|].
  unfold frag_off. cbn [f_hdr f_no]. rewrite hdr_lengths by exact Hi.
  destruct (Nat.eqb_spec i 0) as [->|]; exact Hc.
Qed.

End Large.

End Msg.

(** ** A stream of datagrams *)

(** A datagram is named by its request and its number in it. *)
Definition tag : Type := nat * nat.

(** The fragments of [j] in [S] (the latest first), and the requests in the
    order of their first datagrams, those of [done] left out. *)
Fixpoint seen (j : nat) (S : list tag) : list nat :=
  match S with
  | [] => []
  | (j', i) :: S' => if decide (j' = j) then i :: seen j S' else seen j S'
  end.

Fixpoint firsts (done : list nat) (tags : list tag) : list nat :=
  match tags with
  | [] => []
  | (j, _) :: tags' => if decide (j ∈ done) then firsts done tags' else j :: firsts (done ++ [j]) tags'
  end.

Lemma elem_of_seen j i S : i ∈ seen j S <-> (j, i) ∈ S.
Proof.
  induction S as [|[j' i'] S IH]; cbn [seen].
  - split; intros H; now apply not_elem_of_nil in H.
  - case_decide as E; rewrite ?elem_of_cons, IH; intuition congruence.
Qed.

Lemma seen_NoDup j S : NoDup S -> NoDup (seen j S).
Proof.
  induction 1 as [|[j' i'] S Hx HS IH]; cbn [seen]; [constructor|].
  case_decide as E; [|exact IH]. subst j'. constructor; [now rewrite elem_of_seen|exact IH].
Qed.

Lemma seen_other j j' i S : j' <> j -> seen j ((j', i) :: S) = seen j S.
Proof. intros H. cbn. now rewrite decide_False by exact H. Qed.

Lemma seen_same j i S : seen j ((j, i) :: S) = i :: seen j S.
Proof. cbn. now rewrite decide_True. Qed.

Lemma firsts_done done tags : (forall j i, (j, i) ∈ tags -> j ∈ done) -> firsts done tags = [].
Proof.
  induction tags as [|[j i] tags IH]; intros H; cbn; [reflexivity|].
  rewrite decide_True by (apply (H j i), list_elem_of_here).
  apply IH. intros j' i' Hj. apply (H j' i'). now apply list_elem_of_further.
Qed.

Section Stream.

Context (m c : Z) (b : nat) (msg : nat -> Msg) (T : list tag).

Definition stream (tags : list tag) : list Pkt := map (fun t => msg_pkt b (msg t.1) t.2) tags.

(** Every datagram of every request arrives, once, and large requests come from
    different clients. *)
Record stream_ok : Prop := {
  so_once : NoDup T;
  so_msg : forall j i, (j, i) ∈ T -> msg_ok m b (msg j) /\ (i < msg_frags b (msg j))%nat;
  so_all : forall j i i', (j, i) ∈ T -> (i' < msg_frags b (msg j))%nat -> (j, i') ∈ T;
  so_idx : forall j i j' i' l l', (j, i) ∈ T -> (j', i') ∈ T -> msg j = MLarge l -> msg j' = MLarge l' ->
    lm_idx l = lm_idx l' -> j = j';
  so_room : Z.of_nat (length (firsts [] T)) < c
}.

Hypothesis HT : stream_ok.

(** The entry of request [j] when the datagrams [S] have arrived. *)
Definition entry_of (S : list tag) (j : nat) (e : Entry) : Prop :=
  match msg j with
  | MSmall t k bytes addr => e = small_entry t k bytes addr sizeof_sockaddr_in
  | MLarge l => partial b l (seen j S) e
  end.

Definition all_seen (S : list tag) (j : nat) : Prop :=
  forall i, (i < msg_frags b (msg j))%nat -> (j, i) ∈ S.

(** [S] has arrived, [R] is to come, [D] has been delivered and the requests
    [J] are in the queue [q]. *)
Record arrived (S R : list tag) (D J : list nat) (q : list Entry) : Prop := {
  ar_split : T = reverse S ++ R;
  ar_queue : Forall2 (entry_of S) J q;
  ar_begun : forall j, j ∈ D ++ J <-> exists i, (j, i) ∈ S;
  ar_done : forall j, j ∈ D -> all_seen S j;
  ar_nodup : NoDup (D ++ J);
  ar_order : firsts [] T = D ++ J ++ firsts (D ++ J) R
}.

Lemma arrived_start : arrived [] T [] [] [].
Proof using.
  constructor; auto.
  - intros j. cbn. split; [intros H; now apply not_elem_of_nil in H|]. intros [i H]. now apply not_elem_of_nil in H.
  - intros j H. now apply not_elem_of_nil in H.
  - constructor.
Qed.

Section State.

Context (S R : list tag) (D J : list nat) (q : list Entry).
Hypothesis H : arrived S R D J q.

Lemma in_T t : t ∈ T <-> t ∈ S \/ t ∈ R.
Proof using H. rewrite (ar_split _ _ _ _ _ H), elem_of_app, elem_of_reverse. reflexivity. Qed.

Lemma S_NoDup : NoDup S /\ forall t, t ∈ S -> t ∈ R -> False.
Proof using H HT.
  pose proof (so_once HT) as Hn. rewrite (ar_split _ _ _ _ _ H) in Hn. apply list.NoDup_app in Hn as (H1 & H2 & _).
  split; [now rewrite reverse_Permutation in H1|]. intros t Hs Hr. apply (H2 t); [now rewrite elem_of_reverse|exact Hr].
Qed.

(** The queue never fills the ring. *)
Lemma room : Z.of_nat (length J) < c.
Proof using H HT.
  pose proof (so_room HT) as Hr. rewrite (ar_order _ _ _ _ _ H) in Hr. rewrite !length_app in Hr. lia.
Qed.

Lemma queue_length : length q = length J.
Proof using H. symmetry. exact (Forall2_length (ar_queue _ _ _ _ _ H)). Qed.

(** A request in the queue: what of it is there. *)
Lemma seen_bound j : forall i, i ∈ seen j S -> (i < msg_frags b (msg j))%nat.
Proof using H HT.
  intros i Hi. apply elem_of_seen in Hi. apply (so_msg HT j i). apply in_T. auto.
Qed.

Lemma seen_full j : (msg_frags b (msg j) <= length (seen j S))%nat -> all_seen S j.
Proof using H HT.
  intros Hlen i Hi. apply elem_of_seen. destruct S_NoDup as [HS _].
  apply list_elem_of_In, (NoDup_length_incl (l := seen j S) (l' := seq 0 (msg_frags b (msg j)))).
  - apply NoDup_ListNoDup, seen_NoDup, HS.
  - now rewrite length_seq.
  - intros x Hx. apply in_seq. apply list_elem_of_In, seen_bound in Hx. lia.
  - apply in_seq. lia.
Qed.

Lemma seen_length j : (length (seen j S) <= msg_frags b (msg j))%nat.
Proof using H HT.
  destruct S_NoDup as [HS _]. rewrite <- (length_seq (msg_frags b (msg j)) 0).
  apply NoDup_incl_length; [apply NoDup_ListNoDup, seen_NoDup, HS|].
  intros x Hx. apply in_seq. apply list_elem_of_In, seen_bound in Hx. lia.
Qed.

Lemma queue_entry j e p : J !! p = Some j -> q !! p = Some e -> entry_of S j e.
Proof using H. apply (Forall2_lookup_lr _ _ _ _ _ _ (ar_queue _ _ _ _ _ H)). Qed.

Lemma begun_in_T j : j ∈ D ++ J -> exists i, (j, i) ∈ T.
Proof using H. intros Hj. apply (ar_begun _ _ _ _ _ H) in Hj as [i Hi]. exists i. apply in_T. auto. Qed.

(** The next datagram. *)
Section Next.

Context (j i : nat) (R' : list tag).
Hypothesis HR : R = (j, i) :: R'.

Lemma next_in_T : (j, i) ∈ T.
Proof using H HR. apply in_T. right. rewrite HR. apply list_elem_of_here. Qed.

Lemma next_fresh : i ∉ seen j S.
Proof using H HT HR.
  intros Hi. apply elem_of_seen in Hi. destruct S_NoDup as [_ Hd]. apply (Hd (j, i) Hi). rewrite HR. apply list_elem_of_here.
Qed.

Lemma next_not_done : j ∉ D.
Proof using H HT HR.
  intros Hj. apply next_fresh. apply elem_of_seen, (ar_done _ _ _ _ _ H j Hj). apply (so_msg HT j i next_in_T).
Qed.

Lemma next_split : T = reverse ((j, i) :: S) ++ R'.
Proof using H HR. rewrite reverse_cons, <- app_assoc. cbn. rewrite <- HR. apply (ar_split _ _ _ _ _ H). Qed.

(** Other requests do not notice. *)
Lemma entry_other j' e : j' <> j -> entry_of S j' e -> entry_of ((j, i) :: S) j' e.
Proof using. intros Hne. unfold entry_of. rewrite seen_other by congruence. auto. Qed.

Lemma arrive_new e : j ∉ J -> entry_of ((j, i) :: S) j e -> arrived ((j, i) :: S) R' D (J ++ [j]) (q ++ [e]).
Proof using H HT HR.
  intros Hj He. pose proof next_not_done as Hnd. assert (Hnew : j ∉ D ++ J) by (rewrite elem_of_app; tauto).
  constructor.
  - apply next_split.
  - apply Forall2_app; [|constructor; [exact He|constructor]].
    apply Forall2_same_length_lookup_2; [symmetry; apply queue_length|]. intros p j' e' Hp Hq.
    apply entry_other; [|now apply (queue_entry j' e' p)]. intros ->. apply Hj. eauto using list_elem_of_lookup_2.
  - intros x. rewrite app_assoc, elem_of_app, (ar_begun _ _ _ _ _ H), list_elem_of_singleton.
    setoid_rewrite elem_of_cons. split.
    + intros [[y Hy]| ->]; [eauto|exists i; auto].
    + intros [y [Hy|Hy]]; [inversion Hy; auto|eauto].
  - intros x Hx y Hy. apply list_elem_of_further. now apply (ar_done _ _ _ _ _ H x).
  - rewrite app_assoc. apply list.NoDup_app. split; [apply (ar_nodup _ _ _ _ _ H)|]. split.
    + intros x Hx ->%list_elem_of_singleton. auto.
    + constructor; [apply not_elem_of_nil|constructor].
  - rewrite (ar_order _ _ _ _ _ H), HR. cbn [firsts]. rewrite decide_False by exact Hnew.
    now rewrite <- !app_assoc.
Qed.

Lemma arrive_more p e : J !! p = Some j -> (p < length q)%nat -> entry_of ((j, i) :: S) j e ->
  arrived ((j, i) :: S) R' D J (<[p := e]> q).
Proof using H HT HR.
  intros Hp Hlt He.
  assert (HjJ : j ∈ D ++ J) by (rewrite elem_of_app; eauto using list_elem_of_lookup_2).
  constructor; try apply H.
  - apply next_split.
  - apply Forall2_same_length_lookup_2; [rewrite length_insert; symmetry; apply queue_length|].
    intros p' j' e' Hp' Hq'. apply list_lookup_insert_Some in Hq' as [(<- & <- & _)|[Hne Hq']].
    + assert (j' = j) as -> by congruence. exact He.
    + apply entry_other; [|now apply (queue_entry j' e' p')]. intros ->.
      apply Hne. pose proof (ar_nodup _ _ _ _ _ H) as Hn. apply list.NoDup_app in Hn as (_ & _ & Hn).
      apply (NoDup_lookup J p p' j Hn Hp Hp').
  - intros x. rewrite (ar_begun _ _ _ _ _ H). setoid_rewrite elem_of_cons. split; [intros [y Hy]; eauto|].
    intros [y [Hy|Hy]]; [|eauto]. inversion Hy; subst. now apply (ar_begun _ _ _ _ _ H).
  - intros x Hx y Hy. apply list_elem_of_further. now apply (ar_done _ _ _ _ _ H x).
  - rewrite (ar_order _ _ _ _ _ H), HR. cbn [firsts]. now rewrite decide_True by exact HjJ.
Qed.

End Next.

(** Large packets in the queue are found by the index of their client. *)
Lemma large_entry p j e : J !! p = Some j -> q !! p = Some e -> is_large e = true ->
  exists l, msg j = MLarge l /\ partial b l (seen j S) e.
Proof using H.
  intros Hp Hq Hl. pose proof (queue_entry j e p Hp Hq) as He. unfold entry_of in He.
  destruct (msg j) as [t k bytes addr|l]; [subst e; discriminate|eauto].
Qed.

Lemma partial_large l S0 e : partial b l S0 e -> is_large e = true.
Proof using. intros Hp. apply Z.ltb_lt. rewrite (pa_max _ _ _ _ Hp). unfold fragnum. lia. Qed.

Lemma same_client p j e j' l' i' : J !! p = Some j -> q !! p = Some e -> is_large e = true ->
  (j', i') ∈ T -> msg j' = MLarge l' -> e_idx e = lm_idx l' -> j = j'.
Proof using H HT.
  intros Hp Hq Hl Hj' Em Hi. destruct (large_entry p j e Hp Hq Hl) as (l & El & Hpa).
  destruct (begun_in_T j) as [i Hin]; [rewrite elem_of_app; eauto using list_elem_of_lookup_2|].
  apply (so_idx HT j i j' i' l l' Hin Hj' El Em). rewrite <- Hi. symmetry. apply (pa_idx _ _ _ _ Hpa).
Qed.

End State.

(** The counters of a request whose next fragment arrives. *)
Lemma next_counts S j i R' D J q l :
  arrived S ((j, i) :: R') D J q -> msg j = MLarge l ->
  large_ok m b l /\ (i < fragnum b (lm_body l))%nat /\ (i ∉ seen j S) /\ Z.of_nat (length (seen j S)) < 65535 /\
  (j ∈ J -> (0 < length (seen j S))%nat) /\ ((j ∉ J) -> seen j S = []).
Proof using HT.
  intros H El. pose proof (next_in_T _ _ _ _ _ H j i R' eq_refl) as HjT.
  destruct (so_msg HT j i HjT) as [Hok Hi]. rewrite El in Hok, Hi. cbn [msg_ok msg_frags] in Hok, Hi.
  pose proof (next_fresh _ _ _ _ _ H j i R' eq_refl) as Hfr.
  split; [exact Hok|]. split; [exact Hi|]. split; [exact Hfr|]. split; [|split].
  - pose proof (seen_length _ _ _ _ _ H j) as Hs. rewrite El in Hs. cbn in Hs.
    pose proof (fo_max _ _ _ (lo_frag _ _ _ Hok i Hi)) as Hm. cbn in Hm.
    assert (length (seen j S) <> fragnum b (lm_body l)); [|lia]. intros E. apply Hfr, elem_of_seen.
    apply (seen_full _ _ _ _ _ H j); rewrite El; cbn; [lia|exact Hi].
  - intros Hj. pose proof (ar_begun _ _ _ _ _ H j) as [Hb _].
    destruct Hb as [i0 Hi0]; [rewrite elem_of_app; auto|].
    apply elem_of_seen in Hi0. destruct (seen j S); [now apply not_elem_of_nil in Hi0|cbn; lia].
  - intros Hj. destruct (seen j S) as [|x s] eqn:E; [reflexivity|]. exfalso.
    assert (Hx : x ∈ seen j S) by (rewrite E; apply list_elem_of_here). apply elem_of_seen in Hx.
    assert (Hb : j ∈ D ++ J) by (apply (ar_begun _ _ _ _ _ H); eauto). apply elem_of_app in Hb as [Hb|Hb]; [|auto].
    now apply (next_not_done _ _ _ _ _ H j i R' eq_refl).
Qed.

(** A fragment that is not of the packet at the head. *)
Lemma store_frag_arrives S j i R' D j0 J' e0 q' l :
  arrived S ((j, i) :: R') D (j0 :: J') (e0 :: q') -> j <> j0 -> msg j = MLarge l ->
  exists J'' q'', store_frag c b q' (lm_frag b l i) (lm_addr l) = Ok q'' /\
    arrived ((j, i) :: S) R' D (j0 :: J'') (e0 :: q'').
Proof using HT.
  intros H Hne El. pose proof (next_in_T _ _ _ _ _ H j i R' eq_refl) as HjT.
  destruct (next_counts _ _ _ _ _ _ _ l H El) as (Hok & Hi & Hfr & Hlt & Hpos & Hnil).
  pose proof (queue_length _ _ _ _ _ H) as Hql. cbn in Hql.
  unfold store_frag. cbn [lm_frag f_idx].
  destruct (find_large q' (lm_idx l)) as [[p e]|] eqn:Ef.
  - apply list_find_Some in Ef as (Hq & [Hl Hidx] & _).
    destruct (lookup_lt_is_Some_2 J' p) as [j' Hj']. { pose proof (lookup_lt_Some _ _ _ Hq). lia. }
    pose proof (same_client _ _ _ _ _ H (Datatypes.S p) j' e j l i Hj' Hq Hl HjT El Hidx) as ->.
    destruct (large_entry _ _ _ _ _ H (Datatypes.S p) j e Hj' Hq Hl) as (l' & El' & Hpa).
    assert (l' = l) as -> by congruence.
    assert (HjJ : j ∈ j0 :: J') by (apply list_elem_of_further; eauto using list_elem_of_lookup_2).
    destruct (partial_update m b l Hok (seen j S) e i Hpa Hi Hfr (Hpos HjJ) Hlt) as (e' & Eu & Hpa'). cbn zeta in Eu.
    cbn [lm_frag f_type f_key f_hdr f_body f_seq f_no] in *. rewrite Eu. exists J', (<[p := e']> q').
    split; [reflexivity|]. apply (arrive_more _ _ _ _ _ H j i R' eq_refl (Datatypes.S p) e' Hj').
    + cbn. pose proof (lookup_lt_Some _ _ _ Hq). lia.
    + unfold entry_of. rewrite El, seen_same. exact Hpa'.
  - assert (HjJ : j ∉ j0 :: J').
    { intros Hj. apply elem_of_cons in Hj as [Hj|Hj]; [congruence|]. apply list_elem_of_lookup in Hj as [p Hp].
      destruct (lookup_lt_is_Some_2 q' p) as [e He]. { pose proof (lookup_lt_Some _ _ _ Hp). lia. }
      pose proof (queue_entry _ _ _ _ _ H j e (Datatypes.S p) Hp He) as Hen. unfold entry_of in Hen. rewrite El in Hen.
      apply list_find_None in Ef. rewrite Forall_forall in Ef. apply (Ef e).
      - apply list_elem_of_In. eauto using list_elem_of_lookup_2.
      - split; [eauto using partial_large|apply (pa_idx _ _ _ _ Hen)]. }
    pose proof (arrive_new _ _ _ _ _ H j i R' eq_refl (new_entry b (lm_frag b l i) (lm_addr l)) HjJ) as Ha.
    assert (Hen : entry_of ((j, i) :: S) j (new_entry b (lm_frag b l i) (lm_addr l))).
    { unfold entry_of. rewrite El, seen_same.
      rewrite (Hnil HjJ). now apply (partial_new m). }
    specialize (Ha Hen). pose proof (room _ _ _ _ _ Ha) as Hrm. unfold enqueue. rewrite length_app in Hrm. cbn in Hrm.
    rewrite (proj2 (Z.eqb_neq _ _)) by lia. exists (J' ++ [j]), (q' ++ [new_entry b (lm_frag b l i) (lm_addr l)]).
    split; [reflexivity|exact Ha].
Qed.

(** A small request behind the head. *)
Lemma small_arrives S j i R' D j0 J' e0 q' t k bytes addr :
  arrived S ((j, i) :: R') D (j0 :: J') (e0 :: q') -> msg j = MSmall t k bytes addr -> j <> j0 ->
  exists q'', enqueue c q' (small_entry t k bytes addr sizeof_sockaddr_in) = Ok q'' /\
    arrived ((j, i) :: S) R' D (j0 :: J' ++ [j]) (e0 :: q'').
Proof using HT.
  intros H El Hne. pose proof (next_in_T _ _ _ _ _ H j i R' eq_refl) as HjT.
  destruct (so_msg HT j i HjT) as [_ Hi]. rewrite El in Hi. cbn in Hi.
  assert (HjJ : j ∉ j0 :: J').
  { intros Hj. destruct (proj1 (ar_begun _ _ _ _ _ H j)) as [i0 Hi0]; [rewrite elem_of_app; auto|].
    pose proof (so_msg HT j i0 ltac:(apply (in_T _ _ _ _ _ H); auto)) as [_ Hi'']. rewrite El in Hi''. cbn in Hi''.
    apply (next_fresh _ _ _ _ _ H j i R' eq_refl), elem_of_seen. now replace i with i0 by lia. }
  pose proof (arrive_new _ _ _ _ _ H j i R' eq_refl (small_entry t k bytes addr sizeof_sockaddr_in) HjJ) as Ha.
  specialize (Ha ltac:(unfold entry_of; now rewrite El)). pose proof (room _ _ _ _ _ Ha) as Hrm.
  pose proof (queue_length _ _ _ _ _ H) as Hql. cbn in Hql. rewrite length_app in Hrm. cbn in Hrm.
  unfold enqueue. rewrite (proj2 (Z.eqb_neq _ _)) by lia. eexists. split; [reflexivity|exact Ha].
Qed.

(** A fragment of the packet at the head. *)
Lemma head_arrives S j i R' D J' e q' l :
  arrived S ((j, i) :: R') D (j :: J') (e :: q') -> msg j = MLarge l ->
  matches e (lm_frag b l i) = true /\ (Z.of_nat i <? e_max e) = true /\
  arrived ((j, i) :: S) R' D (j :: J') (head_frag b e (lm_frag b l i) :: q').
Proof using HT.
  intros H El. destruct (next_counts _ _ _ _ _ _ _ l H El) as (Hok & Hi & Hfr & Hlt & _).
  pose proof (queue_entry _ _ _ _ _ H j e 0%nat eq_refl eq_refl) as He. unfold entry_of in He. rewrite El in He.
  destruct (partial_head m b l Hok (seen j S) e i He Hi Hfr Hlt) as (H1 & H2 & H3).
  split; [exact H1|]. split; [exact H2|].
  apply (arrive_more _ _ _ _ _ H j i R' eq_refl 0%nat _ eq_refl); [cbn; lia|].
  unfold entry_of. rewrite El, seen_same. exact H3.
Qed.

(** A large packet at the head is complete when all its fragments are there. *)
Lemma head_complete S R D j J e q l :
  arrived S R D (j :: J) (e :: q) -> msg j = MLarge l ->
  complete e = true <-> all_seen S j.
Proof using HT.
  intros H El. pose proof (queue_entry _ _ _ _ _ H j e 0%nat eq_refl eq_refl) as He. unfold entry_of in He.
  rewrite El in He. unfold complete. rewrite (pa_max _ _ _ _ He), (pa_cur _ _ _ _ He), Z.leb_le. split.
  - intros Hle. apply (seen_full _ _ _ _ _ H). rewrite El. cbn. lia.
  - intros Hall. apply inj_le. rewrite <- (length_seq (fragnum b (lm_body l)) 0).
    apply NoDup_incl_length; [apply seq_NoDup|]. intros x Hx. apply in_seq in Hx. apply list_elem_of_In, elem_of_seen.
    apply Hall. rewrite El. cbn. lia.
Qed.

(** The loop runs until the packet at the head is complete, without blocking. *)
Lemma spec_loop_delivers R : forall S D j J e q l,
  arrived S R D (j :: J) (e :: q) -> msg j = MLarge l -> complete e = false ->
  exists S' R' J' e' q', spec_loop c b (stream R) e q = Ok (false, e', q', stream R') /\
    arrived S' R' D (j :: J') (e' :: q') /\ complete e' = true.
Proof using HT.
  induction R as [|[j1 i1] R IH]; intros S D j J e q l H El Hc.
  - exfalso. assert (Ht : complete e = true); [|congruence].
    apply (head_complete _ _ _ _ _ _ _ l H El). intros i Hi.
    destruct (proj1 (ar_begun _ _ _ _ _ H j)) as [i0 Hi0]; [rewrite elem_of_app; right; apply list_elem_of_here|].
    assert (Hin : (j, i) ∈ T) by (apply (so_all HT j i0); [apply (in_T _ _ _ _ _ H); auto|exact Hi]).
    apply (in_T _ _ _ _ _ H) in Hin as [Hin|Hin]; [exact Hin|now apply not_elem_of_nil in Hin].
  - pose proof (queue_entry _ _ _ _ _ H j e 0%nat eq_refl eq_refl) as He. unfold entry_of in He. rewrite El in He.
    pose proof (next_in_T _ _ _ _ _ H j1 i1 R eq_refl) as HjT.
    cbn [stream map fst snd]. fold (stream R). destruct (msg j1) as [t k bytes addr|l1] eqn:E1; cbn [msg_pkt spec_loop].
    + destruct (small_arrives _ _ _ _ _ _ _ _ _ _ _ _ _ H E1) as (q' & Eq & H'); [congruence|].
      rewrite Eq. cbn [mbind res_bind]. exact (IH _ _ _ _ _ _ l H' El Hc).
    + cbn [lm_frag f_idx f_no]. rewrite (pa_idx _ _ _ _ He).
      destruct (Z.eqb_spec (lm_idx l1) (lm_idx l)) as [Hi|Hi]; cbn [negb].
      * assert (j = j1) as <-.
        { destruct (begun_in_T _ _ _ _ _ H j) as [i Hin]; [rewrite elem_of_app; right; apply list_elem_of_here|].
          apply (so_idx HT j i j1 i1 l l1 Hin HjT El E1). congruence. }
        assert (l1 = l) as -> by congruence.
        destruct (head_arrives _ _ _ _ _ _ _ _ l H El) as (-> & -> & H'). cbn [negb].
        destruct (complete (head_frag b e (lm_frag b l i1))) eqn:Ec.
        -- exists ((j, i1) :: S), R, J, (head_frag b e (lm_frag b l i1)), q. auto.
        -- exact (IH _ _ _ _ _ _ l H' El Ec).
      * destruct (store_frag_arrives _ _ _ _ _ _ _ _ _ l1 H) as (J' & q' & Es & H'); [congruence|exact E1|].
        rewrite Es. cbn [mbind res_bind]. exact (IH _ _ _ _ _ _ l H' El Hc).
Qed.

(** The packet at the head leaves the queue. *)
Lemma deliver_head S R D j J e q :
  arrived S R D (j :: J) (e :: q) -> all_seen S j ->
  (e_bytes e, e_addr e) = msg_whole (msg j) /\ arrived S R (D ++ [j]) J q.
Proof using HT.
  intros H Hall. split.
  - pose proof (queue_entry _ _ _ _ _ H j e 0%nat eq_refl eq_refl) as He. unfold entry_of in He.
    destruct (begun_in_T _ _ _ _ _ H j) as [i Hin]; [rewrite elem_of_app; right; apply list_elem_of_here|].
    destruct (so_msg HT j i Hin) as [Hok _]. unfold all_seen in Hall.
    destruct (msg j) as [t k bytes addr|l]; cbn [msg_whole] in *; [now subst e|].
    rewrite (pa_addr _ _ _ _ He). f_equal. apply (covers_full b _ _ (proj1 (large_b m b l Hok)) (seen j S)); [apply (pa_bytes _ _ _ _ He)|].
    intros x Hx. apply elem_of_seen. now apply Hall.
  - destruct H as [H1 H2 H3 H4 H5 H6]. inversion H2; subst. constructor; auto.
    + intros x. rewrite <- H3, <- app_assoc. reflexivity.
    + intros x Hx. apply elem_of_app in Hx as [Hx|Hx]; [auto|]. now apply list_elem_of_singleton in Hx as ->.
    + now rewrite <- app_assoc.
    + rewrite H6, <- !app_assoc. reflexivity.
Qed.

(** Collecting the packet at the head and returning it. *)
Lemma collect_delivers S R D j J e q l :
  arrived S R D (j :: J) (e :: q) -> msg j = MLarge l ->
  exists S' R' J' q', (r ← (if complete e then Ok (false, e, q, stream R) else spec_loop c b (stream R) e q);
                       spec_finish c r) = Ok (Some (msg_whole (msg j)), q', stream R') /\
    arrived S' R' (D ++ [j]) J' q'.
Proof using HT.
  intros H El.
  assert (Hex : exists S' R' J' e' q', (if complete e then Ok (false, e, q, stream R) else spec_loop c b (stream R) e q)
      = Ok (false, e', q', stream R') /\ arrived S' R' D (j :: J') (e' :: q') /\ complete e' = true).
  { destruct (complete e) eqn:Ec; [exists S, R, J, e, q; auto|]. exact (spec_loop_delivers R S D j J e q l H El Ec). }
  destruct Hex as (S' & R' & J' & e' & q' & E & H' & Ec). rewrite E. cbn [mbind res_bind spec_finish].
  apply (head_complete _ _ _ _ _ _ _ l H' El) in Ec. destruct (deliver_head _ _ _ _ _ _ _ H' Ec) as [Eb Hd].
  exists S', R', J', q'. rewrite Eb. auto.
Qed.

(** A small request has one datagram. *)
Lemma small_all_seen S R D J q j t k bytes addr :
  arrived S R D J q -> msg j = MSmall t k bytes addr -> j ∈ J -> all_seen S j.
Proof using HT.
  intros H El Hj x Hx. rewrite El in Hx. cbn in Hx.
  destruct (proj1 (ar_begun _ _ _ _ _ H j)) as [i0 Hi0]; [rewrite elem_of_app; auto|].
  pose proof (seen_bound _ _ _ _ _ H j i0 (proj2 (elem_of_seen _ _ _) Hi0)) as Hb. rewrite El in Hb. cbn in Hb.
  now replace x with i0 by lia.
Qed.

(** One call delivers the oldest request. *)
Lemma spec_recv_delivers S R D J q :
  arrived S R D J q -> (J <> [] \/ R <> []) ->
  exists j S' R' J' q', spec_recv c b q (stream R) = Ok (Some (msg_whole (msg j)), q', stream R') /\
    arrived S' R' (D ++ [j]) J' q'.
Proof using HT.
  intros H Hne.
  destruct J as [|j J].
  - pose proof (queue_length _ _ _ _ _ H) as Hq. destruct q; [|discriminate].
    destruct R as [|[j i] R]; [now destruct Hne|]. cbn [stream map fst snd spec_recv]. fold (stream R).
    pose proof (next_in_T _ _ _ _ _ H j i R eq_refl) as HjT. destruct (so_msg HT j i HjT) as [Hok Hi].
    pose proof (not_elem_of_nil j) as Hnil.
    destruct (msg j) as [t k bytes addr|l] eqn:El; cbn [msg_pkt].
    + pose proof (arrive_new _ _ _ _ _ H j i R eq_refl (small_entry t k bytes addr sizeof_sockaddr_in) Hnil) as Ha.
      specialize (Ha ltac:(unfold entry_of; now rewrite El)). cbn [app] in Ha. cbn in Hi.
      destruct (deliver_head _ _ _ _ _ _ _ Ha) as [Eb Hd].
      { apply (small_all_seen _ _ _ _ _ j _ _ _ _ Ha El), list_elem_of_here. }
      exists j, ((j, i) :: S), R, [], []. rewrite <- Eb. auto.
    + cbn [lm_frag f_no f_max msg_ok msg_frags] in *. rewrite (proj2 (Z.ltb_lt _ _)) by lia. cbn [negb].
      destruct (next_counts _ _ _ _ _ _ _ l H El) as (_ & _ & _ & _ & _ & Hs).
      pose proof (arrive_new _ _ _ _ _ H j i R eq_refl (new_entry b (lm_frag b l i) (lm_addr l)) Hnil) as Ha.
      specialize (Ha ltac:(unfold entry_of; rewrite El, seen_same, (Hs Hnil); now apply (partial_new m))).
      exists j. exact (collect_delivers _ _ _ _ _ _ _ l Ha El).
  - pose proof (queue_length _ _ _ _ _ H) as Hq. destruct q as [|e q]; [discriminate|]. cbn [spec_recv].
    pose proof (queue_entry _ _ _ _ _ H j e 0%nat eq_refl eq_refl) as He. unfold entry_of in He.
    destruct (msg j) as [t k bytes addr|l] eqn:El.
    + pose proof (small_all_seen _ _ _ _ _ j _ _ _ _ H El (list_elem_of_here _ _)) as Hall.
      destruct (deliver_head _ _ _ _ _ _ _ H Hall) as [Eb Hd].
      exists j, S, R, J, q. rewrite Eb. subst e. auto.
    + rewrite (partial_large _ _ _ He). cbn [negb orb].
      exists j. pose proof (collect_delivers S R D j J e q l H El) as Hx. destruct (complete e); exact Hx.
Qed.

Lemma stream_pkt_ok tags : (forall x, x ∈ tags -> x ∈ T) -> Forall (pkt_ok m b) (stream tags).
Proof using HT.
  intros Hin. apply Forall_forall. intros p Hp. unfold stream in Hp. apply in_map_iff in Hp as ([j i] & <- & Hx).
  cbn [fst snd]. destruct (so_msg HT j i) as [Hok Hi]; [now apply Hin, list_elem_of_In|].
  destruct (msg j) as [t k bytes addr|l]; cbn in *; [exact Hok|]. now apply (lo_frag _ _ _ Hok).
Qed.

Lemma arrived_end S R D q : arrived S R D [] q -> firsts [] T = D -> R = [] /\ q = [].
Proof using HT.
  intros H E. split.
  - destruct R as [|[j i] R]; [reflexivity|]. exfalso.
    pose proof (next_not_done _ _ _ _ _ H j i R eq_refl) as Hn.
    pose proof (ar_order _ _ _ _ _ H) as Ho. rewrite E in Ho. cbn [app] in Ho. cbn [firsts] in Ho.
    rewrite app_nil_r, decide_False in Ho by exact Hn.
    apply (f_equal length) in Ho. rewrite length_app in Ho. cbn in Ho. lia.
  - pose proof (queue_length _ _ _ _ _ H) as Hq. now destruct q.
Qed.

End Stream.

(** ** The worker *)

(** [k] rounds of the loop of [run_server_worker], without what it does with
    the packets: [dynamicbuf.clear()], [udprecvlarge_ipfrag]; what the array
    holds and where it came from, or [None] after a timeout. *)
Fixpoint worker_recvs (m : Z) (stale : nat -> list Z) (k : nat) (r : PktRingBuffer) (dynamicbuf : DynamicArray)
    (evs : list event) : res (list (option (list Z * option sockaddr_in)) * PktRingBuffer * list event) :=
  match k with
  | O => Ok ([], r, evs)
  | S k' =>
      dynamicbuf ← clear dynamicbuf;
      x ← udprecvlarge_ipfrag m (stale k') (Some r) dynamicbuf evs;
      '(xs, r, evs) ← worker_recvs m stale k' (default r (rc_ring x)) (rc_buf x) (rc_rest x);
      Ok ((if rc_timeout x then None else Some (contents (rc_buf x), rc_src x)) :: xs, r, evs)
  end.

Lemma worker_recvs_deliver m c b msg T stale (HT : stream_ok m c b msg T) k : forall S R D J q r buf,
  arrived b msg T S R D J q -> length (firsts [] T) = (length D + k)%nat ->
  ring_is r q -> capacity r = c -> queue_ok m b q -> da_wf buf -> _maxcapability buf = MAX_LARGE_BUFSIZE ->
  exists r', worker_recvs m stale k r buf (map pkt_event (stream b msg R))
    = Ok (map (fun j => Some ((msg_whole (msg j)).1, Some (msg_whole (msg j)).2)) (drop (length D) (firsts [] T)),
          r', []) /\ ring_is r' [].
Proof.
  induction k as [|k IH]; intros S R D J q r buf H Hk Hr Hc Hq W M.
  - pose proof (ar_order _ _ _ _ _ _ _ _ H) as Ho.
    assert (J = [] /\ firsts (D ++ J) R = []) as [-> Hf].
    { apply app_nil. apply length_zero_iff_nil. rewrite Ho, length_app in Hk. lia. }
    rewrite Hf, !app_nil_r in Ho. destruct (arrived_end m c b msg T HT _ _ _ _ H Ho) as [-> ->].
    exists r. rewrite drop_ge by lia. auto.
  - assert (Hne : J <> [] \/ R <> []).
    { pose proof (ar_order _ _ _ _ _ _ _ _ H) as Ho. destruct J; [|now left]. right. intros ->.
      cbn in Ho. rewrite app_nil_r in Ho. rewrite Ho in Hk. lia. }
    destruct (spec_recv_delivers m c b msg T HT _ _ _ _ _ H Hne) as (j & S' & R' & J' & q' & E & H').
    destruct (plain_clear buf W) as (buf1 & Eb & P & _). rewrite M in P. cbn [worker_recvs]. rewrite Eb. cbn [mbind res_bind].
    pose proof (udprecvlarge_is m c b (stale k) r q buf1 (stream b msg R) Hr Hc Hq P) as Href.
    rewrite E in Href. destruct Href as (x & Ex & Hrest & (r1 & Er1 & Hr1 & Hc1) & Hq1 & Hpk).
    { apply (stream_pkt_ok m c b msg T HT). intros t Ht. apply (in_T _ _ _ _ _ _ _ _ H). auto. }
    destruct (msg_whole (msg j)) as [bytes addr] eqn:Ew. destruct Hpk as (Eto & Esrc & Pb).
    rewrite Ex. cbn [mbind res_bind]. rewrite Er1, Hrest. change (default r (Some r1)) with r1.
    pose proof Pb as [[Wx Mx Cx] _].
    destruct (IH S' R' (D ++ [j]) J' q' r1 (rc_buf x) H') as (r' & Erec & Hend); auto.
    { rewrite length_app. cbn. lia. }
    rewrite Erec. cbn [mbind res_bind]. exists r'. split; [|exact Hend]. rewrite Eto, Esrc, Cx.
    pose proof (ar_order _ _ _ _ _ _ _ _ H') as Ho. rewrite length_app. cbn [length].
    assert (Hd : drop (length D) (firsts [] T) = j :: drop (length D + 1) (firsts [] T)).
    { rewrite Ho, <- (app_assoc D), drop_app_length, <- drop_drop, drop_app_length. reflexivity. }
    rewrite Hd. cbn [map]. now rewrite Ew.
Qed.

Lemma deliver_all (m c : Z) (b : nat) (msg : nat -> Msg) (T : list tag) (stale : nat -> list Z)
    (buf : DynamicArray) :
  stream_ok m c b msg T -> 0 < c < 2 ^ 32 -> da_wf buf -> _maxcapability buf = MAX_LARGE_BUFSIZE ->
  exists r, ring_init c = Ok r /\
  exists r', worker_recvs m stale (length (firsts [] T)) r buf (map pkt_event (stream b msg T))
    = Ok (map (fun j => Some ((msg_whole (msg j)).1, Some (msg_whole (msg j)).2)) (firsts [] T), r', []) /\
  ring_is r' [].
Proof.
  intros HT Hc W M. destruct (ring_init_is c Hc) as (r & E & Hr & Hcap). exists r. split; [exact E|].
  apply (worker_recvs_deliver m c b msg T stale HT (length (firsts [] T)) [] T [] [] [] r buf); auto.
  - apply arrived_start.
  - intros e He. now apply not_elem_of_nil in He.
Qed.


(** ** Large PUT requests of FarReach *)

(** The header a server of FarReach sees: operation header, shadow type,
    sequence number and snapshot token of the switch, client and request. *)
Definition farreach_hdr (type : Z) (key : Key) (shadow seq token idx fragseq : Z) : list Z :=
  (be 2 type ++ key_wire key) ++ (be 2 shadow ++ be 4 seq ++ be 4 token) ++ be 2 idx ++ be 4 fragseq.

Lemma seq_type_facts t : is_largevalue_seq t = true -> is_u16 t /\ is_packet_with_clientlogicalidx t = true /\
  (t =? PUTREQ_LARGEVALUE) = false.
Proof.
  unfold is_largevalue_seq. intros H. repeat (apply orb_true_iff in H as [H|H]); apply Z.eqb_eq in H; subst t;
    (split; [unfold is_u16; vm_compute; split; congruence|split; reflexivity]).
Qed.

Lemma length_farreach_hdr t k sh sq tk idx fs : length (farreach_hdr t k sh sq tk idx fs) = 34%nat.
Proof. unfold farreach_hdr. rewrite !length_app, !length_be, length_key_wire. reflexivity. Qed.

(** A fragment the client cut is one the server accepts, whatever the switch
    wrote into its part of the header. *)
Lemma farreach_frag_ok t k sh sq tk idx fs i body :
  is_largevalue_seq t = true -> key_wf k -> is_u16 idx -> is_u32 fs ->
  Z.of_nat (length body) <= MAX_LARGE_BUFSIZE - 34 -> (i < fragnum 1384 body)%nat ->
  frag_ok FARREACH_ID 1384
    (mkFrag t k idx fs (farreach_hdr t k sh sq tk idx fs) i (fragnum 1384 body) (chunk 1384 i body)).
Proof.
  intros Ht Hk Hidx Hfs Hlen Hi. destruct (seq_type_facts t Ht) as (Hu & Hc & Hp).
  destruct (fragnum_bounds 1384 body ltac:(lia)) as (H1 & H2 & H3 & H4).
  pose proof (length_chunk 1384 i body ltac:(lia) Hi) as Hch.
  assert (Hcl : (length (chunk 1384 i body) <= 1384)%nat) by (unfold chunk; rewrite length_take; lia).
  assert (Hfit : (i * 1384 + length (chunk 1384 i body) <= length body)%nat)
    by (destruct (Nat.eqb_spec (S i) (fragnum 1384 body)); nia).
  assert (Hn : Z.of_nat (fragnum 1384 body) < 2 ^ 16).
  { unfold MAX_LARGE_BUFSIZE in Hlen. lia. }
  constructor; cbn [f_type f_key f_idx f_seq f_hdr f_no f_max f_body]; auto; try (unfold is_u16; lia).
  - exists (be 2 t ++ key_wire k), (be 2 sh ++ be 4 sq ++ be 4 tk). split; [reflexivity|]. split.
    + constructor; [exact Hu|exact Hk|]. exists []. split; [reflexivity|].
      rewrite length_app, length_be, length_key_wire. reflexivity.
    + unfold clientlogicalidx_off. rewrite Hp, Ht. rewrite !length_app, !length_be, length_key_wire. reflexivity.
  - rewrite length_farreach_hdr. unfold frag_sizes, get_frag_totalsize. rewrite seq_hdrsize, Ht by exact Ht.
    split; [reflexivity|]. split; [reflexivity|]. split; [lia|]. apply Nat.leb_le. reflexivity.
  - rewrite length_farreach_hdr. unfold MAX_LARGE_BUFSIZE in *. lia.
Qed.

(** A large PUT as the server sees it: type, shadow type, sequence number and
    token per fragment are the switch's. *)
Record SwitchHdr := mkSwitchHdr { sh_type : Z; sh_shadow : Z; sh_seq : Z; sh_token : Z }.

Definition put_hdr (sw : nat -> SwitchHdr) (k : Key) (idx fragseq : Z) (i : nat) : list Z :=
  farreach_hdr (sh_type (sw i)) k (sh_shadow (sw i)) (sh_seq (sw i)) (sh_token (sw i)) idx fragseq.

Definition put_msg (sw : nat -> SwitchHdr) (k : Key) (idx fragseq : Z) (body : list Z) (addr : sockaddr_in) : Msg :=
  MLarge (mkLargeMsg k idx fragseq (fun i => sh_type (sw i)) (put_hdr sw k idx fragseq) body addr).

Lemma put_msg_ok sw k idx fragseq body addr :
  (forall i, is_largevalue_seq (sh_type (sw i)) = true) -> key_wf k -> is_u16 idx -> is_u32 fragseq ->
  Z.of_nat (length body) <= MAX_LARGE_BUFSIZE - 34 ->
  msg_ok FARREACH_ID 1384 (put_msg sw k idx fragseq body addr).
Proof.
  intros Ht Hk Hi Hf Hl. constructor; cbn [lm_body lm_type].
  - intros i Hlt. now apply farreach_frag_ok.
  - intros i j _ _. unfold is_same_optype. now rewrite !Ht.
Qed.

Definition PKT_RING_BUFFER_SIZE : Z := 2048.

Lemma elem_of_pair0 j i (xs : list nat) : (j, i) ∈ map (pair 0%nat) xs <-> j = 0%nat /\ i ∈ xs.
Proof.
  rewrite list_elem_of_In, in_map_iff. setoid_rewrite <- list_elem_of_In. split.
  - intros (x & E & Hx). inversion E; subst. auto.
  - intros [-> Hi]. eauto.
Qed.

Lemma firsts_one done xs : 0%nat ∈ done -> firsts done (map (pair 0%nat) xs) = [].
Proof. intros H. apply firsts_done. intros j i Hj. now apply elem_of_pair0 in Hj as [-> _]. Qed.

(** One large request alone, its fragments in any order. *)
Lemma one_stream_ok sw k idx fragseq body addr perm :
  msg_ok FARREACH_ID 1384 (put_msg sw k idx fragseq body addr) -> perm ≡ₚ seq 0 (fragnum 1384 body) ->
  stream_ok FARREACH_ID PKT_RING_BUFFER_SIZE 1384 (fun _ => put_msg sw k idx fragseq body addr)
    (map (pair 0%nat) perm) /\ firsts [] (map (pair 0%nat) perm) = [0%nat].
Proof.
  intros Hok Hp.
  assert (Hin : forall i, i ∈ perm <-> (i < fragnum 1384 body)%nat).
  { intros i. rewrite Hp, elem_of_seq. lia. }
  assert (Hf : firsts [] (map (pair 0%nat) perm) = [0%nat]).
  { destruct perm as [|i perm].
    - apply Permutation_length in Hp. rewrite length_seq in Hp. unfold fragnum in Hp. cbn in Hp. lia.
    - cbn [map firsts]. rewrite decide_False by apply not_elem_of_nil. cbn [app].
      now rewrite firsts_one by apply list_elem_of_here. }
  split; [|exact Hf]. constructor.
  - apply (NoDup_fmap_2 (pair 0%nat)). rewrite Hp. apply NoDup_ListNoDup, seq_NoDup.
  - intros j i Hj. apply elem_of_pair0 in Hj as [-> Hi]. split; [exact Hok|]. now apply Hin.
  - intros j i i' Hj Hi'. apply elem_of_pair0 in Hj as [-> _]. apply elem_of_pair0. split; [reflexivity|now apply Hin].
  - intros j i j' i' l l' Hj Hj' _ _ _. apply elem_of_pair0 in Hj as [-> _]. now apply elem_of_pair0 in Hj' as [-> _].
  - rewrite Hf. reflexivity.
Qed.

(** The fragments of a large PUT, cut behind the 24 bytes of the client's header
    and with the header of each replaced by the switch, arrive in any order: one
    call of the worker gives the header of fragment 0 and the whole body. *)
Lemma put_received (sw : nat -> SwitchHdr) (k : Key) (idx fragseq : Z) (hdr body : list Z)
    (addr : sockaddr_in) (perm : list nat) (stale : nat -> list Z) (buf : DynamicArray) :
  (forall i, is_largevalue_seq (sh_type (sw i)) = true) -> key_wf k -> is_u16 idx -> is_u32 fragseq ->
  length hdr = 24%nat -> Z.of_nat (length body) <= MAX_LARGE_BUFSIZE - 34 ->
  perm ≡ₚ seq 0 (fragnum 1384 body) -> da_wf buf -> _maxcapability buf = MAX_LARGE_BUFSIZE ->
  exists r r',
    ring_init PKT_RING_BUFFER_SIZE = Ok r /\
    worker_recvs FARREACH_ID stale 1 r buf
      (map (fun i => Dgram (put_hdr sw k idx fragseq i ++ drop 24 (nth i (fragments 1384 hdr body) [])) addr) perm)
    = Ok ([Some (put_hdr sw k idx fragseq 0 ++ body, Some addr)], r', []) /\ ring_is r' [].
Proof.
  intros Ht Hk Hi Hf Hh Hl Hp W M.
  pose proof (put_msg_ok sw k idx fragseq body addr Ht Hk Hi Hf Hl) as Hok.
  destruct (one_stream_ok sw k idx fragseq body addr perm Hok Hp) as [HT Hfi].
  destruct (deliver_all FARREACH_ID PKT_RING_BUFFER_SIZE 1384 _ _ stale buf HT) as (r & Er & r' & Ew & Hr');
    [unfold PKT_RING_BUFFER_SIZE; lia|exact W|exact M|].
  exists r, r'. split; [exact Er|split; [|exact Hr']].
  rewrite Hfi in Ew. cbn [length map msg_whole put_msg lm_hdr lm_body lm_addr fst snd] in Ew. rewrite <- Ew. f_equal.
  unfold stream. rewrite !map_map. apply map_ext_in. intros i Hin. cbn [fst snd put_msg msg_pkt pkt_event lm_frag f_hdr f_no f_max f_body lm_hdr lm_body lm_addr].
  f_equal. apply list_elem_of_In in Hin. rewrite Hp, elem_of_seq in Hin.
  rewrite nth_fragments by lia. unfold fragment. rewrite <- Hh, drop_app_length. reflexivity.
Qed.

(** ** Examples *)

Definition demo_sw (t : Z) (i : nat) : SwitchHdr := mkSwitchHdr t t (Z.of_nat i + 7) 1.
Definition demo_body (x : Z) : list Z := replicate 1500 x.
Definition demo_client (port : Z) : sockaddr_in := mkAddr 2 port 0.
Definition demo_key (x : Z) : Key := mkKey x 2 3 4.

(** Two large PUTs of the clients 3 and 4 and a small request. *)
Definition demo_msg (j : nat) : Msg :=
  match j with
  | 0%nat => put_msg (demo_sw PUTREQ_LARGEVALUE_SEQ) (demo_key 1) 3 70000 (demo_body 5) (demo_client 1)
  | 1%nat => put_msg (demo_sw PUTREQ_LARGEVALUE_SEQ_CASE3) (demo_key 2) 4 9 (demo_body 6) (demo_client 2)
  | _ => MSmall GETREQ (demo_key 3) (be 2 GETREQ ++ key_wire (demo_key 3)) (demo_client 3)
  end.

Definition demo_tags : list tag := [(0, 1); (1, 0); (2, 0); (1, 1); (0, 0)]%nat.

Lemma demo_key_small x : 0 <= x < 100 -> key_wf (demo_key x).
Proof. intros H. unfold key_wf, demo_key, is_u32. cbn. lia. Qed.

Lemma demo_msg_ok j : msg_ok FARREACH_ID 1384 (demo_msg j).
Proof.
  destruct j as [|[|j]]; cbn [demo_msg].
  - apply put_msg_ok; [reflexivity|apply demo_key_small; lia|unfold is_u16; lia|unfold is_u32; lia|].
    unfold demo_body. rewrite length_replicate. discriminate.
  - apply put_msg_ok; [reflexivity|apply demo_key_small; lia|unfold is_u16; lia|unfold is_u32; lia|].
    unfold demo_body. rewrite length_replicate. discriminate.
  - split; [reflexivity|]. split; [apply Nat.leb_le; reflexivity|].
    exists (be 2 GETREQ ++ key_wire (demo_key 3)), []. split; [now rewrite app_nil_r|].
    constructor; [unfold is_u16, GETREQ; lia|apply demo_key_small; lia|]. exists []. split; reflexivity.
Qed.

Lemma demo_stream_ok : stream_ok FARREACH_ID 8 1384 demo_msg demo_tags.
Proof.
  assert (Hf : msg_frags 1384 (demo_msg 0) = 2%nat /\ msg_frags 1384 (demo_msg 1) = 2%nat) by (split; reflexivity).
  assert (Hin : forall j i, (j, i) ∈ demo_tags <-> (j < 3)%nat /\ (i < msg_frags 1384 (demo_msg j))%nat).
  { intros j i. unfold demo_tags. rewrite !elem_of_cons, elem_of_nil. split.
    - intros Hj. repeat (destruct Hj as [Hj|Hj]; [inversion Hj; subst; split; [lia|apply Nat.ltb_lt; reflexivity]|]). tauto.
    - intros [Hj Hi]. destruct j as [|[|[|j]]]; [rewrite (proj1 Hf) in Hi|rewrite (proj2 Hf) in Hi|cbn in Hi|lia];
        destruct i as [|[|i]]; try lia; tauto. }
  constructor.
  - apply (bool_decide_unpack _). vm_compute. exact I.
  - intros j i Hj. split; [apply demo_msg_ok|]. now apply Hin in Hj as [_ ?].
  - intros j i i' Hj Hi'. apply Hin in Hj as [Hj _]. now apply Hin.
  - intros j i j' i' l l' Hj Hj' E E' Hidx. apply Hin in Hj as [Hj _], Hj' as [Hj' _].
    destruct j as [|[|j]], j' as [|[|j']]; try reflexivity; cbn [demo_msg] in E, E'; try discriminate;
      inversion E; inversion E'; subst l l'; cbn in Hidx; discriminate.
  - reflexivity.
Qed.


Lemma demo_array_plain : plain demo_array MAX_LARGE_BUFSIZE [].
Proof.
  constructor; [constructor; [exact ring_array_wf|reflexivity|reflexivity]|].
  intros i _. unfold da_byte, demo_array, da_mem. apply (nth_replicate_0 8).
Qed.

Lemma udprecvlarge_refines_witness :
  exists r x, ring_init 8 = Ok r /\
    udprecvlarge_ipfrag FARREACH_ID [] (Some r) demo_array (map pkt_event (stream 1384 demo_msg demo_tags)) = Ok x /\
    rc_timeout x = false /\ rc_rest x = [] /\
    contents (rc_buf x) = put_hdr (demo_sw PUTREQ_LARGEVALUE_SEQ) (demo_key 1) 3 70000 0 ++ demo_body 5.
Proof.
  destruct (ring_init_is 8) as (r & E & Hr & Hc); [lia|].
  pose proof (udprecvlarge_refines FARREACH_ID 8 1384 [] r [] demo_array (stream 1384 demo_msg demo_tags) Hr Hc) as H.
  specialize (H (fun e He => False_ind _ (not_elem_of_nil e He)) demo_array_plain
    (stream_pkt_ok FARREACH_ID 8 1384 demo_msg demo_tags demo_stream_ok demo_tags (fun _ Ht => Ht))).
  assert (Es : exists q, spec_recv 8 1384 [] (stream 1384 demo_msg demo_tags) =
    Ok (Some (put_hdr (demo_sw PUTREQ_LARGEVALUE_SEQ) (demo_key 1) 3 70000 0 ++ demo_body 5, demo_client 1), q, []))
    by (eexists; vm_compute; reflexivity).
  destruct Es as [q Es]. rewrite Es in H. destruct H as (x & Ex & H1 & _ & _ & H2 & _ & H3).
  exists r, x. split; [exact E|]. split; [exact Ex|]. split; [exact H2|]. split; [exact H1|]. apply H3.
Defined.
