(* ===== verification/RecvClient.v ===== *)
(** * Receivers without a ring buffer

    Clients collect large GET responses, and switch OS, controller and server
    collect snapshot data, with [udprecvlarge] and no ring.  A client skips
    datagrams of other requests.  What [udpsendlarge] cut is put together again
    whatever the order of arrival. *)

From Stdlib Require Import ZArith Lia List.
From stdpp Require Import base tactics list numbers option.
From S2P Require Import Prelude Cursor DynamicArray StdMap Crc32 Key Val DeletedSet KVStore RocksdbWrapper Packet PacketCodec PacketCache PacketScan PacketServer Outband Fragment Reassembly PktRingBuffer RecvLarge RecvSpec RecvProps.

Open Scope Z_scope.

#[local] Arguments put_at : simpl never.

Lemma put_at_nil bs : put_at bs 0 [] = bs.
Proof. unfold put_at. cbn. now rewrite drop_0. Qed.

Section Gather.

(** The packet [hdr ++ body], in parts of [b] bytes; for fragments of IP packets
    [hdr] is an operation header with type [t] and key [k]. *)
Context (m t : Z) (k : Key) (ft frag_maxsize : Z) (b : nat) (hdr body : list Z) (src : sockaddr_in).
Abbreviation n := (fragnum b body).
Abbreviation h := (length hdr).
Abbreviation part i := (fragment hdr i n (chunk b i body)).

Record gather_ok : Prop := {
  go_type : (ft = IP_FRAGTYPE /\ ophdr_is m t k hdr /\ is_packet_with_largevalue t = true /\
             get_frag_hdrsize m t = Ok (Z.of_nat h)) \/
            (ft = UDP_FRAGTYPE /\ hdr = []);
  go_b : (0 < b)%nat;
  go_max : frag_maxsize = Z.of_nat (h + 4 + b) /\ frag_maxsize <= UDP_FRAGMENT_MAXSIZE;
  go_body : Z.of_nat (h + length body) <= MAX_LARGE_BUFSIZE;
  go_num : Z.of_nat n < 2 ^ 16
}.
Hypothesis Hok : gather_ok.

(** The size of the stack buffer. *)
Definition fragbuf_size : nat :=
  Z.to_nat (if ft =? IP_FRAGTYPE then frag_maxsize + IP_FRAGMENT_RESERVESIZE else frag_maxsize).

Record gathers (s : Recv) (S : list nat) : Prop := {
  ga_ring : rv_ring s = None;
  ga_src : rv_src s = Some src;
  ga_buf : exists bytes, plain (rv_buf s) MAX_LARGE_BUFSIZE bytes /\ covers b hdr body S bytes;
  ga_fragbuf : length (rv_fragbuf s) = fragbuf_size;
  ga_sizes : frag_hdrsize s = Z.of_nat h /\ frag_bodysize s = Z.of_nat b;
  ga_nums : max_fragnum s = Z.of_nat n /\ cur_fragnum s = Z.of_nat (length S);
  ga_pkt : ft = IP_FRAGTYPE -> largepkt_key s = k /\ largepkt_optype s = t
}.

Lemma part_length i : (i < n)%nat -> (length (part i) = h + 4 + length (chunk b i body))%nat /\
  (length (chunk b i body) <= b)%nat /\ (length (part i) <= fragbuf_size)%nat /\ (length (part i) <= Z.to_nat frag_maxsize)%nat.
Proof using Hok.
  intros Hi. rewrite length_fragment. destruct (go_max Hok) as [Em _].
  assert (length (chunk b i body) <= b)%nat by (unfold chunk; rewrite length_take; lia).
  unfold fragbuf_size. destruct (ft =? IP_FRAGTYPE); unfold IP_FRAGMENT_RESERVESIZE; lia.
Qed.

Lemma gather_recv s S bytes : gathers s S -> gathers (set_fragbuf (recv_into (rv_fragbuf s) bytes) s) S.
Proof using. intros []. constructor; try assumption. cbn. now rewrite length_recv_into. Qed.

(** A part is copied to its place. *)
Lemma gather_take s S i rest :
  gathers s S -> (i < n)%nat -> i ∉ S -> (length S < n)%nat -> rv_fragbuf s = part i ++ rest ->
  exists s', take_fragment ft s (Z.of_nat (length (part i))) = Ok s' /\ gathers s' (i :: S).
Proof using Hok.
  intros H Hi Hni Hlt Hfb. destruct (ga_sizes _ _ H) as [Eh Eb]. destruct (ga_nums _ _ H) as [Em Ec].
  destruct (ga_buf _ _ H) as (bytes & P & Hc). pose proof (go_b Hok) as Hb. pose proof (go_body Hok) as Hbody.
  pose proof (go_num Hok) as Hn. pose proof (part_in_body b body Hb i Hi) as Hin.
  unfold take_fragment, final_frag_hdrsize. rewrite Hfb, Eh, Eb, Em, Ec.
  rewrite part_no by (unfold is_u16; lia). cbn [mbind res_bind].
  rewrite INVARIANT_true by (apply Z.ltb_lt; lia). cbn [mbind res_bind].
  rewrite part_body by reflexivity. cbn [mbind res_bind].
  assert (Eo : s32 (u64 (Z.of_nat h + Z.of_nat i * Z.of_nat b)) = Z.of_nat (h + i * b)).
  { assert (MAX_LARGE_BUFSIZE < 2 ^ 31) by reflexivity. assert (2 ^ 31 < 2 ^ 64) by reflexivity.
    rewrite <- Nat2Z.inj_mul, <- Nat2Z.inj_add. unfold u64. rewrite Z.mod_small by lia.
    apply s32_id. unfold is_s32. lia. }
  rewrite Eo. destruct (plain_memcpy (rv_buf s) _ bytes (Z.of_nat (h + i * b)) (chunk b i body) P)
    as (d1 & E1 & P1 & _); [lia|lia|]. rewrite E1. cbn [mbind res_bind]. rewrite Nat2Z.id in P1.
  rewrite part_hdr. cbn [mbind res_bind]. pose proof (covers_add b hdr body Hb S bytes i Hc Hi Hni) as Hc'.
  cbn zeta in Hc'. set (bytes1 := put_at bytes _ _) in *.
  assert (Hd : exists d2, (if (ft =? IP_FRAGTYPE) && (Z.of_nat i =? 0) then dynamic_memcpy d1 0 hdr else Ok d1) = Ok d2 /\
    plain d2 MAX_LARGE_BUFSIZE (if (i =? 0)%nat then put_at bytes1 0 hdr else bytes1)).
  { destruct (Z.eqb_spec (Z.of_nat i) 0), (Nat.eqb_spec i 0); try lia; [|rewrite andb_false_r; eauto].
    rewrite andb_true_r. destruct (go_type Hok) as [(-> & _)|(-> & Eh0)]; cbn [Z.eqb IP_FRAGTYPE UDP_FRAGTYPE Pos.eqb].
    - destruct (plain_memcpy d1 _ bytes1 0 hdr P1) as (d2 & E2 & P2 & _); [lia|lia|]. eauto.
    - exists d1. split; [reflexivity|]. rewrite Eh0, put_at_nil. exact P1. }
  destruct Hd as (d2 & E2 & P2). rewrite E2. cbn [mbind res_bind]. eexists. split; [reflexivity|].
  destruct H. constructor; try assumption.
  - eexists. split; [exact P2|exact Hc'].
  - split; [reflexivity|]. cbn. rewrite u16_id by (unfold is_u16; lia). lia.
Qed.

(** ** What arrives *)

(** A part of the packet, or a datagram of another request. *)
Inductive arrival :=
  | Part (i : nat) (addr : sockaddr_in)
  | Other (type : Z) (key : Key) (bytes : list Z) (addr : sockaddr_in).

Definition arrival_event (a : arrival) : event :=
  match a with
  | Part i addr => Dgram (part i) addr
  | Other _ _ bytes addr => Dgram bytes addr
  end.

Definition other_ok (type : Z) (key : Key) (bytes : list Z) : Prop :=
  ft = IP_FRAGTYPE /\ (key <> k \/ type <> t) /\ (length bytes <= fragbuf_size)%nat /\
  exists oph tl, bytes = oph ++ tl /\ ophdr_is m type key oph.

Definition arrival_ok (a : arrival) : Prop :=
  match a with
  | Part i _ => (i < n)%nat
  | Other type key bytes _ => other_ok type key bytes
  end.

Fixpoint parts (l : list arrival) : list nat :=
  match l with
  | [] => []
  | Part i _ :: l' => i :: parts l'
  | Other _ _ _ _ :: l' => parts l'
  end.

Lemma part_prefix i : ft = IP_FRAGTYPE -> ophdr_is m t k hdr /\ exists tl, part i = hdr ++ tl.
Proof using Hok.
  intros E. destruct (go_type Hok) as [(_ & Ho & _)|(E' & _)]; [|rewrite E in E'; discriminate].
  split; [exact Ho|]. unfold fragment. eauto.
Qed.

Lemma later_part s S i addr rest :
  gathers s S -> (i < n)%nat -> rv_fragbuf s = part i ++ rest ->
  later_packet m frag_maxsize ft s (Z.of_nat (length (part i))) addr = Ok (true, s).
Proof using Hok.
  intros H Hi Hfb. unfold later_packet. destruct (Z.eqb_spec ft IP_FRAGTYPE) as [E|_]; [|reflexivity].
  destruct (part_prefix i E) as (Ho & tl & Ep). destruct (ga_pkt _ _ H E) as [-> ->].
  rewrite Hfb, (ga_ring _ _ H), Ep, <- app_assoc. pose proof (length_ophdr _ _ _ _ Ho). rewrite length_app.
  assert (Hn : Z.of_nat (length hdr + length tl) < 2 ^ 32).
  { pose proof (part_length i Hi) as (_ & _ & _ & Hl). rewrite Ep, length_app in Hl. destruct (go_max Hok) as [_ Hm].
    unfold UDP_FRAGMENT_MAXSIZE in Hm. lia. }
  rewrite (ophdr_key m t k hdr Ho) by lia. cbn [mbind res_bind].
  rewrite (ophdr_type m t k hdr Ho) by lia. cbn [mbind res_bind].
  now rewrite bool_decide_eq_true_2, Z.eqb_refl by reflexivity.
Qed.

Lemma later_other s S type key bytes addr rest :
  gathers s S -> other_ok type key bytes -> rv_fragbuf s = bytes ++ rest ->
  later_packet m frag_maxsize ft s (Z.of_nat (length bytes)) addr = Ok (false, s).
Proof using Hok.
  intros H (E & Hne & Hlen & oph & tl & Eb & Ho) Hfb. unfold later_packet.
  rewrite E. cbn [Z.eqb IP_FRAGTYPE Pos.eqb]. destruct (ga_pkt _ _ H E) as [-> ->].
  rewrite Hfb, (ga_ring _ _ H). rewrite Eb, length_app, <- app_assoc in *. pose proof (length_ophdr _ _ _ _ Ho).
  assert (Hn : Z.of_nat (length oph + length tl) < 2 ^ 32).
  { destruct (go_max Hok) as [_ Hm]. unfold fragbuf_size in Hlen.
    unfold UDP_FRAGMENT_MAXSIZE in Hm. rewrite E in Hlen. cbn [Z.eqb IP_FRAGTYPE Pos.eqb] in Hlen.
    unfold IP_FRAGMENT_RESERVESIZE in Hlen. lia. }
  rewrite (ophdr_key m type key oph Ho) by lia. cbn [mbind res_bind].
  rewrite (ophdr_type m type key oph Ho) by lia. cbn [mbind res_bind].
  destruct (bool_decide_reflect (key = k)); [|reflexivity].
  destruct (Z.eqb_spec type t); [|reflexivity]. destruct Hne; congruence.
Qed.

(** The loop puts in all parts and returns at the last one. *)
Lemma gather_loop l : forall s S rest,
  gathers s S -> Forall arrival_ok l -> parts l ++ S ≡ₚ seq 0 n -> (length S < n)%nat ->
  exists s' S' l', recv_loop m frag_maxsize ft (map arrival_event l ++ rest) false s
    = Ok (false, false, s', map arrival_event l' ++ rest) /\
    gathers s' S' /\ S' ≡ₚ seq 0 n /\ parts l' = [] /\ l' `suffix_of` l.
Proof using Hok.
  induction l as [|a l IH]; intros s S rest H Hl Hp Hlt.
  - apply Permutation_length in Hp. rewrite length_seq in Hp. cbn in Hp. lia.
  - apply Forall_cons_1 in Hl as [Ha Hl]. destruct a as [i addr|type key bytes addr]; cbn [map arrival_event app recv_loop].
    + cbn [arrival_ok] in Ha. destruct (part_length i Ha) as (El & _ & Hfit & _).
      destruct (recv_fits (rv_fragbuf s) (part i)) as [En Ei]; [now rewrite (ga_fragbuf _ _ H)|].
      pose proof (gather_recv s S (part i) H) as H'. rewrite En. set (s1 := set_fragbuf _ s) in *.
      rewrite (later_part s1 S i addr _ H' Ha Ei). cbn [mbind res_bind negb orb].
      destruct (ga_sizes _ _ H') as [Eh _].
      rewrite INVARIANT_true by (apply Z.leb_le; unfold final_frag_hdrsize; rewrite Eh; lia). cbn [mbind res_bind].
      cbn [parts app] in Hp.
      assert (Hni : i ∉ S).
      { assert (Hnd : NoDup (i :: parts l ++ S)) by (rewrite Hp; apply NoDup_ListNoDup, seq_NoDup).
        inversion Hnd as [|? ? Hx]. rewrite elem_of_app in Hx. tauto. }
      destruct (gather_take s1 S i _ H' Ha Hni Hlt Ei) as (s2 & E2 & H2). rewrite E2. cbn [mbind res_bind].
      destruct (ga_nums _ _ H2) as [-> ->].
      assert (Hp' : parts l ++ i :: S ≡ₚ seq 0 n) by now rewrite <- Permutation_middle.
      destruct (Z.leb_spec (Z.of_nat n) (Z.of_nat (length (i :: S)))) as [Hle|Hgt].
      * pose proof (Permutation_length Hp') as Hpl. rewrite length_app, length_seq in Hpl. cbn [length] in Hpl, Hle.
        assert (Enil : parts l = []) by (apply length_zero_iff_nil; lia).
        exists s2, (i :: S), l. rewrite Enil in Hp'. do 4 (split; [assumption || reflexivity|]). now apply suffix_cons_r.
      * destruct (IH s2 (i :: S) rest H2 Hl Hp') as (s' & S' & l' & ? & ? & ? & ? & ?); [cbn [length] in *; lia|].
        exists s', S', l'. do 4 (split; [assumption|]). now apply suffix_cons_r.
    + pose proof Ha as (_ & _ & Hfit & _).
      destruct (recv_fits (rv_fragbuf s) bytes) as [En Ei]; [now rewrite (ga_fragbuf _ _ H)|].
      pose proof (gather_recv s S bytes H) as H'. rewrite En.
      rewrite (later_other _ S type key bytes addr _ H' Ha Ei). cbn [mbind res_bind negb orb INVARIANT].
      destruct (IH _ S rest H' Hl Hp Hlt) as (s' & S' & l' & ? & ? & ? & ? & ?).
      exists s', S', l'. do 4 (split; [assumption|]). now apply suffix_cons_r.
Qed.

(** ** The whole call *)

Lemma gather_first s i rest :
  rv_ring s = None -> plain (rv_buf s) MAX_LARGE_BUFSIZE [] -> cur_fragnum s = 0 ->
  frag_totalsize s = frag_maxsize -> length (rv_fragbuf s) = fragbuf_size -> (i < n)%nat ->
  rv_fragbuf s = part i ++ rest ->
  exists s1, first_packet m frag_maxsize ft s (Z.of_nat (length (part i))) src = Ok (true, s1) /\
    gathers s1 [] /\ rv_fragbuf s1 = rv_fragbuf s.
Proof using Hok.
  intros Er P Ec Et Hlen Hi Hfb. destruct (part_length i Hi) as (El & _ & _ & Hmx).
  destruct (go_max Hok) as [Em Hm]. unfold UDP_FRAGMENT_MAXSIZE in Hm. pose proof (go_b Hok) as Hb.
  pose proof (go_body Hok) as Hbody. pose proof (go_num Hok) as Hn.
  assert (Ejudge : judge_first m ft (part i ++ rest) (Z.of_nat (length (part i))) = Ok (true, Z.of_nat h)).
  { unfold judge_first. destruct (go_type Hok) as [(Eft & Ho & Hl & Eh)|(Eft & Eh)]; rewrite Eft; cbn [Z.eqb IP_FRAGTYPE UDP_FRAGTYPE Pos.eqb].
    - destruct (part_prefix i Eft) as (_ & tl & Ep). rewrite Ep at 2. rewrite <- app_assoc.
      rewrite (ophdr_type m t k hdr Ho) by (pose proof (length_ophdr _ _ _ _ Ho); lia). cbn [mbind res_bind].
      now rewrite Hl, Eh.
    - now rewrite Eh. }
  unfold first_packet. cbn [rv_fragbuf rv_ring rv_buf set_src]. rewrite Hfb, Ejudge. cbn [mbind res_bind negb].
  assert (Hs : exists s1, save_largepkt m frag_maxsize ft (set_src src s) (Z.of_nat (length (part i))) (Z.of_nat h) src = Ok s1 /\
      frag_hdrsize s1 = Z.of_nat h /\ frag_totalsize s1 = frag_maxsize /\
      rv_fragbuf s1 = part i ++ rest /\ rv_buf s1 = rv_buf s /\ cur_fragnum s1 = 0 /\ rv_ring s1 = None /\
      rv_src s1 = Some src /\ (ft = IP_FRAGTYPE -> largepkt_key s1 = k /\ largepkt_optype s1 = t)).
  { unfold save_largepkt. cbn [rv_fragbuf rv_ring set_src]. rewrite Hfb, Er.
    destruct (Z.eqb_spec ft IP_FRAGTYPE) as [Eft|Eft].
    - destruct (part_prefix i Eft) as (Ho & tl & Ep). pose proof (length_ophdr _ _ _ _ Ho).
      assert (Rk : run_reader (get_packet_key m (Z.of_nat (length (part i)))) (part i ++ rest) = Ok k)
        by (rewrite Ep at 2; rewrite <- app_assoc; apply (ophdr_key m t k hdr Ho); lia).
      assert (Rt : run_reader (get_packet_type (Z.of_nat (length (part i)))) (part i ++ rest) = Ok t)
        by (rewrite Ep at 2; rewrite <- app_assoc; apply (ophdr_type m t k hdr Ho); lia).
      rewrite Rk. cbn [mbind res_bind]. rewrite Rt. cbn [mbind res_bind]. eexists. split; [reflexivity|]. cbn. auto 12.
    - eexists. split; [reflexivity|]. cbn.
      repeat match goal with |- _ /\ _ => split end; auto; intros; contradiction. }
  destruct Hs as (s1 & E1 & Eh1 & Et1 & Ef1 & Eb1 & Ec1 & Er1 & Es1 & Ep1). rewrite E1. cbn [mbind res_bind].
  unfold final_frag_hdrsize. cbn [frag_hdrsize frag_totalsize rv_fragbuf rv_buf cur_fragnum set_sizes]. rewrite Eh1, Et1, Ef1, Eb1, Ec1.
  replace (u64 (frag_maxsize - (Z.of_nat h + 2 + 2))) with (Z.of_nat b)
    by (unfold u64; rewrite Z.mod_small; lia).
  assert (Ht : forall x y, x = true -> y = true -> INVARIANT (x && y) = Ok tt) by now intros ? ? -> ->.
  rewrite !Ht by (first [apply Z.leb_le; lia|apply negb_true_iff, Z.eqb_neq; lia]). cbn [mbind res_bind].
  rewrite part_hdr. cbn [mbind res_bind].
  destruct (plain_memcpy (rv_buf s) _ [] 0 hdr P) as (d & Ed & Pd & _); [lia|lia|].
  change (Z.to_nat 0) with 0%nat in Pd. rewrite put_at_0 in Pd. rewrite Ed. cbn [mbind res_bind].
  rewrite part_max by (unfold is_u16; lia). cbn [mbind res_bind]. eexists. split; [reflexivity|].
  split; [|exact Ef1]. constructor; cbn; auto.
  - exists hdr. split; [exact Pd|]. constructor; [lia|..]; intros; now apply not_elem_of_nil in H.
  - rewrite Ef1, <- Hfb. exact Hlen.
Qed.

(** What arrives after the first part may be anything of other requests; the
    packet is returned when its last part is there. *)
Lemma gather_call stale buf i l rest :
  plain buf MAX_LARGE_BUFSIZE [] -> (i < n)%nat -> Forall arrival_ok l -> i :: parts l ≡ₚ seq 0 n ->
  exists buf' l', udprecvlarge m frag_maxsize ft stale None buf (map arrival_event (Part i src :: l) ++ rest)
    = Ok (mkReceived false buf' (Some src) None (map arrival_event l' ++ rest)) /\
    plain buf' MAX_LARGE_BUFSIZE (hdr ++ body) /\ parts l' = [] /\ l' `suffix_of` l.
Proof using Hok.
  intros P Hi Hl Hp. unfold udprecvlarge. set (s := recv_start frag_maxsize ft stale None buf).
  assert (Hlen : length (rv_fragbuf s) = fragbuf_size).
  { unfold s, recv_start, fragbuf_size. cbn [rv_fragbuf]. rewrite length_take, length_app, length_replicate. lia. }
  enough (exists s' S' l', recv_loop m frag_maxsize ft (map arrival_event (Part i src :: l) ++ rest) true s
    = Ok (false, false, s', map arrival_event l' ++ rest) /\ gathers s' S' /\ S' ≡ₚ seq 0 n /\ parts l' = [] /\
    l' `suffix_of` l) as (s' & S' & l' & E & H & HS & Hl').
  { rewrite E. cbn [mbind res_bind after_loop]. rewrite (ga_src _ _ H), (ga_ring _ _ H).
    destruct (ga_buf _ _ H) as (bytes & P' & Hc). exists (rv_buf s'), l'. split; [reflexivity|]. split; [|exact Hl'].
    rewrite <- (covers_full b hdr body (go_b Hok) S' bytes Hc); [exact P'|].
    intros x Hx. rewrite HS. apply elem_of_seq. lia. }
  cbn [map arrival_event app recv_loop]. destruct (part_length i Hi) as (El & _ & Hfit & _).
  destruct (recv_fits (rv_fragbuf s) (part i)) as [En Ei]; [now rewrite Hlen|]. rewrite En.
  destruct (gather_first (set_fragbuf (recv_into (rv_fragbuf s) (part i)) s) i (drop (length (part i)) (rv_fragbuf s)) eq_refl P eq_refl eq_refl)
    as (s1 & E1 & H1 & F1); [cbn [rv_fragbuf set_fragbuf]; now rewrite length_recv_into|exact Hi|exact Ei|].
  rewrite E1. cbn [mbind res_bind]. rewrite Ei in F1.
  assert (Hn : (0 < n)%nat) by lia.
  destruct (gather_take s1 [] i _ H1 Hi (not_elem_of_nil i) Hn F1) as (s2 & E2 & H2). rewrite E2. cbn [mbind res_bind].
  destruct (ga_nums _ _ H2) as [-> ->].
  assert (Hp' : parts l ++ [i] ≡ₚ seq 0 n) by now rewrite <- Permutation_cons_append.
  destruct (Z.leb_spec (Z.of_nat n) (Z.of_nat (length [i]))) as [Hle|Hgt].
  - pose proof (Permutation_length Hp) as Hpl. rewrite length_seq in Hpl. cbn [length] in Hpl, Hle.
    assert (Enil : parts l = []) by (apply length_zero_iff_nil; lia).
    exists s2, [i], l. rewrite Enil in Hp'. auto 6.
  - apply (gather_loop l s2 [i] rest H2 Hl Hp'). cbn [length] in *. lia.
Qed.

End Gather.

Lemma fragnum_u16 b body : (0 < b)%nat -> Z.of_nat (length body) <= 65535 * Z.of_nat b -> Z.of_nat (fragnum b body) < 2 ^ 16.
Proof. intros Hb Hl. destruct (fragnum_bounds b body Hb) as (H1 & H2 & H3 & H4). nia. Qed.

Lemma parts_map src (perm : list nat) : parts (map (fun i => Part i src) perm) = perm.
Proof. induction perm as [|i perm IH]; [reflexivity|]. cbn [map parts]. now rewrite IH. Qed.

(** Nothing is left when nothing but parts arrives. *)
Lemma parts_left src (perm : list nat) l :
  l `suffix_of` map (fun i => Part i src) perm -> parts l = [] -> l = [].
Proof.
  intros [l0 E] Hl. apply map_eq_app in E as (p1 & p2 & _ & _ & <-). rewrite parts_map in Hl. now subst.
Qed.

Lemma udp_gather (b : nat) (m : Z) (data tl : list Z) (src : sockaddr_in) (perm : list nat)
    (stale : list Z) (cleared : DynamicArray) :
  Z.of_nat b = 65503 -> Z.of_nat (length data) <= MAX_LARGE_BUFSIZE -> perm ≡ₚ seq 0 (fragnum b data) ->
  plain cleared MAX_LARGE_BUFSIZE [] ->
  exists buf',
    udprecvlarge_udpfrag m stale cleared (map (fun i => Dgram (nth i (fragments b [] data) []) src) perm)
      = Ok (mkReceived false buf' (Some src) None []) /\
    contents buf' = data /\ da_size buf' = Z.of_nat (length data).
Proof.
  intros Hu Hl Hp P.
  assert (Hlt : MAX_LARGE_BUFSIZE < 2 ^ 30) by reflexivity.
  assert (Hn : Z.of_nat (fragnum b data) < 2 ^ 16) by (apply fragnum_u16; unfold MAX_LARGE_BUFSIZE in Hl; lia).
  assert (Hok : gather_ok m 0 Key_min UDP_FRAGTYPE UDP_FRAGMENT_MAXSIZE b [] data).
  { constructor; [right; auto|lia|unfold UDP_FRAGMENT_MAXSIZE; cbn [length]; lia|cbn [length]; lia|exact Hn]. }
  assert (Hin : forall i, i ∈ perm -> (i < fragnum b data)%nat) by (intros i; rewrite Hp, elem_of_seq; lia).
  destruct perm as [|i perm].
  { apply Permutation_length in Hp. rewrite length_seq in Hp. unfold fragnum in Hp. cbn in Hp. lia. }
  destruct (gather_call _ _ _ _ _ _ _ _ src Hok stale cleared i (map (fun i => Part i src) perm) [])
    as (buf' & l' & E & Hc & Hl' & Hsuf).
  - exact P.
  - apply Hin, list_elem_of_here.
  - apply List.Forall_map, Forall_forall. intros j Hj. cbn. apply Hin. apply list_elem_of_further. now rewrite list_elem_of_In.
  - now rewrite parts_map.
  - exists buf'. split; [|exact (conj (ho_bytes _ _ _ (pl_holds _ _ _ Hc)) (holds_size _ _ _ (pl_holds _ _ _ Hc)))].
    rewrite (parts_left src perm l' Hsuf Hl') in E. cbn [map app] in E. rewrite app_nil_r in E.
      unfold udprecvlarge_udpfrag. rewrite <- E. f_equal. cbn [map arrival_event]. rewrite map_map.
      change (?x :: map ?f perm) with (map f (i :: perm)).
      apply map_ext_in. intros j Hj. cbn [arrival_event]. f_equal.
      apply nth_fragments. apply Hin. now rewrite list_elem_of_In.
Qed.

(** The body bytes of a UDP fragment. *)
Definition udp_part : nat := Z.to_nat (UDP_FRAGMENT_MAXSIZE - 4).

(** Snapshot data of at most 8 MiB crosses the network: the switch OS or the
    controller sends it with [udpsendlarge_udpfrag], the datagrams arrive in any
    order, and the receiver, after [clear], gets exactly the bytes that were
    sent and leaves nothing in the socket. *)
Lemma udp_received (data tl : list Z) :
  Z.of_nat (length data) <= MAX_LARGE_BUFSIZE ->
  exists frs, udpsendlarge_udpfrag (data ++ tl) (Z.of_nat (length data)) = Ok frs /\
    forall m src perm stale buf,
      perm ≡ₚ seq 0 (length frs) -> da_wf buf -> _maxcapability buf = MAX_LARGE_BUFSIZE ->
      exists cleared buf', clear buf = Ok cleared /\
        udprecvlarge_udpfrag m stale cleared (map (fun i => Dgram (nth i frs []) src) perm)
          = Ok (mkReceived false buf' (Some src) None []) /\
        contents buf' = data /\ da_size buf' = Z.of_nat (length data).
Proof.
  intros Hl. assert (Hu : Z.of_nat udp_part = 65503) by (apply Z2Nat.id; discriminate).
  assert (Hn : Z.of_nat (fragnum udp_part data) < 2 ^ 16) by (apply fragnum_u16; unfold MAX_LARGE_BUFSIZE in Hl; lia).
  exists (fragments udp_part [] data). split.
  - pose proof (udpsendlarge_fragments [] data tl udp_part) as Hs. unfold udpsendlarge_udpfrag.
    cbn [length app] in Hs. replace (Z.of_nat 0 + 4 + Z.of_nat udp_part) with UDP_FRAGMENT_MAXSIZE in Hs
      by (rewrite Hu; reflexivity). assert (MAX_LARGE_BUFSIZE < 2 ^ 30) by reflexivity. apply Hs; (lia || reflexivity).
  - intros m src perm stale buf Hp W Hm. rewrite length_fragments in Hp.
    destruct (plain_clear buf W) as (cleared & Ec & P & _). rewrite Hm in P.
    destruct (udp_gather udp_part m data tl src perm stale cleared Hu Hl Hp P) as (buf' & Er & Hc).
    exists cleared, buf'. auto.
Qed.

(** ** Large responses *)

Lemma hdr_wire_ophdr p : packet_wf p -> is_u16 (p_type p) ->
  ophdr_is (p_methodid p) (p_type p) (p_key p) (hdr_wire p).
Proof.
  intros Hp Ht. constructor; [exact Ht|apply Hp|]. exists (switch_wire p). split; [reflexivity|].
  rewrite length_hdr_wire. apply ophdrsize_ok, Hp.
Qed.

Definition response_body (p : GetResponseSeq) (pad : Z) : list Z :=
  val_wire_large (gp_val (gs_resp p)) ++ be 4 (gs_seq p) ++ [bool_byte (gp_stat (gs_resp p))] ++
  be 2 (gp_nodeidx_foreval (gs_resp p)) ++ [pad].

(** What arrives when the datagrams [frs] were sent. *)
Definition arrives (frs : list (list Z)) (a : arrival) : event :=
  match a with
  | Part i addr => Dgram (nth i frs []) addr
  | Other _ _ bytes addr => Dgram bytes addr
  end.

Lemma arrives_fragments b hdr body l : (forall i, i ∈ parts l -> (i < fragnum b body)%nat) ->
  map (arrives (fragments b hdr body)) l = map (arrival_event b hdr body) l.
Proof.
  induction l as [|[i addr|? ? ? ?] l IH]; intros H; [reflexivity| |]; cbn [map arrives arrival_event parts] in *.
  - rewrite IH by (intros; apply H; now apply list_elem_of_further). f_equal. f_equal.
    apply nth_fragments. apply H, list_elem_of_here.
  - now rewrite IH.
Qed.

(** A large GET response crosses the network to a client: the datagrams of
    [udpsendlarge_ipfrag] arrive in any order, after the first one mixed with
    datagrams of other requests, which the client skips; the client gets the
    serialised response and reads the server's value, sequence number, status
    and node from it. *)
Theorem large_response_received (p : GetResponseSeq) (pad : Z) (tl : list Z) (src : sockaddr_in)
    (i : nat) (l : list arrival) (rest : list event) (stale : list Z) (buf : DynamicArray) :
  let m := p_methodid (gp_base (gs_resp p)) in
  let body := response_body p pad in
  let b := (1408 - hdr_size m)%nat in
  large_res_wf p -> Z.of_nat (length (large_wire p)) < MAX_LARGE_BUFSIZE ->
  Forall (arrival_ok m GETRES_LARGEVALUE_SEQ (p_key (gp_base (gs_resp p))) IP_FRAGTYPE IP_FRAGMENT_MAXSIZE b body) l ->
  i :: parts l ≡ₚ seq 0 (fragnum b body) ->
  da_wf buf -> _maxcapability buf = MAX_LARGE_BUFSIZE ->
  exists h frs cleared buf' l',
    get_frag_hdrsize m GETRES_LARGEVALUE_SEQ = Ok h /\
    udpsendlarge_ipfrag (large_wire p ++ pad :: tl) (Z.of_nat (length (large_wire p)) + 1) h = Ok frs /\
    clear buf = Ok cleared /\
    udprecvlarge_ipfrag m stale None cleared (map (arrives frs) (Part i src :: l) ++ rest)
      = Ok (mkReceived false buf' (Some src) None (map (arrives frs) l' ++ rest)) /\
    parts l' = [] /\ l' `suffix_of` l /\
    run_reader (GetResponseLargevalueSeq_parse m (da_size buf')) (contents buf') = Ok (large_res_wire p).
Proof.
  intros m body b Hp Hl Ha Hperm W M. destruct (plain_clear buf W) as (cleared & Ec & P & _). rewrite M in P.
  assert (Hh : (18 <= hdr_size m <= 22)%nat) by apply hdr_size_le. set (hdr := hdr_wire (gp_base (gs_resp p))).
  assert (Ew : large_wire p ++ [pad] = hdr ++ body)
    by (unfold large_wire, body, response_body; now rewrite <- !app_assoc).
  assert (Eh : length hdr = hdr_size m) by apply length_hdr_wire.
  pose proof (f_equal length Ew) as El. rewrite !length_app in El. cbn [length] in El.
  assert (Hlt : MAX_LARGE_BUFSIZE = 8388608) by reflexivity.
  assert (Hn : Z.of_nat (fragnum b body) < 2 ^ 16) by (apply fragnum_u16; lia).
  assert (Hfh : get_frag_hdrsize m GETRES_LARGEVALUE_SEQ = Ok (Z.of_nat (length hdr))).
  { rewrite Eh. apply ophdrsize_ok, Hp. }
  assert (Hin : forall j, j ∈ parts (Part i src :: l) -> (j < fragnum b body)%nat)
    by (intros j; cbn [parts]; rewrite Hperm, elem_of_seq; lia).
  destruct (gather_call m GETRES_LARGEVALUE_SEQ (p_key (gp_base (gs_resp p))) IP_FRAGTYPE IP_FRAGMENT_MAXSIZE b hdr body src)
    with (stale := stale) (buf := cleared) (i := i) (l := l) (rest := rest) as (buf' & l' & E & Hc & Hl' & Hsuf);
    [|exact P|apply Hin, list_elem_of_here|exact Ha|exact Hperm|].
  { constructor; [left|lia|unfold IP_FRAGMENT_MAXSIZE, UDP_FRAGMENT_MAXSIZE; lia|lia|exact Hn].
    split; [reflexivity|]. split; [|split; [reflexivity|exact Hfh]].
    rewrite <- (lw_type _ Hp). apply hdr_wire_ophdr; apply Hp. }
  exists (Z.of_nat (length hdr)), (fragments b hdr body), cleared, buf', l'.
  split; [exact Hfh|]. split; [|split; [exact Ec|split; [|split; [exact Hl'|split; [exact Hsuf|]]]]].
  - pose proof (udpsendlarge_fragments hdr body tl b) as Hs. unfold udpsendlarge_ipfrag.
    replace (large_wire p ++ pad :: tl) with (hdr ++ body ++ tl)
      by (now rewrite app_assoc, <- Ew, <- app_assoc).
    replace IP_FRAGMENT_MAXSIZE with (Z.of_nat (length hdr) + 4 + Z.of_nat b)
      by (unfold IP_FRAGMENT_MAXSIZE; lia).
    apply Hs; [lia|lia|lia|exact Hn|]. rewrite length_app. lia.
  - rewrite !arrives_fragments; [exact E| |exact Hin]. rewrite Hl'. intros j Hj. now apply not_elem_of_nil in Hj.
  - unfold da_size. rewrite (holds_size _ _ _ (pl_holds _ _ _ Hc)), (ho_bytes _ _ _ (pl_holds _ _ _ Hc)), <- Ew.
    rewrite <- (app_nil_r (large_wire p ++ [pad])). apply reads_run, large_reads; [exact Hp|].
    rewrite !length_app. cbn [length]. lia.
Qed.

(** The parts of a response with a value of 2000 bytes, the second one first,
    and a response to another GET between them. *)
Definition demo_response : GetResponseSeq :=
  mkGetResponseSeq (mkGetResponse (demo_hdr FARREACH_ID GETRES_LARGEVALUE_SEQ)
    (mkVal 2000 (Some (replicate 2000 5))) true 3 0 0) 77.

Definition demo_arrivals : list arrival :=
  [Other GETRES (mkKey 9 9 9 9) (be 2 GETRES ++ key_wire (mkKey 9 9 9 9) ++ [1; 2; 3]) sockaddr_zero;
   Part 0 sockaddr_zero].

Lemma demo_response_wf : large_res_wf demo_response.
Proof.
  constructor; cbn; try (unfold is_u16, is_u32, SWITCH_MAX_VALLEN; lia); try reflexivity.
  - apply demo_hdr_wf; [unfold valid_method, FARREACH_ID, DISTCACHE_ID|unfold is_u16, GETRES_LARGEVALUE_SEQ]; lia.
  - right. exists (replicate 2000 5). split; [reflexivity|]. split; [discriminate|].
    split; [apply Forall_replicate; unfold is_byte; lia|]. vm_compute. reflexivity.
Qed.

Lemma demo_arrivals_ok : Forall (arrival_ok FARREACH_ID GETRES_LARGEVALUE_SEQ (mkKey 1 2 3 4) IP_FRAGTYPE
  IP_FRAGMENT_MAXSIZE 1390 (response_body demo_response 6)) demo_arrivals.
Proof.
  constructor; [|constructor; [|constructor]].
  - split; [reflexivity|]. split; [left; discriminate|]. split; [apply Nat.leb_le; vm_compute; reflexivity|].
    exists (be 2 GETRES ++ key_wire (mkKey 9 9 9 9)), [1; 2; 3]. split; [now rewrite <- app_assoc|].
    constructor; [unfold is_u16, GETRES; lia|unfold key_wf, is_u32; cbn; lia|]. exists []. split; reflexivity.
  - cbn [arrival_ok]. apply Nat.ltb_lt. vm_compute. reflexivity.
Qed.

Lemma large_response_received_witness :
  exists h frs cleared buf' l',
    get_frag_hdrsize FARREACH_ID GETRES_LARGEVALUE_SEQ = Ok h /\
    udpsendlarge_ipfrag (large_wire demo_response ++ 6 :: []) (Z.of_nat (length (large_wire demo_response)) + 1) h = Ok frs /\
    clear demo_large_array = Ok cleared /\
    udprecvlarge_ipfrag FARREACH_ID [] None cleared (map (arrives frs) (Part 1 sockaddr_zero :: demo_arrivals) ++ [])
      = Ok (mkReceived false buf' (Some sockaddr_zero) None (map (arrives frs) l' ++ [])) /\
    parts l' = [] /\ l' `suffix_of` demo_arrivals /\
    run_reader (GetResponseLargevalueSeq_parse FARREACH_ID (da_size buf')) (contents buf') = Ok (large_res_wire demo_response).
Proof.
  apply (large_response_received demo_response 6 [] sockaddr_zero 1 demo_arrivals [] [] demo_large_array).
  - exact demo_response_wf.
  - apply Z.ltb_lt. vm_compute. reflexivity.
  - exact demo_arrivals_ok.
  - assert (E : fragnum (1408 - hdr_size FARREACH_ID) (response_body demo_response 6) = 2%nat) by (vm_compute; reflexivity).
    cbn zeta. change (p_methodid (gp_base (gs_resp demo_response))) with FARREACH_ID. rewrite E. apply Permutation_swap.
  - exact demo_large_array_wf.
  - reflexivity.
Defined.
