(* ===== verification/MultiSrc.v ===== *)
(** * Receiving range query responses (common/socket_helper.c)

    Every server of the queried range answers with a SCANRES_SPLIT packet, cut
    into fragments.  [udprecvlarge_multisrc] collects the fragments of all
    servers, one dynamic array per server, and skips datagrams of other
    requests.  Its only caller passes no source addresses. *)

From Stdlib Require Import ZArith Lia List.
From stdpp Require Import base tactics list numbers option.
From S2P Require Import Prelude Cursor DynamicArray StdMap Crc32 Key Val DeletedSet KVStore RocksdbWrapper Packet PacketCodec PacketCache PacketScan PacketServer Outband Fragment Reassembly PktRingBuffer RecvLarge RecvSpec RecvProps RecvClient.

Open Scope Z_scope.

(** ** Offsets by type *)

(** Other types give a warning and 0 or false. *)
Definition get_srcnum_off (methodid type : Z) : res Z :=
  if type =? SCANRES_SPLIT then PacketScan.get_srcnum_off methodid else Ok 0.
Definition get_srcnum_len (type : Z) : Z := if type =? SCANRES_SPLIT then 2 else 0.
Definition get_srcnum_conversion (type : Z) : bool := type =? SCANRES_SPLIT.
Definition get_srcid_off (methodid type : Z) : res Z :=
  if type =? SCANRES_SPLIT then PacketScan.get_srcid_off methodid else Ok 0.
Definition get_srcid_len (type : Z) : Z := if type =? SCANRES_SPLIT then 2 else 0.
Definition get_srcid_conversion (type : Z) : bool := type =? SCANRES_SPLIT.

(** [memcpy(&x, fragbuf + off, len)] into an unsigned [x] of [width] bytes that is
    zero, then the conversion from network order. *)
Definition load_num (width : Z) (fragbuf : list Z) (off len : Z) (conversion : bool) : res Z :=
  if width <? len then Err OutOfBounds
  else
    bs ← load_at fragbuf off len;
    let x := le_val bs in
    Ok (if conversion && (len =? 2) then ntohs (u16 x)
        else if conversion && (len =? 4) then ntohl (u32 x) else x).

(** ** State of one call *)

(** Set by the first packet that passes the filter. *)
Record SrcLayout := mkSrcLayout {
  sl_hdrsize : Z;
  srcnum_off : Z;
  srcnum_len : Z;
  srcnum_conversion : bool;
  srcid_off : Z;
  srcid_len : Z;
  srcid_conversion : bool;
  sl_final_hdrsize : Z;
  sl_bodysize : Z
}.

(** Set by the first fragment: the arrays, one per source. *)
Record Sources := mkSources {
  bufs : list DynamicArray;
  local_isfirsts : list bool;
  max_fragnums : list Z;
  cur_fragnums : list Z;
  max_srcnum : Z
}.

Section Multisrc.

(** [rotation]: SERVER_ROTATION is defined. *)
Context (rotation : bool) (methodid frag_maxsize : Z) (isfilter : bool) (optype : Z) (targetkey : Key).

Definition multisrc_layout (type : Z) : res SrcLayout :=
  hdrsize ← Fragment.get_frag_hdrsize methodid type;
  num_off ← get_srcnum_off methodid type;
  id_off ← get_srcid_off methodid type;
  let num_len := get_srcnum_len type in
  let id_len := get_srcid_len type in
  let final := hdrsize + 2 + 2 in
  _ ← INVARIANT ((num_len =? 1) || (num_len =? 2) || (num_len =? 4));
  _ ← INVARIANT ((id_len =? 1) || (id_len =? 2) || (id_len =? 4));
  _ ← INVARIANT ((num_off <=? hdrsize) && (id_off <=? hdrsize));
  Ok (mkSrcLayout hdrsize num_off num_len (get_srcnum_conversion type) id_off id_len
        (get_srcid_conversion type) final (u64 (frag_maxsize - final))).

Fixpoint new_bufs (n : nat) : res (list DynamicArray) :=
  match n with
  | O => Ok []
  | S n' =>
      d ← DynamicArray.init DynamicArray_default MAX_BUFSIZE MAX_LARGE_BUFSIZE;
      ds ← new_bufs n';
      Ok (d :: ds)
  end.

Definition new_sources (l : SrcLayout) (fragbuf : list Z) : res Sources :=
  max ← load_num 8 fragbuf (srcnum_off l) (srcnum_len l) (srcnum_conversion l);
  let n := Z.to_nat max in
  ds ← new_bufs n;
  Ok (mkSources ds (replicate n true) (replicate n 0) (replicate n 0) max).

(** One fragment: the sources after it, and whether its source is complete. *)
Definition source_fragment (l : SrcLayout) (src : Sources) (fragbuf : list Z) (n : Z) : res (bool * Sources) :=
  tmpsrcid ← load_num 2 fragbuf (srcid_off l) (srcid_len l) (srcid_conversion l);
  _ ← INVARIANT ((0 <? tmpsrcid) && (tmpsrcid <=? max_srcnum src));
  let idx := tmpsrcid - 1 in
  tmpbuf ← vec_get (bufs src) idx;
  isfirst ← vec_get (local_isfirsts src) idx;
  '(tmpbuf, firsts, maxs) ←
    (if (isfirst : bool) then
       hdr ← load_at fragbuf 0 (sl_hdrsize l);
       tmpbuf ← dynamic_memcpy tmpbuf 0 hdr;
       max ← get_u16be fragbuf (sl_hdrsize l + 2);
       maxs ← vec_set (max_fragnums src) idx max;
       firsts ← vec_set (local_isfirsts src) idx false;
       Ok (tmpbuf, firsts, maxs)
     else Ok (tmpbuf, local_isfirsts src, max_fragnums src));
  cur_fragidx ← get_u16be fragbuf (sl_hdrsize l);
  max ← vec_get maxs idx;
  _ ← INVARIANT (cur_fragidx <? max);
  body ← load_at fragbuf (sl_final_hdrsize l) (n - sl_final_hdrsize l);
  tmpbuf ← dynamic_memcpy tmpbuf (s32 (u64 (sl_hdrsize l + cur_fragidx * sl_bodysize l))) body;
  ds ← vec_set (bufs src) idx tmpbuf;
  cur ← vec_get (cur_fragnums src) idx;
  let cur := u16 (cur + 1) in
  curs ← vec_set (cur_fragnums src) idx cur;
  _ ← INVARIANT (cur <=? max);
  Ok (cur =? max, mkSources ds firsts maxs curs (max_srcnum src)).

(** The filter: [false] goes with [continue]. *)
Definition multisrc_filter (fragbuf : list Z) (n : Z) : res bool :=
  type ← run_reader (get_packet_type n) fragbuf;
  if isfilter then
    if negb (type =? optype) then Ok false
    else
      key ← run_reader (get_packet_key methodid n) fragbuf;
      Ok (bool_decide (key = targetkey))
  else Ok true.

(** [while (true)]; [st] is what the first fragment sets, [cur_srcnum] the
    number of complete sources.  At the [break]: [is_timeout], [st],
    [cur_srcnum] and the socket. *)
Fixpoint multisrc_loop (evs : list event) (fragbuf : list Z) (st : option (SrcLayout * Sources))
    (cur_srcnum : Z) : res (bool * option (SrcLayout * Sources) * Z * list event) :=
  match evs with
  | [] => Err Blocked
  | Timeout :: evs' => Ok (true, st, cur_srcnum, evs')
  | Dgram bytes _ :: evs' =>
      let n := recv_size fragbuf bytes in
      let fragbuf := recv_into fragbuf bytes in
      pass ← multisrc_filter fragbuf n;
      if (pass : bool) then
        l ← (match st with
             | Some (l, _) => Ok l
             | None => type ← run_reader (get_packet_type n) fragbuf; multisrc_layout type
             end);
        _ ← INVARIANT (sl_final_hdrsize l <=? n);
        src ← (match st with Some (_, src) => Ok src | None => new_sources l fragbuf end);
        '(complete, src) ← source_fragment l src fragbuf n;
        if (complete : bool) then
          if rotation then Ok (false, Some (l, src), cur_srcnum, evs')
          else
            if max_srcnum src <=? cur_srcnum + 1 then Ok (false, Some (l, src), cur_srcnum + 1, evs')
            else multisrc_loop evs' fragbuf (Some (l, src)) (cur_srcnum + 1)
        else multisrc_loop evs' fragbuf (Some (l, src)) cur_srcnum
      else multisrc_loop evs' fragbuf st cur_srcnum
  end.

(** What the caller gets: [is_timeout], the arrays ([None] is NULL) and the
    socket; [bufnum] comes in and is the number of arrays afterwards. *)
Definition udprecvlarge_multisrc (stale : list Z) (bufnum : Z) (evs : list event)
    : res (bool * option (list DynamicArray) * Z * list event) :=
  _ ← INVARIANT (is_singleswitch methodid);
  let fragbuf := take (Z.to_nat frag_maxsize) (stale ++ replicate (Z.to_nat frag_maxsize) 0) in
  '(is_timeout, st, cur_srcnum, rest) ← multisrc_loop evs fragbuf None 0;
  let bufnum := match st with Some (_, src) => max_srcnum src | None => bufnum end in
  let max := match st with Some (_, src) => max_srcnum src | None => 0 end in
  _ ← INVARIANT ((cur_srcnum =? bufnum) && (bufnum =? max));
  let out := match st with Some (_, src) => Some (bufs src) | None => None end in
  let '(out, bufnum) := if (is_timeout : bool) then (None, 0) else (out, bufnum) in
  _ ← INVARIANT ((bufnum =? 0) || ((0 <? bufnum) && (match out with Some _ => true | None => false end)));
  Ok (is_timeout, out, bufnum, rest).

End Multisrc.

(** The build: SERVER_ROTATION is defined in common/helper.h. *)
Definition SERVER_ROTATION : bool := true.

Definition udprecvlarge_multisrc_ipfrag (methodid : Z) (isfilter : bool) (optype : Z) (targetkey : Key)
    (stale : list Z) (bufnum : Z) (evs : list event) : res (bool * option (list DynamicArray) * Z * list event) :=
  udprecvlarge_multisrc SERVER_ROTATION methodid IP_FRAGMENT_MAXSIZE isfilter optype targetkey stale bufnum evs.

(** ** What a client of a range query sees *)

(** A datagram that the filter drops. *)
Record other_dgram (m type : Z) (k : Key) (bytes : list Z) : Prop := {
  od_len : (length bytes <= Z.to_nat IP_FRAGMENT_MAXSIZE)%nat;
  od_hdr : exists t key oph tl, bytes = oph ++ tl /\ ophdr_is m t key oph /\ (t <> type \/ key <> k)
}.

Section Scan.

Context (rotation : bool) (m : Z) (k : Key).

Lemma filter_drops fragbuf bytes :
  length fragbuf = Z.to_nat IP_FRAGMENT_MAXSIZE -> other_dgram m SCANRES_SPLIT k bytes ->
  multisrc_filter m true SCANRES_SPLIT k (recv_into fragbuf bytes) (recv_size fragbuf bytes) = Ok false.
Proof using.
  intros Hf [Hl (t & key & oph & tl & -> & Ho & Hne)]. rewrite <- Hf in Hl.
  destruct (recv_fits fragbuf (oph ++ tl) Hl) as [-> ->]. pose proof (length_ophdr _ _ _ _ Ho) as Hlen.
  assert (IP_FRAGMENT_MAXSIZE < 2 ^ 32) by reflexivity.
  unfold multisrc_filter. rewrite <- app_assoc. rewrite length_app in *.
  rewrite (ophdr_type m t key oph Ho) by lia. cbn [mbind res_bind].
  destruct (Z.eqb_spec t SCANRES_SPLIT) as [E|E]; cbn [negb]; [|reflexivity].
  rewrite (ophdr_key m t key oph Ho) by lia. cbn [mbind res_bind].
  rewrite bool_decide_eq_false_2; [reflexivity|]. destruct Hne; [contradiction|assumption].
Qed.

Lemma filter_takes fragbuf oph tl :
  length fragbuf = Z.to_nat IP_FRAGMENT_MAXSIZE -> (length (oph ++ tl) <= Z.to_nat IP_FRAGMENT_MAXSIZE)%nat ->
  ophdr_is m SCANRES_SPLIT k oph ->
  multisrc_filter m true SCANRES_SPLIT k (recv_into fragbuf (oph ++ tl)) (recv_size fragbuf (oph ++ tl)) = Ok true /\
  run_reader (get_packet_type (recv_size fragbuf (oph ++ tl))) (recv_into fragbuf (oph ++ tl)) = Ok SCANRES_SPLIT.
Proof using.
  intros Hf Hl Ho. rewrite <- Hf in Hl. destruct (recv_fits fragbuf (oph ++ tl) Hl) as [-> ->].
  pose proof (length_ophdr _ _ _ _ Ho) as Hlen. assert (IP_FRAGMENT_MAXSIZE < 2 ^ 32) by reflexivity.
  unfold multisrc_filter. rewrite <- app_assoc. rewrite length_app in *.
  rewrite (ophdr_type m _ k oph Ho) by lia. split; [|reflexivity]. cbn [mbind res_bind].
  rewrite (ophdr_key m _ k oph Ho) by lia. cbn [mbind res_bind]. now rewrite bool_decide_eq_true_2.
Qed.

Definition dgrams (addr : sockaddr_in) (ds : list (list Z)) : list event := map (fun d => Dgram d addr) ds.

Lemma loop_skips addr ds evs : forall fragbuf,
  length fragbuf = Z.to_nat IP_FRAGMENT_MAXSIZE -> Forall (other_dgram m SCANRES_SPLIT k) ds ->
  exists fragbuf', length fragbuf' = Z.to_nat IP_FRAGMENT_MAXSIZE /\
    multisrc_loop rotation m IP_FRAGMENT_MAXSIZE true SCANRES_SPLIT k (dgrams addr ds ++ evs) fragbuf None 0 =
    multisrc_loop rotation m IP_FRAGMENT_MAXSIZE true SCANRES_SPLIT k evs fragbuf' None 0.
Proof using.
  induction ds as [|d ds IH]; intros fragbuf Hf Hd; [now exists fragbuf|].
  apply Forall_cons_1 in Hd as [Hd Hds]. cbn [dgrams map app multisrc_loop].
  rewrite filter_drops by assumption. cbn [mbind res_bind]. apply IH; [|exact Hds]. now rewrite length_recv_into.
Qed.

(** The header size of SCANRES_SPLIT is not in the table of [get_frag_hdrsize]. *)
Lemma scan_layout_aborts : valid_method m -> multisrc_layout m IP_FRAGMENT_MAXSIZE SCANRES_SPLIT = Err InvariantFailed.
Proof using. intros Hm. methods Hm; reflexivity. Qed.

Lemma loop_aborts fragbuf addr oph tl evs :
  valid_method m -> length fragbuf = Z.to_nat IP_FRAGMENT_MAXSIZE ->
  (length (oph ++ tl) <= Z.to_nat IP_FRAGMENT_MAXSIZE)%nat -> ophdr_is m SCANRES_SPLIT k oph ->
  multisrc_loop rotation m IP_FRAGMENT_MAXSIZE true SCANRES_SPLIT k (Dgram (oph ++ tl) addr :: evs) fragbuf None 0
    = Err InvariantFailed.
Proof using.
  intros Hm Hf Hl Ho. destruct (filter_takes fragbuf oph tl Hf Hl Ho) as [E1 E2]. cbn [multisrc_loop].
  rewrite E1. cbn [mbind res_bind]. rewrite E2. cbn [mbind res_bind]. now rewrite scan_layout_aborts.
Qed.

End Scan.

Lemma start_fragbuf stale n : length (take n (stale ++ replicate n 0)) = n.
Proof. rewrite length_take, length_app, length_replicate. lia. Qed.

(** A client that waits for a range query skips every datagram of another
    type or key, and when nothing else comes it ends with a timeout, no arrays
    and the rest of the socket, so that it can send its request again. *)
Theorem scan_wait_times_out (rotation : bool) (m : Z) (k : Key) (ds : list (list Z)) (addr : sockaddr_in)
    (stale : list Z) (rest : list event) :
  is_singleswitch m = true -> Forall (other_dgram m SCANRES_SPLIT k) ds ->
  udprecvlarge_multisrc rotation m IP_FRAGMENT_MAXSIZE true SCANRES_SPLIT k stale 0
    (dgrams addr ds ++ Timeout :: rest) = Ok (true, None, 0, rest).
Proof.
  intros Hm Hd. unfold udprecvlarge_multisrc. rewrite Hm. cbn [INVARIANT mbind res_bind].
  destruct (loop_skips rotation m k addr ds (Timeout :: rest) _ (start_fragbuf stale _) Hd) as (fb & _ & E).
  rewrite E. reflexivity.
Qed.

(** C33: no answer to a range query is ever received.  Whatever a server sends for
    the key of the query, and whichever of its datagrams arrives first, the
    client aborts: [get_frag_hdrsize] has no entry for SCANRES_SPLIT and gives
    0, so the offset of the number of servers is past the header. *)
Theorem scan_response_aborts (rotation : bool) (p : ScanResponseSplit) (tl : list Z) (addr : sockaddr_in)
    (ds : list (list Z)) (stale : list Z) (bufnum : Z) (rest : list event) :
  let m := p_methodid (sq_base (ss_scan (sp_split p))) in
  let k := p_key (sq_base (ss_scan (sp_split p))) in
  scan_wf p -> is_singleswitch m = true -> Z.of_nat (length (scan_wire p)) <= MAX_LARGE_BUFSIZE ->
  Forall (other_dgram m SCANRES_SPLIT k) ds ->
  exists h frs,
    PacketScan.get_frag_hdrsize m = Ok h /\
    udpsendlarge_ipfrag (scan_wire p ++ tl) (Z.of_nat (length (scan_wire p))) h = Ok frs /\ frs <> [] /\
    forall d, d ∈ frs ->
      udprecvlarge_multisrc rotation m IP_FRAGMENT_MAXSIZE true SCANRES_SPLIT k stale bufnum
        (dgrams addr ds ++ Dgram d addr :: rest) = Err InvariantFailed.
Proof.
  intros m k Hp Hs Hl Hd. set (hdr := frag_hdr_wire (sp_split p)).
  set (body := be 2 (sp_nodeidx_foreval p) ++ le_bytes 4 (sp_snapshotid p) ++
    be 4 (sp_pairnum p) ++ flat_map pair_wire (sp_pairs p)).
  change (scan_wire p) with (hdr ++ body) in *.
  assert (Hm : valid_method m) by apply Hp.
  assert (Hh : PacketScan.get_frag_hdrsize m = Ok (Z.of_nat (length hdr)) /\ (length hdr <= 100)%nat).
  { unfold hdr. rewrite length_frag_hdr. cbn zeta. fold m. rewrite Hs.
    unfold PacketScan.get_frag_hdrsize, sizeof_key. rewrite (ophdrsize_ok Hm), (split_prev_ok Hm), Hs.
    cbn [mbind res_bind negb]. assert (Hz : (18 <= hdr_size m <= 22)%nat) by apply hdr_size_le.
    assert (Hv : (split_prev m <= 4)%nat) by (unfold split_prev; destruct (is_singleswitch m); lia).
    split; [f_equal; lia|lia]. }
  destruct Hh as [Hh Hle]. rewrite length_app in Hl.
  set (b := (1408 - length hdr)%nat).
  assert (Hlt : MAX_LARGE_BUFSIZE = 8388608) by reflexivity.
  assert (Hn : Z.of_nat (fragnum b body) < 2 ^ 16) by (apply fragnum_u16; lia).
  exists (Z.of_nat (length hdr)), (fragments b hdr body). split; [exact Hh|]. split; [|split].
  - pose proof (udpsendlarge_fragments hdr body tl b) as Hsend. unfold udpsendlarge_ipfrag.
    replace IP_FRAGMENT_MAXSIZE with (Z.of_nat (length hdr) + 4 + Z.of_nat b) by (unfold IP_FRAGMENT_MAXSIZE; lia).
    rewrite <- app_assoc. apply Hsend; [lia|lia|lia|exact Hn|reflexivity].
  - intros E. apply (f_equal length) in E. unfold fragments in E. rewrite length_map, length_seq in E.
    unfold fragnum in E. cbn [length] in E. lia.
  - intros d Hin.
    unfold fragments in Hin. rewrite list_elem_of_In, in_map_iff in Hin. destruct Hin as (i & <- & _).
    assert (Hlen : (length (fragment hdr i (fragnum b body) (chunk b i body)) <= Z.to_nat IP_FRAGMENT_MAXSIZE)%nat).
    { rewrite length_fragment. unfold chunk. rewrite length_take. unfold IP_FRAGMENT_MAXSIZE. lia. }
    unfold udprecvlarge_multisrc. rewrite Hs. cbn [INVARIANT mbind res_bind].
    destruct (loop_skips rotation m k addr ds (Dgram (fragment hdr i (fragnum b body) (chunk b i body)) addr :: rest)
      _ (start_fragbuf stale _) Hd) as (fb & Hf & ->).
    unfold fragment, hdr, frag_hdr_wire in *. rewrite <- !app_assoc in *.
    rewrite loop_aborts; [reflexivity|exact Hm|exact Hf|exact Hlen|].
    rewrite <- (sw_type _ Hp). apply hdr_wire_ophdr; apply Hp.
Qed.

Definition demo_other : list Z := be 2 GETRES ++ key_wire (mkKey 9 9 9 9) ++ [1; 2; 3].

Lemma demo_other_ok k : other_dgram FARREACH_ID SCANRES_SPLIT k demo_other.
Proof.
  constructor; [apply (bool_decide_unpack _); vm_compute; exact I|].
  exists GETRES, (mkKey 9 9 9 9), (be 2 GETRES ++ key_wire (mkKey 9 9 9 9)), [1; 2; 3].
  split; [unfold demo_other; now rewrite <- app_assoc|]. split; [|left; discriminate].
  constructor; [unfold is_u16, GETRES; lia|unfold key_wf, is_u32; cbn; lia|]. exists []. split; reflexivity.
Qed.

Lemma demo_others_ok k n : Forall (other_dgram FARREACH_ID SCANRES_SPLIT k) (replicate n demo_other).
Proof. apply Forall_replicate, demo_other_ok. Qed.

Lemma scan_wait_times_out_witness :
  udprecvlarge_multisrc true FARREACH_ID IP_FRAGMENT_MAXSIZE true SCANRES_SPLIT (mkKey 1 2 3 4) [7] 0
    (dgrams sockaddr_zero (replicate 2 demo_other) ++ [Timeout; Timeout]) = Ok (true, None, 0, [Timeout]).
Proof.
  apply (scan_wait_times_out true FARREACH_ID (mkKey 1 2 3 4) (replicate 2 demo_other) sockaddr_zero [7] [Timeout]);
    [reflexivity|apply demo_others_ok].
Defined.

Lemma scan_response_aborts_witness :
  exists h frs,
    PacketScan.get_frag_hdrsize FARREACH_ID = Ok h /\
    udpsendlarge_ipfrag (scan_wire (demo_scan FARREACH_ID) ++ []) (Z.of_nat (length (scan_wire (demo_scan FARREACH_ID)))) h
      = Ok frs /\ frs <> [] /\
    forall d, d ∈ frs ->
      udprecvlarge_multisrc true FARREACH_ID IP_FRAGMENT_MAXSIZE true SCANRES_SPLIT (mkKey 1 2 3 4) [] 0
        (dgrams sockaddr_zero (replicate 1 demo_other) ++ [Dgram d sockaddr_zero; Timeout]) = Err InvariantFailed.
Proof.
  apply (scan_response_aborts true (demo_scan FARREACH_ID) [] sockaddr_zero (replicate 1 demo_other) [] 0 [Timeout]).
  - apply demo_scan_wf. unfold valid_method, FARREACH_ID, DISTCACHE_ID. lia.
  - reflexivity.
  - apply Z.leb_le. vm_compute. reflexivity.
  - apply demo_others_ok.
Defined.
