(* ===== verification/RemoteClient.v ===== *)
(** * The clients (farreach/remote_client.c)

    A client thread sends one request at a time and waits for its answer.  It
    skips answers to earlier requests (by type and key), and after a timeout it
    sends the request again.  The socket is the list of what arrives, the
    datagrams that are sent are collected. *)

From Stdlib Require Import ZArith Lia List.
From stdpp Require Import base tactics list numbers option gmap.
From S2P Require Import Prelude Cursor DynamicArray StdMap Crc32 Key Val DeletedSet KVStore RocksdbWrapper Packet PacketCodec PacketCache PacketScan PacketServer Outband Server Fragment Reassembly PktRingBuffer RecvLarge RecvSpec RecvProps RecvClient MultiSrc.

Open Scope Z_scope.

(** ** Packets of the client *)

(** [GetResponse], [PutResponse], [DelResponse] and [LoadAck] from a received buffer. *)
Definition GetResponse_parse (methodid recv_size : Z) : reader GetResponse :=
  p ← GetResponse_deserialize methodid recv_size;
  _ ← r_check (p_type (gp_base p) =? GETRES);
  _ ← r_check (val_length (gp_val p) <=? SWITCH_MAX_VALLEN);
  mret p.

Definition PutResponse_parse (type methodid recv_size : Z) : reader PutResponse :=
  p ← PutResponse_deserialize methodid recv_size;
  _ ← r_check (p_type (pp_base p) =? type);
  mret p.

Definition LoadAck_parse (methodid recv_size : Z) : reader Packet :=
  p ← WarmupRequest_deserialize methodid recv_size;
  _ ← r_check (p_type p =? LOADACK);
  mret p.

(** [GetResponseLargevalue]. *)
Definition GetResponseLargevalue_size (methodid : Z) : res Z :=
  size ← get_ophdrsize methodid;
  pad ← get_stat_padding_bytes methodid;
  let size := size + 4 + SWITCH_MAX_VALLEN + 1 + 2 + pad in
  Ok (if methodid =? DISTCACHE_ID then size + (4 + 4) else size).

Definition GetResponseLargevalue_deserialize (methodid recv_size : Z) : reader GetResponse :=
  my_size ← r_lift (GetResponseLargevalue_size methodid);
  _ ← r_check (my_size <=? recv_size);
  b ← deserialize_ophdr methodid recv_size;
  rem ← r_rem recv_size;
  v ← Val_deserialize_large rem;
  '(stat, nodeidx) ← get_stat_hdr methodid;
  if methodid =? DISTCACHE_ID then
    spineload ← r_u32be;
    leafload ← r_u32be;
    mret (mkGetResponse b v stat nodeidx spineload leafload)
  else mret (mkGetResponse b v stat nodeidx 0 0).

Definition GetResponseLargevalue_parse (methodid recv_size : Z) : reader GetResponse :=
  p ← GetResponseLargevalue_deserialize methodid recv_size;
  _ ← r_check (p_type (gp_base p) =? GETRES_LARGEVALUE);
  _ ← r_check (SWITCH_MAX_VALLEN <? val_length (gp_val p));
  mret p.

Definition GetRequest_new (methodid : Z) (key : Key) : res GetRequest :=
  _ ← INVARIANT (negb (methodid =? DISTCACHE_ID));
  Ok (mkGetRequest (Packet_new methodid GETREQ key) 0 0).

(** [LoadRequest::dynamic_serialize] and [PutRequestLargevalue::dynamic_serialize],
    the same code. *)
Definition LargeRequest_dynamic_serialize (p : LargeRequest) (d : DynamicArray) : res (Z * DynamicArray) :=
  '(tmpoff, d) ← dynamic_serialize_ophdr (lr_base p) d;
  d ← dynamic_memcpy d tmpoff (le_bytes 2 (htons (lr_client_logical_idx p)));
  d ← dynamic_memcpy d (tmpoff + 2) (le_bytes 4 (htonl (lr_fragseq p)));
  '(n, d) ← Val_dynamic_serialize_large (lr_val p) d (tmpoff + 2 + 4);
  Ok (tmpoff + 2 + 4 + n, d).

(** ** The thread *)

(** The variables of [run_client_worker] that outlive a request, what arrives
    and what has been sent. *)
Record Client := mkClient {
  cl_buf : list Z;
  cl_dynamicbuf : DynamicArray;
  cl_fragseq : Z;
  unmatched_cnt : Z;
  timeout_cnt : Z;
  nodeidx_pktcnt_map : gmap Z Z;
  cl_sock : list event;
  cl_sent : list (list Z)
}.

Definition cl (A : Type) : Type := Client -> res (A * Client).
#[export] Instance cl_ret : MRet cl := fun A a c => Ok (a, c).
#[export] Instance cl_bind : MBind cl := fun A B f m c =>
  match m c with Ok (a, c') => f a c' | Err e => Err e end.

Definition cl_lift {A} (r : res A) : cl A := fun c => match r with Ok a => Ok (a, c) | Err e => Err e end.
Definition cl_gets {A} (f : Client -> A) : cl A := fun c => Ok (f c, c).

Definition cl_unmatched : cl unit := fun c =>
  n ← int_ck (unmatched_cnt c + 1);
  Ok (tt, mkClient (cl_buf c) (cl_dynamicbuf c) (cl_fragseq c) n (timeout_cnt c) (nodeidx_pktcnt_map c)
            (cl_sock c) (cl_sent c)).
Definition cl_timeout : cl unit := fun c =>
  n ← int_ck (timeout_cnt c + 1);
  Ok (tt, mkClient (cl_buf c) (cl_dynamicbuf c) (cl_fragseq c) (unmatched_cnt c) n (nodeidx_pktcnt_map c)
            (cl_sock c) (cl_sent c)).

(** [fragseq] before [fragseq += 1]. *)
Definition cl_next_fragseq : cl Z := fun c =>
  Ok (cl_fragseq c,
      mkClient (cl_buf c) (cl_dynamicbuf c) (u32 (cl_fragseq c + 1)) (unmatched_cnt c) (timeout_cnt c)
        (nodeidx_pktcnt_map c) (cl_sock c) (cl_sent c)).

(** [req_size = req.serialize(buf, MAX_BUFSIZE); udpsendto(..., buf, req_size, ...)]. *)
Definition cl_send (serialize : Z -> writer Z) : cl unit := fun c =>
  '(req_size, buf) ← run_writer (serialize MAX_BUFSIZE) (cl_buf c);
  Ok (tt, mkClient buf (cl_dynamicbuf c) (cl_fragseq c) (unmatched_cnt c) (timeout_cnt c) (nodeidx_pktcnt_map c)
            (cl_sock c) (cl_sent c ++ [take (Z.to_nat req_size) buf])).

(** [dynamicbuf.clear(); req_size = req.dynamic_serialize(dynamicbuf);
    udpsendlarge_ipfrag(..., dynamicbuf.array(), req_size, ..., hdrsize)]. *)
Definition cl_send_large (p : LargeRequest) (hdrsize : res Z) : cl unit := fun c =>
  d ← clear (cl_dynamicbuf c);
  '(req_size, d) ← LargeRequest_dynamic_serialize p d;
  h ← hdrsize;
  frs ← udpsendlarge_ipfrag (da_mem d) req_size h;
  Ok (tt, mkClient (cl_buf c) d (cl_fragseq c) (unmatched_cnt c) (timeout_cnt c) (nodeidx_pktcnt_map c)
            (cl_sock c) (cl_sent c ++ frs)).

(** [udprecvfrom(..., buf, MAX_BUFSIZE, ...)]: [None] is a timeout. *)
Definition cl_recvfrom : cl (option Z) := fun c =>
  match cl_sock c with
  | [] => Err Blocked
  | Timeout :: evs =>
      Ok (None, mkClient (cl_buf c) (cl_dynamicbuf c) (cl_fragseq c) (unmatched_cnt c) (timeout_cnt c)
                  (nodeidx_pktcnt_map c) evs (cl_sent c))
  | Dgram bytes _ :: evs =>
      Ok (Some (recv_size (cl_buf c) bytes),
          mkClient (recv_into (cl_buf c) bytes) (cl_dynamicbuf c) (cl_fragseq c) (unmatched_cnt c) (timeout_cnt c)
            (nodeidx_pktcnt_map c) evs (cl_sent c))
  end.

(** [buf] as the packet of a class. *)
Definition cl_parse {A} (parse : Z -> reader A) (n : Z) : cl A := fun c =>
  a ← run_reader (parse n) (cl_buf c); Ok (a, c).
Definition cl_parse_large {A} (parse : Z -> reader A) : cl A := fun c =>
  a ← run_reader (parse (da_size (cl_dynamicbuf c))) (da_mem (cl_dynamicbuf c)); Ok (a, c).

Section Worker.

(** The constants of a thread; [uninit] and [stale] are what uninitialised
    memory holds. *)
Context (uninit : Z) (stale : list Z) (global_client_logical_idx max_server_total_logical_num : Z) (tmpval : Val).

(** [dynamicbuf.clear(); udprecvlarge_ipfrag(..., dynamicbuf, ...)]. *)
Definition cl_recvlarge : cl bool := fun c =>
  d ← clear (cl_dynamicbuf c);
  r ← udprecvlarge_ipfrag CURMETHOD_ID stale None d (cl_sock c);
  Ok (rc_timeout r,
      mkClient (cl_buf c) (rc_buf r) (cl_fragseq c) (unmatched_cnt c) (timeout_cnt c) (nodeidx_pktcnt_map c)
        (rc_rest r) (cl_sent c)).

(** The loop that filters responses: key and node of the response, read by
    [parse]; [None] is a timeout.  Every round takes a datagram from the socket. *)
Fixpoint wait_response (fuel : nat) (type : Z) (parse : Z -> reader (Key * Z)) (tmpkey : Key) : cl (option Z) :=
  match fuel with
  | O => cl_lift (Err OutOfFuel)
  | S fuel' =>
      r ← cl_recvfrom;
      match r with
      | None => mret None
      | Some recv_size =>
          _ ← cl_lift (INVARIANT (0 <? recv_size));
          t ← cl_parse get_packet_type recv_size;
          if negb (t =? type) then
            _ ← cl_unmatched;
            wait_response fuel' type parse tmpkey
          else
            '(key, nodeidx) ← cl_parse parse recv_size;
            if bool_decide (key <> tmpkey) then
              _ ← cl_unmatched;
              wait_response fuel' type parse tmpkey
            else mret (Some nodeidx)
      end
  end.

(** The same for GET, whose responses may be large. *)
Fixpoint wait_get (fuel : nat) (tmpkey : Key) : cl (option Z) :=
  match fuel with
  | O => cl_lift (Err OutOfFuel)
  | S fuel' =>
      is_timeout ← cl_recvlarge;
      if (is_timeout : bool) then mret None
      else
        recv_size ← cl_gets (fun c => da_size (cl_dynamicbuf c));
        _ ← cl_lift (INVARIANT (0 <? recv_size));
        t ← cl_parse_large get_packet_type;
        if negb (t =? GETRES) && negb (t =? GETRES_LARGEVALUE) then
          _ ← cl_unmatched;
          wait_get fuel' tmpkey
        else
          rsp ← (if t =? GETRES then cl_parse_large (GetResponse_parse CURMETHOD_ID)
                 else cl_parse_large (GetResponseLargevalue_parse CURMETHOD_ID));
          if bool_decide (p_key (gp_base rsp) <> tmpkey) then
            _ ← cl_unmatched;
            wait_get fuel' tmpkey
          else mret (Some (gp_nodeidx_foreval rsp))
  end.

(** More rounds than datagrams are never needed. *)
Definition cl_fuel : cl nat := cl_gets (fun c => S (length (cl_sock c))).

(** One round of the retry loop: [None] sends the request again. *)
Definition or_retry (r : option Z) : cl (option Z) :=
  match r with
  | None => _ ← cl_timeout; mret None
  | Some _ => mret r
  end.

Definition attempt_get (tmpkey : Key) : cl (option Z) :=
  req ← cl_lift (GetRequest_new CURMETHOD_ID tmpkey);
  _ ← cl_send (GetRequest_serialize req);
  fuel ← cl_fuel;
  r ← wait_get fuel tmpkey;
  or_retry r.

Definition parse_putres (n : Z) : reader (Key * Z) :=
  rsp ← PutResponse_parse PUTRES CURMETHOD_ID n; mret (p_key (pp_base rsp), pp_nodeidx_foreval rsp).
Definition parse_delres (n : Z) : reader (Key * Z) :=
  rsp ← PutResponse_parse DELRES CURMETHOD_ID n; mret (p_key (pp_base rsp), pp_nodeidx_foreval rsp).
(** LOADACK names no node: [tmp_nodeidx_foreval] stays 0. *)
Definition parse_loadack (n : Z) : reader (Key * Z) :=
  rsp ← LoadAck_parse CURMETHOD_ID n; mret (p_key rsp, 0).

(** The request of a PUT: small and large values have their own packet. *)
Definition send_put_request (tmpkey : Key) : cl unit :=
  if val_length tmpval <=? SWITCH_MAX_VALLEN then
    req ← cl_lift (PutRequest_new CURMETHOD_ID tmpkey tmpval);
    cl_send (PutRequest_serialize req)
  else
    fragseq ← cl_next_fragseq;
    req ← cl_lift (PutRequestLargevalue_new uninit CURMETHOD_ID tmpkey tmpval global_client_logical_idx fragseq);
    cl_send_large req (PutRequestLargevalue_get_frag_hdrsize CURMETHOD_ID).

Definition attempt_put (tmpkey : Key) : cl (option Z) :=
  _ ← send_put_request tmpkey;
  fuel ← cl_fuel;
  r ← wait_response fuel PUTRES parse_putres tmpkey;
  or_retry r.

Definition attempt_load (tmpkey : Key) : cl (option Z) :=
  fragseq ← cl_next_fragseq;
  let req := LoadRequest_new CURMETHOD_ID tmpkey tmpval global_client_logical_idx fragseq in
  _ ← cl_send_large req (PutRequestLargevalue_get_frag_hdrsize CURMETHOD_ID);
  fuel ← cl_fuel;
  r ← wait_response fuel LOADACK parse_loadack tmpkey;
  or_retry r.

Definition attempt_del (tmpkey : Key) : cl (option Z) :=
  _ ← cl_send (DelRequest_serialize (Packet_new CURMETHOD_ID DELREQ tmpkey));
  fuel ← cl_fuel;
  r ← wait_response fuel DELRES parse_delres tmpkey;
  or_retry r.

(** The end of the queried range. *)
Definition scan_endkey (tmpkey : Key) : Key :=
  mkKey (keylolo tmpkey) (keylohi tmpkey) (keyhilo tmpkey)
    (u32 (Z.shiftl (u32 (Z.land (Z.shiftr (keyhihi tmpkey) 16) 0xFFFF + 513)) 16)).

(** The loop over the responses: [snapshotid], [tmp_nodeidx_foreval] and
    [totalnum]; [None] when the snapshots differ. *)
Fixpoint check_scan (scanbufs : list DynamicArray) (snapshotid nodeidx totalnum : Z) : res (option Z) :=
  match scanbufs with
  | [] => Ok (Some nodeidx)
  | d :: scanbufs' =>
      rsp ← run_reader (ScanResponseSplit_parse CURMETHOD_ID (da_size d)) (da_mem d);
      totalnum ← int_ck (totalnum + sp_pairnum rsp);
      if snapshotid =? -1 then check_scan scanbufs' (sp_snapshotid rsp) (sp_nodeidx_foreval rsp) totalnum
      else if negb (snapshotid =? sp_snapshotid rsp) then Ok None
      else check_scan scanbufs' snapshotid nodeidx totalnum
  end.

Definition cl_recv_scan (tmpkey : Key) : cl (bool * option (list DynamicArray)) := fun c =>
  '(is_timeout, scanbufs, _, rest) ←
    udprecvlarge_multisrc_ipfrag CURMETHOD_ID true SCANRES_SPLIT tmpkey stale 0 (cl_sock c);
  Ok ((is_timeout, scanbufs),
      mkClient (cl_buf c) (cl_dynamicbuf c) (cl_fragseq c) (unmatched_cnt c) (timeout_cnt c) (nodeidx_pktcnt_map c)
        rest (cl_sent c)).

Definition attempt_scan (tmpkey : Key) : cl (option Z) :=
  _ ← cl_send (ScanRequest_serialize (mkScanRequest (Packet_new CURMETHOD_ID SCANREQ tmpkey) (scan_endkey tmpkey)));
  '(is_timeout, scanbufs) ← cl_recv_scan tmpkey;
  if (is_timeout : bool) then
    _ ← cl_timeout;
    mret None
  else
    r ← cl_lift (check_scan (default [] scanbufs) (-1) 0 0);
    match r with
    | None => _ ← cl_unmatched; mret None
    | Some _ => mret r
    end.

Definition attempt (tmptype : Z) (tmpkey : Key) : cl (option Z) :=
  if tmptype =? GETREQ then attempt_get tmpkey
  else if tmptype =? PUTREQ then attempt_put tmpkey
  else if tmptype =? LOADREQ then attempt_load tmpkey
  else if tmptype =? DELREQ then attempt_del tmpkey
  else if tmptype =? SCANREQ then attempt_scan tmpkey
  else cl_lift (Err ExitCalled).

(** [while (true)]: timeout and retry. *)
Fixpoint retry (fuel : nat) (tmptype : Z) (tmpkey : Key) : cl Z :=
  match fuel with
  | O => cl_lift (Err OutOfFuel)
  | S fuel' =>
      r ← attempt tmptype tmpkey;
      match r with
      | Some nodeidx => mret nodeidx
      | None => retry fuel' tmptype tmpkey
      end
  end.

(** The count of answers per node, 0xFFFF for the switch. *)
Definition cl_count (nodeidx : Z) : cl unit := fun c =>
  n ← (match nodeidx_pktcnt_map c !! nodeidx with Some n => int_ck (n + 1) | None => Ok 1 end);
  Ok (tt, mkClient (cl_buf c) (cl_dynamicbuf c) (cl_fragseq c) (unmatched_cnt c) (timeout_cnt c)
            (<[nodeidx := n]> (nodeidx_pktcnt_map c)) (cl_sock c) (cl_sent c)).

Definition count_answer (tmptype nodeidx : Z) : cl unit :=
  if tmptype =? LOADREQ then mret tt
  else
    _ ← cl_lift (INVARIANT ((nodeidx =? 0xFFFF) || (nodeidx <? max_server_total_logical_num)));
    cl_count nodeidx.

(** One request of the workload, in static mode (the keys are not remapped). *)
Definition client_request (tmptype : Z) (tmpkey : Key) : cl unit :=
  fuel ← cl_fuel;
  nodeidx ← retry fuel tmptype tmpkey;
  count_answer tmptype nodeidx.

End Worker.
