(* ===== verification/RemoteClientProps.v ===== *)
(** * A client gets its answer

    The waiting loops of the clients skip what does not answer the request, and
    the retry loop sends the request again after each timeout. *)

From Stdlib Require Import ZArith Lia List.
From stdpp Require Import base tactics list numbers option gmap.
From S2P Require Import Prelude Cursor DynamicArray StdMap Crc32 Key Val DeletedSet KVStore RocksdbWrapper Packet PacketCodec PacketCache PacketScan PacketServer Outband Server Fragment Reassembly PktRingBuffer RecvLarge RecvSpec RecvProps RecvClient MultiSrc RemoteClient.

Open Scope Z_scope.

#[local] Arguments put_at : simpl never.

(** ** Receiving without a ring *)

Section RecvOne.

Context (m : Z) (stale : list Z) (d : DynamicArray).
Hypothesis Hd : plain d MAX_LARGE_BUFSIZE [].

(** A packet that is not large is returned as it is. *)
Lemma recv_one_small t k bytes addr evs : small_ok m t k bytes ->
  exists d', udprecvlarge_ipfrag m stale None d (Dgram bytes addr :: evs)
    = Ok (mkReceived false d' (Some addr) None evs) /\ plain d' MAX_LARGE_BUFSIZE bytes.
Proof using Hd.
  intros (Hl & Hlen & oph & tl & Eb & Ho). pose proof (length_ophdr _ _ _ _ Ho) as Hoph.
  assert (Rt : forall x, run_reader (get_packet_type (Z.of_nat (length bytes))) (bytes ++ x) = Ok t).
  { intros x. rewrite Eb at 2. rewrite <- app_assoc. apply (ophdr_type m t k oph Ho). rewrite Eb, length_app. lia. }
  unfold udprecvlarge_ipfrag, udprecvlarge. set (s := recv_start _ _ _ _ _). cbn [recv_loop].
  assert (Hf : length (rv_fragbuf s) = Z.to_nat (IP_FRAGMENT_MAXSIZE + IP_FRAGMENT_RESERVESIZE))
    by apply start_fragbuf.
  destruct (recv_fits (rv_fragbuf s) bytes) as [-> Ei]; [now rewrite Hf|].
  unfold first_packet. cbn [set_fragbuf set_src rv_fragbuf rv_buf]. rewrite Ei.
  unfold judge_first. change (IP_FRAGTYPE =? IP_FRAGTYPE) with true. cbv iota.
  rewrite Rt. cbn [mbind res_bind]. rewrite Hl. cbn [mbind res_bind negb].
  rewrite (load_at_app [] bytes _ 0 _ eq_refl eq_refl : load_at (bytes ++ _) 0 _ = Ok bytes). cbn [mbind res_bind].
  destruct (plain_memcpy d _ [] 0 bytes Hd) as (d' & E & P & _);
    [lia|unfold IP_FRAGMENT_MAXSIZE, IP_FRAGMENT_RESERVESIZE, MAX_LARGE_BUFSIZE in *; lia|].
  change (rv_buf s) with d. rewrite E. cbn [mbind res_bind]. exists d'. split; [reflexivity|].
  now rewrite <- (put_at_0 bytes).
Qed.

Lemma recv_one_timeout evs :
  exists d', udprecvlarge_ipfrag m stale None d (Timeout :: evs) = Ok (mkReceived true d' None None evs) /\
    plain d' MAX_LARGE_BUFSIZE [].
Proof using Hd.
  destruct (plain_clear d) as (d' & E & P & _); [apply Hd|].
  exists d'. split.
  - unfold udprecvlarge_ipfrag, udprecvlarge. cbn [recv_loop mbind res_bind after_loop rv_ring recv_start rv_buf].
    rewrite E. reflexivity.
  - rewrite (ho_max _ _ _ (pl_holds _ _ _ Hd)) in P. exact P.
Qed.

End RecvOne.

(** ** What arrives *)

(** The response to a request of type [op], and the key and node in it. *)
Definition wanted (op : Z) : Z :=
  if op =? GETREQ then GETRES else if op =? PUTREQ then PUTRES else if op =? LOADREQ then LOADACK else DELRES.

Definition read_answer (op n : Z) : reader (Key * Z) :=
  if op =? GETREQ then
    rsp ← GetResponse_parse CURMETHOD_ID n; mret (p_key (gp_base rsp), gp_nodeidx_foreval rsp)
  else if op =? PUTREQ then parse_putres n
  else if op =? LOADREQ then parse_loadack n
  else parse_delres n.

(** A datagram with type [t]; for a GET not a fragment. *)
Definition dgram_is (op t : Z) (bytes : list Z) : Prop :=
  exists k oph tl, bytes = oph ++ tl /\ ophdr_is CURMETHOD_ID t k oph /\
    if op =? GETREQ then is_packet_with_largevalue t = false /\
      (length bytes <= Z.to_nat (IP_FRAGMENT_MAXSIZE + IP_FRAGMENT_RESERVESIZE))%nat
    else (length bytes <= Z.to_nat MAX_BUFSIZE)%nat.

Definition reads_answer (op : Z) (bytes : list Z) (key : Key) (nodeidx : Z) : Prop :=
  forall x, run_reader (read_answer op (Z.of_nat (length bytes))) (bytes ++ x) = Ok (key, nodeidx).

(** It is no response to [op], or one for another key; or it is the answer. *)
Definition skipped (op : Z) (key : Key) (bytes : list Z) : Prop :=
  exists t, dgram_is op t bytes /\
    ((t <> wanted op /\ (op = GETREQ -> t <> GETRES_LARGEVALUE)) \/
     (t = wanted op /\ exists k nd, k <> key /\ reads_answer op bytes k nd)).

Definition answers (op : Z) (key : Key) (bytes : list Z) (nodeidx : Z) : Prop :=
  dgram_is op (wanted op) bytes /\ reads_answer op bytes key nodeidx.

(** What ends a round: a timeout or the answer. *)
Inductive ends (op : Z) (key : Key) : event -> option Z -> Prop :=
  | ends_timeout : ends op key Timeout None
  | ends_answer bytes addr nodeidx : answers op key bytes nodeidx -> ends op key (Dgram bytes addr) (Some nodeidx).

(** ** Progress of a client *)

Record client_wf (c : Client) : Prop := {
  cw_buf : length (cl_buf c) = Z.to_nat MAX_BUFSIZE;
  cw_array : da_wf (cl_dynamicbuf c) /\ _maxcapability (cl_dynamicbuf c) = MAX_LARGE_BUFSIZE;
  cw_seq : is_u32 (cl_fragseq c);
  cw_un : 0 <= unmatched_cnt c;
  cw_to : 0 <= timeout_cnt c
}.

Record moved (c c' : Client) (sent : list (list Z)) (seqs un tos : Z) (evs : list event) : Prop := {
  mv_wf : client_wf c';
  mv_sent : cl_sent c' = cl_sent c ++ sent;
  mv_seq : cl_fragseq c' = u32 (cl_fragseq c + seqs);
  mv_un : unmatched_cnt c' = unmatched_cnt c + un;
  mv_to : timeout_cnt c' = timeout_cnt c + tos;
  mv_map : nodeidx_pktcnt_map c' = nodeidx_pktcnt_map c;
  mv_sock : cl_sock c' = evs
}.

Lemma moved_refl c : client_wf c -> moved c c [] 0 0 0 (cl_sock c).
Proof.
  intros H. constructor; auto; rewrite ?app_nil_r, ?Z.add_0_r; auto. symmetry. apply u32_id, H.
Qed.

Lemma moved_trans c c1 c2 ds1 ds2 s1 s2 u1 u2 t1 t2 e1 e2 :
  moved c c1 ds1 s1 u1 t1 e1 -> moved c1 c2 ds2 s2 u2 t2 e2 ->
  moved c c2 (ds1 ++ ds2) (s1 + s2) (u1 + u2) (t1 + t2) e2.
Proof.
  intros [W1 S1 Q1 U1 T1 M1 K1] [W2 S2 Q2 U2 T2 M2 K2]. constructor; auto; try congruence; try lia.
  - rewrite S2, S1. now rewrite app_assoc.
  - rewrite Q2, Q1. unfold u32. rewrite Z.add_mod_idemp_l by lia. f_equal. lia.
Qed.

Lemma unmatched_moved c : client_wf c -> unmatched_cnt c + 1 < 2 ^ 31 ->
  exists c', cl_unmatched c = Ok (tt, c') /\ moved c c' [] 0 1 0 (cl_sock c).
Proof.
  intros H Hu. unfold cl_unmatched. pose proof (cw_un _ H). rewrite int_ck_Ok by (unfold is_s32; lia). cbn [mbind res_bind].
  eexists. split; [reflexivity|]. destruct H. constructor; cbn; auto; rewrite ?app_nil_r, ?Z.add_0_r; auto.
  - constructor; cbn; auto; lia.
  - symmetry. now apply u32_id.
Qed.

Lemma timeout_moved c : client_wf c -> timeout_cnt c + 1 < 2 ^ 31 ->
  exists c', cl_timeout c = Ok (tt, c') /\ moved c c' [] 0 0 1 (cl_sock c).
Proof.
  intros H Hu. unfold cl_timeout. pose proof (cw_to _ H). rewrite int_ck_Ok by (unfold is_s32; lia). cbn [mbind res_bind].
  eexists. split; [reflexivity|]. destruct H. constructor; cbn; auto; rewrite ?app_nil_r, ?Z.add_0_r; auto.
  - constructor; cbn; auto; lia.
  - symmetry. now apply u32_id.
Qed.

(** What [udprecvfrom] gives. *)
Lemma recvfrom_moved c ev evs : client_wf c -> cl_sock c = ev :: evs ->
  match ev with Dgram bytes _ => (length bytes <= Z.to_nat MAX_BUFSIZE)%nat | Timeout => True end ->
  exists r c', cl_recvfrom c = Ok (r, c') /\ moved c c' [] 0 0 0 evs /\
    match ev with
    | Timeout => r = None
    | Dgram bytes _ => r = Some (Z.of_nat (length bytes)) /\ exists x, cl_buf c' = bytes ++ x
    end.
Proof.
  intros H Es Hl. unfold cl_recvfrom. rewrite Es. pose proof H as [Hb Ha Hq Hu Ht]. destruct ev as [bytes addr|].
  - destruct (recv_fits (cl_buf c) bytes) as [-> E]; [now rewrite Hb|]. eexists _, _. split; [reflexivity|].
    split; [|split; [reflexivity|eexists; exact E]].
    constructor; cbn; auto; rewrite ?app_nil_r, ?Z.add_0_r; auto; [|symmetry; now apply u32_id].
    constructor; cbn; auto. now rewrite length_recv_into.
  - eexists _, _. split; [reflexivity|]. split; [|reflexivity].
    constructor; cbn; auto; rewrite ?app_nil_r, ?Z.add_0_r; auto; [|symmetry; now apply u32_id].
    constructor; cbn; auto.
Qed.

(** ** Waiting *)

Lemma dgram_type op t bytes x : dgram_is op t bytes ->
  0 < Z.of_nat (length bytes) /\ run_reader (get_packet_type (Z.of_nat (length bytes))) (bytes ++ x) = Ok t.
Proof.
  intros (k & oph & tl & Eb & Ho & _). pose proof (length_ophdr _ _ _ _ Ho).
  assert (Hl : 18 <= Z.of_nat (length bytes)) by (rewrite Eb, length_app; lia). split; [lia|].
  rewrite Eb at 2. rewrite <- app_assoc. apply (ophdr_type _ _ _ _ Ho). lia.
Qed.

Lemma dgram_fits op t bytes : dgram_is op t bytes -> (length bytes <= Z.to_nat MAX_BUFSIZE)%nat.
Proof.
  intros (k & oph & tl & _ & _ & H). destruct (op =? GETREQ); [|exact H].
  destruct H as [_ H]. unfold IP_FRAGMENT_MAXSIZE, IP_FRAGMENT_RESERVESIZE, MAX_BUFSIZE in *. lia.
Qed.

(** What the two waiting loops have in common: a round takes one datagram,
    counts it when it is not the answer, and stops at a timeout. *)
Class WaitLoop (op : Z) (key : Key) (wait : nat -> cl (option Z)) : Prop := {
  wait_dgram c bytes addr evs t fuel :
    client_wf c -> cl_sock c = Dgram bytes addr :: evs -> dgram_is op t bytes ->
    exists c1, moved c c1 [] 0 0 0 evs /\
      ((t <> wanted op /\ (op = GETREQ -> t <> GETRES_LARGEVALUE)) ->
       wait (S fuel) c = (_ ← cl_unmatched; wait fuel) c1) /\
      (t = wanted op -> forall k nd, reads_answer op bytes k nd ->
       wait (S fuel) c = if bool_decide (k <> key) then (_ ← cl_unmatched; wait fuel) c1 else Ok (Some nd, c1));
  wait_timeout c evs fuel :
    client_wf c -> cl_sock c = Timeout :: evs ->
    exists c1, wait (S fuel) c = Ok (None, c1) /\ moved c c1 [] 0 0 0 evs
}.

Section Wait.

Context (op : Z) (key : Key) (wait : nat -> cl (option Z)) {HW : WaitLoop op key wait}.

Lemma wait_skip c bytes addr evs fuel :
  client_wf c -> cl_sock c = Dgram bytes addr :: evs -> skipped op key bytes -> unmatched_cnt c + 1 < 2 ^ 31 ->
  exists c', wait (S fuel) c = wait fuel c' /\ moved c c' [] 0 1 0 evs.
Proof using HW.
  intros H Es (t & Hd & Hcase) Hu. destruct (wait_dgram c bytes addr evs t fuel H Es Hd) as (c1 & M1 & Hne & Heq).
  assert (E : wait (S fuel) c = (_ ← cl_unmatched; wait fuel) c1).
  { destruct Hcase as [Ht|(Ht & k & nd & Hk & Hr)]; [now apply Hne|].
    rewrite (Heq Ht k nd Hr), bool_decide_eq_true_2 by exact Hk. reflexivity. }
  destruct (unmatched_moved c1 (mv_wf _ _ _ _ _ _ _ M1)) as (c' & E' & M); [rewrite (mv_un _ _ _ _ _ _ _ M1); lia|].
  exists c'. rewrite E. unfold mbind, cl_bind. rewrite E'. split; [reflexivity|].
  rewrite (mv_sock _ _ _ _ _ _ _ M1) in M. exact (moved_trans _ _ _ _ _ _ _ _ _ _ _ _ _ M1 M).
Qed.

Lemma wait_ends c ev evs r fuel :
  client_wf c -> cl_sock c = ev :: evs -> ends op key ev r ->
  exists c', wait (S fuel) c = Ok (r, c') /\ moved c c' [] 0 0 0 evs.
Proof using HW.
  intros H Es He. destruct He as [|bytes addr nd [Hd Hr]]; [exact (wait_timeout c evs fuel H Es)|].
  destruct (wait_dgram c bytes addr evs _ fuel H Es Hd) as (c1 & M1 & _ & Heq). exists c1. split; [|exact M1].
  rewrite (Heq eq_refl key nd Hr), bool_decide_eq_false_2 by tauto. reflexivity.
Qed.

(** Any number of skipped datagrams before the end of the round. *)
Lemma wait_round addr noise : forall fuel c ev evs r,
  client_wf c -> cl_sock c = dgrams addr noise ++ ev :: evs -> Forall (skipped op key) noise -> ends op key ev r ->
  (length noise < fuel)%nat -> unmatched_cnt c + Z.of_nat (length noise) < 2 ^ 31 ->
  exists c', wait fuel c = Ok (r, c') /\ moved c c' [] 0 (Z.of_nat (length noise)) 0 evs.
Proof using HW.
  induction noise as [|b noise IH]; intros fuel c ev evs r H Es Hn He Hf Hu; (destruct fuel as [|fuel]; [cbn in Hf; lia|]).
  - now apply (wait_ends c ev evs r fuel).
  - apply Forall_cons_1 in Hn as [Hb Hn]. cbn [dgrams map app length] in *.
    destruct (wait_skip c b addr _ fuel H Es Hb) as (c1 & E1 & M1); [lia|]. rewrite E1.
    destruct (IH fuel c1 ev evs r) as (c' & E & M); [apply M1|apply M1|exact Hn|exact He|lia| |].
    { rewrite (mv_un _ _ _ _ _ _ _ M1). lia. }
    exists c'. split; [exact E|]. replace (Z.of_nat (S (length noise))) with (1 + Z.of_nat (length noise)) by lia.
    exact (moved_trans _ _ _ _ _ _ _ _ _ _ _ _ _ M1 M).
Qed.

End Wait.

#[export] Instance wait_response_loop op key : TCEq (op =? GETREQ) false ->
  WaitLoop op key (fun f => wait_response f (wanted op) (read_answer op) key).
Proof.
  intros Hop. constructor.
  - intros c bytes addr evs t fuel H Es Hd.
    destruct (recvfrom_moved c _ evs H Es (dgram_fits _ _ _ Hd)) as (r & c1 & E1 & M1 & -> & x & Eb).
    destruct (dgram_type _ _ _ x Hd) as [Hp Rt]. exists c1. split; [exact M1|].
    assert (E : wait_response (S fuel) (wanted op) (read_answer op) key c =
      (if negb (t =? wanted op) then (_ ← cl_unmatched; wait_response fuel (wanted op) (read_answer op) key) c1
       else ('(k, nd) ← cl_parse (read_answer op) (Z.of_nat (length bytes));
             if bool_decide (k <> key) then _ ← cl_unmatched; wait_response fuel (wanted op) (read_answer op) key
             else mret (Some nd)) c1)).
    { cbn [wait_response]. unfold mbind, cl_bind at 1. rewrite E1. unfold cl_bind at 1. unfold cl_lift, INVARIANT.
      rewrite (proj2 (Z.ltb_lt _ _) Hp). unfold cl_bind at 1. unfold cl_parse at 1. rewrite Eb, Rt.
      cbn [mbind res_bind]. destruct (negb (t =? wanted op)); reflexivity. }
    rewrite E. split.
    + intros [Hne _]. rewrite (proj2 (Z.eqb_neq _ _) Hne). reflexivity.
    + intros -> k nd Hr. rewrite Z.eqb_refl. cbn [negb]. unfold mbind at 1, cl_bind at 1. unfold cl_parse.
      rewrite Eb, Hr. cbn [mbind res_bind]. destruct (bool_decide (k <> key)); reflexivity.
  - intros c evs fuel H Es. destruct (recvfrom_moved c _ evs H Es I) as (r & c1 & E1 & M1 & ->).
    exists c1. split; [|exact M1]. cbn [wait_response]. unfold mbind, cl_bind at 1. now rewrite E1.
Qed.

(** [udprecvlarge_ipfrag] on a small packet or a timeout. *)
Lemma recvlarge_moved stale c ev evs : client_wf c -> cl_sock c = ev :: evs ->
  match ev with Dgram bytes _ => exists t, dgram_is GETREQ t bytes | Timeout => True end ->
  exists c', cl_recvlarge stale c = Ok (match ev with Timeout => true | _ => false end, c') /\ moved c c' [] 0 0 0 evs /\
    match ev with
    | Timeout => True
    | Dgram bytes _ => da_size (cl_dynamicbuf c') = Z.of_nat (length bytes) /\ exists x, da_mem (cl_dynamicbuf c') = bytes ++ x
    end.
Proof.
  intros H Es Hev. pose proof H as [Hb [Wd Md] Hq Hu Ht].
  destruct (plain_clear _ Wd) as (d & Ec & P & _). rewrite Md in P.
  assert (Hmv : forall d', plain d' MAX_LARGE_BUFSIZE (match ev with Dgram bytes _ => bytes | Timeout => [] end) ->
    moved c (mkClient (cl_buf c) d' (cl_fragseq c) (unmatched_cnt c) (timeout_cnt c) (nodeidx_pktcnt_map c) evs (cl_sent c))
      [] 0 0 0 evs).
  { intros d' [[W' M' _] _]. constructor; cbn; auto; rewrite ?app_nil_r, ?Z.add_0_r; auto; [|symmetry; now apply u32_id].
    constructor; cbn; auto. }
  unfold cl_recvlarge. rewrite Ec, Es. cbn [mbind res_bind]. destruct ev as [bytes addr|].
  - destruct Hev as (t & k & oph & tl & Eb & Ho & Hl & Hlen).
    destruct (recv_one_small CURMETHOD_ID stale d P t k bytes addr evs) as (d' & E & P').
    { split; [exact Hl|]. split; [exact Hlen|]. eauto. }
    rewrite E. cbn [mbind res_bind rc_timeout rc_buf rc_rest]. eexists. split; [reflexivity|]. split; [now apply Hmv|].
    cbn [cl_dynamicbuf]. split; [exact (holds_size _ _ _ (pl_holds _ _ _ P'))|].
    exists (drop (Z.to_nat (_cursize d')) (da_mem d')). rewrite <- (ho_bytes _ _ _ (pl_holds _ _ _ P')) at 1.
    unfold contents. now rewrite take_drop.
  - destruct (recv_one_timeout CURMETHOD_ID stale d P evs) as (d' & E & P').
    rewrite E. cbn [mbind res_bind rc_timeout rc_buf rc_rest]. eexists. split; [reflexivity|]. split; [now apply Hmv|exact I].
Qed.

#[export] Instance wait_get_loop stale key : WaitLoop GETREQ key (fun f => wait_get stale f key).
Proof.
  constructor.
  - intros c bytes addr evs t fuel H Es Hd.
    destruct (recvlarge_moved stale c _ evs H Es (ex_intro _ t Hd)) as (c1 & E1 & M1 & Esz & x & Em).
    destruct (dgram_type _ _ _ x Hd) as [Hp Rt]. exists c1. split; [exact M1|].
    assert (E : wait_get stale (S fuel) key c =
      (if negb (t =? GETRES) && negb (t =? GETRES_LARGEVALUE) then (_ ← cl_unmatched; wait_get stale fuel key) c1
       else (rsp ← (if t =? GETRES then cl_parse_large (GetResponse_parse CURMETHOD_ID)
                 else cl_parse_large (GetResponseLargevalue_parse CURMETHOD_ID));
             if bool_decide (p_key (gp_base rsp) <> key) then _ ← cl_unmatched; wait_get stale fuel key
             else mret (Some (gp_nodeidx_foreval rsp))) c1)).
    { cbn [wait_get]. unfold mbind, cl_bind at 1. rewrite E1. unfold cl_bind at 1. unfold cl_gets, cl_lift, INVARIANT.
      unfold cl_bind at 1. rewrite Esz, (proj2 (Z.ltb_lt _ _) Hp). unfold cl_bind at 1. unfold cl_parse_large at 1.
      rewrite Esz, Em, Rt. cbn [mbind res_bind]. destruct (negb (t =? GETRES) && negb (t =? GETRES_LARGEVALUE)); reflexivity. }
    rewrite E. split.
    + intros [Hne Hl]. change (wanted GETREQ) with GETRES in Hne.
      rewrite (proj2 (Z.eqb_neq _ _) Hne), (proj2 (Z.eqb_neq _ _) (Hl eq_refl)). reflexivity.
    + intros -> k nd Hr. change (wanted GETREQ) with GETRES. rewrite Z.eqb_refl. cbn [negb andb].
      unfold mbind at 1, cl_bind at 1. unfold cl_parse_large. rewrite Esz, Em.
      specialize (Hr x). unfold read_answer in Hr. change (GETREQ =? GETREQ) with true in Hr. cbv iota in Hr.
      unfold run_reader in *. unfold mbind at 1, reader_bind in Hr.
      destruct (GetResponse_parse CURMETHOD_ID (Z.of_nat (length bytes)) (RBuf 0 (bytes ++ x))) as [[rsp s]|e]; [|discriminate].
      cbn in Hr. inversion Hr; subst. cbn [mbind res_bind]. destruct (bool_decide (p_key (gp_base rsp) <> key)); reflexivity.
  - intros c evs fuel H Es. destruct (recvlarge_moved stale c _ evs H Es I) as (c1 & E1 & M1 & _).
    exists c1. split; [|exact M1]. cbn [wait_get]. unfold mbind, cl_bind at 1. now rewrite E1.
Qed.

(** ** Sending *)

Lemma send_class {P} (pc : PacketClass P) p c :
  class_ok pc -> pc_wf pc p -> (pc_size pc p <= Z.to_nat MAX_BUFSIZE)%nat -> client_wf c ->
  exists c' d, cl_send (pc_serialize pc p) c = Ok (tt, c') /\ moved c c' [d] 0 0 0 (cl_sock c) /\
    run_reader (pc_deserialize pc (pc_method pc p) (Z.of_nat (length d))) d = Ok (pc_wire pc p).
Proof.
  intros Hc Hp Hs H. pose proof H as [Hb Ha Hq Hu Ht].
  destruct (class_travels pc p Hc Hp (cl_buf c)) as (data' & E & L & _ & R);
    [lia|rewrite Hb; unfold MAX_BUFSIZE; lia|].
  unfold cl_send. rewrite Hb, Z2Nat.id in E by discriminate. rewrite E. cbn [mbind res_bind]. rewrite Nat2Z.id.
  eexists _, (take (pc_size pc p) data'). split; [reflexivity|]. split.
  - constructor; cbn; auto; rewrite ?Z.add_0_r; auto; [|symmetry; now apply u32_id].
    constructor; cbn; auto. now rewrite L.
  - rewrite length_take, Nat.min_l by lia. exact R.
Qed.

(** The bytes of a large request: a header of 24 bytes and the value. *)
Definition large_hdr (t : Z) (key : Key) (idx fragseq : Z) : list Z :=
  be 2 t ++ key_wire key ++ be 2 idx ++ be 4 fragseq.

Lemma large_request_dynamic p d max :
  packet_wf (lr_base p) -> p_methodid (lr_base p) = CURMETHOD_ID -> val_wf (lr_val p) -> holds d max [] ->
  let bytes := large_hdr (p_type (lr_base p)) (p_key (lr_base p)) (lr_client_logical_idx p) (lr_fragseq p) ++
               val_wire_large (lr_val p) in
  Z.of_nat (length bytes) <= max ->
  exists d', LargeRequest_dynamic_serialize p d = Ok (Z.of_nat (length bytes), d') /\ holds d' max bytes.
Proof.
  intros Hb Hm Hv H bytes Hl. destruct p as [b v idx fs]. cbn [lr_base lr_val lr_client_logical_idx lr_fragseq] in *.
  assert (Eb : bytes = ((hdr_wire b ++ be 2 idx) ++ be 4 fs) ++ val_wire_large v).
  { unfold bytes, large_hdr, hdr_wire, switch_wire. rewrite Hm. cbn [is_singleswitch]. now rewrite <- !app_assoc. }
  assert (Hh : length (hdr_wire b) = 18%nat) by (rewrite length_hdr_wire, Hm; reflexivity).
  assert (Hlen : length bytes = (24 + length (val_wire_large v))%nat)
    by (rewrite Eb, !length_app, !length_be, Hh; lia).
  unfold LargeRequest_dynamic_serialize. cbn [lr_base lr_val lr_client_logical_idx lr_fragseq].
  destruct (dynamic_ophdr b d max Hb H) as (d1 & E1 & H1); [rewrite Hm; cbn; lia|]. rewrite E1, Hm. cbn [mbind res_bind].
  clear H E1. change (Z.of_nat (hdr_size CURMETHOD_ID)) with 18. rewrite le_bytes_htons, le_bytes_htonl.
  fold (be 2 idx) (be 4 fs).
  destruct (holds_memcpy d1 max _ 18 (be 2 idx) H1) as (d2 & E2 & H2); [lia|rewrite length_be; lia|].
  rewrite E2. cbn [mbind res_bind].
  destruct (holds_memcpy d2 max _ (18 + 2) (be 4 fs) H2) as (d3 & E3 & H3);
    [rewrite length_app, length_be; lia|rewrite length_be; lia|]. rewrite E3. cbn [mbind res_bind].
  destruct (holds_appends _ _ d3 max _ (18 + 2 + 4) (Val_dynamic_serialize_large_appends v Hv) H3) as (d4 & E4 & H4);
    [rewrite !length_app, !length_be; lia|lia|]. rewrite E4. cbn [mbind res_bind].
  exists d4. rewrite <- Eb in H4. split; [|exact H4]. do 2 f_equal. lia.
Qed.

Lemma send_large_moved p c :
  packet_wf (lr_base p) -> p_methodid (lr_base p) = CURMETHOD_ID -> val_wf (lr_val p) -> client_wf c ->
  Z.of_nat (length (val_wire_large (lr_val p))) + 24 <= MAX_LARGE_BUFSIZE ->
  exists c', cl_send_large p (PutRequestLargevalue_get_frag_hdrsize CURMETHOD_ID) c = Ok (tt, c') /\
    moved c c' (fragments 1384 (large_hdr (p_type (lr_base p)) (p_key (lr_base p)) (lr_client_logical_idx p) (lr_fragseq p))
                  (val_wire_large (lr_val p))) 0 0 0 (cl_sock c).
Proof.
  intros Hb Hm Hv H Hl. pose proof H as [Hbuf [Wd Md] Hq Hu Ht]. unfold cl_send_large.
  destruct (plain_clear _ Wd) as (d & Ec & P & _). rewrite Md in P. rewrite Ec. cbn [mbind res_bind].
  set (hdr := large_hdr _ _ _ _). set (body := val_wire_large (lr_val p)) in *.
  assert (Hh : length hdr = 24%nat) by (unfold hdr, large_hdr; now rewrite !length_app, !length_be, length_key_wire).
  destruct (large_request_dynamic p d MAX_LARGE_BUFSIZE Hb Hm Hv (pl_holds _ _ _ P)) as (d' & E & H');
    [fold hdr body; rewrite length_app; lia|]. fold hdr body in E, H'. rewrite E. cbn [mbind res_bind].
  change (PutRequestLargevalue_get_frag_hdrsize CURMETHOD_ID) with (Ok 24). cbn [mbind res_bind].
  assert (Em : da_mem d' = hdr ++ body ++ drop (Z.to_nat (_cursize d')) (da_mem d')).
  { rewrite app_assoc, <- (ho_bytes _ _ _ H'). unfold contents. now rewrite take_drop. }
  pose proof (udpsendlarge_fragments hdr body (drop (Z.to_nat (_cursize d')) (da_mem d')) 1384) as Hs.
  rewrite <- Em, Hh in Hs. unfold udpsendlarge_ipfrag. assert (MAX_LARGE_BUFSIZE = 8388608) by reflexivity.
  rewrite (Hs ltac:(lia) ltac:(lia) ltac:(lia) ltac:(apply fragnum_u16; lia) _ eq_refl : udpsendlarge _ _ 24 IP_FRAGMENT_MAXSIZE = _).
  cbn [mbind res_bind]. eexists. split; [reflexivity|]. destruct H' as [W' M' _].
  constructor; cbn; auto; rewrite ?Z.add_0_r; auto; [|symmetry; now apply u32_id]. constructor; cbn; auto.
Qed.

(** ** One round *)

Definition retries (r : option Z) : Z := match r with None => 1 | Some _ => 0 end.

Lemma finish_round op key wait {HW : WaitLoop op key wait} addr noise c ev evs r :
  client_wf c -> cl_sock c = dgrams addr noise ++ ev :: evs -> Forall (skipped op key) noise -> ends op key ev r ->
  unmatched_cnt c + Z.of_nat (length noise) < 2 ^ 31 -> timeout_cnt c + 1 < 2 ^ 31 ->
  exists c', (fuel ← cl_fuel; r ← wait fuel; or_retry r) c = Ok (r, c') /\
    moved c c' [] 0 (Z.of_nat (length noise)) (retries r) evs.
Proof.
  intros H Es Hn He Hu Ht. unfold cl_fuel, cl_gets. unfold mbind at 1, cl_bind at 1.
  destruct (wait_round op key wait addr noise (S (length (cl_sock c))) c ev evs r H Es Hn He) as (c1 & E1 & M1);
    [rewrite Es, length_app; unfold dgrams; rewrite length_map; lia|exact Hu|].
  unfold mbind, cl_bind. rewrite E1. destruct r as [nd|]; cbn [or_retry retries].
  - exists c1. split; [reflexivity|exact M1].
  - destruct (timeout_moved c1 (mv_wf _ _ _ _ _ _ _ M1)) as (c2 & E2 & M2); [rewrite (mv_to _ _ _ _ _ _ _ M1); lia|].
    unfold mbind, cl_bind. rewrite E2. exists c2. split; [reflexivity|].
    rewrite (mv_sock _ _ _ _ _ _ _ M1) in M2. replace (Z.of_nat (length noise)) with (Z.of_nat (length noise) + 0) by lia.
    exact (moved_trans _ _ _ _ _ _ _ _ _ _ _ _ _ M1 M2).
Qed.

Definition client_op (op : Z) : Prop := op = GETREQ \/ op = PUTREQ \/ op = LOADREQ \/ op = DELREQ.

Lemma send_get key c : key_wf key -> client_wf c ->
  exists c' d, (req ← cl_lift (GetRequest_new CURMETHOD_ID key); cl_send (GetRequest_serialize req)) c = Ok (tt, c') /\
    moved c c' [d] 0 0 0 (cl_sock c) /\
    run_reader (GetRequest_parse CURMETHOD_ID (Z.of_nat (length d))) d = Ok (mkGetRequest (Packet_new CURMETHOD_ID GETREQ key) 0 0).
Proof.
  intros Hk H. assert (Hp : packet_wf (Packet_new CURMETHOD_ID GETREQ key)) by (apply new_packet_wf; [unfold is_u16, GETREQ; lia|exact Hk]).
  destruct (send_class GetRequest_class (mkGetRequest (Packet_new CURMETHOD_ID GETREQ key) 0 0) c GetRequest_ok)
    as (c' & d & E & M & R); [split; [exact Hp|unfold is_u32; cbn; lia]|cbn; unfold MAX_BUFSIZE; lia|exact H|].
  exists c', d. split; [exact E|]. split; [exact M|].
  unfold GetRequest_parse. cbn [GetRequest_class pc_deserialize pc_method gr_base Packet_new p_methodid] in R.
  unfold run_reader, mbind, reader_bind in *. destruct (GetRequest_deserialize _ _ _) as [[q s]|]; [|discriminate].
  inversion R. reflexivity.
Qed.

Lemma send_del key c : key_wf key -> client_wf c ->
  exists c' d, cl_send (DelRequest_serialize (Packet_new CURMETHOD_ID DELREQ key)) c = Ok (tt, c') /\
    moved c c' [d] 0 0 0 (cl_sock c) /\
    run_reader (DelRequest_deserialize CURMETHOD_ID (Z.of_nat (length d))) d = Ok (Packet_new CURMETHOD_ID DELREQ key).
Proof.
  intros Hk H. assert (Hp : packet_wf (Packet_new CURMETHOD_ID DELREQ key)) by (apply new_packet_wf; [unfold is_u16, DELREQ; lia|exact Hk]).
  destruct (send_class DelRequest_class (Packet_new CURMETHOD_ID DELREQ key) c DelRequest_ok) as (c' & d & E & M & R);
    [exact Hp|cbn; unfold MAX_BUFSIZE; lia|exact H|].
  exists c', d. split; [exact E|]. split; [exact M|exact R].
Qed.

Lemma next_fragseq_moved c : client_wf c ->
  exists c', cl_next_fragseq c = Ok (cl_fragseq c, c') /\ moved c c' [] 1 0 0 (cl_sock c).
Proof.
  intros [Hb Ha Hq Hu Ht]. eexists. split; [reflexivity|].
  constructor; cbn; auto; rewrite ?app_nil_r, ?Z.add_0_r; auto. constructor; cbn; auto. apply u32_range.
Qed.

Section Request.

Context (uninit : Z) (stale : list Z) (idx servers : Z) (val : Val).
Hypothesis Huninit : is_u16 uninit.
Hypothesis Hidx : is_u16 idx.
Hypothesis Hval : val_wf val.
Hypothesis Hfits : Z.of_nat (length (val_wire_large val)) + 24 <= MAX_LARGE_BUFSIZE.

(** The datagrams of one round. *)
Definition request_sent (op : Z) (key : Key) (fragseq : Z) (ds : list (list Z)) : Prop :=
  if op =? GETREQ then
    exists d, ds = [d] /\ run_reader (GetRequest_parse CURMETHOD_ID (Z.of_nat (length d))) d
      = Ok (mkGetRequest (Packet_new CURMETHOD_ID GETREQ key) 0 0)
  else if op =? PUTREQ then
    if val_length val <=? SWITCH_MAX_VALLEN then
      exists d, ds = [d] /\ run_reader (PutRequest_parse CURMETHOD_ID (Z.of_nat (length d))) d
        = Ok (mkPutRequest (Packet_new CURMETHOD_ID PUTREQ key) val)
    else ds = fragments 1384 (large_hdr PUTREQ_LARGEVALUE key idx fragseq) (val_wire_large val)
  else if op =? LOADREQ then ds = fragments 1384 (large_hdr LOADREQ key idx fragseq) (val_wire_large val)
  else exists d, ds = [d] /\ run_reader (DelRequest_deserialize CURMETHOD_ID (Z.of_nat (length d))) d
      = Ok (Packet_new CURMETHOD_ID DELREQ key).

(** Large requests take a number. *)
Definition numbers (op : Z) : Z :=
  if (op =? LOADREQ) || ((op =? PUTREQ) && (SWITCH_MAX_VALLEN <? val_length val)) then 1 else 0.

Lemma send_numbered t key (mk : Z -> res LargeRequest) c :
  is_u16 t -> key_wf key -> client_wf c ->
  (forall fs, exists b, mk fs = Ok (mkLargeRequest b val idx fs) /\ packet_wf b /\ p_methodid b = CURMETHOD_ID /\
     p_type b = t /\ p_key b = key) ->
  exists c', (fragseq ← cl_next_fragseq; req ← cl_lift (mk fragseq);
              cl_send_large req (PutRequestLargevalue_get_frag_hdrsize CURMETHOD_ID)) c = Ok (tt, c') /\
    moved c c' (fragments 1384 (large_hdr t key idx (cl_fragseq c)) (val_wire_large val)) 1 0 0 (cl_sock c).
Proof using All.
  intros Ht Hk H Hmk. destruct (next_fragseq_moved c H) as (c1 & E1 & M1).
  destruct (Hmk (cl_fragseq c)) as (b & Eb & Wb & Mb & Tb & Kb).
  destruct (send_large_moved (mkLargeRequest b val idx (cl_fragseq c)) c1 Wb Mb Hval (mv_wf _ _ _ _ _ _ _ M1) Hfits)
    as (c2 & E2 & M2). exists c2. unfold mbind, cl_bind. rewrite E1. unfold cl_lift. rewrite Eb. split; [exact E2|].
  cbn [lr_base lr_val lr_client_logical_idx lr_fragseq] in M2. rewrite Tb, Kb in M2.
  rewrite (mv_sock _ _ _ _ _ _ _ M1) in M2. exact (moved_trans _ _ _ _ _ _ _ _ _ _ _ _ _ M1 M2).
Qed.

Lemma send_put key c : key_wf key -> client_wf c ->
  exists c' ds, send_put_request uninit idx val key c = Ok (tt, c') /\
    moved c c' ds (numbers PUTREQ) 0 0 (cl_sock c) /\ request_sent PUTREQ key (cl_fragseq c) ds.
Proof using All.
  intros Hk H. unfold send_put_request, request_sent, numbers. change (PUTREQ =? GETREQ) with false. change (PUTREQ =? LOADREQ) with false.
  change (PUTREQ =? PUTREQ) with true. cbn [orb andb]. rewrite Z.ltb_antisym.
  destruct (Z.leb_spec (val_length val) SWITCH_MAX_VALLEN) as [Hs|Hs]; cbn [negb].
  - assert (Hp : packet_wf (Packet_new CURMETHOD_ID PUTREQ key)) by (apply new_packet_wf; [unfold is_u16, PUTREQ; lia|exact Hk]).
    destruct (send_class PutRequest_class (mkPutRequest (Packet_new CURMETHOD_ID PUTREQ key) val) c PutRequest_ok)
      as (c' & d & E & M & R); [exact (conj Hp (conj eq_refl (conj Hval Hs)))| |exact H|].
    { cbn [PutRequest_class pc_size pr_base pr_val Packet_new p_methodid]. change (hdr_size CURMETHOD_ID) with 18%nat.
      pose proof (length_val_body val Hval) as Hb. pose proof (get_padding_size_range (val_length val) (proj1 (val_wf_length val Hval))).
      unfold val_wire_size, SWITCH_MAX_VALLEN, MAX_BUFSIZE in *. lia. }
    exists c', [d]. split; [|split; [exact M|exists d; split; [reflexivity|exact R]]].
    unfold PutRequest_new. rewrite (proj2 (Z.leb_le _ _) Hs), Val_copy_wf by exact Hval. exact E.
  - destruct (send_numbered PUTREQ_LARGEVALUE key (PutRequestLargevalue_new uninit CURMETHOD_ID key val idx) c) as (c' & E & M);
      [unfold is_u16, PUTREQ_LARGEVALUE; lia|exact Hk|exact H| |].
    { intros fs. unfold PutRequestLargevalue_new. rewrite (proj2 (Z.ltb_lt _ _) Hs), Val_copy_wf by exact Hval.
      eexists. split; [reflexivity|]. split; [|repeat split]. constructor; cbn; auto; unfold is_u16, PUTREQ_LARGEVALUE; try lia.
      unfold valid_method, CURMETHOD_ID, FARREACH_ID, DISTCACHE_ID. lia. }
    exists c'. eexists. split; [exact E|]. split; [exact M|reflexivity].
Qed.

Lemma send_load key c : key_wf key -> client_wf c ->
  exists c' ds, (fragseq ← cl_next_fragseq;
         cl_send_large (LoadRequest_new CURMETHOD_ID key val idx fragseq)
           (PutRequestLargevalue_get_frag_hdrsize CURMETHOD_ID)) c = Ok (tt, c') /\
    moved c c' ds (numbers LOADREQ) 0 0 (cl_sock c) /\ request_sent LOADREQ key (cl_fragseq c) ds.
Proof using All.
  intros Hk H.
  destruct (send_numbered LOADREQ key (fun fs => Ok (LoadRequest_new CURMETHOD_ID key val idx fs)) c) as (c' & E & M);
    [unfold is_u16, LOADREQ; lia|exact Hk|exact H| |].
  { intros fs. unfold LoadRequest_new. rewrite Val_copy_wf by exact Hval. eexists. split; [reflexivity|].
    split; [apply new_packet_wf; [unfold is_u16, LOADREQ; lia|exact Hk]|repeat split]. }
  exists c'. eexists. split; [exact E|]. split; [exact M|reflexivity].
Qed.

(** One round of any operation: the request goes out, everything up to the
    timeout or the answer is taken from the socket. *)
Lemma attempt_round op key addr noise c ev evs r :
  client_op op -> key_wf key ->
  client_wf c -> cl_sock c = dgrams addr noise ++ ev :: evs -> Forall (skipped op key) noise -> ends op key ev r ->
  unmatched_cnt c + Z.of_nat (length noise) < 2 ^ 31 -> timeout_cnt c + 1 < 2 ^ 31 ->
  exists c' ds, attempt uninit stale idx val op key c = Ok (r, c') /\
    moved c c' ds (numbers op) (Z.of_nat (length noise)) (retries r) evs /\ request_sent op key (cl_fragseq c) ds.
Proof using All.
  intros Hop Hk H Es Hn He Hu Ht.
  assert (Hcomp : forall (send : cl unit) wait (HW : WaitLoop op key wait) c1 ds,
    send c = Ok (tt, c1) -> moved c c1 ds (numbers op) 0 0 (cl_sock c) ->
    exists c', (_ ← send; fuel ← cl_fuel; r ← wait fuel; or_retry r) c = Ok (r, c') /\
      moved c c' ds (numbers op) (Z.of_nat (length noise)) (retries r) evs).
  { intros send wait HW c1 ds E1 M1.
    destruct (finish_round op key wait addr noise c1 ev evs r (mv_wf _ _ _ _ _ _ _ M1)) as (c2 & E2 & M2);
      [now rewrite (mv_sock _ _ _ _ _ _ _ M1)|exact Hn|exact He|rewrite (mv_un _ _ _ _ _ _ _ M1); lia
      |rewrite (mv_to _ _ _ _ _ _ _ M1); lia|].
    exists c2. unfold mbind at 1, cl_bind at 1. rewrite E1. split; [exact E2|].
    pose proof (moved_trans _ _ _ _ _ _ _ _ _ _ _ _ _ M1 M2) as M. rewrite app_nil_r, !Z.add_0_r, !Z.add_0_l in M. exact M. }
  unfold attempt. destruct Hop as [->|[->|[->| ->]]].
  - destruct (send_get key c Hk H) as (c1 & d & E1 & M1 & R).
    destruct (Hcomp _ _ (wait_get_loop stale key) c1 [d] E1 M1) as (c' & E & M). exists c', [d].
    split; [exact E|]. split; [exact M|]. exists d. auto.
  - destruct (send_put key c Hk H) as (c1 & ds & E1 & M1 & R).
    destruct (Hcomp _ _ (wait_response_loop PUTREQ key (TCEq_refl _)) c1 ds E1 M1) as (c' & E & M). exists c', ds. auto.
  - destruct (send_load key c Hk H) as (c1 & ds & E1 & M1 & R).
    destruct (Hcomp _ _ (wait_response_loop LOADREQ key (TCEq_refl _)) c1 ds E1 M1) as (c' & E & M). exists c', ds. auto.
  - destruct (send_del key c Hk H) as (c1 & d & E1 & M1 & R).
    destruct (Hcomp _ _ (wait_response_loop DELREQ key (TCEq_refl _)) c1 [d] E1 M1) as (c' & E & M). exists c', [d].
    split; [exact E|]. split; [exact M|]. exists d. auto.
Qed.

(** ** The whole request *)

(** What arrives: rounds that end in a timeout, then a round with the answer. *)
Definition timed_out (addr : sockaddr_in) (rounds : list (list (list Z))) : list event :=
  concat (map (fun noise => dgrams addr noise ++ [Timeout]) rounds).

Definition total (rounds : list (list (list Z))) : Z := Z.of_nat (length (concat rounds)).

Lemma retry_rounds op key addr rounds : forall fuel c noise resp nd evs,
  client_op op -> key_wf key -> client_wf c ->
  cl_sock c = timed_out addr rounds ++ dgrams addr noise ++ Dgram resp addr :: evs ->
  Forall (Forall (skipped op key)) rounds -> Forall (skipped op key) noise -> answers op key resp nd ->
  (length rounds < fuel)%nat -> unmatched_cnt c + total (rounds ++ [noise]) < 2 ^ 31 ->
  timeout_cnt c + Z.of_nat (length rounds) + 1 < 2 ^ 31 ->
  exists c' dss, retry uninit stale idx val fuel op key c = Ok (nd, c') /\
    moved c c' (concat dss) (numbers op * Z.of_nat (length dss)) (total (rounds ++ [noise])) (Z.of_nat (length rounds)) evs /\
    length dss = S (length rounds) /\
    forall i ds, dss !! i = Some ds -> request_sent op key (u32 (cl_fragseq c + numbers op * Z.of_nat i)) ds.
Proof using All.
  induction rounds as [|round rounds IH]; intros fuel c noise resp nd evs Hop Hk H Es Hr Hn Ha Hf Hu Ht;
    (destruct fuel as [|fuel]; [cbn in Hf; lia|]); unfold total in Hu; cbn [concat app] in Hu; rewrite ?length_app in Hu; cbn [retry].
  - destruct (attempt_round op key addr noise c (Dgram resp addr) evs (Some nd) Hop Hk H Es Hn (ends_answer _ _ _ _ _ Ha))
      as (c' & ds & E & M & R); [cbn in Hu; lia|cbn in Ht; lia|].
    unfold mbind, cl_bind. rewrite E. exists c', [ds]. split; [reflexivity|]. split; [|split; [reflexivity|]].
    + cbn [concat length app total]. rewrite app_nil_r, Z.mul_1_r. unfold total. cbn [concat app]. rewrite app_nil_r. exact M.
    + intros [|i] ds' Hi; [|discriminate]. cbn in Hi. inversion Hi; subst. rewrite Z.mul_0_r, Z.add_0_r, u32_id by apply H. exact R.
  - apply Forall_cons_1 in Hr as [Hr0 Hr]. cbn [timed_out map concat] in Es. rewrite <- !app_assoc in Es. cbn [app] in Es.
    destruct (attempt_round op key addr round c Timeout _ None Hop Hk H Es Hr0 (ends_timeout _ _)) as (c1 & ds & E1 & M1 & R1);
      [lia|cbn in Ht; lia|].
    destruct (IH fuel c1 noise resp nd evs Hop Hk (mv_wf _ _ _ _ _ _ _ M1) (mv_sock _ _ _ _ _ _ _ M1) Hr Hn Ha)
      as (c' & dss & E & M & L & R); [cbn in Hf; lia|rewrite (mv_un _ _ _ _ _ _ _ M1); unfold total; lia
      |rewrite (mv_to _ _ _ _ _ _ _ M1); cbn [retries length] in *; lia|].
    unfold mbind, cl_bind. rewrite E1. exists c', (ds :: dss). split; [exact E|]. split; [|split; [cbn; lia|]].
    + pose proof (moved_trans _ _ _ _ _ _ _ _ _ _ _ _ _ M1 M) as Mt. cbn [concat length]. unfold total in *.
      cbn [app concat length retries] in *. rewrite length_app.
      replace (numbers op * Z.of_nat (S (length dss))) with (numbers op + numbers op * Z.of_nat (length dss)) by lia.
      rewrite Nat2Z.inj_add. replace (Z.of_nat (S (length rounds))) with (1 + Z.of_nat (length rounds)) by lia. exact Mt.
    + intros [|i] ds' Hi; cbn in Hi.
      * inversion Hi; subst. rewrite Z.mul_0_r, Z.add_0_r, u32_id by apply H. exact R1.
      * specialize (R i ds' Hi). rewrite (mv_seq _ _ _ _ _ _ _ M1) in R. unfold u32 in *.
        rewrite Z.add_mod_idemp_l in R by lia. replace (cl_fragseq c + numbers op * Z.of_nat (S i))
          with (cl_fragseq c + numbers op + numbers op * Z.of_nat i) by lia. exact R.
Qed.


End Request.

(** ** Large responses *)

Section LargeGet.

Context (uninit : Z) (stale : list Z) (idx : Z) (val : Val).
Context (p : GetResponseSeq) (pad : Z) (addr : sockaddr_in) (perm : list nat).
Abbreviation base := (gp_base (gs_resp p)).
Abbreviation key := (p_key base).
Abbreviation hdr := (hdr_wire base).
Abbreviation body := (response_body p pad).
Hypothesis Hp : large_res_wf p.
Hypothesis Hm : p_methodid base = CURMETHOD_ID.
Hypothesis Hlen : Z.of_nat (length (large_wire p)) < MAX_LARGE_BUFSIZE.
Hypothesis Hperm : perm ≡ₚ seq 0 (fragnum 1390 body).

(** The datagrams of the response, in the order of arrival. *)
Definition response_events : list event := map (arrives (fragments 1390 hdr body)) (map (fun i => Part i addr) perm).

Lemma response_wire : large_wire p ++ [pad] = hdr ++ body /\ length hdr = 18%nat.
Proof using Hm.
  split; [unfold large_wire, response_body; now rewrite <- !app_assoc|]. rewrite length_hdr_wire, Hm. reflexivity.
Qed.

Lemma response_gather_ok : gather_ok CURMETHOD_ID GETRES_LARGEVALUE_SEQ key IP_FRAGTYPE IP_FRAGMENT_MAXSIZE 1390 hdr body.
Proof using Hp Hm Hlen.
  destruct response_wire as [Ew Eh]. pose proof (f_equal length Ew) as El. rewrite !length_app in El. cbn [length] in El.
  assert (Hlt : MAX_LARGE_BUFSIZE = 8388608) by reflexivity.
  constructor; [left|lia|rewrite Eh; split; [reflexivity|discriminate]|lia|apply fragnum_u16; lia].
  split; [reflexivity|]. split; [|split; [reflexivity|rewrite Eh; reflexivity]].
  rewrite <- (lw_type _ Hp), <- Hm. apply hdr_wire_ophdr; apply Hp.
Qed.

Lemma perm_bound i : i ∈ perm -> (i < fragnum 1390 body)%nat.
Proof using Hperm. rewrite Hperm, elem_of_seq. lia. Qed.

(** The client puts the response together, drops it, and times out. *)
Lemma response_received c evs : client_wf c -> cl_sock c = response_events ++ evs ->
  exists c', cl_recvlarge stale c = Ok (false, c') /\ moved c c' [] 0 0 0 evs /\
    0 < da_size (cl_dynamicbuf c') /\
    run_reader (get_packet_type (da_size (cl_dynamicbuf c'))) (da_mem (cl_dynamicbuf c')) = Ok GETRES_LARGEVALUE_SEQ.
Proof using All.
  intros H Es. pose proof H as [Hb [Wd Md] Hq Hu Ht]. destruct (plain_clear _ Wd) as (d & Ec & P & _). rewrite Md in P.
  assert (Ev : response_events = map (arrival_event 1390 hdr body) (map (fun i => Part i addr) perm)).
  { apply arrives_fragments. intros i. rewrite parts_map. apply perm_bound. }
  assert (Hq0 : exists i q, perm = i :: q).
  { destruct perm as [|i q]; [|eauto]. exfalso. apply Permutation_length in Hperm. rewrite length_seq in Hperm.
    unfold fragnum in Hperm. cbn in Hperm. lia. }
  destruct Hq0 as (i & q & Eq).
  destruct (gather_call _ _ _ _ _ _ _ _ addr response_gather_ok stale d i (map (fun i => Part i addr) q) evs P)
    as (d' & l' & E & P' & Hl' & Hsuf).
  - apply perm_bound. rewrite Eq. apply list_elem_of_here.
  - apply List.Forall_map, Forall_forall. intros j Hj. cbn [arrival_ok]. apply perm_bound. rewrite Eq. right.
    first [exact Hj|now apply list_elem_of_In].
  - rewrite parts_map, <- Eq. exact Hperm.
  - rewrite (parts_left addr q l' Hsuf Hl') in E. cbn [app] in E.
    unfold cl_recvlarge. rewrite Ec, Es, Ev, Eq. cbn [mbind res_bind]. unfold udprecvlarge_ipfrag. cbn [map] in E |- *.
    rewrite E. cbn [mbind res_bind rc_timeout rc_buf rc_rest app]. eexists. split; [reflexivity|].
    pose proof (pl_holds _ _ _ P') as Hd'. pose proof (holds_size _ _ _ Hd') as Hsz. destruct response_wire as [_ Eh].
    split; [|cbn [cl_dynamicbuf]; unfold da_size; rewrite Hsz, length_app; split; [lia|]].
    + destruct Hd' as [W' M' _]. constructor; cbn; auto; rewrite ?app_nil_r, ?Z.add_0_r; auto; [|symmetry; now apply u32_id].
      constructor; cbn; auto.
    + rewrite <- (take_drop (Z.to_nat (_cursize d')) (da_mem d')). fold (contents d'). rewrite (ho_bytes _ _ _ Hd'), <- app_assoc.
      apply (ophdr_type CURMETHOD_ID _ key hdr); [|lia]. rewrite <- (lw_type _ Hp), <- Hm. apply hdr_wire_ophdr; apply Hp.
Qed.

Lemma response_ignored fuel c evs : client_wf c -> cl_sock c = response_events ++ evs -> unmatched_cnt c + 1 < 2 ^ 31 ->
  exists c', wait_get stale (S fuel) key c = wait_get stale fuel key c' /\ moved c c' [] 0 1 0 evs.
Proof using All.
  intros H Es Hu. destruct (response_received c evs H Es) as (c1 & E1 & M1 & Hs & Rt).
  destruct (unmatched_moved c1 (mv_wf _ _ _ _ _ _ _ M1)) as (c' & E' & M); [rewrite (mv_un _ _ _ _ _ _ _ M1); lia|].
  exists c'. split.
  - cbn [wait_get]. unfold mbind, cl_bind at 1. rewrite E1. unfold cl_bind at 1, cl_gets, cl_lift, INVARIANT.
    unfold cl_bind at 1. rewrite (proj2 (Z.ltb_lt _ _) Hs). unfold cl_bind at 1. unfold cl_parse_large at 1. rewrite Rt.
    cbn [mbind res_bind]. change (negb (GETRES_LARGEVALUE_SEQ =? GETRES) && negb (GETRES_LARGEVALUE_SEQ =? GETRES_LARGEVALUE))
      with true. cbv iota. unfold cl_bind. rewrite E'. reflexivity.
  - rewrite (mv_sock _ _ _ _ _ _ _ M1) in M. exact (moved_trans _ _ _ _ _ _ _ _ _ _ _ _ _ M1 M).
Qed.

Lemma attempt_get_after k c c1 :
  (req ← cl_lift (GetRequest_new CURMETHOD_ID k); cl_send (GetRequest_serialize req)) c = Ok (tt, c1) ->
  attempt uninit stale idx val GETREQ k c = (fuel ← cl_fuel; r ← wait_get stale fuel k; or_retry r) c1.
Proof using.
  intros E. transitivity ((_ ← (req ← cl_lift (GetRequest_new CURMETHOD_ID k); cl_send (GetRequest_serialize req));
    fuel ← cl_fuel; r ← wait_get stale fuel k; or_retry r) c); [reflexivity|].
  unfold mbind at 1, cl_bind at 1. rewrite E. reflexivity.
Qed.

Lemma attempt_large_get c evs : client_wf c -> cl_sock c = response_events ++ Timeout :: evs ->
  unmatched_cnt c + 1 < 2 ^ 31 -> timeout_cnt c + 1 < 2 ^ 31 ->
  exists c' ds, attempt uninit stale idx val GETREQ key c = Ok (None, c') /\ moved c c' ds 0 1 1 evs.
Proof using All.
  intros H Es Hu Ht. destruct (send_get key c) as (c1 & d & E1 & M1 & _); [apply Hp|exact H|].
  pose proof (mv_wf _ _ _ _ _ _ _ M1) as W1. pose proof (mv_sock _ _ _ _ _ _ _ M1) as S1. rewrite Es in S1.
  assert (Hf : exists f, length (cl_sock c1) = S f) by (rewrite S1, length_app; cbn; exists (length response_events + length evs)%nat; lia).
  destruct Hf as [f Hf].
  destruct (response_ignored (S f) c1 _ W1 S1) as (c2 & E2 & M2); [rewrite (mv_un _ _ _ _ _ _ _ M1); lia|].
  destruct (wait_ends GETREQ key (fun f => wait_get stale f key) c2 Timeout evs None f (mv_wf _ _ _ _ _ _ _ M2)
    (mv_sock _ _ _ _ _ _ _ M2) (ends_timeout _ _)) as (c3 & E3 & M3).
  pose proof (moved_trans _ _ _ _ _ _ _ _ _ _ _ _ _ (moved_trans _ _ _ _ _ _ _ _ _ _ _ _ _ M1 M2) M3) as M.
  destruct (timeout_moved c3 (mv_wf _ _ _ _ _ _ _ M3)) as (c4 & E4 & M4); [rewrite (mv_to _ _ _ _ _ _ _ M); lia|].
  exists c4, [d]. split.
  - rewrite (attempt_get_after key c c1 E1). unfold cl_fuel, cl_gets. unfold mbind, cl_bind. rewrite Hf, E2, E3.
    cbn [or_retry]. unfold mbind, cl_bind. rewrite E4. reflexivity.
  - rewrite (mv_sock _ _ _ _ _ _ _ M3) in M4. exact (moved_trans _ _ _ _ _ _ _ _ _ _ _ _ _ M M4).
Qed.

(** Nothing arrives any more. *)
Lemma attempt_get_blocked c : client_wf c -> cl_sock c = [] -> attempt uninit stale idx val GETREQ key c = Err Blocked.
Proof using Hp.
  intros H Es. destruct (send_get key c) as (c1 & d & E1 & M1 & _); [apply Hp|exact H|].
  rewrite (attempt_get_after key c c1 E1). unfold cl_fuel, cl_gets. unfold mbind, cl_bind.
  pose proof (mv_sock _ _ _ _ _ _ _ M1) as S1. rewrite Es in S1. rewrite S1. cbn [length wait_get].
  unfold mbind, cl_bind, cl_recvlarge. rewrite S1.
  destruct (plain_clear (cl_dynamicbuf c1)) as (d' & E & _); [apply (mv_wf _ _ _ _ _ _ _ M1)|]. rewrite E. reflexivity.
Qed.

Lemma retry_large_get n : forall fuel c, client_wf c ->
  cl_sock c = concat (replicate n (response_events ++ [Timeout])) -> (n < fuel)%nat ->
  unmatched_cnt c + Z.of_nat n < 2 ^ 31 -> timeout_cnt c + Z.of_nat n < 2 ^ 31 ->
  retry uninit stale idx val fuel GETREQ key c = Err Blocked.
Proof using All.
  induction n as [|n IH]; intros fuel c H Es Hf Hu Ht; (destruct fuel as [|fuel]; [lia|]); cbn [retry]; unfold mbind, cl_bind.
  - now rewrite attempt_get_blocked.
  - cbn [replicate concat] in Es. rewrite <- app_assoc in Es. cbn [app] in Es.
    destruct (attempt_large_get c _ H Es) as (c' & ds & E & M); [lia|lia|]. rewrite E.
    apply IH; [apply M|apply M|lia| |].
    + rewrite (mv_un _ _ _ _ _ _ _ M). lia.
    + rewrite (mv_to _ _ _ _ _ _ _ M). lia.
Qed.

End LargeGet.

(** C34: a GET of a value of more than 128 bytes never completes.  The server answers
    it with GETRES_LARGEVALUE_SEQ, in fragments that the client puts together;
    but the client accepts only GETRES and GETRES_LARGEVALUE.  However often the
    client asks and the server answers, it takes every answer for a packet of
    another request, times out and asks again. *)
Theorem large_get_never_completes (uninit : Z) (stale : list Z) (idx servers : Z) (val : Val)
    (p : GetResponseSeq) (pad : Z) (tl : list Z) (addr : sockaddr_in) (perm : list nat) :
  large_res_wf p -> p_methodid (gp_base (gs_resp p)) = CURMETHOD_ID ->
  Z.of_nat (length (large_wire p)) < MAX_LARGE_BUFSIZE -> perm ≡ₚ seq 0 (fragnum 1390 (response_body p pad)) ->
  exists frs, udpsendlarge_ipfrag (large_wire p ++ pad :: tl) (Z.of_nat (length (large_wire p)) + 1) 18 = Ok frs /\
    forall n c, client_wf c -> unmatched_cnt c + Z.of_nat n < 2 ^ 31 -> timeout_cnt c + Z.of_nat n < 2 ^ 31 ->
      cl_sock c = concat (replicate n (map (fun i => Dgram (nth i frs []) addr) perm ++ [Timeout])) ->
      client_request uninit stale idx servers val GETREQ (p_key (gp_base (gs_resp p))) c = Err Blocked.
Proof.
  intros Hp Hm Hlen Hperm. exists (fragments 1390 (hdr_wire (gp_base (gs_resp p))) (response_body p pad)).
  destruct (response_wire p pad Hm) as [Ew Eh]. split.
  - pose proof (udpsendlarge_fragments (hdr_wire (gp_base (gs_resp p))) (response_body p pad) tl 1390) as Hs.
    pose proof (f_equal length Ew) as El. rewrite !length_app in El. cbn [length] in El. rewrite Eh in *.
    replace (large_wire p ++ pad :: tl) with (hdr_wire (gp_base (gs_resp p)) ++ response_body p pad ++ tl)
      by (now rewrite app_assoc, <- Ew, <- app_assoc).
    unfold udpsendlarge_ipfrag. assert (MAX_LARGE_BUFSIZE = 8388608) by reflexivity.
    apply Hs; [lia|lia|lia|apply fragnum_u16; lia|]. rewrite length_app, Eh. lia.
  - intros n c H Hu Ht Es. unfold client_request, cl_fuel, cl_gets. unfold mbind, cl_bind.
    rewrite (retry_large_get uninit stale idx val p pad addr perm Hp Hm Hlen Hperm n); [reflexivity|exact H| | |exact Hu|exact Ht].
    + unfold response_events. rewrite map_map. exact Es.
    + rewrite Es. clear. induction n as [|n IH]; [cbn; lia|]. cbn [replicate concat]. rewrite !length_app. cbn [length]. lia.
Qed.

(** ** Examples *)

Definition demo_start (sock : list event) : Client :=
  mkClient (replicate (Z.to_nat MAX_BUFSIZE) 0) demo_large_array 7 0 0 ∅ sock [].

Lemma demo_start_wf sock : client_wf (demo_start sock).
Proof.
  constructor; cbn [demo_start cl_buf cl_dynamicbuf cl_fragseq unmatched_cnt timeout_cnt]; [apply length_replicate| | | |].
  - exact (conj demo_large_array_wf eq_refl).
  - unfold is_u32. lia.
  - lia.
  - lia.
Qed.

(** PUTRES for key [k] from node 3. *)
Definition demo_putres (k : Key) : list Z := be 2 PUTRES ++ key_wire k ++ be 2 PUTRES ++ [1] ++ be 2 3 ++ [0].

Lemma demo_putres_is n : n = 1 \/ n = 9 ->
  dgram_is PUTREQ PUTRES (demo_putres (mkKey n 2 3 4)) /\ reads_answer PUTREQ (demo_putres (mkKey n 2 3 4)) (mkKey n 2 3 4) 3.
Proof.
  intros Hn. split.
  - exists (mkKey n 2 3 4), (be 2 PUTRES ++ key_wire (mkKey n 2 3 4)), (be 2 PUTRES ++ [1] ++ be 2 3 ++ [0]).
    split; [unfold demo_putres; now rewrite <- app_assoc|]. split.
    + constructor; [unfold is_u16, PUTRES; lia|unfold key_wf, is_u32; cbn; lia|]. exists []. split; [reflexivity|].
      rewrite length_app, length_be, length_key_wire. reflexivity.
    + change (PUTREQ =? GETREQ) with false. cbv iota. unfold demo_putres. rewrite !length_app, !length_be, length_key_wire.
      unfold MAX_BUFSIZE. cbn [length Nat.add]. lia.
  - intros x. destruct Hn as [-> | ->]; reflexivity.
Qed.

Definition demo_key : Key := mkKey 1 2 3 4.

Lemma demo_putres_skipped : Forall (skipped PUTREQ demo_key) [demo_putres (mkKey 9 2 3 4)].
Proof.
  constructor; [|constructor]. destruct (demo_putres_is 9) as [Hd Hr]; [auto|].
  exists PUTRES. split; [exact Hd|]. right. split; [reflexivity|]. exists (mkKey 9 2 3 4), 3. split; [discriminate|exact Hr].
Qed.

Lemma demo_fits v : val_length v <= 2000 -> val_wf v -> Z.of_nat (length (val_wire_large v)) + 24 <= MAX_LARGE_BUFSIZE.
Proof.
  intros Hl Hv. rewrite length_val_wire_large, val_wire_size_large_eq by exact Hv.
  pose proof (get_padding_size_range (val_length v) (proj1 (val_wf_length v Hv))). unfold MAX_LARGE_BUFSIZE. lia.
Qed.


Lemma large_get_never_completes_witness :
  exists frs, udpsendlarge_ipfrag (large_wire demo_response ++ 6 :: []) (Z.of_nat (length (large_wire demo_response)) + 1) 18 = Ok frs /\
    client_request 0 [] 4 16 demo_val GETREQ demo_key
      (demo_start (concat (replicate 5 (map (fun i => Dgram (nth i frs []) sockaddr_zero) [1; 0]%nat ++ [Timeout])))) = Err Blocked.
Proof.
  destruct (large_get_never_completes 0 [] 4 16 demo_val demo_response 6 [] sockaddr_zero [1; 0]%nat demo_response_wf eq_refl)
    as (frs & E & H).
  - apply Z.ltb_lt. vm_compute. reflexivity.
  - assert (E : fragnum 1390 (response_body demo_response 6) = 2%nat) by (vm_compute; reflexivity).
    rewrite E. apply Permutation_swap.
  - exists frs. split; [exact E|]. apply (H 5%nat); [apply demo_start_wf|reflexivity|reflexivity|reflexivity].
Defined.
