(* ===== verification/EndToEnd.v ===== *)
(** * A large PUT from the client to the worker

    The client's serializer and [udpsendlarge_ipfrag], the network with the
    switch between them, and the worker's receiver and request constructor, in
    one statement. *)

From Stdlib Require Import ZArith Lia List.
From stdpp Require Import base tactics list numbers option gmap.
From S2P Require Import Prelude Cursor DynamicArray StdMap Crc32 Key Val DeletedSet KVStore RocksdbWrapper RocksdbProps Packet PacketCodec PacketCache PacketScan PacketServer Outband Server ServerSpec ServerProps Fragment Reassembly PktRingBuffer RecvLarge RecvSpec RecvProps Delivery RecvClient MultiSrc RemoteClient RemoteClientProps.

Open Scope Z_scope.

(** Only the upper half of the number is read. *)
Lemma reads_fragseq x pos : is_u32 x -> reads r_fragseq pos (be 4 x) (x / 65536).
Proof.
  intros Hx. unfold r_fragseq. rewrite <- (app_nil_r (be 4 x)).
  eapply reads_bind; [apply reads_get; now rewrite length_be|]. apply reads_ret_eq.
  unfold be. cbn [le_bytes rev app le_val]. unfold u16, ntohs, htons.
  cbn [le_bytes rev app le_val]. unfold is_u32 in Hx. Z.div_mod_to_equations. lia.
Qed.

(** What the worker's constructor reads from a request behind the switch. *)
Lemma put_large_reads sw0 k idx fragseq v rlen :
  is_largevalue_seq (sh_type sw0) = true -> is_u32 (sh_seq sw0) -> is_u32 (sh_token sw0) ->
  key_wf k -> is_u16 idx -> is_u32 fragseq -> val_wf v -> SWITCH_MAX_VALLEN < val_length v ->
  let bytes := farreach_hdr (sh_type sw0) k (sh_shadow sw0) (sh_seq sw0) (sh_token sw0) idx fragseq ++ val_wire_large v in
  Z.of_nat (length bytes) <= rlen < 2 ^ 32 ->
  reads (PutRequestLargevalueSeq_parse (sh_type sw0) CURMETHOD_ID rlen) 0 bytes
    (mkPutRequestLargevalueSeq (mkLargeRequest (Packet_new CURMETHOD_ID (sh_type sw0) k) v idx (fragseq / 65536))
       (sh_seq sw0) (sh_token sw0)).
Proof.
  intros Ht Hsq Htk Hk Hi Hf Hv Hl bytes Hr.
  destruct (seq_type_facts _ Ht) as (Hu & _ & _). pose proof (new_packet_wf _ k Hu Hk : packet_wf (Packet_new CURMETHOD_ID _ k)) as Hb.
  pose proof (hdr_reads _ rlen Hb) as Hh.
  set (b := Packet_new CURMETHOD_ID (sh_type sw0) k) in *.
  assert (Eb : bytes = hdr_wire b ++ be 2 (sh_shadow sw0) ++ be 4 (sh_seq sw0) ++ be 4 (sh_token sw0) ++ be 2 idx ++
                       be 4 fragseq ++ val_wire_large v ++ []).
  { unfold bytes, farreach_hdr, hdr_wire. cbn [b Packet_new p_type p_key switch_wire]. rewrite app_nil_r.
    now rewrite <- !app_assoc. }
  assert (Hlen : length bytes = (34 + val_wire_size_large v)%nat).
  { unfold bytes. rewrite length_app, length_farreach_hdr, length_val_wire_large. reflexivity. }
  rewrite Hlen in Hr. pose proof (large_size_ge v Hv Hl) as Hge. unfold SWITCH_MAX_VALLEN in Hge.
  rewrite Eb. clear Eb Hlen. clearbody bytes.
  assert (Hlb : length (hdr_wire b) = 18%nat) by (rewrite length_hdr_wire; reflexivity).
  change (wire_hdr b) with b in Hh. change (p_methodid b) with CURMETHOD_ID in Hh.
  change (Z.of_nat (hdr_size CURMETHOD_ID)) with 18 in Hh. specialize (Hh ltac:(lia)).
  unfold PutRequestLargevalueSeq_parse, PutRequestLargevalueSeq_deserialize.
  change (PutRequestLargevalueSeq_size CURMETHOD_ID) with (Ok 166).
  change (CURMETHOD_ID =? FARREACH_ID) with true. cbv iota. rd.
  eapply reads_bind; [exact Hh|]. rewrite Hlb. apply reads_assoc.
  eapply reads_bind; [apply reads_skip; [lia|now rewrite length_be]|]. rd_len. rd.
  eapply reads_bind; [now apply reads_fragseq|]. rd_len. rd.
Qed.

(** ** The worker *)

(** The types of large writes a worker handles, and the token of those that
    make a snapshot first. *)
Definition handled_type (t : Z) : bool :=
  (t =? PUTREQ_LARGEVALUE_SEQ) || (t =? PUTREQ_LARGEVALUE_SEQ_CASE3) ||
  (t =? PUTREQ_LARGEVALUE_SEQ_BEINGEVICTED) || (t =? PUTREQ_LARGEVALUE_SEQ_CASE3_BEINGEVICTED).
Definition case3_token (t token : Z) : option Z :=
  if (t =? PUTREQ_LARGEVALUE_SEQ_CASE3) || (t =? PUTREQ_LARGEVALUE_SEQ_CASE3_BEINGEVICTED) then Some token else None.

Definition written (sw0 : SwitchHdr) (k : Key) (v : Val) : Request :=
  QWrite (case3_token (sh_type sw0) (sh_token sw0)) false k (Some v) (sh_seq sw0).

Lemma handled_seq t : handled_type t = true -> is_largevalue_seq t = true.
Proof.
  unfold handled_type. intros H. repeat (apply orb_true_iff in H as [H|H]); apply Z.eqb_eq in H; subst t; reflexivity.
Qed.

Lemma run_contents {A} (r : reader A) d bs cs a :
  da_wf d -> contents d = bs ++ cs -> reads r 0 bs a -> run_reader r (da_mem d) = Ok a.
Proof.
  intros W E R. unfold run_reader. rewrite <- (take_drop (Z.to_nat (_cursize d)) (da_mem d)).
  fold (contents d). rewrite E, <- app_assoc, R. reflexivity.
Qed.

Lemma contents_size d : da_wf d -> da_size d = Z.of_nat (length (contents d)).
Proof.
  intros W. pose proof (da_wf_len d W) as Hl. destruct W as (_ & H0 & _).
  unfold da_size, contents. rewrite length_take. lia.
Qed.

(** The array that holds the received packet carries the write. *)
Lemma put_large_carries d sw0 k idx fragseq v :
  handled_type (sh_type sw0) = true -> is_u32 (sh_seq sw0) -> is_u32 (sh_token sw0) ->
  key_wf k -> is_u16 idx -> is_u32 fragseq -> val_wf v -> SWITCH_MAX_VALLEN < val_length v ->
  da_wf d -> _maxcapability d = MAX_LARGE_BUFSIZE ->
  contents d = farreach_hdr (sh_type sw0) k (sh_shadow sw0) (sh_seq sw0) (sh_token sw0) idx fragseq ++ val_wire_large v ->
  carries d (written sw0 k v).
Proof.
  intros Ht Hsq Htk Hk Hi Hf Hv Hl W M E.
  pose proof (handled_seq _ Ht) as Hs. destruct (seq_type_facts _ Hs) as (Hu & _ & _).
  pose proof (contents_size d W) as Hsz. rewrite E in Hsz.
  assert (Hb : 34 <= da_size d < 2 ^ 32).
  { pose proof W as (_ & H0 & _ & H2 & H3). rewrite Hsz, length_app, length_farreach_hdr in *.
    unfold da_size, MAX_LARGE_BUFSIZE in *. lia. }
  assert (Hty : typed d (sh_type sw0)).
  { unfold typed, get_packet_type. unfold farreach_hdr in E. rewrite <- !app_assoc in E.
    apply (run_contents _ _ _ _ _ W E). apply reads_check_bind; [apply Z.leb_le; lia|]. now apply reads_u16be. }
  assert (Hp : parsed d (PutRequestLargevalueSeq_parse (sh_type sw0))
    (mkPutRequestLargevalueSeq (mkLargeRequest (Packet_new CURMETHOD_ID (sh_type sw0) k) v idx (fragseq / 65536))
       (sh_seq sw0) (sh_token sw0))).
  { unfold parsed. rewrite <- (app_nil_r (_ ++ _)) in E. apply (run_contents _ _ _ _ _ W E).
    apply put_large_reads; auto. lia. }
  unfold written, case3_token, handled_type in *. destruct sw0 as [t sh sq tk]. cbn [sh_type sh_shadow sh_seq sh_token] in *.
  repeat (apply orb_true_iff in Ht as [Ht|Ht]); apply Z.eqb_eq in Ht; subst t.
  - exact (carries_large _ _ Hty Hp).
  - exact (carries_large_case3 _ _ Hty Hp).
  - exact (carries_large_evicted _ _ Hty Hp).
  - exact (carries_large_case3_evicted _ _ Hty Hp).
Qed.

(** ** From the client to the store *)

Section LargePut.
Context {DB Snap : Type} `{Hkv : KVStore DB Snap}.
Context {Hlaws : KVStoreLaws DB Snap} {Havail : KVStoreAvailable DB Snap}.
Context (cfg : ServerConfig) (Hcfg : config_ok cfg).

(** C24: a large PUT travels from the client's call to the server's store.  The
    client takes a request number, serializes the value and cuts it into
    fragments; the switch replaces the 24 bytes of header of every fragment by
    its own 34 (any sequence numbers, tokens and types of large writes); the
    fragments arrive in any order.  One receive call of the worker then gives one
    packet and leaves nothing in the ring, and the worker that has it in its array
    writes the client's value under the client's key, with the sequence number
    the switch gave to fragment 0, and sends exactly one answer, a PUTRES of that
    key and number. *)
Theorem large_put_stored (uninit idx : Z) (k : Key) (v : Val) (c : Client) (sw : nat -> SwitchHdr)
    (addr : sockaddr_in) (perm : list nat) (stale : nat -> list Z) (buf : DynamicArray) :
  is_u16 uninit -> is_u16 idx -> key_wf k -> val_wf v -> SWITCH_MAX_VALLEN < val_length v ->
  Z.of_nat (length (val_wire_large v)) + 34 <= MAX_LARGE_BUFSIZE -> client_wf c ->
  (forall i, handled_type (sh_type (sw i)) = true) -> is_u32 (sh_seq (sw 0%nat)) -> is_u32 (sh_token (sw 0%nat)) ->
  perm ≡ₚ seq 0 (fragnum 1384 (val_wire_large v)) -> da_wf buf -> _maxcapability buf = MAX_LARGE_BUFSIZE ->
  let packet := put_hdr sw k idx (cl_fragseq c) 0 ++ val_wire_large v in
  exists c' frs r r',
    send_put_request uninit idx v k c = Ok (tt, c') /\ cl_sent c' = cl_sent c ++ frs /\
    length frs = fragnum 1384 (val_wire_large v) /\
    ring_init PKT_RING_BUFFER_SIZE = Ok r /\
    worker_recvs CURMETHOD_ID stale 1 r buf
      (map (fun i => Dgram (put_hdr sw k idx (cl_fragseq c) i ++ drop 24 (nth i frs [])) addr) perm)
    = Ok ([Some (packet, Some addr)], r', []) /\ ring_is r' [] /\
    forall t : @Thread DB Snap,
      buffers_ok t -> server_ok (t_server t) -> contents (t_dynamicbuf t) = packet ->
      admissible (t_server t) (written (sw 0%nat) k v) ->
      exists t' out, worker_step cfg t = Ok (tt, t') /\ t_sent t' = t_sent t ++ [out] /\
        delivers (global_server_logical_idx cfg) out (RPut k (sh_seq (sw 0%nat))) /\
        (forall k', key_wf k' -> ver (t_server t') k' =
           if decide (k' = k) then upd_version false (ver (t_server t) k) (Some v) (sh_seq (sw 0%nat))
           else ver (t_server t) k').
Proof using Hcfg Hlaws Havail.
  intros Hun Hi Hk Hv Hl Hfit Hc Ht Hsq Htk Hp W M packet.
  destruct (send_put uninit [] idx 1 v Hun Hi Hv ltac:(lia) k c Hk Hc) as (c' & ds & Es & Mv & Hds).
  unfold request_sent in Hds. change (PUTREQ =? GETREQ) with false in Hds. change (PUTREQ =? PUTREQ) with true in Hds.
  rewrite (proj2 (Z.leb_gt _ _) Hl) in Hds. cbv iota in Hds. subst ds.
  set (hdr := large_hdr PUTREQ_LARGEVALUE k idx (cl_fragseq c)) in *.
  assert (Hh : length hdr = 24%nat) by (unfold hdr, large_hdr; now rewrite !length_app, !length_be, length_key_wire).
  destruct (put_received sw k idx (cl_fragseq c) hdr (val_wire_large v) addr perm stale buf) as (r & r' & Er & Ew & Hr);
    auto; [intros i; apply handled_seq, Ht|apply Hc|lia|].
  exists c', (fragments 1384 hdr (val_wire_large v)), r, r'.
  split; [exact Es|]. split; [exact (mv_sent _ _ _ _ _ _ _ Mv)|]. split; [apply length_fragments|].
  split; [exact Er|]. split; [exact Ew|]. split; [exact Hr|].
  intros t Hb Hs Hcon Ha.
  assert (Hcar : carries (t_dynamicbuf t) (written (sw 0%nat) k v)).
  { apply (put_large_carries _ _ _ idx (cl_fragseq c)); auto; [apply Hc|apply Hb|apply Hb]. }
  destruct (worker_runs cfg Hcfg t _ Hb Hs Hcar Ha) as (t' & out & E & _ & (_ & _ & V & _) & T & F).
  apply Forall2_cons_inv_r in F as (o & out' & Ho & F & ->). apply Forall2_nil_inv_r in F as ->.
  exists t', o. split; [exact E|]. split; [exact T|]. split; [exact Ho|].
  intros k' Hk'. exact (V k' Hk').
Qed.
End LargePut.

(** ** Example *)

(** A value of 2000 bytes under key 1, whose second fragment arrives first and is
    typed CASE3 by the switch. *)
Definition demo_put_val : Val := gp_val (gs_resp demo_response).
Definition demo_put_sw (i : nat) : SwitchHdr :=
  match i with
  | O => mkSwitchHdr PUTREQ_LARGEVALUE_SEQ PUTREQ_LARGEVALUE_SEQ 20 0
  | S _ => mkSwitchHdr PUTREQ_LARGEVALUE_SEQ_CASE3 PUTREQ_LARGEVALUE_SEQ_CASE3 21 1
  end.

Lemma demo_contents bs : contents (ServerProps.demo_array bs) = bs.
Proof.
  unfold contents, ServerProps.demo_array, da_mem. cbn [_cursize _array]. rewrite Nat2Z.id. apply (take_app_length bs).
Qed.

Lemma large_put_stored_witness :
  let packet := put_hdr demo_put_sw (key_of 1) 4 7 0 ++ val_wire_large demo_put_val in
  exists c' frs r r' t' out,
    send_put_request 0 4 demo_put_val (key_of 1) (demo_start []) = Ok (tt, c') /\ cl_sent c' = frs /\
    ring_init PKT_RING_BUFFER_SIZE = Ok r /\
    worker_recvs CURMETHOD_ID (fun _ => []) 1 r demo_large_array
      (map (fun i => Dgram (put_hdr demo_put_sw (key_of 1) 4 7 i ++ drop 24 (nth i frs [])) (demo_client 1)) [1; 0]%nat)
    = Ok ([Some (packet, Some (demo_client 1))], r', []) /\
    worker_step demo_cfg (demo_thread packet) = Ok (tt, t') /\ t_sent t' = [out] /\
    delivers 0 out (RPut (key_of 1) 20) /\ ver (t_server t') (key_of 1) = (Some demo_put_val, 20).
Proof.
  intros packet. pose proof (lw_val _ demo_response_wf) as Hv. fold demo_put_val in Hv.
  assert (Hlen : Z.of_nat (length (val_wire_large demo_put_val)) <= 2100)
    by (apply Z.leb_le; vm_compute; reflexivity).
  assert (Hn : fragnum 1384 (val_wire_large demo_put_val) = 2%nat) by (vm_compute; reflexivity).
  destruct (large_put_stored demo_cfg demo_cfg_ok 0 4 (key_of 1) demo_put_val (demo_start []) demo_put_sw (demo_client 1)
    [1; 0]%nat (fun _ => []) demo_large_array) as (c' & frs & r & r' & Es & Ec & Ef & Er & Ew & _ & Hw).
  - unfold is_u16. lia.
  - unfold is_u16. lia.
  - exact demo_key_wf.
  - exact Hv.
  - reflexivity.
  - unfold MAX_LARGE_BUFSIZE. lia.
  - apply demo_start_wf.
  - intros [|i]; reflexivity.
  - unfold is_u32. cbn. lia.
  - unfold is_u32. cbn. lia.
  - rewrite Hn. apply perm_swap.
  - exact demo_large_array_wf.
  - reflexivity.
  - destruct (Hw (demo_thread packet)) as (t' & out & E & T & D & V).
    + apply demo_thread_ok. unfold packet, put_hdr. rewrite length_app, length_farreach_hdr. unfold MAX_BUFSIZE. lia.
    + apply demo_server_ok.
    + apply demo_contents.
    + split; [|split; discriminate]. split; [exact demo_key_wf|]. split; [unfold is_u32; cbn; lia|exact Hv].
    + exists c', frs, r, r', t', out. split; [exact Es|]. split; [exact Ec|]. split; [exact Er|].
      split; [exact Ew|]. split; [exact E|]. split; [exact T|]. split; [exact D|].
      rewrite V by exact demo_key_wf. rewrite decide_True by reflexivity. vm_compute. reflexivity.
Defined.
