(* ===== verification/SwitchOS.v ===== *)
(** * The switch OS: cache population, eviction and special cases

    The threads of farreach/switchos.c.  [popserver_step] takes a CACHE_POP of the
    controller, [popworker_step] is one round of the loop of the popworker, which
    populates an entry of the switch and evicts another one when the switch is
    full, [specialcaseserver_step] is one round of the thread that collects what
    the data plane reports during a snapshot. *)

From Stdlib Require Import ZArith Lia List.
From stdpp Require Import base tactics list numbers option.
From S2P Require Import Prelude Cursor DynamicArray StdMap Crc32 Key Val DeletedSet Packet PacketCodec PacketCache PacketScan Outband PacketServer PacketSwitch Server Fragment PktRingBuffer MessageQueue RecvLarge.

Open Scope Z_scope.

(** ** Special cases *)

(** [SpecialCase] of common/special_case.h. *)
Record SpecialCase := mkSpecialCase {
  sc_key : Key;
  sc_val : Val;
  sc_seq : Z;
  sc_valid : bool
}.

(** [ConcurrentMap<uint16_t, special_case_t>] as switchos.c uses it: [get],
    [insert] of an absent index, [update] of a present one, and the pairs its
    [DataSource] visits. *)
Class SpecialMap (M : Type) := {
  sm_empty : M;
  sm_get : Z -> M -> option SpecialCase;
  sm_insert : Z -> SpecialCase -> M -> M;
  sm_update : Z -> SpecialCase -> M -> bool * M;
  sm_pairs : M -> list (Z * SpecialCase)
}.

Class SpecialMapLaws (M : Type) `{SpecialMap M} := {
  sm_get_empty i : sm_get i sm_empty = None;
  sm_get_insert i j c m : sm_get i m = None ->
    sm_get j (sm_insert i c m) = if decide (i = j) then Some c else sm_get j m;
  sm_get_update i j c m : is_Some (sm_get i m) ->
    (sm_update i c m).1 = true /\
    sm_get j (sm_update i c m).2 = if decide (i = j) then Some c else sm_get j m;
  sm_pairs_get i c m : (i, c) ∈ sm_pairs m <-> sm_get i m = Some c;
  sm_pairs_unique m : NoDup (map fst (sm_pairs m))
}.

(** ** Configuration *)

Record OsConfig := mkOsConfig {
  switch_kv_bucket_num : Z;
  switchos_sample_cnt : nat;
  server_logical_idxes_list : list (list Z);
  server_pipeidxes : list Z;
  switch_partition_count : Z;
  max_server_total_logical_num : Z;
  SWITCHOS_ADD_CACHE_LOOKUP : Z;
  SWITCHOS_ADD_CACHE_LOOKUP_ACK : Z;
  SWITCHOS_REMOVE_CACHE_LOOKUP : Z;
  SWITCHOS_REMOVE_CACHE_LOOKUP_ACK : Z;
  os_uninit : Z
}.

(** ** State *)

(** Metadata of the records cached in one pipeline. *)
Record Pipe := mkPipe {
  cached_keyarray : list Key;
  cached_serveridxarray : list Z;
  cached_empty_index : Z
}.

(** What is kept of it for a snapshot; the pointers are null between snapshots. *)
Record Backup (M : Type) := mkBackup {
  cached_keyarray_backup : option (list Key);
  cached_serveridxarray_backup : option (list Z);
  cached_empty_index_backup : Z;
  specialcases_ptr : option M
}.
Arguments mkBackup {M} _ _ _ _.
Arguments cached_keyarray_backup {M} _.
Arguments cached_serveridxarray_backup {M} _.
Arguments cached_empty_index_backup {M} _.
Arguments specialcases_ptr {M} _.

(** The atomic flags. *)
Record Flags := mkFlags {
  is_stop_cachepop : bool;
  popworker_know_stop_cachepop : bool;
  is_snapshot : bool;
  is_snapshot_end : bool;
  popworker_know_snapshot_end : bool;
  specialcaseserver_know_snapshot_end : bool
}.

Inductive OsDest := ToReflector | ToPtf | ToController.

(** The buffers and sockets of a thread: what is still to arrive, what was sent,
    and how often [rand] was called. *)
Record Io := mkIo {
  pktbuf : list Z;
  ackbuf : list Z;
  ptfbuf : list Z;
  reflector_sock : list event;
  controller_sock : list event;
  ptf_sock : list (list Z);
  io_sent : list (OsDest * list Z);
  rand_calls : nat
}.

Record Os (M : Type) := mkOs {
  cache_pop_ptr_queue : MessagePtrQueue CachePop;
  cached_keyidx_map : stdmap Key Z;
  pipes : list Pipe;
  backups : list (Backup M);
  perserver_specialcasebwcosts : list Z;
  os_flags : Flags;
  os_io : Io
}.
Arguments mkOs {M} _ _ _ _ _ _ _.
Arguments cache_pop_ptr_queue {M} _.
Arguments cached_keyidx_map {M} _.
Arguments pipes {M} _.
Arguments backups {M} _.
Arguments perserver_specialcasebwcosts {M} _.
Arguments os_flags {M} _.
Arguments os_io {M} _.

Section Threads.
Context {M : Type} `{Hsm : SpecialMap M}.
Context (cfg : OsConfig) (rand : nat -> Z).

(** ** The monad *)

Definition os (A : Type) : Type := Os M -> res (A * Os M).
#[global] Instance os_ret : MRet os := fun _ a s => Ok (a, s).
#[global] Instance os_bind : MBind os := fun _ _ f m s =>
  match m s with Ok (a, s') => f a s' | Err e => Err e end.

Definition os_lift {A} (r : res A) : os A := fun s => match r with Ok a => Ok (a, s) | Err e => Err e end.
Definition os_check (c : bool) : os unit := os_lift (INVARIANT c).
Definition os_gets {A} (f : Os M -> A) : os A := fun s => Ok (f s, s).
Definition os_modify (f : Os M -> Os M) : os unit := fun s => Ok (tt, f s).

Definition set_queue (q : MessagePtrQueue CachePop) (s : Os M) : Os M :=
  mkOs q (cached_keyidx_map s) (pipes s) (backups s) (perserver_specialcasebwcosts s) (os_flags s) (os_io s).
Definition set_meta (m : stdmap Key Z) (ps : list Pipe) (s : Os M) : Os M :=
  mkOs (cache_pop_ptr_queue s) m ps (backups s) (perserver_specialcasebwcosts s) (os_flags s) (os_io s).
Definition set_backups (bs : list (Backup M)) (s : Os M) : Os M :=
  mkOs (cache_pop_ptr_queue s) (cached_keyidx_map s) (pipes s) bs (perserver_specialcasebwcosts s) (os_flags s) (os_io s).
Definition set_bwcosts (cs : list Z) (s : Os M) : Os M :=
  mkOs (cache_pop_ptr_queue s) (cached_keyidx_map s) (pipes s) (backups s) cs (os_flags s) (os_io s).
Definition set_flags (f : Flags) (s : Os M) : Os M :=
  mkOs (cache_pop_ptr_queue s) (cached_keyidx_map s) (pipes s) (backups s) (perserver_specialcasebwcosts s) f (os_io s).
Definition set_io (io : Io) (s : Os M) : Os M :=
  mkOs (cache_pop_ptr_queue s) (cached_keyidx_map s) (pipes s) (backups s) (perserver_specialcasebwcosts s) (os_flags s) io.

(** ** Messages *)

(** [pktsize = p.serialize(pktbuf, MAX_BUFSIZE)]. *)
Definition fill_pktbuf (serialize : Z -> writer Z) : os Z := fun s =>
  let io := os_io s in
  '(n, buf) ← run_writer (serialize MAX_BUFSIZE) (pktbuf io);
  Ok (n, set_io (mkIo buf (ackbuf io) (ptfbuf io) (reflector_sock io) (controller_sock io) (ptf_sock io)
                   (io_sent io) (rand_calls io)) s).

(** [udpsendto(..., pktbuf, pktsize, ...)]. *)
Definition send_pktbuf (dst : OsDest) (n : Z) : os unit := fun s =>
  let io := os_io s in
  Ok (tt, set_io (mkIo (pktbuf io) (ackbuf io) (ptfbuf io) (reflector_sock io) (controller_sock io) (ptf_sock io)
                    (io_sent io ++ [(dst, take (Z.to_nat n) (pktbuf io))]) (rand_calls io)) s).

Definition send_pkt (dst : OsDest) (serialize : Z -> writer Z) : os unit :=
  n ← fill_pktbuf serialize; send_pktbuf dst n.

(** [udprecvfrom(..., ackbuf, MAX_BUFSIZE, ...)] of the two sockets with a timeout. *)
Definition recv_ack (from : OsDest) : os (option Z) := fun s =>
  let io := os_io s in
  let sock := match from with ToReflector => reflector_sock io | _ => controller_sock io end in
  let set buf evs := match from with
    | ToReflector => mkIo (pktbuf io) buf (ptfbuf io) evs (controller_sock io) (ptf_sock io) (io_sent io) (rand_calls io)
    | _ => mkIo (pktbuf io) buf (ptfbuf io) (reflector_sock io) evs (ptf_sock io) (io_sent io) (rand_calls io)
    end in
  match sock with
  | [] => Err Blocked
  | Timeout :: evs => Ok (None, set_io (set (ackbuf io) evs) s)
  | Dgram bytes _ :: evs => Ok (Some (recv_size (ackbuf io) bytes), set_io (set (recv_into (ackbuf io) bytes) evs) s)
  end.

(** [ackbuf] as the packet of a class. *)
Definition parse_ack {A} (parse : Z -> Z -> reader A) (n : Z) : os A := fun s =>
  a ← run_reader (parse CURMETHOD_ID n) (ackbuf (os_io s)); Ok (a, s).

(** A command to ptf: written to [ptfbuf], sent, and answered in [ptfbuf] by an int. *)
Definition ask_ptf (serialize : writer Z) (ack : Z) : os unit := fun s =>
  let io := os_io s in
  '(n, buf) ← run_writer serialize (ptfbuf io);
  match ptf_sock io with
  | [] => Err Blocked
  | bytes :: rest =>
      let buf' := recv_into buf bytes in
      _ ← INVARIANT (s32 (le_val (take 4 buf')) =? ack);
      Ok (tt, set_io (mkIo (pktbuf io) (ackbuf io) buf' (reflector_sock io) (controller_sock io) rest
                        (io_sent io ++ [(ToPtf, take (Z.to_nat n) buf)]) (rand_calls io)) s)
  end.

Definition serialize_add_cache_lookup (key : Key) (freeidx : Z) : writer Z :=
  _ ← w_u32 (u32 (SWITCHOS_ADD_CACHE_LOOKUP cfg));
  _ ← Key_serialize key (MAX_BUFSIZE - 4);
  _ ← w_u16 freeidx;
  w_off.
Definition serialize_remove_cache_lookup (key : Key) : writer Z :=
  _ ← w_u32 (u32 (SWITCHOS_REMOVE_CACHE_LOOKUP cfg));
  _ ← Key_serialize key (MAX_BUFSIZE - 4);
  w_off.

(** The loops that send until the right answer arrives: [answer] reads it, and
    gives [None] for a packet that is not the answer.  Every round takes at least
    one datagram or timeout from the socket. *)
Fixpoint ask {A} (fuel : nat) (dst : OsDest) (send : os unit) (answer : Z -> os (option A)) : os A :=
  match fuel with
  | O => os_lift (Err OutOfFuel)
  | S fuel' =>
      _ ← send;
      r ← recv_ack dst;
      match r with
      | None => ask fuel' dst send answer
      | Some n => a ← answer n;
                  match a with None => ask fuel' dst send answer | Some x => mret x end
      end
  end.

Definition sock_fuel (dst : OsDest) : os nat :=
  os_gets (fun s => S (length (match dst with ToReflector => reflector_sock (os_io s) | _ => controller_sock (os_io s) end))).

(** Set the validity of the entry [idx] of [key]. *)
Definition setvalid (key : Key) (idx validvalue : Z) : os unit :=
  fuel ← sock_fuel ToReflector;
  ask fuel ToReflector
    (req ← os_lift (SetvalidInswitch_new CURMETHOD_ID key idx validvalue);
     send_pkt ToReflector (SetvalidInswitch_serialize req))
    (fun n => '(rsp, is_valid_) ← parse_ack (InswitchAck_parse SETVALID_INSWITCH_ACK) n;
              mret (if negb is_valid_ || bool_decide (p_key rsp <> key) then None else Some tt)).

(** The population of entry [freeidx]: [pktbuf] is filled once; answers that do not
    match are skipped without sending again, a timeout sends again. *)
Fixpoint wait_pop (fuel : nat) (key : Key) (n : Z) (resend : bool) : os unit :=
  match fuel with
  | O => os_lift (Err OutOfFuel)
  | S fuel' =>
      _ ← (if resend then send_pktbuf ToReflector n else mret tt);
      r ← recv_ack ToReflector;
      match r with
      | None => wait_pop fuel' key n true
      | Some k =>
          '(rsp, is_valid_) ← parse_ack (InswitchAck_parse CACHE_POP_INSWITCH_ACK) k;
          if (is_valid_ : bool) && bool_decide (p_key rsp = key) then mret tt else wait_pop fuel' key n false
      end
  end.

Definition populate_inswitch (key : Key) (val : Val) (seq freeidx : Z) (stat : bool) : os unit :=
  req ← os_lift (CachePopInswitch_new (os_uninit cfg) CURMETHOD_ID key val seq freeidx stat);
  n ← fill_pktbuf (CachePopInswitch_serialize req);
  fuel ← sock_fuel ToReflector;
  wait_pop fuel key n true.


(** ** Cache metadata *)

Definition cp_key (p : CachePop) : Key := p_key (qs_base (cp_put p)).

Definition arr_get {A} (l : list A) (i : Z) : res A :=
  match l !! Z.to_nat i with Some x => Ok x | None => Err OutOfBounds end.

Definition get_pipe (pipeidx : Z) : os Pipe := fun s => p ← arr_get (pipes s) pipeidx; Ok (p, s).
Definition put_pipe (pipeidx : Z) (p : Pipe) : os unit := fun s =>
  Ok (tt, set_meta (cached_keyidx_map s) (<[Z.to_nat pipeidx := p]> (pipes s)) s).

(** The pipeline of a server: that of the last physical server that runs it. *)
Fixpoint find_physical (serveridx : Z) (i : Z) (ls : list (list Z)) (found : Z) : Z :=
  match ls with
  | [] => found
  | l :: ls' => find_physical serveridx (i + 1) ls' (if existsb (Z.eqb serveridx) l then i else found)
  end.

Definition find_pipe (serveridx : Z) : res Z :=
  let tmp_server_physical_idx := find_physical serveridx 0 (server_logical_idxes_list cfg) (-1) in
  _ ← INVARIANT (negb (tmp_server_physical_idx =? -1));
  arr_get (server_pipeidxes cfg) tmp_server_physical_idx.

(** ** Special cases *)

(** The first pipeline whose backup has [key] at [idx]; every pipeline up to it
    needs a backup and a map. *)
Fixpoint find_backup (idx : Z) (key : Key) (i : nat) (bs : list (Backup M)) : res (option nat) :=
  match bs with
  | [] => Ok None
  | b :: bs' =>
      match specialcases_ptr b, cached_keyarray_backup b with
      | Some _, Some ks =>
          k ← arr_get ks idx;
          if bool_decide (k = key) then Ok (Some i) else find_backup idx key (S i) bs'
      | _, _ => Err InvariantFailed
      end
  end.

Definition set_specialcases (m : M) (b : Backup M) : Backup M :=
  mkBackup (cached_keyarray_backup b) (cached_serveridxarray_backup b) (cached_empty_index_backup b) (Some m).

(** Keep the report that is closest to the snapshot time point. *)
Definition update_case (m : M) (tmpidx : Z) (tmpkey : Key) (tmpval : Val) (tmpseq : Z) (tmpstat : bool) : res M :=
  match sm_get tmpidx m with
  | None => Ok (sm_insert tmpidx (mkSpecialCase tmpkey tmpval tmpseq tmpstat) m)
  | Some tmpcase =>
      if tmpseq <? sc_seq tmpcase then
        _ ← INVARIANT (bool_decide (sc_key tmpcase = tmpkey));
        let '(res, m') := sm_update tmpidx (mkSpecialCase (sc_key tmpcase) tmpval tmpseq tmpstat) m in
        _ ← INVARIANT res;
        Ok m'
      else Ok m
  end.

Definition process_specialcase (bs : list (Backup M)) (tmpidx : Z) (tmpkey : Key) (tmpval : Val) (tmpseq : Z)
    (tmpstat : bool) : res (list (Backup M)) :=
  _ ← INVARIANT ((0 <=? tmpidx) && (tmpidx <? switch_kv_bucket_num cfg));
  tmp_pipeidx ← find_backup tmpidx tmpkey 0 bs;
  match tmp_pipeidx with
  | None => Ok bs
  | Some i =>
      match bs !! i with
      | None => Err OutOfBounds
      | Some b =>
          _ ← INVARIANT ((0 <=? cached_empty_index_backup b) && (cached_empty_index_backup b <=? switch_kv_bucket_num cfg));
          match specialcases_ptr b with
          | None => Err NullDeref
          | Some m =>
              if tmpidx <? cached_empty_index_backup b then
                m' ← update_case m tmpidx tmpkey tmpval tmpseq tmpstat;
                Ok (<[i := set_specialcases m' b]> bs)
              else Ok bs
          end
      end
  end.

(** One turn of the loop of the specialcaseserver; [evs] is its socket, [buf] is
    zeroed at the start of every turn. *)
Definition case1_types : list Z :=
  [GETRES_LATEST_SEQ_INSWITCH_CASE1; GETRES_DELETED_SEQ_INSWITCH_CASE1; PUTREQ_SEQ_INSWITCH_CASE1;
   DELREQ_SEQ_INSWITCH_CASE1].

Definition process_case1 (buf : list Z) (recv_size : Z) : os unit := fun s =>
  pkt_type ← run_reader (get_packet_type recv_size) buf;
  if existsb (Z.eqb pkt_type) case1_types then
    req ← run_reader (InswitchCase1_parse pkt_type CURMETHOD_ID recv_size) buf;
    let key := p_key (qs_base (ic_put req)) in
    bs ← process_specialcase (backups s) (ic_idx req) key (qs_val (ic_put req)) (qs_seq (ic_put req)) (ic_stat req);
    tmpbwcost ← InswitchCase1_bwcost req;
    expected_serveridx ← get_hashpartition_idx key (switch_partition_count cfg) (max_server_total_logical_num cfg);
    c ← arr_get (perserver_specialcasebwcosts s) expected_serveridx;
    Ok (tt, set_bwcosts (<[Z.to_nat expected_serveridx := u64 (c + u32 tmpbwcost)]> (perserver_specialcasebwcosts s))
              (set_backups bs s))
  else Err ExitCalled.

Definition set_specialcase_know (b : bool) (f : Flags) : Flags :=
  mkFlags (is_stop_cachepop f) (popworker_know_stop_cachepop f) (is_snapshot f) (is_snapshot_end f)
    (popworker_know_snapshot_end f) b.

Definition specialcaseserver_step (evs : list event) : os (list event) :=
  f ← os_gets os_flags;
  let ending := is_snapshot_end f && negb (specialcaseserver_know_snapshot_end f) in
  if is_snapshot f || ending then
    match evs with
    | [] => os_lift (Err Blocked)
    | Timeout :: evs' =>
        _ ← (if ending then os_modify (set_flags (set_specialcase_know true f)) else mret tt);
        mret evs'
    | Dgram bytes _ :: evs' =>
        let buf := replicate (Z.to_nat MAX_BUFSIZE) 0 in
        _ ← process_case1 (recv_into buf bytes) (recv_size buf bytes);
        mret evs'
    end
  else mret evs.

(** ** Eviction *)

(** [rand() % switch_kv_bucket_num]. *)
Definition sample_idx : os Z := fun s =>
  if switch_kv_bucket_num cfg =? 0 then Err DivByZero
  else
    let io := os_io s in
    Ok (u32 (rand (rand_calls io)) mod switch_kv_bucket_num cfg,
        set_io (mkIo (pktbuf io) (ackbuf io) (ptfbuf io) (reflector_sock io) (controller_sock io) (ptf_sock io)
                  (io_sent io) (S (rand_calls io))) s).

Fixpoint sample_idxes (n : nat) : os (list Z) :=
  match n with
  | O => mret []
  | S n' => i ← sample_idx; is_ ← sample_idxes n'; mret (i :: is_)
  end.

Fixpoint sampled_keys (p : Pipe) (idxes : list Z) : res (list Key) :=
  match idxes with
  | [] => Ok []
  | i :: idxes' => k ← arr_get (cached_keyarray p) i; ks ← sampled_keys p idxes'; Ok (k :: ks)
  end.

Definition send_load (type : Z) (key : Key) (idx : Z) : os unit :=
  req ← os_lift (LoadInswitch_new type CURMETHOD_ID key (u16 idx));
  send_pkt ToReflector (LoadInswitch_serialize req).

Fixpoint send_loadfreqs (keys : list Key) (idxes : list Z) : os unit :=
  match keys, idxes with
  | key :: keys', idx :: idxes' =>
      _ ← send_load CACHE_EVICT_LOADFREQ_INSWITCH key idx; send_loadfreqs keys' idxes'
  | _, _ => mret tt
  end.

(** The counter of the first sampled key that is acknowledged. *)
Fixpoint store_freq (keys : list Key) (key : Key) (frequency : Z) (counters : list Z) : option (list Z) :=
  match keys, counters with
  | k :: keys', c :: counters' =>
      if bool_decide (k = key) then Some (frequency :: counters')
      else cons c <$> store_freq keys' key frequency counters'
  | _, _ => None
  end.

(** Send a request per sampled key and read acknowledgements until as many have
    arrived, or a timeout makes it start again; the counters stay. *)
Fixpoint load_freqs (fuel : nat) (keys : list Key) (idxes counters : list Z) (tmp_acknum : option nat) : os (list Z) :=
  match fuel with
  | O => os_lift (Err OutOfFuel)
  | S fuel' =>
      acknum ← match tmp_acknum with None => _ ← send_loadfreqs keys idxes; mret 0%nat | Some n => mret n end;
      r ← recv_ack ToReflector;
      match r with
      | None => load_freqs fuel' keys idxes counters None
      | Some n =>
          '(ack, frequency) ← parse_ack LoadfreqInswitchAck_parse n;
          match keys with
          | [] => mret counters
          | _ =>
              match store_freq keys (p_key ack) frequency counters with
              | None => os_lift (Err ExitCalled)
              | Some counters' =>
                  if (length keys <=? S acknum)%nat then mret counters'
                  else load_freqs fuel' keys idxes counters' (Some (S acknum))
              end
          end
      end
  end.

(** The index of the smallest counter. *)
Fixpoint choose_victim (first : bool) (min_frequency_counter evictidx : Z) (idxes counters : list Z) : Z :=
  match idxes, counters with
  | i :: idxes', c :: counters' =>
      if first || (c <? min_frequency_counter) then choose_victim false c i idxes' counters'
      else choose_victim false min_frequency_counter evictidx idxes' counters'
  | _, _ => evictidx
  end.

Definition load_evictdata (key : Key) (idx : Z) : os SnapshotRecord :=
  fuel ← sock_fuel ToReflector;
  ask fuel ToReflector (send_load CACHE_EVICT_LOADDATA_INSWITCH key idx)
    (fun n => '(ack, r) ← parse_ack LoaddataInswitchAck_parse n;
              _ ← os_check (bool_decide (p_key ack = key));
              mret (Some r)).

(** Hand the record over to its server through the controller. *)
Definition send_evict (is_case2 : bool) (key : Key) (r : SnapshotRecord) (serveridx : Z) : os unit :=
  n ← (if is_case2 then
         p ← os_lift (CacheEvictCase2_new (os_uninit cfg) CURMETHOD_ID key (sr_val r) (sr_seq r) (sr_stat r) serveridx);
         fill_pktbuf (CacheEvict_serialize p)
       else
         p ← os_lift (CacheEvict_new (os_uninit cfg) CURMETHOD_ID key (sr_val r) (sr_seq r) (sr_stat r) serveridx);
         fill_pktbuf (CacheEvict_serialize p));
  fuel ← sock_fuel ToController;
  ask fuel ToController (send_pktbuf ToController n)
    (fun k => ack ← parse_ack (HostAck_parse CACHE_EVICT_ACK) k;
              _ ← os_check (bool_decide (p_key ack = key));
              mret (Some tt)).

Definition choose_evictidx (p : Pipe) : os Z :=
  idxes ← sample_idxes (switchos_sample_cnt cfg);
  keys ← os_lift (sampled_keys p idxes);
  fuel ← sock_fuel ToReflector;
  counters ← load_freqs fuel keys idxes (replicate (length keys) 0) None;
  mret (choose_victim true 0 0 idxes counters).

Definition require_cached (key : Key) : os unit := fun s =>
  match m_find key (cached_keyidx_map s) with None => Err ExitCalled | Some _ => Ok (tt, s) end.

Definition store_case2 (is_case2 : bool) (idx : Z) (key : Key) (r : SnapshotRecord) : os unit := fun s =>
  if is_case2 then
    bs ← process_specialcase (backups s) idx key (sr_val r) (sr_seq r) (sr_stat r);
    Ok (tt, set_backups bs s)
  else Ok (tt, s).

(** Without a free entry: the index of the entry that was freed. *)
Definition evict (tmp_pipeidx : Z) : os Z :=
  f ← os_gets os_flags;
  let is_case2 := is_snapshot f || (is_snapshot_end f && negb (popworker_know_snapshot_end f)) in
  p ← get_pipe tmp_pipeidx;
  evictidx ← choose_evictidx p;
  _ ← os_check ((0 <=? evictidx) && (evictidx <? switch_kv_bucket_num cfg));
  cur_evictkey ← os_lift (arr_get (cached_keyarray p) evictidx);
  _ ← require_cached cur_evictkey;
  _ ← setvalid cur_evictkey (u16 evictidx) 3;
  r ← load_evictdata cur_evictkey evictidx;
  serveridx ← os_lift (arr_get (cached_serveridxarray p) evictidx);
  _ ← send_evict is_case2 cur_evictkey r serveridx;
  _ ← store_case2 is_case2 (u16 evictidx) cur_evictkey r;
  _ ← setvalid cur_evictkey (u16 evictidx) 0;
  _ ← ask_ptf (serialize_remove_cache_lookup cur_evictkey) (SWITCHOS_REMOVE_CACHE_LOOKUP_ACK cfg);
  _ ← os_modify (fun s => set_meta (m_erase cur_evictkey (cached_keyidx_map s)) (pipes s) s);
  _ ← put_pipe tmp_pipeidx
        (mkPipe (<[Z.to_nat evictidx := Key_default]> (cached_keyarray p))
           (<[Z.to_nat evictidx := u16 (-1)]> (cached_serveridxarray p)) (cached_empty_index p));
  mret (u16 evictidx).

(** ** Population *)

(** With a free entry: it is taken, and invalid until the record is in place. *)
Definition take_freeidx (tmp_pipeidx : Z) (p : Pipe) (key : Key) : os Z :=
  let switchos_freeidx := u16 (cached_empty_index p) in
  _ ← put_pipe tmp_pipeidx (mkPipe (cached_keyarray p) (cached_serveridxarray p) (u32 (cached_empty_index p + 1)));
  _ ← setvalid key switchos_freeidx 0;
  mret switchos_freeidx.

Definition record_entry (tmp_pipeidx : Z) (key : Key) (freeidx serveridx : Z) : os unit :=
  _ ← os_modify (fun s => set_meta (m_insert key freeidx (cached_keyidx_map s)) (pipes s) s);
  p ← get_pipe tmp_pipeidx;
  _ ← os_lift (arr_get (cached_keyarray p) freeidx);
  _ ← os_lift (arr_get (cached_serveridxarray p) freeidx);
  put_pipe tmp_pipeidx
    (mkPipe (<[Z.to_nat freeidx := key]> (cached_keyarray p))
       (<[Z.to_nat freeidx := serveridx]> (cached_serveridxarray p)) (cached_empty_index p)).

(** The record goes into the invalid entry, its key into the lookup table, and the
    entry becomes valid. *)
Definition install_entry (tmp_pipeidx : Z) (pop : CachePop) (switchos_freeidx : Z) : os unit :=
  let key := cp_key pop in
  _ ← os_check ((0 <=? switchos_freeidx) && (switchos_freeidx <? switch_kv_bucket_num cfg));
  _ ← populate_inswitch key (qs_val (cp_put pop)) (qs_seq (cp_put pop)) switchos_freeidx (cp_stat pop);
  _ ← ask_ptf (serialize_add_cache_lookup key switchos_freeidx) (SWITCHOS_ADD_CACHE_LOOKUP_ACK cfg);
  _ ← setvalid key switchos_freeidx 1;
  record_entry tmp_pipeidx key switchos_freeidx (cp_serveridx pop).

Definition populate (pop : CachePop) : os unit :=
  let key := cp_key pop in
  _ ← os_check (existsb (Z.eqb (cp_serveridx pop)) (concat (server_logical_idxes_list cfg)));
  tmp_pipeidx ← os_lift (find_pipe (cp_serveridx pop));
  p ← get_pipe tmp_pipeidx;
  switchos_freeidx ← (if cached_empty_index p <? switch_kv_bucket_num cfg
                      then take_freeidx tmp_pipeidx p key else evict tmp_pipeidx);
  install_entry tmp_pipeidx pop switchos_freeidx.

Definition set_know_stop (b : bool) (f : Flags) : Flags :=
  mkFlags (is_stop_cachepop f) b (is_snapshot f) (is_snapshot_end f) (popworker_know_snapshot_end f)
    (specialcaseserver_know_snapshot_end f).
Definition set_know_end (b : bool) (f : Flags) : Flags :=
  mkFlags (is_stop_cachepop f) (popworker_know_stop_cachepop f) (is_snapshot f) (is_snapshot_end f) b
    (specialcaseserver_know_snapshot_end f).

(** One turn of the loop of the popworker. *)
Definition popworker_step : os unit :=
  f ← os_gets os_flags;
  _ ← (if is_stop_cachepop f && negb (popworker_know_stop_cachepop f) then os_modify (set_flags (set_know_stop true f))
       else if negb (is_stop_cachepop f) then
         q ← os_gets cache_pop_ptr_queue;
         '(pop, q') ← os_lift (read q);
         _ ← os_modify (set_queue q');
         match pop with None => mret tt | Some tmp_cache_pop_ptr => populate tmp_cache_pop_ptr end
       else mret tt);
  f ← os_gets os_flags;
  if is_snapshot_end f && negb (popworker_know_snapshot_end f) then os_modify (set_flags (set_know_end true f))
  else mret tt.

(** One turn of the loop of the popserver: the datagram is read into its buffer,
    acknowledged from the same buffer, and queued; a full queue drops it. *)
Definition popserver_step (buf bytes : list Z) (q : MessagePtrQueue CachePop)
    : res (list Z * list Z * MessagePtrQueue CachePop) :=
  let n := recv_size buf bytes in
  let buf := recv_into buf bytes in
  pop ← run_reader (CachePop_parse CURMETHOD_ID n) buf;
  '(acksize, buf) ← run_writer (WarmupRequest_serialize (CachePopAck_new CURMETHOD_ID (cp_key pop)) MAX_BUFSIZE) buf;
  '(_, q') ← write (Some pop) q;
  Ok (buf, take (Z.to_nat acksize) buf, q').

End Threads.
