(* ===== verification/SwitchMeta.v ===== *)
(** * Metadata of the cached records

    What the popworker knows of the switch: [switchos_cached_keyidx_map] and the
    arrays of every pipeline.  The messages it exchanges leave them alone
    ([keeps]), whatever arrives; population and eviction keep them consistent
    ([meta_ok]). *)

From Stdlib Require Import ZArith Lia List.
From stdpp Require Import base tactics list numbers option.
From S2P Require Import Prelude Cursor DynamicArray StdMap Crc32 Key Val DeletedSet Packet PacketCodec PacketCache PacketScan Outband PacketServer PacketSwitch Server Fragment PktRingBuffer MessageQueue RecvLarge SwitchOS.

Open Scope Z_scope.
Set Default Proof Using "Type".

Section Keeps.
Context {M : Type} `{Hsm : SpecialMap M}.
Context (cfg : OsConfig) (rand : nat -> Z).
Implicit Types s : Os M.

(** ** Inversion of the monad *)

Lemma os_bind_Ok {A B} (m : os A) (k : A -> os B) s b s' :
  (m ≫= k) s = Ok (b, s') -> exists a s1, m s = Ok (a, s1) /\ k a s1 = Ok (b, s').
Proof. unfold mbind, os_bind. destruct (m s) as [[a s1]|e]; [eauto|discriminate]. Qed.

Lemma os_lift_Ok {A} (r : res A) s a s' : os_lift r s = Ok (a, s') -> r = Ok a /\ s' = s.
Proof. unfold os_lift. destruct r; intros [= -> ->]; auto. Qed.

Lemma os_check_Ok c s a s' : os_check c s = Ok (a, s') -> c = true /\ s' = s.
Proof. unfold os_check. intros [H ->]%os_lift_Ok. split; [|reflexivity]. destruct c; [reflexivity|discriminate H]. Qed.

(** Run by run: only buffers and sockets change. *)
Definition keeps {A} (m : os A) : Prop :=
  forall s a s', m s = Ok (a, s') -> exists io, s' = set_io io s.

Lemma set_io_id s : set_io (os_io s) s = s.
Proof. now destruct s. Qed.
Lemma set_io_io io io' s : set_io io (set_io io' s) = set_io io s.
Proof. reflexivity. Qed.

Lemma keeps_ret {A} (a : A) : keeps (mret a).
Proof. intros s b s' [= <- <-]. exists (os_io s). now rewrite set_io_id. Qed.

Lemma keeps_bind {A B} (m : os A) (k : A -> os B) : keeps m -> (forall a, keeps (k a)) -> keeps (m ≫= k).
Proof.
  intros Hm Hk s b s' (a & s1 & E1 & E2)%os_bind_Ok.
  apply Hm in E1 as [io1 ->]. apply Hk in E2 as [io2 ->]. eauto using set_io_io.
Qed.

Lemma keeps_lift {A} (r : res A) : keeps (os_lift r : os (M := M) A).
Proof. intros s a s' [_ ->]%os_lift_Ok. exists (os_io s). now rewrite set_io_id. Qed.
Lemma keeps_check c : keeps (os_check c : os (M := M) unit).
Proof. apply keeps_lift. Qed.
Lemma keeps_gets {A} (f : Os M -> A) : keeps (os_gets f).
Proof. intros s a s' [= _ <-]. exists (os_io s). now rewrite set_io_id. Qed.

Lemma keeps_fill serialize : keeps (fill_pktbuf serialize : os (M := M) Z).
Proof.
  intros s a s'. unfold fill_pktbuf. cbv beta zeta. destruct (run_writer _ _) as [[n buf]|e]; [|discriminate].
  intros [= _ <-]. eauto.
Qed.
Lemma keeps_send_pktbuf dst n : keeps (send_pktbuf dst n : os (M := M) unit).
Proof. intros s a s' [= _ <-]. eauto. Qed.
Lemma keeps_recv from : keeps (recv_ack from : os (M := M) (option Z)).
Proof.
  intros s a s'. unfold recv_ack. destruct from, (os_io s) as [? ? ? [|[]] [|[]] ? ? ?]; cbn; intros [= _ <-]; eauto.
Qed.
Lemma keeps_parse {A} (parse : Z -> Z -> reader A) n : keeps (parse_ack parse n : os (M := M) A).
Proof.
  intros s a s'. unfold parse_ack. destruct (run_reader _ _) as [x|e]; [|discriminate].
  intros [= _ <-]. exists (os_io s). now rewrite set_io_id.
Qed.
Lemma keeps_ptf serialize ack : keeps (ask_ptf serialize ack : os (M := M) unit).
Proof.
  intros s a s'. unfold ask_ptf. destruct (run_writer _ _) as [[n buf]|e]; [|discriminate]. cbn.
  destruct (ptf_sock (os_io s)); [discriminate|]. destruct (INVARIANT _); [|discriminate]. intros [= _ <-]. eauto.
Qed.
Lemma keeps_sample : keeps (sample_idx cfg rand : os (M := M) Z).
Proof. intros s a s'. unfold sample_idx. destruct (_ =? 0); [discriminate|]. intros [= _ <-]. eauto. Qed.

Lemma keeps_if {A} (b : bool) (m1 m2 : os (M := M) A) : keeps m1 -> keeps m2 -> keeps (if b then m1 else m2).
Proof. now destruct b. Qed.

End Keeps.

Create HintDb keeps.
#[export] Hint Resolve keeps_ret keeps_lift keeps_check keeps_gets keeps_fill keeps_send_pktbuf keeps_recv keeps_parse
  keeps_ptf keeps_sample : keeps.

(** Walks down a chain of binds and matches. *)
Ltac keep_step :=
  match goal with
  | |- keeps (mbind _ _) => apply keeps_bind; [|intros]
  | |- keeps (if _ then _ else _) => apply keeps_if
  | |- keeps (match ?x with _ => _ end) => destruct x
  | |- keeps _ => solve [eauto with keeps]
  end.
Ltac keep := repeat keep_step.

Section Meta.
Context {M : Type} `{Hsm : SpecialMap M}.
Context (cfg : OsConfig) (rand : nat -> Z).
Implicit Types s : Os M.

Lemma keeps_send_pkt dst serialize : keeps (send_pkt dst serialize : os (M := M) unit).
Proof. unfold send_pkt. keep. Qed.
Lemma keeps_fuel dst : keeps (sock_fuel dst : os (M := M) nat).
Proof. apply keeps_gets. Qed.
Hint Resolve keeps_send_pkt keeps_fuel : keeps.

Lemma keeps_ask {A} dst (send : os (M := M) unit) (answer : Z -> os (option A)) fuel :
  keeps send -> (forall n, keeps (answer n)) -> keeps (ask fuel dst send answer).
Proof. intros Hs Ha. induction fuel as [|fuel IH]; cbn [ask]; keep; apply Ha. Qed.

Lemma keeps_setvalid key idx v : keeps (setvalid key idx v : os (M := M) unit).
Proof. unfold setvalid. keep. apply keeps_ask; [keep|]. intros n. keep. Qed.

Lemma keeps_wait_pop key n fuel : forall resend, keeps (wait_pop fuel key n resend : os (M := M) unit).
Proof. induction fuel as [|fuel IH]; intros resend; cbn [wait_pop]; keep. Qed.
Hint Resolve keeps_setvalid keeps_wait_pop : keeps.

Lemma keeps_populate_inswitch key val seq idx stat : keeps (populate_inswitch cfg key val seq idx stat : os (M := M) unit).
Proof. unfold populate_inswitch. keep. Qed.

Lemma keeps_sample_idxes n : keeps (sample_idxes cfg rand n : os (M := M) (list Z)).
Proof. induction n as [|n IH]; cbn [sample_idxes]; keep. Qed.

Lemma keeps_send_load type key idx : keeps (send_load type key idx : os (M := M) unit).
Proof. unfold send_load. keep. Qed.
Hint Resolve keeps_populate_inswitch keeps_sample_idxes keeps_send_load : keeps.

Lemma keeps_send_loadfreqs keys : forall idxes, keeps (send_loadfreqs keys idxes : os (M := M) unit).
Proof. induction keys as [|k keys IH]; intros [|i idxes]; cbn [send_loadfreqs]; keep. Qed.
Hint Resolve keeps_send_loadfreqs : keeps.

Lemma keeps_load_freqs keys idxes fuel : forall counters acknum,
  keeps (load_freqs fuel keys idxes counters acknum : os (M := M) (list Z)).
Proof.
  induction fuel as [|fuel IH]; intros counters acknum; cbn [load_freqs]; keep.
Qed.
Hint Resolve keeps_load_freqs : keeps.

Lemma keeps_choose p : keeps (choose_evictidx cfg rand p : os (M := M) Z).
Proof. unfold choose_evictidx. keep. Qed.
Lemma keeps_load_evictdata key idx : keeps (load_evictdata key idx : os (M := M) SnapshotRecord).
Proof. unfold load_evictdata. keep. apply keeps_ask; [keep|]. intros n. keep. Qed.
Lemma keeps_send_evict case2 key r idx : keeps (send_evict cfg case2 key r idx : os (M := M) unit).
Proof. unfold send_evict. keep; (apply keeps_ask; [keep|intros n; keep]). Qed.

End Meta.

(** ** Consistency *)

Section Consistency.
Context (cfg : OsConfig).

(** Entry [i] of a pipeline holds [k]. *)
Definition entry (p : Pipe) (i : Z) (k : Key) : Prop :=
  0 <= i < cached_empty_index p /\ cached_keyarray p !! Z.to_nat i = Some k.

Definition bucket_num : Z := switch_kv_bucket_num cfg.

Record pipe_ok (p : Pipe) : Prop := {
  po_keys : length (cached_keyarray p) = Z.to_nat bucket_num;
  po_servers : length (cached_serveridxarray p) = Z.to_nat bucket_num;
  po_empty : 0 <= cached_empty_index p <= bucket_num
}.

(** Entry [i] of pipeline [n] holds [k]. *)
Definition holds_at (ps : list Pipe) (n : nat) (i : Z) (k : Key) : Prop := exists p, ps !! n = Some p /\ entry p i k.

(** The map finds exactly the entries of the pipelines, and no key has two. *)
Record meta_ok (m : stdmap Key Z) (ps : list Pipe) : Prop := {
  mo_sorted : m_sorted m;
  mo_pipes : Forall pipe_ok ps;
  mo_map : forall k i, m_find k m = Some i <-> exists n, holds_at ps n i k;
  mo_once : forall n n' i i' k, holds_at ps n i k -> holds_at ps n' i' k -> n = n' /\ i = i'
}.

(** The arrays with entry [i] set to [k] of server [sv]. *)
Definition set_entry (i : Z) (k : Key) (sv : Z) (p : Pipe) : Pipe :=
  mkPipe (<[Z.to_nat i := k]> (cached_keyarray p)) (<[Z.to_nat i := sv]> (cached_serveridxarray p)) (cached_empty_index p).
Definition grow_pipe (p : Pipe) : Pipe :=
  mkPipe (cached_keyarray p) (cached_serveridxarray p) (u32 (cached_empty_index p + 1)).

(** ** One entry changes *)

(** [m0] finds what the other entries hold, then [new] is put into entry [i] of
    pipeline [n]. *)
Lemma meta_put m m0 ps ps' n i new :
  meta_ok m ps -> Forall pipe_ok ps' -> m_sorted m0 -> m_find new m0 = None ->
  (forall k j, m_find k m0 = Some j <-> exists n', (n' <> n \/ j <> i) /\ holds_at ps n' j k) ->
  (forall n' j k, holds_at ps' n' j k <->
     (n' = n /\ j = i /\ k = new) \/ ((n' <> n \/ j <> i) /\ holds_at ps n' j k)) ->
  meta_ok (m_insert new i m0) ps'.
Proof.
  intros [Hs Hp Hm Ho] Hp' Hs0 Hn Hm0 Hh.
  assert (Hnew : forall n' j, (n' <> n \/ j <> i) -> ~ holds_at ps n' j new).
  { intros n' j Hd Hk. assert (m_find new m0 = Some j) by (apply Hm0; eauto). congruence. }
  split; [now apply m_insert_sorted|exact Hp'| |].
  - intros k j. destruct (decide (new = k)) as [<-|Hk].
    + rewrite m_find_insert_eq, Hn. cbn [default]. split.
      * intros [= <-]. exists n. rewrite Hh. tauto.
      * intros [n' [(_ & -> & _)|[Hd Hk]]%Hh]; [reflexivity|]. exfalso. eapply Hnew; eauto.
    + rewrite m_find_insert_ne, Hm0 by exact Hk. split; intros [n' H']; exists n'.
      * rewrite Hh. tauto.
      * rewrite Hh in H'. destruct H' as [(_ & _ & ->)|]; [congruence|assumption].
  - intros n1 n2 i1 i2 k H1 H2. rewrite Hh in H1, H2.
    destruct H1 as [(-> & -> & ->)|[D1 H1]], H2 as [(-> & -> & E)|[D2 H2]];
      [auto|exfalso; eapply Hnew; eauto|subst; exfalso; eapply Hnew; eauto|eauto].
Qed.

Lemma holds_at_insert ps n p p' n' j k : ps !! n = Some p' ->
  holds_at (<[n := p]> ps) n' j k <-> (n' = n /\ entry p j k) \/ (n' <> n /\ holds_at ps n' j k).
Proof.
  intros Hn. unfold holds_at. destruct (decide (n = n')) as [<-|Hd].
  - rewrite list_lookup_insert_eq by eauto using lookup_lt_Some. split.
    + intros (q & [= <-] & He). auto.
    + intros [[_ He]|[? _]]; [eauto|congruence].
  - rewrite list_lookup_insert_ne by exact Hd. split; [intros H; right; auto|intros [[-> _]|[_ H]]; [congruence|exact H]].
Qed.

Lemma entry_set i new sv p j k : 0 <= i -> (Z.to_nat i < length (cached_keyarray p))%nat ->
  entry (set_entry i new sv p) j k <->
  (j = i /\ k = new /\ i < cached_empty_index p) \/ (j <> i /\ entry p j k).
Proof.
  intros Hi Hl. unfold entry, set_entry. cbn [cached_keyarray cached_empty_index].
  destruct (decide (j = i)) as [->|Hd].
  - rewrite list_lookup_insert_eq by exact Hl. split.
    + intros (? & [= ->]). left. repeat split; lia.
    + intros [(_ & -> & ?)|[? _]]; [split; [lia|reflexivity]|congruence].
  - destruct (decide (0 <= j)) as [Hj|Hj]; [|split; [lia|intros [[]|[_ []]]; lia]].
    rewrite list_lookup_insert_ne by lia. tauto.
Qed.

Lemma pipe_ok_set i new sv p : pipe_ok p -> pipe_ok (set_entry i new sv p).
Proof. intros [H1 H2 H3]. constructor; cbn; now rewrite ?length_insert. Qed.

Lemma meta_replace m ps n p i old new sv :
  meta_ok m ps -> ps !! n = Some p -> entry p i old -> m_find new m = None ->
  meta_ok (m_insert new i (m_erase old m)) (<[n := set_entry i new sv p]> ps).
Proof.
  intros Hm Hn He Hf. pose proof Hm as [Hs Hp Hmap Ho].
  assert (Hold : holds_at ps n i old) by (now exists p).
  assert (Hpo : pipe_ok p) by (rewrite Forall_lookup in Hp; eauto).
  apply (meta_put m) with (ps := ps) (n := n); [exact Hm| |now apply m_erase_sorted| | |].
  - apply Forall_insert; [exact Hp|now apply pipe_ok_set].
  - rewrite m_find_erase_ne; [exact Hf|exact Hs|]. intros <-.
    assert (m_find old m = Some i) by (apply Hmap; eauto). congruence.
  - intros k j. destruct (decide (old = k)) as [<-|Hk].
    + rewrite m_find_erase_eq by exact Hs. split; [discriminate|]. intros (n' & Hd & H').
      destruct (Ho _ _ _ _ _ H' Hold). tauto.
    + rewrite m_find_erase_ne, Hmap by assumption. split; intros [n' H'].
      * exists n'. split; [|exact H']. destruct (decide (n' = n)) as [->|]; [|auto]. right. intros ->.
        destruct H' as (p' & Hp' & _ & Hk'), He as [_ Hk'']. congruence.
      * now exists n'.
  - intros n' j k. rewrite (holds_at_insert _ _ _ _ _ _ _ Hn), entry_set.
    + destruct He as [Hb Hi]. unfold holds_at. split.
      * intros [[-> [(-> & -> & _)|[Hd H']]]|[Hd H']]; [auto|right; eauto|auto].
      * intros [(-> & -> & ->)|[Hd (p' & Hp' & H')]]; [left; split; [reflexivity|left; auto with lia]|].
        destruct (decide (n' = n)) as [->|]; [left|right; eauto]. split; [reflexivity|right].
        split; [tauto|]. congruence.
    + apply He.
    + rewrite (po_keys _ Hpo). destruct He, Hpo. lia.
Qed.

Lemma meta_append m ps n p new sv :
  bucket_num < 2 ^ 32 ->
  meta_ok m ps -> ps !! n = Some p -> cached_empty_index p < bucket_num -> m_find new m = None ->
  meta_ok (m_insert new (cached_empty_index p) m) (<[n := set_entry (cached_empty_index p) new sv (grow_pipe p)]> ps).
Proof.
  intros Hb Hm Hn He Hf. pose proof Hm as [Hs Hp Hmap Ho].
  assert (Hpo : pipe_ok p) by (rewrite Forall_lookup in Hp; eauto).
  assert (E : cached_empty_index (grow_pipe p) = cached_empty_index p + 1).
  { cbn. apply u32_id. destruct Hpo. zlia. }
  apply (meta_put m) with (ps := ps) (n := n); [exact Hm| |exact Hs|exact Hf| |].
  - apply Forall_insert; [exact Hp|apply pipe_ok_set]. destruct Hpo. split; [assumption..|]. rewrite E. lia.
  - intros k j. rewrite Hmap. split; intros [n' H']; exists n'; [|tauto]. split; [|exact H'].
    destruct (decide (n' = n)) as [->|]; [|auto]. right. destruct H' as (p' & Hp' & Hr & _).
    assert (p' = p) as -> by congruence. lia.
  - intros n' j k. rewrite (holds_at_insert _ _ _ _ _ _ _ Hn), entry_set, E.
    + unfold holds_at, entry. rewrite E. cbn [grow_pipe cached_keyarray]. split.
      * intros [[-> [(-> & -> & _)|[Hd [Hr H']]]]|[Hd H']]; [auto|right|auto].
        split; [tauto|]. exists p. split; [exact Hn|]. split; [lia|exact H'].
      * intros [(-> & -> & ->)|[Hd (p' & Hp' & Hr & H')]]; [left; split; [reflexivity|left; auto with lia]|].
        destruct (decide (n' = n)) as [->|]; [left|right; eauto]. split; [reflexivity|right].
        assert (p' = p) as -> by congruence. split; [tauto|]. split; [lia|exact H'].
    + apply Hpo.
    + cbn [grow_pipe cached_keyarray]. rewrite (po_keys _ Hpo). destruct Hpo. lia.
Qed.

End Consistency.

#[export] Hint Resolve keeps_send_pkt keeps_fuel keeps_setvalid keeps_wait_pop keeps_populate_inswitch keeps_sample_idxes
  keeps_send_load keeps_send_loadfreqs keeps_load_freqs keeps_choose keeps_load_evictdata keeps_send_evict : keeps.

(** Inverts a run that returned, step by step. *)
Ltac os_inv1 :=
  match goal with
  | H : (mbind _ _) _ = Ok _ |- _ => apply os_bind_Ok in H as (? & ? & ? & ?)
  | H : os_lift _ _ = Ok _ |- _ => apply os_lift_Ok in H as [? ?]; subst
  | H : os_check _ _ = Ok _ |- _ => apply os_check_Ok in H as [? ?]; subst
  | H : os_gets _ _ = Ok _ |- _ => injection H as ? ?; subst
  | H : os_modify _ _ = Ok _ |- _ => injection H as ? ?; subst
  | H : put_pipe _ _ _ = Ok _ |- _ => injection H as ? ?; subst
  | H : mret _ _ = Ok _ |- _ => injection H as ? ?; subst
  | H : ?m _ = Ok (_, _) |- _ =>
      let K := fresh in assert (K : keeps m) by eauto with keeps; apply K in H as [? ->]; clear K
  end.
Ltac os_inv := repeat os_inv1.

Section Worker.
Context {M : Type} `{Hsm : SpecialMap M}.
Context (cfg : OsConfig) (rand : nat -> Z).
Implicit Types s : Os M.

Lemma arr_get_Ok {A} (l : list A) i x : arr_get l i = Ok x <-> l !! Z.to_nat i = Some x.
Proof. unfold arr_get. destruct (l !! Z.to_nat i); split; congruence. Qed.

Lemma get_pipe_Ok n s p s' : get_pipe n s = Ok (p, s') -> pipes s !! Z.to_nat n = Some p /\ s' = s.
Proof.
  unfold get_pipe. destruct (arr_get (pipes s) n) as [q|] eqn:E; [|discriminate].
  intros [= -> ->]. split; [now apply arr_get_Ok|reflexivity].
Qed.

Lemma require_cached_Ok key s u s' : require_cached key s = Ok (u, s') ->
  is_Some (m_find key (cached_keyidx_map s)) /\ s' = s.
Proof. unfold require_cached. destruct (m_find _ _); [intros [= _ <-]; eauto|discriminate]. Qed.

(** An eviction reports its record as a special case under this condition. *)
Definition in_case2 (f : Flags) : bool := is_snapshot f || (is_snapshot_end f && negb (popworker_know_snapshot_end f)).

(** The backups after a step that reports at most one special case, and none
    unless [reports]. *)
Definition case_stored (reports : bool) (bs bs' : list (Backup M)) : Prop :=
  bs' = bs \/ (reports = true /\ exists idx key val seq stat, process_specialcase cfg bs idx key val seq stat = Ok bs').

Lemma store_case2_Ok b idx key r s u s' : store_case2 cfg b idx key r s = Ok (u, s') ->
  exists bs, s' = set_backups bs s /\ case_stored b (backups s) bs.
Proof.
  unfold store_case2, case_stored. destruct b.
  - destruct (process_specialcase _ _ _ _ _ _) eqn:E; [|discriminate]. intros [= _ <-]. eauto 10.
  - intros [= _ <-]. exists (backups s). split; [now destruct s|auto].
Qed.

(** What an eviction that returned did to the metadata. *)
Lemma evict_inv n s i s' : evict cfg rand n s = Ok (i, s') ->
  exists p evictidx key bs io,
    pipes s !! Z.to_nat n = Some p /\ 0 <= evictidx < bucket_num cfg /\
    cached_keyarray p !! Z.to_nat evictidx = Some key /\ is_Some (m_find key (cached_keyidx_map s)) /\
    i = u16 evictidx /\ case_stored (in_case2 (os_flags s)) (backups s) bs /\
    s' = mkOs (cache_pop_ptr_queue s) (m_erase key (cached_keyidx_map s))
           (<[Z.to_nat n := set_entry evictidx Key_default (u16 (-1)) p]> (pipes s)) bs
           (perserver_specialcasebwcosts s) (os_flags s) io.
Proof.
  unfold evict. intros H. do 3 os_inv1. apply get_pipe_Ok in H0 as [Hp ->]. os_inv.
  match goal with H : require_cached _ _ = _ |- _ => apply require_cached_Ok in H as [Hc ->] end.
  match goal with H : store_case2 _ _ _ _ _ _ = _ |- _ => apply store_case2_Ok in H as (bs & -> & Hbs) end.
  unfold bucket_num. exists x1, x3, x6, bs, x. repeat split; [exact Hp|lia|lia|now apply arr_get_Ok|exact Hc|exact Hbs].
Qed.

(** The metadata after the population of [key] for [serveridx]: a new entry, or
    that of a victim. *)
Inductive populated (m : stdmap Key Z) (ps : list Pipe) (n : nat) (key : Key) (serveridx : Z)
    : stdmap Key Z -> list Pipe -> Prop :=
  | populated_free p :
      ps !! n = Some p -> cached_empty_index p < bucket_num cfg ->
      populated m ps n key serveridx (m_insert key (cached_empty_index p) m)
        (<[n := set_entry (cached_empty_index p) key serveridx (grow_pipe p)]> ps)
  | populated_evict p i victim :
      ps !! n = Some p -> bucket_num cfg <= cached_empty_index p -> 0 <= i < bucket_num cfg ->
      cached_keyarray p !! Z.to_nat i = Some victim -> is_Some (m_find victim m) ->
      populated m ps n key serveridx (m_insert key i (m_erase victim m)) (<[n := set_entry i key serveridx p]> ps).

Lemma set_entry_twice i k sv k' sv' p : set_entry i k sv (set_entry i k' sv' p) = set_entry i k sv p.
Proof. unfold set_entry. cbn. now rewrite !list_insert_insert_eq. Qed.

Lemma record_entry_Ok n key i sv s u s' : record_entry n key i sv s = Ok (u, s') ->
  exists p, pipes s !! Z.to_nat n = Some p /\
    s' = set_meta (m_insert key i (cached_keyidx_map s)) (<[Z.to_nat n := set_entry i key sv p]> (pipes s)) s.
Proof.
  unfold record_entry. intros H. do 3 os_inv1. apply get_pipe_Ok in H0 as [Hp ->]. os_inv. eauto.
Qed.

Lemma populate_inv pop s u s' :
  bucket_num cfg <= 2 ^ 16 ->
  Forall (pipe_ok cfg) (pipes s) ->
  populate cfg rand pop s = Ok (u, s') ->
  exists n bs io m ps, find_pipe cfg (cp_serveridx pop) = Ok n /\
    populated (cached_keyidx_map s) (pipes s) (Z.to_nat n) (cp_key pop) (cp_serveridx pop) m ps /\
    case_stored (in_case2 (os_flags s)) (backups s) bs /\
    s' = mkOs (cache_pop_ptr_queue s) m ps bs (perserver_specialcasebwcosts s) (os_flags s) io.
Proof.
  intros Hb Hp H. unfold populate, install_entry in H. os_inv.
  match goal with H : get_pipe _ _ = _ |- _ => apply get_pipe_Ok in H as [Hn ->] end.
  match goal with H : record_entry _ _ _ _ _ = _ |- _ => apply record_entry_Ok in H as (q & Hq & ->) end.
  rename x1 into n, x3 into p, x5 into i.
  assert (Hpo : pipe_ok cfg p) by (rewrite Forall_lookup in Hp; eauto).
  assert (Hlt : (Z.to_nat n < length (pipes s))%nat) by eauto using lookup_lt_Some.
  destruct (cached_empty_index p <? switch_kv_bucket_num cfg) eqn:Hfree.
  - unfold take_freeidx in *. os_inv. cbn in Hq |- *.
    rewrite list_lookup_insert_eq in Hq by exact Hlt. injection Hq as <-.
    rewrite u16_id by (destruct Hpo; unfold bucket_num in *; zlia). rewrite list_insert_insert_eq.
    do 5 eexists. split; [eassumption|]. split; [|split; [|reflexivity] ].
    + eapply populated_free; [exact Hn|unfold bucket_num; lia].
    + now left.
  - match goal with H : evict _ _ _ _ = _ |- _ => apply evict_inv in H as (p' & i' & key & bs & io & Hp' & Hi & Hk & Hm & -> & Hbs & ->) end.
    assert (p' = p) as -> by congruence. cbn in Hq |- *.
    rewrite list_lookup_insert_eq in Hq by exact Hlt. injection Hq as <-.
    rewrite u16_id by zlia. rewrite list_insert_insert_eq, set_entry_twice.
    do 5 eexists. split; [eassumption|]. split; [|split; [exact Hbs|reflexivity] ].
    eapply populated_evict; [exact Hn|unfold bucket_num; lia|exact Hi|exact Hk|exact Hm].
Qed.

Lemma populated_ok m ps n key sv m' ps' :
  bucket_num cfg < 2 ^ 32 -> meta_ok cfg m ps -> m_find key m = None ->
  populated m ps n key sv m' ps' -> meta_ok cfg m' ps'.
Proof.
  intros Hb Hm Hk. destruct 1 as [p Hp He|p i victim Hp He Hi Hv Hc]; [now apply meta_append|].
  apply meta_replace; [exact Hm|exact Hp| |exact Hk]. split; [lia|exact Hv].
Qed.

Lemma populated_pipes m ps n key sv m' ps' : bucket_num cfg < 2 ^ 32 -> Forall (pipe_ok cfg) ps ->
  populated m ps n key sv m' ps' -> Forall (pipe_ok cfg) ps' /\ length ps' = length ps.
Proof.
  intros Hb Hps H. assert (Hp : forall p, ps !! n = Some p -> pipe_ok cfg p) by (rewrite Forall_lookup in Hps; eauto).
  destruct H as [p Hn He|p i victim Hn He Hi Hv Hc]; (split; [|apply length_insert]);
    (apply Forall_insert; [exact Hps|apply pipe_ok_set]); [|auto].
  destruct (Hp _ Hn) as [H1 H2 H3]. split; [assumption..|]. cbn. rewrite u32_id; unfold is_u32; lia.
Qed.

(** ** A turn of the popworker *)

(** The key at the head of the queue, if there is one, is not cached. *)
Definition head_fresh (s : Os M) : Prop :=
  forall pop q, read (cache_pop_ptr_queue s) = Ok (Some pop, q) -> m_find (cp_key pop) (cached_keyidx_map s) = None.

(** What a turn can do to the shared state: with population stopped it only says
    so, otherwise it populates at most one record. *)
Record worked (s s' : Os M) : Prop := {
  wk_bwcosts : perserver_specialcasebwcosts s' = perserver_specialcasebwcosts s;
  wk_flags : exists stop endk, os_flags s' = set_know_end endk (set_know_stop stop (os_flags s)) /\
    (endk = popworker_know_snapshot_end (os_flags s) \/ is_snapshot_end (os_flags s) = true);
  wk_cases : case_stored (in_case2 (os_flags s)) (backups s) (backups s');
  wk_meta : (cached_keyidx_map s' = cached_keyidx_map s /\ pipes s' = pipes s /\ backups s' = backups s) \/
    (is_stop_cachepop (os_flags s) = false /\ exists pop q n, read (cache_pop_ptr_queue s) = Ok (Some pop, q) /\
       find_pipe cfg (cp_serveridx pop) = Ok n /\
       populated (cached_keyidx_map s) (pipes s) (Z.to_nat n) (cp_key pop) (cp_serveridx pop) (cached_keyidx_map s') (pipes s'))
}.

Lemma set_know_end_id f : set_know_end (popworker_know_snapshot_end f) f = f.
Proof. now destruct f. Qed.
Lemma set_know_stop_id f : set_know_stop (popworker_know_stop_cachepop f) f = f.
Proof. now destruct f. Qed.

(** The end of a turn acknowledges the end of a snapshot. *)
Lemma worked_end s s1 s' : os_flags s1 = set_know_stop (popworker_know_stop_cachepop (os_flags s1)) (os_flags s) ->
  worked s s1 ->
  (if is_snapshot_end (os_flags s1) && negb (popworker_know_snapshot_end (os_flags s1))
   then os_modify (set_flags (set_know_end true (os_flags s1))) else mret tt) s1 = Ok (tt, s') -> worked s s'.
Proof.
  intros Hf [H1 H2 H3 H4] H. destruct (is_snapshot_end (os_flags s1) && _) eqn:E.
  - injection H as <-. split; [exact H1| |exact H3|exact H4]. exists (popworker_know_stop_cachepop (os_flags s1)), true.
    cbn [os_flags set_flags]. rewrite Hf. split; [now destruct (os_flags s)|right].
    rewrite Hf in E. cbn in E. now destruct (is_snapshot_end (os_flags s)).
  - injection H as <-. now split.
Qed.

Lemma popworker_inv s u s' : bucket_num cfg <= 2 ^ 16 -> Forall (pipe_ok cfg) (pipes s) ->
  popworker_step cfg rand s = Ok (u, s') -> worked s s'.
Proof.
  intros Hb Hp H. unfold popworker_step in H. apply os_bind_Ok in H as (f & ? & E & H). injection E as <- <-.
  apply os_bind_Ok in H as ([] & s1 & E & H). apply os_bind_Ok in H as (f1 & ? & E1 & H). injection E1 as <- <-. destruct u.
  assert (Hid : exists stop endk, os_flags s = set_know_end endk (set_know_stop stop (os_flags s)) /\
    (endk = popworker_know_snapshot_end (os_flags s) \/ is_snapshot_end (os_flags s) = true)).
  { exists (popworker_know_stop_cachepop (os_flags s)), (popworker_know_snapshot_end (os_flags s)).
    rewrite set_know_stop_id, set_know_end_id. auto. }
  assert (Hstay : worked s s) by (split; [reflexivity|exact Hid|now left|now left]).
  destruct (is_stop_cachepop (os_flags s) && negb (popworker_know_stop_cachepop (os_flags s))) eqn:E1.
  { injection E as <-. apply (worked_end s _ s') in H; [exact H|reflexivity|]. split; [reflexivity| |now left|now left].
    exists true, (popworker_know_snapshot_end (os_flags s)). split; [now destruct (os_flags s)|auto]. }
  destruct (is_stop_cachepop (os_flags s)) eqn:Es; cbn [negb] in E.
  { injection E as <-. apply (worked_end s s s') in H; [exact H|now rewrite set_know_stop_id|exact Hstay]. }
  apply os_bind_Ok in E as (q & ? & E2 & E). injection E2 as <- <-.
  apply os_bind_Ok in E as ([pop q'] & ? & [Hq ->]%os_lift_Ok & E).
  apply os_bind_Ok in E as ([] & s2 & E2 & E3). injection E2 as <-. destruct pop as [pop|].
  - apply populate_inv in E3 as (n & bs & io & m & ps & Hn & Hpop & Hbs & ->); [|exact Hb|exact Hp].
    apply (worked_end s _ s') in H; [exact H|cbn; now rewrite set_know_stop_id|].
    split; [reflexivity|exact Hid|exact Hbs|]. right. split; [exact Es|]. eauto 10.
  - injection E3 as <-. apply (worked_end s _ s') in H; [exact H|cbn; now rewrite set_know_stop_id|].
    split; [reflexivity|exact Hid|now left|now left].
Qed.

End Worker.
