(* ===== verification/SwitchSnapshot.v ===== *)
(** * The switch OS: snapshots

    The snapshotserver of farreach/switchos.c, which follows the commands of the
    controller.  Between two commands and at the loops in which it waits for the
    other threads it can be interrupted: [snap_pc] says where it stands,
    [snapshotserver_recv] takes a command, [snapshotserver_poll] looks at the
    flags it waits for.  [rollback] puts the collected special cases over the
    records loaded from the switch. *)

From Stdlib Require Import ZArith Lia List.
From stdpp Require Import base tactics list numbers option.
From S2P Require Import Prelude Cursor DynamicArray StdMap Crc32 Key Val DeletedSet Packet PacketCodec PacketCache PacketScan Outband PacketServer PacketSwitch Server Fragment PktRingBuffer MessageQueue RecvLarge SwitchOS.

Open Scope Z_scope.

(** ** Configuration and state *)

(** The commands of the controller and those to ptf; what a new array of records
    holds is not initialised. *)
Record SnConfig := mkSnConfig {
  SNAPSHOT_CLEANUP : Z;
  SNAPSHOT_CLEANUP_ACK : Z;
  SNAPSHOT_PREPARE : Z;
  SNAPSHOT_PREPARE_ACK : Z;
  SNAPSHOT_SETFLAG : Z;
  SNAPSHOT_SETFLAG_ACK : Z;
  SNAPSHOT_START : Z;
  SNAPSHOT_START_ACK : Z;
  SNAPSHOT_GETDATA : Z;
  SNAPSHOT_GETDATA_ACK : Z;
  SWITCHOS_CLEANUP : Z;
  SWITCHOS_CLEANUP_ACK : Z;
  SWITCHOS_ENABLE_SINGLEPATH : Z;
  SWITCHOS_ENABLE_SINGLEPATH_ACK : Z;
  SWITCHOS_SET_SNAPSHOT_FLAG : Z;
  SWITCHOS_SET_SNAPSHOT_FLAG_ACK : Z;
  SWITCHOS_DISABLE_SINGLEPATH : Z;
  SWITCHOS_DISABLE_SINGLEPATH_ACK : Z;
  SWITCHOS_RESET_SNAPSHOT_FLAG_AND_REG : Z;
  SWITCHOS_RESET_SNAPSHOT_FLAG_AND_REG_ACK : Z;
  sn_uninit : SnapshotRecord
}.

(** Where the thread stands: at the receive of its loop, or in one of the loops
    that wait for the other threads. *)
Inductive snap_pc := SnRecv | SnEndStale | SnStop | SnEndGetdata.

Inductive SnDest := SnPtf | SnReflector | SnController.

(** The local variables; [sn_data] stands for the three arrays
    [switchos_perpipeline_snapshot_values], [..._seqs] and [..._stats]. *)
Record Snap := mkSnap {
  sn_pc : snap_pc;
  is_first_snapshot : bool;
  sn_control_type : Z;
  sn_snapshotid : Z;
  sn_data : list (option (list SnapshotRecord));
  sn_recvbuf : list Z;
  sn_sendbuf : list Z;
  sn_ptfbuf : list Z;
  sn_pktbuf : list Z;
  sn_dynamicbuf : DynamicArray;
  sn_ptf_sock : list (list Z);
  sn_reflector_sock : list event;
  sn_sent : list (SnDest * list Z)
}.

Definition sn_at (pc : snap_pc) (s : Snap) : Snap :=
  mkSnap pc (is_first_snapshot s) (sn_control_type s) (sn_snapshotid s) (sn_data s) (sn_recvbuf s) (sn_sendbuf s)
    (sn_ptfbuf s) (sn_pktbuf s) (sn_dynamicbuf s) (sn_ptf_sock s) (sn_reflector_sock s) (sn_sent s).
Definition set_first (b : bool) (s : Snap) : Snap :=
  mkSnap (sn_pc s) b (sn_control_type s) (sn_snapshotid s) (sn_data s) (sn_recvbuf s) (sn_sendbuf s)
    (sn_ptfbuf s) (sn_pktbuf s) (sn_dynamicbuf s) (sn_ptf_sock s) (sn_reflector_sock s) (sn_sent s).
Definition set_signal (c : SnapshotSignal) (s : Snap) : Snap :=
  mkSnap (sn_pc s) (is_first_snapshot s) (sig_control_type c) (sig_snapshotid c) (sn_data s) (sn_recvbuf s) (sn_sendbuf s)
    (sn_ptfbuf s) (sn_pktbuf s) (sn_dynamicbuf s) (sn_ptf_sock s) (sn_reflector_sock s) (sn_sent s).
Definition set_data (d : list (option (list SnapshotRecord))) (s : Snap) : Snap :=
  mkSnap (sn_pc s) (is_first_snapshot s) (sn_control_type s) (sn_snapshotid s) d (sn_recvbuf s) (sn_sendbuf s)
    (sn_ptfbuf s) (sn_pktbuf s) (sn_dynamicbuf s) (sn_ptf_sock s) (sn_reflector_sock s) (sn_sent s).
Definition set_recvbuf (b : list Z) (s : Snap) : Snap :=
  mkSnap (sn_pc s) (is_first_snapshot s) (sn_control_type s) (sn_snapshotid s) (sn_data s) b (sn_sendbuf s)
    (sn_ptfbuf s) (sn_pktbuf s) (sn_dynamicbuf s) (sn_ptf_sock s) (sn_reflector_sock s) (sn_sent s).

(** A computation of this thread. *)
Definition sn (A : Type) : Type := Snap -> res (A * Snap).
#[global] Instance sn_ret : MRet sn := fun _ a s => Ok (a, s).
#[global] Instance sn_bind : MBind sn := fun _ _ f m s =>
  match m s with Ok (a, s') => f a s' | Err e => Err e end.
Definition sn_lift {A} (r : res A) : sn A := fun s => match r with Ok a => Ok (a, s) | Err e => Err e end.

Section SnapshotServer.
Context {M : Type} `{Hsm : SpecialMap M}.
Context (cfg : OsConfig) (sc : SnConfig).

(** ** Messages *)

(** A command to ptf, answered by an int. *)
Definition ptf_command (serialize : writer Z) (ack : Z) : sn unit := fun s =>
  '(n, buf) ← run_writer serialize (sn_ptfbuf s);
  match sn_ptf_sock s with
  | [] => Err Blocked
  | bytes :: rest =>
      let buf' := recv_into buf bytes in
      _ ← INVARIANT ((recv_size buf bytes =? 4) && (s32 (le_val (take 4 buf')) =? ack));
      Ok (tt, mkSnap (sn_pc s) (is_first_snapshot s) (sn_control_type s) (sn_snapshotid s) (sn_data s) (sn_recvbuf s)
                (sn_sendbuf s) buf' (sn_pktbuf s) (sn_dynamicbuf s) rest (sn_reflector_sock s)
                (sn_sent s ++ [(SnPtf, take (Z.to_nat n) buf)]))
  end.

Definition one_int (x : Z) : writer Z := _ ← w_u32 (u32 x); w_off.
Definition two_ints (x y : Z) : writer Z := _ ← w_u32 (u32 x); _ ← w_u32 (u32 y); w_off.

(** The acknowledgement of a command. *)
Definition reply (control_type : Z) : sn unit := fun s =>
  '(n, buf) ← run_writer (SnapshotSignal_serialize (mkSnapshotSignal control_type (sn_snapshotid s)) MAX_BUFSIZE)
                (sn_sendbuf s);
  Ok (tt, mkSnap (sn_pc s) (is_first_snapshot s) (sn_control_type s) (sn_snapshotid s) (sn_data s) (sn_recvbuf s)
            buf (sn_ptfbuf s) (sn_pktbuf s) (sn_dynamicbuf s) (sn_ptf_sock s) (sn_reflector_sock s)
            (sn_sent s ++ [(SnController, take (Z.to_nat n) buf)])).

(** LOADSNAPSHOTDATA_INSWITCH for entry [idx]. *)
Definition send_loadsnapshot (key : Key) (idx : Z) : sn unit := fun s =>
  req ← LoadInswitch_new LOADSNAPSHOTDATA_INSWITCH CURMETHOD_ID key (u16 idx);
  '(n, buf) ← run_writer (LoadInswitch_serialize req MAX_BUFSIZE) (sn_pktbuf s);
  Ok (tt, mkSnap (sn_pc s) (is_first_snapshot s) (sn_control_type s) (sn_snapshotid s) (sn_data s) (sn_recvbuf s)
            (sn_sendbuf s) (sn_ptfbuf s) buf (sn_dynamicbuf s) (sn_ptf_sock s) (sn_reflector_sock s)
            (sn_sent s ++ [(SnReflector, take (Z.to_nat n) buf)])).

(** [udprecvfrom(..., pktbuf, ...)] of the socket with a timeout. *)
Definition recv_reflector : sn (option Z) := fun s =>
  let set buf evs :=
    mkSnap (sn_pc s) (is_first_snapshot s) (sn_control_type s) (sn_snapshotid s) (sn_data s) (sn_recvbuf s)
      (sn_sendbuf s) (sn_ptfbuf s) buf (sn_dynamicbuf s) (sn_ptf_sock s) evs (sn_sent s) in
  match sn_reflector_sock s with
  | [] => Err Blocked
  | Timeout :: evs => Ok (None, set (sn_pktbuf s) evs)
  | Dgram bytes _ :: evs => Ok (Some (recv_size (sn_pktbuf s) bytes), set (recv_into (sn_pktbuf s) bytes) evs)
  end.

Definition parse_reflector {A} (parse : Z -> Z -> reader A) (n : Z) : sn A := fun s =>
  a ← run_reader (parse CURMETHOD_ID n) (sn_pktbuf s); Ok (a, s).

(** ** Loading the records *)

(** The requests for the entries from [idx] on that are not received. *)
Fixpoint send_unreceived (idx : Z) (keys : list Key) (bitmap : list bool) : sn unit :=
  match keys, bitmap with
  | key :: keys', received :: bitmap' =>
      _ ← (if (received : bool) then mret tt else send_loadsnapshot key idx);
      send_unreceived (idx + 1) keys' bitmap'
  | _, _ => mret tt
  end.

(** Store an acknowledged record: [keys] is the whole backup array, the records
    and the bitmap have one element per used entry. *)
Definition store_loaded (keys : list Key) (ack : InswitchCase1) (l : list SnapshotRecord * list bool * nat)
    : res (list SnapshotRecord * list bool * nat) :=
  let '(data, bitmap, received_num) := l in
  let idx := ic_idx ack in
  k ← arr_get keys idx;
  _ ← INVARIANT (bool_decide (p_key (qs_base (ic_put ack)) = k));
  received ← arr_get bitmap idx;
  if (received : bool) then Ok l
  else
    Ok (<[Z.to_nat idx := mkSnapshotRecord (qs_val (ic_put ack)) (qs_seq (ic_put ack)) (ic_stat ack)]> data,
        <[Z.to_nat idx := true]> bitmap, S received_num).

(** [while (true)]: every turn takes a datagram or a timeout from the socket. *)
Fixpoint load_wait (fuel : nat) (keys : list Key) (count : nat) (l : list SnapshotRecord * list bool * nat)
    : sn (list SnapshotRecord) :=
  match fuel with
  | O => sn_lift (Err OutOfFuel)
  | S fuel' =>
      r ← recv_reflector;
      match r with
      | None => _ ← send_unreceived 0 keys l.1.2; load_wait fuel' keys count l
      | Some n =>
          ack ← parse_reflector LoadsnapshotdataInswitchAck_parse n;
          l' ← sn_lift (store_loaded keys ack l);
          if (count <=? l'.2)%nat then mret l'.1.1 else load_wait fuel' keys count l'
      end
  end.

(** The records of one pipeline; no array for one without records. *)
Definition load_pipe (b : Backup M) : sn (option (list SnapshotRecord)) :=
  if 0 <? cached_empty_index_backup b then
    match cached_keyarray_backup b with
    | None => sn_lift (Err NullDeref)
    | Some keys =>
        let count := Z.to_nat (cached_empty_index_backup b) in
        let bitmap := replicate count false in
        _ ← (if (count <=? length keys)%nat then send_unreceived 0 keys bitmap else sn_lift (Err OutOfBounds));
        fuel ← (fun s => Ok (S (length (sn_reflector_sock s)), s));
        records ← load_wait fuel keys count (replicate count (sn_uninit sc), bitmap, 0%nat);
        mret (Some records)
    end
  else mret None.

(** Pipelines without records keep what they had. *)
Fixpoint load_pipes (bs : list (Backup M)) (olds : list (option (list SnapshotRecord)))
    : sn (list (option (list SnapshotRecord))) :=
  match bs, olds with
  | b :: bs', old :: olds' =>
      d ← load_pipe b;
      ds ← load_pipes bs' olds';
      mret ((match d with None => old | Some _ => d end) :: ds)
  | _, _ => mret []
  end.

(** ** Rollback *)

Definition case_record (c : SpecialCase) : SnapshotRecord := mkSnapshotRecord (sc_val c) (sc_seq c) (sc_valid c).

Fixpoint rollback_cases (keys : list Key) (cases : list (Z * SpecialCase)) (data : option (list SnapshotRecord))
    : res (option (list SnapshotRecord)) :=
  match cases with
  | [] => Ok data
  | (idx, c) :: cases' =>
      k ← arr_get keys idx;
      _ ← INVARIANT (bool_decide (k = sc_key c));
      match data with
      | None => Err NullDeref
      | Some rs =>
          _ ← arr_get rs idx;
          rollback_cases keys cases' (Some (<[Z.to_nat idx := case_record c]> rs))
      end
  end.

Definition rollback_pipe (b : Backup M) (data : option (list SnapshotRecord)) : res (option (list SnapshotRecord)) :=
  match specialcases_ptr b with
  | None => Err InvariantFailed
  | Some m =>
      match cached_keyarray_backup b, sm_pairs m with
      | _, [] => Ok data
      | None, _ => Err NullDeref
      | Some keys, pairs => rollback_cases keys pairs data
      end
  end.

Fixpoint rollback (bs : list (Backup M)) (datas : list (option (list SnapshotRecord)))
    : res (list (option (list SnapshotRecord))) :=
  match bs, datas with
  | b :: bs', d :: datas' => d' ← rollback_pipe b d; ds ← rollback bs' datas'; Ok (d' :: ds)
  | _, _ => Ok []
  end.

(** The records of one pipeline as [dynamic_serialize_snapshot_getdata_ack] visits them. *)
Fixpoint zip_records (n : nat) (sv : list Z) (ks : list Key) (rs : list SnapshotRecord) : res (list InswitchRecord) :=
  match n with
  | O => Ok []
  | S n' =>
      match sv, ks, rs with
      | i :: sv', k :: ks', r :: rs' => l ← zip_records n' sv' ks' rs'; Ok (mkInswitchRecord i k r :: l)
      | _, _, _ => Err OutOfBounds
      end
  end.

Definition pipe_records (b : Backup M) (data : option (list SnapshotRecord)) : res (list InswitchRecord) :=
  match Z.to_nat (cached_empty_index_backup b), cached_serveridxarray_backup b, cached_keyarray_backup b, data with
  | O, _, _, _ => Ok []
  | n, Some sv, Some ks, Some rs => zip_records n sv ks rs
  | _, _, _, _ => Err NullDeref
  end.

Fixpoint pipes_records (bs : list (Backup M)) (datas : list (option (list SnapshotRecord)))
    : res (list (list InswitchRecord)) :=
  match bs, datas with
  | b :: bs', d :: datas' => l ← pipe_records b d; ls ← pipes_records bs' datas'; Ok (l :: ls)
  | _, _ => Ok []
  end.

(** Serialize the data and send it in fragments. *)
Definition send_getdata (bs : list (Backup M)) (bwcosts : list Z) : sn unit := fun s =>
  ls ← pipes_records bs (sn_data s);
  d ← clear (sn_dynamicbuf s);
  '(total_bytes, d) ← dynamic_serialize_snapshot_getdata_ack d (SNAPSHOT_GETDATA_ACK sc)
                        (Z.to_nat (max_server_total_logical_num cfg)) ls bwcosts;
  frs ← udpsendlarge_udpfrag (da_mem d) total_bytes;
  Ok (tt, mkSnap (sn_pc s) (is_first_snapshot s) (sn_control_type s) (sn_snapshotid s) (sn_data s) (sn_recvbuf s)
            (sn_sendbuf s) (sn_ptfbuf s) (sn_pktbuf s) d (sn_ptf_sock s) (sn_reflector_sock s)
            (sn_sent s ++ map (pair SnController) frs)).

(** ** The commands *)

Definition has_backup (b : Backup M) : bool :=
  match cached_keyarray_backup b, cached_serveridxarray_backup b with Some _, Some _ => true | _, _ => false end.
Definition no_backup (b : Backup M) : bool :=
  match cached_keyarray_backup b, cached_serveridxarray_backup b, specialcases_ptr b with
  | None, None, None => true | _, _, _ => false end.
Definition no_data (d : option (list SnapshotRecord)) : bool := match d with None => true | Some _ => false end.

Definition empty_backup : Backup M := mkBackup None None 0 None.
Definition with_map (b : Backup M) : Backup M := set_specialcases sm_empty b.

(** The copy of the metadata of a pipeline; the map stays. *)
Definition take_backup (p : Pipe) (b : Backup M) : Backup M :=
  mkBackup (Some (cached_keyarray p)) (Some (cached_serveridxarray p)) (cached_empty_index p) (specialcases_ptr b).

Definition snap_res : Type := res (Snap * Os M).

(** The rest of SNAPSHOT_CLEANUP, up to the wait for the popworker. *)
Definition cleanup_init (s : Snap) (o : Os M) : snap_res :=
  _ ← INVARIANT (forallb no_backup (backups o));
  _ ← INVARIANT (forallb no_data (sn_data s));
  Ok (sn_at SnStop (set_first false s),
      set_flags (mkFlags true false false false false false) (set_backups (map with_map (backups o)) o)).

Definition handle_cleanup (s : Snap) (o : Os M) : snap_res :=
  '(_, s) ← ptf_command (one_int (SWITCHOS_CLEANUP sc)) (SWITCHOS_CLEANUP_ACK sc) s;
  let f := os_flags o in
  if is_first_snapshot s then
    cleanup_init s (set_flags (mkFlags false false (is_snapshot f) (is_snapshot_end f) (popworker_know_snapshot_end f)
                                 (specialcaseserver_know_snapshot_end f)) o)
  else
    _ ← INVARIANT (forallb has_backup (backups o));
    '(_, s) ← ptf_command (one_int (SWITCHOS_DISABLE_SINGLEPATH sc)) (SWITCHOS_DISABLE_SINGLEPATH_ACK sc) s;
    '(_, s) ← ptf_command (one_int (SWITCHOS_RESET_SNAPSHOT_FLAG_AND_REG sc)) (SWITCHOS_RESET_SNAPSHOT_FLAG_AND_REG_ACK sc) s;
    Ok (sn_at SnEndStale s, set_flags (mkFlags false false false true false false) o).

Definition handle_prepare (s : Snap) : res Snap :=
  '(_, s) ← ptf_command (one_int (SWITCHOS_ENABLE_SINGLEPATH sc)) (SWITCHOS_ENABLE_SINGLEPATH_ACK sc) s;
  '(_, s) ← reply (SNAPSHOT_PREPARE_ACK sc) s;
  Ok s.

Definition handle_setflag (s : Snap) : res Snap :=
  '(_, s) ← ptf_command (two_ints (SWITCHOS_SET_SNAPSHOT_FLAG sc) (sn_snapshotid s)) (SWITCHOS_SET_SNAPSHOT_FLAG_ACK sc) s;
  '(_, s) ← reply (SNAPSHOT_SETFLAG_ACK sc) s;
  Ok s.

Definition handle_start (s : Snap) (o : Os M) : snap_res :=
  '(_, s) ← ptf_command (one_int (SWITCHOS_DISABLE_SINGLEPATH sc)) (SWITCHOS_DISABLE_SINGLEPATH_ACK sc) s;
  let f := os_flags o in
  if negb (is_snapshot f) && is_stop_cachepop f && popworker_know_stop_cachepop f then
    let o := set_flags (mkFlags false false true (is_snapshot_end f) (popworker_know_snapshot_end f)
                          (specialcaseserver_know_snapshot_end f)) o in
    '(d, s) ← load_pipes (backups o) (sn_data s) s;
    '(_, s) ← reply (SNAPSHOT_START_ACK sc) (set_data d s);
    Ok (s, o)
  else Err ExitCalled.

Definition handle_getdata (s : Snap) (o : Os M) : snap_res :=
  '(_, s) ← ptf_command (one_int (SWITCHOS_RESET_SNAPSHOT_FLAG_AND_REG sc)) (SWITCHOS_RESET_SNAPSHOT_FLAG_AND_REG_ACK sc) s;
  let f := os_flags o in
  if is_snapshot f && negb (is_snapshot_end f) && negb (popworker_know_snapshot_end f) &&
     negb (specialcaseserver_know_snapshot_end f) then
    Ok (sn_at SnEndGetdata s,
        set_flags (mkFlags (is_stop_cachepop f) (popworker_know_stop_cachepop f) false true false false) o)
  else Err ExitCalled.

(** A command arrives while the thread waits for one. *)
Definition snapshotserver_recv (bytes : list Z) (s : Snap) (o : Os M) : snap_res :=
  let n := recv_size (sn_recvbuf s) bytes in
  let s := set_recvbuf (recv_into (sn_recvbuf s) bytes) s in
  cur_signal ← run_reader (SnapshotSignal_deserialize n) (sn_recvbuf s);
  if negb (sn_control_type s =? SNAPSHOT_CLEANUP sc) && (sn_control_type s =? sig_control_type cur_signal) &&
     (sn_snapshotid s =? sig_snapshotid cur_signal) then Ok (s, o)
  else
    let s := set_signal cur_signal s in
    let control_type := sn_control_type s in
    if control_type =? SNAPSHOT_CLEANUP sc then handle_cleanup s o
    else if control_type =? SNAPSHOT_PREPARE sc then s ← handle_prepare s; Ok (s, o)
    else if control_type =? SNAPSHOT_SETFLAG sc then s ← handle_setflag s; Ok (s, o)
    else if control_type =? SNAPSHOT_START sc then handle_start s o
    else if control_type =? SNAPSHOT_GETDATA sc then handle_getdata s o
    else Err ExitCalled.

(** The loops that wait: nothing happens until the other threads have answered. *)
Definition snapshotserver_poll (s : Snap) (o : Os M) : snap_res :=
  let f := os_flags o in
  match sn_pc s with
  | SnRecv => Ok (s, o)
  | SnEndStale =>
      if popworker_know_snapshot_end f && specialcaseserver_know_snapshot_end f then
        cleanup_init (set_data (map (fun _ => None) (sn_data s)) s)
          (set_flags (mkFlags (is_stop_cachepop f) (popworker_know_stop_cachepop f) (is_snapshot f) false false false)
             (set_backups (map (fun _ => empty_backup) (backups o)) o))
      else Ok (s, o)
  | SnStop =>
      if popworker_know_stop_cachepop f then
        '(_, s) ← reply (SNAPSHOT_CLEANUP_ACK sc) s;
        Ok (sn_at SnRecv s,
            set_bwcosts (replicate (Z.to_nat (max_server_total_logical_num cfg)) 0)
              (set_backups (zip_with take_backup (pipes o) (backups o)) o))
      else Ok (s, o)
  | SnEndGetdata =>
      if popworker_know_snapshot_end f && specialcaseserver_know_snapshot_end f then
        d ← rollback (backups o) (sn_data s);
        '(_, s) ← send_getdata (backups o) (perserver_specialcasebwcosts o) (set_data d s);
        Ok (sn_at SnRecv s,
            set_flags (mkFlags (is_stop_cachepop f) (popworker_know_stop_cachepop f) (is_snapshot f) false false false) o)
      else Ok (s, o)
  end.

End SnapshotServer.
