(* ===== verification/SwitchLoad.v ===== *)
(** * Loading the records of a snapshot

    [load_pipe] asks the data plane for every record of a pipeline and reads the
    answers; [load_pipe_ok]: whatever is lost, repeated or reordered, as soon as
    every entry was answered once the loop ends with the first answer of each. *)

From Stdlib Require Import ZArith Lia List.
From stdpp Require Import base tactics list numbers option.
From S2P Require Import Prelude Cursor DynamicArray StdMap Crc32 Key Val DeletedSet Packet PacketCodec PacketCache PacketScan Outband PacketServer PacketSwitch Server Fragment Reassembly PktRingBuffer MessageQueue RecvLarge RecvSpec RecvProps SwitchOS SwitchMeta SwitchSnapshot.

Open Scope Z_scope.
Set Default Proof Using "Type".

(** ** Messages in a buffer *)

(** What a serializer that emits [bs] leaves in a buffer. *)
Lemma emits_run {A} (w : writer A) bs (a : A) buf :
  emits w 0 bs a -> (length bs <= length buf)%nat -> run_writer w buf = Ok (a, bs ++ drop (length bs) buf).
Proof.
  intros H Hl. destruct (H [] (take (length bs) buf) (drop (length bs) buf) eq_refl) as [E _].
  { rewrite length_take. lia. }
  rewrite take_drop in E. unfold run_writer. rewrite E. reflexivity.
Qed.

Lemma length_written bs (buf : list Z) : (length bs <= length buf)%nat -> length (bs ++ drop (length bs) buf) = length buf.
Proof. intros H. rewrite length_app, length_drop. lia. Qed.

Lemma take_written n bs (buf : list Z) : n = Z.of_nat (length bs) -> take (Z.to_nat n) (bs ++ drop (length bs) buf) = bs.
Proof. intros ->. now rewrite Nat2Z.id, take_app_length. Qed.

(** A datagram read from the buffer it was received in. *)
Lemma received_read {A} (parse : Z -> reader A) buf bytes rest a :
  (length (bytes ++ rest) <= length buf)%nat -> reads (parse (Z.of_nat (length (bytes ++ rest)))) 0 bytes a ->
  run_reader (parse (recv_size buf (bytes ++ rest))) (recv_into buf (bytes ++ rest)) = Ok a.
Proof.
  intros Hl Hr. destruct (recv_fits buf (bytes ++ rest) Hl) as [-> ->]. rewrite <- app_assoc. now apply reads_run.
Qed.

Definition buf_len : nat := Z.to_nat MAX_BUFSIZE.
Lemma buf_len_eq : Z.of_nat buf_len = MAX_BUFSIZE.
Proof. apply Z2Nat.id. discriminate. Qed.
#[global] Opaque buf_len.

(** ** The answers *)

(** What arrives while the records are loaded: the answer for entry [i], or a timeout. *)
Inductive load_arrival :=
  | LTimeout
  | LAck (i : nat) (r : SnapshotRecord) (sh tok z : Z) (rest : list Z) (addr : sockaddr_in).

Section Load.
Context (keys : list Key) (count : nat).

Definition entry_key (i : nat) : Key := nth i keys Key_default.

Definition ack_bytes (i : nat) (r : SnapshotRecord) (sh tok z : Z) : list Z :=
  snap_ack (entry_key i) r (Z.of_nat i) sh tok z.

Definition load_event (a : load_arrival) : event :=
  match a with
  | LTimeout => Timeout
  | LAck i r sh tok z rest addr => Dgram (ack_bytes i r sh tok z ++ rest) addr
  end.

Definition load_arrival_ok (a : load_arrival) : Prop :=
  match a with
  | LTimeout => True
  | LAck i r sh tok z rest addr =>
      (i < count)%nat /\ wire_record_wf (entry_key i, r) /\ (length (ack_bytes i r sh tok z ++ rest) <= buf_len)%nat
  end.

(** The first answer for entry [i]. *)
Fixpoint first_answer (i : nat) (l : list load_arrival) : option SnapshotRecord :=
  match l with
  | [] => None
  | LTimeout :: l' => first_answer i l'
  | LAck j r _ _ _ _ _ :: l' => if Nat.eqb j i then Some r else first_answer i l'
  end.

(** The thread with another buffer, socket and record of what was sent. *)
Definition with_io (buf : list Z) (evs : list event) (sent : list (SnDest * list Z)) (s : Snap) : Snap :=
  mkSnap (sn_pc s) (is_first_snapshot s) (sn_control_type s) (sn_snapshotid s) (sn_data s) (sn_recvbuf s) (sn_sendbuf s)
    (sn_ptfbuf s) buf (sn_dynamicbuf s) (sn_ptf_sock s) evs sent.

Lemma with_io_id s : with_io (sn_pktbuf s) (sn_reflector_sock s) (sn_sent s) s = s.
Proof. now destruct s. Qed.

Lemma entry_key_lookup i : (i < length keys)%nat -> keys !! i = Some (entry_key i).
Proof. intros Hi. unfold entry_key. now destruct (nth_lookup_or_length keys i Key_default) as [->|]; [|lia]. Qed.

(** The requests for the entries that are not received. *)
Fixpoint requests (idx : Z) (ks : list Key) (bitmap : list bool) : list (SnDest * list Z) :=
  match ks, bitmap with
  | k :: ks', received :: bitmap' =>
      (if (received : bool) then [] else [(SnReflector, load_wire LOADSNAPSHOTDATA_INSWITCH k idx)]) ++
      requests (idx + 1) ks' bitmap'
  | _, _ => []
  end.

Lemma send_loadsnapshot_ok k idx buf evs sent s : key_wf k -> is_u16 idx -> length buf = buf_len ->
  exists buf', length buf' = buf_len /\
    send_loadsnapshot k idx (with_io buf evs sent s)
      = Ok (tt, with_io buf' evs (sent ++ [(SnReflector, load_wire LOADSNAPSHOTDATA_INSWITCH k idx)]) s).
Proof.
  intros Hk Hi Hb. unfold send_loadsnapshot. rewrite (u16_id idx Hi).
  unfold LoadInswitch_new. change (is_singleswitch CURMETHOD_ID) with true.
  rewrite (INVARIANT_true (0 <=? idx)) by (unfold is_u16 in Hi; lia). cbn [INVARIANT mbind res_bind].
  assert (Hl : length (load_wire LOADSNAPSHOTDATA_INSWITCH k idx) = 40%nat)
    by (unfold load_wire; rewrite !length_app, length_fr_hdr, !length_be, length_replicate; reflexivity).
  pose proof buf_len_eq as Hm. unfold MAX_BUFSIZE in Hm.
  change (set_type _ _) with (Packet_new FARREACH_ID LOADSNAPSHOTDATA_INSWITCH k). cbn [sn_pktbuf with_io].
  rewrite (emits_run _ _ _ buf (load_emits LOADSNAPSHOTDATA_INSWITCH k idx MAX_BUFSIZE ltac:(unfold is_u16, LOADSNAPSHOTDATA_INSWITCH; lia) Hk ltac:(unfold MAX_BUFSIZE; lia)))
    by (rewrite Hl; lia).
  cbn [mbind res_bind]. rewrite take_written by (rewrite Hl; reflexivity).
  eexists. split; [|reflexivity]. rewrite length_written; [exact Hb|rewrite Hl; lia].
Qed.

Lemma send_unreceived_ok ks : forall idx bitmap buf evs sent s,
  Forall key_wf ks -> 0 <= idx -> idx + Z.of_nat (length ks) <= 2 ^ 16 -> length buf = buf_len ->
  exists buf', length buf' = buf_len /\
    send_unreceived idx ks bitmap (with_io buf evs sent s) = Ok (tt, with_io buf' evs (sent ++ requests idx ks bitmap) s).
Proof.
  induction ks as [|k ks IH]; intros idx bitmap buf evs sent s Hk Hi Hl Hb.
  - exists buf. cbn. rewrite app_nil_r. auto.
  - destruct bitmap as [|received bitmap]; [exists buf; cbn; rewrite app_nil_r; auto|].
    apply Forall_cons_iff in Hk as [Hk0 Hk]. cbn [length] in Hl. cbn [send_unreceived requests].
    destruct received.
    + destruct (IH (idx + 1) bitmap buf evs sent s) as (buf' & L & E); [exact Hk|lia|lia|exact Hb|].
      exists buf'. split; [exact L|exact E].
    + destruct (send_loadsnapshot_ok k idx buf evs sent s Hk0 ltac:(unfold is_u16; lia) Hb) as (b1 & L1 & E1).
      destruct (IH (idx + 1) bitmap b1 evs (sent ++ [(SnReflector, load_wire LOADSNAPSHOTDATA_INSWITCH k idx)]) s)
        as (buf' & L & E); [exact Hk|lia|lia|exact L1|].
      exists buf'. split; [exact L|]. unfold mbind, sn_bind. rewrite E1, E. now rewrite <- app_assoc.
Qed.

(** ** Progress of the loop *)

Definition received_num (bitmap : list bool) : nat := length (List.filter id bitmap).

Lemma received_num_all bitmap : received_num bitmap = length bitmap -> forall i, (i < length bitmap)%nat -> bitmap !! i = Some true.
Proof.
  unfold received_num. induction bitmap as [|b bitmap IH]; cbn; intros E i Hi; [lia|].
  pose proof (List.filter_length_le id bitmap). destruct b; cbn in E; [|lia]. destruct i; [reflexivity|]. apply IH; lia.
Qed.

Lemma received_num_full bitmap : (forall i, (i < length bitmap)%nat -> bitmap !! i = Some true) -> received_num bitmap = length bitmap.
Proof.
  unfold received_num. induction bitmap as [|b bitmap IH]; intros H; [reflexivity|].
  pose proof (H 0%nat ltac:(cbn; lia)) as [= ->]. cbn [List.filter id length]. f_equal. apply IH.
  intros i Hi. apply (H (S i)). cbn. lia.
Qed.

Lemma received_num_le bitmap : (received_num bitmap <= length bitmap)%nat.
Proof. apply List.filter_length_le. Qed.

Lemma received_num_set bitmap i : bitmap !! i = Some false -> received_num (<[i := true]> bitmap) = S (received_num bitmap).
Proof.
  unfold received_num. revert i. induction bitmap as [|b bitmap IH]; intros [|i] Hi; try discriminate.
  - now injection Hi as ->.
  - change (<[S i := true]> (b :: bitmap)) with (b :: <[i := true]> bitmap).
    cbn in Hi. destruct b; cbn [List.filter id length]; now rewrite (IH i Hi).
Qed.

(** The records so far: [done] are the answers taken. *)
Record load_state (data : list SnapshotRecord) (bitmap : list bool) (done : list load_arrival) : Prop := {
  ls_data : length data = count;
  ls_bitmap : length bitmap = count;
  ls_at : forall i, (i < count)%nat ->
    match first_answer i done with
    | None => bitmap !! i = Some false
    | Some r => bitmap !! i = Some true /\ data !! i = Some r
    end
}.

Lemma first_answer_app i l1 l2 :
  first_answer i (l1 ++ l2) = match first_answer i l1 with Some r => Some r | None => first_answer i l2 end.
Proof. induction l1 as [|[|j r sh tok z rest addr] l1 IH]; cbn; [reflexivity|exact IH|]. now destruct (Nat.eqb j i). Qed.

Context (Hcount : (count <= length keys)%nat) (H16 : Z.of_nat (length keys) <= 2 ^ 16) (Hkeys : Forall key_wf keys).

(** One answer. *)
Lemma store_loaded_ok data bitmap done i r sh tok z rest addr :
  load_state data bitmap done -> (i < count)%nat ->
  exists data' bitmap', store_loaded keys (case1_of LOADSNAPSHOTDATA_INSWITCH_ACK (entry_key i) r (Z.of_nat i))
      (data, bitmap, received_num bitmap) = Ok (data', bitmap', received_num bitmap') /\
    load_state data' bitmap' (done ++ [LAck i r sh tok z rest addr]).
Proof using Hcount.
  intros [Hd Hb Ha] Hi. unfold store_loaded. cbn [case1_of ic_idx ic_put qs_base qs_val qs_seq ic_stat p_key Packet_new].
  rewrite (proj2 (arr_get_Ok keys (Z.of_nat i) (entry_key i))) by (rewrite Nat2Z.id; apply entry_key_lookup; lia).
  cbn [mbind res_bind]. rewrite bool_decide_eq_true_2 by reflexivity. cbn [INVARIANT mbind res_bind].
  pose proof (Ha i Hi) as Hai.
  destruct (first_answer i done) as [r0|] eqn:E.
  - destruct Hai as [Hbi Hdi]. rewrite (proj2 (arr_get_Ok bitmap (Z.of_nat i) true)) by (now rewrite Nat2Z.id).
    cbn [mbind res_bind]. exists data, bitmap. split; [reflexivity|]. split; [exact Hd|exact Hb|].
    intros j Hj. rewrite first_answer_app. cbn [first_answer]. specialize (Ha j Hj).
    destruct (first_answer j done) eqn:Ej; [exact Ha|]. destruct (Nat.eqb_spec i j) as [->|]; [congruence|exact Ha].
  - rewrite (proj2 (arr_get_Ok bitmap (Z.of_nat i) false)) by (now rewrite Nat2Z.id).
    cbn [mbind res_bind]. rewrite Nat2Z.id, <- (received_num_set bitmap i Hai).
    eexists _, _. split; [reflexivity|]. split; [now rewrite length_insert|now rewrite length_insert|].
    intros j Hj. rewrite first_answer_app. cbn [first_answer]. specialize (Ha j Hj).
    destruct (Nat.eqb_spec i j) as [<-|Hij].
    + rewrite E, !list_lookup_insert_eq by lia. split; [reflexivity|]. now destruct r.
    + rewrite !list_lookup_insert_ne by exact Hij. destruct (first_answer j done); exact Ha.
Qed.

Lemma all_answered data bitmap done :
  load_state data bitmap done -> (forall i, (i < count)%nat -> is_Some (first_answer i done)) ->
  received_num bitmap = count.
Proof.
  intros [Hd Hb Ha] H. rewrite <- Hb. apply received_num_full. intros i Hi. rewrite Hb in Hi.
  specialize (Ha i Hi). destruct (H i Hi) as [r Hr]. rewrite Hr in Ha. apply Ha.
Qed.

Lemma load_state_timeout data bitmap done : load_state data bitmap done -> load_state data bitmap (done ++ [LTimeout]).
Proof.
  intros [Hd Hb Ha]. split; [exact Hd|exact Hb|]. intros i Hi. rewrite first_answer_app. cbn.
  specialize (Ha i Hi). now destruct (first_answer i done).
Qed.

Lemma answer_read i r sh tok z more buf :
  (i < count)%nat -> wire_record_wf (entry_key i, r) -> (length (ack_bytes i r sh tok z ++ more) <= buf_len)%nat ->
  length buf = buf_len ->
  run_reader (LoadsnapshotdataInswitchAck_parse CURMETHOD_ID (recv_size buf (ack_bytes i r sh tok z ++ more)))
    (recv_into buf (ack_bytes i r sh tok z ++ more)) = Ok (case1_of LOADSNAPSHOTDATA_INSWITCH_ACK (entry_key i) r (Z.of_nat i)).
Proof using Hcount H16.
  intros Hi Hr Hlen Hb. change CURMETHOD_ID with FARREACH_ID. unfold ack_bytes in *.
  apply (received_read (LoadsnapshotdataInswitchAck_parse FARREACH_ID)); [now rewrite Hb|].
  assert (Hi16 : is_u16 (Z.of_nat i)) by (unfold is_u16; lia).
  refine (snap_ack_reads (entry_key i) r (Z.of_nat i) sh tok z _ Hr Hi16 _).
  pose proof buf_len_eq as Hm. unfold MAX_BUFSIZE in Hm. rewrite length_app in *. lia.
Qed.

Lemma load_step fuel l l' bytes addr buf evs sent s ack :
  run_reader (LoadsnapshotdataInswitchAck_parse CURMETHOD_ID (recv_size buf bytes)) (recv_into buf bytes) = Ok ack ->
  store_loaded keys ack l = Ok l' ->
  load_wait (S fuel) keys count l (with_io buf (Dgram bytes addr :: evs) sent s)
    = (if (count <=? l'.2)%nat then mret l'.1.1 else load_wait fuel keys count l')
        (with_io (recv_into buf bytes) evs sent s).
Proof.
  intros Hp Hl. cbn [load_wait]. unfold mbind at 1, sn_bind at 1. cbn [recv_reflector with_io sn_reflector_sock sn_pktbuf].
  unfold mbind, sn_bind, parse_reflector. cbn [sn_pktbuf with_io]. rewrite Hp. cbn [mbind res_bind].
  unfold sn_lift. now rewrite Hl.
Qed.

Lemma load_wait_ok rest s l : forall fuel buf sent data bitmap done,
  load_state data bitmap done -> (received_num bitmap < count)%nat -> Forall load_arrival_ok l ->
  (forall i, (i < count)%nat -> is_Some (first_answer i (done ++ l))) -> (length l < fuel)%nat -> length buf = buf_len ->
  exists l2 data' buf' out, l2 `suffix_of` l /\ length buf' = buf_len /\ length data' = count /\
    load_wait fuel keys count (data, bitmap, received_num bitmap) (with_io buf (map load_event l ++ rest) sent s)
      = Ok (data', with_io buf' (map load_event l2 ++ rest) (sent ++ out) s) /\
    forall i, (i < count)%nat -> data' !! i = first_answer i (done ++ l).
Proof using Hcount H16 Hkeys.
  induction l as [|a l IH]; intros fuel buf sent data bitmap done Hs Hn Hl Hall Hf Hb.
  - rewrite app_nil_r in Hall. rewrite (all_answered _ _ _ Hs Hall) in Hn. lia.
  - destruct fuel as [|fuel]; [cbn in Hf; lia|]. cbn [length] in Hf. apply Forall_cons_iff in Hl as [Ha Hl].
    replace (done ++ a :: l) with ((done ++ [a]) ++ l) in * by (now rewrite <- app_assoc).
    destruct a as [|i r sh tok z more addr]; cbn [map load_event app].
    + destruct (send_unreceived_ok keys 0 bitmap buf (map load_event l ++ rest) sent s)
        as (b1 & L1 & E1); [exact Hkeys|lia|lia|exact Hb|].
      destruct (IH fuel b1 (sent ++ requests 0 keys bitmap) data bitmap (done ++ [LTimeout]))
        as (l2 & data' & buf' & out & Hsuf & Lb & Ld & E & Hd);
        [now apply load_state_timeout|exact Hn|exact Hl|exact Hall|lia|exact L1|].
      exists l2, data', buf', (requests 0 keys bitmap ++ out).
      split; [now apply suffix_cons_r|]. split; [exact Lb|]. split; [exact Ld|]. split; [|exact Hd].
      rewrite app_assoc. rewrite <- E. cbn [load_wait]. unfold mbind, sn_bind. cbn [recv_reflector with_io sn_reflector_sock].
      unfold with_io in E1. cbn in E1 |- *. now rewrite E1.
    + destruct Ha as (Hi & Hr & Hlen).
      destruct (store_loaded_ok data bitmap done i r sh tok z more addr Hs Hi) as (data1 & bitmap1 & E1 & Hs1).
      pose proof (answer_read i r sh tok z more buf Hi Hr Hlen Hb) as Hp.
      set (buf1 := recv_into buf (ack_bytes i r sh tok z ++ more)) in *.
      assert (L1 : length buf1 = buf_len) by (unfold buf1; now rewrite length_recv_into).
      rewrite (load_step fuel _ _ _ addr buf _ sent s _ Hp E1). fold buf1. cbn [fst snd].
      destruct (Nat.leb_spec count (received_num bitmap1)) as [Hdone|Hmore].
      * exists l, data1, buf1, []. rewrite app_nil_r.
        split; [now exists [LAck i r sh tok z more addr]|]. split; [exact L1|]. split; [apply Hs1|]. split.
        -- reflexivity.
        -- intros j Hj. destruct Hs1 as [Hd1 Hb1 Ha1]. specialize (Ha1 j Hj). rewrite first_answer_app.
           assert (Hfull : bitmap1 !! j = Some true).
           { apply received_num_all; [|lia]. pose proof (received_num_le bitmap1). lia. }
           destruct (first_answer j (done ++ _)); [apply Ha1|congruence].
      * destruct (IH fuel buf1 sent data1 bitmap1 (done ++ [LAck i r sh tok z more addr]))
          as (l2 & data' & buf' & out & Hsuf & Lb & Ld & E & Hd);
          [exact Hs1|exact Hmore|exact Hl|exact Hall|lia|exact L1|].
        exists l2, data', buf', out. split; [now apply suffix_cons_r|]. split; [exact Lb|]. split; [exact Ld|]. split; [exact E|exact Hd].
Qed.

End Load.

(** C15: the records of a pipeline are loaded whatever the network does with the
    exchange: requests for all entries go out first; timeouts, repeated and
    reordered answers are tolerated, every timeout asks again for what is
    missing, and as soon as every entry in use was answered the loop ends with,
    per entry, the first answer, and leaves the later datagrams in the socket. *)
Theorem snapshot_records_loaded {M} (sc : SnConfig) (b : Backup M) (keys : list Key) (l : list load_arrival)
    (rest : list event) (s : Snap) :
  let count := Z.to_nat (cached_empty_index_backup b) in
  cached_keyarray_backup b = Some keys -> Z.of_nat (length keys) <= 2 ^ 16 -> Forall key_wf keys ->
  (0 < count <= length keys)%nat ->
  Forall (load_arrival_ok keys count) l -> (forall i, (i < count)%nat -> is_Some (first_answer i l)) ->
  length (sn_pktbuf s) = buf_len -> sn_reflector_sock s = map (load_event keys) l ++ rest ->
  exists rs l2 buf out,
    load_pipe sc b s = Ok (Some rs, with_io buf (map (load_event keys) l2 ++ rest)
                                      (sn_sent s ++ requests 0 keys (replicate count false) ++ out) s) /\
    l2 `suffix_of` l /\ length rs = count /\ (forall i, (i < count)%nat -> rs !! i = first_answer i l).
Proof.
  intros count Hk H16 Hwf Hc Hl Hall Hb Hs. unfold load_pipe. rewrite (proj2 (Z.ltb_lt _ _)) by lia. rewrite Hk. fold count.
  rewrite (proj2 (Nat.leb_le _ _)) by lia.
  destruct (send_unreceived_ok keys 0 (replicate count false) (sn_pktbuf s) (sn_reflector_sock s) (sn_sent s) s)
    as (b1 & L1 & E1); [exact Hwf|lia|lia|exact Hb|]. rewrite with_io_id in E1.
  unfold mbind, sn_bind. rewrite E1. cbn [with_io sn_reflector_sock]. rewrite Hs.
  assert (H0 : load_state count (replicate count (sn_uninit sc)) (replicate count false) []).
  { split; [apply length_replicate..|]. intros i Hi. cbn [first_answer]. now apply lookup_replicate_2. }
  assert (Hn : received_num (replicate count false) = 0%nat) by (clear; induction count; auto).
  destruct (load_wait_ok keys count ltac:(lia) H16 Hwf rest s l (S (length (map (load_event keys) l ++ rest))) b1
    (sn_sent s ++ requests 0 keys (replicate count false)) _ _ [] H0) as (l2 & rs & buf & out & Hsuf & _ & Ld & E & Hd);
    [lia|exact Hl|exact Hall|rewrite length_app, length_map; lia|exact L1|].
  rewrite Hn in E. exists rs, l2, buf, out. rewrite app_assoc. split; [|auto]. unfold with_io in E |- *. cbn in E |- *.
  now rewrite E.
Qed.

(** The configuration of an example: two entries, two servers behind one pipeline,
    one sampled entry. *)
Definition demo_os_config : OsConfig := mkOsConfig 2 1 [[0; 1]] [0] 5000 2 20 21 22 23 0.
Definition demo_sn_config : SnConfig :=
  mkSnConfig 1 2 3 4 5 6 7 8 9 10 31 32 33 34 35 36 37 38 39 40 SnapshotRecord_default.

(** A timeout, then the second entry twice and the first one. *)
Definition demo_arrivals : list load_arrival :=
  [LTimeout; LAck 1 (demo_record 9 false) 0 0 0 [] sockaddr_zero; LAck 1 (demo_record 5 true) 1 2 3 [7] sockaddr_zero;
   LAck 0 (demo_record 7 true) 0 0 0 [] sockaddr_zero; LAck 0 (demo_record 8 true) 0 0 0 [] sockaddr_zero].

Definition demo_load_backup : Backup unit := mkBackup (Some [key_of 1; key_of 2; key_of 3]) (Some [0; 0; 0]) 2 None.

Definition demo_load_snap : Snap :=
  mkSnap SnRecv false 7 3 [None] [] [] [] (replicate buf_len 0) demo_large_array []
    (map (load_event [key_of 1; key_of 2; key_of 3]) demo_arrivals) [].

Lemma demo_load_arrivals_ok : Forall (load_arrival_ok [key_of 1; key_of 2; key_of 3] 2) demo_arrivals.
Proof.
  pose proof buf_len_eq as Hb. unfold MAX_BUFSIZE in Hb.
  assert (Hack : forall i n seq st sh tok z more addr, (i < 2)%nat -> entry_key [key_of 1; key_of 2; key_of 3] i = key_of n ->
    is_u32 n -> is_u32 seq -> (length more < 10)%nat ->
    load_arrival_ok [key_of 1; key_of 2; key_of 3] 2 (LAck i (demo_record seq st) sh tok z more addr)).
  { intros i n seq st sh tok z more addr Hi Hk Hn Hs Hm. cbn [load_arrival_ok]. split; [exact Hi|].
    rewrite Hk. split; [now apply demo_record_wf|]. unfold ack_bytes, snap_ack. rewrite Hk.
    rewrite !length_app, length_fr_hdr, length_val_wire, !length_be. cbn [sr_val demo_record].
    replace (val_wire_size demo_val) with (length (val_wire demo_val)) by apply length_val_wire.
    change (length (val_wire demo_val)) with 10%nat. cbn [length]. lia. }
  apply List.Forall_forall. intros a [<-|[<-|[<-|[<-|[<-|[]]]]]]; [exact I|..]; (eapply Hack; [lia|reflexivity|unfold is_u32; lia|unfold is_u32; lia|cbn; lia]).
Qed.

Lemma snapshot_records_loaded_witness :
  exists rs l2 buf out,
    load_pipe demo_sn_config demo_load_backup demo_load_snap = Ok (Some rs, with_io buf
        (map (load_event [key_of 1; key_of 2; key_of 3]) l2 ++ [])
        ([] ++ requests 0 [key_of 1; key_of 2; key_of 3] (replicate 2 false) ++ out) demo_load_snap) /\
    l2 `suffix_of` demo_arrivals /\ length rs = 2%nat /\
    (forall i, (i < 2)%nat -> rs !! i = first_answer i demo_arrivals).
Proof.
  apply (snapshot_records_loaded demo_sn_config demo_load_backup [key_of 1; key_of 2; key_of 3] demo_arrivals [] demo_load_snap).
  - reflexivity.
  - cbn. lia.
  - repeat constructor; cbn; lia.
  - cbn. lia.
  - exact demo_load_arrivals_ok.
  - intros i Hi. destruct i as [|[|]]; [eexists; reflexivity..|cbn in Hi; lia].
  - apply length_replicate.
  - now rewrite app_nil_r.
Defined.
