(* ===== verification/SwitchRollback.v ===== *)
(** * Special cases and rollback

    While a snapshot is taken the data plane goes on changing records, and
    reports the version a change replaces.  [reports_closest]: what is kept per
    entry is the reported version closest to the time point of the snapshot.
    [rollback_ok]: after the rollback an entry has that version, or the loaded one
    if nothing was reported. *)

From Stdlib Require Import ZArith Lia List.
From stdpp Require Import base tactics list numbers option gmap.
From S2P Require Import Prelude Cursor DynamicArray StdMap Crc32 Key Val DeletedSet KVStore RocksdbWrapper Packet PacketCodec PacketCache PacketScan PacketServer Outband Fragment Reassembly PktRingBuffer RecvLarge RecvSpec RecvProps MessageQueue PacketSwitch Server RecvClient SwitchOS SwitchMeta SwitchSnapshot SwitchLoad.

Open Scope Z_scope.
Set Default Proof Using "Type".

(** ** A finite map as the map of special cases *)

Definition case_map : Type := gmap Z SpecialCase.

#[global] Instance gmap_special : SpecialMap case_map := {
  sm_empty := (∅ : gmap Z SpecialCase);
  sm_get i m := (m : gmap Z SpecialCase) !! i;
  sm_insert i c m := <[i := c]> (m : gmap Z SpecialCase);
  sm_update i c m := if decide (is_Some ((m : gmap Z SpecialCase) !! i)) then (true, <[i := c]> (m : gmap Z SpecialCase)) else (false, m);
  sm_pairs m := map_to_list (m : gmap Z SpecialCase)
}.

#[global] Instance gmap_special_laws : SpecialMapLaws case_map.
Proof.
  split; cbn.
  - intros i. apply lookup_empty.
  - intros i j c m _. destruct (decide (i = j)) as [->|Hd]; [apply lookup_insert_eq|now apply lookup_insert_ne].
  - intros i j c m Hi. rewrite decide_True by exact Hi. cbn. split; [reflexivity|].
    destruct (decide (i = j)) as [->|Hd]; [apply lookup_insert_eq|now apply lookup_insert_ne].
  - intros i c m. apply elem_of_map_to_list.
  - intros m. apply NoDup_fst_map_to_list.
Qed.

(** ** Reports *)

Record report := mkReport {
  rp_idx : Z;
  rp_key : Key;
  rp_record : SnapshotRecord
}.

(** The report the switch OS keeps for an entry: the first of those with the
    smallest sequence number. *)
Definition closer (old : option SnapshotRecord) (r : SnapshotRecord) : option SnapshotRecord :=
  match old with
  | None => Some r
  | Some o => if sr_seq r <? sr_seq o then Some r else Some o
  end.

Definition concerns (idx : Z) (key : Key) (r : report) : bool :=
  (rp_idx r =? idx) && bool_decide (rp_key r = key).

Definition closest_from (idx : Z) (key : Key) (old : option SnapshotRecord) (rs : list report) : option SnapshotRecord :=
  foldl (fun o r => if concerns idx key r then closer o (rp_record r) else o) old rs.
Definition closest (idx : Z) (key : Key) (rs : list report) : option SnapshotRecord := closest_from idx key None rs.

(** [closest] is a report of the entry, none is closer, and it is missing only if
    there is none. *)
Lemma closest_from_spec idx key rs : forall old,
  match closest_from idx key old rs with
  | None => old = None /\ forall r, r ∈ rs -> concerns idx key r = false
  | Some c =>
      (Some c = old \/ exists r, r ∈ rs /\ concerns idx key r = true /\ c = rp_record r) /\
      (forall o, old = Some o -> sr_seq c <= sr_seq o) /\
      forall r, r ∈ rs -> concerns idx key r = true -> sr_seq c <= sr_seq (rp_record r)
  end.
Proof.
  unfold closest_from. induction rs as [|r rs IH]; intros old; cbn [foldl].
  - destruct old as [o|]; [|split; [reflexivity|intros r Hr; now apply not_elem_of_nil in Hr]].
    split; [auto|]. split; [intros o' [= ->]; lia|]. intros r Hr. now apply not_elem_of_nil in Hr.
  - specialize (IH (if concerns idx key r then closer old (rp_record r) else old)). revert IH.
    destruct (concerns idx key r) eqn:Hc, (foldl _ _ rs) as [c|]; intros IH.
    + destruct IH as (H1 & H2 & H3). setoid_rewrite elem_of_cons.
      assert (Hr : sr_seq c <= sr_seq (rp_record r) /\ forall o, old = Some o -> sr_seq c <= sr_seq o).
      { unfold closer in H2. destruct old as [o|].
        - destruct (sr_seq (rp_record r) <? sr_seq o) eqn:E; specialize (H2 _ eq_refl); (split; [lia|intros ? [= <-]; lia]).
        - split; [now apply H2|discriminate]. }
      split; [|split; [exact (proj2 Hr)|]].
      * destruct H1 as [H1|(r' & ? & ? & ?)]; [|right; eauto 6].
        unfold closer in H1. destruct old as [o|]; [destruct (_ <? _)|]; injection H1 as ->; eauto 6.
      * intros r' [->|Hr'] Hc'; [exact (proj1 Hr)|eauto].
    + destruct IH as [E _]. unfold closer in E. destruct old; [destruct (_ <? _)|]; discriminate.
    + destruct IH as (H1 & H2 & H3). setoid_rewrite elem_of_cons.
      split; [destruct H1 as [|(r' & ? & ? & ?)]; eauto 6|]. split; [exact H2|]. intros r' [->|Hr'] Hc'; [congruence|eauto].
    + destruct IH as [-> H]. split; [reflexivity|]. intros r' [->|Hr']%elem_of_cons; auto.
Qed.

Section Rollback.
Context {M : Type} `{Hsm : SpecialMap M, !SpecialMapLaws M}.
Context (cfg : OsConfig).

Definition case_of (key : Key) (r : SnapshotRecord) : SpecialCase :=
  mkSpecialCase key (sr_val r) (sr_seq r) (sr_stat r).

(** A pipeline whose backup is complete. *)
Record backup_ok (b : Backup M) (ks : list Key) (m : M) : Prop := {
  bo_keys : cached_keyarray_backup b = Some ks;
  bo_map : specialcases_ptr b = Some m;
  bo_len : length ks = Z.to_nat (switch_kv_bucket_num cfg);
  bo_empty : 0 <= cached_empty_index_backup b <= switch_kv_bucket_num cfg
}.

Definition backups_ok (bs : list (Backup M)) : Prop := Forall (fun b => exists ks m, backup_ok b ks m) bs.

(** Entry [idx] of pipeline [n] was used by [key] when the backup was made. *)
Definition backed_up (bs : list (Backup M)) (n : nat) (idx : Z) (key : Key) : Prop :=
  exists b ks, bs !! n = Some b /\ cached_keyarray_backup b = Some ks /\
    0 <= idx < cached_empty_index_backup b /\ ks !! Z.to_nat idx = Some key.

(** No other pipeline has the key at the same index. *)
Definition unambiguous (bs : list (Backup M)) : Prop :=
  forall n n' idx key b' ks', backed_up bs n idx key ->
    bs !! n' = Some b' -> cached_keyarray_backup b' = Some ks' -> ks' !! Z.to_nat idx = Some key -> n' = n.

(** The special case of an entry. *)
Definition case_at (bs : list (Backup M)) (n : nat) (idx : Z) : option SpecialCase :=
  b ← bs !! n; m ← specialcases_ptr b; sm_get idx m.

Lemma update_case_ok m idx key old r :
  sm_get idx m = case_of key <$> old ->
  exists m', update_case m idx key (sr_val r) (sr_seq r) (sr_stat r) = Ok m' /\
    forall j, sm_get j m' = if decide (idx = j) then case_of key <$> closer old r else sm_get j m.
Proof using All.
  intros Hg. unfold update_case. rewrite Hg. destruct old as [o|]; cbn [fmap option_fmap option_map closer].
  - cbn [case_of sc_seq sc_key]. destruct (sr_seq r <? sr_seq o).
    + rewrite bool_decide_eq_true_2 by reflexivity. cbn [INVARIANT mbind res_bind].
      assert (HU := fun j => sm_get_update idx j (case_of key r) m ltac:(rewrite Hg; eauto)).
      assert (E1 := proj1 (HU 0)). assert (E2 := fun j => proj2 (HU j)).
      fold (case_of key r). destruct (sm_update idx (case_of key r) m) as [res m'] eqn:E. cbn in E1, E2. subst res.
      exists m'. split; [reflexivity|exact E2].
    + exists m. split; [reflexivity|]. intros j. destruct (decide (idx = j)) as [<-|]; [exact Hg|reflexivity].
  - eexists. split; [reflexivity|]. intros j. rewrite sm_get_insert by exact Hg. reflexivity.
Qed.

(** What a report cannot change. *)
Definition frozen (b : Backup M) : option (list Key) * option (list Z) * Z :=
  (cached_keyarray_backup b, cached_serveridxarray_backup b, cached_empty_index_backup b).

Lemma frozen_lookup bs bs' n b' : map frozen bs' = map frozen bs -> bs' !! n = Some b' ->
  exists b, bs !! n = Some b /\ frozen b' = frozen b.
Proof.
  intros E Hn. assert (H : (frozen <$> bs') !! n = (frozen <$> bs) !! n) by (now f_equal).
  rewrite !list_lookup_fmap, Hn in H. destruct (bs !! n) as [b|]; [|discriminate]. injection H as E1 E2 E3.
  exists b. split; [reflexivity|]. unfold frozen. congruence.
Qed.

Lemma frozen_backed_up bs bs' n i k : map frozen bs' = map frozen bs -> backed_up bs' n i k -> backed_up bs n i k.
Proof.
  intros E (b' & ks & Hb & Hk & Hi & Hkey). destruct (frozen_lookup _ _ _ _ E Hb) as (b & Eb & [= E1 E2 E3]).
  exists b, ks. now rewrite <- E1, <- E3.
Qed.

Lemma frozen_unambiguous bs bs' : map frozen bs' = map frozen bs -> unambiguous bs -> unambiguous bs'.
Proof.
  intros E Hu n n' i k b' ks' Hb Hn' Hk' Hkey. destruct (frozen_lookup _ _ _ _ E Hn') as (b & Eb & [= E1 E2 E3]).
  eapply (Hu n n' i k b ks'); [eapply frozen_backed_up; eauto|exact Eb|congruence|exact Hkey].
Qed.

Lemma frozen_set n b m bs : bs !! n = Some b -> map frozen (<[n := set_specialcases m b]> bs) = map frozen bs.
Proof.
  intros Hn. change (map frozen ?l) with (frozen <$> l). rewrite list_fmap_insert. apply list_insert_id.
  now rewrite list_lookup_fmap, Hn.
Qed.

(** Per used entry, the map has the closest of the reports. *)
Definition tracks (bs : list (Backup M)) (rs : list report) : Prop :=
  forall n i k, backed_up bs n i k -> case_at bs n i = case_of k <$> closest i k rs.

Lemma closest_snoc i k rs r :
  closest i k (rs ++ [r]) = if concerns i k r then closer (closest i k rs) (rp_record r) else closest i k rs.
Proof. unfold closest, closest_from. now rewrite foldl_app. Qed.

Lemma find_backup_spec idx key bs : forall i, backups_ok bs -> 0 <= idx < switch_kv_bucket_num cfg ->
  exists o, find_backup idx key i bs = Ok o /\
    match o with
    | Some j => exists n b ks, j = (i + n)%nat /\ bs !! n = Some b /\ cached_keyarray_backup b = Some ks /\
                               ks !! Z.to_nat idx = Some key
    | None => forall n b ks, bs !! n = Some b -> cached_keyarray_backup b = Some ks -> ks !! Z.to_nat idx <> Some key
    end.
Proof.
  induction bs as [|b bs IH]; intros i Hb Hi; cbn [find_backup].
  - eexists. split; [reflexivity|]. intros n b ks Hn. discriminate Hn.
  - apply Forall_cons_iff in Hb as [(ks & m & [Ek Em El _]) Hb]. rewrite Em, Ek. unfold arr_get.
    destruct (lookup_lt_is_Some_2 ks (Z.to_nat idx)) as [k Hk]; [lia|]. rewrite Hk. cbn [mbind res_bind].
    destruct (decide (k = key)) as [->|Hd].
    + rewrite bool_decide_eq_true_2 by reflexivity. eexists. split; [reflexivity|].
      exists 0%nat, b, ks. rewrite Nat.add_0_r. auto.
    + rewrite bool_decide_eq_false_2 by exact Hd. destruct (IH (S i) Hb Hi) as (o & E & Ho).
      exists o. split; [exact E|]. destruct o as [j|].
      * destruct Ho as (n & b' & ks' & -> & Hn & Hks). exists (S n), b', ks'. rewrite Nat.add_succ_r. auto.
      * intros [|n] b' ks' Hn Hks; [|eauto]. cbn in Hn. congruence.
Qed.

Lemma concerns_iff i k r : concerns i k r = true <-> rp_idx r = i /\ rp_key r = k.
Proof. unfold concerns. rewrite andb_true_iff, bool_decide_eq_true, Z.eqb_eq. tauto. Qed.

Lemma tracks_other bs rs r : tracks bs rs ->
  (forall n, ~ backed_up bs n (rp_idx r) (rp_key r)) -> tracks bs (rs ++ [r]).
Proof.
  intros Ht Hno n i k Hb. rewrite closest_snoc. destruct (concerns i k r) eqn:Hc; [|auto].
  apply concerns_iff in Hc as [<- <-]. now destruct (Hno n).
Qed.

Lemma tracks_update bs rs n b ks m m' idx key r :
  unambiguous bs -> tracks bs rs -> bs !! n = Some b -> cached_keyarray_backup b = Some ks ->
  specialcases_ptr b = Some m -> ks !! Z.to_nat idx = Some key ->
  (forall j, sm_get j m' = if decide (idx = j) then case_of key <$> closer (closest idx key rs) r else sm_get j m) ->
  map frozen (<[n := set_specialcases m' b]> bs) = map frozen bs ->
  tracks (<[n := set_specialcases m' b]> bs) (rs ++ [mkReport idx key r]).
Proof.
  intros Hu Ht Hn Hk Em Hkey Hm' Ef.
  intros n2 i2 k2 H2. apply (frozen_backed_up _ _ _ _ _ Ef) in H2. rewrite closest_snoc. cbn [rp_record].
  unfold case_at. destruct (decide (n = n2)) as [<-|Hd].
  + rewrite list_lookup_insert_eq by eauto using lookup_lt_Some. cbn. rewrite Hm'.
    destruct H2 as (b2 & ks2 & Hb2 & Hk2 & Hi2 & Hkey2). assert (b2 = b) as -> by congruence.
    assert (ks2 = ks) as -> by congruence.
    destruct (decide (idx = i2)) as [<-|Hd].
    * assert (k2 = key) as -> by congruence. now rewrite (proj2 (concerns_iff idx key (mkReport idx key r))).
    * destruct (concerns i2 k2 _) eqn:Hc2; [apply concerns_iff in Hc2 as [E _]; cbn in E; congruence|].
      rewrite <- (Ht n i2 k2) by (exists b, ks; auto). unfold case_at. rewrite Hn. cbn. rewrite Em. reflexivity.
  + rewrite list_lookup_insert_ne by exact Hd.
    destruct (concerns i2 k2 _) eqn:Hc2; [|now apply Ht].
    apply concerns_iff in Hc2 as [<- <-]. cbn in H2. destruct Hd. eapply (Hu n2 n); eauto.
Qed.

(** One report. *)
Lemma process_specialcase_ok bs rs idx key r :
  backups_ok bs -> unambiguous bs -> tracks bs rs -> 0 <= idx < switch_kv_bucket_num cfg ->
  exists bs', process_specialcase cfg bs idx key (sr_val r) (sr_seq r) (sr_stat r) = Ok bs' /\
    map frozen bs' = map frozen bs /\ backups_ok bs' /\ tracks bs' (rs ++ [mkReport idx key r]).
Proof using All.
  intros Hok Hu Ht Hi. unfold process_specialcase. rewrite INVARIANT_true by lia. cbn [mbind res_bind].
  destruct (find_backup_spec idx key bs 0 Hok Hi) as (o & -> & Ho). cbn [mbind res_bind].
  destruct o as [j|]; [|].
  2: { exists bs. split; [reflexivity|]. split; [reflexivity|]. split; [exact Hok|]. apply tracks_other; [exact Ht|].
       intros n (b & ks & Hb & Hk & _ & Hkey). exact (Ho n b ks Hb Hk Hkey). }
  destruct Ho as (n & b & ks & -> & Hn & Hk & Hkey). cbn [Nat.add]. rewrite Hn.
  destruct (proj1 (Forall_lookup _ _) Hok n b Hn) as (ks' & m & Hb). pose proof Hb as [Ek Em El Ee].
  assert (ks' = ks) as -> by congruence. rewrite INVARIANT_true, Em by lia. cbn [mbind res_bind].
  destruct (idx <? cached_empty_index_backup b) eqn:Hlt.
  - assert (Hbu : backed_up bs n idx key) by (exists b, ks; repeat split; [exact Hn|exact Hk|lia|lia|exact Hkey]).
    pose proof (Ht _ _ _ Hbu) as Hc. unfold case_at in Hc. rewrite Hn in Hc. cbn in Hc. rewrite Em in Hc. cbn in Hc.
    destruct (update_case_ok m idx key _ r Hc) as (m' & -> & Hm'). cbn [mbind res_bind].
    eexists. split; [reflexivity|].
    pose proof (frozen_set n b m' bs Hn) as Ef.
    split; [exact Ef|]. split; [apply Forall_insert; [exact Hok|exists ks, m'; now constructor]|].
    eapply tracks_update; eauto.
  - exists bs. split; [reflexivity|]. split; [reflexivity|]. split; [exact Hok|]. apply tracks_other; [exact Ht|].
    cbn. intros n2 H2. assert (n = n2) as <- by (eapply (Hu n2 n); eauto).
    destruct H2 as (b2 & ks2 & Hb2 & _ & Hi2 & _). assert (b2 = b) as -> by congruence. lia.
Qed.

(** ** All reports *)

(** The special cases are of entries in use, under their keys. *)
Definition placed (bs : list (Backup M)) : Prop :=
  forall n b m i c, bs !! n = Some b -> specialcases_ptr b = Some m -> sm_get i m = Some c ->
    backed_up bs n i (sc_key c).

Lemma find_backup_inv idx key (bs : list (Backup M)) : forall i j, find_backup idx key i bs = Ok (Some j) ->
  exists n b ks, j = (i + n)%nat /\ bs !! n = Some b /\ cached_keyarray_backup b = Some ks /\
    ks !! Z.to_nat idx = Some key.
Proof.
  induction bs as [|b bs IH]; intros i j; cbn [find_backup]; [discriminate|].
  destruct (specialcases_ptr b) as [m|], (cached_keyarray_backup b) as [ks|] eqn:Ek; try discriminate.
  destruct (arr_get ks idx) as [k|] eqn:E; [|discriminate]. cbn [mbind res_bind].
  case_bool_decide as Hk; intros H.
  - injection H as <-. subst. exists 0%nat, b, ks. rewrite Nat.add_0_r. apply arr_get_Ok in E. auto.
  - apply IH in H as (n & b' & ks' & -> & Hn & Hks). exists (S n), b', ks'. rewrite Nat.add_succ_r. auto.
Qed.

Lemma update_case_inv m idx key val seq stat m' : update_case m idx key val seq stat = Ok m' ->
  forall j c, sm_get j m' = Some c -> sm_get j m = Some c \/ (j = idx /\ sc_key c = key).
Proof using All.
  unfold update_case. destruct (sm_get idx m) as [c0|] eqn:E.
  - destruct (seq <? sc_seq c0); [|intros [= ->]; auto]. case_bool_decide as Hk; [|discriminate].
    cbn [INVARIANT mbind res_bind]. set (c1 := mkSpecialCase _ _ _ _).
    pose proof (fun j => proj2 (sm_get_update idx j c1 m ltac:(eauto))) as H.
    destruct (sm_update idx c1 m) as [[] m1]; [|discriminate]. intros [= <-] j c. cbn in H. rewrite H.
    destruct (decide (idx = j)) as [<-|]; [|auto]. intros [= <-]. auto.
  - intros [= <-] j c. rewrite sm_get_insert by exact E. destruct (decide (idx = j)) as [<-|]; [|auto].
    intros [= <-]. auto.
Qed.

(** A report changes at most the map of the pipeline that has the entry. *)
Lemma process_inv bs idx key val seq stat bs' : process_specialcase cfg bs idx key val seq stat = Ok bs' ->
  bs' = bs \/ exists n b m m', bs !! n = Some b /\ specialcases_ptr b = Some m /\ backed_up bs n idx key /\
    update_case m idx key val seq stat = Ok m' /\ bs' = <[n := set_specialcases m' b]> bs.
Proof.
  unfold process_specialcase. intros ([] & Hi%INVARIANT_Ok & H)%bind_Ok. apply bind_Ok in H as ([j|] & Hf & H); [|left; congruence].
  apply find_backup_inv in Hf as (n & b & ks & -> & Hn & Hk & Hkey). cbn [Nat.add] in H. rewrite Hn in H.
  apply bind_Ok in H as ([] & _ & H). destruct (specialcases_ptr b) as [m|] eqn:Em; [|discriminate].
  destruct (idx <? cached_empty_index_backup b) eqn:Hlt; [|left; congruence].
  apply bind_Ok in H as (m' & Hu & [= <-]). right. exists n, b, m, m'. repeat split; try assumption.
  exists b, ks. repeat split; [assumption..|lia|lia|assumption].
Qed.

Lemma process_frozen bs idx key val seq stat bs' : process_specialcase cfg bs idx key val seq stat = Ok bs' ->
  map frozen bs' = map frozen bs.
Proof. intros [->|(n & b & m & m' & Hn & _ & _ & _ & ->)]%process_inv; [reflexivity|now apply frozen_set]. Qed.

Lemma process_placed bs idx key val seq stat bs' : process_specialcase cfg bs idx key val seq stat = Ok bs' ->
  placed bs -> placed bs'.
Proof using All.
  intros H Hp. pose proof (process_frozen _ _ _ _ _ _ _ H) as Ef.
  apply process_inv in H as [->|(n & b & m & m' & Hn & Em & Hb & Hu & ->)]; [exact Hp|].
  intros n2 b2 m2 i c Hn2 Hm2 Hc. apply (frozen_backed_up _ _ _ _ _ (eq_sym Ef)).
  destruct (decide (n = n2)) as [<-|Hd].
  - rewrite list_lookup_insert_eq in Hn2 by eauto using lookup_lt_Some. injection Hn2 as <-. injection Hm2 as <-.
    destruct (update_case_inv _ _ _ _ _ _ _ Hu _ _ Hc) as [Hc'|[-> <-]]; [eapply Hp; eauto|exact Hb].
  - rewrite list_lookup_insert_ne in Hn2 by exact Hd. eapply Hp; eauto.
Qed.

Fixpoint process_reports (bs : list (Backup M)) (rs : list report) : res (list (Backup M)) :=
  match rs with
  | [] => Ok bs
  | r :: rs' =>
      bs' ← process_specialcase cfg bs (rp_idx r) (rp_key r) (sr_val (rp_record r)) (sr_seq (rp_record r))
              (sr_stat (rp_record r));
      process_reports bs' rs'
  end.

Definition report_ok (r : report) : Prop := 0 <= rp_idx r < switch_kv_bucket_num cfg.

Lemma process_reports_ok rs : forall bs done,
  backups_ok bs -> unambiguous bs -> tracks bs done -> placed bs -> Forall report_ok rs ->
  exists bs', process_reports bs rs = Ok bs' /\ map frozen bs' = map frozen bs /\ backups_ok bs' /\
    tracks bs' (done ++ rs) /\ placed bs'.
Proof using All.
  induction rs as [|[i k r] rs IH]; intros bs done Hok Hu Ht Hp Hr; cbn [process_reports].
  - exists bs. now rewrite app_nil_r.
  - apply Forall_cons_iff in Hr as [Hi Hr].
    destruct (process_specialcase_ok bs done i k r Hok Hu Ht Hi) as (bs1 & E1 & F1 & O1 & T1).
    cbn [rp_idx rp_key rp_record]. rewrite E1. cbn [mbind res_bind].
    destruct (IH bs1 (done ++ [mkReport i k r])) as (bs2 & E2 & F2 & O2 & T2 & P2);
      [exact O1|eapply frozen_unambiguous; eauto|exact T1|eapply process_placed; eauto|exact Hr|].
    exists bs2. rewrite <- app_assoc in T2. repeat split; [exact E2|congruence|exact O2|exact T2|exact P2].
Qed.

(** ** Rollback *)

(** The records after the rollback. *)
Definition rolled (m : M) (rs : list SnapshotRecord) : list SnapshotRecord :=
  imap (fun i r => match sm_get (Z.of_nat i) m with Some c => case_record c | None => r end) rs.

Lemma rollback_cases_ok keys pairs : forall rs,
  NoDup (map fst pairs) ->
  (forall i c, (i, c) ∈ pairs -> 0 <= i < Z.of_nat (length rs) /\ keys !! Z.to_nat i = Some (sc_key c)) ->
  exists rs', rollback_cases keys pairs (Some rs) = Ok (Some rs') /\ length rs' = length rs /\
    (forall i c, (i, c) ∈ pairs -> rs' !! Z.to_nat i = Some (case_record c)) /\
    (forall j, (forall c, (Z.of_nat j, c) ∉ pairs) -> rs' !! j = rs !! j).
Proof.
  induction pairs as [|[i c] pairs IH]; intros rs Hnd Hp; cbn [rollback_cases].
  - exists rs. split; [reflexivity|]. split; [reflexivity|]. split; [|reflexivity].
    intros i c H. now apply not_elem_of_nil in H.
  - apply NoDup_cons in Hnd as [Hi Hnd]. destruct (Hp i c) as [Hr Hk]; [left|].
    rewrite (proj2 (arr_get_Ok _ _ _) Hk). cbn [mbind res_bind]. rewrite bool_decide_eq_true_2 by reflexivity.
    destruct (lookup_lt_is_Some_2 rs (Z.to_nat i)) as [r0 Hr0]; [lia|].
    cbn [INVARIANT mbind res_bind]. rewrite (proj2 (arr_get_Ok _ _ _) Hr0). cbn [mbind res_bind].
    destruct (IH (<[Z.to_nat i := case_record c]> rs) Hnd) as (rs' & E & L & H1 & H2).
    { intros j d Hj. rewrite length_insert. apply Hp. now right. }
    rewrite length_insert in L. exists rs'. split; [exact E|]. split; [exact L|]. split.
    + intros j d [Hj|Hj]%elem_of_cons; [|now apply H1]. injection Hj as -> ->.
      rewrite H2; [now rewrite list_lookup_insert_eq by lia|].
      intros d Hd. apply Hi. apply list_elem_of_fmap. exists (i, d). rewrite Z2Nat.id in Hd by lia. auto.
    + intros j Hj. rewrite H2 by (intros d Hd; apply (Hj d); now right).
      apply list_lookup_insert_ne. intros <-. apply (Hj c). rewrite Z2Nat.id by lia. left.
Qed.

Lemma rollback_pipe_ok b ks m rs :
  backup_ok b ks m ->
  (forall i c, sm_get i m = Some c -> 0 <= i < cached_empty_index_backup b /\ ks !! Z.to_nat i = Some (sc_key c)) ->
  length rs = Z.to_nat (cached_empty_index_backup b) ->
  rollback_pipe b (Some rs) = Ok (Some (rolled m rs)).
Proof using All.
  intros [Ek Em El Ee] Hp Hl. unfold rollback_pipe. rewrite Em, Ek.
  destruct (rollback_cases_ok ks (sm_pairs m) rs) as (rs' & E & L & H1 & H2).
  - apply sm_pairs_unique.
  - intros i c Hc%sm_pairs_get. specialize (Hp i c Hc). split; [lia|apply Hp].
  - assert (rs' = rolled m rs) as ->.
    { apply list_eq. intros j. unfold rolled. rewrite list_lookup_imap.
      destruct (sm_get (Z.of_nat j) m) as [c|] eqn:Hc.
      - pose proof (H1 _ c (proj2 (sm_pairs_get _ _ _) Hc)) as Hj. rewrite Nat2Z.id in Hj. rewrite Hj.
        destruct (Hp _ _ Hc). destruct (lookup_lt_is_Some_2 rs j) as [r Hr]; [lia|]. rewrite Hr. cbn. now rewrite ?Hc.
      - rewrite H2; [destruct (rs !! j); cbn; now rewrite ?Hc|]. intros c Hc'%sm_pairs_get. congruence. }
    destruct (sm_pairs m); exact E.
Qed.

(** ** The records sent *)

(** The snapshot of a pipeline: per used entry the closest reported record, or the
    loaded one. *)
Definition snapshot_of (reports : list report) (b : Backup M) (data : option (list SnapshotRecord)) : list InswitchRecord :=
  match cached_serveridxarray_backup b, cached_keyarray_backup b, data with
  | Some sv, Some ks, Some rs =>
      imap (fun i x => mkInswitchRecord x.1.1 x.1.2 (default x.2 (closest (Z.of_nat i) x.1.2 reports)))
        (zip (zip sv ks) (take (Z.to_nat (cached_empty_index_backup b)) rs))
  | _, _, _ => []
  end.

(** The arrays of the loaded records. *)
Definition loaded (b : Backup M) (data : option (list SnapshotRecord)) : Prop :=
  match data with
  | None => cached_empty_index_backup b = 0
  | Some rs => length rs = Z.to_nat (cached_empty_index_backup b)
  end.

(** A pipeline with backup, special cases and loaded records. *)
Record ready (reports : list report) (b : Backup M) (data : option (list SnapshotRecord)) : Prop := {
  rd_backup : exists ks m sv, backup_ok b ks m /\ cached_serveridxarray_backup b = Some sv /\ length sv = length ks /\
    (forall i k, 0 <= i < cached_empty_index_backup b -> ks !! Z.to_nat i = Some k ->
       sm_get i m = case_of k <$> closest i k reports) /\
    (forall i c, sm_get i m = Some c -> 0 <= i < cached_empty_index_backup b /\ ks !! Z.to_nat i = Some (sc_key c));
  rd_loaded : loaded b data
}.

Lemma zip_records_ok rs : forall sv ks, (length rs <= length sv)%nat -> (length rs <= length ks)%nat ->
  zip_records (length rs) sv ks rs = Ok (zip_with (fun x r => mkInswitchRecord x.1 x.2 r) (zip sv ks) rs).
Proof.
  induction rs as [|r rs IH]; intros [|v sv] [|k ks] Hs Hk; cbn [length] in *; try lia; try reflexivity.
  cbn [zip_records zip_with]. rewrite IH by lia. reflexivity.
Qed.

Lemma case_record_of k r : case_record (case_of k r) = r.
Proof. now destruct r. Qed.

Lemma pipe_rolls_back reports b data : ready reports b data ->
  exists d, rollback_pipe b data = Ok d /\ pipe_records b d = Ok (snapshot_of reports b data).
Proof using All.
  intros [(ks & m & sv & Hb & Hsv & Hl & Ht & Hp) Hd]. pose proof Hb as [Ek Em El Ee].
  destruct data as [rs|]; unfold loaded in Hd.
  - exists (Some (rolled m rs)). split; [eapply rollback_pipe_ok; eauto|].
    unfold pipe_records, snapshot_of. rewrite Hsv, Ek, <- Hd, take_ge by lia.
    assert (Hlen : length (rolled m rs) = length rs) by apply length_imap.
    assert (E : zip_with (fun x r => mkInswitchRecord x.1 x.2 r) (zip sv ks) (rolled m rs) =
      imap (fun i x => mkInswitchRecord x.1.1 x.1.2 (default x.2 (closest (Z.of_nat i) x.1.2 reports)))
        (zip (zip sv ks) rs)).
    { apply list_eq. intros j. rewrite list_lookup_imap, !lookup_zip_with.
      destruct (sv !! j) as [v|]; [|reflexivity]. cbn. destruct (ks !! j) as [k|] eqn:Hk; [|reflexivity]. cbn.
      unfold rolled. rewrite list_lookup_imap. destruct (rs !! j) as [r|] eqn:Hr; [|reflexivity]. cbn.
      apply lookup_lt_Some in Hr.
      assert (Hg : sm_get (Z.of_nat j) m = case_of k <$> closest (Z.of_nat j) k reports)
        by (apply Ht; rewrite ?Nat2Z.id; [lia|exact Hk]). rewrite Hg.
      destruct (closest _ _ _); cbn; [now rewrite case_record_of|reflexivity]. }
    destruct (length rs) eqn:Hn.
    + destruct rs; [|discriminate]. now rewrite zip_with_nil_r.
    + rewrite <- E, <- Hlen. apply zip_records_ok; rewrite Hlen; lia.
  - exists None. unfold rollback_pipe, pipe_records, snapshot_of. rewrite Em, Ek, Hd, Hsv. cbn. split; [|reflexivity].
    destruct (sm_pairs m) as [|[i c] l] eqn:Hm; [reflexivity|].
    destruct (Hp i c); [|lia]. apply sm_pairs_get. rewrite Hm. left.
Qed.

Lemma rolls_back reports bs datas : Forall2 (ready reports) bs datas ->
  exists ds, rollback bs datas = Ok ds /\ length ds = length datas /\
    pipes_records bs ds = Ok (zip_with (snapshot_of reports) bs datas).
Proof using All.
  induction 1 as [|b d bs datas Hb Hbs (ds & E1 & L & E2)]; [now exists []|].
  destruct (pipe_rolls_back reports b d Hb) as (d' & R & P).
  exists (d' :: ds). cbn [rollback pipes_records zip_with length]. rewrite R. cbn [mbind res_bind]. rewrite E1. cbn [mbind res_bind].
  rewrite P. cbn [mbind res_bind]. rewrite E2. auto.
Qed.

(** A pipeline after SNAPSHOT_START: no special case yet, the records loaded. *)
Record fresh_pipe (b : Backup M) (data : option (list SnapshotRecord)) : Prop := {
  fp_backup : exists ks sv, backup_ok b ks sm_empty /\ cached_serveridxarray_backup b = Some sv /\ length sv = length ks;
  fp_loaded : loaded b data
}.

Lemma fresh_start bs datas : Forall2 fresh_pipe bs datas -> backups_ok bs /\ tracks bs [] /\ placed bs.
Proof using All.
  intros H.
  assert (He : forall n b, bs !! n = Some b -> exists ks, backup_ok b ks sm_empty).
  { intros n b Hn. destruct (Forall2_lookup_l _ _ _ _ _ H Hn) as (d & _ & [(ks & sv & Hb & _) _]). eauto. }
  split; [|split].
  - apply Forall_lookup. intros n b Hn. destruct (He n b Hn) as [ks Hb]. eauto.
  - intros n i k (b & ks & Hn & _). destruct (He n b Hn) as [ks' Hb]. unfold case_at. rewrite Hn. cbn.
    rewrite (bo_map _ _ _ Hb). apply sm_get_empty.
  - intros n b m i c Hn Hm Hc. destruct (He n b Hn) as [ks' Hb]. rewrite (bo_map _ _ _ Hb) in Hm.
    injection Hm as <-. now rewrite sm_get_empty in Hc.
Qed.

Lemma ready_after bs bs' datas rs : Forall2 fresh_pipe bs datas -> map frozen bs' = map frozen bs ->
  backups_ok bs' -> tracks bs' rs -> placed bs' -> Forall2 (ready rs) bs' datas.
Proof.
  intros H Ef Hok Ht Hp. apply Forall2_same_length_lookup. split.
  { apply Forall2_length in H. apply (f_equal length) in Ef. rewrite !length_map in Ef. lia. }
  intros n b' d Hn Hd. destruct (frozen_lookup _ _ _ _ Ef Hn) as (b & Hb & [= E1 E2 E3]).
  destruct (Forall2_lookup_lr _ _ _ _ _ _ H Hb Hd) as [(ks0 & sv & Hb0 & Hsv & Hl) Hload].
  destruct (proj1 (Forall_lookup _ _) Hok n b' Hn) as (ks & m & Hbk). pose proof Hbk as [Ek Em El Ee].
  assert (ks0 = ks) as -> by (pose proof (bo_keys _ _ _ Hb0); congruence). split.
  - exists ks, m, sv. split; [exact Hbk|]. split; [congruence|]. split; [exact Hl|]. split.
    + intros i k Hi Hk. rewrite <- (Ht n i k) by (exists b', ks; auto). unfold case_at. rewrite Hn. cbn. now rewrite Em.
    + intros i c Hc. destruct (Hp n b' m i c Hn Em Hc) as (b2 & ks2 & Hb2 & Hk2 & Hi & Hkey).
      rewrite Hn in Hb2. injection Hb2 as <-. split; [exact Hi|congruence].
  - unfold loaded in *. rewrite E3. exact Hload.
Qed.

Lemma snapshot_of_frozen rs bs bs' datas : map frozen bs' = map frozen bs ->
  zip_with (snapshot_of rs) bs' datas = zip_with (snapshot_of rs) bs datas.
Proof.
  revert bs' datas. induction bs as [|b bs IH]; intros [|b' bs'] [|d datas] E; try discriminate; try reflexivity.
  cbn [zip_with map] in *. injection E as E1 E2 E3 E4. rewrite (IH bs' datas E4). f_equal.
  unfold snapshot_of. now rewrite E1, E2, E3.
Qed.

End Rollback.

(** What the end of SNAPSHOT_GETDATA relies on: fresh backups and loaded records,
    reports within the pipelines, both other threads past the snapshot, and data
    that fits a message. *)
Record getdata_ready {M} `{Hsm : SpecialMap M} (cfg : OsConfig) (sc : SnConfig) (bs0 : list (Backup M)) (rs : list report)
    (s : Snap) (o : Os M) : Prop := {
  gr_fresh : Forall2 (fresh_pipe cfg) bs0 (sn_data s);
  gr_unambiguous : unambiguous bs0;
  gr_reports : Forall (report_ok cfg) rs;
  gr_pc : sn_pc s = SnEndGetdata;
  gr_popworker : popworker_know_snapshot_end (os_flags o) = true;
  gr_special : specialcaseserver_know_snapshot_end (os_flags o) = true;
  gr_buf : da_wf (sn_dynamicbuf s);
  gr_type : is_s32 (SNAPSHOT_GETDATA_ACK sc);
  gr_servers : 0 < max_server_total_logical_num cfg < 2 ^ 16;
  gr_costs : Z.of_nat (length (perserver_specialcasebwcosts o)) = max_server_total_logical_num cfg;
  gr_costs_u64 : Forall (fun w => 0 <= w < 2 ^ 64) (perserver_specialcasebwcosts o);
  gr_records : Forall (fun r => wire_record_wf (ir_key r, ir_record r) /\ 0 <= ir_serveridx r < max_server_total_logical_num cfg)
    (concat (zip_with (snapshot_of rs) bs0 (sn_data s)));
  gr_size : 8 + Z.of_nat (length (servers_wire (fun i => of_server i (concat (zip_with (snapshot_of rs) bs0 (sn_data s)))) 0
    (perserver_specialcasebwcosts o))) <= MAX_LARGE_BUFSIZE <= _maxcapability (sn_dynamicbuf s)
}.

(** The records of server [i] in the snapshot. *)
Definition snapshot_records {M} `{Hsm : SpecialMap M} (rs : list report) (bs0 : list (Backup M)) (s : Snap) (i : nat) : list (Key * SnapshotRecord) :=
  of_server i (concat (zip_with (snapshot_of rs) bs0 (sn_data s))).

(** The message that is sent, before it is cut into datagrams. *)
Lemma getdata_sent {M} `{Hsm : SpecialMap M, !SpecialMapLaws M} (cfg : OsConfig) (sc : SnConfig)
    (bs0 : list (Backup M)) (rs : list report) (s : Snap) (o : Os M) :
  getdata_ready cfg sc bs0 rs s o ->
  exists bs s' o' frs data tl,
    process_reports cfg bs0 rs = Ok bs /\
    snapshotserver_poll cfg sc s (set_backups bs o) = Ok (s', o') /\
    sn_pc s' = SnRecv /\ sn_sent s' = sn_sent s ++ map (pair SnController) frs /\
    udpsendlarge_udpfrag (data ++ tl) (Z.of_nat (length data)) = Ok frs /\ Z.of_nat (length data) <= MAX_LARGE_BUFSIZE /\
    run_reader (deserialize_snapshot_getdata_ack (SNAPSHOT_GETDATA_ACK sc) (Z.of_nat (length data))) data
      = Ok (servers_data (snapshot_records rs bs0 s) 0 (perserver_specialcasebwcosts o)).
Proof.
  intros [Hf Hu Hr Hpc K1 K2 Wd Hct Hn Hl Hw Hrs Hsz]. set (pipelines := zip_with (snapshot_of rs) bs0 (sn_data s)) in *.
  set (n := max_server_total_logical_num cfg) in *. set (bwcosts := perserver_specialcasebwcosts o) in *.
  destruct (fresh_start cfg bs0 _ Hf) as (O & T & P).
  destruct (process_reports_ok cfg rs bs0 [] O Hu T P Hr) as (bs & E & Ef & O' & T' & P').
  destruct (rolls_back cfg rs bs (sn_data s)) as (ds & R & _ & Rp); [eapply ready_after; eauto|].
  rewrite (snapshot_of_frozen rs bs0 bs _ Ef) in Rp. fold pipelines in Rp.
  destruct (plain_clear _ Wd) as (d0 & Ec & Pc & _). pose proof (pl_holds _ _ _ Pc) as Hh.
  destruct (getdata_ack_ok d0 (SNAPSHOT_GETDATA_ACK sc) (Z.to_nat n) pipelines bwcosts)
    as (total & d1 & Es & Elen & Htot & Erd).
  - exact (ho_wf _ _ _ Hh).
  - pose proof (holds_size _ _ _ Hh). now cbn in *.
  - exact Hct.
  - lia.
  - lia.
  - lia.
  - exact Hw.
  - rewrite Z2Nat.id by lia. exact Hrs.
  - rewrite (ho_max _ _ _ Hh). exact Hsz.
  - rewrite <- Elen in Es, Htot, Erd.
    destruct (udp_received (contents d1) (drop (Z.to_nat (_cursize d1)) (da_mem d1)) Htot) as (frs & Ef1 & _).
    do 6 eexists. split; [exact E|]. split; [|split; [|split; [|split; [exact Ef1|split; [exact Htot|exact Erd]]]]].
    + unfold contents in Ef1 at 1. rewrite take_drop in Ef1.
      unfold snapshotserver_poll. rewrite Hpc. cbn [os_flags set_backups backups perserver_specialcasebwcosts].
      rewrite K1, K2, R. cbn [andb mbind res_bind]. unfold send_getdata. cbn [sn_data set_data sn_dynamicbuf].
      rewrite Rp. cbn [mbind res_bind]. rewrite Ec. cbn [mbind res_bind]. fold n bwcosts.
      rewrite Es. cbn [mbind res_bind]. rewrite Ef1. reflexivity.
    + reflexivity.
    + reflexivity.
Qed.

(** C3: the data of a snapshot in the switch reaches the controller.  After
    SNAPSHOT_START every pipeline has its backup and the loaded records; [rs] are the
    reports of the data plane and of the evictions, taken one after the other
    ([process_reports]; reports of the two threads that overlap are the subject of
    SpecialRace.v).  When no key is at the same index in two pipelines
    ([unambiguous]), the reports are within the pipelines and the data fits a message,
    all reports are taken without an error, and at the end of SNAPSHOT_GETDATA the
    snapshotserver sends, per server, for every entry in use the reported record with
    the smallest sequence number, or the loaded one if the entry was not reported.
    The controller reads exactly these records from the datagrams, whatever their
    order. *)
Theorem snapshot_reaches_controller {M} `{Hsm : SpecialMap M, !SpecialMapLaws M} (cfg : OsConfig) (sc : SnConfig)
    (bs0 : list (Backup M)) (rs : list report) (s : Snap) (o : Os M) :
  getdata_ready cfg sc bs0 rs s o ->
  exists bs s' o' frs,
    process_reports cfg bs0 rs = Ok bs /\
    snapshotserver_poll cfg sc s (set_backups bs o) = Ok (s', o') /\
    sn_pc s' = SnRecv /\ sn_sent s' = sn_sent s ++ map (pair SnController) frs /\
    forall src perm stale buf,
      perm ≡ₚ seq 0 (length frs) -> da_wf buf -> _maxcapability buf = MAX_LARGE_BUFSIZE ->
      exists cleared buf', clear buf = Ok cleared /\
        udprecvlarge_udpfrag CURMETHOD_ID stale cleared (map (fun i => Dgram (nth i frs []) src) perm)
          = Ok (mkReceived false buf' (Some src) None []) /\
        run_reader (deserialize_snapshot_getdata_ack (SNAPSHOT_GETDATA_ACK sc) (da_size buf')) (contents buf')
          = Ok (servers_data (snapshot_records rs bs0 s) 0 (perserver_specialcasebwcosts o)).
Proof.
  intros Hr. destruct (getdata_sent cfg sc bs0 rs s o Hr) as (bs & s' & o' & frs & data & tl & E1 & E2 & E3 & E4 & E5 & E6 & E7).
  exists bs, s', o', frs. do 4 (split; [assumption|]). intros src perm stale buf Hp W Hm.
  destruct (udp_received data tl E6) as (frs' & Ef & Hrecv). rewrite E5 in Ef. injection Ef as <-.
  destruct (Hrecv CURMETHOD_ID src perm stale buf Hp W Hm) as (c & buf' & R1 & R2 & R3 & R4).
  exists c, buf'. split; [exact R1|]. split; [exact R2|]. now rewrite R3, R4.
Qed.

(** ** A concrete snapshot *)

(** One pipeline with two entries, two servers, three reports of one entry. *)

Definition demo_backup : Backup case_map :=
  mkBackup (Some [key_of 1; key_of 2]) (Some [1; 0]) 2 (Some sm_empty).
Definition demo_snap (pc : snap_pc) (data : list (option (list SnapshotRecord))) : Snap :=
  mkSnap pc false 9 3 data [] [] [] [] demo_large_array [] [] [].
Definition demo_loaded : list (option (list SnapshotRecord)) := [Some [demo_record 7 true; demo_record 9 false]].
Definition demo_reports : list report :=
  [mkReport 0 (key_of 1) (demo_record 6 true); mkReport 0 (key_of 1) (demo_record 4 true);
   mkReport 0 (key_of 1) (demo_record 5 false)].

Definition demo_os (bs : list (Backup case_map)) : Os case_map :=
  mkOs (mq_init 4) [(key_of 1, 0); (key_of 2, 1)] [mkPipe [key_of 1; key_of 2] [1; 0] 2] bs [100; 200]
    (mkFlags false false false true true true) (mkIo [] [] [] [] [] [] [] 0).

Lemma demo_fresh : Forall2 (fresh_pipe demo_os_config) [demo_backup] demo_loaded.
Proof.
  constructor; [|constructor]. split; [|reflexivity]. exists [key_of 1; key_of 2], [1; 0].
  split; [|split; reflexivity]. split; [reflexivity..|]. cbn. lia.
Qed.

Lemma demo_unambiguous : unambiguous [demo_backup].
Proof.
  intros n n' idx key b' ks' (b & ks & Hn & _) Hn' _ _. apply lookup_lt_Some in Hn, Hn'. cbn in *. lia.
Qed.

Lemma demo_getdata_ready : getdata_ready demo_os_config demo_sn_config [demo_backup] demo_reports (demo_snap SnEndGetdata demo_loaded) (demo_os []).
Proof.
  split.
  - exact demo_fresh.
  - exact demo_unambiguous.
  - repeat constructor; cbn; lia.
  - reflexivity.
  - reflexivity.
  - reflexivity.
  - exact demo_large_array_wf.
  - unfold is_s32. cbn. lia.
  - cbn. lia.
  - reflexivity.
  - repeat constructor; lia.
  - change (concat _) with
      [mkInswitchRecord 1 (key_of 1) (demo_record 4 true); mkInswitchRecord 0 (key_of 2) (demo_record 9 false)].
    apply List.Forall_forall. intros r [<-|[<-|[]]]; (split; [apply demo_record_wf; unfold is_u32; lia|cbn; lia]).
  - split; vm_compute; discriminate.
Qed.

Lemma snapshot_reaches_controller_witness :
  exists bs s' o' frs,
    process_reports demo_os_config [demo_backup] demo_reports = Ok bs /\
    snapshotserver_poll demo_os_config demo_sn_config (demo_snap SnEndGetdata demo_loaded) (set_backups bs (demo_os []))
      = Ok (s', o') /\
    sn_pc s' = SnRecv /\ sn_sent s' = [] ++ map (pair SnController) frs /\
    forall src perm stale buf,
      perm ≡ₚ seq 0 (length frs) -> da_wf buf -> _maxcapability buf = MAX_LARGE_BUFSIZE ->
      exists cleared buf', clear buf = Ok cleared /\
        udprecvlarge_udpfrag CURMETHOD_ID stale cleared (map (fun i => Dgram (nth i frs []) src) perm)
          = Ok (mkReceived false buf' (Some src) None []) /\
        run_reader (deserialize_snapshot_getdata_ack 10 (da_size buf')) (contents buf')
          = Ok [mkServerData 49 0 1 100 [(key_of 2, demo_record 9 false)];
                mkServerData 49 1 1 200 [(key_of 1, demo_record 4 true)]].
Proof.
  exact (snapshot_reaches_controller demo_os_config demo_sn_config [demo_backup] demo_reports
           (demo_snap SnEndGetdata demo_loaded) (demo_os []) demo_getdata_ready).
Defined.
