(* ===== verification/SwitchPop.v ===== *)
(** * Cache population and eviction over the network

    What the popworker sends and what it takes from its sockets.  [does] is a
    triple on the sockets of the thread: from a given input the computation
    returns, with a given result, and leaves a given rest.  The loops that wait
    for an answer get through any finite number of timeouts and of packets that
    are not the answer. *)

From Stdlib Require Import ZArith Lia List.
From stdpp Require Import base tactics list numbers option.
From S2P Require Import Prelude Cursor DynamicArray StdMap Crc32 Key Val DeletedSet Packet PacketCodec PacketCache PacketScan Outband PacketServer PacketSwitch Server Fragment Reassembly PktRingBuffer MessageQueue RecvLarge RecvSpec RecvProps SwitchOS SwitchMeta SwitchSnapshot SwitchLoad SwitchRollback.

Open Scope Z_scope.
Set Default Proof Using "Type".

(** ** Triples *)

(** What the thread can still receive, what it has sent, and the calls of [rand]. *)
Record View := mkView {
  v_reflector : list event;
  v_controller : list event;
  v_ptf : list (list Z);
  v_sent : list (OsDest * list Z);
  v_rand : nat
}.

Definition io_view (io : Io) : View :=
  mkView (reflector_sock io) (controller_sock io) (ptf_sock io) (io_sent io) (rand_calls io).

Definition bufs_ok (io : Io) : Prop :=
  length (pktbuf io) = buf_len /\ length (ackbuf io) = buf_len /\ length (ptfbuf io) = buf_len.

Definition sends (v : View) (msgs : list (OsDest * list Z)) : View :=
  mkView (v_reflector v) (v_controller v) (v_ptf v) (v_sent v ++ msgs) (v_rand v).

Definition v_sock (dst : OsDest) (v : View) : list event :=
  match dst with ToReflector => v_reflector v | _ => v_controller v end.
Definition v_set (dst : OsDest) (evs : list event) (v : View) : View :=
  match dst with
  | ToReflector => mkView evs (v_controller v) (v_ptf v) (v_sent v) (v_rand v)
  | _ => mkView (v_reflector v) evs (v_ptf v) (v_sent v) (v_rand v)
  end.

Lemma sends_nil v : sends v [] = v.
Proof. destruct v. unfold sends. cbn. now rewrite app_nil_r. Qed.
Lemma sends_app v m1 m2 : sends (sends v m1) m2 = sends v (m1 ++ m2).
Proof. unfold sends. cbn. now rewrite app_assoc. Qed.
Lemma v_set_sends dst evs v ms : v_set dst evs (sends v ms) = sends (v_set dst evs v) ms.
Proof. now destruct dst. Qed.
Lemma v_sock_set dst evs v : v_sock dst (v_set dst evs v) = evs.
Proof. now destruct dst. Qed.
Lemma v_set_set dst e1 e2 v : v_set dst e1 (v_set dst e2 v) = v_set dst e1 v.
Proof. now destruct dst. Qed.
Lemma v_sock_sends dst v ms : v_sock dst (sends v ms) = v_sock dst v.
Proof. now destruct dst. Qed.
Lemma v_set_id dst v : v_set dst (v_sock dst v) v = v.
Proof. now destruct dst, v. Qed.

Section Does.
Context {M : Type}.

(** [Q] is what is known of [pktbuf] before, [Q'] after. *)
Definition does {A} (Q : list Z -> Prop) (m : os (M := M) A) (v : View) (a : A) (v' : View) (Q' : list Z -> Prop) : Prop :=
  forall s, bufs_ok (os_io s) -> Q (pktbuf (os_io s)) -> io_view (os_io s) = v ->
  exists io, m s = Ok (a, set_io io s) /\ bufs_ok io /\ Q' (pktbuf io) /\ io_view io = v'.

Definition any : list Z -> Prop := fun _ => True.
Definition starts (bs : list Z) : list Z -> Prop := fun buf => exists rest, buf = bs ++ rest.

Lemma does_ret {A} Q (a : A) v : does Q (mret a) v a v Q.
Proof. intros s Hb HQ Hv. exists (os_io s). split; [unfold mret, os_ret; now rewrite set_io_id|auto]. Qed.

Lemma does_bind {A B} Q Q1 Q2 (m : os A) (k : A -> os B) v a v1 b v2 :
  does Q m v a v1 Q1 -> does Q1 (k a) v1 b v2 Q2 -> does Q (m ≫= k) v b v2 Q2.
Proof.
  intros H1 H2 s Hb HQ Hv. destruct (H1 s Hb HQ Hv) as (io1 & E1 & B1 & Q1' & V1).
  destruct (H2 (set_io io1 s) B1 Q1' V1) as (io2 & E2 & B2 & Q2' & V2).
  exists io2. split; [|auto]. unfold mbind, os_bind. now rewrite E1, E2.
Qed.

Lemma does_weaken {A} (Q P' P Q' : list Z -> Prop) (m : os A) v a v' :
  does Q m v a v' Q' -> (forall x, P x -> Q x) -> (forall x, Q' x -> P' x) -> does P m v a v' P'.
Proof. intros H H1 H2 s Hb HP Hv. destruct (H s Hb (H1 _ HP) Hv) as (io & E & B & Q2 & V). eauto 6. Qed.

Lemma does_any {A} (m : os A) v a v' Q Q' : does Q m v a v' Q' -> does Q m v a v' any.
Proof. intros H. eapply does_weaken; [exact H|auto|constructor]. Qed.

Lemma does_lift {A} Q (r : res A) a v : r = Ok a -> does Q (os_lift r) v a v Q.
Proof. intros -> s Hb HQ Hv. exists (os_io s). cbn. rewrite set_io_id. auto. Qed.
Lemma does_check Q c v : c = true -> does Q (os_check c) v tt v Q.
Proof. intros ->. now apply does_lift. Qed.
Lemma does_fuel Q dst v : does Q (sock_fuel dst) v (S (length (v_sock dst v))) v Q.
Proof.
  intros s Hb HQ <-. exists (os_io s). rewrite set_io_id. split; [|auto]. unfold sock_fuel, os_gets.
  now destruct dst.
Qed.

(** Fill the buffer with a message; send it. *)
Lemma does_fill serialize bs v :
  emits (serialize MAX_BUFSIZE) 0 bs (Z.of_nat (length bs)) -> (length bs <= buf_len)%nat ->
  does any (fill_pktbuf serialize) v (Z.of_nat (length bs)) v (starts bs).
Proof.
  intros He Hl s (B1 & B2 & B3) _ Hv. unfold fill_pktbuf. rewrite (emits_run _ _ _ _ He) by (rewrite B1; exact Hl).
  cbn [mbind res_bind]. eexists. split; [reflexivity|]. split; [|split; [|exact Hv]].
  - split; [|now split]. cbn. rewrite length_written; [exact B1|rewrite B1; exact Hl].
  - now eexists.
Qed.

Lemma does_send_pktbuf dst bs v :
  does (starts bs) (send_pktbuf dst (Z.of_nat (length bs))) v tt (sends v [(dst, bs)]) (starts bs).
Proof.
  intros s Hb [rest HQ] <-. eexists. split; [reflexivity|]. split; [exact Hb|]. split; [now exists rest|].
  cbn. rewrite HQ, Nat2Z.id, take_app_length. reflexivity.
Qed.

Lemma does_send_pkt dst serialize bs v :
  emits (serialize MAX_BUFSIZE) 0 bs (Z.of_nat (length bs)) -> (length bs <= buf_len)%nat ->
  does any (send_pkt dst serialize) v tt (sends v [(dst, bs)]) any.
Proof. intros He Hl. eapply does_bind; [exact (does_fill serialize bs v He Hl)|]. eapply does_any, does_send_pktbuf. Qed.

(** ** Loops that wait for an answer *)

(** A packet for which [answer] gives [o]. *)
Definition answers {A} (answer : Z -> os (M := M) (option A)) (bytes : list Z) (o : option A) : Prop :=
  (length bytes <= buf_len)%nat /\
  forall s rest, ackbuf (os_io s) = bytes ++ rest -> answer (Z.of_nat (length bytes)) s = Ok (o, s).

(** A timeout, or a packet that is not the answer. *)
Definition noise {A} (answer : Z -> os (M := M) (option A)) (ev : event) : Prop :=
  match ev with Timeout => True | Dgram bytes _ => answers answer bytes None end.

Lemma recv_timeout Q dst evs v : dst <> ToPtf ->
  does Q (recv_ack dst) (v_set dst (Timeout :: evs) v) None (v_set dst evs v) Q.
Proof.
  intros Hd s Hb HQ Hv. unfold recv_ack. destruct dst; [|done|]; destruct (os_io s) as [? ? ? ? ? ? ? ?];
    unfold io_view in Hv; cbn in Hv; injection Hv as E1 E2 E3 E4 E5; subst;
    cbn; (eexists; split; [reflexivity|]; split; [exact Hb|]; split; [exact HQ|reflexivity]).
Qed.

Lemma recv_packet {B} Q dst (body : option Z -> os B) (k : os B) bytes addr evs v b v' Q' :
  dst <> ToPtf -> (length bytes <= buf_len)%nat ->
  (forall s rest, ackbuf (os_io s) = bytes ++ rest -> body (Some (Z.of_nat (length bytes))) s = k s) ->
  does Q k (v_set dst evs v) b v' Q' ->
  does Q (recv_ack dst ≫= body) (v_set dst (Dgram bytes addr :: evs) v) b v' Q'.
Proof.
  intros Hd Hl Ha Hk s (B1 & B2 & B3) HQ Hv.
  destruct (recv_fits (ackbuf (os_io s)) bytes ltac:(rewrite B2; exact Hl)) as [En Ei].
  set (io1 := match dst with
    | ToReflector => mkIo (pktbuf (os_io s)) (recv_into (ackbuf (os_io s)) bytes) (ptfbuf (os_io s)) evs
                       (controller_sock (os_io s)) (ptf_sock (os_io s)) (io_sent (os_io s)) (rand_calls (os_io s))
    | _ => mkIo (pktbuf (os_io s)) (recv_into (ackbuf (os_io s)) bytes) (ptfbuf (os_io s)) (reflector_sock (os_io s))
             evs (ptf_sock (os_io s)) (io_sent (os_io s)) (rand_calls (os_io s)) end).
  assert (Er : recv_ack dst s = Ok (Some (Z.of_nat (length bytes)), set_io io1 s)).
  { unfold recv_ack, io1. unfold io_view in Hv. destruct dst; [|done|]; cbn in Hv; injection Hv as E1 E2 E3 E4 E5;
      rewrite ?E1, ?E2; now rewrite En. }
  assert (Eb : ackbuf io1 = bytes ++ drop (length bytes) (ackbuf (os_io s))).
  { rewrite <- Ei. unfold io1. now destruct dst. }
  assert (B1' : bufs_ok io1).
  { unfold bufs_ok. rewrite Eb, length_written by (rewrite B2; exact Hl). unfold io1. now destruct dst. }
  destruct (Hk (set_io io1 s) B1') as (io & E & B4 & Q2 & V).
  - unfold io1. now destruct dst.
  - unfold io1, io_view in *.
    destruct dst; [|done|]; cbn in *; injection Hv as E1 E2 E3 E4 E5;
      now rewrite ?E1, ?E2, ?E3, ?E4, ?E5.
  - exists io. split; [|auto]. unfold mbind, os_bind. rewrite Er.
    rewrite (Ha (set_io io1 s) (drop (length bytes) (ackbuf (os_io s))) Eb). exact E.
Qed.

Lemma recv_answer {A B} Q dst (answer : Z -> os (option A)) (k : option A -> os B) bytes addr evs v o b v' Q' :
  dst <> ToPtf -> answers answer bytes o ->
  does Q (k o) (v_set dst evs v) b v' Q' ->
  does Q (r ← recv_ack dst; match r with None => k None | Some n => a ← answer n; k a end)
    (v_set dst (Dgram bytes addr :: evs) v) b v' Q'.
Proof.
  intros Hd [Hl Ha] Hk. eapply recv_packet; [exact Hd|exact Hl| |exact Hk].
  intros s rest Hb. unfold mbind, os_bind. now rewrite (Ha s rest Hb).
Qed.

Lemma ask_does {A} Q dst (send : os unit) (answer : Z -> os (option A)) x last addr evs msg noises : forall fuel v,
  dst <> ToPtf -> (forall w, does Q send w tt (sends w [msg]) Q) -> Forall (noise answer) noises ->
  answers answer last (Some x) -> (length noises < fuel)%nat ->
  does Q (ask fuel dst send answer) (v_set dst (noises ++ Dgram last addr :: evs) v) x
    (sends (v_set dst evs v) (replicate (S (length noises)) msg)) Q.
Proof.
  induction noises as [|e noises IH]; intros [|fuel] v Hd Hs Hn Ha Hf; cbn [length] in Hf; try lia; cbn [app ask].
  - eapply does_bind; [apply Hs|]. rewrite <- v_set_sends.
    apply (recv_answer Q dst answer (fun a => match a with None => ask fuel dst send answer | Some y => mret y end) _ _ _ _ (Some x));
      [exact Hd|exact Ha|]. rewrite v_set_sends. apply does_ret.
  - apply Forall_cons_iff in Hn as [He Hn]. specialize (IH fuel (sends v [msg]) Hd Hs Hn Ha ltac:(lia)).
    rewrite !v_set_sends, sends_app in IH. cbn [length replicate app] in *.
    eapply does_bind; [apply Hs|]. rewrite <- v_set_sends. destruct e as [bytes a|].
    + apply (recv_answer Q dst answer (fun a => match a with None => ask fuel dst send answer | Some y => mret y end) _ _ _ _ None);
        [exact Hd|exact He|]. rewrite v_set_sends. exact IH.
    + eapply does_bind; [now apply recv_timeout|]. rewrite v_set_sends. exact IH.
Qed.

Lemma ask_timeouts {A} Q dst (send : os unit) (answer : Z -> os (option A)) x last addr evs msg td fuel v :
  dst <> ToPtf -> (forall w, does Q send w tt (sends w [msg]) Q) -> answers answer last (Some x) -> (td < fuel)%nat ->
  does Q (ask fuel dst send answer) (v_set dst (replicate td Timeout ++ Dgram last addr :: evs) v) x
    (sends (v_set dst evs v) (replicate (S td) msg)) Q.
Proof.
  intros Hd Hs Ha Hf. pose proof (ask_does Q dst send answer x last addr evs msg (replicate td Timeout) fuel v) as H.
  rewrite length_replicate in H. apply H; [exact Hd|exact Hs|apply Forall_replicate; exact I|exact Ha|exact Hf].
Qed.

(** A packet read with [parse], for a test that leaves the state alone. *)
Lemma parse_answers {A B} (parse : Z -> Z -> reader B) (test : B -> os (option A)) bytes rest b o :
  (length (bytes ++ rest) <= buf_len)%nat ->
  reads (parse CURMETHOD_ID (Z.of_nat (length (bytes ++ rest)))) 0 bytes b ->
  (forall s, test b s = Ok (o, s)) ->
  answers (fun n => x ← parse_ack parse n; test x) (bytes ++ rest) o.
Proof.
  intros Hl Hr Ht. split; [exact Hl|]. intros s rest' Hb. unfold mbind, os_bind, parse_ack. rewrite Hb, <- app_assoc.
  rewrite (reads_run _ _ _ _ Hr). cbn [mbind res_bind]. apply Ht.
Qed.

End Does.

(** ** The exchanges of the popworker *)

(** The answer of the data plane for [key], and what is not: a timeout, another
    packet, a late answer for another key. *)
Definition ack_for (type : Z) (key : Key) (bytes : list Z) : Prop :=
  exists rest, bytes = fr_hdr type key ++ rest /\ (length bytes <= buf_len)%nat.

Definition stray (type : Z) (key : Key) (ev : event) : Prop :=
  match ev with
  | Timeout => True
  | Dgram bytes _ => exists t k, ack_for t k bytes /\ is_u16 t /\ key_wf k /\ (t <> type \/ k <> key)
  end.

Definition add_wire (cfg : OsConfig) (key : Key) (idx : Z) : list Z :=
  le_bytes 4 (u32 (SWITCHOS_ADD_CACHE_LOOKUP cfg)) ++ key_wire key ++ le_bytes 2 idx.
Definition remove_wire (cfg : OsConfig) (key : Key) : list Z :=
  le_bytes 4 (u32 (SWITCHOS_REMOVE_CACHE_LOOKUP cfg)) ++ key_wire key.

Lemma add_emits cfg key idx : key_wf key -> emits (serialize_add_cache_lookup cfg key idx) 0 (add_wire cfg key idx) 22.
Proof.
  intros Hk. unfold serialize_add_cache_lookup, add_wire. eapply emits_bind; [apply emits_u32|]. rd_len.
  eapply emits_bind; [apply emits_Key; [exact Hk|unfold MAX_BUFSIZE; lia]|]. rd_len. rewrite <- (app_nil_r (le_bytes 2 idx)).
  eapply emits_bind; [apply writes_put|]. rd_len. em.
Qed.

Lemma remove_emits cfg key : key_wf key -> emits (serialize_remove_cache_lookup cfg key) 0 (remove_wire cfg key) 20.
Proof.
  intros Hk. unfold serialize_remove_cache_lookup, remove_wire. eapply emits_bind; [apply emits_u32|]. rd_len.
  rewrite <- (app_nil_r (key_wire key)).
  eapply emits_bind; [apply emits_Key; [exact Hk|unfold MAX_BUFSIZE; lia]|]. rd_len. em.
Qed.

Section Exchanges.
Context {M : Type}.

Lemma ack_len t k bytes : ack_for t k bytes -> 18 <= Z.of_nat (length bytes) < 2 ^ 32.
Proof.
  intros (rest & -> & Hl). pose proof buf_len_eq as Hm. unfold MAX_BUFSIZE in Hm.
  rewrite length_app, length_fr_hdr in *. lia.
Qed.

(** What the test of an acknowledgement without data gives. *)
Lemma inswitch_answers (test : Packet * bool -> os (M := M) (option unit)) type t k bytes o :
  ack_for t k bytes -> is_u16 t -> key_wf k ->
  (forall s, test (Packet_new FARREACH_ID t k, t =? type) s = Ok (o, s)) ->
  answers (fun n => x ← parse_ack (InswitchAck_parse type) n; test x) bytes o.
Proof.
  intros Ha Ht Hk Hs. pose proof (ack_len _ _ _ Ha) as Hn. destruct Ha as (rest & -> & Hl).
  eapply parse_answers; [exact Hl|exact (inswitch_ack_reads type t k _ Ht Hk Hn)|exact Hs].
Qed.

Definition setvalid_ok (idx v : Z) : Prop := is_u16 idx /\ (v = 0 \/ v = 1 \/ v = 3).

Lemma setvalid_sends key idx val v : key_wf key -> setvalid_ok idx val ->
  does (M := M) any (req ← os_lift (SetvalidInswitch_new CURMETHOD_ID key idx val);
            send_pkt ToReflector (SetvalidInswitch_serialize req)) v tt (sends v [(ToReflector, setvalid_wire key idx val)]) any.
Proof.
  intros Hk [Hi Hv]. unfold is_u16 in Hi.
  assert (Hl : length (setvalid_wire key idx val) = 41%nat)
    by (unfold setvalid_wire; rewrite !length_app, length_fr_hdr, !length_be, length_replicate; reflexivity).
  pose proof buf_len_eq as Hm. unfold MAX_BUFSIZE in Hm.
  eapply does_bind; [apply does_lift|].
  - unfold SetvalidInswitch_new. change (is_singleswitch CURMETHOD_ID) with true.
    rewrite (INVARIANT_true (0 <=? idx)) by lia. rewrite (INVARIANT_true (_ || _ || _)) by (destruct Hv as [-> | [-> | ->] ]; reflexivity).
    reflexivity.
  - apply does_send_pkt; [|rewrite Hl; lia].
    pose proof (setvalid_emits key idx val MAX_BUFSIZE Hk ltac:(unfold MAX_BUFSIZE; lia)) as H. now rewrite Hl.
Qed.

(** The validity of an entry is set, however often it has to be asked. *)
Lemma setvalid_does key idx val ns last addr evs v : key_wf key -> setvalid_ok idx val ->
  Forall (stray SETVALID_INSWITCH_ACK key) ns -> ack_for SETVALID_INSWITCH_ACK key last ->
  does (M := M) any (setvalid key idx val) (v_set ToReflector (ns ++ Dgram last addr :: evs) v) tt
    (sends (v_set ToReflector evs v) (replicate (S (length ns)) (ToReflector, setvalid_wire key idx val))) any.
Proof.
  intros Hk Hi Hn Ha. unfold setvalid. eapply does_bind; [apply does_fuel|].
  assert (Ht : is_u16 SETVALID_INSWITCH_ACK) by (unfold is_u16, SETVALID_INSWITCH_ACK; lia).
  apply ask_does; [discriminate|intros w; now apply setvalid_sends| | |].
  - eapply Forall_impl; [|exact Hn]. intros [bytes a|] He; [|exact I]. destruct He as (t & k & Hak & Ht' & Hk' & Hd).
    eapply inswitch_answers; [exact Hak|exact Ht'|exact Hk'|]. intros s. cbn [p_key Packet_new].
    destruct (Z.eqb_spec t SETVALID_INSWITCH_ACK) as [->|]; [|reflexivity]. cbn [negb orb].
    rewrite bool_decide_eq_true_2 by (destruct Hd; congruence). reflexivity.
  - eapply inswitch_answers; [exact Ha|exact Ht|exact Hk|]. intros s. cbn [p_key Packet_new].
    rewrite Z.eqb_refl. rewrite bool_decide_eq_false_2 by (intros Hd; now apply Hd). reflexivity.
  - rewrite v_sock_set, length_app. cbn [length]. lia.
Qed.

(** A command to ptf. *)
Lemma ptf_does serialize bs ack more rest v : emits serialize 0 bs (Z.of_nat (length bs)) -> (length bs <= buf_len)%nat ->
  is_s32 ack -> (length more + 4 <= buf_len)%nat -> v_ptf v = (le_bytes 4 (u32 ack) ++ more) :: rest ->
  does (M := M) any (ask_ptf serialize ack) v tt
    (mkView (v_reflector v) (v_controller v) rest (v_sent v ++ [(ToPtf, bs)]) (v_rand v)) any.
Proof.
  intros He Hl Ha Hm Hv s (B1 & B2 & B3) _ <-. cbn [io_view v_ptf] in Hv. unfold ask_ptf.
  rewrite (emits_run _ _ _ _ He) by (rewrite B3; exact Hl). cbn [mbind res_bind]. rewrite Hv.
  set (buf := bs ++ drop (length bs) (ptfbuf (os_io s))).
  assert (Lb : length buf = buf_len) by (unfold buf; rewrite length_written; [exact B3|rewrite B3; exact Hl]).
  assert (Lr : length (le_bytes 4 (u32 ack) ++ more) = (4 + length more)%nat) by (now rewrite length_app, length_le_bytes).
  destruct (recv_fits buf (le_bytes 4 (u32 ack) ++ more)) as [_ Er]; [rewrite Lb, Lr; lia|].
  cbv beta iota zeta. rewrite Er, <- app_assoc. rewrite (take_app_le (le_bytes 4 (u32 ack))) by (now rewrite length_le_bytes).
  rewrite (take_ge (le_bytes 4 (u32 ack))) by (now rewrite length_le_bytes). rewrite le_val_bytes.
  rewrite Z.mod_small by (pose proof (u32_range ack) as Hu; unfold is_u32 in Hu; cbn; lia).
  rewrite s32_u32, Z.eqb_refl by exact Ha. cbn [INVARIANT mbind res_bind].
  eexists. split; [reflexivity|]. split; [|split; [constructor|]].
  - unfold bufs_ok. cbn [pktbuf ackbuf ptfbuf]. rewrite app_assoc. split; [exact B1|]. split; [exact B2|].
    rewrite length_written; [exact Lb|rewrite Lb, Lr; lia].
  - unfold io_view, buf. cbn [reflector_sock controller_sock ptf_sock io_sent rand_calls v_reflector v_controller v_sent v_rand].
    now rewrite Nat2Z.id, take_app_length.
Qed.

(** ** Population of an entry *)

(** How often the record is sent: once, and once more after every timeout. *)
Definition timeouts (ns : list event) : nat :=
  length (List.filter (fun e => match e with Timeout => true | Dgram _ _ => false end) ns).

Lemma wait_pop_does key bs last addr evs ns : forall fuel resend v, key_wf key ->
  Forall (stray CACHE_POP_INSWITCH_ACK key) ns -> ack_for CACHE_POP_INSWITCH_ACK key last -> (length ns < fuel)%nat ->
  does (M := M) (starts bs) (wait_pop fuel key (Z.of_nat (length bs)) resend)
    (v_set ToReflector (ns ++ Dgram last addr :: evs) v) tt
    (sends (v_set ToReflector evs v) (replicate ((if resend then 1 else 0) + timeouts ns) (ToReflector, bs))) (starts bs).
Proof.
  assert (Ht : is_u16 CACHE_POP_INSWITCH_ACK) by (unfold is_u16, CACHE_POP_INSWITCH_ACK; lia).
  induction ns as [|e ns IH]; intros [|fuel] resend v Hk Hn Ha Hf; cbn [length] in Hf; try lia; cbn [app wait_pop].
  all: eapply (does_bind _ (starts bs) _ _ _ _ tt (sends (v_set ToReflector _ v) (replicate (if resend then 1 else 0) (ToReflector, bs))));
    [destruct resend; [apply does_send_pktbuf|rewrite sends_nil; apply does_ret]|]; rewrite <- v_set_sends.
  - pose proof (ack_len _ _ _ Ha) as Hlen. destruct Ha as (rest & -> & Hl).
    eapply recv_packet; [discriminate|exact Hl| |].
    + intros s r0 Hb. unfold mbind, os_bind, parse_ack. rewrite Hb, <- app_assoc.
      rewrite (reads_run _ _ _ _ (inswitch_ack_reads CACHE_POP_INSWITCH_ACK CACHE_POP_INSWITCH_ACK key _ Ht Hk Hlen)).
      cbn [mbind res_bind p_key Packet_new]. rewrite Z.eqb_refl, bool_decide_eq_true_2 by reflexivity. reflexivity.
    + cbn [timeouts List.filter length]. rewrite Nat.add_0_r, v_set_sends. apply does_ret.
  - apply Forall_cons_iff in Hn as [He Hn]. set (pre := replicate (if resend then 1 else 0) (ToReflector, bs)).
    assert (IH' := fun r => IH fuel r (sends v pre) Hk Hn Ha ltac:(lia)). clear IH. rewrite !v_set_sends in IH'.
    setoid_rewrite sends_app in IH'. unfold pre in IH'. setoid_rewrite <- replicate_add in IH'. fold pre in IH'.
    rewrite v_set_sends. destruct e as [bytes a|].
    + destruct He as (t & k & Hak & Ht' & Hk' & Hd). pose proof (ack_len _ _ _ Hak) as Hlen. destruct Hak as (rest & -> & Hl).
      rewrite <- v_set_sends. eapply recv_packet; [discriminate|exact Hl| |rewrite v_set_sends; apply (IH' false)].
      intros s r0 Hb. unfold mbind, os_bind, parse_ack. rewrite Hb, <- app_assoc.
      rewrite (reads_run _ _ _ _ (inswitch_ack_reads CACHE_POP_INSWITCH_ACK t k _ Ht' Hk' Hlen)).
      cbn [mbind res_bind p_key Packet_new]. destruct (Z.eqb_spec t CACHE_POP_INSWITCH_ACK) as [->|]; [|reflexivity].
      rewrite bool_decide_eq_false_2 by (destruct Hd; congruence). reflexivity.
    + rewrite <- v_set_sends. eapply does_bind; [apply recv_timeout; discriminate|]. rewrite v_set_sends. cbn [timeouts List.filter length].
      exact (IH' true).
Qed.

End Exchanges.

(** A serializer that leaves the last byte of the message as it was. *)
Lemma pads_run {A} (w : writer A) bs (a : A) buf : pads w 0 bs a -> (S (length bs) <= length buf)%nat ->
  exists b, run_writer w buf = Ok (a, (bs ++ [b]) ++ drop (S (length bs)) buf).
Proof.
  intros H Hl. destruct (H [] (take (S (length bs)) buf) (drop (S (length bs)) buf) eq_refl) as [E L].
  { rewrite length_take. lia. }
  rewrite take_drop in E. set (d := drop (length bs) (take (S (length bs)) buf)) in *.
  assert (Hd : length d = 1%nat) by (unfold d; rewrite length_drop, length_take; lia).
  destruct d as [|b [|? ?]]; try discriminate Hd. exists b. unfold run_writer. rewrite E. reflexivity.
Qed.

Section Install.
Context {M : Type} `{Hsm : SpecialMap M}.
Context (cfg : OsConfig) (rand : nat -> Z).
Implicit Types s : Os M.

Definition pop_record (pop : CachePop) : SnapshotRecord :=
  mkSnapshotRecord (qs_val (cp_put pop)) (qs_seq (cp_put pop)) (cp_stat pop).

Lemma length_pop_wire k r idx : length (pop_wire k r idx) = (51 + val_wire_size (sr_val r))%nat.
Proof.
  unfold pop_wire. rewrite !length_app, length_fr_hdr, length_val_wire, !length_be, !length_replicate. cbn [length]. lia.
Qed.

Lemma wire_record_small k r : wire_record_wf (k, r) -> (val_wire_size (sr_val r) <= 200)%nat.
Proof.
  intros (_ & [Hv Hl] & _). cbn [snd] in *. pose proof (val_wire_size_eq _ Hv) as He. pose proof (val_wf_length _ Hv) as Hp.
  pose proof (get_padding_size_range (val_length (sr_val r)) (proj1 Hp)). unfold SWITCH_MAX_VALLEN in Hl. lia.
Qed.

Lemma populate_inswitch_runs key r idx ns last addr evs v s :
  is_u16 (os_uninit cfg) -> wire_record_wf (key, r) -> is_u16 idx ->
  Forall (stray CACHE_POP_INSWITCH_ACK key) ns -> ack_for CACHE_POP_INSWITCH_ACK key last ->
  bufs_ok (os_io s) -> io_view (os_io s) = v_set ToReflector (ns ++ Dgram last addr :: evs) v ->
  exists b io, populate_inswitch cfg key (sr_val r) (sr_seq r) idx (sr_stat r) s = Ok (tt, set_io io s) /\ bufs_ok io /\
    io_view io = sends (v_set ToReflector evs v) (replicate (S (timeouts ns)) (ToReflector, pop_wire key r idx ++ [b])).
Proof.
  intros Hu Hr Hi Hn Ha (B1 & B2 & B3) Hv. pose proof (length_pop_wire key r idx) as Hlen.
  pose proof (wire_record_small _ _ Hr) as Hsm'. pose proof buf_len_eq as Hm. unfold MAX_BUFSIZE in Hm.
  pose proof Hr as (Hk & [Hvw Hvl] & Hs). cbn [fst snd] in *.
  destruct (pads_run _ _ _ (pktbuf (os_io s)) (pop_pads (os_uninit cfg) key r idx MAX_BUFSIZE Hu Hr
    ltac:(unfold MAX_BUFSIZE; lia))) as [b Eb]; [rewrite Hlen, B1; lia|].
  set (wire := pop_wire key r idx ++ [b]) in *. exists b.
  assert (Hwl : length wire = S (length (pop_wire key r idx))) by (unfold wire; rewrite length_app; cbn; lia).
  set (io1 := mkIo (wire ++ drop (S (length (pop_wire key r idx))) (pktbuf (os_io s))) (ackbuf (os_io s)) (ptfbuf (os_io s))
    (reflector_sock (os_io s)) (controller_sock (os_io s)) (ptf_sock (os_io s)) (io_sent (os_io s)) (rand_calls (os_io s))).
  destruct (wait_pop_does (M := M) key wire last addr evs ns (S (length (v_sock ToReflector (io_view (os_io s))))) true v
    Hk Hn Ha) with (s := set_io io1 s) as (io & E & B & _ & V).
  - rewrite Hv, v_sock_set, length_app. cbn [length]. lia.
  - unfold bufs_ok, io1. cbn [os_io set_io pktbuf ackbuf ptfbuf]. rewrite length_app, length_drop, Hwl. lia.
  - unfold io1. cbn [pktbuf os_io set_io]. now eexists.
  - exact Hv.
  - exists io. split; [|split; [exact B|exact V]]. unfold populate_inswitch, mbind at 1, os_bind at 1, os_lift at 1, CachePopInswitch_new.
    unfold PutRequestSeq_new. rewrite (Val_copy_wf _ Hvw). cbn [qs_val set_qs_type].
    rewrite (INVARIANT_true (val_length (sr_val r) <=? SWITCH_MAX_VALLEN)) by (apply Z.leb_le; exact Hvl).
    rewrite (INVARIANT_true (0 <=? sr_seq r)) by (unfold is_u32 in Hs; lia).
    rewrite (INVARIANT_true (0 <=? idx)) by (unfold is_u16 in Hi; lia). cbn [mbind res_bind].
    unfold mbind, os_bind, fill_pktbuf. change (set_qs_type _ _) with (mkPutRequestSeq (fr_base (os_uninit cfg) CACHE_POP_INSWITCH key) (sr_val r) (sr_seq r) 0).
    cbv zeta. rewrite Eb. cbn [res_bind]. replace (Z.of_nat (length (pop_wire key r idx)) + 1) with (Z.of_nat (length wire)) by lia.
    exact E.
Qed.

(** What the data plane and ptf answer while an entry is installed: [ns1] comes
    before the acknowledgement of the record, [ns2] before that of the validity. *)
Record installation (key : Key) (ns1 ns2 : list event) (a1 a2 more : list Z) : Prop := {
  in_ns1 : Forall (stray CACHE_POP_INSWITCH_ACK key) ns1;
  in_a1 : ack_for CACHE_POP_INSWITCH_ACK key a1;
  in_ns2 : Forall (stray SETVALID_INSWITCH_ACK key) ns2;
  in_a2 : ack_for SETVALID_INSWITCH_ACK key a2;
  in_more : (length more + 4 <= buf_len)%nat
}.

(** The messages of an installation; [b] is a byte the source does not set. *)
Definition installed (pop : CachePop) (idx : Z) (ns1 ns2 : list event) (b : Z) : list (OsDest * list Z) :=
  replicate (S (timeouts ns1)) (ToReflector, pop_wire (cp_key pop) (pop_record pop) idx ++ [b]) ++
  [(ToPtf, add_wire cfg (cp_key pop) idx)] ++
  replicate (S (length ns2)) (ToReflector, setvalid_wire (cp_key pop) idx 1).

Record install_ok : Prop := {
  io_uninit : is_u16 (os_uninit cfg);
  io_add : is_s32 (SWITCHOS_ADD_CACHE_LOOKUP_ACK cfg);
  io_remove : is_s32 (SWITCHOS_REMOVE_CACHE_LOOKUP_ACK cfg);
  io_buckets : bucket_num cfg <= 2 ^ 16
}.
Context (Hcfg : install_ok).

Lemma record_entry_runs pidx p key idx sv s : pipes s !! Z.to_nat pidx = Some p -> pipe_ok cfg p -> 0 <= idx < bucket_num cfg ->
  record_entry pidx key idx sv s
    = Ok (tt, set_meta (m_insert key idx (cached_keyidx_map s)) (<[Z.to_nat pidx := set_entry idx key sv p]> (pipes s)) s).
Proof.
  intros Hp [Hk Hs _] Hi. unfold record_entry, mbind, os_bind, os_modify, get_pipe.
  cbn [pipes set_meta]. rewrite (proj2 (arr_get_Ok _ _ _) Hp). cbn [mbind res_bind].
  destruct (lookup_lt_is_Some_2 (cached_keyarray p) (Z.to_nat idx)) as [k0 Hk0]; [lia|].
  destruct (lookup_lt_is_Some_2 (cached_serveridxarray p) (Z.to_nat idx)) as [s0 Hs0]; [lia|].
  unfold os_lift. rewrite (proj2 (arr_get_Ok _ _ _) Hk0), (proj2 (arr_get_Ok _ _ _) Hs0). reflexivity.
Qed.

Lemma install_runs pidx p pop idx ns1 a1 d1 ns2 a2 d2 more R C P S n s :
  installation (cp_key pop) ns1 ns2 a1 a2 more -> wire_record_wf (cp_key pop, pop_record pop) ->
  pipes s !! Z.to_nat pidx = Some p -> pipe_ok cfg p -> 0 <= idx < bucket_num cfg -> bufs_ok (os_io s) ->
  io_view (os_io s) = mkView (ns1 ++ Dgram a1 d1 :: ns2 ++ Dgram a2 d2 :: R) C
    ((le_bytes 4 (u32 (SWITCHOS_ADD_CACHE_LOOKUP_ACK cfg)) ++ more) :: P) S n ->
  exists b io,
    install_entry cfg pidx pop idx s
      = Ok (tt, set_io io (set_meta (m_insert (cp_key pop) idx (cached_keyidx_map s))
                             (<[Z.to_nat pidx := set_entry idx (cp_key pop) (cp_serveridx pop) p]> (pipes s)) s)) /\
    bufs_ok io /\ io_view io = mkView R C P (S ++ installed pop idx ns1 ns2 b) n.
Proof using Hcfg.
  intros [N1 A1 N2 A2 Lm] Hr Hp Hpo Hi Hb Hv. destruct Hcfg as [Hu Hadd _ Hbk].
  assert (Hi16 : is_u16 idx) by (unfold is_u16; lia). pose proof (proj1 Hr) as Hk. cbn [fst] in Hk.
  set (v0 := mkView [] C ((le_bytes 4 (u32 (SWITCHOS_ADD_CACHE_LOOKUP_ACK cfg)) ++ more) :: P) S n).
  destruct (populate_inswitch_runs (cp_key pop) (pop_record pop) idx ns1 a1 d1 (ns2 ++ Dgram a2 d2 :: R) v0 s Hu Hr Hi16 N1 A1 Hb Hv)
    as (b & io1 & E1 & B1 & V1). cbn [pop_record sr_val sr_seq sr_stat] in E1.
  assert (Hal : length (add_wire cfg (cp_key pop) idx) = 22%nat)
    by (unfold add_wire; rewrite !length_app, !length_le_bytes, length_key_wire; reflexivity).
  pose proof buf_len_eq as Hm. unfold MAX_BUFSIZE in Hm.
  pose proof (add_emits cfg (cp_key pop) idx Hk) as Hae. replace 22 with (Z.of_nat (length (add_wire cfg (cp_key pop) idx))) in Hae by (now rewrite Hal).
  destruct (ptf_does (M := M) _ _ (SWITCHOS_ADD_CACHE_LOOKUP_ACK cfg) more P (io_view io1) Hae ltac:(lia) Hadd Lm) with (s := set_io io1 s)
    as (io2 & E2 & B2 & _ & V2); [now rewrite V1|exact B1|exact I|reflexivity|].
  destruct (setvalid_does (M := M) (cp_key pop) idx 1 ns2 a2 d2 R (io_view io2) Hk (conj Hi16 (or_intror (or_introl eq_refl))) N2 A2)
    with (s := set_io io2 s) as (io3 & E3 & B3 & _ & V3); [exact B2|exact I|cbn [os_io set_io]; now rewrite V2, V1|].
  exists b, io3. split; [|split; [exact B3|]].
  - unfold install_entry, mbind, os_bind, os_check, os_lift at 1.
    rewrite INVARIANT_true by (unfold bucket_num in Hi; lia). rewrite E1, E2, set_io_io, E3, set_io_io.
    now rewrite (record_entry_runs pidx p) by assumption.
  - rewrite V3, V2, V1. unfold v0, sends, installed. cbn. now rewrite <- !app_assoc.
Qed.

Lemma find_physical_In sv ls : forall i found,
  find_physical sv i ls found = found \/ existsb (Z.eqb sv) (concat ls) = true.
Proof.
  induction ls as [|l ls IH]; intros i found; cbn [find_physical concat]; [auto|].
  rewrite existsb_app. destruct (existsb (Z.eqb sv) l); [auto|]. destruct (IH (i + 1) found); auto.
Qed.

Lemma find_pipe_valid sv n : find_pipe cfg sv = Ok n -> existsb (Z.eqb sv) (concat (server_logical_idxes_list cfg)) = true.
Proof.
  unfold find_pipe. intros ([] & H%INVARIANT_Ok & _)%bind_Ok.
  destruct (find_physical_In sv (server_logical_idxes_list cfg) 0 (-1)) as [E|E]; [|exact E].
  rewrite E in H. discriminate.
Qed.

Lemma populate_unfold pop s n p : find_pipe cfg (cp_serveridx pop) = Ok n -> pipes s !! Z.to_nat n = Some p ->
  populate cfg rand pop s =
  ((i ← (if cached_empty_index p <? switch_kv_bucket_num cfg then take_freeidx n p (cp_key pop) else evict cfg rand n);
    install_entry cfg n pop i) : os unit) s.
Proof.
  intros Hn Hp. unfold populate, mbind at 1, os_bind at 1, os_check, os_lift at 1.
  rewrite INVARIANT_true by exact (find_pipe_valid _ _ Hn).
  unfold mbind at 1, os_bind at 1, os_lift at 1. rewrite Hn. unfold mbind at 1, os_bind at 1, get_pipe.
  rewrite (proj2 (arr_get_Ok _ _ _) Hp). reflexivity.
Qed.

End Install.

(** A record for which the switch has a free entry is installed, whatever noise
    comes before the answers: the entry is invalidated, filled, added to the lookup
    table, and only then validated; each step is repeated until its own answer
    arrives. *)
Lemma populate_runs {M} `{Hsm : SpecialMap M} (cfg : OsConfig) (rand : nat -> Z) (pop : CachePop) (s : Os M)
    (n : Z) (p : Pipe) (ns0 ns1 ns2 : list event) (a0 a1 a2 more : list Z) (d0 d1 d2 : sockaddr_in)
    (R : list event) (P : list (list Z)) :
  let key := cp_key pop in
  let idx := cached_empty_index p in
  install_ok cfg -> wire_record_wf (key, pop_record pop) ->
  find_pipe cfg (cp_serveridx pop) = Ok n -> pipes s !! Z.to_nat n = Some p -> pipe_ok cfg p -> idx < bucket_num cfg ->
  Forall (stray SETVALID_INSWITCH_ACK key) ns0 -> ack_for SETVALID_INSWITCH_ACK key a0 ->
  installation key ns1 ns2 a1 a2 more -> bufs_ok (os_io s) ->
  reflector_sock (os_io s) = ns0 ++ Dgram a0 d0 :: ns1 ++ Dgram a1 d1 :: ns2 ++ Dgram a2 d2 :: R ->
  ptf_sock (os_io s) = (le_bytes 4 (u32 (SWITCHOS_ADD_CACHE_LOOKUP_ACK cfg)) ++ more) :: P ->
  exists b io,
    populate cfg rand pop s
      = Ok (tt, set_io io (set_meta (m_insert key idx (cached_keyidx_map s))
                             (<[Z.to_nat n := set_entry idx key (cp_serveridx pop) (grow_pipe p)]> (pipes s)) s)) /\
    bufs_ok io /\ reflector_sock io = R /\ ptf_sock io = P /\
    io_sent io = io_sent (os_io s) ++
      replicate (S (length ns0)) (ToReflector, setvalid_wire key idx 0) ++ installed cfg pop idx ns1 ns2 b.
Proof.
  intros key idx Hcfg Hr Hn Hp Hpo Hi N0 A0 Hin Hb HR HP. rewrite (populate_unfold cfg rand pop s n p Hn Hp).
  rewrite (proj2 (Z.ltb_lt _ _)) by exact Hi. fold key.
  assert (Hi16 : is_u16 idx) by (destruct Hcfg, Hpo; unfold is_u16; lia). pose proof (proj1 Hr) as Hk. cbn [fst] in Hk.
  unfold take_freeidx. fold idx. rewrite (u16_id idx Hi16). fold (grow_pipe p).
  set (s1 := set_meta (cached_keyidx_map s) (<[Z.to_nat n := grow_pipe p]> (pipes s)) s).
  destruct (setvalid_does (M := M) key idx 0 ns0 a0 d0 (ns1 ++ Dgram a1 d1 :: ns2 ++ Dgram a2 d2 :: R) (io_view (os_io s)) Hk
    (conj Hi16 (or_introl eq_refl)) N0 A0) with (s := s1) as (io1 & E1 & B1 & _ & V1);
    [exact Hb|exact I|unfold io_view; cbn; now rewrite HR|].
  destruct (install_runs cfg Hcfg n (grow_pipe p) pop idx ns1 a1 d1 ns2 a2 d2 more R (controller_sock (os_io s)) P
    (io_sent (os_io s) ++ replicate (S (length ns0)) (ToReflector, setvalid_wire key idx 0)) (rand_calls (os_io s)) (set_io io1 s1))
    as (b & io & E & B & V).
  - exact Hin.
  - exact Hr.
  - cbn. apply list_lookup_insert_eq. eauto using lookup_lt_Some.
  - destruct Hpo, Hcfg. split; [assumption..|]. cbn. rewrite u32_id; unfold is_u32; fold idx; lia.
  - destruct Hpo. unfold idx in *. lia.
  - exact B1.
  - cbn [os_io set_io]. rewrite V1. unfold sends, v_set, io_view. cbn. now rewrite HP.
  - exists b, io. unfold io_view in V. injection V as V1' V2 V3 V4 V5. split; [|split; [exact B|split; [exact V1'|split; [exact V3|]]]].
    + unfold mbind, os_bind. unfold put_pipe. change (set_meta _ _ s) with s1 at 1. rewrite E1. cbn [mret os_ret]. rewrite E.
      cbn [pipes set_io s1 set_meta]. now rewrite list_insert_insert_eq.
    + rewrite V4. now rewrite <- app_assoc.
Qed.

(** ** A concrete population *)

Definition demo_pop (n serveridx : Z) : CachePop :=
  mkCachePop (mkPutRequestSeq (Packet_new FARREACH_ID CACHE_POP (key_of n)) demo_val 7 0) true serveridx.
Definition demo_ack (type n : Z) : list Z := fr_hdr type (key_of n).

Lemma demo_ack_for type n : ack_for type (key_of n) (demo_ack type n).
Proof.
  exists []. rewrite app_nil_r. split; [reflexivity|]. unfold demo_ack. rewrite length_fr_hdr.
  pose proof buf_len_eq as Hm. unfold MAX_BUFSIZE in Hm. lia.
Qed.

(** Before an answer: a timeout, and a late answer for key 9. *)
Definition demo_noise (type : Z) : list event := [Timeout; Dgram (demo_ack type 9) sockaddr_zero].

Lemma demo_stray type n : is_u16 type -> key_of 9 <> key_of n -> Forall (stray type (key_of n)) (demo_noise type).
Proof.
  intros Ht Hn. constructor; [exact I|]. constructor; [|constructor]. exists type, (key_of 9).
  split; [apply demo_ack_for|]. split; [exact Ht|]. split; [unfold key_wf, key_of, is_u32; cbn; lia|auto].
Qed.

Lemma demo_installation n : key_of 9 <> key_of n ->
  installation (key_of n) (demo_noise CACHE_POP_INSWITCH_ACK) (demo_noise SETVALID_INSWITCH_ACK)
    (demo_ack CACHE_POP_INSWITCH_ACK n) (demo_ack SETVALID_INSWITCH_ACK n) [].
Proof.
  intros Hn. split; try apply demo_ack_for; try (apply demo_stray; [|exact Hn]).
  - unfold is_u16, CACHE_POP_INSWITCH_ACK. lia.
  - unfold is_u16, SETVALID_INSWITCH_ACK. lia.
  - pose proof buf_len_eq as Hm. unfold MAX_BUFSIZE in Hm. cbn [length]. lia.
Qed.

Lemma demo_install_ok : install_ok demo_os_config.
Proof. split; unfold is_u16, is_s32, bucket_num; cbn; lia. Qed.

Definition demo_bufs (R C : list event) (P : list (list Z)) : Io :=
  mkIo (replicate buf_len 0) (replicate buf_len 0) (replicate buf_len 0) R C P [] 0.

Lemma demo_bufs_ok R C P : bufs_ok (demo_bufs R C P).
Proof. repeat split; apply length_replicate. Qed.

Definition demo_install (n : Z) : list event :=
  demo_noise CACHE_POP_INSWITCH_ACK ++ Dgram (demo_ack CACHE_POP_INSWITCH_ACK n) sockaddr_zero ::
  demo_noise SETVALID_INSWITCH_ACK ++ Dgram (demo_ack SETVALID_INSWITCH_ACK n) sockaddr_zero :: [].

Definition demo_half_pipe : Pipe := mkPipe [key_of 1; Key_default] [1; 0] 1.

Definition demo_free_os {M} : Os M :=
  mkOs (mq_init 4) [(key_of 1, 0)] [demo_half_pipe] [] [0; 0] (mkFlags false false false false false false)
    (demo_bufs (demo_noise SETVALID_INSWITCH_ACK ++ Dgram (demo_ack SETVALID_INSWITCH_ACK 2) sockaddr_zero :: demo_install 2)
       [] [le_bytes 4 (u32 21) ++ []]).

Lemma demo_pop_wf n sv : is_u32 n -> wire_record_wf (cp_key (demo_pop n sv), pop_record (demo_pop n sv)).
Proof. intros Hn. exact (demo_record_wf n 7 true Hn ltac:(unfold is_u32; lia)). Qed.
