(* ===== verification/SwitchEvict.v ===== *)
(** * Eviction over the network

    Without a free entry the popworker samples entries, loads their frequency
    counters, evicts the least frequently used one and puts the new record in its
    place.  [eviction_completes] describes a whole exchange; the theorems on the
    counters say which entry is chosen when a sample or an answer is repeated. *)

From Stdlib Require Import ZArith Lia List.
From stdpp Require Import base tactics list numbers option.
From S2P Require Import Prelude Cursor DynamicArray StdMap Crc32 Key Val DeletedSet Packet PacketCodec PacketCache PacketScan Outband PacketServer PacketSwitch Server Fragment Reassembly PktRingBuffer MessageQueue RecvLarge RecvSpec RecvProps SwitchOS SwitchMeta SwitchSnapshot SwitchLoad SwitchRollback SwitchPop.

Open Scope Z_scope.
Set Default Proof Using "Type".

(** ** Counters *)

(** The counter of the first sample of [key] is set. *)
Lemma store_freq_ok keys : forall i k f counters, NoDup keys -> length counters = length keys -> keys !! i = Some k ->
  store_freq keys k f counters = Some (<[i := f]> counters).
Proof.
  induction keys as [|k0 keys IH]; intros i k f [|c counters] Hnd Hl Hi; try discriminate.
  inversion_clear Hnd as [|? ? Hk0 Hnd']. cbn [store_freq]. destruct i as [|i].
  - cbn in Hi. injection Hi as ->. now rewrite bool_decide_eq_true_2 by reflexivity.
  - cbn in Hi. rewrite bool_decide_eq_false_2 by (intros ->; apply Hk0; eapply list_elem_of_lookup_2; eauto).
    rewrite (IH i k f counters Hnd') by (cbn in Hl; auto with lia). reflexivity.
Qed.

Lemma store_freq_inv keys : forall k f counters counters', store_freq keys k f counters = Some counters' ->
  length counters' = length counters /\
  exists i, keys !! i = Some k /\ (forall j, (j < i)%nat -> keys !! j <> Some k) /\
    counters' = <[i := f]> counters /\ (i < length counters)%nat.
Proof.
  induction keys as [|k0 keys IH]; intros k f [|c counters] counters'; cbn [store_freq]; try discriminate.
  case_bool_decide as Hk.
  - intros [= <-]. subst. split; [reflexivity|]. exists 0%nat. repeat split; [lia|cbn; lia].
  - destruct (store_freq keys k f counters) as [c'|] eqn:E; [|discriminate]. intros [= <-].
    apply IH in E as (L & i & Hi & Hj & -> & Hlt). split; [cbn; now rewrite length_insert|].
    exists (S i). split; [exact Hi|]. split; [|split; [reflexivity|cbn; lia]].
    intros [|j] Hj'; [cbn; congruence|]. apply Hj. lia.
Qed.

(** The first of the smallest counters is chosen. *)
Definition least (counters : list Z) (j : nat) : Prop :=
  exists f, counters !! j = Some f /\ (forall i c, (i < j)%nat -> counters !! i = Some c -> f < c) /\
    forall i c, (j < i)%nat -> counters !! i = Some c -> f <= c.

Lemma choose_victim_stay f i ids : forall cs, (forall k c, cs !! k = Some c -> f <= c) -> choose_victim false f i ids cs = i.
Proof.
  induction ids as [|i1 ids IH]; intros [|c1 cs] Hcs; cbn [choose_victim orb]; try reflexivity.
  pose proof (Hcs 0%nat c1 eq_refl). rewrite (proj2 (Z.ltb_ge _ _)) by lia. apply IH. intros k c Hk. exact (Hcs (S k) c Hk).
Qed.

Lemma choose_victim_from idxes : forall counters min best j i f,
  length counters = length idxes ->
  counters !! j = Some f -> idxes !! j = Some i -> f < min ->
  (forall k c, (k < j)%nat -> counters !! k = Some c -> f < c) -> (forall k c, (j < k)%nat -> counters !! k = Some c -> f <= c) ->
  choose_victim false min best idxes counters = i.
Proof.
  induction idxes as [|i0 idxes IH]; intros [|c0 counters] min best j i f Hl Hc Hi Hm H1 H2; try discriminate.
  cbn [choose_victim orb]. destruct j as [|j].
  - cbn in Hc, Hi. injection Hc as ->. injection Hi as ->. rewrite (proj2 (Z.ltb_lt _ _) Hm).
    apply choose_victim_stay. intros k c Hk. apply (H2 (S k)); [lia|exact Hk].
  - pose proof (H1 0%nat c0 ltac:(lia) eq_refl) as H0. cbn in Hl.
    destruct (c0 <? min) eqn:E; (eapply (IH counters _ _ j i f); [lia|exact Hc|exact Hi|lia| |]);
      intros k c Hk Hkc; [apply (H1 (S k) c)|apply (H2 (S k) c)|apply (H1 (S k) c)|apply (H2 (S k) c)]; (lia || exact Hkc).
Qed.

Lemma choose_victim_least idxes counters j i : length counters = length idxes -> least counters j -> idxes !! j = Some i ->
  choose_victim true 0 0 idxes counters = i.
Proof.
  intros Hl (f & Hf & H1 & H2) Hi. destruct idxes as [|i0 idxes], counters as [|c0 counters]; try discriminate.
  cbn [choose_victim orb]. destruct j as [|j].
  - cbn in Hf, Hi. injection Hf as ->. injection Hi as ->. clear H1.
    apply choose_victim_stay. intros k c Hk. apply (H2 (S k)); [lia|exact Hk].
  - eapply (choose_victim_from idxes counters c0 i0 j i f); [cbn in Hl; lia|exact Hf|exact Hi|apply (H1 0%nat); [lia|reflexivity]| |].
    + intros k c Hk Hc. apply (H1 (S k)); [lia|exact Hc].
    + intros k c Hk Hc. apply (H2 (S k)); [lia|exact Hc].
Qed.

(** ** Answers *)

Inductive freq_arrival :=
  | FTimeout
  | FAck (k : Key) (f : Z) (rest : list Z) (addr : sockaddr_in).

Definition freq_event (a : freq_arrival) : event :=
  match a with FTimeout => Timeout | FAck k f rest addr => Dgram (freq_ack k f ++ rest) addr end.

Definition freq_arrival_ok (keys : list Key) (a : freq_arrival) : Prop :=
  match a with
  | FTimeout => True
  | FAck k f rest addr => k ∈ keys /\ key_wf k /\ is_u32 f /\ (length (freq_ack k f ++ rest) <= buf_len)%nat
  end.

(** A round that has [acknum] answers ends at a timeout, or for good when it has
    [cnt]. *)
Fixpoint complete (cnt acknum : nat) (l : list freq_arrival) : Prop :=
  match l with
  | [] => False
  | FTimeout :: l' => complete cnt 0 l'
  | FAck _ _ _ _ :: l' => if (cnt <=? S acknum)%nat then l' = [] else complete cnt (S acknum) l'
  end.

Definition ftimeouts (l : list freq_arrival) : nat :=
  length (List.filter (fun a => match a with FTimeout => true | _ => false end) l).

Fixpoint apply_freqs (keys : list Key) (l : list freq_arrival) (counters : list Z) : list Z :=
  match l with
  | [] => counters
  | FTimeout :: l' => apply_freqs keys l' counters
  | FAck k f _ _ :: l' => apply_freqs keys l' (default counters (store_freq keys k f counters))
  end.

(** The last answer for [k]. *)
Fixpoint last_freq (k : Key) (l : list freq_arrival) (old : Z) : Z :=
  match l with
  | [] => old
  | FTimeout :: l' => last_freq k l' old
  | FAck k' f _ _ :: l' => last_freq k l' (if bool_decide (k' = k) then f else old)
  end.

(** What is recorded for the samples: the last answer, but 0 for a key that was
    sampled before. *)
Definition recorded (keys : list Key) (l : list freq_arrival) : list Z :=
  imap (fun i k => if bool_decide (k ∈ take i keys) then 0 else last_freq k l 0) keys.

Lemma elem_of_take_lookup (k : Key) keys : forall i, k ∈ take i keys <-> exists j, (j < i)%nat /\ keys !! j = Some k.
Proof.
  intros i. rewrite list_elem_of_lookup. split; intros (j & Hj); exists j.
  - rewrite lookup_take_Some in Hj. tauto.
  - rewrite lookup_take_Some. tauto.
Qed.

Lemma store_freq_at keys k f counters i k0 : k ∈ keys -> length counters = length keys -> keys !! i = Some k0 ->
  default counters (store_freq keys k f counters) !! i =
  if bool_decide (k0 ∈ take i keys) then counters !! i else if bool_decide (k = k0) then Some f else counters !! i.
Proof.
  intros Hk Hl Hi.
  assert (HS : is_Some (store_freq keys k f counters)).
  { clear i k0 Hi. revert counters Hl. induction keys as [|k1 keys IH]; intros [|c counters] Hl; try discriminate.
    - now apply not_elem_of_nil in Hk.
    - cbn [store_freq]. case_bool_decide as Hd; [eauto|]. apply elem_of_cons in Hk as [->|Hk]; [congruence|].
      destruct (IH Hk counters ltac:(cbn in Hl; lia)) as [c' ->]. eauto. }
  destruct HS as [c' E]. rewrite E. cbn [default].
  apply store_freq_inv in E as (_ & j & Hj & Hfirst & -> & Hlt).
  case_bool_decide as Ht.
  - apply elem_of_take_lookup in Ht as (j' & Hlt' & Hj'). apply list_lookup_insert_ne. intros ->.
    apply (Hfirst j' Hlt'). congruence.
  - case_bool_decide as Hd.
    + subst k0. assert (j = i) as ->; [|now apply list_lookup_insert_eq].
      destruct (Nat.lt_trichotomy j i) as [H|[H|H]]; [|exact H|].
      * destruct Ht. apply elem_of_take_lookup. eauto.
      * now destruct (Hfirst i H).
    + apply list_lookup_insert_ne. intros ->. congruence.
Qed.

Lemma length_store_freq keys k f counters : length (default counters (store_freq keys k f counters)) = length counters.
Proof. destruct (store_freq keys k f counters) eqn:E; [|reflexivity]. now apply store_freq_inv in E as [L _]. Qed.

Lemma apply_freqs_at keys l : forall counters i k, Forall (freq_arrival_ok keys) l -> length counters = length keys ->
  keys !! i = Some k ->
  apply_freqs keys l counters !! i =
  if bool_decide (k ∈ take i keys) then counters !! i else last_freq k l <$> counters !! i.
Proof.
  induction l as [|[|k' f rest addr] l IH]; intros counters i k Hl Hc Hi; cbn [apply_freqs last_freq].
  - destruct (lookup_lt_is_Some_2 counters i) as [c ->]; [rewrite Hc; eauto using lookup_lt_Some|]. now case_bool_decide.
  - apply Forall_cons_iff in Hl as [_ Hl]. now apply IH.
  - apply Forall_cons_iff in Hl as [(Hk & _) Hl].
    rewrite (IH _ i k Hl) by (rewrite ?length_store_freq; assumption).
    rewrite (store_freq_at keys k' f counters i k Hk Hc Hi).
    destruct (lookup_lt_is_Some_2 counters i) as [c ->]; [rewrite Hc; eauto using lookup_lt_Some|].
    repeat case_bool_decide; reflexivity || (exfalso; tauto).
Qed.

Lemma length_apply_freqs keys l : forall counters, length (apply_freqs keys l counters) = length counters.
Proof.
  induction l as [|[|k f rest addr] l IH]; intros counters; cbn [apply_freqs]; [reflexivity|apply IH|].
  now rewrite IH, length_store_freq.
Qed.

Lemma apply_freqs_recorded keys l : Forall (freq_arrival_ok keys) l ->
  apply_freqs keys l (replicate (length keys) 0) = recorded keys l.
Proof.
  intros Hl. apply list_eq. intros i. unfold recorded. rewrite list_lookup_imap.
  destruct (keys !! i) as [k|] eqn:Hi.
  - rewrite (apply_freqs_at keys l _ i k Hl) by (rewrite ?length_replicate; auto).
    rewrite lookup_replicate_2 by eauto using lookup_lt_Some. cbn. now case_bool_decide.
  - apply lookup_ge_None. rewrite length_apply_freqs, length_replicate. now apply lookup_ge_None.
Qed.

Section Evict.
Context {M : Type} `{Hsm : SpecialMap M}.

Lemma send_load_does t key idx v : is_u16 t -> key_wf key ->
  does (M := M) any (send_load t key idx) v tt (sends v [(ToReflector, load_wire t key (u16 idx))]) any.
Proof.
  intros Ht Hk. pose proof (u16_range idx) as Hi. unfold is_u16 in Hi. unfold send_load.
  assert (Hl : length (load_wire t key (u16 idx)) = 40%nat)
    by (unfold load_wire; rewrite !length_app, length_fr_hdr, !length_be, length_replicate; reflexivity).
  pose proof buf_len_eq as Hm. unfold MAX_BUFSIZE in Hm.
  eapply does_bind; [apply does_lift|].
  - unfold LoadInswitch_new. change (is_singleswitch CURMETHOD_ID) with true.
    rewrite (INVARIANT_true (0 <=? u16 idx)) by lia. reflexivity.
  - apply does_send_pkt; [|rewrite Hl; lia].
    pose proof (load_emits t key (u16 idx) MAX_BUFSIZE Ht Hk ltac:(unfold MAX_BUFSIZE; lia)) as H. now rewrite Hl.
Qed.

Definition freq_requests (keys : list Key) (idxes : list Z) : list (OsDest * list Z) :=
  zip_with (fun k i => (ToReflector, load_wire CACHE_EVICT_LOADFREQ_INSWITCH k (u16 i))) keys idxes.

Lemma send_loadfreqs_does keys : forall idxes v, Forall key_wf keys ->
  does (M := M) any (send_loadfreqs keys idxes) v tt (sends v (freq_requests keys idxes)) any.
Proof.
  induction keys as [|k keys IH]; intros [|i idxes] v Hk; cbn [send_loadfreqs freq_requests zip_with];
    try (rewrite sends_nil; apply does_ret).
  apply Forall_cons_iff in Hk as [Hk0 Hk]. eapply does_bind.
  - apply send_load_does; [unfold is_u16, CACHE_EVICT_LOADFREQ_INSWITCH; lia|exact Hk0].
  - pose proof (IH idxes (sends v [(ToReflector, load_wire CACHE_EVICT_LOADFREQ_INSWITCH k (u16 i))]) Hk) as H.
    rewrite sends_app in H. exact H.
Qed.

Lemma freq_answer (keys : list Key) (counters : list Z) k f rest (body : list Z -> os (M := M) (list Z)) s more n :
  k ∈ keys -> key_wf k -> is_u32 f -> length counters = length keys -> keys <> [] ->
  Z.of_nat (length (freq_ack k f ++ rest)) = n -> n < 2 ^ 32 -> ackbuf (os_io s) = (freq_ack k f ++ rest) ++ more ->
  ('(ack, frequency) ← parse_ack LoadfreqInswitchAck_parse n;
   match keys with
   | [] => mret counters
   | _ => match store_freq keys (p_key ack) frequency counters with
          | None => os_lift (Err ExitCalled)
          | Some counters' => body counters'
          end
   end) s = body (default counters (store_freq keys k f counters)) s.
Proof.
  intros Hk Hw Hf Hc Hne Hn Hmax Hb. unfold mbind, os_bind, parse_ack. rewrite Hb, <- app_assoc.
  assert (22 <= n < 2 ^ 32).
  { split; [|exact Hmax]. rewrite <- Hn, length_app. unfold freq_ack. rewrite length_app, length_fr_hdr, length_be. lia. }
  rewrite (reads_run _ _ _ _ (freq_ack_reads k f n Hw Hf H)). cbn [mbind res_bind p_key Packet_new].
  destruct (store_freq keys k f counters) as [c'|] eqn:E; [now destruct keys|].
  exfalso. clear -E Hk Hc. revert counters E Hc. induction keys as [|k1 keys IH]; intros [|c counters] E Hc; try discriminate.
  - now apply not_elem_of_nil in Hk.
  - cbn [store_freq] in E. case_bool_decide as Hd; [discriminate|]. apply elem_of_cons in Hk as [->|Hk]; [congruence|].
    destruct (store_freq keys k f counters) eqn:E'; [discriminate|]. eapply (IH Hk counters E'). cbn in Hc. lia.
Qed.

(** The whole exchange: every round sends all requests. *)
Lemma load_freqs_does keys idxes evs l : forall fuel counters acknum v,
  keys <> [] -> Forall key_wf keys -> Forall (freq_arrival_ok keys) l -> length counters = length keys ->
  complete (length keys) (default 0%nat acknum) l -> (length l < fuel)%nat ->
  does (M := M) any (load_freqs fuel keys idxes counters acknum) (v_set ToReflector (map freq_event l ++ evs) v)
    (apply_freqs keys l counters)
    (sends (v_set ToReflector evs v)
       (match acknum with None => freq_requests keys idxes | Some _ => [] end ++
        concat (replicate (ftimeouts l) (freq_requests keys idxes)))) any.
Proof.
  induction l as [|a l IH]; intros [|fuel] counters acknum v Hne Hk Hl Hc Hcomp Hf; cbn [complete length] in *; try contradiction; try lia.
  set (pre := match acknum with None => freq_requests keys idxes | Some _ => [] end).
  cbn [load_freqs map app]. apply (does_bind _ any _ _ _ _ (default 0%nat acknum) (sends (v_set ToReflector (freq_event a :: map freq_event l ++ evs) v) pre)).
  { destruct acknum as [n|]; cbn [default pre]; [rewrite sends_nil; apply does_ret|].
    eapply does_bind; [apply send_loadfreqs_does; exact Hk|apply does_ret]. }
  rewrite <- v_set_sends. apply Forall_cons_iff in Hl as [Ha Hl].
  assert (IH' := fun counters acknum => IH fuel counters acknum (sends v pre) Hne Hk Hl). clear IH.
  rewrite !v_set_sends in IH'. setoid_rewrite sends_app in IH'.
  destruct a as [|k f rest addr]; cbn [freq_event].
  - eapply does_bind; [apply recv_timeout; discriminate|]. apply (IH' counters None Hc Hcomp). lia.
  - destruct Ha as (Hin & Hw & Hfr & Hlen). pose proof buf_len_eq as Hm. unfold MAX_BUFSIZE in Hm.
    eapply recv_packet; [discriminate|exact Hlen| |].
    + intros s more Hb. refine (freq_answer keys counters k f rest _ s more _ Hin Hw Hfr Hc Hne eq_refl _ Hb). lia.
    + cbv beta. cbn [apply_freqs ftimeouts List.filter]. fold (ftimeouts l).
      destruct (length keys <=? S (default 0%nat acknum))%nat.
      * subst l. change (ftimeouts []) with 0%nat. cbn [replicate concat apply_freqs map app].
        rewrite app_nil_r, v_set_sends. apply does_ret.
      * specialize (IH' (default counters (store_freq keys k f counters)) (Some (S (default 0%nat acknum)))).
        cbn [default app] in IH'. apply IH'; [now rewrite length_store_freq|exact Hcomp|lia].
Qed.

Context (cfg : OsConfig) (rand : nat -> Z).

(** ** The steps of an eviction *)

Fixpoint samples (c n : nat) : list Z :=
  match n with O => [] | S n' => u32 (rand c) mod switch_kv_bucket_num cfg :: samples (S c) n' end.

Definition drew (v : View) (n : nat) : View := mkView (v_reflector v) (v_controller v) (v_ptf v) (v_sent v) (v_rand v + n).

Lemma sample_idxes_does n : forall v, switch_kv_bucket_num cfg <> 0 ->
  does (M := M) any (sample_idxes cfg rand n) v (samples (v_rand v) n) (drew v n) any.
Proof.
  induction n as [|n IH]; intros v Hb; cbn [sample_idxes samples].
  - replace (drew v 0) with v by (unfold drew; rewrite Nat.add_0_r; now destruct v). apply does_ret.
  - apply (does_bind _ any _ _ _ _ (u32 (rand (v_rand v)) mod switch_kv_bucket_num cfg) (drew v 1)).
    + intros s B _ <-. unfold sample_idx. rewrite (proj2 (Z.eqb_neq _ _) Hb). eexists. split; [reflexivity|].
      split; [exact B|]. split; [constructor|]. unfold io_view, drew. cbn. now rewrite Nat.add_1_r.
    + eapply does_bind; [exact (IH (drew v 1) Hb)|].
      replace (drew (drew v 1) n) with (drew v (S n)) by (unfold drew; cbn; now rewrite Nat.add_succ_r, Nat.add_1_r).
      cbn [drew v_rand]. rewrite Nat.add_1_r. apply does_ret.
Qed.

Lemma sampled_keys_ok p idxes : pipe_ok cfg p -> Forall (fun i => 0 <= i < switch_kv_bucket_num cfg) idxes ->
  exists keys, sampled_keys p idxes = Ok keys /\ length keys = length idxes /\
    forall j i, idxes !! j = Some i -> cached_keyarray p !! Z.to_nat i = keys !! j.
Proof.
  intros [Hk _ _]. unfold bucket_num in Hk. induction 1 as [|i idxes Hi _ (keys & E & L & H)]; [now exists []|].
  destruct (lookup_lt_is_Some_2 (cached_keyarray p) (Z.to_nat i)) as [k Hik]; [lia|].
  exists (k :: keys). cbn [sampled_keys]. rewrite (proj2 (arr_get_Ok _ _ _) Hik). cbn [mbind res_bind]. rewrite E.
  split; [reflexivity|]. split; [cbn; lia|]. intros [|j] i' Hj; [injection Hj as <-; exact Hik|exact (H j i' Hj)].
Qed.

Lemma samples_range n : forall c, 0 < switch_kv_bucket_num cfg -> Forall (fun i => 0 <= i < switch_kv_bucket_num cfg) (samples c n).
Proof.
  induction n as [|n IH]; intros c Hb; cbn [samples]; constructor; [|now apply IH]. now apply Z.mod_pos_bound.
Qed.

Lemma length_samples n : forall c, length (samples c n) = n.
Proof. induction n as [|n IH]; intros c; cbn; [reflexivity|now rewrite IH]. Qed.

Lemma choose_does p keys l evs v :
  0 < switch_kv_bucket_num cfg -> sampled_keys p (samples (v_rand v) (switchos_sample_cnt cfg)) = Ok keys ->
  keys <> [] -> Forall key_wf keys -> Forall (freq_arrival_ok keys) l -> complete (length keys) 0 l ->
  does (M := M) any (choose_evictidx cfg rand p) (v_set ToReflector (map freq_event l ++ evs) v)
    (choose_victim true 0 0 (samples (v_rand v) (switchos_sample_cnt cfg)) (recorded keys l))
    (sends (v_set ToReflector evs (drew v (switchos_sample_cnt cfg)))
       (concat (replicate (S (ftimeouts l)) (freq_requests keys (samples (v_rand v) (switchos_sample_cnt cfg)))))) any.
Proof.
  intros Hb Hk Hne Hw Hl Hc. unfold choose_evictidx.
  eapply does_bind; [apply sample_idxes_does; lia|]. cbn [v_set v_rand]. eapply does_bind; [apply does_lift; exact Hk|].
  eapply does_bind; [apply does_fuel|].
  rewrite <- (apply_freqs_recorded keys l Hl).
  eapply does_bind; [apply (load_freqs_does keys _ evs l _ (replicate (length keys) 0) None (drew v (switchos_sample_cnt cfg)) Hne Hw Hl)|apply does_ret].
  - apply length_replicate.
  - exact Hc.
  - cbn. rewrite length_app, length_map. lia.
Qed.

(** Loading the record of the victim. *)
Lemma load_evictdata_does key idx r sh tok rest addr td evs v : wire_record_wf (key, r) ->
  (length (data_ack key r sh tok ++ rest) <= buf_len)%nat ->
  does (M := M) any (load_evictdata key idx) (v_set ToReflector (replicate td Timeout ++ Dgram (data_ack key r sh tok ++ rest) addr :: evs) v) r
    (sends (v_set ToReflector evs v)
       (replicate (S td) (ToReflector, load_wire CACHE_EVICT_LOADDATA_INSWITCH key (u16 idx)))) any.
Proof.
  intros Hr Hl. unfold load_evictdata. eapply does_bind; [apply does_fuel|]. rewrite v_sock_set. apply ask_timeouts.
  - discriminate.
  - intros w. apply send_load_does; [unfold is_u16, CACHE_EVICT_LOADDATA_INSWITCH; lia|apply Hr].
  - eapply parse_answers; [exact Hl| |].
    + apply data_ack_reads; [exact Hr|]. pose proof buf_len_eq as Hm. unfold MAX_BUFSIZE in Hm. rewrite length_app in *. lia.
    + intros s. cbn [p_key Packet_new]. unfold mbind, os_bind, os_check, os_lift.
      rewrite bool_decide_eq_true_2 by reflexivity. reflexivity.
  - rewrite length_app, length_replicate. cbn. lia.
Qed.

Definition evict_type (is_case2 : bool) : Z := if is_case2 then CACHE_EVICT_CASE2 else CACHE_EVICT.

(** Handing the record over. *)
Lemma send_evict_does case2 key r serveridx ack addr tc evs v : is_u16 (os_uninit cfg) -> wire_record_wf (key, r) -> is_u16 serveridx ->
  ack_for CACHE_EVICT_ACK key ack ->
  does (M := M) any (send_evict cfg case2 key r serveridx) (v_set ToController (replicate tc Timeout ++ Dgram ack addr :: evs) v) tt
    (sends (v_set ToController evs v) (replicate (S tc) (ToController, evict_wire (evict_type case2) key r serveridx))) any.
Proof.
  intros Hu Hr Hsv Ha. pose proof Hr as (Hk & [Hvw Hvl] & Hs). cbn [fst snd] in *. unfold is_u32, is_u16 in *.
  set (wire := evict_wire (evict_type case2) key r serveridx).
  pose proof buf_len_eq as Hm. unfold MAX_BUFSIZE in Hm. pose proof (wire_record_small _ _ Hr) as Hsz.
  assert (Hwl : length wire = (25 + val_wire_size (sr_val r))%nat).
  { unfold wire, evict_wire. rewrite !length_app, length_fr_hdr, length_val_wire, !length_be. cbn [length]. lia. }
  assert (Ht : is_u16 (evict_type case2)) by (unfold is_u16; destruct case2; cbn; unfold CACHE_EVICT_CASE2, CACHE_EVICT; lia).
  pose proof (evict_emits (os_uninit cfg) (evict_type case2) key r serveridx MAX_BUFSIZE Hu Ht Hr
    ltac:(fold wire; unfold MAX_BUFSIZE; lia)) as He. fold wire in He.
  assert (Hnew : (if case2 then CacheEvictCase2_new (os_uninit cfg) CURMETHOD_ID key (sr_val r) (sr_seq r) (sr_stat r) serveridx
    else CacheEvict_new (os_uninit cfg) CURMETHOD_ID key (sr_val r) (sr_seq r) (sr_stat r) serveridx) =
    Ok (mkCachePop (mkPutRequestSeq (fr_base (os_uninit cfg) (evict_type case2) key) (sr_val r) (sr_seq r) 0) (sr_stat r) serveridx)).
  { unfold CacheEvictCase2_new, CacheEvict_new, PutRequestSeq_new. rewrite (Val_copy_wf _ Hvw). cbn [qs_val set_qs_type].
    rewrite (INVARIANT_true (val_length (sr_val r) <=? SWITCH_MAX_VALLEN)) by (apply Z.leb_le; exact Hvl).
    rewrite (INVARIANT_true (0 <=? sr_seq r)) by lia. rewrite (INVARIANT_true (0 <=? serveridx)) by lia.
    destruct case2; reflexivity. }
  unfold send_evict. apply (does_bind _ (starts wire) _ _ _ _ (Z.of_nat (length wire)) (v_set ToController (replicate tc Timeout ++ Dgram ack addr :: evs) v)).
  - destruct case2; (eapply does_bind; [apply does_lift; exact Hnew|]); (apply does_fill; [exact He|lia]).
  - eapply does_any. eapply does_bind; [apply does_fuel|]. rewrite v_sock_set. apply ask_timeouts.
    + discriminate.
    + intros w. apply does_send_pktbuf.
    + pose proof (ack_len _ _ _ Ha) as Hlen. destruct Ha as (rest & -> & Hl). eapply parse_answers; [exact Hl| |].
      * apply host_ack_reads; [unfold is_u16, CACHE_EVICT_ACK; lia|exact Hk|exact Hlen].
      * intros s. cbn [p_key Packet_new]. unfold mbind, os_bind, os_check, os_lift.
        rewrite bool_decide_eq_true_2 by reflexivity. reflexivity.
    + rewrite length_app, length_replicate. cbn. lia.
Qed.

(** ** A whole eviction *)

(** What arrives: the frequencies, the acknowledgement of validity 3 (after
    [ev_ns3]), the record (after [ev_td] timeouts), the acknowledgement of the
    controller (after [ev_tc] timeouts), that of validity 0 (after [ev_ns0]), and
    the answer of ptf. *)
Record Eviction := mkEviction {
  ev_freqs : list freq_arrival;
  ev_ns3 : list event; ev_a3 : list Z; ev_d3 : sockaddr_in;
  ev_td : nat; ev_record : SnapshotRecord; ev_sh : Z; ev_tok : Z; ev_rest : list Z; ev_dd : sockaddr_in;
  ev_tc : nat; ev_ack : list Z; ev_dc : sockaddr_in;
  ev_ns0 : list event; ev_a0 : list Z; ev_d0 : sockaddr_in;
  ev_more : list Z
}.

Definition data_bytes (e : Eviction) (key : Key) : list Z := data_ack key (ev_record e) (ev_sh e) (ev_tok e) ++ ev_rest e.

Record eviction_ok (keys : list Key) (key : Key) (e : Eviction) : Prop := {
  eo_keys : keys <> [] /\ Forall key_wf keys;
  eo_freqs : Forall (freq_arrival_ok keys) (ev_freqs e);
  eo_complete : complete (length keys) 0 (ev_freqs e);
  eo_ns3 : Forall (stray SETVALID_INSWITCH_ACK key) (ev_ns3 e);
  eo_a3 : ack_for SETVALID_INSWITCH_ACK key (ev_a3 e);
  eo_record : wire_record_wf (key, ev_record e);
  eo_data : (length (data_bytes e key) <= buf_len)%nat;
  eo_ack : ack_for CACHE_EVICT_ACK key (ev_ack e);
  eo_ns0 : Forall (stray SETVALID_INSWITCH_ACK key) (ev_ns0 e);
  eo_a0 : ack_for SETVALID_INSWITCH_ACK key (ev_a0 e);
  eo_more : (length (ev_more e) + 4 <= buf_len)%nat
}.

Definition from_reflector (e : Eviction) (key : Key) (R : list event) : list event :=
  map freq_event (ev_freqs e) ++ ev_ns3 e ++ Dgram (ev_a3 e) (ev_d3 e) ::
  replicate (ev_td e) Timeout ++ Dgram (data_bytes e key) (ev_dd e) :: ev_ns0 e ++ Dgram (ev_a0 e) (ev_d0 e) :: R.
Definition from_controller (e : Eviction) (C : list event) : list event :=
  replicate (ev_tc e) Timeout ++ Dgram (ev_ack e) (ev_dc e) :: C.
Definition from_ptf (e : Eviction) : list Z := le_bytes 4 (u32 (SWITCHOS_REMOVE_CACHE_LOOKUP_ACK cfg)) ++ ev_more e.

(** What is sent for the victim [key] at [idx] of server [sv]. *)
Definition evicted (e : Eviction) (keys : list Key) (idxes : list Z) (key : Key) (idx sv : Z) (case2 : bool)
    : list (OsDest * list Z) :=
  concat (replicate (S (ftimeouts (ev_freqs e))) (freq_requests keys idxes)) ++
  replicate (S (length (ev_ns3 e))) (ToReflector, setvalid_wire key idx 3) ++
  replicate (S (ev_td e)) (ToReflector, load_wire CACHE_EVICT_LOADDATA_INSWITCH key idx) ++
  replicate (S (ev_tc e)) (ToController, evict_wire (evict_type case2) key (ev_record e) sv) ++
  replicate (S (length (ev_ns0 e))) (ToReflector, setvalid_wire key idx 0) ++
  [(ToPtf, remove_wire cfg key)].

(** The backups after the eviction: a special case is stored during a snapshot. *)
Definition backups_after (case2 : bool) (bs bs' : list (Backup M)) (idx : Z) (key : Key) (r : SnapshotRecord) : Prop :=
  if case2 then process_specialcase cfg bs idx key (sr_val r) (sr_seq r) (sr_stat r) = Ok bs' else bs' = bs.

(** The sampled entries and the chosen one. *)
Record chosen (p : Pipe) (rand0 : nat) (e : Eviction) (keys : list Key) (idx : Z) (victim : Key) (sv : Z) : Prop := {
  ch_keys : sampled_keys p (samples rand0 (switchos_sample_cnt cfg)) = Ok keys;
  ch_least : exists j, least (recorded keys (ev_freqs e)) j /\ samples rand0 (switchos_sample_cnt cfg) !! j = Some idx;
  ch_victim : cached_keyarray p !! Z.to_nat idx = Some victim;
  ch_server : cached_serveridxarray p !! Z.to_nat idx = Some sv
}.

Lemma length_sampled_keys p idxes : forall keys, sampled_keys p idxes = Ok keys -> length keys = length idxes.
Proof.
  induction idxes as [|i idxes IH]; intros keys; cbn [sampled_keys]; [now intros [= <-]|].
  intros (k & _ & H)%bind_Ok. apply bind_Ok in H as (ks & E & [= <-]). cbn. now rewrite (IH ks E).
Qed.

Context (Hcfg : install_ok cfg).

Lemma evict_runs pidx p s e keys idx victim sv bs R C P S n :
  0 < bucket_num cfg -> pipes s !! Z.to_nat pidx = Some p -> chosen p n e keys idx victim sv ->
  eviction_ok keys victim e -> is_u16 sv -> is_Some (m_find victim (cached_keyidx_map s)) ->
  backups_after (in_case2 (os_flags s)) (backups s) bs idx victim (ev_record e) ->
  bufs_ok (os_io s) -> io_view (os_io s) = mkView (from_reflector e victim R) (from_controller e C) (from_ptf e :: P) S n ->
  exists io,
    evict cfg rand pidx s = Ok (idx, set_io io (set_backups bs (set_meta (m_erase victim (cached_keyidx_map s))
      (<[Z.to_nat pidx := set_entry idx Key_default (u16 (-1)) p]> (pipes s)) s))) /\ bufs_ok io /\
    io_view io = mkView R C P (S ++ evicted e keys (samples n (switchos_sample_cnt cfg)) victim idx sv (in_case2 (os_flags s)))
                   (n + switchos_sample_cnt cfg).
Proof using Hcfg.
  intros Hb Hp [Hks (j & Hj & Hij) Hvk Hsv] He Hsv16 Hm Hbs B V. destruct He as [[K1 K2] F1 F2 N3 A3 Hr Hd Ha N0 A0 Hmo].
  destruct Hcfg as [Hu _ Hrem Hbk]. unfold bucket_num in Hb, Hbk. pose proof (proj1 Hr) as Hk. cbn [fst] in Hk.
  assert (Hrange : 0 <= idx < switch_kv_bucket_num cfg).
  { pose proof (samples_range (switchos_sample_cnt cfg) n Hb) as Hall. rewrite Forall_lookup in Hall. exact (Hall j idx Hij). }
  assert (Hi16 : is_u16 idx) by (unfold is_u16; lia).
  set (v0 := mkView [] (from_controller e C) (from_ptf e :: P) S n).
  set (R3 := ev_ns0 e ++ Dgram (ev_a0 e) (ev_d0 e) :: R).
  set (R2 := replicate (ev_td e) Timeout ++ Dgram (data_bytes e victim) (ev_dd e) :: R3).
  set (R1 := ev_ns3 e ++ Dgram (ev_a3 e) (ev_d3 e) :: R2).
  destruct (choose_does p keys (ev_freqs e) R1 v0 Hb Hks K1 K2 F1 F2) with (s := s) as (io1 & E1 & B1 & _ & V1);
    [exact B|exact I|exact V|].
  rewrite (choose_victim_least _ _ j idx) in E1;
    [|unfold recorded; rewrite length_imap; exact (length_sampled_keys p _ _ Hks)|exact Hj|exact Hij].
  destruct (setvalid_does (M := M) victim idx 3 (ev_ns3 e) (ev_a3 e) (ev_d3 e) R2 (io_view io1) Hk
    (conj Hi16 (or_intror (or_intror eq_refl))) N3 A3) with (s := set_io io1 s) as (io2 & E2 & B2 & _ & V2);
    [exact B1|exact I|cbn [os_io set_io]; now rewrite V1|].
  destruct (load_evictdata_does victim idx (ev_record e) (ev_sh e) (ev_tok e) (ev_rest e) (ev_dd e) (ev_td e) R3 (io_view io2) Hr Hd)
    with (s := set_io io2 s) as (io3 & E3 & B3 & _ & V3); [exact B2|exact I|cbn [os_io set_io]; now rewrite V2|].
  rewrite (u16_id idx Hi16) in V3.
  destruct (send_evict_does (in_case2 (os_flags s)) victim (ev_record e) sv (ev_ack e) (ev_dc e) (ev_tc e) C (io_view io3) Hu Hr Hsv16 Ha)
    with (s := set_io io3 s) as (io4 & E4 & B4 & _ & V4); [exact B3|exact I|cbn [os_io set_io]; now rewrite V3, V2, V1|].
  set (s4 := set_backups bs s).
  destruct (setvalid_does (M := M) victim idx 0 (ev_ns0 e) (ev_a0 e) (ev_d0 e) R (io_view io4) Hk
    (conj Hi16 (or_introl eq_refl)) N0 A0) with (s := set_io io4 s4) as (io5 & E5 & B5 & _ & V5);
    [exact B4|exact I|cbn [os_io set_io]; now rewrite V4, V3|].
  assert (Hrl : length (remove_wire cfg victim) = 20%nat) by (unfold remove_wire; rewrite length_app, length_le_bytes, length_key_wire; reflexivity).
  pose proof (remove_emits cfg victim Hk) as Hre. replace 20 with (Z.of_nat (length (remove_wire cfg victim))) in Hre by (now rewrite Hrl).
  pose proof buf_len_eq as Hmax. unfold MAX_BUFSIZE in Hmax.
  destruct (ptf_does (M := M) _ _ (SWITCHOS_REMOVE_CACHE_LOOKUP_ACK cfg) (ev_more e) P (io_view io5) Hre) with (s := set_io io5 s4)
    as (io6 & E6 & B6 & _ & V6); [lia|exact Hrem|exact Hmo|now rewrite V5, V4, V3, V2, V1|exact B5|exact I|reflexivity|].
  exists io6. split; [|split; [exact B6|]].
  - unfold evict, mbind, os_bind, os_gets. fold (in_case2 (os_flags s)). unfold get_pipe at 1.
    rewrite (proj2 (arr_get_Ok _ _ _) Hp). cbn [mbind res_bind]. rewrite E1. unfold os_check at 1, os_lift.
    rewrite INVARIANT_true by lia. rewrite (proj2 (arr_get_Ok _ _ _) Hvk). unfold require_cached. cbn [cached_keyidx_map set_io].
    destruct Hm as [i0 ->]. rewrite (u16_id idx Hi16), E2, set_io_io, E3, set_io_io, (proj2 (arr_get_Ok _ _ _) Hsv), E4, set_io_io.
    assert (Es : store_case2 cfg (in_case2 (os_flags s)) idx victim (ev_record e) (set_io io4 s) = Ok (tt, set_io io4 s4)).
    { unfold store_case2, backups_after in *. cbn [backups set_io]. destruct (in_case2 (os_flags s)).
      - rewrite Hbs. reflexivity.
      - subst bs. unfold s4. now destruct s. }
    rewrite Es, E5, set_io_io, E6, set_io_io. reflexivity.
  - rewrite V6, V5, V4, V3, V2, V1. clear. subst v0. cbn [sends v_set drew v_reflector v_controller v_ptf v_sent v_rand].
    unfold evicted. rewrite <- !app_assoc. reflexivity.
Qed.

End Evict.

(** C14: in a full pipeline a sampled entry makes room, and its record reaches its
    server before it leaves the switch.  The victim is the first sample whose recorded
    counter is smallest; recorded is the last answer for the key, but 0 for a key that
    was drawn before in the same sample ([recorded]), so that a key drawn twice is
    chosen whatever its frequency.  The popworker freezes the victim (validity 3),
    loads its record, hands it to the controller until that acknowledges it, keeps it
    as a special case during a snapshot, and only then invalidates the entry and
    removes the key from the lookup table; the new record takes the entry over, and the
    metadata afterwards has the new key in place of the victim.  Every exchange with
    the reflector and the controller gets through any number of timeouts; stray packets
    are allowed for in the exchanges that set the validity and the one that populates,
    not in those that load counters and record or hand the record over. *)
Theorem eviction_completes {M} `{Hsm : SpecialMap M} (cfg : OsConfig) (rand : nat -> Z) (pop : CachePop) (s : Os M)
    (n : Z) (p : Pipe) (e : Eviction) (keys : list Key) (idx : Z) (victim : Key) (sv : Z) (bs : list (Backup M))
    (ns1 ns2 : list event) (a1 a2 more : list Z) (d1 d2 : sockaddr_in) (R C : list event) (P : list (list Z)) :
  let key := cp_key pop in
  install_ok cfg -> 0 < bucket_num cfg -> wire_record_wf (key, pop_record pop) ->
  find_pipe cfg (cp_serveridx pop) = Ok n -> pipes s !! Z.to_nat n = Some p -> pipe_ok cfg p ->
  bucket_num cfg <= cached_empty_index p ->
  chosen cfg rand p (rand_calls (os_io s)) e keys idx victim sv -> eviction_ok keys victim e -> is_u16 sv ->
  is_Some (m_find victim (cached_keyidx_map s)) ->
  backups_after cfg (in_case2 (os_flags s)) (backups s) bs idx victim (ev_record e) ->
  installation key ns1 ns2 a1 a2 more -> bufs_ok (os_io s) ->
  reflector_sock (os_io s) = from_reflector e victim (ns1 ++ Dgram a1 d1 :: ns2 ++ Dgram a2 d2 :: R) ->
  controller_sock (os_io s) = from_controller e C ->
  ptf_sock (os_io s) = from_ptf cfg e :: (le_bytes 4 (u32 (SWITCHOS_ADD_CACHE_LOOKUP_ACK cfg)) ++ more) :: P ->
  exists b io,
    populate cfg rand pop s
      = Ok (tt, set_io io (set_backups bs (set_meta (m_insert key idx (m_erase victim (cached_keyidx_map s)))
                  (<[Z.to_nat n := set_entry idx key (cp_serveridx pop) p]> (pipes s)) s))) /\
    bufs_ok io /\ reflector_sock io = R /\ controller_sock io = C /\ ptf_sock io = P /\
    io_sent io = io_sent (os_io s) ++
      evicted cfg e keys (samples cfg rand (rand_calls (os_io s)) (switchos_sample_cnt cfg)) victim idx sv (in_case2 (os_flags s)) ++
      installed cfg pop idx ns1 ns2 b.
Proof.
  intros key Hcfg Hb Hr Hn Hp Hpo Hfull Hch He Hsv Hm Hbs Hin B HR HC HP.
  rewrite (populate_unfold cfg rand pop s n p Hn Hp). rewrite (proj2 (Z.ltb_ge _ _)) by exact Hfull.
  destruct (evict_runs cfg rand Hcfg n p s e keys idx victim sv bs (ns1 ++ Dgram a1 d1 :: ns2 ++ Dgram a2 d2 :: R) C
    ((le_bytes 4 (u32 (SWITCHOS_ADD_CACHE_LOOKUP_ACK cfg)) ++ more) :: P) (io_sent (os_io s)) (rand_calls (os_io s))
    Hb Hp Hch He Hsv Hm Hbs B) as (io1 & E1 & B1 & V1); [unfold io_view; now rewrite HR, HC, HP|].
  set (s1 := set_io io1 _) in E1.
  assert (Hi : 0 <= idx < bucket_num cfg).
  { destruct Hch as [_ (j & _ & Hj) _ _]. pose proof (samples_range cfg rand (switchos_sample_cnt cfg) (rand_calls (os_io s)) Hb) as Hall.
    rewrite Forall_lookup in Hall. exact (Hall j idx Hj). }
  destruct (fun H1 H2 H3 H4 => install_runs cfg Hcfg n (set_entry idx Key_default (u16 (-1)) p) pop idx ns1 a1 d1 ns2 a2 d2 more R C P
    _ _ s1 Hin Hr H1 H2 H3 H4 V1) as (b & io & E & B2 & V).
  - cbn. apply list_lookup_insert_eq. eauto using lookup_lt_Some.
  - now apply pipe_ok_set.
  - exact Hi.
  - exact B1.
  - exists b, io. unfold io_view in V. injection V as V1' V2 V3 V4 _. split; [|do 4 (split; [assumption|])].
    + unfold mbind at 1, os_bind at 1. rewrite E1, E. unfold s1. cbn [pipes cached_keyidx_map set_io set_backups set_meta].
      now rewrite list_insert_insert_eq, set_entry_twice.
    + rewrite V4. now rewrite <- app_assoc.
Qed.

(** ** A concrete eviction, during a snapshot *)

Definition demo_full_pipe : Pipe := mkPipe [key_of 1; key_of 2] [1; 0] 2.
Definition demo_full_backup (m : case_map) : Backup case_map := mkBackup (Some [key_of 1; key_of 2]) (Some [1; 0]) 2 (Some m).

Definition demo_eviction : Eviction :=
  mkEviction [FTimeout; FAck (key_of 2) 5 [] sockaddr_zero]
    (demo_noise SETVALID_INSWITCH_ACK) (demo_ack SETVALID_INSWITCH_ACK 2) sockaddr_zero
    1 (demo_record 7 true) 0 0 [] sockaddr_zero
    1 (demo_ack CACHE_EVICT_ACK 2) sockaddr_zero
    (demo_noise SETVALID_INSWITCH_ACK) (demo_ack SETVALID_INSWITCH_ACK 2) sockaddr_zero [].

Definition demo_full_os : Os case_map :=
  mkOs (mq_init 4) [(key_of 1, 0); (key_of 2, 1)] [demo_full_pipe] [demo_full_backup sm_empty] [0; 0]
    (mkFlags false false true false false false)
    (demo_bufs (from_reflector demo_eviction (key_of 2) (demo_install 3)) (from_controller demo_eviction [])
       [from_ptf demo_os_config demo_eviction; le_bytes 4 (u32 21) ++ []]).

Lemma demo_eviction_ok : eviction_ok [key_of 2] (key_of 2) demo_eviction.
Proof.
  pose proof buf_len_eq as Hm. unfold MAX_BUFSIZE in Hm.
  assert (Hk : key_wf (key_of 2)) by (unfold key_wf, key_of, is_u32; cbn; lia).
  split; cbn [ev_freqs ev_ns3 ev_a3 ev_record ev_ack ev_ns0 ev_a0 ev_more demo_eviction]; try apply demo_ack_for;
    try (apply demo_stray; [unfold is_u16, SETVALID_INSWITCH_ACK; lia|discriminate]).
  - split; [discriminate|]. constructor; [exact Hk|constructor].
  - constructor; [exact I|]. constructor; [|constructor]. split; [constructor|]. split; [exact Hk|].
    split; [unfold is_u32; lia|]. unfold freq_ack. rewrite !length_app, length_fr_hdr, length_be. cbn [length]. lia.
  - reflexivity.
  - apply demo_record_wf; unfold is_u32; lia.
  - unfold data_bytes, data_ack. cbn [ev_record ev_sh ev_tok ev_rest demo_eviction sr_val demo_record].
    rewrite !length_app, length_fr_hdr, !length_be. change (length (val_wire demo_val)) with 10%nat. cbn [length]. lia.
  - cbn [length]. lia.
Qed.

Lemma eviction_completes_witness :
  exists b io,
    populate demo_os_config (fun _ => 1) (demo_pop 3 0) demo_full_os
      = Ok (tt, set_io io (set_backups
                  [demo_full_backup (sm_insert 1 (mkSpecialCase (key_of 2) demo_val 7 true) sm_empty)]
                  (set_meta [(key_of 1, 0); (key_of 3, 1)] [mkPipe [key_of 1; key_of 3] [1; 0] 2] demo_full_os))) /\
    bufs_ok io /\ reflector_sock io = [] /\ controller_sock io = [] /\ ptf_sock io = [] /\
    io_sent io = [] ++ evicted demo_os_config demo_eviction [key_of 2] [1] (key_of 2) 1 0 true ++
      installed demo_os_config (demo_pop 3 0) 1 (demo_noise CACHE_POP_INSWITCH_ACK) (demo_noise SETVALID_INSWITCH_ACK) b.
Proof.
  apply (eviction_completes demo_os_config (fun _ => 1) (demo_pop 3 0) demo_full_os 0 demo_full_pipe demo_eviction
    [key_of 2] 1 (key_of 2) 0 [demo_full_backup (sm_insert 1 (mkSpecialCase (key_of 2) demo_val 7 true) sm_empty)]
    (demo_noise CACHE_POP_INSWITCH_ACK) (demo_noise SETVALID_INSWITCH_ACK) (demo_ack CACHE_POP_INSWITCH_ACK 3)
    (demo_ack SETVALID_INSWITCH_ACK 3) [] sockaddr_zero sockaddr_zero [] [] []).
  - exact demo_install_ok.
  - reflexivity.
  - apply demo_pop_wf. unfold is_u32. lia.
  - reflexivity.
  - reflexivity.
  - split; [reflexivity..|unfold bucket_num; cbn; lia].
  - discriminate.
  - split; [reflexivity| |reflexivity..]. exists 0%nat. split; [|reflexivity]. exists 5.
    split; [reflexivity|]. split; intros [|i] c Hi; try (now inversion Hi); discriminate.
  - exact demo_eviction_ok.
  - unfold is_u16. lia.
  - exists 1. reflexivity.
  - reflexivity.
  - apply (demo_installation 3). discriminate.
  - apply demo_bufs_ok.
  - reflexivity.
  - reflexivity.
  - reflexivity.
Defined.

(** ** Repeated samples *)

Lemma sampled_keys_at p idxes : forall keys j i k, sampled_keys p idxes = Ok keys -> idxes !! j = Some i -> keys !! j = Some k ->
  cached_keyarray p !! Z.to_nat i = Some k.
Proof.
  induction idxes as [|i0 idxes IH]; intros keys j i k; [discriminate|]. cbn [sampled_keys].
  intros (k0 & Hk0 & (ks & E & [= <-])%bind_Ok)%bind_Ok Hi Hk. destruct j as [|j].
  - injection Hi as <-. injection Hk as <-. now apply arr_get_Ok.
  - exact (IH ks j i k E Hi Hk).
Qed.

(** A key that is sampled twice keeps counter 0 at its second sample. *)
Lemma least_duplicate keys l j k : keys !! j = Some k -> k ∈ take j keys -> NoDup (take j keys) ->
  (forall k', k' ∈ keys -> 0 < last_freq k' l 0) -> least (recorded keys l) j.
Proof.
  intros Hj Hk Hnd Hpos. unfold least, recorded. exists 0. rewrite list_lookup_imap, Hj. cbn.
  rewrite bool_decide_eq_true_2 by exact Hk. split; [reflexivity|].
  split; intros i c Hi; rewrite list_lookup_imap; destruct (keys !! i) as [k'|] eqn:E; cbn; intros [= <-];
    pose proof (Hpos k' (list_elem_of_lookup_2 _ _ _ E)); [|case_bool_decide; lia].
  rewrite bool_decide_eq_false_2; [assumption|]. intros (i' & Hi' & E')%elem_of_take_lookup.
  enough (i' = i) by lia. eapply NoDup_lookup; [exact Hnd|apply lookup_take_Some..]; eauto with lia.
Qed.

(** Sampling draws with replacement, and an acknowledgement sets the counter
    of the first sample of its key only.  So when an entry is drawn twice, the
    second draw keeps counter 0 and that entry is evicted, even if it is the most
    frequently used one of the sample and all others are used less. *)
Theorem duplicate_sample_evicted {M} `{Hsm : SpecialMap M} (cfg : OsConfig) (rand : nat -> Z) (p : Pipe) (s : Os M)
    (keys : list Key) (l : list freq_arrival) (R : list event) (j : nat) (k : Key) :
  let idxes := samples cfg rand (rand_calls (os_io s)) (switchos_sample_cnt cfg) in
  0 < bucket_num cfg -> sampled_keys p idxes = Ok keys -> Forall key_wf keys ->
  Forall (freq_arrival_ok keys) l -> complete (length keys) 0 l -> (forall k', k' ∈ keys -> 0 < last_freq k' l 0) ->
  keys !! j = Some k -> k ∈ take j keys -> NoDup (take j keys) ->
  bufs_ok (os_io s) -> reflector_sock (os_io s) = map freq_event l ++ R ->
  exists idx io, idxes !! j = Some idx /\ cached_keyarray p !! Z.to_nat idx = Some k /\
    choose_evictidx cfg rand p s = Ok (idx, set_io io s).
Proof.
  intros idxes Hb Hk Hw Hl Hc Hpos Hj Hin Hnd B HR.
  pose proof (length_sampled_keys _ _ _ Hk) as Hlen.
  destruct (lookup_lt_is_Some_2 idxes j) as [idx Hidx]; [rewrite <- Hlen; eauto using lookup_lt_Some|].
  destruct (choose_does (M := M) cfg rand p keys l R (io_view (os_io s)) Hb Hk) with (s := s) as (io & E & _);
    [intros ->; discriminate|exact Hw|exact Hl|exact Hc|exact B|exact I|unfold io_view; cbn; now rewrite HR|].
  exists idx, io. split; [exact Hidx|]. split; [exact (sampled_keys_at _ _ _ _ _ _ Hk Hidx Hj)|]. rewrite E. do 2 f_equal.
  apply (choose_victim_least _ _ j); [|now apply (least_duplicate keys l j k)|exact Hidx].
  unfold recorded. rewrite length_imap. exact Hlen.
Qed.

Definition demo_two_samples : OsConfig := mkOsConfig 2 2 [[0; 1]] [0] 5000 2 20 21 22 23 0.
Definition demo_twice : list freq_arrival := [FAck (key_of 2) 5 [] sockaddr_zero; FAck (key_of 2) 5 [] sockaddr_zero].
Definition demo_twice_os : Os case_map :=
  mkOs (mq_init 4) [(key_of 1, 0); (key_of 2, 1)] [demo_full_pipe] [] [0; 0]
    (mkFlags false false false false false false) (demo_bufs (map freq_event demo_twice) [] []).

Lemma duplicate_sample_evicted_witness :
  exists idx io, [1; 1] !! 1%nat = Some idx /\ cached_keyarray demo_full_pipe !! Z.to_nat idx = Some (key_of 2) /\
    choose_evictidx demo_two_samples (fun _ => 1) demo_full_pipe demo_twice_os = Ok (idx, set_io io demo_twice_os).
Proof.
  assert (Hk : key_wf (key_of 2)) by (unfold key_wf, key_of, is_u32; cbn; lia).
  pose proof buf_len_eq as Hm. unfold MAX_BUFSIZE in Hm.
  apply (duplicate_sample_evicted demo_two_samples (fun _ => 1) demo_full_pipe demo_twice_os [key_of 2; key_of 2]
    demo_twice [] 1 (key_of 2)).
  - reflexivity.
  - reflexivity.
  - constructor; [exact Hk|]. constructor; [exact Hk|constructor].
  - assert (freq_arrival_ok [key_of 2; key_of 2] (FAck (key_of 2) 5 [] sockaddr_zero)).
    { split; [constructor|]. split; [exact Hk|]. split; [unfold is_u32; lia|].
      unfold freq_ack. rewrite !length_app, length_fr_hdr, length_be. cbn [length]. lia. }
    constructor; [assumption|]. constructor; [assumption|constructor].
  - reflexivity.
  - intros k' [->|[->|[]%not_elem_of_nil]%elem_of_cons]%elem_of_cons; reflexivity.
  - reflexivity.
  - constructor.
  - constructor; [apply not_elem_of_nil|constructor].
  - apply demo_bufs_ok.
  - reflexivity.
Defined.
