(* ===== verification/SwitchSystem.v ===== *)
(** * The threads of the switch OS together

    The popserver, the popworker, the specialcaseserver and the snapshotserver
    share the metadata, the backups and the flags.  [sys_step] interleaves them,
    one turn of a loop at a time, with whatever commands, reports and answers
    arrive.  [phase] is what holds between the flags, the backups and the place
    of the snapshotserver.  [SwitchHandshake] has the same threads with turns that
    are interrupted. *)

From Stdlib Require Import ZArith Lia List.
From stdpp Require Import base tactics list numbers option relations.
From S2P Require Import Prelude Cursor DynamicArray StdMap Crc32 Key Val DeletedSet Packet PacketCodec PacketCache PacketScan Outband PacketServer PacketSwitch Server Fragment PktRingBuffer MessageQueue RecvLarge SwitchOS SwitchMeta SwitchSnapshot SwitchLoad SwitchRollback SwitchPop.

Open Scope Z_scope.
Set Default Proof Using "Type".

(** ** The snapshotserver *)

(** What a message of the snapshotserver leaves alone: among the rest, the command
    that is handled. *)
Definition same_command (s s' : Snap) : Prop :=
  sn_control_type s' = sn_control_type s /\ sn_snapshotid s' = sn_snapshotid s /\ sn_recvbuf s' = sn_recvbuf s.

Definition stable (s s' : Snap) : Prop :=
  sn_pc s' = sn_pc s /\ is_first_snapshot s' = is_first_snapshot s /\ sn_data s' = sn_data s /\ same_command s s'.

#[global] Instance stable_preorder : PreOrder stable.
Proof. split; [now intros s|]. intros s1 s2 s3 (? & ? & ? & ? & ? & ?) (? & ? & ? & ? & ? & ?). repeat split; congruence. Qed.

Definition sn_stable {A} (m : sn A) : Prop := forall s a s', m s = Ok (a, s') -> stable s s'.

Lemma sn_bind_Ok {A B} (m : sn A) (k : A -> sn B) s b s' :
  (m ≫= k) s = Ok (b, s') -> exists a s1, m s = Ok (a, s1) /\ k a s1 = Ok (b, s').
Proof. unfold mbind, sn_bind. destruct (m s) as [[a s1]|e]; [eauto|discriminate]. Qed.

Lemma stable_bind {A B} (m : sn A) (k : A -> sn B) : sn_stable m -> (forall a, sn_stable (k a)) -> sn_stable (m ≫= k).
Proof. intros Hm Hk s b s' (a & s1 & E1 & E2)%sn_bind_Ok. etransitivity; [exact (Hm _ _ _ E1)|exact (Hk _ _ _ _ E2)]. Qed.
Lemma stable_ret {A} (a : A) : sn_stable (mret a).
Proof. now intros s b s' [= _ <-]. Qed.
Lemma stable_lift {A} (r : res A) : sn_stable (sn_lift r).
Proof. intros s a s'. unfold sn_lift. destruct r; [|discriminate]. now intros [= _ <-]. Qed.
Lemma stable_if {A} (b : bool) (m1 m2 : sn A) : sn_stable m1 -> sn_stable m2 -> sn_stable (if b then m1 else m2).
Proof. now destruct b. Qed.
Lemma stable_fuel {A} (f : Snap -> A) : sn_stable (fun s => Ok (f s, s)).
Proof. now intros s a s' [= _ <-]. Qed.

Lemma stable_ptf w ack : sn_stable (ptf_command w ack).
Proof.
  intros s a s'. unfold ptf_command. intros ([n buf] & _ & H)%bind_Ok. destruct (sn_ptf_sock s) as [|bytes rest]; [discriminate|].
  apply bind_Ok in H as ([] & _ & [= _ <-]). now repeat split.
Qed.
Lemma stable_reply t : sn_stable (reply t).
Proof. intros s a s'. unfold reply. intros ([n buf] & _ & [= _ <-])%bind_Ok. now repeat split. Qed.
Lemma stable_send_load key idx : sn_stable (send_loadsnapshot key idx).
Proof.
  intros s a s'. unfold send_loadsnapshot. intros (req & _ & H)%bind_Ok.
  apply bind_Ok in H as ([n buf] & _ & [= _ <-]). now repeat split.
Qed.
Lemma stable_recv : sn_stable recv_reflector.
Proof. intros s a s'. unfold recv_reflector. destruct (sn_reflector_sock s) as [|[]]; [discriminate|..]; now intros [= _ <-]. Qed.
Lemma stable_parse {A} (parse : Z -> Z -> reader A) n : sn_stable (parse_reflector parse n).
Proof. intros s a s'. unfold parse_reflector. now intros (x & _ & [= _ <-])%bind_Ok. Qed.

Create HintDb stable.
#[export] Hint Resolve stable_ret stable_lift stable_fuel stable_ptf stable_reply stable_send_load stable_recv stable_parse : stable.
Ltac stay_step :=
  match goal with
  | |- sn_stable (mbind _ _) => apply stable_bind; [|intros]
  | |- sn_stable (if _ then _ else _) => apply stable_if
  | |- sn_stable (match ?x with _ => _ end) => destruct x
  | |- sn_stable _ => solve [eauto with stable]
  end.
Ltac stay := repeat stay_step.

Lemma stable_send_unreceived keys : forall idx bitmap, sn_stable (send_unreceived idx keys bitmap).
Proof. induction keys as [|k keys IH]; intros idx [|r bitmap]; cbn [send_unreceived]; stay. Qed.
#[export] Hint Resolve stable_send_unreceived : stable.
Lemma stable_load_wait keys count fuel : forall l, sn_stable (load_wait fuel keys count l).
Proof. induction fuel as [|fuel IH]; intros l; cbn [load_wait]; stay. Qed.
#[export] Hint Resolve stable_load_wait : stable.

(** The records that are loaded have one element per used entry. *)
Lemma store_loaded_length keys ack l l' : store_loaded keys ack l = Ok l' -> length l'.1.1 = length l.1.1.
Proof.
  unfold store_loaded. destruct l as [[data bitmap] n]. intros (k & _ & H)%bind_Ok. apply bind_Ok in H as ([] & _ & H).
  apply bind_Ok in H as ([] & _ & H); injection H as <-; [reflexivity|apply length_insert].
Qed.

Lemma load_wait_length keys count fuel : forall l s d s', load_wait fuel keys count l s = Ok (d, s') -> length d = length l.1.1.
Proof.
  induction fuel as [|fuel IH]; intros l s d s'; cbn [load_wait]; [discriminate|].
  intros ([n|] & s1 & _ & H)%sn_bind_Ok.
  - apply sn_bind_Ok in H as (ack & s2 & _ & H). apply sn_bind_Ok in H as (l' & s3 & El & H).
    unfold sn_lift in El. destruct (store_loaded keys ack l) as [l0|] eqn:E; [|discriminate]. injection El as <- <-.
    rewrite <- (store_loaded_length _ _ _ _ E). destruct (count <=? l0.2)%nat; [now injection H as <- _|eauto].
  - apply sn_bind_Ok in H as (u & s2 & _ & H). eauto.
Qed.

Section System.
Context {M : Type} `{Hsm : SpecialMap M, !SpecialMapLaws M}.
Context (cfg : OsConfig) (rand : nat -> Z) (sc : SnConfig).
Implicit Types (s : Snap) (o : Os M) (b : Backup M) (bs : list (Backup M)).

Lemma stable_load_pipe b : sn_stable (load_pipe sc b).
Proof. unfold load_pipe. stay. Qed.
Hint Resolve stable_load_pipe : stable.
Lemma stable_load_pipes (bs : list (Backup M)) : forall olds, sn_stable (load_pipes sc bs olds).
Proof. induction bs as [|b bs IH]; intros [|old olds]; cbn [load_pipes]; stay. Qed.

Lemma stable_getdata bs bw : sn_stable (send_getdata (M := M) cfg sc bs bw).
Proof.
  intros s a s'. unfold send_getdata. intros (ls & _ & H)%bind_Ok. apply bind_Ok in H as (d & _ & H).
  apply bind_Ok in H as ([total d'] & _ & H). apply bind_Ok in H as (frs & _ & [= _ <-]). now repeat split.
Qed.

Lemma load_pipe_loaded b s d s' : 0 <= cached_empty_index_backup b -> load_pipe sc b s = Ok (d, s') -> loaded b d.
Proof.
  intros He. unfold load_pipe. destruct (0 <? cached_empty_index_backup b) eqn:E; [|intros [= <- _]; cbn; lia].
  destruct (cached_keyarray_backup b) as [keys|]; [|discriminate].
  intros (u & s1 & _ & H)%sn_bind_Ok. apply sn_bind_Ok in H as (fuel & s2 & _ & H).
  apply sn_bind_Ok in H as (rs & s3 & H & H'). injection H' as <- _. apply load_wait_length in H. cbn in H |- *.
  now rewrite H, length_replicate.
Qed.

Lemma load_pipes_loaded (bs : list (Backup M)) : forall olds s ds s', Forall (fun b => 0 <= cached_empty_index_backup b) bs ->
  Forall (eq None) olds -> length olds = length bs -> load_pipes sc bs olds s = Ok (ds, s') -> Forall2 loaded bs ds.
Proof.
  induction bs as [|b bs IH]; intros [|old olds] s ds s' Hb Ho Hl; try discriminate; cbn [load_pipes].
  - intros [= <- _]. constructor.
  - apply Forall_cons_iff in Hb as [Hb0 Hb], Ho as [<- Ho]. intros (d & s1 & E1 & H)%sn_bind_Ok.
    apply sn_bind_Ok in H as (ds' & s2 & E2 & H). injection H as <- _. apply load_pipe_loaded in E1; [|exact Hb0].
    constructor; [now destruct d|]. eapply IH; [exact Hb|exact Ho|cbn in Hl; lia|exact E2].
Qed.

(** ** Steps *)

(** The messages that are still to arrive at the snapshotserver. *)
Definition set_socks (ptf : list (list Z)) (evs : list event) (s : Snap) : Snap :=
  mkSnap (sn_pc s) (is_first_snapshot s) (sn_control_type s) (sn_snapshotid s) (sn_data s) (sn_recvbuf s) (sn_sendbuf s)
    (sn_ptfbuf s) (sn_pktbuf s) (sn_dynamicbuf s) ptf evs (sn_sent s).

(** A turn of one of the threads, or arrivals from outside.  [admits] restricts
    what the popworker finds in its queue. *)
Context (admits : Os M -> Prop).

Inductive sys_step : Snap * Os M -> Snap * Os M -> Prop :=
  | step_popserver s o buf bytes buf' ack q :
      popserver_step buf bytes (cache_pop_ptr_queue o) = Ok (buf', ack, q) -> sys_step (s, o) (s, set_queue q o)
  | step_popworker s o o' : admits o -> popworker_step cfg rand o = Ok (tt, o') -> sys_step (s, o) (s, o')
  | step_special s o evs evs' o' : specialcaseserver_step cfg evs o = Ok (evs', o') -> sys_step (s, o) (s, o')
  | step_recv s o bytes s' o' :
      sn_pc s = SnRecv -> snapshotserver_recv sc bytes s o = Ok (s', o') -> sys_step (s, o) (s', o')
  | step_poll s o s' o' : snapshotserver_poll cfg sc s o = Ok (s', o') -> sys_step (s, o) (s', o')
  | step_arrive s o ptf evs io : sys_step (s, o) (set_socks ptf evs s, set_io io o).

(** [prepare_switchos]: nothing is cached and no snapshot was made. *)
Definition init_pipe : Pipe :=
  mkPipe (replicate (Z.to_nat (switch_kv_bucket_num cfg)) Key_default) (replicate (Z.to_nat (switch_kv_bucket_num cfg)) 0) 0.

Definition prepare_switchos (pipeline_num : nat) (mq_size : Z) (io : Io) : Os M :=
  mkOs (mq_init mq_size) [] (replicate pipeline_num init_pipe) (replicate pipeline_num empty_backup)
    (replicate (Z.to_nat (max_server_total_logical_num cfg)) 0) (mkFlags false false false false false false) io.

(** The snapshotserver before its first command; its buffers hold anything. *)
Definition init_snap (pipeline_num : nat) (recvbuf sendbuf ptfbuf pktbuf : list Z) (d : DynamicArray) : Snap :=
  mkSnap SnRecv true (-1) (-1) (replicate pipeline_num None) recvbuf sendbuf ptfbuf pktbuf d [] [] [].

Definition initial (so : Snap * Os M) : Prop :=
  exists n mq io rb sb pb kb d, so = (init_snap n rb sb pb kb d, prepare_switchos n mq io).

Definition reachable (so : Snap * Os M) : Prop := exists so0, initial so0 /\ rtc sys_step so0 so.

(** ** The invariant *)

(** Complete backups, whose special cases are of backed-up entries. *)
Record full (bs : list (Backup M)) : Prop := {
  fu_ok : backups_ok cfg bs;
  fu_placed : placed bs;
  fu_has : forallb has_backup bs = true
}.

(** A map for the special cases, but no backup yet. *)
Definition armed b : Prop :=
  cached_keyarray_backup b = None /\ cached_serveridxarray_backup b = None /\ specialcases_ptr b = Some sm_empty.

Definition copy_of (p : Pipe) b : Prop :=
  frozen b = (Some (cached_keyarray p), Some (cached_serveridxarray p), cached_empty_index p).

Definition no_datas (ds : list (option (list SnapshotRecord))) : Prop := Forall (eq None) ds.

Definition phase s o : Prop :=
  let f := os_flags o in
  let ending := popworker_know_snapshot_end f || specialcaseserver_know_snapshot_end f in
  match sn_pc s with
  | SnRecv =>
      is_snapshot_end f = false /\ ending = false /\
      if is_first_snapshot s then
        is_snapshot f = false /\ is_stop_cachepop f = false /\ forallb no_backup (backups o) = true /\ no_datas (sn_data s)
      else
        full (backups o) /\
        (is_stop_cachepop f = true -> is_snapshot f = false /\ Forall2 copy_of (pipes o) (backups o) /\ no_datas (sn_data s)) /\
        (is_snapshot f = true -> Forall2 loaded (backups o) (sn_data s))
  | SnStop =>
      is_first_snapshot s = false /\ is_stop_cachepop f = true /\ is_snapshot f = false /\ is_snapshot_end f = false /\
      ending = false /\ Forall armed (backups o) /\ no_datas (sn_data s)
  | SnEndStale =>
      is_first_snapshot s = false /\ is_stop_cachepop f = false /\ is_snapshot f = false /\ is_snapshot_end f = true /\
      full (backups o)
  | SnEndGetdata =>
      is_first_snapshot s = false /\ is_stop_cachepop f = false /\ is_snapshot f = false /\ is_snapshot_end f = true /\
      full (backups o) /\ Forall2 loaded (backups o) (sn_data s)
  end.

Record sys_ok (so : Snap * Os M) : Prop := {
  ok_pipes : Forall (pipe_ok cfg) (pipes so.2);
  ok_backups : length (backups so.2) = length (pipes so.2);
  ok_data : length (sn_data so.1) = length (pipes so.2);
  ok_phase : phase so.1 so.2
}.

(** ** Special cases keep complete backups complete *)

Lemma frozen_has bs bs' : map frozen bs' = map frozen bs -> forallb has_backup bs = true -> forallb has_backup bs' = true.
Proof.
  revert bs'. induction bs as [|b bs IH]; intros [|b' bs'] E; try discriminate; [reflexivity|].
  injection E as E1 E2 E3 E4. cbn [forallb]. rewrite !andb_true_iff. intros [H1 H2]. split; [|now apply IH].
  unfold has_backup in *. now rewrite E1, E2.
Qed.

Lemma process_full bs idx key val seq stat bs' : full bs -> process_specialcase cfg bs idx key val seq stat = Ok bs' -> full bs'.
Proof using SpecialMapLaws0.
  intros [Hok Hp Hh] H. split; [|exact (process_placed cfg _ _ _ _ _ _ _ H Hp)|exact (frozen_has _ _ (process_frozen cfg _ _ _ _ _ _ _ H) Hh)].
  apply process_inv in H as [->|(n & b & m & m' & Hn & Hm & _ & _ & ->)]; [exact Hok|].
  apply Forall_insert; [exact Hok|]. destruct (proj1 (Forall_lookup _ _) Hok n b Hn) as (ks & m0 & [E1 E2 E3 E4]).
  exists ks, m'. now split.
Qed.

Lemma stored_frozen rep bs bs' : case_stored cfg rep bs bs' -> map frozen bs' = map frozen bs.
Proof. intros [->|(_ & i & k & v & q & st & H)]; [reflexivity|]. exact (process_frozen cfg _ _ _ _ _ _ _ H). Qed.
Lemma stored_full rep bs bs' : case_stored cfg rep bs bs' -> full bs -> full bs'.
Proof using SpecialMapLaws0. intros [->|(_ & i & k & v & q & st & H)] Hf; [exact Hf|exact (process_full _ _ _ _ _ _ _ Hf H)]. Qed.
Lemma stored_none bs bs' : case_stored cfg false bs bs' -> bs' = bs.
Proof. now intros [->|[H _]]. Qed.
Lemma stored_loaded rep bs bs' ds : case_stored cfg rep bs bs' -> Forall2 loaded bs ds -> Forall2 loaded bs' ds.
Proof.
  intros E%stored_frozen H. revert bs' E. induction H as [|b d bs ds Hb _ IH]; intros [|b' bs'] E; try discriminate; constructor;
    injection E as E1 E2 E3 E4; [|now apply IH]. unfold loaded in *. now rewrite E3.
Qed.

(** ** The other threads *)

(** What a turn of the popworker or of the specialcaseserver keeps: the flags of
    the snapshotserver; special cases are stored during a snapshot only, and the
    metadata changes only while population is not stopped. *)
Record turn o o' : Prop := {
  tu_stop : is_stop_cachepop (os_flags o') = is_stop_cachepop (os_flags o);
  tu_snapshot : is_snapshot (os_flags o') = is_snapshot (os_flags o);
  tu_end : is_snapshot_end (os_flags o') = is_snapshot_end (os_flags o);
  tu_know : is_snapshot_end (os_flags o) = false ->
    popworker_know_snapshot_end (os_flags o') = popworker_know_snapshot_end (os_flags o) /\
    specialcaseserver_know_snapshot_end (os_flags o') = specialcaseserver_know_snapshot_end (os_flags o);
  tu_cases : case_stored cfg (is_snapshot (os_flags o) || is_snapshot_end (os_flags o)) (backups o) (backups o')
}.

Lemma phase_turn s o o' : turn o o' -> (sn_pc s = SnRecv -> is_stop_cachepop (os_flags o) = true -> pipes o' = pipes o) -> phase s o -> phase s o'.
Proof using SpecialMapLaws0.
  intros [E1 E2 E3 E4 Hc] Hp. unfold phase. rewrite E1, E2, E3. destruct (sn_pc s).
  - intros (He & Hk & H). destruct (E4 He) as [-> ->]. rewrite He in *. rewrite orb_false_r in Hc.
    do 2 (split; [auto|]). destruct (is_first_snapshot s).
    + destruct H as (Hs & Hst & Hb). rewrite Hs in Hc. apply stored_none in Hc. now rewrite Hc.
    + destruct H as (Hf & Hst & Hl). split; [exact (stored_full _ _ _ Hc Hf)|]. split.
      * intros H. destruct (Hst H) as (Hs & Hcp & Hd). rewrite Hs in Hc. apply stored_none in Hc. rewrite Hc, Hp by auto. auto.
      * intros H. exact (stored_loaded _ _ _ _ Hc (Hl H)).
  - intros (H1 & H2 & H3 & H4 & Hf). repeat split; try assumption; now apply (stored_full _ _ _ Hc Hf).
  - intros (H1 & H2 & H3 & H4 & H5 & Ha & Hd). destruct (E4 H4) as [-> ->]. rewrite H3, H4 in Hc. apply stored_none in Hc.
    rewrite Hc. auto 10.
  - intros (H1 & H2 & H3 & H4 & Hf & Hl). repeat split; try assumption; try now apply (stored_full _ _ _ Hc Hf).
    exact (stored_loaded _ _ _ _ Hc Hl).
Qed.

Lemma stored_weaken (r1 r2 : bool) bs bs' : (r1 = true -> r2 = true) -> case_stored cfg r1 bs bs' -> case_stored cfg r2 bs bs'.
Proof. intros H [->|[Hr E]]; [now left|right; auto]. Qed.

Lemma turn_popworker o o' : bucket_num cfg <= 2 ^ 16 -> Forall (pipe_ok cfg) (pipes o) -> popworker_step cfg rand o = Ok (tt, o') ->
  turn o o' /\ Forall (pipe_ok cfg) (pipes o') /\ length (pipes o') = length (pipes o) /\ (is_stop_cachepop (os_flags o) = true -> pipes o' = pipes o).
Proof.
  intros Hb Hp H. apply popworker_inv in H as [_ (st & en & Ef & He) Hc Hm]; [|exact Hb|exact Hp]. split.
  - split; rewrite ?Ef; try reflexivity.
    + intros Hend. cbn. split; [|reflexivity]. destruct He as [|He]; [assumption|congruence].
    + eapply stored_weaken; [|exact Hc]. unfold in_case2. destruct (is_snapshot (os_flags o)), (is_snapshot_end (os_flags o)); auto.
  - destruct Hm as [(_ & -> & _)|(Hs & pop & q & n & _ & _ & Hpop)]; [auto|].
    apply populated_pipes in Hpop as [H1 H2]; [|lia|exact Hp]. split; [exact H1|]. split; [exact H2|congruence].
Qed.

Lemma special_inv evs o evs' o' : specialcaseserver_step cfg evs o = Ok (evs', o') ->
  turn o o' /\ pipes o' = pipes o /\ cached_keyidx_map o' = cached_keyidx_map o.
Proof.
  unfold specialcaseserver_step. intros (f & o1 & E & H)%os_bind_Ok. injection E as <- <-.
  set (ending := is_snapshot_end (os_flags o) && _) in H. assert (Hid : turn o o) by (split; try reflexivity; [auto|now left]).
  destruct (is_snapshot (os_flags o) || ending) eqn:E; [|injection H as _ <-; auto].
  destruct evs as [|[bytes addr|] evs]; [discriminate| |].
  - apply os_bind_Ok in H as (u & o1 & H & H'). injection H' as _ <-. unfold process_case1 in H.
    apply bind_Ok in H as (ty & _ & H). destruct (existsb _ _); [|discriminate]. apply bind_Ok in H as (req & _ & H).
    apply bind_Ok in H as (bs & Hbs & H). apply bind_Ok in H as (bw & _ & H). apply bind_Ok in H as (idx & _ & H).
    apply bind_Ok in H as (c & _ & H). injection H as _ <-. split; [|auto]. split; try reflexivity; [auto|].
    right. split; [|eauto 10]. subst ending. destruct (is_snapshot (os_flags o)); [reflexivity|]. now apply andb_true_iff in E as [-> _].
  - apply os_bind_Ok in H as (u & o1 & H & H'). injection H' as _ <-. destruct ending eqn:Een; [|injection H as _ <-; auto].
    injection H as _ <-. apply andb_true_iff in Een as [Hend _].
    split; [|auto]. split; try reflexivity; [|now left]. cbn. congruence.
Qed.

(** ** The snapshotserver *)

Lemma forallb_no_data ds : forallb no_data ds = true -> no_datas ds.
Proof. intros H. rewrite forallb_forall in H. apply List.Forall_forall. intros [d|] Hd; [now apply H in Hd|reflexivity]. Qed.

Lemma no_backup_armed bs : forallb no_backup bs = true -> Forall armed (map with_map bs).
Proof.
  induction bs as [|b bs IH]; [constructor|]. cbn [forallb map]. intros [H1 H2]%andb_true_iff. constructor; [|auto].
  unfold no_backup in H1. destruct b as [[] [] e []]; try discriminate. now repeat split.
Qed.

Lemma cleanup_init_ok s o s' o' : cleanup_init s o = Ok (s', o') ->
  phase s' o' /\ pipes o' = pipes o /\ cached_keyidx_map o' = cached_keyidx_map o /\
  length (backups o') = length (backups o) /\ sn_data s' = sn_data s.
Proof.
  unfold cleanup_init. intros ([] & H1%INVARIANT_Ok & H)%bind_Ok. apply bind_Ok in H as ([] & H2%INVARIANT_Ok & [= <- <-]).
  cbn. rewrite length_map. repeat split; [now apply no_backup_armed|now apply forallb_no_data].
Qed.

(** The copies that are taken while the popworker has stopped. *)
Lemma take_backup_ok ps : forall bs, Forall (pipe_ok cfg) ps -> Forall armed bs -> length bs = length ps ->
  let bs' := zip_with take_backup ps bs in
  Forall (fun b => exists ks, backup_ok cfg b ks sm_empty) bs' /\ forallb has_backup bs' = true /\ Forall2 copy_of ps bs' /\
  length bs' = length ps.
Proof.
  induction ps as [|p ps IH]; intros [|b bs] Hp Ha Hl; try discriminate; cbn [zip_with]; [repeat constructor|].
  apply Forall_cons_iff in Hp as [Hp0 Hp], Ha as [(Ha1 & Ha2 & Ha3) Ha]. destruct (IH bs Hp Ha) as (H1 & H2 & H3 & H4); [cbn in Hl; lia|].
  split; [constructor; [|exact H1]|]; [|split; [|split; [constructor; [reflexivity|exact H3]|cbn; lia] ] ].
  - exists (cached_keyarray p). destruct Hp0 as [Hk Hs He]. unfold bucket_num in *. now split.
  - cbn. exact H2.
Qed.

Lemma empty_maps_full bs : Forall (fun b => exists ks, backup_ok cfg b ks sm_empty) bs -> forallb has_backup bs = true -> full bs.
Proof using SpecialMapLaws0.
  intros H Hh. split; [|intros n b m i c Hn Hm Hc|exact Hh].
  - eapply List.Forall_impl; [|exact H]. cbn. intros b (ks & Hb). eauto.
  - destruct (proj1 (Forall_lookup _ _) H n b Hn) as (ks & [_ Em _ _]). assert (m = sm_empty) as -> by congruence.
    now rewrite sm_get_empty in Hc.
Qed.

Lemma rollback_length bs : forall ds ds', rollback bs ds = Ok ds' -> length bs = length ds -> length ds' = length ds.
Proof.
  induction bs as [|b bs IH]; intros [|d ds] ds' H Hl; try discriminate; cbn [rollback] in H; [now injection H as <-|].
  apply bind_Ok in H as (d' & _ & H). apply bind_Ok in H as (ds2 & E & [= <-]). cbn in *. rewrite (IH ds ds2 E); lia.
Qed.

Lemma poll_ok s o s' o' : sys_ok (s, o) -> snapshotserver_poll cfg sc s o = Ok (s', o') ->
  sys_ok (s', o') /\ pipes o' = pipes o /\ cached_keyidx_map o' = cached_keyidx_map o.
Proof using SpecialMapLaws0.
  intros [Hp Hb Hd Hph] H. cbn [fst snd] in *. unfold snapshotserver_poll in H. unfold phase in Hph.
  assert (Hstay : (s, o) = (s', o') -> sys_ok (s', o') /\ pipes o' = pipes o /\ cached_keyidx_map o' = cached_keyidx_map o)
    by (intros [= <- <-]; split; [now split|auto]).
  destruct (sn_pc s) eqn:Epc; [apply Hstay; congruence|..].
  - destruct (popworker_know_snapshot_end (os_flags o) && _); [|apply Hstay; congruence].
    apply cleanup_init_ok in H as (Hph' & Ep & Em & El & Ed). cbn in Ep, Em, El, Ed. rewrite length_map in El.
    split; [|auto]. split; cbn [fst snd]; rewrite ?Ep, ?Ed, ?length_map; congruence.
  - destruct (popworker_know_stop_cachepop (os_flags o)); [|apply Hstay; congruence].
    apply bind_Ok in H as ([u s1] & Hr%stable_reply & [= <- <-]). destruct Hr as (E1 & E2 & E3 & _).
    destruct Hph as (H1 & H2 & H3 & H4 & H5 & Ha & Hn).
    destruct (take_backup_ok (pipes o) (backups o) Hp Ha Hb) as (K1 & K2 & K3 & K4).
    split; [|auto]. split; cbn [fst snd pipes backups set_bwcosts set_backups sn_data sn_at]; [exact Hp|exact K4|congruence|].
    unfold phase. cbn [sn_pc sn_at is_first_snapshot os_flags set_bwcosts set_backups backups pipes sn_data].
    rewrite E2, E3, H1. split; [exact H4|]. split; [exact H5|]. split; [now apply empty_maps_full|]. split; [auto|congruence].
  - destruct (popworker_know_snapshot_end (os_flags o) && _); [|apply Hstay; congruence].
    destruct Hph as (H1 & H2 & H3 & H4 & Hf & Hl).
    apply bind_Ok in H as (d & Er & H). apply bind_Ok in H as ([u s1] & Hg%stable_getdata & [= <- <-]). destruct Hg as (E1 & E2 & E3 & _).
    apply rollback_length in Er; [|congruence]. split; [|auto].
    split; cbn [fst snd pipes backups set_flags sn_data sn_at]; [exact Hp|exact Hb|rewrite E3; cbn; congruence|].
    unfold phase. cbn [sn_pc sn_at is_first_snapshot os_flags set_flags backups is_snapshot_end popworker_know_snapshot_end
      specialcaseserver_know_snapshot_end is_stop_cachepop is_snapshot orb]. rewrite E2. cbn [is_first_snapshot set_data]. rewrite H1, H2, H3.
    do 2 (split; [reflexivity|]). split; [exact Hf|]. split; discriminate.
Qed.

Definition same_meta o o' : Prop := pipes o' = pipes o /\ cached_keyidx_map o' = cached_keyidx_map o.

Lemma handle_cleanup_ok s o s' o' : sys_ok (s, o) -> sn_pc s = SnRecv -> handle_cleanup sc s o = Ok (s', o') ->
  sys_ok (s', o') /\ same_meta o o'.
Proof.
  intros [Hp Hb Hd Hph] Epc H. cbn [fst snd] in *. unfold phase in Hph. rewrite Epc in Hph. destruct Hph as (H1 & H2 & H3).
  unfold handle_cleanup in H. apply bind_Ok in H as ([u s1] & (E1 & E2 & E3 & _)%stable_ptf & H). rewrite E2 in H.
  destruct (is_first_snapshot s) eqn:Ef.
  - apply cleanup_init_ok in H as (Hph' & Ep & Em & El & Ed). cbn in Ep, Em, El, Ed.
    split; [|split; assumption]. split; cbn [fst snd]; [rewrite Ep; exact Hp|congruence|congruence|exact Hph'].
  - apply bind_Ok in H as ([] & _ & H). apply bind_Ok in H as ([u1 s2] & (F1 & F2 & F3 & _)%stable_ptf & H).
    apply bind_Ok in H as ([u2 s3] & (G1 & G2 & G3 & _)%stable_ptf & [= <- <-]). split; [|now split].
    split; cbn [fst snd pipes backups set_flags sn_data sn_at]; [exact Hp|exact Hb|congruence|].
    unfold phase. cbn [sn_pc sn_at is_first_snapshot os_flags set_flags backups is_stop_cachepop is_snapshot is_snapshot_end].
    split; [congruence|]. do 3 (split; [reflexivity|]). apply H3.
Qed.

Lemma handle_start_ok s o s' o' : sys_ok (s, o) -> sn_pc s = SnRecv -> handle_start sc s o = Ok (s', o') ->
  sys_ok (s', o') /\ same_meta o o'.
Proof.
  intros [Hp Hb Hd Hph] Epc H. cbn [fst snd] in *. unfold phase in Hph. rewrite Epc in Hph. destruct Hph as (H1 & H2 & H3).
  unfold handle_start in H. apply bind_Ok in H as ([u s1] & (E1 & E2 & E3 & _)%stable_ptf & H).
  destruct (negb (is_snapshot (os_flags o)) && _ && _) eqn:Eg; [|discriminate].
  apply andb_true_iff in Eg as [[Es%negb_true_iff Est]%andb_true_iff Ek].
  apply bind_Ok in H as ([d s2] & Hl & H). pose proof (stable_load_pipes _ _ _ _ _ Hl) as (F1 & F2 & F3 & _). cbn [backups set_flags] in Hl.
  apply bind_Ok in H as ([u2 s3] & (G1 & G2 & G3 & _)%stable_reply & [= <- <-]).
  destruct (is_first_snapshot s) eqn:Ef; [destruct H3 as (_ & ? & _); congruence|]. destruct H3 as (Hf & Hst & _).
  destruct (Hst Est) as (_ & _ & Hnd). cbn [sn_pc is_first_snapshot sn_data set_data] in G1, G2, G3.
  assert (L : Forall2 loaded (backups o) d).
  { eapply load_pipes_loaded; [|exact Hnd|congruence|rewrite <- E3; exact Hl].
    eapply List.Forall_impl; [|exact (fu_ok _ Hf)]. cbn. intros b (ks & m & [_ _ _ He]). lia. }
  split; [|now split]. split; cbn [fst snd pipes backups set_flags]; [exact Hp|exact Hb| |].
  - rewrite G3. rewrite <- Hb. symmetry. exact (Forall2_length _ _ _ L).
  - unfold phase. rewrite G1, F1, E1, Epc, G2, F2, E2, G3. cbn [os_flags set_flags is_snapshot_end popworker_know_snapshot_end
      specialcaseserver_know_snapshot_end is_stop_cachepop is_snapshot backups pipes].
    do 3 (split; [assumption|]). split; [discriminate|intros _; exact L].
Qed.

Lemma handle_getdata_ok s o s' o' : sys_ok (s, o) -> sn_pc s = SnRecv -> handle_getdata sc s o = Ok (s', o') ->
  sys_ok (s', o') /\ same_meta o o'.
Proof.
  intros [Hp Hb Hd Hph] Epc H. cbn [fst snd] in *. unfold phase in Hph. rewrite Epc in Hph. destruct Hph as (H1 & H2 & H3).
  unfold handle_getdata in H. apply bind_Ok in H as ([u s1] & (E1 & E2 & E3 & _)%stable_ptf & H).
  destruct (is_snapshot (os_flags o)) eqn:Es; [|discriminate]. cbn [andb] in H.
  destruct (negb (is_snapshot_end (os_flags o)) && _ && _); [|discriminate]. injection H as <- <-.
  destruct (is_first_snapshot s) eqn:Ef; [now destruct H3|]. destruct H3 as (Hf & Hst & Hl).
  split; [|now split]. split; cbn [fst snd pipes backups set_flags sn_data sn_at]; [exact Hp|exact Hb|congruence|].
  unfold phase. cbn [sn_pc sn_at is_first_snapshot os_flags set_flags backups is_stop_cachepop is_snapshot is_snapshot_end sn_data].
  rewrite E2, E3. split; [reflexivity|]. split; [destruct (is_stop_cachepop _); [destruct (Hst eq_refl); discriminate|reflexivity]|].
  do 2 (split; [reflexivity|]). auto.
Qed.

Lemma sys_ok_same s s' o : sn_pc s' = sn_pc s -> is_first_snapshot s' = is_first_snapshot s -> sn_data s' = sn_data s ->
  sys_ok (s, o) -> sys_ok (s', o).
Proof. intros E1 E2 E3 [Hp Hb Hd Hph]. split; cbn [fst snd] in *; try assumption; [now rewrite E3|]. unfold phase. now rewrite E1, E2, E3. Qed.

Lemma sys_ok_stable s s' o : stable s s' -> sys_ok (s, o) -> sys_ok (s', o).
Proof. intros (E1 & E2 & E3 & _). now apply sys_ok_same. Qed.

Lemma recv_ok bytes s o s' o' : sys_ok (s, o) -> sn_pc s = SnRecv -> snapshotserver_recv sc bytes s o = Ok (s', o') ->
  sys_ok (s', o') /\ same_meta o o'.
Proof.
  intros Hok Epc H. unfold snapshotserver_recv in H. apply bind_Ok in H as (sig & _ & H).
  assert (Hr : forall buf, sys_ok (set_recvbuf buf s, o)) by (intros buf; now apply (sys_ok_same s)).
  match type of H with (if ?c then _ else _) = _ => destruct c end; [injection H as <- <-; split; [auto|now split]|].
  set (s1 := set_signal sig _) in H. assert (Hok1 : sys_ok (s1, o)) by (now apply (sys_ok_same s)).
  destruct (sn_control_type s1 =? SNAPSHOT_CLEANUP sc); [exact (handle_cleanup_ok _ _ _ _ Hok1 Epc H)|].
  destruct (sn_control_type s1 =? SNAPSHOT_PREPARE sc).
  { apply bind_Ok in H as (s2 & H & [= <- <-]). unfold handle_prepare in H. apply bind_Ok in H as ([u s3] & E1%stable_ptf & H).
    apply bind_Ok in H as ([u2 s4] & E2%stable_reply & [= <-]). split; [|now split]. eapply sys_ok_stable; [|exact Hok1]. etransitivity; eassumption. }
  destruct (sn_control_type s1 =? SNAPSHOT_SETFLAG sc).
  { apply bind_Ok in H as (s2 & H & [= <- <-]). unfold handle_setflag in H. apply bind_Ok in H as ([u s3] & E1%stable_ptf & H).
    apply bind_Ok in H as ([u2 s4] & E2%stable_reply & [= <-]). split; [|now split]. eapply sys_ok_stable; [|exact Hok1]. etransitivity; eassumption. }
  destruct (sn_control_type s1 =? SNAPSHOT_START sc); [exact (handle_start_ok _ _ _ _ Hok1 Epc H)|].
  destruct (sn_control_type s1 =? SNAPSHOT_GETDATA sc); [exact (handle_getdata_ok _ _ _ _ Hok1 Epc H)|discriminate].
Qed.

(** ** Reachable states *)

Lemma sys_step_ok so so' : bucket_num cfg <= 2 ^ 16 -> sys_step so so' -> sys_ok so -> sys_ok so'.
Proof using SpecialMapLaws0.
  intros Hb Hs Hok. pose proof Hok as [Hp Hl Hd Hph]. destruct Hs; cbn [fst snd] in *.
  - now split.
  - apply turn_popworker in H0 as (Ht & Hp' & El & Es); [|exact Hb|exact Hp]. pose proof (tu_cases _ _ Ht) as Hc.
    apply stored_frozen, (f_equal length) in Hc. rewrite !length_map in Hc.
    split; cbn [fst snd]; [exact Hp'|congruence|congruence|exact (phase_turn _ _ _ Ht (fun _ => Es) Hph)].
  - apply special_inv in H as (Ht & Ep & _). pose proof (tu_cases _ _ Ht) as Hc.
    apply stored_frozen, (f_equal length) in Hc. rewrite !length_map in Hc.
    split; cbn [fst snd]; rewrite ?Ep; [exact Hp|congruence|congruence|exact (phase_turn _ _ _ Ht (fun _ _ => Ep) Hph)].
  - exact (proj1 (recv_ok _ _ _ _ _ Hok H H0)).
  - exact (proj1 (poll_ok _ _ _ _ Hok H)).
  - split; cbn [fst snd]; [exact Hp|exact Hl|exact Hd|]. unfold phase in *. exact Hph.
Qed.

Lemma initial_ok so : 0 <= bucket_num cfg -> initial so -> sys_ok so.
Proof.
  intros Hb (n & mq & io & rb & sb & pb & kb & d & ->). split; cbn [fst snd pipes backups sn_data prepare_switchos init_snap];
    rewrite ?length_replicate; try reflexivity.
  - apply Forall_replicate. split; cbn; rewrite ?length_replicate; (reflexivity || lia).
  - unfold phase. cbn [sn_pc is_first_snapshot os_flags backups sn_data prepare_switchos init_snap].
    do 4 (split; [reflexivity|]). split; [|now apply Forall_replicate]. induction n; [reflexivity|]. exact IHn.
Qed.

Lemma reachable_ok so : 0 <= bucket_num cfg <= 2 ^ 16 -> reachable so -> sys_ok so.
Proof using SpecialMapLaws0.
  intros Hb (so0 & H0 & H). apply initial_ok in H0; [|lia]. induction H as [|x y z Hxy _ IH]; [exact H0|].
  apply IH. eapply sys_step_ok; [lia|exact Hxy|exact H0].
Qed.

(** ** What follows from the invariant *)

Lemma full_report bs idx key val seq stat : full bs -> 0 <= idx < switch_kv_bucket_num cfg ->
  exists bs', process_specialcase cfg bs idx key val seq stat = Ok bs'.
Proof using SpecialMapLaws0.
  intros [Hok Hp _] Hi. unfold process_specialcase. rewrite INVARIANT_true by lia. cbn [mbind res_bind].
  destruct (find_backup_spec cfg idx key bs 0 Hok Hi) as (o & -> & Ho). cbn [mbind res_bind]. destruct o as [j|]; [|eauto].
  destruct Ho as (n & b & ks & -> & Hn & Hk & Hkey). cbn [Nat.add]. rewrite Hn.
  destruct (proj1 (Forall_lookup _ _) Hok n b Hn) as (ks' & m & [Ek Em El Ee]). rewrite INVARIANT_true, Em by lia. cbn [mbind res_bind].
  destruct (idx <? cached_empty_index_backup b); [|eauto]. unfold update_case. destruct (sm_get idx m) as [c|] eqn:Ec; [|eexists; reflexivity].
  destruct (seq <? sc_seq c); [|eexists; reflexivity]. destruct (Hp n b m idx c Hn Em Ec) as (b2 & ks2 & Hb2 & Hk2 & _ & Hkey2).
  rewrite bool_decide_eq_true_2 by congruence. cbn [INVARIANT mbind res_bind].
  pose proof (proj1 (sm_get_update idx 0 (mkSpecialCase (sc_key c) val seq stat) m ltac:(eauto))) as Hu.
  destruct (sm_update _ _ _) as [res m']. cbn in Hu. subst res. eexists. reflexivity.
Qed.

Lemma full_rollback bs : forall ds, full bs -> Forall2 loaded bs ds -> exists ds', rollback bs ds = Ok ds'.
Proof using SpecialMapLaws0.
  intros ds [Hok Hp _] Hl.
  assert (H : Forall2 (fun b d => exists d', rollback_pipe b d = Ok d') bs ds).
  { apply Forall2_same_length_lookup. split; [exact (Forall2_length _ _ _ Hl)|]. intros n b d Hb Hd.
    destruct (proj1 (Forall_lookup _ _) Hok n b Hb) as (ks & m & Hbo). pose proof (Forall2_lookup_lr _ _ _ _ _ _ Hl Hb Hd) as Hld.
    assert (Hc : forall i c, sm_get i m = Some c -> 0 <= i < cached_empty_index_backup b /\ ks !! Z.to_nat i = Some (sc_key c)).
    { intros i c Hi. destruct (Hp n b m i c Hb (bo_map _ _ _ _ Hbo) Hi) as (b2 & ks2 & E1 & E2 & E3 & E4).
      assert (b2 = b) as -> by congruence. destruct Hbo as [Ek _ _ _]. assert (ks2 = ks) as -> by congruence. auto. }
    destruct d as [rs|]; [eexists; now apply (rollback_pipe_ok cfg b ks m rs)|].
    exists None. unfold rollback_pipe. rewrite (bo_map _ _ _ _ Hbo), (bo_keys _ _ _ _ Hbo). cbn in Hld.
    destruct (sm_pairs m) as [|[i c] l] eqn:E; [reflexivity|].
    assert (sm_get i m = Some c) as Hi by (apply sm_pairs_get; rewrite E; constructor). apply Hc in Hi as [Hi _]. lia. }
  clear -H. induction H as [|b d bs ds [d' E] _ [ds' IH]]; [now exists []|]. exists (d' :: ds'). cbn [rollback]. now rewrite E, IH.
Qed.

(** As long as special cases may be reported there are complete backups. *)
Lemma phase_full s o : phase s o -> is_snapshot (os_flags o) || is_snapshot_end (os_flags o) = true -> full (backups o).
Proof.
  clear admits. unfold phase. intros Hph Hs. destruct (sn_pc s); [|tauto| |tauto]; [|destruct Hph as (_ & _ & H1 & H2 & _); rewrite H1, H2 in Hs; discriminate].
  destruct Hph as (H1 & _ & H). rewrite H1, orb_false_r in Hs. rewrite Hs in H. destruct (is_first_snapshot s); [now destruct H|tauto].
Qed.

(** The clean-up of a stale snapshot goes through. *)
Lemma stale_poll s o : sn_pc s = SnEndStale -> exists s' o', snapshotserver_poll cfg sc s o = Ok (s', o').
Proof.
  intros E. unfold snapshotserver_poll. rewrite E. destruct (_ && _); [|eauto]. unfold cleanup_init. cbn [backups set_flags set_backups].
  rewrite INVARIANT_true by (rewrite forallb_forall; intros b [b' [<- _]]%in_map_iff; reflexivity). cbn [mbind res_bind].
  rewrite INVARIANT_true by (cbn; rewrite forallb_forall; intros d [d' [<- _]]%in_map_iff; reflexivity). eauto.
Qed.

(** A step changes the metadata only by a population. *)
Lemma step_meta so so' : bucket_num cfg <= 2 ^ 16 -> (forall o, admits o -> head_fresh o) -> sys_ok so -> sys_step so so' ->
  meta_ok cfg (cached_keyidx_map so.2) (pipes so.2) -> meta_ok cfg (cached_keyidx_map so'.2) (pipes so'.2).
Proof using SpecialMapLaws0.
  intros Hb Ha Hok Hs Hm. pose proof Hok as [Hp _ _ _]. destruct Hs; cbn [fst snd] in *.
  - exact Hm.
  - apply popworker_inv in H0 as [_ _ _ [(-> & -> & _)|(_ & pop & q & n & Hq & Hn & Hpop)]]; [exact Hm| |exact Hb|exact Hp].
    eapply populated_ok; [|exact Hm| |exact Hpop]; [lia|exact (Ha _ H _ _ Hq)].
  - apply special_inv in H as (_ & -> & ->). exact Hm.
  - destruct (recv_ok _ _ _ _ _ Hok H H0) as [_ [-> ->]]. exact Hm.
  - destruct (poll_ok _ _ _ _ Hok H) as [_ [-> ->]]. exact Hm.
  - exact Hm.
Qed.

Lemma initial_meta so : 0 <= bucket_num cfg -> initial so -> meta_ok cfg (cached_keyidx_map so.2) (pipes so.2).
Proof using Hsm.
  intros Hb Hi. pose proof (ok_pipes _ (initial_ok _ Hb Hi)) as Hp. destruct Hi as (n & mq & io & rb & sb & pb & kb & d & ->).
  cbn [fst snd cached_keyidx_map pipes prepare_switchos] in *.
  assert (Hno : forall n' i k, ~ holds_at (replicate n init_pipe) n' i k).
  { intros n' i k (p & [-> _]%lookup_replicate & [Hi _]). cbn in Hi. lia. }
  split; [constructor|exact Hp| |].
  - intros k i. split; [discriminate|]. intros [n' H]. now apply Hno in H.
  - intros n1 n2 i1 i2 k H. now apply Hno in H.
Qed.

End System.

(** C10: as long as every record that is populated has a key the switch does not
    cache, the metadata stays consistent in any interleaving of the threads: the
    map of cached keys finds exactly the entries in use of all pipelines, no key
    has two entries, and the arrays keep their size. *)
Theorem metadata_consistent {M} `{Hsm : SpecialMap M, !SpecialMapLaws M} (cfg : OsConfig) (rand : nat -> Z) (sc : SnConfig)
    (s : Snap) (o : Os M) :
  0 <= bucket_num cfg <= 2 ^ 16 -> reachable cfg rand sc head_fresh (s, o) ->
  meta_ok cfg (cached_keyidx_map o) (pipes o).
Proof.
  intros Hb (so0 & H0 & H). pose proof (initial_ok cfg so0 (proj1 Hb) H0) as Hok. apply initial_meta in H0; [|lia].
  change o with (s, o).2. revert H0 Hok. induction H as [|x y z Hxy _ IH]; [auto|]. intros Hm Hok. apply IH.
  - eapply (step_meta cfg rand sc head_fresh); [lia|auto|exact Hok|exact Hxy|exact Hm].
  - eapply (sys_step_ok cfg rand sc head_fresh); [lia|exact Hxy|exact Hok].
Qed.

(** ** A concrete run

    A record is populated, then a snapshot is prepared: SNAPSHOT_CLEANUP, the
    popworker stops, the metadata is copied. *)

Definition demo_wire (m : writer Z) : list Z :=
  match run_writer m (replicate 200 0) with Ok (k, buf) => take (Z.to_nat k) buf | Err _ => [] end.
Definition demo_small_io (R : list event) (P : list (list Z)) : Io :=
  mkIo (replicate 200 0) (replicate 200 0) (replicate 200 0) R [] P [] 0.
Definition demo_answers : list event :=
  [Dgram (demo_ack SETVALID_INSWITCH_ACK 2) sockaddr_zero; Dgram (demo_ack CACHE_POP_INSWITCH_ACK 2) sockaddr_zero;
   Dgram (demo_ack SETVALID_INSWITCH_ACK 2) sockaddr_zero].

Definition demo_snap0 : Snap :=
  init_snap 1 (replicate 200 0) (replicate 200 0) (replicate 200 0) (replicate 200 0) demo_large_array.
Definition demo_os0 : Os case_map := prepare_switchos demo_os_config 1 4 (demo_small_io demo_answers [le_bytes 4 21]).
Definition demo_pop_bytes : list Z := demo_wire (CachePop_serialize (demo_pop 2 0) 200).
Definition demo_cleanup_bytes : list Z := demo_wire (SnapshotSignal_serialize (mkSnapshotSignal 1 3) 200).

Definition demo_os1 : Os case_map :=
  match popserver_step (replicate 200 0) demo_pop_bytes (cache_pop_ptr_queue demo_os0) with
  | Ok (_, _, q) => set_queue q demo_os0 | Err _ => demo_os0 end.
Definition popped (o : Os case_map) : Os case_map :=
  match popworker_step demo_os_config (fun _ => 0) o with Ok (_, o') => o' | Err _ => o end.
Definition demo_os2 : Os case_map := popped demo_os1.
Definition demo_snap1 : Snap := set_socks [le_bytes 4 (SWITCHOS_CLEANUP_ACK demo_sn_config)] [] demo_snap0.
Definition demo_cleaned : Snap * Os case_map :=
  match snapshotserver_recv demo_sn_config demo_cleanup_bytes demo_snap1 demo_os2 with Ok so => so | Err _ => (demo_snap1, demo_os2) end.
Definition demo_stopped : Snap * Os case_map := (demo_cleaned.1, popped demo_cleaned.2).
Definition demo_copied : Snap * Os case_map :=
  match snapshotserver_poll demo_os_config demo_sn_config demo_stopped.1 demo_stopped.2 with Ok so => so | Err _ => demo_stopped end.

Lemma demo_reachable admits : (forall o, head_fresh o -> admits o) ->
  reachable demo_os_config (fun _ => 0) demo_sn_config admits (demo_copied.1, demo_copied.2).
Proof.
  intros Ha. exists (demo_snap0, demo_os0). split; [now do 8 eexists|].
  eapply rtc_l; [eapply (step_popserver _ _ _ _ demo_snap0 demo_os0 (replicate 200 0) demo_pop_bytes); vm_compute; reflexivity|].
  eapply rtc_l; [apply step_popworker with (o' := demo_os2); [apply Ha; intros pop q; vm_compute; now intros [= <- _]|vm_compute; reflexivity]|].
  eapply rtc_l; [apply (step_arrive _ _ _ _ demo_snap0 demo_os2 [le_bytes 4 (SWITCHOS_CLEANUP_ACK demo_sn_config)] [] (os_io demo_os2))|].
  eapply rtc_l; [apply (step_recv _ _ _ _ _ _ demo_cleanup_bytes demo_cleaned.1 demo_cleaned.2); vm_compute; reflexivity|].
  eapply rtc_l; [apply step_popworker with (o' := popped demo_cleaned.2); [apply Ha; intros pop q; vm_compute; discriminate|vm_compute; reflexivity]|].
  eapply rtc_l; [apply (step_poll _ _ _ _ _ _ demo_copied.1 demo_copied.2); vm_compute; reflexivity|].
  vm_compute. apply rtc_refl.
Qed.

Lemma metadata_consistent_witness :
  cached_keyidx_map demo_copied.2 = [(key_of 2, 0)] /\ meta_ok demo_os_config (cached_keyidx_map demo_copied.2) (pipes demo_copied.2).
Proof.
  split; [vm_compute; reflexivity|].
  apply (metadata_consistent demo_os_config (fun _ => 0) demo_sn_config demo_copied.1).
  - vm_compute. split; discriminate.
  - apply demo_reachable. auto.
Defined.
