(* ===== verification/SwitchHandshake.v ===== *)
(** * Interrupted turns of the threads of the switch OS

    [SwitchSystem] lets the threads alternate turn by turn.  Here a turn of the
    popworker is cut wherever it waits for an answer or has used what the threads
    share: [pw_pc] says where it stands, with its local variables, and the other
    threads may move in between, in the middle of a population or of an eviction.
    The specialcaseserver is cut between the test of the flags, the arrival of a
    packet and its processing.  A test of flags together with the assignment that
    depends on it is one step.  [snapshot_assertions_hold] needs the three waiting
    loops of the snapshotserver: without one of them the metadata changes while it
    is copied, or special cases are reported to a snapshot that is over. *)

From Stdlib Require Import ZArith Lia List.
From stdpp Require Import base tactics list numbers option relations.
From S2P Require Import Prelude Cursor DynamicArray StdMap Crc32 Key Val DeletedSet Packet PacketCodec PacketCache PacketScan Outband PacketServer PacketSwitch Server Fragment PktRingBuffer MessageQueue RecvLarge SwitchOS SwitchMeta SwitchSnapshot SwitchLoad SwitchRollback SwitchPop SwitchSystem.

Open Scope Z_scope.
Set Default Proof Using "Type".

(** ** The popworker *)

Inductive pw_pc :=
  | PwHead
  | PwStart (pop : CachePop)
  | PwFree (pop : CachePop) (pipeidx freeidx : Z)
  | PwVictim (pop : CachePop) (pipeidx : Z) (is_case2 : bool) (p : Pipe)
  | PwReport (pop : CachePop) (pipeidx : Z) (is_case2 : bool) (p : Pipe) (evictidx : Z) (key : Key) (r : SnapshotRecord)
  | PwRemove (pop : CachePop) (pipeidx : Z) (p : Pipe) (evictidx : Z) (key : Key)
  | PwErase (pop : CachePop) (pipeidx : Z) (p : Pipe) (evictidx : Z) (key : Key)
  | PwInstall (pop : CachePop) (pipeidx freeidx : Z)
  | PwRecord (pop : CachePop) (pipeidx freeidx : Z)
  | PwTail.

(** Where the specialcaseserver stands: before its test, in [recvfrom], or with a
    packet. *)
Inductive sp_pc := SpHead | SpWait | SpGot (bytes : list Z).

Section Steps.
Context {M : Type} `{Hsm : SpecialMap M}.
Context (cfg : OsConfig) (rand : nat -> Z).

Definition pw_step (pc : pw_pc) : os (M := M) pw_pc :=
  match pc with
  | PwHead =>
      f ← os_gets os_flags;
      if is_stop_cachepop f && negb (popworker_know_stop_cachepop f) then
        _ ← os_modify (set_flags (set_know_stop true f)); mret PwTail
      else if negb (is_stop_cachepop f) then
        q ← os_gets cache_pop_ptr_queue;
        '(pop, q') ← os_lift (read q);
        _ ← os_modify (set_queue q');
        mret (match pop with None => PwTail | Some tmp_cache_pop_ptr => PwStart tmp_cache_pop_ptr end)
      else mret PwTail
  | PwStart pop =>
      _ ← os_check (existsb (Z.eqb (cp_serveridx pop)) (concat (server_logical_idxes_list cfg)));
      tmp_pipeidx ← os_lift (find_pipe cfg (cp_serveridx pop));
      p ← get_pipe tmp_pipeidx;
      if cached_empty_index p <? switch_kv_bucket_num cfg then
        _ ← put_pipe tmp_pipeidx (mkPipe (cached_keyarray p) (cached_serveridxarray p) (u32 (cached_empty_index p + 1)));
        mret (PwFree pop tmp_pipeidx (u16 (cached_empty_index p)))
      else
        f ← os_gets os_flags;
        mret (PwVictim pop tmp_pipeidx (is_snapshot f || (is_snapshot_end f && negb (popworker_know_snapshot_end f))) p)
  | PwFree pop tmp_pipeidx switchos_freeidx =>
      _ ← setvalid (cp_key pop) switchos_freeidx 0;
      mret (PwInstall pop tmp_pipeidx switchos_freeidx)
  | PwVictim pop tmp_pipeidx is_case2 p =>
      evictidx ← choose_evictidx cfg rand p;
      _ ← os_check ((0 <=? evictidx) && (evictidx <? switch_kv_bucket_num cfg));
      cur_evictkey ← os_lift (arr_get (cached_keyarray p) evictidx);
      _ ← require_cached cur_evictkey;
      _ ← setvalid cur_evictkey (u16 evictidx) 3;
      r ← load_evictdata cur_evictkey evictidx;
      serveridx ← os_lift (arr_get (cached_serveridxarray p) evictidx);
      _ ← send_evict cfg is_case2 cur_evictkey r serveridx;
      mret (PwReport pop tmp_pipeidx is_case2 p evictidx cur_evictkey r)
  | PwReport pop tmp_pipeidx is_case2 p evictidx cur_evictkey r =>
      _ ← store_case2 cfg is_case2 (u16 evictidx) cur_evictkey r;
      mret (PwRemove pop tmp_pipeidx p evictidx cur_evictkey)
  | PwRemove pop tmp_pipeidx p evictidx cur_evictkey =>
      _ ← setvalid cur_evictkey (u16 evictidx) 0;
      _ ← ask_ptf (serialize_remove_cache_lookup cfg cur_evictkey) (SWITCHOS_REMOVE_CACHE_LOOKUP_ACK cfg);
      mret (PwErase pop tmp_pipeidx p evictidx cur_evictkey)
  | PwErase pop tmp_pipeidx p evictidx cur_evictkey =>
      _ ← os_modify (fun s => set_meta (m_erase cur_evictkey (cached_keyidx_map s)) (pipes s) s);
      _ ← put_pipe tmp_pipeidx
            (mkPipe (<[Z.to_nat evictidx := Key_default]> (cached_keyarray p))
               (<[Z.to_nat evictidx := u16 (-1)]> (cached_serveridxarray p)) (cached_empty_index p));
      mret (PwInstall pop tmp_pipeidx (u16 evictidx))
  | PwInstall pop tmp_pipeidx switchos_freeidx =>
      let key := cp_key pop in
      _ ← os_check ((0 <=? switchos_freeidx) && (switchos_freeidx <? switch_kv_bucket_num cfg));
      _ ← populate_inswitch cfg key (qs_val (cp_put pop)) (qs_seq (cp_put pop)) switchos_freeidx (cp_stat pop);
      _ ← ask_ptf (serialize_add_cache_lookup cfg key switchos_freeidx) (SWITCHOS_ADD_CACHE_LOOKUP_ACK cfg);
      _ ← setvalid key switchos_freeidx 1;
      mret (PwRecord pop tmp_pipeidx switchos_freeidx)
  | PwRecord pop tmp_pipeidx switchos_freeidx =>
      _ ← record_entry tmp_pipeidx (cp_key pop) switchos_freeidx (cp_serveridx pop);
      mret PwTail
  | PwTail =>
      f ← os_gets os_flags;
      _ ← (if is_snapshot_end f && negb (popworker_know_snapshot_end f) then os_modify (set_flags (set_know_end true f))
           else mret tt);
      mret PwHead
  end.

(** ** The specialcaseserver *)

Definition special_ending (f : Flags) : bool := is_snapshot_end f && negb (specialcaseserver_know_snapshot_end f).

Definition sp_step (evs : list event) (pc : sp_pc) : os (M := M) (sp_pc * list event) :=
  match pc with
  | SpHead =>
      f ← os_gets os_flags;
      mret (if is_snapshot f || special_ending f then SpWait else SpHead, evs)
  | SpWait =>
      match evs with
      | [] => os_lift (Err Blocked)
      | Timeout :: evs' =>
          f ← os_gets os_flags;
          _ ← (if special_ending f then os_modify (set_flags (set_specialcase_know true f)) else mret tt);
          mret (SpHead, evs')
      | Dgram bytes _ :: evs' => mret (SpGot bytes, evs')
      end
  | SpGot bytes =>
      let buf := replicate (Z.to_nat MAX_BUFSIZE) 0 in
      _ ← process_case1 cfg (recv_into buf bytes) (recv_size buf bytes);
      mret (SpHead, evs)
  end.

(** ** The pieces make up the turns *)

Fixpoint pw_run (fuel : nat) (pc : pw_pc) : os (M := M) unit :=
  match fuel with
  | O => os_lift (Err OutOfFuel)
  | S fuel' =>
      pc' ← pw_step pc;
      match pc' with PwHead => mret tt | _ => pw_run fuel' pc' end
  end.

Lemma os_bind_assoc {A B C} (m : os (M := M) A) (k : A -> os B) (l : B -> os C) o : ((m ≫= k) ≫= l) o = (m ≫= fun a => k a ≫= l) o.
Proof. unfold mbind, os_bind. now destruct (m o) as [[a o']|e]. Qed.
Lemma os_bind_ext {A B} (m : os (M := M) A) (k l : A -> os B) o : (forall a o', m o = Ok (a, o') -> k a o' = l a o') -> (m ≫= k) o = (m ≫= l) o.
Proof. intros H. unfold mbind, os_bind. destruct (m o) as [[a o']|e]; auto. Qed.
Lemma os_ret_bind {A B} (a : A) (k : A -> os (M := M) B) o : (mret a ≫= k) o = k a o.
Proof. reflexivity. Qed.

(** The end of the loop body. *)
Definition pw_tail : os (M := M) unit :=
  f ← os_gets os_flags;
  if is_snapshot_end f && negb (popworker_know_snapshot_end f) then os_modify (set_flags (set_know_end true f)) else mret tt.

Lemma pw_run_S fuel pc o :
  pw_run (S fuel) pc o = (pc' ← pw_step pc; match pc' with PwHead => mret tt | _ => pw_run fuel pc' end) o.
Proof. reflexivity. Qed.
#[local] Opaque pw_run.

Ltac glue := cbn [pw_step]; repeat first [rewrite os_bind_assoc|rewrite os_ret_bind|apply os_bind_ext; intros].

Lemma run_tail fuel o : pw_run (S fuel) PwTail o = pw_tail o.
Proof. rewrite pw_run_S. unfold pw_tail. glue. now destruct (_ && _). Qed.

Lemma run_install fuel pop n i o : pw_run (3 + fuel) (PwInstall pop n i) o = (_ ← install_entry cfg n pop i; pw_tail) o.
Proof. cbn [Nat.add]. unfold install_entry. rewrite pw_run_S. glue. rewrite pw_run_S. glue. apply run_tail. Qed.

Lemma get_pipe_flags {A} n (k : Pipe -> Flags -> os (M := M) A) o :
  (p ← get_pipe n; f ← os_gets os_flags; k p f) o = (f ← os_gets os_flags; p ← get_pipe n; k p f) o.
Proof. unfold mbind, os_bind, os_gets, get_pipe. now destruct (arr_get (pipes o) n). Qed.
Lemma get_pipe_again {A} n (k : Pipe -> os (M := M) A) p o o' : get_pipe n o = Ok (p, o') -> (p ← get_pipe n; k p) o = k p o'.
Proof. intros H. unfold mbind, os_bind. now rewrite H. Qed.

Lemma run_victim fuel pop n o :
  (p ← get_pipe n; f ← os_gets os_flags; pw_run (7 + fuel) (PwVictim pop n (in_case2 f) p)) o =
  (i ← evict cfg rand n; _ ← install_entry cfg n pop i; pw_tail) o.
Proof.
  rewrite get_pipe_flags. unfold evict. cbn [Nat.add]. glue. rewrite pw_run_S. unfold in_case2. glue. rewrite pw_run_S. glue. rewrite pw_run_S. glue. rewrite pw_run_S. glue. apply run_install.
Qed.

(** A turn that is not interrupted is the turn of [SwitchOS]. *)
Lemma popworker_turn o : pw_run 9 PwHead o = popworker_step cfg rand o.
Proof.
  rewrite pw_run_S. unfold popworker_step. fold pw_tail. glue. destruct (is_stop_cachepop a && negb _).
  { glue. apply run_tail. }
  destruct (is_stop_cachepop a); cbn [negb]; [glue; apply run_tail|]. glue. destruct a1 as [[pop|] q']; glue; [|apply run_tail].
  unfold populate. rewrite pw_run_S. glue.
  match goal with H : get_pipe _ _ = _ |- _ => rename H into Hg end. destruct (_ <? _).
  - unfold take_freeidx. glue. rewrite pw_run_S. glue. apply run_install.
  - rewrite <- (run_victim 0). pose proof (get_pipe_Ok _ _ _ _ Hg) as [_ ->]. rewrite (get_pipe_again _ _ _ _ _ Hg). rewrite os_bind_assoc. apply os_bind_ext. intros f o1 _. reflexivity.
Qed.

(** The same for the specialcaseserver. *)
Definition sp_turn (evs : list event) : os (M := M) (list event) :=
  '(pc, evs) ← sp_step evs SpHead;
  match pc with
  | SpHead => mret evs
  | _ =>
      '(pc, evs) ← sp_step evs pc;
      match pc with SpHead => mret evs | _ => '(_, evs) ← sp_step evs pc; mret evs end
  end.

Lemma special_turn evs o : sp_turn evs o = specialcaseserver_step cfg evs o.
Proof.
  unfold sp_turn, specialcaseserver_step. cbn [sp_step]. unfold special_ending, mbind, os_bind, os_gets, mret, os_ret. cbn beta iota.
  destruct (is_snapshot (os_flags o) || _); [|reflexivity]. cbn [sp_step]. destruct evs as [|[bytes addr|] evs]; [reflexivity| |].
  - unfold mret, os_ret, mbind, os_bind. cbn [sp_step]. unfold mbind, os_bind, mret, os_ret.
    destruct (process_case1 _ _ _ _) as [[u o']|e]; reflexivity.
  - unfold mbind, os_bind, os_gets, special_ending. destruct (_ && _); reflexivity.
Qed.

End Steps.

(** ** The system *)

Section Handshake.
Context {M : Type} `{Hsm : SpecialMap M, !SpecialMapLaws M}.
Context (cfg : OsConfig) (rand : nat -> Z) (sc : SnConfig).
Implicit Types (s : Snap) (o : Os M) (b : Backup M) (f : Flags).

Record Sys := mkSys { sy_snap : Snap; sy_os : Os M; sy_pw : pw_pc; sy_sp : sp_pc }.

Inductive piece : Sys -> Sys -> Prop :=
  | piece_popserver s o pw sp buf bytes buf' ack q :
      popserver_step buf bytes (cache_pop_ptr_queue o) = Ok (buf', ack, q) -> piece (mkSys s o pw sp) (mkSys s (set_queue q o) pw sp)
  | piece_popworker s o pw sp pw' o' :
      pw_step cfg rand pw o = Ok (pw', o') -> piece (mkSys s o pw sp) (mkSys s o' pw' sp)
  | piece_special s o pw sp evs sp' evs' o' :
      sp_step cfg evs sp o = Ok ((sp', evs'), o') -> piece (mkSys s o pw sp) (mkSys s o' pw sp')
  | piece_recv s o pw sp bytes s' o' :
      sn_pc s = SnRecv -> snapshotserver_recv sc bytes s o = Ok (s', o') -> piece (mkSys s o pw sp) (mkSys s' o' pw sp)
  | piece_poll s o pw sp s' o' :
      snapshotserver_poll cfg sc s o = Ok (s', o') -> piece (mkSys s o pw sp) (mkSys s' o' pw sp)
  | piece_arrive s o pw sp ptf evs io : piece (mkSys s o pw sp) (mkSys (set_socks ptf evs s) (set_io io o) pw sp).

Definition sys_reachable (y : Sys) : Prop :=
  exists s o, initial cfg (s, o) /\ rtc piece (mkSys s o PwHead SpHead) y.

(** ** What the threads know of each other *)

(** The popworker is in the middle of a population. *)
Definition busy (pw : pw_pc) : bool := match pw with PwHead | PwTail => false | _ => true end.
(** It is going to report its victim, or decided not to. *)
Definition reporting (pw : pw_pc) : option bool :=
  match pw with PwVictim _ _ c _ | PwReport _ _ c _ _ _ _ => Some c | _ => None end.

Record knows s f (pw : pw_pc) (sp : sp_pc) : Prop := {
  kn_started : is_stop_cachepop f = false -> popworker_know_stop_cachepop f = false;
  kn_busy : busy pw = true -> popworker_know_stop_cachepop f = false;
  kn_stopped : sn_pc s = SnRecv -> is_stop_cachepop f = true -> popworker_know_stop_cachepop f = true;
  kn_case2 : reporting pw = Some true -> in_case2 f = true;
  kn_silent : reporting pw = Some false -> is_snapshot f = false;
  kn_special : sp <> SpHead -> is_snapshot f || special_ending f = true
}.

(** The local variables of the popworker. *)
Definition locals_ok (pw : pw_pc) : Prop :=
  match pw with
  | PwVictim _ _ _ p => pipe_ok cfg p
  | PwReport _ _ _ p i _ _ | PwRemove _ _ p i _ | PwErase _ _ p i _ => pipe_ok cfg p /\ 0 <= i < bucket_num cfg
  | _ => True
  end.

Record threads_ok (y : Sys) : Prop := {
  to_sys : sys_ok cfg (sy_snap y, sy_os y);
  to_knows : knows (sy_snap y) (os_flags (sy_os y)) (sy_pw y) (sy_sp y);
  to_locals : locals_ok (sy_pw y)
}.

(** ** The snapshotserver *)

(** How it changes the flags. *)
Inductive flag_move s f : Snap -> Flags -> Prop :=
  | fm_stay s' : sn_pc s' = sn_pc s -> flag_move s f s' f
  | fm_first s' : sn_pc s = SnRecv -> is_first_snapshot s = true -> sn_pc s' = SnStop -> flag_move s f s' (mkFlags true false false false false false)
  | fm_stale s' : sn_pc s' = SnEndStale -> flag_move s f s' (mkFlags false false false true false false)
  | fm_start s' : popworker_know_stop_cachepop f = true -> sn_pc s' = SnRecv ->
      flag_move s f s' (mkFlags false false true (is_snapshot_end f) (popworker_know_snapshot_end f) (specialcaseserver_know_snapshot_end f))
  | fm_getdata s' : sn_pc s' = SnEndGetdata ->
      flag_move s f s' (mkFlags (is_stop_cachepop f) (popworker_know_stop_cachepop f) false true false false)
  | fm_cleaned s' : sn_pc s = SnEndStale -> popworker_know_snapshot_end f = true -> specialcaseserver_know_snapshot_end f = true ->
      sn_pc s' = SnStop -> flag_move s f s' (mkFlags true false false false false false)
  | fm_copied s' : popworker_know_stop_cachepop f = true -> sn_pc s' = SnRecv -> flag_move s f s' f
  | fm_ended s' : sn_pc s = SnEndGetdata -> popworker_know_snapshot_end f = true -> specialcaseserver_know_snapshot_end f = true ->
      sn_pc s' = SnRecv ->
      flag_move s f s' (mkFlags (is_stop_cachepop f) (popworker_know_stop_cachepop f) (is_snapshot f) false false false).

Lemma poll_moves s o s' o' : snapshotserver_poll cfg sc s o = Ok (s', o') -> flag_move s (os_flags o) s' (os_flags o').
Proof.
  unfold snapshotserver_poll. destruct (sn_pc s) eqn:Epc; [intros [= <- <-]; now apply fm_stay|..].
  - destruct (_ && _) eqn:E; [|intros [= <- <-]; now apply fm_stay]. apply andb_true_iff in E as [E1 E2].
    unfold cleanup_init. intros ([] & _ & H)%bind_Ok. apply bind_Ok in H as ([] & _ & [= <- <-]). now apply fm_cleaned.
  - destruct (popworker_know_stop_cachepop _) eqn:E; [|intros [= <- <-]; now apply fm_stay].
    intros ([u s1] & _ & [= <- <-])%bind_Ok. now apply fm_copied.
  - destruct (_ && _) eqn:E; [|intros [= <- <-]; now apply fm_stay]. apply andb_true_iff in E as [E1 E2].
    intros (d & _ & H)%bind_Ok. apply bind_Ok in H as ([u s1] & _ & [= <- <-]). now apply fm_ended.
Qed.

Lemma recv_moves bytes s o s' o' : sn_pc s = SnRecv -> snapshotserver_recv sc bytes s o = Ok (s', o') -> flag_move s (os_flags o) s' (os_flags o').
Proof.
  intros Epc H. unfold snapshotserver_recv in H. apply bind_Ok in H as (sig & _ & H).
  match type of H with (if ?c then _ else _) = _ => destruct c end; [injection H as <- <-; now apply fm_stay|].
  set (s1 := set_signal sig _) in H. assert (Epc1 : sn_pc s1 = SnRecv) by exact Epc. assert (Ef1 : is_first_snapshot s1 = is_first_snapshot s) by reflexivity.
  destruct (sn_control_type s1 =? SNAPSHOT_CLEANUP sc).
  { unfold handle_cleanup in H. apply bind_Ok in H as ([u s2] & (E1 & E2 & E3 & _)%stable_ptf & H). destruct (is_first_snapshot s2) eqn:Ef.
    - unfold cleanup_init in H. apply bind_Ok in H as ([] & _ & H). apply bind_Ok in H as ([] & _ & [= <- <-]). apply fm_first; [exact Epc|congruence|reflexivity].
    - apply bind_Ok in H as ([] & _ & H). apply bind_Ok in H as ([u1 s3] & _ & H). apply bind_Ok in H as ([u2 s4] & _ & [= <- <-]). now apply fm_stale. }
  destruct (sn_control_type s1 =? SNAPSHOT_PREPARE sc).
  { apply bind_Ok in H as (s2 & H & [= <- <-]). unfold handle_prepare in H. apply bind_Ok in H as ([u s3] & (E1 & _)%stable_ptf & H).
    apply bind_Ok in H as ([u2 s4] & (E2 & _)%stable_reply & [= <-]). apply fm_stay. congruence. }
  destruct (sn_control_type s1 =? SNAPSHOT_SETFLAG sc).
  { apply bind_Ok in H as (s2 & H & [= <- <-]). unfold handle_setflag in H. apply bind_Ok in H as ([u s3] & (E1 & _)%stable_ptf & H).
    apply bind_Ok in H as ([u2 s4] & (E2 & _)%stable_reply & [= <-]). apply fm_stay. congruence. }
  destruct (sn_control_type s1 =? SNAPSHOT_START sc).
  { unfold handle_start in H. apply bind_Ok in H as ([u s2] & (E1 & _)%stable_ptf & H). destruct (_ && _) eqn:E; [|discriminate].
    apply andb_true_iff in E as [_ E]. apply bind_Ok in H as ([d s3] & (E3 & _)%stable_load_pipes & H).
    apply bind_Ok in H as ([u2 s4] & (E4 & _)%stable_reply & [= <- <-]). cbn in E4. apply fm_start; [exact E|congruence]. }
  destruct (sn_control_type s1 =? SNAPSHOT_GETDATA sc); [|discriminate].
  unfold handle_getdata in H. apply bind_Ok in H as ([u s2] & _ & H). destruct (_ && _); [|discriminate]. injection H as <- <-. now apply fm_getdata.
Qed.

Lemma move_knows s o s' f' pw sp : phase cfg s o -> flag_move s (os_flags o) s' f' -> knows s (os_flags o) pw sp -> knows s' f' pw sp.
Proof.
  intros Hph Hm [K1 K2 K3 K4 K5 K6]. set (f := os_flags o) in *. unfold phase in Hph. fold f in Hph. unfold in_case2, special_ending in *.
  destruct Hm as [s' E|s' E Ef E'|s' E|s' Hk E|s' E|s' E H1 H2 E'|s' Hk E|s' E H1 H2 E'].
  - rewrite <- E in K3. now split.
  - rewrite E, Ef in Hph. destruct Hph as (Hend & _ & Hs & _ & _). rewrite Hend, Hs in *. split; cbn; try auto; congruence.
  - split; cbn; auto; congruence.
  - split; cbn; try (auto || discriminate). intros Hr. destruct pw; cbn in K2, Hr; try discriminate; rewrite K2 in Hk by reflexivity; discriminate.
  - split; cbn; auto; congruence.
  - rewrite E in Hph. destruct Hph as (_ & _ & Hs & _ & _). rewrite Hs, H1, H2, andb_false_r in *. split; cbn; try auto; congruence.
  - split; auto.
  - rewrite E in Hph. destruct Hph as (_ & Hst & Hs & _ & _). rewrite Hs, H1, H2, andb_false_r in *. split; cbn; try auto; congruence.
Qed.

(** ** The popworker *)

(** What a piece of a turn does. *)
Record moved s o (pw : pw_pc) (sp : sp_pc) o' (pw' : pw_pc) : Prop := {
  mv_turn : turn cfg o o';
  mv_pipes : Forall (pipe_ok cfg) (pipes o');
  mv_length : length (pipes o') = length (pipes o);
  mv_still : busy pw = false -> pipes o' = pipes o;
  mv_knows : knows s (os_flags o') pw' sp;
  mv_locals : locals_ok pw'
}.

Lemma turn_same o o' : os_flags o' = os_flags o -> backups o' = backups o -> turn cfg o o'.
Proof. intros Ef Eb. split; rewrite ?Ef; try reflexivity; [auto|now left]. Qed.

(** Nothing but the metadata and the place changes. *)
Lemma moved_meta s o pw sp o' pw' : knows s (os_flags o) pw sp -> os_flags o' = os_flags o -> backups o' = backups o ->
  Forall (pipe_ok cfg) (pipes o') -> length (pipes o') = length (pipes o) -> (busy pw = false -> pipes o' = pipes o) ->
  (busy pw' = true -> busy pw = true) -> (reporting pw' = None \/ reporting pw' = reporting pw) -> locals_ok pw' -> moved s o pw sp o' pw'.
Proof.
  intros [K1 K2 K3 K4 K5 K6] Ef Eb Hp Hl Hs Hbusy Hr Hloc. split; try assumption; [now apply turn_same|]. rewrite Ef.
  split; auto; intros H; destruct Hr as [Hr|Hr]; rewrite Hr in H; (discriminate || auto).
Qed.

Lemma pipe_ok_grow p : bucket_num cfg <= 2 ^ 16 -> pipe_ok cfg p -> cached_empty_index p < bucket_num cfg -> pipe_ok cfg (grow_pipe p).
Proof. intros Hb [H1 H2 H3] He. split; [exact H1|exact H2|]. cbn. rewrite u32_id; unfold is_u32; lia. Qed.

Lemma head_moved s o sp o' pw' : Forall (pipe_ok cfg) (pipes o) -> knows s (os_flags o) PwHead sp ->
  pw_step cfg rand PwHead o = Ok (pw', o') -> moved s o PwHead sp o' pw'.
Proof.
  intros Hp HK H. pose proof HK as [K1 K2 K3 K4 K5 K6]. cbn [pw_step] in H. os_inv1. os_inv1. destruct (is_stop_cachepop (os_flags _) && _) eqn:E.
  - os_inv. apply andb_true_iff in E as [E _]. split; cbn; try (assumption || reflexivity || exact I).
    + split; try reflexivity; [auto|now left].
    + split; cbn; auto; discriminate || congruence.
  - destruct (is_stop_cachepop _) eqn:Es; cbn [negb] in H0; [os_inv; apply moved_meta; cbn; auto|].
    os_inv. match goal with x : (_ * _)%type |- _ => destruct x as [pop q'] end. os_inv. destruct pop as [pop|].
    + split; cbn; try (assumption || reflexivity || exact I); [now apply turn_same|split; cbn; intros; (discriminate || congruence || auto)].
    + apply moved_meta; cbn; auto.
Qed.

Lemma start_moved s o sp pop o' pw' : bucket_num cfg <= 2 ^ 16 -> Forall (pipe_ok cfg) (pipes o) -> knows s (os_flags o) (PwStart pop) sp ->
  pw_step cfg rand (PwStart pop) o = Ok (pw', o') -> moved s o (PwStart pop) sp o' pw'.
Proof.
  intros Hb Hp HK H. pose proof HK as [K1 K2 K3 K4 K5 K6]. cbn [pw_step] in H. os_inv.
  match goal with H : get_pipe _ _ = _ |- _ => apply get_pipe_Ok in H as [Hn ->] end.
  match goal with H : pipes _ !! Z.to_nat _ = Some ?q |- _ => rename q into p end.
  assert (Hpo : pipe_ok cfg p) by (rewrite Forall_lookup in Hp; eauto). destruct (_ <? _) eqn:E; os_inv.
  - apply moved_meta; cbn; auto; [|now rewrite length_insert|discriminate]. apply Forall_insert; [exact Hp|].
    apply Z.ltb_lt in E. exact (pipe_ok_grow p Hb Hpo E).
  - split; cbn; auto; [now apply turn_same|]. split; cbn; auto.
    + unfold in_case2. congruence.
    + intros [= Hc]. destruct (is_snapshot _); [discriminate|reflexivity].
Qed.

Lemma piece_moved s o pw sp o' pw' : bucket_num cfg <= 2 ^ 16 -> Forall (pipe_ok cfg) (pipes o) -> knows s (os_flags o) pw sp -> locals_ok pw ->
  pw_step cfg rand pw o = Ok (pw', o') -> moved s o pw sp o' pw'.
Proof.
  intros Hb Hp HK Hloc H. destruct pw; [exact (head_moved _ _ _ _ _ Hp HK H)|exact (start_moved _ _ _ _ _ _ Hb Hp HK H)|..]; cbn [pw_step] in H; cbn [locals_ok] in Hloc.
  - os_inv. apply moved_meta; cbn; auto.
  - os_inv. match goal with H : require_cached _ _ = _ |- _ => apply require_cached_Ok in H as [_ ->] end.
    apply moved_meta; cbn; auto. split; [exact Hloc|]. unfold bucket_num. lia.
  - os_inv. match goal with H : store_case2 _ _ _ _ _ _ = _ |- _ => apply store_case2_Ok in H as (bs & -> & Hbs) end.
    destruct HK as [K1 K2 K3 K4 K5 K6]. split; cbn; auto; [|split; cbn; auto; discriminate].
    split; try reflexivity; [auto|]. cbn. eapply stored_weaken; [|exact Hbs]. intros ->. specialize (K4 eq_refl). unfold in_case2 in K4.
    destruct (is_snapshot _), (is_snapshot_end _); auto.
  - os_inv. apply moved_meta; cbn; auto.
  - os_inv. destruct Hloc as [Hpo Hi]. apply moved_meta; cbn; auto; [|now rewrite length_insert|discriminate].
    apply Forall_insert; [exact Hp|]. exact (pipe_ok_set cfg evictidx Key_default (u16 (-1)) p Hpo).
  - os_inv. apply moved_meta; cbn; auto.
  - os_inv. match goal with H : record_entry _ _ _ _ _ = _ |- _ => apply record_entry_Ok in H as (q & Hq & ->) end.
    apply moved_meta; cbn; auto; [|now rewrite length_insert|discriminate]. apply Forall_insert; [exact Hp|]. apply pipe_ok_set. rewrite Forall_lookup in Hp. eauto.
  - do 3 os_inv1. destruct HK as [K1 K2 K3 K4 K5 K6]. destruct (is_snapshot_end (os_flags _) && _) eqn:E; os_inv.
    + apply andb_true_iff in E as [E _]. split; cbn; auto; [|split; cbn; auto; discriminate]. split; cbn; try reflexivity; [congruence|now left].
    + split; cbn; auto; [now apply turn_same|split; cbn; auto; discriminate].
Qed.

(** ** The specialcaseserver *)

Lemma special_moved s o pw sp evs sp' evs' o' : knows s (os_flags o) pw sp -> sp_step cfg evs sp o = Ok ((sp', evs'), o') ->
  turn cfg o o' /\ pipes o' = pipes o /\ knows s (os_flags o') pw sp'.
Proof.
  intros HK H. pose proof HK as [K1 K2 K3 K4 K5 K6]. destruct sp as [| |bytes]; cbn [sp_step] in H.
  - os_inv. split; [now apply turn_same|]. split; [reflexivity|]. split; auto. destruct (_ || _); [reflexivity|]. congruence.
  - destruct evs as [|[bytes addr|] evs]; [discriminate| |]; os_inv; [split; [now apply turn_same|]; split; [reflexivity|]; split; auto; intros _; now apply K6|].
    destruct (special_ending _) eqn:E; os_inv.
    + apply andb_true_iff in E as [E _]. split; [split; cbn; try reflexivity; [congruence|now left]|]. split; [reflexivity|]. split; cbn; auto; congruence.
    + split; [now apply turn_same|]. split; [reflexivity|]. split; auto; congruence.
  - apply os_bind_Ok in H as (u & o1 & H & H'). injection H' as <- _ <-. unfold process_case1 in H. apply bind_Ok in H as (ty & _ & H).
    destruct (existsb _ _); [|discriminate]. apply bind_Ok in H as (req & _ & H). apply bind_Ok in H as (bs & Hbs & H). apply bind_Ok in H as (bw & _ & H).
    apply bind_Ok in H as (idx & _ & H). apply bind_Ok in H as (c & _ & H). injection H as _ <-. split; [|split; [reflexivity|split; cbn; auto; congruence] ].
    split; try reflexivity; [auto|]. right. split; [|eauto 10]. specialize (K6 ltac:(discriminate)). unfold special_ending in K6.
    destruct (is_snapshot _), (is_snapshot_end _); auto.
Qed.

(** ** Reachable states *)

Lemma turn_sys_ok s o o' : sys_ok cfg (s, o) -> turn cfg o o' -> Forall (pipe_ok cfg) (pipes o') -> length (pipes o') = length (pipes o) ->
  (sn_pc s = SnRecv -> is_stop_cachepop (os_flags o) = true -> pipes o' = pipes o) -> sys_ok cfg (s, o').
Proof using SpecialMapLaws0.
  intros [_ Hl Hd Hph] Ht Hp El Hs. cbn [fst snd] in *. pose proof (tu_cases _ _ _ Ht) as Hc. apply stored_frozen, (f_equal length) in Hc.
  rewrite !length_map in Hc. split; cbn [fst snd]; [exact Hp|congruence|congruence|exact (phase_turn _ _ _ _ Ht Hs Hph)].
Qed.

Lemma piece_ok y y' : bucket_num cfg <= 2 ^ 16 -> piece y y' -> threads_ok y -> threads_ok y'.
Proof using SpecialMapLaws0.
  intros Hb Hs [Hok HK Hloc]. destruct Hs; cbn [sy_snap sy_os sy_pw sy_sp] in *.
  - split; cbn; [destruct Hok as [Hp Hl Hd Hph]; now split|exact HK|exact Hloc].
  - apply (piece_moved s o pw sp o' pw' Hb (ok_pipes _ _ Hok) HK Hloc) in H as [Ht Hp El Hst HK' Hloc']. split; cbn; [|exact HK'|exact Hloc'].
    apply (turn_sys_ok s o); try assumption. intros Epc Estop. apply Hst. destruct (busy pw) eqn:E; [|reflexivity].
    pose proof (kn_stopped _ _ _ _ HK Epc Estop). pose proof (kn_busy _ _ _ _ HK E). congruence.
  - apply (special_moved s o pw) in H as (Ht & Ep & HK'); [|exact HK]. split; cbn; [|exact HK'|exact Hloc].
    apply (turn_sys_ok s o); rewrite ?Ep; auto. exact (ok_pipes _ _ Hok).
  - destruct (recv_ok _ _ _ _ _ _ _ Hok H H0) as [Hok' _]. split; cbn; [exact Hok'| |exact Hloc].
    exact (move_knows _ _ _ _ _ _ (ok_phase _ _ Hok) (recv_moves _ _ _ _ _ H H0) HK).
  - destruct (poll_ok _ _ _ _ _ _ Hok H) as [Hok' _]. split; cbn; [exact Hok'| |exact Hloc].
    exact (move_knows _ _ _ _ _ _ (ok_phase _ _ Hok) (poll_moves _ _ _ _ H) HK).
  - split; cbn; [|destruct HK; now split|exact Hloc]. destruct Hok as [Hp Hl Hd Hph]. now split.
Qed.

Lemma sys_reachable_ok y : 0 <= bucket_num cfg <= 2 ^ 16 -> sys_reachable y -> threads_ok y.
Proof using SpecialMapLaws0.
  intros Hb (s & o & Hi & H). assert (H0 : threads_ok (mkSys s o PwHead SpHead)).
  { split; cbn; [apply initial_ok; [lia|exact Hi]| |exact I]. destruct Hi as (n & mq & io & rb & sb & pb & kb & d & [= -> ->]).
    split; cbn; auto; congruence. }
  revert H0. induction H as [|x y z Hxy _ IH]; [auto|]. intros H0. apply IH. exact (piece_ok _ _ (proj2 Hb) Hxy H0).
Qed.

End Handshake.


(** ** A concrete run

    SNAPSHOT_CLEANUP arrives in the middle of a population: the snapshotserver waits,
    the population is finished, the popworker stops, and the metadata is copied. *)

Definition pieces (n : nat) (x : pw_pc * Os case_map) : pw_pc * Os case_map :=
  Nat.iter n (fun x => match pw_step demo_os_config (fun _ => 0) x.1 x.2 with Ok x' => x' | Err _ => x end) x.
Definition half_popped : pw_pc * Os case_map := pieces 2 (PwHead, demo_os1).
Definition half_cleaned : Snap * Os case_map :=
  match snapshotserver_recv demo_sn_config demo_cleanup_bytes demo_snap1 half_popped.2 with Ok so => so | Err _ => (demo_snap1, half_popped.2) end.
Definition half_stopped : pw_pc * Os case_map := pieces 5 (half_popped.1, half_cleaned.2).
Definition half_copied : Snap * Os case_map :=
  match snapshotserver_poll demo_os_config demo_sn_config half_cleaned.1 half_stopped.2 with Ok so => so | Err _ => (half_cleaned.1, half_stopped.2) end.


Lemma pieces_run s sp n pw o y : y = pieces n (pw, o) ->
  rtc (piece demo_os_config (fun _ => 0) demo_sn_config) (mkSys s o pw sp) (mkSys s y.2 y.1 sp).
Proof.
  revert y. induction n as [|n IH]; intros y ->; [apply rtc_refl|]. etransitivity; [exact (IH _ eq_refl)|]. change (pieces (S n) (pw, o)) with
    (match pw_step demo_os_config (fun _ => 0) (pieces n (pw, o)).1 (pieces n (pw, o)).2 with Ok x' => x' | Err _ => pieces n (pw, o) end).
  destruct (pw_step _ _ _ _) as [[pw' o']|e] eqn:E; [|apply rtc_refl]. now apply rtc_once, piece_popworker.
Qed.

#[local] Opaque pieces.

Lemma half_reachable : sys_reachable demo_os_config (fun _ => 0) demo_sn_config (mkSys half_copied.1 half_copied.2 half_stopped.1 SpHead).
Proof.
  assert (H2 : snapshotserver_recv demo_sn_config demo_cleanup_bytes demo_snap1 half_popped.2 = Ok (half_cleaned.1, half_cleaned.2)) by (vm_compute; reflexivity).
  assert (H4 : snapshotserver_poll demo_os_config demo_sn_config half_cleaned.1 half_stopped.2 = Ok (half_copied.1, half_copied.2)) by (vm_compute; reflexivity).
  pose proof (pieces_run demo_snap1 SpHead 2 PwHead demo_os1 half_popped eq_refl) as H1.
  pose proof (pieces_run half_cleaned.1 SpHead 5 half_popped.1 half_cleaned.2 half_stopped eq_refl) as H3.
  exists demo_snap0, demo_os0. split; [now do 8 eexists|].
  eapply rtc_l; [eapply (piece_popserver _ _ _ demo_snap0 demo_os0 _ _ (replicate 200 0) demo_pop_bytes); vm_compute; reflexivity|].
  eapply rtc_l; [apply (piece_arrive _ _ _ demo_snap0 _ _ _ [le_bytes 4 (SWITCHOS_CLEANUP_ACK demo_sn_config)] [] (os_io demo_os1))|].
  etransitivity; [exact H1|]. apply (rtc_l _ _ _ _ (piece_recv _ _ _ _ _ _ _ _ _ _ (eq_refl : sn_pc demo_snap1 = SnRecv) H2)).
  etransitivity; [exact H3|]. exact (rtc_once _ _ (piece_poll _ _ _ _ _ _ _ _ _ H4)).
Qed.

