(* ===== verification/Controller.v ===== *)
(** * The controller

    The threads of farreach/controller.c.  [ct_popserver_step] and
    [ct_evictserver_step] are one round of the loops that pass cache populations
    and evictions on; [snapshot_round] is one round of the snapshotclient, which
    leads the switch OS and the servers through a snapshot and stores what the
    switch held. *)

From Stdlib Require Import ZArith Lia List.
From stdpp Require Import base tactics list numbers option.
From S2P Require Import Prelude Cursor DynamicArray StdMap Crc32 Key Val DeletedSet Packet PacketCodec PacketCache PacketScan Outband PacketServer PacketSwitch Server Fragment PktRingBuffer MessageQueue RecvLarge SwitchOS SwitchSnapshot.

Open Scope Z_scope.

(** ** Files *)

(** [get_controller_snapshotid_path] and [get_controller_snapshotdata_path]. *)
Inductive ct_path :=
  | ct_snapshotid_path
  | ct_snapshotdata_path (snapshotid : Z).

#[global] Instance ct_path_eq_dec : EqDecision ct_path.
Proof. solve_decision. Defined.

Definition CtDisk : Type := ct_path -> option (list Z).
Definition ct_write (p : ct_path) (c : list Z) (d : CtDisk) : CtDisk := fun q => if decide (q = p) then Some c else d q.
Definition ct_rmfiles (p : ct_path) (d : CtDisk) : CtDisk := fun q => if decide (q = p) then None else d q.

(** [controller_load_snapshotid]. *)
Definition controller_load_snapshotid (d : CtDisk) : res Z :=
  match d ct_snapshotid_path with
  | None => Ok 1
  | Some c => if (length c <? 4)%nat then Err OutOfBounds else int_ck (s32 (le_val (take 4 c)) + 1)
  end.

(** ** Configuration and state *)

(** [ct_stale] is what the stack arrays hold that are not initialised. *)
Record CtConfig := mkCtConfig {
  SNAPSHOT_SENDDATA : Z;
  SNAPSHOT_SENDDATA_ACK : Z;
  client_physical_num : nat;
  ct_stale : list Z
}.

Inductive CtDest :=
  | CtSwitchos
  | CtSnapshotserver (serveridx : Z)
  | CtSnapshotdataserver (serveridx : Z)
  | CtBackupreleaser (client : nat).

(** The snapshotclient: the counters, its arrays, what still arrives on its sockets
    (one for the switch OS, one per server), the files, and what it has sent. *)
Record Ctl := mkCtl {
  controller_snapshotid : Z;
  bandwidthcost : Z;
  perserver_localcp_bandwidthcost : list Z;
  databuf_list : list DynamicArray;
  databuf : DynamicArray;
  notificationbuf : DynamicArray;
  switchos_sock : list event;
  server_socks : list (list event);
  ct_disk : CtDisk;
  ct_sent : list (CtDest * list Z)
}.

Definition add_cost (n : Z) (c : Ctl) : Ctl :=
  mkCtl (controller_snapshotid c) (u64 (bandwidthcost c + n)) (perserver_localcp_bandwidthcost c) (databuf_list c) (databuf c)
    (notificationbuf c) (switchos_sock c) (server_socks c) (ct_disk c) (ct_sent c).
Definition add_localcp (costs : list Z) (c : Ctl) : Ctl :=
  mkCtl (controller_snapshotid c) (bandwidthcost c) costs (databuf_list c) (databuf c)
    (notificationbuf c) (switchos_sock c) (server_socks c) (ct_disk c) (ct_sent c).
Definition set_databufs (ds : list DynamicArray) (c : Ctl) : Ctl :=
  mkCtl (controller_snapshotid c) (bandwidthcost c) (perserver_localcp_bandwidthcost c) ds (databuf c)
    (notificationbuf c) (switchos_sock c) (server_socks c) (ct_disk c) (ct_sent c).
Definition set_databuf (d : DynamicArray) (c : Ctl) : Ctl :=
  mkCtl (controller_snapshotid c) (bandwidthcost c) (perserver_localcp_bandwidthcost c) (databuf_list c) d
    (notificationbuf c) (switchos_sock c) (server_socks c) (ct_disk c) (ct_sent c).
Definition set_notificationbuf (d : DynamicArray) (c : Ctl) : Ctl :=
  mkCtl (controller_snapshotid c) (bandwidthcost c) (perserver_localcp_bandwidthcost c) (databuf_list c) (databuf c)
    d (switchos_sock c) (server_socks c) (ct_disk c) (ct_sent c).
Definition set_switchos_sock (evs : list event) (c : Ctl) : Ctl :=
  mkCtl (controller_snapshotid c) (bandwidthcost c) (perserver_localcp_bandwidthcost c) (databuf_list c) (databuf c)
    (notificationbuf c) evs (server_socks c) (ct_disk c) (ct_sent c).
Definition set_server_socks (ss : list (list event)) (c : Ctl) : Ctl :=
  mkCtl (controller_snapshotid c) (bandwidthcost c) (perserver_localcp_bandwidthcost c) (databuf_list c) (databuf c)
    (notificationbuf c) (switchos_sock c) ss (ct_disk c) (ct_sent c).
Definition ct_send (msgs : list (CtDest * list Z)) (c : Ctl) : Ctl :=
  mkCtl (controller_snapshotid c) (bandwidthcost c) (perserver_localcp_bandwidthcost c) (databuf_list c) (databuf c)
    (notificationbuf c) (switchos_sock c) (server_socks c) (ct_disk c) (ct_sent c ++ msgs).

(** ** Cache population and eviction *)

(** [bwcost] of CACHE_EVICT_ACK. *)
Definition CacheEvictAck_bwcost (p : Packet) : res Z := ophdr ← get_ophdrsize (p_methodid p); Ok (ophdr + 2).

(** A CACHE_POP of a server goes on to the switch OS and is acknowledged at once
    from the same buffer; [cost] is the bandwidth counter. *)
Definition ct_popserver_step (buf bytes : list Z) (cost : Z) : res (list Z * list Z * list Z * Z) :=
  let recvsize := recv_size buf bytes in
  let buf := recv_into buf bytes in
  tmp_cache_pop ← run_reader (CachePop_parse CURMETHOD_ID recvsize) buf;
  bw ← CachePop_bwcost tmp_cache_pop;
  let to_switchos := take (Z.to_nat recvsize) buf in
  '(acksize, buf) ← run_writer (WarmupRequest_serialize (CachePopAck_new CURMETHOD_ID (cp_key tmp_cache_pop)) MAX_BUFSIZE) buf;
  Ok (buf, to_switchos, take (Z.to_nat acksize) buf, u64 (cost + u32 bw)).

Section Evictserver.
Context (cfg : OsConfig).

(** A CACHE_EVICT of the switch OS goes on to its server; the answer of the server,
    unless a timeout comes first, goes back to the switch OS.  [evs] is the socket
    to the servers.  A packet of another type leaves the pointer to the packet
    unset.  The result: the buffer, the server and what it gets, the answer to the
    switch OS, the rest of the socket and the counter. *)
Definition ct_evictserver_step (buf bytes : list Z) (evs : list event) (cost : Z)
    : res (list Z * (Z * list Z) * option (list Z) * list event * Z) :=
  let recvsize := recv_size buf bytes in
  let buf := recv_into buf bytes in
  optype ← run_reader (get_packet_type recvsize) buf;
  evict ← (if optype =? CACHE_EVICT then run_reader (CacheEvict_parse CURMETHOD_ID recvsize) buf
           else if optype =? CACHE_EVICT_CASE2 then run_reader (CacheEvictCase2_parse CURMETHOD_ID recvsize) buf
           else Err NullDeref);
  bw ← CachePop_bwcost evict;
  let serveridx := cp_serveridx evict in
  _ ← INVARIANT ((0 <=? serveridx) && (serveridx <? max_server_total_logical_num cfg));
  let tmp_server_physical_idx := find_physical serveridx 0 (server_logical_idxes_list cfg) (-1) in
  _ ← INVARIANT (negb (tmp_server_physical_idx =? -1));
  let to_server := (serveridx, take (Z.to_nat recvsize) buf) in
  let cost := u64 (cost + u32 bw) in
  match evs with
  | [] => Err Blocked
  | Timeout :: evs' => Ok (buf, to_server, None, evs', cost)
  | Dgram b _ :: evs' =>
      let recvsize := recv_size buf b in
      let buf := recv_into buf b in
      tmpack ← run_reader (HostAck_parse CACHE_EVICT_ACK CURMETHOD_ID recvsize) buf;
      bw ← CacheEvictAck_bwcost tmpack;
      Ok (buf, to_server, Some (take (Z.to_nat recvsize) buf), evs', u64 (cost + u32 bw))
  end.

End Evictserver.

(** ** Messages of a snapshot *)

(** The record loop of [dynamic_serialize_upstream_backup_notification]. *)
Fixpoint notify_records (rs : list (Key * SnapshotRecord)) (d : DynamicArray) (offset : Z) : res (Z * DynamicArray) :=
  match rs with
  | [] => Ok (offset, d)
  | (key, r) :: rs' =>
      '(tmpkeysize, d) ← Key_dynamic_serialize key d offset;
      let offset := offset + tmpkeysize in
      d ← dynamic_memcpy d offset (be 4 (sr_seq r));
      notify_records rs' d (offset + 4)
  end.

(** The keys and sequence numbers of all servers, for the clients. *)
Definition dynamic_serialize_upstream_backup_notification (d : DynamicArray) (perserver : list (list (Key * SnapshotRecord)))
    : res (Z * DynamicArray) :=
  let rs := concat perserver in
  '(offset, d) ← notify_records rs d 4;
  d ← dynamic_memcpy d 0 (be 4 (Z.of_nat (length rs)));
  Ok (offset, d).

Section Snapshotclient.
Context (cfg : OsConfig) (sc : SnConfig) (cc : CtConfig).

Definition valid_idxes : list Z := concat (server_logical_idxes_list cfg).

(** A signal is sent until an answer arrives, which has to be [ack]: the events
    that are left and what was sent. *)
Fixpoint command (dst : CtDest) (signal : list Z) (ack : Z) (evs : list event) : res (list event * list (CtDest * list Z)) :=
  match evs with
  | [] => Err Blocked
  | Timeout :: evs' => '(rest, sent) ← command dst signal ack evs'; Ok (rest, (dst, signal) :: sent)
  | Dgram bytes _ :: evs' =>
      let recvsize := recv_size (ct_stale cc) bytes in
      answer ← run_reader (SnapshotSignal_deserialize recvsize) (recv_into (ct_stale cc) bytes);
      _ ← INVARIANT (sig_control_type answer =? ack);
      Ok (evs', [(dst, signal)])
  end.

Definition signal_bytes (control_type : Z) (c : Ctl) : res (list Z) :=
  '(n, buf) ← run_writer (SnapshotSignal_serialize (mkSnapshotSignal control_type (controller_snapshotid c)) MAX_BUFSIZE) (ct_stale cc);
  Ok (take (Z.to_nat n) buf).

Definition ask_switchos (control_type ack : Z) (c : Ctl) : res Ctl :=
  bytes ← signal_bytes control_type c;
  '(evs, sent) ← command CtSwitchos bytes ack (switchos_sock c);
  Ok (ct_send sent (set_switchos_sock evs c)).

Definition ask_server (control_type ack serveridx : Z) (c : Ctl) : res Ctl :=
  bytes ← signal_bytes control_type c;
  evs ← arr_get (server_socks c) serveridx;
  '(evs, sent) ← command (CtSnapshotserver serveridx) bytes ack evs;
  Ok (ct_send sent (set_server_socks (<[Z.to_nat serveridx := evs]> (server_socks c)) c)).

Fixpoint each_server (f : Z -> Ctl -> res Ctl) (idxes : list Z) (c : Ctl) : res Ctl :=
  match idxes with
  | [] => Ok c
  | i :: idxes' => c ← f i c; each_server f idxes' c
  end.

(** SNAPSHOT_CLEANUP or SNAPSHOT_START to the switch OS and the servers.  The
    subthreads run concurrently and each has a socket of its own, so the messages
    to each receiver are the same in any interleaving. *)
Definition ask_all (control_type ack : Z) (c : Ctl) : res Ctl :=
  c ← ask_switchos control_type ack c;
  c ← each_server (ask_server control_type ack) valid_idxes c;
  Ok (add_cost ((Z.of_nat (length valid_idxes) + 1) * 2 * 4) c).

Definition clear_databuf (serveridx : Z) (c : Ctl) : res Ctl :=
  d ← arr_get (databuf_list c) serveridx;
  d ← clear d;
  Ok (set_databufs (<[Z.to_nat serveridx := d]> (databuf_list c)) c).

(** The loop of SNAPSHOT_GETDATA: every turn takes an event from the socket. *)
Fixpoint getdata_loop (fuel : nat) (bytes : list Z) (c : Ctl) : res Ctl :=
  match fuel with
  | O => Err OutOfFuel
  | S fuel' =>
      let c := add_cost (2 * 4) (ct_send [(CtSwitchos, bytes)] c) in
      d ← clear (databuf c);
      r ← udprecvlarge_udpfrag CURMETHOD_ID (ct_stale cc) d (switchos_sock c);
      let c := set_switchos_sock (rc_rest r) (set_databuf (rc_buf r) c) in
      if rc_timeout r then getdata_loop fuel' bytes c else Ok c
  end.

(** The counters of the special cases. *)
Fixpoint count_costs (servers : list ServerData) (c : Ctl) : res Ctl :=
  match servers with
  | [] => Ok c
  | s :: servers' =>
      let c := add_cost (sv_bwcost s) c in
      x ← arr_get (perserver_localcp_bandwidthcost c) (sv_serveridx s);
      count_costs servers' (add_localcp (<[Z.to_nat (sv_serveridx s) := u64 (x + sv_bwcost s)]> (perserver_localcp_bandwidthcost c)) c)
  end.

(** The data for every server that takes part. *)
Fixpoint prepare_senddata (servers : list ServerData) (c : Ctl) : res Ctl :=
  match servers with
  | [] => Ok c
  | s :: servers' =>
      if existsb (Z.eqb (sv_serveridx s)) valid_idxes then
        d ← arr_get (databuf_list c) (sv_serveridx s);
        '(_, d) ← dynamic_serialize_snapshot_senddata d (SNAPSHOT_SENDDATA cc) (controller_snapshotid c) (sv_serveridx s)
                    (sv_recordcnt s) (map fst (sv_records s)) (map (fun x => sr_val x.2) (sv_records s))
                    (map (fun x => sr_seq x.2) (sv_records s)) (map (fun x => sr_stat x.2) (sv_records s));
        prepare_senddata servers' (set_databufs (<[Z.to_nat (sv_serveridx s) := d]> (databuf_list c)) c)
      else prepare_senddata servers' c
  end.

(** The notification of the clients. *)
Definition notify_clients (servers : list ServerData) (c : Ctl) : res Ctl :=
  d ← clear (notificationbuf c);
  '(notificationbytes, d) ← dynamic_serialize_upstream_backup_notification d (map sv_records servers);
  frs ← udpsendlarge_udpfrag (da_mem d) notificationbytes;
  Ok (add_cost (notificationbytes * Z.of_nat (client_physical_num cc))
        (ct_send (flat_map (fun i => map (pair (CtBackupreleaser i)) frs) (seq 0 (client_physical_num cc)))
           (set_notificationbuf d c))).

Definition getdata (c : Ctl) : res Ctl :=
  bytes ← signal_bytes (SNAPSHOT_GETDATA sc) c;
  c ← getdata_loop (S (length (switchos_sock c))) bytes c;
  servers ← run_reader (deserialize_snapshot_getdata_ack (SNAPSHOT_GETDATA_ACK sc) (da_size (databuf c))) (contents (databuf c));
  c ← count_costs servers (add_cost (da_size (databuf c)) c);
  c ← prepare_senddata servers c;
  notify_clients servers c.

(** SNAPSHOT_SENDDATA to a server: all fragments, until it acknowledges. *)
Fixpoint senddata_loop (serveridx : Z) (frs : list (list Z)) (evs : list event) : res (list event * list (CtDest * list Z)) :=
  let msgs := map (pair (CtSnapshotdataserver serveridx)) frs in
  match evs with
  | [] => Err Blocked
  | Timeout :: evs' => '(rest, sent) ← senddata_loop serveridx frs evs'; Ok (rest, msgs ++ sent)
  | Dgram bytes _ :: evs' =>
      let recvsize := recv_size (ct_stale cc) bytes in
      answer ← run_reader (SnapshotSignal_deserialize recvsize) (recv_into (ct_stale cc) bytes);
      _ ← INVARIANT (sig_control_type answer =? SNAPSHOT_SENDDATA_ACK cc);
      Ok (evs', msgs)
  end.

Definition senddata (serveridx : Z) (c : Ctl) : res Ctl :=
  d ← arr_get (databuf_list c) serveridx;
  frs ← udpsendlarge_udpfrag (da_mem d) (da_size d);
  evs ← arr_get (server_socks c) serveridx;
  '(evs, sent) ← senddata_loop serveridx frs evs;
  Ok (ct_send sent (set_server_socks (<[Z.to_nat serveridx := evs]> (server_socks c)) c)).

(** [controller_update_snapshotid]. *)
Definition controller_update_snapshotid (buf : list Z) (c : Ctl) : res Ctl :=
  let id := controller_snapshotid c in
  let disk := ct_write ct_snapshotid_path (le_bytes 4 (u32 id)) (ct_write (ct_snapshotdata_path id) buf (ct_disk c)) in
  let old_snapshotid := id - 1 in
  let disk := if 0 <? old_snapshotid then ct_rmfiles (ct_snapshotdata_path old_snapshotid) disk else disk in
  next ← int_ck (id + 1);
  Ok (mkCtl next (bandwidthcost c) (perserver_localcp_bandwidthcost c) (databuf_list c) (databuf c) (notificationbuf c)
        (switchos_sock c) (server_socks c) disk (ct_sent c)).

Definition reset_costs (c : Ctl) : Ctl :=
  mkCtl (controller_snapshotid c) 0 (replicate (Z.to_nat (max_server_total_logical_num cfg)) 0) (databuf_list c) (databuf c)
    (notificationbuf c) (switchos_sock c) (server_socks c) (ct_disk c) (ct_sent c).

(** One turn of the loop of the snapshotclient. *)
Definition snapshot_round (c : Ctl) : res Ctl :=
  c ← ask_all (SNAPSHOT_CLEANUP sc) (SNAPSHOT_CLEANUP_ACK sc) c;
  c ← ask_switchos (SNAPSHOT_PREPARE sc) (SNAPSHOT_PREPARE_ACK sc) c;
  let c := add_cost (2 * 4) c in
  c ← ask_switchos (SNAPSHOT_SETFLAG sc) (SNAPSHOT_SETFLAG_ACK sc) c;
  let c := add_cost (2 * 4) c in
  c ← ask_all (SNAPSHOT_START sc) (SNAPSHOT_START_ACK sc) c;
  c ← each_server clear_databuf valid_idxes c;
  c ← getdata c;
  c ← each_server senddata valid_idxes c;
  let c := add_cost (Z.of_nat (length valid_idxes) * 2 * 4) c in
  controller_update_snapshotid (contents (databuf c)) (reset_costs c).

End Snapshotclient.
