(* ===== verification/ControllerProps.v ===== *)
(** * Correctness of the controller

    A round of the snapshotclient against the answers of the switch OS and of the
    servers: [snapshot_round_completes] says what is sent, to whom and in which
    order, and what is stored. *)

From Stdlib Require Import ZArith Lia List.
From stdpp Require Import base tactics list numbers option.
From S2P Require Import Prelude Cursor DynamicArray StdMap Crc32 Key Val DeletedSet Packet KVStore RocksdbWrapper PacketCodec PacketCache PacketScan Outband PacketServer PacketSwitch Server Fragment Reassembly PktRingBuffer MessageQueue RecvLarge RecvSpec RecvProps RecvClient SwitchOS SwitchMeta SwitchSnapshot SwitchLoad Controller.

Open Scope Z_scope.
Set Default Proof Using "Type".

(** ** Signals *)

Definition signal_wire (control_type snapshotid : Z) : list Z := le_bytes 4 control_type ++ le_bytes 4 snapshotid.

Lemma length_signal_wire t id : length (signal_wire t id) = 8%nat.
Proof. unfold signal_wire. now rewrite length_app, !length_le_bytes. Qed.

Lemma signal_emits t id max : 8 <= max < 2 ^ 64 -> emits (SnapshotSignal_serialize (mkSnapshotSignal t id) max) 0 (signal_wire t id) 8.
Proof.
  intros H. unfold SnapshotSignal_serialize, u64. rewrite Z.mod_small by lia. apply writes_check_bind; [now apply Z.leb_le|].
  unfold signal_wire. eapply emits_bind; [apply emits_u32|]. rewrite <- (app_nil_r (le_bytes 4 id)).
  eapply emits_bind; [apply emits_u32|]. apply writes_ret.
Qed.

Lemma signal_reads t id n : is_s32 t -> is_s32 id -> 8 <= n < 2 ^ 64 ->
  reads (SnapshotSignal_deserialize n) 0 (signal_wire t id) (mkSnapshotSignal t id).
Proof.
  intros Ht Hi Hn. unfold SnapshotSignal_deserialize, u64. rewrite Z.mod_small by lia.
  apply reads_check_bind; [now apply Z.leb_le|]. unfold signal_wire. apply reads_int.
  rewrite <- (app_nil_r (le_bytes 4 id)). apply reads_int. rewrite !s32_u32 by assumption. apply reads_ret.
Qed.

(** ** One socket per server *)

(** [socks] with the sockets of [idxes] replaced by [tail]. *)
Definition after (idxes : list Z) (tail : Z -> list event) (socks : list (list event)) : list (list event) :=
  foldl (fun ss i => <[Z.to_nat i := tail i]> ss) socks idxes.

Lemma after_lookup idxes tail : forall socks i, (forall j, j ∈ idxes -> (Z.to_nat j < length socks)%nat) ->
  Forall (Z.le 0) idxes -> i ∈ idxes -> after idxes tail socks !! Z.to_nat i = Some (tail i).
Proof.
  induction idxes as [|j idxes IH]; intros socks i Hl Hp Hi; [now apply not_elem_of_nil in Hi|].
  apply Forall_cons_iff in Hp as [Hj Hp]. cbn [after foldl].
  assert (Hl' : forall j', j' ∈ idxes -> (Z.to_nat j' < length (<[Z.to_nat j := tail j]> socks))%nat)
    by (intros j' Hj'; rewrite length_insert; apply Hl; now right).
  destruct (decide (i ∈ idxes)) as [Hin|Hout]; [now apply IH|].
  apply elem_of_cons in Hi as [->|Hi]; [|contradiction]. fold (after idxes tail (<[Z.to_nat j := tail j]> socks)).
  assert (G : forall l ss, j ∉ l -> Forall (Z.le 0) l -> after l tail ss !! Z.to_nat j = ss !! Z.to_nat j).
  { induction l as [|x l IHl]; intros ss Hx Hf; [reflexivity|]. apply not_elem_of_cons in Hx as [Hne Hx]. apply Forall_cons_iff in Hf as [Hx0 Hf].
    cbn [after foldl]. fold (after l tail (<[Z.to_nat x := tail x]> ss)). rewrite IHl by assumption. apply list_lookup_insert_ne. lia. }
  rewrite G by assumption. apply list_lookup_insert_eq. apply Hl. now left.
Qed.

Lemma length_after idxes tail : forall socks, length (after idxes tail socks) = length socks.
Proof. induction idxes as [|j idxes IH]; intros socks; [reflexivity|]. cbn [after foldl]. fold (after idxes tail (<[Z.to_nat j := tail j]> socks)). now rewrite IH, length_insert. Qed.

(** An exchange with every server of a list, each on a socket of its own. *)
Lemma each_server_ok (f : Z -> Ctl -> res Ctl) (before tail : Z -> list event) (msgs : Z -> list (CtDest * list Z)) (inv : Ctl -> Prop) idxes :
  (forall i c, i ∈ idxes -> inv c -> server_socks c !! Z.to_nat i = Some (before i) ->
     f i c = Ok (ct_send (msgs i) (set_server_socks (<[Z.to_nat i := tail i]> (server_socks c)) c))) ->
  (forall m ss c, inv c -> inv (ct_send m (set_server_socks ss c))) ->
  forall c, inv c -> NoDup idxes -> Forall (Z.le 0) idxes -> (forall i, i ∈ idxes -> server_socks c !! Z.to_nat i = Some (before i)) ->
  each_server f idxes c = Ok (ct_send (flat_map msgs idxes) (set_server_socks (after idxes tail (server_socks c)) c)).
Proof.
  intros Hf Hi. induction idxes as [|j idxes IH]; intros c Hc Hnd Hp Hs; cbn [each_server flat_map after foldl].
  - destruct c. unfold ct_send, set_server_socks. cbn. now rewrite app_nil_r.
  - inversion_clear Hnd as [|? ? Hj Hnd']. apply Forall_cons_iff in Hp as [Hj0 Hp].
    rewrite (Hf j c) by (auto using list_elem_of_here; apply Hs; now left). cbn [mbind res_bind].
    rewrite IH.
    + unfold ct_send, set_server_socks. cbn. now rewrite <- app_assoc.
    + intros i c' Hin. apply Hf. now right.
    + now apply Hi.
    + exact Hnd'.
    + exact Hp.
    + intros i Hin. cbn. rewrite list_lookup_insert_ne.
      * apply Hs. now right.
      * intros E. assert (j = i) as ->; [|contradiction]. rewrite Forall_forall in Hp. pose proof (Hp i (proj1 (list_elem_of_In _ _) Hin)). lia.
Qed.

(** ** Arrays *)

(** An array of the controller: usable, with the capacity of [init]. *)
Definition array_ok (d : DynamicArray) : Prop := da_wf d /\ _maxcapability d = MAX_LARGE_BUFSIZE.

Lemma array_clear d : array_ok d -> exists d', clear d = Ok d' /\ array_ok d' /\ holds d' MAX_LARGE_BUFSIZE [].
Proof.
  intros [W M]. destruct (plain_clear d W) as (d' & E & P & _). rewrite M in P. pose proof (pl_holds _ _ _ P) as H.
  exists d'. split; [exact E|]. split; [|exact H]. split; [exact (ho_wf _ _ _ H)|exact (ho_max _ _ _ H)].
Qed.

Lemma holds_array d bs : holds d MAX_LARGE_BUFSIZE bs -> array_ok d.
Proof. intros H. split; [exact (ho_wf _ _ _ H)|exact (ho_max _ _ _ H)]. Qed.

(** The arrays of [idxes] hold [f]. *)
Definition arrays_hold (idxes : list Z) (f : Z -> list Z) (ds : list DynamicArray) : Prop :=
  forall i, i ∈ idxes -> exists d, ds !! Z.to_nat i = Some d /\ holds d MAX_LARGE_BUFSIZE (f i).

Definition arrays_ok (idxes : list Z) (ds : list DynamicArray) : Prop :=
  forall i, i ∈ idxes -> exists d, ds !! Z.to_nat i = Some d /\ array_ok d.

Lemma clear_databufs_ok idxes : forall c, Forall (Z.le 0) idxes -> arrays_ok idxes (databuf_list c) ->
  exists ds, each_server clear_databuf idxes c = Ok (set_databufs ds c) /\ arrays_hold idxes (fun _ => []) ds /\
    (forall n, (forall i, i ∈ idxes -> Z.to_nat i <> n) -> ds !! n = databuf_list c !! n).
Proof.
  induction idxes as [|j idxes IH]; intros c Hp Hd; cbn [each_server].
  - exists (databuf_list c). split; [now destruct c|]. split; [intros i Hi; now apply not_elem_of_nil in Hi|auto].
  - apply Forall_cons_iff in Hp as [Hj Hp]. destruct (Hd j ltac:(now left)) as (d & Ed & Hok).
    destruct (array_clear d Hok) as (d' & Ec & Hok' & Hh).
    assert (E1 : clear_databuf j c = Ok (set_databufs (<[Z.to_nat j := d']> (databuf_list c)) c))
      by (unfold clear_databuf; rewrite (proj2 (arr_get_Ok _ _ _) Ed); cbn [mbind res_bind]; now rewrite Ec).
    rewrite E1. cbn [mbind res_bind]. clear E1.
    set (c1 := set_databufs (<[Z.to_nat j := d']> (databuf_list c)) c).
    assert (Hl : (Z.to_nat j < length (databuf_list c))%nat) by eauto using lookup_lt_Some.
    destruct (IH c1 Hp) as (ds & E & Ha & Ho).
    { intros i Hi. cbn. destruct (decide (Z.to_nat j = Z.to_nat i)) as [<-|Hne].
      - exists d'. split; [now apply list_lookup_insert_eq|exact Hok'].
      - rewrite list_lookup_insert_ne by exact Hne. apply Hd. now right. }
    exists ds. split; [exact E|]. split.
    + intros i Hi. destruct (decide (i ∈ idxes)) as [Hin|Hout]; [now apply Ha|].
      apply elem_of_cons in Hi as [->|Hi]; [|contradiction]. exists d'. split; [|exact Hh]. rewrite Ho.
      * cbn. now apply list_lookup_insert_eq.
      * intros i Hi E2. assert (i = j) as ->; [|contradiction]. rewrite Forall_forall in Hp.
        pose proof (Hp i (proj1 (list_elem_of_In _ _) Hi)). lia.
    + intros n Hn. rewrite Ho by (intros i Hi; apply Hn; now right). cbn. apply list_lookup_insert_ne. apply Hn. now left.
Qed.

(** ** The notification of the clients *)

Definition note_wire (x : Key * SnapshotRecord) : list Z := key_wire x.1 ++ be 4 (sr_seq x.2).
Definition notification_wire (rs : list (Key * SnapshotRecord)) : list Z := be 4 (Z.of_nat (length rs)) ++ flat_map note_wire rs.

Lemma length_note_wire x : length (note_wire x) = 20%nat.
Proof. unfold note_wire. now rewrite length_app, length_key_wire, length_be. Qed.

Lemma length_notes rs : length (flat_map note_wire rs) = (20 * length rs)%nat.
Proof. induction rs as [|x rs IH]; [reflexivity|]. cbn [flat_map length]. rewrite length_app, length_note_wire, IH. lia. Qed.

Lemma length_notification rs : length (notification_wire rs) = (4 + 20 * length rs)%nat.
Proof. unfold notification_wire. now rewrite length_app, length_be, length_notes. Qed.

Lemma notify_records_ok rs : forall d max bs off, Forall (fun x => key_wf x.1) rs -> holds d max bs -> off = Z.of_nat (length bs) ->
  off + 20 * Z.of_nat (length rs) <= max ->
  exists d', notify_records rs d off = Ok (off + 20 * Z.of_nat (length rs), d') /\ holds d' max (bs ++ flat_map note_wire rs).
Proof.
  induction rs as [|[k r] rs IH]; intros d max bs off Hf H Ho Hm; cbn [notify_records flat_map length].
  - exists d. rewrite app_nil_r. split; [f_equal; f_equal; lia|exact H].
  - apply Forall_cons_iff in Hf as [Hk Hf]. cbn [fst] in Hk. cbn [length] in Hm.
    ho_field (Key_dynamic_serialize_appends k Hk). ho_memcpy.
    match type of H with holds ?d ?m ?b =>
      match goal with |- context [notify_records _ _ ?o] => destruct (IH d m b o Hf H) as (d' & E & H'); [ho_len; lia..|] end end.
    exists d'. rewrite E. split; [f_equal; f_equal; lia|]. unfold note_wire at 1. cbn [fst snd]. rewrite <- !app_assoc in *. exact H'.
Qed.

(** The first record is written behind the place of the count. *)
Lemma key_gap k d max : key_wf k -> holds d max [] -> 20 <= max ->
  exists d' gap, Key_dynamic_serialize k d 4 = Ok (16, d') /\ length gap = 4%nat /\ holds d' max (gap ++ key_wire k).
Proof.
  intros (H1 & H2 & H3 & H4) H Hm. unfold Key_dynamic_serialize. rewrite INVARIANT_true by reflexivity. cbn [mbind res_bind].
  destruct (hihi_halves (keyhihi k) H4) as (E1 & E2 & _). rewrite E1, E2. rewrite !le_bytes_htonl, !le_bytes_htons.
  fold (be 4 (keylolo k)) (be 4 (keylohi k)) (be 4 (keyhilo k)) (be 2 (keyhihi k mod 65536)) (be 2 (keyhihi k / 65536)).
  destruct (holds_gap _ _ _ 4 (be 4 (keylolo k)) H) as (d1 & gap & E & H5 & Hg); [cbn; lia|ho_len; lia|].
  rewrite E. cbn [mbind res_bind]. clear E H. cbn [length app] in *. rename H5 into H. do 4 ho_memcpy.
  eexists. exists gap. split; [reflexivity|]. split; [lia|]. unfold key_wire. rewrite <- !app_assoc in H. exact H.
Qed.

Lemma notification_ok ls d max : Forall (fun x => key_wf x.1) (concat ls) -> holds d max [] ->
  4 + 20 * Z.of_nat (length (concat ls)) <= max ->
  exists d', dynamic_serialize_upstream_backup_notification d ls = Ok (Z.of_nat (length (notification_wire (concat ls))), d') /\
    holds d' max (notification_wire (concat ls)).
Proof.
  intros Hf H Hm. unfold dynamic_serialize_upstream_backup_notification. rewrite length_notification. unfold notification_wire.
  destruct (concat ls) as [|[k r] rs]; cbn [notify_records length flat_map] in *.
  - cbn [mbind res_bind]. ho_memcpy. eexists. split; [reflexivity|]. rewrite app_nil_r. exact H.
  - apply Forall_cons_iff in Hf as [Hk Hf]. cbn [fst] in Hk.
    destruct (key_gap k d max Hk H) as (d1 & gap & E & Hg & H1); [lia|]. rewrite E. cbn [mbind res_bind]. clear E H. rename H1 into H.
    ho_memcpy.
    match type of H with holds ?d ?m ?b =>
      match goal with |- context [notify_records _ _ ?o] => destruct (notify_records_ok rs d m b o Hf H) as (d' & E & H'); [ho_len; lia..|] end end.
    rewrite E. cbn [mbind res_bind]. clear E. rewrite <- !app_assoc in H'.
    destruct (holds_overwrite _ _ [] gap _ (be 4 (Z.of_nat (S (length rs)))) 0 H') as (d2 & E2 & H2); [reflexivity|now rewrite length_be|].
    rewrite E2. cbn [mbind res_bind app] in *. exists d2. split; [do 2 f_equal; lia|].
    unfold note_wire at 1. cbn [fst snd]. rewrite <- !app_assoc. exact H2.
Qed.

(** ** Answers *)

(** An answer: timeouts, then a signal of some snapshot with bytes after it. *)
Record answer := mkAnswer { an_timeouts : nat; an_id : Z; an_rest : list Z; an_addr : sockaddr_in }.

Definition answer_events (ack : Z) (a : answer) : list event :=
  replicate (an_timeouts a) Timeout ++ [Dgram (signal_wire ack (an_id a) ++ an_rest a) (an_addr a)].

Section Props.
Context (cfg : OsConfig) (sc : SnConfig) (cc : CtConfig).

(** ** The data of the switch *)

Definition with_costs (bw : Z) (l : list Z) (c : Ctl) : Ctl :=
  mkCtl (controller_snapshotid c) bw l (databuf_list c) (databuf c) (notificationbuf c) (switchos_sock c) (server_socks c)
    (ct_disk c) (ct_sent c).

Lemma count_costs_ok f bws : forall k c, (k + length bws <= length (perserver_localcp_bandwidthcost c))%nat ->
  exists bw l, count_costs (servers_data f k bws) c = Ok (with_costs bw l c).
Proof.
  induction bws as [|w bws IH]; intros k c Hl; cbn [servers_data count_costs].
  - exists (bandwidthcost c), (perserver_localcp_bandwidthcost c). now destruct c.
  - cbn [length] in Hl. destruct (lookup_lt_is_Some_2 (perserver_localcp_bandwidthcost c) k) as [x Hx]; [lia|].
    cbn [server_data sv_serveridx sv_bwcost]. cbn [perserver_localcp_bandwidthcost add_cost]. unfold arr_get. rewrite Nat2Z.id, Hx. cbn [mbind res_bind].
    match goal with |- context [count_costs _ ?c'] => destruct (IH (S k) c') as (bw & l & ->) end.
    + cbn. rewrite length_insert. lia.
    + exists bw, l. reflexivity.
Qed.

Section Data.
Context (f : nat -> list (Key * SnapshotRecord)).
Context (Hf : forall i, Forall wire_record_wf (f i)).

Definition server_message (id i : Z) : list Z := senddata_wire (SNAPSHOT_SENDDATA cc) id i (f (Z.to_nat i)).

Lemma server_message_reads id i : is_s32 (SNAPSHOT_SENDDATA cc) -> is_s32 id -> is_u16 i ->
  Z.of_nat (length (server_message id i)) <= MAX_LARGE_BUFSIZE ->
  run_reader (deserialize_snapshot_senddata (SNAPSHOT_SENDDATA cc) (Z.of_nat (length (server_message id i)))) (server_message id i) =
    Ok (mkSenddata id (Z.of_nat (length (server_message id i))) i (Z.of_nat (length (f (Z.to_nat i)))) (map sent_record (f (Z.to_nat i)))).
Proof using Hf.
  intros Hct Hid Hi Hsz. set (size := Z.of_nat (length (server_message id i))).
  pose proof (senddata_reads (SNAPSHOT_SENDDATA cc) id i (f (Z.to_nat i)) size (Hf _) Hct Hid Hi eq_refl) as H.
  rewrite <- (app_nil_r (server_message id i)). apply reads_run. apply H. unfold MAX_LARGE_BUFSIZE, size in *. lia.
Qed.

(** Every server of the list gets its own records. *)
Lemma prepare_senddata_ok bws : forall k c,
  (forall i, (k <= i < k + length bws)%nat -> 18 + Z.of_nat (length (flat_map record_wire (f i))) <= MAX_LARGE_BUFSIZE) ->
  (forall i, i ∈ valid_idxes cfg -> Z.of_nat k <= i -> exists d, databuf_list c !! Z.to_nat i = Some d /\ holds d MAX_LARGE_BUFSIZE []) ->
  exists ds, prepare_senddata cfg cc (servers_data f k bws) c = Ok (set_databufs ds c) /\
    (forall i, i ∈ valid_idxes cfg -> Z.of_nat k <= i < Z.of_nat (k + length bws) ->
       exists d, ds !! Z.to_nat i = Some d /\ holds d MAX_LARGE_BUFSIZE (server_message (controller_snapshotid c) i)) /\
    (forall n, (n < k)%nat -> ds !! n = databuf_list c !! n).
Proof using Hf.
  induction bws as [|w bws IH]; intros k c Hsz Hd; cbn [servers_data prepare_senddata].
  - exists (databuf_list c). split; [now destruct c|]. split; [intros i _ Hi; cbn [length] in Hi; lia|auto].
  - cbn [server_data sv_serveridx sv_recordcnt sv_records length] in *.
    destruct (existsb (Z.eqb (Z.of_nat k)) (valid_idxes cfg)) eqn:Ev.
    + assert (Hv : Z.of_nat k ∈ valid_idxes cfg).
      { apply existsb_exists in Ev as (x & Hx & E%Z.eqb_eq). subst x. now apply list_elem_of_In. }
      destruct (Hd (Z.of_nat k) Hv ltac:(lia)) as (d & Ed & Hh). rewrite Nat2Z.id in Ed.
      unfold arr_get. rewrite Nat2Z.id, Ed. cbn [mbind res_bind].
      destruct (senddata_dynamic d _ (SNAPSHOT_SENDDATA cc) (controller_snapshotid c) (Z.of_nat k) (f k) (map (fun x => sr_stat x.2) (f k)) (Hf k) Hh)
        as (d' & Es & Hh'); [apply Hsz; lia|].
      rewrite Es. cbn [mbind res_bind]. set (c1 := set_databufs _ c).
      destruct (IH (S k) c1) as (ds & E & Ha & Ho).
      * intros i Hi. apply Hsz. lia.
      * intros i Hi Hk. cbn. rewrite list_lookup_insert_ne by lia. apply Hd; [exact Hi|lia].
      * exists ds. split; [exact E|]. split.
        -- intros i Hi Hr. destruct (decide (i = Z.of_nat k)) as [->|Hne]; [|apply Ha; [exact Hi|lia]].
           exists d'. unfold server_message. rewrite Nat2Z.id. split; [|exact Hh']. rewrite Ho by lia. cbn.
           apply list_lookup_insert_eq. eauto using lookup_lt_Some.
        -- intros n Hn. rewrite Ho by lia. cbn. apply list_lookup_insert_ne. lia.
    + destruct (IH (S k) c) as (ds & E & Ha & Ho).
      * intros i Hi. apply Hsz. lia.
      * intros i Hi Hk. apply Hd; [exact Hi|lia].
      * exists ds. split; [exact E|]. split; [|intros n Hn; apply Ho; lia]. intros i Hi Hr. apply Ha; [exact Hi|].
        destruct (decide (i = Z.of_nat k)) as [->|]; [|lia]. exfalso. apply not_true_iff_false in Ev. apply Ev.
        apply existsb_exists. exists (Z.of_nat k). split; [now apply list_elem_of_In|apply Z.eqb_refl].
Qed.

Lemma map_sv_records bws : forall k, map sv_records (servers_data f k bws) = map f (seq k (length bws)).
Proof. induction bws as [|w bws IH]; intros k; cbn; [reflexivity|now rewrite IH]. Qed.

(** Everything the switch held, for the clients. *)
Definition all_records (n : nat) : list (Key * SnapshotRecord) := concat (map f (seq 0 n)).

Lemma notify_clients_ok bws c : array_ok (notificationbuf c) ->
  4 + 20 * Z.of_nat (length (all_records (length bws))) <= MAX_LARGE_BUFSIZE ->
  exists frs tl d bw, udpsendlarge_udpfrag (notification_wire (all_records (length bws)) ++ tl)
      (Z.of_nat (length (notification_wire (all_records (length bws))))) = Ok frs /\
    notify_clients cc (servers_data f 0 bws) c =
      Ok (with_costs bw (perserver_localcp_bandwidthcost c)
            (ct_send (flat_map (fun i => map (pair (CtBackupreleaser i)) frs) (seq 0 (client_physical_num cc))) (set_notificationbuf d c))).
Proof using Hf.
  intros Hn Hsz. unfold notify_clients. rewrite map_sv_records. fold (all_records (length bws)).
  destruct (array_clear _ Hn) as (d0 & Ec & _ & Hh). rewrite Ec. cbn [mbind res_bind].
  destruct (notification_ok (map f (seq 0 (length bws))) d0 MAX_LARGE_BUFSIZE) as (d & En & Hd); [|exact Hh|exact Hsz|].
  { apply List.Forall_forall. intros x (l & (i & <- & _)%in_map_iff & Hx)%in_concat. specialize (Hf i). rewrite List.Forall_forall in Hf. apply (Hf x Hx). }
  fold (all_records (length bws)) in En, Hd. rewrite En. cbn [mbind res_bind].
  assert (Hl : Z.of_nat (length (notification_wire (all_records (length bws)))) <= MAX_LARGE_BUFSIZE)
    by (rewrite length_notification; lia).
  destruct (udp_received (notification_wire (all_records (length bws))) (drop (Z.to_nat (_cursize d)) (da_mem d)) Hl) as (frs & Ef & _).
  do 4 eexists. split; [exact Ef|]. rewrite <- (ho_bytes _ _ _ Hd) in Ef at 1. unfold contents in Ef at 1. rewrite take_drop in Ef.
  rewrite Ef. cbn [mbind res_bind]. reflexivity.
Qed.

End Data.

Definition answer_ok (a : answer) : Prop := is_s32 (an_id a) /\ (8 + length (an_rest a) <= length (ct_stale cc))%nat.

Context (Hstale : length (ct_stale cc) = buf_len).

Lemma signal_answer_read ack a : is_s32 ack -> answer_ok a ->
  run_reader (SnapshotSignal_deserialize (recv_size (ct_stale cc) (signal_wire ack (an_id a) ++ an_rest a)))
    (recv_into (ct_stale cc) (signal_wire ack (an_id a) ++ an_rest a)) = Ok (mkSnapshotSignal ack (an_id a)).
Proof using Hstale.
  intros Ha [Hi Hl]. pose proof buf_len_eq as Hb. unfold MAX_BUFSIZE in Hb.
  assert (Hlen : length (signal_wire ack (an_id a) ++ an_rest a) = (8 + length (an_rest a))%nat)
    by (now rewrite length_app, length_signal_wire).
  apply (received_read SnapshotSignal_deserialize); [lia|]. apply signal_reads; [assumption..|]. lia.
Qed.

Lemma command_ok dst signal ack a tail : is_s32 ack -> answer_ok a ->
  command cc dst signal ack (answer_events ack a ++ tail) = Ok (tail, replicate (S (an_timeouts a)) (dst, signal)).
Proof using Hstale.
  intros Hack Ha. unfold answer_events. rewrite <- app_assoc. cbn [app]. induction (an_timeouts a) as [|n IH]; cbn [replicate app command].
  - rewrite (signal_answer_read ack a Hack Ha). cbn [mbind res_bind sig_control_type]. now rewrite INVARIANT_true by lia.
  - rewrite IH. reflexivity.
Qed.

Lemma signal_bytes_ok t c : signal_bytes cc t c = Ok (signal_wire t (controller_snapshotid c)).
Proof using Hstale.
  pose proof buf_len_eq as Hb. unfold signal_bytes. rewrite (emits_run _ _ _ (ct_stale cc) (signal_emits t _ MAX_BUFSIZE ltac:(unfold MAX_BUFSIZE; lia))).
  - cbn [mbind res_bind]. now rewrite take_written by (now rewrite length_signal_wire).
  - rewrite length_signal_wire, Hstale. unfold MAX_BUFSIZE in Hb. lia.
Qed.

Lemma ask_switchos_ok t ack a tail c : is_s32 ack -> answer_ok a -> switchos_sock c = answer_events ack a ++ tail ->
  ask_switchos cc t ack c = Ok (ct_send (replicate (S (an_timeouts a)) (CtSwitchos, signal_wire t (controller_snapshotid c)))
                                  (set_switchos_sock tail c)).
Proof using Hstale.
  intros Hack Ha Hs. unfold ask_switchos. rewrite signal_bytes_ok. cbn [mbind res_bind]. now rewrite Hs, (command_ok _ _ _ _ _ Hack Ha).
Qed.

Lemma ask_server_ok t ack a tail i c : is_s32 ack -> answer_ok a -> server_socks c !! Z.to_nat i = Some (answer_events ack a ++ tail) ->
  ask_server cc t ack i c = Ok (ct_send (replicate (S (an_timeouts a)) (CtSnapshotserver i, signal_wire t (controller_snapshotid c)))
                                  (set_server_socks (<[Z.to_nat i := tail]> (server_socks c)) c)).
Proof using Hstale.
  intros Hack Ha Hs. unfold ask_server. rewrite signal_bytes_ok. cbn [mbind res_bind].
  rewrite (proj2 (arr_get_Ok _ _ _) Hs). cbn [mbind res_bind]. now rewrite (command_ok _ _ _ _ _ Hack Ha).
Qed.

(** ** The commands of a round *)

(** A turn that ended in a timeout leaves nothing but its message. *)
Lemma turn_fields bw n m1 m2 evs d d' c :
  with_costs bw (perserver_localcp_bandwidthcost (set_switchos_sock evs (set_databuf d (add_cost n (ct_send [m1] c)))))
    (set_switchos_sock [] (set_databuf d' (ct_send m2 (set_switchos_sock evs (set_databuf d (add_cost n (ct_send [m1] c))))))) =
  with_costs bw (perserver_localcp_bandwidthcost c) (set_switchos_sock [] (set_databuf d' (ct_send (m1 :: m2) c))).
Proof. destruct c. unfold with_costs, ct_send. cbn. now rewrite <- app_assoc. Qed.

Lemma getdata_loop_ok bytes frs data src perm t : forall fuel c,
  (forall stale buf, da_wf buf -> _maxcapability buf = MAX_LARGE_BUFSIZE ->
     exists cleared buf', clear buf = Ok cleared /\
       udprecvlarge_udpfrag CURMETHOD_ID stale cleared (map (fun i => Dgram (nth i frs []) src) perm)
         = Ok (mkReceived false buf' (Some src) None []) /\ contents buf' = data /\ da_size buf' = Z.of_nat (length data)) ->
  array_ok (databuf c) -> (t < fuel)%nat ->
  switchos_sock c = replicate t Timeout ++ map (fun i => Dgram (nth i frs []) src) perm ->
  exists d bw, getdata_loop cc fuel bytes c =
      Ok (with_costs bw (perserver_localcp_bandwidthcost c)
            (set_switchos_sock [] (set_databuf d (ct_send (replicate (S t) (CtSwitchos, bytes)) c)))) /\
    contents d = data /\ da_size d = Z.of_nat (length data).
Proof using Hstale.
  induction t as [|t IH]; intros [|fuel] c Hr Hd Hf Hs; try lia; cbn [getdata_loop replicate app] in *.
  - destruct (Hr (ct_stale cc) (databuf c) (proj1 Hd) (proj2 Hd)) as (cl & d & Ec & Eu & E1 & E2).
    cbn [databuf add_cost ct_send]. rewrite Ec. cbn [mbind res_bind switchos_sock add_cost ct_send]. rewrite Hs, Eu. cbn [mbind res_bind].
    do 2 eexists. split; [reflexivity|auto].
  - destruct (array_clear _ Hd) as (cl & Ec & Hok & Hh). cbn [databuf add_cost ct_send]. rewrite Ec.
    cbn [mbind res_bind switchos_sock add_cost ct_send]. rewrite Hs.
    destruct (array_clear _ Hok) as (cl2 & Ec2 & Hok2 & _).
    assert (Eu : forall evs, udprecvlarge_udpfrag CURMETHOD_ID (ct_stale cc) cl (Timeout :: evs) = Ok (mkReceived true cl2 None None evs)).
    { intros evs. unfold udprecvlarge_udpfrag, udprecvlarge. cbn [recv_loop mbind res_bind]. unfold after_loop, recv_start. cbn [rv_ring rv_buf mbind res_bind].
      rewrite Ec2. reflexivity. }
    rewrite Eu. cbn [mbind res_bind rc_timeout rc_rest rc_buf].
    match goal with |- context [getdata_loop _ _ _ ?c'] => destruct (IH fuel c') as (d & bw & E & E1 & E2) end;
      [exact Hr|exact Hok2|lia|reflexivity|].
    exists d, bw. split; [|auto]. etransitivity; [exact E|]. apply f_equal. apply turn_fields.
Qed.

Lemma senddata_ok d data frs tl a tail i c : holds d MAX_LARGE_BUFSIZE data -> Z.of_nat (length data) <= MAX_LARGE_BUFSIZE ->
  udpsendlarge_udpfrag (data ++ tl) (Z.of_nat (length data)) = Ok frs -> tl = drop (Z.to_nat (_cursize d)) (da_mem d) ->
  databuf_list c !! Z.to_nat i = Some d -> is_s32 (SNAPSHOT_SENDDATA_ACK cc) -> answer_ok a ->
  server_socks c !! Z.to_nat i = Some (answer_events (SNAPSHOT_SENDDATA_ACK cc) a ++ tail) ->
  senddata cc i c = Ok (ct_send (concat (replicate (S (an_timeouts a)) (map (pair (CtSnapshotdataserver i)) frs)))
                          (set_server_socks (<[Z.to_nat i := tail]> (server_socks c)) c)).
Proof using Hstale.
  intros Hh Hl Ef -> Ed Hack Ha Hs. unfold senddata. rewrite (proj2 (arr_get_Ok _ _ _) Ed). cbn [mbind res_bind].
  pose proof (holds_size _ _ _ Hh) as Hsz. unfold da_size. rewrite Hsz. rewrite <- (ho_bytes _ _ _ Hh) in Ef at 1.
  unfold contents in Ef at 1. rewrite take_drop in Ef. rewrite Ef. cbn [mbind res_bind].
  rewrite (proj2 (arr_get_Ok _ _ _) Hs). cbn [mbind res_bind].
  assert (E : forall evs, senddata_loop cc i frs (answer_events (SNAPSHOT_SENDDATA_ACK cc) a ++ evs) =
    Ok (evs, concat (replicate (S (an_timeouts a)) (map (pair (CtSnapshotdataserver i)) frs)))).
  { intros evs. unfold answer_events. rewrite <- app_assoc. cbn [app]. induction (an_timeouts a) as [|n IH]; cbn [replicate app senddata_loop].
    - rewrite (signal_answer_read _ a Hack Ha). cbn [mbind res_bind sig_control_type]. rewrite INVARIANT_true by lia.
      cbn [concat]. now rewrite app_nil_r.
    - rewrite IH. reflexivity. }
  now rewrite E.
Qed.

(** ** A whole round *)

(** The answers of the switch OS (the data after [rd_getdata] timeouts) and those
    of every server, and what its socket holds after them. *)
Record Round := mkRound {
  rd_cleanup : answer; rd_prepare : answer; rd_setflag : answer; rd_start : answer; rd_getdata : nat;
  rd_server_cleanup : Z -> answer; rd_server_start : Z -> answer; rd_server_senddata : Z -> answer;
  rd_server_rest : Z -> list event
}.

Record round_ok (r : Round) : Prop := {
  ro_switchos : answer_ok (rd_cleanup r) /\ answer_ok (rd_prepare r) /\ answer_ok (rd_setflag r) /\ answer_ok (rd_start r);
  ro_servers : forall i, i ∈ valid_idxes cfg ->
    answer_ok (rd_server_cleanup r i) /\ answer_ok (rd_server_start r i) /\ answer_ok (rd_server_senddata r i)
}.

Definition from_switchos (r : Round) (data : list event) : list event :=
  answer_events (SNAPSHOT_CLEANUP_ACK sc) (rd_cleanup r) ++ answer_events (SNAPSHOT_PREPARE_ACK sc) (rd_prepare r) ++
  answer_events (SNAPSHOT_SETFLAG_ACK sc) (rd_setflag r) ++ answer_events (SNAPSHOT_START_ACK sc) (rd_start r) ++
  replicate (rd_getdata r) Timeout ++ data.

Definition from_server (r : Round) (i : Z) : list event :=
  answer_events (SNAPSHOT_CLEANUP_ACK sc) (rd_server_cleanup r i) ++ answer_events (SNAPSHOT_START_ACK sc) (rd_server_start r i) ++
  answer_events (SNAPSHOT_SENDDATA_ACK cc) (rd_server_senddata r i) ++ rd_server_rest r i.

(** What is sent: [notes] are the fragments for the clients, [frags] those for a
    server. *)
Definition to_switchos (n : nat) (control_type id : Z) : list (CtDest * list Z) := replicate (S n) (CtSwitchos, signal_wire control_type id).
Definition to_servers (a : Z -> answer) (control_type id : Z) : list (CtDest * list Z) :=
  flat_map (fun i => replicate (S (an_timeouts (a i))) (CtSnapshotserver i, signal_wire control_type id)) (valid_idxes cfg).
Definition to_clients (notes : list (list Z)) : list (CtDest * list Z) :=
  flat_map (fun i => map (pair (CtBackupreleaser i)) notes) (seq 0 (client_physical_num cc)).

Definition round_messages (r : Round) (id : Z) (notes : list (list Z)) (frags : Z -> list (list Z)) : list (CtDest * list Z) :=
  to_switchos (an_timeouts (rd_cleanup r)) (SNAPSHOT_CLEANUP sc) id ++ to_servers (rd_server_cleanup r) (SNAPSHOT_CLEANUP sc) id ++
  to_switchos (an_timeouts (rd_prepare r)) (SNAPSHOT_PREPARE sc) id ++
  to_switchos (an_timeouts (rd_setflag r)) (SNAPSHOT_SETFLAG sc) id ++
  to_switchos (an_timeouts (rd_start r)) (SNAPSHOT_START sc) id ++ to_servers (rd_server_start r) (SNAPSHOT_START sc) id ++
  to_switchos (rd_getdata r) (SNAPSHOT_GETDATA sc) id ++ to_clients notes ++
  flat_map (fun i => concat (replicate (S (an_timeouts (rd_server_senddata r i))) (map (pair (CtSnapshotdataserver i)) (frags i))))
    (valid_idxes cfg).

(** The control types are ints, and every server of the configuration has a socket
    and arrays. *)
Record setup_ok (n : nat) (c : Ctl) : Prop := {
  su_acks : is_s32 (SNAPSHOT_CLEANUP_ACK sc) /\ is_s32 (SNAPSHOT_PREPARE_ACK sc) /\ is_s32 (SNAPSHOT_SETFLAG_ACK sc) /\
    is_s32 (SNAPSHOT_START_ACK sc) /\ is_s32 (SNAPSHOT_SENDDATA_ACK cc) /\ is_s32 (SNAPSHOT_SENDDATA cc);
  su_valid : NoDup (valid_idxes cfg) /\ Forall (fun i => 0 <= i < Z.of_nat n) (valid_idxes cfg);
  su_n : Z.of_nat n < 2 ^ 16;
  su_socks : length (server_socks c) = n;
  su_costs : length (perserver_localcp_bandwidthcost c) = n;
  su_databuf : array_ok (databuf c);
  su_notes : array_ok (notificationbuf c);
  su_databufs : arrays_ok (valid_idxes cfg) (databuf_list c);
  su_id : 0 < controller_snapshotid c < 2 ^ 31 - 1
}.

Lemma ask_all_ok t ack a (b : Z -> answer) tail stail c n :
  is_s32 ack -> answer_ok a -> (forall i, i ∈ valid_idxes cfg -> answer_ok (b i)) -> NoDup (valid_idxes cfg) ->
  Forall (fun i => 0 <= i < Z.of_nat n) (valid_idxes cfg) -> length (server_socks c) = n ->
  switchos_sock c = answer_events ack a ++ tail ->
  (forall i, i ∈ valid_idxes cfg -> server_socks c !! Z.to_nat i = Some (answer_events ack (b i) ++ stail i)) ->
  exists bw, ask_all cfg cc t ack c =
    Ok (with_costs bw (perserver_localcp_bandwidthcost c)
          (ct_send (to_switchos (an_timeouts a) t (controller_snapshotid c) ++ to_servers b t (controller_snapshotid c))
             (set_server_socks (after (valid_idxes cfg) stail (server_socks c)) (set_switchos_sock tail c)))).
Proof using Hstale.
  intros Hack Ha Hb Hnd Hr Hl Hs Hss. unfold ask_all. rewrite (ask_switchos_ok t ack a tail c Hack Ha Hs). cbn [mbind res_bind].
  set (c1 := ct_send _ _).
  rewrite (each_server_ok (ask_server cc t ack) (fun i => answer_events ack (b i) ++ stail i) stail
    (fun i => replicate (S (an_timeouts (b i))) (CtSnapshotserver i, signal_wire t (controller_snapshotid c)))
    (fun c' => controller_snapshotid c' = controller_snapshotid c) (valid_idxes cfg)).
  - cbn [mbind res_bind]. eexists. unfold c1, to_switchos, to_servers, with_costs, ct_send, add_cost, set_server_socks, set_switchos_sock.
    cbn [controller_snapshotid bandwidthcost perserver_localcp_bandwidthcost databuf_list databuf notificationbuf switchos_sock server_socks ct_disk ct_sent].
    rewrite <- app_assoc. reflexivity.
  - intros i c' Hi Hid Hsi. rewrite (ask_server_ok t ack (b i) (stail i) i c' Hack (Hb i Hi) Hsi). now rewrite Hid.
  - intros m ss c' H. exact H.
  - reflexivity.
  - exact Hnd.
  - eapply List.Forall_impl; [|exact Hr]. cbn. intros i Hi. apply Hi.
  - exact Hss.
Qed.

Section Run.
Context (f : nat -> list (Key * SnapshotRecord)) (Hf : forall i, Forall wire_record_wf (f i)).
Context (bws : list Z) (data tl : list Z) (frs : list (list Z)) (src : sockaddr_in) (perm : list nat).

(** The data of the switch: [f] has the records of every server, and the datagrams
    arrive in any order. *)
Record data_ok : Prop := {
  da_reads : run_reader (deserialize_snapshot_getdata_ack (SNAPSHOT_GETDATA_ACK sc) (Z.of_nat (length data))) data = Ok (servers_data f 0 bws);
  da_sent : udpsendlarge_udpfrag (data ++ tl) (Z.of_nat (length data)) = Ok frs;
  da_fits : Z.of_nat (length data) <= MAX_LARGE_BUFSIZE;
  da_perm : perm ≡ₚ seq 0 (length frs);
  da_servers : forall i, (i < length bws)%nat -> 18 + Z.of_nat (length (flat_map record_wire (f i))) <= MAX_LARGE_BUFSIZE;
  da_notes : 4 + 20 * Z.of_nat (length (all_records f (length bws))) <= MAX_LARGE_BUFSIZE
}.
Context (Hdata : data_ok).

Definition data_events : list event := map (fun i => Dgram (nth i frs []) src) perm.

(** The clients are told the keys and sequence numbers of all records. *)
Definition notes_ok (notes : list (list Z)) : Prop :=
  exists tl', udpsendlarge_udpfrag (notification_wire (all_records f (length bws)) ++ tl')
    (Z.of_nat (length (notification_wire (all_records f (length bws))))) = Ok notes.

Lemma getdata_fields bw bw2 bw3 l l0 n m1 m2 d ds nb c :
  with_costs bw3 l (ct_send m2 (set_notificationbuf nb (set_databufs ds (with_costs bw2 l (add_cost n
    (with_costs bw l0 (set_switchos_sock [] (set_databuf d (ct_send m1 c))))))))) =
  with_costs bw3 l (ct_send (m1 ++ m2) (set_notificationbuf nb (set_databufs ds (set_switchos_sock [] (set_databuf d c))))).
Proof. destruct c. unfold with_costs, ct_send. cbn. now rewrite <- app_assoc. Qed.

Lemma getdata_ok t c : array_ok (databuf c) -> array_ok (notificationbuf c) -> length (perserver_localcp_bandwidthcost c) = length bws ->
  arrays_hold (valid_idxes cfg) (fun _ => []) (databuf_list c) -> Forall (fun i => 0 <= i < Z.of_nat (length bws)) (valid_idxes cfg) ->
  switchos_sock c = replicate t Timeout ++ data_events ->
  exists d nb ds bw l notes, notes_ok notes /\ contents d = data /\
    arrays_hold (valid_idxes cfg) (server_message f (controller_snapshotid c)) ds /\
    getdata cfg sc cc c = Ok (with_costs bw l (ct_send (to_switchos t (SNAPSHOT_GETDATA sc) (controller_snapshotid c) ++ to_clients notes)
      (set_notificationbuf nb (set_databufs ds (set_switchos_sock [] (set_databuf d c)))))).
Proof using Hstale Hf Hdata.
  intros Hd Hn Hl Ha Hv Hs. destruct Hdata as [Hr He Hfit Hp Hsv Hno]. unfold getdata. rewrite signal_bytes_ok. cbn [mbind res_bind].
  destruct (udp_received data tl Hfit) as (frs' & E1 & Hrecv). rewrite He in E1. injection E1 as <-.
  destruct (getdata_loop_ok (signal_wire (SNAPSHOT_GETDATA sc) (controller_snapshotid c)) frs data src perm t (S (length (switchos_sock c))) c)
    as (d & bw & E & Ec & Esz); [intros stale buf; apply Hrecv; exact Hp|exact Hd|rewrite Hs, length_app, length_replicate; lia|exact Hs|].
  rewrite E. cbn [mbind res_bind databuf with_costs set_switchos_sock set_databuf]. rewrite Ec, Esz, Hr. cbn [mbind res_bind]. clear E.
  set (c1 := add_cost _ _).
  destruct (count_costs_ok f bws 0 c1) as (bw2 & l & E2); [cbn; lia|]. rewrite E2. cbn [mbind res_bind].
  destruct (prepare_senddata_ok f Hf bws 0 (with_costs bw2 l c1)) as (ds & E3 & Hds & _);
    [intros i Hi; apply Hsv; lia|intros i Hi _; exact (Ha i Hi)|]. rewrite E3. cbn [mbind res_bind].
  destruct (notify_clients_ok f Hf bws (set_databufs ds (with_costs bw2 l c1)) Hn Hno) as (notes & tl' & nb & bw3 & E4 & E5). rewrite E5.
  exists d, nb, ds, bw3, l, notes. split; [now exists tl'|]. split; [exact Ec|]. split.
  - intros i Hi. apply Hds; [exact Hi|]. rewrite List.Forall_forall in Hv. apply Hv. now apply list_elem_of_In.
  - apply f_equal. unfold to_switchos, to_clients. subst c1. apply getdata_fields.
Qed.

(** The fragments of an array. *)
Definition frags_of (ds : list DynamicArray) (i : Z) : list (list Z) :=
  match ds !! Z.to_nat i with
  | Some d => match udpsendlarge_udpfrag (da_mem d) (da_size d) with Ok frs => frs | Err _ => [] end
  | None => []
  end.

(** A server that gets the fragments, in any order, reads its own records. *)
Definition server_reads (id : Z) (i : Z) (frags : list (list Z)) : Prop :=
  forall m src' perm' stale buf, perm' ≡ₚ seq 0 (length frags) -> array_ok buf ->
    exists cleared buf', clear buf = Ok cleared /\
      udprecvlarge_udpfrag m stale cleared (map (fun j => Dgram (nth j frags []) src') perm') = Ok (mkReceived false buf' (Some src') None []) /\
      contents buf' = server_message f id i /\
      run_reader (deserialize_snapshot_senddata (SNAPSHOT_SENDDATA cc) (da_size buf')) (contents buf') =
        Ok (mkSenddata id (da_size buf') i (Z.of_nat (length (f (Z.to_nat i)))) (map sent_record (f (Z.to_nat i)))).

Lemma senddata_each r c ds : is_s32 (SNAPSHOT_SENDDATA_ACK cc) -> is_s32 (SNAPSHOT_SENDDATA cc) -> is_s32 (controller_snapshotid c) ->
  Z.of_nat (length bws) < 2 ^ 16 -> NoDup (valid_idxes cfg) ->
  Forall (fun i => 0 <= i < Z.of_nat (length bws)) (valid_idxes cfg) -> round_ok r -> databuf_list c = ds ->
  arrays_hold (valid_idxes cfg) (server_message f (controller_snapshotid c)) ds ->
  (forall i, i ∈ valid_idxes cfg -> server_socks c !! Z.to_nat i =
     Some (answer_events (SNAPSHOT_SENDDATA_ACK cc) (rd_server_senddata r i) ++ rd_server_rest r i)) ->
  each_server (senddata cc) (valid_idxes cfg) c =
    Ok (ct_send (flat_map (fun i => concat (replicate (S (an_timeouts (rd_server_senddata r i)))
          (map (pair (CtSnapshotdataserver i)) (frags_of ds i)))) (valid_idxes cfg))
       (set_server_socks (after (valid_idxes cfg) (rd_server_rest r) (server_socks c)) c)) /\
  forall i, i ∈ valid_idxes cfg -> server_reads (controller_snapshotid c) i (frags_of ds i).
Proof using Hstale Hdata Hf.
  intros Hack Hct Hid Hn Hnd Hv Hro Hds Ha Hs.
  assert (Hfr : forall i, i ∈ valid_idxes cfg -> exists d tl', ds !! Z.to_nat i = Some d /\
    holds d MAX_LARGE_BUFSIZE (server_message f (controller_snapshotid c) i) /\
    Z.of_nat (length (server_message f (controller_snapshotid c) i)) <= MAX_LARGE_BUFSIZE /\ tl' = drop (Z.to_nat (_cursize d)) (da_mem d) /\
    udpsendlarge_udpfrag (server_message f (controller_snapshotid c) i ++ tl') (Z.of_nat (length (server_message f (controller_snapshotid c) i)))
      = Ok (frags_of ds i) /\ server_reads (controller_snapshotid c) i (frags_of ds i)).
  { intros i Hi. destruct (Ha i Hi) as (d & Ed & Hh). exists d, (drop (Z.to_nat (_cursize d)) (da_mem d)).
    rewrite List.Forall_forall in Hv. pose proof (Hv i (proj1 (list_elem_of_In _ _) Hi)) as Hr.
    assert (Hsz : Z.of_nat (length (server_message f (controller_snapshotid c) i)) <= MAX_LARGE_BUFSIZE).
    { unfold server_message. rewrite length_senddata_wire. pose proof (da_servers Hdata (Z.to_nat i) ltac:(lia)). lia. }
    destruct (udp_received _ (drop (Z.to_nat (_cursize d)) (da_mem d)) Hsz) as (fr & E & Hrecv).
    assert (Efr : frags_of ds i = fr).
    { unfold frags_of. rewrite Ed. unfold da_size. rewrite (holds_size _ _ _ Hh). rewrite <- (ho_bytes _ _ _ Hh) in E at 1.
      unfold contents in E at 1. rewrite take_drop in E. now rewrite E. }
    rewrite Efr. do 4 (split; [assumption || reflexivity|]). split; [exact E|].
    intros m src' perm' stale buf Hp [W M]. destruct (Hrecv m src' perm' stale buf Hp W M) as (cl & buf' & R1 & R2 & R3 & R4).
    exists cl, buf'. split; [exact R1|]. split; [exact R2|]. split; [exact R3|]. rewrite R3, R4.
    apply server_message_reads; [exact Hf|exact Hct|exact Hid|unfold is_u16; lia|exact Hsz]. }
  split; [|intros i Hi; now destruct (Hfr i Hi) as (d & tl' & _ & _ & _ & _ & _ & H)].
  apply (each_server_ok (senddata cc) (fun i => answer_events (SNAPSHOT_SENDDATA_ACK cc) (rd_server_senddata r i) ++ rd_server_rest r i)
    (rd_server_rest r) _ (fun c' => databuf_list c' = ds) (valid_idxes cfg)).
  - intros i c' Hi Hc' Hsi. destruct (Hfr i Hi) as (d & tl' & Ed & Hh & Hsz & Etl & E & _).
    apply (senddata_ok d (server_message f (controller_snapshotid c) i) (frags_of ds i) tl' _ _ i c' Hh Hsz E Etl); [now rewrite Hc'|exact Hack| |exact Hsi].
    apply (ro_servers r Hro i Hi).
  - intros m ss c' H. exact H.
  - exact Hds.
  - exact Hnd.
  - eapply List.Forall_impl; [|exact Hv]. cbn. intros i Hi. apply Hi.
  - exact Hs.
Qed.

End Run.

End Props.

Lemma update_snapshotid_ok buf c : let id := controller_snapshotid c in 0 < id < 2 ^ 31 - 1 ->
  exists disk, controller_update_snapshotid buf c =
      Ok (mkCtl (id + 1) (bandwidthcost c) (perserver_localcp_bandwidthcost c) (databuf_list c) (databuf c) (notificationbuf c)
            (switchos_sock c) (server_socks c) disk (ct_sent c)) /\
    disk ct_snapshotid_path = Some (le_bytes 4 (u32 id)) /\ disk (ct_snapshotdata_path id) = Some buf.
Proof.
  intros id Hid. unfold controller_update_snapshotid. fold id. rewrite int_ck_Ok by (unfold is_s32; lia). eexists. split; [reflexivity|].
  assert (Hne : ct_snapshotdata_path id <> ct_snapshotdata_path (id - 1)) by (intros [=]; lia).
  unfold ct_rmfiles, ct_write. destruct (0 <? id - 1); split;
    rewrite ?(decide_False (P := ct_snapshotid_path = ct_snapshotdata_path (id - 1))) by discriminate;
    rewrite ?(decide_False (P := ct_snapshotdata_path id = ct_snapshotid_path)) by discriminate;
    rewrite ?(decide_False (P := ct_snapshotdata_path id = ct_snapshotdata_path (id - 1))) by exact Hne; now rewrite decide_True by reflexivity.
Qed.

(** The indexes of the servers address their sockets. *)
Lemma valid_idx_pos (cfg : OsConfig) n : Forall (fun i => 0 <= i < Z.of_nat n) (valid_idxes cfg) -> Forall (Z.le 0) (valid_idxes cfg).
Proof. apply List.Forall_impl. intros. lia. Qed.

Lemma valid_idx_lt (cfg : OsConfig) n (ss : list (list event)) i : Forall (fun i => 0 <= i < Z.of_nat n) (valid_idxes cfg) ->
  length ss = n -> i ∈ valid_idxes cfg -> (Z.to_nat i < length ss)%nat.
Proof. intros Hv -> Hi. rewrite List.Forall_forall in Hv. pose proof (Hv i (proj1 (list_elem_of_In _ _) Hi)). lia. Qed.

(** A round of the snapshotclient takes the switch OS through CLEANUP, PREPARE,
    SETFLAG, START and GETDATA and every server through CLEANUP, START and
    SENDDATA, in this order, each repeated until it is answered.  Every server that
    takes part gets exactly its own records of the data of the switch, which it
    can read whatever the order of the datagrams; the clients are told keys and
    sequence numbers; the data and the id of the snapshot are stored, and the next
    round has the next id. *)
Lemma snapshot_round_completes (cfg : OsConfig) (sc : SnConfig) (cc : CtConfig) (r : Round) (c : Ctl)
    (f : nat -> list (Key * SnapshotRecord)) (bws data tl : list Z) (frs : list (list Z)) (src : sockaddr_in) (perm : list nat) :
  let id := controller_snapshotid c in
  length (ct_stale cc) = buf_len -> setup_ok cfg sc cc (length bws) c -> round_ok cfg cc r ->
  (forall i, Forall wire_record_wf (f i)) -> data_ok sc f bws data tl frs perm ->
  switchos_sock c = from_switchos sc r (data_events frs src perm) ->
  (forall i, i ∈ valid_idxes cfg -> server_socks c !! Z.to_nat i = Some (from_server sc cc r i)) ->
  exists c' notes frags,
    snapshot_round cfg sc cc c = Ok c' /\
    ct_sent c' = ct_sent c ++ round_messages cfg sc cc r id notes frags /\
    notes_ok f bws notes /\ (forall i, i ∈ valid_idxes cfg -> server_reads cc f id i (frags i)) /\
    controller_snapshotid c' = id + 1 /\ switchos_sock c' = [] /\
    ct_disk c' ct_snapshotid_path = Some (le_bytes 4 (u32 id)) /\ ct_disk c' (ct_snapshotdata_path id) = Some data.
Proof.
  intros id Hstale Hsu Hro Hf Hdata Hsw Hsv. pose proof Hsu as [(K1 & K2 & K3 & K4 & K5 & K6) [Hnd Hv] Hn Hl Hlc Hdb Hnb Hdbs Hid].
  pose proof Hro as [(A1 & A2 & A3 & A4) As].
  set (t4 := replicate (rd_getdata r) Timeout ++ data_events frs src perm).
  set (t3 := answer_events (SNAPSHOT_START_ACK sc) (rd_start r) ++ t4).
  set (t2 := answer_events (SNAPSHOT_SETFLAG_ACK sc) (rd_setflag r) ++ t3).
  set (t1 := answer_events (SNAPSHOT_PREPARE_ACK sc) (rd_prepare r) ++ t2).
  set (s2 := fun i => answer_events (SNAPSHOT_SENDDATA_ACK cc) (rd_server_senddata r i) ++ rd_server_rest r i).
  set (s1 := fun i => answer_events (SNAPSHOT_START_ACK sc) (rd_server_start r i) ++ s2 i).
  pose proof (valid_idx_pos cfg _ Hv) as Hpos.
  destruct (ask_all_ok cfg cc Hstale (SNAPSHOT_CLEANUP sc) _ (rd_cleanup r) (rd_server_cleanup r) t1 s1 c (length bws) K1 A1
    (fun i Hi => proj1 (As i Hi)) Hnd Hv Hl Hsw Hsv) as (bw1 & E1). set (c1 := with_costs bw1 _ _) in E1.
  pose proof (ask_switchos_ok cc Hstale (SNAPSHOT_PREPARE sc) _ (rd_prepare r) t2 c1 K2 A2 eq_refl) as E2. set (c2 := ct_send _ _) in E2.
  pose proof (ask_switchos_ok cc Hstale (SNAPSHOT_SETFLAG sc) _ (rd_setflag r) t3 (add_cost (2 * 4) c2) K3 A3 eq_refl) as E3. set (c3 := ct_send _ _) in E3.
  destruct (ask_all_ok cfg cc Hstale (SNAPSHOT_START sc) _ (rd_start r) (rd_server_start r) t4 s2 (add_cost (2 * 4) c3) (length bws) K4 A4
    (fun i Hi => proj1 (proj2 (As i Hi))) Hnd Hv) as (bw4 & E4).
  { exact (eq_trans (length_after _ _ _) Hl). } { reflexivity. }
  { intros i Hi. exact (after_lookup (valid_idxes cfg) s1 (server_socks c) i (fun j Hj => valid_idx_lt cfg _ _ j Hv Hl Hj) Hpos Hi). }
  set (c4 := with_costs bw4 _ _) in E4.
  destruct (clear_databufs_ok (valid_idxes cfg) c4 Hpos Hdbs) as (ds5 & E5 & Hds5 & _). set (c5 := set_databufs ds5 c4) in E5.
  destruct (getdata_ok cfg sc cc Hstale f Hf bws data tl frs src perm Hdata (rd_getdata r) c5 Hdb Hnb Hlc Hds5 Hv eq_refl)
    as (d & nb & ds & bw6 & l6 & notes & Hnotes & Hcont & Hds & E6). set (c6 := with_costs bw6 l6 _) in E6.
  destruct (senddata_each cfg sc cc Hstale f Hf bws data tl frs perm Hdata r c6 ds K5 K6
    ltac:(change (is_s32 id); unfold is_s32; subst id; lia) Hn Hnd Hv Hro eq_refl Hds) as [E7 Hreads].
  { intros i Hi. refine (after_lookup (valid_idxes cfg) s2 _ i _ Hpos Hi). intros j Hj. exact (valid_idx_lt cfg _ _ j Hv (eq_trans (length_after _ _ _) Hl) Hj). }
  set (c7 := ct_send _ _) in E7.
  destruct (update_snapshotid_ok (contents d) (reset_costs cfg (add_cost (Z.of_nat (length (valid_idxes cfg)) * 2 * 4) c7)) Hid)
    as (disk & E8 & D1 & D2). do 3 eexists. split; [|split; [|split; [exact Hnotes|split; [exact Hreads|]]]].
  - unfold snapshot_round. rewrite E1. cbn [mbind res_bind]. rewrite E2. cbn [mbind res_bind]. rewrite E3. cbn [mbind res_bind].
    rewrite E4. cbn [mbind res_bind]. rewrite E5. cbn [mbind res_bind]. rewrite E6. cbn [mbind res_bind]. rewrite E7. exact E8.
  - change (((((((ct_sent c ++ (to_switchos (an_timeouts (rd_cleanup r)) (SNAPSHOT_CLEANUP sc) id ++
      to_servers cfg (rd_server_cleanup r) (SNAPSHOT_CLEANUP sc) id)) ++
      to_switchos (an_timeouts (rd_prepare r)) (SNAPSHOT_PREPARE sc) id) ++ to_switchos (an_timeouts (rd_setflag r)) (SNAPSHOT_SETFLAG sc) id) ++
      (to_switchos (an_timeouts (rd_start r)) (SNAPSHOT_START sc) id ++ to_servers cfg (rd_server_start r) (SNAPSHOT_START sc) id)) ++
      (to_switchos (rd_getdata r) (SNAPSHOT_GETDATA sc) id ++ to_clients cc notes)) ++
      flat_map (fun i => concat (replicate (S (an_timeouts (rd_server_senddata r i))) (map (pair (CtSnapshotdataserver i)) (frags_of ds i))))
        (valid_idxes cfg)) = ct_sent c ++ round_messages cfg sc cc r id notes (frags_of ds)).
    unfold round_messages. now rewrite <- !app_assoc.
  - do 2 (split; [reflexivity|]). split; [exact D1|]. rewrite <- Hcont. exact D2.
Qed.

(** ** A concrete round

    Two servers; the switch holds a record of the first one.  Every exchange has a
    timeout. *)

Definition demo_ct_config : CtConfig := mkCtConfig 11 12 1 (replicate buf_len 0).
Definition demo_of (i : nat) : list (Key * SnapshotRecord) := match i with O => [(key_of 1, demo_record 7 true)] | _ => [] end.
Definition demo_bws : list Z := [100; 200].
Definition demo_data : list Z :=
  le_bytes 4 10 ++ le_bytes 4 (8 + Z.of_nat (length (servers_wire demo_of 0 demo_bws))) ++ servers_wire demo_of 0 demo_bws.
Definition demo_frs : list (list Z) :=
  match udpsendlarge_udpfrag (demo_data ++ []) (Z.of_nat (length demo_data)) with Ok frs => frs | Err _ => [] end.

Definition demo_answer : answer := mkAnswer 1 5 [] sockaddr_zero.
Definition demo_round : Round :=
  mkRound demo_answer demo_answer demo_answer demo_answer 1 (fun _ => demo_answer) (fun _ => demo_answer) (fun _ => demo_answer) (fun _ => []).

Definition demo_ctl : Ctl :=
  mkCtl 5 0 [0; 0] [demo_large_array; demo_large_array] demo_large_array demo_large_array
    (from_switchos demo_sn_config demo_round (data_events demo_frs sockaddr_zero [0%nat]))
    [from_server demo_sn_config demo_ct_config demo_round 0; from_server demo_sn_config demo_ct_config demo_round 1] (fun _ => None) [].

Lemma demo_of_wf i : Forall wire_record_wf (demo_of i).
Proof. destruct i as [|i]; [|constructor]. constructor; [|constructor]. apply demo_record_wf; unfold is_u32; lia. Qed.

Lemma demo_setup : setup_ok demo_os_config demo_sn_config demo_ct_config (length demo_bws) demo_ctl.
Proof.
  assert (Ha : array_ok demo_large_array) by (split; [exact demo_large_array_wf|reflexivity]).
  assert (Hs : forall x, x = 2 \/ x = 4 \/ x = 6 \/ x = 8 \/ x = 11 \/ x = 12 -> is_s32 x) by (unfold is_s32; lia).
  split; try reflexivity; try exact Ha.
  - repeat split; apply Hs; auto 10.
  - split; [|constructor; [cbn; lia|constructor; [cbn; lia|constructor] ] ].
    constructor; [intros [E|[]%not_elem_of_nil]%elem_of_cons; discriminate E|]. constructor; [apply not_elem_of_nil|constructor].
  - intros i [->|[->|[]%not_elem_of_nil]%elem_of_cons]%elem_of_cons; exists demo_large_array; (split; [reflexivity|exact Ha]).
  - cbn. lia.
Qed.

Lemma demo_data_ok : data_ok demo_sn_config demo_of demo_bws demo_data [] demo_frs [0%nat].
Proof.
  split.
  - vm_compute. reflexivity.
  - vm_compute. reflexivity.
  - vm_compute. discriminate.
  - vm_compute. constructor. constructor.
  - intros [|[|i]] Hi; [vm_compute; discriminate..|]. cbn [length demo_bws] in Hi. lia.
  - vm_compute. discriminate.
Qed.

Lemma demo_round_ok : round_ok demo_os_config demo_ct_config demo_round.
Proof.
  assert (Ha : answer_ok demo_ct_config demo_answer).
  { split; [unfold is_s32; cbn; lia|]. cbn [an_rest demo_answer ct_stale demo_ct_config length]. rewrite length_replicate.
    pose proof buf_len_eq as Hb. unfold MAX_BUFSIZE in Hb. lia. }
  split; [repeat split; apply Ha|]. intros i _. repeat split; apply Ha.
Qed.
