(* ===== verification/SwitchRecover.v ===== *)
(** * The switch OS: recovery

    [recover] of farreach/switchos.c fills the switch again from the last snapshot
    the controller has stored.  [recover_restores_cache] says that every record of
    the snapshot gets an entry of the pipeline of its server, that the metadata is
    consistent, and which sequence number the switch continues from. *)

From Stdlib Require Import ZArith Lia List.
From stdpp Require Import base tactics list numbers option.
From S2P Require Import Prelude Cursor DynamicArray StdMap Crc32 Key Val DeletedSet Packet PacketCodec PacketCache PacketScan Outband PacketServer PacketSwitch Server Fragment PktRingBuffer MessageQueue RecvLarge RecvProps SwitchOS SwitchMeta SwitchSnapshot SwitchLoad SwitchRollback SwitchPop SwitchSystem Controller.

Open Scope Z_scope.
Set Default Proof Using "Type".

(** ** The code *)

Section Recover.
Context {M : Type} `{Hsm : SpecialMap M}.
Context (cfg : OsConfig) (sc : SnConfig) (SWITCHOS_WRITEALLSEQ : Z).

Definition serialize_writeallseq (maxseq : Z) : writer Z :=
  _ ← w_u32 (u32 SWITCHOS_WRITEALLSEQ);
  _ ← w_u32 maxseq;
  w_off.

(** A command to ptf, without waiting for the answer. *)
Definition tell_ptf (serialize : writer Z) : os (M := M) unit := fun s =>
  let io := os_io s in
  '(n, buf) ← run_writer serialize (ptfbuf io);
  Ok (tt, set_io (mkIo (pktbuf io) (ackbuf io) buf (reflector_sock io) (controller_sock io) (ptf_sock io)
                    (io_sent io ++ [(ToPtf, take (Z.to_nat n) buf)]) (rand_calls io)) s).

(** CACHE_POP_INSWITCH, without waiting for the answer. *)
Definition send_pop (key : Key) (r : SnapshotRecord) (freeidx : Z) : os (M := M) unit :=
  req ← os_lift (CachePopInswitch_new (os_uninit cfg) CURMETHOD_ID key (sr_val r) (sr_seq r) freeidx (sr_stat r));
  send_pkt ToReflector (CachePopInswitch_serialize req).

(** One turn of the inner loop: [maxseq], and whether the loop goes on. *)
Definition restore_record (tmp_pipeidx tmp_serveridx : Z) (tmp_key : Key) (r : SnapshotRecord) (maxseq : Z) : os (M := M) (Z * bool) :=
  p ← get_pipe tmp_pipeidx;
  let tmp_freeidx := u16 (cached_empty_index p) in
  let maxseq := if maxseq <? sr_seq r then sr_seq r else maxseq in
  if switch_kv_bucket_num cfg <=? tmp_freeidx then mret (maxseq, false)
  else
    _ ← send_pop tmp_key r tmp_freeidx;
    _ ← tell_ptf (serialize_add_cache_lookup cfg tmp_key tmp_freeidx);
    _ ← (req ← os_lift (SetvalidInswitch_new CURMETHOD_ID tmp_key tmp_freeidx 1);
         send_pkt ToReflector (SetvalidInswitch_serialize req));
    _ ← record_entry tmp_pipeidx tmp_key tmp_freeidx tmp_serveridx;
    p ← get_pipe tmp_pipeidx;
    _ ← put_pipe tmp_pipeidx (mkPipe (cached_keyarray p) (cached_serveridxarray p) (u32 (cached_empty_index p + 1)));
    mret (maxseq, true).

Fixpoint restore_records (tmp_pipeidx tmp_serveridx : Z) (rs : list (Key * SnapshotRecord)) (maxseq : Z) : os (M := M) Z :=
  match rs with
  | [] => mret maxseq
  | (key, r) :: rs' =>
      '(maxseq, more) ← restore_record tmp_pipeidx tmp_serveridx key r maxseq;
      if (more : bool) then restore_records tmp_pipeidx tmp_serveridx rs' maxseq else mret maxseq
  end.

Fixpoint restore_servers (servers : list ServerData) (maxseq : Z) : os (M := M) Z :=
  match servers with
  | [] => mret maxseq
  | s :: servers' =>
      tmp_pipeidx ← os_lift (find_pipe cfg (sv_serveridx s));
      maxseq ← restore_records tmp_pipeidx (sv_serveridx s) (sv_records s) maxseq;
      restore_servers servers' maxseq
  end.

(** [deserialize_perserver_maxseq_files]: [dir] has the numbers in the maxseq files,
    or is not there.  The vector is a copy, which ends with the call. *)
Definition deserialize_perserver_maxseq_files (dir : option (list Z)) (maxseqarray : list Z) : res unit :=
  match dir with
  | None => Err ExitCalled
  | Some seqs => let maxseqarray := maxseqarray ++ seqs in Ok tt
  end.

(** [recover]; [disk] has the files copied from the controller. *)
Definition recover (disk : CtDisk) (dir : option (list Z)) : os (M := M) unit :=
  match disk ct_snapshotid_path with
  | None => os_lift (Err ExitCalled)
  | Some c =>
      controller_snapshotid ← os_lift (if (length c <? 4)%nat then Err OutOfBounds else Ok (s32 (le_val (take 4 c))));
      match disk (ct_snapshotdata_path controller_snapshotid) with
      | None => os_lift (Err ExitCalled)
      | Some content =>
          let filesize := u32 (Z.of_nat (length content)) in
          _ ← os_check (0 <? filesize);
          servers ← os_lift (run_reader (deserialize_snapshot_getdata_ack (SNAPSHOT_GETDATA_ACK sc) (s32 filesize)) content);
          maxseq ← restore_servers servers 0;
          let perserver_maxseq := [] in
          _ ← os_lift (deserialize_perserver_maxseq_files dir perserver_maxseq);
          let maxseq := fold_left (fun m x => if m <? x then x else m) perserver_maxseq maxseq in
          tell_ptf (serialize_writeallseq maxseq)
      end
  end.

End Recover.

(** ** Messages *)

Section Messages.
Context {M : Type} `{Hsm : SpecialMap M}.
Context (cfg : OsConfig) (SWITCHOS_WRITEALLSEQ : Z).
Implicit Types s : Os M.

Lemma tell_ptf_does serialize bs v : emits serialize 0 bs (Z.of_nat (length bs)) -> (length bs <= buf_len)%nat ->
  does (M := M) any (tell_ptf serialize) v tt (sends v [(ToPtf, bs)]) any.
Proof.
  intros He Hl s (B1 & B2 & B3) _ <-. unfold tell_ptf. rewrite (emits_run _ _ _ _ He) by (rewrite B3; exact Hl).
  cbn [mbind res_bind]. eexists. split; [reflexivity|]. split; [|split; [exact I|]].
  - unfold bufs_ok. cbn [pktbuf ackbuf ptfbuf]. rewrite length_written; [auto|rewrite B3; exact Hl].
  - unfold io_view, sends. cbn. now rewrite Nat2Z.id, take_app_length.
Qed.

Lemma send_pop_runs key r idx s : is_u16 (os_uninit cfg) -> wire_record_wf (key, r) -> is_u16 idx -> bufs_ok (os_io s) ->
  exists b io, send_pop cfg key r idx s = Ok (tt, set_io io s) /\ bufs_ok io /\
    io_view io = sends (io_view (os_io s)) [(ToReflector, pop_wire key r idx ++ [b])].
Proof.
  intros Hu Hr Hi (B1 & B2 & B3). pose proof (length_pop_wire key r idx) as Hlen.
  pose proof (wire_record_small _ _ Hr) as Hsm'. pose proof buf_len_eq as Hm. unfold MAX_BUFSIZE in Hm.
  pose proof Hr as (Hk & [Hvw Hvl] & Hs). cbn [fst snd] in *.
  destruct (pads_run _ _ _ (pktbuf (os_io s)) (pop_pads (os_uninit cfg) key r idx MAX_BUFSIZE Hu Hr
    ltac:(unfold MAX_BUFSIZE; lia))) as [b Eb]; [rewrite Hlen, B1; lia|].
  set (wire := pop_wire key r idx ++ [b]) in *. exists b.
  assert (Hwl : length wire = S (length (pop_wire key r idx))) by (unfold wire; rewrite length_app; cbn; lia).
  eexists. split; [|split].
  - unfold send_pop, mbind at 1, os_bind at 1, os_lift, CachePopInswitch_new, PutRequestSeq_new.
    rewrite (Val_copy_wf _ Hvw). cbn [qs_val set_qs_type].
    rewrite (INVARIANT_true (val_length (sr_val r) <=? SWITCH_MAX_VALLEN)) by (apply Z.leb_le; exact Hvl).
    rewrite (INVARIANT_true (0 <=? sr_seq r)) by (unfold is_u32 in Hs; lia).
    rewrite (INVARIANT_true (0 <=? idx)) by (unfold is_u16 in Hi; lia). cbn [mbind res_bind].
    unfold send_pkt, fill_pktbuf, send_pktbuf, mbind, os_bind.
    change (set_qs_type _ _) with (mkPutRequestSeq (fr_base (os_uninit cfg) CACHE_POP_INSWITCH key) (sr_val r) (sr_seq r) 0).
    cbv zeta. rewrite Eb. cbn [res_bind os_io set_io]. replace (Z.of_nat (length (pop_wire key r idx)) + 1) with (Z.of_nat (length wire)) by lia.
    reflexivity.
  - unfold bufs_ok. cbn [pktbuf ackbuf ptfbuf]. rewrite length_app, length_drop, Hwl. lia.
  - unfold io_view, sends. cbn [pktbuf reflector_sock controller_sock ptf_sock io_sent rand_calls v_reflector v_controller v_ptf v_sent v_rand].
    now rewrite Nat2Z.id, take_app_length.
Qed.

Definition writeallseq_wire (maxseq : Z) : list Z := le_bytes 4 (u32 SWITCHOS_WRITEALLSEQ) ++ le_bytes 4 maxseq.

Lemma writeallseq_does maxseq v :
  does (M := M) any (tell_ptf (serialize_writeallseq SWITCHOS_WRITEALLSEQ maxseq)) v tt (sends v [(ToPtf, writeallseq_wire maxseq)]) any.
Proof.
  apply tell_ptf_does.
  - unfold serialize_writeallseq, writeallseq_wire. eapply emits_bind; [apply emits_u32|]. rd_len.
    rewrite <- (app_nil_r (le_bytes 4 maxseq)). eapply emits_bind; [apply emits_u32|]. rd_len.
    rewrite !length_app, !length_le_bytes. cbn [length]. match goal with |- emits _ ?p _ ?q => replace q with p by lia end. em.
  - unfold writeallseq_wire. rewrite length_app, !length_le_bytes. pose proof buf_len_eq as Hm. unfold MAX_BUFSIZE in Hm. lia.
Qed.

(** The messages that install a record in entry [idx]. *)
Definition install_msgs (key : Key) (r : SnapshotRecord) (idx b : Z) : list (OsDest * list Z) :=
  [(ToReflector, pop_wire key r idx ++ [b]); (ToPtf, add_wire cfg key idx); (ToReflector, setvalid_wire key idx 1)].

End Messages.

(** ** Restored entries *)

Section Restored.
Context {M : Type} `{Hsm : SpecialMap M}.
Context (cfg : OsConfig).
Context (Hu : is_u16 (os_uninit cfg)) (Hbk : bucket_num cfg < 2 ^ 16).
Implicit Types s : Os M.

(** A record of a server, and the pipeline it belongs to. *)
Record item := mkItem { it_pipe : nat; it_server : Z; it_key : Key; it_record : SnapshotRecord }.
Implicit Types (x : item) (l : list item).

Definition count (n : nat) (l : list item) : nat := length (List.filter (fun x => Nat.eqb (it_pipe x) n) l).

Lemma count_app n l1 l2 : count n (l1 ++ l2) = (count n l1 + count n l2)%nat.
Proof. unfold count. now rewrite List.filter_app, length_app. Qed.

(** Entry [i] of pipeline [n] holds [k] of server [sv]. *)
Definition placed_at (ps : list Pipe) (n : nat) (i : Z) (k : Key) (sv : Z) : Prop :=
  exists p, ps !! n = Some p /\ entry p i k /\ cached_serveridxarray p !! Z.to_nat i = Some sv.

Definition installs (ps : list Pipe) (x : item) (ms : list (OsDest * list Z)) : Prop :=
  exists i b, placed_at ps (it_pipe x) i (it_key x) (it_server x) /\ ms = install_msgs cfg (it_key x) (it_record x) i b.

(** There is room for the records of [l], and their keys are new. *)
Record ready (l : list item) (s : Os M) : Prop := {
  rd_meta : meta_ok cfg (cached_keyidx_map s) (pipes s);
  rd_bufs : bufs_ok (os_io s);
  rd_wf : Forall (fun x => wire_record_wf (it_key x, it_record x)) l;
  rd_new : forall x, x ∈ l -> m_find (it_key x) (cached_keyidx_map s) = None;
  rd_nodup : NoDup (map it_key l);
  rd_pipe : forall x, x ∈ l -> (it_pipe x < length (pipes s))%nat;
  rd_room : forall n p, pipes s !! n = Some p -> cached_empty_index p + Z.of_nat (count n l) <= bucket_num cfg
}.

(** The state after the records of [l]. *)
Record restored (l : list item) (s s' : Os M) : Prop := {
  rs_meta : meta_ok cfg (cached_keyidx_map s') (pipes s');
  rs_bufs : bufs_ok (os_io s');
  rs_length : length (pipes s') = length (pipes s);
  rs_keep : forall n i k sv, placed_at (pipes s) n i k sv -> placed_at (pipes s') n i k sv;
  rs_used : forall n p', pipes s' !! n = Some p' -> exists p, pipes s !! n = Some p /\
    cached_empty_index p' = cached_empty_index p + Z.of_nat (count n l);
  rs_keys : forall k, is_Some (m_find k (cached_keyidx_map s')) <-> is_Some (m_find k (cached_keyidx_map s)) \/ k ∈ map it_key l;
  rs_sent : exists msgs, io_sent (os_io s') = io_sent (os_io s) ++ concat msgs /\ Forall2 (installs (pipes s')) l msgs
}.

Lemma restored_nil s : meta_ok cfg (cached_keyidx_map s) (pipes s) -> bufs_ok (os_io s) -> restored [] s s.
Proof.
  intros Hm Hb. split; auto.
  - intros n p Hp. exists p. split; [exact Hp|]. cbn. lia.
  - intros k. split; [auto|]. intros [H|H]; [exact H|]. now apply not_elem_of_nil in H.
  - exists []. cbn. rewrite app_nil_r. auto.
Qed.

Lemma restored_app l1 l2 s s1 s2 : restored l1 s s1 -> restored l2 s1 s2 -> restored (l1 ++ l2) s s2.
Proof.
  intros [M1 B1 L1 K1 U1 Y1 (m1 & S1 & F1)] [M2 B2 L2 K2 U2 Y2 (m2 & S2 & F2)]. split; auto; try congruence.
  - intros n p' (p1 & Hp1 & E1)%U2. destruct (U1 _ _ Hp1) as (p & Hp & E). exists p. split; [exact Hp|]. rewrite count_app. lia.
  - intros k. rewrite Y2, Y1, map_app, elem_of_app. tauto.
  - exists (m1 ++ m2). split; [now rewrite S2, S1, concat_app, app_assoc|]. apply Forall2_app; [|exact F2].
    eapply Forall2_impl; [|exact F1]. intros x ms (i & b & Hp & ->). exists i, b. auto.
Qed.

Lemma ready_step x l s s1 : ready (x :: l) s -> restored [x] s s1 -> ready l s1.
Proof.
  intros [R1 R2 R3 R4 R5 R6 R7] [M1 B1 L1 K1 U1 Y1 _]. cbn [map] in R5. inversion_clear R5 as [|? ? Hx Hn].
  apply List.Forall_cons_iff in R3 as [_ R3]. split; auto.
  - intros y Hy. destruct (m_find (it_key y) (cached_keyidx_map s1)) eqn:E; [|reflexivity].
    assert (H : is_Some (m_find (it_key y) (cached_keyidx_map s1))) by eauto. apply Y1 in H as [[z' Hz]|H].
    + rewrite R4 in Hz by (now right). discriminate.
    + cbn in H. apply list_elem_of_singleton in H. destruct Hx. rewrite <- H. apply list_elem_of_In, in_map. now apply list_elem_of_In.
  - intros y Hy. rewrite L1. apply R6. now right.
  - intros n p' (p & Hp & E)%U1. specialize (R7 n p Hp). rewrite E. change (x :: l) with ([x] ++ l) in R7. rewrite count_app in R7. lia.
Qed.

(** What one more entry changes. *)
Lemma restored_one n sv k r p b io s :
  meta_ok cfg (cached_keyidx_map s) (pipes s) -> pipes s !! n = Some p -> cached_empty_index p < bucket_num cfg ->
  m_find k (cached_keyidx_map s) = None -> bufs_ok io ->
  io_sent io = io_sent (os_io s) ++ install_msgs cfg k r (cached_empty_index p) b ->
  restored [mkItem n sv k r] s
    (set_io io (set_meta (m_insert k (cached_empty_index p) (cached_keyidx_map s))
                  (<[n := set_entry (cached_empty_index p) k sv (grow_pipe p)]> (pipes s)) s)).
Proof using Hbk.
  intros Hm Hp Hlt Hnew Hb Hs. set (idx := cached_empty_index p) in *.
  assert (Hpo : pipe_ok cfg p) by (pose proof (mo_pipes _ _ _ Hm) as H; rewrite Forall_lookup in H; eauto).
  assert (Hidx : 0 <= idx) by (destruct Hpo; unfold idx in *; lia).
  assert (Hg : cached_empty_index (grow_pipe p) = idx + 1) by (cbn; fold idx; apply u32_id; unfold is_u32; lia).
  assert (Hln : (n < length (pipes s))%nat) by eauto using lookup_lt_Some.
  split; cbn [cached_keyidx_map pipes set_io set_meta os_io].
  - apply meta_append; auto. lia.
  - exact Hb.
  - apply length_insert.
  - intros n' i k' sv' (q & Hq & He & Hsv). unfold placed_at. destruct (decide (n' = n)) as [->|Hne].
    + assert (q = p) as -> by congruence. eexists. rewrite list_lookup_insert_eq by exact Hln. split; [reflexivity|].
      assert (Hi : 0 <= i < idx) by apply He. split.
      * apply entry_set; [exact Hidx|cbn; rewrite (po_keys _ _ Hpo); lia|]. right. split; [lia|]. split; [rewrite Hg; lia|apply He].
      * cbn. rewrite list_lookup_insert_ne by lia. exact Hsv.
    + exists q. rewrite list_lookup_insert_ne by auto. auto.
  - intros n' p'. destruct (decide (n' = n)) as [->|Hne].
    + rewrite list_lookup_insert_eq by exact Hln. intros [= <-]. exists p. split; [exact Hp|]. unfold count. cbn [List.filter it_pipe].
      rewrite Nat.eqb_refl. change (cached_empty_index (grow_pipe p) = idx + 1). exact Hg.
    + rewrite list_lookup_insert_ne by auto. intros Hp'. exists p'. split; [exact Hp'|]. unfold count. cbn [List.filter it_pipe].
      rewrite (proj2 (Nat.eqb_neq n n')) by auto. cbn [length]. lia.
  - intros k'. cbn [map it_key]. rewrite list_elem_of_singleton. destruct (decide (k = k')) as [<-|Hne].
    + rewrite m_find_insert_eq. split; [auto|eauto].
    + rewrite m_find_insert_ne by auto. split; [auto|]. intros [H|H]; [exact H|congruence].
  - exists [install_msgs cfg k r idx b]. split; [cbn [concat]; now rewrite app_nil_r|]. constructor; [|constructor].
    exists idx, b. split; [|reflexivity]. eexists. cbn [it_pipe it_key it_server]. rewrite list_lookup_insert_eq by exact Hln.
    split; [reflexivity|]. split.
    + apply entry_set; [exact Hidx|cbn; rewrite (po_keys _ _ Hpo); lia|]. left. split; [reflexivity|]. split; [reflexivity|lia].
    + cbn. apply list_lookup_insert_eq. destruct Hpo. lia.
Qed.

(** One record. *)
Lemma restore_record_runs x l s maxseq : 0 <= bucket_num cfg -> ready (x :: l) s ->
  exists s', restore_record cfg (Z.of_nat (it_pipe x)) (it_server x) (it_key x) (it_record x) maxseq s
    = Ok ((Z.max maxseq (sr_seq (it_record x)), true), s') /\ restored [x] s s'.
Proof using Hu Hbk.
  intros Hb0 R. pose proof R as [Hm Hb Hwf Hnew _ Hpipe Hroom]. destruct x as [n sv k r]. cbn [it_pipe it_server it_key it_record] in *.
  apply List.Forall_cons_iff in Hwf as [Hr _]. cbn [it_key it_record] in Hr. pose proof (proj1 Hr) as Hk. cbn [fst] in Hk.
  assert (Hx : mkItem n sv k r ∈ mkItem n sv k r :: l) by now left. specialize (Hnew _ Hx). specialize (Hpipe _ Hx). cbn [it_pipe it_key] in *.
  destruct (lookup_lt_is_Some_2 (pipes s) n Hpipe) as [p Hp]. specialize (Hroom n p Hp). unfold count in Hroom. cbn [List.filter it_pipe] in Hroom.
  rewrite Nat.eqb_refl in Hroom. cbn [length] in Hroom. set (idx := cached_empty_index p) in *.
  assert (Hpo : pipe_ok cfg p) by (pose proof (mo_pipes _ _ _ Hm) as H; rewrite Forall_lookup in H; eauto).
  assert (Hidx : 0 <= idx < bucket_num cfg) by (destruct Hpo; unfold idx in *; lia).
  assert (Hi16 : is_u16 idx) by (unfold is_u16; lia).
  destruct (send_pop_runs (M := M) cfg k r idx s Hu Hr Hi16 Hb) as (b & io1 & E1 & B1 & V1).
  assert (Hal : length (add_wire cfg k idx) = 22%nat)
    by (unfold add_wire; rewrite !length_app, !length_le_bytes, length_key_wire; reflexivity).
  pose proof buf_len_eq as Hbl. unfold MAX_BUFSIZE in Hbl.
  pose proof (add_emits cfg k idx Hk) as Hae. replace 22 with (Z.of_nat (length (add_wire cfg k idx))) in Hae by (now rewrite Hal).
  destruct (tell_ptf_does (M := M) _ _ (io_view io1) Hae ltac:(lia)) with (s := set_io io1 s) as (io2 & E2 & B2 & _ & V2);
    [exact B1|exact I|reflexivity|].
  destruct (setvalid_sends (M := M) k idx 1 (io_view io2) Hk (conj Hi16 (or_intror (or_introl eq_refl)))) with (s := set_io io2 s)
    as (io3 & E3 & B3 & _ & V3); [exact B2|exact I|reflexivity|].
  set (ps' := <[n := set_entry idx k sv (grow_pipe p)]> (pipes s)).
  set (s' := set_io io3 (set_meta (m_insert k idx (cached_keyidx_map s)) ps' s)). exists s'. split.
  - unfold restore_record, mbind, os_bind, get_pipe. rewrite (proj2 (arr_get_Ok (pipes s) (Z.of_nat n) p)) by (now rewrite Nat2Z.id).
    cbn [mbind res_bind]. fold idx. rewrite (u16_id idx Hi16). fold (bucket_num cfg). rewrite (proj2 (Z.leb_gt _ _)) by lia.
    rewrite E1, E2, set_io_io. unfold mbind, os_bind in E3. rewrite E3, set_io_io.
    rewrite (record_entry_runs (M := M) cfg (Z.of_nat n) p) by (cbn; rewrite ?Nat2Z.id; assumption).
    rewrite Nat2Z.id. cbn [pipes set_meta set_io]. rewrite (proj2 (arr_get_Ok _ (Z.of_nat n) (set_entry idx k sv p)))
      by (rewrite Nat2Z.id; apply list_lookup_insert_eq; eauto using lookup_lt_Some).
    cbn [mbind res_bind]. unfold put_pipe, mret, os_ret. rewrite Nat2Z.id. cbn [pipes set_meta set_io cached_keyidx_map]. rewrite list_insert_insert_eq.
    f_equal. f_equal. f_equal. destruct (Z.ltb_spec maxseq (sr_seq r)); lia.
  - apply (restored_one n sv k r p b io3 s); [exact Hm|exact Hp|fold idx; lia|exact Hnew|exact B3|].
    rewrite V2, V1 in V3. apply (f_equal v_sent) in V3. cbn [v_sent sends io_view] in V3. rewrite V3, <- (app_assoc (_ ++ _)), <- app_assoc. reflexivity.
Qed.

(** All records of a server. *)
Lemma restore_records_runs n sv rs : forall l s maxseq, 0 <= bucket_num cfg ->
  ready (map (fun y => mkItem n sv y.1 y.2) rs ++ l) s ->
  exists s', restore_records cfg (Z.of_nat n) sv rs maxseq s = Ok (foldl Z.max maxseq (map (fun y => sr_seq y.2) rs), s') /\
    restored (map (fun y => mkItem n sv y.1 y.2) rs) s s' /\ ready l s'.
Proof using Hu Hbk.
  induction rs as [|[k r] rs IH]; intros l s maxseq Hb R; cbn [map app fst snd] in *.
  - exists s. split; [reflexivity|]. split; [apply restored_nil; apply R|exact R].
  - destruct (restore_record_runs _ _ s maxseq Hb R) as (s1 & E1 & R1). cbn [it_pipe it_server it_key it_record] in E1.
    pose proof (ready_step _ _ _ _ R R1) as Hr1. destruct (IH l s1 (Z.max maxseq (sr_seq r)) Hb Hr1) as (s2 & E2 & R2 & Hr2).
    exists s2. split; [|split; [exact (restored_app [_] _ _ _ _ R1 R2)|exact Hr2]].
    cbn [restore_records]. unfold mbind, os_bind. rewrite E1. exact E2.
Qed.

(** The records of the servers from [i] on, in the order of the file. *)
Fixpoint items (f : nat -> list (Key * SnapshotRecord)) (pipe_of : nat -> nat) (i n : nat) : list item :=
  match n with
  | O => []
  | S n' => map (fun y => mkItem (pipe_of i) (Z.of_nat i) y.1 y.2) (f i) ++ items f pipe_of (S i) n'
  end.

Lemma restore_servers_runs f pipe_of bws : forall i l s maxseq, 0 <= bucket_num cfg ->
  (forall j, (i <= j < i + length bws)%nat -> find_pipe cfg (Z.of_nat j) = Ok (Z.of_nat (pipe_of j))) ->
  ready (items f pipe_of i (length bws) ++ l) s ->
  exists s', restore_servers cfg (servers_data f i bws) maxseq s
      = Ok (foldl Z.max maxseq (map (fun y => sr_seq (it_record y)) (items f pipe_of i (length bws))), s') /\
    restored (items f pipe_of i (length bws)) s s' /\ ready l s'.
Proof using Hu Hbk.
  induction bws as [|w bws IH]; intros i l s maxseq Hb Hp R; cbn [length items servers_data] in *.
  - exists s. split; [reflexivity|]. split; [apply restored_nil; apply R|exact R].
  - rewrite <- app_assoc in R.
    destruct (restore_records_runs (pipe_of i) (Z.of_nat i) (f i) _ s maxseq Hb R) as (s1 & E1 & R1 & Hr1).
    destruct (IH (S i) l s1 (foldl Z.max maxseq (map (fun y => sr_seq y.2) (f i))) Hb) as (s2 & E2 & R2 & Hr2);
      [intros j Hj; apply Hp; lia|exact Hr1|].
    exists s2. split; [|split; [exact (restored_app _ _ _ _ _ R1 R2)|exact Hr2]].
    cbn [restore_servers server_data sv_serveridx sv_records]. unfold mbind, os_bind, os_lift. rewrite (Hp i) by lia. rewrite E1, E2.
    rewrite map_app, foldl_app, map_map. reflexivity.
Qed.

End Restored.

(** The data of a snapshot as the controller stores it: [f] has the records of
    every server, [bws] their counters. *)
Definition snapshot_file (sc : SnConfig) (f : nat -> list (Key * SnapshotRecord)) (bws : list Z) : list Z :=
  le_bytes 4 (SNAPSHOT_GETDATA_ACK sc) ++ le_bytes 4 (8 + Z.of_nat (length (servers_wire f 0 bws))) ++ servers_wire f 0 bws.

(** A snapshot that fits the pipelines: every server has one, no key occurs twice. *)
Record snapshot_fits (cfg : OsConfig) (sc : SnConfig) (f : nat -> list (Key * SnapshotRecord)) (bws : list Z) (pipe_of : nat -> nat) (np : nat) : Prop := {
  sf_records : forall i, Forall wire_record_wf (f i);
  sf_bws : Forall (fun w => 0 <= w < 2 ^ 64) bws;
  sf_servers : Z.of_nat (length bws) < 2 ^ 16;
  sf_size : 8 + Z.of_nat (length (servers_wire f 0 bws)) < 2 ^ 31;
  sf_type : is_s32 (SNAPSHOT_GETDATA_ACK sc);
  sf_pipe : forall i, (i < length bws)%nat -> find_pipe cfg (Z.of_nat i) = Ok (Z.of_nat (pipe_of i)) /\ (pipe_of i < np)%nat;
  sf_keys : NoDup (map it_key (items f pipe_of 0 (length bws)));
  sf_room : forall n, Z.of_nat (count n (items f pipe_of 0 (length bws))) <= bucket_num cfg
}.

Lemma items_elem f pipe_of n : forall i x, x ∈ items f pipe_of i n ->
  exists j, (i <= j < i + n)%nat /\ it_pipe x = pipe_of j /\ (it_key x, it_record x) ∈ f j.
Proof.
  induction n as [|n IH]; intros i x Hx; cbn [items] in Hx; [now apply not_elem_of_nil in Hx|].
  apply elem_of_app in Hx as [Hx|Hx].
  - apply list_elem_of_In, in_map_iff in Hx as (y & <- & Hy). exists i. split; [lia|]. split; [reflexivity|]. destruct y. now apply list_elem_of_In.
  - destruct (IH _ _ Hx) as (j & Hj & H). exists j. split; [lia|exact H].
Qed.

Lemma fits_ready {M} `{Hsm : SpecialMap M} cfg sc f bws pipe_of np mq io : snapshot_fits cfg sc f bws pipe_of np -> 0 <= bucket_num cfg ->
  bufs_ok io -> ready cfg (items f pipe_of 0 (length bws)) (prepare_switchos (M := M) cfg np mq io).
Proof.
  intros [Hr _ _ _ _ Hp Hk Hroom] Hb Hio.
  assert (Hm : meta_ok cfg (cached_keyidx_map (prepare_switchos (M := M) cfg np mq io)) (pipes (prepare_switchos (M := M) cfg np mq io))).
  { apply (initial_meta cfg (init_snap np [] [] [] [] demo_large_array, prepare_switchos cfg np mq io) Hb).
    now exists np, mq, io, [], [], [], [], demo_large_array. }
  split; [exact Hm|exact Hio| |reflexivity|exact Hk| |].
  - apply List.Forall_forall. intros x Hx. apply list_elem_of_In in Hx. destruct (items_elem _ _ _ _ _ Hx) as (j & _ & _ & H).
    specialize (Hr j). rewrite List.Forall_forall in Hr. now apply Hr, list_elem_of_In.
  - intros x Hx. destruct (items_elem _ _ _ _ _ Hx) as (j & Hj & -> & _). cbn [pipes prepare_switchos]. rewrite length_replicate. apply Hp. lia.
  - intros n p [-> _]%lookup_replicate. cbn [init_pipe cached_empty_index]. specialize (Hroom n). lia.
Qed.

(** C13: recovery puts the last snapshot back into the switch.  From the files the
    controller has stored, every record of the snapshot, deletions included, is
    sent to a free entry of the pipeline of its server, added to the lookup table
    and validated; afterwards the map and the arrays are consistent and know
    exactly the keys of the snapshot, each with its server.  The switch is told to
    continue from the largest sequence number of these records, whatever the
    maxseq files of the servers say. *)
Theorem recover_restores_cache {M} `{Hsm : SpecialMap M} (cfg : OsConfig) (sc : SnConfig) (writeallseq : Z)
    (f : nat -> list (Key * SnapshotRecord)) (bws : list Z) (pipe_of : nat -> nat) (np : nat) (id mq : Z) (io : Io)
    (disk : CtDisk) (seqs : list Z) :
  is_u16 (os_uninit cfg) -> 0 <= bucket_num cfg < 2 ^ 16 -> snapshot_fits cfg sc f bws pipe_of np -> bufs_ok io -> is_s32 id ->
  disk ct_snapshotid_path = Some (le_bytes 4 (u32 id)) -> disk (ct_snapshotdata_path id) = Some (snapshot_file sc f bws) ->
  let records := items f pipe_of 0 (length bws) in
  exists s' msgs, recover cfg sc writeallseq disk (Some seqs) (prepare_switchos (M := M) cfg np mq io) = Ok (tt, s') /\
    meta_ok cfg (cached_keyidx_map s') (pipes s') /\
    (forall k, is_Some (m_find k (cached_keyidx_map s')) <-> k ∈ map it_key records) /\
    Forall2 (installs cfg (pipes s')) records msgs /\
    io_sent (os_io s') = io_sent io ++ concat msgs ++
      [(ToPtf, writeallseq_wire writeallseq (foldl Z.max 0 (map (fun x => sr_seq (it_record x)) records)))].
Proof.
  intros Hu [Hb0 Hb] Hfit Hio Hid D1 D2 records. pose proof Hfit as [Hr Hw Hn Hsz Hty Hp _ _].
  set (s0 := prepare_switchos cfg np mq io). pose proof (fits_ready (M := M) cfg sc f bws pipe_of np mq io Hfit Hb0 Hio) as R. fold s0 in R.
  destruct (restore_servers_runs cfg Hu Hb f pipe_of bws 0 [] s0 0 Hb0) as (s1 & E1 & [Hm B _ _ _ Hk (msgs & S1 & F)] & _);
    [intros j Hj; apply Hp; lia|now rewrite app_nil_r|]. fold records in E1, F, Hk.
  set (maxseq := foldl Z.max 0 (map (fun y => sr_seq (it_record y)) records)) in *.
  destruct (writeallseq_does (M := M) writeallseq maxseq (io_view (os_io s1))) with (s := s1) as (io2 & E2 & _ & _ & V2);
    [exact B|exact I|reflexivity|].
  assert (Hlen : Z.of_nat (length (snapshot_file sc f bws)) = 8 + Z.of_nat (length (servers_wire f 0 bws)))
    by (unfold snapshot_file; rewrite !length_app, !length_le_bytes; lia).
  pose proof (getdata_ack_reads f (SNAPSHOT_GETDATA_ACK sc) bws Hr Hty Hw Hn Hsz) as Hread. cbv zeta in Hread.
  apply (reads_run _ _ _ []) in Hread as Hrun. rewrite app_nil_r in Hrun. fold (snapshot_file sc f bws) in Hrun.
  exists (set_io io2 s1), msgs. split; [|split; [exact Hm|split; [|split; [exact F|]]]].
  - unfold recover. rewrite D1, length_le_bytes. change (4 <? 4)%nat with false. unfold mbind, os_bind, os_lift at 1, os_check, os_lift at 1.
    rewrite take_ge, le_val_bytes by (rewrite length_le_bytes; lia).
    rewrite Z.mod_small by (pose proof (u32_range id) as H; unfold is_u32 in H; cbn; lia). rewrite s32_u32 by exact Hid. rewrite D2.
    rewrite Hlen, (u32_id (8 + _)) by (unfold is_u32; lia). rewrite INVARIANT_true by lia. rewrite s32_id by (unfold is_s32; lia).
    rewrite Hrun. unfold os_lift. rewrite E1.
    cbn [deserialize_perserver_maxseq_files fold_left]. exact E2.
  - intros k. cbn [cached_keyidx_map set_io]. rewrite Hk. cbn [s0 cached_keyidx_map prepare_switchos m_find]. split; [|auto].
    intros [[? [=]]|H]; exact H.
  - apply (f_equal v_sent) in V2. cbn [v_sent sends io_view] in V2. cbn [os_io set_io]. rewrite V2, S1. now rewrite <- app_assoc.
Qed.

(** ** A concrete recovery *)

(** Server 0 has two records in the switch, server 1 one; both use pipeline 0. *)
Definition demo_recover_config : OsConfig := mkOsConfig 4 1 [[0; 1]] [0] 5000 2 20 21 22 23 0.
Definition demo_file_records (i : nat) : list (Key * SnapshotRecord) :=
  match i with
  | O => [(key_of 1, demo_record 7 true); (key_of 2, demo_record 9 false)]
  | S O => [(key_of 3, demo_record 5 true)]
  | _ => []
  end.
Definition demo_recover_disk : CtDisk :=
  ct_write ct_snapshotid_path (le_bytes 4 (u32 6))
    (ct_write (ct_snapshotdata_path 6) (snapshot_file demo_sn_config demo_file_records [0; 0]) (fun _ => None)).

Lemma recover_restores_cache_witness : exists s' : Os case_map,
  recover demo_recover_config demo_sn_config 99 demo_recover_disk (Some [1000]) (prepare_switchos demo_recover_config 1 4 (demo_bufs [] [] []))
    = Ok (tt, s') /\
  is_Some (m_find (key_of 2) (cached_keyidx_map s')) /\
  exists rest, io_sent (os_io s') = rest ++ [(ToPtf, writeallseq_wire 99 9)].
Proof.
  destruct (recover_restores_cache (M := case_map) demo_recover_config demo_sn_config 99 demo_file_records [0; 0] (fun _ => O) 1 6 4
    (demo_bufs [] [] []) demo_recover_disk [1000]) as (s' & msgs & E & _ & Hk & _ & Hs).
  - unfold is_u16. cbn. lia.
  - unfold bucket_num. cbn. lia.
  - split.
    + intros [|[|i]]; cbn [demo_file_records]; repeat (apply List.Forall_cons; [apply demo_record_wf; unfold is_u32; lia|]); apply List.Forall_nil.
    + repeat (apply List.Forall_cons; [lia|]). apply List.Forall_nil.
    + cbn. lia.
    + vm_compute. reflexivity.
    + unfold is_s32. cbn. lia.
    + intros [|[|i]] Hi; [split; [reflexivity|lia]..|cbn in Hi; lia].
    + cbn. apply (bool_decide_unpack (NoDup [key_of 1; key_of 2; key_of 3])). vm_compute. exact I.
    + intros [|n]; unfold bucket_num; cbn; lia.
  - apply demo_bufs_ok.
  - unfold is_s32. lia.
  - reflexivity.
  - reflexivity.
  - exists s'. split; [exact E|]. split; [apply Hk; right; left|]. cbn [app] in Hs. rewrite app_assoc in Hs. eexists. exact Hs.
Defined.
