(* ===== verification/ControlPath.v ===== *)
(** * Population and eviction across the components

    What the server, the controller and the switch OS do with the messages of each
    other.  [eviction_handed_over] follows a CACHE_EVICT of the popworker through
    the evictserver of the controller to the evict server and its acknowledgement
    back; [population_reaches_switch] follows a CACHE_POP of a worker through the
    popservers of the controller and of the switch OS into the switch.  The error
    theorems are about messages that are lost and sent again. *)

From Stdlib Require Import ZArith Lia List.
From stdpp Require Import base tactics list numbers option relations.
From S2P Require Import Prelude Cursor DynamicArray StdMap Crc32 Key Val DeletedSet KVStore RocksdbWrapper RocksdbProps Packet PacketCodec PacketCache PacketScan Outband PacketServer PacketSwitch Server ServerSpec ServerProps ServerThreads Fragment PktRingBuffer MessageQueue RecvLarge RecvProps SwitchOS SwitchMeta SwitchSnapshot SwitchLoad SwitchRollback SwitchPop SwitchEvict SwitchSystem Controller ControllerProps.

Open Scope Z_scope.
Set Default Proof Using "Type".

(** ** Acknowledgements *)

Lemma ack_emits t k max : is_u16 t -> key_wf k -> 18 <= max < 2 ^ 32 ->
  emits (WarmupRequest_serialize (Packet_new FARREACH_ID t k) max) 0 (fr_hdr t k) 18.
Proof.
  intros Ht Hk Hm. unfold WarmupRequest_serialize. cbn [p_methodid Packet_new]. change (get_ophdrsize FARREACH_ID) with (Ok 18).
  em. rewrite <- (app_nil_r (fr_hdr t k)).
  eapply emits_bind; [exact (emits_ophdr (Packet_new FARREACH_ID t k) max (new_packet_wf t k Ht Hk) ltac:(cbn; lia))|].
  rewrite length_fr_hdr. em.
Qed.

(** An acknowledgement written over the start of a buffer. *)
Lemma ack_written t k buf : is_u16 t -> key_wf k -> length buf = buf_len ->
  exists buf', run_writer (WarmupRequest_serialize (Packet_new FARREACH_ID t k) MAX_BUFSIZE) buf = Ok (18, buf') /\
    take (Z.to_nat 18) buf' = fr_hdr t k /\ length buf' = buf_len.
Proof.
  intros Ht Hk Hb. pose proof buf_len_eq as Hm. unfold MAX_BUFSIZE in Hm.
  pose proof (length_fr_hdr t k) as Hl. exists (fr_hdr t k ++ drop (length (fr_hdr t k)) buf).
  rewrite (emits_run _ _ _ buf (ack_emits t k MAX_BUFSIZE Ht Hk ltac:(unfold MAX_BUFSIZE; lia))) by lia.
  split; [reflexivity|]. split; [|rewrite length_written; lia]. now apply take_app_length'.
Qed.

(** ** The evict server *)

Section Server.
Context {DB Snap : Type} `{Hkv : KVStore DB Snap}.
Context (cfg : ServerConfig).
Abbreviation Thread := (@Thread DB Snap).

(** Computations that only touch the store. *)
Definition db_only {A} (m : sv (DB := DB) (Snap := Snap) A) : Prop :=
  forall t a t', m t = Ok (a, t') ->
  t_buf t' = t_buf t /\ t_sent t' = t_sent t /\ cached_keyset (t_server t') = cached_keyset (t_server t).

Lemma db_only_ret {A} (a : A) : db_only (mret a).
Proof. now intros t a' t' [= _ <-]. Qed.

Lemma db_only_on_db {A} (m : rw DB Snap A) : db_only (on_db m).
Proof. intros t a t'. unfold on_db. destruct (m _) as [[b w]|]; [|discriminate]. now intros [= _ <-]. Qed.

Lemma db_only_get {A} (f : Server -> A) : db_only (get_server f).
Proof. now intros t a t' [= _ <-]. Qed.

Lemma sv_bind_Ok {A B} (m : sv A) (f : A -> sv B) (t : Thread) x : (m ≫= f) t = Ok x -> exists a t1, m t = Ok (a, t1) /\ f a t1 = Ok x.
Proof. unfold mbind, sv_bind. destruct (m t) as [[a t1]|]; [eauto|discriminate]. Qed.

Lemma db_only_bind {A B} (m : sv A) (f : A -> sv B) : db_only m -> (forall a, db_only (f a)) -> db_only (m ≫= f).
Proof.
  intros Hm Hf t b t' (a & t1 & E & E')%sv_bind_Ok. destruct (Hm _ _ _ E) as (<- & <- & <-). exact (Hf a _ _ _ E').
Qed.

Lemma db_only_if {A} (c : bool) (m m' : sv A) : db_only m -> db_only m' -> db_only (if c then m else m').
Proof. now destruct c. Qed.
#[local] Hint Resolve db_only_ret db_only_on_db db_only_get db_only_bind db_only_if : core.

(** A successful turn of the evict server was for a cached key of this server,
    forgets it, and sends the acknowledgement. *)
Lemma evictserver_accepts buf n (t t' : Thread) : evictserver_step cfg buf n t = Ok (tt, t') ->
  exists case2 e, evicts buf n case2 e /\ cp_serveridx e = global_server_logical_idx cfg /\
    cached (t_server t) (evicted_key e) = true.
Proof.
  unfold evictserver_step. intros (ty & t1 & Hty & E)%sv_bind_Ok. unfold sv_lift in Hty.
  destruct (run_reader (get_packet_type n) buf) as [ty'|] eqn:Ety; [|discriminate]. injection Hty as <- <-.
  apply sv_bind_Ok in E as (e & t2 & He & E).
  assert (Hev : t2 = t /\ exists case2, evicts buf n case2 e).
  { unfold sv_lift in He. destruct (Z.eqb_spec ty' CACHE_EVICT) as [->|].
    - destruct (run_reader (CacheEvict_parse _ _) _) eqn:Hp; [|discriminate]. injection He as <- <-. eauto using evicts_case1.
    - destruct (Z.eqb_spec ty' CACHE_EVICT_CASE2) as [->|]; [|discriminate].
      destruct (run_reader (CacheEvictCase2_parse _ _) _) eqn:Hp; [|discriminate]. injection He as <- <-. eauto using evicts_case2. }
  destruct Hev as [-> [case2 Hev]]. exists case2, e. split; [exact Hev|].
  apply sv_bind_Ok in E as ([] & t3 & Hi & E). unfold sv_check, sv_lift in Hi.
  destruct (INVARIANT _) as [[]|] eqn:Hi'; [|discriminate]. injection Hi as <-. apply INVARIANT_Ok, Z.eqb_eq in Hi'.
  split; [exact Hi'|]. apply sv_bind_Ok in E as (c & t4 & Hc & E). injection Hc as Hc <-.
  unfold cached, evicted_key. rewrite Hc. apply sv_bind_Ok in E as ([] & t5 & Hx & _). now destruct c.
Qed.

Lemma evictserver_success buf n (t t' : Thread) case2 e : evicts buf n case2 e -> cp_serveridx e = global_server_logical_idx cfg ->
  cached (t_server t) (evicted_key e) = true -> evictserver_step cfg buf n t = Ok (tt, t') ->
  cached_keyset (t_server t') = m_erase (evicted_key e) (cached_keyset (t_server t)) /\
  exists size buf', run_writer (WarmupRequest_serialize (CacheEvictAck_new CURMETHOD_ID (evicted_key e)) MAX_BUFSIZE) (t_buf t)
    = Ok (size, buf') /\ t_sent t' = t_sent t ++ [(ToEvictclient, take (Z.to_nat size) buf')].
Proof.
  intros He Hi Hc. rewrite (evictserver_step_eq cfg t buf n case2 e He Hi Hc).
  intros ([] & t1 & H1 & E)%sv_bind_Ok. apply sv_bind_Ok in E as ([] & t2 & H2 & E). apply sv_bind_Ok in E as (b & t3 & H3 & E).
  assert (Hd : db_only (if case2 then issnap ← get_server issnapshot; if negb issnap then _ ← on_db (make_snapshot 0); mret tt else mret tt
                        else mret tt)) by auto 8.
  destruct (Hd _ _ _ H1) as (B1 & S1 & K1). injection H2 as <-. destruct (db_only_on_db _ _ _ _ H3) as (B3 & S3 & K3).
  cbn in B3, S3, K3. unfold send_buf in E. rewrite B3, B1 in E. destruct (run_writer _ _) as [[size buf']|]; [|discriminate].
  injection E as <-. cbn. rewrite K3, S3, K1, S1. eauto.
Qed.

(** An eviction of a key that is not cached ends the server. *)
Lemma evictserver_refuses buf n (t : Thread) case2 e : evicts buf n case2 e -> cp_serveridx e = global_server_logical_idx cfg ->
  cached (t_server t) (evicted_key e) = false -> evictserver_step cfg buf n t = Err ExitCalled.
Proof.
  intros He Hi Hc. unfold evictserver_step, mbind, sv_bind, sv_check, sv_lift, keyset_is_exist, get_server.
  unfold cached, evicted_key in Hc.
  destruct He as [e Hty Hp|e Hty Hp]; rewrite Hty; change (CACHE_EVICT_CASE2 =? CACHE_EVICT) with false;
    rewrite ?Z.eqb_refl, Hp, Hi, Z.eqb_refl; cbn [INVARIANT]; unfold mbind, sv_bind; now rewrite Hc.
Qed.

End Server.

(** ** An eviction on its way *)

(** The server is one the controller knows. *)
Definition known_server (ocfg : OsConfig) (serveridx : Z) : Prop :=
  0 <= serveridx < max_server_total_logical_num ocfg /\ find_physical serveridx 0 (server_logical_idxes_list ocfg) (-1) <> -1.

(** The controller passes an eviction on, and the answer of the server back. *)
Lemma ct_evictserver_eq ocfg buf msg evs cost case2 e bw :
  evicts (recv_into buf msg) (recv_size buf msg) case2 e -> known_server ocfg (cp_serveridx e) -> CachePop_bwcost e = Ok bw ->
  let buf1 := recv_into buf msg in
  let to_server := (cp_serveridx e, take (Z.to_nat (recv_size buf msg)) buf1) in
  ct_evictserver_step ocfg buf msg evs cost =
    match evs with
    | [] => Err Blocked
    | Timeout :: evs' => Ok (buf1, to_server, None, evs', u64 (cost + u32 bw))
    | Dgram b _ :: evs' =>
        tmpack ← run_reader (HostAck_parse CACHE_EVICT_ACK CURMETHOD_ID (recv_size buf1 b)) (recv_into buf1 b);
        bw2 ← CacheEvictAck_bwcost tmpack;
        Ok (recv_into buf1 b, to_server, Some (take (Z.to_nat (recv_size buf1 b)) (recv_into buf1 b)), evs',
            u64 (u64 (cost + u32 bw) + u32 bw2))
    end.
Proof.
  intros He [Hi Hp] Hbw. unfold ct_evictserver_step.
  destruct He as [e Hty Hpar|e Hty Hpar]; rewrite Hty; cbn [mbind res_bind]; change (CACHE_EVICT_CASE2 =? CACHE_EVICT) with false;
    rewrite ?Z.eqb_refl, Hpar; cbn [mbind res_bind]; rewrite Hbw; cbn [mbind res_bind];
    rewrite !INVARIANT_true by lia; reflexivity.
Qed.

Section Eviction.
Context (ocfg : OsConfig) (case2 : bool) (k : Key) (r : SnapshotRecord) (serveridx : Z).
Abbreviation bytes := (evict_wire (evict_type case2) k r serveridx).

(** The packet the receivers read. *)
Definition evict_packet : CachePop :=
  mkCachePop (mkPutRequestSeq (Packet_new FARREACH_ID (evict_type case2) k) (sr_val r) (sr_seq r) 0) (sr_stat r) serveridx.

Record eviction_wf : Prop := {
  ew_record : wire_record_wf (k, r);
  ew_idx : is_u16 serveridx
}.
Hypothesis Hwf : eviction_wf.

Lemma evict_type_u16 : is_u16 (evict_type case2).
Proof. unfold is_u16. destruct case2; cbn; unfold CACHE_EVICT_CASE2, CACHE_EVICT; lia. Qed.

Lemma length_evict_wire : length bytes = (25 + val_wire_size (sr_val r))%nat.
Proof. unfold evict_wire. rewrite !length_app, length_fr_hdr, length_val_wire, !length_be. cbn [length]. lia. Qed.

Lemma evict_wire_fits : (25 <= length bytes <= buf_len)%nat.
Proof using Hwf.
  pose proof (wire_record_small _ _ (ew_record Hwf)). pose proof buf_len_eq as Hm. unfold MAX_BUFSIZE in Hm.
  rewrite length_evict_wire. lia.
Qed.

Lemma evict_received buf : length buf = buf_len -> evicts (recv_into buf bytes) (recv_size buf bytes) case2 evict_packet.
Proof using Hwf.
  intros Hb. pose proof evict_wire_fits as Hl. pose proof buf_len_eq as Hm. unfold MAX_BUFSIZE in Hm.
  destruct (recv_fits buf bytes ltac:(lia)) as [-> ->]. destruct Hwf as [Hr Hi].
  assert (Hty : run_reader (get_packet_type (Z.of_nat (length bytes))) (bytes ++ drop (length bytes) buf) = Ok (evict_type case2)).
  { unfold evict_wire at 2, fr_hdr. rewrite <- !app_assoc. unfold get_packet_type.
    rewrite (proj2 (Z.leb_le 2 _)) by lia. apply (reads_run r_u16be). apply reads_u16be, evict_type_u16. }
  pose proof (evict_reads (evict_type case2) k r serveridx (Z.of_nat (length bytes)) evict_type_u16 Hr Hi ltac:(lia)) as Hread.
  destruct Hr as (_ & _ & Hs). cbn [snd] in Hs. unfold is_u32, is_u16 in *.
  assert (Hrest : forall c, c = evict_type case2 ->
    reads (p ← CacheEvict_deserialize FARREACH_ID (Z.of_nat (length bytes)); _ ← r_check (p_type (qs_base (cp_put p)) =? c);
           _ ← r_check (0 <=? qs_seq (cp_put p)); _ ← r_check (0 <=? cp_serveridx p); mret p) 0 bytes evict_packet).
  { intros c ->. rewrite <- (app_nil_r bytes) at 2. eapply reads_bind; [exact Hread|]. cbn [cp_put cp_serveridx qs_base qs_seq p_type Packet_new].
    apply reads_check_bind; [apply Z.eqb_refl|]. apply reads_check_bind; [exact (proj2 (Z.leb_le 0 _) (proj1 Hs))|].
    apply reads_check_bind; [exact (proj2 (Z.leb_le 0 _) (proj1 Hi))|]. apply reads_ret. }
  unfold evict_type in Hty. destruct case2; [apply evicts_case2|apply evicts_case1]; try exact Hty; apply reads_run.
  - apply reads_check_bind; [reflexivity|]. now apply Hrest.
  - now apply Hrest.
Qed.

(** What an acknowledgement does on its way back. *)
Lemma ack_received type buf : is_u16 type -> key_wf k -> length buf = buf_len ->
  run_reader (HostAck_parse type CURMETHOD_ID (recv_size buf (fr_hdr type k))) (recv_into buf (fr_hdr type k))
    = Ok (Packet_new FARREACH_ID type k) /\
  take (Z.to_nat (recv_size buf (fr_hdr type k))) (recv_into buf (fr_hdr type k)) = fr_hdr type k.
Proof.
  intros Ht Hk Hb. pose proof buf_len_eq as Hm. unfold MAX_BUFSIZE in Hm. pose proof (length_fr_hdr type k) as Hl.
  destruct (recv_fits buf (fr_hdr type k) ltac:(lia)) as [-> ->]. split; [|rewrite Nat2Z.id; apply take_app_length].
  apply reads_run, host_ack_reads; auto. lia.
Qed.

Lemma evict_relayed buf evs cost : length buf = buf_len -> known_server ocfg serveridx ->
  (exists buf1 cost1, ct_evictserver_step ocfg buf bytes (Timeout :: evs) cost = Ok (buf1, (serveridx, bytes), None, evs, cost1)) /\
  forall src, exists buf2 cost2, ct_evictserver_step ocfg buf bytes (Dgram (fr_hdr CACHE_EVICT_ACK k) src :: evs) cost
    = Ok (buf2, (serveridx, bytes), Some (fr_hdr CACHE_EVICT_ACK k), evs, cost2).
Proof using Hwf.
  intros Hb Hk. pose proof evict_wire_fits as Hl. pose proof (evict_received buf Hb) as He.
  assert (Hbw : exists bw, CachePop_bwcost evict_packet = Ok bw) by (eexists; reflexivity). destruct Hbw as [bw Hbw].
  pose proof (fun evs => ct_evictserver_eq ocfg buf bytes evs cost case2 evict_packet bw He Hk Hbw) as E. cbv zeta in E.
  assert (Ht : take (Z.to_nat (recv_size buf bytes)) (recv_into buf bytes) = bytes).
  { destruct (recv_fits buf bytes ltac:(lia)) as [-> ->]. rewrite Nat2Z.id. apply take_app_length. }
  rewrite Ht in E. change (cp_serveridx evict_packet) with serveridx in E. split; [eexists _, _; exact (E (Timeout :: evs))|].
  intros src. rewrite E.
  destruct (ack_received CACHE_EVICT_ACK (recv_into buf bytes)) as [-> ->];
    [unfold is_u16, CACHE_EVICT_ACK; lia|apply (ew_record Hwf)|now rewrite length_recv_into|].
  eexists _, _. reflexivity.
Qed.

End Eviction.

(** A signal from the evict server is exactly the acknowledgement the popworker
    waits for. *)
Lemma evictserver_ack {DB Snap} `{KVStore DB Snap} (scfg : ServerConfig) buf n (t t' : @Thread DB Snap) case2 e :
  evicts buf n case2 e -> cp_serveridx e = global_server_logical_idx scfg -> cached (t_server t) (evicted_key e) = true ->
  key_wf (evicted_key e) -> buffers_ok t -> evictserver_step scfg buf n t = Ok (tt, t') ->
  t_sent t' = t_sent t ++ [(ToEvictclient, fr_hdr CACHE_EVICT_ACK (evicted_key e))].
Proof.
  intros He Hi Hc Hk Hb E. destruct (evictserver_success scfg buf n t t' case2 e He Hi Hc E) as (_ & size & buf' & Ew & ->).
  assert (Hl : length (t_buf t) = buf_len) by (pose proof (bo_buf _ Hb); pose proof buf_len_eq; lia).
  destruct (ack_written CACHE_EVICT_ACK (evicted_key e) (t_buf t)) as (b & Eb & Ht & _); [unfold is_u16, CACHE_EVICT_ACK; lia|auto..|].
  change (CacheEvictAck_new CURMETHOD_ID (evicted_key e)) with (Packet_new FARREACH_ID CACHE_EVICT_ACK (evicted_key e)) in Ew.
  rewrite Eb in Ew. injection Ew as <- <-. now rewrite Ht.
Qed.


(** C39: a lost acknowledgement of an eviction ends the server.  When the first
    answer does not arrive, the popworker sends the same packet again, and the
    controller passes both copies on; a server that took the first one no longer
    has the key in its set, and exits on the second. *)
Theorem eviction_retry_aborts {DB Snap M} `{Hkv : KVStore DB Snap} `{Hsm : SpecialMap M}
    (ocfg : OsConfig) (scfg : ServerConfig) (case2 : bool) (k : Key) (r : SnapshotRecord) (cbuf sbuf : list Z) (cost : Z)
    (src : sockaddr_in) (evs cevs : list event) (s : Os M) (t t' : @Thread DB Snap) :
  let serveridx := global_server_logical_idx scfg in
  let msg := evict_wire (evict_type case2) k r serveridx in
  is_u16 serveridx -> is_u16 (os_uninit ocfg) -> known_server ocfg serveridx -> wire_record_wf (k, r) ->
  length cbuf = buf_len -> bufs_ok (os_io s) ->
  controller_sock (os_io s) = Timeout :: Dgram (fr_hdr CACHE_EVICT_ACK k) src :: evs ->
  m_sorted (cached_keyset (t_server t)) ->
  evictserver_step scfg (recv_into sbuf msg) (recv_size sbuf msg) t = Ok (tt, t') ->
  (exists io, send_evict ocfg case2 k r serveridx s = Ok (tt, set_io io s) /\
     io_sent io = io_sent (os_io s) ++ [(ToController, msg); (ToController, msg)]) /\
  (exists cbuf' cost', ct_evictserver_step ocfg cbuf msg (Timeout :: cevs) cost = Ok (cbuf', (serveridx, msg), None, cevs, cost')) /\
  evictserver_step scfg (recv_into sbuf msg) (recv_size sbuf msg) t' = Err ExitCalled.
Proof.
  intros serveridx msg Hi Hu Hkn Hr Hcb Hb Hsock Hm E.
  assert (Hwf : eviction_wf k r serveridx) by (split; assumption). pose proof (proj1 Hr) as Hk. cbn [fst] in Hk.
  assert (Hack : ack_for CACHE_EVICT_ACK k (fr_hdr CACHE_EVICT_ACK k)).
  { exists []. rewrite app_nil_r. split; [reflexivity|]. rewrite length_fr_hdr. pose proof buf_len_eq as Hl. unfold MAX_BUFSIZE in Hl. lia. }
  split; [|split].
  - destruct (send_evict_does (M := M) ocfg case2 k r serveridx _ src 1 evs (io_view (os_io s)) Hu Hr Hi Hack)
      with (s := s) as (io & E1 & _ & _ & V); [exact Hb|exact I|unfold v_set, io_view; cbn; now rewrite Hsock|].
    exists io. split; [exact E1|]. unfold io_view, sends, v_set in V. injection V as _ _ _ V4 _. exact V4.
  - destruct (evict_relayed ocfg case2 k r serveridx Hwf cbuf cevs cost Hcb Hkn) as [H _]. exact H.
  - destruct (evictserver_accepts scfg _ _ t t' E) as (c2 & e & He & Hie & Hc).
    destruct (evictserver_success scfg _ _ t t' c2 e He Hie Hc E) as (Hks & _).
    apply (evictserver_refuses scfg _ _ t' c2 e He Hie). unfold cached. rewrite Hks, m_find_erase_eq by exact Hm. reflexivity.
Qed.

(** ** A population on its way *)

(** A queue without objects. *)
Record queue_empty {obj} (q : MessagePtrQueue obj) : Prop := {
  qe_size : 1 < _size q < 2 ^ 32;
  qe_ptrs : Z.of_nat (length (_obj_ptrs q)) = _size q;
  qe_head : 0 <= _head q < _size q;
  qe_tail : _tail q = _head q;
  qe_slot : _obj_ptrs q !! Z.to_nat (_head q) = Some None
}.

Lemma empty_write_read {obj} (x : obj) q : queue_empty q ->
  exists q1 q2, write (Some x) q = Ok (true, q1) /\ read q1 = Ok (Some x, q2).
Proof.
  destruct q as [size ptrs h t]. intros [Hs Hp Hh Ht Hn]. cbn [_size _obj_ptrs _head _tail] in *. subst t.
  assert (Hmod : u32_mod (h + 1) size = Ok ((h + 1) mod size))
    by (unfold u32_mod; rewrite (proj2 (Z.eqb_neq size 0)) by lia; rewrite u32_id; [reflexivity|unfold is_u32; lia]).
  assert (Hne : (h + 1) mod size <> h)
    by (destruct (Z.eq_dec (h + 1) size) as [E|]; [rewrite E, Z.mod_same|rewrite Z.mod_small]; lia).
  assert (Hlt : (Z.to_nat h < length ptrs)%nat) by lia.
  exists (mkMQ size (<[Z.to_nat h := Some x]> ptrs) ((h + 1) mod size) h),
    (mkMQ size (<[Z.to_nat h := None]> (<[Z.to_nat h := Some x]> ptrs)) ((h + 1) mod size) ((h + 1) mod size)). split.
  - unfold write, put_ptr, next_head. cbn [_head _size _tail _obj_ptrs is_null negb INVARIANT mbind res_bind]. rewrite Hmod.
    cbn [mbind res_bind]. rewrite (proj2 (Z.eqb_neq _ _) Hne). cbn [negb].
    rewrite (vec_get_Ok ptrs (Z.to_nat h) h None eq_refl Hn). cbn [mbind res_bind is_null INVARIANT].
    rewrite (vec_set_Ok ptrs (Z.to_nat h) h _ eq_refl Hlt). cbn [mbind res_bind _head _size]. now rewrite Hmod.
  - unfold read, clear_ptr, next_tail. cbn [_head _size _tail _obj_ptrs].
    rewrite (proj2 (Z.eqb_neq h ((h + 1) mod size))) by auto. cbn [negb].
    rewrite (vec_get_Ok _ (Z.to_nat h) h (Some x) eq_refl) by now apply list_lookup_insert_eq.
    cbn [mbind res_bind is_null negb INVARIANT].
    rewrite (vec_set_Ok _ (Z.to_nat h) h None eq_refl) by (now rewrite length_insert). cbn [mbind res_bind _tail _size].
    now rewrite Hmod.
Qed.

Section Population.
Context {DB Snap : Type} `{Hkv : KVStore DB Snap}.
Context (scfg : ServerConfig) (Hcfg : config_ok scfg).
Context (k : Key) (v : Val) (seq : Z) (stat : bool).
Hypothesis Hrec : key_wf k /\ small_val v /\ is_u32 seq.
Abbreviation serveridx := (global_server_logical_idx scfg).

(** The message is read as the population that was asked for. *)
Definition pops (msg : list Z) (pop : CachePop) : Prop :=
  (18 <= length msg <= buf_len)%nat /\ cp_key pop = k /\ pop_record pop = mkSnapshotRecord v seq stat /\ cp_serveridx pop = serveridx /\
  p_methodid (qs_base (cp_put pop)) = FARREACH_ID /\
  forall tl, run_reader (CachePop_parse CURMETHOD_ID (Z.of_nat (length msg))) (msg ++ tl) = Ok pop.

(** The worker asks for the population of a key that is not cached. *)
Lemma trigger_sends (t : @Thread DB Snap) : buffers_ok t -> m_sorted (cached_keyset (t_server t)) -> cached (t_server t) k = false ->
  exists t' msg pop, trigger_cachepop scfg k v seq stat t = Ok (tt, t') /\ t_sent t' = t_sent t ++ [(ToPopserver, msg)] /\
    cached (t_server t') k = true /\ pops msg pop.
Proof using Hcfg Hrec.
  intros Hb Hks Hc. destruct Hrec as (Hk & Hv & Hs). pose proof (small_size v Hv) as Hz. pose proof (co_idx scfg Hcfg) as Hi.
  pose proof buf_len_eq as Hm. unfold MAX_BUFSIZE in Hm.
  set (p := mkCachePop (set_qs_type CACHE_POP (PutRequestSeq_new (uninit scfg) FARREACH_ID k v seq)) stat serveridx).
  assert (Hnew : CachePop_new (uninit scfg) CURMETHOD_ID k v seq stat serveridx = Ok p).
  { unfold CachePop_new. rewrite (proj2 (Z.leb_le (val_length v) _)) by apply Hv.
    rewrite (proj2 (Z.leb_le 0 seq)) by apply Hs. now rewrite (proj2 (Z.leb_le 0 serveridx)) by apply Hi. }
  assert (Hval : qs_val (PutRequestSeq_new (uninit scfg) FARREACH_ID k v seq) = v) by apply Val_copy_wf, Hv.
  assert (Hpwf : pc_wf CachePop_class p).
  { split; [|split; [reflexivity|exact Hi]]. apply new_qs_wf; auto using farreach_id_valid; [apply Hcfg|].
    unfold is_u16, CACHE_POP. lia. }
  assert (Hsz : (18 <= pc_size CachePop_class p)%nat /\ Z.of_nat (pc_size CachePop_class p) <= 40960).
  { cbn [pc_size CachePop_class cp_put p]. unfold qs_prefix. cbn [qs_val set_qs_type]. rewrite Hval. cbn -[val_wire_size]. lia. }
  destruct (codec_run _ _ _ _ (t_buf t) (CachePop_ok p MAX_BUFSIZE Hpwf ltac:(unfold MAX_BUFSIZE; lia)))
    as (buf' & E & L & _ & R); [pose proof (bo_buf _ Hb); unfold MAX_BUFSIZE in *; lia|].
  set (msg := take (pc_size CachePop_class p) buf') in *.
  assert (Hml : length msg = pc_size CachePop_class p) by (unfold msg; rewrite length_take; pose proof (bo_buf _ Hb); unfold MAX_BUFSIZE in *; lia).
  eexists _, msg, (pc_wire CachePop_class p). split; [|split; [|split]].
  - assert (Ec : (keyset_is_exist k : sv bool) t = Ok (false, t)) by exact (f_equal (fun b => Ok (b, t)) Hc).
    unfold trigger_cachepop, mbind at 1, sv_bind at 1. rewrite Ec. unfold mbind, sv_bind, keyset_insert, modify_server, sv_lift.
    rewrite Hnew. unfold send_buf. cbn [t_buf pc_serialize CachePop_class] in E |- *. rewrite E. reflexivity.
  - cbn [t_sent]. now rewrite Nat2Z.id.
  - unfold cached. cbn [t_server set_keyset cached_keyset]. now rewrite m_find_insert_eq.
  - split; [lia|]. split; [reflexivity|]. split; [exact (f_equal (fun x => mkSnapshotRecord x seq stat) Hval)|]. split; [reflexivity|].
    split; [reflexivity|]. rewrite Hml. exact R.
Qed.

(** The controller and the switch OS read it, and acknowledge at once. *)
Lemma pop_relayed msg pop buf cost : pops msg pop -> length buf = buf_len ->
  (exists buf' cost', ct_popserver_step buf msg cost = Ok (buf', msg, fr_hdr CACHE_POP_ACK k, cost')) /\
  forall q b q', write (Some pop) q = Ok (b, q') ->
    exists buf', popserver_step buf msg q = Ok (buf', fr_hdr CACHE_POP_ACK k, q').
Proof using Hrec.
  intros (Hl & Hk & _ & _ & Hmt & HR) Hb. destruct (recv_fits buf msg ltac:(lia)) as [Hsz Hin].
  destruct (ack_written CACHE_POP_ACK k (recv_into buf msg)) as (buf' & Ea & Ht & _);
    [unfold is_u16, CACHE_POP_ACK; lia|apply Hrec|now rewrite length_recv_into|].
  split.
  - unfold ct_popserver_step. rewrite Hin, Hsz, HR. cbn [mbind res_bind]. unfold CachePop_bwcost. rewrite Hmt.
    change (get_ophdrsize FARREACH_ID) with (Ok 18). cbn [mbind res_bind]. rewrite Hk, <- Hin.
    change (CachePopAck_new CURMETHOD_ID k) with (Packet_new FARREACH_ID CACHE_POP_ACK k). rewrite Ea. cbn [mbind res_bind].
    rewrite Ht, Nat2Z.id, Hin, take_app_length. eexists _, _. reflexivity.
  - intros q b q' Hw. unfold popserver_step. rewrite Hin, Hsz, HR. cbn [mbind res_bind]. rewrite Hk, <- Hin.
    change (CachePopAck_new CURMETHOD_ID k) with (Packet_new FARREACH_ID CACHE_POP_ACK k). rewrite Ea. cbn [mbind res_bind].
    rewrite Hw. cbn [mbind res_bind]. rewrite Ht. eexists. reflexivity.
Qed.

End Population.

(** C12: a record a worker wants cached gets into the switch.  The worker sends one
    CACHE_POP; the controller passes it on unchanged and acknowledges, the popserver
    of the switch OS queues it and acknowledges, and the popworker, whatever noise
    comes before the answers, invalidates a free entry, sends the record, has the
    key added to the lookup table and only then validates the entry.  Afterwards
    the metadata has the key in that entry, with the server it belongs to. *)
Theorem population_reaches_switch {DB Snap M} `{Hkv : KVStore DB Snap} `{Hsm : SpecialMap M} (ocfg : OsConfig) (scfg : ServerConfig)
    (rand : nat -> Z) (key : Key) (v : Val) (seq : Z) (stat : bool) (cbuf sbuf : list Z) (cost n : Z) (t : @Thread DB Snap)
    (s : Os M) (p : Pipe) (ns0 ns1 ns2 : list event) (a0 a1 a2 more : list Z) (d0 d1 d2 : sockaddr_in) (R : list event) (P : list (list Z)) :
  let serveridx := global_server_logical_idx scfg in
  let ack := fr_hdr CACHE_POP_ACK key in
  let idx := cached_empty_index p in
  config_ok scfg -> buffers_ok t -> m_sorted (cached_keyset (t_server t)) -> cached (t_server t) key = false ->
  wire_record_wf (key, mkSnapshotRecord v seq stat) -> length cbuf = buf_len -> length sbuf = buf_len ->
  queue_empty (cache_pop_ptr_queue s) -> is_stop_cachepop (os_flags s) = false ->
  install_ok ocfg -> find_pipe ocfg serveridx = Ok n -> pipes s !! Z.to_nat n = Some p -> pipe_ok ocfg p -> idx < bucket_num ocfg ->
  Forall (stray SETVALID_INSWITCH_ACK key) ns0 -> ack_for SETVALID_INSWITCH_ACK key a0 ->
  installation key ns1 ns2 a1 a2 more -> bufs_ok (os_io s) ->
  reflector_sock (os_io s) = ns0 ++ Dgram a0 d0 :: ns1 ++ Dgram a1 d1 :: ns2 ++ Dgram a2 d2 :: R ->
  ptf_sock (os_io s) = (le_bytes 4 (u32 (SWITCHOS_ADD_CACHE_LOOKUP_ACK ocfg)) ++ more) :: P ->
  exists t' msg, trigger_cachepop scfg key v seq stat t = Ok (tt, t') /\ t_sent t' = t_sent t ++ [(ToPopserver, msg)] /\
    cached (t_server t') key = true /\
    (exists cbuf' cost', ct_popserver_step cbuf msg cost = Ok (cbuf', msg, ack, cost')) /\
    exists sbuf' q s' b, popserver_step sbuf msg (cache_pop_ptr_queue s) = Ok (sbuf', ack, q) /\
      popworker_step ocfg rand (set_queue q s) = Ok (tt, s') /\
      cached_keyidx_map s' = m_insert key idx (cached_keyidx_map s) /\
      pipes s' = <[Z.to_nat n := set_entry idx key serveridx (grow_pipe p)]> (pipes s) /\
      io_sent (os_io s') = io_sent (os_io s) ++ replicate (S (length ns0)) (ToReflector, setvalid_wire key idx 0) ++
        replicate (S (timeouts ns1)) (ToReflector, pop_wire key (mkSnapshotRecord v seq stat) idx ++ [b]) ++
        [(ToPtf, add_wire ocfg key idx)] ++ replicate (S (length ns2)) (ToReflector, setvalid_wire key idx 1).
Proof.
  intros serveridx ack idx Hcfg Ht Hks Hc Hr Hcb Hsb Hq Hstop Hio Hn Hp Hpo Hi N0 A0 Hin Hb HR HP.
  assert (Hrec : key_wf key /\ small_val v /\ is_u32 seq) by exact Hr.
  destruct (trigger_sends scfg Hcfg key v seq stat Hrec t Ht Hks Hc) as (t' & msg & pop & E1 & S1 & C1 & Hpop).
  exists t', msg. do 3 (split; [assumption|]). split; [apply (pop_relayed scfg key v seq stat Hrec msg pop cbuf cost Hpop Hcb)|].
  destruct (empty_write_read pop _ Hq) as (q1 & q2 & Ew & Er).
  destruct (proj2 (pop_relayed scfg key v seq stat Hrec msg pop sbuf 0 Hpop Hsb) _ _ _ Ew) as (sbuf' & E2).
  destruct Hpop as (_ & Hk & Hrd & Hsv & _ & _). rewrite <- Hk, <- Hrd in Hr. rewrite <- Hk in N0, A0, Hin.
  assert (Hn' : find_pipe ocfg (cp_serveridx pop) = Ok n) by now rewrite Hsv.
  destruct (populate_runs (M := M) ocfg rand pop (set_queue q2 (set_queue q1 s)) n p ns0 ns1 ns2 a0 a1 a2 more d0 d1 d2 R P
    Hio Hr Hn' Hp Hpo Hi N0 A0 Hin Hb HR HP) as (b & io & E3 & _ & _ & _ & S3). rewrite Hk in E3, S3.
  assert (E4 : exists f, popworker_step ocfg rand (set_queue q1 s) = Ok (tt, set_flags f (set_io io
    (set_meta (m_insert key idx (cached_keyidx_map s)) (<[Z.to_nat n := set_entry idx key serveridx (grow_pipe p)]> (pipes s))
       (set_queue q2 (set_queue q1 s)))))).
  { unfold popworker_step, mbind, os_bind, os_gets, os_lift, os_modify, mret, os_ret. cbn [os_flags set_queue cache_pop_ptr_queue].
    rewrite Hstop. cbn [andb negb cache_pop_ptr_queue set_queue]. rewrite Er. cbn [pipes cached_keyidx_map set_queue] in E3. rewrite Hsv in E3. rewrite E3.
    cbn [os_flags set_io set_meta set_queue]. destruct (_ && _); eexists; [reflexivity|].
    instantiate (1 := os_flags s). reflexivity. }
  destruct E4 as [f E4]. exists sbuf', q1. eexists. exists b. split; [exact E2|]. split; [exact E4|]. split; [reflexivity|]. split; [reflexivity|].
  cbn [os_io set_flags set_io]. rewrite S3. unfold installed. now rewrite Hk, Hrd.
Qed.

(** ** Commands that are sent again *)

Section Repeated.
Context {M : Type} `{Hsm : SpecialMap M}.
Context (ocfg : OsConfig) (sc : SnConfig).

(** A turn of a loop in which the snapshotserver waits, whatever the other threads
    have done in between. *)
Definition polled (s s' : SwitchSnapshot.Snap) : Prop :=
  exists o o' : Os M, snapshotserver_poll ocfg sc s o = Ok (s', o').

(** What the controller hears of the messages [snapshotserver] has sent. *)
Definition heard (src : sockaddr_in) (sent : list (SnDest * list Z)) : list event :=
  match flat_map (fun m => match m with (SnController, bytes) => [Dgram bytes src] | _ => [] end) sent with
  | [] => [Timeout]
  | answers => answers
  end.

(** [n] further copies of a command at the snapshotserver: the controller hears the
    answer to each, or runs into a timeout. *)
Fixpoint dialogue (src : sockaddr_in) (bytes : list Z) (n : nat) (s : SwitchSnapshot.Snap) (o : Os M)
    : res (list event * (SwitchSnapshot.Snap * Os M)) :=
  match n with
  | O => Ok ([], (s, o))
  | S n' =>
      match sn_pc s with
      | SnRecv =>
          '(s', o') ← snapshotserver_recv sc bytes s o;
          '(evs, final) ← dialogue src bytes n' s' o';
          Ok (heard src (drop (length (sn_sent s)) (sn_sent s')) ++ evs, final)
      | _ => Err Blocked
      end
  end.

(** The thread has handled the command [ct] with [id] last. *)
Definition handling (ct id : Z) (s : SwitchSnapshot.Snap) : Prop :=
  sn_control_type s = ct /\ sn_snapshotid s = id /\ length (sn_recvbuf s) = buf_len.

Lemma handling_same ct id s s' : same_command s s' -> handling ct id s -> handling ct id s'.
Proof. intros (E1 & E2 & E3) (H1 & H2 & H3). repeat split; congruence. Qed.

Lemma stable_same s s' : stable s s' -> same_command s s'.
Proof. now intros (_ & _ & _ & H). Qed.

Lemma signal_read ct id s : is_s32 ct -> is_s32 id -> length (sn_recvbuf s) = buf_len ->
  run_reader (SnapshotSignal_deserialize (recv_size (sn_recvbuf s) (signal_wire ct id))) (recv_into (sn_recvbuf s) (signal_wire ct id))
    = Ok (mkSnapshotSignal ct id).
Proof.
  intros Hct Hid Hb. pose proof buf_len_eq as Hm. unfold MAX_BUFSIZE in Hm. pose proof (length_signal_wire ct id) as Hl.
  destruct (recv_fits (sn_recvbuf s) (signal_wire ct id) ltac:(lia)) as [-> ->].
  exact (reads_run _ _ _ _ (signal_reads ct id (Z.of_nat (length (signal_wire ct id))) Hct Hid ltac:(lia))).
Qed.

(** The first copy leaves the thread with this command. *)
Lemma recv_handling ct id s o s' o' : is_s32 ct -> is_s32 id -> ct <> SNAPSHOT_CLEANUP sc -> length (sn_recvbuf s) = buf_len ->
  snapshotserver_recv sc (signal_wire ct id) s o = Ok (s', o') -> handling ct id s'.
Proof.
  intros Hct Hid Hne Hb. unfold snapshotserver_recv. cbn [sn_recvbuf set_recvbuf]. rewrite (signal_read ct id s Hct Hid Hb). cbn [mbind res_bind].
  cbn [sn_control_type sn_snapshotid set_recvbuf sig_control_type sig_snapshotid].
  destruct (_ && _ && _) eqn:Ed.
  { intros [= <- <-]. apply andb_true_iff in Ed as [[_ E1%Z.eqb_eq]%andb_true_iff E2%Z.eqb_eq]. repeat split; [exact E1|exact E2|]. cbn [sn_recvbuf set_recvbuf]. now rewrite length_recv_into. }
  set (s1 := set_signal _ _). assert (H1 : handling ct id s1) by (repeat split; cbn [s1 set_signal sn_recvbuf set_recvbuf]; now rewrite length_recv_into). clearbody s1.
  destruct H1 as (Ec & H1). rewrite Ec, (proj2 (Z.eqb_neq ct _) Hne). assert (H2 : handling ct id s1) by now split. clear Ec H1.
  repeat match goal with |- (if ?c then _ else _) = _ -> _ => destruct c end; try discriminate.
  - unfold handle_prepare. intros (s2 & H & [= <- <-])%bind_Ok. apply bind_Ok in H as ([u s3] & E3%stable_ptf & H).
    apply bind_Ok in H as ([u2 s4] & E4%stable_reply & [= <-]). eauto using handling_same, stable_same.
  - unfold handle_setflag. intros (s2 & H & [= <- <-])%bind_Ok. apply bind_Ok in H as ([u s3] & E3%stable_ptf & H).
    apply bind_Ok in H as ([u2 s4] & E4%stable_reply & [= <-]). eauto using handling_same, stable_same.
  - unfold handle_start. intros ([u s2] & E2%stable_ptf & H)%bind_Ok. cbv zeta in H. match type of H with (if ?c then _ else _) = _ => destruct c end; [|discriminate H].
    apply bind_Ok in H as ([d s3] & E3%stable_load_pipes & H). apply bind_Ok in H as ([u2 s4] & E4%stable_reply & [= <- <-]).
    apply (handling_same _ _ _ _ (stable_same _ _ E4)). change (handling ct id s3). eauto using handling_same, stable_same.
  - unfold handle_getdata. intros ([u s2] & E2%stable_ptf & H)%bind_Ok. cbv zeta in H. match type of H with (if ?c then _ else _) = _ => destruct c end; [|discriminate H]. injection H as <- <-.
    change (handling ct id s2). eauto using handling_same, stable_same.
Qed.

Lemma polled_handling ct id s s' : polled s s' -> handling ct id s -> handling ct id s'.
Proof.
  intros (o & o' & H) Hs. unfold snapshotserver_poll in H. destruct (sn_pc s).
  - now injection H as <- <-.
  - destruct (_ && _); [|now injection H as <- <-]. unfold cleanup_init in H. apply bind_Ok in H as ([] & _ & H). now apply bind_Ok in H as ([] & _ & [= <- <-]).
  - destruct (popworker_know_stop_cachepop _); [|now injection H as <- <-]. apply bind_Ok in H as ([u s1] & E%stable_reply & [= <- <-]).
    change (handling ct id s1). eauto using handling_same, stable_same.
  - destruct (_ && _); [|now injection H as <- <-]. apply bind_Ok in H as (d & _ & H). apply bind_Ok in H as ([u s1] & E%stable_getdata & [= <- <-]).
    change (handling ct id s1). apply (handling_same _ _ _ _ (stable_same _ _ E)). exact Hs.
Qed.

(** Copies of the command handled last are dropped. *)
Lemma dialogue_dropped src ct id n : forall s o, is_s32 ct -> is_s32 id -> ct <> SNAPSHOT_CLEANUP sc -> handling ct id s -> sn_pc s = SnRecv ->
  exists s', dialogue src (signal_wire ct id) n s o = Ok (replicate n Timeout, (s', o)) /\
    sn_sent s' = sn_sent s /\ sn_data s' = sn_data s /\ sn_pc s' = SnRecv.
Proof.
  induction n as [|n IH]; intros s o Hct Hid Hne Hs Epc; [now exists s|]. cbn [dialogue replicate]. rewrite Epc. destruct Hs as (E1 & E2 & Hb).
  assert (E : snapshotserver_recv sc (signal_wire ct id) s o = Ok (set_recvbuf (recv_into (sn_recvbuf s) (signal_wire ct id)) s, o)).
  { unfold snapshotserver_recv. cbn [sn_recvbuf set_recvbuf]. rewrite (signal_read ct id s Hct Hid Hb). cbn [mbind res_bind].
    cbn [sn_control_type sn_snapshotid set_recvbuf sig_control_type sig_snapshotid].
    now rewrite E1, E2, (proj2 (Z.eqb_neq ct _) Hne), !Z.eqb_refl. }
  rewrite E. cbn [mbind res_bind].
  destruct (IH (set_recvbuf (recv_into (sn_recvbuf s) (signal_wire ct id)) s) o Hct Hid Hne) as (s' & E' & Hsent & Hd & Hpc);
    [repeat split; [exact E1|exact E2|cbn [sn_recvbuf set_recvbuf]; now rewrite length_recv_into]|exact Epc|].
  exists s'. rewrite E'. cbn [mbind res_bind sn_sent set_recvbuf]. rewrite drop_all. now split.
Qed.
End Repeated.

Lemma command_timeouts cc dst bytes ack n : command cc dst bytes ack (replicate n Timeout) = Err Blocked.
Proof. induction n as [|n IH]; [reflexivity|]. cbn [replicate command]. now rewrite IH. Qed.

Lemma getdata_timeouts cc bytes n : forall fuel c, array_ok (databuf c) -> switchos_sock c = replicate n Timeout -> (n < fuel)%nat ->
  getdata_loop cc fuel bytes c = Err Blocked.
Proof.
  induction n as [|n IH]; intros [|fuel] c Hd Hs Hf; try lia; cbn [getdata_loop replicate] in *;
    destruct (array_clear _ Hd) as (cl & Ec & Hok & _); cbn [databuf add_cost ct_send]; rewrite Ec; cbn [mbind res_bind switchos_sock add_cost ct_send]; rewrite Hs.
  - reflexivity.
  - destruct (array_clear _ Hok) as (cl2 & Ec2 & Hok2 & _).
    assert (Eu : forall evs, udprecvlarge_udpfrag CURMETHOD_ID (ct_stale cc) cl (Timeout :: evs) = Ok (mkReceived true cl2 None None evs)).
    { intros evs. unfold udprecvlarge_udpfrag, udprecvlarge. cbn [recv_loop mbind res_bind]. unfold after_loop, recv_start. cbn [rv_ring rv_buf mbind res_bind].
      rewrite Ec2. reflexivity. }
    rewrite Eu. cbn [mbind res_bind rc_timeout rc_rest rc_buf]. apply IH; [exact Hok2|reflexivity|lia].
Qed.

(** C40: a lost answer to PREPARE, SETFLAG, START or GETDATA is never sent again.  Let
    the snapshotserver of the switch OS handle the first copy of the command and come
    back to its receive, its answer lost.  To any number [n] of further copies it then
    sends nothing and changes nothing but its receive buffer; so the controller runs
    into a timeout each time, and the loop in which it sends copies of the command
    (that of GETDATA or the one of the other commands) is not left, for any [n].  Copies
    of CLEANUP are handled and answered again. *)
Theorem lost_answer_stalls {M} `{Hsm : SpecialMap M} (ocfg : OsConfig) (sc : SnConfig) (cc : CtConfig) (src : sockaddr_in) (ct id ack : Z)
    (s0 s1 s : SwitchSnapshot.Snap) (o0 o1 o : Os M) (n : nat) :
  is_s32 ct -> is_s32 id -> ct <> SNAPSHOT_CLEANUP sc -> length (sn_recvbuf s0) = buf_len ->
  snapshotserver_recv sc (signal_wire ct id) s0 o0 = Ok (s1, o1) -> rtc (polled (M := M) ocfg sc) s1 s -> sn_pc s = SnRecv ->
  exists s' evs, dialogue sc src (signal_wire ct id) n s o = Ok (evs, (s', o)) /\
    sn_sent s' = sn_sent s /\ sn_data s' = sn_data s /\ sn_pc s' = SnRecv /\
    command cc CtSwitchos (signal_wire ct id) ack (Timeout :: evs) = Err Blocked /\
    forall c fuel, array_ok (databuf c) -> switchos_sock c = Timeout :: evs -> (S (length evs) < fuel)%nat ->
      getdata_loop cc fuel (signal_wire ct id) c = Err Blocked.
Proof.
  intros Hct Hid Hne Hb Hrecv Hpoll Epc. pose proof (recv_handling sc ct id s0 o0 s1 o1 Hct Hid Hne Hb Hrecv) as H1.
  assert (Hs : handling ct id s) by (clear Hrecv Epc; induction Hpoll; eauto using polled_handling).
  destruct (dialogue_dropped sc src ct id n s o Hct Hid Hne Hs Epc) as (s' & E & E1 & E2 & E3).
  exists s', (replicate n Timeout). do 4 (split; [assumption|]). split; [exact (command_timeouts cc _ _ ack (S n))|].
  intros c fuel Hc Es Hf. rewrite length_replicate in Hf. exact (getdata_timeouts cc _ (S n) fuel c Hc Es Hf).
Qed.

(** ** Concrete runs *)

Definition demo_evicted : SnapshotRecord := mkSnapshotRecord (val_of 8) 20 true.
Definition demo_evict_os (tc : nat) : Os case_map :=
  mkOs (mq_init 4) [(key_of 1, 0)] [demo_half_pipe] [] [0; 0] (mkFlags false false false false false false)
    (demo_bufs [] (replicate tc Timeout ++ [Dgram (fr_hdr CACHE_EVICT_ACK (key_of 1)) sockaddr_zero]) []).

Lemma demo_known : known_server demo_os_config 0.
Proof. split; cbn; lia. Qed.

Lemma demo_evicted_wf : wire_record_wf (key_of 1, demo_evicted).
Proof. split; [exact demo_key_wf|]. split; [split; [exact demo_val_of_wf|cbn; unfold SWITCH_MAX_VALLEN; lia]|unfold is_u32; cbn; lia]. Qed.


Lemma demo_eviction_wf : eviction_wf (key_of 1) demo_evicted 0.
Proof. split; [exact demo_evicted_wf|unfold is_u16; lia]. Qed.

Lemma eviction_retry_aborts_witness :
  let msg := evict_wire CACHE_EVICT (key_of 1) demo_evicted 0 in
  let buf := recv_into (replicate buf_len 0) msg in
  let n := recv_size (replicate buf_len 0) msg in
  exists t', evictserver_step demo_cfg buf n evict_thread = Ok (tt, t') /\ evictserver_step demo_cfg buf n t' = Err ExitCalled.
Proof.
  intros msg buf n. pose proof (evict_received false (key_of 1) demo_evicted 0 demo_eviction_wf (replicate buf_len 0) (length_replicate _ _)) as He.
  destruct (evictserver_run demo_cfg demo_cfg_ok evict_thread buf n false _ (proj1 evict_thread_ok) (proj2 evict_thread_ok) He eq_refl eq_refl)
    as (t' & _ & E & _).
  - split; [exact demo_key_wf|]. split; [unfold is_u32; cbn; lia|exact demo_val_of_wf].
  - discriminate.
  - exists t'. split; [exact E|].
    refine (proj2 (proj2 (eviction_retry_aborts (M := case_map) demo_os_config demo_cfg false (key_of 1) demo_evicted (replicate buf_len 0)
      (replicate buf_len 0) 0 sockaddr_zero [] [] (demo_evict_os 1) evict_thread t' _ _ _ _ _ _ _ _ _))).
    + unfold is_u16. cbn. lia.
    + unfold is_u16. cbn. lia.
    + exact demo_known.
    + exact demo_evicted_wf.
    + apply length_replicate.
    + apply demo_bufs_ok.
    + reflexivity.
    + apply evict_thread_ok.
    + exact E.
Defined.

(** The switch OS before PREPARE of snapshot 5; ptf answers its command. *)
Definition demo_before_prepare : SwitchSnapshot.Snap :=
  mkSnap SnRecv false 1 5 [None] (replicate buf_len 0) (replicate 64 0) (replicate 64 0) [] demo_large_array [le_bytes 4 34] [] [].

Lemma demo_prepare_run :
  match snapshotserver_recv demo_sn_config (signal_wire 3 5) demo_before_prepare (demo_evict_os 0) with
  | Ok (s, _) => sn_pc s = SnRecv
  | Err _ => False
  end.
Proof. vm_compute. reflexivity. Qed.

Lemma lost_answer_stalls_witness :
  exists s1 o1, snapshotserver_recv demo_sn_config (signal_wire 3 5) demo_before_prepare (demo_evict_os 0) = Ok (s1, o1) /\
  exists s' evs, dialogue demo_sn_config sockaddr_zero (signal_wire 3 5) 9 s1 o1 = Ok (evs, (s', o1)) /\ sn_sent s' = sn_sent s1 /\
    command demo_ct_config CtSwitchos (signal_wire 3 5) 4 (Timeout :: evs) = Err Blocked.
Proof.
  pose proof demo_prepare_run as Hp.
  destruct (snapshotserver_recv demo_sn_config (signal_wire 3 5) demo_before_prepare (demo_evict_os 0)) as [[s1 o1]|e] eqn:E; [|contradiction].
  exists s1, o1. split; [reflexivity|].
  destruct (lost_answer_stalls (M := case_map) demo_os_config demo_sn_config demo_ct_config sockaddr_zero 3 5 4 demo_before_prepare s1 s1
    (demo_evict_os 0) o1 o1 9) as (s' & evs & E1 & E2 & _ & _ & E3 & _).
  - unfold is_s32. lia.
  - unfold is_s32. lia.
  - discriminate.
  - apply length_replicate.
  - exact E.
  - apply rtc_refl.
  - exact Hp.
  - exists s', evs. auto.
Defined.

Lemma population_reaches_switch_witness :
  exists t' msg sbuf' q s', trigger_cachepop demo_cfg (key_of 2) demo_val 7 true evict_thread = Ok (tt, t') /\
    t_sent t' = [(ToPopserver, msg)] /\
    popserver_step (replicate buf_len 0) msg (cache_pop_ptr_queue (@demo_free_os case_map)) = Ok (sbuf', fr_hdr CACHE_POP_ACK (key_of 2), q) /\
    popworker_step demo_os_config (fun _ => 0) (set_queue q (@demo_free_os case_map)) = Ok (tt, s') /\
    cached_keyidx_map s' = [(key_of 1, 0); (key_of 2, 1)] /\ pipes s' = [mkPipe [key_of 1; key_of 2] [1; 0] 2].
Proof.
  destruct (population_reaches_switch (M := case_map) demo_os_config demo_cfg (fun _ => 0) (key_of 2) demo_val 7 true
    (replicate buf_len 0) (replicate buf_len 0) 0 0 evict_thread demo_free_os demo_half_pipe
    (demo_noise SETVALID_INSWITCH_ACK) (demo_noise CACHE_POP_INSWITCH_ACK) (demo_noise SETVALID_INSWITCH_ACK)
    (demo_ack SETVALID_INSWITCH_ACK 2) (demo_ack CACHE_POP_INSWITCH_ACK 2) (demo_ack SETVALID_INSWITCH_ACK 2) []
    sockaddr_zero sockaddr_zero sockaddr_zero [] [])
    as (t' & msg & E1 & S1 & _ & _ & sbuf' & q & s' & b & E2 & E3 & M1 & M2 & _).
  - exact demo_cfg_ok.
  - apply evict_thread_ok.
  - apply evict_thread_ok.
  - reflexivity.
  - exact (demo_pop_wf 2 0 ltac:(unfold is_u32; lia)).
  - apply length_replicate.
  - apply length_replicate.
  - split; cbn; [lia|reflexivity|lia|reflexivity|reflexivity].
  - reflexivity.
  - exact demo_install_ok.
  - reflexivity.
  - reflexivity.
  - split; [reflexivity..|unfold bucket_num; cbn; lia].
  - reflexivity.
  - apply (demo_stray SETVALID_INSWITCH_ACK 2); [unfold is_u16, SETVALID_INSWITCH_ACK; lia|discriminate].
  - apply (demo_ack_for SETVALID_INSWITCH_ACK 2).
  - apply (demo_installation 2). discriminate.
  - apply demo_bufs_ok.
  - reflexivity.
  - reflexivity.
  - exists t', msg, sbuf', q, s'. split; [exact E1|]. split; [exact S1|]. split; [exact E2|]. split; [exact E3|]. split; [exact M1|exact M2].
Defined.
