(* ===== verification/ServerRecover.v ===== *)
(** * Servers: recovery from the upstream backups and the snapshot

    [recover] of farreach/server.c reads the backups the clients have kept
    ([deserialize_perclient_upstream_backup_files] of
    farreach/outband_packet_format.c) and the last snapshot of the controller, and
    collects for every logical server of this machine the records it owns;
    [run_server_recover] (file Recover) replays them.  [server_recovers] says which
    version every key has afterwards. *)

From Stdlib Require Import ZArith Lia List String.
From stdpp Require Import base tactics list numbers option.
From S2P Require Import Prelude Cursor DynamicArray StdMap Crc32 Key Val DeletedSet KVStore RocksdbWrapper RocksdbProps Recover Packet PacketCodec PacketScan Outband RecvProps SwitchOS SwitchMeta SwitchSnapshot SwitchLoad Controller SwitchRecover.

Open Scope Z_scope.
Set Default Proof Using "Type".

(** ** Backup files of the clients *)

Abbreviation backup := (list (Key * SnapshotRecord)).

Fixpoint read_backups (n : nat) (maxsize : Z) : reader backup :=
  match n with
  | O => mret []
  | S n' =>
      rem ← r_rem maxsize;
      tmpkey ← Key_deserialize rem;
      rem ← r_rem maxsize;
      tmpval ← Val_deserialize rem;
      tmpseq ← r_u32be;
      tmpstat ← r_get 1;
      rest ← read_backups n' maxsize;
      mret ((tmpkey, mkSnapshotRecord tmpval tmpseq (if le_val tmpstat =? 1 then true else false)) :: rest)
  end.

Definition deserialize_upstream_backup_content (maxsize : Z) : reader backup :=
  tmpnum ← r_u32be;
  read_backups (Z.to_nat (s32 tmpnum)) maxsize.

Definition strstr (haystack needle : string) : option nat := String.index 0 needle haystack.

(** The files that are read: static or dynamic backups. *)
Definition is_backup_file (d_name : string) : bool :=
  match strstr d_name "static", strstr d_name "dynamic" with
  | None, None => false
  | _, _ => true
  end.

(** The loop over [readdir]: the entries of the directory in the order it has them. *)
Fixpoint load_backup_files (entries : list (string * list Z)) : res (list backup) :=
  match entries with
  | [] => Ok []
  | (d_name, tmpcontent) :: entries' =>
      if negb (is_backup_file d_name) then load_backup_files entries'
      else
        let tmpfilesize := u32 (Z.of_nat (List.length tmpcontent)) in
        _ ← INVARIANT (0 <? tmpfilesize);
        b ← run_reader (deserialize_upstream_backup_content (s32 tmpfilesize)) tmpcontent;
        bs ← load_backup_files entries';
        Ok (b :: bs)
  end.

(** [deserialize_perclient_upstream_backup_files]; [None] is a directory that is not there. *)
Definition deserialize_perclient_upstream_backup_files (dir : option (list (string * list Z))) : res (list backup) :=
  match dir with
  | None => Err ExitCalled
  | Some entries => load_backup_files entries
  end.

(** ** [recover] of server.c *)

Section ServerRecover.
Context (cfg : OsConfig) (sc : SnConfig).

(** The loop over [k] that sets [tmplistidx]. *)
Fixpoint find_listidx (k tmpserveridx : Z) (idxes : list Z) : Z :=
  match idxes with
  | [] => -1
  | idx :: idxes' => if tmpserveridx =? idx then k else find_listidx (k + 1) tmpserveridx idxes'
  end.

(** The body of both aggregation loops. *)
Definition aggregate_record (idxes : list Z) (x : Key * SnapshotRecord) (maps : list backup) : res (list backup) :=
  let '(tmpkey, tmprecord) := x in
  tmpserveridx ← get_hashpartition_idx tmpkey (switch_partition_count cfg) (max_server_total_logical_num cfg);
  let tmplistidx := find_listidx 0 tmpserveridx idxes in
  if 0 <=? tmplistidx then
    tmpmap ← arr_get maps tmplistidx;
    Ok (<[Z.to_nat tmplistidx := m_insert tmpkey tmprecord tmpmap]> maps)
  else Ok maps.

Fixpoint aggregate_records (idxes : list Z) (rs : backup) (maps : list backup) : res (list backup) :=
  match rs with
  | [] => Ok maps
  | x :: rs' => maps ← aggregate_record idxes x maps; aggregate_records idxes rs' maps
  end.

Fixpoint aggregate (idxes : list Z) (rss : list backup) (maps : list backup) : res (list backup) :=
  match rss with
  | [] => Ok maps
  | rs :: rss' => maps ← aggregate_records idxes rs maps; aggregate idxes rss' maps
  end.

(** [load_snapshotid]: a file that is too short leaves the variable indeterminate. *)
Definition load_controller_snapshotid (content : list Z) : res Z :=
  if (List.length content <? 4)%nat then Err OutOfBounds else Ok (s32 (le_val (take 4 content))).

(** [recover]: the result is [server_aggregated_backupmap_list]. *)
Definition server_recover (server_physical_idx : Z) (dir : option (list (string * list Z))) (disk : CtDisk)
    : res (list backup) :=
  perclient ← deserialize_perclient_upstream_backup_files dir;
  idxes ← arr_get (server_logical_idxes_list cfg) server_physical_idx;
  maps ← aggregate idxes perclient (replicate (List.length idxes) []);
  match disk ct_snapshotid_path with
  | None => Err ExitCalled
  | Some idcontent =>
      controller_snapshotid ← load_controller_snapshotid idcontent;
      match disk (ct_snapshotdata_path controller_snapshotid) with
      | None => Err ExitCalled
      | Some content =>
          let filesize := u32 (Z.of_nat (List.length content)) in
          _ ← INVARIANT (0 <? filesize);
          servers ← run_reader (deserialize_snapshot_getdata_ack (SNAPSHOT_GETDATA_ACK sc) (s32 filesize)) content;
          aggregate idxes (map sv_records servers) maps
      end
  end.

End ServerRecover.

(** ** Backup files *)

(** The bytes of a backup, as the clients write it. *)
Definition backup_wire (x : Key * SnapshotRecord) : list Z :=
  key_wire x.1 ++ val_wire (sr_val x.2) ++ be 4 (sr_seq x.2) ++ [bool_byte (sr_stat x.2)].
Definition backup_file (rs : backup) : list Z := be 4 (Z.of_nat (List.length rs)) ++ flat_map backup_wire rs.

Lemma length_backup_wire x : List.length (backup_wire x) = (16 + (val_wire_size (sr_val x.2) + (4 + 1)))%nat.
Proof. unfold backup_wire. now rewrite !length_app, length_key_wire, length_val_wire, length_be. Qed.

Lemma length_backups_ge rs : (List.length rs <= List.length (flat_map backup_wire rs))%nat.
Proof. induction rs as [|x rs IH]; cbn [flat_map List.length]; [lia|]. rewrite length_app, length_backup_wire. lia. Qed.

Lemma read_backups_reads rs : forall size pos,
  Forall wire_record_wf rs -> 0 <= pos -> pos + Z.of_nat (List.length (flat_map backup_wire rs)) <= size < 2 ^ 32 ->
  reads (read_backups (List.length rs) size) pos (flat_map backup_wire rs) rs.
Proof.
  induction rs as [|[k [v q st]] rs IH]; intros size pos Hf Hp Hs; [apply reads_ret|].
  apply Forall_cons_iff in Hf as [(Hk & (Hv & Hl) & Hq) Hf].
  cbn [read_backups List.length flat_map fst snd sr_val sr_seq sr_stat] in *.
  unfold SWITCH_MAX_VALLEN in *. rewrite length_app, length_backup_wire in Hs.
  unfold backup_wire; cbn [fst snd sr_val sr_seq sr_stat] in *.
  rewrite <- !app_assoc. rewrite <- (app_nil_r (flat_map _ _)). rd.
  eapply reads_bind; [now apply (reads_get 1 _ [bool_byte st])|]. cbn [List.length].
  eapply reads_bind; [apply IH; [exact Hf|lia..]|]. apply reads_ret_eq. now destruct st.
Qed.

Lemma backup_file_run rs : Forall wire_record_wf rs -> Z.of_nat (List.length (backup_file rs)) < 2 ^ 31 ->
  run_reader (deserialize_upstream_backup_content (Z.of_nat (List.length (backup_file rs)))) (backup_file rs) = Ok rs.
Proof.
  intros Hf Hl. pose proof (length_backups_ge rs) as Hge. unfold backup_file in *. rewrite length_app, length_be in *.
  rewrite <- (app_nil_r (be 4 _ ++ _)). apply reads_run. unfold deserialize_upstream_backup_content.
  eapply reads_bind; [apply reads_u32be; unfold is_u32; lia|]. rd_len. rewrite s32_id, Nat2Z.id by (unfold is_s32; lia).
  apply read_backups_reads; [exact Hf|lia..].
Qed.

(** The directory holds the backups of [clients], in this order, and other files. *)
Definition holds (entries : list (string * list Z)) (clients : list backup) : Prop :=
  map snd (List.filter (fun e => is_backup_file e.1) entries) = map backup_file clients.

Lemma load_backup_files_run entries : forall clients,
  holds entries clients -> Forall (Forall wire_record_wf) clients ->
  Forall (fun rs => Z.of_nat (List.length (backup_file rs)) < 2 ^ 31) clients ->
  load_backup_files entries = Ok clients.
Proof.
  unfold holds. induction entries as [|[name content] entries IH]; intros clients Hh Hf Hl; cbn [List.filter map fst load_backup_files] in *.
  - now destruct clients.
  - destruct (is_backup_file name); cbn [negb map snd] in *; [|auto].
    destruct clients as [|rs clients]; [discriminate|]. injection Hh as -> Hh.
    apply List.Forall_cons_iff in Hf as [Hr Hf], Hl as [Hs Hl].
    assert (0 < Z.of_nat (List.length (backup_file rs))) by (unfold backup_file; rewrite length_app, length_be; lia).
    rewrite u32_id by (unfold is_u32; lia). rewrite INVARIANT_true by lia. rewrite s32_id by (unfold is_s32; lia).
    cbn [mbind res_bind]. rewrite (backup_file_run rs Hr Hs). cbn [mbind res_bind]. now rewrite (IH clients Hh Hf Hl).
Qed.

(** ** Aggregation *)

(** The record the aggregation keeps of a key: the first one. *)
Fixpoint first_record (k : Key) (rs : backup) : option SnapshotRecord :=
  match rs with
  | [] => None
  | (k', r) :: rs' => if decide (k' = k) then Some r else first_record k rs'
  end.

Lemma first_record_In k r rs : first_record k rs = Some r -> In (k, r) rs.
Proof.
  induction rs as [|[k' r'] rs IH]; cbn [first_record]; [discriminate|].
  case_decide as E; [intros [= ->]; subst; now left|right; auto].
Qed.

Lemma find_inserts rs : forall (m : backup) k,
  m_find k (fold_left (fun m x => m_insert x.1 x.2 m) rs m) =
  match m_find k m with Some r => Some r | None => first_record k rs end.
Proof.
  induction rs as [|[k' r] rs IH]; intros m k; cbn [fold_left first_record fst snd]; [now destruct (m_find k m)|].
  rewrite IH. case_decide as E; [subst k'; rewrite m_find_insert_eq; now destruct (m_find k m)|].
  now rewrite m_find_insert_ne.
Qed.

Lemma length_inserts rs : forall m : backup,
  (List.length (fold_left (fun m x => m_insert x.1 x.2 m) rs m) <= List.length m + List.length rs)%nat.
Proof.
  induction rs as [|[k r] rs IH]; intros m; cbn [fold_left List.length fst snd]; [lia|].
  etransitivity; [apply IH|]. rewrite m_insert_length. destruct (m_find k m); lia.
Qed.

Section Aggregate.
Context (cfg : OsConfig).

Definition owner (k : Key) : res Z :=
  get_hashpartition_idx k (switch_partition_count cfg) (max_server_total_logical_num cfg).
Definition owned (sv : Z) (x : Key * SnapshotRecord) : bool :=
  match owner x.1 with Ok idx => idx =? sv | Err _ => false end.

(** No partition index fails its assertion. *)
Definition partitioned (rs : backup) : Prop := Forall (fun x => exists idx, owner x.1 = Ok idx) rs.

Lemma find_listidx_spec sv idxes : forall k, 0 <= k ->
  (find_listidx k sv idxes = -1 /\ ~ In sv idxes) \/
  exists i, find_listidx k sv idxes = k + Z.of_nat i /\ idxes !! i = Some sv.
Proof.
  induction idxes as [|idx idxes IH]; intros k Hk; cbn [find_listidx]; [left; auto|].
  destruct (Z.eqb_spec sv idx) as [->|Hne]; [right; exists O; split; [lia|reflexivity]|].
  destruct (IH (k + 1)) as [[E Hn]|(i & E & Hi)]; [lia|left|right].
  - split; [exact E|]. intros [H|H]; [congruence|auto].
  - exists (S i). split; [lia|exact Hi].
Qed.

(** What the lists of a machine's logical servers are after [rs]. *)
Definition collected (idxes : list Z) (rs : backup) (maps maps' : list backup) : Prop :=
  List.length maps' = List.length maps /\
  forall i sv m, idxes !! i = Some sv -> maps !! i = Some m ->
    maps' !! i = Some (fold_left (fun m x => m_insert x.1 x.2 m) (List.filter (owned sv) rs) m).

Lemma collected_nil idxes maps : collected idxes [] maps maps.
Proof. now split. Qed.

Lemma collected_app idxes rs1 rs2 maps maps1 maps2 :
  collected idxes rs1 maps maps1 -> collected idxes rs2 maps1 maps2 -> collected idxes (rs1 ++ rs2) maps maps2.
Proof.
  intros [L1 H1] [L2 H2]. split; [congruence|]. intros i sv m Hi Hm.
  rewrite List.filter_app, fold_left_app. eauto.
Qed.

Lemma aggregate_record_run idxes x maps :
  NoDup idxes -> List.length maps = List.length idxes -> partitioned [x] ->
  exists maps', aggregate_record cfg idxes x maps = Ok maps' /\ collected idxes [x] maps maps'.
Proof.
  intros Hnd Hl Hp. apply List.Forall_cons_iff in Hp as [[idx Ho] _]. destruct x as [k r]. cbn [fst] in Ho.
  unfold aggregate_record, collected, owned. fold (owner k). cbn [List.filter fst]. rewrite Ho. cbn [mbind res_bind].
  destruct (find_listidx_spec idx idxes 0) as [[-> Hn]|(i & -> & Hi)]; [lia| |].
  - exists maps. split; [reflexivity|]. split; [reflexivity|]. intros j sv m Hj Hm. destruct (Z.eqb_spec idx sv) as [->|]; [|exact Hm].
    destruct Hn. apply list_elem_of_In. eauto using list_elem_of_lookup_2.
  - rewrite (proj2 (Z.leb_le 0 (0 + Z.of_nat i))) by lia. rewrite Z.add_0_l.
    assert (Hlt : (i < List.length maps)%nat) by (rewrite Hl; eauto using lookup_lt_Some).
    destruct (lookup_lt_is_Some_2 maps i Hlt) as [m0 Hm0].
    rewrite (proj2 (arr_get_Ok maps (Z.of_nat i) m0)) by (now rewrite Nat2Z.id).
    cbn [mbind res_bind]. rewrite Nat2Z.id. eexists. split; [reflexivity|]. split; [apply length_insert|].
    intros j sv m Hj Hm. destruct (decide (i = j)) as [<-|Hne].
    + rewrite list_lookup_insert_eq by exact Hlt. assert (sv = idx) as -> by congruence. rewrite Z.eqb_refl. now assert (m = m0) as -> by congruence.
    + rewrite list_lookup_insert_ne by exact Hne. destruct (Z.eqb_spec idx sv) as [->|]; [|exact Hm].
      destruct Hne. eapply NoDup_lookup; eassumption.
Qed.

Lemma aggregate_records_run idxes rs : forall maps,
  NoDup idxes -> List.length maps = List.length idxes -> partitioned rs ->
  exists maps', aggregate_records cfg idxes rs maps = Ok maps' /\ collected idxes rs maps maps'.
Proof.
  induction rs as [|x rs IH]; intros maps Hnd Hl Hp; cbn [aggregate_records]; [eauto using collected_nil|].
  apply List.Forall_cons_iff in Hp as [Hx Hp].
  destruct (aggregate_record_run idxes x maps Hnd Hl) as (m1 & E1 & C1); [repeat constructor; exact Hx|].
  destruct (IH m1 Hnd) as (m2 & E2 & C2); [destruct C1; congruence|exact Hp|].
  rewrite E1. cbn [mbind res_bind]. exists m2. split; [exact E2|]. exact (collected_app _ [x] _ _ _ _ C1 C2).
Qed.

Lemma aggregate_run idxes rss : forall maps,
  NoDup idxes -> List.length maps = List.length idxes -> partitioned (concat rss) ->
  exists maps', aggregate cfg idxes rss maps = Ok maps' /\ collected idxes (concat rss) maps maps'.
Proof.
  induction rss as [|rs rss IH]; intros maps Hnd Hl Hp; cbn [aggregate concat] in *; [eauto using collected_nil|].
  apply Forall_app in Hp as [Hx Hp].
  destruct (aggregate_records_run idxes rs maps Hnd Hl Hx) as (m1 & E1 & C1).
  destruct (IH m1 Hnd) as (m2 & E2 & C2); [destruct C1; congruence|exact Hp|].
  rewrite E1. cbn [mbind res_bind]. exists m2. split; [exact E2|]. exact (collected_app _ _ _ _ _ _ C1 C2).
Qed.

End Aggregate.

(** ** Recovery *)

Section Recovered.
Context {DB Snap : Type} `{Hkv : KVStore DB Snap}.
Context {Hlaws : KVStoreLaws DB Snap} {Havail : KVStoreAvailable DB Snap}.

(** The records of a server can be replayed: no two keys are deleted with one
    sequence number, and the deleted set has room. *)
Record replayable (ds : DeletedSet) (rs : backup) : Prop := {
  rp_unique : forall k r k' r', In (k, r) rs -> In (k', r') rs ->
    sr_stat r = false -> sr_stat r' = false -> sr_seq r = sr_seq r' -> k = k';
  rp_fresh : forall k k' r, In (k', r) rs -> sr_stat r = false -> tomb ds k = Some (sr_seq r) -> k = k';
  rp_room : ds_size ds + Z.of_nat (List.length rs) <= max_size ds
}.

Lemma inserts_backup_ok ds rs : Forall wire_record_wf rs -> replayable ds rs ->
  backup_ok ds (fold_left (fun m x => m_insert x.1 x.2 m) rs []).
Proof.
  intros Hwf [Hu Hf Hr]. set (m := fold_left _ rs []).
  assert (Hs : m_sorted m) by apply fold_insert_sorted, sorted_nil.
  assert (Hin : forall k r, In (k, r) m -> In (k, r) rs).
  { intros k r H. apply (m_find_In k r m Hs) in H. unfold m in H. rewrite find_inserts in H. now apply first_record_In. }
  constructor; [exact Hs| |eauto..|].
  - apply List.Forall_forall. intros [k r] H. rewrite List.Forall_forall in Hwf.
    destruct (Hwf _ (Hin _ _ H)) as (Hk & [Hv _] & Hq). split; [exact Hk|split; assumption].
  - pose proof (length_inserts rs []) as Hl. fold m in Hl. cbn [List.length] in Hl. lia.
Qed.

(** The version of [k] after the first record of [rs] for it. *)
Definition first_merged (rs : backup) (k : Key) (old : option Val * Z) : option Val * Z :=
  match first_record k rs with
  | Some r => lww old (record_value r) (sr_seq r)
  | None => old
  end.

End Recovered.

(** What recovery reads: the backups of [clients] in the order of the directory,
    then the snapshot with the records [f] of the servers. *)
Record recovery_files (cfg : OsConfig) (sc : SnConfig) (phys : Z) (idxes : list Z) (entries : list (string * list Z)) (disk : CtDisk)
    (clients : list backup) (f : nat -> backup) (bws : list Z) : Prop := {
  rf_idxes : server_logical_idxes_list cfg !! Z.to_nat phys = Some idxes;
  rf_nodup : NoDup idxes;
  rf_holds : holds entries clients;
  rf_clients : Forall (Forall wire_record_wf) clients;
  rf_small : Forall (fun rs => Z.of_nat (List.length (backup_file rs)) < 2 ^ 31) clients;
  rf_records : forall i, Forall wire_record_wf (f i);
  rf_bws : Forall (fun w => 0 <= w < 2 ^ 64) bws;
  rf_servers : Z.of_nat (List.length bws) < 2 ^ 16;
  rf_size : 8 + Z.of_nat (List.length (servers_wire f 0 bws)) < 2 ^ 31;
  rf_type : is_s32 (SNAPSHOT_GETDATA_ACK sc);
  rf_disk : exists id, is_s32 id /\ disk ct_snapshotid_path = Some (le_bytes 4 (u32 id)) /\
    disk (ct_snapshotdata_path id) = Some (snapshot_file sc f bws);
  rf_partitioned : partitioned cfg (concat clients ++ concat (map sv_records (servers_data f 0 bws)))
}.

Lemma load_controller_snapshotid_run id : is_s32 id -> load_controller_snapshotid (le_bytes 4 (u32 id)) = Ok id.
Proof.
  intros Hid. unfold load_controller_snapshotid. rewrite length_le_bytes. change (4 <? 4)%nat with false.
  rewrite take_ge, le_val_bytes by (rewrite length_le_bytes; lia).
  rewrite Z.mod_small by (pose proof (u32_range id) as H; unfold is_u32 in H; cbn; lia). now rewrite s32_u32.
Qed.

Lemma server_recover_run cfg sc phys idxes entries disk clients f bws :
  recovery_files cfg sc phys idxes entries disk clients f bws ->
  exists maps, server_recover cfg sc phys (Some entries) disk = Ok maps /\
    collected cfg idxes (concat clients ++ concat (map sv_records (servers_data f 0 bws))) (replicate (List.length idxes) []) maps.
Proof.
  intros [Hi Hnd Hh Hc Hs Hr Hw Hn Hsz Hty (id & Hid & D1 & D2) Hp]. apply Forall_app in Hp as [Hp1 Hp2].
  assert (Hlen : Z.of_nat (List.length (snapshot_file sc f bws)) = 8 + Z.of_nat (List.length (servers_wire f 0 bws)))
    by (unfold snapshot_file; rewrite !length_app, !length_le_bytes; lia).
  pose proof (getdata_ack_run f (SNAPSHOT_GETDATA_ACK sc) bws Hr Hty Hw Hn Hsz) as Hrun. cbv zeta in Hrun. fold (snapshot_file sc f bws) in Hrun.
  destruct (aggregate_run cfg idxes clients (replicate (List.length idxes) []) Hnd) as (m1 & E1 & C1); [apply length_replicate|exact Hp1|].
  destruct (aggregate_run cfg idxes (map sv_records (servers_data f 0 bws)) m1 Hnd) as (m2 & E2 & C2);
    [destruct C1 as [-> _]; apply length_replicate|exact Hp2|].
  exists m2. split; [|exact (collected_app _ _ _ _ _ _ _ C1 C2)].
  unfold server_recover, deserialize_perclient_upstream_backup_files. rewrite (load_backup_files_run _ _ Hh Hc Hs). cbn [mbind res_bind].
  rewrite (proj2 (arr_get_Ok _ _ _) Hi). cbn [mbind res_bind]. rewrite E1. cbn [mbind res_bind]. rewrite D1, (load_controller_snapshotid_run id Hid).
  cbn [mbind res_bind]. rewrite D2, Hlen, (u32_id (8 + _)) by (unfold is_u32; lia). rewrite INVARIANT_true by lia.
  rewrite s32_id by (unfold is_s32; lia). cbn [mbind res_bind]. rewrite Hrun. exact E2.
Qed.

Lemma files_wf cfg sc phys idxes entries disk clients f bws :
  recovery_files cfg sc phys idxes entries disk clients f bws ->
  Forall wire_record_wf (concat clients ++ concat (map sv_records (servers_data f 0 bws))).
Proof.
  intros H. apply Forall_app. split; [apply Forall_concat, (rf_clients _ _ _ _ _ _ _ _ _ H)|].
  pose proof (rf_records _ _ _ _ _ _ _ _ _ H) as Hr. apply Forall_concat, Forall_map. clear H. generalize O.
  induction bws as [|w bws IH]; intros i; cbn [servers_data]; constructor; [apply Hr|apply IH].
Qed.

(** C20: recovery of a machine's servers.  From the backups the clients have left and
    the last snapshot, all of whose keys the hash partition gives to some server
    ([rf_partitioned]), [recover] finishes with one map per logical server.  A server
    replays its map provided that no two keys are deleted with one sequence number,
    among the records and against the deletions it has recorded, and that the deleted
    set has room for the records ([replayable]).  Then no assertion fails and every key
    takes the newer of its stored version and its first record among those read for
    this server, in the order of the backup files and with the snapshot last; the
    maximal sequence number becomes the largest of the server's and of the map's, and
    is on disk afterwards.  Only the first record counts: a later one has no effect
    even when its sequence number is larger. *)
Theorem server_recovers {DB Snap} `{Hkv : KVStore DB Snap} {Hlaws : KVStoreLaws DB Snap} {Havail : KVStoreAvailable DB Snap}
    (cfg : OsConfig) (sc : SnConfig) (phys : Z) (idxes : list Z) (entries : list (string * list Z)) (disk : CtDisk)
    (clients : list backup) (f : nat -> backup) (bws : list Z) :
  recovery_files cfg sc phys idxes entries disk clients f bws ->
  let records := concat clients ++ concat (map sv_records (servers_data f 0 bws)) in
  exists maps, server_recover cfg sc phys (Some entries) disk = Ok maps /\ List.length maps = List.length idxes /\
    forall i sv (w : Wrapper DB Snap), idxes !! i = Some sv -> wrapper_ok w ->
      replayable (deleted_set w) (List.filter (owned cfg sv) records) ->
      exists m w', maps !! i = Some m /\ run_server_recover m w = Ok (tt, w') /\ wrapper_ok w' /\
        (forall k, key_wf k -> version w' k = first_merged (List.filter (owned cfg sv) records) k (version w k)) /\
        maxseq w' = max_seq m (maxseq w) /\ RocksdbWrapper.disk w' (latestmaxseq_path (workerid w)) = Some (le_bytes 4 (maxseq w')).
Proof.
  intros Hfiles records. pose proof (files_wf _ _ _ _ _ _ _ _ _ Hfiles) as Hwf. fold records in Hwf.
  destruct (server_recover_run _ _ _ _ _ _ _ _ _ Hfiles) as (maps & E & L & C). fold records in C.
  exists maps. split; [exact E|]. split; [now rewrite L, length_replicate|]. intros i sv w Hi Hw Hrp.
  set (m := fold_left (fun m x => m_insert x.1 x.2 m) (List.filter (owned cfg sv) records) []).
  destruct (recover_brings_forward w m Hw) as (w' & R & W & V & X & D).
  { apply inserts_backup_ok; [|exact Hrp]. apply List.Forall_forall. intros x [Hx _]%filter_In.
    rewrite List.Forall_forall in Hwf. auto. }
  exists m, w'. split; [apply C; [exact Hi|apply lookup_replicate; split; [reflexivity|eauto using lookup_lt_Some]]|].
  split; [exact R|]. split; [exact W|]. split; [|exact (conj X D)]. intros k Hk. rewrite (V k Hk).
  unfold merged, first_merged, m. now rewrite find_inserts.
Qed.

(** ** A concrete recovery *)

(** Two clients have a backup of key 1; the file of the older one comes first. *)
Definition demo_clients : list backup :=
  [[(key_of 1, demo_record 6 true)]; [(key_of 1, demo_record 8 true); (key_of 3, demo_record 12 false)]].
Definition demo_entries : list (string * list Z) :=
  [(".", []); ("static0-client0.out", backup_file [(key_of 1, demo_record 6 true)]);
   ("static0-client1.out", backup_file [(key_of 1, demo_record 8 true); (key_of 3, demo_record 12 false)])]%string.
Definition demo_snapshot (i : nat) : backup :=
  match i with
  | O => [(key_of 1, demo_record 5 true); (key_of 4, demo_record 11 true)]
  | S O => [(key_of 2, demo_record 10 true)]
  | _ => []
  end.
Definition demo_server_disk : CtDisk :=
  ct_write ct_snapshotid_path (le_bytes 4 (u32 6))
    (ct_write (ct_snapshotdata_path 6) (snapshot_file demo_sn_config demo_snapshot [0; 0]) (fun _ => None)).

Ltac demo_wf :=
  repeat (apply List.Forall_cons; [apply demo_record_wf; unfold is_u32; lia|]); apply List.Forall_nil.

Lemma demo_recovery_files :
  recovery_files demo_recover_config demo_sn_config 0 [0; 1] demo_entries demo_server_disk demo_clients demo_snapshot [0; 0].
Proof.
  constructor.
  - reflexivity.
  - apply (bool_decide_unpack (NoDup [0; 1])). exact I.
  - reflexivity.
  - repeat (apply List.Forall_cons; [demo_wf|]). apply List.Forall_nil.
  - repeat (apply List.Forall_cons; [vm_compute; reflexivity|]). apply List.Forall_nil.
  - intros [|[|i]]; cbn [demo_snapshot]; demo_wf.
  - repeat (apply List.Forall_cons; [lia|]). apply List.Forall_nil.
  - cbn. lia.
  - vm_compute. reflexivity.
  - unfold is_s32. cbn. lia.
  - exists 6. split; [unfold is_s32; lia|]. split; reflexivity.
  - unfold partitioned. repeat (apply List.Forall_cons; [eexists; vm_compute; reflexivity|]). apply List.Forall_nil.
Qed.

Definition demo_mine : backup :=
  [(key_of 1, demo_record 6 true); (key_of 1, demo_record 8 true); (key_of 3, demo_record 12 false);
   (key_of 1, demo_record 5 true); (key_of 4, demo_record 11 true)].

Lemma demo_replayable : replayable (deleted_set w_demo) demo_mine.
Proof.
  constructor.
  - intros k r k' r' H H' Hs Hs'. unfold demo_mine in H, H'. cbn [In] in H, H'.
    destruct_or!; try done; simplify_eq; (discriminate || reflexivity).
  - intros k k' r H Hs Ht. unfold demo_mine in H. cbn [In] in H. apply (tomb_single _ (key_of 2) 9) in Ht; [|reflexivity].
    destruct_or!; try done; simplify_eq; discriminate.
  - vm_compute. discriminate.
Qed.

(** Server 0 keeps the write with sequence number 6, although a client has left a
    backup with 8. *)
Lemma server_recovers_witness :
  exists maps, server_recover demo_recover_config demo_sn_config 0 (Some demo_entries) demo_server_disk = Ok maps /\
  exists m w', maps !! 0%nat = Some m /\ run_server_recover m w_demo = Ok (tt, w') /\
    version w' (key_of 1) = (Some demo_val, 6) /\ version w' (key_of 3) = (None, 12) /\ version w' (key_of 4) = (Some demo_val, 11).
Proof.
  destruct (server_recovers (DB := MemDB.t) (Snap := Z) demo_recover_config demo_sn_config 0 [0; 1] demo_entries demo_server_disk
    demo_clients demo_snapshot [0; 0] demo_recovery_files) as (maps & E & _ & H).
  exists maps. split; [exact E|].
  assert (Hm : List.filter (owned demo_recover_config 0)
    (concat demo_clients ++ concat (map sv_records (servers_data demo_snapshot 0 [0; 0]))) = demo_mine) by (vm_compute; reflexivity).
  specialize (H 0%nat 0 w_demo eq_refl w_demo_ok). rewrite Hm in H. destruct (H demo_replayable) as (m & w' & Em & R & _ & V & _).
  exists m, w'. split; [exact Em|]. split; [exact R|].
  rewrite !V by (apply key_of_wf; unfold is_u32; lia). repeat split.
Defined.
