(* ===== verification/Reflector.v ===== *)
(** * The reflector (farreach/reflector_impl.h)

    The reflector runs beside the first server and carries packets between the
    switch OS and the data plane: [run_reflector_cp2dpserver] forwards requests to
    the switch and remembers who sent them, [run_reflector_dp2cpserver] sends the
    answers back.  The two threads share the remembered addresses.  The turns of
    cp2dpserver are two steps, since an answer can pass between the update of the
    address and the send; a turn of dp2cpserver is one step, since it reads the
    address once (under the mutex, or behind a flag that is set last).
    [reflector_relays] says where every packet goes. *)

From Stdlib Require Import ZArith Lia List.
From stdpp Require Import base tactics list numbers option.
From S2P Require Import Prelude Cursor Crc32 Key Packet PacketCodec PacketSwitch Fragment PktRingBuffer RecvLarge DeletedSet.

Open Scope Z_scope.
Set Default Proof Using "Type".

(** ** State *)

(** The sockets a packet leaves through. *)
Inductive RSock := Cp2dpserver | Popclient | Specialcaseclient.

#[global] Instance RSock_eq_dec : EqDecision RSock.
Proof. solve_decision. Defined.

Record RSent := mkRSent { rs_sock : RSock; rs_bytes : list Z; rs_to : sockaddr_in; rs_tolen : Z }.

(** [cp2dp_buf] and [dp2cp_buf] are the arrays of the threads; [cp2dp_todo] is the
    size of a packet that cp2dpserver has received and not yet forwarded. *)
Record Reflector := mkReflector {
  popclient_addr : sockaddr_in;
  popclient_addr_len : Z;
  with_snapshotclient_addr : bool;
  snapshotclient_addr : sockaddr_in;
  snapshotclient_addr_len : Z;
  cp2dp_buf : list Z;
  cp2dp_todo : option Z;
  dp2cp_buf : list Z;
  refl_sent : list RSent
}.

(** The addresses the reflector knows: a client behind the switch, and the
    specialcaseserver of the switch OS. *)
Record ReflectorConfig := mkReflectorConfig { client_addr : sockaddr_in; specialcaseserver_addr : sockaddr_in }.

(** The length of [char buf[MAX_BUFSIZE]]. *)
Definition refl_bufsize : nat := Z.to_nat MAX_BUFSIZE.
#[global] Opaque refl_bufsize.

Lemma refl_bufsize_eq : Z.of_nat refl_bufsize = 40960.
Proof. exact (Z2Nat.id 40960 ltac:(lia)). Qed.

Section Reflector.
Context (cfg : ReflectorConfig).

(** The globals at the start; the arrays hold anything. *)
Definition prepare_reflector (buf1 buf2 : list Z) : Reflector :=
  mkReflector sockaddr_zero 16 false sockaddr_zero 16 buf1 None buf2 [].

Definition set_popclient (a : sockaddr_in) (len : Z) (s : Reflector) : Reflector :=
  mkReflector a len (with_snapshotclient_addr s) (snapshotclient_addr s) (snapshotclient_addr_len s)
    (cp2dp_buf s) (cp2dp_todo s) (dp2cp_buf s) (refl_sent s).
Definition set_snapshotclient (a : sockaddr_in) (len : Z) (s : Reflector) : Reflector :=
  mkReflector (popclient_addr s) (popclient_addr_len s) true a len (cp2dp_buf s) (cp2dp_todo s) (dp2cp_buf s) (refl_sent s).
Definition set_cp2dp (buf : list Z) (todo : option Z) (s : Reflector) : Reflector :=
  mkReflector (popclient_addr s) (popclient_addr_len s) (with_snapshotclient_addr s) (snapshotclient_addr s) (snapshotclient_addr_len s)
    buf todo (dp2cp_buf s) (refl_sent s).
Definition set_dp2cp (buf : list Z) (s : Reflector) : Reflector :=
  mkReflector (popclient_addr s) (popclient_addr_len s) (with_snapshotclient_addr s) (snapshotclient_addr s) (snapshotclient_addr_len s)
    (cp2dp_buf s) (cp2dp_todo s) buf (refl_sent s).
Definition udpsend (sock : RSock) (bytes : list Z) (a : sockaddr_in) (len : Z) (s : Reflector) : Reflector :=
  mkReflector (popclient_addr s) (popclient_addr_len s) (with_snapshotclient_addr s) (snapshotclient_addr s) (snapshotclient_addr_len s)
    (cp2dp_buf s) (cp2dp_todo s) (dp2cp_buf s) (refl_sent s ++ [mkRSent sock bytes a len]).

(** ** The threads *)

(** The packets of the switch. *)
Definition pop_requests : list Z :=
  [CACHE_POP_INSWITCH; CACHE_EVICT_LOADFREQ_INSWITCH; CACHE_EVICT_LOADDATA_INSWITCH; SETVALID_INSWITCH].
Definition pop_answers : list Z :=
  [CACHE_POP_INSWITCH_ACK; CACHE_EVICT_LOADFREQ_INSWITCH_ACK; CACHE_EVICT_LOADDATA_INSWITCH_ACK; SETVALID_INSWITCH_ACK].
Definition case1_packets : list Z :=
  [GETRES_LATEST_SEQ_INSWITCH_CASE1; GETRES_DELETED_SEQ_INSWITCH_CASE1; PUTREQ_SEQ_INSWITCH_CASE1; DELREQ_SEQ_INSWITCH_CASE1].

(** [run_reflector_cp2dpserver] up to the send. *)
Definition cp2dp_receive (ev : event) (s : Reflector) : res Reflector :=
  match ev with
  | Timeout => Ok s
  | Dgram bytes tmp_addr =>
      let recvsize := recv_size (cp2dp_buf s) bytes in
      let buf := recv_into (cp2dp_buf s) bytes in
      let s := set_cp2dp buf (Some recvsize) s in
      _ ← INVARIANT (0 <=? recvsize);
      tmp_optype ← run_reader (get_packet_type recvsize) buf;
      if existsb (Z.eqb tmp_optype) pop_requests then Ok (set_popclient tmp_addr sizeof_sockaddr_in s)
      else if tmp_optype =? LOADSNAPSHOTDATA_INSWITCH then
        if negb (with_snapshotclient_addr s) then Ok (set_snapshotclient tmp_addr sizeof_sockaddr_in s) else Ok s
      else Err ExitCalled
  end.

(** The send of cp2dpserver. *)
Definition cp2dp_forward (recvsize : Z) (s : Reflector) : Reflector :=
  set_cp2dp (cp2dp_buf s) None
    (udpsend Cp2dpserver (take (Z.to_nat recvsize) (cp2dp_buf s)) (client_addr cfg) sizeof_sockaddr_in s).

(** One turn of [run_reflector_dp2cpserver]. *)
Definition dp2cp_turn (ev : event) (s : Reflector) : res Reflector :=
  match ev with
  | Timeout => Ok s
  | Dgram bytes _ =>
      let recvsize := recv_size (dp2cp_buf s) bytes in
      let buf := recv_into (dp2cp_buf s) bytes in
      let s := set_dp2cp buf s in
      let pkt := take (Z.to_nat recvsize) buf in
      _ ← INVARIANT (0 <? recvsize);
      pkt_type ← run_reader (get_packet_type recvsize) buf;
      if existsb (Z.eqb pkt_type) pop_answers then Ok (udpsend Popclient pkt (popclient_addr s) (popclient_addr_len s) s)
      else if pkt_type =? LOADSNAPSHOTDATA_INSWITCH_ACK then
        _ ← INVARIANT (with_snapshotclient_addr s);
        Ok (udpsend Popclient pkt (snapshotclient_addr s) (snapshotclient_addr_len s) s)
      else if existsb (Z.eqb pkt_type) case1_packets then
        Ok (udpsend Specialcaseclient pkt (specialcaseserver_addr cfg) 16 s)
      else Ok s
  end.

(** ** Runs of both threads *)

Inductive REvent :=
  | RReceive (ev : event)
  | RForward
  | RAnswer (ev : event).

Inductive refl_step : REvent -> Reflector -> Reflector -> Prop :=
  | step_receive ev s s' : cp2dp_todo s = None -> cp2dp_receive ev s = Ok s' -> refl_step (RReceive ev) s s'
  | step_forward n s : cp2dp_todo s = Some n -> refl_step RForward s (cp2dp_forward n s)
  | step_answer ev s s' : dp2cp_turn ev s = Ok s' -> refl_step (RAnswer ev) s s'.

Inductive refl_run (s0 : Reflector) : list REvent -> Reflector -> Prop :=
  | run_nil : refl_run s0 [] s0
  | run_snoc tr e s s' : refl_run s0 tr s -> refl_step e s s' -> refl_run s0 (tr ++ [e]) s'.

(** ** Specification *)

(** The type of a packet, and the part of it that fits a buffer. *)
Definition pkt_type (bytes : list Z) : res Z := run_reader (get_packet_type (Z.of_nat (length bytes))) bytes.
Definition has_type (ts : list Z) (bytes : list Z) : bool :=
  match pkt_type bytes with Ok t => existsb (Z.eqb t) ts | Err _ => false end.
Definition received (bytes : list Z) : list Z := take refl_bufsize bytes.

(** Who has sent the requests of these types, in order. *)
Definition requesters (ts : list Z) (past : list REvent) : list sockaddr_in :=
  omap (fun e => match e with
                 | RReceive (Dgram bytes a) => if has_type ts (received bytes) then Some a else None
                 | _ => None
                 end) past.

(** The request that is to be forwarded next. *)
Definition waiting (past : list REvent) : option (list Z) :=
  match list.last (List.filter (fun e => match e with RAnswer _ => false | _ => true end) past) with
  | Some (RReceive (Dgram bytes _)) => Some (received bytes)
  | _ => None
  end.

(** What an event makes the reflector send, given what has happened: requests go to
    the data plane; an answer to a population or eviction request goes to the last
    one who has sent such a request, an answer with snapshot data to the first one
    who has asked for it, and a case-1 packet to the specialcaseserver. *)
Definition relays (past : list REvent) (e : REvent) : list RSent :=
  match e with
  | RReceive _ => []
  | RForward =>
      match waiting past with Some pkt => [mkRSent Cp2dpserver pkt (client_addr cfg) 16] | None => [] end
  | RAnswer Timeout => []
  | RAnswer (Dgram bytes _) =>
      let pkt := received bytes in
      if has_type pop_answers pkt then [mkRSent Popclient pkt (default sockaddr_zero (list.last (requesters pop_requests past))) 16]
      else if has_type [LOADSNAPSHOTDATA_INSWITCH_ACK] pkt then
        [mkRSent Popclient pkt (default sockaddr_zero (list.head (requesters [LOADSNAPSHOTDATA_INSWITCH] past))) 16]
      else if has_type case1_packets pkt then [mkRSent Specialcaseclient pkt (specialcaseserver_addr cfg) 16]
      else []
  end.

Fixpoint relayed (past tr : list REvent) : list RSent :=
  match tr with
  | [] => []
  | e :: tr' => relays past e ++ relayed (past ++ [e]) tr'
  end.

End Reflector.

(** ** Every packet goes where the specification says *)

Lemma relayed_snoc cfg tr e : forall past, relayed cfg past (tr ++ [e]) = relayed cfg past tr ++ relays cfg (past ++ tr) e.
Proof.
  induction tr as [|e' tr IH]; intros past; cbn [relayed app].
  - now rewrite !app_nil_r.
  - rewrite IH, <- app_assoc. cbn [app]. now rewrite <- app_assoc.
Qed.

Lemma requesters_snoc ts tr e : requesters ts (tr ++ [e]) = requesters ts tr ++ requesters ts [e].
Proof. apply omap_app. Qed.

Definition asks (e : REvent) : bool := match e with RAnswer _ => false | _ => true end.

Lemma waiting_asks tr e : asks e = true ->
  waiting (tr ++ [e]) = match e with RReceive (Dgram bytes _) => Some (received bytes) | _ => None end.
Proof. intros He. unfold waiting. rewrite List.filter_app. cbn [List.filter]. fold asks. unfold asks in He. destruct e; try discriminate; now rewrite last_snoc. Qed.

Lemma waiting_answer tr ev : waiting (tr ++ [RAnswer ev]) = waiting tr.
Proof. unfold waiting. now rewrite List.filter_app, app_nil_r. Qed.

(** A datagram in a buffer. *)
Lemma recv_received buf bytes : length buf = refl_bufsize ->
  take (Z.to_nat (recv_size buf bytes)) (recv_into buf bytes) = received bytes /\
  length (recv_into buf bytes) = length buf.
Proof.
  intros Hl. unfold recv_size, recv_into, received. rewrite Nat2Z.id, <- Hl. set (n := Nat.min _ _).
  assert (Hn : length (take n bytes) = n) by (rewrite length_take; unfold n; lia). split.
  - rewrite <- Hn at 1. rewrite take_app_length. unfold n. destruct (Nat.min_spec (length bytes) (length buf)) as [[? ->]|[? ->]]; [|reflexivity].
    now rewrite !take_ge by lia.
  - rewrite length_app, Hn, length_drop. unfold n. lia.
Qed.

Lemma recv_size_nonneg buf bytes : (0 <=? recv_size buf bytes) = true.
Proof. apply Z.leb_le. unfold recv_size. lia. Qed.

Lemma recv_type buf bytes : length buf = refl_bufsize ->
  run_reader (get_packet_type (recv_size buf bytes)) (recv_into buf bytes) = pkt_type (received bytes).
Proof.
  intros Hl. destruct (recv_received buf bytes Hl) as [E _].
  assert (Hs : Z.of_nat (length (received bytes)) = recv_size buf bytes)
    by (unfold received, recv_size; rewrite length_take, <- Hl; lia).
  unfold pkt_type. rewrite Hs. rewrite <- (take_drop (Z.to_nat (recv_size buf bytes)) (recv_into buf bytes)), E.
  generalize (drop (Z.to_nat (recv_size buf bytes)) (recv_into buf bytes)). intros rest.
  unfold get_packet_type, run_reader, mbind, reader_bind, r_check.
  destruct (Z.leb_spec 2 (recv_size buf bytes)) as [H|H]; [|reflexivity].
  destruct (received bytes) as [|b1 [|b2 bs]]; cbn [length] in Hs; [lia|lia|]. reflexivity.
Qed.

Lemma pkt_type_total bytes : (2 <= length bytes)%nat -> exists t, pkt_type bytes = Ok t.
Proof.
  intros Hl. unfold pkt_type, get_packet_type, run_reader, mbind, reader_bind, r_check. rewrite (proj2 (Z.leb_le _ _)) by lia.
  destruct bytes as [|b1 [|b2 bs]]; cbn [length] in Hl; [lia|lia|]. eexists. reflexivity.
Qed.

(** The turns, in terms of the packet received. *)
Lemma cp2dp_receive_eq s bytes a : length (cp2dp_buf s) = refl_bufsize ->
  cp2dp_receive (Dgram bytes a) s =
  match pkt_type (received bytes) with
  | Ok t =>
      let s1 := set_cp2dp (recv_into (cp2dp_buf s) bytes) (Some (recv_size (cp2dp_buf s) bytes)) s in
      if existsb (Z.eqb t) pop_requests then Ok (set_popclient a sizeof_sockaddr_in s1)
      else if t =? LOADSNAPSHOTDATA_INSWITCH then
        if negb (with_snapshotclient_addr s) then Ok (set_snapshotclient a sizeof_sockaddr_in s1) else Ok s1
      else Err ExitCalled
  | Err e => Err e
  end.
Proof.
  intros Hl. unfold cp2dp_receive. cbv zeta. rewrite (INVARIANT_true _ (recv_size_nonneg _ _)), (recv_type _ _ Hl).
  now destruct (pkt_type (received bytes)).
Qed.

Lemma dp2cp_turn_eq cfg s bytes a pkt r :
  take (Z.to_nat (recv_size (dp2cp_buf s) bytes)) (recv_into (dp2cp_buf s) bytes) = pkt ->
  run_reader (get_packet_type (recv_size (dp2cp_buf s) bytes)) (recv_into (dp2cp_buf s) bytes) = r ->
  dp2cp_turn cfg (Dgram bytes a) s =
  if 0 <? recv_size (dp2cp_buf s) bytes then
    match r with
    | Ok t =>
        let s1 := set_dp2cp (recv_into (dp2cp_buf s) bytes) s in
        if existsb (Z.eqb t) pop_answers then Ok (udpsend Popclient pkt (popclient_addr s) (popclient_addr_len s) s1)
        else if t =? LOADSNAPSHOTDATA_INSWITCH_ACK then
          if with_snapshotclient_addr s
          then Ok (udpsend Popclient pkt (snapshotclient_addr s) (snapshotclient_addr_len s) s1)
          else Err InvariantFailed
        else if existsb (Z.eqb t) case1_packets then
          Ok (udpsend Specialcaseclient pkt (specialcaseserver_addr cfg) 16 s1)
        else Ok s1
    | Err e => Err e
    end
  else Err InvariantFailed.
Proof.
  intros <- <-. unfold dp2cp_turn. cbv zeta. unfold INVARIANT. destruct (0 <? _); [|reflexivity]. cbn [mbind res_bind].
  destruct (run_reader _ _); [|reflexivity]. cbn [mbind res_bind with_snapshotclient_addr set_dp2cp].
  now destruct (with_snapshotclient_addr s).
Qed.

(** What the threads know, and what has been sent, after the events of [tr]. *)
Record knows (cfg : ReflectorConfig) (tr : list REvent) (s : Reflector) : Prop := {
  kn_pop : popclient_addr s = default sockaddr_zero (list.last (requesters pop_requests tr));
  kn_poplen : popclient_addr_len s = 16;
  kn_flag : with_snapshotclient_addr s = bool_decide (is_Some (list.head (requesters [LOADSNAPSHOTDATA_INSWITCH] tr)));
  kn_snap : snapshotclient_addr s = default sockaddr_zero (list.head (requesters [LOADSNAPSHOTDATA_INSWITCH] tr));
  kn_snaplen : snapshotclient_addr_len s = 16;
  kn_buf1 : length (cp2dp_buf s) = refl_bufsize;
  kn_buf2 : length (dp2cp_buf s) = refl_bufsize;
  kn_waiting : waiting tr = (fun n => take (Z.to_nat n) (cp2dp_buf s)) <$> cp2dp_todo s;
  kn_sent : refl_sent s = relayed cfg [] tr
}.

Lemma knows_init cfg buf1 buf2 : length buf1 = refl_bufsize -> length buf2 = refl_bufsize ->
  knows cfg [] (prepare_reflector buf1 buf2).
Proof. now split. Qed.

Lemma requesters_receive ts bytes a : requesters ts [RReceive (Dgram bytes a)] = if has_type ts (received bytes) then [a] else [].
Proof. unfold requesters. cbn. now destruct (has_type ts (received bytes)). Qed.

Lemma has_type_Ok ts bytes t : pkt_type bytes = Ok t -> has_type ts bytes = existsb (Z.eqb t) ts.
Proof. unfold has_type. now intros ->. Qed.

(** No packet counts as two kinds of request. *)
Lemma pop_not_snapshot t : existsb (Z.eqb t) pop_requests = true -> (t =? LOADSNAPSHOTDATA_INSWITCH) = false.
Proof. intros (x & Hx & ->%Z.eqb_eq)%existsb_exists. destruct Hx as [<-|[<-|[<-|[<-|[]]]]]; reflexivity. Qed.

(** Steps that change no address. *)
Lemma knows_quiet cfg tr e s s' : knows cfg tr s -> (forall ts, requesters ts [e] = []) ->
  (popclient_addr s', popclient_addr_len s', with_snapshotclient_addr s', snapshotclient_addr s', snapshotclient_addr_len s') =
  (popclient_addr s, popclient_addr_len s, with_snapshotclient_addr s, snapshotclient_addr s, snapshotclient_addr_len s) ->
  length (cp2dp_buf s') = length (cp2dp_buf s) -> length (dp2cp_buf s') = length (dp2cp_buf s) ->
  waiting (tr ++ [e]) = (fun n => take (Z.to_nat n) (cp2dp_buf s')) <$> cp2dp_todo s' ->
  refl_sent s' = refl_sent s ++ relays cfg tr e -> knows cfg (tr ++ [e]) s'.
Proof.
  intros [K1 K2 K3 K4 K5 K6 K7 K8 K9] Hq [= E1 E2 E3 E4 E5] L1 L2 Hw Hs.
  split; rewrite ?requesters_snoc, ?Hq, ?app_nil_r; try congruence. rewrite relayed_snoc. cbn [app]. congruence.
Qed.

Lemma receive_knows cfg tr ev s s' : knows cfg tr s -> cp2dp_todo s = None -> cp2dp_receive ev s = Ok s' ->
  knows cfg (tr ++ [RReceive ev]) s'.
Proof.
  intros K Hw E. destruct ev as [bytes a|].
  2:{ injection E as <-. apply (knows_quiet _ _ _ _ _ K); try reflexivity; [|cbn; now rewrite app_nil_r].
      now rewrite waiting_asks, Hw. }
  destruct (recv_received (cp2dp_buf s) bytes (kn_buf1 _ _ _ K)) as [R L]. rewrite (cp2dp_receive_eq _ _ _ (kn_buf1 _ _ _ K)) in E.
  destruct (pkt_type (received bytes)) as [t|] eqn:Et; [|discriminate]. cbv zeta in E.
  pose proof K as [K1 K2 K3 K4 K5 K6 K7 _ K9].
  assert (Hwait : waiting (tr ++ [RReceive (Dgram bytes a)]) =
    Some (take (Z.to_nat (recv_size (cp2dp_buf s) bytes)) (recv_into (cp2dp_buf s) bytes))) by (now rewrite waiting_asks, R).
  assert (Hq : forall ts, requesters ts (tr ++ [RReceive (Dgram bytes a)]) = requesters ts tr ++ if existsb (Z.eqb t) ts then [a] else [])
    by (intros ts; now rewrite requesters_snoc, requesters_receive, (has_type_Ok _ _ _ Et)).
  assert (Hsent : refl_sent s = relayed cfg [] (tr ++ [RReceive (Dgram bytes a)])) by (rewrite relayed_snoc, app_nil_r; exact K9).
  destruct (existsb (Z.eqb t) pop_requests) eqn:Ep.
  - injection E as <-. pose proof (pop_not_snapshot t Ep) as Hns.
    split; rewrite ?Hq, ?Ep; cbn [existsb]; cbn [orb]; rewrite ?Hns, ?app_nil_r, ?last_snoc; cbn; reflexivity || congruence.
  - destruct (t =? LOADSNAPSHOTDATA_INSWITCH) eqn:El; [|discriminate]. rewrite K3 in E.
    destruct (requesters [LOADSNAPSHOTDATA_INSWITCH] tr) as [|b l] eqn:Eq; cbn in E; injection E as <-;
      split; rewrite ?Hq, ?Ep, ?Eq; cbn [existsb]; rewrite ?El, ?app_nil_r; cbn; first [reflexivity|exact K3|exact K4|congruence].
Qed.

Lemma forward_knows cfg tr n s : knows cfg tr s -> cp2dp_todo s = Some n ->
  knows cfg (tr ++ [RForward]) (cp2dp_forward cfg n s).
Proof.
  intros K Hw. apply (knows_quiet _ _ _ _ _ K); try reflexivity; [now rewrite waiting_asks|].
  cbn. now rewrite (kn_waiting _ _ _ K), Hw.
Qed.

Lemma answer_knows cfg tr ev s s' : knows cfg tr s -> dp2cp_turn cfg ev s = Ok s' -> knows cfg (tr ++ [RAnswer ev]) s'.
Proof.
  intros K E. pose proof K as [K1 K2 K3 K4 K5 K6 K7 K8 K9]. destruct ev as [bytes a|].
  2:{ injection E as <-. apply (knows_quiet _ _ _ _ _ K); try reflexivity; [now rewrite waiting_answer|cbn; now rewrite app_nil_r]. }
  destruct (recv_received (dp2cp_buf s) bytes K7) as [R L]. rewrite (dp2cp_turn_eq _ _ _ _ _ _ R (recv_type _ _ K7)) in E.
  destruct (0 <? _); [|discriminate]. destruct (pkt_type (received bytes)) as [t|] eqn:Et; [|discriminate]. cbv zeta in E.
  assert (Hrel : relays cfg tr (RAnswer (Dgram bytes a)) =
    if existsb (Z.eqb t) pop_answers then [mkRSent Popclient (received bytes) (popclient_addr s) 16]
    else if t =? LOADSNAPSHOTDATA_INSWITCH_ACK then [mkRSent Popclient (received bytes) (snapshotclient_addr s) 16]
    else if existsb (Z.eqb t) case1_packets then [mkRSent Specialcaseclient (received bytes) (specialcaseserver_addr cfg) 16] else []).
  { cbn [relays]. rewrite !(has_type_Ok _ _ _ Et). cbn [existsb]. rewrite orb_false_r. now rewrite K1, K4. }
  destruct (existsb (Z.eqb t) pop_answers); [|destruct (t =? LOADSNAPSHOTDATA_INSWITCH_ACK); [|destruct (existsb (Z.eqb t) case1_packets)]];
    [|destruct (with_snapshotclient_addr s); [|discriminate]| |]; injection E as <-;
    (apply (knows_quiet _ _ _ _ _ K); [reflexivity..|exact L|now rewrite waiting_answer|rewrite Hrel; cbn; rewrite ?K2, ?K5, ?app_nil_r; reflexivity]).
Qed.

Lemma run_knows cfg s0 tr s : refl_run cfg s0 tr s -> knows cfg [] s0 -> knows cfg tr s.
Proof.
  induction 1 as [|tr e s s' _ IH Hstep]; intros K; [exact K|]. specialize (IH K).
  destruct Hstep; eauto using receive_knows, forward_knows, answer_knows.
Qed.

(** C21: the reflector relays every packet, in every interleaving of its threads.  What
    it has sent is what the specification says: each request, unchanged, to the data
    plane; each answer of a population or an eviction to the last one who has sent
    such a request, also after the switch OS has restarted with another address; each
    answer with snapshot data to the first one who has ever asked, whoever asks
    later; each case-1 packet to the specialcaseserver.  It accepts every request of
    the switch OS while none waits to be forwarded, and no assertion fails for an
    answer, if an answer with snapshot data comes only after a request for it. *)
Theorem reflector_relays (cfg : ReflectorConfig) (buf1 buf2 : list Z) (tr : list REvent) (s : Reflector) :
  length buf1 = refl_bufsize -> length buf2 = refl_bufsize ->
  refl_run cfg (prepare_reflector buf1 buf2) tr s ->
  refl_sent s = relayed cfg [] tr /\
  (forall bytes a, waiting tr = None -> has_type (LOADSNAPSHOTDATA_INSWITCH :: pop_requests) (received bytes) = true ->
    exists s', refl_step cfg (RReceive (Dgram bytes a)) s s') /\
  (forall bytes a, (2 <= length bytes)%nat ->
    (has_type [LOADSNAPSHOTDATA_INSWITCH_ACK] (received bytes) = true -> requesters [LOADSNAPSHOTDATA_INSWITCH] tr <> []) ->
    exists s', refl_step cfg (RAnswer (Dgram bytes a)) s s').
Proof.
  intros L1 L2 Hrun. pose proof (run_knows _ _ _ _ Hrun (knows_init cfg buf1 buf2 L1 L2)) as [K1 K2 K3 K4 K5 K6 K7 K8 K9].
  split; [exact K9|]. split; intros bytes a.
  - intros Hw Ht. rewrite K8 in Hw. destruct (cp2dp_todo s) eqn:Hn; [discriminate|].
    unfold has_type in Ht. destruct (pkt_type (received bytes)) as [t|] eqn:Et; [|discriminate]. cbn [existsb] in Ht. fold pop_requests in Ht.
    enough (exists s', cp2dp_receive (Dgram bytes a) s = Ok s') as [s' E] by eauto using step_receive.
    rewrite (cp2dp_receive_eq _ _ _ K6), Et. cbv zeta.
    destruct (existsb (Z.eqb t) pop_requests); [eauto|]. rewrite orb_false_r in Ht. rewrite Ht. case_match; eauto.
  - intros Hl Ha. enough (exists s', dp2cp_turn cfg (Dgram bytes a) s = Ok s') as [s' E] by eauto using step_answer.
    destruct (recv_received (dp2cp_buf s) bytes K7) as [R _]. rewrite (dp2cp_turn_eq _ _ _ _ _ _ R (recv_type _ _ K7)).
    pose proof refl_bufsize_eq as Hb. rewrite (proj2 (Z.ltb_lt _ _)) by (unfold recv_size; rewrite K7; lia).
    destruct (pkt_type_total (received bytes)) as [t Et]; [unfold received; rewrite length_take; lia|].
    rewrite (has_type_Ok _ _ _ Et) in Ha. rewrite Et. cbn [existsb] in Ha. rewrite orb_false_r in Ha. cbv zeta.
    destruct (existsb (Z.eqb t) pop_answers); [eauto|]. destruct (t =? LOADSNAPSHOTDATA_INSWITCH_ACK); [|case_match; eauto].
    rewrite K3. specialize (Ha eq_refl). destruct (requesters [LOADSNAPSHOTDATA_INSWITCH] tr); [congruence|]. cbn. eauto.
Qed.

(** ** A concrete run *)

Definition demo_reflector : ReflectorConfig := mkReflectorConfig (mkAddr 2 123 1) (mkAddr 2 5009 7).
Definition demo_popworker : sockaddr_in := mkAddr 2 40001 7.
Definition demo_snapshotserver : sockaddr_in := mkAddr 2 40002 7.
Definition demo_popworker2 : sockaddr_in := mkAddr 2 41001 7.
Definition demo_snapshotserver2 : sockaddr_in := mkAddr 2 41002 7.
Definition demo_pkt (t b : Z) : list Z := be 2 t ++ [b].

(** The switch OS asks for an entry and for snapshot data, restarts, and asks again. *)
Definition demo_trace : list REvent :=
  [RReceive (Dgram (demo_pkt SETVALID_INSWITCH 1) demo_popworker); RForward;
   RAnswer (Dgram (demo_pkt SETVALID_INSWITCH_ACK 2) sockaddr_zero);
   RReceive (Dgram (demo_pkt LOADSNAPSHOTDATA_INSWITCH 3) demo_snapshotserver); RForward;
   RReceive (Dgram (demo_pkt SETVALID_INSWITCH 4) demo_popworker2);
   RAnswer (Dgram (demo_pkt LOADSNAPSHOTDATA_INSWITCH_ACK 5) sockaddr_zero); RForward;
   RAnswer (Dgram (demo_pkt SETVALID_INSWITCH_ACK 6) sockaddr_zero);
   RReceive (Dgram (demo_pkt LOADSNAPSHOTDATA_INSWITCH 7) demo_snapshotserver2); RForward;
   RAnswer Timeout;
   RAnswer (Dgram (demo_pkt LOADSNAPSHOTDATA_INSWITCH_ACK 8) sockaddr_zero);
   RAnswer (Dgram (demo_pkt PUTREQ_SEQ_INSWITCH_CASE1 9) sockaddr_zero)].

Definition demo_do (e : REvent) (s : Reflector) : Reflector :=
  match e with
  | RReceive ev => match cp2dp_receive ev s with Ok s' => s' | Err _ => s end
  | RForward => match cp2dp_todo s with Some n => cp2dp_forward demo_reflector n s | None => s end
  | RAnswer ev => match dp2cp_turn demo_reflector ev s with Ok s' => s' | Err _ => s end
  end.
Definition demo_reflector0 : Reflector := prepare_reflector (replicate refl_bufsize 0) (replicate refl_bufsize 0).
Definition demo_reflector_end : Reflector := fold_left (fun s e => demo_do e s) demo_trace demo_reflector0.

(** An event that does not fail, and takes its turn. *)
Definition demo_can (e : REvent) (s : Reflector) : bool :=
  match e with
  | RReceive ev => match cp2dp_todo s, cp2dp_receive ev s with None, Ok _ => true | _, _ => false end
  | RForward => match cp2dp_todo s with Some _ => true | None => false end
  | RAnswer ev => match dp2cp_turn demo_reflector ev s with Ok _ => true | Err _ => false end
  end.

Lemma demo_can_step e s : demo_can e s = true -> refl_step demo_reflector e s (demo_do e s).
Proof.
  destruct e as [ev| |ev]; cbn [demo_can demo_do]; repeat case_match; try discriminate; intros _; now constructor.
Qed.

Fixpoint demo_can_all (tr : list REvent) (s : Reflector) : bool :=
  match tr with
  | [] => true
  | e :: tr' => demo_can e s && demo_can_all tr' (demo_do e s)
  end.

Lemma demo_can_run s0 tr : forall past s, refl_run demo_reflector s0 past s -> demo_can_all tr s = true ->
  refl_run demo_reflector s0 (past ++ tr) (fold_left (fun s e => demo_do e s) tr s).
Proof.
  induction tr as [|e tr IH]; intros past s Hr Hc; cbn [fold_left demo_can_all] in *; [now rewrite app_nil_r|].
  apply andb_true_iff in Hc as [He Hc]. replace (past ++ e :: tr) with ((past ++ [e]) ++ tr) by (now rewrite <- app_assoc).
  apply IH; [|exact Hc]. eapply run_snoc; [exact Hr|]. now apply demo_can_step.
Qed.

Lemma demo_trace_runs : refl_run demo_reflector demo_reflector0 demo_trace demo_reflector_end.
Proof. apply (demo_can_run demo_reflector0 demo_trace [] demo_reflector0 (run_nil _ _)). vm_compute. reflexivity. Qed.

(** After the restart the population answers go to the new address, the snapshot
    data to the old one. *)
Lemma reflector_relays_witness :
  map (fun x => (rs_sock x, rs_bytes x, rs_to x)) (refl_sent demo_reflector_end) =
  [(Cp2dpserver, demo_pkt SETVALID_INSWITCH 1, client_addr demo_reflector);
   (Popclient, demo_pkt SETVALID_INSWITCH_ACK 2, demo_popworker);
   (Cp2dpserver, demo_pkt LOADSNAPSHOTDATA_INSWITCH 3, client_addr demo_reflector);
   (Popclient, demo_pkt LOADSNAPSHOTDATA_INSWITCH_ACK 5, demo_snapshotserver);
   (Cp2dpserver, demo_pkt SETVALID_INSWITCH 4, client_addr demo_reflector);
   (Popclient, demo_pkt SETVALID_INSWITCH_ACK 6, demo_popworker2);
   (Cp2dpserver, demo_pkt LOADSNAPSHOTDATA_INSWITCH 7, client_addr demo_reflector);
   (Popclient, demo_pkt LOADSNAPSHOTDATA_INSWITCH_ACK 8, demo_snapshotserver);
   (Specialcaseclient, demo_pkt PUTREQ_SEQ_INSWITCH_CASE1 9, specialcaseserver_addr demo_reflector)].
Proof.
  destruct (reflector_relays demo_reflector (replicate refl_bufsize 0) (replicate refl_bufsize 0)
    demo_trace demo_reflector_end (length_replicate _ _) (length_replicate _ _) demo_trace_runs) as [E _].
  rewrite E. vm_compute. reflexivity.
Defined.
