(* ===== verification/SnapshotPath.v ===== *)
(** * A snapshot from the switch to the range queries

    The three parts of a snapshot together: the switch OS sends its records
    (SwitchRollback), a round of the controller passes every server its own
    (ControllerProps), and the server merges them with its store as it was at
    SNAPSHOT_START (ServerThreads).  [snapshot_serves_scans] follows the bytes from
    one program to the next. *)

From Stdlib Require Import ZArith Lia List.
From stdpp Require Import base tactics list numbers option.
From S2P Require Import Prelude Cursor DynamicArray StdMap Crc32 Key Val DeletedSet KVStore RocksdbWrapper RocksdbProps MergeSort Snapshot Packet PacketCodec PacketCache PacketScan Outband PacketServer PacketSwitch Server ServerSpec ServerProps ServerThreads Fragment Reassembly PktRingBuffer MessageQueue RecvLarge RecvSpec RecvProps RecvClient EndToEnd SwitchOS SwitchMeta SwitchSnapshot SwitchLoad SwitchRollback Controller ControllerProps ServerRecover.

Open Scope Z_scope.
Set Default Proof Using "Type".

(** The control types of farreach/common_impl.h are the same in the three programs. *)
Definition server_config (sc : SnConfig) (cc : CtConfig) (serveridx keyrange mode uninit : Z) : ServerConfig :=
  mkServerConfig serveridx keyrange mode uninit (SwitchSnapshot.SNAPSHOT_CLEANUP sc) (SwitchSnapshot.SNAPSHOT_CLEANUP_ACK sc)
    (SwitchSnapshot.SNAPSHOT_START sc) (SwitchSnapshot.SNAPSHOT_START_ACK sc)
    (Controller.SNAPSHOT_SENDDATA cc) (Controller.SNAPSHOT_SENDDATA_ACK cc).

(** ** Sizes *)

Lemma inswitch_size_insert k r (m : list (Key * SnapshotRecord)) :
  (inswitch_size (m_insert k r m) <= inswitch_record_size (k, r) + inswitch_size m)%nat.
Proof.
  induction m as [|[k1 r1] m IH]; cbn [m_insert inswitch_size]; [lia|].
  destruct (less k1 k); [cbn [inswitch_size]; lia|]. destruct (less k k1); cbn [inswitch_size]; lia.
Qed.

Lemma inswitch_size_inserts rs : forall m : list (Key * SnapshotRecord),
  (inswitch_size (fold_left (fun m p => m_insert p.1 p.2 m) rs m) <= inswitch_size m + length (flat_map record_wire rs))%nat.
Proof.
  induction rs as [|[k r] rs IH]; intros m; cbn [fold_left flat_map fst snd]; [cbn [length]; lia|].
  etransitivity; [apply IH|]. rewrite length_app, length_record_wire. pose proof (inswitch_size_insert k r m) as H.
  unfold inswitch_record_size in H. cbn [snd] in *. lia.
Qed.

Lemma sent_records_length rs : length (flat_map record_wire (map sent_record rs)) = length (flat_map record_wire rs).
Proof.
  induction rs as [|x rs IH]; [reflexivity|]. cbn [map flat_map]. rewrite !length_app, !length_record_wire, IH. reflexivity.
Qed.

Lemma records_wire_ge rs : (20 * length rs <= length (flat_map record_wire rs))%nat.
Proof. induction rs as [|x rs IH]; cbn [flat_map length]; [lia|]. rewrite length_app, length_record_wire. lia. Qed.

Lemma servers_wire_records f bws : forall i,
  (18 * length bws + length (flat_map record_wire (concat (map f (seq i (length bws))))) = length (servers_wire f i bws))%nat.
Proof.
  induction bws as [|w bws IH]; intros i; [reflexivity|]. cbn [length seq map concat servers_wire].
  rewrite flat_map_app, !length_app, length_server_wire, <- IH. lia.
Qed.

Lemma wire_inswitch_wf x : wire_record_wf x -> inswitch_wf x.
Proof. intros (Hk & [Hv Hl] & Hs). unfold SWITCH_MAX_VALLEN in Hl. repeat split; try assumption; try apply Hk; try apply Hs; lia. Qed.

(** ** Messages *)

(** [d] has the bytes of one receive call on the datagrams [frags], in some order. *)
Definition received_from (frags : list (list Z)) (d : DynamicArray) : Prop :=
  exists m src perm stale buf cleared rv, perm ≡ₚ seq 0 (length frags) /\ array_ok buf /\ clear buf = Ok cleared /\
    udprecvlarge_udpfrag m stale cleared (map (fun j => Dgram (nth j frags []) src) perm) = Ok rv /\
    contents d = contents (rc_buf rv).

(** The server's array after the controller's SNAPSHOT_SENDDATA. *)
Lemma server_receives cc f id i frags d : (forall j, Forall wire_record_wf (f j)) -> server_reads cc f id i frags ->
  is_s32 (Controller.SNAPSHOT_SENDDATA cc) -> is_s32 id -> is_u16 i ->
  Z.of_nat (length (server_message cc f id i)) <= MAX_LARGE_BUFSIZE -> da_wf d -> received_from frags d ->
  run_reader (a ← r_u32; b ← r_u32; mret (s32 a, s32 b)) (da_mem d) = Ok (Controller.SNAPSHOT_SENDDATA cc, id) /\
  run_reader (deserialize_snapshot_senddata (Controller.SNAPSHOT_SENDDATA cc) (da_size d)) (da_mem d) =
    Ok (mkSenddata id (da_size d) i (Z.of_nat (length (f (Z.to_nat i)))) (map sent_record (f (Z.to_nat i)))).
Proof.
  intros Hf Hr Hct Hid Hi Hsz W (m & src & perm & stale & buf & cleared & rv & Hp & Ha & Ec & Er & Hd).
  destruct (Hr m src perm stale buf Hp Ha) as (cleared' & buf' & Ec' & Er' & Eb & _).
  rewrite Ec in Ec'. injection Ec' as <-. rewrite Er in Er'. injection Er' as ->. cbn [rc_buf] in Hd. rewrite Eb in Hd.
  pose proof (contents_size d W) as Hs. rewrite Hd in Hs. unfold MAX_LARGE_BUFSIZE in Hsz. split.
  - eapply (run_contents _ _ (le_bytes 4 (Controller.SNAPSHOT_SENDDATA cc) ++ le_bytes 4 id) _ _ W);
      [unfold server_message, senddata_wire in Hd; rewrite Hd, <- app_assoc; reflexivity|].
    apply reads_int. rewrite <- (app_nil_r (le_bytes 4 id)). apply reads_int. apply reads_ret_eq. now rewrite !s32_u32.
  - apply (run_contents _ _ (server_message cc f id i) [] _ W); [now rewrite app_nil_r|].
    rewrite Hs. apply senddata_reads; try assumption; [apply Hf|reflexivity|unfold server_message in *; lia].
Qed.

(** The server's buffer after a signal of the controller. *)
Lemma signal_received t id buf : is_s32 t -> is_s32 id -> (8 <= length buf)%nat ->
  run_reader (SnapshotSignal_deserialize (recv_size buf (signal_wire t id))) (recv_into buf (signal_wire t id)) = Ok (mkSnapshotSignal t id).
Proof.
  intros Ht Hid Hl. pose proof (length_signal_wire t id) as Hw.
  destruct (recv_fits buf (signal_wire t id)) as [-> ->]; [lia|]. apply reads_run, signal_reads; [exact Ht|exact Hid|lia].
Qed.

(** ** The whole way *)

Section Path.
Context {M : Type} `{Hsm : SpecialMap M, !SpecialMapLaws M}.
Context {DB Snap : Type} `{Hkv : KVStore DB Snap} {Hlaws : KVStoreLaws DB Snap} {Havail : KVStoreAvailable DB Snap}.
Context (ocfg : OsConfig) (sc : SnConfig) (cc : CtConfig).

(** A server that waits for snapshot [id]; [db] is its store. *)
Record server_waits (ts : @Thread DB Snap) (id : Z) (db : DB) : Prop := {
  wt_buffers : buffers_ok ts;
  wt_server : server_ok (t_server ts);
  wt_db : db_ptr (db_wrapper (t_server ts)) = Some db;
  wt_id : id = snapshotid (db_wrapper (t_server ts)) + 1;
  wt_free : issnapshot (t_server ts) = false;
  wt_token : snapshottoken (t_server ts) < id;
  wt_ready : snapshot_ready (db_wrapper (t_server ts))
}.

(** Range queries on [w] return, up to the requested number of records, the newest
    of the store [db] with the deletions [ds] and of the records [ins] of the switch,
    for every key that is not behind the [cnt]-th record of one of the three. *)
Definition scans_see (w : Wrapper DB Snap) (db : DB) (ds : DeletedSet) (ins : list (Key * SnapshotRecord)) : Prop :=
  forall start end_ cnt, key_wf start -> get_scanrecordcnt start end_ = Ok cnt ->
    exists full, range_scan start end_ w = Ok (take (Z.to_nat cnt) full, w) /\ m_sorted full /\
      forall k, key_wf k -> reached db ds ins start cnt k -> m_find k full = if key_lt k start then None else scan_view db ds ins k.

(** A server that gets SNAPSHOT_START, then serves any requests, and then gets the
    datagrams [frags]. *)
Definition server_merges (i id : Z) (frags : list (list Z)) (records : list (Key * SnapshotRecord)) : Prop :=
  forall (keyrange mode uninit : Z) (ts : @Thread DB Snap) (db : DB) (ct sid : Z) (buf : list Z),
    let scfg := server_config sc cc i keyrange mode uninit in
    config_ok scfg -> server_waits ts id db -> (8 <= length buf)%nat -> (ct, sid) <> (SwitchSnapshot.SNAPSHOT_START sc, id) ->
    let msg := signal_wire (SwitchSnapshot.SNAPSHOT_START sc) id in
    exists ts' out, snapshotserver_step scfg ct sid (recv_into buf msg) (recv_size buf msg) ts = Ok ((SwitchSnapshot.SNAPSHOT_START sc, id), ts') /\
      t_sent ts' = t_sent ts ++ out /\ Forall2 (delivers i) out [RSignal (SwitchSnapshot.SNAPSHOT_START_ACK sc) id] /\
      forall (tw tw' : @Thread DB Snap) (reqs : list Request) (td : @Thread DB Snap) (ct' sid' : Z),
        t_server tw = t_server ts' -> buffers_ok tw -> worker_run scfg tw reqs tw' ->
        t_server td = t_server tw' -> buffers_ok td -> received_from frags (t_dynamicbuf td) ->
        (ct', sid') <> (Controller.SNAPSHOT_SENDDATA cc, id) ->
        exists td' out', snapshotdataserver_step scfg ct' sid' td = Ok ((Controller.SNAPSHOT_SENDDATA cc, id), td') /\
          t_sent td' = t_sent td ++ out' /\ Forall2 (delivers i) out' [RSignal (Controller.SNAPSHOT_SENDDATA_ACK cc) id] /\
          snapshotid (db_wrapper (t_server td')) = id /\ (forall k, ver (t_server td') k = ver (t_server tw') k) /\
          scans_see (db_wrapper (t_server td')) db (deleted_set (db_wrapper (t_server ts))) (inswitch_map (map sent_record records)).

Lemma server_merges_ok (f : nat -> list (Key * SnapshotRecord)) (n : nat) (c : Ctl) (i : Z) (frags : list (list Z)) :
  setup_ok ocfg sc cc n c -> is_s32 (SwitchSnapshot.SNAPSHOT_START sc) ->
  SwitchSnapshot.SNAPSHOT_START sc <> SwitchSnapshot.SNAPSHOT_CLEANUP sc ->
  (forall j, Forall wire_record_wf (f j)) -> i ∈ valid_idxes ocfg ->
  18 + Z.of_nat (length (flat_map record_wire (f (Z.to_nat i)))) <= MAX_LARGE_BUFSIZE ->
  server_reads cc f (controller_snapshotid c) i frags -> server_merges i (controller_snapshotid c) frags (f (Z.to_nat i)).
Proof using Hlaws Havail.
  intros [(A1 & _ & _ & A2 & A3 & A4) [_ Hv] Hn _ _ _ _ _ Hid] Hst Hne Hf Hi Hsz Hreads keyrange mode uninit ts db ct sid buf scfg Hcfg
    [W1 W2 W3 W4 W5 W6 W7] Hbuf Hnew msg.
  assert (His : is_s32 (controller_snapshotid c)) by (unfold is_s32; lia).
  assert (Hctl : control_ok scfg) by (constructor; [cbn; auto|exact Hne]).
  assert (Hiu : is_u16 i).
  { rewrite List.Forall_forall in Hv. pose proof (Hv i (proj1 (list_elem_of_In _ _) Hi)). unfold is_u16. lia. }
  assert (Hml : Z.of_nat (length (server_message cc f (controller_snapshotid c) i)) <= MAX_LARGE_BUFSIZE)
    by (unfold server_message; rewrite length_senddata_wire; lia).
  destruct (snapshot_protocol scfg Hcfg Hctl ts ct sid (controller_snapshotid c) (recv_size buf msg) (recv_into buf msg) db
    W1 W2 W3 (signal_received _ _ buf Hst His Hbuf) Hnew His W4 W5 W6 W7) as (ts' & out & E & T & D & H).
  exists ts', out. do 3 (split; [assumption|]). intros tw tw' reqs td ct' sid' Etw Bw Hrun Etd Bd Hrecv Hnew'.
  destruct (server_receives cc f (controller_snapshotid c) i frags (t_dynamicbuf td) Hf Hreads A4 His Hiu Hml (bo_dyn _ Bd) Hrecv) as [R1 R2].
  destruct (H tw tw' reqs td ct' sid' _ Etw Bw Hrun Etd Bd R1 Hnew' R2 eq_refl eq_refl) as (td' & out' & E' & T' & D' & _ & I' & V' & S').
  - cbn [sd_records]. apply List.Forall_map. eapply List.Forall_impl; [|apply Hf]. intros x Hx. apply wire_inswitch_wf, sent_record_wf, Hx.
  - cbn [sd_records]. pose proof (inswitch_size_inserts (map sent_record (f (Z.to_nat i))) []) as Hin.
    rewrite sent_records_length in Hin. unfold inswitch_map. cbn [inswitch_size] in Hin. lia.
  - exists td', out'. do 5 (split; [assumption|]). exact S'.
Qed.

(** C1: a snapshot reaches the range queries.  When the data of the switch is complete,
    the switch OS sends it; from these datagrams, in any order, a round of the
    controller runs through, stores data and id, tells the clients keys and sequence
    numbers, and sends every server its own records, which the server can read whatever
    the order of the datagrams.  A server that handles SNAPSHOT_START, then any
    admissible requests, and then these records acknowledges both messages.  Every
    range query for [cnt] records from [start] on then runs and returns the first [cnt]
    of an ascending list.  For every key that is not behind the [cnt]-th record of the
    store, of the deleted set or of the switch's records ([reached]; behind it keys can
    be left out, [range_scan_skips_key]) the list holds the newest of the store as it
    was at SNAPSHOT_START and of the record that arrived from the switch, and nothing
    written since; the versions clients read are not touched.  A record of the switch
    arrives without its status: it counts as live unless its sequence number is zero
    ([sent_record]), so that deletions of the switch reappear
    ([switch_deletion_reappears]). *)
Theorem snapshot_serves_scans (bs0 : list (Backup M)) (rs : list report) (s : SwitchSnapshot.Snap) (o : Os M) :
  getdata_ready ocfg sc bs0 rs s o ->
  length (ct_stale cc) = buf_len -> is_s32 (SwitchSnapshot.SNAPSHOT_START sc) ->
  SwitchSnapshot.SNAPSHOT_START sc <> SwitchSnapshot.SNAPSHOT_CLEANUP sc ->
  let records := snapshot_records rs bs0 s in
  let bws := perserver_specialcasebwcosts o in
  exists bs s' o' frs,
    process_reports ocfg bs0 rs = Ok bs /\ snapshotserver_poll ocfg sc s (set_backups bs o) = Ok (s', o') /\
    sn_sent s' = sn_sent s ++ map (pair SnController) frs /\
    forall (r : Round) (c : Ctl) (src : sockaddr_in) (perm : list nat),
      let id := controller_snapshotid c in
      setup_ok ocfg sc cc (length bws) c -> round_ok ocfg cc r -> perm ≡ₚ seq 0 (length frs) ->
      switchos_sock c = from_switchos sc r (data_events frs src perm) ->
      (forall i, i ∈ valid_idxes ocfg -> server_socks c !! Z.to_nat i = Some (from_server sc cc r i)) ->
      exists c' notes frags data,
        snapshot_round ocfg sc cc c = Ok c' /\ ct_sent c' = ct_sent c ++ round_messages ocfg sc cc r id notes frags /\
        notes_ok records bws notes /\ controller_snapshotid c' = id + 1 /\
        ct_disk c' ct_snapshotid_path = Some (le_bytes 4 (u32 id)) /\ ct_disk c' (ct_snapshotdata_path id) = Some data /\
        run_reader (deserialize_snapshot_getdata_ack (SNAPSHOT_GETDATA_ACK sc) (Z.of_nat (length data))) data = Ok (servers_data records 0 bws) /\
        forall i, i ∈ valid_idxes ocfg ->
          server_reads cc records id i (frags i) /\ server_merges i id (frags i) (records (Z.to_nat i)).
Proof using All.
  intros Hr Hstale Hst Hne records bws. destruct (getdata_sent ocfg sc bs0 rs s o Hr) as (bs & s' & o' & frs & data & tl & E1 & E2 & _ & E3 & E4 & E5 & E6).
  exists bs, s', o', frs. do 3 (split; [assumption|]). intros r c src perm id Hsu Hro Hp Hsw Hsv.
  assert (Hf : forall i, Forall wire_record_wf (records i)).
  { intros i. apply of_server_wf. eapply List.Forall_impl; [|exact (gr_records _ _ _ _ _ _ Hr)]. cbn. tauto. }
  pose proof (proj1 (gr_size _ _ _ _ _ _ Hr)) as Hsz. fold bws in Hsz. change (fun i => of_server i _) with records in Hsz.
  assert (Hsrv : forall i, (i < length bws)%nat -> 18 + Z.of_nat (length (flat_map record_wire (records i))) <= MAX_LARGE_BUFSIZE)
    by (intros i Hi; pose proof (servers_wire_ge records bws 0 i Hi) as H; cbn [Nat.add] in H; lia).
  assert (Hdata : data_ok sc records bws data tl frs perm).
  { split; try assumption. pose proof (servers_wire_records records bws 0) as H1.
    pose proof (records_wire_ge (concat (map records (seq 0 (length bws))))) as H2. unfold all_records. lia. }
  destruct (snapshot_round_completes ocfg sc cc r c records bws data tl frs src perm Hstale Hsu Hro Hf Hdata Hsw Hsv)
    as (c' & notes & frags & R1 & R2 & R3 & R4 & R5 & _ & R6 & R7).
  exists c', notes, frags, data. do 7 (split; [assumption|]). intros i Hi. split; [exact (R4 i Hi)|].
  apply (server_merges_ok records (length bws) c i (frags i) Hsu Hst Hne Hf Hi); [|exact (R4 i Hi)].
  apply Hsrv. destruct (su_valid _ _ _ _ _ Hsu) as [_ Hv]. rewrite List.Forall_forall in Hv.
  pose proof (Hv i (proj1 (list_elem_of_In _ _) Hi)). lia.
Qed.
End Path.

(** ** Deletions of the switch *)

Lemma first_record_sent k rs : first_record k (map sent_record rs) = (fun r => (sent_record (k, r)).2) <$> first_record k rs.
Proof.
  induction rs as [|[k' r] rs IH]; cbn [map first_record]; [reflexivity|]. unfold sent_record at 1. cbn [fst snd].
  case_decide; [reflexivity|exact IH].
Qed.

(** C8: a deletion in the switch makes the key visible again.  The controller serializes
    the records of a server into a cleared array; the server reads them.  If the switch
    had deleted [k] with a sequence number that is newer than what the server has for
    [k], range queries show the key, with whatever value the deleted record carried,
    where the records of the switch themselves would hide it. *)
Theorem switch_deletion_reappears {DB Snap} `{Hkv : KVStore DB Snap} (d : DynamicArray) (ct id idx : Z) (rs : list (Key * SnapshotRecord))
    (stats : list bool) (db : DB) (ds : DeletedSet) (k : Key) (v : Val) (seq : Z) :
  da_wf d -> _cursize d = 0 -> Forall wire_record_wf rs -> is_s32 ct -> is_s32 id -> is_u16 idx ->
  18 + Z.of_nat (length (flat_map record_wire rs)) <= _maxcapability d ->
  first_record k rs = Some (mkSnapshotRecord v seq false) -> seq <> 0 ->
  (forall r, snap_record db ds k = Some r -> sr_seq r < seq) ->
  exists n d' data,
    dynamic_serialize_snapshot_senddata d ct id idx (Z.of_nat (length rs)) (map fst rs)
      (map (fun x => sr_val x.2) rs) (map (fun x => sr_seq x.2) rs) stats = Ok (n, d') /\
    run_reader (deserialize_snapshot_senddata ct n) (contents d') = Ok data /\
    scan_view db ds (inswitch_map (sd_records data)) k = Some (mkSnapshotRecord v seq true) /\
    scan_view db ds (inswitch_map rs) k = None.
Proof.
  intros W Hc Hf Hct Hid Hi Hm Hk Hs Hold. destruct (senddata_received d ct id idx rs stats W Hc Hf Hct Hid Hi Hm) as (n & d' & E & _ & R).
  exists n, d', (mkSenddata id n idx (Z.of_nat (length rs)) (map sent_record rs)). split; [exact E|]. split; [exact R|].
  cbn [sd_records]. unfold scan_view, inswitch_map. rewrite !find_inserts, first_record_sent, Hk. cbn [m_find fmap option_fmap option_map sent_record snd sr_val sr_seq].
  rewrite (proj2 (Z.eqb_neq _ _) Hs). cbn [negb]. destruct (snap_record db ds k) as [r|] eqn:Er; cbn [newer]; [|split; reflexivity].
  cbn [sr_seq]. rewrite (proj2 (Z.leb_gt _ _) (Hold r eq_refl)). split; reflexivity.
Qed.

(** ** A concrete snapshot *)

(** The round of the controller with id 1, which the servers expect. *)
Definition demo_path_ctl (frs : list (list Z)) : Ctl :=
  mkCtl 1 0 [0; 0] [demo_large_array; demo_large_array] demo_large_array demo_large_array
    (from_switchos demo_sn_config demo_round (data_events frs sockaddr_zero (seq 0 (length frs))))
    [from_server demo_sn_config demo_ct_config demo_round 0; from_server demo_sn_config demo_ct_config demo_round 1] (fun _ => None) [].

Lemma demo_path_setup frs : setup_ok demo_os_config demo_sn_config demo_ct_config 2 (demo_path_ctl frs).
Proof. destruct demo_setup as [H1 H2 H3 H4 H5 H6 H7 H8 _]. split; try assumption. cbn. lia. Qed.

(** What server 0 receives: the deletion of key 2, as a live record. *)
Definition demo_path_records : list (Key * SnapshotRecord) := [(key_of 2, demo_record 9 false)].
Definition demo_path_bytes : list Z := Eval vm_compute in senddata_wire 11 1 0 demo_path_records.
Definition demo_path_cfg : ServerConfig := server_config demo_sn_config demo_ct_config 0 65536 1 7.

Lemma demo_path_cfg_ok : config_ok demo_path_cfg.
Proof. destruct demo_cfg_ok. now constructor. Qed.

Lemma demo_path_waits : server_waits (demo_thread []) 1 db_demo.
Proof.
  constructor; [apply demo_thread_ok; discriminate|apply demo_server_ok|exact db_demo_eq|vm_compute; reflexivity|reflexivity|reflexivity|exact w_demo_ready].
Qed.

Lemma snapshot_serves_scans_witness :
  exists bs s' o' frs c' ts' td',
    process_reports demo_os_config [demo_backup] demo_reports = Ok bs /\
    snapshotserver_poll demo_os_config demo_sn_config (demo_snap SnEndGetdata demo_loaded) (set_backups bs (demo_os [])) = Ok (s', o') /\
    snapshot_round demo_os_config demo_sn_config demo_ct_config (demo_path_ctl frs) = Ok c' /\ controller_snapshotid c' = 2 /\
    snapshotserver_step demo_path_cfg 0 0 (recv_into (replicate 16 0) (signal_wire 7 1)) 8 (demo_thread []) = Ok ((7, 1), ts') /\
    snapshotdataserver_step demo_path_cfg 0 0 (with_server (t_server ts') (demo_thread demo_path_bytes)) = Ok ((11, 1), td') /\
    exists full, range_scan (key_of 0) (key_of 9) (db_wrapper (t_server td')) = Ok (take 9 full, db_wrapper (t_server td')) /\
      m_find (key_of 1) full = Some (mkSnapshotRecord (val_of 7) 5 true).
Proof.
  destruct (snapshot_serves_scans (DB := MemDB.t) (Snap := Z) demo_os_config demo_sn_config demo_ct_config [demo_backup] demo_reports
    (demo_snap SnEndGetdata demo_loaded) (demo_os []) demo_getdata_ready) as (bs & s' & o' & frs & E1 & E2 & _ & H).
  - apply length_replicate.
  - unfold is_s32. cbn. lia.
  - discriminate.
  - destruct (H demo_round (demo_path_ctl frs) sockaddr_zero (seq 0 (length frs)) (demo_path_setup frs) demo_round_ok (Permutation_refl _) eq_refl)
      as (c' & notes & frags & data & E3 & _ & _ & E4 & _ & _ & _ & Hs).
    { intros i [->|[->|[]%not_elem_of_nil]%elem_of_cons]%elem_of_cons; reflexivity. }
    destruct (Hs 0 ltac:(left)) as [Hr Hm].
    destruct (Hm 65536 1 7 (demo_thread []) db_demo 0 0 (replicate 16 0) demo_path_cfg_ok demo_path_waits) as (ts' & out & E5 & _ & _ & Hd);
      [rewrite length_replicate; lia|discriminate|].
    set (td := with_server (t_server ts') (demo_thread demo_path_bytes)).
    assert (B : buffers_ok td) by (apply with_server_ok, demo_thread_ok; vm_compute; discriminate).
    destruct (Hr 0 sockaddr_zero (seq 0 (length (frags 0))) [] demo_large_array (Permutation_refl _)) as (cl & buf' & R1 & R2 & R3 & _);
      [split; [exact demo_large_array_wf|reflexivity]|].
    destruct (Hd td td [] td 0 0 eq_refl B (run_nil _ _) eq_refl B) as (td' & out' & E6 & _ & _ & _ & _ & Hscan).
    { exists 0, sockaddr_zero, (seq 0 (length (frags 0))), [], demo_large_array, cl, (mkReceived false buf' (Some sockaddr_zero) None []).
      split; [reflexivity|]. split; [split; [exact demo_large_array_wf|reflexivity]|]. split; [exact R1|]. split; [exact R2|].
      cbn [rc_buf]. rewrite R3. vm_compute. reflexivity. }
    { discriminate. }
    exists bs, s', o', frs, c', ts', td'. do 6 (split; [assumption|]).
    destruct (Hscan (key_of 0) (key_of 9) 9) as (full & Er & _ & V).
    + apply key_of_wf. unfold is_u32. lia.
    + reflexivity.
    + exists full. split; [exact Er|]. rewrite V; [vm_compute; reflexivity|apply key_of_wf; unfold is_u32; lia|].
      apply reached_short; vm_compute; reflexivity.
Defined.

(** The server has key 1 with 5; the switch has deleted it with 8. *)
Lemma switch_deletion_reappears_witness :
  exists n d' data,
    dynamic_serialize_snapshot_senddata PacketScan.demo_array 11 3 5 1 [key_of 1] [demo_val] [8] [false] = Ok (n, d') /\
    run_reader (deserialize_snapshot_senddata 11 n) (contents d') = Ok data /\
    scan_view db_demo (deleted_set w_demo) (inswitch_map (sd_records data)) (key_of 1) = Some (mkSnapshotRecord demo_val 8 true) /\
    scan_view db_demo (deleted_set w_demo) (inswitch_map [(key_of 1, demo_record 8 false)]) (key_of 1) = None.
Proof.
  apply (switch_deletion_reappears PacketScan.demo_array 11 3 5 [(key_of 1, demo_record 8 false)] [false] db_demo (deleted_set w_demo) (key_of 1) demo_val 8).
  - exact PacketScan.demo_array_wf.
  - reflexivity.
  - constructor; [apply demo_record_wf; unfold is_u32; lia|constructor].
  - unfold is_s32; lia.
  - unfold is_s32; lia.
  - unfold is_u16; lia.
  - vm_compute. discriminate.
  - reflexivity.
  - discriminate.
  - vm_compute. intros r [= <-]. reflexivity.
Defined.
