(* ===== verification/ConcurrentMap.v ===== *)
(** * The ordered map of special cases

    [ConcurrentMap] of farreach/concurrent_map_impl.h (with [ConcurrentVal] of
    concurrent_val.h): the B+-tree in which the switch OS collects the special
    cases of a snapshot, instantiated with [uint16_t] keys.  Nodes live in a heap
    [nodes] and refer to each other by pointers, as in the code: children down,
    [parent] up, [next] from leaf to leaf.  The operations are run by one thread
    alone; a lock that is already held is then never released, and waiting for it
    is the result [Blocked].  A retry of an optimistic read is a further round of
    the loop. *)

From Stdlib Require Import ZArith Lia List.
From stdpp Require Import base tactics list numbers option gmap.
From S2P Require Import Prelude StdMap.

Open Scope Z_scope.

(** ** Arrays

    [std::copy] and [std::copy_backward]: the elements of [src] from index [b] up
    to index [e] are written to [dst] from index [d].  Positions in a node and
    [key_n] are at most 16 and written as [nat]. *)

Definition aget {A} (l : list A) (i : nat) : res A :=
  match l !! i with Some x => Ok x | None => Err OutOfBounds end.
Definition aset {A} (l : list A) (i : nat) (x : A) : res (list A) :=
  if (i <? length l)%nat then Ok (<[i := x]> l) else Err OutOfBounds.
Definition acopy {A} (src : list A) (b e : nat) (dst : list A) (d : nat) : res (list A) :=
  if ((b <=? e) && (e <=? length src) && (d + (e - b) <=? length dst))%nat
  then Ok (take d dst ++ take (e - b) (drop b src) ++ drop (d + (e - b)) dst)
  else Err OutOfBounds.
(** [copy_backward(l + b, l + e, l + e + off)]. *)
Definition amove {A} (l : list A) (b e off : nat) : res (list A) := acopy l b e l (b + off).

Definition non_null {A} (p : option A) : res A :=
  match p with Some q => Ok q | None => Err NullDeref end.

Definition alt_buf_fanout : nat := 16.
Definition node_capacity : nat := alt_buf_fanout - 1.
Definition node_n_per_block : nat := alt_buf_fanout + 1.

(** A pointer is the number of a node in the order of allocation: slot [p mod 17]
    of block [p / 17]. *)
Abbreviation ptr := nat.

Section ConcurrentMap.
Context {V : Type} (val0 : V).

(** ** Values *)

Record ConcurrentVal := mkCV { cv_val : V; status : Z }.

Definition version_mask : Z := 0x0fffffffffffffff.
Definition lock_mask : Z := 0x1000000000000000.

Definition cv_locked (st : Z) : bool := negb (Z.land st lock_mask =? 0).
Definition get_version (st : Z) : Z := Z.land st version_mask.

(** The compare-and-swap succeeds when [status] is what is expected. *)
Definition cv_lock (c : ConcurrentVal) : res ConcurrentVal :=
  let old := status c in
  let expected := Z.land old (2 ^ 64 - 1 - lock_mask) in
  let desired := Z.lor old lock_mask in
  if old =? expected then Ok (mkCV (cv_val c) desired) else Err Blocked.
Definition cv_unlock (c : ConcurrentVal) : ConcurrentVal :=
  mkCV (cv_val c) (Z.land (status c) (2 ^ 64 - 1 - lock_mask)).
Definition incr_version (c : ConcurrentVal) : res ConcurrentVal :=
  let v := get_version (status c) in
  let st := u64 (status c + 1) in
  _ ← INVARIANT (get_version st =? u64 (v + 1));
  Ok (mkCV (cv_val c) st).

Definition cv_read (c : ConcurrentVal) : res (bool * V) :=
  let st := status c in
  let tmpval := cv_val c in
  let current_status := status c in
  if cv_locked current_status then Err Blocked
  else if get_version st =? get_version current_status then Ok (true, tmpval)
  else Err Blocked.
Definition cv_update (val : V) (c : ConcurrentVal) : res (bool * ConcurrentVal) :=
  c ← cv_lock c;
  c ← incr_version (mkCV val (status c));
  Ok (true, cv_unlock c).

(** ** Nodes

    [new (p) leaf_t()] and [new (p) internal_t()] start from
    zeroed memory, for the classes have no constructor of their own. *)

Inductive Part :=
  | Internal (children : list (option ptr))
  | Leaf (vals : list ConcurrentVal) (next : option ptr).

Record Node := mkNode {
  is_leaf : bool;
  locked : Z;
  key_n : nat;
  version : Z;
  keys : list Z;
  parent : option ptr;
  part : Part
}.

Definition new_internal : Node :=
  mkNode false 0 0 0 (replicate node_capacity 0) None (Internal (replicate alt_buf_fanout None)).
Definition new_leaf : Node :=
  mkNode false 0 0 0 (replicate node_capacity 0) None (Leaf (replicate node_capacity (mkCV val0 0)) None).

Definition set_is_leaf (b : bool) (n : Node) : Node :=
  mkNode b (locked n) (key_n n) (version n) (keys n) (parent n) (part n).
Definition set_locked (l : Z) (n : Node) : Node :=
  mkNode (is_leaf n) l (key_n n) (version n) (keys n) (parent n) (part n).
Definition set_key_n (k : nat) (n : Node) : Node :=
  mkNode (is_leaf n) (locked n) k (version n) (keys n) (parent n) (part n).
Definition incr_node_version (n : Node) : Node :=
  mkNode (is_leaf n) (locked n) (key_n n) (u64 (version n + 1)) (keys n) (parent n) (part n).
Definition set_keys (ks : list Z) (n : Node) : Node :=
  mkNode (is_leaf n) (locked n) (key_n n) (version n) ks (parent n) (part n).
Definition set_parent (p : option ptr) (n : Node) : Node :=
  mkNode (is_leaf n) (locked n) (key_n n) (version n) (keys n) p (part n).
Definition set_part (pt : Part) (n : Node) : Node :=
  mkNode (is_leaf n) (locked n) (key_n n) (version n) (keys n) (parent n) pt.

(** Fields of a node after a cast to [internal_t] or [leaf_t]. *)
Definition children (n : Node) : res (list (option ptr)) :=
  match part n with Internal ch => Ok ch | Leaf _ _ => Err OutOfBounds end.
Definition vals (n : Node) : res (list ConcurrentVal) :=
  match part n with Leaf vs _ => Ok vs | Internal _ => Err OutOfBounds end.
Definition next (n : Node) : res (option ptr) :=
  match part n with Leaf _ nx => Ok nx | Internal _ => Err OutOfBounds end.
Definition set_vals (vs : list ConcurrentVal) (n : Node) : res Node :=
  nx ← next n; Ok (set_part (Leaf vs nx) n).
Definition set_next (nx : option ptr) (n : Node) : res Node :=
  vs ← vals n; Ok (set_part (Leaf vs nx) n).
Definition set_children (ch : list (option ptr)) (n : Node) : res Node :=
  _ ← children n; Ok (set_part (Internal ch) n).

Definition is_full (n : Node) : bool := (key_n n =? node_capacity)%nat.

(** The binary searches: [test] is the comparison of a key of the node with the
    key that is looked for. *)
Fixpoint search (fuel : nat) (test : Z -> bool) (ks : list Z) (begin_i end_i : nat) : res nat :=
  let mid := ((begin_i + end_i) / 2)%nat in
  if (begin_i <? end_i)%nat then
    match fuel with
    | O => Err OutOfFuel
    | S fuel' =>
        k ← aget ks mid;
        if (test k : bool) then search fuel' test ks begin_i mid
        else search fuel' test ks (mid + 1) end_i
    end
  else Ok mid.

Definition find_first_larger_than_or_equal_to (key : Z) (n : Node) : res nat :=
  search (key_n n) (fun k => key <=? k) (keys n) 0 (key_n n).
Definition find_first_larger_than (key : Z) (n : Node) : res nat :=
  search (key_n n) (fun k => key <? k) (keys n) 0 (key_n n).
Definition find_child (key : Z) (n : Node) : res (option ptr) :=
  ch ← children n;
  i ← find_first_larger_than key n;
  aget ch i.

Definition last_key (n : Node) : res Z :=
  if (key_n n =? 0)%nat then Err OutOfBounds else aget (keys n) (key_n n - 1).

(** ** The map *)

Record CMap := mkCMap {
  root : ptr;
  begin : ptr;
  size_est : Z;
  allocated_blocks : nat;   (* how many *)
  next_node_i : nat;
  nodes : gmap ptr Node
}.

Definition cm (A : Type) : Type := CMap -> res (A * CMap).
#[global] Instance cm_ret : MRet cm := fun _ a s => Ok (a, s).
#[global] Instance cm_bind : MBind cm := fun _ _ f m s =>
  match m s with Ok (a, s') => f a s' | Err e => Err e end.

Definition cm_lift {A} (r : res A) : cm A :=
  fun s => match r with Ok a => Ok (a, s) | Err e => Err e end.
(** [assert]; the program is built without NDEBUG. *)
Definition cm_assert (c : bool) : cm unit := cm_lift (INVARIANT c).
Definition cm_fail {A} (e : fault) : cm A := fun _ => Err e.
Definition cm_gets {A} (f : CMap -> A) : cm A := fun s => Ok (f s, s).

Definition set_nodes (h : gmap ptr Node) (s : CMap) : CMap :=
  mkCMap (root s) (begin s) (size_est s) (allocated_blocks s) (next_node_i s) h.
Definition set_root (p : ptr) : cm unit := fun s =>
  Ok (tt, mkCMap p (begin s) (size_est s) (allocated_blocks s) (next_node_i s) (nodes s)).
Definition incr_size_est : cm unit := fun s =>
  Ok (tt, mkCMap (root s) (begin s) (u32 (size_est s + 1)) (allocated_blocks s) (next_node_i s) (nodes s)).

Definition load (p : ptr) : cm Node := fun s =>
  match nodes s !! p with Some n => Ok (n, s) | None => Err OutOfBounds end.
Definition store (p : ptr) (n : Node) : cm unit := fun s => Ok (tt, set_nodes (<[p := n]> (nodes s)) s).
Definition update_node (p : ptr) (f : Node -> res Node) : cm unit :=
  n ← load p; n' ← cm_lift (f n); store p n'.
Definition modify_node (p : ptr) (f : Node -> Node) : cm unit := update_node p (fun n => Ok (f n)).

Definition lock (p : ptr) : cm unit :=
  n ← load p;
  if locked n =? 0 then store p (set_locked 1 n) else cm_fail Blocked.
Definition unlock (p : ptr) : cm unit := modify_node p (set_locked 0).

(** *** Allocation *)

Definition available_node_index : cm ptr := fun s =>
  let blocks := if (next_node_i s mod node_n_per_block =? 0)%nat then S (allocated_blocks s) else allocated_blocks s in
  Ok (next_node_i s, mkCMap (root s) (begin s) (size_est s) blocks (S (next_node_i s)) (nodes s)).
Definition allocate_node : cm ptr :=
  index ← available_node_index;
  blocks ← cm_gets allocated_blocks;
  if (index / node_n_per_block <? blocks)%nat then mret index else cm_fail OutOfBounds.
Definition allocate_internal : cm ptr :=
  p ← allocate_node; _ ← store p new_internal; mret p.
Definition allocate_leaf : cm ptr :=
  p ← allocate_node; _ ← store p new_leaf; mret p.

Definition ConcurrentMap_new : res CMap :=
  '(p, s) ← allocate_leaf (mkCMap 0%nat 0%nat 0 0 0 ∅);
  '(_, s) ← modify_node p (set_is_leaf true) s;
  '(_, s) ← modify_node p (set_key_n 0) s;
  Ok (mkCMap p p 0 (allocated_blocks s) (next_node_i s) (nodes s)).

(** *** Locating a leaf *)

(** The loop from [root] down: [None] is at [retry], [Some] at a node with the
    version that was read. *)
Fixpoint locate_leaf_loop (fuel : nat) (key : Z) (pos : option (ptr * Z)) : cm (ptr * Z) :=
  match fuel with
  | O => cm_fail OutOfFuel
  | S fuel' =>
      match pos with
      | None =>
          node_ptr ← cm_gets root;
          n ← load node_ptr;
          if bool_decide (parent n <> None) then locate_leaf_loop fuel' key None
          else locate_leaf_loop fuel' key (Some (node_ptr, version n))
      | Some (node_ptr, node_ver) =>
          n ← load node_ptr;
          if is_leaf n then mret (node_ptr, node_ver) else
          next_ptr ← cm_lift (find_child key n ≫= non_null);
          next_n ← load next_ptr;
          n ← load node_ptr;
          if negb (locked n =? 1) && (node_ver =? version n)
          then locate_leaf_loop fuel' key (Some (next_ptr, version next_n))
          else locate_leaf_loop fuel' key None
      end
  end.

(** Enough rounds for every tree with the nodes allocated so far. *)
Definition loop_fuel (s : CMap) : nat := next_node_i s + 2.
Definition locate_leaf (key : Z) : cm (ptr * Z) :=
  fuel ← cm_gets loop_fuel; locate_leaf_loop fuel key None.

(** From a leaf that has changed to the right, along [next]. *)
Fixpoint walk_right (fuel : nat) (key : Z) (leaf_ptr : ptr) : cm (ptr * Z) :=
  match fuel with
  | O => cm_fail OutOfFuel
  | S fuel' =>
      n ← load leaf_ptr;
      next_ptr ← cm_lift (next n);
      match next_ptr with
      | None => mret (leaf_ptr, version n)
      | Some q =>
          nq ← load q;
          k ← cm_lift (aget (keys nq) 0);
          if k <=? key then walk_right fuel' key q else mret (leaf_ptr, version n)
      end
  end.

Fixpoint lock_leaf (fuel : nat) (key : Z) (leaf_ptr : ptr) (leaf_ver : Z) : cm ptr :=
  match fuel with
  | O => cm_fail OutOfFuel
  | S fuel' =>
      _ ← lock leaf_ptr;
      n ← load leaf_ptr;
      if negb (leaf_ver =? version n) then
        _ ← unlock leaf_ptr;
        '(leaf_ptr, leaf_ver) ← walk_right fuel' key leaf_ptr;
        lock_leaf fuel' key leaf_ptr leaf_ver
      else mret leaf_ptr
  end.
Definition locate_leaf_locked (key : Z) : cm ptr :=
  '(leaf_ptr, leaf_ver) ← locate_leaf key;
  fuel ← cm_gets loop_fuel;
  lock_leaf fuel key leaf_ptr leaf_ver.

(** *** get and update *)

(** [slot < key_n && keys[slot] == key] *)
Definition has_key (slot : nat) (key : Z) (n : Node) : res bool :=
  if (slot <? key_n n)%nat then k ← aget (keys n) slot; Ok (k =? key) else Ok false.

(** The value of a key in a leaf; [None] is the result [false]. *)
Definition leaf_get (key : Z) (n : Node) : res (option V) :=
  slot ← find_first_larger_than_or_equal_to key n;
  b ← has_key slot key n;
  if (b : bool) then vs ← vals n; c ← aget vs slot; '(b, v) ← cv_read c; Ok (if (b : bool) then Some v else None)
  else Ok None.

Fixpoint get_loop (fuel : nat) (key : Z) (leaf_ptr : ptr) (leaf_ver : Z) : cm (option V) :=
  match fuel with
  | O => cm_fail OutOfFuel
  | S fuel' =>
      n ← load leaf_ptr;
      v ← cm_lift (leaf_get key n);
      n ← load leaf_ptr;
      if negb (locked n =? 1) && (leaf_ver =? version n) then mret v
      else
        '(leaf_ptr, leaf_ver) ← walk_right fuel' key leaf_ptr;
        get_loop fuel' key leaf_ptr leaf_ver
  end.
Definition cm_get (key : Z) : cm (option V) :=
  '(leaf_ptr, leaf_ver) ← locate_leaf key;
  fuel ← cm_gets loop_fuel;
  get_loop fuel key leaf_ptr leaf_ver.

(** [vals[slot].update(val)] *)
Definition update_val (slot : nat) (val : V) (n : Node) : res Node :=
  vs ← vals n;
  c ← aget vs slot;
  '(_, c) ← cv_update val c;
  vs ← aset vs slot c;
  set_vals vs n.

Definition cm_update (key : Z) (val : V) : cm bool :=
  leaf_ptr ← locate_leaf_locked key;
  n ← load leaf_ptr;
  slot ← cm_lift (find_first_larger_than_or_equal_to key n);
  b ← cm_lift (has_key slot key n);
  _ ← (if (b : bool) then update_node leaf_ptr (update_val slot val) else mret tt);
  _ ← unlock leaf_ptr;
  mret b.

(** *** insert *)

(** [for (int i = 0; i < n; i++) assert(check(i));] *)
Fixpoint for_assert (n : nat) (check : nat -> cm bool) : cm unit :=
  match n with
  | O => mret tt
  | S n' => _ ← for_assert n' check; b ← check n'; cm_assert b
  end.

Definition child_at (p : ptr) (i : nat) : cm ptr :=
  n ← load p; ch ← cm_lift (children n); c ← cm_lift (aget ch i); cm_lift (non_null c).

(** [keys[i] < keys[i + 1]] in a node. *)
Definition keys_ascend (p : ptr) (i : nat) : cm bool :=
  n ← load p;
  a ← cm_lift (aget (keys n) i);
  b ← cm_lift (aget (keys n) (i + 1));
  mret (a <? b).
(** The keys of child [i] are below [keys[i]], those of child [i + 1] are not. *)
Definition children_separated (p : ptr) (i : nat) : cm bool :=
  n ← load p;
  k ← cm_lift (aget (keys n) i);
  l ← child_at p i;
  ln ← load l;
  lk ← cm_lift (last_key ln);
  _ ← cm_assert (lk <? k);
  r ← child_at p (i + 1);
  rn ← load r;
  rk ← cm_lift (aget (keys rn) 0);
  mret (k <=? rk).
Definition child_of (p : ptr) (i : nat) : cm bool :=
  c ← child_at p i; n ← load c; mret (bool_decide (parent n = Some p)).

(** The loops of assertions on an internal node. *)
Definition assert_internal (p : ptr) : cm unit :=
  n ← load p;
  _ ← for_assert (key_n n - 1) (keys_ascend p);
  _ ← for_assert (key_n n) (children_separated p);
  for_assert (key_n n + 1) (child_of p).

(** The contents of the two halves when a full leaf is split at [mid]. *)
Definition leaf_to_sibling (insert_key : Z) (val : V) (slot mid : nat) (n sib : Node) : res Node :=
  nv ← vals n; sv ← vals sib;
  ks ← acopy (keys n) mid slot (keys sib) 0;
  ks ← acopy (keys n) slot (key_n n) ks (slot - mid + 1);
  vs ← acopy nv mid slot sv 0;
  vs ← acopy nv slot (key_n n) vs (slot - mid + 1);
  ks ← aset ks (slot - mid) insert_key;
  vs ← aset vs (slot - mid) (mkCV val 0);
  set_vals vs (set_key_n (key_n n - mid + 1) (set_keys ks sib)).
Definition leaf_tail (mid : nat) (n sib : Node) : res Node :=
  nv ← vals n; sv ← vals sib;
  ks ← acopy (keys n) mid (key_n n) (keys sib) 0;
  vs ← acopy nv mid (key_n n) sv 0;
  set_vals vs (set_key_n (key_n n - mid) (set_keys ks sib)).
(** A pair put at [slot], with the keys and values in front of index [e] moved. *)
Definition leaf_put (insert_key : Z) (val : V) (slot e : nat) (n : Node) : res Node :=
  nv ← vals n;
  ks ← amove (keys n) slot e 1;
  vs ← amove nv slot e 1;
  ks ← aset ks slot insert_key;
  vs ← aset vs slot (mkCV val 0);
  set_vals vs (set_keys ks n).

(** A key and the child behind it put into an internal node at [slot]. *)
Definition internal_put (key : Z) (child : ptr) (slot e : nat) (n : Node) : res Node :=
  ch ← children n;
  ks ← amove (keys n) slot e 1;
  ch ← amove ch (slot + 1) (e + 1) 1;
  ks ← aset ks slot key;
  ch ← aset ch (slot + 1) (Some child);
  set_children ch (set_keys ks n).

(** The contents of the new sibling when a full internal node is split at [mid]. *)
Definition internal_to_sibling_first (prev_sib : ptr) (mid : nat) (n sib : Node) : res Node :=
  nc ← children n; sc ← children sib;
  ks ← acopy (keys n) mid (key_n n) (keys sib) 0;
  ch ← acopy nc (mid + 1) (key_n n + 1) sc 1;
  ch ← aset ch 0 (Some prev_sib);
  set_children ch (set_key_n (key_n n - mid) (set_keys ks sib)).
Definition internal_to_sibling (prev_split_key : Z) (prev_sib : ptr) (slot mid : nat) (n sib : Node) : res Node :=
  nc ← children n; sc ← children sib;
  ks ← acopy (keys n) (mid + 1) slot (keys sib) 0;
  ks ← acopy (keys n) slot (key_n n) ks (slot - mid);
  ch ← acopy nc (mid + 1) (slot + 1) sc 0;
  ch ← acopy nc (slot + 1) (key_n n + 1) ch (slot - mid + 1);
  ks ← aset ks (slot - mid - 1) prev_split_key;
  ch ← aset ch (slot - mid) (Some prev_sib);
  set_children ch (set_key_n (key_n n - mid) (set_keys ks sib)).
Definition internal_tail (mid : nat) (n sib : Node) : res Node :=
  nc ← children n; sc ← children sib;
  ks ← acopy (keys n) (mid + 1) (key_n n) (keys sib) 0;
  ch ← acopy nc (mid + 1) (key_n n + 1) sc 0;
  set_children ch (set_key_n (key_n n - mid - 1) (set_keys ks sib)).

(** [for (child_i = 0; child_i < n; ...) children[child_i]->parent = sib_ptr;] *)
Fixpoint adopt (n : nat) (sib_ptr : ptr) : cm unit :=
  match n with
  | O => mret tt
  | S n' =>
      _ ← adopt n' sib_ptr;
      c ← child_at sib_ptr n';
      modify_node c (set_parent (Some sib_ptr))
  end.

Definition done_with (p : ptr) : cm unit := modify_node p incr_node_version.

(** The loop that finds and locks the parent of a node. *)
Fixpoint lock_parent (fuel : nat) (node_ptr : ptr) : cm (option ptr) :=
  match fuel with
  | O => cm_fail OutOfFuel
  | S fuel' =>
      n ← load node_ptr;
      match parent n with
      | None => mret None
      | Some parent_ptr =>
          _ ← lock parent_ptr;
          n ← load node_ptr;
          if bool_decide (Some parent_ptr <> parent n) then _ ← unlock parent_ptr; lock_parent fuel' node_ptr
          else mret (Some parent_ptr)
      end
  end.

(** A new root over the two halves of the old one. *)
Definition grow_root (node_ptr sib_ptr : ptr) (split_key : Z) : cm unit :=
  parent_ptr ← allocate_internal;
  _ ← lock parent_ptr;
  _ ← modify_node parent_ptr (set_is_leaf false);
  _ ← update_node parent_ptr (fun n =>
        ks ← aset (keys n) 0 split_key;
        ch ← children n;
        ch ← aset ch 0 (Some node_ptr);
        ch ← aset ch 1 (Some sib_ptr);
        set_children ch (set_key_n 1 (set_keys ks n)));
  n ← load parent_ptr;
  _ ← for_assert (key_n n - 1) (keys_ascend parent_ptr);
  _ ← modify_node node_ptr (set_parent (Some parent_ptr));
  _ ← modify_node sib_ptr (set_parent (Some parent_ptr));
  _ ← set_root parent_ptr;
  _ ← done_with parent_ptr;
  _ ← done_with node_ptr;
  _ ← done_with sib_ptr;
  _ ← unlock parent_ptr;
  _ ← unlock node_ptr;
  unlock sib_ptr.

Definition same_slot (key : Z) (n : Node) : res bool :=
  a ← find_first_larger_than key n;
  b ← find_first_larger_than_or_equal_to key n;
  Ok (a =? b)%nat.

(** A parent with room gets the new sibling. *)
Definition put_in_parent (parent_ptr node_ptr sib_ptr : ptr) (split_key : Z) : cm unit :=
  n ← load parent_ptr;
  slot ← cm_lift (find_first_larger_than split_key n);
  b ← cm_lift (same_slot split_key n);
  _ ← cm_assert b;
  _ ← update_node parent_ptr (internal_put split_key sib_ptr slot (key_n n));
  _ ← modify_node parent_ptr (set_key_n (key_n n + 1));
  _ ← modify_node sib_ptr (set_parent (Some parent_ptr));
  n ← load parent_ptr;
  _ ← cm_assert (negb (is_leaf n));
  _ ← cm_assert (negb (locked n =? 0));
  _ ← cm_assert (key_n n <=? alt_buf_fanout - 1)%nat;
  _ ← assert_internal parent_ptr;
  _ ← done_with parent_ptr;
  _ ← done_with node_ptr;
  _ ← done_with sib_ptr;
  _ ← unlock parent_ptr;
  _ ← unlock node_ptr;
  unlock sib_ptr.

(** The contents of both halves of a full internal node that is split at [mid],
    with a new child behind position [slot]; the key between the halves. *)
Definition split_internal (node_ptr sib_ptr prev_sib_ptr : ptr) (prev_split_key : Z) (slot mid : nat) : cm Z :=
  n ← load node_ptr;
  if (mid <=? slot)%nat then
    split_key ←
      (if (slot =? mid)%nat then
         _ ← update_node sib_ptr (internal_to_sibling_first prev_sib_ptr mid n);
         mret prev_split_key
       else
         _ ← update_node sib_ptr (internal_to_sibling prev_split_key prev_sib_ptr slot mid n);
         cm_lift (aget (keys n) mid));
    _ ← modify_node node_ptr (set_key_n mid);
    mret split_key
  else
    _ ← update_node sib_ptr (internal_tail mid n);
    split_key ← cm_lift (aget (keys n) mid);
    _ ← update_node node_ptr (internal_put prev_split_key prev_sib_ptr slot mid);
    _ ← modify_node prev_sib_ptr (set_parent (Some node_ptr));
    _ ← modify_node node_ptr (set_key_n (mid + 1));
    mret split_key.

Definition assert_halves (node_ptr sib_ptr : ptr) : cm unit :=
  s ← load sib_ptr;
  n ← load node_ptr;
  _ ← cm_assert (negb (is_leaf s));
  _ ← cm_assert (negb (locked s =? 0));
  _ ← cm_assert (negb (is_leaf n));
  _ ← cm_assert (negb (locked n =? 0));
  _ ← cm_assert (key_n s + key_n n =? alt_buf_fanout - 1)%nat;
  sk ← cm_lift (aget (keys s) 0);
  nk ← cm_lift (last_key n);
  _ ← cm_assert (nk <? sk);
  _ ← assert_internal node_ptr;
  assert_internal sib_ptr.

(** A full parent is split: the new sibling of the parent and the key between the
    two. *)
Definition split_parent (parent_ptr prev_node_ptr prev_sib_ptr : ptr) (prev_split_key : Z) : cm (ptr * Z) :=
  let node_ptr := parent_ptr in
  sib_ptr ← allocate_internal;
  _ ← lock sib_ptr;
  _ ← modify_node sib_ptr (set_is_leaf false);
  n ← load node_ptr;
  slot ← cm_lift (find_first_larger_than prev_split_key n);
  b ← cm_lift (same_slot prev_split_key n);
  _ ← cm_assert b;
  let mid := (key_n n / 2)%nat in
  let mid := (if (slot <? mid) && (key_n n - (mid + 1) <? mid) then mid - 1 else mid)%nat in
  let mid := (if slot =? key_n n then key_n n - 1 else mid)%nat in
  split_key ← split_internal node_ptr sib_ptr prev_sib_ptr prev_split_key slot mid;
  s ← load sib_ptr;
  _ ← adopt (key_n s + 1) sib_ptr;
  _ ← done_with prev_node_ptr;
  _ ← done_with prev_sib_ptr;
  _ ← unlock prev_node_ptr;
  _ ← unlock prev_sib_ptr;
  _ ← assert_halves node_ptr sib_ptr;
  mret (sib_ptr, split_key).

(** The loop that climbs from the split leaf towards the root. *)
Fixpoint split_loop (fuel : nat) (node_ptr sib_ptr : ptr) (split_key : Z) : cm unit :=
  match fuel with
  | O => cm_fail OutOfFuel
  | S fuel' =>
      p ← lock_parent fuel' node_ptr;
      match p with
      | None => grow_root node_ptr sib_ptr split_key
      | Some parent_ptr =>
          n ← load parent_ptr;
          if is_full n then
            '(sib', split_key') ← split_parent parent_ptr node_ptr sib_ptr split_key;
            split_loop fuel' parent_ptr sib' split_key'
          else put_in_parent parent_ptr node_ptr sib_ptr split_key
      end
  end.

(** The contents of both halves of a full leaf that is split at [mid]. *)
Definition split_leaf (node_ptr sib_ptr : ptr) (insert_key : Z) (val : V) (slot mid : nat) : cm unit :=
  n ← load node_ptr;
  if (mid <=? slot)%nat then
    _ ← update_node sib_ptr (leaf_to_sibling insert_key val slot mid n);
    modify_node node_ptr (set_key_n mid)
  else
    _ ← update_node sib_ptr (leaf_tail mid n);
    _ ← update_node node_ptr (leaf_put insert_key val slot mid);
    modify_node node_ptr (set_key_n (mid + 1)).

(** The assertions on the two leaves; the first key of the second one. *)
Definition assert_leaves (node_ptr sib_ptr : ptr) : cm Z :=
  s ← load sib_ptr;
  n ← load node_ptr;
  _ ← cm_assert (is_leaf s);
  _ ← cm_assert (negb (locked s =? 0));
  _ ← cm_assert (is_leaf n);
  _ ← cm_assert (negb (locked n =? 0));
  _ ← cm_assert (key_n s + key_n n =? alt_buf_fanout)%nat;
  split_key ← cm_lift (aget (keys s) 0);
  nk ← cm_lift (last_key n);
  _ ← cm_assert (nk <? split_key);
  _ ← for_assert (key_n n - 1) (keys_ascend node_ptr);
  _ ← for_assert (key_n s - 1) (keys_ascend sib_ptr);
  mret split_key.

Definition split_n_insert_leaf (insert_key : Z) (val : V) (slot : nat) (target : ptr) : cm unit :=
  let node_ptr := target in
  sib_ptr ← allocate_leaf;
  _ ← lock sib_ptr;
  _ ← modify_node sib_ptr (set_is_leaf true);
  n ← load node_ptr;
  let mid := (key_n n / 2)%nat in
  let mid := (if (mid <=? slot) && (mid <? key_n n - mid) then mid + 1 else mid)%nat in
  let mid := (if slot =? key_n n then key_n n else mid)%nat in
  _ ← split_leaf node_ptr sib_ptr insert_key val slot mid;
  n ← load node_ptr;
  nx ← cm_lift (next n);
  _ ← update_node sib_ptr (set_next nx);
  _ ← update_node node_ptr (set_next (Some sib_ptr));
  split_key ← assert_leaves node_ptr sib_ptr;
  fuel ← cm_gets loop_fuel;
  split_loop fuel node_ptr sib_ptr split_key.

Definition insert_leaf (key : Z) (val : V) (target : ptr) : cm unit :=
  n ← load target;
  slot ← cm_lift (find_first_larger_than_or_equal_to key n);
  b ← cm_lift (has_key slot key n);
  if (b : bool) then
    _ ← update_node target (update_val slot val);
    unlock target
  else if negb (is_full n) then
    _ ← update_node target (leaf_put key val slot (key_n n));
    _ ← modify_node target (set_key_n (key_n n + 1));
    _ ← modify_node target incr_node_version;
    _ ← unlock target;
    incr_size_est
  else
    _ ← split_n_insert_leaf key val slot target;
    incr_size_est.

Definition cm_insert (key : Z) (val : V) : cm unit :=
  leaf_ptr ← locate_leaf_locked key;
  insert_leaf key val leaf_ptr.

(** [remove] only prints a message. *)
Definition cm_remove (key : Z) : cm bool := mret false.
Definition cm_size : cm Z := cm_gets size_est.

(** *** Iteration *)

Record DataSource := mkSource {
  src_next : option ptr;
  has_next : bool;
  pos : Z;
  src_n : Z;
  src_keys : list Z;
  src_vals : list V
}.

(** The loop that copies the pairs of a leaf from index [i] on: [cnt] of them
    are left, [p] is the next position to fill. *)
Fixpoint read_pairs (cnt i p : nat) (n : Node) (ks : list Z) (vs : list V) : res (nat * list Z * list V) :=
  match cnt with
  | O => Ok (p, ks, vs)
  | S cnt' =>
      cvs ← vals n;
      c ← aget cvs i;
      '(b, v) ← cv_read c;
      if (b : bool) then
        vs ← aset vs p v;
        k ← aget (keys n) i;
        ks ← aset ks p k;
        read_pairs cnt' (S i) (S p) n ks vs
      else read_pairs cnt' (S i) p n ks vs
  end.

(** [DataSource(begin, buffer)]. *)
Fixpoint source_loop (fuel : nat) (key : Z) (ks : list Z) (vs : list V) (leaf_ptr : ptr) (leaf_ver : Z) : cm DataSource :=
  match fuel with
  | O => cm_fail OutOfFuel
  | S fuel' =>
      n ← load leaf_ptr;
      slot ← cm_lift (find_first_larger_than_or_equal_to key n);
      '(cnt, ks, vs) ← cm_lift (read_pairs (key_n n - slot) slot 0 n ks vs);
      nx ← cm_lift (next n);
      n ← load leaf_ptr;
      if negb (locked n =? 1) && (leaf_ver =? version n)
      then mret (mkSource nx false (-1) (Z.of_nat cnt) ks vs)
      else
        '(leaf_ptr, leaf_ver) ← walk_right fuel' key leaf_ptr;
        source_loop fuel' key ks vs leaf_ptr leaf_ver
  end.
Definition DataSource_new (key : Z) : cm DataSource :=
  '(leaf_ptr, leaf_ver) ← locate_leaf key;
  fuel ← cm_gets loop_fuel;
  source_loop fuel key (replicate node_capacity 0) (replicate node_capacity val0) leaf_ptr leaf_ver.

(** The loop of [advance_to_next_valid] that reads one leaf until it has not
    changed meanwhile. *)
Fixpoint read_leaf (fuel : nat) (leaf_ptr : ptr) (leaf_ver : Z) (ks : list Z) (vs : list V) :
    cm (nat * list Z * list V * option ptr) :=
  match fuel with
  | O => cm_fail OutOfFuel
  | S fuel' =>
      n ← load leaf_ptr;
      '(cnt, ks, vs) ← cm_lift (read_pairs (key_n n) 0 0 n ks vs);
      nx ← cm_lift (next n);
      n ← load leaf_ptr;
      if negb (locked n =? 1) && (leaf_ver =? version n) then mret (cnt, ks, vs, nx)
      else read_leaf fuel' leaf_ptr (version n) ks vs
  end.

Fixpoint next_leaf_loop (fuel : nat) (d : DataSource) : cm DataSource :=
  match fuel with
  | O => cm_fail OutOfFuel
  | S fuel' =>
      match src_next d with
      | None => mret (mkSource None false (pos d) (src_n d) (src_keys d) (src_vals d))
      | Some leaf_ptr =>
          n ← load leaf_ptr;
          '(cnt, ks, vs, nx) ← read_leaf fuel leaf_ptr (version n) (src_keys d) (src_vals d);
          if negb (cnt =? 0)%nat then mret (mkSource nx true 0 (Z.of_nat cnt) ks vs)
          else next_leaf_loop fuel' (mkSource nx (has_next d) 0 (Z.of_nat cnt) ks vs)
      end
  end.
Definition advance_to_next_valid (d : DataSource) : cm DataSource :=
  if pos d <? src_n d - 1
  then mret (mkSource (src_next d) true (pos d + 1) (src_n d) (src_keys d) (src_vals d))
  else fuel ← cm_gets loop_fuel; next_leaf_loop fuel d.

Definition get_key (d : DataSource) : res Z :=
  if pos d <? 0 then Err OutOfBounds else aget (src_keys d) (Z.to_nat (pos d)).
Definition get_val (d : DataSource) : res V :=
  if pos d <? 0 then Err OutOfBounds else aget (src_vals d) (Z.to_nat (pos d)).

(** [scan]: at most [remaining] pairs. *)
Fixpoint scan_loop (remaining : nat) (d : DataSource) (result : list (Z * V)) : cm (list (Z * V)) :=
  if has_next d then
    match remaining with
    | O => mret result
    | S remaining' =>
        k ← cm_lift (get_key d);
        v ← cm_lift (get_val d);
        d ← advance_to_next_valid d;
        scan_loop remaining' d (result ++ [(k, v)])
    end
  else mret result.
Definition cm_scan (key_begin : Z) (n : nat) : cm (list (Z * V)) :=
  d ← DataSource_new key_begin;
  d ← advance_to_next_valid d;
  scan_loop n d [].

(** [range_scan], with a bound on the number of rounds; the pairs of a tree are at
    most as many as the slots of its leaves. *)
Fixpoint range_scan_loop (fuel : nat) (stop : Z -> bool) (d : DataSource) (result : list (Z * V)) : cm (list (Z * V)) :=
  match fuel with
  | O => cm_fail OutOfFuel
  | S fuel' =>
      if has_next d then
        k ← cm_lift (get_key d);
        if stop k then mret result else
        v ← cm_lift (get_val d);
        d ← advance_to_next_valid d;
        range_scan_loop fuel' stop d (result ++ [(k, v)])
      else mret result
  end.
Definition scan_fuel (s : CMap) : nat := node_capacity * next_node_i s + 1.
Definition cm_range_scan (key_begin key_end : Z) : cm (list (Z * V)) :=
  d ← DataSource_new key_begin;
  d ← advance_to_next_valid d;
  fuel ← cm_gets scan_fuel;
  range_scan_loop fuel (fun k => key_end <? k) d [].

(** All pairs, as the snapshotserver of the switch OS visits them. *)
Definition all_pairs : cm (list (Z * V)) :=
  d ← DataSource_new 0;
  d ← advance_to_next_valid d;
  fuel ← cm_gets scan_fuel;
  range_scan_loop fuel (fun _ => false) d [].
End ConcurrentMap.
