(* ===== verification/ConcurrentMapTree.v ===== *)
(** * Searching the B+-tree of special cases

    The tree of [ConcurrentMap] seen as levels.  An entry is a node with the least
    key it is responsible for ([None] for the leftmost node of a level).  A level
    is a list of internal nodes, each with the entries of its children; the
    entries of a level, concatenated, are the nodes of the level below, and the
    entries of the nodes themselves form the level above.  Looking up a key is then
    the search for the last entry that is not above the key, level by level. *)

From Stdlib Require Import ZArith Lia List Sorted.
From stdpp Require Import base tactics list numbers option gmap sorting.
From S2P Require Import Prelude StdMap ConcurrentMap.

Open Scope Z_scope.

(** ** Arrays *)

Lemma aget_Ok {A} (l : list A) i x : l !! i = Some x -> aget l i = Ok x.
Proof. unfold aget. now intros ->. Qed.

Lemma aset_Ok {A} (l : list A) i x : (i < length l)%nat ->
  exists l', aset l i x = Ok l' /\ length l' = length l /\ forall j, l' !! j = if decide (j = i) then Some x else l !! j.
Proof.
  intros H. unfold aset. rewrite (proj2 (Nat.ltb_lt _ _) H). eexists; split; [reflexivity|].
  split; [apply length_insert|]. intros j. destruct (decide (j = i)) as [->|Hn]; [now apply list_lookup_insert_eq|].
  now apply list_lookup_insert_ne.
Qed.

Lemma acopy_Ok {A} (src dst : list A) b e d : (b <= e <= length src)%nat -> (d + (e - b) <= length dst)%nat ->
  exists l, acopy src b e dst d = Ok l /\ length l = length dst /\
    forall i, l !! i = if decide (d <= i < d + (e - b))%nat then src !! (b + (i - d))%nat else dst !! i.
Proof.
  intros H1 H2. unfold acopy.
  rewrite (proj2 (Nat.leb_le b e)), (proj2 (Nat.leb_le e _)), (proj2 (Nat.leb_le _ (length dst))) by lia.
  cbn. eexists; split; [reflexivity|]. split.
  - rewrite !length_app, !length_take, !length_drop. lia.
  - intros i. destruct (decide (i < d)%nat) as [Hi|Hi].
    + rewrite decide_False by lia. rewrite lookup_app_l by (rewrite length_take; lia). now apply lookup_take_lt.
    + rewrite lookup_app_r by (rewrite length_take; lia). rewrite length_take, Nat.min_l by lia.
      destruct (decide (i < d + (e - b))%nat) as [Hj|Hj].
      * rewrite decide_True by lia. rewrite lookup_app_l by (rewrite length_take, length_drop; lia).
        rewrite lookup_take_lt by lia. now rewrite lookup_drop.
      * rewrite decide_False by lia. rewrite lookup_app_r by (rewrite length_take, length_drop; lia).
        rewrite length_take, length_drop, lookup_drop, Nat.min_l by lia. f_equal. lia.
Qed.

Lemma amove_Ok {A} (l : list A) b e off : (b <= e)%nat -> (e + off <= length l)%nat ->
  exists l', amove l b e off = Ok l' /\ length l' = length l /\
    forall i, l' !! i = if decide (b + off <= i < e + off)%nat then l !! (i - off)%nat else l !! i.
Proof.
  intros H1 H2. destruct (acopy_Ok l l b e (b + off)) as (l' & E & Hl & H); [lia|lia|].
  exists l'. split; [exact E|]. split; [exact Hl|]. intros i. rewrite H.
  destruct (decide (b + off <= i < b + off + (e - b))%nat); [rewrite decide_True by lia; f_equal; lia|now rewrite decide_False by lia].
Qed.

(** A list with an element put in at position [n]. *)
Lemma lookup_put {A} (l r : list A) x i :
  (l ++ x :: r) !! i = if decide (i < length l)%nat then (l ++ r) !! i
                       else if decide (i = length l) then Some x else (l ++ r) !! (i - 1)%nat.
Proof.
  destruct (decide (i < length l)%nat); [now rewrite !lookup_app_l by lia|].
  rewrite lookup_app_r by lia. destruct (decide (i = length l)) as [->|Hn]; [now rewrite Nat.sub_diag|].
  rewrite lookup_app_r by lia. destruct (i - length l)%nat as [|j] eqn:Hj; [lia|]. cbn. f_equal. lia.
Qed.

(** An element of a list that is put together from others. *)
Ltac elem := solve [assumption | apply list_elem_of_here | apply list_elem_of_further; elem
  | apply elem_of_app; left; elem | apply elem_of_app; right; elem].

(** ** Binary search *)

Lemma search_spec test ks : forall fuel b e, (e - b <= fuel)%nat -> (b <= e <= length ks)%nat ->
  (forall i j x y, (i <= j < e)%nat -> ks !! i = Some x -> ks !! j = Some y -> test x = true -> test y = true) ->
  exists i, search fuel test ks b e = Ok i /\ (b <= i <= e)%nat /\
    (forall j x, (b <= j < i)%nat -> ks !! j = Some x -> test x = false) /\
    (forall j x, (i <= j < e)%nat -> ks !! j = Some x -> test x = true).
Proof.
  assert (Hdiv : forall b, ((b + b) / 2)%nat = b).
  { intros b. replace (b + b)%nat with (b * 2)%nat by lia. apply Nat.div_mul. lia. }
  induction fuel as [|fuel IH]; intros b e Hf Hb Hmono.
  - assert (b = e) as <- by lia. exists b. cbn [search]. rewrite Nat.ltb_irrefl, Hdiv. repeat split; [lia..| |]; intros; lia.
  - cbn [search]. destruct (Nat.ltb_spec b e) as [Hlt|Hge].
    2: { assert (b = e) as <- by lia. exists b. rewrite Hdiv. repeat split; [lia..| |]; intros; lia. }
    set (mid := ((b + e) / 2)%nat). assert (Hm : (b <= mid < e)%nat).
    { unfold mid. split; [apply Nat.div_le_lower_bound; lia|apply Nat.Div0.div_lt_upper_bound; lia]. }
    destruct (lookup_lt_is_Some_2 ks mid) as [k Hk]; [lia|].
    rewrite (aget_Ok _ _ _ Hk). cbn. destruct (test k) eqn:Ht.
    + destruct (IH b mid) as (i & Ei & Hi & Hl & Hr); [lia|lia|intros i j x y Hij; apply Hmono; lia|].
      exists i. split; [exact Ei|]. split; [lia|]. split; [exact Hl|]. intros j x Hj Hx.
      destruct (decide (j < mid)%nat); [apply (Hr j); [lia|exact Hx]|].
      apply (Hmono mid j k x); [lia|exact Hk|exact Hx|exact Ht].
    + destruct (IH (mid + 1)%nat e) as (i & Ei & Hi & Hl & Hr); [lia|lia|exact Hmono|].
      exists i. split; [exact Ei|]. split; [lia|]. split; [|exact Hr]. intros j x Hj Hx.
      destruct (decide (mid < j)%nat); [apply (Hl j); [lia|exact Hx]|].
      destruct (test x) eqn:Htx; [|reflexivity]. rewrite <- Ht. symmetry.
      apply (Hmono j mid x k); [lia|exact Hx|exact Hk|exact Htx].
Qed.

(** ** Entries *)

Abbreviation entry := (option Z * ptr)%type.
Abbreviation levels := (list (list (ptr * list entry))).
Abbreviation leaves_of V := (list (entry * list (Z * @ConcurrentVal V))).

Definition olt (a b : option Z) : Prop :=
  match a, b with None, Some _ => True | Some x, Some y => x < y | _, None => False end.
Definition from (lo : option Z) (k : Z) : Prop := match lo with Some l => l <= k | None => True end.
Definition below (k : Z) (lo : option Z) : Prop := match lo with Some l => k < l | None => False end.

Lemma below_olt lo k hi : from lo k -> below k hi -> olt lo hi.
Proof. destruct lo, hi; cbn; lia. Qed.
Lemma below_lt k l hi : below l hi -> k <= l -> below k hi.
Proof. destruct hi; cbn; lia. Qed.
Lemma below_lo k a b : below k a -> olt a b -> below k b.
Proof. destruct a, b; cbn; lia. Qed.
Lemma from_lo k a b : from b k -> olt a b -> from a k.
Proof. destruct a, b; cbn; lia. Qed.
Lemma below_from k hi l : below k hi -> from hi l -> k < l.
Proof. destruct hi; cbn; lia. Qed.

#[global] Instance olt_trans : Transitive olt.
Proof. intros [x|] [y|] [z|]; cbn; lia. Qed.

Abbreviation sorted_lows := (StronglySorted (fun e e' : entry => olt e.1 e'.1)).

Lemma sorted_app {A} (R : A -> A -> Prop) l1 l2 : StronglySorted R (l1 ++ l2) <->
  StronglySorted R l1 /\ StronglySorted R l2 /\ forall x y, x ∈ l1 -> y ∈ l2 -> R x y.
Proof.
  induction l1 as [|a l1 IH]; cbn.
  - split; [intros H; repeat split; [constructor|exact H|intros x y Hx; now apply not_elem_of_nil in Hx]|tauto].
  - split.
    + intros H. apply StronglySorted_inv in H as [H Ha]. apply IH in H as (H1 & H2 & H3). rewrite Forall_app in Ha.
      split; [constructor; tauto|]. split; [exact H2|]. intros x y [->|Hx]%elem_of_cons Hy; [|now apply H3].
      rewrite !Forall_forall in Ha. now apply Ha.
    + intros (H1 & H2 & H3). apply StronglySorted_inv in H1 as [H1 Ha]. constructor.
      * apply IH. repeat split; [exact H1|exact H2|]. intros x y Hx Hy. apply H3; [now apply list_elem_of_further|exact Hy].
      * rewrite Forall_app. split; [exact Ha|]. apply Forall_forall. intros y Hy. apply H3; [apply list_elem_of_here|exact Hy].
Qed.

Lemma sorted_lookup {A} (R : A -> A -> Prop) l :
  (forall i j x y, (i < j)%nat -> l !! i = Some x -> l !! j = Some y -> R x y) <-> StronglySorted R l.
Proof.
  induction l as [|a l IH]; split.
  - constructor.
  - intros _ i j x y _ Hx. now rewrite lookup_nil in Hx.
  - intros H. constructor.
    + apply IH. intros i j x y Hij Hx Hy. apply (H (S i) (S j)); [lia|exact Hx|exact Hy].
    + apply Forall_lookup. intros i y Hy. apply (H O (S i)); [lia|reflexivity|exact Hy].
  - intros [Hl Ha]%StronglySorted_inv [|i] [|j] x y Hij Hx Hy; [lia| |lia|].
    + cbn in Hx, Hy. injection Hx as <-. rewrite Forall_lookup in Ha. now apply (Ha j).
    + cbn in Hx, Hy. eapply (proj2 IH Hl i j); [lia|exact Hx|exact Hy].
Qed.

Lemma sorted_impl {A} (R R' : A -> A -> Prop) l : (forall x y, R x y -> R' x y) -> StronglySorted R l -> StronglySorted R' l.
Proof. intros H Hl. apply sorted_lookup. intros i j x y Hij Hx Hy. apply H. now apply (proj2 (sorted_lookup R l) Hl i j). Qed.

(** The last entry that is not above [key] is [e]. *)
Definition located (key : Z) (e : entry) (r : list entry) : Prop :=
  from e.1 key /\ Forall (fun e' => below key e'.1) r.

Section Tree.
Context {V : Type} (val0 : V).

(** ** What of a node matters *)

Record Data := mkData { d_leaf : bool; d_n : nat; d_keys : list Z; d_part : @Part V }.
Definition data_of (n : Node) : Data := mkData (is_leaf n) (key_n n) (keys n) (part n).

Definition data (h : gmap ptr Node) (p : ptr) : option Data := data_of <$> h !! p.
Definition lockv (h : gmap ptr (@Node V)) (p : ptr) : option Z := locked <$> h !! p.
Definition parv (h : gmap ptr (@Node V)) (p : ptr) : option (option ptr) := parent <$> h !! p.

Definition ks (d : Data) : list Z := take (d_n d) (d_keys d).
Definition ks_at (h : gmap ptr Node) (p : ptr) : list Z := match data h p with Some d => ks d | None => [] end.

(** An internal node with the entries [E] of its children. *)
Record inode (d : Data) (E : list entry) : Prop := {
  in_leaf : d_leaf d = false;
  in_len : length (d_keys d) = node_capacity;
  in_part : exists ch, d_part d = Internal ch /\ length ch = alt_buf_fanout /\
    forall i e, E !! i = Some e -> ch !! i = Some (Some e.2);
  in_E : length E = S (d_n d);
  in_n : (1 <= d_n d <= node_capacity)%nat;
  in_seps : forall i e, E !! S i = Some e -> d_keys d !! i = e.1
}.

(** A leaf with its pairs and its successor. *)
Record leaf (d : Data) (kvs : list (Z * ConcurrentVal)) (nx : option ptr) : Prop := {
  lf_leaf : d_leaf d = true;
  lf_len : length (d_keys d) = node_capacity;
  lf_part : exists vs, d_part d = Leaf vs nx /\ length vs = node_capacity /\
    forall i kv, kvs !! i = Some kv -> vs !! i = Some kv.2;
  lf_kvs : length kvs = d_n d;
  lf_n : (d_n d <= node_capacity)%nat;
  lf_keys : forall i kv, kvs !! i = Some kv -> d_keys d !! i = Some kv.1
}.

Definition low (E : list entry) : option Z := match E with e :: _ => e.1 | [] => None end.
Definition item (x : ptr * list entry) : entry := (low x.2, x.1).

Definition node_at (h : gmap ptr Node) (x : ptr * list entry) : Prop :=
  (exists d, data h x.1 = Some d /\ inode d x.2) /\ forall e, e ∈ x.2 -> parv h e.2 = Some (Some x.1).

(** The levels above a level with entries [idx]. *)
Fixpoint tower (h : gmap ptr Node) (rt : ptr) (idx : list entry) (ls : levels) : Prop :=
  match ls with
  | [] => idx = [(None, rt)] /\ parv h rt = Some None
  | lv :: ls' => concat (map snd lv) = idx /\ Forall (node_at h) lv /\ tower h rt (map item lv) ls'
  end.

(** The nodes of a level are ascending, and so are the keys in each of them. *)
Record ordered (h : gmap ptr Node) (idx : list entry) : Prop := {
  ord_items : Forall (fun e => StronglySorted Z.lt (ks_at h e.2) /\ Forall (from e.1) (ks_at h e.2)) idx;
  ord_sorted : StronglySorted (fun e e' => olt e.1 e'.1 /\ Forall (fun k => below k e'.1) (ks_at h e.2)) idx
}.

Definition tower_ptrs (ls : levels) : list ptr := concat (map (map fst) ls).

(** ** The whole tree *)

Record tree_ok (s : CMap) (lvs : leaves_of V) (ls : levels) : Prop := {
  t_leaves : forall i e kvs, lvs !! i = Some (e, kvs) ->
    exists d, data (nodes s) e.2 = Some d /\ leaf d kvs ((fun x => x.1.2) <$> lvs !! S i);
  t_ordered : ordered (nodes s) (map fst lvs);
  t_nonempty : ls <> [] -> Forall (fun x => x.2 <> []) lvs;
  t_tower : tower (nodes s) (root s) (map fst lvs) ls;
  t_distinct : NoDup (map snd (map fst lvs) ++ tower_ptrs ls);
  t_dom : forall p, is_Some (nodes s !! p) <-> (p < next_node_i s)%nat;
  t_unlocked : forall p n, nodes s !! p = Some n -> locked n = 0;
  t_blocks : allocated_blocks s = ((next_node_i s + (node_n_per_block - 1)) / node_n_per_block)%nat
}.

Definition contents (lvs : leaves_of V) : list (Z * ConcurrentVal) := concat (map snd lvs).

(** ** Views *)

Lemma data_Some h p d : data h p = Some d -> exists n, h !! p = Some n /\ data_of n = d.
Proof. unfold data. intros (n & E & Hn)%fmap_Some. eauto. Qed.

Lemma data_lookup h p n : h !! p = Some n -> data h p = Some (data_of n).
Proof. unfold data. now intros ->. Qed.

Lemma ks_at_data h p d : data h p = Some d -> ks_at h p = ks d.
Proof. unfold ks_at. now intros ->. Qed.

Lemma ks_inode d E : inode d E -> forall i k, ks d !! i = Some k <-> exists e, E !! S i = Some e /\ e.1 = Some k.
Proof.
  intros HE i k. unfold ks. split.
  - intros [Hk Hi]%lookup_take_Some. destruct (lookup_lt_is_Some_2 E (S i)) as [e He]; [rewrite (in_E _ _ HE); lia|].
    exists e. split; [exact He|]. now rewrite <- (in_seps _ _ HE _ _ He).
  - intros (e & He & Hk). rewrite lookup_take_lt; [now rewrite (in_seps _ _ HE _ _ He)|].
    apply lookup_lt_Some in He. rewrite (in_E _ _ HE) in He. lia.
Qed.

Lemma ks_leaf d kvs nx : leaf d kvs nx -> ks d = map fst kvs.
Proof.
  intros H. apply list_eq. intros i. unfold ks. rewrite list_lookup_fmap. destruct (kvs !! i) as [kv|] eqn:E; cbn.
  - rewrite lookup_take_lt; [now apply (lf_keys _ _ _ H)|]. rewrite <- (lf_kvs _ _ _ H). now apply lookup_lt_Some in E.
  - apply lookup_take_ge. rewrite <- (lf_kvs _ _ _ H). now apply lookup_ge_None in E.
Qed.

Lemma ks_length d : length (d_keys d) = node_capacity -> (d_n d <= node_capacity)%nat -> length (ks d) = d_n d.
Proof. intros H1 H2. unfold ks. rewrite length_take. lia. Qed.

(** ** Searching a node *)

Lemma sorted_seps d E : inode d E -> sorted_lows E -> StronglySorted Z.lt (ks d).
Proof.
  intros HE Hs. apply sorted_lookup. intros i j x y Hij Hx Hy.
  apply (ks_inode _ _ HE) in Hx as (e & He & Hx), Hy as (e' & He' & Hy).
  assert (H : olt e.1 e'.1) by (apply (proj2 (sorted_lookup _ _) Hs (S i) (S j)); [lia|exact He|exact He']).
  now rewrite Hx, Hy in H.
Qed.

(** Both searches return the position where the keys stop to be on the left. *)
Lemma node_search test n : length (keys n) = node_capacity -> (key_n n <= node_capacity)%nat ->
  StronglySorted Z.lt (ks (data_of n)) -> (forall x y, x <= y -> test x = true -> test y = true) ->
  exists i, search (key_n n) test (keys n) 0 (key_n n) = Ok i /\ (i <= key_n n)%nat /\
    Forall (fun k => test k = false) (take i (ks (data_of n))) /\ Forall (fun k => test k = true) (drop i (ks (data_of n))).
Proof.
  intros Hl Hn Hs Ht. destruct (search_spec test (keys n) (key_n n) 0 (key_n n)) as (i & Ei & Hi & Hlo & Hhi); [lia|lia| |].
  - intros i j x y Hij Hx Hy. apply Ht. destruct (decide (i = j)) as [->|Hd]; [rewrite Hx in Hy; injection Hy; lia|].
    enough (x < y) by lia. apply (proj2 (sorted_lookup _ _) Hs i j); [lia| |]; unfold ks; cbn; rewrite lookup_take_lt by lia; assumption.
  - exists i. split; [exact Ei|]. split; [lia|]. split; apply Forall_lookup.
    + intros j k [Hk Hj]%lookup_take_Some. apply lookup_take_Some in Hk as [Hk _]. apply (Hlo j); [lia|exact Hk].
    + intros j k Hk. rewrite lookup_drop in Hk. apply lookup_take_Some in Hk as [Hk Hj]. cbn in Hj. apply (Hhi (i + j)%nat); [lia|exact Hk].
Qed.

Lemma find_gt_spec key n : length (keys n) = node_capacity -> (key_n n <= node_capacity)%nat ->
  StronglySorted Z.lt (ks (data_of n)) -> exists i, find_first_larger_than key n = Ok i /\ (i <= key_n n)%nat /\
    Forall (fun k => k <= key) (take i (ks (data_of n))) /\ Forall (fun k => key < k) (drop i (ks (data_of n))).
Proof.
  intros Hl Hn Hs. destruct (node_search (fun k => key <? k) n Hl Hn Hs) as (i & Ei & Hi & H1 & H2); [intros; lia|].
  exists i. split; [exact Ei|]. split; [exact Hi|]. split; eapply Forall_impl; try eassumption; cbn; lia.
Qed.

Lemma find_ge_spec key n : length (keys n) = node_capacity -> (key_n n <= node_capacity)%nat ->
  StronglySorted Z.lt (ks (data_of n)) -> exists i, find_first_larger_than_or_equal_to key n = Ok i /\ (i <= key_n n)%nat /\
    Forall (fun k => k < key) (take i (ks (data_of n))) /\ Forall (fun k => key <= k) (drop i (ks (data_of n))).
Proof.
  intros Hl Hn Hs. destruct (node_search (fun k => key <=? k) n Hl Hn Hs) as (i & Ei & Hi & H1 & H2); [intros; lia|].
  exists i. split; [exact Ei|]. split; [exact Hi|]. split; eapply Forall_impl; try eassumption; cbn; lia.
Qed.

(** A child is found by its entry. *)
Lemma find_child_spec key n E : inode (data_of n) E -> sorted_lows E -> from (low E) key ->
  exists l e r, E = l ++ e :: r /\ located key e r /\ find_first_larger_than key n = Ok (length l) /\ find_child key n = Ok (Some e.2).
Proof.
  intros HE Hs Hlo. pose proof (in_n _ _ HE) as Hn.
  destruct (find_gt_spec key n (in_len _ _ HE) (proj2 Hn) (sorted_seps _ _ HE Hs)) as (i & Ei & Hi & H1 & H2).
  rewrite Forall_lookup in H1, H2.
  destruct (lookup_lt_is_Some_2 E i) as [e He]; [rewrite (in_E _ _ HE); cbn; lia|].
  exists (take i E), e, (drop (S i) E). split; [symmetry; now apply take_drop_middle|].
  split; [split|split].
  - destruct i as [|i]; [destruct E; [discriminate|]; injection He as ->; exact Hlo|].
    pose proof (in_seps _ _ HE _ _ He) as Hk. destruct e.1 as [k|] eqn:Hek; [|exact I]. cbn.
    apply (H1 i). rewrite lookup_take_lt by lia. apply (ks_inode _ _ HE). eauto.
  - apply Forall_lookup. intros j e' He'. rewrite lookup_drop in He'.
    assert (Ho : olt e.1 e'.1) by (apply (proj2 (sorted_lookup _ _) Hs i (S i + j)%nat); [lia|exact He|exact He']).
    destruct e'.1 as [k|] eqn:Hk; [|destruct e.1; contradiction]. cbn. apply (H2 j). rewrite lookup_drop. apply (ks_inode _ _ HE). eauto.
  - rewrite length_take, Nat.min_l; [exact Ei|]. rewrite (in_E _ _ HE). cbn. lia.
  - unfold find_child, children. destruct (in_part _ _ HE) as (ch & Hp & Hc & Hch). cbn in Hp. rewrite Hp. cbn. rewrite Ei. cbn.
    apply aget_Ok. now apply Hch.
Qed.

(** No key of the node is [key]: both searches agree. *)
Lemma same_slot_true key n : length (keys n) = node_capacity -> (key_n n <= node_capacity)%nat ->
  StronglySorted Z.lt (ks (data_of n)) -> key ∉ ks (data_of n) -> same_slot key n = Ok true.
Proof.
  intros Hl Hn Hs Hk. unfold same_slot. assert (Hlen : length (ks (data_of n)) = key_n n) by exact (ks_length (data_of n) Hl Hn).
  destruct (find_gt_spec key n Hl Hn Hs) as (i & -> & Hi & G1 & G2), (find_ge_spec key n Hl Hn Hs) as (j & -> & Hj & F1 & F2).
  cbn. f_equal. apply Nat.eqb_eq. rewrite Forall_lookup in G1, G2, F1, F2.
  destruct (Nat.lt_trichotomy i j) as [Hij|[Hij|Hij]]; [exfalso|exact Hij|exfalso].
  - destruct (lookup_lt_is_Some_2 (ks (data_of n)) i) as [k Hki]; [lia|].
    specialize (F1 i k). rewrite lookup_take_lt in F1 by lia. specialize (G2 O k). rewrite lookup_drop, Nat.add_0_r in G2.
    specialize (F1 Hki). specialize (G2 Hki). lia.
  - destruct (lookup_lt_is_Some_2 (ks (data_of n)) j) as [k Hki]; [lia|].
    specialize (G1 j k). rewrite lookup_take_lt in G1 by lia. specialize (F2 O k). rewrite lookup_drop, Nat.add_0_r in F2.
    specialize (G1 Hki). specialize (F2 Hki). apply Hk. replace key with k by lia. now apply list_elem_of_lookup_2 in Hki.
Qed.

(** ** Levels *)

Lemma inode_cons d E : inode d E -> exists e E', E = e :: E'.
Proof. intros HE. destruct E as [|e E']; [|eauto]. pose proof (in_E _ _ HE). discriminate. Qed.

Lemma low_elem (E : list entry) : E <> [] -> exists e, e ∈ E /\ e.1 = low E.
Proof. destruct E as [|e E]; [done|]. exists e. split; [apply list_elem_of_here|reflexivity]. Qed.

Lemma low_least (E : list entry) e : sorted_lows E -> e ∈ E -> e.1 = low E \/ olt (low E) e.1.
Proof.
  destruct E as [|e0 E]; [intros _ He; now apply not_elem_of_nil in He|]. intros [_ H]%StronglySorted_inv [->|He]%elem_of_cons; [now left|].
  right. rewrite Forall_forall in H. now apply H.
Qed.

Lemma sorted_items (lv : list (ptr * list entry)) : sorted_lows (concat (map snd lv)) -> Forall (fun x => x.2 <> []) lv ->
  sorted_lows (map item lv).
Proof.
  induction lv as [|x lv IH]; cbn; intros Hs Hf; [constructor|]. apply sorted_app in Hs as (_ & H2 & H3).
  apply Forall_cons in Hf as [Hx Hf]. constructor; [now apply IH|]. apply Forall_forall. intros e (y & -> & Hy)%list_elem_of_fmap. cbn.
  destruct (low_elem _ Hx) as (e1 & He1 & <-). rewrite Forall_forall in Hf. destruct (low_elem _ (Hf y Hy)) as (e2 & He2 & <-).
  apply H3; [exact He1|]. apply list_elem_of_In, in_concat. exists y.2. split; [apply in_map|]; now apply list_elem_of_In.
Qed.

Lemma node_at_nonempty h lv : Forall (node_at h) lv -> Forall (fun x => x.2 <> []) lv.
Proof. intros H. apply (Forall_impl _ _ _ H). intros x [(d & _ & HE) _] Hx. destruct (inode_cons _ _ HE) as (e & E' & Heq). congruence. Qed.

Lemma elem_of_chunk (lv : list (ptr * list entry)) e : e ∈ concat (map snd lv) <-> exists x, x ∈ lv /\ e ∈ x.2.
Proof.
  rewrite list_elem_of_In, in_concat. split.
  - intros (E & HE & He). apply in_map_iff in HE as (x & <- & Hx). exists x. now rewrite !list_elem_of_In.
  - intros (x & Hx & He). exists x.2. split; [apply in_map|]; now apply list_elem_of_In.
Qed.

(** An entry located in the level above leads to the one located below. *)
Lemma located_below key (nl nr : list (ptr * list entry)) x l e r :
  sorted_lows (concat (map snd (nl ++ x :: nr))) -> x.2 = l ++ e :: r -> located key e r -> Forall (fun y => below key (item y).1) nr ->
  located key e (r ++ concat (map snd nr)).
Proof.
  intros Hs Hx [He Hr] Hnr. split; [exact He|]. apply Forall_app. split; [exact Hr|]. apply Forall_forall. intros e' He'.
  apply elem_of_chunk in He' as (y & Hy & He'). rewrite Forall_forall in Hnr. specialize (Hnr y Hy).
  assert (Hsy : sorted_lows y.2).
  { apply list_elem_of_split in Hy as (a & b & ->). rewrite map_app, concat_app in Hs. cbn in Hs. rewrite map_app, concat_app in Hs. cbn in Hs.
    apply sorted_app in Hs as (_ & Hs & _). apply sorted_app in Hs as (_ & Hs & _). apply sorted_app in Hs as (_ & Hs & _).
    now apply sorted_app in Hs as (Hs & _ & _). }
  destruct (low_least _ _ Hsy He') as [->|Ho]; [exact Hnr|]. exact (below_lo _ _ _ Hnr Ho).
Qed.

Lemma tower_root h rt idx ls : tower h rt idx ls -> parv h rt = Some None.
Proof. revert idx. induction ls as [|lv ls IH]; cbn; intros idx; [tauto|]. intros (_ & _ & H). exact (IH _ H). Qed.

Lemma parv_Some h p q : parv h p = Some q -> exists n, h !! p = Some n /\ parent n = q.
Proof. unfold parv. intros (n & E & Hn)%fmap_Some. eauto. Qed.

(** From the root down to the level with entries [idx]. *)
Lemma tower_descend s key : (forall p n, nodes s !! p = Some n -> locked n = 0) -> forall ls idx,
  tower (nodes s) (root s) idx ls -> sorted_lows idx ->
  exists l e r n, idx = l ++ e :: r /\ located key e r /\ nodes s !! e.2 = Some n /\
    exists v, (version <$> nodes s !! root s = Some v) /\
    forall f, locate_leaf_loop (length ls + f) key (Some (root s, v)) s = locate_leaf_loop f key (Some (e.2, version n)) s.
Proof.
  intros Hu. induction ls as [|lv ls IH]; intros idx Ht Hs.
  - destruct Ht as [-> Hp]. apply parv_Some in Hp as (n & Hn & _). exists [], (None, root s), [], n.
    repeat split; [constructor|exact Hn|]. exists (version n). split; [now rewrite Hn|reflexivity].
  - destruct Ht as (<- & Hlv & Ht). pose proof (sorted_items _ Hs (node_at_nonempty _ _ Hlv)) as Hs'.
    destruct (IH _ Ht Hs') as (l' & e' & r' & n' & Hi & [Hfr Hr] & Hn' & v & Hv & Hloop). clear IH.
    apply map_eq_app in Hi as (nl & nr & -> & <- & Hnr). apply map_eq_cons in Hnr as (x & nr' & -> & <- & <-).
    pose proof (proj1 (Forall_forall _ _) Hlv x) as Hx. destruct Hx as [(d & Hd & HE) Hpar]; [elem|].
    apply data_Some in Hd as (n & Hn & <-). cbn in Hn', Hfr. rewrite Hn in Hn'. injection Hn' as <-.
    destruct (find_child_spec key n x.2 HE) as (l & e & r & HxE & Hloc & _ & Hfc); [|exact Hfr|].
    { rewrite map_app, concat_app in Hs. cbn in Hs. apply sorted_app in Hs as (_ & Hs & _). now apply sorted_app in Hs as (Hs & _ & _). }
    destruct (parv_Some _ _ _ (Hpar e ltac:(rewrite HxE; elem))) as (nc & Hnc & _).
    exists (concat (map snd nl) ++ l), e, (r ++ concat (map snd nr')), nc.
    split; [rewrite map_app, concat_app; cbn; rewrite HxE, <- !app_assoc; reflexivity|]. split.
    { apply (located_below key nl nr' x l); [exact Hs|exact HxE|exact Hloc|]. rewrite Forall_fmap in Hr. exact Hr. }
    split; [exact Hnc|]. exists v. split; [exact Hv|]. intros f. cbn [length].
    replace (S (length ls) + f)%nat with (length ls + S f)%nat by lia. rewrite Hloop. cbn [locate_leaf_loop].
    unfold mbind, cm_bind, load. change (item x).2 with x.1. rewrite Hn. pose proof (in_leaf _ _ HE) as Hlf. cbn in Hlf. rewrite Hlf.
    unfold cm_lift, mbind, res_bind. rewrite Hfc. cbn [non_null]. rewrite Hnc, Hn, (Hu _ _ Hn), Z.eqb_refl. reflexivity.
Qed.

(** ** Locating a leaf *)

Lemma nodup_bound (l : list nat) n : NoDup l -> (forall x, x ∈ l -> (x < n)%nat) -> (length l <= n)%nat.
Proof.
  intros Hd Hl. rewrite <- (length_seq n 0). apply submseteq_length, NoDup_submseteq; [exact Hd|].
  intros x Hx. apply elem_of_seq. split; [lia|]. cbn. now apply Hl.
Qed.

Lemma tower_nonempty h rt idx ls : tower h rt idx ls -> idx <> [] /\ (length ls <= length (tower_ptrs ls))%nat.
Proof.
  revert idx. induction ls as [|lv ls IH]; intros idx; cbn; [intros [-> _]; split; [discriminate|lia]|].
  intros (<- & Hlv & Ht). destruct (IH _ Ht) as [Hne Hl]. unfold tower_ptrs in *. cbn.
  rewrite length_app, length_map. destruct lv as [|x lv]; [done|]. cbn.
  apply Forall_cons in Hlv as [[(d & _ & HE) _] _]. destruct (inode_cons _ _ HE) as (e & E' & ->). split; [discriminate|lia].
Qed.

Lemma tower_nodes h rt idx ls p : tower h rt idx ls -> p ∈ tower_ptrs ls -> is_Some (h !! p).
Proof.
  revert idx. induction ls as [|lv ls IH]; intros idx; [intros _ Hp; now apply not_elem_of_nil in Hp|].
  intros (_ & Hlv & Ht) [Hp|Hp]%elem_of_app; [|exact (IH _ Ht Hp)].
  apply list_elem_of_fmap in Hp as (x & -> & Hx). rewrite Forall_forall in Hlv. destruct (Hlv x Hx) as [(d & Hd & _) _].
  apply data_Some in Hd as (n & Hn & _). eauto.
Qed.

Lemma ordered_lows h idx : ordered h idx -> sorted_lows idx.
Proof. intros H. eapply sorted_impl; [|exact (ord_sorted _ _ H)]. tauto. Qed.

Section Located.
Context (s : CMap) (lvs : leaves_of V) (ls : levels) (Hok : tree_ok s lvs ls).

Lemma tree_height : (length ls <= next_node_i s)%nat.
Proof.
  etransitivity; [exact (proj2 (tower_nonempty _ _ _ _ (t_tower _ _ _ Hok)))|]. apply nodup_bound.
  - pose proof (t_distinct _ _ _ Hok) as H. now apply NoDup_app in H as (_ & _ & H).
  - intros p Hp. apply (t_dom _ _ _ Hok). exact (tower_nodes _ _ _ _ _ (t_tower _ _ _ Hok) Hp).
Qed.

Lemma leaf_node l x r : lvs = l ++ x :: r ->
  exists n, nodes s !! x.1.2 = Some n /\ leaf (data_of n) x.2 ((fun y => y.1.2) <$> head r).
Proof.
  intros E. destruct (t_leaves _ _ _ Hok (length l) x.1 x.2) as (d & Hd & Hleaf).
  - rewrite E, list_lookup_middle by reflexivity. now destruct x.
  - apply data_Some in Hd as (n & Hn & <-). exists n. split; [exact Hn|]. rewrite E in Hleaf.
    replace (S (length l)) with (length l + 1)%nat in Hleaf by lia. rewrite lookup_app_r in Hleaf by lia.
    replace (length l + 1 - length l)%nat with 1%nat in Hleaf by lia. cbn in Hleaf. now destruct r.
Qed.

Lemma leaf_ks l x r : lvs = l ++ x :: r -> ks_at (nodes s) x.1.2 = map fst x.2.
Proof. intros E. destruct (leaf_node _ _ _ E) as (n & Hn & Hl). rewrite (ks_at_data _ _ _ (data_lookup _ _ _ Hn)). now apply ks_leaf with (nx := (fun y => y.1.2) <$> head r). Qed.

Lemma locate_leaf_spec key : exists l x r n, lvs = l ++ x :: r /\ located key x.1 (map fst r) /\ nodes s !! x.1.2 = Some n /\
  leaf (data_of n) x.2 ((fun y => y.1.2) <$> head r) /\ locate_leaf key s = Ok ((x.1.2, version n), s).
Proof.
  destruct (tower_descend s key (t_unlocked _ _ _ Hok) ls (map fst lvs) (t_tower _ _ _ Hok) (ordered_lows _ _ (t_ordered _ _ _ Hok)))
    as (l' & e & r' & n & Hi & Hloc & Hn & v & Hv & Hloop).
  apply map_eq_app in Hi as (l & r0 & E & <- & Hr). apply map_eq_cons in Hr as (x & r & -> & <- & <-).
  destruct (leaf_node _ _ _ E) as (n' & Hn' & Hleaf). rewrite Hn in Hn'. injection Hn' as <-.
  exists l, x, r, n. do 4 (split; [assumption|]).
  unfold locate_leaf. unfold mbind at 1, cm_bind at 1, cm_gets. unfold loop_fuel. replace (next_node_i s + 2)%nat with (S (length ls + S (next_node_i s - length ls))) by (pose proof tree_height; lia).
  cbn [locate_leaf_loop]. unfold cm_gets, mbind, cm_bind, load. destruct (parv_Some _ _ _ (tower_root _ _ _ _ (t_tower _ _ _ Hok))) as (nr & Hnr & Hp).
  rewrite Hnr in Hv |- *. cbn in Hv. injection Hv as <-. rewrite Hp. cbn [bool_decide]. rewrite bool_decide_eq_false_2 by tauto.
  rewrite Hloop. cbn [locate_leaf_loop]. unfold mbind, cm_bind, load. rewrite Hn. pose proof (lf_leaf _ _ _ Hleaf) as Hlf. cbn in Hlf. now rewrite Hlf.
Qed.

(** The pairs on the left of a located leaf have smaller keys, those on the right
    greater ones, and those inside are ascending. *)
Lemma leaf_elem y : y ∈ lvs -> ks_at (nodes s) y.1.2 = map fst y.2.
Proof. intros Hy. apply list_elem_of_split in Hy as (l & r & E). exact (leaf_ks _ _ _ E). Qed.

Lemma elem_of_contents kv (l : leaves_of V) : kv ∈ contents l -> exists y, y ∈ l /\ kv ∈ y.2.
Proof.
  unfold contents. rewrite list_elem_of_In, in_concat. intros (kvs & H & Hkv). apply in_map_iff in H as (y & <- & Hy).
  exists y. now rewrite !list_elem_of_In.
Qed.

Lemma contents_left key l x r : lvs = l ++ x :: r -> from x.1.1 key -> Forall (fun kv => kv.1 < key) (contents l).
Proof.
  intros E Hf. apply Forall_forall. intros kv (y & Hy & Hkv)%elem_of_contents. pose proof (ord_sorted _ _ (t_ordered _ _ _ Hok)) as H.
  rewrite E, map_app in H. apply sorted_app in H as (_ & _ & H). destruct (H y.1 x.1) as [_ Hk].
  - now apply (list_elem_of_fmap_2 fst).
  - cbn. apply list_elem_of_here.
  - rewrite leaf_elem in Hk by (rewrite E; elem). rewrite Forall_forall in Hk.
    apply (below_from _ x.1.1); [apply (Hk kv.1); exact (list_elem_of_fmap_2 fst _ _ Hkv)|exact Hf].
Qed.

Lemma contents_right key l x r : lvs = l ++ x :: r -> Forall (fun e => below key e.1) (map fst r) -> Forall (fun kv => key < kv.1) (contents r).
Proof.
  intros E Hf. apply Forall_forall. intros kv (y & Hy & Hkv)%elem_of_contents. pose proof (ord_items _ _ (t_ordered _ _ _ Hok)) as H.
  rewrite Forall_forall in H, Hf. destruct (H y.1) as [_ Hk].
  - apply (list_elem_of_fmap_2 fst). rewrite E. elem.
  - rewrite leaf_elem in Hk by (rewrite E; elem). rewrite Forall_forall in Hk.
    apply (below_from _ y.1.1); [apply (Hf y.1); exact (list_elem_of_fmap_2 fst _ _ Hy)|apply (Hk kv.1); exact (list_elem_of_fmap_2 fst _ _ Hkv)].
Qed.

Lemma leaf_sorted l x r : lvs = l ++ x :: r -> StronglySorted Z.lt (map fst x.2).
Proof.
  intros E. pose proof (ord_items _ _ (t_ordered _ _ _ Hok)) as H. rewrite Forall_forall in H. rewrite <- (leaf_ks _ _ _ E). apply H.
  rewrite E, map_app. cbn. elem.
Qed.

End Located.
End Tree.
