(* ===== verification/ConcurrentMapNodes.v ===== *)
(** * Contents of the nodes of the B+-tree

    What copying, moving and assigning keys, children and values makes of a node:
    an entry or a pair put at its position, and the two halves of a node that is
    split.  The halves are given as the first and the last part of the entries with
    the new one put in. *)

From Stdlib Require Import ZArith Lia List Sorted.
From stdpp Require Import base tactics list numbers option gmap.
From S2P Require Import Prelude StdMap ConcurrentMap ConcurrentMapTree.

Open Scope Z_scope.

(** Position by position: after copies, moves and assignments an array holds what
    the list with the new element says, by what it held before ([Hold]). *)
Ltac positions Hold :=
  let i := fresh "i" in let e := fresh "e" in let He := fresh "He" in let Hb := fresh "Hb" in
  intros i e He; pose proof (lookup_lt_Some _ _ _ He) as Hb;
  rewrite ?length_drop, ?length_take, ?length_app in Hb; cbn [length] in Hb;
  first [rewrite lookup_drop in He | rewrite lookup_take_lt in He by lia]; rewrite lookup_put in He; revert He;
  repeat (match goal with G : forall j, ?l !! j = _ |- context [?l !! _] => rewrite G end);
  repeat case_decide; try lia;
  intros He; first [injection He as <-; reflexivity | apply Hold; rewrite <- He; f_equal; lia].

Section Contents.
Context {V : Type}.

(** ** Contents of internal nodes *)

(** A node of [internal_t] whose contents are about to be written. *)
Record blank (d : @Data V) : Prop := {
  bl_leaf : d_leaf d = false;
  bl_len : length (d_keys d) = node_capacity;
  bl_part : exists ch, d_part d = Internal ch /\ length ch = alt_buf_fanout
}.

(** [n'] has the parent and the lock of [n]. *)
Definition same_frame (n n' : @Node V) : Prop :=
  locked n' = locked n /\ parent n' = parent n.

Lemma inode_blank (d : @Data V) E : inode d E -> blank d.
Proof. intros H. constructor; [apply H|apply H|]. destruct (in_part _ _ H) as (ch & ? & ? & _). eauto. Qed.

(** Fewer keys: the first entries only. *)
Lemma inode_take (n : @Node V) E k : inode (data_of n) E -> (1 <= k <= key_n n)%nat ->
  inode (data_of (set_key_n k n)) (take (S k) E).
Proof.
  intros H Hk. destruct (in_part _ _ H) as (ch & Hp & Hl & Hch). pose proof (in_n _ _ H) as Hn. pose proof (in_E _ _ H) as HE. cbn in *.
  constructor; cbn; [apply H|apply H| |rewrite length_take; lia|lia|].
  - exists ch. split; [exact Hp|]. split; [exact Hl|]. intros i e [He _]%lookup_take_Some. now apply Hch.
  - intros i e [He _]%lookup_take_Some. exact (in_seps _ _ H _ _ He).
Qed.

Ltac node_goal :=
  cbn in *; unfold alt_buf_fanout, node_capacity in *; cbn in *.

Lemma internal_put_spec (n : @Node V) el er key child e : inode (data_of n) (el ++ er) -> el <> [] ->
  (length el - 1 <= e <= key_n n)%nat -> (e < node_capacity)%nat ->
  exists n', internal_put key child (length el - 1) e n = Ok n' /\ same_frame n n' /\ key_n n' = key_n n /\
    inode (data_of (set_key_n (e + 1) n')) (take (e + 2) (el ++ (Some key, child) :: er)).
Proof.
  intros H Hel He Hc. destruct (in_part _ _ H) as (ch & Hp & Hl & Hch). pose proof (in_n _ _ H) as Hn. pose proof (in_E _ _ H) as HE.
  pose proof (in_len _ _ H) as Hlen. cbn in Hp. assert (length el <> O) by (now destruct el).
  unfold internal_put, children. rewrite Hp. cbn. rewrite length_app in HE. node_goal.
  destruct (amove_Ok (keys n) (length el - 1) e 1) as (ks1 & -> & Lk1 & Gk1); [lia|lia|]. cbn.
  destruct (amove_Ok ch (length el - 1 + 1) (e + 1) 1) as (ch1 & -> & Lc1 & Gc1); [lia|lia|]. cbn.
  destruct (aset_Ok ks1 (length el - 1) key) as (ks2 & -> & Lk2 & Gk2); [lia|]. cbn.
  destruct (aset_Ok ch1 (length el - 1 + 1) (Some child)) as (ch2 & -> & Lc2 & Gc2); [lia|]. cbn.
  unfold set_children, children. cbn. rewrite Hp. cbn. eexists; split; [reflexivity|]. split; [split; reflexivity|].
  split; [reflexivity|]. constructor; cbn; [apply H|lia| |rewrite length_take, length_app; cbn; lia|lia|].
  - exists ch2. split; [reflexivity|]. split; [now rewrite Lc2, Lc1|]. positions Hch.
  - positions (in_seps _ _ H).
Qed.

Lemma internal_first_spec (n sib : @Node V) el er key child : inode (data_of n) (el ++ er) -> blank (data_of sib) ->
  (2 <= length el <= key_n n)%nat ->
  exists sib', internal_to_sibling_first child (length el - 1) n sib = Ok sib' /\ same_frame sib sib' /\
    inode (data_of sib') (drop (length el) (el ++ (Some key, child) :: er)).
Proof.
  intros H Hb Hel. destruct (in_part _ _ H) as (ch & Hp & Hl & Hch). pose proof (in_n _ _ H) as Hn. pose proof (in_E _ _ H) as HE.
  pose proof (in_len _ _ H) as Hlen. destruct (bl_part _ Hb) as (sc & Hsp & Hsl). pose proof (bl_len _ Hb) as Hslen. cbn in Hp, Hsp.
  unfold internal_to_sibling_first, children. rewrite Hp, Hsp. cbn. rewrite length_app in HE. node_goal.
  destruct (acopy_Ok (keys n) (keys sib) (length el - 1) (key_n n) 0) as (ks1 & -> & Lk1 & Gk1); [lia|lia|]. cbn.
  destruct (acopy_Ok ch sc (length el - 1 + 1) (key_n n + 1) 1) as (ch1 & -> & Lc1 & Gc1); [lia|lia|]. cbn.
  destruct (aset_Ok ch1 0 (Some child)) as (ch2 & -> & Lc2 & Gc2); [lia|]. cbn.
  unfold set_children, children. cbn. rewrite Hsp. cbn. eexists; split; [reflexivity|]. split; [split; reflexivity|].
  constructor; cbn; [apply Hb|lia| |rewrite length_drop, length_app; cbn; lia|lia|].
  - exists ch2. split; [reflexivity|]. split; [now rewrite Lc2, Lc1|]. positions Hch.
  - positions (in_seps _ _ H).
Qed.

Lemma internal_to_sibling_spec (n sib : @Node V) el er key child mid : inode (data_of n) (el ++ er) -> blank (data_of sib) ->
  (mid + 1 < length el <= key_n n + 1)%nat ->
  exists sib', internal_to_sibling key child (length el - 1) mid n sib = Ok sib' /\ same_frame sib sib' /\
    inode (data_of sib') (drop (mid + 1) (el ++ (Some key, child) :: er)).
Proof.
  intros H Hb Hel. destruct (in_part _ _ H) as (ch & Hp & Hl & Hch). pose proof (in_n _ _ H) as Hn. pose proof (in_E _ _ H) as HE.
  pose proof (in_len _ _ H) as Hlen. destruct (bl_part _ Hb) as (sc & Hsp & Hsl). pose proof (bl_len _ Hb) as Hslen. cbn in Hp, Hsp.
  unfold internal_to_sibling, children. rewrite Hp, Hsp. cbn. rewrite length_app in HE. node_goal.
  destruct (acopy_Ok (keys n) (keys sib) (mid + 1) (length el - 1) 0) as (ks1 & -> & Lk1 & Gk1); [lia|lia|]. cbn.
  destruct (acopy_Ok (keys n) ks1 (length el - 1) (key_n n) (length el - 1 - mid)) as (ks2 & -> & Lk2 & Gk2); [lia|lia|]. cbn.
  destruct (acopy_Ok ch sc (mid + 1) (length el - 1 + 1) 0) as (ch1 & -> & Lc1 & Gc1); [lia|lia|]. cbn.
  destruct (acopy_Ok ch ch1 (length el - 1 + 1) (key_n n + 1) (length el - 1 - mid + 1)) as (ch2 & -> & Lc2 & Gc2); [lia|lia|]. cbn.
  destruct (aset_Ok ks2 (length el - 1 - mid - 1) key) as (ks3 & -> & Lk3 & Gk3); [lia|]. cbn.
  destruct (aset_Ok ch2 (length el - 1 - mid) (Some child)) as (ch3 & -> & Lc3 & Gc3); [lia|]. cbn.
  unfold set_children, children. cbn. rewrite Hsp. cbn. eexists; split; [reflexivity|]. split; [split; reflexivity|].
  constructor; cbn; [apply Hb|lia| |rewrite length_drop, length_app; cbn; lia|lia|].
  - exists ch3. split; [reflexivity|]. split; [now rewrite Lc3, Lc2, Lc1|]. positions Hch.
  - positions (in_seps _ _ H).
Qed.

Lemma internal_tail_spec (n sib : @Node V) el er x mid : inode (data_of n) (el ++ er) -> blank (data_of sib) ->
  (length el <= mid)%nat -> (mid + 2 <= key_n n)%nat ->
  exists sib', internal_tail mid n sib = Ok sib' /\ same_frame sib sib' /\
    inode (data_of sib') (drop (mid + 2) (el ++ x :: er)).
Proof.
  intros H Hb Hel Hm. destruct (in_part _ _ H) as (ch & Hp & Hl & Hch). pose proof (in_n _ _ H) as Hn. pose proof (in_E _ _ H) as HE.
  pose proof (in_len _ _ H) as Hlen. destruct (bl_part _ Hb) as (sc & Hsp & Hsl). pose proof (bl_len _ Hb) as Hslen. cbn in Hp, Hsp.
  unfold internal_tail, children. rewrite Hp, Hsp. cbn. rewrite length_app in HE. node_goal.
  destruct (acopy_Ok (keys n) (keys sib) (mid + 1) (key_n n) 0) as (ks1 & -> & Lk1 & Gk1); [lia|lia|]. cbn.
  destruct (acopy_Ok ch sc (mid + 1) (key_n n + 1) 0) as (ch1 & -> & Lc1 & Gc1); [lia|lia|]. cbn.
  unfold set_children, children. cbn. rewrite Hsp. cbn. eexists; split; [reflexivity|]. split; [split; reflexivity|].
  constructor; cbn; [apply Hb|lia| |rewrite length_drop, length_app; cbn; lia|lia|].
  - exists ch1. split; [reflexivity|]. split; [now rewrite Lc1|]. positions Hch.
  - positions (in_seps _ _ H).
Qed.

(** ** Contents of leaves *)

Record blank_leaf (d : @Data V) (nx : option ptr) : Prop := {
  bll_leaf : d_leaf d = true;
  bll_len : length (d_keys d) = node_capacity;
  bll_part : exists vs, d_part d = Leaf vs nx /\ length vs = node_capacity
}.

Lemma leaf_take (n : @Node V) kvs nx k : leaf (data_of n) kvs nx -> (k <= key_n n)%nat ->
  leaf (data_of (set_key_n k n)) (take k kvs) nx.
Proof.
  intros H Hk. destruct (lf_part _ _ _ H) as (vs & Hp & Hl & Hvs). pose proof (lf_n _ _ _ H) as Hn. pose proof (lf_kvs _ _ _ H) as HE. cbn in *.
  constructor; cbn; [apply H|apply H| |rewrite length_take; lia|lia|].
  - exists vs. split; [exact Hp|]. split; [exact Hl|]. intros i e [He _]%lookup_take_Some. now apply Hvs.
  - intros i e [He _]%lookup_take_Some. exact (lf_keys _ _ _ H _ _ He).
Qed.

Lemma leaf_put_spec (n : @Node V) kl kr nx key val e : leaf (data_of n) (kl ++ kr) nx ->
  (length kl <= e <= key_n n)%nat -> (e < node_capacity)%nat ->
  exists n', leaf_put key val (length kl) e n = Ok n' /\ same_frame n n' /\ key_n n' = key_n n /\
    leaf (data_of (set_key_n (e + 1) n')) (take (e + 1) (kl ++ (key, mkCV val 0) :: kr)) nx.
Proof.
  intros H He Hc. destruct (lf_part _ _ _ H) as (vs & Hp & Hl & Hvs). pose proof (lf_n _ _ _ H) as Hn. pose proof (lf_kvs _ _ _ H) as HE.
  pose proof (lf_len _ _ _ H) as Hlen. cbn in Hp. unfold leaf_put, vals. rewrite Hp. cbn. rewrite length_app in HE. node_goal.
  destruct (amove_Ok (keys n) (length kl) e 1) as (ks1 & -> & Lk1 & Gk1); [lia|lia|]. cbn.
  destruct (amove_Ok vs (length kl) e 1) as (vs1 & -> & Lv1 & Gv1); [lia|lia|]. cbn.
  destruct (aset_Ok ks1 (length kl) key) as (ks2 & -> & Lk2 & Gk2); [lia|]. cbn.
  destruct (aset_Ok vs1 (length kl) (mkCV val 0)) as (vs2 & -> & Lv2 & Gv2); [lia|]. cbn.
  unfold set_vals, next. cbn. rewrite Hp. cbn. eexists; split; [reflexivity|]. split; [split; reflexivity|].
  split; [reflexivity|]. constructor; cbn; [apply H|lia| |rewrite length_take, length_app; cbn; lia|lia|].
  - exists vs2. split; [reflexivity|]. split; [now rewrite Lv2, Lv1|]. positions Hvs.
  - positions (lf_keys _ _ _ H).
Qed.

Lemma leaf_to_sibling_spec (n sib : @Node V) kl kr nx nxs key val mid : leaf (data_of n) (kl ++ kr) nx -> blank_leaf (data_of sib) nxs ->
  (mid <= length kl)%nat -> (1 <= mid)%nat ->
  exists sib', leaf_to_sibling key val (length kl) mid n sib = Ok sib' /\ same_frame sib sib' /\
    leaf (data_of sib') (drop mid (kl ++ (key, mkCV val 0) :: kr)) nxs.
Proof.
  intros H Hb Hm Hm1. destruct (lf_part _ _ _ H) as (vs & Hp & Hl & Hvs). pose proof (lf_n _ _ _ H) as Hn. pose proof (lf_kvs _ _ _ H) as HE.
  pose proof (lf_len _ _ _ H) as Hlen. destruct (bll_part _ _ Hb) as (sv & Hsp & Hsl). pose proof (bll_len _ _ Hb) as Hslen. cbn in Hp, Hsp.
  unfold leaf_to_sibling, vals. rewrite Hp, Hsp. cbn. rewrite length_app in HE. node_goal.
  destruct (acopy_Ok (keys n) (keys sib) mid (length kl) 0) as (ks1 & -> & Lk1 & Gk1); [lia|lia|]. cbn.
  destruct (acopy_Ok (keys n) ks1 (length kl) (key_n n) (length kl - mid + 1)) as (ks2 & -> & Lk2 & Gk2); [lia|lia|]. cbn.
  destruct (acopy_Ok vs sv mid (length kl) 0) as (vs1 & -> & Lv1 & Gv1); [lia|lia|]. cbn.
  destruct (acopy_Ok vs vs1 (length kl) (key_n n) (length kl - mid + 1)) as (vs2 & -> & Lv2 & Gv2); [lia|lia|]. cbn.
  destruct (aset_Ok ks2 (length kl - mid) key) as (ks3 & -> & Lk3 & Gk3); [lia|]. cbn.
  destruct (aset_Ok vs2 (length kl - mid) (mkCV val 0)) as (vs3 & -> & Lv3 & Gv3); [lia|]. cbn.
  unfold set_vals, next. cbn. rewrite Hsp. cbn. eexists; split; [reflexivity|]. split; [split; reflexivity|].
  constructor; cbn; [apply Hb|lia| |rewrite length_drop, length_app; cbn; lia|lia|].
  - exists vs3. split; [reflexivity|]. split; [now rewrite Lv3, Lv2, Lv1|]. positions Hvs.
  - positions (lf_keys _ _ _ H).
Qed.

Lemma leaf_tail_spec (n sib : @Node V) kl kr nx nxs x mid : leaf (data_of n) (kl ++ kr) nx -> blank_leaf (data_of sib) nxs ->
  (length kl < mid <= key_n n)%nat ->
  exists sib', leaf_tail mid n sib = Ok sib' /\ same_frame sib sib' /\
    leaf (data_of sib') (drop (mid + 1) (kl ++ x :: kr)) nxs.
Proof.
  intros H Hb Hm. destruct (lf_part _ _ _ H) as (vs & Hp & Hl & Hvs). pose proof (lf_n _ _ _ H) as Hn. pose proof (lf_kvs _ _ _ H) as HE.
  pose proof (lf_len _ _ _ H) as Hlen. destruct (bll_part _ _ Hb) as (sv & Hsp & Hsl). pose proof (bll_len _ _ Hb) as Hslen. cbn in Hp, Hsp.
  unfold leaf_tail, vals. rewrite Hp, Hsp. cbn. rewrite length_app in HE. node_goal.
  destruct (acopy_Ok (keys n) (keys sib) mid (key_n n) 0) as (ks1 & -> & Lk1 & Gk1); [lia|lia|]. cbn.
  destruct (acopy_Ok vs sv mid (key_n n) 0) as (vs1 & -> & Lv1 & Gv1); [lia|lia|]. cbn.
  unfold set_vals, next. cbn. rewrite Hsp. cbn. eexists; split; [reflexivity|]. split; [split; reflexivity|].
  constructor; cbn; [apply Hb|lia| |rewrite length_drop, length_app; cbn; lia|lia|].
  - exists vs1. split; [reflexivity|]. split; [now rewrite Lv1|]. positions Hvs.
  - positions (lf_keys _ _ _ H).
Qed.

End Contents.
