(* ===== verification/ConcurrentMapHeap.v ===== *)
(** * Heaps of the B+-tree

    Rules for the code of [ConcurrentMap] that works on nodes in the heap.  [wp] is the
    weakest precondition of code that returns normally; [shows] describes a heap by
    what the nodes hold, their parents and their locks.  The assertions on internal
    nodes hold when the levels are ordered. *)

From Stdlib Require Import ZArith Lia List Sorted.
From stdpp Require Import base tactics list numbers option gmap.
From S2P Require Import Prelude StdMap ConcurrentMap ConcurrentMapTree ConcurrentMapNodes.

Open Scope Z_scope.

Definition upd {A B} `{EqDecision A} (f : A -> option B) (a : A) (b : B) : A -> option B :=
  fun x => if decide (x = a) then Some b else f x.

Lemma upd_eq {A B} `{EqDecision A} (f : A -> option B) a b : upd f a b a = Some b.
Proof. unfold upd. now rewrite decide_True. Qed.
Lemma upd_ne {A B} `{EqDecision A} (f : A -> option B) a b x : x <> a -> upd f a b x = f x.
Proof. unfold upd. intros. now rewrite decide_False. Qed.
Lemma upd_Some {A B} `{EqDecision A} (f : A -> option B) a b x : is_Some (f x) -> is_Some (upd f a b x).
Proof. unfold upd. intros. case_decide; eauto. Qed.

Section Heap.
Context {V : Type} (val0 : V).

(** ** Weakest preconditions *)

Definition wp {A} (m : @cm V A) (Q : A -> CMap -> Prop) (s : CMap) : Prop :=
  exists a s', m s = Ok (a, s') /\ Q a s'.

Lemma wp_bind {A B} (m : @cm V A) (k : A -> cm B) Q s : wp m (fun a s' => wp (k a) Q s') s -> wp (m ≫= k) Q s.
Proof. intros (a & s' & E & b & s'' & E' & H). exists b, s''. split; [|exact H]. unfold mbind, cm_bind. now rewrite E. Qed.
Lemma wp_ret {A} (a : A) Q (s : @CMap V) : Q a s -> wp (mret a) Q s.
Proof. intros H. exists a, s. split; [reflexivity|exact H]. Qed.
Lemma wp_lift {A} (r : res A) a Q (s : @CMap V) : r = Ok a -> Q a s -> wp (cm_lift r) Q s.
Proof. intros -> H. exists a, s. split; [reflexivity|exact H]. Qed.
Lemma wp_assert c Q (s : @CMap V) : c = true -> Q tt s -> wp (cm_assert c) Q s.
Proof. intros ->. now apply wp_lift. Qed.
Lemma wp_gets {A} (f : CMap -> A) Q (s : @CMap V) : Q (f s) s -> wp (cm_gets f) Q s.
Proof. intros H. exists (f s), s. split; [reflexivity|exact H]. Qed.
Lemma wp_mono {A} (m : @cm V A) (Q Q' : A -> CMap -> Prop) s : wp m Q s -> (forall a s', Q a s' -> Q' a s') -> wp m Q' s.
Proof. intros (a & s' & E & H) HQ. exists a, s'. eauto. Qed.

(** ** Heaps *)

Record Base := mkBase { b_root : ptr; b_begin : ptr; b_size : Z; b_blocks : nat; b_next : nat }.
Definition base (s : @CMap V) : Base := mkBase (root s) (begin s) (size_est s) (allocated_blocks s) (next_node_i s).

Record shows (s : @CMap V) (b : Base) (D : ptr -> option (@Data V)) (P : ptr -> option (option ptr)) (L : ptr -> option Z) : Prop := {
  sh_base : base s = b;
  sh_data : forall q, data (nodes s) q = D q;
  sh_par : forall q, parv (nodes s) q = P q;
  sh_lock : forall q, lockv (nodes s) q = L q
}.

Lemma shows_self s : shows s (base s) (data (nodes s)) (parv (nodes s)) (lockv (nodes s)).
Proof. now constructor. Qed.

Lemma shows_node s b D P L p : shows s b D P L -> is_Some (L p) ->
  exists n, nodes s !! p = Some n /\ D p = Some (data_of n) /\ P p = Some (parent n) /\ L p = Some (locked n).
Proof.
  intros [_ Hd Hp Hl] [l H]. rewrite <- Hl in H. unfold lockv in H. apply fmap_Some in H as (n & Hn & _).
  exists n. rewrite <- Hd, <- Hp, <- Hl. unfold data, parv, lockv. now rewrite Hn.
Qed.

Lemma shows_data s b D P L p d : shows s b D P L -> D p = Some d -> is_Some (L p).
Proof. intros [_ Hd _ Hl] H. rewrite <- Hd in H. rewrite <- Hl. apply data_Some in H as (n & Hn & _). unfold lockv. rewrite Hn. cbn. eauto. Qed.
Lemma shows_par s b D P L p d : shows s b D P L -> P p = Some d -> is_Some (L p).
Proof. intros [_ _ Hd Hl] H. rewrite <- Hd in H. rewrite <- Hl. apply parv_Some in H as (n & Hn & _). unfold lockv. rewrite Hn. cbn. eauto. Qed.

(** What a store at [p] shows. *)
Lemma shows_store s b D P L p n : shows s b D P L -> shows (set_nodes (<[p := n]> (nodes s)) s) b
  (upd D p (data_of n)) (upd P p (parent n)) (upd L p (locked n)).
Proof.
  intros [<- Hd Hp Hl]. constructor; [reflexivity| | |]; intros q; unfold upd, data, parv, lockv; cbn;
  (case_decide as E; [subst q; now rewrite lookup_insert_eq|rewrite lookup_insert_ne by congruence]); [apply Hd|apply Hp|apply Hl].
Qed.

Lemma shows_ext s b D P L D' P' L' : shows s b D P L -> (forall q, D q = D' q) -> (forall q, P q = P' q) -> (forall q, L q = L' q) ->
  shows s b D' P' L'.
Proof. intros [Hb Hd Hp Hl] E1 E2 E3. constructor; [exact Hb| | |]; intros q; [now rewrite Hd|now rewrite Hp|now rewrite Hl]. Qed.

Lemma upd_id {A B} `{EqDecision A} (f : A -> option B) a b x : f a = Some b -> upd f a b x = f x.
Proof. intros H. unfold upd. case_decide; [now subst|reflexivity]. Qed.

Section Rules.
Context (s : @CMap V) (b : Base) (D : ptr -> option (@Data V)) (P : ptr -> option (option ptr)) (L : ptr -> option Z).
Context (Hsh : shows s b D P L).

Lemma wp_load p Q : is_Some (L p) ->
  (forall n, D p = Some (data_of n) -> P p = Some (parent n) -> L p = Some (locked n) -> Q n s) -> wp (load p) Q s.
Proof.
  intros Hp HQ. destruct (shows_node _ _ _ _ _ _ Hsh Hp) as (n & Hn & H1 & H2 & H3).
  exists n, s. split; [unfold load; now rewrite Hn|now apply HQ].
Qed.

Lemma wp_update p (f : Node -> res Node) (Q : unit -> CMap -> Prop) : is_Some (L p) ->
  (forall n, D p = Some (data_of n) -> P p = Some (parent n) -> L p = Some (locked n) -> exists n', f n = Ok n' /\
     forall s', shows s' b (upd D p (data_of n')) (upd P p (parent n')) (upd L p (locked n')) -> Q tt s') ->
  wp (update_node p f) Q s.
Proof.
  intros Hp HQ. destruct (shows_node _ _ _ _ _ _ Hsh Hp) as (n & Hn & H1 & H2 & H3).
  destruct (HQ n H1 H2 H3) as (n' & Hf & H). eexists tt, _. unfold update_node, load, mbind, cm_bind, cm_lift, store. rewrite Hn, Hf.
  split; [reflexivity|]. apply H. now apply shows_store.
Qed.

(** New contents; parent and lock stay. *)
Lemma wp_contents p f Q : is_Some (L p) ->
  (forall n, D p = Some (data_of n) -> exists n', f n = Ok n' /\ same_frame n n' /\
     forall s', shows s' b (upd D p (data_of n')) P L -> Q tt s') -> wp (update_node p f) Q s.
Proof.
  intros Hp HQ. apply wp_update; [exact Hp|]. intros n H1 H2 H3. destruct (HQ n H1) as (n' & Hf & (Hl & Hpar) & H).
  exists n'. split; [exact Hf|]. intros s' Hs'. apply H. apply (shows_ext _ _ _ _ _ _ _ _ Hs'); [reflexivity| |]; intros q; apply upd_id; congruence.
Qed.

Lemma wp_modify p f Q : is_Some (L p) -> (forall n, same_frame n (f n)) ->
  (forall n, D p = Some (data_of n) -> forall s', shows s' b (upd D p (data_of (f n))) P L -> Q tt s') -> wp (modify_node p f) Q s.
Proof. intros Hp Hf HQ. apply wp_contents; [exact Hp|]. intros n Hn. exists (f n). split; [reflexivity|]. split; [apply Hf|now apply HQ]. Qed.

Lemma wp_lock p Q : L p = Some 0 -> (forall s', shows s' b D P (upd L p 1) -> Q tt s') -> wp (lock p) Q s.
Proof.
  intros Hp HQ. apply wp_bind, wp_load; [eauto|]. intros n H1 H2 H3. rewrite Hp in H3. injection H3 as H3. rewrite <- H3. cbn.
  eexists tt, _. split; [reflexivity|]. apply HQ. apply (shows_ext _ _ _ _ _ _ _ _ (shows_store _ _ _ _ _ p (set_locked 1 n) Hsh)); intros q;
    [now apply upd_id|now apply upd_id|reflexivity].
Qed.

Lemma wp_unlock p Q : is_Some (L p) -> (forall s', shows s' b D P (upd L p 0) -> Q tt s') -> wp (unlock p) Q s.
Proof.
  intros Hp HQ. apply wp_update; [exact Hp|]. intros n H1 H2 H3. eexists; split; [reflexivity|]. intros s' Hs'. apply HQ.
  apply (shows_ext _ _ _ _ _ _ _ _ Hs'); intros q; [now apply upd_id|now apply upd_id|reflexivity].
Qed.

Lemma wp_done_with p Q : is_Some (L p) -> (forall s', shows s' b D P L -> Q tt s') -> wp (done_with p) Q s.
Proof.
  intros Hp HQ. apply wp_update; [exact Hp|]. intros n H1 H2 H3. eexists; split; [reflexivity|]. intros s' Hs'. apply HQ.
  apply (shows_ext _ _ _ _ _ _ _ _ Hs'); intros q; now apply upd_id.
Qed.

Lemma wp_set_parent p x Q : is_Some (L p) -> (forall s', shows s' b D (upd P p x) L -> Q tt s') -> wp (modify_node p (set_parent x)) Q s.
Proof.
  intros Hp HQ. apply wp_update; [exact Hp|]. intros n H1 H2 H3. eexists; split; [reflexivity|]. intros s' Hs'. apply HQ.
  apply (shows_ext _ _ _ _ _ _ _ _ Hs'); intros q; [now apply upd_id|reflexivity|now apply upd_id].
Qed.

(** ** Allocation *)

Definition blocks_ok (b : Base) : Prop := b_blocks b = ((b_next b + (node_n_per_block - 1)) / node_n_per_block)%nat.
Definition allocated : Base := mkBase (b_root b) (b_begin b) (b_size b) ((S (b_next b) + (node_n_per_block - 1)) / node_n_per_block)%nat (S (b_next b)).

Lemma blocks_step n : ((if n mod 17 =? 0 then S ((n + 16) / 17) else (n + 16) / 17) = (S n + 16) / 17)%nat.
Proof.
  pose proof (Nat.div_mod_eq n 17) as E. pose proof (Nat.mod_upper_bound n 17 ltac:(lia)) as Hm. set (q := (n / 17)%nat) in *. set (r := (n mod 17)%nat) in *.
  rewrite E. replace (S (17 * q + r) + 16)%nat with (r + (q + 1) * 17)%nat by lia. rewrite Nat.div_add, (Nat.div_small r) by lia.
  destruct (Nat.eqb_spec r 0) as [->|Hr].
  - replace (17 * q + 0 + 16)%nat with (16 + q * 17)%nat by lia. rewrite Nat.div_add by lia. cbn. lia.
  - replace (17 * q + r + 16)%nat with ((r - 1) + (q + 1) * 17)%nat by lia. rewrite Nat.div_add, Nat.div_small by lia. reflexivity.
Qed.

Lemma wp_allocate_node Q : blocks_ok b -> (forall s', shows s' allocated D P L -> Q (b_next b) s') -> wp allocate_node Q s.
Proof.
  intros Hb HQ. pose proof (sh_base _ _ _ _ _ Hsh) as Eb. unfold blocks_ok in Hb. rewrite <- Eb in Hb, HQ.
  change (allocated_blocks s = ((next_node_i s + 16) / 17)%nat) in Hb.
  unfold allocate_node. apply wp_bind. eexists _, _. split; [reflexivity|].
  apply wp_bind, wp_gets. cbn [allocated_blocks next_node_i]. change node_n_per_block with 17%nat. rewrite Hb, blocks_step.
  rewrite (proj2 (Nat.ltb_lt _ _)) by (replace (S (next_node_i s) + 16)%nat with (next_node_i s + 1 * 17)%nat by lia; rewrite Nat.div_add by lia; lia).
  apply wp_ret, HQ. unfold allocated. rewrite <- Eb. constructor; [reflexivity|apply Hsh..].
Qed.
End Rules.

Lemma wp_allocate_internal s b D P L Q : shows s b D P L -> blocks_ok b ->
  (forall s', shows s' (allocated b) (upd D (b_next b) (data_of new_internal)) (upd P (b_next b) None) (upd L (b_next b) 0) -> Q (b_next b) s') ->
  wp allocate_internal Q s.
Proof.
  intros Hs Hb HQ. apply wp_bind, (wp_allocate_node _ _ _ _ _ Hs); [exact Hb|]. intros s' Hs'. apply wp_bind. eexists tt, _. split; [reflexivity|].
  apply wp_ret, HQ. now apply (shows_store _ _ _ _ _ _ new_internal).
Qed.

Lemma wp_allocate_leaf s b D P L Q : shows s b D P L -> blocks_ok b ->
  (forall s', shows s' (allocated b) (upd D (b_next b) (data_of (new_leaf val0))) (upd P (b_next b) None) (upd L (b_next b) 0) -> Q (b_next b) s') ->
  wp (allocate_leaf val0) Q s.
Proof.
  intros Hs Hb HQ. apply wp_bind, (wp_allocate_node _ _ _ _ _ Hs); [exact Hb|]. intros s' Hs'. apply wp_bind. eexists tt, _. split; [reflexivity|].
  apply wp_ret, HQ. now apply (shows_store _ _ _ _ _ _ (new_leaf val0)).
Qed.

(** ** Assertions *)

(** A node with at least one key. *)
Definition filled (h : gmap ptr (@Node V)) (e : entry) : Prop :=
  exists d, data h e.2 = Some d /\ (1 <= d_n d <= length (d_keys d))%nat.

Lemma for_assert_ok (s : @CMap V) check n : (forall i, (i < n)%nat -> check i s = Ok (true, s)) -> for_assert n check s = Ok (tt, s).
Proof.
  induction n as [|n IH]; intros H; [reflexivity|]. cbn. unfold mbind, cm_bind.
  rewrite IH by (intros i Hi; apply H; lia). now rewrite H by lia.
Qed.

Lemma wp_run {A} (m : @cm V A) a (Q : A -> CMap -> Prop) s : m s = Ok (a, s) -> Q a s -> wp m Q s.
Proof. intros E H. exists a, s. auto. Qed.

Section Assertions.
Context (s : @CMap V) (p : ptr) (n : Node) (Hn : nodes s !! p = Some n).

Lemma keys_ascend_ok i x y : keys n !! i = Some x -> keys n !! (i + 1)%nat = Some y -> x < y -> keys_ascend p i s = Ok (true, s).
Proof.
  intros Hx Hy Hlt. unfold keys_ascend, mbind, cm_bind, load, cm_lift. rewrite Hn, (aget_Ok _ _ _ Hx), (aget_Ok _ _ _ Hy).
  unfold mret, cm_ret. now rewrite (proj2 (Z.ltb_lt x y) Hlt).
Qed.

Lemma sorted_keys_ascend : length (keys n) = node_capacity -> (key_n n <= node_capacity)%nat -> StronglySorted Z.lt (ks (data_of n)) ->
  for_assert (key_n n - 1) (keys_ascend p) s = Ok (tt, s).
Proof.
  intros Hl Hc Hs. apply for_assert_ok. intros i Hi.
  destruct (lookup_lt_is_Some_2 (keys n) i) as [x Hx]; [lia|]. destruct (lookup_lt_is_Some_2 (keys n) (i + 1)) as [y Hy]; [lia|].
  apply (keys_ascend_ok i x y Hx Hy). apply (proj2 (sorted_lookup _ _) Hs i (i + 1)%nat); [lia| |]; unfold ks; cbn; rewrite lookup_take_lt by lia; assumption.
Qed.

Context (E : list entry) (HE : inode (data_of n) E).

Lemma child_at_ok i e : E !! i = Some e -> child_at p i s = Ok (e.2, s).
Proof.
  intros He. destruct (in_part _ _ HE) as (ch & Hp & _ & Hch). cbn in Hp. unfold child_at, mbind, cm_bind, load, cm_lift, children.
  now rewrite Hn, Hp, (aget_Ok _ _ _ (Hch _ _ He)).
Qed.

Lemma last_key_ok (m : @Node V) : (1 <= key_n m <= length (keys m))%nat -> exists k, last_key m = Ok k /\ k ∈ ks (data_of m).
Proof.
  intros H. destruct (lookup_lt_is_Some_2 (keys m) (key_n m - 1)) as [k Hk]; [lia|]. exists k. unfold last_key.
  rewrite (proj2 (Nat.eqb_neq (key_n m) 0)) by lia. split; [now apply aget_Ok|].
  apply list_elem_of_lookup. exists (key_n m - 1)%nat. unfold ks. cbn. now rewrite lookup_take_lt by lia.
Qed.

Lemma first_key_ok (m : @Node V) : (1 <= key_n m <= length (keys m))%nat -> exists k, aget (keys m) 0 = Ok k /\ k ∈ ks (data_of m).
Proof.
  intros H. destruct (lookup_lt_is_Some_2 (keys m) 0) as [k Hk]; [lia|]. exists k. split; [now apply aget_Ok|].
  apply list_elem_of_lookup. exists O. unfold ks. cbn. now rewrite lookup_take_lt by lia.
Qed.

Lemma children_separated_ok i : ordered (nodes s) E -> Forall (filled (nodes s)) E -> (i < key_n n)%nat -> children_separated p i s = Ok (true, s).
Proof.
  intros Ho Hf Hi. pose proof (in_E _ _ HE) as HlE. pose proof (in_n _ _ HE) as Hk. pose proof (in_len _ _ HE) as Hl. cbn in *.
  destruct (lookup_lt_is_Some_2 E i) as [e1 He1]; [lia|]. destruct (lookup_lt_is_Some_2 E (S i)) as [e2 He2]; [lia|].
  destruct (lookup_lt_is_Some_2 (keys n) i) as [k Hki]; [lia|]. pose proof (in_seps _ _ HE _ _ He2) as Hsep. cbn in Hsep. rewrite Hki in Hsep.
  rewrite Forall_lookup in Hf. destruct (Hf _ _ He1) as (d1 & (n1 & Hn1 & <-)%data_Some & Hd1), (Hf _ _ He2) as (d2 & (n2 & Hn2 & <-)%data_Some & Hd2).
  destruct (last_key_ok n1 Hd1) as (k1 & Ek1 & Hk1), (first_key_ok n2 Hd2) as (k2 & Ek2 & Hk2).
  assert (Hlt : k1 < k). { destruct (proj2 (sorted_lookup _ _) (ord_sorted _ _ Ho) i (S i) e1 e2) as [_ H]; [lia|assumption..|].
    rewrite (ks_at_data _ _ _ (data_lookup _ _ _ Hn1)), Forall_forall in H. specialize (H k1 Hk1). now rewrite <- Hsep in H. }
  assert (Hle : k <= k2). { destruct (proj1 (Forall_lookup _ _) (ord_items _ _ Ho) _ _ He2) as [_ H].
    rewrite (ks_at_data _ _ _ (data_lookup _ _ _ Hn2)), Forall_forall in H. specialize (H k2 Hk2). now rewrite <- Hsep in H. }
  unfold children_separated, mbind, cm_bind, load, cm_assert, cm_lift. replace (i + 1)%nat with (S i) by lia.
  rewrite Hn, (aget_Ok _ _ _ Hki), (child_at_ok _ _ He1), Hn1, Ek1, (proj2 (Z.ltb_lt k1 k)) by lia. cbn [INVARIANT].
  rewrite (child_at_ok _ _ He2), Hn2, Ek2. unfold mret, cm_ret. now rewrite (proj2 (Z.leb_le k k2)) by lia.
Qed.

Lemma assert_internal_ok : (forall e, e ∈ E -> parv (nodes s) e.2 = Some (Some p)) -> ordered (nodes s) E -> Forall (filled (nodes s)) E ->
  assert_internal p s = Ok (tt, s).
Proof.
  intros Hpar Ho Hf. pose proof (in_E _ _ HE) as HlE. pose proof (in_n _ _ HE) as Hk. cbn in HlE.
  unfold assert_internal, mbind, cm_bind. unfold load at 1. rewrite Hn.
  rewrite (sorted_keys_ascend (in_len _ _ HE) (proj2 Hk) (sorted_seps _ _ HE (ordered_lows _ _ Ho))).
  rewrite for_assert_ok by (intros i Hi; now apply children_separated_ok). apply for_assert_ok. intros i Hi.
  destruct (lookup_lt_is_Some_2 E i) as [e He]; [lia|]. destruct (parv_Some _ _ _ (Hpar e (list_elem_of_lookup_2 _ _ _ He))) as (m & Hm & Hp).
  unfold child_of, mbind, cm_bind. rewrite (child_at_ok _ _ He). unfold load. rewrite Hm. unfold mret, cm_ret. now rewrite bool_decide_eq_true_2.
Qed.
End Assertions.

(** ** Parents *)

Lemma wp_lock_parent s b D P L fuel p q Q : shows s b D P L -> P p = Some (Some q) -> L q = Some 0 ->
  (forall s', shows s' b D P (upd L q 1) -> Q (Some q) s') -> wp (lock_parent (S fuel) p) Q s.
Proof.
  intros Hs Hp Hq HQ. cbn [lock_parent]. apply wp_bind, (wp_load _ _ _ _ _ Hs); [exact (shows_par _ _ _ _ _ _ _ Hs Hp)|].
  intros n _ Hn _. rewrite Hp in Hn. injection Hn as <-. apply wp_bind, (wp_lock _ _ _ _ _ Hs); [exact Hq|]. intros s' Hs'.
  apply wp_bind, (wp_load _ _ _ _ _ Hs'); [exact (shows_par _ _ _ _ _ _ _ Hs' Hp)|]. intros n' _ Hn' _. rewrite Hp in Hn'. injection Hn' as <-.
  rewrite bool_decide_eq_false_2 by (intros H; now apply H). apply wp_ret. now apply HQ.
Qed.

Lemma wp_lock_no_parent s b D P L fuel p (Q : option ptr -> CMap -> Prop) : shows s b D P L -> P p = Some None -> Q None s ->
  wp (lock_parent (S fuel) p) Q s.
Proof.
  intros Hs Hp HQ. cbn [lock_parent]. apply wp_bind, (wp_load _ _ _ _ _ Hs); [exact (shows_par _ _ _ _ _ _ _ Hs Hp)|].
  intros n _ Hn _. rewrite Hp in Hn. injection Hn as <-. now apply wp_ret.
Qed.

(** [adopt] makes [p] the parent of its first [k] children. *)
Definition adopted (P : ptr -> option (option ptr)) (p : ptr) (E : list entry) : ptr -> option (option ptr) :=
  fun q => if decide (q ∈ map snd E) then Some (Some p) else P q.

Lemma wp_adopt b D P L p d E : D p = Some d -> inode d E -> (forall e, e ∈ E -> is_Some (L e.2)) ->
  forall k s, (k <= length E)%nat -> shows s b D P L -> forall (Q : unit -> CMap -> Prop),
  (forall s', shows s' b D (adopted P p (take k E)) L -> Q tt s') -> wp (adopt k p) Q s.
Proof.
  intros Hd HE HL. induction k as [|k IH]; intros s Hk Hs Q HQ.
  - apply wp_ret, HQ. apply (shows_ext _ _ _ _ _ _ _ _ Hs); [reflexivity| |reflexivity]. intros q. unfold adopted. cbn. now rewrite decide_False by apply not_elem_of_nil.
  - cbn [adopt]. apply wp_bind, (IH s); [lia|exact Hs|]. intros s' Hs'. destruct (lookup_lt_is_Some_2 E k) as [e He]; [lia|].
    pose proof (sh_data _ _ _ _ _ Hs' p) as Hp. rewrite Hd in Hp. apply data_Some in Hp as (n & Hn & <-).
    apply wp_bind, (wp_run _ e.2); [exact (child_at_ok _ _ _ Hn _ HE _ _ He)|].
    apply (wp_set_parent _ _ _ _ _ Hs'); [apply HL; exact (list_elem_of_lookup_2 _ _ _ He)|]. intros s'' Hs''. apply HQ.
    apply (shows_ext _ _ _ _ _ _ _ _ Hs''); [reflexivity| |reflexivity]. intros q. unfold upd, adopted.
    rewrite (take_S_r _ _ _ He), map_app. cbn. destruct (decide (q = e.2)) as [->|Hne]; [rewrite decide_True; [reflexivity|apply elem_of_app; right; apply list_elem_of_here]|].
    destruct (decide (q ∈ map snd (take k E))); [rewrite decide_True by (apply elem_of_app; now left); reflexivity|].
    rewrite decide_False; [reflexivity|]. intros [Hq|Hq]%elem_of_app; [contradiction|]. now apply list_elem_of_singleton in Hq.
Qed.

End Heap.
