(* ===== verification/ConcurrentMapSplit.v ===== *)
(** * Splitting nodes of the B+-tree

    Inserting into a full leaf splits it, and the new sibling needs an entry in the
    level above, which may split a node of that level in turn.  A turn of the loop
    over the levels replaces one entry of a level by two.  [split_loop_ok] shows by
    induction on the levels that the loop ends with a tree for the new level of
    leaves, with all locks released, after assertions that all hold. *)

From Stdlib Require Import ZArith Lia List Sorted.
From stdpp Require Import base tactics list numbers option gmap.
From S2P Require Import Prelude StdMap ConcurrentMap ConcurrentMapTree ConcurrentMapNodes ConcurrentMapHeap.

Open Scope Z_scope.

Section Insert.
Context {V : Type}.

(** ** Splitting an internal node

    [q] entries stay in the node, the others go to the sibling; the new key is the
    low bound of the sibling. *)
Record split_result (el er : list entry) (x : entry) (p : ptr) (P P' : ptr -> option (option ptr)) (q : nat) (key : Z) (dn ds : @Data V) : Prop := {
  sr_node : inode dn (take q (el ++ x :: er));
  sr_sib : inode ds (drop q (el ++ x :: er));
  sr_low : low (drop q (el ++ x :: er)) = Some key;
  sr_par : forall y, y <> x.2 -> P' y = P y;
  sr_new : x ∈ drop q (el ++ x :: er) \/ P' x.2 = Some (Some p)
}.

Lemma low_drop (E : list entry) q e : E !! q = Some e -> low (drop q E) = e.1.
Proof. intros H. now rewrite (drop_S _ _ _ H). Qed.

Section SplitInternal.
Context (s : @CMap V) (b : Base) (D : ptr -> option (@Data V)) (P : ptr -> option (option ptr)) (L : ptr -> option Z).
Context (p sib' prev : ptr) (sk : Z) (el er : list entry) (n : @Node V) (ds : @Data V) (mid : nat) (Q : Z -> @CMap V -> Prop).
Context (Hs : shows s b D P L) (Hp : D p = Some (data_of n)) (HE : inode (data_of n) (el ++ er)) (Hfull : key_n n = node_capacity).
Context (Hsib : D sib' = Some ds) (Hbl : blank ds) (Hne : p <> sib') (HLp : is_Some (L prev)).
Context (Hel : el <> []) (Hmid : (mid = 7 /\ length el <= 15 \/ mid = 14 /\ length el = 16)%nat).
Context (HQ : forall s' P' q key dn' ds', split_result el er (Some sk, prev) p P P' q key dn' ds' ->
  shows s' b (upd (upd D sib' ds') p dn') P' L -> Q key s').

Lemma split_sizes : (length el + length er = 16)%nat /\ length (keys n) = 15%nat /\ length el <> O.
Proof.
  pose proof (in_E _ _ HE) as HlE. rewrite length_app in HlE. cbn in HlE. rewrite Hfull in HlE. pose proof (in_len _ _ HE) as Hlk. split; [exact HlE|]. split; [exact Hlk|now destruct el].
Qed.

Lemma split_locks : is_Some (L sib') /\ is_Some (L p).
Proof. split; [exact (shows_data _ _ _ _ _ _ _ Hs Hsib)|exact (shows_data _ _ _ _ _ _ _ Hs Hp)]. Qed.

(** The node keeps its first entries; the sibling is written already. *)
Lemma wp_shrink s1 m' q key k : shows s1 b (upd D sib' (data_of m')) P L -> (1 <= q <= key_n n)%nat ->
  take (S q) (el ++ er) = take (S q) (el ++ (Some sk, prev) :: er) -> inode (data_of m') (drop (S q) (el ++ (Some sk, prev) :: er)) ->
  low (drop (S q) (el ++ (Some sk, prev) :: er)) = Some key -> (Some sk, prev) ∈ drop (S q) (el ++ (Some sk, prev) :: er) -> k = key ->
  wp (_ ← modify_node p (set_key_n q); mret k) Q s1.
Proof.
  intros Hs1 Hq Htake Hin Hlow Hnew ->. apply wp_bind, (wp_modify _ _ _ _ _ Hs1); [apply split_locks|now intros|]. intros n1 Hn1 s2 Hs2.
  rewrite upd_ne, Hp in Hn1 by exact Hne. apply (inj Some) in Hn1. rewrite Hn1 in HE. apply wp_ret. refine (HQ s2 P (S q) key _ _ _ Hs2).
  constructor; [|exact Hin|exact Hlow|reflexivity|now left]. rewrite <- Htake. apply inode_take; [exact HE|]. injection Hn1 as _ <- _ _. exact Hq.
Qed.

Lemma wp_split_first : (length el - 1)%nat = mid ->
  wp (split_key ← (_ ← update_node sib' (internal_to_sibling_first prev mid n); mret sk); _ ← modify_node p (set_key_n mid); mret split_key) Q s.
Proof.
  intros Heq. destruct split_sizes as (HlE & Hlk & Hel'). change node_capacity with 15%nat in Hfull.
  apply wp_bind, wp_bind, (wp_contents _ _ _ _ _ Hs); [apply split_locks|]. intros m Hm. rewrite Hsib in Hm. apply (inj Some) in Hm. rewrite Hm in Hbl. rewrite <- Heq.
  destruct (internal_first_spec n m el er sk prev HE Hbl) as (m' & -> & Hfr & Hin); [lia|].
  eexists; split; [reflexivity|]. split; [exact Hfr|]. intros s1 Hs1. apply wp_ret. replace (length el) with (S (length el - 1)) in Hin by lia.
  apply (wp_shrink s1 m' (length el - 1) sk sk Hs1); [lia| |exact Hin| | |reflexivity]; replace (S (length el - 1)) with (length el) by lia;
    [now rewrite !take_app_length|now rewrite drop_app_length|rewrite drop_app_length; elem].
Qed.

Lemma wp_split_right : (mid < length el - 1)%nat ->
  wp (split_key ← (_ ← update_node sib' (internal_to_sibling sk prev (length el - 1) mid n); cm_lift (aget (keys n) mid)); _ ← modify_node p (set_key_n mid); mret split_key) Q s.
Proof.
  intros Hlt. destruct split_sizes as (HlE & Hlk & Hel'). change node_capacity with 15%nat in Hfull.
  apply wp_bind, wp_bind, (wp_contents _ _ _ _ _ Hs); [apply split_locks|]. intros m Hm. rewrite Hsib in Hm. apply (inj Some) in Hm. rewrite Hm in Hbl.
  destruct (internal_to_sibling_spec n m el er sk prev mid HE Hbl) as (m' & -> & Hfr & Hin); [lia|].
  eexists; split; [reflexivity|]. split; [exact Hfr|]. intros s1 Hs1. rewrite Nat.add_1_r in Hin.
  destruct (lookup_lt_is_Some_2 (keys n) mid) as [k Hk]; [lia|]. apply (wp_lift _ k); [now apply aget_Ok|].
  apply (wp_shrink s1 m' mid k k Hs1); [lia| |exact Hin| | |reflexivity].
  - rewrite !take_app_le by lia. reflexivity.
  - destruct (lookup_lt_is_Some_2 el (S mid)) as [e He]; [lia|]. rewrite (low_drop _ _ e) by (rewrite lookup_app_l by lia; exact He).
    rewrite <- (in_seps _ _ HE mid e); [exact Hk|]. rewrite lookup_app_l by lia. exact He.
  - apply list_elem_of_lookup. exists (length el - S mid)%nat. rewrite lookup_drop.
    replace (S mid + (length el - S mid))%nat with (length el) by lia. now apply list_lookup_middle.
Qed.

Lemma wp_split_left : (length el - 1 < mid)%nat ->
  wp (_ ← update_node sib' (internal_tail mid n);
      split_key ← cm_lift (aget (keys n) mid);
      _ ← update_node p (internal_put sk prev (length el - 1) mid);
      _ ← modify_node prev (set_parent (Some p));
      _ ← modify_node p (set_key_n (mid + 1));
      mret split_key) Q s.
Proof.
  intros Hlt. destruct split_sizes as (HlE & Hlk & Hel'). change node_capacity with 15%nat in Hfull.
  apply wp_bind, (wp_contents _ _ _ _ _ Hs); [apply split_locks|]. intros m Hm. rewrite Hsib in Hm. apply (inj Some) in Hm. rewrite Hm in Hbl.
  destruct (internal_tail_spec n m el er (Some sk, prev) mid HE Hbl) as (m' & -> & Hfr & Hin); [lia|lia|].
  eexists; split; [reflexivity|]. split; [exact Hfr|]. intros s1 Hs1.
  destruct (lookup_lt_is_Some_2 (keys n) mid) as [k Hk]; [lia|]. apply wp_bind, (wp_lift _ k); [now apply aget_Ok|].
  apply wp_bind, (wp_contents _ _ _ _ _ Hs1); [apply split_locks|]. intros n1 Hn1. rewrite upd_ne, Hp in Hn1 by exact Hne. apply (inj Some) in Hn1.
  assert (HE1 : inode (data_of n1) (el ++ er)) by (rewrite <- Hn1; exact HE).
  destruct (internal_put_spec n1 el er sk prev mid HE1 Hel) as (n2 & -> & Hfr2 & Hkn & Hin2); [injection Hn1 as _ <- _ _; lia|change node_capacity with 15%nat; lia|].
  eexists; split; [reflexivity|]. split; [exact Hfr2|]. intros s2 Hs2.
  apply wp_bind, (wp_set_parent _ _ _ _ _ Hs2); [exact HLp|]. intros s3 Hs3.
  apply wp_bind, (wp_modify _ _ _ _ _ Hs3); [apply split_locks|now intros|]. intros n3 Hn3 s4 Hs4. rewrite upd_eq in Hn3. injection Hn3 as F1 F2 F3 F4.
  apply wp_ret. refine (HQ s4 (upd P prev (Some p)) (mid + 2)%nat k (data_of (set_key_n (mid + 1) n2)) (data_of m') _ _).
  - constructor; [exact Hin2|exact Hin| |intros y Hy; now apply upd_ne|right; apply upd_eq].
    destruct (lookup_lt_is_Some_2 (el ++ er) (S mid)) as [e He]; [rewrite length_app; lia|]. rewrite (low_drop _ _ e).
    + rewrite <- (in_seps _ _ HE mid e); [exact Hk|exact He].
    + rewrite lookup_put. repeat case_decide; try lia. rewrite <- He. f_equal. lia.
  - apply (shows_ext _ _ _ _ _ _ _ _ Hs4); [|reflexivity|reflexivity]. intros y. unfold upd. repeat case_decide; try reflexivity.
    f_equal. unfold data_of. cbn. congruence.
Qed.
End SplitInternal.

Lemma wp_split_internal (s : @CMap V) b D P L p sib' prev sk el er n0 ds mid (Q : Z -> CMap -> Prop) :
  shows s b D P L -> D p = Some (data_of n0) -> inode (data_of n0) (el ++ er) -> key_n n0 = node_capacity -> D sib' = Some ds -> blank ds ->
  p <> sib' -> is_Some (L prev) -> el <> [] -> (mid = 7 /\ length el <= 15 \/ mid = 14 /\ length el = 16)%nat ->
  (forall s' P' q key dn' ds', split_result el er (Some sk, prev) p P P' q key dn' ds' ->
     shows s' b (upd (upd D sib' ds') p dn') P' L -> Q key s') ->
  wp (split_internal p sib' prev sk (length el - 1) mid) Q s.
Proof.
  intros Hs Hp HE Hfull Hsib Hbl Hne HLp Hel Hmid HQ. apply wp_bind, (wp_load _ _ _ _ _ Hs); [exact (shows_data _ _ _ _ _ _ _ Hs Hp)|]. intros n Hn _ _.
  rewrite Hp in Hn. pose proof (inj Some _ _ Hn) as Hd. rewrite Hd in Hp, HE. assert (Hk : key_n n = node_capacity) by (injection Hd; congruence).
  destruct (Nat.leb_spec mid (length el - 1)) as [Hms|Hms]; [destruct (Nat.eqb_spec (length el - 1) mid) as [Heq|Hneq]|].
  - eapply wp_split_first; eassumption.
  - eapply wp_split_right; try eassumption. lia.
  - eapply wp_split_left; eassumption.
Qed.

(** ** Parts of a level *)

Lemma ordered_data (h h' : gmap ptr (@Node V)) idx : (forall e, e ∈ idx -> data h' e.2 = data h e.2) -> ordered h idx -> ordered h' idx.
Proof.
  intros Hd [Hi Hs]. assert (Hk : forall e, e ∈ idx -> ks_at h' e.2 = ks_at h e.2) by (intros e He; unfold ks_at; now rewrite Hd).
  constructor.
  - rewrite Forall_forall in Hi |- *. intros e He. rewrite (Hk e He). now apply Hi.
  - apply sorted_lookup. intros i j x y Hij Hx Hy. rewrite (Hk x) by exact (list_elem_of_lookup_2 _ _ _ Hx). now apply (proj2 (sorted_lookup _ _) Hs i j).
Qed.

Lemma filled_data (h h' : gmap ptr (@Node V)) idx : (forall e, e ∈ idx -> data h' e.2 = data h e.2) -> Forall (filled h) idx -> Forall (filled h') idx.
Proof. intros Hd Hf. rewrite Forall_forall in Hf |- *. intros e He. unfold filled. rewrite (Hd e He). now apply Hf. Qed.

Lemma ordered_app (h : gmap ptr (@Node V)) l r : ordered h (l ++ r) -> ordered h l /\ ordered h r.
Proof.
  intros [Hi Hs]. apply Forall_app in Hi as [Hi1 Hi2]. apply sorted_app in Hs as (Hs1 & Hs2 & _). split; now constructor.
Qed.

Lemma ordered_take (h : gmap ptr (@Node V)) q E : ordered h E -> ordered h (take q E) /\ ordered h (drop q E).
Proof. intros H. apply ordered_app. now rewrite take_drop. Qed.

(** Where the new entry goes. *)
Lemma slot_ok (n : @Node V) el er sk c : inode (data_of n) (el ++ er) -> sorted_lows (el ++ (Some sk, c) :: er) -> el <> [] ->
  find_first_larger_than sk n = Ok (length el - 1)%nat /\ same_slot sk n = Ok true.
Proof.
  intros HE Hs Hel. apply sorted_app in Hs as (Hsl & Hsr & Hlr). apply StronglySorted_inv in Hsr as [Hsr Hx]. rewrite Forall_forall in Hx. cbn in Hx.
  assert (Hsort : sorted_lows (el ++ er)) by (apply sorted_app; split; [exact Hsl|split; [exact Hsr|intros x y Hx' Hy; apply Hlr; [exact Hx'|now apply list_elem_of_further]]]).
  assert (Hl : forall e, e ∈ el -> olt e.1 (Some sk)) by (intros e He; apply (Hlr e (Some sk, c)); [exact He|apply list_elem_of_here]).
  destruct (find_child_spec sk n (el ++ er) HE Hsort) as (l & e & r & HeE & [Hfr Hbl] & Hf & _).
  { destruct el as [|e0 el']; [done|]. specialize (Hl e0 (list_elem_of_here _ _)). cbn. destruct e0.1; cbn in *; lia. }
  split.
  - rewrite Hf. f_equal. destruct (decide (length l + 1 < length el)%nat) as [Hlt|Hge].
    + exfalso. destruct (lookup_lt_is_Some_2 el (length l + 1)) as [e' He']; [exact Hlt|]. specialize (Hl e' (list_elem_of_lookup_2 _ _ _ He')).
      assert (Hr : r !! O = Some e').
      { rewrite <- (lookup_app_l _ er) in He' by exact Hlt. rewrite HeE, lookup_app_r in He' by lia. replace (length l + 1 - length l)%nat with 1%nat in He' by lia. exact He'. }
      rewrite Forall_lookup in Hbl. specialize (Hbl _ _ Hr). destruct e'.1; cbn in *; lia.
    + destruct (decide (length l < length el)%nat) as [Hlt|Hge']; [lia|]. exfalso.
      assert (He : (el ++ er) !! length l = Some e) by (rewrite HeE; now apply list_lookup_middle). rewrite lookup_app_r in He by lia.
      specialize (Hx e (list_elem_of_lookup_2 _ _ _ He)). destruct e.1; cbn in *; lia.
  - pose proof (in_n _ _ HE) as Hn. apply same_slot_true; [exact (in_len _ _ HE)|exact (proj2 Hn)|exact (sorted_seps _ _ HE Hsort)|].
    intros (i & Hi)%list_elem_of_lookup. apply (ks_inode _ _ HE) in Hi as (e' & He' & Hk). apply list_elem_of_lookup_2, elem_of_app in He' as [He'|He'].
    + specialize (Hl _ He'). rewrite Hk in Hl. cbn in Hl. lia.
    + specialize (Hx _ He'). rewrite Hk in Hx. cbn in Hx. lia.
Qed.

(** ** Splitting a parent

    The parent [p] is full; its entries with the new child are [E].  Afterwards its
    first [q] entries are left, the others are those of the new node [nx]. *)
Record parent_split (p nx : ptr) (E : list entry) (P P' : ptr -> option (option ptr)) (q : nat) (key : Z) (dn ds : @Data V) : Prop := {
  ps_node : inode dn (take q E);
  ps_sib : inode ds (drop q E);
  ps_low : low (drop q E) = Some key;
  ps_left : forall e, e ∈ take q E -> P' e.2 = Some (Some p);
  ps_right : forall e, e ∈ drop q E -> P' e.2 = Some (Some nx);
  ps_other : forall y, y ∉ map snd E -> y <> nx -> P' y = P y
}.

(** [adopt] after the contents were split. *)
Lemma split_adopted el er x p nx (P P1 : ptr -> option (option ptr)) q key (dn ds : @Data V) :
  split_result el er x p P P1 q key dn ds -> NoDup (map snd (el ++ x :: er)) ->
  (forall e, e ∈ el ++ er -> P e.2 = Some (Some p)) ->
  parent_split p nx (el ++ x :: er) P (adopted P1 nx (drop q (el ++ x :: er))) q key dn ds.
Proof.
  intros H Hnd Hpar. destruct H as [Hn Hs Hlow Hp Hnew]. set (E := el ++ x :: er) in *.
  assert (Hdis : forall e, e ∈ take q E -> e.2 ∉ map snd (drop q E)).
  { intros e He Hin. rewrite <- (take_drop q E), map_app in Hnd. apply NoDup_app in Hnd as (_ & Hd & _). apply (Hd e.2); [|exact Hin].
    now apply (list_elem_of_fmap_2 snd). }
  constructor; [exact Hn|exact Hs|exact Hlow| | |].
  - intros e He. unfold adopted. rewrite decide_False by now apply Hdis. destruct (decide (e.2 = x.2)) as [Heq|Hne].
    + rewrite Heq. destruct Hnew as [Hin|Hx]; [|exact Hx]. exfalso. apply (Hdis e He). rewrite Heq. now apply (list_elem_of_fmap_2 snd).
    + rewrite Hp by exact Hne. apply Hpar. assert (HeE : e ∈ E) by (rewrite <- (take_drop q E); apply elem_of_app; now left).
      apply elem_of_app in HeE as [HeE|[->|HeE]%elem_of_cons]; [apply elem_of_app; now left|now contradict Hne|apply elem_of_app; now right].
  - intros e He. unfold adopted. now rewrite decide_True by now apply (list_elem_of_fmap_2 snd).
  - intros y Hy Hne. unfold adopted. rewrite decide_False.
    + apply Hp. intros ->. apply Hy. unfold E. rewrite map_app. apply elem_of_app. right. apply list_elem_of_here.
    + intros Hin. apply Hy. rewrite <- (take_drop q E), map_app. apply elem_of_app. now right.
Qed.

Lemma filled_lock (s : @CMap V) b D P L e : shows s b D P L -> filled (nodes s) e -> is_Some (L e.2).
Proof. intros Hs (d & Hd & _). rewrite (sh_data _ _ _ _ _ Hs) in Hd. exact (shows_data _ _ _ _ _ _ _ Hs Hd). Qed.

Lemma split_keys_ascend (dn ds : @Data V) (E : list entry) q a c : inode dn (take q E) -> inode ds (drop q E) -> sorted_lows E ->
  a ∈ ks dn -> c ∈ ks ds -> a < c.
Proof.
  intros Hn Hs Hso (i & Ha)%list_elem_of_lookup (j & Hc)%list_elem_of_lookup.
  apply (ks_inode _ _ Hn) in Ha as (e1 & He1 & Ha). apply (ks_inode _ _ Hs) in Hc as (e2 & He2 & Hc).
  rewrite <- (take_drop q E) in Hso. apply sorted_app in Hso as (_ & _ & H).
  specialize (H e1 e2 (list_elem_of_lookup_2 _ _ _ He1) (list_elem_of_lookup_2 _ _ _ He2)). now rewrite Ha, Hc in H.
Qed.

(** The two halves pass the assertions at the end of [split_parent]. *)
Lemma wp_assert_halves (s : @CMap V) b D P L p nx (E : list entry) P0 q key dn ds (Q : unit -> CMap -> Prop) :
  shows s b D P L -> parent_split p nx E P0 P q key dn ds -> D p = Some dn -> D nx = Some ds -> L p = Some 1 -> L nx = Some 1 ->
  length E = S alt_buf_fanout -> ordered (nodes s) E -> Forall (filled (nodes s)) E -> Q tt s -> wp (assert_halves p nx) Q s.
Proof.
  intros Hs Hps Hp Hnx HLp HLn HlE Ho Hf HQ. pose proof (ps_node _ _ _ _ _ _ _ _ _ Hps) as HEn. pose proof (ps_sib _ _ _ _ _ _ _ _ _ Hps) as HEs.
  assert (Hdata : forall y d, D y = Some d -> exists n, nodes s !! y = Some n /\ data_of n = d).
  { intros y d Hy. rewrite <- (sh_data _ _ _ _ _ Hs) in Hy. now apply data_Some. }
  destruct (Hdata _ _ Hp) as (n & Hn & <-), (Hdata _ _ Hnx) as (m & Hm & <-).
  pose proof (in_leaf _ _ HEn) as Hl1. pose proof (in_leaf _ _ HEs) as Hl2. cbn in Hl1, Hl2.
  assert (HL : locked n = 1 /\ locked m = 1). { rewrite <- (sh_lock _ _ _ _ _ Hs) in HLp, HLn. unfold lockv in *. rewrite Hn in HLp. rewrite Hm in HLn. cbn in *. split; congruence. }
  destruct HL as [HL1 HL2]. pose proof (in_n _ _ HEn) as Hk1. pose proof (in_n _ _ HEs) as Hk2.
  destruct (first_key_ok m) as (c & Ec & Hc); [pose proof (in_len _ _ HEs); cbn in *; lia|].
  destruct (last_key_ok n) as (a & Ea & Ha); [pose proof (in_len _ _ HEn); cbn in *; lia|].
  pose proof (split_keys_ascend _ _ _ _ _ _ HEn HEs (ordered_lows _ _ Ho) Ha Hc) as Hac.
  apply wp_bind, (wp_run _ m); [unfold load; now rewrite Hm|]. apply wp_bind, (wp_run _ n); [unfold load; now rewrite Hn|].
  rewrite Hl1, Hl2, HL1, HL2. do 4 (apply wp_bind, wp_assert; [reflexivity|]).
  apply wp_bind, wp_assert.
  { apply Nat.eqb_eq. pose proof (in_E _ _ HEn) as L1. pose proof (in_E _ _ HEs) as L2. cbn in L1, L2. rewrite length_take in L1. rewrite length_drop in L2.
    unfold alt_buf_fanout in *. cbn. lia. }
  apply wp_bind, (wp_lift _ c); [exact Ec|]. apply wp_bind, (wp_lift _ a); [exact Ea|]. apply wp_bind, wp_assert; [now apply Z.ltb_lt|].
  destruct (ordered_take _ q _ Ho) as [Ho1 Ho2]. rewrite <- (take_drop q E) in Hf. apply Forall_app in Hf as [Hf1 Hf2].
  apply wp_bind, (wp_run _ tt). { apply (assert_internal_ok s p n Hn _ HEn); [|exact Ho1|exact Hf1]. intros e He. rewrite (sh_par _ _ _ _ _ Hs). exact (ps_left _ _ _ _ _ _ _ _ _ Hps e He). }
  apply (wp_run _ tt); [|exact HQ]. { apply (assert_internal_ok s nx m Hm _ HEs); [|exact Ho2|exact Hf2]. intros e He. rewrite (sh_par _ _ _ _ _ Hs). exact (ps_right _ _ _ _ _ _ _ _ _ Hps e He). }
Qed.

Lemma mid_cases slot : (slot <= 15)%nat ->
  let mid := (if slot =? 15 then 15 - 1 else if (slot <? 15 / 2) && (15 - (15 / 2 + 1) <? 15 / 2) then 15 / 2 - 1 else 15 / 2)%nat in
  (mid = 7 /\ S slot <= 15 \/ mid = 14 /\ S slot = 16)%nat.
Proof.
  intros H. cbn [Nat.div Nat.divmod fst Nat.add Nat.sub Nat.ltb Nat.leb]. rewrite andb_false_r. destruct (Nat.eqb_spec slot 15); lia.
Qed.

Lemma blank_new (n : @Node V) : data_of n = data_of new_internal -> blank (data_of (set_is_leaf false n)).
Proof. intros [= E1 E2 E3 E4]. constructor; cbn; [reflexivity|now rewrite E3|rewrite E4; eexists; split; reflexivity]. Qed.

(** The end of [split_parent], from the loop that sets the parents on. *)
Lemma wp_split_finish (s : @CMap V) b D L p nx node sib (E : list entry) P0 P1 q key dn ds (Q : ptr * Z -> CMap -> Prop) :
  shows s b D P1 L -> parent_split p nx E P0 (adopted P1 nx (drop q E)) q key dn ds -> D p = Some dn -> D nx = Some ds -> L p = Some 1 -> L nx = Some 1 ->
  (forall y, y ∈ map snd E -> is_Some (L y)) -> (forall y, y ∈ map snd E -> y <> p /\ y <> nx) -> node ∈ map snd E -> sib ∈ map snd E ->
  length E = S alt_buf_fanout -> ordered (nodes s) E -> Forall (filled (nodes s)) E ->
  (forall s', shows s' b D (adopted P1 nx (drop q E)) (upd (upd L node 0) sib 0) -> Q (nx, key) s') ->
  wp (s ← load nx; _ ← adopt (key_n s + 1) nx; _ ← done_with node; _ ← done_with sib; _ ← unlock node; _ ← unlock sib; _ ← assert_halves p nx; mret (nx, key)) Q s.
Proof.
  intros Hs Hps Hp Hnx HLp HLn HLE Hne Hnode Hsib HlE Ho Hf HQ.
  apply wp_bind, (wp_load _ _ _ _ _ Hs); [eauto|]. intros m Hm _ _. rewrite Hnx in Hm. apply (inj Some) in Hm as ->.
  pose proof (ps_sib _ _ _ _ _ _ _ _ _ Hps) as HEs. pose proof (in_E _ _ HEs) as HlD. cbn in HlD.
  apply wp_bind, (wp_adopt _ _ _ L nx _ _ Hnx HEs) with (s := s) (3 := Hs); [|lia|].
  { intros e He. apply HLE, (list_elem_of_fmap_2 snd). rewrite <- (take_drop q E). apply elem_of_app. now right. }
  intros s5 Hs5. rewrite (take_ge (drop q E)) in Hs5 by lia.
  apply wp_bind, (wp_done_with _ _ _ _ _ Hs5); [now apply HLE|]. intros s6 Hs6. apply wp_bind, (wp_done_with _ _ _ _ _ Hs6); [now apply HLE|]. intros s7 Hs7.
  apply wp_bind, (wp_unlock _ _ _ _ _ Hs7); [now apply HLE|]. intros s8 Hs8. apply wp_bind, (wp_unlock _ _ _ _ _ Hs8); [apply upd_Some; now apply HLE|]. intros s9 Hs9.
  assert (HdE : forall e, e ∈ E -> data (nodes s9) e.2 = data (nodes s) e.2) by (intros e _; now rewrite (sh_data _ _ _ _ _ Hs9), (sh_data _ _ _ _ _ Hs)).
  destruct (Hne node Hnode), (Hne sib Hsib).
  apply wp_bind, (wp_assert_halves _ _ _ _ _ p nx E _ q key dn (data_of m) _ Hs9 Hps Hp Hnx).
  { rewrite !upd_ne by congruence. exact HLp. } { rewrite !upd_ne by congruence. exact HLn. } { exact HlE. }
  { exact (ordered_data _ _ _ HdE Ho). } { exact (filled_data _ _ _ HdE Hf). }
  apply wp_ret. now apply HQ.
Qed.

Lemma wp_split_parent (s : @CMap V) b D P L p node sib sk el er n0 (Q : ptr * Z -> CMap -> Prop) :
  shows s b D P L -> blocks_ok b -> D p = Some (data_of n0) -> inode (data_of n0) (el ++ er) -> key_n n0 = node_capacity -> el <> [] ->
  ordered (nodes s) (el ++ (Some sk, sib) :: er) -> Forall (filled (nodes s)) (el ++ (Some sk, sib) :: er) ->
  NoDup (map snd (el ++ (Some sk, sib) :: er)) -> p ∉ map snd (el ++ (Some sk, sib) :: er) -> b_next b ∉ map snd (el ++ (Some sk, sib) :: er) ->
  p <> b_next b -> node ∈ map snd (el ++ (Some sk, sib) :: er) -> (forall e, e ∈ el ++ er -> P e.2 = Some (Some p)) -> L p = Some 1 ->
  (forall s' P' q key dn ds, parent_split p (b_next b) (el ++ (Some sk, sib) :: er) P P' q key dn ds ->
     shows s' (allocated b) (upd (upd D (b_next b) ds) p dn) P' (upd (upd (upd L (b_next b) 1) node 0) sib 0) -> Q (b_next b, key) s') ->
  wp (split_parent p node sib sk) Q s.
Proof.
  intros Hs Hb Hp HE Hfull Hel Ho Hf Hnd HpE HxE Hpx Hnode Hpar HLp HQ.
  set (E := el ++ (Some sk, sib) :: er) in *. set (nx := b_next b) in *.
  assert (HinE : forall e, e ∈ E -> e.2 ∈ map snd E) by (intros e He; now apply (list_elem_of_fmap_2 snd)).
  assert (HLE : forall y, y ∈ map snd E -> is_Some (L y)).
  { intros y (e & -> & He)%list_elem_of_fmap. rewrite Forall_forall in Hf. exact (filled_lock _ _ _ _ _ _ Hs (Hf e He)). }
  assert (Hsib : sib ∈ map snd E) by (unfold E; rewrite map_app; apply elem_of_app; right; apply list_elem_of_here).
  assert (Hne : forall y, y ∈ map snd E -> y <> p /\ y <> nx) by (intros y Hy; split; intros ->; [now apply HpE|now apply HxE]).
  destruct (Hne sib Hsib) as [Hs1p Hs1x], (Hne node Hnode) as [Hnp Hnx].
  destruct (slot_ok n0 el er sk sib HE (ordered_lows _ _ Ho) Hel) as [Hslot Hsame].
  unfold split_parent. apply wp_bind, (wp_allocate_internal _ _ _ _ _ _ Hs Hb). intros s1 Hs1. fold nx in Hs1 |- *.
  apply wp_bind, (wp_lock _ _ _ _ _ Hs1); [apply upd_eq|]. intros s2 Hs2.
  apply wp_bind, (wp_modify _ _ _ _ _ Hs2); [rewrite upd_eq; eauto|now intros|]. intros m Hm s3 Hs3. rewrite upd_eq in Hm. apply (inj Some) in Hm.
  assert (Hp3 : upd (upd D nx (data_of new_internal)) nx (data_of (set_is_leaf false m)) p = Some (data_of n0)) by now rewrite !upd_ne.
  apply wp_bind, (wp_load _ _ _ _ _ Hs3); [exact (shows_data _ _ _ _ _ _ _ Hs3 Hp3)|]. intros n Hn _ _. rewrite Hp3 in Hn. injection Hn as E1 E2 E3 E4.
  assert (Hfind : find_first_larger_than sk n = Ok (length el - 1)%nat) by (rewrite <- Hslot; unfold find_first_larger_than; now rewrite E2, E3).
  assert (Hss : same_slot sk n = Ok true) by (rewrite <- Hsame; unfold same_slot, find_first_larger_than, find_first_larger_than_or_equal_to; now rewrite E2, E3).
  apply wp_bind, (wp_lift _ _ _ _ Hfind). apply wp_bind, (wp_lift _ _ _ _ Hss). apply wp_bind, wp_assert; [reflexivity|].
  rewrite <- E2, Hfull. change node_capacity with 15%nat.
  pose proof (in_E _ _ HE) as HlE. cbn in HlE. rewrite Hfull, length_app in HlE. assert (length el <> O) by (now destruct el).
  pose proof (mid_cases (length el - 1)) as Hmid. cbn zeta in Hmid. set (mid := (if length el - 1 =? 15 then _ else _)%nat) in *.
  specialize (Hmid ltac:(unfold node_capacity, alt_buf_fanout in HlE; cbn in HlE; lia)).
  assert (HLx : is_Some (upd (upd L nx 0) nx 1 sib)) by (do 2 apply upd_Some; now apply HLE).
  apply wp_bind, (wp_split_internal s3 _ _ _ _ p nx sib sk el er n0 (data_of (set_is_leaf false m)) mid _ Hs3 Hp3 HE Hfull); try assumption.
  { apply upd_eq. } { apply blank_new. now symmetry. } { lia. }
  intros s4 P4 q key dn ds Hres Hs4.
  assert (Hpar4 : forall e, e ∈ el ++ er -> upd P nx None e.2 = Some (Some p)).
  { intros e He. rewrite upd_ne; [now apply Hpar|]. intros Heq. apply HxE. rewrite <- Heq. apply HinE. unfold E.
    apply elem_of_app in He as [He|He]; apply elem_of_app; [now left|right; now apply list_elem_of_further]. }
  pose proof (split_adopted _ _ _ _ nx _ _ _ _ _ _ Hres Hnd Hpar4) as Hps. fold E in Hps.
  assert (HEl : length E = S alt_buf_fanout) by (unfold E; rewrite length_app; cbn; unfold node_capacity, alt_buf_fanout in *; cbn in HlE; lia).
  assert (HdE : forall e, e ∈ E -> data (nodes s4) e.2 = data (nodes s) e.2).
  { intros e He. rewrite (sh_data _ _ _ _ _ Hs4), (sh_data _ _ _ _ _ Hs). destruct (Hne e.2 (HinE e He)). now rewrite !upd_ne. }
  apply (wp_split_finish _ _ _ _ p nx node sib E _ P4 q key dn ds _ Hs4 Hps); try assumption.
  { apply upd_eq. } { rewrite upd_ne by congruence. apply upd_eq. } { rewrite !upd_ne by congruence. exact HLp. } { apply upd_eq. }
  { intros y Hy. do 2 apply upd_Some. now apply HLE. } { exact (ordered_data _ _ _ HdE Ho). } { exact (filled_data _ _ _ HdE Hf). }
  intros s9 Hs9. refine (HQ s9 (adopted P4 nx (drop q E)) q key dn ds _ _).
  - destruct Hps as [A1 A2 A3 A4 A5 A6]. constructor; try assumption. intros y Hy Hyn. rewrite (A6 y Hy Hyn). now apply upd_ne.
  - apply (shows_ext _ _ _ _ _ _ _ _ Hs9); [|reflexivity|]; intros y; unfold upd; repeat case_decide; congruence.
Qed.

(** ** The other two ends of the loop *)

(** The last statements: new versions, then the locks are released. *)
Lemma wp_release (s : @CMap V) b D P L p node sib (Q : unit -> CMap -> Prop) : shows s b D P L -> is_Some (L p) -> is_Some (L node) -> is_Some (L sib) ->
  (forall s', shows s' b D P (upd (upd (upd L p 0) node 0) sib 0) -> Q tt s') ->
  wp (_ ← done_with p; _ ← done_with node; _ ← done_with sib; _ ← unlock p; _ ← unlock node; unlock sib) Q s.
Proof.
  intros Hs H1 H2 H3 HQ. apply wp_bind, (wp_done_with _ _ _ _ _ Hs); [exact H1|]. intros s1 Hs1.
  apply wp_bind, (wp_done_with _ _ _ _ _ Hs1); [exact H2|]. intros s2 Hs2. apply wp_bind, (wp_done_with _ _ _ _ _ Hs2); [exact H3|]. intros s3 Hs3.
  apply wp_bind, (wp_unlock _ _ _ _ _ Hs3); [exact H1|]. intros s4 Hs4. apply wp_bind, (wp_unlock _ _ _ _ _ Hs4); [now apply upd_Some|]. intros s5 Hs5.
  apply (wp_unlock _ _ _ _ _ Hs5); [now do 2 apply upd_Some|exact HQ].
Qed.

Definition with_root (p : ptr) (b : Base) : Base := mkBase p (b_begin b) (b_size b) (b_blocks b) (b_next b).

(** The contents of a new root. *)
Lemma new_root_spec (n : @Node V) lo node sib sk : data_of n = data_of (set_is_leaf false new_internal) ->
  exists n', (ks ← aset (keys n) 0 sk; ch ← children n; ch ← aset ch 0 (Some node); ch ← aset ch 1 (Some sib);
              set_children ch (set_key_n 1 (set_keys ks n))) = Ok n' /\ same_frame n n' /\ inode (data_of n') [(lo, node); (Some sk, sib)].
Proof.
  intros [= E1 E2 E3 E4]. rewrite E3. unfold children, set_children, children. rewrite E4. cbn. rewrite E4. cbn. eexists; split; [reflexivity|]. split; [split; reflexivity|].
  constructor; cbn; [exact E1|reflexivity| |reflexivity|unfold node_capacity, alt_buf_fanout; lia|].
  - eexists; split; [reflexivity|]. split; [reflexivity|]. intros [|[|i]] e; cbn; intros [= <-]; reflexivity.
  - intros [|i] e; cbn; intros [= <-]; reflexivity.
Qed.

Lemma wp_grow_root (s : @CMap V) b D P L node sib sk lo (Q : unit -> CMap -> Prop) : shows s b D P L -> blocks_ok b ->
  is_Some (L node) -> is_Some (L sib) ->
  (forall s' dr, inode dr [(lo, node); (Some sk, sib)] ->
     shows s' (with_root (b_next b) (allocated b)) (upd D (b_next b) dr) (upd (upd (upd P (b_next b) None) node (Some (b_next b))) sib (Some (b_next b)))
       (upd (upd (upd L (b_next b) 0) node 0) sib 0) -> Q tt s') ->
  wp (grow_root node sib sk) Q s.
Proof.
  intros Hs Hb Hn Hsb HQ. set (nx := b_next b) in *. unfold grow_root. apply wp_bind, (wp_allocate_internal _ _ _ _ _ _ Hs Hb). intros s1 Hs1. fold nx in Hs1 |- *.
  apply wp_bind, (wp_lock _ _ _ _ _ Hs1); [apply upd_eq|]. intros s2 Hs2.
  apply wp_bind, (wp_modify _ _ _ _ _ Hs2); [rewrite upd_eq; eauto|now intros|]. intros m Hm s3 Hs3. rewrite upd_eq in Hm. apply (inj Some) in Hm.
  apply wp_bind, (wp_contents _ _ _ _ _ Hs3); [rewrite upd_eq; eauto|]. intros m3 Hm3. rewrite upd_eq in Hm3. apply (inj Some) in Hm3.
  destruct (new_root_spec m3 lo node sib sk) as (n4 & E4 & Hfr & Hin); [rewrite <- Hm3; injection Hm as E1 E2 E3 E4; unfold data_of; cbn; congruence|].
  exists n4. split; [exact E4|]. split; [exact Hfr|]. intros s4 Hs4.
  apply wp_bind, (wp_load _ _ _ _ _ Hs4); [rewrite upd_eq; eauto|]. intros n5 Hn5 _ _. rewrite upd_eq in Hn5. injection Hn5 as F1 F2 F3 F4.
  pose proof (in_E _ _ Hin) as HlE. cbn in HlE. rewrite <- F2. injection HlE as <-. apply wp_bind, (wp_run _ tt); [reflexivity|].
  assert (HL : forall y, is_Some (L y) -> is_Some (upd (upd L nx 0) nx 1 y)) by (intros y Hy; now do 2 apply upd_Some).
  apply wp_bind, (wp_set_parent _ _ _ _ _ Hs4); [now apply HL|]. intros s6 Hs6. apply wp_bind, (wp_set_parent _ _ _ _ _ Hs6); [now apply HL|]. intros s7 Hs7.
  apply wp_bind. eexists tt, _. split; [reflexivity|].
  assert (Hs8 : shows (mkCMap nx (begin s7) (size_est s7) (allocated_blocks s7) (next_node_i s7) (nodes s7)) (with_root nx (allocated b)) (upd D nx (data_of n4))
    (upd (upd (upd P nx None) node (Some nx)) sib (Some nx)) (upd (upd L nx 0) nx 1)).
  { destruct Hs7 as [B1 B2 B3 B4]. constructor; [unfold base, with_root; rewrite <- B1; reflexivity| |exact B3|exact B4].
    intros y. cbn. rewrite B2. unfold upd. repeat case_decide; reflexivity. }
  apply (wp_release _ _ _ _ _ _ _ _ _ Hs8); [rewrite upd_eq; eauto|now apply HL|now apply HL|]. intros s9 Hs9. refine (HQ s9 _ Hin _).
  apply (shows_ext _ _ _ _ _ _ _ _ Hs9); [reflexivity|reflexivity|]. intros y. unfold upd. repeat case_decide; reflexivity.
Qed.

Lemma wp_put_in_parent (s : @CMap V) b D P L p node sib sk el er n0 (Q : unit -> CMap -> Prop) :
  shows s b D P L -> D p = Some (data_of n0) -> inode (data_of n0) (el ++ er) -> (key_n n0 < node_capacity)%nat -> el <> [] ->
  ordered (nodes s) (el ++ (Some sk, sib) :: er) -> Forall (filled (nodes s)) (el ++ (Some sk, sib) :: er) ->
  p ∉ map snd (el ++ (Some sk, sib) :: er) -> node ∈ map snd (el ++ (Some sk, sib) :: er) ->
  (forall e, e ∈ el ++ er -> P e.2 = Some (Some p)) -> L p = Some 1 ->
  (forall s' dn, inode dn (el ++ (Some sk, sib) :: er) -> shows s' b (upd D p dn) (upd P sib (Some p)) (upd (upd (upd L p 0) node 0) sib 0) -> Q tt s') ->
  wp (put_in_parent p node sib sk) Q s.
Proof.
  intros Hs Hp HE Hroom Hel Ho Hf HpE Hnode Hpar HLp HQ. set (E := el ++ (Some sk, sib) :: er) in *.
  assert (HLE : forall y, y ∈ map snd E -> is_Some (L y)).
  { intros y (e & -> & He)%list_elem_of_fmap. rewrite Forall_forall in Hf. exact (filled_lock _ _ _ _ _ _ Hs (Hf e He)). }
  assert (Hsib : sib ∈ map snd E) by (unfold E; rewrite map_app; apply elem_of_app; right; apply list_elem_of_here).
  destruct (slot_ok n0 el er sk sib HE (ordered_lows _ _ Ho) Hel) as [Hslot Hsame].
  unfold put_in_parent. apply wp_bind, (wp_load _ _ _ _ _ Hs); [eauto|]. intros n Hn _ _. rewrite Hp in Hn. pose proof (inj Some _ _ Hn) as Hn'. injection Hn as E1 E2 E3 E4.
  assert (Hfind : find_first_larger_than sk n = Ok (length el - 1)%nat) by (rewrite <- Hslot; unfold find_first_larger_than; now rewrite E2, E3).
  assert (Hss : same_slot sk n = Ok true) by (rewrite <- Hsame; unfold same_slot, find_first_larger_than, find_first_larger_than_or_equal_to; now rewrite E2, E3).
  apply wp_bind, (wp_lift _ _ _ _ Hfind). apply wp_bind, (wp_lift _ _ _ _ Hss). apply wp_bind, wp_assert; [reflexivity|].
  pose proof (in_E _ _ HE) as HlE. cbn in HlE. rewrite length_app in HlE. assert (Hel0 : length el <> O) by (now destruct el).
  apply wp_bind, (wp_contents _ _ _ _ _ Hs); [eauto|]. intros n1 Hn1. rewrite Hp in Hn1. apply (inj Some) in Hn1. rewrite Hn1 in HE.
  assert (Hk1 : key_n n1 = key_n n0) by (injection Hn1; congruence).
  destruct (internal_put_spec n1 el er sk sib (key_n n0) HE Hel) as (n2 & Hput & Hfr & Hk2 & Hin); [lia|exact Hroom|].
  rewrite <- E2. exists n2. split; [exact Hput|]. split; [exact Hfr|]. intros s2 Hs2.
  replace (take (key_n n0 + 2) (el ++ (Some sk, sib) :: er)) with E in Hin by (unfold E; rewrite take_ge; [reflexivity|rewrite length_app; cbn; lia]).
  apply wp_bind, (wp_modify _ _ _ _ _ Hs2); [eauto|now intros|]. intros n3 Hn3 s3 Hs3. rewrite upd_eq in Hn3. apply (inj Some) in Hn3.
  replace (data_of (set_key_n (key_n n0 + 1) n2)) with (data_of (set_key_n (key_n n0 + 1) n3)) in Hin by (injection Hn3 as F1 F2 F3 F4; unfold data_of; cbn; congruence).
  apply wp_bind, (wp_set_parent _ _ _ _ _ Hs3); [now apply HLE|]. intros s4 Hs4.
  assert (Hp4 : data (nodes s4) p = Some (data_of (set_key_n (key_n n0 + 1) n3))) by (rewrite (sh_data _ _ _ _ _ Hs4); apply upd_eq).
  apply data_Some in Hp4 as (n5 & Hn5 & Hd5). rewrite <- Hd5 in Hin.
  apply wp_bind, (wp_run _ n5); [unfold load; now rewrite Hn5|].
  assert (HL5 : locked n5 = 1). { pose proof (sh_lock _ _ _ _ _ Hs4 p) as Hl. unfold lockv in Hl. rewrite Hn5, HLp in Hl. cbn in Hl. congruence. }
  pose proof (in_leaf _ _ Hin) as Hl5. pose proof (in_n _ _ Hin) as Hc5. cbn in Hl5, Hc5. rewrite Hl5, HL5.
  do 2 (apply wp_bind, wp_assert; [reflexivity|]). apply wp_bind, wp_assert; [apply Nat.leb_le; exact (proj2 Hc5)|].
  assert (HdE : forall e, e ∈ E -> data (nodes s4) e.2 = data (nodes s) e.2).
  { intros e He. rewrite (sh_data _ _ _ _ _ Hs4), (sh_data _ _ _ _ _ Hs).
    rewrite !upd_ne by (intros Heq; apply HpE; rewrite <- Heq; now apply (list_elem_of_fmap_2 snd)). reflexivity. }
  apply wp_bind, (wp_run _ tt).
  { apply (assert_internal_ok s4 p n5 Hn5 _ Hin); [|exact (ordered_data _ _ _ HdE Ho)|exact (filled_data _ _ _ HdE Hf)].
    intros e He. rewrite (sh_par _ _ _ _ _ Hs4). unfold upd. case_decide as Hd; [reflexivity|]. apply Hpar.
    apply elem_of_app in He as [He|[->|He]%elem_of_cons]; [apply elem_of_app; now left|now contradict Hd|apply elem_of_app; now right]. }
  apply (wp_release _ _ _ _ _ _ _ _ _ Hs4); [eauto|now apply HLE|now apply HLE|]. intros s6 Hs6. refine (HQ s6 _ Hin _). rewrite Hd5.
  apply (shows_ext _ _ _ _ _ _ _ _ Hs6); [|reflexivity|reflexivity]. intros y. unfold upd. repeat case_decide; reflexivity.
Qed.

(** ** From level to level *)

Lemma tower_frame (h h' : gmap ptr (@Node V)) rt ls : forall idx,
  (forall q, q ∈ tower_ptrs ls -> data h' q = data h q) -> (forall q, q ∈ map snd idx ++ tower_ptrs ls -> parv h' q = parv h q) ->
  tower h rt idx ls -> tower h' rt idx ls.
Proof.
  induction ls as [|lv ls IH]; intros idx Hd Hp.
  - intros [-> H]. split; [reflexivity|]. rewrite Hp; [exact H|]. apply elem_of_app. left. apply list_elem_of_here.
  - intros (<- & Hlv & Ht). unfold tower_ptrs in *. cbn in Hd, Hp. split; [reflexivity|]. split.
    + rewrite Forall_forall in Hlv |- *. intros x Hx. destruct (Hlv x Hx) as [(d & Hxd & HE) Hpar]. split.
      * exists d. split; [|exact HE]. rewrite Hd; [exact Hxd|]. apply elem_of_app. left. now apply (list_elem_of_fmap_2 fst).
      * intros e He. rewrite Hp; [now apply Hpar|]. apply elem_of_app. left. apply (list_elem_of_fmap_2 snd). apply elem_of_chunk. eauto.
    + apply IH; [intros q Hq; apply Hd; apply elem_of_app; now right| |exact Ht]. intros q Hq. apply Hp. apply elem_of_app. right.
      rewrite map_map in Hq. exact Hq.
Qed.

Lemma chunk_split (lv : list (ptr * list entry)) : forall l e r, concat (map snd lv) = l ++ e :: r ->
  exists nl x nr el er, lv = nl ++ x :: nr /\ x.2 = el ++ e :: er /\ l = concat (map snd nl) ++ el /\ r = er ++ concat (map snd nr).
Proof.
  induction lv as [|x lv IH]; intros l e r H; [destruct l; discriminate|]. cbn in H. symmetry in H. apply app_eq_app in H as (k & [[-> Hr]|[Hl Hr]]).
  - destruct (IH k e r Hr) as (nl & y & nr & el & er & -> & Hy & -> & ->). exists (x :: nl), y, nr, el, er.
    split; [reflexivity|]. split; [exact Hy|]. cbn. now rewrite app_assoc.
  - destruct k as [|e' k].
    + cbn in Hr. symmetry in Hr. rewrite app_nil_r in Hl. destruct (IH [] e r Hr) as (nl & y & nr & el & er & -> & Hy & E & ->). exists (x :: nl), y, nr, el, er.
      split; [reflexivity|]. split; [exact Hy|]. cbn. rewrite <- app_assoc, <- E, app_nil_r. split; [now symmetry|reflexivity].
    + cbn in Hr. injection Hr as <- ->. exists [], x, lv, l, k. repeat split; exact Hl.
Qed.

Lemma inode_filled (h : gmap ptr (@Node V)) x d : data h x.1 = Some d -> inode d x.2 -> filled h (item x).
Proof. intros Hd HE. exists d. split; [exact Hd|]. pose proof (in_n _ _ HE). rewrite (in_len _ _ HE). lia. Qed.

(** Nodes over a sorted level form an ordered level. *)
Lemma ordered_level (h : gmap ptr (@Node V)) lv : Forall (fun x => exists d, data h x.1 = Some d /\ inode d x.2) lv ->
  sorted_lows (concat (map snd lv)) -> ordered h (map item lv) /\ Forall (filled h) (map item lv).
Proof.
  intros Hlv Hs. split.
  2: { apply Forall_fmap. apply (Forall_impl _ _ _ Hlv). intros x (d & Hd & HE). exact (inode_filled _ _ _ Hd HE). }
  assert (Hk : forall x, x ∈ lv -> forall k, k ∈ ks_at h x.1 -> exists e, e ∈ x.2 /\ e.1 = Some k).
  { intros x Hx k Hin. rewrite Forall_forall in Hlv. destruct (Hlv x Hx) as (d & Hd & HE). rewrite (ks_at_data _ _ _ Hd) in Hin.
    apply list_elem_of_lookup in Hin as (i & Hi). apply (ks_inode _ _ HE) in Hi as (e & He & Hk). exists e. split; [exact (list_elem_of_lookup_2 _ _ _ He)|exact Hk]. }
  assert (Hsx : forall x, x ∈ lv -> sorted_lows x.2).
  { intros x (a & c & ->)%list_elem_of_split. rewrite map_app, concat_app in Hs. cbn in Hs. apply sorted_app in Hs as (_ & Hs & _). now apply sorted_app in Hs as (Hs & _ & _). }
  constructor.
  - apply Forall_fmap, Forall_forall. intros x Hx. cbn. rewrite Forall_forall in Hlv. destruct (Hlv x Hx) as (d & Hd & HE). split.
    + rewrite (ks_at_data _ _ _ Hd). exact (sorted_seps _ _ HE (Hsx x Hx)).
    + apply Forall_forall. intros k Hin. destruct (Hk x Hx k Hin) as (e & He & Hek).
      destruct (low_least _ _ (Hsx x Hx) He) as [E|E]; rewrite Hek in E; [rewrite <- E; cbn; lia|]. destruct (low x.2); cbn in *; [lia|exact I].
  - assert (Hne : Forall (fun x => x.2 <> []) lv) by (apply (Forall_impl _ _ _ Hlv); intros x (d & _ & HE) Hx; pose proof (in_E _ _ HE) as HlE; rewrite Hx in HlE; discriminate).
    clear Hlv Hsx. induction lv as [|x lv IH]; [constructor|]. cbn in Hs |- *. apply sorted_app in Hs as (_ & H2 & H3). apply Forall_cons in Hne as [Hx Hne].
    constructor; [apply IH; [exact H2| |exact Hne]; intros y Hy; apply Hk; now apply list_elem_of_further|].
    apply Forall_fmap, Forall_forall. intros y Hy. cbn. rewrite Forall_forall in Hne. destruct (low_elem _ (Hne y Hy)) as (e2 & He2 & <-).
    assert (Hin2 : e2 ∈ concat (map snd lv)) by (apply elem_of_chunk; eauto). split.
    + destruct (low_elem _ Hx) as (e1 & He1 & <-). now apply H3.
    + apply Forall_forall. intros k Hin. destruct (Hk x (list_elem_of_here _ _) k Hin) as (e & He & Hek). specialize (H3 e e2 He Hin2).
      rewrite Hek in H3. destruct e2.1; cbn in *; lia.
Qed.

(** Node [e.2] of a level was split, and [x] is the entry of its new sibling that
    the levels above do not have yet.  Both nodes are locked. *)
Record split_ready (s : @CMap V) (l : list entry) (e x : entry) (r : list entry) (ls : levels) : Prop := {
  rd_tower : tower (nodes s) (root s) (l ++ e :: r) ls;
  rd_ordered : ordered (nodes s) (l ++ e :: x :: r);
  rd_filled : Forall (filled (nodes s)) (l ++ e :: x :: r);
  rd_distinct : NoDup (map snd (l ++ e :: x :: r) ++ tower_ptrs ls);
  rd_dom : forall p, is_Some (nodes s !! p) <-> (p < next_node_i s)%nat;
  rd_locks : forall p n, nodes s !! p = Some n -> locked n = if decide (p = e.2 \/ p = x.2) then 1 else 0;
  rd_blocks : blocks_ok (base s)
}.

(** The levels above have it, and nothing else has changed. *)
Record split_done (s : @CMap V) (idx : list entry) (ls : levels) (s' : CMap) (ls' : levels) : Prop := {
  sd_tower : tower (nodes s') (root s') idx ls';
  sd_distinct : NoDup (map snd idx ++ tower_ptrs ls');
  sd_dom : forall p, is_Some (nodes s' !! p) <-> (p < next_node_i s')%nat;
  sd_unlocked : forall p n, nodes s' !! p = Some n -> locked n = 0;
  sd_blocks : blocks_ok (base s');
  sd_base : begin s' = begin s /\ size_est s' = size_est s /\ (next_node_i s <= next_node_i s')%nat;
  sd_ls : ls' <> [];
  sd_data : forall q, (q < next_node_i s)%nat -> q ∉ tower_ptrs ls -> data (nodes s') q = data (nodes s) q;
  sd_par : forall q, (q < next_node_i s)%nat -> q ∉ map snd idx -> q ∉ tower_ptrs ls -> parv (nodes s') q = parv (nodes s) q;
  sd_fresh : forall q, q ∈ tower_ptrs ls' -> q ∈ tower_ptrs ls \/ (next_node_i s <= q)%nat
}.

Lemma lockv_Some (h : gmap ptr (@Node V)) p : is_Some (lockv h p) <-> is_Some (h !! p).
Proof. unfold lockv. apply fmap_is_Some. Qed.

Section Step.
Context (s : @CMap V) (l : list entry) (e : entry) (sk : Z) (sib : ptr) (r : list entry).
Abbreviation idx := (l ++ e :: (Some sk, sib) :: r).

Lemma ready_nodes ls (H : split_ready s l e (Some sk, sib) r ls) q : q ∈ map snd idx ++ tower_ptrs ls -> (q < next_node_i s)%nat.
Proof.
  intros [Hq|Hq]%elem_of_app; apply (rd_dom _ _ _ _ _ _ H).
  - apply list_elem_of_fmap in Hq as (x & -> & Hx). destruct (proj1 (Forall_forall _ _) (rd_filled _ _ _ _ _ _ H) x Hx) as (d & Hd & _).
    apply data_Some in Hd as (n & Hn & _). eauto.
  - exact (tower_nodes _ _ _ _ _ (rd_tower _ _ _ _ _ _ H) Hq).
Qed.

Lemma in_idx : e.2 ∈ map snd idx /\ sib ∈ map snd idx.
Proof. rewrite map_app. cbn. split; apply elem_of_app; right; [apply list_elem_of_here|apply list_elem_of_further, list_elem_of_here]. Qed.

(** What the locks are when all but the two nodes are free. *)
Lemma ready_lock ls (H : split_ready s l e (Some sk, sib) r ls) q : q <> e.2 -> q <> sib -> (q < next_node_i s)%nat -> lockv (nodes s) q = Some 0.
Proof.
  intros H1 H2 Hq. apply (rd_dom _ _ _ _ _ _ H) in Hq as [n Hn]. unfold lockv. rewrite Hn. cbn. f_equal.
  rewrite (rd_locks _ _ _ _ _ _ H _ _ Hn), decide_False; [reflexivity|]. cbn. tauto.
Qed.

Lemma shows_dom (s' : @CMap V) b D P L nx : shows s' b D P L -> b_next b = nx -> (forall q, is_Some (L q) <-> (q < nx)%nat) ->
  forall q, is_Some (nodes s' !! q) <-> (q < next_node_i s')%nat.
Proof.
  intros Hs Hb HL q. rewrite <- lockv_Some, (sh_lock _ _ _ _ _ Hs), HL. pose proof (sh_base _ _ _ _ _ Hs) as E. subst b. cbn in Hb. now rewrite Hb.
Qed.

Lemma shows_free (s' : @CMap V) b D P L : shows s' b D P L -> (forall q x, L q = Some x -> x = 0) -> forall q n, nodes s' !! q = Some n -> locked n = 0.
Proof. intros Hs HL q n Hn. apply (HL q). rewrite <- (sh_lock _ _ _ _ _ Hs). unfold lockv. now rewrite Hn. Qed.

(** *** A new root *)
Lemma grow_root_done fuel (H : split_ready s l e (Some sk, sib) r []) :
  wp (split_loop (S (S fuel)) e.2 sib sk) (fun _ s' => exists ls', split_done s idx [] s' ls') s.
Proof.
  pose proof (ready_nodes _ H) as Hlt.
  destruct (rd_tower _ _ _ _ _ _ H) as [Hi Hp]. destruct l as [|? [|]]; [|discriminate..]. injection Hi as -> ->. cbn [fst snd app] in *.
  pose proof (rd_distinct _ _ _ _ _ _ H) as Hnd. cbn in Hlt, Hnd. apply NoDup_cons in Hnd as [Hne _].
  assert (Hn : (root s < next_node_i s)%nat) by (apply Hlt; elem). assert (Hsb : (sib < next_node_i s)%nat) by (apply Hlt; elem).
  assert (HL : forall q, (q < next_node_i s)%nat -> is_Some (lockv (nodes s) q)) by (intros q Hq; apply lockv_Some; now apply (rd_dom _ _ _ _ _ _ H)).
  cbn [split_loop]. apply wp_bind, (wp_lock_no_parent _ _ _ _ _ _ _ _ (shows_self s) Hp).
  apply (wp_grow_root _ _ _ _ _ _ _ _ None _ (shows_self s) (rd_blocks _ _ _ _ _ _ H)); [now apply HL|now apply HL|].
  intros s' dr HE Hs'. cbn [base b_next] in Hs'. set (nx := next_node_i s) in *. set (rt := root s) in *.
  assert (Hns : rt <> sib) by (intros Heq; apply Hne; rewrite Heq; elem). assert (Hx1 : nx <> rt) by lia. assert (Hx2 : nx <> sib) by lia.
  exists [[(nx, [(None, rt); (Some sk, sib)])]]. pose proof (sh_base _ _ _ _ _ Hs') as Hb. unfold with_root, allocated in Hb. cbn in Hb. injection Hb as B1 B2 B3 B4 B5. constructor.
  - split; [reflexivity|]. split.
    + apply Forall_singleton. split; [exists dr; split; [rewrite (sh_data _ _ _ _ _ Hs'); apply upd_eq|exact HE]|]. intros e' [->|[->|He']%elem_of_cons]%elem_of_cons.
      * rewrite (sh_par _ _ _ _ _ Hs'), upd_ne by exact Hns. apply upd_eq.
      * rewrite (sh_par _ _ _ _ _ Hs'). apply upd_eq.
      * now apply not_elem_of_nil in He'.
    + split; [now rewrite B1|]. rewrite B1, (sh_par _ _ _ _ _ Hs'), !upd_ne by congruence. apply upd_eq.
  - cbn. apply NoDup_cons. split; [|apply NoDup_cons; split; [|apply NoDup_singleton]].
    + intros [Hc|Hc%list_elem_of_singleton]%elem_of_cons; congruence.
    + intros Hc%list_elem_of_singleton. congruence.
  - apply (shows_dom _ _ _ _ _ (S nx) Hs'); [reflexivity|]. intros q. unfold upd. repeat case_decide; subst; [split; [lia|eauto]..|].
    rewrite lockv_Some, (rd_dom _ _ _ _ _ _ H). fold nx. lia.
  - apply (shows_free _ _ _ _ _ Hs'). intros q x. unfold upd. repeat case_decide; try congruence. unfold lockv. intros (n & Hq & ->)%fmap_Some.
    rewrite (rd_locks _ _ _ _ _ _ H _ _ Hq). cbn. now rewrite decide_False by (fold rt; tauto).
  - unfold blocks_ok. rewrite (sh_base _ _ _ _ _ Hs'). reflexivity.
  - repeat split; [exact B2|exact B3|lia].
  - discriminate.
  - intros q Hq _. rewrite (sh_data _ _ _ _ _ Hs'). apply upd_ne. fold nx in Hq. lia.
  - intros q Hq Hi _. rewrite (sh_par _ _ _ _ _ Hs'), !upd_ne; [reflexivity|fold nx in Hq; lia|intros ->; apply Hi; cbn; elem..].
  - intros q. cbn. intros [->|Hq]%elem_of_cons; [right; fold nx; lia|now apply not_elem_of_nil in Hq].
Qed.

(** *** The level above *)

Section Level.
Context (ls : levels) (nl nr : list (ptr * list entry)) (y : ptr * list entry) (el er : list entry).
Context (H : split_ready s l e (Some sk, sib) r ((nl ++ y :: nr) :: ls)).
Context (Hy : y.2 = el ++ e :: er) (Hl : l = concat (map snd nl) ++ el) (Hr : r = er ++ concat (map snd nr)).

(** The entries of the parent with the new one. *)
Abbreviation E := ((el ++ [e]) ++ (Some sk, sib) :: er).

Lemma idx_E : idx = concat (map snd nl) ++ E ++ concat (map snd nr).
Proof. rewrite Hl, Hr, <- !app_assoc. reflexivity. Qed.

Lemma E_idx e' : e' ∈ E -> e' ∈ idx.
Proof. intros He. rewrite idx_E. apply elem_of_app. right. apply elem_of_app. now left. Qed.

Lemma level_distinct : NoDup (map snd (concat (map snd nl)) ++ map snd E ++ map snd (concat (map snd nr)) ++ map fst nl ++ y.1 :: map fst nr ++ tower_ptrs ls).
Proof.
  pose proof (rd_distinct _ _ _ _ _ _ H) as Hnd. rewrite idx_E in Hnd. unfold tower_ptrs in *. cbn in Hnd.
  rewrite !map_app in Hnd. cbn in Hnd. rewrite <- !app_assoc in Hnd. rewrite map_app. cbn. rewrite map_app, <- !app_assoc. exact Hnd.
Qed.

Lemma parent_node : exists n, nodes s !! y.1 = Some n /\ inode (data_of n) ((el ++ [e]) ++ er) /\ forall e', e' ∈ (el ++ [e]) ++ er -> parv (nodes s) e'.2 = Some (Some y.1).
Proof.
  destruct (rd_tower _ _ _ _ _ _ H) as (_ & Hlv & _). apply Forall_app in Hlv as [_ Hlv]. apply Forall_cons in Hlv as [[(d & Hd & HE) Hp] _].
  apply data_Some in Hd as (n & Hn & <-). exists n. replace ((el ++ [e]) ++ er) with y.2 by (rewrite <- app_assoc; exact Hy). auto.
Qed.

Lemma E_parts : ordered (nodes s) E /\ Forall (filled (nodes s)) E /\ NoDup (map snd E) /\ (y.1 ∉ map snd E) /\ (next_node_i s ∉ map snd E) /\ e.2 ∈ map snd E /\ sib ∈ map snd E /\
  (y.1 < next_node_i s)%nat.
Proof.
  pose proof level_distinct as Hnd. split; [|split; [|split; [|split; [|split; [|split; [|split]]]]]].
  - pose proof (rd_ordered _ _ _ _ _ _ H) as Ho. rewrite idx_E in Ho. apply ordered_app in Ho as [_ Ho]. now apply ordered_app in Ho as [Ho _].
  - pose proof (rd_filled _ _ _ _ _ _ H) as Hf. rewrite idx_E in Hf. apply Forall_app in Hf as [_ Hf]. now apply Forall_app in Hf as [Hf _].
  - apply NoDup_app in Hnd as (_ & _ & Hnd). now apply NoDup_app in Hnd as (Hnd & _ & _).
  - intros Hin. apply NoDup_app in Hnd as (_ & _ & Hnd). apply NoDup_app in Hnd as (_ & Hd & _). apply (Hd _ Hin). elem.
  - intros Hin. apply list_elem_of_fmap in Hin as (e' & Heq & He'). apply E_idx in He'. apply (list_elem_of_fmap_2 snd) in He'.
    pose proof (ready_nodes _ H e'.2 ltac:(apply elem_of_app; now left)). lia.
  - rewrite !map_app. cbn. elem.
  - rewrite !map_app. cbn. elem.
  - apply (ready_nodes _ H). apply elem_of_app. right. unfold tower_ptrs. cbn. rewrite map_app. cbn. elem.
Qed.

Lemma low_E : low E = low y.2.
Proof. rewrite Hy. now destruct el. Qed.

(** The nodes next to the parent and the levels above, when only the parent, its
    entries and new nodes have changed. *)
Lemma others_kept s' : (forall q, (q < next_node_i s)%nat -> q <> y.1 -> data (nodes s') q = data (nodes s) q) ->
  (forall q, (q < next_node_i s)%nat -> q ∉ map snd E -> parv (nodes s') q = parv (nodes s) q) ->
  Forall (node_at (nodes s')) nl /\ Forall (node_at (nodes s')) nr /\ tower (nodes s') (root s) (map item (nl ++ y :: nr)) ls.
Proof.
  intros Hd Hp. destruct (rd_tower _ _ _ _ _ _ H) as (_ & Hlv & Ht). pose proof level_distinct as Hnd.
  assert (Hin : forall z, z ∈ nl ++ nr -> (z.1 < next_node_i s)%nat /\ z.1 <> y.1).
  { intros z Hz. split.
    - apply (ready_nodes _ H). apply elem_of_app. right. unfold tower_ptrs. cbn. apply elem_of_app. left. apply (list_elem_of_fmap_2 fst).
      apply elem_of_app in Hz as [Hz|Hz]; apply elem_of_app; [now left|right; now apply list_elem_of_further].
    - do 3 (apply NoDup_app in Hnd as (_ & _ & Hnd)). apply NoDup_app in Hnd as (_ & Hd1 & Hnd). apply NoDup_cons in Hnd as [Hd2 _]. intros Heq.
      apply elem_of_app in Hz as [Hz|Hz]; apply (list_elem_of_fmap_2 fst) in Hz; rewrite Heq in Hz; [apply (Hd1 _ Hz), list_elem_of_here|apply Hd2, elem_of_app; now left]. }
  assert (Hch : forall z e', z ∈ nl ++ nr -> e' ∈ z.2 -> (e'.2 < next_node_i s)%nat /\ e'.2 ∉ map snd E).
  { intros z e' Hz He'. assert (Hc : e' ∈ concat (map snd nl) \/ e' ∈ concat (map snd nr)).
    { apply elem_of_app in Hz as [Hz|Hz]; [left|right]; apply elem_of_chunk; eauto. }
    split.
    - apply (ready_nodes _ H). apply elem_of_app. left. apply (list_elem_of_fmap_2 snd). rewrite idx_E.
      destruct Hc; apply elem_of_app; [now left|right; apply elem_of_app; now right].
    - intros HE. apply NoDup_app in Hnd as (_ & Hd1 & Hnd). apply NoDup_app in Hnd as (_ & Hd2 & _).
      destruct Hc as [Hc|Hc]; apply (list_elem_of_fmap_2 snd) in Hc; [apply (Hd1 _ Hc), elem_of_app; now left|apply (Hd2 _ HE), elem_of_app; now left]. }
  assert (Hall : forall z, z ∈ nl ++ nr -> node_at (nodes s') z).
  { intros z Hz. assert (Hz' : node_at (nodes s) z).
    { rewrite Forall_forall in Hlv. apply Hlv. apply elem_of_app in Hz as [Hz|Hz]; apply elem_of_app; [now left|right; now apply list_elem_of_further]. }
    destruct Hz' as [(d & Hzd & HE) Hpar], (Hin z Hz) as [Hz1 Hz2]. split; [exists d; split; [now rewrite Hd|exact HE]|].
    intros e' He'. destruct (Hch z e' Hz He'). rewrite Hp by assumption. now apply Hpar. }
  split; [|split]; [apply Forall_forall; intros z Hz; apply Hall; apply elem_of_app; tauto..|].
  apply (tower_frame (nodes s)); [| |exact Ht].
  - intros q Hq. apply Hd; [apply (ready_nodes _ H); unfold tower_ptrs; cbn; elem|].
    do 4 (apply NoDup_app in Hnd as (_ & _ & Hnd)). apply NoDup_cons in Hnd as [Hd2 _]. intros ->. apply Hd2, elem_of_app. now right.
  - intros q Hq. assert (Hq' : q ∈ map fst nl ++ y.1 :: map fst nr ++ tower_ptrs ls).
    { rewrite map_map, map_app in Hq. cbn in Hq. rewrite <- app_assoc in Hq. exact Hq. }
    apply Hp.
    + apply (ready_nodes _ H). apply elem_of_app. right. unfold tower_ptrs. cbn. rewrite map_app. cbn. now rewrite <- app_assoc.
    + intros HE. apply NoDup_app in Hnd as (_ & _ & Hnd). apply NoDup_app in Hnd as (_ & Hd1 & _). apply (Hd1 _ HE), elem_of_app. now right.
Qed.

(** *** A parent with room *)
Lemma put_done fuel n : nodes s !! y.1 = Some n -> (key_n n < node_capacity)%nat ->
  wp (split_loop (S (S fuel)) e.2 sib sk) (fun _ s' => exists ls', split_done s idx ((nl ++ y :: nr) :: ls) s' ls') s.
Proof.
  intros Hn Hroom. destruct E_parts as (Ho & Hf & HndE & HyE & HxE & HeE & HsE & Hlt). destruct parent_node as (n' & Hn' & HE & Hpar). rewrite Hn in Hn'. injection Hn' as <-.
  assert (Hye : y.1 <> e.2) by (intros Heq; apply HyE; now rewrite Heq). assert (Hys : y.1 <> sib) by (intros Heq; apply HyE; now rewrite Heq).
  assert (Hpe : parv (nodes s) e.2 = Some (Some y.1)) by (apply Hpar; elem).
  cbn [split_loop]. apply wp_bind, (wp_lock_parent _ _ _ _ _ _ _ _ _ (shows_self s) Hpe (ready_lock _ H _ Hye Hys Hlt)). intros s1 Hs1.
  apply wp_bind, (wp_load _ _ _ _ _ Hs1); [rewrite upd_eq; eauto|]. intros n1 Hn1 _ _. rewrite (data_lookup _ _ _ Hn) in Hn1. injection Hn1 as E1 E2 E3 E4.
  unfold is_full. rewrite <- E2, (proj2 (Nat.eqb_neq _ _)) by lia.
  assert (Hd1 : forall e', e' ∈ E -> data (nodes s1) e'.2 = data (nodes s) e'.2) by (intros e' _; apply (sh_data _ _ _ _ _ Hs1)).
  apply (wp_put_in_parent _ _ _ _ _ y.1 e.2 sib sk (el ++ [e]) er n _ Hs1); [exact (data_lookup _ _ _ Hn)|exact HE|exact Hroom|now destruct el|
    exact (ordered_data _ _ _ Hd1 Ho)|exact (filled_data _ _ _ Hd1 Hf)|exact HyE|exact HeE|exact Hpar|apply upd_eq|].
  intros s' dn Hin Hs'. exists ((nl ++ (y.1, E) :: nr) :: ls). pose proof (sh_base _ _ _ _ _ Hs') as Hb. injection Hb as B1 B2 B3 B4 B5.
  destruct (others_kept s') as (Hnl & Hnr & Ht).
  { intros q _ Hq. rewrite (sh_data _ _ _ _ _ Hs'). now apply upd_ne. }
  { intros q _ Hq. rewrite (sh_par _ _ _ _ _ Hs'). apply upd_ne. intros ->. now apply Hq. }
  assert (Hptrs : tower_ptrs ((nl ++ (y.1, E) :: nr) :: ls) = tower_ptrs ((nl ++ y :: nr) :: ls)) by (unfold tower_ptrs; cbn; now rewrite !map_app).
  constructor; rewrite ?Hptrs.
  - split; [rewrite map_app, concat_app; cbn; now rewrite idx_E|]. rewrite B1. split.
    + apply Forall_app. split; [exact Hnl|]. apply Forall_cons. split; [|exact Hnr]. split; [exists dn; split; [rewrite (sh_data _ _ _ _ _ Hs'); apply upd_eq|exact Hin]|].
      intros e' He'. rewrite (sh_par _ _ _ _ _ Hs'). unfold upd. case_decide as Hd; [reflexivity|]. apply Hpar.
      apply elem_of_app in He' as [He'|[->|He']%elem_of_cons]; [apply elem_of_app; now left|now contradict Hd|apply elem_of_app; now right].
    + rewrite map_app in Ht |- *. cbn in Ht |- *. unfold item in Ht |- *. cbn. now rewrite low_E.
  - exact (rd_distinct _ _ _ _ _ _ H).
  - apply (shows_dom _ _ _ _ _ (next_node_i s) Hs'); [reflexivity|]. intros q. rewrite <- (rd_dom _ _ _ _ _ _ H q), <- lockv_Some. unfold upd.
    assert (HL : forall q', (q' < next_node_i s)%nat -> is_Some (lockv (nodes s) q')) by (intros q' Hq'; apply lockv_Some; now apply (rd_dom _ _ _ _ _ _ H)).
    repeat case_decide; try reflexivity;
      (split; [intros _; match goal with Hq : q = _ |- _ => rewrite Hq end; apply HL; first [exact Hlt|apply (ready_nodes _ H), elem_of_app; left; apply in_idx]|eauto]).
  - apply (shows_free _ _ _ _ _ Hs'). intros q x. unfold upd. repeat case_decide; try congruence. unfold lockv. intros (m & Hq & ->)%fmap_Some.
    rewrite (rd_locks _ _ _ _ _ _ H _ _ Hq). cbn. now rewrite decide_False by tauto.
  - unfold blocks_ok. rewrite (sh_base _ _ _ _ _ Hs'). exact (rd_blocks _ _ _ _ _ _ H).
  - repeat split; [exact B2|exact B3|lia].
  - discriminate.
  - intros q Hq Hnq. rewrite (sh_data _ _ _ _ _ Hs'). apply upd_ne. intros ->. apply Hnq. unfold tower_ptrs. cbn. rewrite map_app. cbn. elem.
  - intros q Hq Hi _. rewrite (sh_par _ _ _ _ _ Hs'). apply upd_ne. intros ->. apply Hi. apply in_idx.
  - intros q Hq. now left.
Qed.

(** *** A full parent *)

Section Full.
Context (s2 : @CMap V) (P2 : ptr -> option (option ptr)) (q : nat) (key : Z) (dn ds : @Data V).
Abbreviation nx := (next_node_i s).
Context (Hps : parent_split y.1 nx E (parv (nodes s)) P2 q key dn ds).
Context (Hs2 : shows s2 (allocated (base s)) (upd (upd (data (nodes s)) nx ds) y.1 dn) P2
                 (upd (upd (upd (upd (lockv (nodes s)) y.1 1) nx 1) e.2 0) sib 0)).
Abbreviation lv2 := (nl ++ (y.1, take q E) :: (nx, drop q E) :: nr).

Lemma lv2_idx : concat (map snd lv2) = idx.
Proof. rewrite map_app, concat_app. cbn. rewrite (app_assoc (take q E)), take_drop. now rewrite idx_E. Qed.

Lemma lv2_items : map item lv2 = map item nl ++ item y :: (Some key, nx) :: map item nr.
Proof.
  rewrite map_app. cbn. unfold item at 2 3. cbn. rewrite (ps_low _ _ _ _ _ _ _ _ _ Hps). do 3 f_equal. unfold item. f_equal.
  rewrite <- low_E. pose proof (in_E _ _ (ps_node _ _ _ _ _ _ _ _ _ Hps)) as HlE. destruct q; [discriminate|]. now destruct el.
Qed.

Lemma lv2_ptrs q' : q' ∈ map fst lv2 -> q' ∈ map fst (nl ++ y :: nr) \/ q' = nx.
Proof. rewrite !map_app. cbn. intros [Hq|[->|[->|Hq]%elem_of_cons]%elem_of_cons]%elem_of_app; [left; elem|left; elem|now right|left; elem]. Qed.

Lemma above_others : Forall (node_at (nodes s2)) nl /\ Forall (node_at (nodes s2)) nr /\ tower (nodes s2) (root s) (map item (nl ++ y :: nr)) ls.
Proof.
  apply others_kept.
  - intros q' Hlt Hq. rewrite (sh_data _ _ _ _ _ Hs2), !upd_ne; [reflexivity|lia|exact Hq].
  - intros q' Hlt Hq. rewrite (sh_par _ _ _ _ _ Hs2). apply (ps_other _ _ _ _ _ _ _ _ _ Hps); [exact Hq|lia].
Qed.

Lemma above_nodes : Forall (node_at (nodes s2)) lv2.
Proof.
  destruct above_others as (Hnl & Hnr & _). destruct E_parts as (_ & _ & _ & _ & _ & _ & _ & Hlt).
  apply Forall_app. split; [exact Hnl|]. apply Forall_cons. split; [|apply Forall_cons; split; [|exact Hnr]].
  - split; [exists dn; split; [rewrite (sh_data _ _ _ _ _ Hs2); apply upd_eq|exact (ps_node _ _ _ _ _ _ _ _ _ Hps)]|].
    intros e' He'. rewrite (sh_par _ _ _ _ _ Hs2). exact (ps_left _ _ _ _ _ _ _ _ _ Hps e' He').
  - split; [exists ds; split; [rewrite (sh_data _ _ _ _ _ Hs2), upd_ne by (cbn; lia); apply upd_eq|exact (ps_sib _ _ _ _ _ _ _ _ _ Hps)]|].
    intros e' He'. rewrite (sh_par _ _ _ _ _ Hs2). exact (ps_right _ _ _ _ _ _ _ _ _ Hps e' He').
Qed.

Lemma above_next : next_node_i s2 = S nx /\ root s2 = root s /\ begin s2 = begin s /\ size_est s2 = size_est s.
Proof. pose proof (sh_base _ _ _ _ _ Hs2) as Hb. unfold allocated, base in Hb. cbn in Hb. injection Hb as B1 B2 B3 B4 B5. auto. Qed.

Lemma lv2_distinct : NoDup (map snd idx ++ map fst lv2 ++ tower_ptrs ls).
Proof.
  pose proof (rd_distinct _ _ _ _ _ _ H) as Hnd. unfold tower_ptrs in Hnd. cbn in Hnd. fold (tower_ptrs ls) in Hnd.
  apply (NoDup_Permutation_proper _ (nx :: map snd idx ++ map fst (nl ++ y :: nr) ++ tower_ptrs ls)).
  - rewrite !map_app. cbn. rewrite <- !app_assoc. cbn. solve_Permutation.
  - apply NoDup_cons. split; [|exact Hnd]. intros Hin. pose proof (ready_nodes _ H nx). unfold tower_ptrs in *. cbn in *. specialize (H0 Hin). lia.
Qed.

(** The next turn of the loop can start. *)
Lemma ready_above : split_ready s2 (map item nl) (item y) (Some key, nx) (map item nr) ls.
Proof.
  destruct above_others as (_ & _ & Ht). destruct above_next as (Hnx & Hrt & _). destruct E_parts as (_ & _ & _ & HyE & HxE & HeE & HsE & Hlt).
  assert (Hlv : Forall (fun x => exists d, data (nodes s2) x.1 = Some d /\ inode d x.2) lv2) by (apply (Forall_impl _ _ _ above_nodes); intros x [Hx _]; exact Hx).
  assert (Hso : sorted_lows (concat (map snd lv2))) by (rewrite lv2_idx; exact (ordered_lows _ _ (rd_ordered _ _ _ _ _ _ H))).
  destruct (ordered_level _ _ Hlv Hso) as [Ho Hf]. rewrite lv2_items in Ho, Hf. constructor.
  - rewrite Hrt. rewrite map_app in Ht. exact Ht.
  - exact Ho.
  - exact Hf.
  - rewrite <- lv2_items, map_map. pose proof lv2_distinct as Hnd. now apply NoDup_app in Hnd as (_ & _ & Hnd).
  - apply (shows_dom _ _ _ _ _ (S nx) Hs2); [reflexivity|]. intros q'. unfold upd.
    pose proof (ready_nodes _ H) as Hr'. pose proof in_idx as [Hi1 Hi2].
    assert (He2 : (e.2 < nx)%nat) by (apply Hr'; elem). assert (Hs3 : (sib < nx)%nat) by (apply Hr'; elem).
    repeat case_decide; try (split; [lia|eauto]). rewrite lockv_Some, (rd_dom _ _ _ _ _ _ H). lia.
  - intros q' n Hn. pose proof (sh_lock _ _ _ _ _ Hs2 q') as HL. unfold lockv in HL. rewrite Hn in HL. cbn in HL |- *.
    assert (Hye : y.1 <> e.2) by (intros Heq; apply HyE; now rewrite Heq). assert (Hys : y.1 <> sib) by (intros Heq; apply HyE; now rewrite Heq).
    assert (Hxe : nx <> e.2) by (intros Heq; apply HxE; now rewrite Heq). assert (Hxs : nx <> sib) by (intros Heq; apply HxE; now rewrite Heq).
    unfold upd in HL. revert HL. repeat case_decide; intros HL; try (injection HL as ->); try reflexivity; try (exfalso; intuition congruence).
    symmetry in HL. apply fmap_Some in HL as (m & Hm & ->). rewrite (rd_locks _ _ _ _ _ _ H _ _ Hm), decide_False; [reflexivity|]. cbn. tauto.
  - unfold blocks_ok. rewrite (sh_base _ _ _ _ _ Hs2). reflexivity.
Qed.

(** After the remaining turns this level is finished too. *)
Lemma done_above s3 ls3 : split_done s2 (map item nl ++ item y :: (Some key, nx) :: map item nr) ls s3 ls3 ->
  split_done s idx ((nl ++ y :: nr) :: ls) s3 (lv2 :: ls3).
Proof.
  intros Hd. rewrite <- lv2_items in Hd. destruct above_next as (Hnx & Hrt & Hbg & Hsz). pose proof lv2_distinct as Hnd.
  apply NoDup_app in Hnd as (Hnd1 & Hdis & Hnd2). apply NoDup_app in Hnd2 as (Hnd2 & Hdis2 & _).
  assert (Hall : forall q', q' ∈ map snd idx \/ q' ∈ map fst lv2 -> (q' < next_node_i s2)%nat).
  { intros q' [Hq|Hq]; [pose proof (ready_nodes _ H q' ltac:(elem)); lia|]. apply lv2_ptrs in Hq as [Hq| ->]; [|lia].
    pose proof (ready_nodes _ H q'). unfold tower_ptrs in *. cbn in *. specialize (H0 ltac:(elem)). lia. }
  assert (Hptrs : forall q', q' ∉ tower_ptrs ((nl ++ y :: nr) :: ls) -> q' <> y.1 /\ (q' ∉ map fst (nl ++ y :: nr)) /\ (q' ∉ tower_ptrs ls)).
  { unfold tower_ptrs. cbn. intros q' Hq. split; [|split]; intros Hc; apply Hq; [rewrite Hc, map_app; cbn; elem|elem..]. }
  constructor.
  - split; [exact lv2_idx|]. split; [|exact (sd_tower _ _ _ _ _ Hd)]. apply Forall_forall. intros z Hz.
    destruct (proj1 (Forall_forall _ _) above_nodes z Hz) as [(d & Hzd & HE) Hpar]. pose proof (list_elem_of_fmap_2 fst _ _ Hz) as Hz1. split.
    + exists d. split; [|exact HE]. rewrite (sd_data _ _ _ _ _ Hd); [exact Hzd|apply Hall; now right|now apply Hdis2].
    + intros e' He'. assert (Hi : e'.2 ∈ map snd idx) by (rewrite <- lv2_idx; apply (list_elem_of_fmap_2 snd), elem_of_chunk; eauto).
      rewrite (sd_par _ _ _ _ _ Hd); [now apply Hpar|apply Hall; now left| |]; [rewrite map_map|]; intros Hc; apply (Hdis _ Hi); elem.
  - unfold tower_ptrs. cbn. pose proof (sd_distinct _ _ _ _ _ Hd) as Hnd3. rewrite map_map in Hnd3. apply NoDup_app. split; [exact Hnd1|]. split; [|exact Hnd3].
    intros q' Hq [Hc|Hc]%elem_of_app; [apply (Hdis _ Hq); elem|]. apply (sd_fresh _ _ _ _ _ Hd) in Hc as [Hc|Hc]; [apply (Hdis _ Hq); elem|].
    pose proof (Hall q' ltac:(now left)). lia.
  - exact (sd_dom _ _ _ _ _ Hd).
  - exact (sd_unlocked _ _ _ _ _ Hd).
  - exact (sd_blocks _ _ _ _ _ Hd).
  - destruct (sd_base _ _ _ _ _ Hd) as (Hb1 & Hb2 & Hb3). repeat split; [congruence|congruence|lia].
  - discriminate.
  - intros q' Hq Hn. destruct (Hptrs q' Hn) as (Hny & _ & Hnt). rewrite (sd_data _ _ _ _ _ Hd); [|lia|exact Hnt].
    rewrite (sh_data _ _ _ _ _ Hs2), !upd_ne; [reflexivity|lia|exact Hny].
  - intros q' Hq Hi Hn. destruct (Hptrs q' Hn) as (_ & Hnl & Hnt). rewrite (sd_par _ _ _ _ _ Hd); [|lia| |exact Hnt].
    + rewrite (sh_par _ _ _ _ _ Hs2). apply (ps_other _ _ _ _ _ _ _ _ _ Hps); [|lia]. intros Hc. apply Hi. apply list_elem_of_fmap in Hc as (e' & -> & He').
      apply (list_elem_of_fmap_2 snd). now apply E_idx.
    + rewrite map_map. intros Hc. apply lv2_ptrs in Hc as [Hc| ->]; [now apply Hnl|lia].
  - intros q'. unfold tower_ptrs. cbn. intros [Hq|Hq]%elem_of_app.
    + apply lv2_ptrs in Hq as [Hq| ->]; [left; elem|right; lia].
    + apply (sd_fresh _ _ _ _ _ Hd) in Hq as [Hq|Hq]; [left; elem|right; lia].
Qed.
End Full.

End Level.
End Step.

(** ** The loop *)
Lemma split_loop_ok : forall ls (s : @CMap V) l e sk sib r fuel, (length ls + 2 <= fuel)%nat -> split_ready s l e (Some sk, sib) r ls ->
  wp (split_loop fuel e.2 sib sk) (fun _ s' => exists ls', split_done s (l ++ e :: (Some sk, sib) :: r) ls s' ls') s.
Proof.
  induction ls as [|lv ls IH]; intros s l e sk sib r fuel Hfuel H; (destruct fuel as [|[|fuel]]; [cbn in Hfuel; lia..|]).
  - now apply grow_root_done.
  - destruct (rd_tower _ _ _ _ _ _ H) as (Hi & _ & _). destruct (chunk_split _ _ _ _ Hi) as (nl & y & nr & el & er & -> & Hy & Hl & Hr).
    destruct (parent_node _ _ _ _ _ _ _ _ _ _ _ _ H Hy) as (n & Hn & HE & Hpar).
    destruct (decide (key_n n < node_capacity)%nat) as [Hroom|Hfull]; [exact (put_done _ _ _ _ _ _ _ _ _ _ _ _ H Hy Hl Hr fuel n Hn Hroom)|].
    pose proof (in_n _ _ HE) as Hc. change (1 <= key_n n <= node_capacity)%nat in Hc. assert (Hk : key_n n = node_capacity) by lia. clear Hfull Hc.
    destruct (E_parts _ _ _ _ _ _ _ _ _ _ _ _ H Hl Hr) as (Ho & Hf & HndE & HyE & HxE & HeE & HsE & Hlt).
    assert (Hye : y.1 <> e.2) by (intros Heq; apply HyE; now rewrite Heq). assert (Hys : y.1 <> sib) by (intros Heq; apply HyE; now rewrite Heq).
    assert (Hpe : parv (nodes s) e.2 = Some (Some y.1)) by (apply Hpar; elem).
    remember (S fuel) as f eqn:Ef. cbn [split_loop]. rewrite Ef at 1.
    apply wp_bind, (wp_lock_parent _ _ _ _ _ _ _ _ _ (shows_self s) Hpe (ready_lock _ _ _ _ _ _ _ H _ Hye Hys Hlt)). intros s1 Hs1.
    apply wp_bind, (wp_load _ _ _ _ _ Hs1); [rewrite upd_eq; eauto|]. intros n1 Hn1 _ _. rewrite (data_lookup _ _ _ Hn) in Hn1. injection Hn1 as E1 E2 E3 E4.
    unfold is_full. rewrite <- E2, Hk, Nat.eqb_refl.
    assert (Hd1 : forall e', e' ∈ (el ++ [e]) ++ (Some sk, sib) :: er -> data (nodes s1) e'.2 = data (nodes s) e'.2) by (intros e' _; apply (sh_data _ _ _ _ _ Hs1)).
    apply wp_bind, (wp_split_parent _ _ _ _ _ y.1 e.2 sib sk (el ++ [e]) er n _ Hs1); [exact (rd_blocks _ _ _ _ _ _ H)|exact (data_lookup _ _ _ Hn)|exact HE|exact Hk|now destruct el|
      exact (ordered_data _ _ _ Hd1 Ho)|exact (filled_data _ _ _ Hd1 Hf)|exact HndE|exact HyE|exact HxE|cbn; lia|exact HeE|exact Hpar|apply upd_eq|].
    intros s2 P2 q key dn ds Hps Hs2.
    pose proof (ready_above _ _ _ _ _ _ _ _ _ _ _ _ H Hy Hl Hr _ _ _ _ _ _ Hps Hs2) as Hready.
    apply (wp_mono _ _ _ _ (IH s2 _ _ _ _ _ f ltac:(cbn in Hfuel; lia) Hready)). intros _ s3 (ls3 & Hd). eexists.
    exact (done_above _ _ _ _ _ _ _ _ _ _ _ _ H Hy Hl Hr _ _ _ _ _ _ Hps Hs2 _ _ Hd).
Qed.

End Insert.
