(* ===== verification/ConcurrentMapInsert.v ===== *)
(** * Inserting into the B+-tree of special cases

    Updating a value in place, inserting into a leaf with room and inserting into a
    full leaf.  Each keeps the tree of [ConcurrentMapTree], returns, and changes the
    contents as it should. *)

From Stdlib Require Import ZArith Lia List Sorted.
From stdpp Require Import base tactics list numbers option gmap.
From S2P Require Import Prelude StdMap ConcurrentMap ConcurrentMapTree ConcurrentMapNodes ConcurrentMapHeap ConcurrentMapSplit.

Open Scope Z_scope.

Section Insert.
Context {V : Type} (val0 : V).

(** ** Leaves *)

(** Where a key is or goes in a leaf. *)
Lemma leaf_search (n : @Node V) kvs nx key : leaf (data_of n) kvs nx -> StronglySorted Z.lt (map fst kvs) ->
  exists kl kr, kvs = kl ++ kr /\ find_first_larger_than_or_equal_to key n = Ok (length kl) /\
    Forall (fun kv => kv.1 < key) kl /\ Forall (fun kv => key <= kv.1) kr /\
    has_key (length kl) key n = Ok (match kr with kv :: _ => kv.1 =? key | [] => false end).
Proof.
  intros Hl Hs. pose proof (ks_leaf _ _ _ Hl) as Hk. rewrite <- Hk in Hs. pose proof (lf_kvs _ _ _ Hl) as Hn. cbn in Hn.
  destruct (find_ge_spec key n (lf_len _ _ _ Hl) (lf_n _ _ _ Hl) Hs) as (i & Ei & Hi & H1 & H2). rewrite Hk in H1, H2.
  exists (take i kvs), (drop i kvs). assert (Hli : length (take i kvs) = i) by (rewrite length_take; lia). rewrite Hli.
  split; [symmetry; apply take_drop|]. split; [exact Ei|]. rewrite firstn_map, Forall_fmap in H1. rewrite skipn_map, Forall_fmap in H2. split; [exact H1|]. split; [exact H2|].
  unfold has_key. destruct (Nat.ltb_spec i (key_n n)) as [Hlt|Hge].
  - destruct (lookup_lt_is_Some_2 kvs i) as [kv Hkv]; [lia|]. rewrite (aget_Ok (keys n) i kv.1 (lf_keys _ _ _ Hl _ _ Hkv)), (drop_S _ _ _ Hkv). reflexivity.
  - rewrite drop_ge by lia. reflexivity.
Qed.

(** ** Replacing a node of a level *)

Lemma ordered_replace (h h' : gmap ptr (@Node V)) l e r es : ordered h (l ++ e :: r) ->
  (forall e', e' ∈ l ++ r -> ks_at h' e'.2 = ks_at h e'.2) -> ordered h' es ->
  (forall f, f ∈ es -> (e.1 = f.1 \/ olt e.1 f.1) /\ forall e', e' ∈ r -> olt f.1 e'.1 /\ Forall (fun k => below k e'.1) (ks_at h' f.2)) ->
  ordered h' (l ++ es ++ r).
Proof.
  intros [Hi Hs] Hk [Hi' Hs'] Hes. apply Forall_app in Hi as [Hil Hir]. apply Forall_cons in Hir as [_ Hir].
  apply sorted_app in Hs as (Hsl & Hsr & Hlr). apply StronglySorted_inv in Hsr as [Hsr Her]. rewrite Forall_forall in Her.
  assert (Hkl : forall e', e' ∈ l -> ks_at h' e'.2 = ks_at h e'.2) by (intros e' He'; apply Hk; elem).
  assert (Hkr : forall e', e' ∈ r -> ks_at h' e'.2 = ks_at h e'.2) by (intros e' He'; apply Hk; elem).
  constructor.
  - rewrite !Forall_app. rewrite !Forall_forall in *. repeat split; try (apply Hi'; assumption); rewrite ?Hkl, ?Hkr by assumption; first [now apply Hil|now apply Hir].
  - apply sorted_app. split; [|split].
    + apply sorted_lookup. intros i j a c Hij Ha Hc. rewrite (Hkl a) by exact (list_elem_of_lookup_2 _ _ _ Ha). now apply (proj2 (sorted_lookup _ _) Hsl i j).
    + apply sorted_app. split; [exact Hs'|]. split.
      * apply sorted_lookup. intros i j a c Hij Ha Hc. rewrite (Hkr a) by exact (list_elem_of_lookup_2 _ _ _ Ha). now apply (proj2 (sorted_lookup _ _) Hsr i j).
      * intros f e' Hf He'. now apply (Hes f Hf).
    + intros a c Ha Hc. rewrite (Hkl a Ha). apply elem_of_app in Hc as [Hc|Hc]; [|apply Hlr; elem].
      destruct (Hlr a e Ha ltac:(elem)) as [Ho Hb]. destruct (proj1 (Hes c Hc)) as [<-|Hlt]; [split; assumption|].
      split; [now transitivity e.1|]. apply (Forall_impl _ _ _ Hb). intros k Hkb. exact (below_lo _ _ _ Hkb Hlt).
Qed.

(** The keys of a leaf and [key] are in the range of the leaf. *)
Lemma in_range (h : gmap ptr (@Node V)) l e r key k : ordered h (l ++ e :: r) -> located key e r -> k ∈ ks_at h e.2 \/ k = key ->
  from e.1 k /\ forall e', e' ∈ r -> olt e.1 e'.1 /\ below k e'.1.
Proof.
  intros [Hi Hs] [Hf Hb] Hk. apply Forall_app in Hi as [_ Hi]. apply Forall_cons in Hi as [[_ Hi] _].
  apply sorted_app in Hs as (_ & Hs & _). apply StronglySorted_inv in Hs as [_ Hs]. rewrite Forall_forall in Hi. rewrite Forall_forall in Hb, Hs.
  split; [destruct Hk as [Hk| ->]; [now apply Hi|exact Hf]|]. intros e' He'. destruct (Hs e' He') as [Ho Hkb]. split; [exact Ho|].
  destruct Hk as [Hk| ->]; [|now apply Hb]. rewrite Forall_forall in Hkb. now apply Hkb.
Qed.

(** ** Locking the leaf of a key *)

Lemma locate_locked_spec (s : @CMap V) lvs ls key : tree_ok s lvs ls ->
  exists l x r n s1, lvs = l ++ x :: r /\ located key x.1 (map fst r) /\ nodes s !! x.1.2 = Some n /\
    leaf (data_of n) x.2 ((fun y => y.1.2) <$> head r) /\ locate_leaf_locked key s = Ok (x.1.2, s1) /\
    shows s1 (base s) (data (nodes s)) (parv (nodes s)) (upd (lockv (nodes s)) x.1.2 1).
Proof.
  intros Hok. destruct (locate_leaf_spec s lvs ls Hok key) as (l & x & r & n & E & Hloc & Hn & Hleaf & Hrun).
  exists l, x, r, n, (set_nodes (<[x.1.2 := set_locked 1 n]> (nodes s)) s). do 4 (split; [assumption|]). split.
  - unfold locate_leaf_locked, mbind, cm_bind. rewrite Hrun. unfold cm_gets, loop_fuel. replace (next_node_i s + 2)%nat with (S (next_node_i s + 1)) by lia.
    cbn [lock_leaf]. unfold lock, mbind, cm_bind, load. rewrite Hn, (t_unlocked _ _ _ Hok _ _ Hn). cbn. rewrite lookup_insert_eq. cbn. now rewrite Z.eqb_refl.
  - apply (shows_ext _ _ _ _ _ _ _ _ (shows_store _ _ _ _ _ x.1.2 (set_locked 1 n) (shows_self s))); intros q; [|  |reflexivity]; apply upd_id; unfold data, parv; now rewrite Hn.
Qed.

(** ** Other contents of a leaf *)

Section Leaf.
Context (s : @CMap V) (lvs : leaves_of V) (ls : levels) (Hok : tree_ok s lvs ls).
Context (key : Z) (l r : leaves_of V) (x : entry * list (Z * @ConcurrentVal V)).
Context (Hlvs : lvs = l ++ x :: r) (Hloc : located key x.1 (map fst r)).

Lemma leaf_range k : k ∈ map fst x.2 \/ k = key -> from x.1.1 k /\ forall e', e' ∈ map fst r -> olt x.1.1 e'.1 /\ below k e'.1.
Proof.
  intros Hk. apply (in_range (nodes s) (map fst l) x.1 (map fst r) key); [|exact Hloc|rewrite (leaf_ks _ _ _ Hok _ _ _ Hlvs); exact Hk].
  pose proof (t_ordered _ _ _ Hok) as Ho. now rewrite Hlvs, map_app in Ho.
Qed.

Lemma leaf_ptrs : NoDup (map snd (map fst l) ++ x.1.2 :: map snd (map fst r) ++ tower_ptrs ls).
Proof. pose proof (t_distinct _ _ _ Hok) as Hd. rewrite Hlvs, !map_app in Hd. cbn in Hd. now rewrite <- app_assoc in Hd. Qed.

Lemma leaf_ne : (x.1.2 ∉ tower_ptrs ls) /\ forall y, y ∈ l ++ r -> y.1.2 <> x.1.2.
Proof.
  pose proof leaf_ptrs as Hd. apply NoDup_app in Hd as (_ & Hd1 & Hd2). apply NoDup_cons in Hd2 as [Hd2 _]. split; [intros Hc; apply Hd2; elem|].
  intros y [Hy|Hy]%elem_of_app Heq; apply (list_elem_of_fmap_2 fst), (list_elem_of_fmap_2 snd) in Hy; rewrite Heq in Hy; [apply (Hd1 _ Hy); elem|apply Hd2; elem].
Qed.

Lemma sub_ordered (h : gmap ptr (@Node V)) e (kvs : list (Z * @ConcurrentVal V)) : ks_at h e.2 = map fst kvs -> StronglySorted Z.lt (map fst kvs) -> Forall (from e.1) (map fst kvs) -> ordered h [e].
Proof. intros Hk Hs Hf. constructor; [apply Forall_singleton; rewrite Hk; now split|repeat constructor]. Qed.

(** [kvs] in the place of the pairs of the leaf, all locks released. *)
Lemma leaf_replaced s' sz d kvs : leaf d kvs ((fun y => y.1.2) <$> head r) -> StronglySorted Z.lt (map fst kvs) ->
  (forall k, k ∈ map fst kvs -> k ∈ map fst x.2 \/ k = key) -> (ls <> [] -> kvs <> []) ->
  shows s' (mkBase (root s) (begin s) sz (allocated_blocks s) (next_node_i s)) (upd (data (nodes s)) x.1.2 d) (parv (nodes s)) (upd (upd (lockv (nodes s)) x.1.2 1) x.1.2 0) ->
  tree_ok s' (l ++ (x.1, kvs) :: r) ls.
Proof.
  intros Hleaf Hsort Hkeys Hne Hs'. destruct leaf_ne as [Hnt Hny]. pose proof (sh_base _ _ _ _ _ Hs') as Hb. injection Hb as B1 B2 B3 B4 B5.
  destruct (leaf_node _ _ _ Hok _ _ _ Hlvs) as (n & Hn & _).
  assert (Hix : map fst (l ++ (x.1, kvs) :: r) = map fst lvs) by (rewrite Hlvs, !map_app; reflexivity).
  assert (Hksx : ks_at (nodes s') x.1.2 = map fst kvs) by (rewrite (ks_at_data _ _ d); [exact (ks_leaf _ _ _ Hleaf)|rewrite (sh_data _ _ _ _ _ Hs'); apply upd_eq]).
  constructor; rewrite ?Hix.
  - intros i e kvs' Hi. assert (Hnx : (fun y : entry * _ => y.1.2) <$> (l ++ (x.1, kvs) :: r) !! S i = (fun y => y.1.2) <$> lvs !! S i).
    { rewrite Hlvs, !lookup_put. repeat case_decide; reflexivity. }
    rewrite Hnx. rewrite lookup_put in Hi. destruct (decide (i = length l)) as [->|Hd].
    + rewrite decide_False in Hi by lia. injection Hi as <- <-. exists d. split; [rewrite (sh_data _ _ _ _ _ Hs'); apply upd_eq|].
      rewrite Hlvs, lookup_put, decide_False, decide_False by lia. cbn. rewrite Nat.sub_0_r, lookup_app_r, Nat.sub_diag by lia. now destruct r.
    + assert (Hin : (e, kvs') ∈ l ++ r) by (repeat case_decide; exact (list_elem_of_lookup_2 _ _ _ Hi)).
      destruct (t_leaves _ _ _ Hok i e kvs') as (d' & Hd' & Hl').
      { rewrite Hlvs, lookup_put. repeat case_decide; try lia; exact Hi. }
      exists d'. split; [|exact Hl']. rewrite (sh_data _ _ _ _ _ Hs'), upd_ne; [exact Hd'|exact (Hny _ Hin)].
  - rewrite Hlvs, map_app. cbn. apply (ordered_replace (nodes s) _ _ x.1 _ [x.1]).
    + pose proof (t_ordered _ _ _ Hok) as Ho. now rewrite Hlvs, map_app in Ho.
    + intros e' He'. unfold ks_at. rewrite (sh_data _ _ _ _ _ Hs'), upd_ne; [reflexivity|]. rewrite <- map_app in He'. apply list_elem_of_fmap in He' as (y & -> & Hy). now apply Hny.
    + apply (sub_ordered _ _ _ Hksx Hsort). apply Forall_forall. intros k Hk. now apply leaf_range, Hkeys.
    + intros f Hf. apply list_elem_of_singleton in Hf as ->. split; [now left|]. intros e' He'. split; [now apply (leaf_range key); [right|]|].
      rewrite Hksx. apply Forall_forall. intros k Hk. now apply (leaf_range k); [apply Hkeys|].
  - intros Hls. pose proof (t_nonempty _ _ _ Hok Hls) as Hf. rewrite Hlvs in Hf. apply Forall_app in Hf as [Hf1 Hf2]. apply Forall_cons in Hf2 as [_ Hf2].
    apply Forall_app. split; [exact Hf1|]. apply Forall_cons. split; [now apply Hne|exact Hf2].
  - rewrite B1. apply (tower_frame (nodes s)); [| |exact (t_tower _ _ _ Hok)].
    + intros q Hq. rewrite (sh_data _ _ _ _ _ Hs'). apply upd_ne. intros ->. now apply Hnt.
    + intros q Hq. apply (sh_par _ _ _ _ _ Hs').
  - exact (t_distinct _ _ _ Hok).
  - apply (shows_dom _ _ _ _ _ (next_node_i s) Hs'); [reflexivity|]. intros q. rewrite <- (t_dom _ _ _ Hok q), <- lockv_Some. unfold upd.
    repeat case_decide as Hq; [subst q; unfold lockv; rewrite Hn; cbn; split; eauto|reflexivity].
  - apply (shows_free _ _ _ _ _ Hs'). intros q v. unfold upd. repeat case_decide; [congruence|]. unfold lockv. intros (m & Hm & ->)%fmap_Some. exact (t_unlocked _ _ _ Hok _ _ Hm).
  - rewrite B4, B5. exact (t_blocks _ _ _ Hok).
Qed.
End Leaf.

(** ** Values *)

Lemma land_low st m : 0 <= st < 2 ^ 60 -> Z.land st m = Z.land st (Z.land (Z.ones 60) m).
Proof. intros H. rewrite Z.land_assoc, Z.land_ones, Z.mod_small by lia. reflexivity. Qed.

Lemma cv_read_ok (c : @ConcurrentVal V) : 0 <= status c < 2 ^ 60 -> cv_read c = Ok (true, cv_val c).
Proof.
  intros H. unfold cv_read, cv_locked, lock_mask. rewrite (land_low _ 0x1000000000000000 H).
  change (Z.land (Z.ones 60) 0x1000000000000000) with 0. rewrite Z.land_0_r. cbn. now rewrite Z.eqb_refl.
Qed.

Lemma cv_update_ok val (c : @ConcurrentVal V) : 0 <= status c < 2 ^ 60 - 1 -> cv_update val c = Ok (true, mkCV val (status c + 1)).
Proof.
  intros H. assert (Hlow : forall x, 0 <= x < 2 ^ 60 -> Z.land x (2 ^ 64 - 1 - lock_mask) = x /\ Z.land x lock_mask = 0 /\ Z.land x version_mask = x).
  { intros x Hx. rewrite (land_low x (2 ^ 64 - 1 - lock_mask)), (land_low x lock_mask), (land_low x version_mask) by exact Hx. unfold lock_mask, version_mask.
    change (Z.land (Z.ones 60) (2 ^ 64 - 1 - 0x1000000000000000)) with (Z.ones 60). change (Z.land (Z.ones 60) 0x1000000000000000) with 0.
    change (Z.land (Z.ones 60) 0x0fffffffffffffff) with (Z.ones 60). rewrite Z.land_0_r, Z.land_ones, Z.mod_small by lia. auto. }
  destruct (Hlow (status c)) as (L1 & L2 & L3); [lia|]. destruct (Hlow (status c + 1)) as (M1 & M2 & M3); [lia|].
  assert (Hadd : forall x, Z.land x lock_mask = 0 -> Z.lor x lock_mask = x + lock_mask) by (intros x Hx; pose proof (Z.add_lor_land x lock_mask); lia).
  assert (Hv : forall x, Z.land x lock_mask = 0 -> Z.land (x + lock_mask) version_mask = Z.land x version_mask /\ Z.land (x + lock_mask) (2 ^ 64 - 1 - lock_mask) = Z.land x (2 ^ 64 - 1 - lock_mask)).
  { intros x Hx. rewrite <- (Hadd x Hx), !Z.land_lor_distr_l. change (Z.land lock_mask version_mask) with 0. change (Z.land lock_mask (2 ^ 64 - 1 - lock_mask)) with 0. now rewrite !Z.lor_0_r. }
  unfold cv_update, cv_lock. cbn [status]. rewrite L1, Z.eqb_refl. cbn [mbind res_bind status]. rewrite (Hadd _ L2). unfold incr_version, get_version. cbn [status cv_val].
  replace (status c + lock_mask + 1) with (status c + 1 + lock_mask) by lia. assert (Hw : forall y, 0 <= y < 2 ^ 64 -> u64 y = y) by (intros y Hy; unfold u64; now apply Z.mod_small).
  assert (Hm : lock_mask = 2 ^ 60) by reflexivity. rewrite (Hw (status c + 1 + lock_mask)) by lia.
  rewrite (proj1 (Hv _ L2)), (proj1 (Hv _ M2)), L3, M3, (Hw (status c + 1)), Z.eqb_refl by lia. cbn. unfold cv_unlock. cbn [status cv_val]. now rewrite (proj2 (Hv _ M2)), M1.
Qed.

Lemma update_val_spec (n : @Node V) kl k c kr nx val : leaf (data_of n) (kl ++ (k, c) :: kr) nx -> 0 <= status c < 2 ^ 60 - 1 ->
  exists n', update_val (length kl) val n = Ok n' /\ same_frame n n' /\ leaf (data_of n') (kl ++ (k, mkCV val (status c + 1)) :: kr) nx.
Proof.
  intros Hl Hc. destruct (lf_part _ _ _ Hl) as (vs & Hp & Hlv & Hvs). cbn in Hp. pose proof (lf_kvs _ _ _ Hl) as Hn. rewrite length_app in Hn. pose proof (lf_n _ _ _ Hl) as Hcap. cbn in Hn, Hcap.
  assert (Hk : (kl ++ (k, c) :: kr) !! length kl = Some (k, c)) by now apply list_lookup_middle.
  unfold update_val, vals. rewrite Hp. cbn. rewrite (aget_Ok _ _ _ (Hvs _ _ Hk)). cbn. rewrite (cv_update_ok val c Hc). cbn.
  destruct (aset_Ok vs (length kl) (mkCV val (status c + 1))) as (vs' & -> & Lv & Gv); [rewrite Hlv; change node_capacity with 15%nat; lia|]. cbn. unfold set_vals, next. rewrite Hp. cbn.
  eexists; split; [reflexivity|]. split; [split; reflexivity|]. constructor; cbn; [apply Hl|apply Hl| |rewrite length_app; cbn; lia|exact Hcap|].
  - exists vs'. split; [reflexivity|]. split; [now rewrite Lv|]. intros i kv. rewrite lookup_put, Gv. repeat case_decide; try lia; [|now intros [= <-]|].
    + intros Hi. apply (Hvs i). now rewrite lookup_put, decide_True.
    + intros Hi. apply (Hvs i). now rewrite lookup_put, decide_False, decide_False.
  - intros i kv. rewrite lookup_put. repeat case_decide; try lia; intros Hi.
    + apply (lf_keys _ _ _ Hl i). now rewrite lookup_put, decide_True.
    + injection Hi as <-. exact (lf_keys _ _ _ Hl i (k, c) ltac:(now rewrite lookup_put, decide_False, decide_True)).
    + apply (lf_keys _ _ _ Hl i). now rewrite lookup_put, decide_False, decide_False.
Qed.

(** ** Operations on the leaf of a key *)

(** [m] is [A ++ B], [A] the pairs in front of [key]. *)
Record at_key (key : Z) (m A B : list (Z * @ConcurrentVal V)) : Prop := {
  ak_split : m = A ++ B;
  ak_left : Forall (fun kv => kv.1 < key) A;
  ak_right : Forall (fun kv => key <= kv.1) B
}.

Definition versions_ok (m : list (Z * @ConcurrentVal V)) : Prop := Forall (fun kv => 0 <= status kv.2 < 2 ^ 60 - 1) m.

(** A new pair list for the contents of a located leaf. *)
Lemma contents_app (l r : leaves_of V) x : contents (l ++ x :: r) = contents l ++ x.2 ++ contents r.
Proof. unfold contents. now rewrite map_app, concat_app. Qed.

Lemma located_at_key (s : @CMap V) lvs ls key l x r kl kr : tree_ok s lvs ls -> lvs = l ++ x :: r -> located key x.1 (map fst r) -> x.2 = kl ++ kr ->
  Forall (fun kv => kv.1 < key) kl -> Forall (fun kv => key <= kv.1) kr -> at_key key (contents lvs) (contents l ++ kl) (kr ++ contents r).
Proof.
  intros Hok E [Hf Hb] Hx Hkl Hkr. constructor.
  - rewrite E, contents_app, Hx, <- !app_assoc. reflexivity.
  - apply Forall_app. split; [exact (contents_left _ _ _ Hok _ _ _ _ E Hf)|exact Hkl].
  - apply Forall_app. split; [exact Hkr|]. apply (Forall_impl _ _ _ (contents_right _ _ _ Hok _ _ _ _ E Hb)). intros kv Hkv. cbn. lia.
Qed.

(** The leaf of [key], locked, and the place of [key] in it. *)
Record leaf_found (s : @CMap V) (lvs : leaves_of V) (ls : levels) (key : Z) (l : leaves_of V) (x : entry * list (Z * @ConcurrentVal V)) (r : leaves_of V) (kl kr : list (Z * @ConcurrentVal V)) (s1 : @CMap V) : Prop := {
  fo_ok : tree_ok s lvs ls;
  fo_lvs : lvs = l ++ x :: r;
  fo_loc : located key x.1 (map fst r);
  fo_x : x.2 = kl ++ kr;
  fo_at : at_key key (contents lvs) (contents l ++ kl) (kr ++ contents r);
  fo_sort : StronglySorted Z.lt (map fst kl ++ map fst kr);
  fo_run : locate_leaf_locked key s = Ok (x.1.2, s1);
  fo_shows : shows s1 (base s) (data (nodes s)) (parv (nodes s)) (upd (lockv (nodes s)) x.1.2 1);
  fo_node : forall n, data (nodes s) x.1.2 = Some (data_of n) -> leaf (data_of n) (kl ++ kr) ((fun y => y.1.2) <$> head r) /\
    find_first_larger_than_or_equal_to key n = Ok (length kl) /\
    has_key (length kl) key n = Ok (match kr with kv :: _ => kv.1 =? key | [] => false end)
}.

Lemma find_leaf (s : @CMap V) lvs ls key : tree_ok s lvs ls -> exists l x r kl kr s1, leaf_found s lvs ls key l x r kl kr s1.
Proof.
  intros Hok. destruct (locate_locked_spec s lvs ls key Hok) as (l & x & r & n & s1 & E & Hloc & Hn & Hleaf & Hrun & Hs1).
  pose proof (leaf_sorted _ _ _ Hok _ _ _ E) as Hsort. destruct (leaf_search n x.2 _ key Hleaf Hsort) as (kl & kr & Hx & Hfind & Hkl & Hkr & Hhas).
  exists l, x, r, kl, kr, s1. constructor; try assumption; [exact (located_at_key _ _ _ _ _ _ _ _ _ Hok E Hloc Hx Hkl Hkr)|now rewrite Hx, map_app in Hsort|].
  intros n1 Hn1. rewrite (data_lookup _ _ _ Hn) in Hn1. pose proof (inj Some _ _ Hn1) as Hd. injection Hn1 as E1 E2 E3 E4. rewrite Hx, Hd in Hleaf. split; [exact Hleaf|].
  unfold find_first_larger_than_or_equal_to, has_key in *. rewrite <- E2, <- E3. now split.
Qed.

Section Found.
Context (s : @CMap V) (lvs : leaves_of V) (ls : levels) (key : Z) (l : leaves_of V) (x : entry * list (Z * @ConcurrentVal V)) (r : leaves_of V) (kl kr : list (Z * @ConcurrentVal V)) (s1 : @CMap V).
Context (Hfo : leaf_found s lvs ls key l x r kl kr s1).
Abbreviation p := (x.1.2).

Lemma found_lock : is_Some (upd (lockv (nodes s)) p 1 p).
Proof. rewrite upd_eq. eauto. Qed.

(** The first statements after the leaf is locked. *)
Lemma wp_found {A} (f : Node -> nat -> bool -> @cm V A) Q :
  (forall n, data (nodes s) p = Some (data_of n) -> wp (f n (length kl) (match kr with kv :: _ => kv.1 =? key | [] => false end)) Q s1) ->
  wp (n ← load p; slot ← cm_lift (find_first_larger_than_or_equal_to key n); b ← cm_lift (has_key slot key n); f n slot b) Q s1.
Proof.
  intros H. apply wp_bind, (wp_load _ _ _ _ _ (fo_shows _ _ _ _ _ _ _ _ _ _ Hfo) _ _ found_lock). intros n Hn _ _.
  destruct (fo_node _ _ _ _ _ _ _ _ _ _ Hfo n Hn) as (_ & Hfind & Hhas). apply wp_bind, (wp_lift _ _ _ _ Hfind). apply wp_bind, (wp_lift _ _ _ _ Hhas). now apply H.
Qed.

(** The key is there, and its value is replaced. *)
Lemma wp_hit c kr' val Q : kr = (key, c) :: kr' -> 0 <= status c < 2 ^ 60 - 1 ->
  (forall d s2, leaf d (kl ++ (key, mkCV val (status c + 1)) :: kr') ((fun y => y.1.2) <$> head r) ->
     shows s2 (base s) (upd (data (nodes s)) p d) (parv (nodes s)) (upd (lockv (nodes s)) p 1) -> Q tt s2) ->
  wp (update_node p (update_val (length kl) val)) Q s1.
Proof.
  intros Hkr Hc HQ. apply (wp_contents _ _ _ _ _ (fo_shows _ _ _ _ _ _ _ _ _ _ Hfo) _ _ _ found_lock). intros n Hn.
  destruct (fo_node _ _ _ _ _ _ _ _ _ _ Hfo n Hn) as (Hleaf & _ & _). rewrite Hkr in Hleaf.
  destruct (update_val_spec n kl key c kr' _ val Hleaf Hc) as (n3 & -> & Hfr & Hl3). eexists; split; [reflexivity|]. split; [exact Hfr|]. intros s2 Hs2. exact (HQ _ _ Hl3 Hs2).
Qed.

Lemma hit_key c kr' : kr = (key, c) :: kr' -> versions_ok (contents lvs) -> 0 <= status c < 2 ^ 60 - 1.
Proof.
  intros Hkr Hv. unfold versions_ok in Hv. rewrite Forall_forall in Hv. apply (Hv (key, c)). rewrite (ak_split _ _ _ _ (fo_at _ _ _ _ _ _ _ _ _ _ Hfo)), Hkr. elem.
Qed.

Lemma miss_key : match kr with kv :: _ => kv.1 =? key | [] => false end = false -> forall kv B, kr ++ contents r = kv :: B -> key < kv.1.
Proof.
  intros Hb kv B HB. destruct kr as [|kv' kr'].
  - pose proof (contents_right _ _ _ (fo_ok _ _ _ _ _ _ _ _ _ _ Hfo) _ _ _ _ (fo_lvs _ _ _ _ _ _ _ _ _ _ Hfo) (proj2 (fo_loc _ _ _ _ _ _ _ _ _ _ Hfo))) as Hgt.
    cbn in HB. rewrite HB in Hgt. now apply Forall_cons in Hgt as [Hgt _].
  - injection HB as <- _. apply Z.eqb_neq in Hb. pose proof (ak_right _ _ _ _ (fo_at _ _ _ _ _ _ _ _ _ _ Hfo)) as Hge. apply Forall_cons in Hge as [Hge _]. cbn in *. lia.
Qed.

(** The leaf holds [kvs] now, and the lock is released. *)
Lemma found_replaced d kvs s3 sz : leaf d kvs ((fun y => y.1.2) <$> head r) -> StronglySorted Z.lt (map fst kvs) ->
  (forall k, k ∈ map fst kvs -> k ∈ map fst (kl ++ kr) \/ k = key) -> (ls <> [] -> kvs <> []) ->
  shows s3 (mkBase (root s) (begin s) sz (allocated_blocks s) (next_node_i s)) (upd (data (nodes s)) p d) (parv (nodes s)) (upd (upd (lockv (nodes s)) p 1) p 0) ->
  tree_ok s3 (l ++ (x.1, kvs) :: r) ls.
Proof.
  intros Hl Hs Hk Hne Hs3. destruct Hfo as [Hok E Hloc Hx _ _ _ _ _]. apply (leaf_replaced s lvs ls Hok key l r x E Hloc s3 sz d); try assumption. now rewrite Hx.
Qed.

Lemma hit_replaced d c kr' val s3 : kr = (key, c) :: kr' -> leaf d (kl ++ (key, mkCV val (status c + 1)) :: kr') ((fun y => y.1.2) <$> head r) ->
  shows s3 (base s) (upd (data (nodes s)) p d) (parv (nodes s)) (upd (upd (lockv (nodes s)) p 1) p 0) ->
  tree_ok s3 (l ++ (x.1, kl ++ (key, mkCV val (status c + 1)) :: kr') :: r) ls.
Proof.
  intros Hkr Hl Hs3. pose proof (fo_sort _ _ _ _ _ _ _ _ _ _ Hfo) as Hs. rewrite Hkr in Hs. apply (found_replaced d _ s3 (size_est s)); [exact Hl|now rewrite map_app| |intros _; now destruct kl|exact Hs3].
  intros k Hk. left. rewrite Hkr. rewrite map_app in *. exact Hk.
Qed.
End Found.

Lemma update_spec (s : @CMap V) lvs ls key val : tree_ok s lvs ls -> versions_ok (contents lvs) ->
  exists s' lvs' A B b, cm_update key val s = Ok (b, s') /\ tree_ok s' lvs' ls /\ size_est s' = size_est s /\ at_key key (contents lvs) A B /\
    ((b = true /\ exists c B', B = (key, c) :: B' /\ contents lvs' = A ++ (key, mkCV val (status c + 1)) :: B') \/
     (b = false /\ (forall kv B', B = kv :: B' -> key < kv.1) /\ contents lvs' = A ++ B)).
Proof.
  intros Hok Hv. destruct (find_leaf s lvs ls key Hok) as (l & x & r & kl & kr & s1 & Hfo). pose proof (fo_at _ _ _ _ _ _ _ _ _ _ Hfo) as Hat.
  destruct (match kr with kv :: _ => kv.1 =? key | [] => false end) eqn:Hb.
  - destruct kr as [|[k c] kr]; [discriminate|]. cbn in Hb. apply Z.eqb_eq in Hb as ->.
    assert (Hgoal : wp (cm_update key val) (fun b s' => b = true /\ tree_ok s' (l ++ (x.1, kl ++ (key, mkCV val (status c + 1)) :: kr) :: r) ls /\ size_est s' = size_est s) s).
    { apply wp_bind. exists x.1.2, s1. split; [exact (fo_run _ _ _ _ _ _ _ _ _ _ Hfo)|]. apply (wp_found _ _ _ _ _ _ _ _ _ _ Hfo). intros n _. cbn. rewrite Z.eqb_refl.
      apply wp_bind, (wp_hit _ _ _ _ _ _ _ _ _ _ Hfo c kr val _ eq_refl (hit_key _ _ _ _ _ _ _ _ _ _ Hfo _ _ eq_refl Hv)). intros d s2 Hl Hs2.
      apply wp_bind, (wp_unlock _ _ _ _ _ Hs2); [apply found_lock|]. intros s3 Hs3. apply wp_ret. split; [reflexivity|]. split; [|exact (f_equal b_size (sh_base _ _ _ _ _ Hs3))].
      exact (hit_replaced _ _ _ _ _ _ _ _ _ _ Hfo d c kr val s3 eq_refl Hl Hs3). }
    destruct Hgoal as (b' & s' & Hrun' & -> & Hok' & Hsz). exists s'. eexists. exists (contents l ++ kl), ((key, c) :: kr ++ contents r), true.
    split; [exact Hrun'|]. split; [exact Hok'|]. split; [exact Hsz|]. split; [exact Hat|]. left. split; [reflexivity|]. exists c, (kr ++ contents r).
    split; [reflexivity|]. rewrite contents_app, <- !app_assoc. cbn. now rewrite <- !app_assoc.
  - assert (Hgoal : wp (cm_update key val) (fun b s' => b = false /\ tree_ok s' (l ++ (x.1, kl ++ kr) :: r) ls /\ size_est s' = size_est s) s).
    { apply wp_bind. exists x.1.2, s1. split; [exact (fo_run _ _ _ _ _ _ _ _ _ _ Hfo)|]. apply (wp_found _ _ _ _ _ _ _ _ _ _ Hfo). intros n Hn. rewrite Hb.
      apply wp_bind, wp_ret, wp_bind, (wp_unlock _ _ _ _ _ (fo_shows _ _ _ _ _ _ _ _ _ _ Hfo)); [apply found_lock|]. intros s3 Hs3. apply wp_ret. split; [reflexivity|]. split; [|exact (f_equal b_size (sh_base _ _ _ _ _ Hs3))].
      apply (found_replaced _ _ _ _ _ _ _ _ _ _ Hfo (data_of n) _ s3 (size_est s)); [exact (proj1 (fo_node _ _ _ _ _ _ _ _ _ _ Hfo n Hn))|rewrite map_app; exact (fo_sort _ _ _ _ _ _ _ _ _ _ Hfo)|now left| |].
      - intros Hls. pose proof (t_nonempty _ _ _ Hok Hls) as Hf. rewrite (fo_lvs _ _ _ _ _ _ _ _ _ _ Hfo) in Hf. apply Forall_app in Hf as [_ Hf]. rewrite <- (fo_x _ _ _ _ _ _ _ _ _ _ Hfo). now apply Forall_cons in Hf as [Hf _].
      - apply (shows_ext _ _ _ _ _ _ _ _ Hs3); [|reflexivity|reflexivity]. intros q. symmetry. now apply upd_id. }
    destruct Hgoal as (b' & s' & Hrun' & -> & Hok' & Hsz). exists s'. eexists. exists (contents l ++ kl), (kr ++ contents r), false.
    split; [exact Hrun'|]. split; [exact Hok'|]. split; [exact Hsz|]. split; [exact Hat|]. right. split; [reflexivity|]. split; [exact (miss_key _ _ _ _ _ _ _ _ _ _ Hfo Hb)|].
    rewrite contents_app. cbn [snd]. now rewrite <- !app_assoc.
Qed.

(** ** Splitting a leaf *)

Lemma set_next_spec (n : @Node V) kvs nx y : leaf (data_of n) kvs nx ->
  next n = Ok nx /\ exists n', set_next y n = Ok n' /\ same_frame n n' /\ leaf (data_of n') kvs y.
Proof.
  intros H. destruct (lf_part _ _ _ H) as (vs & Hp & Hl & Hvs). cbn in Hp. unfold next, set_next, vals. rewrite Hp. split; [reflexivity|]. cbn.
  eexists; split; [reflexivity|]. split; [split; reflexivity|]. constructor; cbn; [apply H|apply H| |apply H|apply H|apply H]. exists vs. auto.
Qed.

Lemma blank_leaf_new (n : @Node V) : data_of n = data_of (new_leaf val0) -> blank_leaf (data_of (set_is_leaf true n)) None.
Proof. intros [= E1 E2 E3 E4]. constructor; cbn; [reflexivity|now rewrite E3|rewrite E4; eexists; split; reflexivity]. Qed.

(** [q] pairs stay in the leaf, the others go to the sibling. *)
Lemma wp_split_leaf (s : @CMap V) b D P L p sib kl kr nxp key val n0 ds mid (Q : unit -> CMap -> Prop) :
  shows s b D P L -> D p = Some (data_of n0) -> leaf (data_of n0) (kl ++ kr) nxp -> D sib = Some ds -> blank_leaf ds None -> p <> sib ->
  length (kl ++ kr) = node_capacity -> (1 <= mid <= node_capacity)%nat -> (length kl < mid -> mid < node_capacity)%nat ->
  (forall s' q dn' ds', (1 <= q <= node_capacity)%nat -> leaf dn' (take q (kl ++ (key, mkCV val 0) :: kr)) nxp -> leaf ds' (drop q (kl ++ (key, mkCV val 0) :: kr)) None ->
     shows s' b (upd (upd D sib ds') p dn') P L -> Q tt s') ->
  wp (split_leaf p sib key val (length kl) mid) Q s.
Proof.
  intros Hs Hp Hleaf Hsib Hbl Hne Hfull Hm1 Hm2 HQ.
  assert (HLs : is_Some (L sib)) by exact (shows_data _ _ _ _ _ _ _ Hs Hsib). assert (HLn : is_Some (L p)) by exact (shows_data _ _ _ _ _ _ _ Hs Hp).
  unfold split_leaf. apply wp_bind, (wp_load _ _ _ _ _ Hs); [exact HLn|]. intros n Hn _ _. rewrite Hp in Hn. apply (inj Some) in Hn. rewrite Hn in *. clear n0 Hn.
  assert (Hk : node_capacity = key_n n) by (rewrite <- Hfull; exact (lf_kvs _ _ _ Hleaf)).
  destruct (Nat.leb_spec mid (length kl)) as [Hms|Hms].
  - apply wp_bind, (wp_contents _ _ _ _ _ Hs); [exact HLs|]. intros m Hm. rewrite Hsib in Hm. apply (inj Some) in Hm as ->.
    destruct (leaf_to_sibling_spec n m kl kr nxp None key val mid Hleaf Hbl Hms (proj1 Hm1)) as (m' & -> & Hfr & Hin). eexists; split; [reflexivity|]. split; [exact Hfr|]. intros s1 Hs1.
    apply (wp_modify _ _ _ _ _ Hs1); [exact HLn|now intros|]. intros n1 Hn1 s2 Hs2. rewrite upd_ne, Hp in Hn1 by exact Hne. apply (inj Some) in Hn1. rewrite Hn1 in Hleaf.
    refine (HQ s2 mid _ _ Hm1 _ Hin Hs2). replace (take mid (kl ++ (key, mkCV val 0) :: kr)) with (take mid (kl ++ kr)) by (rewrite !take_app_le by lia; reflexivity).
    apply leaf_take; [exact Hleaf|]. injection Hn1 as _ <- _ _. rewrite <- Hk. exact (proj2 Hm1).
  - specialize (Hm2 Hms). apply wp_bind, (wp_contents _ _ _ _ _ Hs); [exact HLs|]. intros m Hm. rewrite Hsib in Hm. apply (inj Some) in Hm as ->.
    destruct (leaf_tail_spec n m kl kr nxp None (key, mkCV val 0) mid Hleaf Hbl) as (m' & -> & Hfr & Hin); [lia|]. eexists; split; [reflexivity|]. split; [exact Hfr|]. intros s1 Hs1.
    apply wp_bind, (wp_contents _ _ _ _ _ Hs1); [exact HLn|]. intros n1 Hn1. rewrite upd_ne, Hp in Hn1 by exact Hne. apply (inj Some) in Hn1. rewrite Hn1 in Hleaf.
    destruct (leaf_put_spec n1 kl kr nxp key val mid Hleaf) as (n2 & -> & Hfr2 & _ & Hin2); [injection Hn1 as _ <- _ _; lia|exact Hm2|]. eexists; split; [reflexivity|]. split; [exact Hfr2|]. intros s2 Hs2.
    apply (wp_modify _ _ _ _ _ Hs2); [exact HLn|now intros|]. intros n3 Hn3 s3 Hs3. rewrite upd_eq in Hn3. apply (inj Some) in Hn3.
    refine (HQ s3 (mid + 1)%nat (data_of (set_key_n (mid + 1) n2)) _ _ Hin2 Hin _); [lia|].
    apply (shows_ext _ _ _ _ _ _ _ _ Hs3); [|reflexivity|reflexivity]. intros y. unfold upd. repeat case_decide; try reflexivity.
    f_equal. injection Hn3 as F1 F2 F3 F4. unfold data_of. cbn. congruence.
Qed.

Lemma leaf_mid slot : (slot <= 15)%nat ->
  let mid := (if slot =? 15 then 15 else if (15 / 2 <=? slot) && (15 / 2 <? 15 - 15 / 2) then 15 / 2 + 1 else 15 / 2)%nat in
  (1 <= mid <= 15)%nat /\ (slot < mid -> mid < 15)%nat.
Proof.
  intros H. do 16 (destruct slot as [|slot]; [cbn; lia|]). lia.
Qed.

(** The assertions on the two leaves. *)
Lemma wp_assert_leaves (s : @CMap V) b D P L p sib K q dn ds nx1 nx2 (Q : Z -> CMap -> Prop) : shows s b D P L -> D p = Some dn -> D sib = Some ds ->
  leaf dn (take q K) nx1 -> leaf ds (drop q K) nx2 -> L p = Some 1 -> L sib = Some 1 -> length K = alt_buf_fanout -> (1 <= q <= node_capacity)%nat ->
  StronglySorted Z.lt (map fst K) -> (forall kv, K !! q = Some kv -> Q kv.1 s) -> wp (assert_leaves p sib) Q s.
Proof.
  intros Hs Hp Hsb Hl1 Hl2 HLp HLs HK Hq Hsort HQ. change node_capacity with 15%nat in *. change alt_buf_fanout with 16%nat in *.
  assert (Hdata : forall y d, D y = Some d -> exists n, nodes s !! y = Some n /\ data_of n = d).
  { intros y d Hy. rewrite <- (sh_data _ _ _ _ _ Hs) in Hy. now apply data_Some. }
  destruct (Hdata _ _ Hp) as (n & Hn & <-), (Hdata _ _ Hsb) as (m & Hm & <-).
  pose proof (lf_leaf _ _ _ Hl1) as F1. pose proof (lf_leaf _ _ _ Hl2) as F2. cbn in F1, F2.
  assert (HL : locked n = 1 /\ locked m = 1). { rewrite <- (sh_lock _ _ _ _ _ Hs) in HLp, HLs. unfold lockv in *. rewrite Hn in HLp. rewrite Hm in HLs. cbn in *. split; congruence. }
  destruct HL as [HL1 HL2]. pose proof (lf_kvs _ _ _ Hl1) as K1. pose proof (lf_kvs _ _ _ Hl2) as K2. cbn in K1, K2. rewrite length_take in K1. rewrite length_drop in K2.
  pose proof (ks_leaf _ _ _ Hl1) as S1. pose proof (ks_leaf _ _ _ Hl2) as S2.
  assert (Hso : StronglySorted Z.lt (map fst (take q K)) /\ StronglySorted Z.lt (map fst (drop q K)) /\ forall a c, a ∈ map fst (take q K) -> c ∈ map fst (drop q K) -> a < c).
  { rewrite <- (take_drop q K), map_app in Hsort. now apply sorted_app in Hsort. }
  destruct Hso as (So1 & So2 & So3). destruct (last_key_ok n) as (a & Ea & Ha); [pose proof (lf_len _ _ _ Hl1) as Hln; cbn in Hln; rewrite Hln; change node_capacity with 15%nat; lia|].
  destruct (lookup_lt_is_Some_2 K q) as [kv Hkv]; [lia|]. assert (Hfst : keys m !! O = Some kv.1) by (apply (lf_keys _ _ _ Hl2 O); now rewrite lookup_drop, Nat.add_0_r).
  assert (Hak : a < kv.1). { apply So3; [now rewrite <- S1|]. apply (list_elem_of_fmap_2 fst). apply list_elem_of_lookup. exists O. now rewrite lookup_drop, Nat.add_0_r. }
  apply wp_bind, (wp_run _ m); [unfold load; now rewrite Hm|]. apply wp_bind, (wp_run _ n); [unfold load; now rewrite Hn|].
  rewrite F1, F2, HL1, HL2. do 4 (apply wp_bind, wp_assert; [reflexivity|]). apply wp_bind, wp_assert; [apply Nat.eqb_eq; change alt_buf_fanout with 16%nat; lia|].
  apply wp_bind, (wp_lift _ kv.1); [now apply aget_Ok|]. apply wp_bind, (wp_lift _ a); [exact Ea|]. apply wp_bind, wp_assert; [now apply Z.ltb_lt|].
  rewrite <- S1 in So1. rewrite <- S2 in So2.
  apply wp_bind, (wp_run _ tt); [exact (sorted_keys_ascend s p n Hn (lf_len _ _ _ Hl1) (lf_n _ _ _ Hl1) So1)|].
  apply wp_bind, (wp_run _ tt); [exact (sorted_keys_ascend s sib m Hm (lf_len _ _ _ Hl2) (lf_n _ _ _ Hl2) So2)|]. apply wp_ret. now apply HQ.
Qed.

(** ** Inserting into a full leaf *)

Lemma tree_ok_size (s s' : @CMap V) lvs ls : root s' = root s -> allocated_blocks s' = allocated_blocks s -> next_node_i s' = next_node_i s -> nodes s' = nodes s ->
  tree_ok s lvs ls -> tree_ok s' lvs ls.
Proof. intros E1 E2 E3 E4 [H1 H2 H3 H4 H5 H6 H7 H8]. constructor; rewrite ?E1, ?E2, ?E3, ?E4; assumption. Qed.

Lemma sorted_put key (kl kr : list (Z * @ConcurrentVal V)) c : StronglySorted Z.lt (map fst kl ++ map fst kr) -> Forall (fun kv => kv.1 < key) kl -> Forall (fun kv => key < kv.1) kr ->
  StronglySorted Z.lt (map fst (kl ++ (key, c) :: kr)).
Proof.
  intros Hs Hl Hr. apply sorted_app in Hs as (H1 & H2 & H3). rewrite map_app. cbn. rewrite Forall_forall in Hl, Hr. apply sorted_app. split; [exact H1|]. split.
  - constructor; [exact H2|]. apply Forall_forall. intros k (kv & -> & Hkv)%list_elem_of_fmap. now apply Hr.
  - intros a b Ha [->|Hb]%elem_of_cons; [|now apply H3]. apply list_elem_of_fmap in Ha as (kv & -> & Hkv). now apply Hl.
Qed.

Lemma leaf_filled (h : gmap ptr (@Node V)) e d kvs nx : data h e.2 = Some d -> leaf d kvs nx -> kvs <> [] -> filled h e.
Proof.
  intros Hd Hl Hne. exists d. split; [exact Hd|]. pose proof (lf_n _ _ _ Hl). rewrite (lf_len _ _ _ Hl), <- (lf_kvs _ _ _ Hl). split; [destruct kvs; [done|cbn; lia]|].
  now rewrite (lf_kvs _ _ _ Hl).
Qed.

Section Full.
Context (s : @CMap V) (lvs : leaves_of V) (ls : levels) (key : Z) (l : leaves_of V) (x : entry * list (Z * @ConcurrentVal V)) (r : leaves_of V).
Context (kl kr : list (Z * @ConcurrentVal V)) (s1 : @CMap V) (Hfo : leaf_found s lvs ls key l x r kl kr s1).
Context (val : V) (Hgt : Forall (fun kv => key < kv.1) kr).
Abbreviation p := (x.1.2).
Abbreviation nx := (next_node_i s).
Abbreviation K := (kl ++ (key, mkCV val 0) :: kr).

Lemma K_sorted : StronglySorted Z.lt (map fst K).
Proof.
  apply sorted_put; [exact (fo_sort _ _ _ _ _ _ _ _ _ _ Hfo)| |exact Hgt]. pose proof (ak_left _ _ _ _ (fo_at _ _ _ _ _ _ _ _ _ _ Hfo)) as Hl. now apply Forall_app in Hl as [_ Hl].
Qed.

Lemma K_keys k : k ∈ map fst K -> k ∈ map fst x.2 \/ k = key.
Proof. rewrite (fo_x _ _ _ _ _ _ _ _ _ _ Hfo), !map_app. cbn. intros [Hk|[->|Hk]%elem_of_cons]%elem_of_app; [left; elem|now right|left; elem]. Qed.

(** Both halves are in place, their locks still held. *)
Section Halves.
Context (s6 : @CMap V) (q : nat) (sk : Z) (cs : @ConcurrentVal V) (dn ds : @Data V).
Context (Hfull : length (kl ++ kr) = node_capacity) (Hq : (1 <= q <= node_capacity)%nat).
Context (Hdn : leaf dn (take q K) (Some nx)) (Hds : leaf ds (drop q K) ((fun y => y.1.2) <$> head r)) (Hsk : K !! q = Some (sk, cs)).
Context (Hs6 : shows s6 (allocated (base s)) (upd (upd (data (nodes s)) nx ds) p dn) (upd (parv (nodes s)) nx None) (upd (upd (lockv (nodes s)) p 1) nx 1)).
Abbreviation lvs2 := (l ++ (x.1, take q K) :: ((Some sk, nx), drop q K) :: r).

Lemma half_facts : (p < nx)%nat /\ (p ∉ tower_ptrs ls) /\ (forall y, y ∈ l ++ r -> y.1.2 <> p /\ (y.1.2 < nx)%nat) /\ (forall z, z ∈ tower_ptrs ls -> (z < nx)%nat).
Proof.
  destruct Hfo as [Hok E _ _ _ _ _ _ _]. destruct (leaf_ne s lvs ls Hok l r x E) as [Hnt Hny].
  assert (Hlt : forall y, y ∈ lvs -> (y.1.2 < nx)%nat).
  { intros y (a & c & Ey)%list_elem_of_split. destruct (leaf_node _ _ _ Hok _ _ _ Ey) as (n & Hn & _). apply (t_dom _ _ _ Hok). eauto. }
  split; [apply Hlt; rewrite E; elem|]. split; [exact Hnt|]. split.
  - intros y Hy. split; [now apply Hny|]. apply Hlt. rewrite E. apply elem_of_app in Hy as [Hy|Hy]; elem.
  - intros z Hz. apply (t_dom _ _ _ Hok). exact (tower_nodes _ _ _ _ _ (t_tower _ _ _ Hok) Hz).
Qed.

Lemma half_data : data (nodes s6) p = Some dn /\ data (nodes s6) nx = Some ds /\ forall y, y ∈ l ++ r -> data (nodes s6) y.1.2 = data (nodes s) y.1.2.
Proof.
  destruct half_facts as (Hp & _ & Hy & _). rewrite !(sh_data _ _ _ _ _ Hs6). split; [apply upd_eq|]. split; [rewrite upd_ne by lia; apply upd_eq|].
  intros y Hin. destruct (Hy y Hin). rewrite (sh_data _ _ _ _ _ Hs6), !upd_ne by lia. reflexivity.
Qed.

Lemma half_ordered : ordered (nodes s6) (map fst l ++ [x.1; (Some sk, nx)] ++ map fst r).
Proof.
  destruct half_data as (Hp & Hn & Hy). pose proof K_sorted as Hso. rewrite <- (take_drop q K), map_app in Hso. apply sorted_app in Hso as (S1 & S2 & S3).
  assert (Hk1 : ks_at (nodes s6) p = map fst (take q K)) by (rewrite (ks_at_data _ _ _ Hp); exact (ks_leaf _ _ _ Hdn)).
  assert (Hk2 : ks_at (nodes s6) nx = map fst (drop q K)) by (rewrite (ks_at_data _ _ _ Hn); exact (ks_leaf _ _ _ Hds)).
  assert (Hsub : forall k, k ∈ map fst (take q K) \/ k ∈ map fst (drop q K) -> k ∈ map fst x.2 \/ k = key).
  { intros k Hk. apply K_keys. rewrite <- (take_drop q K), map_app. apply elem_of_app. exact Hk. }
  assert (Hin : sk ∈ map fst (drop q K)) by (apply (list_elem_of_fmap_2 fst _ (sk, cs)), list_elem_of_lookup; exists O; now rewrite lookup_drop, Nat.add_0_r).
  pose proof (leaf_range s lvs ls (fo_ok _ _ _ _ _ _ _ _ _ _ Hfo) key l r x (fo_lvs _ _ _ _ _ _ _ _ _ _ Hfo) (fo_loc _ _ _ _ _ _ _ _ _ _ Hfo)) as Hrange.
  assert (Hlow : olt x.1.1 (Some sk)).
  { destruct (lookup_lt_is_Some_2 K 0) as [kv Hkv]; [rewrite length_app; cbn; lia|]. assert (Hk : kv.1 ∈ map fst (take q K)).
    { apply (list_elem_of_fmap_2 fst), list_elem_of_lookup. exists O. rewrite lookup_take_lt by lia. exact Hkv. }
    specialize (S3 _ _ Hk Hin). destruct (Hrange kv.1 (Hsub _ (or_introl Hk))) as [Hf _]. destruct x.1.1; cbn in *; [lia|exact I]. }
  apply (ordered_replace (nodes s) _ _ x.1 _ [x.1; (Some sk, nx)]).
  - pose proof (t_ordered _ _ _ (fo_ok _ _ _ _ _ _ _ _ _ _ Hfo)) as Ho. now rewrite (fo_lvs _ _ _ _ _ _ _ _ _ _ Hfo), map_app in Ho.
  - intros e' He'. rewrite <- map_app in He'. apply list_elem_of_fmap in He' as (y & -> & Hin'). unfold ks_at. now rewrite (Hy y Hin').
  - constructor.
    + repeat apply Forall_cons_2; [rewrite Hk1; split; [exact S1|]|cbn; rewrite Hk2; split; [exact S2|]|apply Forall_nil_2]; apply Forall_forall; intros k Hk.
      * apply Hrange, Hsub. now left.
      * cbn. rewrite (drop_S _ _ _ Hsk) in Hk, S2. cbn in Hk, S2. apply StronglySorted_inv in S2 as [_ S2]. rewrite Forall_forall in S2.
        apply elem_of_cons in Hk as [->|Hk]; [lia|]. specialize (S2 k Hk). lia.
    + constructor; [repeat constructor|]. apply Forall_singleton. split; [exact Hlow|]. rewrite Hk1. apply Forall_forall. intros k Hk. exact (S3 k sk Hk Hin).
  - intros f [->|Hf]%elem_of_cons; [|apply list_elem_of_singleton in Hf as ->].
    + split; [now left|]. intros e' He'. split; [now apply (Hrange key); [right|]|]. rewrite Hk1. apply Forall_forall. intros k Hk. now apply (Hrange k); [apply Hsub; left|].
    + split; [now right|]. intros e' He'. split; [exact (proj2 (proj2 (Hrange sk (Hsub sk (or_intror Hin))) e' He'))|]. cbn. rewrite Hk2. apply Forall_forall. intros k Hk. now apply (Hrange k); [apply Hsub; right|].
Qed.

(** The leaf entries of the new level are [map fst lvs2]. *)
Lemma half_entries : map fst lvs2 = map fst l ++ x.1 :: (Some sk, nx) :: map fst r.
Proof. now rewrite map_app. Qed.

Lemma halves_nonempty : take q K <> [] /\ drop q K <> [].
Proof.
  split; [|now rewrite (drop_S _ _ _ Hsk)]. intros E. apply (f_equal length) in E. rewrite length_take, length_app in E. rewrite length_app in Hfull. cbn in E.
  change node_capacity with 15%nat in *. lia.
Qed.

Lemma lvs2_leaves i e kvs : lvs2 !! i = Some (e, kvs) -> exists d, data (nodes s6) e.2 = Some d /\ leaf d kvs ((fun y => y.1.2) <$> lvs2 !! S i).
Proof.
  destruct half_data as (Hp & Hn & Hy). pose proof (t_leaves _ _ _ (fo_ok _ _ _ _ _ _ _ _ _ _ Hfo)) as Hlv. rewrite (fo_lvs _ _ _ _ _ _ _ _ _ _ Hfo) in Hlv.
  destruct (decide (i < length l)%nat) as [Hlt|Hge].
  - rewrite lookup_app_l by exact Hlt. intros Hi. destruct (Hlv i e kvs) as (d & Hd & Hl); [now rewrite lookup_app_l|]. exists d.
    split; [change e with (fst (e, kvs)); rewrite Hy; [exact Hd|apply list_elem_of_lookup_2 in Hi; elem]|].
    destruct (decide (S i < length l)%nat); [rewrite !lookup_app_l in * by assumption; exact Hl|]. rewrite !lookup_app_r in * by lia. replace (S i - length l)%nat with O in * by lia. exact Hl.
  - rewrite lookup_app_r by lia. rewrite (lookup_app_r l _ (S i)) by lia. replace (S i - length l)%nat with (S (i - length l)) by lia.
    destruct (i - length l)%nat as [|[|j]] eqn:Hj; cbn.
    + intros [= <- <-]. exists dn. split; [exact Hp|exact Hdn].
    + intros [= <- <-]. exists ds. split; [exact Hn|]. now destruct r.
    + intros Hi. destruct (Hlv (i - 1)%nat e kvs) as (d & Hd & Hl).
      { rewrite lookup_app_r by lia. now replace (i - 1 - length l)%nat with (S j) by lia. }
      exists d. split; [change e with (fst (e, kvs)); rewrite Hy; [exact Hd|apply list_elem_of_lookup_2 in Hi; elem]|].
      rewrite lookup_app_r in Hl by lia. now replace (S (i - 1) - length l)%nat with (S (S j)) in Hl by lia.
Qed.

Lemma lvs2_nonempty : Forall (fun y => y.2 <> []) lvs2.
Proof.
  destruct halves_nonempty as [H1 H2]. pose proof (fo_ok _ _ _ _ _ _ _ _ _ _ Hfo) as Hok. pose proof (fo_lvs _ _ _ _ _ _ _ _ _ _ Hfo) as E.
  assert (Hlr : Forall (fun y => y.2 <> []) l /\ Forall (fun y => y.2 <> []) r).
  { destruct (decide (ls = [])) as [Hls|Hls].
    - pose proof (t_tower _ _ _ Hok) as Ht. rewrite Hls, E, map_app in Ht. destruct Ht as [Ht _]. destruct l as [|? [|]]; [|discriminate..]. cbn in Ht. injection Ht as _ Hr.
      apply map_eq_nil in Hr. rewrite Hr. split; constructor.
    - pose proof (t_nonempty _ _ _ Hok Hls) as Hf. rewrite E in Hf. apply Forall_app in Hf as [Hf1 Hf2]. apply Forall_cons in Hf2 as [_ Hf2]. now split. }
  destruct Hlr as [Hl Hr]. apply Forall_app. split; [exact Hl|]. now repeat apply Forall_cons_2.
Qed.

Lemma half_filled : Forall (filled (nodes s6)) (map fst lvs2).
Proof.
  apply Forall_fmap, Forall_lookup. intros i [e kvs] Hi. destruct (lvs2_leaves i e kvs Hi) as (d & Hd & Hl). apply (leaf_filled _ _ _ _ _ Hd Hl).
  exact (proj1 (Forall_lookup _ _) lvs2_nonempty _ _ Hi).
Qed.

Lemma half_ready : split_ready s6 (map fst l) x.1 (Some sk, nx) (map fst r) ls.
Proof.
  destruct half_facts as (Hp & Hnt & Hny & Htw). pose proof (fo_ok _ _ _ _ _ _ _ _ _ _ Hfo) as Hok. pose proof (fo_lvs _ _ _ _ _ _ _ _ _ _ Hfo) as E.
  pose proof (sh_base _ _ _ _ _ Hs6) as Hb. unfold allocated, base in Hb. cbn in Hb. injection Hb as B1 B2 B3 B4 B5.
  constructor; rewrite <- ?half_entries.
  - rewrite B1. pose proof (t_tower _ _ _ Hok) as Ht. rewrite E, map_app in Ht. apply (tower_frame (nodes s)); [| |exact Ht].
    + intros z Hz. specialize (Htw z Hz). rewrite (sh_data _ _ _ _ _ Hs6), !upd_ne; [reflexivity|lia|]. intros ->. now apply Hnt.
    + intros z Hz. rewrite (sh_par _ _ _ _ _ Hs6). apply upd_ne. apply elem_of_app in Hz as [Hz|Hz]; [|specialize (Htw z Hz); lia].
      rewrite map_app in Hz. apply elem_of_app in Hz as [Hz|[->|Hz]%elem_of_cons]; [|cbn; lia|]; apply list_elem_of_fmap in Hz as (e' & -> & He'); apply list_elem_of_fmap in He' as (y & -> & Hy);
        destruct (Hny y ltac:(elem)); cbn; lia.
  - rewrite half_entries. exact half_ordered.
  - exact half_filled.
  - pose proof (leaf_ptrs s lvs ls Hok l r x E) as Hnd. rewrite half_entries, map_app. cbn. apply (NoDup_Permutation_proper _ (nx :: map snd (map fst l) ++ p :: map snd (map fst r) ++ tower_ptrs ls)); [solve_Permutation|].
    apply NoDup_cons. split; [|exact Hnd]. intros [Hc|[Hc|[Hc|Hc]%elem_of_app]%elem_of_cons]%elem_of_app; [|lia| |specialize (Htw _ Hc); lia];
      apply list_elem_of_fmap in Hc as (e' & Hc & He'); apply list_elem_of_fmap in He' as (y & -> & Hy); destruct (Hny y ltac:(elem)); lia.
  - apply (shows_dom _ _ _ _ _ (S nx) Hs6); [reflexivity|]. intros z. unfold upd. repeat case_decide; [split; [lia|eauto]..|]. rewrite lockv_Some, (t_dom _ _ _ Hok). lia.
  - intros z n Hz. pose proof (sh_lock _ _ _ _ _ Hs6 z) as HL. unfold lockv in HL. rewrite Hz in HL. cbn in HL |- *. unfold upd in HL. revert HL.
    repeat case_decide; intros HL; try (injection HL as ->); try reflexivity; try (exfalso; tauto).
    symmetry in HL. apply fmap_Some in HL as (m & Hm & ->). exact (t_unlocked _ _ _ Hok _ _ Hm).
  - unfold blocks_ok. rewrite (sh_base _ _ _ _ _ Hs6). reflexivity.
Qed.

Lemma half_done s7 ls7 : split_done s6 (map fst lvs2) ls s7 ls7 -> tree_ok s7 lvs2 ls7.
Proof.
  intros Hd. pose proof half_ready as Hr. pose proof (sh_base _ _ _ _ _ Hs6) as Hb. unfold allocated, base in Hb. cbn in Hb. injection Hb as B1 B2 B3 B4 B5.
  assert (Hsame : forall e, e ∈ map fst lvs2 -> data (nodes s7) e.2 = data (nodes s6) e.2).
  { intros e He. rewrite half_entries in He. apply (list_elem_of_fmap_2 snd) in He. apply (sd_data _ _ _ _ _ Hd).
    - apply (ready_nodes _ _ _ _ _ _ _ Hr). elem.
    - pose proof (rd_distinct _ _ _ _ _ _ Hr) as Hnd. apply NoDup_app in Hnd as (_ & Hdis & _). exact (Hdis _ He). }
  constructor.
  - intros i e kvs Hi. destruct (lvs2_leaves i e kvs Hi) as (d & Hdd & Hl). exists d. split; [|exact Hl]. rewrite Hsame; [exact Hdd|].
    apply list_elem_of_lookup_2, (list_elem_of_fmap_2 fst) in Hi. exact Hi.
  - apply (ordered_data (nodes s6)); [exact Hsame|]. rewrite half_entries. exact (rd_ordered _ _ _ _ _ _ Hr).
  - intros _. exact lvs2_nonempty.
  - exact (sd_tower _ _ _ _ _ Hd).
  - exact (sd_distinct _ _ _ _ _ Hd).
  - exact (sd_dom _ _ _ _ _ Hd).
  - exact (sd_unlocked _ _ _ _ _ Hd).
  - exact (sd_blocks _ _ _ _ _ Hd).
Qed.
End Halves.

(** The whole split: the new pair is in the contents. *)
Lemma wp_split_n_insert_leaf : length (kl ++ kr) = node_capacity ->
  wp (split_n_insert_leaf val0 key val (length kl) p)
    (fun _ s' => size_est s' = size_est s /\ exists lvs' ls', tree_ok s' lvs' ls' /\ contents lvs' = contents l ++ K ++ contents r) s1.
Proof.
  intros Hfull. destruct half_facts as (Hp & _ & _ & _). pose proof (fo_ok _ _ _ _ _ _ _ _ _ _ Hfo) as Hok. pose proof (fo_shows _ _ _ _ _ _ _ _ _ _ Hfo) as Hs1.
  destruct (leaf_node _ _ _ Hok _ _ _ (fo_lvs _ _ _ _ _ _ _ _ _ _ Hfo)) as (n0 & Hn0 & _). pose proof (data_lookup _ _ _ Hn0) as Hd0.
  destruct (fo_node _ _ _ _ _ _ _ _ _ _ Hfo n0 Hd0) as (Hleaf & _ & _).
  assert (Hbk : blocks_ok (base s)) by exact (t_blocks _ _ _ Hok).
  unfold split_n_insert_leaf. apply wp_bind, (wp_allocate_leaf val0 _ _ _ _ _ _ Hs1 Hbk). intros s2 Hs2. cbn [base b_next] in Hs2 |- *.
  apply wp_bind, (wp_lock _ _ _ _ _ Hs2); [apply upd_eq|]. intros s3 Hs3.
  apply wp_bind, (wp_modify _ _ _ _ _ Hs3); [rewrite upd_eq; eauto|now intros|]. intros m Hm s4 Hs4. rewrite upd_eq in Hm. apply (inj Some) in Hm.
  assert (Hp4 : upd (upd (data (nodes s)) nx (data_of (new_leaf val0))) nx (data_of (set_is_leaf true m)) p = Some (data_of n0)) by (rewrite !upd_ne by lia; exact Hd0).
  apply wp_bind, (wp_load _ _ _ _ _ Hs4); [exact (shows_data _ _ _ _ _ _ _ Hs4 Hp4)|]. intros n Hn _ _. rewrite Hp4 in Hn. apply (inj Some) in Hn.
  assert (Hkn : key_n n = 15%nat). { pose proof (lf_kvs _ _ _ Hleaf) as Hk. rewrite Hfull, Hn in Hk. now symmetry. }
  rewrite Hkn. pose proof (leaf_mid (length kl)) as Hmid. cbn zeta in Hmid. set (mid := (if length kl =? 15 then _ else _)%nat) in *.
  rewrite length_app in Hfull. change node_capacity with 15%nat in Hfull. specialize (Hmid ltac:(lia)). destruct Hmid as [Hm1 Hm2].
  apply wp_bind, (wp_split_leaf s4 _ _ _ _ p nx kl kr _ key val n0 _ mid _ Hs4 Hp4 Hleaf (upd_eq _ _ _)); [apply blank_leaf_new; now symmetry|lia|now rewrite length_app|exact Hm1|exact Hm2|].
  intros s5 q dn ds Hq Hl1 Hl2 Hs5.
  apply wp_bind, (wp_load _ _ _ _ _ Hs5); [eapply (shows_data _ _ _ _ _ _ _ Hs5), upd_eq|]. intros n5 Hn5 _ _. rewrite upd_eq in Hn5. apply (inj Some) in Hn5. rewrite Hn5 in Hl1.
  destruct (set_next_spec n5 _ _ (Some nx) Hl1) as [Hnext _]. apply wp_bind, (wp_lift _ _ _ _ Hnext).
  apply wp_bind, (wp_contents _ _ _ _ _ Hs5); [eapply (shows_data _ _ _ _ _ _ _ Hs5); rewrite upd_ne by lia; apply upd_eq|]. intros m6 Hm6. rewrite upd_ne, upd_eq in Hm6 by lia. apply (inj Some) in Hm6. rewrite Hm6 in Hl2.
  destruct (set_next_spec m6 _ _ ((fun y => y.1.2) <$> head r) Hl2) as [_ (m7 & Em7 & Hfr7 & Hl7)]. exists m7. split; [exact Em7|]. split; [exact Hfr7|]. intros s6 Hs6.
  apply wp_bind, (wp_contents _ _ _ _ _ Hs6); [eapply (shows_data _ _ _ _ _ _ _ Hs6); rewrite upd_ne by lia; apply upd_eq|]. intros n7 Hn7. rewrite upd_ne, upd_eq in Hn7 by lia. apply (inj Some) in Hn7. rewrite <- Hn5, Hn7 in Hl1.
  destruct (set_next_spec n7 _ _ (Some nx) Hl1) as [_ (n8 & En8 & Hfr8 & Hl8)]. exists n8. split; [exact En8|]. split; [exact Hfr8|]. intros s8 Hs8.
  assert (Hs9 : shows s8 (allocated (base s)) (upd (upd (data (nodes s)) nx (data_of m7)) p (data_of n8)) (upd (parv (nodes s)) nx None) (upd (upd (lockv (nodes s)) p 1) nx 1)).
  { apply (shows_ext _ _ _ _ _ _ _ _ Hs8); [|reflexivity|]; intros z; unfold upd; repeat case_decide; congruence. }
  apply wp_bind. eapply (wp_assert_leaves _ _ _ _ _ p nx K q _ _ _ _ _ Hs9); [apply upd_eq|rewrite upd_ne by lia; apply upd_eq|exact Hl8|exact Hl7|rewrite upd_ne by lia; apply upd_eq|apply upd_eq| |exact Hq|exact K_sorted|].
  { rewrite length_app. cbn. change alt_buf_fanout with 16%nat. lia. }
  intros [sk cs] Hsk. cbn [fst]. apply wp_bind, wp_gets.
  assert (Hfull' : length (kl ++ kr) = node_capacity) by (rewrite length_app; exact Hfull).
  pose proof (half_ready s8 q sk cs _ _ Hfull' Hq Hl8 Hl7 Hsk Hs9) as Hready.
  pose proof (sh_base _ _ _ _ _ Hs9) as Hb. injection Hb as B1 B2 B3 B4 B5. pose proof (tree_height s lvs ls Hok) as Hh.
  apply (wp_mono _ _ _ _ (split_loop_ok ls s8 _ _ _ _ _ (loop_fuel s8) ltac:(unfold loop_fuel; lia) Hready)). intros _ s10 (ls' & Hd).
  destruct (sd_base _ _ _ _ _ Hd) as (_ & Hsz & _). split; [congruence|]. eexists _, ls'. split; [apply (half_done s8 q sk cs _ _ Hfull' Hq Hl8 Hl7 Hsk Hs9); rewrite half_entries; exact Hd|].
  unfold contents. rewrite map_app, concat_app. cbn. now rewrite (app_assoc (take q K)), take_drop.
Qed.
End Full.

(** ** Insert *)
Lemma insert_spec (s : @CMap V) lvs ls key val : tree_ok s lvs ls -> versions_ok (contents lvs) ->
  exists s' lvs' ls' A B, cm_insert val0 key val s = Ok (tt, s') /\ tree_ok s' lvs' ls' /\ at_key key (contents lvs) A B /\
    ((exists c B', B = (key, c) :: B' /\ contents lvs' = A ++ (key, mkCV val (status c + 1)) :: B' /\ size_est s' = size_est s) \/
     ((forall kv B', B = kv :: B' -> key < kv.1) /\ contents lvs' = A ++ (key, mkCV val 0) :: B /\ size_est s' = u32 (size_est s + 1))).
Proof.
  intros Hok Hv. destruct (find_leaf s lvs ls key Hok) as (l & x & r & kl & kr & s1 & Hfo). pose proof (fo_at _ _ _ _ _ _ _ _ _ _ Hfo) as Hat.
  destruct (match kr with kv :: _ => kv.1 =? key | [] => false end) eqn:Hb.
  - destruct kr as [|[k c] kr]; [discriminate|]. cbn in Hb. apply Z.eqb_eq in Hb as ->.
    assert (Hgoal : wp (cm_insert val0 key val) (fun _ s' => tree_ok s' (l ++ (x.1, kl ++ (key, mkCV val (status c + 1)) :: kr) :: r) ls /\ size_est s' = size_est s) s).
    { apply wp_bind. exists x.1.2, s1. split; [exact (fo_run _ _ _ _ _ _ _ _ _ _ Hfo)|]. apply (wp_found _ _ _ _ _ _ _ _ _ _ Hfo). intros n _. cbn. rewrite Z.eqb_refl.
      apply wp_bind, (wp_hit _ _ _ _ _ _ _ _ _ _ Hfo c kr val _ eq_refl (hit_key _ _ _ _ _ _ _ _ _ _ Hfo _ _ eq_refl Hv)). intros d s2 Hl Hs2.
      apply (wp_unlock _ _ _ _ _ Hs2); [apply found_lock|]. intros s3 Hs3. split; [|exact (f_equal b_size (sh_base _ _ _ _ _ Hs3))].
      exact (hit_replaced _ _ _ _ _ _ _ _ _ _ Hfo d c kr val s3 eq_refl Hl Hs3). }
    destruct Hgoal as ([] & s' & Hrun' & Hok' & Hsz). exists s'. eexists _, ls. exists (contents l ++ kl), ((key, c) :: kr ++ contents r).
    split; [exact Hrun'|]. split; [exact Hok'|]. split; [exact Hat|]. left. exists c, (kr ++ contents r).
    split; [reflexivity|]. split; [|exact Hsz]. rewrite contents_app, <- !app_assoc. cbn. now rewrite <- !app_assoc.
  - assert (Hgt : Forall (fun kv => key < kv.1) kr).
    { pose proof (fo_sort _ _ _ _ _ _ _ _ _ _ Hfo) as Hs. apply sorted_app in Hs as (_ & Hs & _). destruct kr as [|kv kr]; [constructor|].
      pose proof (miss_key _ _ _ _ _ _ _ _ _ _ Hfo Hb kv _ eq_refl) as Hkv. apply Forall_cons. split; [exact Hkv|]. cbn in Hs. apply StronglySorted_inv in Hs as [_ Hs].
      rewrite Forall_forall in Hs. apply Forall_forall. intros kv' H'. specialize (Hs kv'.1 (list_elem_of_fmap_2 fst _ _ H')). lia. }
    assert (Hgoal : wp (cm_insert val0 key val) (fun _ s' => size_est s' = u32 (size_est s + 1) /\ exists lvs' ls', tree_ok s' lvs' ls' /\
              contents lvs' = contents l ++ (kl ++ (key, mkCV val 0) :: kr) ++ contents r) s).
    { apply wp_bind. exists x.1.2, s1. split; [exact (fo_run _ _ _ _ _ _ _ _ _ _ Hfo)|]. apply (wp_found _ _ _ _ _ _ _ _ _ _ Hfo). intros n Hn. rewrite Hb.
      destruct (fo_node _ _ _ _ _ _ _ _ _ _ Hfo n Hn) as (Hleaf & _ & _). pose proof (lf_kvs _ _ _ Hleaf) as Hk. pose proof (lf_n _ _ _ Hleaf) as Hc. cbn in Hk. change (key_n n <= node_capacity)%nat in Hc.
      unfold is_full. destruct (Nat.eqb_spec (key_n n) node_capacity) as [Hfull|Hroom]; cbn [negb].
      - apply wp_bind, (wp_mono _ _ _ _ (wp_split_n_insert_leaf s lvs ls key l x r kl kr s1 Hfo val Hgt ltac:(congruence))). intros _ s' (Hsz & lvs' & ls' & Hok' & Hcont).
        eexists tt, _. split; [reflexivity|]. split; [cbn; now rewrite Hsz|]. exists lvs', ls'. split; [|exact Hcont]. now apply (tree_ok_size s').
      - apply wp_bind, (wp_contents _ _ _ _ _ (fo_shows _ _ _ _ _ _ _ _ _ _ Hfo) _ _ _ (found_lock _ _)). intros n1 Hn1. rewrite Hn in Hn1. apply (inj Some) in Hn1.
        rewrite Hn1 in Hleaf. assert (Hk1 : key_n n1 = key_n n) by (injection Hn1; congruence). rewrite length_app in Hk.
        destruct (leaf_put_spec n1 kl kr _ key val (key_n n) Hleaf) as (n2 & -> & Hfr & _ & Hin); [lia|lia|]. eexists; split; [reflexivity|]. split; [exact Hfr|]. intros s2 Hs2.
        rewrite take_ge in Hin by (rewrite length_app; cbn; lia).
        apply wp_bind, (wp_modify _ _ _ _ _ Hs2); [apply found_lock|now intros|]. intros n3 Hn3 s3 Hs3. rewrite upd_eq in Hn3. apply (inj Some) in Hn3.
        apply wp_bind, (wp_done_with _ _ _ _ _ Hs3); [apply found_lock|]. intros s4 Hs4. apply wp_bind, (wp_unlock _ _ _ _ _ Hs4); [apply found_lock|]. intros s5 Hs5.
        eexists tt, _. split; [reflexivity|]. pose proof (sh_base _ _ _ _ _ Hs5) as Hbs. injection Hbs as B1 B2 B3 B4 B5. split; [cbn; now rewrite B3|].
        exists (l ++ (x.1, kl ++ (key, mkCV val 0) :: kr) :: r), ls. split; [|apply contents_app]. apply (tree_ok_size s5); try reflexivity.
        apply (found_replaced _ _ _ _ _ _ _ _ _ _ Hfo (data_of (set_key_n (key_n n + 1) n2)) _ s5 (size_est s)); [exact Hin|exact (K_sorted _ _ _ _ _ _ _ _ _ _ Hfo val Hgt)| |intros _; now destruct kl|].
        + intros k Hkk. rewrite <- (fo_x _ _ _ _ _ _ _ _ _ _ Hfo). exact (K_keys _ _ _ _ _ _ _ _ _ _ Hfo val k Hkk).
        + apply (shows_ext _ _ _ _ _ _ _ _ Hs5); [|reflexivity|reflexivity]. intros z. unfold upd. repeat case_decide; try reflexivity. f_equal. injection Hn3 as F1 F2 F3 F4. unfold data_of. cbn. congruence. }
    destruct Hgoal as ([] & s' & Hrun' & Hsz & lvs' & ls' & Hok' & Hcont). exists s', lvs', ls', (contents l ++ kl), (kr ++ contents r).
    split; [exact Hrun'|]. split; [exact Hok'|]. split; [exact Hat|]. right. split; [exact (miss_key _ _ _ _ _ _ _ _ _ _ Hfo Hb)|]. split; [|exact Hsz]. rewrite Hcont, <- !app_assoc. reflexivity.
Qed.

End Insert.
