(* ===== verification/ConcurrentMapProps.v ===== *)
(** * The map of special cases is a sorted map

    [concurrent_map_refines]: for every sequence of operations, the B+-tree gives
    the results of a sorted list of pairs, and the code always returns: no assertion
    fails, no lock is held for ever, no array is left. *)

From Stdlib Require Import ZArith Lia List Sorted.
From stdpp Require Import base tactics list numbers option gmap.
From S2P Require Import Prelude StdMap ConcurrentMap ConcurrentMapTree ConcurrentMapNodes ConcurrentMapHeap ConcurrentMapSplit ConcurrentMapInsert.

Open Scope Z_scope.

(** ** Sorted lists in two parts *)

Section Parts.
Context {V : Type}.
Implicit Types m A B : list (Z * V).

Lemma m_find_parts key A B : Forall (fun kv => kv.1 < key) A -> m_find key (A ++ B) = m_find key B.
Proof.
  induction A as [|[k v] A IH]; [reflexivity|]. intros [H HA]%Forall_cons. cbn in *. unfold less, Z_less. rewrite (proj2 (Z.ltb_lt k key) H). now apply IH.
Qed.

Lemma m_find_ge key B : Forall (fun kv => key <= kv.1) B ->
  m_find key B = match B with (k, v) :: _ => if k =? key then Some v else None | [] => None end.
Proof.
  destruct B as [|[k v] B]; [reflexivity|]. intros [H _]%Forall_cons. cbn in *. unfold less, Z_less. rewrite (proj2 (Z.ltb_ge k key) H).
  destruct (Z.ltb_spec key k), (Z.eqb_spec k key); reflexivity || lia.
Qed.

Lemma m_assign_parts key v A B : Forall (fun kv => kv.1 < key) A -> m_assign key v (A ++ B) = A ++ m_assign key v B.
Proof.
  induction A as [|[k w] A IH]; [reflexivity|]. intros [H HA]%Forall_cons. cbn in *. unfold less, Z_less. rewrite (proj2 (Z.ltb_lt k key) H). f_equal. now apply IH.
Qed.

Lemma m_insert_parts key v A B : Forall (fun kv => kv.1 < key) A -> m_insert key v (A ++ B) = A ++ m_insert key v B.
Proof.
  induction A as [|[k w] A IH]; [reflexivity|]. intros [H HA]%Forall_cons. cbn in *. unfold less, Z_less. rewrite (proj2 (Z.ltb_lt k key) H). f_equal. now apply IH.
Qed.

Lemma m_lower_bound_parts key A B : Forall (fun kv => kv.1 < key) A -> Forall (fun kv => key <= kv.1) B -> m_lower_bound key (A ++ B) = B.
Proof.
  intros HA HB. induction A as [|[k w] A IH]; cbn.
  - destruct B as [|[k w] B]; [reflexivity|]. apply Forall_cons in HB as [H _]. cbn in *. unfold less, Z_less. now rewrite (proj2 (Z.ltb_ge k key) H).
  - apply Forall_cons in HA as [H HA]. cbn in H. unfold less, Z_less. rewrite (proj2 (Z.ltb_lt k key) H). now apply IH.
Qed.

(** [m[key] = v]: a present pair is overwritten. *)
Definition m_put (key : Z) (v : V) (m : list (Z * V)) : list (Z * V) :=
  match m_find key m with Some _ => m_assign key v m | None => m_insert key v m end.

(** The pairs up to the first one that is to be left out. *)
Fixpoint m_until (stop : Z -> bool) (m : list (Z * V)) : list (Z * V) :=
  match m with
  | [] => []
  | kv :: m' => if stop kv.1 then [] else kv :: m_until stop m'
  end.
End Parts.

(** ** Operations and their specification *)

Inductive map_op (V : Type) :=
  | MGet (key : Z)
  | MUpdate (key : Z) (val : V)
  | MInsert (key : Z) (val : V)
  | MRemove (key : Z)
  | MScan (key_begin : Z) (n : nat)
  | MRange (key_begin key_end : Z)
  | MAll
  | MSize.
Arguments MGet {V} _.
Arguments MUpdate {V} _ _.
Arguments MInsert {V} _ _.
Arguments MRemove {V} _.
Arguments MScan {V} _ _.
Arguments MRange {V} _ _.
Arguments MAll {V}.
Arguments MSize {V}.

Inductive map_result (V : Type) :=
  | RVal (v : option V)
  | RBool (b : bool)
  | RUnit
  | RPairs (l : list (Z * V))
  | RSize (n : Z).
Arguments RVal {V} _.
Arguments RBool {V} _.
Arguments RUnit {V}.
Arguments RPairs {V} _.
Arguments RSize {V} _.

Section Refinement.
Context {V : Type} (val0 : V).

Definition run_op (op : map_op V) : cm (map_result V) :=
  match op with
  | MGet key => v ← cm_get key; mret (RVal v)
  | MUpdate key val => b ← cm_update key val; mret (RBool b)
  | MInsert key val => _ ← cm_insert val0 key val; mret RUnit
  | MRemove key => b ← cm_remove key; mret (RBool b)
  | MScan key n => l ← cm_scan val0 key n; mret (RPairs l)
  | MRange key_begin key_end => l ← cm_range_scan val0 key_begin key_end; mret (RPairs l)
  | MAll => l ← all_pairs val0; mret (RPairs l)
  | MSize => n ← cm_size; mret (RSize n)
  end.

Definition spec_op (op : map_op V) (m : list (Z * V)) : map_result V * list (Z * V) :=
  match op with
  | MGet key => (RVal (m_find key m), m)
  | MUpdate key val => (RBool (match m_find key m with Some _ => true | None => false end), m_assign key val m)
  | MInsert key val => (RUnit, m_put key val m)
  | MRemove key => (RBool false, m)
  | MScan key n => (RPairs (take n (m_lower_bound key m)), m)
  | MRange key_begin key_end => (RPairs (m_until (fun k => key_end <? k) (m_lower_bound key_begin m)), m)
  | MAll => (RPairs m, m)
  | MSize => (RSize (u32 (m_size m)), m)
  end.

Fixpoint run_ops (ops : list (map_op V)) : cm (list (map_result V)) :=
  match ops with
  | [] => mret []
  | op :: ops' => x ← run_op op; xs ← run_ops ops'; mret (x :: xs)
  end.
Fixpoint spec_ops (ops : list (map_op V)) (m : list (Z * V)) : list (map_result V) :=
  match ops with
  | [] => []
  | op :: ops' => let '(x, m') := spec_op op m in x :: spec_ops ops' m'
  end.

(** The keys of a program are [uint16_t]s. *)
Definition op_key_ok (op : map_op V) : Prop :=
  match op with MInsert key _ => 0 <= key < 2 ^ 16 | _ => True end.

(** ** Abstraction *)

Definition abs (m : list (Z * @ConcurrentVal V)) : list (Z * V) := map (fun kv => (kv.1, cv_val kv.2)) m.

Lemma abs_app m m' : abs (m ++ m') = abs m ++ abs m'.
Proof. apply map_app. Qed.

Lemma abs_left key m : Forall (fun kv => kv.1 < key) m -> Forall (fun kv => kv.1 < key) (abs m).
Proof. intros H. apply Forall_fmap. exact H. Qed.
Lemma abs_right key m : Forall (fun kv => key <= kv.1) m -> Forall (fun kv => key <= kv.1) (abs m).
Proof. intros H. apply Forall_fmap. exact H. Qed.

(** The tree, its pairs, and a bound [N] on the versions of their values. *)
Record map_ok (s : @CMap V) (m : list (Z * V)) (N : Z) : Prop := {
  mo_tree : exists lvs ls, tree_ok s lvs ls /\ m = abs (contents lvs) /\ Forall (fun kv => 0 <= kv.1 /\ 0 <= status kv.2 <= N) (contents lvs);
  mo_size : size_est s = u32 (m_size m)
}.

Lemma new_ok : exists s, ConcurrentMap_new val0 = Ok s /\ map_ok s [] 0.
Proof.
  eexists. split; [reflexivity|]. constructor; [|reflexivity]. exists [((None, 0%nat), [])], []. split; [|split; [reflexivity|constructor]]. constructor; cbn.
  - intros [|i] e kvs; cbn; [|done]. intros [= <- <-]. eexists. split; [reflexivity|]. constructor; cbn; [reflexivity|reflexivity| |reflexivity|unfold node_capacity; lia|intros i kv; now rewrite lookup_nil].
    eexists. split; [reflexivity|]. split; [reflexivity|]. intros i kv. now rewrite lookup_nil.
  - constructor; [apply Forall_singleton; split; constructor|repeat constructor].
  - done.
  - split; reflexivity.
  - apply NoDup_singleton.
  - intros p. split.
    + intros [n Hn]. apply lookup_insert_Some in Hn as [[<- _]|[_ Hn]]; [lia|]. apply lookup_insert_Some in Hn as [[<- _]|[_ Hn]]; [lia|].
      apply lookup_insert_Some in Hn as [[<- _]|[_ Hn]]; [lia|]. now rewrite lookup_empty in Hn.
    + intros Hp. assert (p = 0%nat) as -> by lia. eauto.
  - intros p n Hn. repeat (apply lookup_insert_Some in Hn as [[_ <-]|[_ Hn]]; [reflexivity|]). now rewrite lookup_empty in Hn.
  - reflexivity.
Qed.

(** ** get, update and insert *)

Definition bounded (N : Z) (m : list (Z * @ConcurrentVal V)) : Prop := Forall (fun kv => 0 <= kv.1 /\ 0 <= status kv.2 <= N) m.

Lemma bounded_versions N m : bounded N m -> N < 2 ^ 60 - 1 -> versions_ok m.
Proof. intros H HN. apply (Forall_impl _ _ _ H). intros kv Hkv. cbn in *. lia. Qed.

Lemma leaf_get_ok (n : @Node V) kl kr nx key : leaf (data_of n) (kl ++ kr) nx -> find_first_larger_than_or_equal_to key n = Ok (length kl) ->
  has_key (length kl) key n = Ok (match kr with kv :: _ => kv.1 =? key | [] => false end) -> Forall (fun kv => key <= kv.1) kr -> versions_ok kr ->
  leaf_get key n = Ok (m_find key (abs kr)).
Proof.
  intros Hl Hf Hh Hge Hv. rewrite (m_find_ge _ _ (abs_right _ _ Hge)). unfold leaf_get. rewrite Hf. cbn. rewrite Hh. cbn. destruct kr as [|[k c] kr]; [reflexivity|]. cbn.
  destruct (Z.eqb_spec k key); [|reflexivity]. destruct (lf_part _ _ _ Hl) as (vs & Hp & _ & Hvs). cbn in Hp. unfold vals. rewrite Hp. cbn.
  rewrite (aget_Ok _ _ _ (Hvs (length kl) (k, c) ltac:(now apply list_lookup_middle))). cbn. apply Forall_cons in Hv as [Hv _]. cbn in Hv. rewrite cv_read_ok by lia. reflexivity.
Qed.

(** The leaf of a key, not locked. *)
Lemma find_leaf_read (s : @CMap V) lvs ls key : tree_ok s lvs ls -> exists l x r kl kr n, lvs = l ++ x :: r /\ x.2 = kl ++ kr /\ Forall (fun kv => key < kv.1) (contents r) /\
  at_key key (contents lvs) (contents l ++ kl) (kr ++ contents r) /\ nodes s !! x.1.2 = Some n /\ locate_leaf key s = Ok ((x.1.2, version n), s) /\
  leaf (data_of n) (kl ++ kr) ((fun y => y.1.2) <$> head r) /\ find_first_larger_than_or_equal_to key n = Ok (length kl) /\
  has_key (length kl) key n = Ok (match kr with kv :: _ => kv.1 =? key | [] => false end).
Proof.
  intros Hok. destruct (locate_leaf_spec s lvs ls Hok key) as (l & x & r & n & E & Hloc & Hn & Hleaf & Hrun).
  destruct (leaf_search n x.2 _ key Hleaf (leaf_sorted _ _ _ Hok _ _ _ E)) as (kl & kr & Hx & Hfind & Hkl & Hkr & Hhas).
  exists l, x, r, kl, kr, n. rewrite Hx in Hleaf. do 2 (split; [assumption|]). split; [exact (contents_right _ _ _ Hok _ _ _ _ E (proj2 Hloc))|]. split; [exact (located_at_key _ _ _ _ _ _ _ _ _ Hok E Hloc Hx Hkl Hkr)|]. auto.
Qed.

Lemma get_ok (s : @CMap V) lvs ls N key : tree_ok s lvs ls -> bounded N (contents lvs) -> N < 2 ^ 60 - 1 ->
  cm_get key s = Ok (m_find key (abs (contents lvs)), s).
Proof.
  intros Hok Hb HN. destruct (find_leaf_read s lvs ls key Hok) as (l & x & r & kl & kr & n & E & Hx & Hgt & [Hsp Hl Hr] & Hn & Hrun & Hleaf & Hfind & Hhas).
  pose proof (bounded_versions _ _ Hb HN) as Hv. rewrite Hsp in Hv. apply Forall_app in Hv as [_ Hv]. apply Forall_app in Hv as [Hv _].
  pose proof Hr as Hr'. apply Forall_app in Hr' as [Hkr _].
  unfold cm_get, mbind, cm_bind. rewrite Hrun. unfold cm_gets, loop_fuel. replace (next_node_i s + 2)%nat with (S (next_node_i s + 1)) by lia. cbn [get_loop].
  unfold mbind, cm_bind, load, cm_lift. rewrite Hn, (leaf_get_ok n kl kr _ key Hleaf Hfind Hhas Hkr Hv), Hn, (t_unlocked _ _ _ Hok _ _ Hn), Z.eqb_refl. cbn.
  rewrite Hsp, abs_app, (m_find_parts _ _ _ (abs_left _ _ Hl)), abs_app. destruct kr as [|[k c] kr].
  - cbn [abs map app]. unfold mret, cm_ret. do 2 f_equal. symmetry. apply m_find_below. apply Forall_fmap, (Forall_impl _ _ _ Hgt). intros kv Hkv. now apply Z.ltb_lt.
  - rewrite !m_find_ge by (apply (abs_right _ ((k, c) :: kr)) in Hkr; rewrite <- ?abs_app; first [exact Hkr|now apply abs_right]). reflexivity.
Qed.

(** ** Iteration *)

Lemma read_pairs_ok (n : @Node V) kvs nx : leaf (data_of n) kvs nx -> versions_ok kvs ->
  forall cnt i p ks vs, (i + cnt <= length kvs)%nat -> (p + cnt <= length ks)%nat -> length vs = length ks ->
  exists ks' vs', read_pairs cnt i p n ks vs = Ok ((p + cnt)%nat, ks', vs') /\ length ks' = length ks /\ length vs' = length ks /\
    forall j, (j < p + cnt)%nat -> ks' !! j = (if decide (j < p)%nat then ks !! j else fst <$> kvs !! (i + (j - p))%nat) /\
      vs' !! j = (if decide (j < p)%nat then vs !! j else (fun kv => cv_val kv.2) <$> kvs !! (i + (j - p))%nat).
Proof.
  intros Hl Hv. destruct (lf_part _ _ _ Hl) as (cvs & Hp & _ & Hcv). cbn in Hp. induction cnt as [|cnt IH]; intros i p ks vs Hi Hpn Hlen.
  - exists ks, vs. rewrite Nat.add_0_r. split; [reflexivity|]. split; [reflexivity|]. split; [exact Hlen|]. intros j Hj. rewrite !decide_True by lia. now split.
  - cbn [read_pairs]. unfold vals. rewrite Hp. cbn. destruct (lookup_lt_is_Some_2 kvs i) as [kv Hkv]; [lia|].
    rewrite (aget_Ok _ _ _ (Hcv _ _ Hkv)). cbn. unfold versions_ok in Hv. rewrite Forall_forall in Hv. specialize (Hv kv (list_elem_of_lookup_2 _ _ _ Hkv)) as Hs. rewrite cv_read_ok by lia. cbn.
    destruct (aset_Ok vs p (cv_val kv.2)) as (vs1 & -> & Lv & Gv); [lia|]. cbn. rewrite (aget_Ok (keys n) i kv.1 (lf_keys _ _ _ Hl _ _ Hkv)). cbn.
    destruct (aset_Ok ks p kv.1) as (ks1 & -> & Lk & Gk); [lia|]. cbn. destruct (IH (S i) (S p) ks1 vs1) as (ks2 & vs2 & -> & L1 & L2 & G); [lia|lia|lia|].
    exists ks2, vs2. split; [do 3 f_equal; lia|]. split; [lia|]. split; [lia|]. intros j Hj. destruct (G j) as [G1 G2]; [lia|]. rewrite G1, G2, Gk, Gv.
    repeat case_decide; try lia; try (split; reflexivity).
    + subst j. rewrite Nat.sub_diag, Nat.add_0_r, Hkv. split; reflexivity.
    + replace (S i + (j - S p))%nat with (i + (j - p))%nat by lia. split; reflexivity.
Qed.

(** A source whose buffer holds [buf] and whose next leaf is the first of [r]. *)
Record source (d : @DataSource V) (buf : list (Z * V)) (r : leaves_of V) : Prop := {
  so_keys : length (src_keys d) = node_capacity;
  so_vals : length (src_vals d) = node_capacity;
  so_n : src_n d = Z.of_nat (length buf);
  so_pos : -1 <= pos d;
  so_buf : forall i kv, buf !! i = Some kv -> src_keys d !! i = Some kv.1 /\ src_vals d !! i = Some kv.2;
  so_next : src_next d = (fun y => y.1.2) <$> head r
}.

(** The pairs after the current one. *)
Definition pending (d : @DataSource V) (buf : list (Z * V)) (r : leaves_of V) : list (Z * V) :=
  drop (Z.to_nat (pos d + 1)) buf ++ abs (contents r).

(** What [d] points to: nothing more, or the first of [todo]. *)
Definition points (d : @DataSource V) (todo : list (Z * V)) : Prop :=
  match todo with
  | [] => has_next d = false
  | kv :: _ => has_next d = true /\ get_key d = Ok kv.1 /\ get_val d = Ok kv.2
  end.

Section Source.
Context (s : @CMap V) (lvs : leaves_of V) (ls : levels) (Hok : tree_ok s lvs ls) (Hv : versions_ok (contents lvs)).

Lemma leaf_versions l x r : lvs = l ++ x :: r -> versions_ok x.2.
Proof. intros E. unfold versions_ok in *. rewrite E, contents_app in Hv. apply Forall_app in Hv as [_ H]. now apply Forall_app in H as [H _]. Qed.

Lemma leaves_bound : (length lvs <= next_node_i s)%nat.
Proof.
  rewrite <- (length_map fst lvs), <- (length_map snd (map fst lvs)). apply nodup_bound.
  - pose proof (t_distinct _ _ _ Hok) as H. now apply NoDup_app in H as (H & _ & _).
  - intros p Hp. apply list_elem_of_fmap in Hp as (e & -> & He). apply list_elem_of_fmap in He as (y & -> & Hy). apply list_elem_of_split in Hy as (a & c & E).
    destruct (leaf_node _ _ _ Hok _ _ _ E) as (n & Hn & _). apply (t_dom _ _ _ Hok). eauto.
Qed.

(** The whole of a leaf in the buffer. *)
Lemma read_leaf_ok l x r fuel ks vs : lvs = l ++ x :: r -> length ks = node_capacity -> length vs = node_capacity ->
  exists n ks' vs', nodes s !! x.1.2 = Some n /\
    read_leaf (S fuel) x.1.2 (version n) ks vs s = Ok ((length x.2, ks', vs', (fun y => y.1.2) <$> head r), s) /\ length ks' = node_capacity /\ length vs' = node_capacity /\
    forall i kv, abs x.2 !! i = Some kv -> ks' !! i = Some kv.1 /\ vs' !! i = Some kv.2.
Proof.
  intros E Lk Lv. destruct (leaf_node _ _ _ Hok _ _ _ E) as (n & Hn & Hl). pose proof (lf_kvs _ _ _ Hl) as Hk. pose proof (lf_n _ _ _ Hl) as Hc. cbn in Hk. change (key_n n <= node_capacity)%nat in Hc.
  destruct (read_pairs_ok n x.2 _ Hl (leaf_versions _ _ _ E) (key_n n) 0 0 ks vs) as (ks' & vs' & Hr & L1 & L2 & G); [lia|lia|lia|].
  exists n, ks', vs'. split; [exact Hn|]. split.
  - cbn [read_leaf]. unfold mbind, cm_bind, load, cm_lift. rewrite Hn, Hr. destruct (lf_part _ _ _ Hl) as (cvs & Hp & _). cbn in Hp. unfold next. rewrite Hp, Hn, (t_unlocked _ _ _ Hok _ _ Hn), Z.eqb_refl. cbn. now rewrite Hk.
  - split; [lia|]. split; [lia|]. intros i kv Hi. unfold abs in Hi. rewrite list_lookup_fmap in Hi. apply fmap_Some in Hi as (kv' & Hi & ->). pose proof (lookup_lt_Some _ _ _ Hi).
    destruct (G i) as [G1 G2]; [lia|]. rewrite decide_False in G1 by lia. rewrite decide_False in G2 by lia. rewrite G1, G2. cbn. rewrite Nat.sub_0_r, Hi. split; reflexivity.
Qed.

Lemma next_leaf_loop_ok : forall r l d buf fuel, lvs = l ++ r -> source d buf r -> (length r < fuel)%nat ->
  exists d' buf' r' l', next_leaf_loop fuel d s = Ok (d', s) /\ lvs = l' ++ r' /\ source d' buf' r' /\
    points d' (abs (contents r)) /\ (abs (contents r) <> [] -> pending d' buf' r' = tail (abs (contents r))).
Proof.
  induction r as [|x r IH]; intros l d buf fuel E Hd Hf; (destruct fuel as [|fuel]; [cbn in Hf; lia|]); cbn [next_leaf_loop]; rewrite (so_next _ _ _ Hd); cbn [head fmap option_fmap option_map].
  - eexists _, buf, [], l. split; [reflexivity|]. split; [exact E|]. split; [destruct Hd; now constructor|]. split; [reflexivity|done].
  - destruct (read_leaf_ok l x r fuel _ _ E (so_keys _ _ _ Hd) (so_vals _ _ _ Hd)) as (n & ks' & vs' & Hn & Hrl & L1 & L2 & G).
    unfold mbind, cm_bind, load. rewrite Hn, Hrl. unfold contents. cbn [map concat]. rewrite abs_app. fold (contents r).
    destruct (Nat.eqb_spec (length x.2) 0) as [H0|H0]; cbn [negb].
    + apply nil_length_inv in H0. rewrite H0. cbn [abs map app length]. apply (IH (l ++ [x]) _ [] fuel); [now rewrite <- app_assoc| |cbn in Hf; lia].
      constructor; cbn; [exact L1|exact L2|reflexivity|lia|now intros|reflexivity].
    + eexists _, (abs x.2), r, (l ++ [x]). split; [reflexivity|]. split; [now rewrite <- app_assoc|]. destruct x as [e [|[k c] kvs]]; [done|]. cbn [snd] in *.
      split; [constructor; cbn; [exact L1|exact L2|now rewrite length_map|lia|exact G|reflexivity]|]. destruct (G O (k, cv_val c) eq_refl) as [G1 G2].
      split; [|reflexivity]. split; [reflexivity|]. split; [exact (aget_Ok _ _ _ G1)|exact (aget_Ok _ _ _ G2)].
Qed.

Lemma advance_ok l r d buf : lvs = l ++ r -> source d buf r ->
  exists d' buf' r' l', advance_to_next_valid d s = Ok (d', s) /\ lvs = l' ++ r' /\ source d' buf' r' /\ points d' (pending d buf r) /\
    (pending d buf r <> [] -> pending d' buf' r' = tail (pending d buf r)).
Proof.
  intros E Hd. pose proof (so_n _ _ _ Hd) as Hn. pose proof (so_pos _ _ _ Hd) as Hp. unfold advance_to_next_valid, pending. destruct (Z.ltb_spec (pos d) (src_n d - 1)) as [Hlt|Hge].
  - destruct (lookup_lt_is_Some_2 buf (Z.to_nat (pos d + 1))) as [kv Hkv]; [lia|]. destruct (so_buf _ _ _ Hd _ _ Hkv) as [G1 G2].
    eexists _, buf, r, l. split; [reflexivity|]. split; [exact E|]. split; [destruct Hd; constructor; cbn; try assumption; lia|].
    rewrite (drop_S _ _ _ Hkv). split.
    + split; [reflexivity|]. unfold get_key, get_val. cbn [pos src_keys src_vals]. rewrite (proj2 (Z.ltb_ge (pos d + 1) 0)) by lia. now rewrite (aget_Ok _ _ _ G1), (aget_Ok _ _ _ G2).
    + intros _. cbn. do 2 f_equal. lia.
  - rewrite drop_ge by lia. cbn [app]. unfold mbind, cm_bind, cm_gets. apply (next_leaf_loop_ok r l d buf); [exact E|exact Hd|].
    pose proof leaves_bound as Hb. rewrite E, length_app in Hb. unfold loop_fuel. lia.
Qed.

Lemma scan_loop_ok todo : forall k l r d buf acc, lvs = l ++ r -> source d buf r -> points d todo -> (todo <> [] -> pending d buf r = tail todo) ->
  scan_loop k d acc s = Ok (acc ++ take k todo, s).
Proof.
  induction todo as [|kv todo IH]; intros k l r d buf acc E Hd Hpt Hpe.
  - cbn in Hpt. destruct k; cbn [scan_loop]; rewrite Hpt, take_nil, app_nil_r; reflexivity.
  - destruct Hpt as (Hn & Hk & Hva). destruct k as [|k]; cbn [scan_loop]; rewrite Hn; [cbn; now rewrite app_nil_r|].
    destruct (advance_ok l r d buf E Hd) as (d' & buf' & r' & l' & Ha & E' & Hd' & Hpt' & Hpe'). rewrite Hpe in Hpt', Hpe' by done. cbn [tail] in Hpt', Hpe'.
    unfold mbind, cm_bind, cm_lift. rewrite Hk, Hva, Ha. rewrite (IH k l' r' d' buf' _ E' Hd' Hpt' Hpe'). cbn. rewrite <- app_assoc. do 3 f_equal. now destruct kv.
Qed.

Lemma range_loop_ok stop todo : forall fuel l r d buf acc, (length todo < fuel)%nat -> lvs = l ++ r -> source d buf r -> points d todo -> (todo <> [] -> pending d buf r = tail todo) ->
  range_scan_loop fuel stop d acc s = Ok (acc ++ m_until stop todo, s).
Proof.
  induction todo as [|kv todo IH]; intros fuel l r d buf acc Hf E Hd Hpt Hpe; (destruct fuel as [|fuel]; [cbn in Hf; lia|]); cbn [range_scan_loop m_until].
  - cbn in Hpt. rewrite Hpt, app_nil_r. reflexivity.
  - destruct Hpt as (Hn & Hk & Hva). rewrite Hn. unfold mbind, cm_bind, cm_lift. rewrite Hk. destruct (stop kv.1); [now rewrite app_nil_r|].
    destruct (advance_ok l r d buf E Hd) as (d' & buf' & r' & l' & Ha & E' & Hd' & Hpt' & Hpe'). rewrite Hpe in Hpt', Hpe' by done. cbn [tail] in Hpt', Hpe'.
    rewrite Hva, Ha. rewrite (IH fuel l' r' d' buf' _ ltac:(cbn in Hf; lia) E' Hd' Hpt' Hpe'). rewrite <- app_assoc. cbn. do 3 f_equal. now destruct kv.
Qed.

Lemma source_new key : exists d buf l r, DataSource_new val0 key s = Ok (d, s) /\ lvs = l ++ r /\ source d buf r /\
  pending d buf r = m_lower_bound key (abs (contents lvs)).
Proof.
  destruct (find_leaf_read s lvs ls key Hok) as (l & x & r & kl & kr & n & E & Hx & Hgt & [Hsp Hl Hr] & Hn & Hrun & Hleaf & Hfind & _).
  pose proof (leaf_versions _ _ _ E) as Hvx. rewrite Hx in Hvx. pose proof (lf_kvs _ _ _ Hleaf) as Hk. pose proof (lf_n _ _ _ Hleaf) as Hc. cbn in Hk. change (key_n n <= node_capacity)%nat in Hc. rewrite length_app in Hk.
  destruct (read_pairs_ok n _ _ Hleaf Hvx (key_n n - length kl) (length kl) 0 (replicate node_capacity 0) (replicate node_capacity val0)) as (ks' & vs' & Hrd & L1 & L2 & G);
    [rewrite length_app; lia|rewrite length_replicate; lia|now rewrite !length_replicate|]. rewrite length_replicate in L1, L2.
  eexists _, (abs kr), (l ++ [x]), r. split.
  - unfold DataSource_new, mbind, cm_bind. rewrite Hrun. unfold cm_gets, loop_fuel. replace (next_node_i s + 2)%nat with (S (next_node_i s + 1)) by lia. cbn [source_loop].
    unfold mbind, cm_bind, load, cm_lift. rewrite Hn, Hfind, Hrd. destruct (lf_part _ _ _ Hleaf) as (cvs & Hp & _). cbn in Hp. unfold next. rewrite Hp, Hn, (t_unlocked _ _ _ Hok _ _ Hn), Z.eqb_refl. reflexivity.
  - split; [now rewrite <- app_assoc|]. split.
    + constructor; cbn [src_keys src_vals src_n pos src_next]; [exact L1|exact L2|unfold abs; rewrite length_map; lia|lia| |reflexivity].
      intros i kv Hi. unfold abs in Hi. rewrite list_lookup_fmap in Hi. apply fmap_Some in Hi as (kv' & Hi & ->). pose proof (lookup_lt_Some _ _ _ Hi).
      destruct (G i) as [G1 G2]; [lia|]. rewrite decide_False in G1 by lia. rewrite decide_False in G2 by lia. rewrite G1, G2.
      replace (length kl + (i - 0))%nat with (length kl + i)%nat by lia. rewrite lookup_app_r by lia. replace (length kl + i - length kl)%nat with i by lia. rewrite Hi. split; reflexivity.
    + unfold pending. cbn [pos]. change (Z.to_nat (-1 + 1)) with 0%nat. rewrite drop_0, <- abs_app, Hsp, (abs_app (contents l ++ kl)). symmetry. apply m_lower_bound_parts; [now apply abs_left|now apply abs_right].
Qed.

Lemma contents_bound : (length (contents lvs) <= node_capacity * next_node_i s)%nat.
Proof.
  transitivity (node_capacity * length lvs)%nat; [|apply Nat.mul_le_mono_l, leaves_bound].
  assert (H : forall y, y ∈ lvs -> (length y.2 <= node_capacity)%nat).
  { intros y (a & c & E)%list_elem_of_split. destruct (leaf_node _ _ _ Hok _ _ _ E) as (n & _ & Hl). rewrite (lf_kvs _ _ _ Hl). apply Hl. }
  clear Hv Hok. induction lvs as [|y l IH]; [cbn; lia|]. unfold contents in *. cbn [map concat length]. rewrite length_app.
  pose proof (H y ltac:(elem)). specialize (IH ltac:(intros z Hz; apply H; elem)). lia.
Qed.

Lemma scan_ok key k : cm_scan val0 key k s = Ok (take k (m_lower_bound key (abs (contents lvs))), s).
Proof.
  destruct (source_new key) as (d & buf & l & r & Hd & E & Hs & Hp). destruct (advance_ok l r d buf E Hs) as (d' & buf' & r' & l' & Ha & E' & Hd' & Hpt & Hpe).
  unfold cm_scan, mbind, cm_bind. rewrite Hd, Ha. rewrite <- Hp. exact (scan_loop_ok _ k l' r' d' buf' [] E' Hd' Hpt Hpe).
Qed.

Lemma range_ok key stop : (d ← DataSource_new val0 key; d ← advance_to_next_valid d; fuel ← cm_gets scan_fuel; range_scan_loop fuel stop d []) s =
  Ok (m_until stop (m_lower_bound key (abs (contents lvs))), s).
Proof.
  destruct (source_new key) as (d & buf & l & r & Hd & E & Hs & Hp). destruct (advance_ok l r d buf E Hs) as (d' & buf' & r' & l' & Ha & E' & Hd' & Hpt & Hpe).
  unfold mbind, cm_bind. rewrite Hd, Ha. unfold cm_gets. rewrite <- Hp. refine (range_loop_ok stop _ (scan_fuel s) l' r' d' buf' [] _ E' Hd' Hpt Hpe).
  rewrite Hp. assert (Hle : forall (m : list (Z * V)), (length (m_lower_bound key m) <= length m)%nat).
  { induction m as [|[k v] m IH]; [cbn; lia|]. cbn. destruct (less k key); cbn; lia. }
  specialize (Hle (abs (contents lvs))). unfold abs in Hle at 2. rewrite length_map in Hle. pose proof contents_bound. unfold scan_fuel. lia.
Qed.
End Source.

(** ** One operation *)

Lemma m_until_all (m : list (Z * V)) : m_until (fun _ => false) m = m.
Proof. induction m as [|kv m IH]; [reflexivity|]. cbn. now f_equal. Qed.

Lemma lower_bound_all (m : list (Z * V)) : Forall (fun kv => 0 <= kv.1) m -> m_lower_bound 0 m = m.
Proof. intros H. apply (m_lower_bound_parts 0 []); [constructor|exact H]. Qed.

Lemma bounded_mono N N' m : N <= N' -> bounded N m -> bounded N' m.
Proof. intros HN H. apply (Forall_impl _ _ _ H). intros kv Hkv. cbn in *. lia. Qed.

(** The contents after an update or an insertion of [key]. *)
Section AtKey.
Context (m A B : list (Z * @ConcurrentVal V)) (key : Z) (val : V) (Hat : at_key key m A B).

Lemma find_hit c B' : B = (key, c) :: B' -> m_find key (abs m) = Some (cv_val c).
Proof.
  intros HB. destruct Hat as [-> Hl Hr]. rewrite abs_app, (m_find_parts _ _ _ (abs_left _ _ Hl)), (m_find_ge _ _ (abs_right _ _ Hr)), HB. cbn. now rewrite Z.eqb_refl.
Qed.

Lemma find_miss : (forall kv B', B = kv :: B' -> key < kv.1) -> m_find key (abs m) = None.
Proof.
  intros HB. destruct Hat as [-> Hl Hr]. rewrite abs_app, (m_find_parts _ _ _ (abs_left _ _ Hl)), (m_find_ge _ _ (abs_right _ _ Hr)). destruct B as [|[k c] B']; [reflexivity|]. cbn.
  specialize (HB _ _ eq_refl). cbn in HB. rewrite (proj2 (Z.eqb_neq k key)) by lia. reflexivity.
Qed.

Lemma assign_hit c c' B' : B = (key, c) :: B' -> cv_val c' = val -> m_assign key val (abs m) = abs (A ++ (key, c') :: B').
Proof.
  intros HB Hc. destruct Hat as [-> Hl Hr]. rewrite !abs_app, (m_assign_parts _ _ _ _ (abs_left _ _ Hl)), HB. cbn. unfold less, Z_less. now rewrite Z.ltb_irrefl, Hc.
Qed.

Lemma assign_miss : (forall kv B', B = kv :: B' -> key < kv.1) -> m_assign key val (abs m) = abs m.
Proof.
  intros HB. destruct Hat as [-> Hl Hr]. rewrite !abs_app, (m_assign_parts _ _ _ _ (abs_left _ _ Hl)). f_equal. destruct B as [|[k c] B']; [reflexivity|]. cbn.
  specialize (HB _ _ eq_refl). cbn in HB. unfold less, Z_less. rewrite (proj2 (Z.ltb_ge k key)), (proj2 (Z.ltb_lt key k)) by lia. reflexivity.
Qed.

Lemma insert_miss c' : (forall kv B', B = kv :: B' -> key < kv.1) -> cv_val c' = val -> m_insert key val (abs m) = abs (A ++ (key, c') :: B).
Proof.
  intros HB Hc. destruct Hat as [-> Hl Hr]. rewrite !abs_app, (m_insert_parts _ _ _ _ (abs_left _ _ Hl)). f_equal. rewrite <- Hc. destruct B as [|[k c] B']; [reflexivity|]. cbn.
  specialize (HB _ _ eq_refl). cbn in HB. unfold less, Z_less. rewrite (proj2 (Z.ltb_ge k key)), (proj2 (Z.ltb_lt key k)) by lia. reflexivity.
Qed.

Lemma bounded_at N B' c' : bounded N m -> (B = B' \/ exists kv, B = kv :: B') -> 0 <= key -> 0 <= status c' <= N + 1 -> bounded (N + 1) (A ++ (key, c') :: B').
Proof.
  intros Hb HB Hk Hs. destruct Hat as [-> _ _]. apply (bounded_mono N (N + 1)) in Hb; [|lia]. apply Forall_app in Hb as [Hb1 Hb2]. apply Forall_app. split; [exact Hb1|].
  apply Forall_cons. split; [cbn; lia|]. destruct HB as [->|(kv & ->)]; [exact Hb2|now apply Forall_cons in Hb2 as [_ Hb2]].
Qed.
End AtKey.

Lemma op_ok op s m N : map_ok s m N -> 0 <= N < 2 ^ 60 - 1 -> op_key_ok op ->
  exists s', run_op op s = Ok ((spec_op op m).1, s') /\ map_ok s' (spec_op op m).2 (N + 1).
Proof.
  intros [(lvs & ls & Hok & -> & Hb) Hsz] HN Hop. pose proof (bounded_versions _ _ Hb (proj2 HN)) as Hv.
  assert (Hkeep : map_ok s (abs (contents lvs)) (N + 1)). { constructor; [|exact Hsz]. exists lvs, ls. split; [exact Hok|]. split; [reflexivity|]. apply (bounded_mono N); [lia|exact Hb]. }
  destruct op as [key|key val|key val|key|key k|kb ke| |]; cbn [run_op spec_op fst snd]; unfold mbind, cm_bind.
  - rewrite (get_ok s lvs ls N key Hok Hb (proj2 HN)). eauto.
  - destruct (update_spec s lvs ls key val Hok Hv) as (s' & lvs' & A & B & b & -> & Hok' & Hsz' & Hat & [(-> & c & B' & HB & Hc)|(-> & HB & Hc)]); exists s'.
    + rewrite (find_hit _ _ _ _ Hat _ _ HB). split; [reflexivity|]. rewrite (assign_hit _ _ _ _ val Hat c (mkCV val (status c + 1)) B' HB eq_refl), <- Hc. constructor.
      * exists lvs', ls. split; [exact Hok'|]. split; [reflexivity|]. rewrite Hc.
        assert (Hkc : 0 <= key /\ 0 <= status c <= N). { unfold bounded in Hb. rewrite Forall_forall in Hb. apply (Hb (key, c)). rewrite (ak_split _ _ _ _ Hat), HB. elem. }
        apply (bounded_at _ _ _ _ Hat N); [exact Hb|right; eauto|tauto|cbn; lia].
      * rewrite Hsz', Hsz, Hc. unfold m_size, abs. rewrite !length_map, (ak_split _ _ _ _ Hat), HB, !length_app. reflexivity.
    + rewrite (find_miss _ _ _ _ Hat HB), (assign_miss _ _ _ _ val Hat HB). split; [reflexivity|]. rewrite (ak_split _ _ _ _ Hat), <- Hc in *. constructor.
      * exists lvs', ls. split; [exact Hok'|]. split; [reflexivity|]. apply (bounded_mono N); [lia|exact Hb].
      * now rewrite Hsz'.
  - destruct (insert_spec val0 s lvs ls key val Hok Hv) as (s' & lvs' & ls' & A & B & -> & Hok' & Hat & [(c & B' & HB & Hc & Hsz')|(HB & Hc & Hsz')]); exists s'; (split; [reflexivity|]); unfold m_put; cbn in Hop.
    + rewrite (find_hit _ _ _ _ Hat _ _ HB), (assign_hit _ _ _ _ val Hat c (mkCV val (status c + 1)) B' HB eq_refl), <- Hc. constructor.
      * exists lvs', ls'. split; [exact Hok'|]. split; [reflexivity|]. rewrite Hc.
        assert (Hkc : 0 <= key /\ 0 <= status c <= N). { unfold bounded in Hb. rewrite Forall_forall in Hb. apply (Hb (key, c)). rewrite (ak_split _ _ _ _ Hat), HB. elem. }
        apply (bounded_at _ _ _ _ Hat N); [exact Hb|right; eauto|tauto|cbn; lia].
      * rewrite Hsz', Hsz, Hc. unfold m_size, abs. rewrite !length_map, (ak_split _ _ _ _ Hat), HB, !length_app. reflexivity.
    + rewrite (find_miss _ _ _ _ Hat HB), (insert_miss _ _ _ _ val Hat (mkCV val 0) HB eq_refl), <- Hc. constructor.
      * exists lvs', ls'. split; [exact Hok'|]. split; [reflexivity|]. rewrite Hc. apply (bounded_at _ _ _ _ Hat N); [exact Hb|now left|lia|cbn; lia].
      * rewrite Hsz', Hsz, Hc. unfold m_size, abs. rewrite !length_map, (ak_split _ _ _ _ Hat), !length_app. cbn [length]. unfold u32. rewrite Zplus_mod_idemp_l. f_equal. lia.
  - exists s. split; [reflexivity|exact Hkeep].
  - rewrite (scan_ok s lvs ls Hok Hv key k). eauto.
  - unfold cm_range_scan. rewrite (range_ok s lvs ls Hok Hv kb (fun k => ke <? k)). eauto.
  - unfold all_pairs. rewrite (range_ok s lvs ls Hok Hv 0 (fun _ => false)), m_until_all, lower_bound_all; [eauto|].
    apply Forall_fmap, (Forall_impl _ _ _ Hb). intros kv [Hkv _]. exact Hkv.
  - unfold cm_size, cm_gets. rewrite Hsz. eauto.
Qed.

Lemma ops_ok ops : forall s m N, map_ok s m N -> 0 <= N -> N + Z.of_nat (length ops) < 2 ^ 60 -> Forall op_key_ok ops ->
  exists s', run_ops ops s = Ok (spec_ops ops m, s').
Proof.
  induction ops as [|op ops IH]; intros s m N Hm HN Hlen Hops; [eexists; reflexivity|]. cbn [length] in Hlen. apply Forall_cons in Hops as [Hop Hops].
  destruct (op_ok op s m N Hm) as (s1 & Hrun & Hm1); [lia|exact Hop|]. destruct (IH s1 _ (N + 1) Hm1) as (s2 & Hrun2); [lia|lia|exact Hops|]. exists s2.
  cbn [run_ops spec_ops]. unfold mbind, cm_bind. rewrite Hrun, Hrun2. now destruct (spec_op op m).
Qed.

(** C4: the B+-tree in which the switch OS collects special cases is a sorted map.  For
    every sequence of fewer than 2^60 operations with 16-bit keys, run from a new
    tree by one thread, every operation returns (no assertion of the code fails, no
    lock stays held, no node or array is left) and gives the result of the same
    operation on a sorted list of pairs: gets, updates, insertions with all the
    splits they cause, ordered scans, and the size. *)
Theorem concurrent_map_refines (ops : list (map_op V)) : Forall op_key_ok ops -> Z.of_nat (length ops) < 2 ^ 60 ->
  exists s0 s, ConcurrentMap_new val0 = Ok s0 /\ run_ops ops s0 = Ok (spec_ops ops [], s).
Proof.
  intros Hops Hlen. destruct new_ok as (s0 & Hnew & Hm). destruct (ops_ok ops s0 [] 0 Hm) as (s & Hrun); [lia|lia|exact Hops|]. eauto.
Qed.

End Refinement.

(** Insertions in a scattered order, with splits at two levels, updates and scans. *)
Definition demo_ops : list (map_op Z) :=
  map (fun i => MInsert ((Z.of_nat i * 37) mod 331) (Z.of_nat i)) (seq 0 330) ++
  [MGet 37; MGet 331; MUpdate 74 7; MUpdate 400 8; MInsert 74 9; MGet 74; MScan 300 3; MRange 5 9; MAll; MRemove 5; MSize].

Lemma concurrent_map_refines_witness : Forall op_key_ok demo_ops /\
  exists s0 s, ConcurrentMap_new 0 = Ok s0 /\ run_ops 0 demo_ops s0 = Ok (spec_ops demo_ops [], s).
Proof.
  assert (H : Forall op_key_ok demo_ops).
  { apply Forall_app. split; [|repeat constructor; cbn; lia]. apply Forall_fmap, Forall_forall. intros i _. cbn.
    pose proof (Z.mod_pos_bound (Z.of_nat i * 37) 331). lia. }
  split; [exact H|]. apply (concurrent_map_refines 0 demo_ops); [exact H|vm_compute; reflexivity].
Defined.
