(* ===== verification/ConcurrentMapSpecial.v ===== *)
(** * The special cases of the switch OS

    The threads of the switch OS are modelled over the interface [SpecialMap].  This
    file discharges the interface with the code: the B+-tree of
    farreach/concurrent_map_impl.h implements every map with the laws of the
    interface, for the calls switchos.c makes. *)

From Stdlib Require Import ZArith Lia List Sorted.
From stdpp Require Import base tactics list numbers option gmap.
From S2P Require Import Prelude StdMap Key Val SwitchOS SwitchRollback ConcurrentMap ConcurrentMapTree ConcurrentMapNodes ConcurrentMapHeap ConcurrentMapSplit ConcurrentMapInsert ConcurrentMapProps.

Open Scope Z_scope.

(** [special_case_t tmpcase;], the value an empty slot of a leaf holds. *)
Definition special_case_new : SpecialCase := mkSpecialCase Key_min Val_default 0 false.

Section Special.
Context {M : Type} `{Hsm : SpecialMap M} `{Hlaws : !SpecialMapLaws M}.

(** The tree [s] holds what the map [m] holds, after [N] operations. *)
Definition implements (s : @CMap SpecialCase) (m : M) (N : Z) : Prop :=
  exists l, map_ok s l N /\ m_sorted l /\ forall i, sm_get i m = m_find i l.

(** What the code promises to the threads: [new], [get], [insert] of an absent index,
    [update] of a present one, and the pairs a [DataSource] from 0 visits. *)
Record special_map_code : Prop := {
  code_new : exists s, ConcurrentMap_new special_case_new = Ok s /\ implements s sm_empty 0;
  code_get s m N i : implements s m N -> 0 <= N < 2 ^ 60 - 1 -> cm_get i s = Ok (sm_get i m, s);
  code_insert s m N i c : implements s m N -> 0 <= N < 2 ^ 60 - 1 -> 0 <= i < 2 ^ 16 -> sm_get i m = None ->
    exists s', cm_insert special_case_new i c s = Ok (tt, s') /\ implements s' (sm_insert i c m) (N + 1);
  code_update s m N i c : implements s m N -> 0 <= N < 2 ^ 60 - 1 -> is_Some (sm_get i m) ->
    exists s', cm_update i c s = Ok ((sm_update i c m).1, s') /\ implements s' (sm_update i c m).2 (N + 1);
  code_pairs s m N : implements s m N -> 0 <= N < 2 ^ 60 - 1 ->
    exists l, all_pairs special_case_new s = Ok (l, s) /\ StronglySorted Z.lt (map fst l) /\ l ≡ₚ sm_pairs m
}.

Lemma m_sorted_keys (l : list (Z * SpecialCase)) : m_sorted l -> StronglySorted Z.lt (map fst l).
Proof.
  induction 1 as [|k v l Hk _ IH]; [constructor|]. cbn. constructor; [exact IH|]. apply Forall_fmap, (Forall_impl _ _ _ Hk). intros kv Hkv. now apply Z.ltb_lt.
Qed.

Lemma sorted_pairs_nodup (l : list (Z * SpecialCase)) : StronglySorted Z.lt (map fst l) -> NoDup l.
Proof.
  intros H. apply (NoDup_fmap_1 fst). apply NoDup_alt. intros i j x Hi Hj. destruct (Nat.lt_trichotomy i j) as [Hij|[Hij|Hij]]; [|exact Hij|];
    [pose proof (proj2 (sorted_lookup _ _) H i j x x Hij Hi Hj)|pose proof (proj2 (sorted_lookup _ _) H j i x x Hij Hj Hi)]; lia.
Qed.

(** [run_op] of a single call. *)
Lemma implements_op op s m N : implements s m N -> 0 <= N < 2 ^ 60 - 1 -> op_key_ok op ->
  exists l s', map_ok s l N /\ m_sorted l /\ (forall i, sm_get i m = m_find i l) /\
    run_op special_case_new op s = Ok ((spec_op op l).1, s') /\ map_ok s' (spec_op op l).2 (N + 1).
Proof.
  intros (l & Hm & Hs & Hg) HN Hop. destruct (op_ok special_case_new op s l N Hm HN Hop) as (s' & Hrun & Hm'). exists l, s'. auto.
Qed.

(** A call inside [run_op], with what it leaves. *)
Lemma run_call {A} (f : @cm SpecialCase A) (g : A -> map_result SpecialCase) s x s' :
  (a ← f; mret (g a)) s = Ok (x, s') -> exists a, f s = Ok (a, s') /\ g a = x.
Proof. unfold mbind, cm_bind. destruct (f s) as [[a s1]|e]; [|discriminate]. intros [= <- <-]. eauto. Qed.

(** C5: the code of the concurrent map discharges the interface the threads of the
    switch OS are verified against.  For every map with the laws of the interface,
    a new tree implements the empty map; on a tree that implements a map, [get]
    returns what the map holds and changes nothing, [insert] of an absent index and
    [update] of a present one lead to trees that implement the updated maps, with the
    same answer, and iteration visits exactly the pairs of the map, in ascending
    order; all of this for up to 2^60 - 1 operations. *)
Theorem tree_implements_special_map : special_map_code.
Proof.
  constructor.
  - destruct (new_ok special_case_new) as (s & Hs & Hm). exists s. split; [exact Hs|]. exists []. split; [exact Hm|]. split; [constructor|]. intros i. apply sm_get_empty.
  - intros s m N i H HN. destruct H as (l & [(lvs & ls & Hok & -> & Hb) _] & _ & Hg). rewrite Hg. exact (get_ok s lvs ls N i Hok Hb (proj2 HN)).
  - intros s m N i c H HN Hi Hnone. destruct (implements_op (MInsert i c) s m N H HN Hi) as (l & s' & _ & Hs & Hg & Hrun & Hm').
    apply run_call in Hrun as ([] & Hrun & _). exists s'. split; [exact Hrun|]. rewrite Hg in Hnone. cbn in Hm'. unfold m_put in Hm'. rewrite Hnone in Hm'.
    exists (m_insert i c l). split; [exact Hm'|]. split; [now apply m_insert_sorted|]. intros j. rewrite sm_get_insert by (now rewrite Hg). destruct (decide (i = j)) as [<-|Hne].
    + rewrite m_find_insert_eq by exact Hs. now rewrite Hnone.
    + rewrite m_find_insert_ne by congruence. apply Hg.
  - intros s m N i c H HN Hsome. destruct (implements_op (MUpdate i c) s m N H HN I) as (l & s' & _ & Hs & Hg & Hrun & Hm').
    apply run_call in Hrun as (b & Hrun & Hb). exists s'. destruct (sm_get_update i i c m Hsome) as [Hu _]. rewrite Hg in Hsome. destruct Hsome as [v Hv]. cbn in Hb, Hm'. rewrite Hv in Hb. injection Hb as ->.
    rewrite Hu. split; [exact Hrun|]. exists (m_assign i c l). split; [exact Hm'|]. split; [now apply m_assign_sorted|]. intros j.
    destruct (sm_get_update i j c m ltac:(rewrite Hg; eauto)) as [_ ->]. destruct (decide (i = j)) as [<-|Hne].
    + rewrite m_find_assign_eq by exact Hs. now rewrite Hv.
    + rewrite m_find_assign_ne by congruence. apply Hg.
  - intros s m N H HN. destruct (implements_op MAll s m N H HN I) as (l & s' & Hm & Hs & Hg & Hrun & _). apply run_call in Hrun as (l' & Hrun & Hl'). injection Hl' as ->.
    pose proof (m_sorted_keys _ Hs) as Hk. exists l. assert (s' = s) as ->.
    { destruct Hm as [(lvs & ls & Hok & -> & Hb) _]. pose proof (range_ok special_case_new s lvs ls Hok (bounded_versions _ _ Hb (proj2 HN)) 0 (fun _ => false)) as Hr.
      unfold all_pairs in Hrun. rewrite Hr in Hrun. congruence. }
    split; [exact Hrun|]. split; [exact Hk|]. apply NoDup_Permutation; [now apply sorted_pairs_nodup|apply (NoDup_fmap_1 fst), sm_pairs_unique|].
    intros [i c]. rewrite sm_pairs_get, Hg, (m_find_In i c l Hs). apply list_elem_of_In.
Qed.

End Special.

Lemma tree_implements_special_map_witness : special_map_code (M := case_map).
Proof. apply (tree_implements_special_map (M := case_map)). Defined.
