(* ===== verification/SpecialRace.v ===== *)
(** * Reports of two threads at once

    The popworker and the specialcaseserver both call process_specialcase of
    farreach/switchos.c, whose mutex is commented out: the entry is read with [get]
    and written with [insert] or [update] later.  Here every report is a thread of
    its own with these two steps on the B+-tree of [ConcurrentMap], each atomic, and a
    schedule says whose turn it is.  What process_specialcase checks before it reads the
    entry depends on the backups only, which do not change meanwhile; it leaves reports
    whose key is the one the backup has for their entry.  [racing_reports]: no schedule makes the code fail, only reported
    cases are kept, and the closest one is kept as long as no two reports of an entry
    are between their steps at once.  [report_lost]: otherwise it can be lost. *)

From Stdlib Require Import ZArith Lia List.
From stdpp Require Import base tactics list numbers option gmap.
From S2P Require Import Prelude StdMap Key Val RocksdbWrapper SwitchOS SwitchRollback ConcurrentMap ConcurrentMapTree ConcurrentMapProps ConcurrentMapSpecial.

Open Scope Z_scope.

(** ** Threads *)

Definition rp_case (r : report) : SpecialCase := case_of (rp_key r) (rp_record r).

(** The branches behind [get], with the case it has found. *)
Definition write_case (r : report) (got : option SpecialCase) : cm unit :=
  match got with
  | None => cm_insert special_case_new (rp_idx r) (rp_case r)
  | Some tmpcase =>
      if sr_seq (rp_record r) <? sc_seq tmpcase then
        _ ← cm_assert (bool_decide (sc_key tmpcase = rp_key r));
        res ← cm_update (rp_idx r) (case_of (sc_key tmpcase) (rp_record r));
        cm_assert res
      else mret tt
  end.

Inductive Reporter :=
  | ToRead (r : report)
  | ToWrite (r : report) (got : option SpecialCase)
  | Finished (r : report).

Definition report_turn (t : Reporter) : cm Reporter :=
  match t with
  | ToRead r => got ← cm_get (rp_idx r); mret (ToWrite r got)
  | ToWrite r got => _ ← write_case r got; mret (Finished r)
  | Finished r => mret (Finished r)
  end.

(** A schedule: the numbers of the threads that move; a number without a thread is
    skipped. *)
Fixpoint run_schedule (sched : list nat) (ts : list Reporter) : cm (list Reporter) :=
  match sched with
  | [] => mret ts
  | i :: sched' =>
      match ts !! i with
      | None => run_schedule sched' ts
      | Some t => t' ← report_turn t; run_schedule sched' (<[i := t']> ts)
      end
  end.

(** ** The same on a list of pairs *)

Abbreviation cases := (list (Z * SpecialCase)).

Definition writes (r : report) (got : option SpecialCase) : bool :=
  match got with None => true | Some c => sr_seq (rp_record r) <? sc_seq c end.

Definition spec_turn (t : Reporter) (m : cases) : Reporter * cases :=
  match t with
  | ToRead r => (ToWrite r (m_find (rp_idx r) m), m)
  | ToWrite r got => (Finished r, if writes r got then m_put (rp_idx r) (rp_case r) m else m)
  | Finished r => (Finished r, m)
  end.

Fixpoint spec_schedule (sched : list nat) (ts : list Reporter) (m : cases) : list Reporter * cases :=
  match sched with
  | [] => (ts, m)
  | i :: sched' =>
      match ts !! i with
      | None => spec_schedule sched' ts m
      | Some t => let '(t', m') := spec_turn t m in spec_schedule sched' (<[i := t']> ts) m'
      end
  end.

(** No thread reads an entry another thread is about to write. *)
Definition in_between (idx : Z) (t : Reporter) : bool :=
  match t with ToWrite r _ => rp_idx r =? idx | _ => false end.
Definition may_move (ts : list Reporter) (t : Reporter) : bool :=
  match t with ToRead r => negb (existsb (in_between (rp_idx r)) ts) | _ => true end.

Fixpoint undisturbed (sched : list nat) (ts : list Reporter) (m : cases) : bool :=
  match sched with
  | [] => true
  | i :: sched' =>
      match ts !! i with
      | None => undisturbed sched' ts m
      | Some t => may_move ts t && let '(t', m') := spec_turn t m in undisturbed sched' (<[i := t']> ts) m'
      end
  end.

(** ** Steps of the tree *)

Lemma m_find_put i j (c : SpecialCase) m : m_find j (m_put i c m) = if decide (i = j) then Some c else m_find j m.
Proof.
  unfold m_put. destruct (decide (i = j)) as [<-|Hne].
  - destruct (m_find i m) eqn:E; [rewrite m_find_assign_eq|rewrite m_find_insert_eq]; now rewrite E.
  - destruct (m_find i m); [apply m_find_assign_ne|apply m_find_insert_ne]; congruence.
Qed.

Lemma tree_get s (m : cases) N i : map_ok s m N -> N < 2 ^ 60 - 1 -> cm_get i s = Ok (m_find i m, s).
Proof. intros [(lvs & ls & Hok & -> & Hb) _] HN. exact (get_ok s lvs ls N i Hok Hb HN). Qed.

Lemma map_ok_mono s (m : cases) N : map_ok s m N -> 0 <= N < 2 ^ 60 - 1 -> map_ok s m (N + 1).
Proof.
  intros [(lvs & ls & Hok & -> & Hb) Hs] HN. constructor; [|exact Hs]. exists lvs, ls. split; [exact Hok|]. split; [reflexivity|].
  apply (bounded_mono N); [lia|exact Hb].
Qed.

Lemma tree_put s (m : cases) N i c : map_ok s m N -> 0 <= N < 2 ^ 60 - 1 -> 0 <= i < 2 ^ 16 ->
  exists s', cm_insert special_case_new i c s = Ok (tt, s') /\ map_ok s' (m_put i c m) (N + 1).
Proof.
  intros Hm HN Hi. destruct (op_ok special_case_new (MInsert i c) s m N Hm HN Hi) as (s' & Hrun & Hm'). apply run_call in Hrun as ([] & Hrun & _). eauto.
Qed.

Lemma tree_update s (m : cases) N i c : map_ok s m N -> 0 <= N < 2 ^ 60 - 1 -> is_Some (m_find i m) ->
  exists s', cm_update i c s = Ok (true, s') /\ map_ok s' (m_put i c m) (N + 1).
Proof.
  intros Hm HN [v Hv]. destruct (op_ok special_case_new (MUpdate i c) s m N Hm HN I) as (s' & Hrun & Hm'). apply run_call in Hrun as (b & Hrun & Hb).
  cbn in Hb, Hm'. unfold m_put. rewrite Hv in *. injection Hb as ->. eauto.
Qed.

(** ** What all threads know *)

Section Reports.
Context (key_of : Z -> Key).

Definition rp_ok (r : report) : Prop := 0 <= rp_idx r < 2 ^ 16 /\ rp_key r = key_of (rp_idx r).
Definition thread_rp (t : Reporter) : report := match t with ToRead r | ToWrite r _ | Finished r => r end.

(** Every thread has a report of [rs], found only reported cases, and nothing is
    ever removed. *)
Record reported (rs : list report) (ts : list Reporter) (m : cases) : Prop := {
  rd_rps : map thread_rp ts = rs;
  rd_kept i c : m_find i m = Some c -> exists r, r ∈ rs /\ rp_idx r = i /\ c = rp_case r;
  rd_got r c : ToWrite r (Some c) ∈ ts -> sc_key c = rp_key r /\ is_Some (m_find (rp_idx r) m);
  rd_done r : Finished r ∈ ts -> is_Some (m_find (rp_idx r) m)
}.

Lemma elem_insert {A} (l : list A) i x y : y ∈ <[i := x]> l -> y = x \/ y ∈ l.
Proof.
  intros [j Hj]%list_elem_of_lookup. apply list_lookup_insert_Some in Hj as [(_ & -> & _)|(_ & Hj)]; [now left|right]. eapply list_elem_of_lookup_2, Hj.
Qed.

Lemma spec_turn_rp t m : thread_rp (spec_turn t m).1 = thread_rp t.
Proof. now destruct t. Qed.

(** Cases are only added. *)
Lemma spec_turn_grows t m i : is_Some (m_find i m) -> is_Some (m_find i (spec_turn t m).2).
Proof.
  intros H. destruct t as [r|r got|r]; cbn; [exact H| |exact H]. destruct (writes r got); [|exact H]. rewrite m_find_put. destruct decide; [eauto|exact H].
Qed.

Lemma turn_reported rs ts m i t : Forall rp_ok rs -> reported rs ts m -> ts !! i = Some t ->
  reported rs (<[i := (spec_turn t m).1]> ts) (spec_turn t m).2.
Proof.
  intros Hrs H Ht. pose proof (list_elem_of_lookup_2 _ _ _ Ht) as Hin. assert (Hr : thread_rp t ∈ rs). { rewrite <- (rd_rps _ _ _ H). now apply list_elem_of_fmap_2. }
  constructor.
  - rewrite list_fmap_insert, spec_turn_rp, <- (rd_rps _ _ _ H). apply list_insert_id. rewrite list_lookup_fmap. now rewrite Ht.
  - intros j c Hc. destruct t as [r|r got|r]; cbn in Hc; [now apply (rd_kept _ _ _ H)| |now apply (rd_kept _ _ _ H)]. destruct (writes r got); [|now apply (rd_kept _ _ _ H)].
    rewrite m_find_put in Hc. destruct decide as [<-|_]; [|now apply (rd_kept _ _ _ H)]. injection Hc as <-. exists r. auto.
  - intros r c Hc. apply elem_insert in Hc as [Hc|Hc].
    + destruct t as [r0|r0 got|r0]; try discriminate. cbn in Hc. injection Hc as <- Hc. split; [|cbn; rewrite <- Hc; eauto]. symmetry in Hc.
      apply (rd_kept _ _ _ H) in Hc as (r' & Hr' & Hi & ->). rewrite Forall_forall in Hrs. destruct (Hrs _ Hr') as [_ E'], (Hrs _ Hr) as [_ E]. cbn in *. now rewrite E', E, Hi.
    + destruct (rd_got _ _ _ H _ _ Hc) as [Hk Hs]. split; [exact Hk|now apply spec_turn_grows].
  - intros r Hc. apply elem_insert in Hc as [Hc|Hc]; [|now apply spec_turn_grows, (rd_done _ _ _ H)].
    destruct t as [r0|r0 got|r0]; cbn in Hc; [discriminate| |]; injection Hc as <-; cbn.
    + destruct got as [c|]; cbn; [destruct (_ <? _)|]; rewrite ?m_find_put, ?decide_True by reflexivity; eauto. apply (rd_got _ _ _ H _ _ Hin).
    + now apply (rd_done _ _ _ H).
Qed.

(** The code takes the step of the specification. *)
Lemma turn_ok rs ts s m N t : Forall rp_ok rs -> reported rs ts m -> t ∈ ts -> map_ok s m N -> 0 <= N < 2 ^ 60 - 1 ->
  exists s', report_turn t s = Ok ((spec_turn t m).1, s') /\ map_ok s' (spec_turn t m).2 (N + 1).
Proof.
  intros Hrs H Hin Hm HN. assert (Hr : rp_ok (thread_rp t)). { rewrite Forall_forall in Hrs. apply Hrs. rewrite <- (rd_rps _ _ _ H). now apply list_elem_of_fmap_2. }
  destruct t as [r|r got|r]; cbn [report_turn spec_turn fst snd]; [| |exists s; split; [reflexivity|now apply map_ok_mono]]; unfold mbind, cm_bind.
  - rewrite (tree_get s m N _ Hm) by lia. exists s. split; [reflexivity|now apply map_ok_mono].
  - destruct got as [c|]; cbn [write_case writes].
    + destruct (rd_got _ _ _ H _ _ Hin) as [Hk Hs]. destruct (_ <? _); [|exists s; split; [reflexivity|now apply map_ok_mono]].
      destruct (tree_update s m N (rp_idx r) (rp_case r) Hm HN Hs) as (s' & Hu & Hm'). exists s'. unfold mbind, cm_bind, cm_assert, cm_lift.
      rewrite bool_decide_eq_true_2 by exact Hk. cbn. unfold rp_case in Hu. rewrite Hk, Hu. now split.
    + destruct (tree_put s m N (rp_idx r) (rp_case r) Hm HN (proj1 Hr)) as (s' & -> & Hm'). eauto.
Qed.

Lemma schedule_ok rs sched : Forall rp_ok rs -> forall ts s m N, reported rs ts m -> map_ok s m N -> 0 <= N -> N + Z.of_nat (length sched) < 2 ^ 60 - 1 ->
  exists s', run_schedule sched ts s = Ok ((spec_schedule sched ts m).1, s') /\ map_ok s' (spec_schedule sched ts m).2 (N + Z.of_nat (length sched)) /\
    reported rs (spec_schedule sched ts m).1 (spec_schedule sched ts m).2.
Proof.
  intros Hrs. induction sched as [|i sched IH]; intros ts s m N H Hm HN Hlen; cbn [length run_schedule spec_schedule] in *.
  - exists s. rewrite Z.add_0_r. auto.
  - replace (N + Z.of_nat (S (length sched))) with (N + 1 + Z.of_nat (length sched)) by lia. destruct (ts !! i) as [t|] eqn:Ht.
    + destruct (turn_ok rs ts s m N t Hrs H (list_elem_of_lookup_2 _ _ _ Ht) Hm) as (s1 & Hrun & Hm1); [lia|]. unfold mbind, cm_bind. rewrite Hrun.
      pose proof (turn_reported rs ts m i t Hrs H Ht) as H1. destruct (spec_turn t m) as [t' m']. apply IH; [exact H1|exact Hm1|lia|lia].
    + apply IH; [exact H|apply map_ok_mono; [exact Hm|lia]|lia|lia].
Qed.
End Reports.

(** ** Undisturbed schedules *)

(** A thread that has read an entry knows what is there, and a finished one is not
    closer to the snapshot than what is kept. *)
Record settled (ts : list Reporter) (m : cases) : Prop := {
  st_alone i j r r' got got' : ts !! i = Some (ToWrite r got) -> ts !! j = Some (ToWrite r' got') -> rp_idx r = rp_idx r' -> i = j;
  st_got r got : ToWrite r got ∈ ts -> got = m_find (rp_idx r) m;
  st_done r : Finished r ∈ ts -> exists c, m_find (rp_idx r) m = Some c /\ sc_seq c <= sr_seq (rp_record r)
}.

Lemma in_between_none ts r r' got j : existsb (in_between (rp_idx r)) ts = false -> ts !! j = Some (ToWrite r' got) -> rp_idx r <> rp_idx r'.
Proof.
  intros He Hj Hi. apply not_true_iff_false in He. apply He, existsb_exists. exists (ToWrite r' got).
  split; [apply list_elem_of_In; eapply list_elem_of_lookup_2, Hj|cbn; now apply Z.eqb_eq].
Qed.

Lemma read_settled ts m i r : settled ts m -> ts !! i = Some (ToRead r) -> existsb (in_between (rp_idx r)) ts = false ->
  settled (<[i := ToWrite r (m_find (rp_idx r) m)]> ts) m.
Proof.
  intros H Hi He. constructor.
  - intros a b r1 r2 g1 g2 Ha Hb Hr. apply list_lookup_insert_Some in Ha as [(<- & Ha & _)|(Hia & Ha)], Hb as [(<- & Hb & _)|(Hib & Hb)]; [reflexivity| | |].
    + injection Ha as -> _. now destruct (in_between_none _ _ _ _ _ He Hb).
    + injection Hb as -> _. now destruct (in_between_none _ _ _ _ _ He Ha).
    + exact (st_alone _ _ H _ _ _ _ _ _ Ha Hb Hr).
  - intros r1 g1 [[= -> ->]|Hin]%elem_insert; [reflexivity|now apply (st_got _ _ H)].
  - intros r1 [|Hin]%elem_insert; [discriminate|now apply (st_done _ _ H)].
Qed.

Lemma write_settled ts m i r got : settled ts m -> ts !! i = Some (ToWrite r got) ->
  settled (<[i := Finished r]> ts) (if writes r got then m_put (rp_idx r) (rp_case r) m else m).
Proof.
  intros H Hi. pose proof (st_got _ _ H r got (list_elem_of_lookup_2 _ _ _ Hi)) as Hg.
  set (m' := if writes r got then _ else _). assert (Hother : forall j, j <> rp_idx r -> m_find j m' = m_find j m).
  { intros j Hj. subst m'. destruct (writes r got); [|reflexivity]. now rewrite m_find_put, decide_False by congruence. }
  assert (Hown : exists c, m_find (rp_idx r) m' = Some c /\ sc_seq c <= sr_seq (rp_record r) /\ forall c', m_find (rp_idx r) m = Some c' -> sc_seq c <= sc_seq c').
  { subst m'. destruct got as [c0|]; cbn [writes]; [destruct (Z.ltb_spec (sr_seq (rp_record r)) (sc_seq c0))|]; rewrite ?m_find_put, ?decide_True by reflexivity;
      rewrite <- Hg; eexists; (split; [reflexivity|]); (split; [cbn; lia|]); intros c' [= <-]; cbn; lia. }
  constructor.
  - intros a b r1 r2 g1 g2 Ha Hb. apply list_lookup_insert_Some in Ha as [(_ & ? & _)|(_ & Ha)]; [discriminate|]. apply list_lookup_insert_Some in Hb as [(_ & ? & _)|(_ & Hb)]; [discriminate|].
    exact (st_alone _ _ H _ _ _ _ _ _ Ha Hb).
  - intros r1 g1 [j Hj]%list_elem_of_lookup. apply list_lookup_insert_Some in Hj as [(_ & ? & _)|(Hne & Hj)]; [discriminate|].
    rewrite (st_got _ _ H r1 g1 (list_elem_of_lookup_2 _ _ _ Hj)). symmetry. apply Hother. intros Hr. apply Hne. exact (st_alone _ _ H _ _ _ _ _ _ Hi Hj (eq_sym Hr)).
  - destruct Hown as (c & Hc & Hle & Hmin). intros r1 [[= ->]|Hin]%elem_insert; [eauto|]. destruct (st_done _ _ H r1 Hin) as (c1 & Hc1 & Hle1).
    destruct (decide (rp_idx r1 = rp_idx r)) as [E|Hne]; [|rewrite Hother by exact Hne; eauto]. rewrite E in *. exists c. split; [exact Hc|]. specialize (Hmin _ Hc1). lia.
Qed.

Lemma schedule_settled sched : forall ts m, settled ts m -> undisturbed sched ts m = true -> settled (spec_schedule sched ts m).1 (spec_schedule sched ts m).2.
Proof.
  induction sched as [|i sched IH]; intros ts m H Hu; cbn [spec_schedule undisturbed] in *; [exact H|]. destruct (ts !! i) as [t|] eqn:Ht; [|now apply IH].
  apply andb_true_iff in Hu as [Hmay Hu]. destruct t as [r|r got|r]; cbn [spec_turn] in *.
  - apply IH; [|exact Hu]. apply read_settled; [exact H|exact Ht|]. now apply negb_true_iff.
  - apply IH; [|exact Hu]. now apply write_settled.
  - rewrite list_insert_id in Hu |- * by exact Ht. now apply IH.
Qed.

Lemma start_settled rs : settled (map ToRead rs) [].
Proof.
  assert (H : forall t, t ∈ map ToRead rs -> exists r, t = ToRead r). { intros t (r & -> & _)%list_elem_of_fmap. eauto. }
  constructor.
  - intros i j r r' g g' Hi. apply list_elem_of_lookup_2, H in Hi as [? ?]. discriminate.
  - intros r g Hin. apply H in Hin as [? ?]. discriminate.
  - intros r Hin. apply H in Hin as [? ?]. discriminate.
Qed.

Lemma start_reported rs : reported rs (map ToRead rs) [].
Proof.
  assert (H : forall t, t ∈ map ToRead rs -> exists r, t = ToRead r). { intros t (r & -> & _)%list_elem_of_fmap. eauto. }
  constructor.
  - rewrite map_map. apply map_id.
  - discriminate.
  - intros r c Hin. apply H in Hin as [? ?]. discriminate.
  - intros r Hin. apply H in Hin as [? ?]. discriminate.
Qed.

(** ** The theorems *)

(** C6: the two threads that report special cases may interleave.  Reports of entries
    whose keys do not change, each in two steps (get, then insert or update) and run
    on a new tree by any schedule: no assertion fails, what is kept for an entry is
    the case of one of its reports, and something is kept for every finished report.
    If no report reads an entry while another one is about to write it, what is kept
    is at least as close to the snapshot as every finished report. *)
Theorem racing_reports (key_of : Z -> Key) (rs : list report) (sched : list nat) :
  Forall (rp_ok key_of) rs -> Z.of_nat (length sched) < 2 ^ 60 - 1 ->
  exists s0 ts s, ConcurrentMap_new special_case_new = Ok s0 /\ run_schedule sched (map ToRead rs) s0 = Ok (ts, s) /\ map thread_rp ts = rs /\
    forall i, exists kept, cm_get i s = Ok (kept, s) /\
      (forall c, kept = Some c -> exists r, r ∈ rs /\ rp_idx r = i /\ c = rp_case r) /\
      forall r, Finished r ∈ ts -> rp_idx r = i ->
        exists c, kept = Some c /\ (undisturbed sched (map ToRead rs) [] = true -> sc_seq c <= sr_seq (rp_record r)).
Proof.
  intros Hrs Hlen. destruct (new_ok special_case_new) as (s0 & Hnew & Hm).
  destruct (schedule_ok key_of rs sched Hrs _ s0 [] 0 (start_reported rs) Hm) as (s & Hrun & Hm' & Hrep); [lia|lia|].
  pose proof (schedule_settled sched (map ToRead rs) [] (start_settled rs)) as Hset. destruct (spec_schedule sched (map ToRead rs) []) as [ts m]. cbn [fst snd] in *.
  exists s0, ts, s. split; [exact Hnew|]. split; [exact Hrun|]. split; [apply Hrep|]. intros i. exists (m_find i m).
  split; [apply (tree_get s m _ i Hm'); lia|]. split; [intros c; apply (rd_kept _ _ _ Hrep)|]. intros r Hr <-.
  destruct (rd_done _ _ _ Hrep r Hr) as [c Hc]. exists c. split; [exact Hc|]. intros Hu. destruct (st_done _ _ (Hset Hu) r Hr) as (c' & Hc' & Hle). congruence.
Qed.

(** C7: of two reports of an entry that overlap, the one closest to the snapshot can
    be lost.  If both threads read the entry before either writes it, the later record
    overwrites the earlier one and ends up in the snapshot, while the same reports one
    after the other, in either order, keep the earlier record. *)
Theorem report_lost (key_of : Z -> Key) (r1 r2 : report) : rp_ok key_of r1 -> rp_ok key_of r2 -> rp_idx r1 = rp_idx r2 ->
  sr_seq (rp_record r1) < sr_seq (rp_record r2) ->
  exists s0, ConcurrentMap_new special_case_new = Ok s0 /\
    (exists s, run_schedule [0; 1; 0; 1]%nat [ToRead r1; ToRead r2] s0 = Ok ([Finished r1; Finished r2], s) /\ cm_get (rp_idx r1) s = Ok (Some (rp_case r2), s)) /\
    (exists s, run_schedule [0; 0; 1; 1]%nat [ToRead r1; ToRead r2] s0 = Ok ([Finished r1; Finished r2], s) /\ cm_get (rp_idx r1) s = Ok (Some (rp_case r1), s)) /\
    (exists s, run_schedule [1; 1; 0; 0]%nat [ToRead r1; ToRead r2] s0 = Ok ([Finished r1; Finished r2], s) /\ cm_get (rp_idx r1) s = Ok (Some (rp_case r1), s)).
Proof.
  intros H1 H2 Hi Hlt. destruct (new_ok special_case_new) as (s0 & Hnew & Hm). exists s0. split; [exact Hnew|].
  assert (Hrun : forall sched, Z.of_nat (length sched) < 2 ^ 60 - 1 -> exists s, run_schedule sched [ToRead r1; ToRead r2] s0 = Ok ((spec_schedule sched [ToRead r1; ToRead r2] []).1, s) /\
    cm_get (rp_idx r1) s = Ok (m_find (rp_idx r1) (spec_schedule sched [ToRead r1; ToRead r2] []).2, s)).
  { intros sched Hlen. destruct (schedule_ok key_of [r1; r2] sched ltac:(auto) _ s0 [] 0 (start_reported [r1; r2]) Hm) as (s & Hrun & Hm' & _); [lia|lia|].
    exists s. split; [exact Hrun|]. apply (tree_get s _ _ _ Hm'). lia. }
  assert (Hnil : m_find (rp_idx r1) ([] : cases) = None) by reflexivity.
  split; [|split]; (edestruct Hrun as (s & Hr & Hg); [|exists s; split; [exact Hr|]; rewrite Hg; f_equal; f_equal; clear Hrun Hr Hg]; [cbn; lia|]);
    cbn -[m_put m_find]; rewrite <- Hi, Hnil; cbn -[m_put m_find]; rewrite ?m_find_put, ?decide_True by auto; cbn -[m_put m_find].
  - reflexivity.
  - rewrite (proj2 (Z.ltb_ge _ _)) by lia. now rewrite m_find_put, decide_True by auto.
  - rewrite (proj2 (Z.ltb_lt _ _)) by lia. now rewrite m_find_put, decide_True by auto.
Qed.

(** Two reports of entry 3, and one of entry 4. *)
Definition demo_rp (idx seq : Z) : report := mkReport idx Key_default (mkSnapshotRecord Val_default seq true).
Definition demo_rps : list report := [demo_rp 3 5; demo_rp 4 7; demo_rp 3 2].
Definition demo_sched : list nat := [0; 1; 0; 2; 1; 2]%nat.

Lemma demo_rps_ok : Forall (rp_ok (fun _ => Key_default)) demo_rps.
Proof. repeat constructor; cbn; lia. Qed.

Lemma racing_reports_witness : undisturbed demo_sched (map ToRead demo_rps) [] = true /\
  exists s0 ts s, ConcurrentMap_new special_case_new = Ok s0 /\ run_schedule demo_sched (map ToRead demo_rps) s0 = Ok (ts, s) /\ map thread_rp ts = demo_rps /\
    forall i, exists kept, cm_get i s = Ok (kept, s) /\
      (forall c, kept = Some c -> exists r, r ∈ demo_rps /\ rp_idx r = i /\ c = rp_case r) /\
      forall r, Finished r ∈ ts -> rp_idx r = i ->
        exists c, kept = Some c /\ (undisturbed demo_sched (map ToRead demo_rps) [] = true -> sc_seq c <= sr_seq (rp_record r)).
Proof. split; [reflexivity|]. apply (racing_reports (fun _ => Key_default) demo_rps demo_sched demo_rps_ok). cbn. lia. Defined.

Lemma report_lost_witness : exists s0, ConcurrentMap_new special_case_new = Ok s0 /\
  exists s, run_schedule [0; 1; 0; 1]%nat [ToRead (demo_rp 3 2); ToRead (demo_rp 3 5)] s0 = Ok ([Finished (demo_rp 3 2); Finished (demo_rp 3 5)], s) /\
    cm_get 3 s = Ok (Some (rp_case (demo_rp 3 5)), s).
Proof.
  destruct (report_lost (fun _ => Key_default) (demo_rp 3 2) (demo_rp 3 5)) as (s0 & Hnew & Hlost & _); [split; cbn; (lia || reflexivity)..|reflexivity|cbn; lia|].
  exists s0. split; [exact Hnew|exact Hlost].
Defined.
